(* ===== verification/_CoqProject ===== *)
-Q . S2P
Prelude.v
JsString.v
JsNumber.v
Syntax.v
Parser.v
ParserFacts.v
Compile.v
Runtime.v
CompileFacts.v
RuntimeFacts.v
EvalFacts.v
Structure.v
Display.v
DisplayFacts.v
PriceTableFacts.v
Visual.v
VisualFacts.v
Json.v
BillingExpr.v
TierExpr.v
EditorFacts.v
TaskExpr.v
TaskExprFacts.v
TaskDisplay.v
TaskDisplayFacts.v
TaskAmounts.v
ConditionDisplay.v
LanguageTheorems.v
EditorTheorems.v
JsText.v
JsonPrint.v
AuthStore.v
AuthSession.v
AuthSessionFacts.v
AuthSessionTheorems.v
HttpClient.v
HttpClientFacts.v
StatusRules.v
Playground.v
PlaygroundStream.v
PlaygroundFacts.v
PlaygroundTheorems.v
AdvancedCustom.v
AdvancedCustomFacts.v
AdvancedCustomTheorems.v
PlaygroundSchema.v
PlaygroundStorage.v
PlaygroundStorageTheorems.v
PlaygroundState.v
PlaygroundStateTheorems.v
Catalogue.v
DynamicPrice.v
CatalogueTheorems.v
JsDynamic.v
PluginCommon.v
PluginSora.v
PluginKling.v
PluginVidu.v
PluginGoogle.v
PluginVertex.v
PluginJimeng.v
PluginHailuo.v
PluginSuno.v
Seedream.v
PluginDoubao.v
LocalDoubao.v
AlibabaImages.v
AlibabaVideos.v
PluginAlibaba.v
AlibabaStream.v
PluginUsage.v
PluginBilling.v
PluginVideoFacts.v
DoubaoFacts.v
AlibabaStreamFacts.v
AlibabaFacts.v
PluginInterfaces.v
PluginTheorems.v
DoubaoTheorems.v
AlibabaTheorems.v
