(* ===== verification/Prelude.v ===== *)
(** * Verification of the web console and the task plugins of the token gateway

    The console ([web/src]) administers an API gateway, and the task plugins
    ([plugins/tasks], [plugins/local]) are the scripts with which the gateway
    submits, polls, renders and bills video, image and music tasks of the
    providers.  This library models their own logic, component by component,
    and proves that the parts fit together: billing expressions, the catalogue
    of models, the login session with the API client, custom channel routes,
    status code rules, the playground, and the plugins.

    The gateway prices requests with small expressions such as
    [p <= 1000 ? tier(a, p * 2 + c * 8) : tier(b, fixed(0.5))] (with quoted
    names).  The console ([features/pricing/lib]) has its own implementation
    of the language: a lexer and parser, a type checker, an
    evaluator that must agree with the Go engine, readers that turn an
    expression into a price table, a visual editor that patches the text, an
    editor of request rules, an editor of task prices and a cost estimator.

    ** Parts of the program and files

    - [Prelude]: the [result] monad for code that throws, the development's
      tactics ([inv_ok], [bools], [conjs]) and the hint database [billing].
    - [JsString], [JsNumber], [Json]: the parts of the language and its
      library that the code uses: strings as lists of UTF-16 code units, [trim],
      [startsWith], [includes], [join], [JSON.stringify]; numbers as binary64
      ([SpecFloat]) with [Number(text)], [String(number)] and [toExponential];
      [JSON.parse].
    - [Syntax] ([billing-expression/types.ts]): nodes with spans, diagnostics,
      [expressionFailure], [visitExpression] with its explicit stack,
      [expressionDependencies].
    - [Parser], [ParserFacts] ([parser.ts], class [BillingParser]): the
      tokenizer [next] and the mutual recursion [expression], [binary_loop],
      [primary], [arguments]; the fields [cursor], [count] and [current] are the
      record [pstate], [depth] is an argument.
    - [Compile], [CompileFacts] ([parser.ts], the functions): the type checker
      over a map of node types, request-rule extraction, the validation of fixed
      prices and [compileBillingExpression] with the module cache as state.
    - [Runtime], [RuntimeFacts], [EvalFacts] ([runtime.ts]): class [BillingRuntime]; its mutable fields
      ([requestRules], [matchedTier], [billingUnit], [fixedPrice],
      [timeValues]) are the record [rstate], its constants the record [renv];
      [readRequestPath], [billingString] (the text Go prints for a value),
      [timeInBillingZone], [evaluateBillingExpression].
    - [Structure] ([structure.ts]): splitting at top-level operators and
      removing outer parentheses.
    - [Display], [DisplayFacts], [PriceTableFacts] ([display.ts]): price tables for token, time-dependent and task prices.
    - [Visual], [VisualFacts] ([visual.ts]): the visual document, the writers
      that patch source spans, [serializeVisualBillingDocument].
    - [BillingExpr] ([billing-expr.ts]): the registry of variables, the
      request-rule parser and builder, the separation and recombination of base
      expression and rules; [TierExpr] ([tier-expr.ts],
      [breakdown-tier-match.ts]): the expression generated from a tier table,
      the estimator, and the row of a breakdown that is marked as settled;
      [EditorFacts]: the lemmas of both.
    - [TaskExpr], [TaskExprFacts] ([task-expr.ts]): fields and combinations of
      a usage schema, price matrix, visual tiers, generated expressions,
      previews.
    - [TaskDisplay], [TaskDisplayFacts], [TaskAmounts]
      ([billing-expression/task-display.ts], [task-matrix-display.ts]): task prices under conditions, by combinations of
      usage facts.  The amounts are those of the class [Arithmetic]: [binary64]
      is what the code computes, [rational] the exact price.
    - [ConditionDisplay] ([billing-expression/condition-display.ts]): texts of
      conditions, and when the ranges they name hold.
    - [LanguageTheorems], [EditorTheorems]: the theorems with an instance of
      each on concrete data, and the fixtures the repository shares between the
      Go engine and the console.
    - [Catalogue], [DynamicPrice], [CatalogueTheorems] ([filters.ts],
      [model-helpers.ts], [price.ts], [plugin-pricing.ts], [billing-mode.ts],
      [dynamic-price.ts], labels of [task-price-display.ts],
      [lib/localized-text.ts]): selection, order and prices of models, the
      summary of dynamic prices on a card, and localised labels.
    - [JsText], [JsonPrint]: more of the language: coercions and
      [JSON.stringify] with and without a gap, with the round trip through
      [JSON.parse].
    - [AuthStore], [AuthSession], [AuthSessionFacts], [AuthSessionTheorems]
      ([stores/auth-store.ts], [lib/auth-session.ts], [lib/session-hint.ts],
      [lib/auth-session-sync.ts], [routes/__root.tsx]): the store, the refresh
      runner with its shared promise, retries and browser lock, sign-out, and
      the events between tabs; the record [world] is one tab.
    - [HttpClient], [HttpClientFacts] ([lib/http-client.ts],
      [features/auth/api.ts]): interceptors, replay after a refresh, shared
      reads, logout.
    - [StatusRules] ([lib/http-status-code-rules.ts]).
    - [AdvancedCustom], [AdvancedCustomFacts], [AdvancedCustomTheorems]
      ([features/channels/lib/advanced-custom.ts]): route tables as dynamic
      values, their validation, text and edits.
    - [Playground] ([features/playground/lib/message], [lib/streaming]):
      messages; [PlaygroundStream], [PlaygroundFacts], [PlaygroundTheorems]
      ([hooks/use-stream-request.ts], [hooks/use-chat-handler.ts]): the stream
      controller and the chat handler;
      [PlaygroundSchema], [PlaygroundStorage], [PlaygroundStorageTheorems]
      ([lib/storage], [lib/state]): stored conversations and settings;
      [PlaygroundState], [PlaygroundStateTheorems] ([hooks/use-playground-state.ts],
      [hooks/use-playground-options.ts], [hooks/use-playground-conversation.ts],
      [lib/options], [lib/input]): the page.
    - [JsDynamic]: plain JavaScript over values whose shape nobody checked:
      property access that throws on [null] and [undefined], coercions,
      [Object.assign], [parseInt], [Math.round] and the string methods.
    - [PluginCommon]: the functions each plugin repeats for the protocols of
      the gateway ([responsesInput], [renderEvents], [responsesVideoText],
      [artifactData]); [PluginSora], [PluginKling], [PluginVidu],
      [PluginGoogle], [PluginVertex], [PluginJimeng], [PluginHailuo],
      [PluginSuno] ([plugins/tasks/*/plugin.js]): one plugin each, all hooks:
      [buildSubmitRequest], [parseSubmitResponse], [extractUsage], polling,
      artifacts, native routes and the protocols.
    - [Seedream] (models, sizes, images and drafts of
      [plugins/tasks/doubao/plugin.js]), [PluginDoubao] (its hooks) and
      [LocalDoubao] ([plugins/local/doubao.js], [seedance_video_storage.js],
      [seedance_enhance.js]): the same plugin extended with a second protocol
      towards the provider, which the state of a task pins.
    - [AlibabaImages] (image models and their parameters), [AlibabaVideos]
      (video models, media, the normal form of requests and its conversion),
      [PluginAlibaba] (hooks), [AlibabaStream] (answers that come as events),
      all of [plugins/tasks/alibaba/plugin.js].  The stream is composed with
      the host that applies the changes of each event to the document it keeps
      ([change_at], [apply_changes], [readSubmitEvents]), with at most 256
      changes an event and the other limits of size an argument [fits].
    - [PluginUsage], [PluginBilling], [PluginVideoFacts],
      [DoubaoFacts], [AlibabaStreamFacts], [AlibabaFacts]: their lemmas;
      [PluginInterfaces]: what every plugin promises to the gateway, as classes
      with laws ([Rendering], [Artifacts], [Polling]) and an instance for each
      plugin; [PluginTheorems], [DoubaoTheorems], [AlibabaTheorems]: the theorems.

    ** How the code is modelled

    A function that may throw returns [result exn]; [exn] has the code's own
    [BillingExpressionError], [HostError] for exceptions of the language
    ([TypeError] on a missing argument, [SyntaxError] of [JSON.parse]) and
    [OutOfFuel], which no JavaScript run produces.  A reader that may also
    return [null] is a [reader] ([Err None] is [null]).  Object identity of tree
    nodes is structural equality of nodes with their spans; [parse_wf]
    shows that the spans of a parsed tree are strictly nested, so distinct
    nodes differ.  Anchored regular expressions are left-to-right matchers.
    Objects with computed keys are association lists in insertion order (keys
    that are array indices, which JavaScript enumerates first, and names of
    [Object.prototype] are outside the model).
    [String.prototype.toLowerCase], [Intl.DateTimeFormat] and
    [String.prototype.localeCompare] rest on Unicode and time-zone data of the
    host: the class [Host] and the argument [locale_le] stand for them, without
    any assumption but the one named below, so the theorems hold for every host.

    An asynchronous function is cut at its awaits: the continuation is a
    constructor, and a step resumes it with any answer, so that every other
    event of the tab may come in between.  A state variable of React is a
    value with the updaters that wait for the next render; an updater may also
    run at once.  A function that reads the clock several times without an
    await reads it once.  Values whose type the code does not check (custom
    routes, stored data) are the dynamic values [jsval].  The classes
    [Platform] (random identifiers, broadcast channels, locks), [UrlHost]
    ([new URL]) and the arguments for translations and currency texts carry no
    assumptions; [Zod] stands for the validation library, whose law
    [zod_accepts] says that a value with exactly the declared fields is
    returned as it is ([strict_zod] satisfies it).  The plugins run in the
    gateway: [TaskHost] stands for what it lends them (the clock, base64,
    signatures, upper case), and [TaskHostLaws] says what the theorems use of
    it: the case conversions on ASCII text, and that decoding base64 undoes
    encoding ([plain_tasks] satisfies them).  [Math.round] is
    modelled for numbers that are not negative, which is how the plugins use
    it, and the labels of schemas and examples, which are only shown, are left
    out.

    ** Bounds and fuel

    The limits of the code are kept: 65536 code units, 10000 tokens, parser
    depth 128, traversal and evaluation depth 256, value depth 128, 128 cache
    entries.  The parser recursion takes fuel from the length of the text, and
    [parse_never_out_of_fuel] shows that it is always enough; the splitters take the
    length of the text plus one, and their specifications show that they
    return.  [evaluate] is structural.  [JSON.parse] takes fuel from the
    length of the text and the reasoning tags from the length of the answer,
    both proved sufficient by their round trips.  From every reachable state a
    refresh settles after at most 17 answers, and a request is sent at most
    twice.

    ** What the theorems show

    - Tables and bills ([EditorTheorems]): a displayed token,
      time or task table, or a task price matrix, is what the evaluator bills:
      the settled tier is the first displayed one whose conditions hold, at its
      prices; and the settled row is one the breakdown marks.  Of the rows of a
      task price under conditions exactly one is in force, it is the settled
      one, and its amount in exact arithmetic is the price of the expression.
      The ranges in which a condition on the time is described are the times at
      which it holds, for comparisons with whole numbers from -100 to 100 on a
      host whose clock fields are in their domains ([parts_in_domain]).
    - Evaluator ([LanguageTheorems]): a request rule is marked exactly when this
      run evaluates it and its condition is true there, commitment to one
      fixed price, type preservation, classification of failures, independence
      of unnamed context and of the interpreter's own state; UTC calendar.
    - Compiler and parser ([LanguageTheorems]): the checker decides typing, the
      cache is transparent, the iterative traversal is a bounded postorder,
      parsed trees are well placed, parsing terminates, dependencies are exact.
    - Editors ([EditorTheorems]): lossless visual round trip,
      exact splitting and unwrapping, time conditions and literals survive the
      rule editor, the combinations of a schema and the tiers of a matrix are
      complete, normalisations are idempotent, estimates lack only probed
      context, rule parsing fails only with a [SyntaxError].
    - Catalogue ([CatalogueTheorems]): offered tags select, the kinds of
      billing partition, the displayed ratio is the least configured one, the
      ranges of a card are exact over the tiers of a model and over its
      providers, and every price of a card is shown once.
    - Session ([AuthSessionTheorems], [HttpClientFacts]): a newer operation
      wins over an older refresh, refreshes settle, the state stays
      consistent, tabs sign out together, requests carry the current token, are
      repeated at most once, and shared reads never cross sessions.
    - Channels and rules ([AdvancedCustomTheorems], [StatusRules]): the
      validator decides a declarative notion of valid tables, saved
      configurations reopen, edits keep other routes, rules have a normal form.
    - Playground: callbacks of a stream come in order and none after a stop, a
      disposal or a newer request; a stopped chat is final; streamed text
      accumulates; settings survive storage; a conversation within the limits
      of the storage, with settled messages and no repeated sections to
      collapse, survives storage and outlives the page that showed it.
    - Plugins ([PluginTheorems], [DoubaoTheorems], [AlibabaTheorems]): what a client asks for is
      what is sent and what is billed, within the schema the console prices;
      settlement is bounded; a finished task is settled on what its body
      reports or is pending; events are exactly the changes of a task; listed
      artifacts are served; a polled status is one of the known ones; the text
      of a video is one element; drafts are origin tasks; the protocol of a
      task is pinned; a task of a Videos protocol delivers the first address a
      client can open; the document built from a stream is the answer its
      events carry.  The
      laws of the interfaces are proved once per plugin and the theorems once
      per interface.
    - Contract: the model reproduces the shared simulation fixtures.
    - Disagreements: theorems that exhibit concrete inputs on which two parts
      of the code disagree (a sum of dynamic operands, the two depth limits,
      rules and sums changed by saving, rules that cannot be reopened, a splitter that
      throws, repeated image scaling, a lost lock, dropped text of a stopped or
      reloaded conversation, a best price that is not the best, a price of
      tokens in the wrong unit, images and durations a plugin accepts and does
      not send, a duration sent and not billed, an address passed on
      unchecked).

    ** Not modelled

    [tryParseVisualConfig] of [tier-expr.ts] (composed backtracking patterns),
    [stripTrailingZeros] of [price.ts], currency texts ([lib/currency.ts], on
    [Intl]), the parameter inputs of the playground, the remaining React user
    interface, and the Go backend.

    ** Next steps

    A pattern engine for [tryParseVisualConfig]; print and
    parse: that the text generated from a task or tier configuration compiles
    to a tree that is read back as that configuration, with
    [Number(String(x)) = x]; validation of model mappings and the forms of
    channels; the composition of the chat handler with the page. *)
From stdpp Require Import base list option numbers sets.
From Stdlib Require Import Lia.

(** ** Fallible code

    A TypeScript function that may [throw] returns a [result]: [Ok] is a
    normal return, [Err] is the thrown value.  The stdpp monad classes give
    the notation [x ← c; k] for "call [c], let exceptions propagate". *)
Inductive result (E A : Type) : Type :=
| Ok (a : A)
| Err (e : E).
Arguments Ok {E A} a.
Arguments Err {E A} e.

#[global] Instance result_ret E : MRet (result E) := λ A a, Ok a.
#[global] Instance result_bind E : MBind (result E) :=
  λ A B f r, match r with Ok a => f a | Err e => Err e end.
#[global] Instance result_fmap E : FMap (result E) :=
  λ A B f r, match r with Ok a => Ok (f a) | Err e => Err e end.

#[global] Instance result_eq_dec {E A} `{!EqDecision E, !EqDecision A} :
  EqDecision (result E A).
Proof. solve_decision. Defined.

Definition is_ok {E A} (r : result E A) : bool :=
  match r with Ok _ => true | Err _ => false end.

Lemma bind_Ok {E A B} (f : A → result E B) (r : result E A) (b : B) :
  (r ≫= f) = Ok b ↔ ∃ a, r = Ok a ∧ f a = Ok b.
Proof. destruct r; naive_solver. Qed.

Lemma bind_Err {E A B} (f : A → result E B) (r : result E A) (e : E) :
  (r ≫= f) = Err e ↔ r = Err e ∨ ∃ a, r = Ok a ∧ f a = Err e.
Proof. destruct r; naive_solver. Qed.

(** Left-to-right traversal of a list with a fallible function. *)
Fixpoint rfold {E S A} (f : A → S → result E S) (l : list A) (s : S) : result E S :=
  match l with
  | [] => Ok s
  | a :: l => s' ← f a s; rfold f l s'
  end.

Lemma rfold_app {E S A} (f : A → S → result E S) l1 l2 s :
  rfold f (l1 ++ l2) s = (rfold f l1 s ≫= rfold f l2).
Proof.
  revert s. induction l1 as [|a l1 IH]; intros s; [done|].
  cbn. destruct (f a s) as [s'|e]; [apply IH|done].
Qed.

Lemma rfold_ext {E S A} (f g : A → S → result E S) l s :
  (∀ a t, a ∈ l → f a t = g a t) → rfold f l s = rfold g l s.
Proof.
  revert s. induction l as [|a l IH]; intros s H; [done|]. cbn.
  rewrite H by set_solver. destruct (g a s); cbn; [|done].
  apply IH. set_solver.
Qed.

(** An invariant of every step is an invariant of the traversal. *)
Lemma rfold_inv {E S A} (f : A → S → result E S) (I : S → Prop) l s s' :
  (∀ a t t', a ∈ l → I t → f a t = Ok t' → I t') →
  I s → rfold f l s = Ok s' → I s'.
Proof.
  revert s. induction l as [|a l IH]; intros s Hstep Hs Hf; [by simplify_eq/=|].
  cbn in Hf. apply bind_Ok in Hf as (t & Ht & Hf).
  apply (IH t); [set_solver| |done]. apply (Hstep a s t); [set_solver|done..].
Qed.

#[global] Arguments Nat.leb : simpl never.
#[global] Arguments Nat.ltb : simpl never.

(** ** Automation *)

(** Decompose a hypothesis [(c ≫= f) = Ok b] into the successive returns. *)
Ltac inv_ok :=
  repeat match goal with
  | H : mret _ = Ok _ |- _ => unfold mret, result_ret in H
  | H : Ok _ = Ok _ |- _ => injection H as H; simplify_eq
  | H : Err _ = Ok _ |- _ => discriminate H
  | H : Ok _ = Err _ |- _ => discriminate H
  | H : mbind _ _ = Ok _ |- _ =>
      let x := fresh "v" in let Hx := fresh "Hv" in
      apply bind_Ok in H;
      destruct H as (x & Hx & H)
  end.

(** Split the innermost [match]/[if] scrutinee of a hypothesis. *)
Ltac split_match H :=
  match type of H with
  | context [match ?x with _ => _ end] =>
      lazymatch x with
      | context [match _ with _ => _ end] => fail
      | _ => destruct x eqn:?
      end
  end.

(** Split the conjunctions of the goal, without unfolding. *)
Ltac conjs := repeat match goal with |- _ ∧ _ => split end.

(** Boolean hypotheses to propositions. *)
Ltac bools :=
  repeat match goal with
  | H : (_ && _)%bool = true |- _ => apply andb_true_iff in H as [? ?]
  | H : (_ || _)%bool = false |- _ => apply orb_false_iff in H as [? ?]
  | H : negb _ = true |- _ => apply negb_true_iff in H
  | H : negb _ = false |- _ => apply negb_false_iff in H
  | H : Nat.ltb _ _ = true |- _ => apply Nat.ltb_lt in H
  | H : Nat.ltb _ _ = false |- _ => apply Nat.ltb_ge in H
  | H : Nat.leb _ _ = true |- _ => apply Nat.leb_le in H
  | H : Nat.leb _ _ = false |- _ => apply Nat.leb_gt in H
  | H : Nat.eqb _ _ = true |- _ => apply Nat.eqb_eq in H
  | H : Nat.eqb _ _ = false |- _ => apply Nat.eqb_neq in H
  | H : N.ltb _ _ = true |- _ => apply N.ltb_lt in H
  | H : N.ltb _ _ = false |- _ => apply N.ltb_ge in H
  | H : N.leb _ _ = true |- _ => apply N.leb_le in H
  | H : N.leb _ _ = false |- _ => apply N.leb_gt in H
  | H : N.eqb _ _ = true |- _ => apply N.eqb_eq in H
  | H : N.eqb _ _ = false |- _ => apply N.eqb_neq in H
  | H : Z.ltb _ _ = true |- _ => apply Z.ltb_lt in H
  | H : Z.ltb _ _ = false |- _ => apply Z.ltb_ge in H
  | H : Z.leb _ _ = true |- _ => apply Z.leb_le in H
  | H : Z.leb _ _ = false |- _ => apply Z.leb_gt in H
  | H : Z.eqb _ _ = true |- _ => apply Z.eqb_eq in H
  | H : Z.eqb _ _ = false |- _ => apply Z.eqb_neq in H
  end.

(** The lemmas that discharge routine string and span goals. *)
Create HintDb billing.

(** ** Lists *)

Lemma take_drop_slice {A} (l : list A) (i j k : nat) :
  i ≤ j ≤ k →
  take (j - i) (drop i l) ++ take (k - j) (drop j l) = take (k - i) (drop i l).
Proof.
  intros H. replace (drop j l) with (drop (j - i) (drop i l)).
  - replace (k - i) with ((j - i) + (k - j)) by lia. by rewrite take_take_drop.
  - rewrite drop_drop. f_equal. lia.
Qed.

Fixpoint find_index {A} (p : A → bool) (l : list A) : option nat :=
  match l with
  | [] => None
  | a :: l => if p a then Some 0 else S <$> find_index p l
  end.

Lemma find_index_Some {A} (p : A → bool) l i :
  find_index p l = Some i → ∃ a, l !! i = Some a ∧ p a = true.
Proof.
  revert i. induction l as [|a l IH]; intros i H; [done|]. cbn in H.
  destruct (p a) eqn:Hp; [simplify_eq; by exists a|].
  destruct (find_index p l) as [k|]; simplify_eq/=. apply IH. done.
Qed.

Lemma filter_all {A} (p : A → bool) l : Forall (λ a, p a = true) l → List.filter p l = l.
Proof. induction 1 as [|a l Ha _ IH]; [done|]. cbn. by rewrite Ha, IH. Qed.

Lemma filter_none {A} (p : A → bool) l : Forall (λ a, p a = false) l → List.filter p l = [].
Proof. induction 1 as [|a l Ha _ IH]; [done|]. cbn. by rewrite Ha. Qed.
