(* ===== verification/JsString.v ===== *)
(** * ECMAScript strings

    A string value is a finite sequence of 16-bit code units, as in the
    language standard; indexes are code-unit indexes.  This file defines the
    [String.prototype] and [JSON] operations the sources use. *)
From stdpp Require Import base list option numbers sets.
From stdpp Require Export strings.
From Stdlib Require Import Lia.
From Stdlib Require Import Ascii.
From S2P Require Import Prelude.

Definition jsstr : Type := list N.

(** Source-text literals: the code units of an ASCII text. *)
Fixpoint js (s : string) : jsstr :=
  match s with
  | EmptyString => []
  | String a s => N_of_ascii a :: js s
  end.
Arguments js s%_string : simpl never.

(** A single character of source text. *)
Definition cu (s : string) : N :=
  match s with String a _ => N_of_ascii a | EmptyString => 0%N end.
Arguments cu s%_string : simpl never.

Definition DQUOTE : N := 34.
Definition SQUOTE : N := 39.
Definition BACKSLASH : N := 92.

(** Equality test with a computing boolean. *)
Fixpoint jseq (a b : jsstr) : bool :=
  match a, b with
  | [], [] => true
  | x :: a, y :: b => (x =? y)%N && jseq a b
  | _, _ => false
  end.

Lemma jseq_eq a b : jseq a b = true ↔ a = b.
Proof.
  revert b. induction a as [|x a IH]; intros [|y b]; cbn; try done.
  rewrite andb_true_iff, N.eqb_eq, IH. naive_solver.
Qed.

Lemma jseq_neq a b : jseq a b = false ↔ a ≠ b.
Proof. rewrite <- jseq_eq. by destruct (jseq a b). Qed.

Lemma jseq_refl a : jseq a a = true.
Proof. by apply jseq_eq. Qed.

(** [['a', 'b'].includes(s)] and [.find]-style membership in literal lists. *)
Definition str_in (s : jsstr) (l : list jsstr) : bool := existsb (jseq s) l.

(** White space of [\s] and of [String.prototype.trim]. *)
Definition is_space (c : N) : bool :=
  ((9 <=? c) && (c <=? 13) || (c =? 32) || (c =? 160) || (c =? 5760)
   || (8192 <=? c) && (c <=? 8202) || (c =? 8232) || (c =? 8233)
   || (c =? 8239) || (c =? 8287) || (c =? 12288) || (c =? 65279))%N.

Definition is_digit (c : N) : bool := ((48 <=? c) && (c <=? 57))%N.
Definition is_upper (c : N) : bool := ((65 <=? c) && (c <=? 90))%N.
Definition is_lower (c : N) : bool := ((97 <=? c) && (c <=? 122))%N.
Definition is_alpha (c : N) : bool := is_upper c || is_lower c.
(** [\w] *)
Definition is_word (c : N) : bool := is_alpha c || is_digit c || (c =? 95)%N.

Definition hex_value (c : N) : option N :=
  if is_digit c then Some (c - 48)%N
  else if ((97 <=? c) && (c <=? 102))%N then Some (c - 87)%N
  else if ((65 <=? c) && (c <=? 70))%N then Some (c - 55)%N
  else None.

(** [s.slice(i, j)] for [0 <= i <= j]. *)
Definition slice (s : jsstr) (i j : nat) : jsstr := take (j - i) (drop i s).

Fixpoint trim_start (s : jsstr) : jsstr :=
  match s with
  | c :: s' => if is_space c then trim_start s' else s
  | [] => []
  end.
Definition trim_end (s : jsstr) : jsstr := reverse (trim_start (reverse s)).
Definition trim (s : jsstr) : jsstr := trim_end (trim_start s).

Fixpoint starts_with (p s : jsstr) : bool :=
  match p, s with
  | [], _ => true
  | x :: p, y :: s => (x =? y)%N && starts_with p s
  | _ :: _, [] => false
  end.
Definition ends_with (p s : jsstr) : bool := starts_with (reverse p) (reverse s).

(** [s.includes(p)] *)
Fixpoint includes (p s : jsstr) : bool :=
  starts_with p s || match s with [] => false | _ :: s' => includes p s' end.

(** [parts.join(sep)] *)
Fixpoint join (sep : jsstr) (parts : list jsstr) : jsstr :=
  match parts with
  | [] => []
  | [p] => p
  | p :: parts => p ++ sep ++ join sep parts
  end.

(** [a < b]: lexicographic on code units. *)
Fixpoint str_ltb (a b : jsstr) : bool :=
  match a, b with
  | [], [] => false
  | [], _ :: _ => true
  | _ :: _, [] => false
  | x :: a, y :: b => (x <? y)%N || (x =? y)%N && str_ltb a b
  end.
Definition str_leb (a b : jsstr) : bool := negb (str_ltb b a).

(** Decimal text of a natural number. *)
Fixpoint N_digits (fuel : nat) (n : N) (acc : jsstr) : jsstr :=
  match fuel with
  | 0 => acc
  | S fuel =>
      let acc := (48 + n mod 10)%N :: acc in
      if (n <? 10)%N then acc else N_digits fuel (n / 10)%N acc
  end.
Definition N_text (n : N) : jsstr := N_digits (S (N.to_nat (N.log2 n))) n [].
Definition nat_text (n : nat) : jsstr := N_text (N.of_nat n).

(** ** JSON text of strings *)

Definition hex_digit (d : N) : N := if (d <? 10)%N then (48 + d)%N else (87 + d)%N.
Definition unicode_escape (c : N) : jsstr :=
  js "\u" ++ [hex_digit (c / 4096); hex_digit (c / 256 mod 16);
              hex_digit (c / 16 mod 16); hex_digit (c mod 16)]%N.

Definition is_high (c : N) : bool := ((55296 <=? c) && (c <=? 56319))%N.
Definition is_low (c : N) : bool := ((56320 <=? c) && (c <=? 57343))%N.

(** One code unit that is not part of a surrogate pair. *)
Definition json_unit (c : N) : jsstr :=
  if (c =? 8)%N then js "\b"
  else if (c =? 9)%N then js "\t"
  else if (c =? 10)%N then js "\n"
  else if (c =? 12)%N then js "\f"
  else if (c =? 13)%N then js "\r"
  else if (c =? DQUOTE)%N then [BACKSLASH; DQUOTE]
  else if (c =? BACKSLASH)%N then [BACKSLASH; BACKSLASH]
  else if (c <? 32)%N || is_high c || is_low c then unicode_escape c
  else [c].

Fixpoint json_units (s : jsstr) : jsstr :=
  match s with
  | [] => []
  | a :: s1 =>
      match s1 with
      | b :: s2 => if is_high a && is_low b then a :: b :: json_units s2
                   else json_unit a ++ json_units s1
      | [] => json_unit a
      end
  end.

(** [JSON.stringify(text)] *)
Definition json_stringify (s : jsstr) : jsstr := [DQUOTE] ++ json_units s ++ [DQUOTE].

Lemma starts_with_app p s : starts_with p s = true ↔ ∃ r, s = p ++ r.
Proof.
  revert s. induction p as [|x p IH]; intros s; cbn; [naive_solver|].
  destruct s as [|y s]; [naive_solver|].
  rewrite andb_true_iff, N.eqb_eq, IH. naive_solver.
Qed.
