(* ===== verification/JsNumber.v ===== *)
(** * ECMAScript numbers

    The Number type is IEEE 754 binary64.  Values are [SpecFloat.spec_float]
    at precision 53 and maximal exponent 1024, so that every operation is
    the correctly rounded one and computes inside the kernel; conversions
    from and to text follow the language standard. *)
From stdpp Require Import base list option numbers sets.
From Stdlib Require Import ZArith SpecFloat Lia.
From S2P Require Import Prelude.
From S2P Require Import JsString.

Definition num : Type := spec_float.

#[global] Instance num_eq_dec : EqDecision num.
Proof. intros x y. unfold Decision. repeat decide equality. Defined.

Definition nadd : num → num → num := SFadd 53 1024.
Definition nsub : num → num → num := SFsub 53 1024.
Definition nmul : num → num → num := SFmul 53 1024.
Definition ndiv : num → num → num := SFdiv 53 1024.
Definition nneg : num → num := SFopp.
Definition nabs : num → num := SFabs.

(** [===] on numbers: zeros are equal, NaN is not equal to itself. *)
Definition neqb : num → num → bool := SFeqb.
Definition nltb : num → num → bool := SFltb.
Definition nleb : num → num → bool := SFleb.
Definition ngtb (x y : num) : bool := nltb y x.
Definition ngeb (x y : num) : bool := nleb y x.

Definition NZERO : num := S754_zero false.
Definition nZ (z : Z) : num := binary_normalize 53 1024 z 0 false.

(** [Number.isFinite] *)
Definition is_finite (x : num) : bool :=
  match x with S754_zero _ | S754_finite _ _ _ => true | _ => false end.

Definition signed (s : bool) (m : Z) : Z := if s then (- m)%Z else m.

(** The integer a number denotes, if it denotes one. *)
Definition to_Z (x : num) : option Z :=
  match x with
  | S754_zero _ => Some 0%Z
  | S754_finite s m e =>
      if (0 <=? e)%Z then Some (signed s (Z.shiftl (Z.pos m) e))
      else let d := Z.shiftl 1 (- e) in
           if (Z.pos m mod d =? 0)%Z then Some (signed s (Z.pos m / d))
           else None
  | _ => None
  end.

(** [Number.isInteger], [Number.isSafeInteger] *)
Definition is_integer (x : num) : bool :=
  match to_Z x with Some _ => true | None => false end.
Definition is_safe_integer (x : num) : bool :=
  match to_Z x with
  | Some z => (Z.abs z <=? 9007199254740991)%Z
  | None => false
  end.

(** [Math.floor], [Math.ceil]; a zero result keeps the sign of the operand. *)
Definition nfloor (x : num) : num :=
  match x with
  | S754_finite s m e =>
      if (0 <=? e)%Z then x
      else binary_normalize 53 1024 (signed s (Z.pos m) / Z.shiftl 1 (- e)) 0 s
  | _ => x
  end.
Definition nceil (x : num) : num := nneg (nfloor (nneg x)).

Definition is_neg_zero (x : num) : bool :=
  match x with S754_zero true => true | _ => false end.

(** [Math.min], [Math.max] of two arguments *)
Definition nmin (x y : num) : num :=
  match SFcompare x y with
  | None => S754_nan
  | Some Lt => x
  | Some Gt => y
  | Some Eq => if is_neg_zero x then x else y
  end.
Definition nmax (x y : num) : num :=
  match SFcompare x y with
  | None => S754_nan
  | Some Gt => x
  | Some Lt => y
  | Some Eq => if is_neg_zero x then y else x
  end.

(** [x % y]: truncated remainder with the sign of the dividend. *)
Definition nrem (x y : num) : num :=
  match x, y with
  | S754_nan, _ | _, S754_nan | S754_infinity _, _ | _, S754_zero _ => S754_nan
  | _, S754_infinity _ | S754_zero _, _ => x
  | S754_finite s m e, S754_finite _ m' e' =>
      let k := Z.min e e' in
      let r := (Z.shiftl (Z.pos m) (e - k) mod Z.shiftl (Z.pos m') (e' - k))%Z in
      binary_normalize 53 1024 (signed s r) k s
  end.

(** ** Text to number *)

Definition digit_value (c : N) : N := (c - 48)%N.
Definition digits_value (ds : jsstr) : N :=
  fold_left (λ acc c, 10 * acc + digit_value c)%N ds 0%N.

(** The nearest double to [m * 10^e]; the guards only cut off exponents whose
    result is an infinity or a zero anyway. *)
Definition num_of_decimal (m : N) (e : Z) : num :=
  match m with
  | 0%N => S754_zero false
  | N.pos p =>
      let d := Z.of_nat (length (N_text m)) in
      if (310 <? d + e)%Z then S754_infinity false
      else if (d + e <? -330)%Z then S754_zero false
      else if (0 <=? e)%Z then binary_normalize 53 1024 (Z.pos p * 10 ^ e) 0 false
      else let '(q, e', l) := SFdiv_core_binary 53 1024 (Z.pos p) 0 (10 ^ (- e)) 0 in
           binary_round_aux 53 1024 false q e' l
  end.

Fixpoint span_digits (s : jsstr) : jsstr * jsstr :=
  match s with
  | c :: s' =>
      if is_digit c then let '(d, r) := span_digits s' in (c :: d, r) else ([], s)
  | [] => ([], [])
  end.

(** The optional exponent [(?:[eE][+-]?\d+)?] of a decimal literal. *)
Definition span_exponent (s : jsstr) : Z * jsstr :=
  match s with
  | c :: s' =>
      if (c =? 101)%N || (c =? 69)%N then
        let '(neg, s'') :=
          match s' with
          | x :: t => if (x =? 43)%N then (false, t)
                      else if (x =? 45)%N then (true, t) else (false, s')
          | [] => (false, s')
          end in
        match span_digits s'' with
        | ([], _) => (0%Z, s)
        | (ds, r) => (signed neg (Z.of_N (digits_value ds)), r)
        end
      else (0%Z, s)
  | [] => (0%Z, s)
  end.

(** The decimal-literal pattern of the sources (digits with an optional
    fraction, or a fraction alone, then an optional exponent) anchored at the
    start: the value and the rest of the text after the match. *)
Definition scan_decimal (s : jsstr) : option (num * jsstr) :=
  let finish ds frac r :=
    let '(e, r') := span_exponent r in
    Some (num_of_decimal (digits_value (ds ++ frac)) (e - Z.of_nat (length frac)), r') in
  match span_digits s with
  | ([], c :: r) =>
      if (c =? 46)%N then
        match span_digits r with
        | ([], _) => None
        | (f, r') => finish [] f r'
        end
      else None
  | ([], []) => None
  | (ds, c :: r) =>
      if (c =? 46)%N then let '(f, r') := span_digits r in finish ds f r'
      else finish ds [] (c :: r)
  | (ds, []) => finish ds [] []
  end.

(** Digits of a [0x], [0o], [0b] literal. *)
Definition radix_value (radix : N) (s : jsstr) : option N :=
  match s with
  | [] => None
  | _ => fold_left
           (λ acc c, a ← acc; d ← hex_value c;
              if (d <? radix)%N then Some (radix * a + d)%N else None)
           s (Some 0%N)
  end.

(** [Number(text)] *)
Definition number_of_string (s : jsstr) : num :=
  let t := trim s in
  let unsigned (t : jsstr) : num :=
    if jseq t (js "Infinity") then S754_infinity false
    else match scan_decimal t with Some (v, []) => v | _ => S754_nan end in
  match t with
  | [] => NZERO
  | 48%N :: c :: r =>
      let radix := if (c =? 120)%N || (c =? 88)%N then Some 16%N
                   else if (c =? 111)%N || (c =? 79)%N then Some 8%N
                   else if (c =? 98)%N || (c =? 66)%N then Some 2%N else None in
      match radix with
      | Some b => match radix_value b r with Some v => nZ (Z.of_N v) | None => S754_nan end
      | None => unsigned t
      end
  | 43%N :: r => unsigned r
  | 45%N :: r => nneg (unsigned r)
  | _ => unsigned t
  end.

(** ** Number to text *)

(** Position of the decimal point: [10^(n-1) <= num/den < 10^n]. *)
Fixpoint scale_up (fuel : nat) (p q : Z) (n : Z) : Z :=
  match fuel with
  | 0 => n
  | S fuel => if (q <=? p)%Z then n else scale_up fuel (10 * p) q (n - 1)
  end.
Definition decimal_exponent (p q : Z) : Z :=
  if (q <=? p)%Z then Z.of_nat (length (N_text (Z.to_N (p / q))))
  else scale_up 400 p q 1.

(** The shortest decimal [s * 10^k] that reads back as the value [v = p/q];
    of two such values of [s] the closer one. *)
Fixpoint shortest (fuel : nat) (digits : Z) (v : num) (p q n : Z) : Z * Z :=
  let k := (n - digits)%Z in
  let '(p', q') := if (0 <=? k)%Z then (p, q * 10 ^ k)%Z else (p * 10 ^ (- k), q)%Z in
  let lo := (p' / q')%Z in
  let r := (p' mod q')%Z in
  let reads s := neqb (num_of_decimal (Z.to_N s) k) v in
  let near := if (2 * r <? q')%Z || (2 * r =? q')%Z && Z.even lo then lo else (lo + 1)%Z in
  let far := (2 * lo + 1 - near)%Z in
  match fuel with
  | 0 => (near, k)
  | S fuel =>
      if reads near then (near, k)
      else if reads far then (far, k)
      else shortest fuel (digits + 1) v p q n
  end.

Fixpoint strip_zeros (fuel : nat) (s k : Z) : Z * Z :=
  match fuel with
  | 0 => (s, k)
  | S fuel => if (s mod 10 =? 0)%Z then strip_zeros fuel (s / 10) (k + 1) else (s, k)
  end.

(** Digits and decimal-point position of a positive finite number. *)
Definition decimal_digits (m : positive) (e : Z) : jsstr * Z :=
  let '(p, q) := if (0 <=? e)%Z then (Z.shiftl (Z.pos m) e, 1%Z)
                 else (Z.pos m, Z.shiftl 1 (- e)) in
  let '(s, k) := shortest 16 1 (S754_finite false m e) p q (decimal_exponent p q) in
  let '(s, k) := strip_zeros 20 s k in
  let ds := N_text (Z.to_N s) in
  (ds, Z.of_nat (length ds) + k)%Z.

Definition zeros (n : Z) : jsstr := replicate (Z.to_nat n) 48%N.

Definition exponent_text (e : Z) : jsstr :=
  (if (e <? 0)%Z then js "-" else js "+") ++ N_text (Z.abs_N e).

Definition mantissa_text (ds : jsstr) : jsstr :=
  match ds with
  | [d] => [d]
  | d :: ds => d :: 46%N :: ds
  | [] => []
  end.

(** [String(x)] for a number *)
Definition number_to_string (x : num) : jsstr :=
  match x with
  | S754_nan => js "NaN"
  | S754_infinity s => if s then js "-Infinity" else js "Infinity"
  | S754_zero _ => js "0"
  | S754_finite s m e =>
      let '(ds, n) := decimal_digits m e in
      let k := Z.of_nat (length ds) in
      (if s then js "-" else []) ++
      (if (k <=? n)%Z && (n <=? 21)%Z then ds ++ zeros (n - k)
       else if (0 <? n)%Z && (n <=? 21)%Z then
         take (Z.to_nat n) ds ++ 46%N :: drop (Z.to_nat n) ds
       else if (-6 <? n)%Z && (n <=? 0)%Z then js "0." ++ zeros (- n) ++ ds
       else mantissa_text ds ++ js "e" ++ exponent_text (n - 1))
  end.

(** [x.toExponential()] for a finite number *)
Definition to_exponential (x : num) : jsstr * Z :=
  match x with
  | S754_finite s m e =>
      let '(ds, n) := decimal_digits m e in
      ((if s then js "-" else []) ++ mantissa_text ds, (n - 1)%Z)
  | _ => (js "0", 0%Z)
  end.

(** ** Comparison *)

Lemma SFcompare_swap x y : SFcompare y x = option_map CompOpp (SFcompare x y).
Proof.
  destruct x as [[]|[]| |[] mx ex], y as [[]|[]| |[] my ey]; try done; cbn.
  all: rewrite (Z.compare_antisym ex ey); destruct (Z.compare_spec ex ey); cbn; try done;
    change (PosDef.Pos.compare_cont Eq ?a ?b) with (Pos.compare a b); rewrite (Pos.compare_antisym mx my);
    by destruct (mx ?= my)%positive.
Qed.

Lemma neqb_sym x y : neqb x y = neqb y x.
Proof. unfold neqb, SFeqb. rewrite (SFcompare_swap x y). by destruct (SFcompare x y) as [[]|]. Qed.

(** Chains of comparisons: signs, then exponents, then mantissas. *)
Ltac compare_chain x y z :=
  unfold nltb, nleb, SFltb, SFleb;
  let sx := fresh "sx" in let mx := fresh "mx" in let ex := fresh "ex" in
  let sy := fresh "sy" in let my := fresh "my" in let ey := fresh "ey" in
  let sz := fresh "sz" in let mz := fresh "mz" in let ez := fresh "ez" in
  destruct x as [sx|sx| |sx mx ex], y as [sy|sy| |sy my ey], z as [sz|sz| |sz mz ez]; try done;
  cbn [SFcompare]; try (destruct sx); try (destruct sy); try (destruct sz); try done;
  destruct (Z.compare_spec ex ey), (Z.compare_spec ey ez), (Z.compare_spec ex ez); try done; try lia; cbn;
  change (PosDef.Pos.compare_cont Eq ?a ?b) with (Pos.compare a b);
  destruct (Pos.compare_spec mx my), (Pos.compare_spec my mz), (Pos.compare_spec mx mz); try done; lia.

Lemma nltb_nleb x y : nltb x y = true → nleb x y = true.
Proof. unfold nltb, nleb, SFltb, SFleb. by destruct (SFcompare x y) as [[]|]. Qed.
Lemma nleb_trans x y z : nleb x y = true → nleb y z = true → nleb x z = true.
Proof. compare_chain x y z. Qed.
Lemma nltb_trans x y z : nltb x y = true → nltb y z = true → nltb x z = true.
Proof. compare_chain x y z. Qed.
Lemma nltb_nleb_trans x y z : nltb x y = true → nleb y z = true → nltb x z = true.
Proof. compare_chain x y z. Qed.

Lemma nltb_irrefl x : nltb x x = false.
Proof.
  unfold nltb, SFltb. destruct x as [sx|sx| |sx m e]; try done; [by destruct sx|].
  cbn. destruct sx; rewrite Z.compare_refl; change (PosDef.Pos.compare_cont Eq m m) with (Pos.compare m m);
    by rewrite Pos.compare_refl.
Qed.

(** Comparisons of numbers that are not NaN are total. *)
Lemma finite_compare x y : is_finite x = true → is_finite y = true → SFcompare x y ≠ None.
Proof. destruct x as [| | |[]], y as [| | |[]]; cbn; try done; intros _ _; repeat case_match; done. Qed.

Lemma nltb_false x y : is_finite x = true → is_finite y = true → nltb x y = false → nleb y x = true.
Proof.
  intros Hx Hy. pose proof (finite_compare x y Hx Hy) as Hc. unfold nltb, nleb, SFltb, SFleb.
  rewrite (SFcompare_swap x y). by destruct (SFcompare x y) as [[]|].
Qed.
Lemma nleb_false x y : is_finite x = true → is_finite y = true → nleb x y = false → nltb y x = true.
Proof.
  intros Hx Hy. pose proof (finite_compare x y Hx Hy) as Hc. unfold nltb, nleb, SFltb, SFleb.
  rewrite (SFcompare_swap x y). by destruct (SFcompare x y) as [[]|].
Qed.
