(* ===== verification/Syntax.v ===== *)
(** * Abstract syntax of billing expressions

    Models [billing-expression/types.ts]: the expression tree, diagnostics,
    the failure classification and the bounded iterative traversal
    [visitExpression] with its client [expressionDependencies].

    The string unions of the source ([BillingVariable], [TimeFunction], the
    operators of [PRECEDENCE] and the names of [BILLING_FUNCTIONS]) are
    enumerations here; the [_text] functions give their spelling. *)
From stdpp Require Import base list option numbers sets.
From Stdlib Require Import Lia.
From S2P Require Import Prelude.
From S2P Require Import JsString.
From S2P Require Import JsNumber.

(** ** Names *)

Inductive bvar : Type :=
| Vp | Vc | Vlen | Vcr | Vcc | Vcc1h | Vimg | Vimg_cr | Vimg_o | Vai | Vao
| Vimage_count.

Definition TOKEN_VARIABLES : list bvar :=
  [Vp; Vc; Vlen; Vcr; Vcc; Vcc1h; Vimg; Vimg_cr; Vimg_o; Vai; Vao].
Definition BILLING_VARIABLES : list bvar := TOKEN_VARIABLES ++ [Vimage_count].

Definition bvar_text (v : bvar) : jsstr :=
  match v with
  | Vp => js "p" | Vc => js "c" | Vlen => js "len" | Vcr => js "cr"
  | Vcc => js "cc" | Vcc1h => js "cc1h" | Vimg => js "img"
  | Vimg_cr => js "img_cr" | Vimg_o => js "img_o" | Vai => js "ai"
  | Vao => js "ao" | Vimage_count => js "image_count"
  end.

Inductive timefn : Type := Hour | Minute | Weekday | Month | Day.

Definition TIME_FUNCTIONS : list timefn := [Hour; Minute; Weekday; Month; Day].

Definition timefn_text (t : timefn) : jsstr :=
  match t with
  | Hour => js "hour" | Minute => js "minute" | Weekday => js "weekday"
  | Month => js "month" | Day => js "day"
  end.

Inductive fname : Type :=
| Ftier | Ffixed | Fparam | Fheader | Fhas | Fu
| Ftime (t : timefn)
| Fmin | Fmax | Fabs | Fceil | Ffloor.

Definition all_functions : list fname :=
  [Ftier; Ffixed; Fparam; Fheader; Fhas; Fu; Ftime Hour; Ftime Minute;
   Ftime Weekday; Ftime Month; Ftime Day; Fmin; Fmax; Fabs; Fceil; Ffloor].

Definition fname_text (f : fname) : jsstr :=
  match f with
  | Ftier => js "tier" | Ffixed => js "fixed" | Fparam => js "param"
  | Fheader => js "header" | Fhas => js "has" | Fu => js "u"
  | Ftime t => timefn_text t
  | Fmin => js "min" | Fmax => js "max" | Fabs => js "abs"
  | Fceil => js "ceil" | Ffloor => js "floor"
  end.

(** The arity table. *)
Definition BILLING_FUNCTIONS (f : fname) : nat :=
  match f with
  | Ftier => 2 | Ffixed => 1 | Fparam => 1 | Fheader => 1 | Fhas => 2
  | Fu => 1 | Ftime _ => 1 | Fmin => 2 | Fmax => 2 | Fabs => 1
  | Fceil => 1 | Ffloor => 1
  end.

Inductive unop : Type := Unot | Uplus | Uminus.

Inductive binop : Type :=
| Oor | Oand | Oeq | One | Olt | Ole | Ogt | Oge | Oadd | Osub | Omul | Odiv | Omod.

#[global] Instance bvar_eq_dec : EqDecision bvar.
Proof. solve_decision. Defined.
#[global] Instance timefn_eq_dec : EqDecision timefn.
Proof. solve_decision. Defined.
#[global] Instance fname_eq_dec : EqDecision fname.
Proof. solve_decision. Defined.
#[global] Instance unop_eq_dec : EqDecision unop.
Proof. solve_decision. Defined.
#[global] Instance binop_eq_dec : EqDecision binop.
Proof. solve_decision. Defined.

(** A name is looked up in a table of spellings ([Object.hasOwn], [includes]). *)
Definition lookup_text {A} (text : A → jsstr) (table : list A) (s : jsstr) : option A :=
  List.find (λ a, jseq (text a) s) table.

Definition bvar_of_text : jsstr → option bvar := lookup_text bvar_text BILLING_VARIABLES.
Definition fname_of_text : jsstr → option fname := lookup_text fname_text all_functions.

Arguments bvar_of_text : simpl never.
Arguments fname_of_text : simpl never.

Lemma bvar_of_text_text v : bvar_of_text (bvar_text v) = Some v.
Proof. by destruct v. Qed.

Lemma fname_of_text_text f : fname_of_text (fname_text f) = Some f.
Proof. by destruct f as [| | | | | |[]| | | | |]. Qed.

Lemma lookup_text_Some {A} (text : A → jsstr) table s a :
  lookup_text text table s = Some a → text a = s.
Proof. unfold lookup_text. intros H. apply List.find_some in H as [_ H]. by apply jseq_eq. Qed.

(** ** Expression trees *)

Record span : Type := Span { start : nat; end_ : nat }.

#[global] Instance span_eq_dec : EqDecision span.
Proof. solve_decision. Defined.

Inductive literal : Type :=
| LNum (value : num) (integer : bool)
| LStr (value : jsstr)
| LBool (value : bool)
| LNull.

#[global] Instance literal_eq_dec : EqDecision literal.
Proof. solve_decision. Defined.

Inductive node : Type :=
| ELit (sp : span) (value : literal)
| EVar (sp : span) (name : bvar)
| ECall (sp : span) (name : fname) (args : list node)
| EUn (sp : span) (operator : unop) (operand : node)
| EBin (sp : span) (operator : binop) (left right : node)
| ECond (sp : span) (condition yes no : node).

Definition node_span (n : node) : span :=
  match n with
  | ELit sp _ | EVar sp _ | ECall sp _ _ | EUn sp _ _ | EBin sp _ _ _
  | ECond sp _ _ _ => sp
  end.
Definition node_start (n : node) : nat := start (node_span n).
Definition node_end (n : node) : nat := end_ (node_span n).

Definition with_span (sp : span) (n : node) : node :=
  match n with
  | ELit _ v => ELit sp v
  | EVar _ v => EVar sp v
  | ECall _ f args => ECall sp f args
  | EUn _ o a => EUn sp o a
  | EBin _ o a b => EBin sp o a b
  | ECond _ c y n => ECond sp c y n
  end.

Definition children (n : node) : list node :=
  match n with
  | ELit _ _ | EVar _ _ => []
  | ECall _ _ args => args
  | EUn _ _ a => [a]
  | EBin _ _ a b => [a; b]
  | ECond _ c y n => [c; y; n]
  end.

(** Induction over trees with a hypothesis for every child. *)
Section node_induction.
Variable P : node → Prop.
Hypothesis step : ∀ n, Forall P (children n) → P n.

Fixpoint node_rec_children (n : node) : P n :=
  step n
    (match n with
     | ELit _ _ | EVar _ _ => Forall_nil_2 P
     | ECall _ _ args =>
         (fix go l : Forall P l :=
            match l with
            | [] => Forall_nil_2 P
            | a :: l => Forall_cons_2 P a l (node_rec_children a) (go l)
            end) args
     | EUn _ _ a => Forall_cons_2 P _ _ (node_rec_children a) (Forall_nil_2 P)
     | EBin _ _ a b =>
         Forall_cons_2 P _ _ (node_rec_children a)
           (Forall_cons_2 P _ _ (node_rec_children b) (Forall_nil_2 P))
     | ECond _ c y n =>
         Forall_cons_2 P _ _ (node_rec_children c)
           (Forall_cons_2 P _ _ (node_rec_children y)
              (Forall_cons_2 P _ _ (node_rec_children n) (Forall_nil_2 P)))
     end).
End node_induction.

(** Structural equality.  The parser gives every node of one tree its own
    span, so on the nodes of one compiled expression this test is the object
    identity [===] of the source. *)
Fixpoint node_eqb (a b : node) : bool :=
  bool_decide (node_span a = node_span b) &&
  match a, b with
  | ELit _ v, ELit _ w => bool_decide (v = w)
  | EVar _ v, EVar _ w => bool_decide (v = w)
  | ECall _ f args, ECall _ g args' =>
      bool_decide (f = g) &&
      (fix go l l' := match l, l' with
                      | [], [] => true
                      | x :: l, y :: l' => node_eqb x y && go l l'
                      | _, _ => false
                      end) args args'
  | EUn _ o x, EUn _ o' x' => bool_decide (o = o') && node_eqb x x'
  | EBin _ o x y, EBin _ o' x' y' =>
      bool_decide (o = o') && node_eqb x x' && node_eqb y y'
  | ECond _ x y z, ECond _ x' y' z' =>
      node_eqb x x' && node_eqb y y' && node_eqb z z'
  | _, _ => false
  end.

Fixpoint size (n : node) : nat :=
  S (match n with
     | ELit _ _ | EVar _ _ => 0
     | ECall _ _ args => (fix go l := match l with [] => 0 | a :: l => size a + go l end) args
     | EUn _ _ a => size a
     | EBin _ _ a b => size a + size b
     | ECond _ c y n => size c + size y + size n
     end).

(** Number of edges of the longest path from the root. *)
Fixpoint height (n : node) : nat :=
  match n with
  | ELit _ _ | EVar _ _ => 0
  | ECall _ _ args =>
      match args with
      | [] => 0
      | _ => S ((fix go l := match l with [] => 0 | a :: l => max (height a) (go l) end) args)
      end
  | EUn _ _ a => S (height a)
  | EBin _ _ a b => S (max (height a) (height b))
  | ECond _ c y n => S (max (height c) (max (height y) (height n)))
  end.

(** ** Diagnostics *)

Inductive diagnostic_code : Type :=
| Syntax | Unsupported | MissingContext | Type_ | Number | Limit.

Record diagnostic : Type := Diagnostic {
  code : diagnostic_code;
  detail : jsstr;
  position : option nat
}.

(** What a [throw] can carry: a [BillingExpressionError], or an exception of
    the language such as a [TypeError] with its message.  [OutOfFuel] is not
    an exception of the program: it marks an exhausted bound of a modelled
    loop, and each loop is proved never to return it. *)
Inductive exn : Type :=
| BillingExpressionError (d : diagnostic)
| HostError (message : jsstr)
| OutOfFuel.

#[global] Instance diagnostic_code_eq_dec : EqDecision diagnostic_code.
Proof. solve_decision. Defined.
#[global] Instance diagnostic_eq_dec : EqDecision diagnostic.
Proof. solve_decision. Defined.
#[global] Instance exn_eq_dec : EqDecision exn.
Proof. solve_decision. Defined.

Definition throw {A} (c : diagnostic_code) (d : jsstr) (pos : option nat) : result exn A :=
  Err (BillingExpressionError (Diagnostic c d pos)).

Inductive failure_status : Type := SUnsupported | SInvalid | SMissingContext.

Record ExpressionFailure : Type := Failure {
  status : failure_status;
  failure_diagnostic : diagnostic
}.

Definition expressionFailure (error : exn) : ExpressionFailure :=
  let diagnostic :=
    match error with
    | BillingExpressionError d => d
    | HostError m => Diagnostic Syntax m None
    | OutOfFuel => Diagnostic Syntax [] None
    end in
  let status := SInvalid in
  let status :=
    if decide (code diagnostic = MissingContext) then SMissingContext else status in
  let status :=
    if decide (code diagnostic = Unsupported ∨ code diagnostic = Limit)
    then SUnsupported else status in
  Failure status diagnostic.

(** ** Bounded postorder traversal *)

Record entry : Type := Entry { e_node : node; e_visited : bool; e_depth : nat }.

Section visit.
Context {S : Type} (visitor : node → S → result exn S).

(** The explicit stack of the source: the head of the list is the top. *)
Fixpoint visit_loop (fuel : nat) (stack : list entry) (s : S) : result exn S :=
  match fuel, stack with
  | _, [] => Ok s
  | 0, _ :: _ => Err OutOfFuel
  | Datatypes.S fuel, entry :: stack =>
      if 256 <? e_depth entry then throw Limit (js "expression depth") None
      else if e_visited entry then
        s' ← visitor (e_node entry) s; visit_loop fuel stack s'
      else
        visit_loop fuel
          (map (λ child, Entry child false (Datatypes.S (e_depth entry)))
             (children (e_node entry))
           ++ Entry (e_node entry) true (e_depth entry) :: stack) s
  end.

Definition visitExpression (n : node) (s : S) : result exn S :=
  visit_loop (2 * size n) [Entry n false 0] s.

(** Reference: recursive postorder with the same depth bound. *)
Fixpoint visit_rec (depth : nat) (n : node) (s : S) {struct n} : result exn S :=
  if 256 <? depth then throw Limit (js "expression depth") None
  else
    s' ← match n with
         | ELit _ _ | EVar _ _ => Ok s
         | ECall _ _ args =>
             (fix go l s := match l with
                            | [] => Ok s
                            | a :: l => s' ← visit_rec (Datatypes.S depth) a s; go l s'
                            end) args s
         | EUn _ _ a => visit_rec (Datatypes.S depth) a s
         | EBin _ _ a b =>
             s' ← visit_rec (Datatypes.S depth) a s;
             visit_rec (Datatypes.S depth) b s'
         | ECond _ c y n' =>
             s' ← visit_rec (Datatypes.S depth) c s;
             s'' ← visit_rec (Datatypes.S depth) y s';
             visit_rec (Datatypes.S depth) n' s''
         end;
    visitor n s'.
End visit.

(** Insertion into an insertion-ordered [Set]. *)
Definition set_add {A} `{EqDecision A} (a : A) (l : list A) : list A :=
  if decide (a ∈ l) then l else l ++ [a].

Definition dependency_visitor (part : node) (s : list bvar * list fname)
    : result exn (list bvar * list fname) :=
  let '(variables, functions) := s in
  Ok (match part with EVar _ v => set_add v variables | _ => variables end,
      match part with ECall _ f _ => set_add f functions | _ => functions end).

Definition expressionDependencies (n : node) : result exn (list bvar * list fname) :=
  visitExpression dependency_visitor n ([], []).

(** ** Compiled expressions *)

Record RequestRule : Type := {
  rule_node : node;
  rule_condition : node;
  rule_multiplier : num;
  rule_cond : jsstr
}.

Record CompiledBillingExpression : Type := {
  c_source : jsstr;
  c_ast : node;
  c_variables : list bvar;
  c_functions : list fname;
  c_requestRules : list RequestRule
}.

Definition CompilationResult : Type := result ExpressionFailure CompiledBillingExpression.

(** ** Structure of trees *)

Lemma size_eq n : size n = S (sum_list_with size (children n)).
Proof.
  destruct n as [| |sp f args|sp o a|sp o a b|sp c y n]; cbn; f_equal; lia.
Qed.

Lemma height_eq n :
  height n = match children n with [] => 0 | l => S (max_list_with height l) end.
Proof.
  destruct n as [| |sp f [|a args]|sp o a|sp o a b|sp c y n]; cbn; f_equal; lia.
Qed.

Lemma max_list_with_le {A} (f : A → nat) l k :
  max_list_with f l ≤ k ↔ ∀ a, a ∈ l → f a ≤ k.
Proof.
  induction l as [|x l IH]; cbn; [set_solver by lia|]. split.
  - intros H a [->|Ha]%elem_of_cons; [lia|]. apply IH; [lia|done].
  - intros H. assert (f x ≤ k) by (apply H; set_solver).
    assert (max_list_with f l ≤ k) by (apply IH; set_solver). lia.
Qed.

Lemma height_child n c : c ∈ children n → height c < height n.
Proof.
  rewrite (height_eq n). destruct (children n) as [|x l]; [set_solver|]. intros Hc.
  assert (height c ≤ max_list_with height (x :: l)); [|lia].
  by apply (proj1 (max_list_with_le height (x :: l) _)).
Qed.

Lemma height_le n k :
  (∀ c, c ∈ children n → S (height c) ≤ k) → height n ≤ k.
Proof.
  rewrite height_eq. destruct (children n) as [|x l]; [lia|]. intros H.
  assert (S (height x) ≤ k) by (apply H; set_solver).
  assert (max_list_with height (x :: l) ≤ k - 1); [|lia].
  apply max_list_with_le. intros a Ha%H. lia.
Qed.

Lemma node_eqb_eq a b : node_eqb a b = true ↔ a = b.
Proof.
  split; [|intros ->].
  - revert b. induction a as [a IH] using node_rec_children. intros b H.
    destruct a, b; cbn in H, IH; bools; repeat case_bool_decide; simplify_eq/=; try done;
      repeat match goal with
      | H : Forall _ (_ :: _) |- _ => apply Forall_cons in H as [? ?]
      | H : (_ && _)%bool = true |- _ => apply andb_true_iff in H as [? ?]
      end; f_equal; eauto.
    clear -IH H1. revert args0 H1.
    induction args as [|x args IHl]; intros [|y args'] H; try done.
    apply Forall_cons in IH as [IHx IH]. bools. f_equal; eauto.
  - induction b as [b IH] using node_rec_children.
    destruct b; cbn in *; rewrite ?bool_decide_eq_true_2 by done; cbn; try done;
      repeat match goal with
      | H : Forall _ (_ :: _) |- _ => apply Forall_cons in H as [-> ?]
      end; try done.
    induction args as [|x args IHl]; [done|].
    apply Forall_cons in IH as [-> IH]. cbn. eauto.
Qed.

#[global] Instance node_eq_dec : EqDecision node.
Proof.
  intros a b. destruct (node_eqb a b) eqn:E; [left; by apply node_eqb_eq|right].
  intros ->. rewrite (proj2 (node_eqb_eq b b) eq_refl) in E. done.
Defined.

(** [subnode m n]: [m] occurs in the tree [n]. *)
Inductive subnode (m : node) : node → Prop :=
| subnode_refl : subnode m m
| subnode_child n c : c ∈ children n → subnode m c → subnode m n.
#[export] Hint Constructors subnode : billing.

Lemma subnode_trans a b c : subnode a b → subnode b c → subnode a c.
Proof. induction 2; eauto with billing. Qed.

Lemma subnode_size m n : subnode m n → size m ≤ size n.
Proof.
  induction 1 as [|n c Hc _ IH]; [done|]. rewrite (size_eq n).
  enough (size c ≤ sum_list_with size (children n)) by lia.
  clear -Hc. induction (children n) as [|x l IH]; [set_solver|]. cbn.
  apply elem_of_cons in Hc as [->|Hc]; [lia|]. specialize (IH Hc). lia.
Qed.

(** ** The traversal is the recursive postorder *)

Section visit_facts.
Context {S : Type} (visitor : node → S → result exn S).

Local Ltac split_visits :=
  by repeat (match goal with
             | |- context [visit_rec ?v ?d ?n ?s] => destruct (visit_rec v d n s)
             end; cbn -[Nat.ltb throw]).

Lemma visit_rec_eq d n s :
  visit_rec visitor d n s =
  if 256 <? d then throw Limit (js "expression depth") None
  else s' ← rfold (visit_rec visitor (Datatypes.S d)) (children n) s; visitor n s'.
Proof.
  destruct n as [| |sp f args|sp o a|sp o a b|sp c y n]; try done;
    cbn -[Nat.ltb throw]; case_match; try done.
  - f_equal. revert s. induction args as [|a args IH]; intros s; [done|].
    cbn -[Nat.ltb]. destruct (visit_rec visitor (Datatypes.S d) a s); cbn; [apply IH|done].
  - split_visits.
  - split_visits.
  - split_visits.
Qed.

(** One unvisited entry on top of the stack costs two steps per node and
    has the effect of the recursive visit. *)
Lemma visit_loop_rec n : ∀ d stack k s,
  visit_loop visitor (2 * size n + k) (Entry n false d :: stack) s =
  (visit_rec visitor d n s ≫= visit_loop visitor k stack).
Proof.
  induction n as [n IH] using node_rec_children. intros d stack k s.
  rewrite size_eq, visit_rec_eq.
  replace (2 * Datatypes.S (sum_list_with size (children n)) + k)
    with (Datatypes.S (2 * sum_list_with size (children n) + Datatypes.S k)) by lia.
  cbn -[Nat.ltb throw Nat.mul Nat.add].
  destruct (256 <? d) eqn:Hd; [done|].
  assert (Hlist : ∀ l s, Forall (λ n, ∀ d stack k s,
      visit_loop visitor (2 * size n + k) (Entry n false d :: stack) s =
      (visit_rec visitor d n s ≫= visit_loop visitor k stack)) l →
    visit_loop visitor (2 * sum_list_with size l + Datatypes.S k)
      (map (λ c, Entry c false (Datatypes.S d)) l ++ Entry n true d :: stack) s =
    (rfold (visit_rec visitor (Datatypes.S d)) l s ≫=
       visit_loop visitor (Datatypes.S k) (Entry n true d :: stack))).
  { clear IH s. induction l as [|c l IHl]; intros s HF; [done|].
    apply Forall_cons in HF as [Hc Hl].
    cbn [map app sum_list_with rfold].
    replace (2 * (size c + sum_list_with size l) + Datatypes.S k)
      with (2 * size c + (2 * sum_list_with size l + Datatypes.S k)) by lia.
    rewrite Hc. destruct (visit_rec visitor (Datatypes.S d) c s); cbn; [by apply IHl|done]. }
  rewrite Hlist by done.
  destruct (rfold _ (children n) s) as [s'|e]; [|done].
  cbn -[Nat.ltb throw]. by rewrite Hd.
Qed.

Lemma visitExpression_rec n s : visitExpression visitor n s = visit_rec visitor 0 n s.
Proof.
  unfold visitExpression. replace (2 * size n) with (2 * size n + 0) by lia.
  rewrite visit_loop_rec. by destruct (visit_rec visitor 0 n s).
Qed.
End visit_facts.

(** Nodes in the order a recursive postorder meets them. *)
Fixpoint postorder (n : node) : list node :=
  (match n with
   | ELit _ _ | EVar _ _ => []
   | ECall _ _ args =>
       (fix go l := match l with [] => [] | a :: l => postorder a ++ go l end) args
   | EUn _ _ a => postorder a
   | EBin _ _ a b => postorder a ++ postorder b
   | ECond _ c y n => postorder c ++ postorder y ++ postorder n
   end) ++ [n].

Lemma postorder_eq n : postorder n = concat (map postorder (children n)) ++ [n].
Proof.
  destruct n as [| |sp f args|sp o a|sp o a b|sp c y n]; cbn; rewrite ?app_nil_r; try done.
  f_equal. induction args as [|a args IH]; [done|]. cbn. by rewrite IH.
Qed.

Lemma elem_of_postorder m n : m ∈ postorder n ↔ subnode m n.
Proof.
  induction n as [n IH] using node_rec_children. rewrite postorder_eq.
  rewrite elem_of_app, list_elem_of_singleton. split.
  - intros [H| ->]; [|constructor].
    apply list_elem_of_In, in_concat in H as (l & Hl & Hm).
    apply in_map_iff in Hl as (c & <- & Hc). rewrite Forall_forall in IH.
    apply list_elem_of_In in Hc, Hm. econstructor; [done|]. by apply IH.
  - intros H. inversion H as [|n' c Hc Hm]; subst; [by right|left].
    apply list_elem_of_In, in_concat. exists (postorder c). split.
    + apply in_map. by apply list_elem_of_In.
    + rewrite Forall_forall in IH. apply list_elem_of_In. by apply IH.
Qed.

(** Within the depth bound the traversal is a left fold over the postorder. *)
Lemma visit_rec_postorder {S} (visitor : node → S → result exn S) n : ∀ d s,
  d + height n ≤ 256 → visit_rec visitor d n s = rfold visitor (postorder n) s.
Proof.
  induction n as [n IH] using node_rec_children. intros d s Hd.
  rewrite visit_rec_eq, postorder_eq, rfold_app.
  destruct (Nat.ltb_spec 256 d); [lia|].
  assert (Hl : rfold (visit_rec visitor (Datatypes.S d)) (children n) s
               = rfold visitor (concat (map postorder (children n))) s).
  { assert (Hh : Forall (λ c, Datatypes.S d + height c ≤ 256) (children n)).
    { apply Forall_forall. intros c Hc. apply height_child in Hc. lia. }
    clear Hd H. revert s IH Hh. induction (children n) as [|c l IHl]; intros s IH Hh; [done|].
    apply Forall_cons in IH as [Hc IH]. apply Forall_cons in Hh as [Hhc Hh].
    cbn. rewrite rfold_app, Hc by done.
    destruct (rfold visitor (postorder c) s); cbn; [by apply IHl|done]. }
  rewrite Hl. destruct (rfold visitor _ s) as [t|]; cbn; [|done].
  by destruct (visitor n t).
Qed.

Lemma visitExpression_postorder {S} (visitor : node → S → result exn S) n s :
  height n ≤ 256 → visitExpression visitor n s = rfold visitor (postorder n) s.
Proof. intros. rewrite visitExpression_rec. by apply visit_rec_postorder. Qed.

(** A completed traversal bounds the tree: it never silently skips a part. *)
Lemma visit_rec_height {S} (visitor : node → S → result exn S) n : ∀ d s s',
  visit_rec visitor d n s = Ok s' → d + height n ≤ 256.
Proof.
  induction n as [n IH] using node_rec_children. intros d s s' H.
  rewrite visit_rec_eq in H. destruct (Nat.ltb_spec 256 d); [done|].
  apply bind_Ok in H as (t & Ht & _).
  enough (Hk : ∀ c, c ∈ children n → Datatypes.S (height c) ≤ 256 - d)
    by (apply height_le in Hk; lia).
  revert s t IH Ht. induction (children n) as [|x l IHl]; intros s t IH Ht c Hc; [set_solver|].
  apply Forall_cons in IH as [Hx IH]. cbn in Ht. apply bind_Ok in Ht as (u & Hu & Ht).
  apply elem_of_cons in Hc as [->|Hc]; [|by eapply IHl].
  apply Hx in Hu. lia.
Qed.

Lemma visitExpression_height {S} (visitor : node → S → result exn S) n s s' :
  visitExpression visitor n s = Ok s' → height n ≤ 256.
Proof. rewrite visitExpression_rec. intros H. by apply visit_rec_height in H. Qed.
