(* ===== verification/Parser.v ===== *)
(** * Lexer and parser of billing expressions

    Models the class [BillingParser] of [billing-expression/parser.ts]: the
    tokenizer [next], the precedence-climbing [expression], and [primary].

    The parser object's mutable fields are the record [pstate]; [depth] is
    incremented on entry of [expression] and decremented on every normal
    exit, so it is the nesting depth and is passed as an argument.  The
    mutual recursion is bounded by a fuel of three units per remaining code
    unit, and [parse_never_out_of_fuel] shows that this is always enough. *)
From stdpp Require Import base list option numbers sets.
From Stdlib Require Import ZArith Lia.
From S2P Require Import Prelude.
From S2P Require Import JsString.
From S2P Require Import JsNumber.
From S2P Require Import Syntax.

Inductive lexkind : Type :=
| KNumber (value : num) (integer : bool)
| KString (value : jsstr)
| KSymbol
| KName
| KEnd.

Record Lexeme : Type := {
  kind : lexkind;
  text : jsstr;
  l_start : nat;
  l_end : nat
}.

(** ** Operators *)

Definition all_binops : list binop :=
  [Oor; Oand; Oeq; One; Olt; Ole; Ogt; Oge; Oadd; Osub; Omul; Odiv; Omod].

Definition binop_text (o : binop) : jsstr :=
  match o with
  | Oor => js "||" | Oand => js "&&" | Oeq => js "==" | One => js "!="
  | Olt => js "<" | Ole => js "<=" | Ogt => js ">" | Oge => js ">="
  | Oadd => js "+" | Osub => js "-" | Omul => js "*" | Odiv => js "/"
  | Omod => js "%"
  end.

Definition PRECEDENCE (o : binop) : nat :=
  match o with
  | Oor => 1 | Oand => 2 | Oeq => 3 | One => 3
  | Olt => 4 | Ole => 4 | Ogt => 4 | Oge => 4
  | Oadd => 5 | Osub => 5 | Omul => 6 | Odiv => 6 | Omod => 6
  end.

Definition binop_of_text : jsstr → option binop := lookup_text binop_text all_binops.

Definition unop_text (o : unop) : jsstr :=
  match o with Unot => js "!" | Uplus => js "+" | Uminus => js "-" end.
Definition unop_of_text : jsstr → option unop :=
  lookup_text unop_text [Unot; Uplus; Uminus].

Arguments binop_of_text : simpl never.
Arguments unop_of_text : simpl never.

(** ** Tokenizer *)

(** The object literal [escapes] of the string scanner. *)
Definition escape_char (c : N) : option N :=
  if (c =? cu "n")%N then Some 10%N
  else if (c =? cu "r")%N then Some 13%N
  else if (c =? cu "t")%N then Some 9%N
  else if (c =? cu "b")%N then Some 8%N
  else if (c =? cu "f")%N then Some 12%N
  else if (c =? cu "v")%N then Some 11%N
  else if (c =? BACKSLASH)%N || (c =? DQUOTE)%N || (c =? SQUOTE)%N || (c =? cu "/")%N
  then Some c
  else None.

(** [Number.parseInt(hex, 16)] on text of the right length that is all hex. *)
Definition hex_text (ds : list N) : option N :=
  fold_left (λ acc c, a ← acc; d ← hex_value c; Some (16 * a + d)%N) ds (Some 0%N).

Arguments escape_char : simpl never.
Arguments hex_text : simpl never.

Definition unterminated {A} (start : nat) : result exn A :=
  throw Syntax (js "unterminated string") (Some start).
Definition bad_escape {A} (pos : nat) : result exn A :=
  throw Unsupported (js "string escape") (Some pos).

(** The scanning loop after the opening quote: [cursor] is the index of the
    head of [s]; the result is the value and the cursor after the closing
    quote. *)
Fixpoint lex_string (start : nat) (quote : N) (cursor : nat) (s : jsstr) (value : jsstr)
    : result exn (jsstr * nat) :=
  match s with
  | [] => unterminated start
  | char :: s1 =>
      if (char =? quote)%N then Ok (value, S cursor)
      else if (char =? 10)%N || (char =? 13)%N then unterminated start
      else if negb (char =? BACKSLASH)%N then
        lex_string start quote (S cursor) s1 (value ++ [char])
      else
        match s1 with
        | [] => bad_escape (S cursor)
        | escaped :: s2 =>
            match escape_char escaped with
            | Some c => lex_string start quote (2 + cursor) s2 (value ++ [c])
            | None =>
                if (escaped =? cu "u")%N then
                  match s2 with
                  | h1 :: h2 :: h3 :: h4 :: s3 =>
                      match hex_text [h1; h2; h3; h4] with
                      | Some v => lex_string start quote (6 + cursor) s3 (value ++ [v])
                      | None => unterminated start
                      end
                  | _ => unterminated start
                  end
                else if (escaped =? cu "x")%N then
                  match s2 with
                  | h1 :: h2 :: s3 =>
                      match hex_text [h1; h2] with
                      | Some v => lex_string start quote (4 + cursor) s3 (value ++ [v])
                      | None => unterminated start
                      end
                  | _ => unterminated start
                  end
                else bad_escape (S cursor)
            end
        end
  end.

Fixpoint count_spaces (s : jsstr) : nat :=
  match s with
  | c :: s => if is_space c then S (count_spaces s) else 0
  | [] => 0
  end.

Fixpoint count_word (s : jsstr) : nat :=
  match s with
  | c :: s => if is_word c then S (count_word s) else 0
  | [] => 0
  end.

(** Length of the identifier [[A-Za-z_][\w]*] at the start of a text. *)
Definition match_name (s : jsstr) : option nat :=
  match s with
  | c :: s' => if is_alpha c || (c =? 95)%N then Some (S (count_word s')) else None
  | [] => None
  end.

(** The operator alternatives, two-character ones first. *)
Definition operators : list jsstr :=
  map js ["&&"; "||"; "=="; "!="; "<="; ">=";
          "+"; "-"; "*"; "/"; "%"; "<"; ">"; "("; ")"; "!"; "?"; ":"; ","]%string.
Definition match_operator (s : jsstr) : option nat :=
  length <$> List.find (λ o, starts_with o s) operators.

(** [!/[.eE]/.test(text)] *)
Definition is_integer_text (t : jsstr) : bool :=
  negb (existsb (λ c, (c =? 46) || (c =? 101) || (c =? 69))%N t).

(** [next()] from a cursor after [count] tokens: the token, and the fields
    [cursor] and [count] after the call. *)
Definition next (source : jsstr) (cursor count : nat) : result exn (Lexeme * nat * nat) :=
  let count := S count in
  if (10000 <? N.of_nat count)%N then throw Limit (js "expression tokens") None else
  let start := cursor + count_spaces (drop cursor source) in
  let rest := drop start source in
  let token k len := Ok ({| kind := k; text := take len rest; l_start := start;
                            l_end := start + len |}, start + len, count) in
  match rest with
  | [] => token KEnd 0
  | first :: _ =>
      match scan_decimal rest with
      | Some (value, after) =>
          let len := length rest - length after in
          let integer := is_integer_text (take len rest) in
          if negb (is_finite value) then throw Number (take len rest) (Some start)
          else if integer && negb (is_safe_integer value) then
            throw Unsupported (js "integer precision") (Some start)
          else token (KNumber value integer) len
      | None =>
          if (first =? DQUOTE)%N || (first =? SQUOTE)%N then
            '(value, stop) ← lex_string start first (S start) (drop (S start) source) [];
            token (KString value) (stop - start)
          else
            match match_name rest with
            | Some len => token KName len
            | None =>
                match match_operator rest with
                | Some len => token KSymbol len
                | None => throw Unsupported [first] (Some start)
                end
            end
      end
  end.

(** ** Parser *)

Record pstate : Type := { cursor : nat; count : nat; current : Lexeme }.

(** [this.current.text === t] *)
Definition is_text (st : pstate) (t : jsstr) : bool := jseq (text (current st)) t.

Section parser.
Variable source : jsstr.

Definition advance (cursor count : nat) : result exn pstate :=
  '(tok, cursor', count') ← next source cursor count;
  Ok {| cursor := cursor'; count := count'; current := tok |}.

Definition take_token (st : pstate) : result exn (Lexeme * pstate) :=
  st' ← advance (cursor st) (count st);
  Ok (current st, st').

Definition expect (t : jsstr) (st : pstate) : result exn (Lexeme * pstate) :=
  if is_text st t then take_token st
  else throw Syntax (js "expected " ++ t) (Some (l_start (current st))).

(** The version prefix [v<digits>:] after white space: its length and the
    digits. *)
Definition match_version : option (nat * jsstr) :=
  let sp := count_spaces source in
  match drop sp source with
  | c :: r =>
      if (c =? cu "v")%N then
        match span_digits r with
        | ([], _) => None
        | (ds, d :: _) =>
            if (d =? cu ":")%N then Some (sp + 2 + length ds, ds) else None
        | (_, []) => None
        end
      else None
  | [] => None
  end.

(** The constructor. *)
Definition init : result exn pstate :=
  if (65536 <? N.of_nat (length source))%N then throw Limit (js "expression length") None
  else
    match match_version with
    | Some (len, digits) =>
        if jseq digits (js "1") then advance len 0
        else throw Unsupported (take len source) None
    | None => advance 0 0
    end.

Fixpoint expression (fuel depth minimum : nat) (st : pstate) {struct fuel}
    : result exn (node * pstate) :=
  match fuel with
  | 0 => Err OutOfFuel
  | S fuel =>
      let depth := S depth in
      if 128 <? depth then throw Limit (js "expression depth") None
      else
        '(lhs, st) ← primary fuel depth st;
        '(lhs, st) ← binary_loop fuel depth minimum lhs st;
        if (minimum =? 0) && is_text st (js "?") then
          '(_, st) ← take_token st;
          '(yes, st) ← expression fuel depth 0 st;
          '(_, st) ← expect (js ":") st;
          '(no, st) ← expression fuel depth 0 st;
          Ok (ECond (Span (node_start lhs) (node_end no)) lhs yes no, st)
        else Ok (lhs, st)
  end
with binary_loop (fuel depth minimum : nat) (lhs : node) (st : pstate) {struct fuel}
    : result exn (node * pstate) :=
  match fuel with
  | 0 => Err OutOfFuel
  | S fuel =>
      match binop_of_text (text (current st)) with
      | Some operator =>
          if minimum <=? PRECEDENCE operator then
            '(_, st) ← take_token st;
            '(rhs, st) ← expression fuel depth (PRECEDENCE operator + 1) st;
            binary_loop fuel depth minimum
              (EBin (Span (node_start lhs) (node_end rhs)) operator lhs rhs) st
          else Ok (lhs, st)
      | None => Ok (lhs, st)
      end
  end
with primary (fuel depth : nat) (st : pstate) {struct fuel} : result exn (node * pstate) :=
  match fuel with
  | 0 => Err OutOfFuel
  | S fuel =>
      '(token, st) ← take_token st;
      let sp := Span (l_start token) (l_end token) in
      match kind token with
      | KNumber value integer => Ok (ELit sp (LNum value integer), st)
      | KString value => Ok (ELit sp (LStr value), st)
      | _ =>
          if jseq (text token) (js "(") then
            '(inner, st) ← expression fuel depth 0 st;
            '(close, st) ← expect (js ")") st;
            Ok (with_span (Span (l_start token) (l_end close)) inner, st)
          else
            match unop_of_text (text token) with
            | Some operator =>
                '(operand, st) ← expression fuel depth 7 st;
                Ok (EUn (Span (l_start token) (node_end operand)) operator operand, st)
            | None =>
                match kind token with
                | KName =>
                    if jseq (text token) (js "nil") then Ok (ELit sp LNull, st)
                    else if jseq (text token) (js "true") || jseq (text token) (js "false")
                    then Ok (ELit sp (LBool (jseq (text token) (js "true"))), st)
                    else if negb (is_text st (js "(")) then
                      match bvar_of_text (text token) with
                      | Some v => Ok (EVar sp v, st)
                      | None => throw Unsupported (text token) (Some (l_start token))
                      end
                    else
                      match fname_of_text (text token) with
                      | None => throw Unsupported (text token) (Some (l_start token))
                      | Some f =>
                          '(_, st) ← take_token st;
                          '(args, st) ← arguments fuel depth [] st;
                          '(close, st) ← expect (js ")") st;
                          if negb (length args =? BILLING_FUNCTIONS f) then
                            throw Type_ (text token) (Some (l_start token))
                          else Ok (ECall (Span (l_start token) (l_end close)) f args, st)
                      end
                | _ => throw Syntax (text token) (Some (l_start token))
                end
            end
      end
  end
with arguments (fuel depth : nat) (args : list node) (st : pstate) {struct fuel}
    : result exn (list node * pstate) :=
  match fuel with
  | 0 => Err OutOfFuel
  | S fuel =>
      if is_text st (js ")") then Ok (args, st)
      else
        '(arg, st) ← expression fuel depth 0 st;
        let args := args ++ [arg] in
        if negb (is_text st (js ",")) then Ok (args, st)
        else '(_, st) ← take_token st; arguments fuel depth args st
  end.

Definition parse : result exn node :=
  st ← init;
  '(n, st) ← expression (3 * length source + 8) 0 0 st;
  match kind (current st) with
  | KEnd => Ok n
  | _ => throw Unsupported (text (current st)) (Some (l_start (current st)))
  end.
End parser.
