(* ===== verification/ParserFacts.v ===== *)
(** * The parser: termination, spans and arities

    Lemmas about [Parser]: the tokenizer always moves forward inside the
    source, the mutual recursion never exhausts its fuel, and every tree it
    returns has nested, ordered, non-empty source spans and calls of the
    declared arity. *)
From stdpp Require Import base list option numbers sets.
From Stdlib Require Import ZArith Lia.
From S2P Require Import Prelude.
From S2P Require Import JsString.
From S2P Require Import JsNumber.
From S2P Require Import Syntax.
From S2P Require Import Parser.

(** ** Scanners consume a prefix *)

Lemma span_digits_app s d r : span_digits s = (d, r) → s = d ++ r ∧ Forall (λ c, is_digit c = true) d.
Proof.
  revert d r. induction s as [|c s IH]; intros d r H; cbn in H; simplify_eq/=; [done|].
  destruct (is_digit c) eqn:Hc; [|by simplify_eq/=].
  destruct (span_digits s) as [d' r'] eqn:E. simplify_eq/=.
  destruct (IH _ _ eq_refl) as [-> ?]. split; [done|by constructor].
Qed.

Lemma span_exponent_length s e r : span_exponent s = (e, r) → length r ≤ length s.
Proof.
  destruct s as [|c s]; cbn; [by intros [=_ <-]|].
  case_match; [|by intros [=_ <-]].
  destruct (match s with [] => _ | _ => _ end) as [neg s2] eqn:E.
  assert (length s2 ≤ length s).
  { destruct s as [|x t]; simplify_eq/=; [lia|]. repeat case_match; simplify_eq/=; lia. }
  destruct (span_digits s2) as [[|d ds] r'] eqn:Es; intros [=_ <-]; cbn; [lia|].
  apply span_digits_app in Es as [-> _]. rewrite length_app in *. cbn in *. lia.
Qed.

Lemma scan_decimal_length s v r : scan_decimal s = Some (v, r) → length r < length s.
Proof.
  unfold scan_decimal.
  destruct (span_digits s) as [[|d ds] r0] eqn:Es; apply span_digits_app in Es as [-> _].
  - destruct r0 as [|c r0]; [done|]. case_match; [|done].
    destruct (span_digits r0) as [[|f fs] r1] eqn:Ef; [done|].
    apply span_digits_app in Ef as [-> _].
    destruct (span_exponent r1) as [e r2] eqn:Ee; intros [=_ <-].
    apply span_exponent_length in Ee. cbn. rewrite length_app. lia.
  - destruct r0 as [|c r0].
    + destruct (span_exponent []) as [e r2] eqn:Ee; intros [=_ <-].
      apply span_exponent_length in Ee. cbn in *. lia.
    + case_match.
      * destruct (span_digits r0) as [f r1] eqn:Ef. apply span_digits_app in Ef as [-> _].
        destruct (span_exponent r1) as [e r2] eqn:Ee; intros [=_ <-].
        apply span_exponent_length in Ee. cbn. rewrite !length_app. cbn. rewrite length_app. lia.
      * destruct (span_exponent (c :: r0)) as [e r2] eqn:Ee; intros [=_ <-].
        apply span_exponent_length in Ee. cbn in *. rewrite length_app. cbn. lia.
Qed.

Lemma count_spaces_le s : count_spaces s ≤ length s.
Proof. induction s as [|c s IH]; cbn; [lia|]. case_match; lia. Qed.

Lemma count_word_le s : count_word s ≤ length s.
Proof. induction s as [|c s IH]; cbn; [lia|]. case_match; lia. Qed.

Lemma match_name_bound s n : match_name s = Some n → 0 < n ≤ length s.
Proof.
  destruct s as [|c s]; [done|]. cbn. case_match; [|done]. intros [= <-].
  pose proof (count_word_le s). lia.
Qed.

Lemma match_operator_bound s n : match_operator s = Some n → 0 < n ≤ length s.
Proof.
  unfold match_operator. intros H. apply fmap_Some in H as (o & H & ->).
  apply find_some in H as [Hin Hs].
  apply starts_with_app in Hs as [r ->]. rewrite length_app. split; [|lia].
  assert (Hall : Forall (λ o, 0 < length o) operators) by (repeat constructor).
  rewrite Forall_forall in Hall. apply Hall. by apply list_elem_of_In.
Qed.

Lemma lex_string_bound start quote s : ∀ cursor value v stop,
  lex_string start quote cursor s value = Ok (v, stop) →
  cursor < stop ≤ cursor + length s.
Proof.
  induction s as [s IH] using (induction_ltof1 _ length). unfold ltof in IH.
  intros cursor value v stop H.
  destruct s as [|char s1]; cbn in H; [done|].
  destruct (char =? quote)%N; [simplify_eq/=; lia|].
  destruct ((char =? 10)%N || (char =? 13)%N); [done|].
  destruct (negb (char =? BACKSLASH)%N).
  { apply IH in H; cbn; lia. }
  destruct s1 as [|escaped s2]; [done|].
  destruct (escape_char escaped). { apply IH in H; cbn; lia. }
  destruct (escaped =? cu "u")%N.
  { destruct s2 as [|h1 [|h2 [|h3 [|h4 s3]]]]; try done.
    destruct (hex_text _); [|done]. apply IH in H; cbn; lia. }
  destruct (escaped =? cu "x")%N; [|done].
  destruct s2 as [|h1 [|h2 s3]]; try done.
  destruct (hex_text _); [|done]. apply IH in H; cbn; lia.
Qed.

(** ** The tokenizer *)

(** A token lies at its span, which is empty exactly at the end of input; a
    number is finite. *)
Definition token_ok (source : jsstr) (t : Lexeme) : Prop :=
  l_start t ≤ l_end t ≤ length source ∧
  text t = slice source (l_start t) (l_end t) ∧
  match kind t with
  | KEnd => l_start t = length source
  | KNumber v _ => l_start t < l_end t ∧ is_finite v = true
  | _ => l_start t < l_end t
  end.

Lemma next_token_ok source cursor count t cursor' count' :
  cursor ≤ length source →
  next source cursor count = Ok (t, cursor', count') →
  token_ok source t ∧ cursor ≤ l_start t ∧ cursor' = l_end t ∧
  count' = S count ∧ (N.of_nat count' <= 10000)%N.
Proof.
  intros Hc H. unfold next in H.
  destruct (10000 <? N.of_nat (S count))%N eqn:Hcount; [done|]. bools.
  set (start := cursor + count_spaces (drop cursor source)) in *.
  assert (Hstart : cursor ≤ start ≤ length source).
  { pose proof (count_spaces_le (drop cursor source)). rewrite length_drop in *. lia. }
  assert (Hlen : length (drop start source) = length source - start) by apply length_drop.
  assert (Htok : ∀ k len, len ≤ length (drop start source) →
    match k with KEnd => drop start source = [] | KNumber v _ => 0 < len ∧ is_finite v = true | _ => 0 < len end →
    Ok ({| kind := k; text := take len (drop start source); l_start := start;
           l_end := start + len |}, start + len, S count) =
    @Ok exn _ (t, cursor', count') →
    token_ok source t ∧ cursor ≤ l_start t ∧ cursor' = l_end t ∧
    count' = S count ∧ (N.of_nat count' <= 10000)%N).
  { intros k len Hl Hk [= <- <- <-]. unfold token_ok, slice; cbn.
    replace (start + len - start) with len by lia.
    repeat split; try lia; [].
    destruct k; try lia; [split; [lia|tauto]|]. rewrite Hk in Hlen. cbn in Hlen. lia. }
  destruct (drop start source) as [|first rest] eqn:Hrest.
  { by eapply (Htok KEnd 0). }
  destruct (scan_decimal (first :: rest)) as [[v r]|] eqn:Hd.
  { apply scan_decimal_length in Hd.
    destruct (is_finite v) eqn:Hfin; [|done].
    destruct (is_integer_text _ && _); [done|].
    eapply (Htok (KNumber _ _)); [| |exact H]; cbn in *; [lia|split; [lia|done]]. }
  destruct ((first =? DQUOTE)%N || (first =? SQUOTE)%N).
  { apply bind_Ok in H as ([v stop] & Hs & H). apply lex_string_bound in Hs.
    rewrite length_drop in Hs. cbn in Hlen.
    eapply (Htok (KString _)); [| |exact H]; cbn in *; lia. }
  destruct (match_name (first :: rest)) as [len|] eqn:Hn.
  { apply match_name_bound in Hn. eapply (Htok KName); [| |exact H]; lia. }
  destruct (match_operator (first :: rest)) as [len|] eqn:Ho; [|done].
  apply match_operator_bound in Ho. eapply (Htok KSymbol); [| |exact H]; lia.
Qed.

Lemma lex_string_no_fuel start quote s : ∀ cursor value,
  lex_string start quote cursor s value ≠ Err OutOfFuel.
Proof.
  induction s as [s IH] using (induction_ltof1 _ length). unfold ltof in IH.
  intros cursor value H.
  destruct s as [|char s1]; cbn in H; [done|].
  repeat match type of H with
  | context [match ?x with _ => _ end] => destruct x; try done
  end; by apply IH in H; cbn; try lia.
Qed.

Lemma next_no_fuel source cursor count : next source cursor count ≠ Err OutOfFuel.
Proof.
  unfold next. case_match; [done|].
  case_match; [done|]. case_match.
  { destruct p. by repeat case_match. }
  case_match; [|by repeat case_match].
  intros He. apply bind_Err in He as [He|([v stop] & _ & He)]; [|done].
  by apply lex_string_no_fuel in He.
Qed.

(** ** Well-formed trees *)

(** The spans of [l] lie between [lo] and [hi], in order. *)
Fixpoint ordered (lo : nat) (l : list node) (hi : nat) : Prop :=
  match l with
  | [] => lo ≤ hi
  | a :: l => lo ≤ node_start a ∧ node_start a < node_end a ∧ ordered (node_end a) l hi
  end.

Definition width (n : node) : nat := node_end n - node_start n.

Definition arity_ok (n : node) : Prop :=
  match n with
  | ECall _ f args => length args = BILLING_FUNCTIONS f
  | ELit _ (LNum x _) => is_finite x = true
  | _ => True
  end.

(** Non-empty span, children in order inside it and strictly shorter, calls
    of the declared arity, finite numbers; hereditarily. *)
Inductive wf_node : node → Prop :=
| wf_node_intro n :
    node_start n < node_end n →
    ordered (node_start n) (children n) (node_end n) →
    (∀ c, c ∈ children n → width c < width n) →
    arity_ok n →
    (∀ c, c ∈ children n → wf_node c) →
    wf_node n.

Lemma wf_node_inv n : wf_node n →
  node_start n < node_end n ∧ ordered (node_start n) (children n) (node_end n) ∧
  (∀ c, c ∈ children n → width c < width n) ∧ arity_ok n ∧
  (∀ c, c ∈ children n → wf_node c).
Proof. by destruct 1. Qed.

Lemma ordered_app lo l1 l2 hi :
  ordered lo (l1 ++ l2) hi ↔ ∃ mid, ordered lo l1 mid ∧ ordered mid l2 hi.
Proof.
  revert lo. induction l1 as [|a l1 IH]; intros lo; cbn.
  - split; [exists lo; by split|]. intros (mid & ? & ?).
    destruct l2; cbn in *; [lia|]. destruct_and!. repeat split; try done; lia.
  - rewrite IH. naive_solver.
Qed.

Lemma ordered_weaken lo lo' l hi hi' : lo' ≤ lo → hi ≤ hi' → ordered lo l hi → ordered lo' l hi'.
Proof.
  revert lo lo'. induction l as [|a l IH]; intros lo lo' ?? H; cbn in *; [lia|].
  destruct_and!. repeat split; try lia. by eapply IH.
Qed.

Lemma ordered_bounds lo l hi c :
  ordered lo l hi → c ∈ l → lo ≤ node_start c ∧ node_start c < node_end c ∧ node_end c ≤ hi.
Proof.
  revert lo. induction l as [|a l IH]; intros lo H Hc; [set_solver|]. cbn in H.
  destruct_and!. assert (node_end a ≤ hi).
  { clear -H2. revert H2. generalize (node_end a) as k.
    induction l as [|b l IH]; intros k; cbn; [done|]. intros (?&?&H%IH). lia. }
  apply elem_of_cons in Hc as [->|Hc]; [lia|]. apply (IH (node_end a)) in Hc; [lia|done].
Qed.

Lemma ordered_le lo l hi : ordered lo l hi → lo ≤ hi.
Proof.
  revert lo. induction l as [|a l IH]; intros lo; cbn; [done|]. intros (?&?&H%IH). lia.
Qed.

(** A larger span around a well-formed node, as parentheses give it. *)
Lemma wf_with_span s e n :
  s ≤ node_start n → node_end n ≤ e → wf_node n → wf_node (with_span (Span s e) n).
Proof.
  intros Hs He (H1 & H2 & H3 & H4 & H5)%wf_node_inv.
  assert (Hc : children (with_span (Span s e) n) = children n) by by destruct n.
  assert (Hss : node_start (with_span (Span s e) n) = s) by by destruct n.
  assert (Hee : node_end (with_span (Span s e) n) = e) by by destruct n.
  constructor; rewrite ?Hc, ?Hss, ?Hee; [lia| | | |done].
  - by eapply ordered_weaken; [..|exact H2].
  - intros c Hin. specialize (H3 c Hin). unfold width in *. rewrite Hss, Hee. lia.
  - by destruct n.
Qed.

Lemma wf_leaf sp n : children n = [] → node_span n = sp → start sp < end_ sp → arity_ok n → wf_node n.
Proof.
  intros Hc Hs ? ?. constructor; unfold node_start, node_end; rewrite ?Hc, ?Hs; cbn;
    [done|lia|set_solver|done|set_solver].
Qed.

Lemma wf_unary s o a : s < node_start a → wf_node a → wf_node (EUn (Span s (node_end a)) o a).
Proof.
  intros ? Ha. pose proof (wf_node_inv _ Ha) as (? & _).
  constructor; cbn; [unfold node_start, node_end in *; cbn; lia| | |done|set_solver].
  - unfold node_start, node_end in *. cbn. lia.
  - intros c ->%list_elem_of_singleton. unfold width, node_start, node_end in *. cbn. lia.
Qed.

Lemma wf_binary o a b :
  node_end a < node_start b → wf_node a → wf_node b →
  wf_node (EBin (Span (node_start a) (node_end b)) o a b).
Proof.
  intros ? Ha Hb. pose proof (wf_node_inv _ Ha) as (? & _). pose proof (wf_node_inv _ Hb) as (? & _).
  constructor; cbn; [unfold node_start, node_end in *; cbn; lia| | |done|set_solver].
  - unfold node_start, node_end in *. cbn. lia.
  - unfold width, node_start, node_end in *. cbn. set_solver by lia.
Qed.

Lemma wf_conditional a b c :
  node_end a < node_start b → node_end b < node_start c → wf_node a → wf_node b → wf_node c →
  wf_node (ECond (Span (node_start a) (node_end c)) a b c).
Proof.
  intros ?? Ha Hb Hc. pose proof (wf_node_inv _ Ha) as (? & _).
  pose proof (wf_node_inv _ Hb) as (? & _). pose proof (wf_node_inv _ Hc) as (? & _).
  constructor; cbn; [unfold node_start, node_end in *; cbn; lia| | |done|set_solver].
  - unfold node_start, node_end in *. cbn. lia.
  - unfold width, node_start, node_end in *. cbn. set_solver by lia.
Qed.

Lemma wf_call s e f args :
  s < e → ordered (S s) args e → length args = BILLING_FUNCTIONS f →
  (∀ c, c ∈ args → wf_node c) → wf_node (ECall (Span s e) f args).
Proof.
  intros ? Ho ? Hall. constructor; cbn; try done.
  - eapply ordered_weaken; [..|exact Ho]; unfold node_start, node_end; cbn; lia.
  - intros c Hc. pose proof (ordered_bounds _ _ _ _ Ho Hc).
    unfold width, node_start, node_end in *. cbn. lia.
Qed.

(** ** Specification of the mutual recursion *)

(** [post H r P]: a normal return satisfies [P]; under [H] the call does not
    run out of fuel. *)
Definition post {A} (H : Prop) (r : result exn A) (P : A → Prop) : Prop :=
  match r with Ok a => P a | Err e => H → e ≠ OutOfFuel end.

Lemma post_bind {A B} (H1 H : Prop) (r : result exn A) (f : A → result exn B) P Q :
  post H1 r P → (H → H1) → (∀ a, P a → post H (f a) Q) → post H (r ≫= f) Q.
Proof. destruct r as [a|e]; cbn; [auto|]. intros He HH _ HH'. auto. Qed.

Lemma post_throw {A} H c d p (P : A → Prop) : post H (throw c d p) P.
Proof. done. Qed.

Section spec.
Variable source : jsstr.

Definition st_ok (st : pstate) : Prop :=
  token_ok source (current st) ∧ cursor st = l_end (current st).

(** Code units not yet tokenized, plus one for a pending token. *)
Definition rem (st : pstate) : nat :=
  (length source - cursor st) + match kind (current st) with KEnd => 0 | _ => 1 end.

Lemma advance_post c k :
  c ≤ length source →
  post True (advance source c k) (λ st, st_ok st ∧ c ≤ l_start (current st) ∧ count st = S k).
Proof.
  intros Hc. unfold advance. destruct (next source c k) as [[[t c'] k']|e] eqn:E; cbn.
  - apply next_token_ok in E as (?&?&->&->&_); [|done]. split; [by split|done].
  - intros _ ->. by apply next_no_fuel in E.
Qed.

Lemma take_token_post st :
  st_ok st →
  post True (take_token source st) (λ '(t, st'),
    t = current st ∧ st_ok st' ∧ l_end t ≤ l_start (current st') ∧
    rem st' ≤ rem st ∧ (kind t ≠ KEnd → rem st' < rem st)).
Proof.
  intros [Ht Hc]. unfold take_token.
  eapply post_bind; [apply (advance_post (cursor st) (count st))|done|].
  { rewrite Hc. apply Ht. }
  intros st' (Hok & Hle & _). cbn. split; [done|]. split; [done|].
  split; [by rewrite <- Hc|]. destruct Hok as [(?&_&Hk) Hc'], Ht as (?&_&Hk0).
  unfold rem. rewrite Hc', Hc in *. destruct (kind (current st)), (kind (current st'));
    split; intros; try congruence; lia.
Qed.

Lemma expect_post t st :
  t ≠ [] → st_ok st →
  post True (expect source t st) (λ '(tok, st'),
    st_ok st' ∧ l_start (current st) = l_start tok ∧ l_start tok < l_end tok ∧
    l_end tok ≤ l_start (current st') ∧ rem st' < rem st).
Proof.
  intros Hne Hst. unfold expect. destruct (is_text st t) eqn:E; [|done].
  apply jseq_eq in E. pose proof (take_token_post st Hst) as H.
  destruct (take_token source st) as [[tok st']|e]; [|done]. cbn in *.
  destruct H as (-> & Hok & Hle & _ & Hrem).
  assert (Hk : kind (current st) ≠ KEnd).
  { intros Hk. destruct Hst as [(Hb & Htxt & Hend) _]. rewrite Hk in Hend.
    rewrite Hend in Htxt. unfold slice in Htxt. rewrite drop_ge in Htxt by lia.
    rewrite firstn_nil in Htxt. congruence. }
  split; [done|]. split; [done|]. split; [|by split; auto].
  destruct Hst as [(_ & _ & Hend) _]. destruct (kind (current st)); tauto.
Qed.

Definition expr_post (H : Prop) (st : pstate) (r : result exn (node * pstate)) : Prop :=
  post H r (λ '(n, st'), st_ok st' ∧ rem st' < rem st ∧ wf_node n ∧
    node_start n = l_start (current st) ∧ node_end n ≤ l_start (current st')).

Definition expression_spec (fuel : nat) : Prop := ∀ depth minimum st,
  st_ok st → expr_post (3 * rem st + 2 ≤ fuel) st (expression source fuel depth minimum st).

Definition primary_spec (fuel : nat) : Prop := ∀ depth st,
  st_ok st → expr_post (3 * rem st + 1 ≤ fuel) st (primary source fuel depth st).

Definition binary_spec (fuel : nat) : Prop := ∀ depth minimum lhs st,
  st_ok st → wf_node lhs → node_end lhs ≤ l_start (current st) →
  post (3 * rem st + 1 ≤ fuel) (binary_loop source fuel depth minimum lhs st) (λ '(n, st'),
    st_ok st' ∧ rem st' ≤ rem st ∧ wf_node n ∧
    node_start n = node_start lhs ∧ node_end n ≤ l_start (current st')).

Definition arguments_spec (fuel : nat) : Prop := ∀ depth lo args st,
  st_ok st → ordered lo args (l_start (current st)) → (∀ c, c ∈ args → wf_node c) →
  post (3 * rem st + 3 ≤ fuel) (arguments source fuel depth args st) (λ '(args', st'),
    st_ok st' ∧ rem st' ≤ rem st ∧ ordered lo args' (l_start (current st')) ∧
    (∀ c, c ∈ args' → wf_node c)).

Lemma not_end_of_text st t : st_ok st → text (current st) = t → t ≠ [] → kind (current st) ≠ KEnd.
Proof.
  intros [(Hb & Htxt & Hend) _] Ht Hne Hk. rewrite Hk in Hend.
  rewrite Hend in Htxt. unfold slice in Htxt. rewrite drop_ge in Htxt by lia.
  rewrite firstn_nil in Htxt. congruence.
Qed.

Lemma token_nonempty st : st_ok st → kind (current st) ≠ KEnd → l_start (current st) < l_end (current st).
Proof. intros [(_ & _ & H) _] Hk. destruct (kind (current st)); tauto. Qed.

Lemma binop_text_nonempty o : binop_text o ≠ [].
Proof. by destruct o. Qed.
Lemma unop_text_nonempty o : unop_text o ≠ [].
Proof. by destruct o. Qed.

Lemma expression_step fuel :
  expression_spec fuel → primary_spec fuel → binary_spec fuel → expression_spec (S fuel).
Proof.
  intros IHe IHp IHb depth minimum st Hst. unfold expr_post. cbn -[Nat.ltb Nat.mul throw].
  destruct (128 <? S depth); [done|].
  eapply post_bind; [by apply IHp|lia|]. intros [n1 st1] (H1 & R1 & W1 & S1 & E1).
  eapply post_bind; [by apply IHb|lia|]. intros [n2 st2] (H2 & R2 & W2 & S2 & E2).
  destruct ((minimum =? 0) && is_text st2 (js "?")) eqn:Hq.
  2: { cbn. conjs; try fast_done; try lia; congruence. }
  apply andb_true_iff in Hq as [_ Hq]. apply jseq_eq in Hq.
  assert (Hk : kind (current st2) ≠ KEnd) by (by eapply not_end_of_text).
  pose proof (token_nonempty _ H2 Hk).
  eapply post_bind; [by apply take_token_post|done|].
  intros [t st3] (-> & H3 & E3 & _ & R3). specialize (R3 Hk).
  eapply post_bind; [by apply IHe|lia|]. intros [yes st4] (H4 & R4 & W4 & S4 & E4).
  eapply post_bind; [by apply expect_post|done|]. intros [t5 st5] (H5 & L5 & ? & E5 & R5).
  eapply post_bind; [by apply IHe|lia|]. intros [no st6] (H6 & R6 & W6 & S6 & E6).
  cbn. conjs; [done|lia| | |done].
  - apply wf_conditional; try fast_done; lia.
  - unfold node_start in *. cbn. congruence.
Qed.

Lemma binary_step fuel :
  expression_spec fuel → binary_spec fuel → binary_spec (S fuel).
Proof.
  intros IHe IHb depth minimum lhs st Hst Hw He. cbn -[Nat.mul throw].
  destruct (binop_of_text (text (current st))) as [o|] eqn:Ho; [|cbn; conjs; try fast_done; lia].
  destruct (minimum <=? PRECEDENCE o); [|cbn; conjs; try fast_done; lia].
  apply lookup_text_Some in Ho.
  assert (Hk : kind (current st) ≠ KEnd).
  { eapply not_end_of_text; [done|by symmetry|apply binop_text_nonempty]. }
  pose proof (token_nonempty _ Hst Hk).
  eapply post_bind; [by apply take_token_post|done|].
  intros [t st1] (-> & H1 & E1 & _ & R1). specialize (R1 Hk).
  eapply post_bind; [by apply IHe|lia|]. intros [rhs st2] (H2 & R2 & W2 & S2 & E2).
  assert (W3 : wf_node (EBin (Span (node_start lhs) (node_end rhs)) o lhs rhs)).
  { apply wf_binary; try fast_done. lia. }
  pose proof (IHb depth minimum (EBin (Span (node_start lhs) (node_end rhs)) o lhs rhs) st2 H2 W3 E2) as IH.
  destruct (binary_loop _ _ _ _ _ _) as [[n st3]|e]; cbn in *.
  - destruct IH as (? & ? & ? & ? & ?). conjs; try fast_done; lia.
  - intros Hf. apply IH. lia.
Qed.

Lemma arguments_step fuel :
  expression_spec fuel → arguments_spec fuel → arguments_spec (S fuel).
Proof.
  intros IHe IHa depth lo args st Hst Hord Hall. cbn -[Nat.mul throw].
  destruct (is_text st (js ")")); [cbn; conjs; fast_done|].
  eapply post_bind; [by apply IHe|lia|]. intros [arg st1] (H1 & R1 & W1 & S1 & E1).
  pose proof (wf_node_inv _ W1) as (? & _).
  assert (Hord1 : ordered lo (args ++ [arg]) (l_start (current st1))).
  { apply ordered_app. exists (l_start (current st)). split; [done|]. cbn. lia. }
  assert (Hall1 : ∀ c, c ∈ args ++ [arg] → wf_node c) by set_solver.
  destruct (is_text st1 (js ",")) eqn:Hc; cbn; [|conjs; try fast_done; lia].
  apply jseq_eq in Hc.
  assert (Hk : kind (current st1) ≠ KEnd) by (by eapply not_end_of_text).
  pose proof (token_nonempty _ H1 Hk).
  eapply post_bind; [by apply take_token_post|done|].
  intros [t st2] (-> & H2 & E2 & _ & R2). specialize (R2 Hk).
  pose proof (IHa depth lo (args ++ [arg]) st2 H2) as IH.
  destruct (arguments source fuel depth (args ++ [arg]) st2) as [[l st3]|e]; cbn in *.
  - destruct IH as (? & ? & ? & ?); [|done|conjs; try fast_done; lia].
    eapply ordered_weaken; [| |exact Hord1]; lia.
  - intros Hf. apply IH; [|done|lia]. eapply ordered_weaken; [| |exact Hord1]; lia.
Qed.

Lemma primary_step fuel :
  expression_spec fuel → arguments_spec fuel → primary_spec (S fuel).
Proof.
  intros IHe IHa depth st Hst. unfold expr_post. cbn -[Nat.mul throw].
  eapply post_bind; [by apply take_token_post|done|].
  intros [t st1] (-> & H1 & E1 & R1 & R1').
  pose proof (token_nonempty _ Hst) as Hne.
  assert (Hfin : ∀ v i, kind (current st) = KNumber v i → is_finite v = true).
  { intros v i Hk. destruct Hst as [(_ & _ & Hend) _]. rewrite Hk in Hend. apply Hend. }
  assert (Hleaf : ∀ v, kind (current st) ≠ KEnd → match v with LNum x _ => is_finite x = true | _ => True end → post (3 * rem st + 1 ≤ S fuel)
      (Ok (ELit (Span (l_start (current st)) (l_end (current st))) v, st1)) (λ '(n, st'),
        st_ok st' ∧ rem st' < rem st ∧ wf_node n ∧
        node_start n = l_start (current st) ∧ node_end n ≤ l_start (current st'))).
  { intros v Hk Hv. cbn. conjs; try fast_done; [by apply R1'|].
    eapply wf_leaf; [done..| |done]. by apply Hne. }
  destruct (kind (current st)) as [v i|v| | |] eqn:Hk; [apply Hleaf; [done|by eapply Hfin]|by apply Hleaf|..].
  all: destruct (jseq (text (current st)) (js "(")) eqn:Hp.
  1,3,5: apply jseq_eq in Hp;
    assert (Hk' : kind (current st) ≠ KEnd) by (by eapply not_end_of_text);
    rewrite Hk in Hk'; specialize (R1' Hk'); specialize (Hne Hk');
    (eapply post_bind; [by apply IHe|lia|]); intros [n st2] (H2 & R2 & W2 & S2 & E2);
    (eapply post_bind; [by apply expect_post|done|]); intros [t3 st3] (H3 & L3 & ? & E3 & R3);
    cbn; conjs; try fast_done; [lia| |by destruct n|by destruct n];
    apply wf_with_span; [lia|lia|done].
  all: destruct (unop_of_text (text (current st))) as [o|] eqn:Hu.
  1,3,5: apply lookup_text_Some in Hu;
    assert (Hk' : kind (current st) ≠ KEnd)
      by (eapply not_end_of_text; [done|by symmetry|apply unop_text_nonempty]);
    rewrite Hk in Hk'; specialize (R1' Hk'); specialize (Hne Hk');
    (eapply post_bind; [by apply IHe|lia|]); intros [n st2] (H2 & R2 & W2 & S2 & E2);
    cbn; conjs; try fast_done; [lia|]; apply wf_unary; [lia|done].
  - done.
  - specialize (R1' ltac:(done)). specialize (Hne ltac:(done)).
    destruct (jseq (text (current st)) (js "nil")); [by apply Hleaf|].
    destruct (_ || _); [by apply Hleaf|].
    destruct (negb (is_text st1 (js "("))) eqn:Hcall.
    { destruct (bvar_of_text _) as [v|]; [|done]. cbn. conjs; try fast_done.
      by eapply wf_leaf. }
    apply negb_false_iff, jseq_eq in Hcall.
    destruct (fname_of_text _) as [f|]; [|done].
    assert (Hk1 : kind (current st1) ≠ KEnd) by (by eapply not_end_of_text).
    pose proof (token_nonempty _ H1 Hk1).
    eapply post_bind; [by apply take_token_post|done|].
    intros [t2 st2] (-> & H2 & E2 & _ & R2). specialize (R2 Hk1).
    eapply post_bind; [apply (IHa depth (S (l_start (current st))) []); [done| |set_solver]|lia|].
    { cbn. lia. }
    intros [args st3] (H3 & R3 & O3 & W3).
    eapply post_bind; [by apply expect_post|done|]. intros [t4 st4] (H4 & L4 & ? & E4 & R4).
    destruct (negb _) eqn:Har; [done|]. apply negb_false_iff, Nat.eqb_eq in Har.
    cbn. conjs; try fast_done; [lia|].
    apply ordered_le in O3 as O3'.
    apply wf_call; [lia| |done|done]. eapply ordered_weaken; [..|exact O3]; lia.
  - done.
Qed.

Lemma parser_spec fuel :
  expression_spec fuel ∧ primary_spec fuel ∧ binary_spec fuel ∧ arguments_spec fuel.
Proof.
  induction fuel as [|fuel (IHe & IHp & IHb & IHa)].
  - repeat split; intros; red; intros; red; intros; cbn; lia.
  - split; [by apply expression_step|]. split; [by apply primary_step|].
    split; [by apply binary_step|by apply arguments_step].
Qed.

Lemma match_version_bound len ds : match_version source = Some (len, ds) → len ≤ length source.
Proof.
  unfold match_version. destruct (drop _ source) as [|c r] eqn:Hd; [done|].
  assert (Hl : length (c :: r) = length source - count_spaces source)
    by (rewrite <- Hd; apply length_drop).
  case_match; [|done]. destruct (span_digits r) as [[|d ds'] r'] eqn:Hs; [done|].
  apply span_digits_app in Hs as [-> _]. destruct r' as [|x r']; [done|].
  case_match; [|done]. intros [= <- <-]. cbn in Hl. rewrite length_app in Hl. cbn in *. lia.
Qed.

Lemma init_post : post True (init source) (λ st, st_ok st ∧ rem st ≤ S (length source)).
Proof.
  unfold init. case_match; [done|].
  assert (Hadv : ∀ c, c ≤ length source →
    post True (advance source c 0) (λ st, st_ok st ∧ rem st ≤ S (length source))).
  { intros c Hc. pose proof (advance_post c 0 Hc) as Ha.
    destruct (advance source c 0) as [st|]; [|done]. cbn in *. destruct Ha as (Ha & _).
    split; [done|]. unfold rem. destruct (kind _); lia. }
  destruct (match_version source) as [[len ds]|] eqn:Hv; [|apply Hadv; lia].
  apply match_version_bound in Hv. case_match; [by apply Hadv|done].
Qed.

Lemma parse_post : post True (parse source) (λ n, wf_node n ∧ node_end n ≤ length source).
Proof.
  unfold parse. eapply post_bind; [apply init_post|done|]. intros st (Hst & Hrem).
  eapply post_bind; [by apply parser_spec|lia|]. intros [n st'] (H' & _ & W & _ & E).
  destruct H' as [(? & _) _].
  destruct (kind (current st')); try done. cbn. split; [done|lia].
Qed.
End spec.

Lemma parse_never_out_of_fuel source : parse source ≠ Err OutOfFuel.
Proof. pose proof (parse_post source) as H. intros E. rewrite E in H. by apply H. Qed.

Lemma parse_wf source n : parse source = Ok n → wf_node n ∧ node_end n ≤ length source.
Proof. pose proof (parse_post source) as H. intros E. by rewrite E in H. Qed.
