(* ===== verification/Compile.v ===== *)
(** * Static checks and compilation

    Models the rest of [billing-expression/parser.ts]: the type checker
    [checkExpressionTypes], the collection of request rules, the shape check
    [validateFixedPricingTree] and [compileBillingExpression] with its
    bounded cache. *)
From stdpp Require Import base list option numbers sets.
From Stdlib Require Import ZArith Lia.
From S2P Require Import Prelude.
From S2P Require Import JsString.
From S2P Require Import JsNumber.
From S2P Require Import Syntax.
From S2P Require Import Parser.

(** Reading [args[i].start] or [.kind] of a missing argument. *)
Definition type_error {A} : result exn A := Err (HostError (js "TypeError")).

(** ** Types *)

Inductive etype : Type := TNumber | TString | TBoolean | TNil | TDynamic.

#[global] Instance etype_eq_dec : EqDecision etype.
Proof. solve_decision. Defined.

Definition etype_text (t : etype) : jsstr :=
  match t with
  | TNumber => js "number" | TString => js "string" | TBoolean => js "boolean"
  | TNil => js "nil" | TDynamic => js "dynamic"
  end.

(** The [Map] from nodes to types: latest entry first. *)
Definition types_map : Type := list (node * etype).

Fixpoint types_get (types : types_map) (n : node) : option etype :=
  match types with
  | [] => None
  | (m, t) :: types => if node_eqb m n then Some t else types_get types n
  end.

Definition require_type (types : types_map) (child : node) (expected : etype)
    : result exn unit :=
  match types_get types child with
  | Some actual =>
      if decide (actual = expected ∨ actual = TDynamic) then Ok tt
      else throw Type_ (etype_text expected ++ js " operand") (Some (node_start child))
  | None => throw Type_ (etype_text expected ++ js " operand") (Some (node_start child))
  end.

Definition require_arg (types : types_map) (args : list node) (i : nat) (expected : etype)
    : result exn unit :=
  match args !! i with
  | Some child => require_type types child expected
  | None => type_error
  end.

Fixpoint require_all (types : types_map) (args : list node) (expected : etype)
    : result exn unit :=
  match args with
  | [] => Ok tt
  | a :: args => _ ← require_type types a expected; require_all types args expected
  end.

Definition literal_type (v : literal) : etype :=
  match v with
  | LNum _ _ => TNumber | LStr _ => TString | LBool _ => TBoolean | LNull => TNil
  end.

(** The type the visitor assigns to a node whose children are in the map. *)
Definition node_type (types : types_map) (n : node) : result exn etype :=
  match n with
  | ELit _ v => Ok (literal_type v)
  | EVar _ _ => Ok TNumber
  | EUn _ o a =>
      let t := match o with Unot => TBoolean | _ => TNumber end in
      _ ← require_type types a t; Ok t
  | ECond _ c y n' =>
      _ ← require_type types c TBoolean;
      Ok (if decide (types_get types y = types_get types n')
          then default TDynamic (types_get types y) else TDynamic)
  | EBin _ o a b =>
      match o with
      | Oand | Oor =>
          _ ← require_type types a TBoolean;
          _ ← require_type types b TBoolean;
          Ok TBoolean
      | Oeq | One | Olt | Ole | Ogt | Oge => Ok TBoolean
      | _ =>
          if decide (o = Oadd ∧ types_get types a = Some TString ∧ types_get types b = Some TString)
          then Ok TString
          else
            _ ← require_type types a TNumber;
            _ ← require_type types b TNumber;
            Ok TNumber
      end
  | ECall _ f args =>
      match f with
      | Fparam | Fu => _ ← require_arg types args 0 TString; Ok TDynamic
      | Fheader => _ ← require_arg types args 0 TString; Ok TString
      | Ftime _ => _ ← require_arg types args 0 TString; Ok TNumber
      | Fhas => _ ← require_arg types args 1 TString; Ok TBoolean
      | Ftier =>
          _ ← require_arg types args 0 TString;
          _ ← require_arg types args 1 TNumber;
          Ok TNumber
      | Ffixed | Fmin | Fmax | Fabs | Fceil | Ffloor =>
          _ ← require_all types args TNumber; Ok TNumber
      end
  end.

Definition type_visitor (n : node) (types : types_map) : result exn types_map :=
  t ← node_type types n; Ok ((n, t) :: types).

Definition checkExpressionTypes (ast : node) : result exn unit :=
  _ ← visitExpression type_visitor ast []; Ok tt.

(** ** Request rules *)

Definition is_probe (f : fname) : bool :=
  match f with Fparam | Fheader | Ftime _ => true | _ => false end.

Definition rule_visitor (source : jsstr) (n : node) (rules : list RequestRule)
    : result exn (list RequestRule) :=
  match n with
  | ECond _ condition (ELit _ (LNum multiplier _)) (ELit _ (LNum fallback _)) =>
      if negb (neqb fallback (nZ 1)) then Ok rules
      else
        '(_, calls) ← expressionDependencies condition;
        if negb (existsb is_probe calls) then Ok rules
        else Ok (rules ++ [{| rule_node := n; rule_condition := condition;
                              rule_multiplier := multiplier;
                              rule_cond := slice source (node_start condition)
                                                 (node_end condition) |}])
  | _ => Ok rules
  end.

(** ** Fixed prices *)

Definition containsPricingMarker (n : node) : result exn bool :=
  '(_, calls) ← expressionDependencies n;
  Ok (bool_decide (Ftier ∈ calls) || bool_decide (Ffixed ∈ calls)).

Definition find_rule (rules : list RequestRule) (n : node) : option RequestRule :=
  List.find (λ rule, node_eqb (rule_node rule) n) rules.

(** [factor] may scale a pricing tree: the image count, or a request rule
    with a non-negative multiplier and no price in its condition. *)
Definition is_scaling_factor (rules : list RequestRule) (factor : node) : result exn bool :=
  match factor with
  | EVar _ Vimage_count => Ok true
  | _ =>
      match find_rule rules factor with
      | Some rule =>
          if nleb NZERO (rule_multiplier rule) then
            marked ← containsPricingMarker (rule_condition rule); Ok (negb marked)
          else Ok false
      | None => Ok false
      end
  end.

Definition fixed_amount_ok (amount : node) : bool :=
  match amount with
  | ELit _ (LNum v _) => nleb NZERO v && is_finite (nmul v (nZ 1000000))
  | _ => false
  end.

Definition invalid_pricing {A} (n : node) : result exn A :=
  throw Type_
    (js "Use tier(name, fixed(amount)) with a finite, non-negative numeric literal; combine pricing branches only with conditions and request multipliers.")
    (Some (node_start n)).

Definition valid_tier_leaf (args : list node) : result exn bool :=
  match args with
  | [] => type_error
  | label :: rest =>
      marked ← containsPricingMarker label;
      if (marked : bool) then Ok false
      else
        match rest with
        | [] => type_error
        | ECall _ Ffixed fargs :: _ =>
            match fargs with
            | [] => type_error
            | amount :: _ => Ok (fixed_amount_ok amount)
            end
        | price :: _ => m ← containsPricingMarker price; Ok (negb m)
        end
  end.

Fixpoint validateFixedPricingTree (rules : list RequestRule) (n : node) : result exn unit :=
  let fallthrough :=
    match n with
    | ECall _ Ftier args =>
        ok ← valid_tier_leaf args;
        if (ok : bool) then Ok tt else invalid_pricing n
    | _ => invalid_pricing n
    end in
  match n with
  | ECond _ condition yes no =>
      marked ← containsPricingMarker condition;
      if (marked : bool) then fallthrough
      else
        _ ← validateFixedPricingTree rules yes;
        validateFixedPricingTree rules no
  | EBin _ Omul lhs rhs =>
      scales ← is_scaling_factor rules rhs;
      if (scales : bool) then validateFixedPricingTree rules lhs
      else
        scales ← is_scaling_factor rules lhs;
        if (scales : bool) then validateFixedPricingTree rules rhs
        else fallthrough
  | _ => fallthrough
  end.

(** ** Compilation *)

Definition compile (source : jsstr) : CompilationResult :=
  match
    ast ← parse source;
    _ ← checkExpressionTypes ast;
    '(variables, functions) ← expressionDependencies ast;
    requestRules ← visitExpression (rule_visitor source) ast [];
    _ ← (if decide (Ffixed ∈ functions)
         then validateFixedPricingTree requestRules ast else Ok tt);
    Ok {| c_source := source; c_ast := ast; c_variables := variables;
          c_functions := functions; c_requestRules := requestRules |}
  with
  | Ok compiled => Ok compiled
  | Err error => Err (expressionFailure error)
  end.

(** The module-level [compiledCache]: oldest entry first. *)
Definition cache : Type := list (jsstr * CompilationResult).

Fixpoint cache_get (c : cache) (source : jsstr) : option CompilationResult :=
  match c with
  | [] => None
  | (k, r) :: c => if jseq k source then Some r else cache_get c source
  end.

(** The entries kept when a result is stored: all, or all but the oldest. *)
Definition evict (c : cache) : cache :=
  match c with
  | _ :: rest => if 128 <=? length c then rest else c
  | [] => c
  end.

Definition compileBillingExpression (source : jsstr) (c : cache) : CompilationResult * cache :=
  match cache_get c source with
  | Some cached => (cached, c)
  | None =>
      let result := compile source in
      (result, evict c ++ [(source, result)])
  end.
