(* ===== verification/Runtime.v ===== *)
(** * Evaluation of billing expressions

    Models [billing-expression/runtime.ts]: GJSON path reading, the Go-style
    text of request values, wall-clock fields in a time zone, the class
    [BillingRuntime] and the two entry points [evaluateBillingExpression] and
    [evaluateBillingCondition].

    The object's mutable fields are the record [rstate].  Exceptions discard
    the runtime object, so [evaluate] is a state-passing function into
    [result exn].  [depth] is incremented on entry and decremented in the
    [finally] clause, so it is an argument.  What the browser supplies
    ([Intl.DateTimeFormat], Unicode lower-casing) is the class [Host]. *)
From stdpp Require Import base list option numbers sets.
From Stdlib Require Import ZArith SpecFloat Lia.
From S2P Require Import Prelude.
From S2P Require Import JsString.
From S2P Require Import JsNumber.
From S2P Require Import Syntax.
From S2P Require Import Parser.
From S2P Require Import Compile.

(** ** Values *)

Inductive jsval : Type :=
| JUndefined
| JNull
| JBool (b : bool)
| JNum (x : num)
| JStr (s : jsstr)
| JArr (items : list jsval)
| JObj (fields : list (jsstr * jsval)).

Record RuntimeValue : Type := RV { value : jsval; integer : bool }.

(** [x ?? null] *)
Definition or_null (v : jsval) : jsval := match v with JUndefined => JNull | _ => v end.

(** [x == null] *)
Definition is_nullish (v : jsval) : bool :=
  match v with JUndefined | JNull => true | _ => false end.

(** Own property of an object. *)
Fixpoint own (fields : list (jsstr * jsval)) (key : jsstr) : option jsval :=
  match fields with
  | [] => None
  | (k, v) :: fields => if jseq k key then Some v else own fields key
  end.

(** [a === b] when not both are objects. *)
Definition strict_eq (a b : jsval) : bool :=
  match a, b with
  | JUndefined, JUndefined | JNull, JNull => true
  | JBool x, JBool y => Bool.eqb x y
  | JNum x, JNum y => neqb x y
  | JStr x, JStr y => jseq x y
  | _, _ => false
  end.

Definition is_object (v : jsval) : bool :=
  match v with JArr _ | JObj _ => true | _ => false end.

(** ** GJSON paths *)

Definition path_special (c : N) : bool := existsb (N.eqb c) (js "*?[]()|@!").

(** The first loop of [readRequestPath]. *)
Fixpoint split_path (path s part : jsstr) (parts : list jsstr) : result exn (list jsstr) :=
  match s with
  | [] => Ok (parts ++ [part])
  | char :: s1 =>
      if (char =? BACKSLASH)%N then
        match s1 with
        | [] => throw Unsupported path None
        | c :: s2 => split_path path s2 (part ++ [c]) parts
        end
      else if (char =? cu ".")%N then split_path path s1 [] (parts ++ [part])
      else if path_special char then throw Unsupported path None
      else split_path path s1 (part ++ [char]) parts
  end.

(** The second loop: one key at a time. *)
Fixpoint walk_path (path : jsstr) (parts : list jsstr) (v : jsval) : result exn jsval :=
  match parts with
  | [] => Ok (or_null v)
  | key :: rest =>
      match v with
      | JArr items =>
          if jseq key (js "#") then
            match rest with
            | [] => Ok (JNum (nZ (Z.of_nat (length items))))
            | _ => throw Unsupported path None
            end
          else
            match key with
            | [] => Ok JNull
            | _ =>
                if forallb is_digit key then
                  let index := number_of_string key in
                  let item :=
                    if is_safe_integer index then
                      match to_Z index with
                      | Some z => default JUndefined (items !! Z.to_nat z)
                      | None => JUndefined
                      end
                    else JUndefined in
                  walk_path path rest item
                else Ok JNull
            end
      | JObj fields =>
          match own fields key with
          | Some v' => walk_path path rest v'
          | None => Ok JNull
          end
      | _ => Ok JNull
      end
  end.

Definition readRequestPath (body : jsval) (rawPath : jsstr) : result exn jsval :=
  let path := trim rawPath in
  match path with
  | [] => Ok JNull
  | _ => parts ← split_path path path [] []; walk_path path parts body
  end.

(** ** Text of request values *)

Fixpoint insert_by_key {A} (k : jsstr) (a : A) (l : list (jsstr * A)) : list (jsstr * A) :=
  match l with
  | [] => [(k, a)]
  | (k', b) :: l' => if str_ltb k k' then (k, a) :: l else (k', b) :: insert_by_key k a l'
  end.
Definition sort_by_key {A} (l : list (jsstr * A)) : list (jsstr * A) :=
  fold_left (λ acc '(k, a), insert_by_key k a acc) l [].

Fixpoint sequence {A} (l : list (result exn A)) : result exn (list A) :=
  match l with
  | [] => Ok []
  | r :: l => a ← r; l' ← sequence l; Ok (a :: l')
  end.

(** [text.padStart(2, '0')] *)
Definition pad2 (t : jsstr) : jsstr := replicate (2 - length t) 48%N ++ t.

Definition billing_number (x : num) : result exn jsstr :=
  if negb (is_finite x) then throw Number (js "request number") None
  else if is_neg_zero x then Ok (js "-0")
  else
    let '(mantissa, exponent) := to_exponential x in
    if (6 <=? exponent)%Z || (exponent <? -4)%Z then
      Ok (mantissa ++ js "e" ++ (if (exponent <? 0)%Z then js "-" else js "+")
            ++ pad2 (N_text (Z.abs_N exponent)))
    else Ok (number_to_string x).

Fixpoint billingString (depth : nat) (v : jsval) {struct v} : result exn jsstr :=
  if 128 <? depth then throw Limit (js "request value depth") None
  else
    match v with
    | JUndefined | JNull => Ok (js "<nil>")
    | JBool b => Ok (if b then js "true" else js "false")
    | JStr s => Ok s
    | JNum x => billing_number x
    | JArr items =>
        texts ← sequence (map (billingString (S depth)) items);
        Ok (js "[" ++ join (js " ") texts ++ js "]")
    | JObj fields =>
        let entries := sort_by_key (map (λ '(k, item), (k, billingString (S depth) item)) fields) in
        texts ← sequence (map (λ '(k, r), t ← r; Ok (k ++ js ":" ++ t)) entries);
        Ok (js "map[" ++ join (js " ") texts ++ js "]")
    end.

(** ** Wall-clock fields *)

(** A [Date]: its time value in milliseconds, [None] for an invalid date. *)
Definition date : Type := option Z.

Definition time_fields : Type := timefn → num.

(** Year, month and day of a day number counted from 1970-01-01, in the
    proleptic Gregorian calendar. *)
Definition civil_from_days (days : Z) : Z * Z * Z :=
  (let z := days + 719468 in
   let era := z / 146097 in
   let doe := z mod 146097 in
   let yoe := (doe - doe / 1460 + doe / 36524 - doe / 146096) / 365 in
   let doy := doe - (365 * yoe + yoe / 4 - yoe / 100) in
   let mp := (5 * doy + 2) / 153 in
   let d := doy - (153 * mp + 2) / 5 + 1 in
   let m := if mp <? 10 then mp + 3 else mp - 9 in
   (yoe + era * 400 + (if m <=? 2 then 1 else 0), m, d))%Z.

(** [getUTCHours], [getUTCMinutes], [getUTCDay], [getUTCMonth() + 1], [getUTCDate] *)
Definition utc_field (t : Z) (f : timefn) : Z :=
  (let days := t / 86400000 in
   let '(_, m, d) := civil_from_days days in
   match f with
   | Hour => (t / 3600000) mod 24
   | Minute => (t / 60000) mod 60
   | Weekday => (days + 4) mod 7
   | Month => m
   | Day => d
   end)%Z.

(** The textual parts [formatToParts] yields for the five fields. *)
Record dtf_parts : Type := {
  part_hour : jsstr; part_minute : jsstr; part_weekday : jsstr;
  part_month : jsstr; part_day : jsstr
}.

Class Host : Type := {
  (** [String.prototype.toLowerCase] *)
  to_lower_case : jsstr → jsstr;
  (** [new Intl.DateTimeFormat('en-US', {timeZone: zone, ...})]: [None] when it
      throws, else [resolvedOptions().timeZone] and [formatToParts]. *)
  date_time_format : jsstr → option (jsstr * (Z → dtf_parts))
}.

Definition zone_char (c : N) : bool :=
  is_alpha c || is_digit c || (c =? 95)%N || (c =? 43)%N || (c =? 45)%N.

(** Segments starting with a capital, separated by slashes; [start] is true
    where a segment must begin. *)
Fixpoint zone_syntax (start : bool) (s : jsstr) : bool :=
  match s with
  | [] => negb start
  | c :: s =>
      if start then is_upper c && zone_syntax false s
      else if (c =? cu "/")%N then zone_syntax true s
      else zone_char c && zone_syntax false s
  end.

(** [['Sun', ..., 'Sat'].indexOf(name)] *)
Definition weekday_index (name : jsstr) : num :=
  match find_index (jseq name) (map js ["Sun"; "Mon"; "Tue"; "Wed"; "Thu"; "Fri"; "Sat"]%string) with
  | Some i => nZ (Z.of_nat i)
  | None => nZ (-1)
  end.

Section runtime.
Context {host : Host}.

Definition timeInBillingZone (now : date) (zone : jsstr) : result exn time_fields :=
  match now with
  | None => throw Type_ (js "simulation time") None
  | Some t =>
      let timezone := match trim zone with [] => js "UTC" | z => z end in
      if jseq timezone (js "Local") then
        throw Unsupported (js "server Local timezone") None
      else
        let utc := Ok (λ f, nZ (utc_field t f)) in
        if negb (zone_syntax true timezone) then utc
        else
          match date_time_format timezone with
          | None => utc
          | Some (resolved, formatToParts) =>
              if jseq (to_lower_case resolved) (to_lower_case timezone)
                 && negb (jseq resolved timezone)
              then utc
              else
                let parts := formatToParts t in
                Ok (λ f, match f with
                         | Hour => number_of_string (part_hour parts)
                         | Minute => number_of_string (part_minute parts)
                         | Weekday => weekday_index (part_weekday parts)
                         | Month => number_of_string (part_month parts)
                         | Day => number_of_string (part_day parts)
                         end)
          end
  end.

(** ** Simulation context *)

Record BillingRequest : Type := {
  body : jsval;
  request_headers : list (jsstr * jsval)
}.

Record BillingSimulationContext : Type := {
  imageCount : option num;
  tokens : list (jsstr * jsval);
  request : option BillingRequest;
  usage : option (list (jsstr * jsval));
  now : option date
}.

Record BillingRequestRule : Type := {
  cond : jsstr; multiplier : num; matched : bool
}.

Inductive billing_unit : Type := UToken | URequest.

Record rstate : Type := {
  requestRules : list BillingRequestRule;
  matchedTier : jsstr;
  billingUnit : billing_unit;
  fixedPrice : option num;
  timeValues : list (jsstr * time_fields)
}.

Definition set_rules rs st :=
  {| requestRules := rs; matchedTier := matchedTier st; billingUnit := billingUnit st;
     fixedPrice := fixedPrice st; timeValues := timeValues st |}.
Definition set_tier name st :=
  {| requestRules := requestRules st; matchedTier := name; billingUnit := billingUnit st;
     fixedPrice := fixedPrice st; timeValues := timeValues st |}.
Definition set_fixed amount st :=
  {| requestRules := requestRules st; matchedTier := matchedTier st; billingUnit := URequest;
     fixedPrice := Some amount; timeValues := timeValues st |}.
Definition add_time zone fields st :=
  {| requestRules := requestRules st; matchedTier := matchedTier st; billingUnit := billingUnit st;
     fixedPrice := fixedPrice st; timeValues := timeValues st ++ [(zone, fields)] |}.

Fixpoint time_get (l : list (jsstr * time_fields)) (zone : jsstr) : option time_fields :=
  match l with
  | [] => None
  | (k, v) :: l => if jseq k zone then Some v else time_get l zone
  end.

(** The read-only fields of the runtime object. *)
Record renv : Type := {
  compiled : CompiledBillingExpression;
  context : BillingSimulationContext;
  env_now : date;
  headers : list (jsstr * jsstr)
}.

(** [this.headers.set] of the constructor loop. *)
Fixpoint read_headers (entries : list (jsstr * jsval)) (acc : list (jsstr * jsstr))
    : result exn (list (jsstr * jsstr)) :=
  match entries with
  | [] => Ok acc
  | (name, JStr raw) :: entries =>
      let key := to_lower_case (trim name) in
      let v := trim raw in
      match key, v with
      | [], _ | _, [] => read_headers entries acc
      | _, _ => read_headers entries ((key, v) :: acc)
      end
  | _ => throw Type_ (js "request header") None
  end.

Fixpoint header_get (l : list (jsstr * jsstr)) (key : jsstr) : option jsstr :=
  match l with
  | [] => None
  | (k, v) :: l => if jseq k key then Some v else header_get l key
  end.

(** The constructor of [BillingRuntime]. *)
Definition new_runtime (current_time : date) (c : CompiledBillingExpression)
    (ctx : BillingSimulationContext) : result exn (renv * rstate) :=
  hs ← read_headers (match request ctx with Some r => request_headers r | None => [] end) [];
  Ok ({| compiled := c; context := ctx; env_now := default current_time (now ctx); headers := hs |},
      {| requestRules := map (λ r, {| cond := rule_cond r; multiplier := rule_multiplier r;
                                      matched := false |}) (c_requestRules c);
         matchedTier := []; billingUnit := UToken; fixedPrice := None; timeValues := [] |}).

(** ** Operand checks *)

Definition as_boolean (n : node) (r : RuntimeValue * rstate) : result exn (bool * rstate) :=
  match value r.1 with
  | JBool b => Ok (b, r.2)
  | _ => throw Type_ (js "boolean condition") (Some (node_start n))
  end.
Definition as_numeric (n : node) (r : RuntimeValue * rstate)
    : result exn ((num * bool) * rstate) :=
  match value r.1 with
  | JNum x => Ok ((x, integer r.1), r.2)
  | _ => throw Type_ (js "numeric operand") (Some (node_start n))
  end.
Definition as_string (n : node) (r : RuntimeValue * rstate) : result exn (jsstr * rstate) :=
  match value r.1 with
  | JStr s => Ok (s, r.2)
  | _ => throw Type_ (js "string argument") (Some (node_start n))
  end.

(** The checks [evaluate] makes on every result. *)
Definition check_value (n : node) (v : RuntimeValue) : result exn RuntimeValue :=
  match value v with
  | JNum x =>
      if negb (is_finite x) then
        throw Number (js "non-finite result") (Some (node_start n))
      else if integer v && negb (is_safe_integer x) then
        throw Unsupported (js "integer precision") (Some (node_start n))
      else Ok v
  | _ => Ok v
  end.

(** ** Operators *)

Definition of_bool (b : bool) : RuntimeValue := RV (JBool b) false.

Definition number_comparison (o : binop) (a b : num) : option bool :=
  match o with
  | Olt => Some (nltb a b) | Ole => Some (nleb a b)
  | Ogt => Some (ngtb a b) | Oge => Some (ngeb a b)
  | _ => None
  end.
Definition string_comparison (o : binop) (a b : jsstr) : option bool :=
  match o with
  | Olt => Some (str_ltb a b) | Ole => Some (str_leb a b)
  | Ogt => Some (str_ltb b a) | Oge => Some (str_leb b a)
  | _ => None
  end.

(** [binary] once both operands of a non-logical operator are known. *)
Definition binary_values (pos : nat) (o : binop) (lhs rhs : RuntimeValue)
    : result exn RuntimeValue :=
  let a := value lhs in
  let b := value rhs in
  match o with
  | Oeq | One =>
      if negb (strict_eq a JNull) && negb (strict_eq b JNull) && (is_object a || is_object b)
      then throw Unsupported (js "object comparison") (Some pos)
      else
        let equal := strict_eq a b in
        Ok (of_bool (match o with Oeq => equal | _ => negb equal end))
  | _ =>
      match a, b with
      | JStr x, JStr y =>
          match o with
          | Oadd => Ok (RV (JStr (x ++ y)) false)
          | _ =>
              match string_comparison o x y with
              | Some r => Ok (of_bool r)
              | None => throw Type_ (binop_text o) (Some pos)
              end
          end
      | JNum x, JNum y =>
          match number_comparison o x y with
          | Some r => Ok (of_bool r)
          | None =>
              let int := integer lhs && integer rhs in
              match o with
              | Oadd => Ok (RV (JNum (nadd x y)) int)
              | Osub => Ok (RV (JNum (nsub x y)) int)
              | Omul => Ok (RV (JNum (nmul x y)) int)
              | Odiv => Ok (RV (JNum (ndiv x y)) false)
              | Omod =>
                  if negb int then throw Type_ (js "integer modulo") (Some pos)
                  else Ok (RV (JNum (nrem x y)) true)
              | _ => throw Unsupported (binop_text o) (Some pos)
              end
          end
      | _, _ => throw Type_ (binop_text o) (Some pos)
      end
  end.

(** ** Leaves *)

(** The value of a variable in the context. *)
Definition read_variable (ctx : BillingSimulationContext) (pos : nat) (v : bvar)
    : result exn RuntimeValue :=
  match v with
  | Vimage_count =>
      let x := default (nZ 1) (imageCount ctx) in
      if negb (is_integer x) || nltb x (nZ 1) || ngtb x (nZ 128) then
        throw Number (js "image_count must be between 1 and 128") (Some pos)
      else Ok (RV (JNum x) false)
  | _ =>
      match own (tokens ctx) (bvar_text v) with
      | None | Some JUndefined => throw MissingContext (bvar_text v) (Some pos)
      | Some (JNum x) =>
          if nltb x NZERO then throw Number (bvar_text v) (Some pos)
          else Ok (RV (JNum x) false)
      | Some _ => throw Number (bvar_text v) (Some pos)
      end
  end.

Definition literal_value (v : literal) : RuntimeValue :=
  match v with
  | LNum x i => RV (JNum x) i
  | LStr s => RV (JStr s) false
  | LBool b => RV (JBool b) false
  | LNull => RV JNull false
  end.

Fixpoint set_matched (l : list BillingRequestRule) (i : nat) : list BillingRequestRule :=
  match l, i with
  | [], _ => []
  | r :: l, 0 => {| cond := cond r; multiplier := multiplier r; matched := true |} :: l
  | r :: l, S i => r :: set_matched l i
  end.

(** The bookkeeping of a conditional node whose condition is known. *)
Definition trace_rule (env : renv) (n : node) (condition : bool) (st : rstate) : rstate :=
  match find_index (λ r, node_eqb (rule_node r) n) (c_requestRules (compiled env)) with
  | Some i => if condition then set_rules (set_matched (requestRules st) i) st else st
  | None => st
  end.

(** ** Context probes *)

Definition eval_param (env : renv) (pos : nat) (path : jsstr) : result exn RuntimeValue :=
  match request (context env) with
  | None => throw MissingContext (js "request body") (Some pos)
  | Some r => v ← readRequestPath (body r) path; Ok (RV v false)
  end.

Definition eval_header (env : renv) (pos : nat) (name : jsstr) : result exn RuntimeValue :=
  match request (context env) with
  | None => throw MissingContext (js "request headers") (Some pos)
  | Some _ => Ok (RV (JStr (default [] (header_get (headers env) (to_lower_case (trim name))))) false)
  end.

Definition eval_usage (env : renv) (pos : nat) (name : jsstr) : result exn RuntimeValue :=
  match usage (context env) with
  | None => throw MissingContext (js "task usage") (Some pos)
  | Some u => Ok (RV (default JNull (own u name)) false)
  end.

Definition eval_has (source : jsval) (substring : jsstr) : result exn RuntimeValue :=
  if is_nullish source then Ok (of_bool false)
  else
    match substring with
    | [] => Ok (of_bool false)
    | _ => t ← billingString 0 source; Ok (of_bool (includes substring t))
    end.

Definition eval_time (env : renv) (f : timefn) (rawZone : jsstr) (st : rstate)
    : result exn (RuntimeValue * rstate) :=
  let zone := trim rawZone in
  match time_get (timeValues st) zone with
  | Some values => Ok (RV (JNum (values f)) true, st)
  | None =>
      values ← timeInBillingZone (env_now env) zone;
      Ok (RV (JNum (values f)) true, add_time zone values st)
  end.

(** ** The interpreter

    [evaluate] contains [evaluateNode], [binary] and [call]; the operand
    helpers [boolean], [numeric] and [string] are [evaluate] followed by
    [as_boolean], [as_numeric] and [as_string]. *)
Fixpoint evaluate (env : renv) (depth : nat) (n : node) (st : rstate) {struct n}
    : result exn (RuntimeValue * rstate) :=
  let depth := S depth in
  if 256 <? depth then throw Limit (js "evaluation depth") None
  else
    '(v, st) ←
      match n with
      | ELit _ v => Ok (literal_value v, st)
      | EVar _ v => x ← read_variable (context env) (node_start n) v; Ok (x, st)
      | ECond _ c yes no =>
          '(b, st) ← evaluate env depth c st ≫= as_boolean c;
          let st := trace_rule env n b st in
          if (b : bool) then evaluate env depth yes st else evaluate env depth no st
      | EUn _ Unot a =>
          '(b, st) ← evaluate env depth a st ≫= as_boolean a;
          Ok (of_bool (negb b), st)
      | EUn _ o a =>
          '((x, i), st) ← evaluate env depth a st ≫= as_numeric a;
          Ok (RV (JNum (match o with Uminus => nneg x | _ => x end)) i, st)
      | EBin _ Oand a b =>
          '(x, st) ← evaluate env depth a st ≫= as_boolean a;
          if (x : bool) then
            '(y, st) ← evaluate env depth b st ≫= as_boolean b; Ok (of_bool y, st)
          else Ok (of_bool false, st)
      | EBin _ Oor a b =>
          '(x, st) ← evaluate env depth a st ≫= as_boolean a;
          if (x : bool) then Ok (of_bool true, st)
          else '(y, st) ← evaluate env depth b st ≫= as_boolean b; Ok (of_bool y, st)
      | EBin _ o a b =>
          '(x, st) ← evaluate env depth a st;
          '(y, st) ← evaluate env depth b st;
          r ← binary_values (node_start n) o x y; Ok (r, st)
      | ECall _ f args =>
          match args with
          | [] => type_error
          | a :: rest =>
              match f with
              | Ffixed =>
                  '((x, _), st) ← evaluate env depth a st ≫= as_numeric a;
                  Ok (RV (JNum (nmul x (nZ 1000000))) false, set_fixed x st)
              | Fparam =>
                  '(p, st) ← evaluate env depth a st ≫= as_string a;
                  r ← eval_param env (node_start n) p; Ok (r, st)
              | Fheader =>
                  '(p, st) ← evaluate env depth a st ≫= as_string a;
                  r ← eval_header env (node_start n) p; Ok (r, st)
              | Fu =>
                  '(p, st) ← evaluate env depth a st ≫= as_string a;
                  r ← eval_usage env (node_start n) p; Ok (r, st)
              | Ftime t =>
                  '(z, st) ← evaluate env depth a st ≫= as_string a;
                  eval_time env t z st
              | Fabs =>
                  '((x, _), st) ← evaluate env depth a st ≫= as_numeric a;
                  Ok (RV (JNum (nabs x)) false, st)
              | Ffloor =>
                  '((x, _), st) ← evaluate env depth a st ≫= as_numeric a;
                  Ok (RV (JNum (nfloor x)) false, st)
              | Fceil =>
                  '((x, _), st) ← evaluate env depth a st ≫= as_numeric a;
                  Ok (RV (JNum (nceil x)) false, st)
              | Ftier =>
                  '(name, st) ← evaluate env depth a st ≫= as_string a;
                  match rest with
                  | [] => type_error
                  | b :: _ =>
                      '((x, _), st) ← evaluate env depth b st ≫= as_numeric b;
                      Ok (RV (JNum x) false, set_tier name st)
                  end
              | Fhas =>
                  '(x, st) ← evaluate env depth a st;
                  match rest with
                  | [] => type_error
                  | b :: _ =>
                      '(s, st) ← evaluate env depth b st ≫= as_string b;
                      r ← eval_has (value x) s; Ok (r, st)
                  end
              | Fmin | Fmax =>
                  '((x, _), st) ← evaluate env depth a st ≫= as_numeric a;
                  match rest with
                  | [] => type_error
                  | b :: _ =>
                      '((y, _), st) ← evaluate env depth b st ≫= as_numeric b;
                      Ok (RV (JNum (match f with Fmin => nmin x y | _ => nmax x y end)) false, st)
                  end
              end
          end
      end;
    v ← check_value n v; Ok (v, st).

(** ** Entry points *)

Definition evaluateBillingCondition (c : CompiledBillingExpression) (n : node) (at_ : date)
    : option bool :=
  match
    '(env, st) ← new_runtime at_ c
      {| imageCount := None; tokens := []; request := None; usage := None; now := Some at_ |};
    evaluate env 0 n st
  with
  | Ok (v, _) => match value v with JBool b => Some b | _ => None end
  | Err _ => None
  end.

Record BillingSuccess : Type := {
  cost : num;
  s_billingUnit : billing_unit;
  s_imageCount : option num;
  s_fixedPrice : option num;
  s_matchedTier : jsstr;
  s_requestRules : list BillingRequestRule
}.

(** The token validation loop. *)
Fixpoint check_tokens (l : list (jsstr * jsval)) : result exn unit :=
  match l with
  | [] => Ok tt
  | (name, v) :: l =>
      match v with
      | JNum x => if negb (is_finite x) || nltb x NZERO then throw Number name None
                  else check_tokens l
      | _ => throw Number name None
      end
  end.

Definition run_compiled (current_time : date) (c : CompiledBillingExpression)
    (ctx : BillingSimulationContext) : result exn BillingSuccess :=
  _ ← check_tokens (tokens ctx);
  '(env, st) ← new_runtime current_time c ctx;
  '(v, st) ← evaluate env 0 (c_ast c) st;
  match value v with
  | JNum x =>
      if negb (is_finite x) || nltb x NZERO then throw Number (js "billing result") None
      else
        Ok {| cost := x;
              s_billingUnit := billingUnit st;
              s_imageCount := if decide (Vimage_count ∈ c_variables c)
                              then Some (default (nZ 1) (imageCount ctx)) else None;
              s_fixedPrice := fixedPrice st;
              s_matchedTier := matchedTier st;
              s_requestRules := requestRules st |}
  | _ => throw Number (js "billing result") None
  end.

(** [evaluateBillingExpression] on a source text; compilation is
    [compile], which the cache of [compileBillingExpression] returns. *)
Definition evaluateBillingExpression (current_time : date) (source : jsstr)
    (ctx : BillingSimulationContext) : result ExpressionFailure BillingSuccess :=
  match compile source with
  | Err failure => Err failure
  | Ok c =>
      match run_compiled current_time c ctx with
      | Ok r => Ok r
      | Err error => Err (expressionFailure error)
      end
  end.
End runtime.
