(* ===== verification/CompileFacts.v ===== *)
(** * Static checks: the type system, dependencies and the cache

    A declarative typing relation for billing expressions and the proof that
    [checkExpressionTypes] decides it within the depth bound; exactness of
    [expressionDependencies]; what a successful compilation guarantees; and
    the invariant of the compilation cache. *)
From stdpp Require Import base list option numbers sets.
From Stdlib Require Import ZArith Lia.
From S2P Require Import Prelude.
From S2P Require Import JsString.
From S2P Require Import JsNumber.
From S2P Require Import Syntax.
From S2P Require Import Parser.
From S2P Require Import ParserFacts.
From S2P Require Import Compile.

(** ** Typing *)

(** An operand of static type [t] is accepted where [expected] is required. *)
Definition compat (t expected : etype) : bool :=
  bool_decide (t = expected) || bool_decide (t = TDynamic).

(** The type of a node from the types of its children. *)
Definition type_rule (n : node) (ts : list etype) : option etype :=
  match n, ts with
  | ELit _ v, [] => Some (literal_type v)
  | EVar _ _, [] => Some TNumber
  | EUn _ Unot _, [t] => if compat t TBoolean then Some TBoolean else None
  | EUn _ _ _, [t] => if compat t TNumber then Some TNumber else None
  | ECond _ _ _ _, [tc; ty; tn] =>
      if compat tc TBoolean then Some (if decide (ty = tn) then ty else TDynamic) else None
  | EBin _ (Oand | Oor) _ _, [ta; tb] =>
      if compat ta TBoolean && compat tb TBoolean then Some TBoolean else None
  | EBin _ (Oeq | One | Olt | Ole | Ogt | Oge) _ _, [ta; tb] => Some TBoolean
  | EBin _ o _ _, [ta; tb] =>
      if decide (o = Oadd ∧ ta = TString ∧ tb = TString) then Some TString
      else if compat ta TNumber && compat tb TNumber then Some TNumber else None
  | ECall _ (Fparam | Fu) _, [t] => if compat t TString then Some TDynamic else None
  | ECall _ Fheader _, [t] => if compat t TString then Some TString else None
  | ECall _ (Ftime _) _, [t] => if compat t TString then Some TNumber else None
  | ECall _ Fhas _, [_; t] => if compat t TString then Some TBoolean else None
  | ECall _ Ftier _, [ta; tb] =>
      if compat ta TString && compat tb TNumber then Some TNumber else None
  | ECall _ (Ffixed | Fabs | Fceil | Ffloor) _, [t] =>
      if compat t TNumber then Some TNumber else None
  | ECall _ (Fmin | Fmax) _, [ta; tb] =>
      if compat ta TNumber && compat tb TNumber then Some TNumber else None
  | _, _ => None
  end.

(** [has_type n t]: every part of [n] is typeable and [n] has type [t]. *)
Inductive has_type : node → etype → Prop :=
| has_type_intro n ts t :
    Forall2 has_type (children n) ts → type_rule n ts = Some t → has_type n t.

Lemma has_type_inv n t : has_type n t →
  ∃ ts, Forall2 has_type (children n) ts ∧ type_rule n ts = Some t.
Proof. destruct 1; eauto. Qed.

Lemma has_type_det n t : ∀ t', has_type n t → has_type n t' → t = t'.
Proof.
  revert t. induction n as [n IH] using node_rec_children. intros t t' H H'.
  apply has_type_inv in H as (ts & Hts & Hr), H' as (ts' & Hts' & Hr').
  assert (ts = ts') as <-; [|congruence].
  clear Hr Hr'. revert ts ts' Hts Hts'.
  induction (children n) as [|c l IHl]; intros ts ts' Hts Hts';
    inversion Hts; inversion Hts'; subst; [done|].
  apply Forall_cons in IH as [IHc IH]. f_equal; [by eapply IHc|by apply IHl].
Qed.

(** ** The checker computes the typing relation *)

Definition types_sound (types : types_map) : Prop :=
  ∀ n t, types_get types n = Some t → has_type n t.

Definition types_extend (types types' : types_map) : Prop :=
  ∀ n t, types_get types n = Some t → types_get types' n = Some t.

Lemma types_get_cons n t types m :
  types_get ((n, t) :: types) m = if decide (n = m) then Some t else types_get types m.
Proof.
  cbn. destruct (node_eqb n m) eqn:E.
  - apply node_eqb_eq in E as ->. by rewrite decide_True.
  - rewrite decide_False; [done|]. intros ->.
    by rewrite (proj2 (node_eqb_eq m m) eq_refl) in E.
Qed.

Lemma types_sound_cons n t types :
  types_sound types → has_type n t → types_sound ((n, t) :: types).
Proof.
  intros Hs Ht m t'. rewrite types_get_cons. case_decide; [naive_solver|apply Hs].
Qed.

Lemma types_extend_cons n t types :
  types_sound types → has_type n t → types_extend types ((n, t) :: types).
Proof.
  intros Hs Ht m t' Hg. rewrite types_get_cons. case_decide as Hd; [|done]. subst.
  f_equal. eapply has_type_det; [done|by apply Hs].
Qed.

Lemma require_type_compat types c t e :
  types_get types c = Some t →
  require_type types c e =
    if compat t e then Ok tt
    else throw Type_ (etype_text e ++ js " operand") (Some (node_start c)).
Proof.
  intros H. unfold require_type, compat. rewrite H.
  destruct (decide (t = e ∨ t = TDynamic)) as [Hd|Hd]; cbn.
  - destruct Hd as [->| ->]; [by rewrite bool_decide_true|].
    by rewrite (bool_decide_true (TDynamic = TDynamic)), orb_true_r.
  - by rewrite !bool_decide_false by naive_solver.
Qed.

(** Case analysis on the operand checks of a goal. *)
Ltac split_requires types :=
  repeat match goal with
  | Hg : types_get types ?c = Some ?t |- context [require_type types ?c ?e] =>
      rewrite (require_type_compat types c t e Hg); destruct (compat t e);
      cbn -[require_type compat]
  end.

Ltac inv_forall2 :=
  repeat match goal with
  | H : Forall2 _ (_ :: _) _ |- _ => inversion H; clear H; subst
  | H : Forall2 _ [] _ |- _ => inversion H; clear H; subst
  end.

(** With every child typed in the map, the visitor applies [type_rule]. *)
Lemma node_type_rule types n ts :
  arity_ok n → Forall2 (λ c t, types_get types c = Some t) (children n) ts →
  match type_rule n ts with
  | Some t => node_type types n = Ok t
  | None => ∃ d p, node_type types n = throw Type_ d p
  end.
Proof.
  intros Har H.
  destruct n as [sp v|sp v|sp f args|sp o a|sp o a b|sp c y n]; cbn in H, Har.
  - by inv_forall2.
  - by inv_forall2.
  - destruct args as [|a [|b [|? ?]]], f; cbn in Har; try lia; inv_forall2;
      cbn -[require_type compat]; unfold require_arg; cbn -[require_type compat];
      split_requires types; eauto.
  - inv_forall2. destruct o; cbn -[require_type compat]; split_requires types; eauto.
  - inv_forall2. destruct o; cbn -[require_type compat];
      try rewrite !decide_False by (intros [? _]; discriminate);
      try solve [split_requires types; eauto].
    repeat match goal with Hg : types_get types _ = Some _ |- _ => rewrite Hg end.
    match goal with
    | |- context [decide (Oadd = Oadd ∧ ?x = TString ∧ ?y = TString)] =>
        destruct (decide (x = TString ∧ y = TString)) as [[-> ->]|Hn]
    end; [by rewrite !decide_True|].
    rewrite !decide_False by naive_solver. split_requires types; eauto.
  - inv_forall2. cbn -[require_type compat]. split_requires types; [|eauto].
    match goal with
    | Ha : types_get types y = Some ?ta, Hb : types_get types n = Some ?tb |- _ =>
        rewrite Ha, Hb
    end.
    repeat case_decide; naive_solver.
Qed.

(** ** Hereditary arities *)

Definition arities_ok (n : node) : Prop := ∀ m, subnode m n → arity_ok m.

Lemma wf_subnode m n : subnode m n → wf_node n → wf_node m.
Proof. induction 1 as [|n c Hc _ IH]; [done|]. intros (_&_&_&_&H)%wf_node_inv. auto. Qed.

Lemma wf_arities n : wf_node n → arities_ok n.
Proof.
  intros Hw m Hm. pose proof (wf_node_inv m (wf_subnode m n Hm Hw)) as (_&_&_&H&_). done.
Qed.

Lemma arities_child n c : arities_ok n → c ∈ children n → arities_ok c.
Proof. intros H Hc m Hm. apply H. by econstructor. Qed.

Lemma types_extend_trans a b c : types_extend a b → types_extend b c → types_extend a c.
Proof. unfold types_extend. auto. Qed.

(** ** Correctness of the traversal *)

Definition type_post (n : node) (types : types_map) (r : result exn types_map) : Prop :=
  match r with
  | Ok types' => types_sound types' ∧ types_extend types types' ∧
                 ∃ t, has_type n t ∧ types_get types' n = Some t
  | Err e => (∃ d p, e = BillingExpressionError (Diagnostic Type_ d p)) ∧ ¬ ∃ t, has_type n t
  end.

Lemma visit_types_children d l : ∀ types,
  Forall (λ c, ∀ types, types_sound types →
    type_post c types (visit_rec type_visitor d c types)) l →
  types_sound types →
  match rfold (visit_rec type_visitor d) l types with
  | Ok types' => types_sound types' ∧ types_extend types types' ∧
                 ∃ ts, Forall2 has_type l ts ∧ Forall2 (λ c t, types_get types' c = Some t) l ts
  | Err e => (∃ d p, e = BillingExpressionError (Diagnostic Type_ d p)) ∧
             ¬ ∃ ts, Forall2 has_type l ts
  end.
Proof.
  induction l as [|c l IHl]; intros types HF Hs; cbn.
  { split; [done|]. split; [by intros ??|]. exists []. by split. }
  apply Forall_cons in HF as [Hc HF]. specialize (Hc types Hs). unfold type_post in Hc.
  destruct (visit_rec type_visitor d c types) as [types1|e]; cbn.
  2: { destruct Hc as [He Hc]. split; [done|]. intros [ts Hts]. inversion Hts; subst. eauto. }
  destruct Hc as (Hs1 & Hx1 & t & Ht & Hg). specialize (IHl types1 HF Hs1).
  destruct (rfold _ l types1) as [types2|e].
  - destruct IHl as (Hs2 & Hx2 & ts & Hts & Hgs). split; [done|].
    split; [by eapply types_extend_trans|]. exists (t :: ts). split; constructor; auto.
  - destruct IHl as [He IHl]. split; [done|]. intros [ts Hts]. inversion Hts; subst. eauto.
Qed.

Lemma visit_types n : ∀ d types,
  arities_ok n → types_sound types → d + height n ≤ 256 →
  type_post n types (visit_rec type_visitor d n types).
Proof.
  induction n as [n IH] using node_rec_children. intros d types Har Hs Hd.
  rewrite visit_rec_eq. destruct (Nat.ltb_spec 256 d); [lia|].
  assert (HF : Forall (λ c, ∀ types, types_sound types →
    type_post c types (visit_rec type_visitor (S d) c types)) (children n)).
  { rewrite Forall_forall in IH |- *. intros c Hc types' Hs'.
    apply IH; [done|by eapply arities_child|done|]. apply height_child in Hc. lia. }
  pose proof (visit_types_children (S d) (children n) types HF Hs) as Hl.
  destruct (rfold _ (children n) types) as [types1|e]; cbn -[type_visitor].
  2: { destruct Hl as [He Hl]. split; [done|]. intros [t (ts & Hts & _)%has_type_inv]. eauto. }
  destruct Hl as (Hs1 & Hx1 & ts & Hts & Hgs).
  pose proof (node_type_rule types1 n ts (Har n (subnode_refl n)) Hgs) as Hr.
  unfold type_visitor. destruct (type_rule n ts) as [t|] eqn:Et.
  - rewrite Hr. cbn -[types_get]. assert (Ht : has_type n t) by (by econstructor).
    split; [by apply types_sound_cons|].
    split; [eapply types_extend_trans; [done|by apply types_extend_cons]|].
    exists t. split; [done|]. rewrite types_get_cons. by rewrite decide_True.
  - destruct Hr as (dd & p & ->). cbn. split; [eauto|].
    intros [t (ts' & Hts' & Hr')%has_type_inv].
    assert (ts = ts') as <-; [|congruence].
    clear -Hts Hts'. revert ts' Hts'.
    induction Hts; intros ts' Hts'; inversion Hts'; subst; [done|].
    f_equal; [by eapply has_type_det|auto].
Qed.

Lemma checkExpressionTypes_spec n :
  arities_ok n → height n ≤ 256 →
  match checkExpressionTypes n with
  | Ok _ => ∃ t, has_type n t
  | Err e => (∃ d p, e = BillingExpressionError (Diagnostic Type_ d p)) ∧ ¬ ∃ t, has_type n t
  end.
Proof.
  intros Har Hh. unfold checkExpressionTypes. rewrite visitExpression_rec.
  pose proof (visit_types n 0 [] Har) as H.
  destruct (visit_rec type_visitor 0 n []) as [types|e]; cbn in *.
  - destruct H as (_ & _ & t & ? & _); [done|lia|]. eauto.
  - apply H; [done|lia].
Qed.

(** ** Dependencies are exactly the names of the tree *)

Lemma elem_of_set_add {A} `{EqDecision A} (a b : A) l : a ∈ set_add b l ↔ a = b ∨ a ∈ l.
Proof. unfold set_add. case_decide; set_solver. Qed.

Definition dependency_step (part : node) (s : list bvar * list fname) : list bvar * list fname :=
  (match part with EVar _ v => set_add v s.1 | _ => s.1 end,
   match part with ECall _ f _ => set_add f s.2 | _ => s.2 end).

Lemma rfold_dependencies l : ∀ s, ∃ s', rfold dependency_visitor l s = Ok s' ∧
  (∀ v, v ∈ s'.1 ↔ v ∈ s.1 ∨ ∃ sp, EVar sp v ∈ l) ∧
  (∀ f, f ∈ s'.2 ↔ f ∈ s.2 ∨ ∃ sp args, ECall sp f args ∈ l).
Proof.
  induction l as [|n l IH]; intros [vs fs]; cbn.
  { eexists. split; [done|]. set_solver. }
  destruct (IH (dependency_step n (vs, fs))) as (s' & Hs & Hv & Hf).
  exists s'. split; [done|]. cbn in Hv, Hf.
  split; intros x; [rewrite Hv|rewrite Hf]; destruct n; rewrite ?elem_of_set_add; set_solver.
Qed.

Lemma expressionDependencies_spec n :
  height n ≤ 256 → ∃ vs fs, expressionDependencies n = Ok (vs, fs) ∧
    (∀ v, v ∈ vs ↔ ∃ sp, subnode (EVar sp v) n) ∧
    (∀ f, f ∈ fs ↔ ∃ sp args, subnode (ECall sp f args) n).
Proof.
  intros Hh. unfold expressionDependencies. rewrite visitExpression_postorder by done.
  destruct (rfold_dependencies (postorder n) ([], [])) as ([vs fs] & Hs & Hv & Hf).
  exists vs, fs. split; [done|]. cbn in Hv, Hf.
  split; intros x; [rewrite Hv|rewrite Hf]; setoid_rewrite elem_of_postorder; set_solver.
Qed.

(** ** What a compiled expression guarantees *)

(** A collected rule is a conditional of the tree with a numeric multiplier
    and fallback one, and carries the source text of its condition. *)
Definition rule_ok (source : jsstr) (ast : node) (r : RequestRule) : Prop :=
  subnode (rule_node r) ast ∧
  ∃ sp spy spn i f j,
    rule_node r = ECond sp (rule_condition r) (ELit spy (LNum (rule_multiplier r) i))
                    (ELit spn (LNum f j)) ∧
    neqb f (nZ 1) = true ∧
    rule_cond r = slice source (node_start (rule_condition r)) (node_end (rule_condition r)).

Lemma rule_visitor_ok source ast n rules rules' :
  subnode n ast → Forall (rule_ok source ast) rules →
  rule_visitor source n rules = Ok rules' → Forall (rule_ok source ast) rules'.
Proof.
  intros Hn Hr H. unfold rule_visitor in H.
  repeat (split_match H; simplify_eq/=; try done).
  apply bind_Ok in H as ([vs calls] & _ & H). case_match; simplify_eq; [done|].
  apply Forall_app. split; [done|]. apply Forall_singleton. split; [done|]. cbn.
  bools. eauto 10.
Qed.

Lemma collected_rules_ok source ast rules :
  visitExpression (rule_visitor source) ast [] = Ok rules → Forall (rule_ok source ast) rules.
Proof.
  intros H. pose proof (visitExpression_height _ _ _ _ H) as Hh.
  rewrite visitExpression_postorder in H by done.
  eapply rfold_inv; [|constructor|exact H].
  intros n t t' Hn%elem_of_postorder Ht Hv. by eapply rule_visitor_ok.
Qed.

Record compiled_ok (source : jsstr) (c : CompiledBillingExpression) : Prop := {
  ok_parse : parse source = Ok (c_ast c);
  ok_source : c_source c = source;
  ok_wf : wf_node (c_ast c);
  ok_end : node_end (c_ast c) ≤ length source;
  ok_height : height (c_ast c) ≤ 256;
  ok_typed : ∃ t, has_type (c_ast c) t;
  ok_variables : ∀ v, v ∈ c_variables c ↔ ∃ sp, subnode (EVar sp v) (c_ast c);
  ok_functions : ∀ f, f ∈ c_functions c ↔ ∃ sp args, subnode (ECall sp f args) (c_ast c);
  ok_rules : Forall (rule_ok source (c_ast c)) (c_requestRules c);
  ok_fixed : Ffixed ∈ c_functions c → validateFixedPricingTree (c_requestRules c) (c_ast c) = Ok tt
}.

Lemma compile_ok source c : compile source = Ok c → compiled_ok source c.
Proof.
  unfold compile. intros H.
  match type of H with match ?r with _ => _ end = _ => destruct r as [c'|e] eqn:E; [|done] end.
  simplify_eq. apply bind_Ok in E as (ast & Hp & E). apply bind_Ok in E as ([] & Ht & E).
  apply bind_Ok in E as ([vs fs] & Hd & E). apply bind_Ok in E as (rules & Hr & E).
  apply bind_Ok in E as ([] & Hf & E). simplify_eq.
  pose proof (parse_wf _ _ Hp) as [Hw He].
  pose proof (visitExpression_height _ _ _ _ Hr) as Hh.
  pose proof (checkExpressionTypes_spec ast (wf_arities _ Hw) Hh) as Hty. rewrite Ht in Hty.
  destruct (expressionDependencies_spec ast Hh) as (vs' & fs' & Hd' & Hv & Hfs).
  rewrite Hd in Hd'. simplify_eq. constructor; cbn; try done.
  - by apply collected_rules_ok.
  - intros Hin. by rewrite decide_True in Hf.
Qed.

(** ** The compilation cache *)

Record cache_ok (c : cache) : Prop := {
  cache_bounded : length c ≤ 128;
  cache_unique : NoDup (map fst c);
  cache_correct : ∀ k r, (k, r) ∈ c → r = compile k
}.

Lemma cache_get_Some c k r : cache_get c k = Some r → (k, r) ∈ c.
Proof.
  induction c as [|[k' r'] c IH]; cbn; [done|]. destruct (jseq k' k) eqn:E.
  - apply jseq_eq in E. intros. simplify_eq. set_solver.
  - intros H%IH. set_solver.
Qed.

Lemma cache_get_None c k : cache_get c k = None → k ∉ map fst c.
Proof.
  induction c as [|[k' r'] c IH]; cbn; [set_solver|]. destruct (jseq k' k) eqn:E; [done|].
  apply jseq_neq in E. intros H%IH. set_solver.
Qed.

Lemma evict_suffix c : ∃ old, c = old ++ evict c.
Proof.
  destruct c as [|x c]; [by exists []|]. cbn -[Nat.leb]. case_match; [by exists [x]|by exists []].
Qed.

Lemma evict_length c : length c ≤ 128 → length (evict c) ≤ 127.
Proof.
  destruct c as [|x c]; cbn -[Nat.leb]; [lia|].
  destruct (Nat.leb_spec 128 (S (length c))); cbn; lia.
Qed.

Lemma compileBillingExpression_step source c :
  cache_ok c →
  (compileBillingExpression source c).1 = compile source ∧
  cache_ok (compileBillingExpression source c).2 ∧
  cache_get (compileBillingExpression source c).2 source = Some (compile source).
Proof.
  intros [Hb Hu Hc]. unfold compileBillingExpression.
  destruct (cache_get c source) as [r|] eqn:E; cbn.
  { pose proof (Hc _ _ (cache_get_Some _ _ _ E)) as ->. done. }
  apply cache_get_None in E. destruct (evict_suffix c) as [old Hold].
  pose proof (evict_length c Hb) as Hl. revert Hold Hl. generalize (evict c) as c'.
  intros c' -> Hl. rewrite map_app, NoDup_app in Hu. destruct Hu as (_ & _ & Hu).
  rewrite map_app in E. split; [done|]. split; [constructor|].
  - rewrite length_app. cbn. lia.
  - rewrite map_app. cbn. apply NoDup_app. split; [done|]. split; [set_solver|].
    apply NoDup_singleton.
  - intros k r [H|H]%elem_of_app; [apply Hc; set_solver|]. set_solver.
  - assert (Hn : source ∉ map fst c') by set_solver. clear -Hn.
    induction c' as [|[k r] c' IH]; cbn; [by rewrite jseq_refl|].
    destruct (jseq k source) eqn:Ek; [apply jseq_eq in Ek; set_solver|].
    apply IH. set_solver.
Qed.

(** A session of compilations, threading the module-level cache. *)
Fixpoint compile_session (sources : list jsstr) (c : cache) : list CompilationResult * cache :=
  match sources with
  | [] => ([], c)
  | s :: sources =>
      let '(r, c) := compileBillingExpression s c in
      let '(rs, c) := compile_session sources c in
      (r :: rs, c)
  end.

Lemma compile_session_ok sources : ∀ c, cache_ok c →
  (compile_session sources c).1 = map compile sources ∧ cache_ok (compile_session sources c).2.
Proof.
  induction sources as [|s sources IH]; intros c Hc; [done|]. cbn.
  pose proof (compileBillingExpression_step s c Hc) as (H1 & H2 & _).
  destruct (compileBillingExpression s c) as [r c']. cbn in *.
  specialize (IH c' H2). destruct (compile_session sources c') as [rs c'']. cbn in *.
  destruct IH as [-> ?]. by rewrite H1.
Qed.

Lemma cache_ok_nil : cache_ok [].
Proof. constructor; cbn; [lia|constructor|set_solver]. Qed.

(** ** Rules are distinct

    The spans tell the nodes of a tree apart, so no rule is collected twice. *)

Lemma subnode_within m n : wf_node n → subnode m n → node_start n ≤ node_start m ∧ node_end m ≤ node_end n ∧ width m ≤ width n.
Proof.
  intros W S. revert W. induction S as [|n c Hc _ IH]; intros W; [lia|].
  apply wf_node_inv in W as (_ & O & Hw & _ & Hwf). specialize (IH (Hwf c Hc)). specialize (Hw c Hc).
  destruct (ordered_bounds _ _ _ _ O Hc) as (? & ? & ?). lia.
Qed.

Lemma subnode_nonempty m n : wf_node n → subnode m n → node_start m < node_end m.
Proof. intros W S. revert W. induction S as [|n c Hc _ IH]; intros W; apply wf_node_inv in W as (? & _ & _ & _ & Hwf); auto. Qed.

Lemma postorder_distinct n : wf_node n → NoDup (postorder n).
Proof.
  induction n as [n IH] using node_rec_children. intros W. pose proof (wf_node_inv _ W) as (_ & O & Hw & _ & Hwf).
  rewrite Forall_forall in IH. rewrite postorder_eq. apply NoDup_app. split; [|split; [|apply NoDup_singleton]].
  - revert O IH Hwf. generalize (node_start n), (node_end n), (children n). clear.
    intros lo hi l. revert lo. induction l as [|c l IHl]; intros lo O IH Hwf; cbn [map concat]; [constructor|].
    cbn in O. destruct O as (_ & _ & O). apply NoDup_app. split; [|split].
    + apply IH; [left|apply Hwf; left].
    + intros m Hm%elem_of_postorder (l' & Hl' & Hin)%list_elem_of_In%in_concat.
      apply in_map_iff in Hl' as (c' & <- & Hc'%list_elem_of_In). apply list_elem_of_In, elem_of_postorder in Hin.
      destruct (subnode_within m c) as (_ & E1 & _); [apply Hwf; left|done|].
      destruct (subnode_within m c') as (E2 & _ & _); [apply Hwf; by right|done|].
      destruct (ordered_bounds _ _ _ _ O Hc') as (E3 & _ & _).
      assert (node_start m < node_end m) by (apply (subnode_nonempty m c); [apply Hwf; left|done]). lia.
    + apply (IHl (node_end c)); [done|..]; intros; [apply IH|apply Hwf]; by first [right|done].
  - intros m (l' & Hl' & Hin)%list_elem_of_In%in_concat Hm%list_elem_of_singleton. subst m.
    apply in_map_iff in Hl' as (c & <- & Hc%list_elem_of_In). apply list_elem_of_In, elem_of_postorder in Hin.
    destruct (subnode_within n c (Hwf c Hc) Hin) as (_ & _ & Hle). specialize (Hw c Hc). lia.
Qed.

Lemma collected_sublist source l : ∀ rules rules',
  rfold (rule_visitor source) l rules = Ok rules' →
  ∃ l', map rule_node rules' = map rule_node rules ++ l' ∧ l' `sublist_of` l.
Proof.
  induction l as [|n l IH]; intros rules rules'; cbn [rfold]; [intros [= ->]; exists []; by rewrite app_nil_r|].
  intros (r & Hr & H)%bind_Ok. destruct (IH _ _ H) as (l' & E & S).
  assert (r = rules ∨ map rule_node r = map rule_node rules ++ [n]) as [->|En].
  { unfold rule_visitor in Hr. repeat (split_match Hr; simplify_eq/=; try (by left)).
    apply bind_Ok in Hr as ([vs calls] & _ & Hr). case_match; simplify_eq; [by left|]. right. by rewrite map_app. }
  - exists l'. split; [done|by constructor].
  - exists (n :: l'). rewrite E, En, <- app_assoc. split; [done|by constructor].
Qed.

Lemma rules_distinct source c : compile source = Ok c → NoDup (map rule_node (c_requestRules c)).
Proof.
  intros H. pose proof (compile_ok _ _ H) as [_ _ W _ Hh _ _ _ _ _].
  assert (visitExpression (rule_visitor source) (c_ast c) [] = Ok (c_requestRules c)) as V.
  { unfold compile in H. destruct (_ ← parse source; _) as [c'|] eqn:E; simplify_eq/=.
    apply bind_Ok in E as (ast & _ & E). apply bind_Ok in E as ([] & _ & E). apply bind_Ok in E as ([vs fs] & _ & E).
    apply bind_Ok in E as (rules & Er & E). apply bind_Ok in E as ([] & _ & [= <-]). done. }
  rewrite visitExpression_postorder in V by done. apply collected_sublist in V as (l' & -> & S).
  eapply sublist_NoDup; [|exact S]. by apply postorder_distinct.
Qed.

Lemma rule_found rules i r :
  NoDup (map rule_node rules) → rules !! i = Some r → find_index (λ r', node_eqb (rule_node r') (rule_node r)) rules = Some i.
Proof.
  revert i. induction rules as [|a rules IH]; intros [|i] N E; try done; cbn in E; cbn [find_index].
  - injection E as ->. by rewrite (proj2 (node_eqb_eq _ _) eq_refl).
  - cbn in N. apply NoDup_cons in N as [Na N]. destruct (node_eqb (rule_node a) (rule_node r)) eqn:Q.
    + apply node_eqb_eq in Q. destruct Na. rewrite Q. apply list_elem_of_In, in_map, list_elem_of_In.
      by eapply list_elem_of_lookup_2.
    + by rewrite (IH i).
Qed.
