(* ===== verification/RuntimeFacts.v ===== *)
(** * Evaluation: effects, typing, bounds and independence

    The state changes of the interpreter as a step relation, and the
    invariants that follow by induction on its executions; preservation of
    static types; the depth bound; and that a result depends only on the
    parts of the context the compiled expression names. *)
From stdpp Require Import base list option numbers sets relations.
From Stdlib Require Import ZArith SpecFloat Lia.
From S2P Require Import Prelude.
From S2P Require Import JsString.
From S2P Require Import JsNumber.
From S2P Require Import Syntax.
From S2P Require Import Parser.
From S2P Require Import ParserFacts.
From S2P Require Import Compile.
From S2P Require Import CompileFacts.
From S2P Require Import Runtime.

Section facts.
Context {host : Host}.

(** ** One level of the interpreter

    [evaluateNode] with the recursive calls abstracted as [rec]. *)
Definition eval_node (env : renv) (rec : node → rstate → result exn (RuntimeValue * rstate))
    (n : node) (st : rstate) : result exn (RuntimeValue * rstate) :=
  match n with
  | ELit _ v => Ok (literal_value v, st)
  | EVar _ v => x ← read_variable (context env) (node_start n) v; Ok (x, st)
  | ECond _ c yes no =>
      '(b, st) ← rec c st ≫= as_boolean c;
      let st := trace_rule env n b st in
      if (b : bool) then rec yes st else rec no st
  | EUn _ Unot a => '(b, st) ← rec a st ≫= as_boolean a; Ok (of_bool (negb b), st)
  | EUn _ o a =>
      '((x, i), st) ← rec a st ≫= as_numeric a;
      Ok (RV (JNum (match o with Uminus => nneg x | _ => x end)) i, st)
  | EBin _ Oand a b =>
      '(x, st) ← rec a st ≫= as_boolean a;
      if (x : bool) then '(y, st) ← rec b st ≫= as_boolean b; Ok (of_bool y, st)
      else Ok (of_bool false, st)
  | EBin _ Oor a b =>
      '(x, st) ← rec a st ≫= as_boolean a;
      if (x : bool) then Ok (of_bool true, st)
      else '(y, st) ← rec b st ≫= as_boolean b; Ok (of_bool y, st)
  | EBin _ o a b =>
      '(x, st) ← rec a st;
      '(y, st) ← rec b st;
      r ← binary_values (node_start n) o x y; Ok (r, st)
  | ECall _ f [] => type_error
  | ECall _ f (a :: rest) =>
      match f with
      | Ffixed =>
          '((x, _), st) ← rec a st ≫= as_numeric a;
          Ok (RV (JNum (nmul x (nZ 1000000))) false, set_fixed x st)
      | Fparam => '(p, st) ← rec a st ≫= as_string a; r ← eval_param env (node_start n) p; Ok (r, st)
      | Fheader => '(p, st) ← rec a st ≫= as_string a; r ← eval_header env (node_start n) p; Ok (r, st)
      | Fu => '(p, st) ← rec a st ≫= as_string a; r ← eval_usage env (node_start n) p; Ok (r, st)
      | Ftime t => '(z, st) ← rec a st ≫= as_string a; eval_time env t z st
      | Fabs => '((x, _), st) ← rec a st ≫= as_numeric a; Ok (RV (JNum (nabs x)) false, st)
      | Ffloor => '((x, _), st) ← rec a st ≫= as_numeric a; Ok (RV (JNum (nfloor x)) false, st)
      | Fceil => '((x, _), st) ← rec a st ≫= as_numeric a; Ok (RV (JNum (nceil x)) false, st)
      | Ftier =>
          '(name, st) ← rec a st ≫= as_string a;
          match rest with
          | [] => type_error
          | b :: _ => '((x, _), st) ← rec b st ≫= as_numeric b; Ok (RV (JNum x) false, set_tier name st)
          end
      | Fhas =>
          '(x, st) ← rec a st;
          match rest with
          | [] => type_error
          | b :: _ => '(s, st) ← rec b st ≫= as_string b; r ← eval_has (value x) s; Ok (r, st)
          end
      | Fmin | Fmax =>
          '((x, _), st) ← rec a st ≫= as_numeric a;
          match rest with
          | [] => type_error
          | b :: _ =>
              '((y, _), st) ← rec b st ≫= as_numeric b;
              Ok (RV (JNum (match f with Fmin => nmin x y | _ => nmax x y end)) false, st)
          end
      end
  end.

Lemma evaluate_eq env depth n st :
  evaluate env depth n st =
  if 256 <? S depth then throw Limit (js "evaluation depth") None
  else '(v, st) ← eval_node env (evaluate env (S depth)) n st; v ← check_value n v; Ok (v, st).
Proof. by destruct n as [| |sp f [|a args]|sp []|sp []|]. Qed.

Lemma evaluate_inv env depth n st v st' :
  evaluate env depth n st = Ok (v, st') →
  S depth ≤ 256 ∧ eval_node env (evaluate env (S depth)) n st = Ok (v, st') ∧
  check_value n v = Ok v.
Proof.
  rewrite evaluate_eq. destruct (Nat.ltb_spec 256 (S depth)) as [|Hd]; [done|]. intros H.
  apply bind_Ok in H as ([w st1] & H1 & H). apply bind_Ok in H as (u & H2 & [= -> ->]).
  assert (w = v) as ->; [|done].
  unfold check_value in H2. repeat case_match; by simplify_eq.
Qed.

Lemma as_boolean_Ok n r b st : as_boolean n r = Ok (b, st) → ∃ i, r = (RV (JBool b) i, st).
Proof. destruct r as [[[] i] s]; cbn; intros; simplify_eq; eauto. Qed.
Lemma as_numeric_Ok n r x i st : as_numeric n r = Ok ((x, i), st) → r = (RV (JNum x) i, st).
Proof. destruct r as [[[] j] s]; cbn; intros; simplify_eq; eauto. Qed.
Lemma as_string_Ok n r s st : as_string n r = Ok (s, st) → ∃ i, r = (RV (JStr s) i, st).
Proof. destruct r as [[[] i] t]; cbn; intros; simplify_eq; eauto. Qed.

(** Read a successful [eval_node] backwards. *)
Ltac inv_eval :=
  repeat match goal with
  | H : Ok _ = Ok _ |- _ => injection H as H; subst
  | H : Err _ = Ok _ |- _ => discriminate H
  | H : throw _ _ _ = Ok _ |- _ => discriminate H
  | H : type_error = Ok _ |- _ => discriminate H
  | H : (_, _) = (_, _) |- _ => injection H as ? ?; subst
  | H : mbind _ _ = Ok _ |- _ =>
      apply bind_Ok in H;
      let x := fresh "r" in let Hx := fresh "Hr" in destruct H as (x & Hx & H)
  | H : as_boolean _ ?r = Ok ?q |- _ =>
      destruct q; apply as_boolean_Ok in H as [? ->]
  | H : as_numeric _ ?r = Ok ?q |- _ =>
      destruct q as [[? ?] ?]; apply as_numeric_Ok in H as ->
  | H : as_string _ ?r = Ok ?q |- _ =>
      destruct q; apply as_string_Ok in H as [? ->]
  | H : (let '(_, _) := ?p in _) = Ok _ |- _ => destruct p
  | H : (if ?b then _ else _) = Ok _ |- _ =>
      lazymatch type of b with bool => destruct b end
  end.

(** ** State changes *)

(** A primitive state change made on behalf of a part of [n]. *)
Inductive estep (env : renv) (n : node) : rstate → rstate → Prop :=
| step_trace sp c yes no d st0 b i st :
    subnode (ECond sp c yes no) n →
    evaluate env d c st0 = Ok (RV (JBool b) i, st) →
    estep env n st (trace_rule env (ECond sp c yes no) b st)
| step_tier sp args name st :
    subnode (ECall sp Ftier args) n → estep env n st (set_tier name st)
| step_fixed sp args amount st :
    subnode (ECall sp Ffixed args) n → estep env n st (set_fixed amount st)
| step_time sp f args zone fields st :
    subnode (ECall sp (Ftime f) args) n →
    time_get (timeValues st) zone = None →
    timeInBillingZone (env_now env) zone = Ok fields →
    estep env n st (add_time zone fields st).

Lemma estep_weaken env m n st st' : subnode m n → estep env m st st' → estep env n st st'.
Proof.
  intros Hs. destruct 1; econstructor; eauto using subnode_trans.
Qed.

Lemma esteps_weaken env m n st st' : subnode m n → rtc (estep env m) st st' → rtc (estep env n) st st'.
Proof. intros Hs. apply rtc_subrel. intros ??. by apply estep_weaken. Qed.

Lemma eval_time_steps env sp f args z st v st' n :
  subnode (ECall sp (Ftime f) args) n →
  eval_time env f z st = Ok (v, st') → rtc (estep env n) st st'.
Proof.
  intros Hs H. unfold eval_time in H. destruct (time_get _ _) eqn:E; inv_eval; [constructor|].
  eapply rtc_once. econstructor; eauto.
Qed.

(** Every successful evaluation is a sequence of such steps. *)
Lemma evaluate_steps env n : ∀ d st v st',
  evaluate env d n st = Ok (v, st') → rtc (estep env n) st st'.
Proof.
  induction n as [n IH] using node_rec_children. intros d st v st' H.
  apply evaluate_inv in H as (_ & H & _). rewrite Forall_forall in IH.
  assert (Hc : ∀ c d st v st', c ∈ children n → evaluate env d c st = Ok (v, st') →
    rtc (estep env n) st st').
  { intros c d' s w s' Hc He. eapply esteps_weaken; [|by eapply IH].
    econstructor; [done|constructor]. }
  clear IH.
  destruct n as [sp v0|sp v0|sp f [|a args]|sp o a|sp o a b|sp c y n]; cbn in H, Hc.
  - inv_eval. constructor.
  - inv_eval. constructor.
  - done.
  - destruct f; inv_eval;
      try (eapply (Hc a); [set_solver|done]);
      try (destruct args as [|second args]; inv_eval;
           (etrans; [eapply (Hc a); [set_solver|done]|];
            etrans; [eapply (Hc second); [set_solver|done]|];
            first [constructor | eapply rtc_once; econstructor; apply subnode_refl]));
      try (etrans; [eapply (Hc a); [set_solver|done]|];
           first [ eapply rtc_once; econstructor; apply subnode_refl
                 | eapply eval_time_steps; [apply subnode_refl|done]]).
  - destruct o; inv_eval; eapply (Hc a); (set_solver || done).
  - destruct o; inv_eval;
      try (etrans; [eapply (Hc a); [set_solver|done]|]; eapply (Hc b); [set_solver|done]);
      eapply (Hc a); (set_solver || done).
  - inv_eval; (etrans; [eapply (Hc c); [set_solver|done]|]);
      (eapply rtc_l; [by eapply (step_trace _ _ sp c y n); [apply subnode_refl|]|]).
    + eapply (Hc y); [set_solver|done].
    + eapply (Hc n); [set_solver|done].
Qed.

(** ** Tiers and fixed prices change only at their markers *)

Definition marker_free (n : node) : Prop :=
  ∀ sp f args, subnode (ECall sp f args) n → f ≠ Ftier ∧ f ≠ Ffixed.

Lemma evaluate_marker_free env n d st v st' :
  marker_free n → evaluate env d n st = Ok (v, st') →
  matchedTier st' = matchedTier st ∧ billingUnit st' = billingUnit st ∧
  fixedPrice st' = fixedPrice st.
Proof.
  intros Hm H%evaluate_steps. induction H as [|x y z Hxy _ IH]; [done|].
  destruct IH as (-> & -> & ->).
  destruct Hxy as [| ? ? ? ? Hs | ? ? ? ? Hs |]; [|by apply Hm in Hs as []..|done].
  unfold trace_rule. by destruct (find_index _ _), b.
Qed.

(** ** The time-zone cache *)

Definition times_ok (env : renv) (st : rstate) : Prop :=
  ∀ zone fields, time_get (timeValues st) zone = Some fields →
    timeInBillingZone (env_now env) zone = Ok fields.

Lemma time_get_app l1 l2 z :
  time_get (l1 ++ l2) z = match time_get l1 z with Some f => Some f | None => time_get l2 z end.
Proof. induction l1 as [|[k f] l1 IH]; cbn; [done|]. by destruct (jseq k z). Qed.

Lemma evaluate_times env n d st v st' :
  times_ok env st → evaluate env d n st = Ok (v, st') → times_ok env st'.
Proof.
  intros Ht H%evaluate_steps. induction H as [|x y z Hxy _ IH]; [done|]. apply IH.
  destruct Hxy as [| | |sp f args zone fields st0 _ Hn Hz]; try done.
  - unfold trace_rule. by destruct (find_index _ _), b.
  - intros w g. cbn. rewrite time_get_app. destruct (time_get (timeValues st0) w) eqn:E.
    + intros. simplify_eq. by apply Ht.
    + cbn. destruct (jseq zone w) eqn:Ew; [|done]. apply jseq_eq in Ew as ->. by intros [= <-].
Qed.

(** ** Rule traces

    Which parts of a tree a run evaluates, by the values the parts have in the
    run, and which request rules it marks. *)

(** The parts of a node that are evaluated: both operands, except that of
    [&&], [||] and a conditional the later ones depend on the first. *)
Definition parts (V : node → option jsval) (n : node) : list node :=
  match n with
  | ELit _ _ | EVar _ _ => []
  | ECall _ f args => match f with Ftier | Fhas | Fmin | Fmax => take 2 args | _ => take 1 args end
  | EUn _ _ a => [a]
  | EBin _ Oand a b => a :: match V a with Some (JBool true) => [b] | _ => [] end
  | EBin _ Oor a b => a :: match V a with Some (JBool false) => [b] | _ => [] end
  | EBin _ _ a b => [a; b]
  | ECond _ c yes no =>
      c :: match V c with Some (JBool true) => [yes] | Some (JBool false) => [no] | _ => [] end
  end.

Inductive evaluated (V : node → option jsval) : node → node → Prop :=
| evaluated_here n : evaluated V n n
| evaluated_part p n m : p ∈ parts V n → evaluated V p m → evaluated V n m.

(** A conditional that is evaluated and whose condition is true is the node of
    rule [i]. *)
Definition fires (V : node → option jsval) (rules : list RequestRule) (n : node) (i : nat) : Prop :=
  ∃ sp c yes no, evaluated V n (ECond sp c yes no) ∧ V c = Some (JBool true) ∧
    find_index (λ r, node_eqb (rule_node r) (ECond sp c yes no)) rules = Some i.

Lemma rule_fires V source c i rule :
  compile source = Ok c → c_requestRules c !! i = Some rule →
  fires V (c_requestRules c) (c_ast c) i ↔
  evaluated V (c_ast c) (rule_node rule) ∧ V (rule_condition rule) = Some (JBool true).
Proof.
  intros Hc Er. pose proof (rules_distinct _ _ Hc) as N. pose proof (ok_rules _ _ (compile_ok _ _ Hc)) as R.
  rewrite Forall_forall in R. destruct (R rule) as (_ & sp & spy & spn & x & f & j & En & _);
    [by eapply list_elem_of_lookup_2|].
  split.
  - intros (sp' & c' & yes & no & He & HV & F). apply find_index_Some in F as (rule' & Er' & Q%node_eqb_eq).
    rewrite Er in Er'. injection Er' as <-. rewrite En in Q. injection Q as <- <- <- <-. by rewrite En.
  - intros [He HV]. exists sp, (rule_condition rule), (ELit spy (LNum (rule_multiplier rule) x)), (ELit spn (LNum f j)).
    rewrite <- En. conjs; [done|done|by apply rule_found].
Qed.

(** The rules [F] are marked, and nothing else changes. *)
Definition marks (F : nat → Prop) (st st' : rstate) : Prop :=
  ∀ i, match requestRules st !! i, requestRules st' !! i with
       | Some r, Some r' =>
           cond r' = cond r ∧ multiplier r' = multiplier r ∧ (matched r' = true ↔ matched r = true ∨ F i)
       | None, None => True
       | _, _ => False
       end.

Lemma marks_none F st st' : (∀ i, ¬ F i) → requestRules st' = requestRules st → marks F st st'.
Proof. intros N E i. rewrite E. destruct (_ !! i); [|done]. conjs; [done..|]. specialize (N i). naive_solver. Qed.

Lemma marks_trans F G a b c : marks F a b → marks G b c → marks (λ i, F i ∨ G i) a c.
Proof.
  intros H1 H2 i. specialize (H1 i). specialize (H2 i).
  destruct (requestRules a !! i), (requestRules b !! i), (requestRules c !! i); try done.
  destruct H1 as (?&?&?), H2 as (?&?&?). conjs; [congruence..|naive_solver].
Qed.

Lemma marks_length F st st' : marks F st st' → length (requestRules st') = length (requestRules st).
Proof.
  intros H. apply Nat.le_antisymm; apply Nat.nlt_ge; intros Hlt.
  - apply lookup_lt_is_Some in Hlt as [r Hr]. specialize (H (length (requestRules st))).
    rewrite Hr in H. by rewrite lookup_ge_None_2 in H by done.
  - apply lookup_lt_is_Some in Hlt as [r Hr]. specialize (H (length (requestRules st'))).
    rewrite Hr in H. by rewrite (lookup_ge_None_2 (requestRules st')) in H by done.
Qed.

Lemma marks_iff F G a b : (∀ i, F i ↔ G i) → marks F a b → marks G a b.
Proof. intros E H i. specialize (H i). specialize (E i). repeat case_match; try done. naive_solver. Qed.

Lemma set_matched_lookup l i j :
  set_matched l i !! j =
  (λ r, if decide (i = j) then {| cond := cond r; multiplier := multiplier r; matched := true |} else r)
    <$> l !! j.
Proof.
  revert i j. induction l as [|r l IH]; intros [|i] [|j]; cbn; try done.
  - by destruct (l !! j).
  - rewrite IH. destruct (l !! j); cbn; [|done]. repeat case_decide; simplify_eq; done || lia.
Qed.

Section traces.
Variable (env : renv) (V : node → option jsval).
Let rules := c_requestRules (compiled env).
(** [V] gives the value of every part that has one. *)
Hypothesis values : ∀ m d st r st', times_ok env st → evaluate env d m st = Ok (r, st') → V m = Some (value r).

Lemma marks_traced n b st :
  marks (λ i, b = true ∧ find_index (λ r, node_eqb (rule_node r) n) rules = Some i) st (trace_rule env n b st).
Proof.
  unfold trace_rule. fold rules. destruct (find_index _ rules) as [k|]; [|apply marks_none; naive_solver].
  destruct b; [|apply marks_none; naive_solver]. intros j. cbn. rewrite set_matched_lookup.
  destruct (requestRules st !! j) as [r|]; cbn; [|done]. case_decide as Hj; cbn; conjs; try done; naive_solver.
Qed.

Lemma fires_split n i :
  fires V rules n i ↔
  (∃ sp c yes no, n = ECond sp c yes no ∧ V c = Some (JBool true) ∧
     find_index (λ r, node_eqb (rule_node r) n) rules = Some i) ∨
  ∃ p, p ∈ parts V n ∧ fires V rules p i.
Proof.
  split.
  - intros (sp & c & yes & no & E & H). inversion E as [|p ? ? Hp Hm]; subst.
    + left. by exists sp, c, yes, no.
    + right. exists p. split; [done|]. by exists sp, c, yes, no.
  - intros [(sp & c & yes & no & -> & H)|(p & Hp & sp & c & yes & no & E & H)].
    + exists sp, c, yes, no. split; [constructor|done].
    + exists sp, c, yes, no. split; [by econstructor|done].
Qed.

(** The parts of [l], one after the other. *)
Definition marks_parts (l : list node) : rstate → rstate → Prop := marks (λ i, ∃ p, p ∈ l ∧ fires V rules p i).

Lemma parts_done st st' : requestRules st' = requestRules st → marks_parts [] st st'.
Proof. intros E. apply marks_none; [|done]. intros i (p & Hp%not_elem_of_nil & _). done. Qed.

Lemma parts_next p l a b c : marks (fires V rules p) a b → marks_parts l b c → marks_parts (p :: l) a c.
Proof.
  intros H1 H2. eapply marks_iff; [|exact (marks_trans _ _ _ _ _ H1 H2)]. intros i. cbn beta.
  setoid_rewrite elem_of_cons. naive_solver.
Qed.

Lemma parts_marked n st st' :
  (∀ sp c yes no, n ≠ ECond sp c yes no) → marks_parts (parts V n) st st' → marks (fires V rules n) st st'.
Proof. intros N. apply marks_iff. intros i. rewrite fires_split. naive_solver. Qed.

Lemma time_rules f z st v st' : eval_time env f z st = Ok (v, st') → requestRules st' = requestRules st.
Proof. unfold eval_time. intros H. destruct (time_get _ _); inv_eval; done. Qed.

Lemma evaluate_marks n : ∀ d st v st',
  times_ok env st → evaluate env d n st = Ok (v, st') → marks (fires V rules n) st st'.
Proof using values.
  induction n as [n IH] using node_rec_children. intros d st v st' T H.
  apply evaluate_inv in H as (_ & H & _). rewrite Forall_forall in IH.
  assert (Hc : ∀ c d st v st' l s', c ∈ children n → times_ok env st → evaluate env d c st = Ok (v, st') →
    (times_ok env st' → V c = Some (value v) → marks_parts l st' s') → marks_parts (c :: l) st s').
  { intros c d' s w s1 l s2 Hc Ts He K. eapply parts_next; [by eapply IH|].
    apply K; [by eapply evaluate_times|by eapply values]. }
  clear IH.
  destruct n as [sp v0|sp v0|sp f [|a args]|sp o a|sp o a b|sp c y n]; cbn in H, Hc.
  - inv_eval. by apply parts_marked, parts_done.
  - inv_eval. by apply parts_marked, parts_done.
  - done.
  - apply parts_marked; [done|]. cbn [parts].
    destruct f; inv_eval; cbn [take];
      try (eapply (Hc a); [set_solver|done|done|]; intros; by apply parts_done);
      try (destruct args as [|second args]; inv_eval; cbn [take];
           (eapply (Hc a); [set_solver|done|done|]); intros ? _;
           (eapply (Hc second); [set_solver|done|done|]); intros; by apply parts_done).
    eapply (Hc a); [set_solver|done|done|]; intros; apply parts_done; by eapply time_rules.
  - apply parts_marked; [done|]. cbn [parts].
    destruct o; inv_eval; (eapply (Hc a); [set_solver|done|done|]); intros; by apply parts_done.
  - apply parts_marked; [done|]. cbn [parts].
    destruct o; inv_eval; (eapply (Hc a); [set_solver|done|done|]); intros Ta Va; rewrite ?Va; cbn [value];
      try (by apply parts_done); (eapply (Hc b); [set_solver|done|done|]); intros; by apply parts_done.
  - apply bind_Ok in H as ([b st1] & H1 & H). apply bind_Ok in H1 as (r1 & H1 & Hb). apply as_boolean_Ok in Hb as [i ->].
    pose proof (values _ _ _ _ _ T H1) as Vc. cbn [value] in Vc.
    pose proof (marks_traced (ECond sp c y n) b st1) as M. set (st2 := trace_rule env (ECond sp c y n) b st1) in *.
    assert (times_ok env st2) as T2.
    { pose proof (evaluate_times _ _ _ _ _ _ T H1) as T1. unfold st2, trace_rule. by destruct (find_index _ _), b. }
    assert (marks_parts [if b then y else n] st2 st') as P.
    { destruct b; [eapply (Hc y)|eapply (Hc n)]; try done; try set_solver; intros; by apply parts_done. }
    assert (marks_parts [c] st st1) as Pc by (eapply (Hc c); [set_solver|done|done|]; intros; by apply parts_done).
    eapply marks_iff; [|exact (marks_trans _ _ _ _ _ Pc (marks_trans _ _ _ _ _ M P))]. intros j. cbn beta.
    rewrite (fires_split (ECond sp c y n)). cbn [parts]. rewrite Vc.
    assert ((∃ sp' c' yes no, ECond sp c y n = ECond sp' c' yes no ∧ V c' = Some (JBool true) ∧
       find_index (λ r, node_eqb (rule_node r) (ECond sp c y n)) rules = Some j) ↔
      b = true ∧ find_index (λ r, node_eqb (rule_node r) (ECond sp c y n)) rules = Some j) as ->.
    { split; [intros (?&?&?&?&[= <- <- <- <-]&E&?); split; [congruence|done]|].
      intros [-> F]. by exists sp, c, y, n. }
    destruct b; setoid_rewrite elem_of_cons; setoid_rewrite list_elem_of_singleton; setoid_rewrite elem_of_nil.
    all: split; [intros [(p & [-> |[]] & ?)|[?|(p & [-> |[]] & ?)]]|intros [?|(p & [-> | ->] & ?)]]; eauto 6.
Qed.
End traces.

(** A cached zone gives the value a fresh formatter would give. *)
Lemma eval_time_uncached env f z st :
  times_ok env st →
  fst <$> eval_time env f z st =
  (λ values, RV (JNum (values f)) true) <$> timeInBillingZone (env_now env) (trim z).
Proof.
  intros Ht. unfold eval_time. destruct (time_get _ (trim z)) as [values|] eqn:E.
  - by rewrite (Ht _ _ E).
  - by destruct (timeInBillingZone _ _).
Qed.

(** ** Static types are preserved *)

Definition value_has_type (v : jsval) (t : etype) : Prop :=
  match t with
  | TNumber => ∃ x, v = JNum x
  | TString => ∃ s, v = JStr s
  | TBoolean => ∃ b, v = JBool b
  | TNil => v = JNull
  | TDynamic => True
  end.

(** No [+] with two operands of dynamic type. *)
Definition static_additions (n : node) : Prop :=
  ∀ sp a b, subnode (EBin sp Oadd a b) n → ¬ (has_type a TDynamic ∧ has_type b TDynamic).

Lemma compat_value v t e : compat t e = true → value_has_type v t → t ≠ TDynamic → value_has_type v e.
Proof.
  unfold compat. intros H Hv Hd. apply orb_true_iff in H as [H|H];
    apply bool_decide_eq_true in H; by subst.
Qed.

Lemma binary_values_number pos o x y r :
  match o with Osub | Omul | Odiv | Omod => True | _ => False end →
  binary_values pos o x y = Ok r → ∃ z, value r = JNum z.
Proof.
  intros Ho H. unfold binary_values in H.
  destruct o; try done; destruct (value x), (value y); cbn in H; try done;
    repeat case_match; simplify_eq/=; eauto.
Qed.

Lemma binary_values_add pos x y r :
  binary_values pos Oadd x y = Ok r →
  (∃ a b z, value x = JNum a ∧ value y = JNum b ∧ value r = JNum z) ∨
  (∃ a b, value x = JStr a ∧ value y = JStr b ∧ value r = JStr (a ++ b)).
Proof.
  intros H. unfold binary_values in H.
  destruct (value x), (value y); cbn in H; simplify_eq/=; naive_solver.
Qed.

Lemma binary_values_boolean pos o x y r :
  match o with Oeq | One | Olt | Ole | Ogt | Oge => True | _ => False end →
  binary_values pos o x y = Ok r → ∃ b, value r = JBool b.
Proof.
  intros Ho H. unfold binary_values in H.
  destruct o; try done; repeat case_match; simplify_eq/=; eauto.
Qed.

Lemma static_additions_child n c : static_additions n → c ∈ children n → static_additions c.
Proof. intros H Hc sp a b Hs. apply (H sp). by econstructor. Qed.

Lemma eval_header_string env pos name v :
  eval_header env pos name = Ok v → ∃ s, value v = JStr s.
Proof. unfold eval_header. intros H. case_match; simplify_eq/=; eauto. Qed.

Lemma eval_has_boolean x s v : eval_has x s = Ok v → ∃ b, value v = JBool b.
Proof.
  unfold eval_has. intros H. repeat (case_match; simplify_eq/=; eauto). inv_eval. cbn. eauto.
Qed.

Lemma eval_time_number env f z st v st' : eval_time env f z st = Ok (v, st') → ∃ x, value v = JNum x.
Proof. unfold eval_time. intros H. case_match; inv_eval; cbn; eauto. Qed.

Lemma read_variable_number ctx pos x v : read_variable ctx pos x = Ok v → ∃ y, value v = JNum y.
Proof. unfold read_variable. intros H. repeat case_match; simplify_eq/=; eauto. Qed.

(** [+] keeps the static type unless both operands are dynamic. *)
Lemma addition_typed pos x y r ta tb :
  value_has_type (value x) ta → value_has_type (value y) tb →
  ¬ (ta = TDynamic ∧ tb = TDynamic) →
  binary_values pos Oadd x y = Ok r →
  if decide (ta = TString ∧ tb = TString) then ∃ s, value r = JStr s
  else compat ta TNumber = true → compat tb TNumber = true → ∃ z, value r = JNum z.
Proof.
  intros Hx Hy Hd [(a & b & z & Ha & Hb & Hz)|(a & b & Ha & Hb & Hz)]%binary_values_add.
  - case_decide as Hs; [|eauto]. destruct Hs as [-> ->], Hx as [? Hx]. congruence.
  - rewrite Ha in Hx. rewrite Hb in Hy. case_decide as Hs; [eauto|].
    intros Hca Hcb. unfold compat in *.
    destruct ta; cbn in Hx; try (destruct Hx; discriminate); try done;
      destruct tb; cbn in Hy; try (destruct Hy; discriminate); try done; by destruct Hd.
Qed.

(** Operators that evaluate both operands. *)
Lemma strict_binary_typed sp a b pos o x y r ta tb t :
  ¬ (o = Oand ∨ o = Oor) →
  binary_values pos o x y = Ok r →
  ¬ (ta = TDynamic ∧ tb = TDynamic) ∨ o ≠ Oadd →
  type_rule (EBin sp o a b) [ta; tb] = Some t →
  value_has_type (value x) ta → value_has_type (value y) tb → value_has_type (value r) t.
Proof.
  intros Hlog Hv Hd Hr Hx Hy.
  destruct (decide (o = Oadd)) as [->|Ho].
  - destruct Hd as [Hd|]; [|done]. pose proof (addition_typed _ _ _ _ _ _ Hx Hy Hd Hv) as Ht.
    cbn in Hr. destruct (decide (ta = TString ∧ tb = TString)) as [[-> ->]|Hs].
    + rewrite decide_True in Hr by done. by simplify_eq.
    + rewrite decide_False in Hr by naive_solver.
      destruct (compat ta TNumber), (compat tb TNumber); simplify_eq/=. by apply Ht.
  - destruct o; try (by destruct Hlog; auto); try done; cbn in Hr;
      try (rewrite decide_False in Hr by naive_solver; case_match; simplify_eq;
           by eapply binary_values_number; [|done]);
      simplify_eq; by eapply binary_values_boolean; [|done].
Qed.

Lemma evaluate_typed env n : ∀ t d st v st',
  has_type n t → static_additions n → evaluate env d n st = Ok (v, st') →
  value_has_type (value v) t.
Proof.
  induction n as [n IH] using node_rec_children. intros t d st v st' Ht Hadd H.
  apply evaluate_inv in H as (_ & H & _).
  apply has_type_inv in Ht as (ts & Hts & Hr). rewrite Forall_forall in IH.
  assert (Hc : ∀ c t d st v st', c ∈ children n → has_type c t →
    evaluate env d c st = Ok (v, st') → value_has_type (value v) t).
  { intros. eapply IH; [done..|by eapply static_additions_child|done]. }
  clear IH.
  destruct n as [sp v0|sp v0|sp f [|a args]|sp o a|sp o a b|sp c y n]; cbn in H, Hc, Hts.
  - inversion Hts; subst. inv_eval. by destruct v0; cbn in *; simplify_eq; cbn; eauto.
  - inversion Hts; subst. inv_eval. simplify_eq/=. by eapply read_variable_number.
  - done.
  - inversion Hts as [|? ta ? ts' Ha Hargs]; subst.
    destruct f; cbn in Hr; inv_eval;
      try (destruct args as [|second args]; [done|]; inv_eval);
      repeat (case_match; simplify_eq/=; try done);
      eauto using eval_header_string, eval_has_boolean, eval_time_number.
  - inversion Hts as [|? ta ? ts' Ha Hargs]; subst. inversion Hargs; subst.
    destruct o; cbn in Hr; inv_eval; case_match; simplify_eq/=; eauto.
  - inversion Hts as [|? ta ? ts' Ha Hts']; subst.
    inversion Hts' as [|? tb ? ts'' Hb Hts'']; subst. inversion Hts''; subst.
    assert (Hd : ¬ (ta = TDynamic ∧ tb = TDynamic) ∨ o ≠ Oadd).
    { destruct (decide (o = Oadd)) as [->|]; [left|by right].
      intros [-> ->]. apply (Hadd sp a b); [constructor|done]. }
    destruct (decide (o = Oand ∨ o = Oor)) as [Hlog|Hlog].
    { assert (t = TBoolean) as -> by
        (destruct Hlog as [->| ->]; cbn in Hr; case_match; by simplify_eq).
      destruct Hlog as [->| ->]; inv_eval; cbn; eauto. }
    assert (∃ x y st1, evaluate env (S d) a st = Ok (x, st1) ∧
      evaluate env (S d) b st1 = Ok (y, st') ∧
      binary_values (node_start (EBin sp o a b)) o x y = Ok v) as (x & y & st1 & Hx & Hy & Hv)
      by (destruct o; first [by destruct Hlog; auto | inv_eval; do 3 eexists; eauto]).
    eapply strict_binary_typed; [exact Hlog|exact Hv|exact Hd|exact Hr|..];
      [eapply (Hc a)|eapply (Hc b)]; (set_solver || done).
  - inversion Hts as [|? tc ? ts' Hc' Hts']; subst.
    inversion Hts' as [|? ty ? ts'' Hy Hts'']; subst.
    inversion Hts'' as [|? tn ? ? Hn Hts3]; subst. inversion Hts3; subst. cbn in Hr.
    destruct (compat tc TBoolean); [|done]. simplify_eq.
    case_decide; [subst|done].
    inv_eval; [eapply (Hc y)|eapply (Hc n)]; (set_solver || done).
Qed.

(** ** What can go wrong *)

(** A part of the context that [m] needs is absent. *)
Definition missing (env : renv) (m : node) : Prop :=
  match m with
  | EVar _ v => v ≠ Vimage_count ∧
      (own (tokens (context env)) (bvar_text v) = None ∨
       own (tokens (context env)) (bvar_text v) = Some JUndefined)
  | ECall _ (Fparam | Fheader) _ => request (context env) = None
  | ECall _ Fu _ => usage (context env) = None
  | _ => False
  end.

(** The exceptions a single node can raise itself. *)
Inductive eval_error (env : renv) (m : node) : exn → Prop :=
| error_value c d p :
    c = Type_ ∨ c = Unsupported ∨ c = Number →
    eval_error env m (BillingExpressionError (Diagnostic c d p))
| error_value_depth :
    eval_error env m (BillingExpressionError (Diagnostic Limit (js "request value depth") None))
| error_missing d p :
    missing env m → eval_error env m (BillingExpressionError (Diagnostic MissingContext d p))
| error_arity msg : ¬ arity_ok m → eval_error env m (HostError msg).

Definition depth_error : exn :=
  BillingExpressionError (Diagnostic Limit (js "evaluation depth") None).

Lemma throw_error env m {A} c d p e :
  c = Type_ ∨ c = Unsupported ∨ c = Number →
  @throw A c d p = Err e → eval_error env m e.
Proof. intros Hc [= <-]. by constructor. Qed.

Ltac by_missing := unfold throw in *; simplify_eq; apply error_missing; cbn; auto.
Ltac by_throw := solve [eapply throw_error; [|eassumption]; tauto].

Lemma as_boolean_Err env m n r e : as_boolean n r = Err e → eval_error env m e.
Proof. unfold as_boolean. intros. case_match; simplify_eq/=; by_throw. Qed.
Lemma as_numeric_Err env m n r e : as_numeric n r = Err e → eval_error env m e.
Proof. unfold as_numeric. intros. case_match; simplify_eq/=; by_throw. Qed.
Lemma as_string_Err env m n r e : as_string n r = Err e → eval_error env m e.
Proof. unfold as_string. intros. case_match; simplify_eq/=; by_throw. Qed.

Lemma check_value_Err env m n v e : check_value n v = Err e → eval_error env m e.
Proof. unfold check_value. intros. repeat case_match; simplify_eq/=; by_throw. Qed.

Lemma binary_values_Err env m pos o x y e : binary_values pos o x y = Err e → eval_error env m e.
Proof.
  unfold binary_values. intros.
  destruct o; repeat (case_match; simplify_eq/=; try by_throw).
Qed.

Lemma read_variable_Err env sp v pos e :
  read_variable (context env) pos v = Err e → eval_error env (EVar sp v) e.
Proof.
  unfold read_variable. intros.
  destruct v; repeat (case_match; simplify_eq/=; try by_throw); by_missing.
Qed.

Lemma split_path_Err env m path s : ∀ part parts e,
  split_path path s part parts = Err e → eval_error env m e.
Proof.
  induction s as [s IH] using (induction_ltof1 _ length). unfold ltof in IH.
  intros part parts e H. destruct s as [|c s]; cbn in H; [done|].
  repeat (case_match; simplify_eq/=; try by_throw);
    (eapply IH; [|eassumption]; cbn; lia).
Qed.

Lemma walk_path_Err env m path parts : ∀ v e, walk_path path parts v = Err e → eval_error env m e.
Proof.
  induction parts as [|key parts IH]; intros v e H; cbn in H; [done|].
  repeat (case_match; simplify_eq/=; try by_throw); eauto.
Qed.

Lemma readRequestPath_Err env m b p e : readRequestPath b p = Err e → eval_error env m e.
Proof.
  unfold readRequestPath. intros H. case_match; [done|].
  apply bind_Err in H as [H|(parts & _ & H)]; eauto using split_path_Err, walk_path_Err.
Qed.

Lemma timeInBillingZone_Err env m t z e : timeInBillingZone t z = Err e → eval_error env m e.
Proof.
  unfold timeInBillingZone. intros. repeat (case_match; simplify_eq/=; try by_throw).
Qed.

Lemma eval_time_Err env m f z st e : eval_time env f z st = Err e → eval_error env m e.
Proof.
  unfold eval_time. intros H. case_match; [done|].
  apply bind_Err in H as [H|(? & _ & H)]; [by eapply timeInBillingZone_Err|done].
Qed.

Lemma sequence_Err {A} (l : list (result exn A)) e : sequence l = Err e → Err e ∈ l.
Proof.
  induction l as [|r l IH]; cbn; [done|]. intros H.
  apply bind_Err in H as [->|(a & -> & H)]; [set_solver|].
  apply bind_Err in H as [H|(? & _ & H)]; [|done]. apply IH in H. set_solver.
Qed.

Lemma elem_of_insert_by_key {A} (k : jsstr) (a : A) l x :
  x ∈ insert_by_key k a l ↔ x = (k, a) ∨ x ∈ l.
Proof.
  induction l as [|[k' b] l IH]; cbn; [set_solver|]. case_match; [set_solver|].
  rewrite !elem_of_cons, IH. tauto.
Qed.

Lemma elem_of_sort_by_key {A} (l : list (jsstr * A)) x : x ∈ sort_by_key l ↔ x ∈ l.
Proof.
  unfold sort_by_key.
  assert (H : ∀ acc, x ∈ fold_left (λ acc '(k, a), insert_by_key k a acc) l acc ↔ x ∈ acc ∨ x ∈ l).
  { induction l as [|[k a] l IH]; intros acc; cbn; [set_solver|].
    rewrite IH, elem_of_insert_by_key. set_solver. }
  rewrite H. set_solver.
Qed.

Lemma billing_number_Err env m x e : billing_number x = Err e → eval_error env m e.
Proof. unfold billing_number. intros. repeat (case_match; simplify_eq/=; try by_throw). Qed.

(** Nesting of request values, to recurse through arrays and objects. *)
Fixpoint jsval_size (v : jsval) : nat :=
  S (match v with
     | JArr items => (fix go l := match l with [] => 0 | x :: l => jsval_size x + go l end) items
     | JObj fields => (fix go (l : list (jsstr * jsval)) :=
                         match l with [] => 0 | (_, x) :: l => jsval_size x + go l end) fields
     | _ => 0
     end).

Lemma jsval_size_item items x : x ∈ items → jsval_size x < jsval_size (JArr items).
Proof.
  cbn. induction items as [|y items IH]; [set_solver|].
  intros [->|H]%elem_of_cons; [lia|]. specialize (IH H). lia.
Qed.

Lemma jsval_size_field fields k x : (k, x) ∈ fields → jsval_size x < jsval_size (JObj fields).
Proof.
  cbn. induction fields as [|[k' y] fields IH]; [set_solver|].
  intros [[= -> ->]|H]%elem_of_cons; [lia|]. specialize (IH H). lia.
Qed.

Lemma billingString_Err env m v : ∀ d e, billingString d v = Err e → eval_error env m e.
Proof.
  induction v as [v IH] using (induction_ltof1 _ jsval_size). unfold ltof in IH.
  intros d e H. destruct v as [| |b|x|s|items|fields]; cbn in H; case_match;
    unfold throw in *; simplify_eq/=; try apply error_value_depth.
  - by eapply billing_number_Err.
  - apply bind_Err in H as [H|(? & _ & H)]; [|done].
    apply sequence_Err, list_elem_of_fmap in H as (x & Hx & Hin).
    eapply IH; [by apply jsval_size_item|by symmetry].
  - apply bind_Err in H as [H|(? & _ & H)]; [|done].
    apply sequence_Err, list_elem_of_fmap in H as ([k r] & Hr & Hin).
    apply elem_of_sort_by_key, list_elem_of_fmap in Hin as ([k' x] & [= -> ->] & Hin).
    symmetry in Hr. apply bind_Err in Hr as [Hr|(? & _ & Hr)]; [|done].
    eapply IH; [by eapply jsval_size_field|done].
Qed.

Lemma eval_has_Err env m x s e : eval_has x s = Err e → eval_error env m e.
Proof.
  unfold eval_has. intros H. repeat (case_match; simplify_eq/=).
  apply bind_Err in H as [H|(? & _ & H)]; [by eapply billingString_Err|done].
Qed.

Lemma eval_param_Err env sp args pos p e :
  eval_param env pos p = Err e → eval_error env (ECall sp Fparam args) e.
Proof.
  unfold eval_param. intros H. case_match; [|by_missing].
  apply bind_Err in H as [H|(? & _ & H)]; [by eapply readRequestPath_Err|done].
Qed.

Lemma eval_header_Err env sp args pos p e :
  eval_header env pos p = Err e → eval_error env (ECall sp Fheader args) e.
Proof. unfold eval_header. intros H. case_match; [done|by_missing]. Qed.

Lemma eval_usage_Err env sp args pos p e :
  eval_usage env pos p = Err e → eval_error env (ECall sp Fu args) e.
Proof. unfold eval_usage. intros H. case_match; [done|by_missing]. Qed.

Create HintDb eval_errors.
#[local] Hint Resolve as_boolean_Err as_numeric_Err as_string_Err binary_values_Err
  read_variable_Err eval_time_Err eval_has_Err eval_param_Err eval_header_Err
  eval_usage_Err : eval_errors.

(** Read a failed [eval_node] backwards to the call that failed. *)
Ltac inv_err :=
  repeat match goal with
  | H : Ok _ = Err _ |- _ => discriminate H
  | H : (let '(_, _) := ?p in _) = Err _ |- _ => destruct p
  | H : (if ?b then _ else _) = Err _ |- _ => lazymatch type of b with bool => destruct b end
  | H : mbind _ _ = Err _ |- _ =>
      apply bind_Err in H;
      let x := fresh "r" in destruct H as [H|(x & _ & H)]
  end.

Lemma eval_node_Err env rec n st e :
  eval_node env rec n st = Err e →
  (∃ c st0, c ∈ children n ∧ rec c st0 = Err e) ∨ eval_error env n e.
Proof.
  intros H.
  destruct n as [sp v0|sp v0|sp f [|a args]|sp o a|sp o a b|sp c y n]; cbn in H |- *.
  - done.
  - inv_err. eauto with eval_errors.
  - right. injection H as <-. apply error_arity. by destruct f.
  - destruct f; inv_err; eauto with eval_errors;
      try (left; do 2 eexists; split; [|eassumption]; set_solver);
      (destruct args as [|second args];
       [right; injection H as <-; by apply error_arity|]);
      inv_err; eauto with eval_errors; left; do 2 eexists; (split; [|eassumption]); set_solver.
  - destruct o; inv_err; eauto with eval_errors;
      left; do 2 eexists; (split; [|eassumption]); set_solver.
  - destruct o; inv_err; eauto with eval_errors;
      left; do 2 eexists; (split; [|eassumption]); set_solver.
  - inv_err; eauto with eval_errors;
      left; do 2 eexists; (split; [|eassumption]); set_solver.
Qed.

Lemma evaluate_Err env n : ∀ d st e,
  evaluate env d n st = Err e →
  (e = depth_error ∧ 256 ≤ d + height n) ∨ ∃ m, subnode m n ∧ eval_error env m e.
Proof.
  induction n as [n IH] using node_rec_children. intros d st e H.
  rewrite evaluate_eq in H. destruct (Nat.ltb_spec 256 (S d)) as [Hd|Hd].
  { left. injection H as <-. split; [done|lia]. }
  apply bind_Err in H as [H|([v st'] & _ & H)].
  - apply eval_node_Err in H as [(c & st0 & Hc & H)|H]; [|eauto with billing].
    rewrite Forall_forall in IH. pose proof (height_child _ _ Hc).
    apply (IH c Hc) in H as [[-> ?]|(m & Hm & He)]; [left; split; [done|lia]|].
    right. exists m. split; [by econstructor|done].
  - apply bind_Err in H as [H|(? & _ & H)]; [|done].
    right. exists n. split; [constructor|by eapply check_value_Err].
Qed.

(** ** Only the named parts of the context matter *)

(** The two environments give node [m] itself the same inputs. *)
Definition agree_at (env env' : renv) (m : node) : Prop :=
  match m with
  | EVar _ Vimage_count => imageCount (context env) = imageCount (context env')
  | EVar _ v => own (tokens (context env)) (bvar_text v) = own (tokens (context env')) (bvar_text v)
  | ECall _ Fparam _ => request (context env) = request (context env')
  | ECall _ Fheader _ =>
      request (context env) = request (context env') ∧ headers env = headers env'
  | ECall _ Fu _ => usage (context env) = usage (context env')
  | ECall _ (Ftime _) _ => env_now env = env_now env'
  | _ => True
  end.

Lemma read_variable_agree env env' sp v pos :
  agree_at env env' (EVar sp v) →
  read_variable (context env) pos v = read_variable (context env') pos v.
Proof. intros H. destruct v; cbn in *; by rewrite H. Qed.

Lemma eval_node_agree env env' rec n st :
  c_requestRules (compiled env) = c_requestRules (compiled env') →
  agree_at env env' n → eval_node env rec n st = eval_node env' rec n st.
Proof.
  intros Hr Ha. destruct n as [sp v0|sp v0|sp f [|a args]|sp o a|sp o a b|sp c y n]; cbn; try done.
  - by rewrite (read_variable_agree _ _ _ _ _ Ha).
  - destruct f; cbn in Ha; try done.
    all: destruct (rec a st ≫= as_string a) as [[z s]|e]; cbn; [|done].
    + unfold eval_param. by rewrite Ha.
    + unfold eval_header. destruct Ha as [-> ->]. done.
    + unfold eval_usage. by rewrite Ha.
    + unfold eval_time. by rewrite Ha.
  - destruct (rec c st ≫= as_boolean c) as [[b s]|e]; cbn; [|done].
    unfold trace_rule. by rewrite Hr.
Qed.

Lemma eval_node_ext env rec rec' n st :
  (∀ c s, c ∈ children n → rec c s = rec' c s) → eval_node env rec n st = eval_node env rec' n st.
Proof.
  intros H.
  assert (Hb : ∀ {A B} (r r' : result exn A) (f f' : A → result exn B),
    r = r' → (∀ a, f a = f' a) → (r ≫= f) = (r' ≫= f')).
  { intros A B r r' f f' -> Hf. destruct r'; cbn; auto. }
  destruct n as [sp v0|sp v0|sp f [|a args]|sp o a|sp o a b|sp c y n]; cbn; try done; cbn in H.
  - destruct f; try (apply Hb; [by rewrite H by set_solver|]); intros p; try done;
      destruct p; try (destruct args as [|second args]; [done|]);
      repeat match goal with p : _ * _ |- _ => destruct p end;
      (apply Hb; [by rewrite H by set_solver|done]).
  - destruct o; (apply Hb; [by rewrite H by set_solver|done]).
  - destruct o; (apply Hb; [by rewrite H by set_solver|]); intros [x s]; try done;
      try (destruct x; [|done]); try (destruct x; [done|]);
      (apply Hb; [by rewrite H by set_solver|done]).
  - apply Hb; [by rewrite H by set_solver|]. intros [[] s]; apply H; set_solver.
Qed.

Lemma evaluate_agree env env' n : ∀ d st,
  c_requestRules (compiled env) = c_requestRules (compiled env') →
  (∀ m, subnode m n → agree_at env env' m) →
  evaluate env d n st = evaluate env' d n st.
Proof.
  induction n as [n IH] using node_rec_children. intros d st Hr Ha.
  rewrite !evaluate_eq. case_match; [done|].
  rewrite (eval_node_agree env env') by (eauto with billing).
  rewrite (eval_node_ext env' (evaluate env (S d)) (evaluate env' (S d))); [done|].
  rewrite Forall_forall in IH. intros c s Hc. apply IH; [done..|].
  intros m Hm. apply Ha. by econstructor.
Qed.
End facts.
