(* ===== verification/EvalFacts.v ===== *)
(** * Facts about evaluation

    The calendar of the clock without a time zone, what the value of an
    evaluation does not depend on, and the single tier that a fixed price
    settles on. *)
From stdpp Require Import base list option numbers sets relations.
From Stdlib Require Import ZArith Lia SpecFloat.
From S2P Require Import Prelude.
From S2P Require Import JsString.
From S2P Require Import JsNumber.
From S2P Require Import Syntax.
From S2P Require Import Parser.
From S2P Require Import ParserFacts.
From S2P Require Import Compile.
From S2P Require Import Runtime.
From S2P Require Import CompileFacts.
From S2P Require Import RuntimeFacts.

(** ** The UTC fallback clock

    [timeInBillingZone] reads UTC fields of a [Date] when no time zone
    applies.  The day arithmetic follows the Gregorian calendar: consecutive
    day numbers are consecutive calendar days from 1970-01-01 on, and every
    field stays in its domain. *)

Local Open Scope Z_scope.

(** ** Reference calendar *)

Definition is_leap (y : Z) : bool :=
  (y mod 4 =? 0) && (negb (y mod 100 =? 0) || (y mod 400 =? 0)).

Definition days_in_month (y m : Z) : Z :=
  if m =? 2 then (if is_leap y then 29 else 28)
  else if (m =? 4) || (m =? 6) || (m =? 9) || (m =? 11) then 30 else 31.

(** The calendar day after [(y, m, d)]. *)
Definition next_day (ymd : Z * Z * Z) : Z * Z * Z :=
  let '(y, m, d) := ymd in
  if d <? days_in_month y m then (y, m, d + 1)
  else if m <? 12 then (y, m + 1, 1)
  else (y + 1, 1, 1).

Definition valid_day (ymd : Z * Z * Z) : bool :=
  let '(y, m, d) := ymd in (1 <=? m) && (m <=? 12) && (1 <=? d) && (d <=? days_in_month y m).

(** ** One 400-year era

    Years of an era start on 1 March, so the leap day is the last day. *)

Definition yoe (doe : Z) : Z := (doe - doe / 1460 + doe / 36524 - doe / 146096) / 365.
(** Days of the era before year [y], and the length of year [y]. *)
Definition before (y : Z) : Z := 365 * y + y / 4 - y / 100.
Definition year_length (y : Z) : Z := if is_leap (y + 1) then 366 else 365.

Lemma is_leap_cases y :
  if is_leap y then y mod 4 = 0 ∧ (y mod 100 ≠ 0 ∨ y mod 400 = 0)
  else y mod 4 ≠ 0 ∨ y mod 100 = 0 ∧ y mod 400 ≠ 0.
Proof.
  unfold is_leap. destruct (Z.eqb_spec (y mod 4) 0), (Z.eqb_spec (y mod 100) 0),
    (Z.eqb_spec (y mod 400) 0); cbn; auto.
Qed.

Lemma yoe_bounds doe : 0 ≤ doe < 146097 → 0 ≤ yoe doe ≤ 399 ∧ 0 ≤ doe - before (yoe doe) ≤ 365.
Proof. intros H. unfold before, yoe. Z.div_mod_to_equations. lia. Qed.

Lemma before_succ y : 0 ≤ y < 399 → before (y + 1) = before y + year_length y.
Proof.
  intros H. unfold year_length, before. pose proof (is_leap_cases (y + 1)).
  destruct (is_leap (y + 1)); Z.div_mod_to_equations; lia.
Qed.

Lemma before_mono y y' : y ≤ y' → before y ≤ before y'.
Proof. intros H. unfold before. Z.div_mod_to_equations. lia. Qed.

(** A 366th day exists in leap years only. *)
Lemma last_day_leap doe :
  0 ≤ doe < 146097 → doe - before (yoe doe) = 365 → is_leap (yoe doe + 1) = true.
Proof.
  intros H E. pose proof (yoe_bounds doe H) as [Hy _].
  destruct (Z.eq_dec (yoe doe) 399) as [->|Hne]; [done|].
  assert ((yoe doe + 1) mod 4 = 0) by (clear Hy; unfold before, yoe in *; Z.div_mod_to_equations; lia).
  assert ((yoe doe + 1) mod 100 ≠ 0) by (clear Hy H0; unfold before, yoe in *; Z.div_mod_to_equations; lia).
  pose proof (is_leap_cases (yoe doe + 1)) as Hl. destruct (is_leap _); [done|]. lia.
Qed.

Definition in_year (doe y : Z) : Prop := 0 ≤ y ≤ 399 ∧ before y ≤ doe < before y + year_length y.

Lemma yoe_in_year doe : 0 ≤ doe < 146097 → in_year doe (yoe doe).
Proof.
  intros H. pose proof (yoe_bounds doe H) as [Hy Hd]. split; [done|]. split; [lia|].
  unfold year_length. destruct (Z.eq_dec (doe - before (yoe doe)) 365) as [E|E].
  - rewrite (last_day_leap doe H E). lia.
  - destruct (is_leap _); lia.
Qed.

Lemma in_year_unique doe y y' : in_year doe y → in_year doe y' → y = y'.
Proof.
  intros [Hy Hd] [Hy' Hd']. destruct (Z.lt_trichotomy y y') as [H|[->|H]]; [|done|]; exfalso.
  - pose proof (before_mono (y + 1) y' ltac:(lia)). pose proof (before_succ y ltac:(lia)). lia.
  - pose proof (before_mono (y' + 1) y ltac:(lia)). pose proof (before_succ y' ltac:(lia)). lia.
Qed.

(** Month and day of a day of the year. *)
Definition month_day (doy : Z) : Z * Z :=
  let mp := (5 * doy + 2) / 153 in
  (if mp <? 10 then mp + 3 else mp - 9, doy - (153 * mp + 2) / 5 + 1).

Definition dated (y doy : Z) : Z * Z * Z :=
  let '(m, d) := month_day doy in (y + (if m <=? 2 then 1 else 0), m, d).

(** The date of day [doe] of the era that starts on 0000-03-01. *)
Definition era_day (doe : Z) : Z * Z * Z := civil_from_days (doe - 719468).

Lemma era_day_dated doe : 0 ≤ doe < 146097 → era_day doe = dated (yoe doe) (doe - before (yoe doe)).
Proof.
  intros H. unfold era_day, civil_from_days, dated, month_day.
  replace (doe - 719468 + 719468) with doe by lia.
  rewrite (Z.div_small doe), (Z.mod_small doe) by lia. fold (yoe doe). fold (before (yoe doe)).
  f_equal. f_equal. lia.
Qed.

(** The days of a year before 28 February, by computation. *)
Definition month_day_step (doy : Z) : bool :=
  let '(m, d) := month_day doy in
  let '(m', d') := month_day (doy + 1) in
  let long := if (m =? 4) || (m =? 6) || (m =? 9) || (m =? 11) then 30 else 31 in
  (1 <=? m) && (m <=? 12) && (1 <=? d) &&
  if m =? 2 then (d <? 28) && (m' =? 2) && (d' =? d + 1)
  else (d <=? long) &&
    if d <? long then (m' =? m) && (d' =? d + 1)
    else if m <? 12 then (m' =? m + 1) && (d' =? 1)
    else (m' =? 1) && (d' =? 1).

Lemma month_day_checked : forallb (λ n, month_day_step (Z.of_nat n)) (seq 0 364) = true.
Proof. vm_compute. reflexivity. Qed.

Lemma month_day_ok doy : 0 ≤ doy ≤ 363 → month_day_step doy = true.
Proof.
  intros H. pose proof month_day_checked as Hc. rewrite forallb_forall in Hc.
  rewrite <- (Z2Nat.id doy) by lia. apply Hc, in_seq. lia.
Qed.

Lemma dated_ordinary y doy : 0 ≤ doy ≤ 363 →
  valid_day (dated y doy) = true ∧ next_day (dated y doy) = dated y (doy + 1).
Proof.
  intros H%month_day_ok. unfold month_day_step in H. unfold dated.
  destruct (month_day doy) as [m d], (month_day (doy + 1)) as [m' d'].
  cbn [valid_day next_day]. unfold days_in_month.
  destruct (Z.eqb_spec m 2) as [->|Hm]; bools.
  - assert (Hd : d < (if is_leap (y + (if 2 <=? 2 then 1 else 0)) then 29 else 28)) by (destruct (is_leap _); lia).
    subst m' d'. split.
    + apply andb_true_iff. split; [|apply Z.leb_le; lia]. cbn. by apply Z.leb_le.
    + by rewrite (proj2 (Z.ltb_lt _ _) Hd).
  - set (long := if (m =? 4) || (m =? 6) || (m =? 9) || (m =? 11) then 30 else 31) in *. split.
    + repeat (apply andb_true_iff; split); by apply Z.leb_le.
    + destruct (Z.ltb_spec d long).
      * bools. by subst.
      * destruct (Z.ltb_spec m 12); bools; subst.
        -- f_equal. f_equal. destruct (Z.leb_spec m 2), (Z.leb_spec (m + 1) 2); lia.
        -- assert (m = 12) as -> by lia. f_equal. f_equal. cbn. lia.
Qed.

(** The last day or two of a year. *)
Lemma dated_last y doy :
  doy = 364 ∨ doy = 365 ∧ is_leap (y + 1) = true →
  valid_day (dated y doy) = true ∧
  next_day (dated y doy) = if doy + 1 <? year_length y then dated y (doy + 1) else dated (y + 1) 0.
Proof.
  assert (H0 : dated (y + 1) 0 = (y + 1, 3, 1)) by (unfold dated; cbn -[Z.add]; by rewrite Z.add_0_r).
  unfold year_length. intros [->|[-> Hl]].
  - change (dated y 364) with (y + 1, 2, 28). change (dated y (364 + 1)) with (y + 1, 2, 29).
    cbn [valid_day next_day]. unfold days_in_month. cbn [Z.eqb Pos.eqb]. rewrite H0.
    by destruct (is_leap (y + 1)).
  - change (dated y 365) with (y + 1, 2, 29).
    cbn [valid_day next_day]. unfold days_in_month. cbn [Z.eqb Pos.eqb]. by rewrite Hl, H0.
Qed.

Lemma era_next doe : 0 ≤ doe < 146097 →
  valid_day (era_day doe) = true ∧ next_day (era_day doe) = era_day (doe + 1).
Proof.
  intros H. rewrite era_day_dated by done. pose proof (yoe_in_year doe H) as [Hy [H1 H2]].
  set (y := yoe doe) in *. set (doy := doe - before y).
  assert (Hnext : ∀ y', 0 ≤ doe + 1 < 146097 → in_year (doe + 1) y' →
    era_day (doe + 1) = dated y' (doe + 1 - before y')).
  { intros y' Hd Hin. rewrite era_day_dated by done.
    by rewrite (in_year_unique _ _ _ (yoe_in_year _ Hd) Hin). }
  assert (Hcases : (0 ≤ doy ≤ 363) ∨ doy = 364 ∨ doy = 365 ∧ is_leap (y + 1) = true).
  { unfold year_length in H2. destruct (is_leap (y + 1)); lia. }
  assert (Hstep : next_day (dated y doy) =
      if doy + 1 <? year_length y then dated y (doy + 1) else dated (y + 1) 0).
  { destruct Hcases as [Hc|Hc]; [|by apply dated_last].
    destruct (dated_ordinary y doy Hc) as [_ ->].
    rewrite (proj2 (Z.ltb_lt _ _)); [done|]. unfold year_length. destruct (is_leap _); lia. }
  assert (H399 : before 399 = 145731) by done.
  assert (Hlast : y = 399 → before y = 145731 ∧ year_length y = 366) by (by intros ->).
  split. { destruct Hcases as [Hc|Hc]; [by apply dated_ordinary|by apply dated_last]. }
  rewrite Hstep. destruct (Z.ltb_spec (doy + 1) (year_length y)) as [Hlt|Hge]; unfold doy in *.
  - rewrite (Hnext y); [f_equal; lia| |split; [done|lia]].
    pose proof (before_mono y 399 ltac:(lia)). split; [lia|].
    destruct (Z.eq_dec y 399) as [E|]; [lia|].
    pose proof (before_mono (y + 1) 399 ltac:(lia)). pose proof (before_succ y ltac:(lia)). lia.
  - destruct (Z.eq_dec y 399) as [E|Hne].
    + assert (doe = 146096) as -> by lia. by rewrite E.
    + pose proof (before_succ y ltac:(lia)) as Hs. rewrite (Hnext (y + 1)); [f_equal; lia| |].
      * pose proof (before_mono (y + 1) 399 ltac:(lia)). lia.
      * assert (365 ≤ year_length (y + 1)) by (unfold year_length; destruct (is_leap (y + 1 + 1)); lia).
        split; lia.
Qed.

Definition add_years (k : Z) (ymd : Z * Z * Z) : Z * Z * Z :=
  let '(y, m, d) := ymd in (y + k, m, d).

(** ** Eras repeat *)

Lemma civil_shift days k : civil_from_days (days + k * 146097) = add_years (400 * k) (civil_from_days days).
Proof.
  unfold civil_from_days, add_years.
  replace (days + k * 146097 + 719468) with (days + 719468 + k * 146097) by lia.
  rewrite Z.div_add, Z.mod_add by lia.
  set (doe := (days + 719468) mod 146097). set (era := (days + 719468) / 146097).
  f_equal. f_equal. lia.
Qed.

Lemma is_leap_shift y k : is_leap (y + 400 * k) = is_leap y.
Proof.
  unfold is_leap.
  replace (y + 400 * k) with (y + (100 * k) * 4) at 1 by lia. rewrite Z.mod_add by lia.
  replace (y + 400 * k) with (y + (4 * k) * 100) at 1 by lia. rewrite Z.mod_add by lia.
  replace (y + 400 * k) with (y + k * 400) by lia. by rewrite Z.mod_add by lia.
Qed.

Lemma next_day_shift k ymd : next_day (add_years (400 * k) ymd) = add_years (400 * k) (next_day ymd).
Proof.
  destruct ymd as [[y m] d]. cbn. unfold days_in_month. rewrite is_leap_shift.
  destruct (_ <? _); [done|]. destruct (_ <? _); [done|]. cbn. do 2 f_equal. lia.
Qed.

Lemma valid_day_shift k ymd : valid_day (add_years (400 * k) ymd) = valid_day ymd.
Proof. destruct ymd as [[y m] d]. cbn. unfold days_in_month. by rewrite is_leap_shift. Qed.

(** Every day is a day of the first era moved by whole eras. *)
Lemma civil_era days : ∃ doe k, 0 ≤ doe < 146097 ∧
  civil_from_days days = add_years (400 * k) (era_day doe) ∧
  civil_from_days (days + 1) = add_years (400 * k) (era_day (doe + 1)).
Proof.
  exists ((days + 719468) mod 146097), ((days + 719468) / 146097).
  pose proof (Z.mod_pos_bound (days + 719468) 146097 ltac:(lia)) as Hb.
  pose proof (Z.div_mod (days + 719468) 146097 ltac:(lia)) as Hd.
  split; [done|]. unfold era_day. rewrite <- !civil_shift. split; f_equal; lia.
Qed.

Lemma civil_successor days : civil_from_days (days + 1) = next_day (civil_from_days days).
Proof.
  destruct (civil_era days) as (doe & k & Hb & -> & ->).
  by rewrite next_day_shift, (proj2 (era_next doe Hb)).
Qed.

Lemma civil_valid days : valid_day (civil_from_days days) = true.
Proof.
  destruct (civil_era days) as (doe & k & Hb & -> & _). rewrite valid_day_shift.
  by apply era_next.
Qed.

Lemma civil_epoch : civil_from_days 0 = (1970, 1, 1).
Proof. reflexivity. Qed.

(** ** Fields *)

Definition field_domain (f : timefn) : Z * Z :=
  match f with
  | Hour => (0, 23) | Minute => (0, 59) | Weekday => (0, 6) | Month => (1, 12) | Day => (1, 31)
  end.

Lemma utc_field_domain t f : (field_domain f).1 ≤ utc_field t f ≤ (field_domain f).2.
Proof.
  unfold utc_field. pose proof (civil_valid (t / 86400000)) as Hv.
  destruct (civil_from_days (t / 86400000)) as [[y m] d]. cbn in Hv. bools.
  assert (days_in_month y m ≤ 31).
  { unfold days_in_month. destruct (m =? 2); [by destruct (is_leap y)|]. by destruct (_ || _). }
  destruct f; cbn; try lia;
    match goal with |- context [?a mod ?b] => pose proof (Z.mod_pos_bound a b ltac:(lia)); lia end.
Qed.

Local Close Scope Z_scope.

(** ** What a value does not depend on

    The value of a successful evaluation does not depend on the interpreter
    state (recorded tier, rule trace, cached time fields), nor on the depth
    at which the expression occurs. *)

Section invariance.
Context {host : Host}.

(** ** Interpreter state *)

(** Same value or same exception, and both final caches are sound. *)
Definition same_outcome {A} (env : renv) (r1 r2 : result exn (A * rstate)) : Prop :=
  match r1, r2 with
  | Ok (v1, s1), Ok (v2, s2) => v1 = v2 ∧ times_ok env s1 ∧ times_ok env s2
  | Err e1, Err e2 => e1 = e2
  | _, _ => False
  end.

Lemma same_outcome_bind {A B} env (r1 r2 : result exn (A * rstate))
    (f g : A * rstate → result exn (B * rstate)) :
  same_outcome env r1 r2 →
  (∀ v s1 s2, times_ok env s1 → times_ok env s2 → same_outcome env (f (v, s1)) (g (v, s2))) →
  same_outcome env (r1 ≫= f) (r2 ≫= g).
Proof.
  intros H Hf. destruct r1 as [[v1 s1]|], r2 as [[v2 s2]|]; try done; cbn in *.
  destruct H as (-> & H1 & H2). auto.
Qed.

Lemma same_outcome_pure {A} env (r : result exn A) s1 s2 :
  times_ok env s1 → times_ok env s2 →
  same_outcome env (x ← r; Ok (x, s1)) (x ← r; Ok (x, s2)).
Proof. by destruct r. Qed.

Lemma same_as_boolean env n v s1 s2 : times_ok env s1 → times_ok env s2 →
  same_outcome env (as_boolean n (v, s1)) (as_boolean n (v, s2)).
Proof. unfold as_boolean. cbn. by destruct (value v). Qed.
Lemma same_as_numeric env n v s1 s2 : times_ok env s1 → times_ok env s2 →
  same_outcome env (as_numeric n (v, s1)) (as_numeric n (v, s2)).
Proof. unfold as_numeric. cbn. by destruct (value v). Qed.
Lemma same_as_string env n v s1 s2 : times_ok env s1 → times_ok env s2 →
  same_outcome env (as_string n (v, s1)) (as_string n (v, s2)).
Proof. unfold as_string. cbn. by destruct (value v). Qed.

Lemma times_ok_add env zone fields st :
  times_ok env st → timeInBillingZone (env_now env) zone = Ok fields →
  times_ok env (add_time zone fields st).
Proof.
  intros Ht Hz w g. cbn. rewrite time_get_app. destruct (time_get (timeValues st) w) eqn:E.
  - intros. simplify_eq. by apply Ht.
  - cbn. destruct (jseq zone w) eqn:Ew; [|done]. apply jseq_eq in Ew as ->. by intros [= <-].
Qed.

Lemma same_eval_time env f z s1 s2 : times_ok env s1 → times_ok env s2 →
  same_outcome env (eval_time env f z s1) (eval_time env f z s2).
Proof.
  intros H1 H2. unfold eval_time.
  destruct (time_get (timeValues s1) (trim z)) as [v1|] eqn:E1,
           (time_get (timeValues s2) (trim z)) as [v2|] eqn:E2; cbn.
  - apply H1 in E1. apply H2 in E2. rewrite E1 in E2. by injection E2 as ->.
  - rewrite (H1 _ _ E1). cbn. conjs; [done|done|]. apply times_ok_add; [done|by apply H1].
  - rewrite (H2 _ _ E2). cbn. conjs; [done| |done]. apply times_ok_add; [done|by apply H2].
  - destruct (timeInBillingZone (env_now env) (trim z)) eqn:E; cbn; [|done].
    conjs; [done|by apply times_ok_add..].
Qed.

Lemma trace_rule_times env n b st : times_ok env st → times_ok env (trace_rule env n b st).
Proof. unfold trace_rule. by destruct (find_index _ _), b. Qed.

#[local] Hint Resolve same_as_boolean same_as_numeric same_as_string same_eval_time
  same_outcome_pure trace_rule_times : billing.

(** [eval_node] preserves the relation of its recursive calls. *)
Lemma eval_node_same env rec n s1 s2 :
  (∀ c t1 t2, c ∈ children n → times_ok env t1 → times_ok env t2 →
     same_outcome env (rec c t1) (rec c t2)) →
  times_ok env s1 → times_ok env s2 →
  same_outcome env (eval_node env rec n s1) (eval_node env rec n s2).
Proof.
  intros Hrec H1 H2.
  assert (Hb : ∀ c t1 t2, c ∈ children n → times_ok env t1 → times_ok env t2 →
    same_outcome env (rec c t1 ≫= as_boolean c) (rec c t2 ≫= as_boolean c))
    by (intros; apply same_outcome_bind; auto with billing).
  assert (Hn : ∀ c t1 t2, c ∈ children n → times_ok env t1 → times_ok env t2 →
    same_outcome env (rec c t1 ≫= as_numeric c) (rec c t2 ≫= as_numeric c))
    by (intros; apply same_outcome_bind; auto with billing).
  assert (Hs : ∀ c t1 t2, c ∈ children n → times_ok env t1 → times_ok env t2 →
    same_outcome env (rec c t1 ≫= as_string c) (rec c t2 ≫= as_string c))
    by (intros; apply same_outcome_bind; auto with billing).
  destruct n as [sp v0|sp v0|sp f [|a args]|sp o a|sp o a b|sp c y n];
    cbn -[mbind] in *; auto with billing; try done.
  - destruct f; (apply same_outcome_bind; [first [apply Hn|apply Hs|apply Hrec]; [set_solver|done..]|]);
      intros v t1 t2 Ht1 Ht2; auto with billing; try (destruct v; by conjs);
      try destruct v as [x0 i0]; (destruct args as [|second args]; [done|]);
      (apply same_outcome_bind; [first [apply Hn|apply Hs]; [set_solver|done..]|]);
      intros w u1 u2 Hu1 Hu2; auto with billing; try (destruct w; by conjs); by conjs.
  - destruct o; (apply same_outcome_bind; [first [apply Hb|apply Hn]; [set_solver|done..]|]);
      intros v t1 t2 Ht1 Ht2; try destruct v; by conjs.
  - destruct o; (apply same_outcome_bind; [first [apply Hb; [set_solver|done..]|apply Hrec; [set_solver|done..]]|]);
      intros v t1 t2 Ht1 Ht2; try (destruct v; [by conjs|]); try (destruct v; [|by conjs]);
      (apply same_outcome_bind; [first [apply Hb; [set_solver|done..]|apply Hrec; [set_solver|done..]]|]);
      intros w u1 u2 Hu1 Hu2; auto with billing; by conjs.
  - apply same_outcome_bind; [apply Hb; [set_solver|done..]|]. intros v t1 t2 Ht1 Ht2. cbn.
    destruct v; apply Hrec; auto with billing; set_solver.
Qed.

Lemma evaluate_same env n : ∀ d s1 s2,
  times_ok env s1 → times_ok env s2 →
  same_outcome env (evaluate env d n s1) (evaluate env d n s2).
Proof.
  induction n as [n IH] using node_rec_children. intros d s1 s2 H1 H2.
  rewrite !evaluate_eq. case_match; [done|]. rewrite Forall_forall in IH.
  apply same_outcome_bind; [apply eval_node_same; auto|].
  intros v t1 t2 Ht1 Ht2. auto with billing.
Qed.

(** ** Depth *)

Definition returns_more {A} (r r' : result exn A) : Prop := ∀ a, r = Ok a → r' = Ok a.

Lemma returns_more_bind {A B} (r r' : result exn A) (f g : A → result exn B) :
  returns_more r r' → (∀ a, returns_more (f a) (g a)) → returns_more (r ≫= f) (r' ≫= g).
Proof.
  intros H Hf b Hb. apply bind_Ok in Hb as (a & Ha & Hb).
  rewrite (H _ Ha). cbn. by apply Hf.
Qed.

Lemma returns_more_refl {A} (r : result exn A) : returns_more r r.
Proof. by intros a. Qed.

#[local] Hint Resolve returns_more_bind returns_more_refl : billing.

Lemma eval_node_more env rec rec' n st :
  (∀ c s, c ∈ children n → returns_more (rec c s) (rec' c s)) →
  returns_more (eval_node env rec n st) (eval_node env rec' n st).
Proof.
  intros H.
  assert (Hk : ∀ {A} c s (k : RuntimeValue * rstate → result exn A), c ∈ children n →
    returns_more (rec c s ≫= k) (rec' c s ≫= k)) by (intros; auto with billing).
  destruct n as [sp v0|sp v0|sp f [|a args]|sp o a|sp o a b|sp c y n]; cbn -[mbind] in *;
    auto with billing.
  - destruct f; (apply returns_more_bind; [first [apply Hk; set_solver|apply H; set_solver]|]);
      intros v; auto with billing; repeat match goal with p : _ * _ |- _ => destruct p end;
      auto with billing; (destruct args as [|second args]; [auto with billing|]);
      (apply returns_more_bind; [apply Hk; set_solver|]); auto with billing.
  - destruct o; (apply returns_more_bind; [apply Hk; set_solver|]); auto with billing.
  - destruct o; (apply returns_more_bind; [first [apply Hk; set_solver|apply H; set_solver]|]);
      intros [v s]; auto with billing; try (destruct v; auto with billing; []);
      (apply returns_more_bind; [first [apply Hk; set_solver|apply H; set_solver]|]); auto with billing.
  - apply returns_more_bind; [apply Hk; set_solver|]. intros [[] s]; apply H; set_solver.
Qed.

Lemma evaluate_depth env n : ∀ d d' st,
  d' ≤ d → returns_more (evaluate env d n st) (evaluate env d' n st).
Proof.
  induction n as [n IH] using node_rec_children. intros d d' st Hd.
  rewrite !evaluate_eq. destruct (Nat.ltb_spec 256 (S d)); [by intros a|].
  destruct (Nat.ltb_spec 256 (S d')); [lia|]. rewrite Forall_forall in IH.
  apply returns_more_bind; [|auto with billing].
  apply eval_node_more. intros c s Hc. apply IH; [done|lia].
Qed.
(** ** The values of a run *)

(** The value a node has in a run, where it has one. *)
Definition value_in (t : date) (c : CompiledBillingExpression) (ctx : BillingSimulationContext) (m : node) : option jsval :=
  match '(env, st) ← new_runtime t c ctx; evaluate env 0 m st with
  | Ok (v, _) => Some (value v)
  | Err _ => None
  end.

Lemma value_in_run t c ctx env st0 m d st r st' :
  new_runtime t c ctx = Ok (env, st0) → times_ok env st0 → times_ok env st →
  evaluate env d m st = Ok (r, st') → value_in t c ctx m = Some (value r).
Proof.
  intros Hn H0 Ht H. unfold value_in. rewrite Hn. cbn.
  pose proof (evaluate_same env m d st st0 Ht H0) as Hs. rewrite H in Hs. cbn in Hs.
  destruct (evaluate env d m st0) as [[v s]|e] eqn:E; [|done]. destruct Hs as [<- _].
  apply (evaluate_depth env m d 0 st0) in E; [|lia]. by rewrite E.
Qed.

Lemma new_runtime_times t c ctx env st : new_runtime t c ctx = Ok (env, st) → times_ok env st.
Proof. unfold new_runtime. intros H. apply bind_Ok in H as (hs & _ & [= <- <-]). by intros w g. Qed.

(** A run marks the rules that are evaluated and whose condition holds. *)
Lemma run_marks t c ctx env st d v st' :
  new_runtime t c ctx = Ok (env, st) → compiled env = c → evaluate env d (c_ast c) st = Ok (v, st') →
  marks (fires (value_in t c ctx) (c_requestRules c) (c_ast c)) st st'.
Proof.
  intros Hn <- He. pose proof (new_runtime_times _ _ _ _ _ Hn) as T. eapply evaluate_marks; [|done|exact He].
  intros m d' s r s' Ts Hr. by eapply value_in_run.
Qed.
End invariance.

(** ** Fixed prices

    An expression that uses [fixed] passes [validateFixedPricingTree], which
    makes it a tree of conditions and scalings over tier leaves.  Evaluating
    such a tree commits to exactly one leaf: the recorded tier, billing unit
    and fixed price are those of that leaf. *)

Section fixed.
Context {host : Host}.

Lemma containsPricingMarker_false n :
  containsPricingMarker n = Ok false → marker_free n.
Proof.
  unfold containsPricingMarker. intros H. apply bind_Ok in H as ([vs calls] & Hd & H).
  pose proof (visitExpression_height _ _ _ _ Hd) as Hh.
  destruct (expressionDependencies_spec n Hh) as (vs' & fs' & Hd' & _ & Hf).
  rewrite Hd in Hd'. simplify_eq/=. apply orb_false_iff in H as [H H0].
  intros sp f args Hs. split; intros ->.
  - rewrite bool_decide_eq_false in H. apply H, Hf. eauto.
  - rewrite bool_decide_eq_false in H0. apply H0, Hf. eauto.
Qed.

Lemma marker_free_leaf n : children n = [] → (∀ sp f args, n ≠ ECall sp f args) → marker_free n.
Proof.
  intros Hc Hn sp f args Hs. inversion Hs as [|? c Hin]; subst; [by destruct (Hn sp f args)|].
  rewrite Hc in Hin. set_solver.
Qed.

Lemma scaling_factor_marker_free source ast rules factor :
  Forall (rule_ok source ast) rules →
  is_scaling_factor rules factor = Ok true → marker_free factor.
Proof.
  intros Hrules H. unfold is_scaling_factor in H.
  destruct (find_rule rules factor) as [rule|] eqn:Hf.
  2: { destruct factor as [|? []| | | |]; try done; by apply marker_free_leaf. }
  assert (Hcases : (∃ sp, factor = EVar sp Vimage_count) ∨
    containsPricingMarker (rule_condition rule) = Ok false).
  { destruct factor as [|? []| | | |]; eauto; right;
      (destruct (nleb NZERO (rule_multiplier rule)); [|done]);
      apply bind_Ok in H as ([] & Hm & H); done. }
  destruct Hcases as [[sp ->]|Hm]; [by apply marker_free_leaf|].
  apply containsPricingMarker_false in Hm.
  unfold find_rule in Hf. apply find_some in Hf as [Hin Heq].
  apply node_eqb_eq in Heq. rewrite Forall_forall in Hrules.
  apply list_elem_of_In, Hrules in Hin as (_ & sp & spy & spn & i & f & j & Hnode & _).
  rewrite Hnode in Heq. subst factor.
  intros sp' f' args' Hs. inversion Hs as [|? c Hc Hs']; subst. cbn in Hc.
  apply elem_of_cons in Hc as [->|Hc]; [by eapply Hm|].
  apply elem_of_cons in Hc as [->|Hc].
  - exfalso. inversion Hs' as [|? c' Hc']; subst. cbn in Hc'. set_solver.
  - apply list_elem_of_singleton in Hc as ->.
    exfalso. inversion Hs' as [|? c' Hc']; subst. cbn in Hc'. set_solver.
Qed.

(** The leaf a run of [n] from [st] to [st'] committed to. *)
Definition committed (env : renv) (n : node) (st st' : rstate) : Prop :=
  ∃ sp label price,
    subnode (ECall sp Ftier [label; price]) n ∧
    (∃ d s0 i s1, evaluate env d label s0 = Ok (RV (JStr (matchedTier st')) i, s1)) ∧
    ((∃ spf spa amount j,
        price = ECall spf Ffixed [ELit spa (LNum amount j)] ∧
        nleb NZERO amount = true ∧ is_finite (nmul amount (nZ 1000000)) = true ∧
        billingUnit st' = URequest ∧ fixedPrice st' = Some amount)
     ∨ (marker_free price ∧ billingUnit st' = billingUnit st ∧ fixedPrice st' = fixedPrice st)).

Definition same_price (st st' : rstate) : Prop :=
  matchedTier st' = matchedTier st ∧ billingUnit st' = billingUnit st ∧
  fixedPrice st' = fixedPrice st.

Lemma committed_pre env n st0 st st' : same_price st0 st → committed env n st st' → committed env n st0 st'.
Proof.
  unfold committed. intros (_ & <- & <-) H. exact H.
Qed.

Lemma committed_post env n st st' st1 : same_price st' st1 → committed env n st st' → committed env n st st1.
Proof.
  intros (Ht & Hb & Hf) (sp & label & price & Hs & Hl & Hp).
  exists sp, label, price. unfold same_price in *. rewrite Ht, Hb, Hf. done.
Qed.

Lemma committed_child env n c st st' : c ∈ children n → committed env c st st' → committed env n st st'.
Proof.
  intros Hc (sp & label & price & Hs & H). exists sp, label, price.
  split; [by econstructor|done].
Qed.

Lemma trace_same_price env n b st : same_price st (trace_rule env n b st).
Proof. unfold trace_rule. by destruct (find_index _ _), b. Qed.

(** The leaf case. *)
Lemma tier_leaf_committed env sp args d st v st' :
  length args = 2 → (∀ spf fargs, subnode (ECall spf Ffixed fargs) (ECall sp Ftier args) → length fargs = 1) →
  valid_tier_leaf args = Ok true →
  evaluate env d (ECall sp Ftier args) st = Ok (v, st') →
  committed env (ECall sp Ftier args) st st'.
Proof.
  intros Hlen Hfix Hv H. destruct args as [|label [|price [|? ?]]]; try done.
  cbn [valid_tier_leaf] in Hv. apply bind_Ok in Hv as ([] & Hm & Hv); [done|].
  apply containsPricingMarker_false in Hm.
  apply evaluate_inv in H as (_ & H & _). cbn -[evaluate] in H.
  apply bind_Ok in H as ([name st1] & H1 & H). apply bind_Ok in H1 as (r1 & H1 & Hs).
  apply as_string_Ok in Hs as [i1 ->].
  apply bind_Ok in H as ([[x b] st2] & H2 & H). apply bind_Ok in H2 as (r2 & H2 & Hn).
  apply as_numeric_Ok in Hn as ->. injection H as <- <-.
  pose proof (evaluate_marker_free _ _ _ _ _ _ Hm H1) as Hsame1.
  exists sp, label, price. split; [constructor|]. split; [cbn; eauto|].
  assert (Hp : (∃ spf fargs, price = ECall spf Ffixed fargs) ∨ containsPricingMarker price = Ok false).
  { destruct price as [| |? [] ?| | |]; eauto; right;
      apply bind_Ok in Hv as ([] & Hm' & Hv); done. }
  destruct Hp as [(spf & fargs & ->)|Hp].
  - left. assert (Hl : length fargs = 1).
    { apply (Hfix spf). eapply subnode_child; [|constructor]. cbn. set_solver. }
    destruct fargs as [|amount [|? ?]]; try done.
    injection Hv as Hv. unfold fixed_amount_ok in Hv.
    destruct amount as [spa [amount j| | |]| | | | |]; try done. bools.
    apply evaluate_inv in H2 as (_ & H2 & _). cbn -[evaluate] in H2.
    apply bind_Ok in H2 as ([[y k] st3] & H3 & H2). apply bind_Ok in H3 as (r3 & H3 & Hn).
    apply as_numeric_Ok in Hn as ->. apply evaluate_inv in H3 as (_ & H3 & _). cbn in H3.
    injection H3 as -> -> ->. injection H2 as <- <- <-.
    exists spf, spa, y, k. done.
  - right. apply containsPricingMarker_false in Hp. split; [done|].
    pose proof (evaluate_marker_free _ _ _ _ _ _ Hp H2) as (_ & Hb & Hf).
    destruct Hsame1 as (_ & Hb1 & Hf1). cbn. split; congruence.
Qed.

Lemma validated_committed env source ast rules n : ∀ d st v st',
  Forall (rule_ok source ast) rules → arities_ok n →
  validateFixedPricingTree rules n = Ok tt →
  evaluate env d n st = Ok (v, st') → committed env n st st'.
Proof.
  induction n as [n IH] using node_rec_children. intros d st v st' Hrules Har Hval H.
  rewrite Forall_forall in IH.
  destruct n as [sp v0|sp v0|sp f args|sp o a|sp o a b|sp c y n]; cbn in Hval; try done.
  - destruct f; try done. apply bind_Ok in Hval as ([] & Hleaf & Hval); [|done].
    eapply tier_leaf_committed; [| |done|done].
    + exact (Har _ (subnode_refl _)).
    + intros spf fargs Hs. exact (Har _ Hs).
  - destruct o; try done.
    assert (Hab : ∃ x y st1, evaluate env (S d) a st = Ok (x, st1) ∧
      evaluate env (S d) b st1 = Ok (y, st')).
    { apply evaluate_inv in H as (_ & H & _). cbn -[evaluate] in H.
      apply bind_Ok in H as ([x st1] & H1 & H). apply bind_Ok in H as ([y st2] & H2 & H).
      apply bind_Ok in H as (r & _ & [= <- <-]). eauto. }
    destruct Hab as (x & y & st1 & Ha & Hb).
    apply bind_Ok in Hval as ([] & Hsb & Hval).
    + apply (scaling_factor_marker_free _ _ _ _ Hrules) in Hsb.
      pose proof (evaluate_marker_free _ _ _ _ _ _ Hsb Hb) as Hsame.
      eapply committed_post; [exact Hsame|].
      eapply (committed_child _ _ a); [cbn; set_solver|].
      eapply IH; [cbn; set_solver|done| |done..]. eapply arities_child; [done|cbn; set_solver].
    + apply bind_Ok in Hval as ([] & Hsa & Hval); [|done].
      apply (scaling_factor_marker_free _ _ _ _ Hrules) in Hsa.
      pose proof (evaluate_marker_free _ _ _ _ _ _ Hsa Ha) as Hsame.
      eapply committed_pre; [exact Hsame|].
      eapply (committed_child _ _ b); [cbn; set_solver|].
      eapply IH; [cbn; set_solver|done| |done..]. eapply arities_child; [done|cbn; set_solver].
  - apply bind_Ok in Hval as ([] & Hc & Hval); [done|]. apply containsPricingMarker_false in Hc.
    apply bind_Ok in Hval as ([] & Hy & Hn).
    apply evaluate_inv in H as (_ & H & _). cbn -[evaluate] in H.
    apply bind_Ok in H as ([b st1] & H1 & H). apply bind_Ok in H1 as (r1 & H1 & Hb).
    apply as_boolean_Ok in Hb as [i ->].
    pose proof (evaluate_marker_free _ _ _ _ _ _ Hc H1) as Hsame.
    eapply committed_pre; [exact Hsame|]. eapply committed_pre; [apply trace_same_price|].
    destruct b; [eapply (committed_child _ _ y)|eapply (committed_child _ _ n)];
      try (cbn; set_solver); (eapply IH; [cbn; set_solver|done| |done..]);
      (eapply arities_child; [done|cbn; set_solver]).
Qed.
End fixed.
