(* ===== verification/Structure.v ===== *)
(** * Lossless splitting of expression text

    Models [billing-expression/structure.ts]: [splitExpressionAtTopLevel] and
    [unwrapExpressionParens], which work on the text without parsing it.
    Both loops are bounded by the length of the text; an empty separator is
    the one input on which the source's loop does not end, and there the
    model runs out of fuel. *)
From stdpp Require Import base list option numbers sets.
From Stdlib Require Import ZArith Lia.
From S2P Require Import Prelude.
From S2P Require Import JsString.

Definition is_quote (c : N) : bool := (c =? DQUOTE)%N || (c =? SQUOTE)%N.
Definition opens (c : N) : bool := (c =? cu "(")%N || (c =? cu "[")%N || (c =? cu "{")%N.
Definition closes (c : N) : bool := (c =? cu ")")%N || (c =? cu "]")%N || (c =? cu "}")%N.

(** [filter(Boolean)] on strings. *)
Definition nonempty (s : jsstr) : bool := match s with [] => false | _ => true end.

Definition bump (c : N) (depth : Z) : Z :=
  let depth := if opens c then (depth + 1)%Z else depth in
  if closes c then (depth - 1)%Z else depth.

(** The same, counting parentheses only. *)
Definition bump_paren (c : N) (depth : Z) : Z :=
  let depth := if (c =? cu "(")%N then (depth + 1)%Z else depth in
  if (c =? cu ")")%N then (depth - 1)%Z else depth.

Fixpoint split_loop (fuel : nat) (source operator : jsstr) (i start : nat) (depth : Z)
    (quote : option N) (parts : list jsstr) : option (list jsstr) :=
  match fuel with
  | 0 => None
  | S fuel =>
      match source !! i with
      | None => Some (List.filter nonempty (parts ++ [trim (drop start source)]))
      | Some char =>
          match quote with
          | Some q =>
              if (char =? BACKSLASH)%N then
                split_loop fuel source operator (2 + i) start depth quote parts
              else
                split_loop fuel source operator (S i) start depth
                  (if (char =? q)%N then None else quote) parts
          | None =>
              if is_quote char then
                split_loop fuel source operator (S i) start depth (Some char) parts
              else
                let depth := bump char depth in
                if negb (depth =? 0)%Z then
                  split_loop fuel source operator (S i) start depth None parts
                else if (char =? cu "?")%N then Some [trim source]
                else if starts_with operator (drop i source) then
                  split_loop fuel source operator (i + length operator) (i + length operator)
                    depth None (parts ++ [trim (slice source start i)])
                else split_loop fuel source operator (S i) start depth None parts
          end
      end
  end.

Definition splitExpressionAtTopLevel (source operator : jsstr) : option (list jsstr) :=
  split_loop (S (length source)) source operator 0 0 0 None [].

(** The inner loop of [unwrapExpressionParens]: [Some b] is [closesAtEnd = b]
    after a [break]; running off the end leaves it false. *)
Fixpoint closes_at_end (s : jsstr) (depth : Z) (quote : option N) : bool :=
  match s with
  | [] => false
  | char :: s1 =>
      match quote with
      | Some q =>
          if (char =? BACKSLASH)%N then
            match s1 with [] => false | _ :: s2 => closes_at_end s2 depth quote end
          else closes_at_end s1 depth (if (char =? q)%N then None else quote)
      | None =>
          if is_quote char then closes_at_end s1 depth (Some char)
          else
            let depth := bump_paren char depth in
            if (depth =? 0)%Z then negb (nonempty s1)
            else closes_at_end s1 depth None
      end
  end.

(** [expression.slice(1, -1)] *)
Definition slice_inner (s : jsstr) : jsstr := slice s 1 (length s - 1).

Fixpoint unwrap_loop (fuel : nat) (expression : jsstr) : option jsstr :=
  match fuel with
  | 0 => None
  | S fuel =>
      if starts_with (js "(") expression && ends_with (js ")") expression
         && closes_at_end expression 0 None
      then unwrap_loop fuel (trim (slice_inner expression))
      else Some expression
  end.

Definition unwrapExpressionParens (source : jsstr) : option jsstr :=
  unwrap_loop (S (length source)) (trim source).

(** ** Reference: the scanner as an automaton *)

(** Nesting depth, open quote, and whether the previous code unit escapes. *)
Record scan : Type := Scan { s_depth : Z; s_quote : option N; s_escape : bool }.

Definition top : scan := Scan 0 None false.

Definition scan_step (bump : N → Z → Z) (st : scan) (c : N) : scan :=
  match s_quote st with
  | Some q =>
      if s_escape st then Scan (s_depth st) (Some q) false
      else if (c =? BACKSLASH)%N then Scan (s_depth st) (Some q) true
      else Scan (s_depth st) (if (c =? q)%N then None else Some q) false
  | None =>
      if is_quote c then Scan (s_depth st) (Some c) false
      else Scan (bump c (s_depth st)) None false
  end.

Definition scan_text (bump : N → Z → Z) (st : scan) (s : jsstr) : scan :=
  fold_left (scan_step bump) s st.

(** Every bracket and quote of the text is closed. *)
Definition balanced (s : jsstr) : Prop := scan_text bump top s = top.

(** A separator that the scanner does not read as a bracket, quote or
    conditional, as the operators of the callers. *)
Definition separator (operator : jsstr) : Prop :=
  match operator with
  | [] => False
  | c :: _ => is_quote c = false ∧ opens c = false ∧ closes c = false ∧ c ≠ cu "?"
  end.

(** No occurrence of the separator at nesting depth zero. *)
Definition unsplittable (operator s : jsstr) : Prop :=
  ∀ u w, s = u ++ operator ++ w → scan_text bump top u ≠ top.

(** The first and the last code unit are a matching pair of parentheses:
    outside quotes the depth returns to zero at the end and not before. *)
Definition matching_pair (e : jsstr) : Prop :=
  s_depth (scan_text bump_paren top e) = 0%Z ∧
  ∀ u c w, e = u ++ c :: w → u ≠ [] → s_depth (scan_text bump_paren top u) ≠ 0%Z.

(** [e] is [r] inside matching pairs and white space. *)
Inductive wrapped (r : jsstr) : jsstr → Prop :=
| wrapped_none s : trim s = r → wrapped r s
| wrapped_pair s inner :
    trim s = js "(" ++ inner ++ js ")" → matching_pair (trim s) → wrapped r inner → wrapped r s.

(** ** Proofs: splitting *)

Lemma scan_text_snoc b st s c : scan_text b st (s ++ [c]) = scan_step b (scan_text b st s) c.
Proof. apply fold_left_app. Qed.

Lemma slice_snoc (s : jsstr) i j c :
  i ≤ j → s !! j = Some c → slice s i (S j) = slice s i j ++ [c].
Proof.
  intros Hij Hc. unfold slice. replace (S j - i) with (S (j - i)) by lia.
  apply take_S_r. rewrite lookup_drop. by replace (i + (j - i)) with j by lia.
Qed.

Lemma slice_full (s : jsstr) i j : length s ≤ j → slice s i j = drop i s.
Proof. intros H. unfold slice. apply take_ge. rewrite length_drop. lia. Qed.

Lemma starts_with_prefix p s : starts_with p s = true ↔ ∃ r, s = p ++ r.
Proof.
  revert s. induction p as [|x p IH]; intros s; cbn.
  - split; [by exists s|done].
  - destruct s as [|y s]; [split; [done|by intros [? [=]]]|].
    rewrite andb_true_iff, N.eqb_eq, IH. split.
    + intros [-> [r ->]]. by exists r.
    + intros [r [= -> ->]]. eauto.
Qed.

Section split.
Context (source operator : jsstr) (Hsep : separator operator).

(** What the loop knows when it reaches index [i] of the text: [raws] are
    the pieces already cut, before trimming. *)
Record split_inv (i start : nat) (raws : list jsstr) : Prop := {
  inv_start : start ≤ i;
  inv_text : source = concat (map (.++ operator) raws) ++ drop start source;
  inv_cut : Forall balanced raws ∧ Forall (unsplittable operator) raws;
  inv_open : ∀ u w, slice source start i = u ++ w → w ≠ [] →
    scan_text bump top u = top → starts_with operator (drop (start + length u) source) = false
}.

Definition split_post (r : option (list jsstr)) : Prop :=
  (∃ u w, source = u ++ cu "?" :: w) ∧ r = Some [trim source]
  ∨ ∃ raws last, source = concat (map (.++ operator) raws) ++ last ∧
      Forall balanced raws ∧ Forall (unsplittable operator) (raws ++ [last]) ∧
      r = Some (List.filter nonempty (map trim (raws ++ [last]))).

(** Passing index [i] without a cut. *)
Lemma split_inv_step i j start raws :
  i < j → split_inv i start raws →
  (scan_text bump top (slice source start i) = top → starts_with operator (drop i source) = false) →
  (∀ k, i < k < j → scan_text bump top (slice source start k) ≠ top) →
  split_inv j start raws.
Proof.
  intros Hij [H1 H2 H3 H4] Hi Hk. split; [lia|done|done|].
  intros u w Hu Hw Htop.
  assert (Hlu : length u < j - start).
  { apply (f_equal length) in Hu. unfold slice in Hu.
    rewrite length_app, length_take in Hu. destruct w; [done|]. cbn in Hu. lia. }
  assert (Hpre : u = slice source start (start + length u)).
  { unfold slice in *. replace (start + length u - start) with (length u) by lia.
    apply (f_equal (take (length u))) in Hu.
    rewrite take_app_length, take_take in Hu. by rewrite Nat.min_l in Hu by lia. }
  destruct (decide (start + length u < i)) as [Hlt|Hge].
  - apply (H4 u (slice source (start + length u) i)); [|..|done].
    + rewrite Hpre at 1. unfold slice. rewrite take_drop_slice by lia. done.
    + intros Hnil%(f_equal length). unfold slice in Hnil, Hu. cbn in Hnil.
      apply (f_equal length) in Hu. rewrite length_app, length_take, length_drop in Hu.
      rewrite length_take, length_drop in Hnil. destruct w; [done|]. cbn in Hu. lia.
  - destruct (decide (start + length u = i)) as [Heq|Hne].
    + rewrite Heq. apply Hi. by rewrite <- Heq, <- Hpre.
    + exfalso. apply (Hk (start + length u)); [lia|]. by rewrite <- Hpre.
Qed.

(** A cut at index [i]. *)
Lemma split_inv_cut i start raws rest :
  split_inv i start raws → scan_text bump top (slice source start i) = top →
  drop i source = operator ++ rest →
  split_inv (i + length operator) (i + length operator) (raws ++ [slice source start i]).
Proof.
  intros [H1 H2 [H3 H3'] H4] Htop Hop. assert (Hil : i ≤ length source).
  { apply (f_equal length) in Hop. rewrite length_drop, length_app in Hop.
    destruct operator; [done|]. cbn in Hop. lia. }
  assert (Hrest : drop (i + length operator) source = rest).
  { rewrite <- drop_drop, Hop. apply drop_app_length. }
  assert (Hslice : drop start source = slice source start i ++ operator ++ rest).
  { rewrite <- Hop. unfold slice.
    rewrite <- (take_drop (i - start) (drop start source)) at 1. f_equal.
    rewrite drop_drop. f_equal. lia. }
  split; [lia|..].
  - rewrite map_app, concat_app, Hrest. cbn. rewrite app_nil_r, <- !app_assoc.
    rewrite <- Hslice. exact H2.
  - split; (apply Forall_app; split; [done|]; constructor; [|constructor]); [exact Htop|].
    intros u w Hu Hu0.
    assert (Hw : operator ++ w ≠ []) by (by destruct operator).
    pose proof (H4 u (operator ++ w) Hu Hw Hu0) as Hf.
    rewrite <- drop_drop, Hslice, Hu, <- !app_assoc, drop_app_length in Hf.
    assert (starts_with operator (operator ++ w ++ operator ++ rest) = true)
      by (apply starts_with_prefix; eauto). congruence.
  - intros u w Hu Hw. unfold slice in Hu. rewrite Nat.sub_diag in Hu. by destruct u, w.
Qed.

(** At the end of the text the open piece is the last one. *)
Lemma split_inv_end i start raws :
  length source ≤ i → split_inv i start raws →
  split_post (Some (List.filter nonempty (map trim raws ++ [trim (drop start source)]))).
Proof.
  intros Hi [H1 H2 [H3 H3'] H4]. right. exists raws, (drop start source).
  conjs; [done..| |by rewrite map_app].
  apply Forall_app. split; [done|]. constructor; [|constructor]. intros u w Hu Hu0.
  assert (Hw : operator ++ w ≠ []) by (by destruct operator).
  rewrite <- (slice_full _ _ _ Hi) in Hu. pose proof (H4 u _ Hu Hw Hu0) as Hf.
  rewrite (slice_full _ _ _ Hi) in Hu. rewrite <- drop_drop, Hu, drop_app_length in Hf.
  assert (starts_with operator (operator ++ w) = true) by (apply starts_with_prefix; eauto).
  congruence.
Qed.

(** Where the operator starts there is no quote, and the depth is kept. *)
Lemma operator_start i char :
  source !! i = Some char → starts_with operator (drop i source) = true →
  is_quote char = false ∧ ∀ depth, bump char depth = depth.
Proof.
  intros Hi Hop. rewrite (drop_S _ _ _ Hi) in Hop. destruct operator as [|o op]; [done|].
  destruct Hsep as (Hq & Ho & Hc & _). cbn in Hop. apply andb_true_iff in Hop as [->%N.eqb_eq _].
  split; [done|]. intros depth. unfold bump. by rewrite Ho, Hc.
Qed.

Lemma split_loop_spec fuel : ∀ i start depth quote raws,
  length source - i < fuel →
  split_inv i start raws →
  (i ≤ length source → scan_text bump top (slice source start i) = Scan depth quote false) →
  split_post (split_loop fuel source operator i start depth quote (map trim raws)).
Proof.
  induction fuel as [|fuel IH]; intros i start depth quote raws Hfuel Hinv Hscan; [lia|].
  cbn [split_loop]. destruct (source !! i) as [char|] eqn:Hi.
  2: { apply lookup_ge_None in Hi. by eapply split_inv_end. }
  pose proof (lookup_lt_Some _ _ _ Hi) as Hlt. specialize (Hscan ltac:(lia)).
  pose proof (inv_start _ _ _ Hinv) as Hst. pose proof (operator_start i char Hi) as Hopen.
  assert (Hnext : scan_text bump top (slice source start (S i)) = scan_step bump (Scan depth quote false) char)
    by (by rewrite (slice_snoc _ _ _ _ Hst Hi), scan_text_snoc, Hscan).
  assert (Hstep : (scan_text bump top (slice source start i) = top →
      starts_with operator (drop i source) = false) → split_inv (S i) start raws)
    by (intros H; eapply (split_inv_step i); [lia|done|done|lia]).
  destruct quote as [q|]; unfold scan_step in Hnext; cbn in Hnext.
  - assert (Hnt : scan_text bump top (slice source start i) = top → starts_with operator (drop i source) = false)
      by (rewrite Hscan; by intros [=]).
    destruct (char =? BACKSLASH)%N eqn:Hb; [|apply IH; [lia|by apply Hstep|done]].
    apply IH; [lia|..].
    + eapply (split_inv_step i); [lia|done|done|].
      intros k Hk. replace k with (S i) by lia. rewrite Hnext. by intros [=].
    + intros Hle. destruct (source !! S i) as [c2|] eqn:Hc2; [|apply lookup_ge_None in Hc2; lia].
      replace (2 + i) with (S (S i)) by lia.
      rewrite (slice_snoc _ _ (S i) c2); [|lia|done]. by rewrite scan_text_snoc, Hnext.
  - destruct (is_quote char) eqn:Hq.
    { apply IH; [lia| |done]. apply Hstep. intros _. apply not_true_is_false. intros Hop. by apply Hopen in Hop as []. }
    destruct (Z.eqb_spec (bump char depth) 0) as [Hd|Hd]; cbn [negb].
    2: { apply IH; [lia| |done]. apply Hstep. rewrite Hscan. intros [= ->].
      apply not_true_is_false. intros Hop. apply Hd. by apply Hopen in Hop as [_ ->]. }
    destruct (char =? cu "?")%N eqn:Hqm.
    { left. split; [|done]. exists (take i source), (drop (S i) source).
      apply N.eqb_eq in Hqm as <-. symmetry. by apply take_drop_middle. }
    destruct (starts_with operator (drop i source)) eqn:Hop; [|apply IH; [lia|by apply Hstep|done]].
    pose proof Hop as [rest Hrest]%starts_with_prefix.
    destruct (Hopen eq_refl) as [_ Hbump]. rewrite Hbump in Hd |- *. subst depth.
    replace (map trim raws ++ [trim (slice source start i)])
      with (map trim (raws ++ [slice source start i])) by (by rewrite map_app).
    apply IH; [destruct operator; [done|]; cbn; lia|by eapply split_inv_cut|].
    intros _. unfold slice. by rewrite Nat.sub_diag.
Qed.

Lemma splitExpressionAtTopLevel_spec : split_post (splitExpressionAtTopLevel source operator).
Proof.
  apply (split_loop_spec _ _ _ _ _ []); [lia| |done]. split; [lia|done|by split|].
  intros u w Hu Hw. by destruct u, w.
Qed.
End split.

(** ** Proofs: trimming *)

Definition starts_clean (s : jsstr) : bool :=
  match s with c :: _ => negb (is_space c) | [] => true end.
Definition trimmed (s : jsstr) : Prop := starts_clean s = true ∧ starts_clean (reverse s) = true.

Lemma trim_start_suffix s : ∃ w, s = w ++ trim_start s.
Proof.
  induction s as [|c s [w IH]]; [by exists []|]. cbn.
  destruct (is_space c); [|by exists []]. exists (c :: w). cbn. by rewrite <- IH.
Qed.

Lemma trim_start_clean s : starts_clean (trim_start s) = true.
Proof. induction s as [|c s IH]; [done|]. cbn. destruct (is_space c) eqn:E; [done|]. cbn. by rewrite E. Qed.

Lemma trim_start_id s : starts_clean s = true → trim_start s = s.
Proof. destruct s as [|c s]; [done|]. cbn. by destruct (is_space c). Qed.

Lemma starts_clean_prefix u w : starts_clean (u ++ w) = true → starts_clean u = true.
Proof. by destruct u. Qed.

Lemma trim_trimmed s : trimmed (trim s).
Proof.
  unfold trim, trim_end. split; [|rewrite reverse_involutive; apply trim_start_clean].
  destruct (trim_start_suffix (reverse (trim_start s))) as [w Hw].
  apply (f_equal reverse) in Hw. rewrite reverse_involutive, reverse_app in Hw.
  apply (starts_clean_prefix _ (reverse w)). rewrite <- Hw. apply trim_start_clean.
Qed.

Lemma trimmed_trim s : trimmed s → trim s = s.
Proof.
  intros [H1 H2]. unfold trim, trim_end. rewrite (trim_start_id s) by done.
  rewrite trim_start_id by done. apply reverse_involutive.
Qed.

Lemma trim_trim s : trim (trim s) = trim s.
Proof. apply trimmed_trim, trim_trimmed. Qed.

Lemma trim_start_length s : length (trim_start s) ≤ length s.
Proof. destruct (trim_start_suffix s) as [w H]. rewrite H at 2. rewrite length_app. lia. Qed.

Lemma trim_length s : length (trim s) ≤ length s.
Proof.
  unfold trim, trim_end. rewrite length_reverse.
  pose proof (trim_start_length s). pose proof (trim_start_length (reverse (trim_start s))) as H'.
  rewrite length_reverse in H'. lia.
Qed.

(** ** Proofs: parentheses *)

Lemma scan_text_cons b st c s : scan_text b st (c :: s) = scan_text b (scan_step b st c) s.
Proof. done. Qed.

(** The boolean search agrees with the automaton; [d] is non-zero as it is
    after the opening parenthesis. *)
Lemma closes_at_end_spec s : ∀ d q,
  d ≠ 0%Z → closes_at_end s d q = true →
  s_depth (scan_text bump_paren (Scan d q false) s) = 0%Z ∧
  ∀ u c w, s = u ++ c :: w → s_depth (scan_text bump_paren (Scan d q false) u) ≠ 0%Z.
Proof.
  induction s as [s IH] using (induction_ltof1 _ length). unfold ltof in IH.
  intros d q Hd H. destruct s as [|x s]; [done|]. cbn [closes_at_end] in H.
  assert (Hgo : ∀ d' q', d' ≠ 0%Z → scan_step bump_paren (Scan d q false) x = Scan d' q' false →
    closes_at_end s d' q' = true →
    s_depth (scan_text bump_paren (Scan d q false) (x :: s)) = 0%Z ∧
    ∀ u c w, x :: s = u ++ c :: w → s_depth (scan_text bump_paren (Scan d q false) u) ≠ 0%Z).
  { intros d' q' Hd' Hx H'. apply IH in H' as [H1 H2]; [|cbn; lia|done].
    rewrite scan_text_cons, Hx. split; [done|]. intros [|y u] c w He; [done|].
    injection He as <- He. rewrite scan_text_cons, Hx. by eapply H2. }
  unfold scan_step in Hgo; cbn [s_quote s_depth s_escape] in Hgo.
  destruct q as [q|].
  - destruct (x =? BACKSLASH)%N eqn:Hb; [|by eapply Hgo].
    destruct s as [|y s]; [done|].
    apply IH in H as [H1 H2]; [|cbn; lia|done].
    assert (Hx : scan_step bump_paren (Scan d (Some q) false) x = Scan d (Some q) true)
      by (unfold scan_step; cbn; by rewrite Hb).
    assert (Hy : scan_step bump_paren (Scan d (Some q) true) y = Scan d (Some q) false) by done.
    rewrite !scan_text_cons, Hx, Hy. split; [done|]. intros u c w He.
    destruct u as [|a [|a' u]]; [done| |].
    + injection He as <- _ _. by rewrite scan_text_cons, Hx.
    + injection He as <- <- He. rewrite !scan_text_cons, Hx, Hy. by eapply H2.
  - destruct (is_quote x) eqn:Hq; [by eapply Hgo|].
    destruct (Z.eqb_spec (bump_paren x d) 0) as [H0|H0]; [|by eapply Hgo].
    destruct s; [|done]. rewrite scan_text_cons. unfold scan_step. cbn. rewrite Hq. cbn.
    split; [done|]. intros [|a [|b u]] c w He; [done|done|done].
Qed.

Lemma ends_with_suffix p s : ends_with p s = true ↔ ∃ r, s = r ++ p.
Proof.
  unfold ends_with. rewrite starts_with_prefix. split.
  - intros [r H%(f_equal reverse)]. rewrite reverse_app, !reverse_involutive in H. by exists (reverse r).
  - intros [r ->]. exists (reverse r). apply reverse_app.
Qed.

Lemma wrapped_shape e :
  starts_with (js "(") e = true → ends_with (js ")") e = true →
  e = js "(" ++ slice_inner e ++ js ")".
Proof.
  intros [r ->]%starts_with_prefix [r' Hr]%ends_with_suffix. cbn in *.
  destruct r' as [|x r']; cbn in Hr; [by injection Hr|].
  injection Hr as <- ->. unfold slice_inner, slice. cbn.
  change (js "(") with [cu "("]. change (js ")") with [cu ")"]. cbn.
  rewrite length_app, drop_0. cbn. replace (_ - 1) with (length r') by lia.
  by rewrite take_app_length.
Qed.

Lemma closes_matching e : starts_with (js "(") e = true → closes_at_end e 0 None = true → matching_pair e.
Proof.
  intros [r ->]%starts_with_prefix H. change (closes_at_end r 1 None = true) in H.
  apply closes_at_end_spec in H as [H1 H2]; [|done]. split; [done|].
  intros [|x u] c w He Hu; [done|]. injection He as <- He. by eapply H2.
Qed.

Lemma unwrap_loop_spec fuel : ∀ e,
  length e < fuel → trim e = e →
  ∃ r, unwrap_loop fuel e = Some r ∧ wrapped r e ∧ trim r = r ∧
       ∀ k, unwrap_loop (S k) r = Some r.
Proof.
  induction fuel as [|fuel IH]; intros e Hl Ht; [lia|]. cbn [unwrap_loop].
  destruct (_ && _) eqn:Hc.
  2: { exists e. conjs; [done|by constructor|done|]. intros k. cbn. by rewrite Hc. }
  bools. assert (Hs : e = js "(" ++ slice_inner e ++ js ")") by (by apply wrapped_shape).
  destruct (IH (trim (slice_inner e))) as (r & Hr & Hw & Htr & Hfix).
  - pose proof (trim_length (slice_inner e)). apply (f_equal length) in Hs.
    rewrite !length_app in Hs. change (length (js "(")) with 1 in Hs. lia.
  - apply trim_trim.
  - exists r. conjs; [done| |done..]. apply (wrapped_pair r _ (slice_inner e)).
    + by rewrite Ht.
    + rewrite Ht. by apply closes_matching.
    + inversion Hw as [? Hw1|? inner Hw1 Hm Hw2]; subst; rewrite trim_trim in *; [by constructor|].
      by eapply wrapped_pair.
Qed.

Lemma unwrapExpressionParens_spec s :
  ∃ r, unwrapExpressionParens s = Some r ∧ wrapped r s ∧ unwrapExpressionParens r = Some r.
Proof.
  destruct (unwrap_loop_spec (S (length s)) (trim s)) as (r & Hr & Hw & Ht & Hfix).
  - pose proof (trim_length s). lia.
  - apply trim_trim.
  - exists r. conjs; [done| |].
    + inversion Hw as [? Hw1|? inner Hw1 Hm Hw2]; subst; rewrite trim_trim in *; [by constructor|].
      by eapply wrapped_pair.
    + unfold unwrapExpressionParens. by rewrite Ht.
Qed.
