(* ===== verification/Display.v ===== *)
(** * Price tables read from compiled expressions

    Models [billing-expression/display.ts]: the readers that turn the tree
    of a compiled expression into the tiers a price table shows, for token
    prices ([readTokenTierChain]), time-dependent token prices
    ([readTimeTokenPricing]) and task prices ([readTaskTierChain]). *)
From stdpp Require Import base list option numbers sets.
From Stdlib Require Import ZArith SpecFloat Lia.
From S2P Require Import Prelude.
From S2P Require Import JsString.
From S2P Require Import JsNumber.
From S2P Require Import Syntax.
From S2P Require Import Parser.
From S2P Require Import Compile.
From S2P Require Import Runtime.

(** A reader returns a value, returns [null] ([Err None]) or throws. *)
Abbreviation reader := (result (option exn)).
Definition null {A} : reader A := Err None.
Definition guard_null (b : bool) : reader unit := if b then Ok tt else null.
Definition reader_type_error {A} : reader A := Err (Some (HostError (js "TypeError"))).
Definition lift_throw {A} (r : result exn A) : reader A :=
  match r with Ok a => Ok a | Err e => Err (Some e) end.

(** Property of an object used as an insertion-ordered record. *)
Fixpoint assoc {K A} `{EqDecision K} (l : list (K * A)) (k : K) : option A :=
  match l with
  | [] => None
  | (k', a) :: l => if decide (k' = k) then Some a else assoc l k
  end.

Fixpoint flattenBinary (n : node) (operator : binop) : list node :=
  match n with
  | EBin _ o a b =>
      if decide (o = operator) then flattenBinary a operator ++ flattenBinary b operator
      else [n]
  | _ => [n]
  end.

Fixpoint rmap {E A B} (f : A → result E B) (l : list A) : result E (list B) :=
  match l with
  | [] => Ok []
  | a :: l => b ← f a; bs ← rmap f l; Ok (b :: bs)
  end.

(** ** Token tiers *)

Record TokenTierCondition : Type := Cond { c_var : bvar; c_op : binop; c_value : num }.

Record TokenTier : Type := {
  t_conditionText : option jsstr;
  t_imageCount : bool;
  t_billingUnit : billing_unit;
  t_fixedPrice : option num;
  t_label : jsstr;
  t_conditions : list TokenTierCondition;
  t_prices : list (bvar * num)
}.

Definition is_order (o : binop) : bool :=
  match o with Olt | Ole | Ogt | Oge => true | _ => false end.
Definition is_size_var (v : bvar) : bool :=
  match v with Vp | Vc | Vlen => true | _ => false end.

Definition tokenCondition (part : node) : reader TokenTierCondition :=
  match part with
  | EBin _ o (EVar _ v) (ELit _ (LNum x _)) =>
      if is_order o && is_size_var v && negb (nltb x NZERO) then Ok (Cond v o x) else null
  | _ => null
  end.

Definition tokenConditions (n : node) : reader (list TokenTierCondition) :=
  rmap tokenCondition (flattenBinary n Oand).

Definition is_zero_literal (n : node) : bool :=
  match n with ELit _ (LNum x _) => neqb x NZERO | _ => false end.

Definition nonnegativePriceLiteral (n : node) : option num :=
  match n with
  | ELit _ (LNum x _) => if ngeb x NZERO then Some x else None
  | EUn _ Uminus a => if is_zero_literal a then Some (nneg NZERO) else None
  | _ => None
  end.

Definition is_token_input (v : bvar) : bool :=
  match v with Vlen | Vimage_count => false | _ => true end.

Definition is_text_remainder (n : node) : bool :=
  match n with
  | EBin _ Osub (EVar _ Vlen) (EVar _ Vai) => true
  | _ => false
  end.

(** The variable a priced quantity stands for. *)
Definition price_variable (input : node) : reader bvar :=
  let call :=
    match input with
    | ECall _ Fmax [a; b] =>
        if is_zero_literal a then if is_text_remainder b then Ok Vp else null
        else if negb (is_zero_literal b) then null
        else if is_text_remainder a then Ok Vp else null
    | _ => null
    end in
  match input with
  | EVar _ v => if is_token_input v then Ok v else call
  | _ => call
  end.

(** One summand of a tier body. *)
Definition price_term (term : node) (prices : list (bvar * num)) : reader (list (bvar * num)) :=
  match term with
  | EBin _ Omul lhs rhs =>
      '(input, price) ←
        match nonnegativePriceLiteral rhs with
        | Some price => Ok (lhs, price)
        | None =>
            match nonnegativePriceLiteral lhs with
            | Some price => Ok (rhs, price)
            | None => null
            end
        end;
      variable ← price_variable input;
      match assoc prices variable with
      | Some _ => null
      | None => Ok (prices ++ [(variable, price)])
      end
  | _ => null
  end.

Definition fixed_body (body : node) : reader (option num) :=
  match body with
  | ECall _ Ffixed [] => reader_type_error
  | ECall _ Ffixed (ELit _ (LNum x _) :: _) => Ok (Some x)
  | _ => Ok None
  end.

Definition tokenTier (n : node) (conditions : list TokenTierCondition) : reader TokenTier :=
  match n with
  | ECall _ Ftier (ELit _ (LStr label) :: rest) =>
      match rest with
      | [] => reader_type_error
      | body :: _ =>
          fixed ← fixed_body body;
          match fixed with
          | Some amount =>
              Ok {| t_conditionText := None; t_imageCount := false; t_billingUnit := URequest;
                    t_fixedPrice := Some amount; t_label := label; t_conditions := conditions;
                    t_prices := [] |}
          | None =>
              prices ← rfold price_term (flattenBinary body Oadd) [];
              match prices with
              | [] => null
              | _ =>
                  Ok {| t_conditionText := None; t_imageCount := false; t_billingUnit := UToken;
                        t_fixedPrice := None; t_label := label; t_conditions := conditions;
                        t_prices := prices |}
              end
          end
      end
  | _ => null
  end.

Definition with_conditionText (text : jsstr) (t : TokenTier) : TokenTier :=
  {| t_conditionText := Some text; t_imageCount := t_imageCount t;
     t_billingUnit := t_billingUnit t; t_fixedPrice := t_fixedPrice t; t_label := t_label t;
     t_conditions := t_conditions t; t_prices := t_prices t |}.

Definition with_imageCount (t : TokenTier) : TokenTier :=
  {| t_conditionText := t_conditionText t; t_imageCount := true;
     t_billingUnit := t_billingUnit t; t_fixedPrice := t_fixedPrice t; t_label := t_label t;
     t_conditions := t_conditions t; t_prices := t_prices t |}.

(** [ai > 0] or [ao > 0]: the audio variable the test names. *)
Definition audio_test (part : node) : option bvar :=
  match part with
  | EBin _ Ogt (EVar _ ((Vai | Vao) as v)) zero => if is_zero_literal zero then Some v else None
  | _ => None
  end.

Definition is_audio_condition (condition : node) : bool :=
  match condition with
  | EBin _ Oor a b =>
      let present := option_list (audio_test a) ++ option_list (audio_test b) in
      bool_decide (Vai ∈ present) && bool_decide (Vao ∈ present)
  | _ => false
  end.

(** The [while] loop over a chain of conditionals and its fallback. *)
Fixpoint tier_chain (n : node) (tiers : list TokenTier) : reader (list TokenTier) :=
  match n with
  | ECond _ condition yes no =>
      conditions ← tokenConditions condition;
      tier ← tokenTier yes conditions;
      tier_chain no (tiers ++ [tier])
  | _ => fallback ← tokenTier n []; Ok (tiers ++ [fallback])
  end.

Definition audio_tiers (yes no : node) : reader (option (list TokenTier)) :=
  let attempt n := match tokenTier n [] with
                   | Ok t => Ok (Some t)
                   | Err None => Ok None
                   | Err (Some e) => Err (Some e)
                   end in
  audio ← attempt yes;
  text ← attempt no;
  Ok (match audio, text with
      | Some audio, Some text =>
          Some [with_conditionText (js "Audio requests") audio;
                with_conditionText (js "Text-only requests") text]
      | _, _ => None
      end).

Fixpoint readTokenTierChain (n : node) : reader (list TokenTier) :=
  match n with
  | EBin _ Omul (EVar _ Vimage_count) pricing =>
      tiers ← readTokenTierChain pricing; Ok (map with_imageCount tiers)
  | EBin _ Omul pricing (EVar _ Vimage_count) =>
      tiers ← readTokenTierChain pricing; Ok (map with_imageCount tiers)
  | ECond _ condition yes no =>
      audio ← (if is_audio_condition condition then audio_tiers yes no else Ok None);
      match audio with
      | Some tiers => Ok tiers
      | None => tier_chain n []
      end
  | _ => tier_chain n []
  end.

(** ** Time-dependent token tiers *)

Definition is_time_function (f : fname) : bool :=
  match f with Ftime _ => true | _ => false end.
Definition is_pure_function (f : fname) : bool :=
  match f with Ftime _ | Fmin | Fmax | Fabs | Fceil | Ffloor => true | _ => false end.

Definition isTimeCondition (n : node) : result exn bool :=
  '(variables, functions) ← expressionDependencies n;
  Ok (match variables with [] => true | _ => false end
      && existsb is_time_function functions
      && forallb is_pure_function functions).

(** A branch taken: the condition and the value it has there. *)
Definition time_path : Type := list (node * bool).

Record TimeTokenTier : Type := {
  tt_tier : TokenTier;
  tt_timeConditions : time_path
}.

Definition condition_text (c : TokenTierCondition) : jsstr :=
  bvar_text (c_var c) ++ js " " ++ binop_text (c_op c) ++ js " " ++ number_to_string (c_value c).

Definition time_description (source : jsstr) (path : time_path) : jsstr :=
  join (js " && ")
    (map (λ '(condition, matches),
       let text := slice source (node_start condition) (node_end condition) in
       if (matches : bool) then js "(" ++ text ++ js ")" else js "!(" ++ text ++ js ")") path).

Definition time_tier (source : jsstr) (path : time_path) (t : TokenTier) : TimeTokenTier :=
  {| tt_tier := with_conditionText
       (join (js " && ") (time_description source path :: map condition_text (t_conditions t))) t;
     tt_timeConditions := path |}.

(** Both branches are read before either result is tested for [null]. *)
Definition both {A} (a b : reader A) : reader (A * A) :=
  match a, b with
  | Err (Some e), _ | _, Err (Some e) => Err (Some e)
  | Ok x, Ok y => Ok (x, y)
  | _, _ => null
  end.

Fixpoint timeTierBranches (source : jsstr) (n : node) (path : time_path)
    : reader (list TimeTokenTier) :=
  let leaf :=
    tiers ← readTokenTierChain n;
    match path with
    | [] => null
    | _ => Ok (map (time_tier source path) tiers)
    end in
  match n with
  | ECond _ condition yes no =>
      timed ← lift_throw (isTimeCondition condition);
      if (timed : bool) then
        '(yes, no) ← both (timeTierBranches source yes (path ++ [(condition, true)]))
                          (timeTierBranches source no (path ++ [(condition, false)]));
        Ok (yes ++ no)
      else leaf
  | _ => leaf
  end.

Section time_pricing.
Context {host : Host}.

Definition holds_now (c : CompiledBillingExpression) (now : date) (t : TimeTokenTier) : bool :=
  forallb (λ '(condition, matches),
      bool_decide (evaluateBillingCondition c condition now = Some matches))
    (tt_timeConditions t).

Definition readTimeTokenPricing (source : jsstr) (now : option date)
    : reader (list TimeTokenTier * list TimeTokenTier) :=
  match compile source with
  | Err _ => null
  | Ok c =>
      tiers ← timeTierBranches (c_source c) (c_ast c) [];
      Ok (tiers, match now with
                 | Some now => List.filter (holds_now c now) tiers
                 | None => []
                 end)
  end.
End time_pricing.

(** ** Task tiers *)

Inductive field_type : Type := FNumber | FBoolean.

Record BillingUsageFieldSchema : Type := {
  f_type : option field_type;
  f_unit : option jsstr;
  f_enum : option (list jsstr)
}.

Definition BillingUsageSchema : Type := list (jsstr * BillingUsageFieldSchema).

Record TaskTier : Type := {
  k_label : jsstr;
  k_conditions : list (jsstr * jsstr);
  k_constant : num;
  k_unitPrices : list (jsstr * num)
}.

(** [u("field")]: the literal field name. *)
Definition usage_field (n : node) : reader jsstr :=
  match n with
  | ECall _ Fu [] => reader_type_error
  | ECall _ Fu (ELit _ (LStr field) :: _) => Ok field
  | _ => null
  end.

Definition bool_text (b : bool) : jsstr := if b then js "true" else js "false".

(** One conjunct: the condition it displays, and whether it can hold. *)
Definition task_condition (schema : BillingUsageSchema) (includeBoolean : bool) (term : node)
    : reader ((jsstr * jsstr) * bool) :=
  match term with
  | EBin _ Oeq lhs rhs =>
      field ← usage_field lhs;
      match rhs with
      | ELit _ v =>
          match assoc schema field with
          | Some definition =>
              match f_type definition, v with
              | Some FBoolean, LBool b =>
                  if includeBoolean then Ok ((field, bool_text b), true) else null
              | Some FBoolean, _ => null
              | _, LStr s =>
                  match f_enum definition with
                  | Some values => Ok ((field, s), str_in s values)
                  | None => null
                  end
              | _, _ => null
              end
          | None => null
          end
      | _ => null
      end
  | _ => null
  end.

(** [Ok None] is ['unreachable']. *)
Definition taskConditions (n : node) (schema : BillingUsageSchema) (includeBoolean : bool)
    : reader (option (list (jsstr * jsstr))) :=
  cs ← rmap (task_condition schema includeBoolean) (flattenBinary n Oand);
  Ok (if forallb snd cs then Some (map fst cs) else None).

Record task_sum : Type := {
  ts_constant : option num;
  ts_unitPrices : list (jsstr * num)
}.

Definition is_million (n : node) : bool :=
  match n with ELit _ (LNum x _) => neqb x (nZ 1000000) | _ => false end.

Definition task_product (schema : BillingUsageSchema) (scaled : bool) (term : node) (acc : task_sum)
    : reader task_sum :=
  match term with
  | EBin _ Omul lhs rhs =>
      field ← usage_field lhs;
      match nonnegativePriceLiteral rhs with
      | None => null
      | Some price =>
          match assoc schema field with
          | Some {| f_type := Some FNumber; f_unit := Some ((_ :: _) as unit) |} =>
              match assoc (ts_unitPrices acc) field with
              | Some _ => null
              | None =>
                  if Bool.eqb (jseq unit (js "token")) scaled then
                    Ok {| ts_constant := ts_constant acc;
                          ts_unitPrices := ts_unitPrices acc ++ [(field, price)] |}
                  else null
              end
          | _ => null
          end
      end
  | _ => null
  end.

Definition task_term (schema : BillingUsageSchema) (term : node) (acc : task_sum)
    : reader task_sum :=
  match nonnegativePriceLiteral term with
  | Some literal =>
      match ts_constant acc with
      | Some _ => null
      | None => Ok {| ts_constant := Some literal; ts_unitPrices := ts_unitPrices acc |}
      end
  | None =>
      match term with
      | EBin _ Odiv product million =>
          if is_million million then task_product schema true product acc else null
      | _ => task_product schema false term acc
      end
  end.

Definition taskTier (n : node) (conditions : list (jsstr * jsstr)) (schema : BillingUsageSchema)
    : reader TaskTier :=
  match n with
  | ECall _ Ftier [] => reader_type_error
  | ECall _ Ftier (ELit _ (LStr label) :: rest) =>
      match rest with
      | [] => reader_type_error
      | body :: _ =>
          acc ← rfold (task_term schema) (flattenBinary body Oadd)
            {| ts_constant := None; ts_unitPrices := [] |};
          match ts_unitPrices acc with
          | [] => null
          | prices =>
              Ok {| k_label := label; k_conditions := conditions;
                    k_constant := default NZERO (ts_constant acc); k_unitPrices := prices |}
          end
      end
  | _ => null
  end.

Fixpoint task_chain (n : node) (schema : BillingUsageSchema) (includeBoolean : bool)
    (tiers : list TaskTier) : reader (list TaskTier) :=
  match n with
  | ECond _ condition yes no =>
      conditions ← taskConditions condition schema includeBoolean;
      match conditions with
      | Some conditions =>
          tier ← taskTier yes conditions schema;
          task_chain no schema includeBoolean (tiers ++ [tier])
      | None => task_chain no schema includeBoolean tiers
      end
  | _ => fallback ← taskTier n [] schema; Ok (tiers ++ [fallback])
  end.

Definition readTaskTierChain (n : node) (schema : BillingUsageSchema) (includeBoolean : bool)
    : reader (list TaskTier) := task_chain n schema includeBoolean [].
