(* ===== verification/DisplayFacts.v ===== *)
(** * Displayed prices are the billed prices

    The readers of [Display] against the evaluator: when a price table can
    be read from an expression, every successful evaluation settles on the
    first displayed tier whose conditions hold, and its cost is the sum of
    the displayed prices over the context's quantities. *)
From stdpp Require Import base list option numbers sets relations.
From Stdlib Require Import ZArith SpecFloat Lia.
From S2P Require Import Prelude.
From S2P Require Import JsString.
From S2P Require Import JsNumber.
From S2P Require Import Syntax.
From S2P Require Import Parser.
From S2P Require Import ParserFacts.
From S2P Require Import Compile.
From S2P Require Import CompileFacts.
From S2P Require Import Runtime.
From S2P Require Import RuntimeFacts.
From S2P Require Import Display.

#[local] Arguments evaluate : simpl never.

Lemma rmap_app {E A B} (f : A → result E B) l1 l2 r :
  rmap f (l1 ++ l2) = Ok r → ∃ r1 r2, rmap f l1 = Ok r1 ∧ rmap f l2 = Ok r2 ∧ r = r1 ++ r2.
Proof.
  revert r. induction l1 as [|a l1 IH]; intros r H; cbn in H; [by exists [], r|].
  apply bind_Ok in H as (b & Hb & H). apply bind_Ok in H as (bs & Hbs & [= <-]).
  apply IH in Hbs as (r1 & r2 & H1 & H2 & ->). exists (b :: r1), r2. cbn. by rewrite Hb; cbn; rewrite H1.
Qed.

Lemma rmap_single {E A B} (f : A → result E B) a r : rmap f [a] = Ok r → ∃ b, f a = Ok b ∧ r = [b].
Proof. cbn. intros H. apply bind_Ok in H as (b & Hb & [= <-]). eauto. Qed.

(** [flattenBinary] as a case analysis. *)
Lemma flattenBinary_cases n o :
  (∃ sp a b, n = EBin sp o a b ∧ flattenBinary n o = flattenBinary a o ++ flattenBinary b o)
  ∨ (flattenBinary n o = [n] ∧ ∀ sp a b, n ≠ EBin sp o a b).
Proof.
  destruct n as [| | | |sp o' a b|]; try (right; split; [done|congruence]).
  cbn. case_decide; [subst; left; eauto|right; split; [done|congruence]].
Qed.

Section display.
Context {host : Host}.

(** ** The readings of a context *)

(** A token count of the context. *)
Definition tok (env : renv) (v : bvar) : option num :=
  match own (tokens (context env)) (bvar_text v) with Some (JNum x) => Some x | _ => None end.

Definition cond_holds (env : renv) (c : TokenTierCondition) : bool :=
  match tok env (c_var c) with
  | Some x => default false (number_comparison (c_op c) x (c_value c))
  | None => false
  end.

Definition positive (env : renv) (v : bvar) : bool :=
  match tok env v with Some x => ngtb x NZERO | None => false end.

(** The request has audio input or output. *)
Definition audio_present (env : renv) : bool := positive env Vai || positive env Vao.

Definition tier_holds (env : renv) (t : TokenTier) : bool :=
  forallb (cond_holds env) (t_conditions t) &&
  match t_conditionText t with
  | Some text => if jseq text (js "Audio requests") then audio_present env else true
  | None => true
  end.

Definition first_match (env : renv) (tiers : list TokenTier) : option TokenTier :=
  List.find (tier_holds env) tiers.

(** The quantity billed under a displayed variable; the input price [p]
    may also be charged on the text remainder [max(len - ai, 0)]. *)
Definition quantity (env : renv) (v : bvar) (q : num) : Prop :=
  tok env v = Some q ∨
  v = Vp ∧ ∃ l a z, tok env Vlen = Some l ∧ tok env Vai = Some a ∧ neqb z NZERO = true ∧
    (q = nmax (nsub l a) z ∨ q = nmax z (nsub l a)).

Definition same_amount (p p' : num) : Prop :=
  p = p' ∨ ∃ s s', p = S754_zero s ∧ p' = S754_zero s'.

(** What one displayed price contributes. *)
Definition charge (env : renv) (vp : bvar * num) (x : num) : Prop :=
  ∃ q p, quantity env vp.1 q ∧ same_amount vp.2 p ∧ (x = nmul q p ∨ x = nmul p q).

(** [total] is the floating-point sum of [xs] in order, in some bracketing. *)
Inductive is_sum : list num → num → Prop :=
| sum_one x : is_sum [x] x
| sum_app xs ys x y : is_sum xs x → is_sum ys y → is_sum (xs ++ ys) (nadd x y).

Definition linear_cost (env : renv) (prices : list (bvar * num)) (cost : num) : Prop :=
  ∃ xs, Forall2 (charge env) prices xs ∧ is_sum xs cost.

(** The run from [st] to [st'] with value [x] charged tier [t]. *)
Definition charged (env : renv) (t : TokenTier) (x : num) (st st' : rstate) : Prop :=
  matchedTier st' = t_label t ∧
  match t_billingUnit t with
  | URequest => ∃ amount, t_fixedPrice t = Some amount ∧ fixedPrice st' = Some amount ∧
      billingUnit st' = URequest ∧ x = nmul amount (nZ 1000000)
  | UToken => linear_cost env (t_prices t) x ∧
      billingUnit st' = billingUnit st ∧ fixedPrice st' = fixedPrice st
  end.

(** The image count multiplies a cost, once per enclosing factor. *)
Inductive image_scaled (env : renv) (x : num) : num → Prop :=
| scaled_refl : image_scaled env x x
| scaled_l y : image_scaled env x y →
    image_scaled env x (nmul (default (nZ 1) (imageCount (context env))) y)
| scaled_r y : image_scaled env x y →
    image_scaled env x (nmul y (default (nZ 1) (imageCount (context env)))).

Definition tier_charged (env : renv) (t : TokenTier) (cost : num) (st st' : rstate) : Prop :=
  ∃ x, charged env t x st st' ∧ image_scaled env x cost ∧ (t_imageCount t = false → cost = x).

(** ** Leaves *)

Lemma evaluate_lit env d sp v st r st' :
  evaluate env d (ELit sp v) st = Ok (r, st') → r = literal_value v ∧ st' = st.
Proof. intros H%evaluate_inv. destruct H as (_ & H & _). cbn in H. by injection H as <- <-. Qed.

Lemma evaluate_var env d sp v st r st' :
  evaluate env d (EVar sp v) st = Ok (r, st') →
  st' = st ∧ if decide (v = Vimage_count) then value r = JNum (default (nZ 1) (imageCount (context env)))
             else ∃ x, tok env v = Some x ∧ value r = JNum x.
Proof.
  intros H%evaluate_inv. destruct H as (_ & H & _). cbn [eval_node] in H.
  apply bind_Ok in H as (x & Hx & [= <- <-]). split; [done|].
  unfold read_variable in Hx. unfold tok.
  destruct v; cbn [decide_rel] in *; repeat case_match; try done; simplify_eq/=; eauto.
Qed.

Lemma evaluate_binary env d sp o a b st r st' :
  o ≠ Oand → o ≠ Oor →
  evaluate env d (EBin sp o a b) st = Ok (r, st') →
  ∃ x y st1, evaluate env (S d) a st = Ok (x, st1) ∧ evaluate env (S d) b st1 = Ok (y, st') ∧
    binary_values (start sp) o x y = Ok r.
Proof.
  intros Ha Ho H%evaluate_inv. destruct H as (_ & H & _).
  destruct o; try done; cbn -[evaluate binary_values] in H;
    apply bind_Ok in H as ([x st1] & H1 & H); apply bind_Ok in H as ([y st2] & H2 & H);
    apply bind_Ok in H as (r' & Hr & [= <- <-]); eauto 10.
Qed.

Lemma tokenCondition_eval env part c d st r st' :
  tokenCondition part = Ok c → evaluate env d part st = Ok (r, st') →
  st' = st ∧ value r = JBool (cond_holds env c).
Proof.
  intros Hc H. unfold tokenCondition in Hc.
  destruct part as [| | | |sp o [|spv v| | | |] [spl [x i| | |]| | | | |]|]; try done.
  destruct (_ && _) eqn:Hg; [|done]. injection Hc as <-. bools.
  apply evaluate_binary in H as (a & b & st1 & Ha & Hb & H); [|by destruct o..].
  apply evaluate_var in Ha as [-> Ha]. apply evaluate_lit in Hb as [-> ->].
  rewrite decide_False in Ha by (by destruct v). destruct Ha as (y & Hy & Ha).
  split; [done|]. unfold cond_holds. cbn [c_var c_op c_value]. rewrite Hy.
  unfold binary_values in H. rewrite Ha in H. cbn in H.
  destruct o; try done; by injection H as <-.
Qed.

Lemma tokenConditions_eval env n : ∀ cs d st r st',
  tokenConditions n = Ok cs → evaluate env d n st = Ok (r, st') →
  st' = st ∧ value r = JBool (forallb (cond_holds env) cs).
Proof.
  unfold tokenConditions.
  induction n as [n IH] using node_rec_children. intros cs d st r st' Hc H.
  destruct (flattenBinary_cases n Oand) as [(sp & a & b & -> & Hf)|[Hf _]]; rewrite Hf in Hc.
  - apply rmap_app in Hc as (c1 & c2 & H1 & H2 & ->).
    apply Forall_cons in IH as [IHa IH]. apply Forall_cons in IH as [IHb _].
    apply evaluate_inv in H as (_ & H & _). cbn -[evaluate] in H.
    apply bind_Ok in H as ([x s] & Hx & H). apply bind_Ok in Hx as ([r1 s1] & Hx & Hb).
    apply as_boolean_Ok in Hb as [i [= -> ->]].
    apply (IHa _ _ _ _ _ H1) in Hx as [-> [= ->]]. rewrite forallb_app.
    destruct (forallb _ c1); cbn -[evaluate] in H |- *; [|by injection H as <- <-].
    apply bind_Ok in H as ([y s2] & Hy & [= <- <-]). apply bind_Ok in Hy as ([r2 s3] & Hy & Hb).
    apply as_boolean_Ok in Hb as [j [= -> ->]]. cbn.
    exact (IHb _ _ _ _ _ H2 Hy).
  - apply rmap_single in Hc as (c & Hc & ->). cbn. rewrite andb_true_r. by eapply tokenCondition_eval.
Qed.

(** ** Prices *)

Lemma zero_num x : neqb x NZERO = true → ∃ s, x = S754_zero s.
Proof. destruct x as [s|[]| |[] m e]; try done. eauto. Qed.

Lemma ngtb_zero x z : neqb z NZERO = true → ngtb x z = ngtb x NZERO.
Proof. intros [s ->]%zero_num. by destruct x. Qed.

Lemma price_literal_eval env n p d st r st' :
  nonnegativePriceLiteral n = Some p → evaluate env d n st = Ok (r, st') →
  st' = st ∧ ∃ p', value r = JNum p' ∧ same_amount p p'.
Proof.
  intros Hp H. destruct n as [sp [x i| | |]| | |sp [] a| |]; try done; cbn in Hp.
  - destruct (ngeb x NZERO); [|done]. injection Hp as <-. apply evaluate_lit in H as [-> ->].
    split; [done|]. exists x. split; [done|by left].
  - destruct (is_zero_literal a) eqn:Hz; [|done]. injection Hp as <-.
    destruct a as [spa [x i| | |]| | | | |]; try done.
    apply zero_num in Hz as [s ->].
    apply evaluate_inv in H as (_ & H & _). cbn -[evaluate] in H.
    apply bind_Ok in H as ([[y j] s1] & Hy & [= <- <-]). apply bind_Ok in Hy as ([r1 s2] & Hy & Hn).
    apply as_numeric_Ok in Hn as [= -> ->]. apply evaluate_lit in Hy as [[= -> ->] ->].
    split; [done|]. eexists. split; [done|]. right. cbn. eauto.
Qed.

Lemma zero_literal_eval env n d st r st' :
  is_zero_literal n = true → evaluate env d n st = Ok (r, st') →
  st' = st ∧ ∃ z, value r = JNum z ∧ neqb z NZERO = true.
Proof.
  destruct n as [sp [x i| | |]| | | | |]; try done. cbn. intros Hz H.
  apply evaluate_lit in H as [-> ->]. eauto.
Qed.

Lemma remainder_eval env n d st r st' :
  is_text_remainder n = true → evaluate env d n st = Ok (r, st') →
  st' = st ∧ ∃ l a, tok env Vlen = Some l ∧ tok env Vai = Some a ∧ value r = JNum (nsub l a).
Proof.
  destruct n as [| | | |sp o a b|]; try done. destruct o; try done.
  destruct a as [|sa va| | | |]; try done. destruct va; try done.
  destruct b as [|sb vb| | | |]; try done. destruct vb; try done. intros _ H.
  apply evaluate_binary in H as (x & y & s1 & Hx & Hy & H); [|done..].
  apply evaluate_var in Hx as [-> (l & Hl & Hx)]. apply evaluate_var in Hy as [-> (a & Ha & Hy)].
  split; [done|]. unfold binary_values in H. rewrite Hx, Hy in H. cbn in H. injection H as <-. eauto.
Qed.

Lemma price_variable_eval env n v d st r st' :
  price_variable n = Ok v → evaluate env d n st = Ok (r, st') →
  st' = st ∧ ∃ q, value r = JNum q ∧ quantity env v q.
Proof.
  intros Hv H. destruct n as [|sp w|sp [] [|a [|b [|? ?]]]| | |]; try done.
  - cbn in Hv. destruct (is_token_input w) eqn:Hw; [|done]. injection Hv as ->.
    apply evaluate_var in H as [-> H]. rewrite decide_False in H by (by destruct v).
    destruct H as (x & Hx & H). split; [done|]. exists x. split; [done|by left].
  - cbn in Hv. apply evaluate_inv in H as (_ & H & _). cbn -[evaluate] in H.
    apply bind_Ok in H as ([[x i] s1] & Hx & H). apply bind_Ok in Hx as ([r1 s2] & Hx & Hn).
    apply as_numeric_Ok in Hn as [= -> ->].
    apply bind_Ok in H as ([[y j] s3] & Hy & [= <- <-]). apply bind_Ok in Hy as ([r2 s4] & Hy & Hn).
    apply as_numeric_Ok in Hn as [= -> ->]. destruct (is_zero_literal a) eqn:Hza.
    + destruct (is_text_remainder b) eqn:Hb; [|done]. injection Hv as <-.
      eapply zero_literal_eval in Hx as [-> (z & [= ->] & Hz)]; [|done].
      eapply remainder_eval in Hy as [-> (l & w & Hl & Ha & [= ->])]; [|done].
      split; [done|]. eexists. split; [done|]. right. split; [done|]. exists l, w, z. auto.
    + destruct (is_zero_literal b) eqn:Hzb; [|done]. cbn in Hv.
      destruct (is_text_remainder a) eqn:Hb; [|done]. injection Hv as <-.
      eapply zero_literal_eval in Hy as [-> (z & [= ->] & Hz)]; [|done].
      eapply remainder_eval in Hx as [-> (l & w & Hl & Ha & [= ->])]; [|done].
      split; [done|]. eexists. split; [done|]. right. split; [done|]. exists l, w, z. auto.
Qed.

Lemma price_term_eval env n acc acc' d st r st' :
  price_term n acc = Ok acc' → evaluate env d n st = Ok (r, st') →
  st' = st ∧ ∃ vp x, acc' = acc ++ [vp] ∧ value r = JNum x ∧ charge env vp x.
Proof.
  intros Hp H. destruct n as [| | | |sp [] a b|]; try done. cbn -[nonnegativePriceLiteral] in Hp.
  apply bind_Ok in Hp as ([input price] & Hip & Hp). apply bind_Ok in Hp as (v & Hv & Hp).
  destruct (assoc acc v); [done|]. injection Hp as <-.
  apply evaluate_binary in H as (x & y & s1 & Hx & Hy & H); [|done..].
  destruct (nonnegativePriceLiteral b) as [p|] eqn:Hb.
  - injection Hip as <- <-. eapply price_variable_eval in Hx as [-> (q & Hq & Hqq)]; [|done].
    eapply price_literal_eval in Hy as [-> (p' & Hp' & Hpp)]; [|done].
    unfold binary_values in H. rewrite Hq, Hp' in H. cbn in H. injection H as <-.
    split; [done|]. do 2 eexists. conjs; [done..|]. exists q, p'. cbn. auto.
  - destruct (nonnegativePriceLiteral a) as [p|] eqn:Ha; [|done].
    injection Hip as <- <-. eapply price_literal_eval in Hx as [-> (p' & Hp' & Hpp)]; [|done].
    eapply price_variable_eval in Hy as [-> (q & Hq & Hqq)]; [|done].
    unfold binary_values in H. rewrite Hq, Hp' in H. cbn in H. injection H as <-.
    split; [done|]. do 2 eexists. conjs; [done..|]. exists q, p'. cbn. auto.
Qed.

(** A sum of priced terms. *)
Lemma price_sum_eval env n : ∀ acc acc' d st r st',
  rfold price_term (flattenBinary n Oadd) acc = Ok acc' → evaluate env d n st = Ok (r, st') →
  st' = st ∧ ∃ prices x, acc' = acc ++ prices ∧ value r = JNum x ∧ linear_cost env prices x.
Proof.
  induction n as [n IH] using node_rec_children. intros acc acc' d st r st' Hp H.
  destruct (flattenBinary_cases n Oadd) as [(sp & a & b & -> & Hf)|[Hf _]]; rewrite Hf in Hp.
  - rewrite rfold_app in Hp. apply bind_Ok in Hp as (mid & H1 & H2).
    apply Forall_cons in IH as [IHa IH]. apply Forall_cons in IH as [IHb _].
    apply evaluate_binary in H as (x & y & s1 & Hx & Hy & H); [|done..].
    apply (IHa _ _ _ _ _ _ H1) in Hx as [-> (p1 & x1 & -> & Hx & xs1 & Hc1 & Hs1)].
    apply (IHb _ _ _ _ _ _ H2) in Hy as [-> (p2 & x2 & -> & Hy & xs2 & Hc2 & Hs2)].
    unfold binary_values in H. rewrite Hx, Hy in H. cbn in H. injection H as <-.
    split; [done|]. exists (p1 ++ p2), (nadd x1 x2). conjs; [by rewrite app_assoc|done|].
    exists (xs1 ++ xs2). split; [by apply Forall2_app|by constructor].
  - cbn in Hp. apply bind_Ok in Hp as (acc1 & Hp & [= <-]).
    eapply price_term_eval in H as [-> (vp & x & -> & Hx & Hc)]; [|done].
    split; [done|]. exists [vp], x. conjs; [done..|]. exists [x]. split; [by repeat constructor|constructor].
Qed.

(** ** Tiers *)

Lemma evaluate_tier env d sp args st r st' :
  evaluate env d (ECall sp Ftier args) st = Ok (r, st') →
  ∃ label body rest name x i j s1 s2, args = label :: body :: rest ∧
    evaluate env (S d) label st = Ok (RV (JStr name) i, s1) ∧
    evaluate env (S d) body s1 = Ok (RV (JNum x) j, s2) ∧
    r = RV (JNum x) false ∧ st' = set_tier name s2.
Proof.
  intros H%evaluate_inv. destruct H as (_ & H & _).
  destruct args as [|label rest]; [done|]. cbn -[evaluate] in H.
  apply bind_Ok in H as ([name s1] & Hl & H). apply bind_Ok in Hl as ([r1 s] & Hl & Hs).
  apply as_string_Ok in Hs as [i [= -> ->]]. destruct rest as [|body rest]; [done|].
  apply bind_Ok in H as ([[x j] s2] & Hb & [= <- <-]). apply bind_Ok in Hb as ([r2 s'] & Hb & Hn).
  apply as_numeric_Ok in Hn as [= -> ->]. eauto 20.
Qed.

Lemma fixed_body_Some env body amount d st r st' :
  fixed_body body = Ok (Some amount) → evaluate env d body st = Ok (r, st') →
  value r = JNum (nmul amount (nZ 1000000)) ∧ st' = set_fixed amount st.
Proof.
  intros Hb H. destruct body as [| |sp [] [|[spl [x i| | |]| | | | |] rest]| | |]; try done.
  injection Hb as ->. apply evaluate_inv in H as (_ & H & _). cbn -[evaluate] in H.
  apply bind_Ok in H as ([[y j] s1] & Hy & [= <- <-]). apply bind_Ok in Hy as ([r1 s] & Hy & Hn).
  apply as_numeric_Ok in Hn as [= -> ->]. by apply evaluate_lit in Hy as [[= -> ->] ->].
Qed.

Lemma tokenTier_eval env n cs t d st r st' :
  tokenTier n cs = Ok t → evaluate env d n st = Ok (r, st') →
  ∃ x, value r = JNum x ∧ charged env t x st st'.
Proof.
  intros Ht H. destruct n as [| |sp [] [|[spl [|label| |]| | | | |] [|body rest]]| | |]; try done.
  cbn [tokenTier] in Ht. apply bind_Ok in Ht as (fixed & Hf & Ht).
  apply evaluate_tier in H as (l & b & rest' & name & x & i & j & s1 & s2 & [= <- <- <-] & Hl & Hb & -> & ->).
  apply evaluate_lit in Hl as [[= -> ->] ->]. destruct fixed as [amount|].
  - injection Ht as <-. eapply fixed_body_Some in Hb as [[= ->] ->]; [|done].
    eexists. split; [done|]. split; [done|]. cbn. eauto.
  - apply bind_Ok in Ht as (prices & Hp & Ht).
    eapply price_sum_eval in Hb as [-> (ps & y & Hps & [= ->] & Hlin)]; [|done].
    cbn in Hps. subst ps. destruct prices as [|vp prices]; [done|]. injection Ht as <-.
    eexists. split; [done|]. split; [done|]. done.
Qed.

Lemma charged_pre env t x st0 st st' :
  billingUnit st = billingUnit st0 → fixedPrice st = fixedPrice st0 →
  charged env t x st st' → charged env t x st0 st'.
Proof. unfold charged. intros -> ->. done. Qed.

Lemma trace_rule_price env n b st :
  billingUnit (trace_rule env n b st) = billingUnit st ∧
  fixedPrice (trace_rule env n b st) = fixedPrice st.
Proof. unfold trace_rule. by destruct (find_index _ _), b. Qed.

(** What a table read from [n] says about a run of [n]. *)
Definition table_correct (env : renv) (tiers : list TokenTier) (r : RuntimeValue)
    (st st' : rstate) : Prop :=
  ∃ t x, first_match env tiers = Some t ∧ value r = JNum x ∧ tier_charged env t x st st'.

Lemma evaluate_cond env d sp c y n st r st' :
  evaluate env d (ECond sp c y n) st = Ok (r, st') →
  ∃ b i st1, evaluate env (S d) c st = Ok (RV (JBool b) i, st1) ∧
    evaluate env (S d) (if b then y else n) (trace_rule env (ECond sp c y n) b st1) = Ok (r, st').
Proof.
  intros H%evaluate_inv. destruct H as (_ & H & _). cbn -[evaluate] in H.
  apply bind_Ok in H as ([b s1] & Hc & H). apply bind_Ok in Hc as ([r1 s] & Hc & Hb).
  apply as_boolean_Ok in Hb as [i [= -> ->]]. exists b, i, s1. by destruct b.
Qed.

Lemma charged_tier env t x st st' : charged env t x st st' → tier_charged env t x st st'.
Proof. intros H. exists x. conjs; [done|constructor|done]. Qed.

Lemma tier_chain_app n : ∀ pre tiers, tier_chain n pre = Ok tiers → ∃ post, tiers = pre ++ post.
Proof.
  induction n as [n IH] using node_rec_children. intros pre tiers H.
  destruct n as [| | | | |sp c y n]; cbn [tier_chain] in H;
    try (apply bind_Ok in H as (t & _ & [= <-]); by eauto).
  apply bind_Ok in H as (cs & _ & H). apply bind_Ok in H as (t & _ & H).
  apply Forall_cons in IH as [_ IH]. apply Forall_cons in IH as [_ IH].
  apply Forall_cons in IH as [IHn _]. apply IHn in H as (post & ->).
  rewrite <- app_assoc. eauto.
Qed.

Lemma tokenTier_conditions n cs t :
  tokenTier n cs = Ok t → t_conditions t = cs ∧ t_conditionText t = None ∧ t_imageCount t = false.
Proof.
  intros Ht. destruct n as [| |? [] [|[? [|label| |]| | | | |] [|body rest]]| | |]; try done.
  cbn [tokenTier] in Ht. apply bind_Ok in Ht as ([amount|] & _ & Ht); [by injection Ht as <-|].
  apply bind_Ok in Ht as ([|vp prices] & _ & Ht); [done|by injection Ht as <-].
Qed.

Lemma tier_chain_eval env n : ∀ pre tiers d st r st',
  tier_chain n pre = Ok tiers → evaluate env d n st = Ok (r, st') →
  ∃ post, tiers = pre ++ post ∧ table_correct env post r st st'.
Proof.
  induction n as [n IH] using node_rec_children. intros pre tiers d st r st' Hc H.
  assert (Hfall : (fallback ← tokenTier n []; Ok (pre ++ [fallback])) = Ok tiers →
    ∃ post, tiers = pre ++ post ∧ table_correct env post r st st').
  { intros Hf. apply bind_Ok in Hf as (t & Ht & [= <-]). exists [t]. split; [done|].
    eapply tokenTier_eval in H as (x & Hx & H4); [|done].
    apply tokenTier_conditions in Ht as (H1 & H2 & H3).
    exists t, x. conjs; [|done|by apply charged_tier].
    cbn. unfold tier_holds. by rewrite H1, H2. }
  destruct n as [| | | | |sp c y n]; try (by apply Hfall). clear Hfall.
  apply Forall_cons in IH as [_ IH]. apply Forall_cons in IH as [_ IH].
  apply Forall_cons in IH as [IHn _].
  cbn [tier_chain] in Hc. apply bind_Ok in Hc as (cs & Hcs & Hc).
  apply bind_Ok in Hc as (t & Ht & Hc).
  apply evaluate_cond in H as (b & i & st1 & Hb & H).
  eapply tokenConditions_eval in Hb as [-> [= Hb]]; [|done].
  destruct (trace_rule_price env (ECond sp c y n) b st) as [Hu Hf].
  destruct b.
  - apply tier_chain_app in Hc as (post & ->).
    rewrite <- app_assoc. eexists. split; [done|].
    eapply tokenTier_eval in H as (x & Hx & H4); [|done].
    apply tokenTier_conditions in Ht as (H1 & H2 & H3).
    exists t, x. conjs; [|done|eapply charged_tier, charged_pre; [exact Hu|exact Hf|done]].
    cbn. unfold tier_holds. by rewrite H1, H2, <- Hb.
  - pose proof (tokenTier_conditions _ _ _ Ht) as Hcond.
    destruct (IHn _ _ _ _ _ _ Hc H) as (post & -> & t' & x & Hfm & Hx & y' & Hch & Hsc).
    rewrite <- app_assoc. eexists. split; [done|].
    exists t', x. conjs; [|done|exists y'; split; [eapply charged_pre; [exact Hu|exact Hf|done]|done]].
    cbn. unfold tier_holds at 1. destruct Hcond as (-> & -> & _). by rewrite <- Hb.
Qed.

(** ** Whole tables *)

Lemma readTokenTierChain_cases n :
  (∃ sp spv pricing, (n = EBin sp Omul (EVar spv Vimage_count) pricing ∨
                      n = EBin sp Omul pricing (EVar spv Vimage_count)) ∧
     readTokenTierChain n = (tiers ← readTokenTierChain pricing; Ok (map with_imageCount tiers)))
  ∨ (∃ sp c yes no tiers, n = ECond sp c yes no ∧ is_audio_condition c = true ∧
       audio_tiers yes no = Ok (Some tiers) ∧ readTokenTierChain n = Ok tiers)
  ∨ readTokenTierChain n = tier_chain n []
  ∨ ∃ e, readTokenTierChain n = Err e.
Proof.
  destruct n as [| | | |sp o a b|sp c yes no]; try (by right; right; left).
  - destruct (decide (o = Omul)) as [->|Ho]; [|right; right; left; by destruct o].
    assert (Ha : (∃ spv, a = EVar spv Vimage_count) ∨ ∀ spv, a ≠ EVar spv Vimage_count).
    { destruct a as [|spv v| | | |]; try (right; congruence).
      destruct (decide (v = Vimage_count)) as [->|]; [left; eauto|right; congruence]. }
    assert (Hb : (∃ spv, b = EVar spv Vimage_count) ∨ ∀ spv, b ≠ EVar spv Vimage_count).
    { destruct b as [|spv v| | | |]; try (right; congruence).
      destruct (decide (v = Vimage_count)) as [->|]; [left; eauto|right; congruence]. }
    destruct Ha as [[spv ->]|Ha]; [left; exists sp, spv, b; auto|].
    destruct Hb as [[spv ->]|Hb].
    + left. exists sp, spv, a. split; [auto|].
      destruct a as [|? []| | | |]; try done.
    + right; right; left.
      destruct a as [|spa [] | | | |]; try (by edestruct Ha);
        (destruct b as [|spb []| | | |]; try (by edestruct Hb); done).
  - cbn [readTokenTierChain]. destruct (is_audio_condition c) eqn:Hc; [|by right; right; left].
    destruct (audio_tiers yes no) as [[tiers|]|e] eqn:Ha; cbn [mbind result_bind].
    + right; left. exists sp, c, yes, no, tiers. auto.
    + right; right; by left.
    + right; right; right. eauto.
Qed.

Lemma first_match_image env tiers :
  first_match env (map with_imageCount tiers) = with_imageCount <$> first_match env tiers.
Proof.
  unfold first_match. induction tiers as [|t tiers IH]; [done|]. cbn.
  change (tier_holds env (with_imageCount t)) with (tier_holds env t).
  destruct (tier_holds env t); [done|apply IH].
Qed.

Lemma table_image env tiers x y r r' st st' :
  value r = JNum x →
  (y = nmul (default (nZ 1) (imageCount (context env))) x ∨
   y = nmul x (default (nZ 1) (imageCount (context env)))) →
  value r' = JNum y →
  table_correct env tiers r st st' → table_correct env (map with_imageCount tiers) r' st st'.
Proof.
  intros Hx Hy Hr' (t & x' & Hf & Hx' & z & Hch & Hs & _). rewrite Hx in Hx'. injection Hx' as <-.
  exists (with_imageCount t), y. rewrite first_match_image, Hf. conjs; [done..|].
  exists z. conjs; [done| |done]. destruct Hy as [->| ->]; by constructor.
Qed.

Lemma audio_test_eval env n v d st r st' :
  audio_test n = Some v → evaluate env d n st = Ok (r, st') →
  st' = st ∧ value r = JBool (positive env v).
Proof.
  intros Hv H. destruct n as [| | | |sp o [|spv w| | | |] b|]; try done; try (by destruct o).
  destruct o; try done. assert (w = v ∧ is_zero_literal b = true ∧ v ≠ Vimage_count) as (-> & Hz & Hne)
    by (cbn in Hv; destruct w; try done; destruct (is_zero_literal b); by simplify_eq).
  apply evaluate_binary in H as (x & y & s1 & Hx & Hy & H); [|done..].
  apply evaluate_var in Hx as [-> Hx]. rewrite decide_False in Hx by done. destruct Hx as (q & Hq & Hx).
  eapply zero_literal_eval in Hy as [-> (z & Hy & Hzz)]; [|done].
  unfold binary_values in H. rewrite Hx, Hy in H. cbn in H. injection H as <-.
  split; [done|]. unfold positive. rewrite Hq. cbn. by rewrite ngtb_zero.
Qed.

Lemma audio_condition_eval env c d st r st' :
  is_audio_condition c = true → evaluate env d c st = Ok (r, st') →
  st' = st ∧ value r = JBool (audio_present env).
Proof.
  intros Hc H. destruct c as [| | | |sp o a b|]; try done. destruct o; try done.
  cbn [is_audio_condition] in Hc. bools. rewrite bool_decide_eq_true in *.
  assert (Hab : ∃ va vb, audio_test a = Some va ∧ audio_test b = Some vb ∧
    (va = Vai ∧ vb = Vao ∨ va = Vao ∧ vb = Vai)).
  { destruct (audio_test a) as [va|], (audio_test b) as [vb|]; cbn in *; set_solver. }
  destruct Hab as (va & vb & Ha & Hb & Hab). apply evaluate_inv in H as (_ & H & _). cbn in H.
  apply bind_Ok in H as ([x s] & Hx & H). apply bind_Ok in Hx as ([r1 s1] & Hx & Hxb).
  apply as_boolean_Ok in Hxb as [i [= -> ->]].
  eapply audio_test_eval in Hx as [-> [= Hx]]; [|done]. unfold audio_present.
  destruct x; cbn in H.
  - injection H as <- <-. split; [done|]. cbn. f_equal.
    destruct Hab as [[-> ->]|[-> ->]]; rewrite <- Hx; by rewrite ?orb_true_r.
  - apply bind_Ok in H as ([y s2] & Hy & [= <- <-]). apply bind_Ok in Hy as ([r2 s3] & Hy & Hyb).
    apply as_boolean_Ok in Hyb as [j [= -> ->]].
    eapply audio_test_eval in Hy as [-> [= Hy]]; [|done]. split; [done|]. cbn. f_equal.
    destruct Hab as [[-> ->]|[-> ->]]; rewrite <- Hx, <- Hy; by rewrite ?orb_false_r.
Qed.

Lemma audio_tiers_Ok yes no tiers :
  audio_tiers yes no = Ok (Some tiers) →
  ∃ a t, tokenTier yes [] = Ok a ∧ tokenTier no [] = Ok t ∧
    tiers = [with_conditionText (js "Audio requests") a; with_conditionText (js "Text-only requests") t].
Proof.
  unfold audio_tiers. destruct (tokenTier yes []) as [a|[]], (tokenTier no []) as [t|[]]; cbn;
    intros H; try done. injection H as <-. eauto.
Qed.

Lemma readTokenTierChain_eval env n : ∀ tiers d st r st',
  readTokenTierChain n = Ok tiers → evaluate env d n st = Ok (r, st') →
  table_correct env tiers r st st'.
Proof.
  induction n as [n IH] using node_rec_children. intros tiers d st r st' Ht H.
  destruct (readTokenTierChain_cases n) as
    [(sp & spv & pricing & Hn & Hr)|[(sp & c & yes & no & ts & -> & Hc & Ha & Hr)|[Hr|[e Hr]]]];
    rewrite Hr in Ht; [| | |done].
  - apply bind_Ok in Ht as (ts & Hts & [= <-]).
    assert (Hev : ∃ x y, evaluate env (S d) pricing st = Ok (x, st') ∧
      value x = JNum y ∧ ∃ z, value r = JNum z ∧
      (z = nmul (default (nZ 1) (imageCount (context env))) y ∨
       z = nmul y (default (nZ 1) (imageCount (context env))))).
    { destruct Hn as [->| ->]; apply evaluate_binary in H as (x & y & s1 & Hx & Hy & H); try done.
      - apply evaluate_var in Hx as [-> Hx]. rewrite decide_True in Hx by done.
        unfold binary_values in H. rewrite Hx in H. destruct (value y) eqn:Hv; try done.
        cbn in H. injection H as <-. exists y. eauto 10.
      - apply evaluate_var in Hy as [-> Hy]. rewrite decide_True in Hy by done.
        unfold binary_values in H. rewrite Hy in H. destruct (value x) eqn:Hv; try done.
        cbn in H. injection H as <-. exists x. eauto 10. }
    destruct Hev as (x & y & Hev & Hx & z & Hz & Hm).
    eapply table_image; [exact Hx|exact Hm|exact Hz|]. rewrite Forall_forall in IH.
    eapply IH; [|done..]. destruct Hn as [->| ->]; cbn; set_solver.
  - injection Ht as <-. apply audio_tiers_Ok in Ha as (a & t & Ha & Hno & ->).
    apply evaluate_cond in H as (b & i & s1 & Hb & H).
    eapply audio_condition_eval in Hb as [-> [= Hb]]; [|done].
    destruct (trace_rule_price env (ECond sp c yes no) b st) as [Hu Hf].
    pose proof (tokenTier_conditions _ _ _ Ha) as (Ha1 & _ & Ha3).
    pose proof (tokenTier_conditions _ _ _ Hno) as (Ht1 & _ & Ht3).
    unfold table_correct, first_match, tier_holds. cbn. rewrite Ha1, Ht1. cbn.
    change (jseq (js "Audio requests") (js "Audio requests")) with true.
    change (jseq (js "Text-only requests") (js "Audio requests")) with false. cbn. rewrite <- Hb.
    destruct b; (eapply tokenTier_eval in H as (x & Hx & Hch); [|done]);
      (do 2 eexists; split; [done|]; split; [exact Hx|]);
      (eapply charged_pre in Hch; [|exact Hu|exact Hf]); exists x; (conjs; [done|constructor|done]).
  - apply (tier_chain_eval env) with (d := d) (st := st) (r := r) (st' := st') in Ht; [|done].
    by destruct Ht as (post & -> & Ht).
Qed.
End display.
