(* ===== verification/PriceTableFacts.v ===== *)
(** * Time-dependent and task price tables

    The current tiers of a time-dependent price are those the evaluator takes,
    and the tiers of a task price are those that usage settles on. *)
From stdpp Require Import base list option numbers sets relations.
From Stdlib Require Import ZArith SpecFloat Lia.
From S2P Require Import Prelude.
From S2P Require Import JsString.
From S2P Require Import JsNumber.
From S2P Require Import Syntax.
From S2P Require Import Parser.
From S2P Require Import ParserFacts.
From S2P Require Import Compile.
From S2P Require Import Runtime.
From S2P Require Import CompileFacts.
From S2P Require Import RuntimeFacts.
From S2P Require Import EvalFacts.
From S2P Require Import Display.
From S2P Require Import DisplayFacts.

(** ** Time-dependent price tables

    [readTimeTokenPricing] evaluates the time conditions of an expression on
    their own, outside any request.  Its current tiers are the tiers of the
    branch that the evaluator takes at that time. *)

#[local] Arguments evaluate : simpl never.

Section time_display.
Context {host : Host}.

(** A time condition reads nothing but the clock. *)
Lemma time_condition_agree c env env' m :
  isTimeCondition c = Ok true → env_now env = env_now env' → subnode m c → agree_at env env' m.
Proof.
  intros Hc Hnow Hm. unfold isTimeCondition in Hc.
  apply bind_Ok in Hc as ([vs fs] & Hd & Hc).
  pose proof (visitExpression_height _ _ _ _ Hd) as Hh.
  destruct (expressionDependencies_spec c Hh) as (vs' & fs' & Hd' & Hv & Hf).
  rewrite Hd in Hd'. simplify_eq/=. apply andb_true_iff in Hc as [Hc H]. apply andb_true_iff in Hc as [Hc _].
  destruct vs' as [|v vs']; [|done]. rewrite forallb_forall in H.
  destruct m as [|sp v|sp f args| | |]; try done.
  - exfalso. assert (v ∈ ([] : list bvar)) by (apply Hv; eauto). set_solver.
  - assert (Hin : f ∈ fs') by (apply Hf; eauto).
    apply list_elem_of_In, H in Hin. by destruct f.
Qed.

Lemma time_condition_value env c d st b i st' :
  isTimeCondition c = Ok true → times_ok env st →
  evaluate env d c st = Ok (RV (JBool b) i, st') →
  evaluateBillingCondition (compiled env) c (env_now env) = Some b.
Proof.
  intros Hc Ht H. unfold evaluateBillingCondition, new_runtime. cbn.
  set (env' := {| compiled := compiled env; context := _; env_now := env_now env; headers := [] |}).
  set (st0 := {| requestRules := _; matchedTier := []; billingUnit := UToken;
                 fixedPrice := None; timeValues := [] |}).
  assert (Hag : ∀ d s, evaluate env d c s = evaluate env' d c s).
  { intros. apply evaluate_agree; [done|]. intros m Hm. by eapply time_condition_agree. }
  assert (Ht0 : times_ok env st0) by done.
  pose proof (evaluate_same env c d st st0 Ht Ht0) as Hs. rewrite H in Hs. cbn in Hs.
  destruct (evaluate env d c st0) as [[v s]|e] eqn:E; [|done]. destruct Hs as [<- _].
  apply (evaluate_depth env c d 0 st0) in E; [|lia]. by rewrite <- Hag, E.
Qed.

Definition path_holds (env : renv) (path : time_path) : Prop :=
  Forall (λ '(c, m), evaluateBillingCondition (compiled env) c (env_now env) = Some m) path.

Lemma holds_now_path env t :
  holds_now (compiled env) (env_now env) t = true ↔ path_holds env (tt_timeConditions t).
Proof.
  unfold holds_now, path_holds. rewrite forallb_forall, Forall_forall.
  split; intros H [c m] Hin; apply list_elem_of_In in Hin; specialize (H _ Hin); cbn in *;
    by rewrite bool_decide_eq_true in *.
Qed.

Lemma timeTierBranches_cond source sp c yes no path tiers :
  timeTierBranches source (ECond sp c yes no) path = Ok tiers →
  isTimeCondition c = Ok true →
  ∃ ty tn, timeTierBranches source yes (path ++ [(c, true)]) = Ok ty ∧
    timeTierBranches source no (path ++ [(c, false)]) = Ok tn ∧ tiers = ty ++ tn.
Proof.
  intros H Hc. cbn [timeTierBranches] in H. rewrite Hc in H. cbn [lift_throw mbind result_bind] in H.
  destruct (timeTierBranches source yes _) as [ty|[]], (timeTierBranches source no _) as [tn|[]];
    try done. injection H as <-. eauto.
Qed.

Lemma timeTierBranches_leaf source n path tiers :
  timeTierBranches source n path = Ok tiers →
  (∃ sp c yes no, n = ECond sp c yes no ∧ isTimeCondition c = Ok true) ∨
  ∃ chain, readTokenTierChain n = Ok chain ∧ tiers = map (time_tier source path) chain.
Proof.
  intros H.
  assert (Hleaf : (tiers ← readTokenTierChain n;
      match path with [] => null | _ => Ok (map (time_tier source path) tiers) end) = Ok tiers →
    ∃ chain, readTokenTierChain n = Ok chain ∧ tiers = map (time_tier source path) chain).
  { intros Hl. apply bind_Ok in Hl as (chain & Hc & Hl). exists chain. split; [done|].
    destruct path; by simplify_eq. }
  destruct n as [| | | | |sp c yes no]; try (right; by apply Hleaf).
  cbn [timeTierBranches] in H. apply bind_Ok in H as (timed & Hc & H).
  destruct (isTimeCondition c) as [b|] eqn:E; [|done]. injection Hc as <-.
  destruct b; [left; eauto 10|right; by apply Hleaf].
Qed.

Lemma timeTierBranches_path source n : ∀ path tiers,
  timeTierBranches source n path = Ok tiers →
  Forall (λ t, ∃ ext, tt_timeConditions t = path ++ ext) tiers.
Proof.
  induction n as [n IH] using node_rec_children. intros path tiers H.
  destruct (timeTierBranches_leaf _ _ _ _ H) as [(sp & c & yes & no & -> & Hc)|(chain & _ & ->)].
  - apply timeTierBranches_cond in H as (ty & tn & Hy & Hn & ->); [|done].
    apply Forall_cons in IH as [_ IH]. apply Forall_cons in IH as [IHy IH].
    apply Forall_cons in IH as [IHn _]. apply IHy in Hy. apply IHn in Hn.
    apply Forall_app. split; (eapply Forall_impl; [done|]); intros t [ext ->];
      rewrite <- app_assoc; eauto.
  - apply Forall_map, Forall_true. intros t. exists []. by rewrite app_nil_r.
Qed.

(** The branch not taken contributes no current tier. *)
Lemma branch_not_taken env source n path c b tiers :
  timeTierBranches source n (path ++ [(c, negb b)]) = Ok tiers →
  evaluateBillingCondition (compiled env) c (env_now env) = Some b →
  List.filter (holds_now (compiled env) (env_now env)) tiers = [].
Proof.
  intros H Hb. apply filter_none. eapply Forall_impl; [by eapply timeTierBranches_path|].
  intros t [ext Hext]. apply not_true_iff_false. rewrite holds_now_path, Hext.
  intros Hp. apply Forall_app in Hp as [Hp _]. apply Forall_app in Hp as [_ Hp].
  apply Forall_cons in Hp as [Hp _]. rewrite Hb in Hp. by destruct b.
Qed.

Definition current_correct (env : renv) (source : jsstr) (tiers : list TimeTokenTier)
    (r : RuntimeValue) (st st' : rstate) : Prop :=
  ∃ path chain,
    List.filter (holds_now (compiled env) (env_now env)) tiers = map (time_tier source path) chain ∧
    table_correct env chain r st st'.

Lemma table_correct_pre env chain r st0 st st' :
  billingUnit st = billingUnit st0 → fixedPrice st = fixedPrice st0 →
  table_correct env chain r st st' → table_correct env chain r st0 st'.
Proof.
  intros Hu Hf (t & x & H1 & H2 & y & H3 & H4). exists t, x. conjs; [done..|].
  exists y. split; [by eapply charged_pre|done].
Qed.

Lemma time_condition_marker_free c : isTimeCondition c = Ok true → marker_free c.
Proof.
  intros Hc sp f args Hs. unfold isTimeCondition in Hc.
  apply bind_Ok in Hc as ([vs fs] & Hd & Hc).
  pose proof (visitExpression_height _ _ _ _ Hd) as Hh.
  destruct (expressionDependencies_spec c Hh) as (vs' & fs' & Hd' & _ & Hf).
  rewrite Hd in Hd'. simplify_eq/=. apply andb_true_iff in Hc as [_ H]. rewrite forallb_forall in H.
  assert (Hin : f ∈ fs') by (apply Hf; eauto). apply list_elem_of_In, H in Hin. by destruct f.
Qed.

Lemma timeTierBranches_eval env source n : ∀ path tiers d st r st',
  timeTierBranches source n path = Ok tiers → evaluate env d n st = Ok (r, st') →
  times_ok env st → path_holds env path → current_correct env source tiers r st st'.
Proof.
  induction n as [n IH] using node_rec_children. intros path tiers d st r st' Hb H Ht Hp.
  destruct (timeTierBranches_leaf _ _ _ _ Hb) as [(sp & c & yes & no & -> & Hc)|(chain & Hr & ->)].
  2: { exists path, chain. split; [|by eapply readTokenTierChain_eval].
    apply filter_all, Forall_map, Forall_true. intros t. by apply holds_now_path. }
  apply timeTierBranches_cond in Hb as (ty & tn & Hy & Hn & ->); [|done].
  apply Forall_cons in IH as [_ IH]. apply Forall_cons in IH as [IHy IH].
  apply Forall_cons in IH as [IHn _].
  apply evaluate_cond in H as (b & i & st1 & Hbv & H).
  pose proof (time_condition_value _ _ _ _ _ _ _ Hc Ht Hbv) as Hv.
  pose proof (evaluate_times _ _ _ _ _ _ Ht Hbv) as Ht1.
  pose proof (evaluate_marker_free _ _ _ _ _ _ (time_condition_marker_free c Hc) Hbv) as (_ & Hu & Hf).
  destruct (trace_rule_price env (ECond sp c yes no) b st1) as [Hu' Hf'].
  assert (Hp' : path_holds env (path ++ [(c, b)])) by (apply Forall_app; by repeat constructor).
  assert (Hpost : ∀ side, current_correct env source side r
      (trace_rule env (ECond sp c yes no) b st1) st' →
    List.filter (holds_now (compiled env) (env_now env)) (ty ++ tn) =
    List.filter (holds_now (compiled env) (env_now env)) side →
    current_correct env source (ty ++ tn) r st st').
  { intros side (path' & chain & Hside & Htab) Heq. exists path', chain. rewrite Heq. split; [done|].
    eapply table_correct_pre; [| |done]; congruence. }
  destruct b.
  - eapply (Hpost ty); [eapply IHy; try done; by apply trace_rule_times|].
    rewrite List.filter_app, (branch_not_taken env _ _ path c true tn), app_nil_r by done. done.
  - eapply (Hpost tn); [eapply IHn; try done; by apply trace_rule_times|].
    rewrite List.filter_app, (branch_not_taken env _ _ path c false ty) by done. done.
Qed.
End time_display.

(** ** Task price tables

    [readTaskTierChain] reads tiers keyed by enumerated usage fields.  For
    usage that conforms to the schema, evaluation settles on the first
    displayed tier whose conditions hold (so the dropped unreachable branches
    are never taken), and the cost is the displayed constant plus unit prices. *)

#[local] Arguments evaluate : simpl never.

(** The usage reported for a task has the shape its schema declares. *)
Definition usage_conforms (schema : BillingUsageSchema) (u : list (jsstr * jsval)) : Prop :=
  ∀ field definition v, assoc schema field = Some definition → own u field = Some v →
    match f_type definition with
    | Some FBoolean => ∃ b, v = JBool b
    | _ => match f_enum definition with
           | Some values => ∃ s, v = JStr s ∧ str_in s values = true
           | None => True
           end
    end.

(** The same condition as a test over the fields of the schema. *)
Definition conforms_field (u : list (jsstr * jsval)) (entry : jsstr * BillingUsageFieldSchema) : bool :=
  match own u (fst entry) with
  | None => true
  | Some v =>
      match f_type (snd entry), v with
      | Some FBoolean, JBool _ => true
      | Some FBoolean, _ => false
      | _, _ => match f_enum (snd entry), v with
                | Some values, JStr s => str_in s values
                | Some _, _ => false
                | None, _ => true
                end
      end
  end.

Lemma assoc_elem {A} (l : list (jsstr * A)) k a : assoc l k = Some a → (k, a) ∈ l.
Proof.
  induction l as [|[k' a'] l IH]; [done|]. cbn. case_decide; intros; simplify_eq; set_solver.
Qed.

Lemma usage_conforms_test schema u : forallb (conforms_field u) schema = true → usage_conforms schema u.
Proof.
  intros H field definition v Hd Hv. apply assoc_elem in Hd.
  rewrite forallb_forall in H. specialize (H _ (proj1 (list_elem_of_In _ _) Hd)).
  unfold conforms_field in H. cbn [fst snd] in H. rewrite Hv in H.
  destruct (f_type definition) as [[]|], (f_enum definition), v; try done; eauto.
Qed.

Definition task_cond_holds (u : list (jsstr * jsval)) (c : jsstr * jsstr) : bool :=
  match own u c.1 with
  | Some (JStr s) => jseq s c.2
  | Some (JBool b) => jseq (bool_text b) c.2
  | _ => false
  end.

Definition task_first_match (u : list (jsstr * jsval)) (tiers : list TaskTier) : option TaskTier :=
  List.find (λ t, forallb (task_cond_holds u) (k_conditions t)) tiers.

(** What one unit price contributes: token units are priced per million. *)
Definition task_charge (schema : BillingUsageSchema) (u : list (jsstr * jsval))
    (fp : jsstr * num) (x : num) : Prop :=
  ∃ definition unit q p,
    assoc schema fp.1 = Some definition ∧ f_unit definition = Some unit ∧
    own u fp.1 = Some (JNum q) ∧ same_amount fp.2 p ∧
    if jseq unit (js "token") then ∃ m, neqb m (nZ 1000000) = true ∧ x = ndiv (nmul q p) m
    else x = nmul q p.

(** The constant summand, if the expression has one. *)
Definition task_constant (shown : option num) (cs : list num) : Prop :=
  match shown with
  | Some k => ∃ p, cs = [p] ∧ same_amount k p
  | None => cs = []
  end.

Definition task_cost (schema : BillingUsageSchema) (u : list (jsstr * jsval)) (t : TaskTier)
    (cost : num) : Prop :=
  ∃ shown cs xs ys, k_constant t = default NZERO shown ∧ task_constant shown cs ∧
    Forall2 (task_charge schema u) (k_unitPrices t) xs ∧ ys ≡ₚ cs ++ xs ∧ is_sum ys cost.

Section task_display.
Context {host : Host} (schema : BillingUsageSchema) (env : renv) (u : list (jsstr * jsval)).
Hypothesis Hu : usage (context env) = Some u.

Lemma usage_field_eval n field d st r st' :
  usage_field n = Ok field → evaluate env d n st = Ok (r, st') →
  st' = st ∧ value r = default JNull (own u field).
Proof using Hu.
  intros Hf H. destruct n as [| |sp [] [|[spl [|s| |]| | | | |] rest]| | |]; try done.
  injection Hf as ->. apply evaluate_inv in H as (_ & H & _). cbn in H.
  apply bind_Ok in H as ([p s1] & Hp & H). apply bind_Ok in Hp as ([r1 s2] & Hp & Hs).
  apply as_string_Ok in Hs as [i [= -> ->]]. apply evaluate_lit in Hp as [[= -> ->] ->].
  unfold eval_usage in H. rewrite Hu in H. cbn in H. by injection H as <- <-.
Qed.

Lemma equality_value pos x y r :
  binary_values pos Oeq x y = Ok r → value r = JBool (strict_eq (value x) (value y)).
Proof. unfold binary_values. case_match; [done|]. by intros [= <-]. Qed.

Lemma task_condition_eval inc term c reachable d st r st' :
  usage_conforms schema u →
  task_condition schema inc term = Ok (c, reachable) → evaluate env d term st = Ok (r, st') →
  st' = st ∧ value r = JBool (task_cond_holds u c) ∧
  (reachable = false → task_cond_holds u c = false).
Proof using Hu.
  intros Hconf Hc H. destruct term as [| | | |sp o a b|]; try done.
  destruct o; try done. cbn [task_condition] in Hc.
  apply bind_Ok in Hc as (field & Hf & Hc).
  apply evaluate_binary in H as (x & y & s1 & Hx & Hy & H); [|done..].
  eapply usage_field_eval in Hx as [-> Hx]; [|done].
  destruct b as [spb v| | | | |]; try done. apply evaluate_lit in Hy as [-> ->].
  destruct (assoc schema field) as [def|] eqn:Hdef; [|done].
  apply equality_value in H. rewrite Hx in H. split; [done|].
  specialize (Hconf field def). unfold task_cond_holds.
  destruct (f_type def) as [[]|] eqn:Ht; destruct v as [|s|b|]; try done;
    try (destruct inc; [|done]); try (destruct (f_enum def) as [values|] eqn:He; [|done]);
    injection Hc as <- <-; cbn [fst snd]; rewrite H; cbn [literal_value value].
  all: destruct (own u field) as [w|] eqn:Hw; cbn; [|done].
  all: specialize (Hconf w Hdef eq_refl).
  - destruct Hconf as (s' & -> & Hin). cbn. split; [done|]. intros Hs.
    destruct (jseq s' s) eqn:E; [|done]. apply jseq_eq in E as ->. congruence.
  - destruct Hconf as (b' & ->). cbn. split; [|done]. by destruct b, b'.
  - destruct Hconf as (s' & -> & Hin). cbn. split; [done|]. intros Hs.
    destruct (jseq s' s) eqn:E; [|done]. apply jseq_eq in E as ->. congruence.
Qed.

Lemma task_conjuncts_eval inc n : usage_conforms schema u → ∀ cs d st r st',
  rmap (task_condition schema inc) (flattenBinary n Oand) = Ok cs →
  evaluate env d n st = Ok (r, st') →
  st' = st ∧ value r = JBool (forallb (task_cond_holds u) (map fst cs)) ∧
  (forallb snd cs = false → forallb (task_cond_holds u) (map fst cs) = false).
Proof using Hu.
  intros Hconf. induction n as [n IH] using node_rec_children. intros cs d st r st' Hc H.
  destruct (flattenBinary_cases n Oand) as [(sp & a & b & -> & Hf)|[Hf _]]; rewrite Hf in Hc.
  2: { apply rmap_single in Hc as ([c reachable] & Hc & ->). cbn. rewrite !andb_true_r.
    by eapply task_condition_eval. }
  apply rmap_app in Hc as (c1 & c2 & H1 & H2 & ->).
  apply Forall_cons in IH as [IHa IH]. apply Forall_cons in IH as [IHb _].
  apply evaluate_inv in H as (_ & H & _). cbn in H.
  apply bind_Ok in H as ([x s] & Hx & H). apply bind_Ok in Hx as ([r1 s1] & Hx & Hb).
  apply as_boolean_Ok in Hb as [i [= -> ->]].
  destruct (IHa _ _ _ _ _ H1 Hx) as (-> & [= ->] & Ha).
  rewrite map_app, !forallb_app. destruct (forallb _ (map fst c1)); cbn in H |- *.
  - apply bind_Ok in H as ([y s2] & Hy & [= <- <-]). apply bind_Ok in Hy as ([r2 s3] & Hy & Hb).
    apply as_boolean_Ok in Hb as [j [= -> ->]]. destruct (IHb _ _ _ _ _ H2 Hy) as (-> & [= ->] & Hbb).
    conjs; [done..|]. destruct (forallb snd c1); cbn; [done|]. by specialize (Ha eq_refl).
  - injection H as <- <-. conjs; done.
Qed.

Lemma taskConditions_eval inc n cs d st r st' :
  usage_conforms schema u →
  taskConditions n schema inc = Ok cs → evaluate env d n st = Ok (r, st') →
  st' = st ∧ value r = JBool (match cs with
                              | Some cs => forallb (task_cond_holds u) cs
                              | None => false
                              end).
Proof using Hu.
  intros Hconf Hc H. apply bind_Ok in Hc as (l & Hl & [= <-]).
  eapply task_conjuncts_eval in H as (-> & Hv & Hun); [|done..].
  split; [done|]. destruct (forallb snd l); [done|]. by rewrite Hv, Hun.
Qed.

(** ** Costs *)

Lemma binary_number pos o x y a b r :
  value x = JNum a → value y = JNum b → binary_values pos o x y = Ok r →
  match o with
  | Oadd => value r = JNum (nadd a b)
  | Omul => value r = JNum (nmul a b)
  | Odiv => value r = JNum (ndiv a b)
  | _ => True
  end.
Proof. unfold binary_values. intros -> ->. destruct o; cbn; try done; by intros [= <-]. Qed.

Lemma nmul_operands pos x y r :
  binary_values pos Omul x y = Ok r → ∃ a b, value x = JNum a ∧ value y = JNum b.
Proof. unfold binary_values. destruct (value x), (value y); try done. eauto. Qed.

(** The effect of a summand on the accumulator and its contribution. *)
Definition summand (acc acc' : task_sum) (cs xs : list num) : Prop :=
  ∃ prices, ts_unitPrices acc' = ts_unitPrices acc ++ prices ∧
    Forall2 (task_charge schema u) prices xs ∧
    (cs = [] ∧ ts_constant acc' = ts_constant acc ∨
     ts_constant acc = None ∧ ∃ k, ts_constant acc' = Some k ∧ task_constant (Some k) cs).

Lemma task_product_eval scaled n acc acc' d st r st' :
  task_product schema scaled n acc = Ok acc' → evaluate env d n st = Ok (r, st') →
  st' = st ∧ ∃ fp x q p definition unit, value r = JNum x ∧ x = nmul q p ∧
    acc' = {| ts_constant := ts_constant acc; ts_unitPrices := ts_unitPrices acc ++ [fp] |} ∧
    assoc schema fp.1 = Some definition ∧ f_unit definition = Some unit ∧
    own u fp.1 = Some (JNum q) ∧ same_amount fp.2 p ∧ jseq unit (js "token") = scaled.
Proof using Hu.
  intros Hp H. destruct n as [| | | |sp o a b|]; try done. destruct o; try done.
  cbn [task_product] in Hp. apply bind_Ok in Hp as (field & Hf & Hp).
  destruct (nonnegativePriceLiteral b) as [price|] eqn:Hb; [|done].
  destruct (assoc schema field) as [[[[]|] [[|c unit]|] enum]|] eqn:Hdef; try done.
  destruct (assoc (ts_unitPrices acc) field); [done|].
  destruct (Bool.eqb _ scaled) eqn:Hs; [|done]. apply eqb_prop in Hs. injection Hp as <-.
  apply evaluate_binary in H as (x & y & s1 & Hx & Hy & H); [|done..].
  eapply usage_field_eval in Hx as [-> Hx]; [|done].
  eapply price_literal_eval in Hy as [-> (p & Hy & Hpp)]; [|done]. split; [done|].
  destruct (nmul_operands _ _ _ _ H) as (q & ? & Hq & _).
  pose proof (binary_number _ Omul _ _ _ _ _ Hq Hy H) as Hr. cbn in Hr.
  exists (field, price), (nmul q p), q, p, {| f_type := Some FNumber; f_unit := Some (c :: unit); f_enum := enum |}, (c :: unit).
  cbn. conjs; try done. rewrite Hx in Hq. destruct (own u field); cbn in Hq; by simplify_eq.
Qed.

Lemma task_term_eval n acc acc' d st r st' :
  task_term schema n acc = Ok acc' → evaluate env d n st = Ok (r, st') →
  st' = st ∧ ∃ x cs xs, value r = JNum x ∧ cs ++ xs = [x] ∧ summand acc acc' cs xs.
Proof using Hu.
  intros Ht H. unfold task_term in Ht. destruct (nonnegativePriceLiteral n) as [k|] eqn:Hk.
  { destruct (ts_constant acc) eqn:Hc; [done|]. injection Ht as <-.
    eapply price_literal_eval in H as [-> (p & Hp & Hpp)]; [|done].
    split; [done|]. exists p, [p], []. conjs; [done..|]. exists []. cbn. rewrite app_nil_r.
    conjs; [done|constructor|]. right. split; [done|]. exists k. cbn. eauto. }
  assert (Hprod : task_product schema false n acc = Ok acc' →
    st' = st ∧ ∃ x cs xs, value r = JNum x ∧ cs ++ xs = [x] ∧ summand acc acc' cs xs).
  { intros Hp. destruct (task_product_eval _ _ _ _ _ _ _ _ Hp H)
      as [-> (fp & x & q & p & def & unit & Hx & -> & -> & H1 & H2 & H3 & H4 & H5)].
    split; [done|]. eexists _, [], [_]. conjs; [done..|]. exists [fp]. conjs; [done| |by left].
    constructor; [|constructor]. exists def, unit, q, p. by rewrite H5. }
  destruct n as [| | | |sp o a b|]; try (by apply Hprod).
  destruct (decide (o = Odiv)) as [->|Ho]; [|destruct o; first [done|by apply Hprod]].
  destruct (is_million b) eqn:Hm; [|done]. destruct b as [spb [m i| | |]| | | | |]; try done.
  apply evaluate_binary in H as (x & y & s1 & Hx & Hy & H); [|done..].
  destruct (task_product_eval _ _ _ _ _ _ _ _ Ht Hx)
    as [-> (fp & v & q & p & def & unit & Hv & -> & -> & H1 & H2 & H3 & H4 & H5)].
  apply evaluate_lit in Hy as [-> ->].
  pose proof (binary_number _ Odiv _ (literal_value (LNum m i)) _ m _ Hv eq_refl H) as Hr. cbn in Hr.
  split; [done|]. eexists _, [], [_]. conjs; [done..|]. exists [fp]. conjs; [done| |by left].
  constructor; [|constructor]. exists def, unit, q, p. rewrite H5. eauto 10.
Qed.

Lemma summand_trans acc mid acc' c1 x1 c2 x2 :
  summand acc mid c1 x1 → summand mid acc' c2 x2 → summand acc acc' (c1 ++ c2) (x1 ++ x2).
Proof.
  intros (p1 & Hp1 & Hf1 & Hc1) (p2 & Hp2 & Hf2 & Hc2). exists (p1 ++ p2).
  rewrite Hp2, Hp1, app_assoc. conjs; [done|by apply Forall2_app|].
  destruct Hc1 as [[-> Hc1]|[Hn1 (k1 & Hk1 & Hc1)]], Hc2 as [[-> Hc2]|[Hn2 (k2 & Hk2 & Hc2)]];
    cbn; rewrite ?app_nil_r.
  - left. split; congruence.
  - right. split; [congruence|eauto].
  - right. split; [done|]. exists k1. split; [congruence|done].
  - congruence.
Qed.

Lemma task_sum_eval n : ∀ acc acc' d st r st',
  rfold (task_term schema) (flattenBinary n Oadd) acc = Ok acc' →
  evaluate env d n st = Ok (r, st') →
  st' = st ∧ ∃ x cs xs ys, value r = JNum x ∧ summand acc acc' cs xs ∧ ys ≡ₚ cs ++ xs ∧ is_sum ys x.
Proof using Hu.
  induction n as [n IH] using node_rec_children. intros acc acc' d st r st' Hp H.
  destruct (flattenBinary_cases n Oadd) as [(sp & a & b & -> & Hf)|[Hf _]]; rewrite Hf in Hp.
  - rewrite rfold_app in Hp. apply bind_Ok in Hp as (mid & H1 & H2).
    apply Forall_cons in IH as [IHa IH]. apply Forall_cons in IH as [IHb _].
    apply evaluate_binary in H as (x & y & s1 & Hx & Hy & H); [|done..].
    apply (IHa _ _ _ _ _ _ H1) in Hx as [-> (v1 & c1 & x1 & y1 & Hx & Hs1 & Hp1 & Hsum1)].
    apply (IHb _ _ _ _ _ _ H2) in Hy as [-> (v2 & c2 & x2 & y2 & Hy & Hs2 & Hp2 & Hsum2)].
    pose proof (binary_number _ Oadd _ _ _ _ _ Hx Hy H) as Hr. cbn in Hr.
    split; [done|]. exists (nadd v1 v2), (c1 ++ c2), (x1 ++ x2), (y1 ++ y2).
    conjs; [done|by eapply summand_trans| |by constructor]. rewrite Hp1, Hp2. solve_Permutation.
  - cbn in Hp. apply bind_Ok in Hp as (acc1 & Hp & [= <-]).
    eapply task_term_eval in H as [-> (x & cs & xs & Hx & Hl & Hs)]; [|done].
    split; [done|]. exists x, cs, xs, [x]. conjs; [done..|by rewrite Hl|constructor].
Qed.

Definition task_charged (t : TaskTier) (x : num) (st st' : rstate) : Prop :=
  matchedTier st' = k_label t ∧ billingUnit st' = billingUnit st ∧ task_cost schema u t x.

Lemma taskTier_eval n cs t d st r st' :
  taskTier n cs schema = Ok t → evaluate env d n st = Ok (r, st') →
  ∃ x, value r = JNum x ∧ task_charged t x st st'.
Proof using Hu.
  intros Ht H. destruct n as [| |sp [] [|[spl [|label| |]| | | | |] [|body rest]]| | |]; try done.
  cbn [taskTier] in Ht. apply bind_Ok in Ht as (acc & Hs & Ht).
  apply evaluate_tier in H as (l & b & rest' & name & x & i & j & s1 & s2 & [= <- <- <-] & Hl & Hb & -> & ->).
  apply evaluate_lit in Hl as [[= -> ->] ->].
  eapply task_sum_eval in Hb as [-> (v & c & xs & ys & [= ->] & Hsum & Hperm & His)]; [|done].
  destruct Hsum as (prices & Hp & Hch & Hc). cbn in Hp. subst prices.
  destruct (ts_unitPrices acc) as [|fp prices] eqn:Hpr; [done|]. injection Ht as <-.
  exists v. split; [done|]. split; [done|]. split; [done|].
  exists (ts_constant acc), c, xs, ys. cbn. conjs; try done.
  destruct Hc as [[-> ->]|[_ (k & -> & Hk)]]; done.
Qed.

Lemma taskTier_conditions n cs t : taskTier n cs schema = Ok t → k_conditions t = cs.
Proof.
  intros Ht. destruct n as [| |? [] [|[? [|label| |]| | | | |] [|body rest]]| | |]; try done.
  cbn [taskTier] in Ht. apply bind_Ok in Ht as (acc & _ & Ht).
  destruct (ts_unitPrices acc); [done|]. by injection Ht as <-.
Qed.

Lemma task_chain_app inc n : ∀ pre tiers,
  task_chain n schema inc pre = Ok tiers → ∃ post, tiers = pre ++ post.
Proof.
  induction n as [n IH] using node_rec_children. intros pre tiers H.
  destruct n as [| | | | |sp c y n]; cbn [task_chain] in H;
    try (apply bind_Ok in H as (t & _ & [= <-]); by eauto).
  apply bind_Ok in H as ([cs|] & _ & H); apply Forall_cons in IH as [_ IH];
    apply Forall_cons in IH as [_ IH]; apply Forall_cons in IH as [IHn _]; [|by apply IHn].
  apply bind_Ok in H as (t & _ & H). apply IHn in H as (post & ->).
  rewrite <- app_assoc. eauto.
Qed.

Definition task_table_correct (tiers : list TaskTier) (r : RuntimeValue) (st st' : rstate) : Prop :=
  ∃ t x, task_first_match u tiers = Some t ∧ value r = JNum x ∧ task_charged t x st st'.

Lemma task_charged_pre t x st0 st st' :
  billingUnit st = billingUnit st0 → task_charged t x st st' → task_charged t x st0 st'.
Proof. unfold task_charged. by intros ->. Qed.

Lemma task_chain_eval inc n : usage_conforms schema u → ∀ pre tiers d st r st',
  task_chain n schema inc pre = Ok tiers → evaluate env d n st = Ok (r, st') →
  ∃ post, tiers = pre ++ post ∧ task_table_correct post r st st'.
Proof using Hu.
  intros Hconf. induction n as [n IH] using node_rec_children. intros pre tiers d st r st' Hc H.
  assert (Hfall : (fallback ← taskTier n [] schema; Ok (pre ++ [fallback])) = Ok tiers →
    ∃ post, tiers = pre ++ post ∧ task_table_correct post r st st').
  { intros Hf. apply bind_Ok in Hf as (t & Ht & [= <-]). exists [t]. split; [done|].
    eapply taskTier_eval in H as (x & Hx & H4); [|done]. apply taskTier_conditions in Ht.
    exists t, x. conjs; [|done..]. unfold task_first_match. cbn. by rewrite Ht. }
  destruct n as [| | | | |sp c y n]; try (by apply Hfall). clear Hfall.
  apply Forall_cons in IH as [_ IH]. apply Forall_cons in IH as [_ IH].
  apply Forall_cons in IH as [IHn _].
  cbn [task_chain] in Hc. apply bind_Ok in Hc as (cs & Hcs & Hc).
  apply evaluate_cond in H as (b & i & st1 & Hb & H).
  eapply taskConditions_eval in Hb as [-> [= Hb]]; [|done..].
  destruct (trace_rule_price env (ECond sp c y n) b st) as [Hbu _].
  assert (Hskip : ∀ l post, tiers = l ++ post → b = false →
    task_chain n schema inc l = Ok tiers →
    ∃ post, tiers = l ++ post ∧ task_table_correct post r st st').
  { intros l post _ -> Hl. destruct (IHn _ _ _ _ _ _ Hl H) as (post' & -> & t' & x & Hfm & Hx & Hch).
    eexists. split; [done|]. exists t', x. conjs; [done..|]. by eapply task_charged_pre. }
  destruct cs as [cs|].
  2: { subst b. destruct (task_chain_app _ _ _ _ Hc) as [post Hpost]. by eapply Hskip. }
  apply bind_Ok in Hc as (t & Ht & Hc).
  destruct (task_chain_app _ _ _ _ Hc) as [post Hpost]. pose proof (taskTier_conditions _ _ _ Ht) as Hk.
  destruct b.
  - eapply taskTier_eval in H as (x & Hx & Hch); [|done].
    exists (t :: post). split; [by rewrite Hpost, <- app_assoc|].
    exists t, x. conjs; [|done|by eapply task_charged_pre].
    unfold task_first_match. cbn. by rewrite Hk, <- Hb.
  - destruct (Hskip _ _ Hpost eq_refl Hc) as (post' & -> & t' & x & Hfm & Hx & Hch).
    rewrite <- app_assoc. eexists. split; [done|]. exists t', x. conjs; [|done..].
    unfold task_first_match in *. cbn. by rewrite Hk, <- Hb.
Qed.
End task_display.
