(* ===== verification/Visual.v ===== *)
(** * The visual editor of billing expressions

    Models [billing-expression/visual.ts]: reading a compiled expression into
    an editable document whose nodes remember the tree node they came from
    ([origin]), and writing a document back by patching the source text.

    [writeVisualCondition] and [writeVisualPricing] append to a shared list of
    issues, passed as state.  Identity of tree nodes is [node_eqb]. *)
From stdpp Require Import base list option numbers sets.
From Stdlib Require Import ZArith SpecFloat Lia.
From S2P Require Import Prelude.
From S2P Require Import JsString.
From S2P Require Import JsNumber.
From S2P Require Import Syntax.
From S2P Require Import Parser.
From S2P Require Import Compile.
From S2P Require Import Runtime.
From S2P Require Import Display.

(** ** Documents *)

Inductive probe : Type := PVar (v : bvar) | PTime (f : timefn).

#[global] Instance probe_eq_dec : EqDecision probe.
Proof. solve_decision. Defined.

Definition probe_text (p : probe) : jsstr :=
  match p with PVar v => bvar_text v | PTime f => timefn_text f end.

Record Origin : Type := Identity { id : jsstr; origin : option node }.

Inductive VisualCondition : Type :=
| VComparison (o : Origin) (pr : probe) (timezone : jsstr) (operator : binop) (value : jsstr)
| VAll (o : Origin) (children : list VisualCondition)
| VAny (o : Origin) (children : list VisualCondition)
| VNot (o : Origin) (child : VisualCondition).

Definition condition_identity (c : VisualCondition) : Origin :=
  match c with VComparison o _ _ _ _ | VAll o _ | VAny o _ | VNot o _ => o end.
Definition condition_origin (c : VisualCondition) : option node := origin (condition_identity c).

Record VisualPrice : Type := {
  variable : bvar;
  price_value : jsstr;
  price_origin : option node
}.

Inductive VisualPricingNode : Type :=
| VTier (o : Origin) (label : jsstr) (prices : list VisualPrice) (billingUnit : billing_unit)
    (fixedPrice : jsstr)
| VBranch (o : Origin) (condition : VisualCondition) (yes no : VisualPricingNode).

Definition pricing_identity (n : VisualPricingNode) : Origin :=
  match n with VTier o _ _ _ _ | VBranch o _ _ _ => o end.

Record VisualBillingDocument : Type := { document_source : jsstr; root : VisualPricingNode }.

Record VisualBillingIssue : Type := Issue { issue_id : jsstr; message : jsstr }.

(** ** Reading *)

Definition is_comparison (o : binop) : bool :=
  match o with Olt | Ole | Ogt | Oge | Oeq | One => true | _ => false end.

Definition TIME_DOMAINS (f : timefn) : num * num :=
  match f with
  | Hour => (nZ 0, nZ 23) | Minute => (nZ 0, nZ 59) | Weekday => (nZ 0, nZ 6)
  | Month => (nZ 1, nZ 12) | Day => (nZ 1, nZ 31)
  end.

(** The module counter [nextId] is the argument and the second result. *)
Definition visualNodeId (nextId : nat) : jsstr * nat :=
  (js "draft-" ++ nat_text (S nextId), S nextId).

Definition createEmptyVisualCondition (nextId : nat) : VisualCondition * nat :=
  let '(id, nextId) := visualNodeId nextId in
  (VComparison (Identity id None) (PTime Hour) (js "Asia/Shanghai") Oge [], nextId).

Definition node_identity (prefix : jsstr) (n : node) : Origin :=
  Identity (prefix ++ nat_text (node_start n) ++ js "-" ++ nat_text (node_end n)) (Some n).

(** Readers of several parts run all of them before testing for [null]. *)
Fixpoint read_all {A} (l : list (reader A)) : reader (list A) :=
  match l with
  | [] => Ok []
  | r :: l =>
      match r, read_all l with
      | Err (Some e), _ | _, Err (Some e) => Err (Some e)
      | Ok a, Ok rest => Ok (a :: rest)
      | _, _ => null
      end
  end.

(** The leaf case of [readVisualCondition]. *)
Definition read_comparison (n : node) : reader VisualCondition :=
  match n with
  | EBin _ o lhs (ELit _ (LNum x _)) =>
      if negb (is_comparison o) then null
      else
        let found p tz := Ok (VComparison (node_identity (js "condition-") n) p tz o (number_to_string x)) in
        match lhs with
        | EVar _ v => if is_size_var v then found (PVar v) [] else null
        | ECall _ (Ftime f) args =>
            match args with
            | [] => reader_type_error
            | ELit _ (LStr tz) :: _ => found (PTime f) tz
            | _ => null
            end
        | _ => null
        end
  | _ => null
  end.

Fixpoint readVisualCondition (n : node) : reader VisualCondition :=
  match n with
  | EUn _ Unot a =>
      child ← readVisualCondition a; Ok (VNot (node_identity (js "condition-") n) child)
  | EBin _ Oand a b =>
      let flat := (fix flat (m : node) : list (reader VisualCondition) :=
        match m with
        | EBin _ Oand a b => flat a ++ flat b
        | _ => [readVisualCondition m]
        end) in
      children ← read_all (flat a ++ flat b);
      Ok (VAll (node_identity (js "condition-") n) children)
  | EBin _ Oor a b =>
      let flat := (fix flat (m : node) : list (reader VisualCondition) :=
        match m with
        | EBin _ Oor a b => flat a ++ flat b
        | _ => [readVisualCondition m]
        end) in
      children ← read_all (flat a ++ flat b);
      Ok (VAny (node_identity (js "condition-") n) children)
  | _ => read_comparison n
  end.

Definition literal_text (v : literal) : jsstr :=
  match v with
  | LNum x _ => number_to_string x
  | LStr s => s
  | LBool b => bool_text b
  | LNull => js "null"
  end.

Definition read_price (term : node) (prices : list VisualPrice) : reader (list VisualPrice) :=
  match term with
  | EBin _ Omul (EVar _ v) (ELit _ (LNum x _)) =>
      if is_token_input v && negb (nltb x NZERO) then
        if existsb (λ p, bool_decide (variable p = v)) prices then null
        else Ok (prices ++ [{| variable := v; price_value := number_to_string x;
                               price_origin := Some term |}])
      else null
  | _ => null
  end.

Definition read_tier (n : node) (args : list node) : reader VisualPricingNode :=
  match args with
  | [] => reader_type_error
  | ELit _ (LStr label) :: rest =>
      match rest with
      | [] => reader_type_error
      | ECall _ Ffixed [] :: _ => reader_type_error
      | ECall _ Ffixed (ELit _ v :: _) :: _ =>
          Ok (VTier (node_identity (js "pricing-") n) label [] URequest (literal_text v))
      | body :: _ =>
          prices ← rfold read_price (flattenBinary body Oadd) [];
          Ok (VTier (node_identity (js "pricing-") n) label prices UToken [])
      end
  | _ => null
  end.

Fixpoint readVisualPricing (n : node) : reader VisualPricingNode :=
  match n with
  | ECond _ condition yes no =>
      '((condition, yes), no) ←
        match readVisualCondition condition, readVisualPricing yes, readVisualPricing no with
        | Err (Some e), _, _ | _, Err (Some e), _ | _, _, Err (Some e) => Err (Some e)
        | Ok c, Ok y, Ok n' => Ok ((c, y), n')
        | _, _, _ => null
        end;
      Ok (VBranch (node_identity (js "pricing-") n) condition yes no)
  | ECall _ Ftier args => read_tier n args
  | _ => null
  end.

(** ** Patching *)

Record patch : Type := Patch { patch_node : node; patch_text : jsstr }.

(** [sort((a, b) => b.node.start - a.node.start)]: stable insertion. *)
Fixpoint insert_patch (p : patch) (l : list patch) : list patch :=
  match l with
  | [] => [p]
  | q :: l' => if node_start (patch_node q) <? node_start (patch_node p) then p :: l
               else q :: insert_patch p l'
  end.
Definition sort_patches (l : list patch) : list patch :=
  fold_left (λ acc p, insert_patch p acc) l [].

Definition apply_patch (base : nat) (text : jsstr) (p : patch) : jsstr :=
  slice text 0 (node_start (patch_node p) - base) ++ patch_text p
  ++ drop (node_end (patch_node p) - base) text.

Definition patchSource (source : jsstr) (origin : node) (patches : list patch) : jsstr :=
  fold_left (apply_patch (node_start origin)) (sort_patches patches)
    (slice source (node_start origin) (node_end origin)).

Definition node_text (source : jsstr) (n : node) : jsstr :=
  slice source (node_start n) (node_end n).

(** The literal pattern and the range test of [parseNonNegativeNumber]. *)
Definition parseNonNegativeNumber (value : jsstr) : option num :=
  match scan_decimal (trim value) with
  | Some (_, []) =>
      let number := number_of_string value in
      if is_finite number && ngeb number NZERO then Some number else None
  | _ => None
  end.

(** [value === literal] for a [number | null]. *)
Definition same_value (value : option num) (v : literal) : bool :=
  match value, v with
  | Some x, LNum y _ => neqb x y
  | None, LNull => true
  | _, _ => false
  end.

Definition same_origin (o : option node) (n : node) : bool :=
  match o with Some m => node_eqb m n | None => false end.

(** ** Writing *)

(** A rendering, or an exception, together with the issues so far. *)
Definition written : Type := result exn (jsstr * list VisualBillingIssue).

Definition quoted_parts (children : list jsstr) (operator : jsstr) : jsstr :=
  js "(" ++ join (js " " ++ operator ++ js " ") (map (λ c, js "(" ++ c ++ js ")") children) ++ js ")".

Definition label_text (source : jsstr) (label_node : node) (label : jsstr) : jsstr :=
  match label_node with
  | ELit _ (LStr s) => if jseq s label then node_text source label_node else json_stringify label
  | _ => json_stringify label
  end.

Section write.
Context {host : Host}.

(** [origin.left] as a call: its literal time zone. *)
Definition original_zone (o : option node) : result exn (option literal) :=
  match o with
  | Some (EBin _ _ (ECall _ _ args) _) =>
      match args with
      | [] => type_error
      | ELit _ v :: _ => Ok (Some v)
      | _ => Ok None
      end
  | _ => Ok None
  end.

Definition valid_zone (timezone : jsstr) : bool :=
  match trim timezone with
  | [] => false
  | zone => match date_time_format zone with Some _ => true | None => false end
  end.

Definition probe_source (source : jsstr) (old : node) (pr : probe) (timezone default : jsstr)
    : result exn jsstr :=
  match old with
  | EVar _ v => Ok (if bool_decide (PVar v = pr) then node_text source old else default)
  | ECall _ f args =>
      if match pr with PTime t => bool_decide (Ftime t = f) | PVar _ => false end then
        match args with
        | [] => type_error
        | ELit _ (LStr tz) :: _ => Ok (if jseq tz timezone then node_text source old else default)
        | _ => Ok default
        end
      else Ok default
  | _ => Ok default
  end.

Definition comparison_valid (pr : probe) (operator : binop) (value : option num) : bool :=
  match value with
  | None => false
  | Some x =>
      match pr with
      | PVar _ => true
      | PTime f =>
          let '(min, max) := TIME_DOMAINS f in
          is_integer x && ngeb x min &&
          nleb x (nadd max (match operator with Olt => nZ 1 | _ => nZ 0 end))
      end
  end.

Definition write_comparison (o : Origin) (pr : probe) (timezone : jsstr) (operator : binop)
    (text : jsstr) (source : jsstr) (issues : list VisualBillingIssue) : written :=
  let value := parseNonNegativeNumber text in
  let issues := if comparison_valid pr operator value then issues
                else issues ++ [Issue (id o) (js "Enter a valid condition value.")] in
  issues ←
    match pr with
    | PVar _ => Ok issues
    | PTime _ =>
        zone ← original_zone (origin o);
        if bool_decide (zone = Some (LStr timezone)) then Ok issues
        else if valid_zone timezone then Ok issues
        else Ok (issues ++ [Issue (id o) (js "Choose a valid IANA timezone.")])
    end;
  let probe := match pr with
               | PVar v => bvar_text v
               | PTime f => timefn_text f ++ js "(" ++ json_stringify timezone ++ js ")"
               end in
  let fresh := js "(" ++ probe ++ js " " ++ binop_text operator ++ js " " ++ text ++ js ")" in
  match origin o with
  | Some (EBin _ op lhs rhs as n) =>
      if decide (op = operator) then
        probeText ← probe_source source lhs pr timezone probe;
        let valueText := match rhs with
                         | ELit _ v => if same_value value v then node_text source rhs else text
                         | _ => text
                         end in
        Ok (patchSource source n [Patch lhs probeText; Patch rhs valueText], issues)
      else Ok (fresh, issues)
  | _ => Ok (fresh, issues)
  end.

(** The conditions of a group in order, threading the issues. *)
Definition write_list {A} (write : A → list VisualBillingIssue → written)
    : list A → list VisualBillingIssue → result exn (list jsstr * list VisualBillingIssue) :=
  fix go l issues :=
    match l with
    | [] => Ok ([], issues)
    | a :: l =>
        '(t, issues) ← write a issues;
        '(ts, issues) ← go l issues;
        Ok (t :: ts, issues)
    end.

Definition write_group (o : Origin) (operator : binop) (children : list VisualCondition)
    (texts : list jsstr) (source : jsstr) : jsstr :=
  let fresh := quoted_parts texts (binop_text operator) in
  match origin o with
  | Some (EBin _ op _ _ as n) =>
      if decide (op = operator) then
        let original := flattenBinary n operator in
        if (length original =? length children)
           && forallb (λ '(m, c), same_origin (condition_origin c) m) (zip original children)
        then patchSource source n (zip_with Patch original texts)
        else fresh
      else fresh
  | _ => fresh
  end.

Definition group_issue (o : Origin) {A} (children : list A) (issues : list VisualBillingIssue)
    : list VisualBillingIssue :=
  match children with
  | [] => issues ++ [Issue (id o) (js "Add at least one condition to this group.")]
  | _ => issues
  end.

Fixpoint writeVisualCondition (n : VisualCondition) (source : jsstr)
    (issues : list VisualBillingIssue) : written :=
  match n with
  | VNot o c =>
      '(child, issues) ← writeVisualCondition c source issues;
      let fresh := js "!(" ++ child ++ js ")" in
      Ok (match origin o with
          | Some (EUn _ _ operand as n') =>
              if same_origin (condition_origin c) operand
              then patchSource source n' [Patch operand child] else fresh
          | _ => fresh
          end, issues)
  | VAll o children =>
      '(texts, issues) ← write_list (λ c, writeVisualCondition c source) children
                           (group_issue o children issues);
      Ok (write_group o Oand children texts source, issues)
  | VAny o children =>
      '(texts, issues) ← write_list (λ c, writeVisualCondition c source) children
                           (group_issue o children issues);
      Ok (write_group o Oor children texts source, issues)
  | VComparison o pr timezone operator text =>
      write_comparison o pr timezone operator text source issues
  end.

Definition visualConditionExpression (n : VisualCondition) (source : jsstr)
    : result exn (option jsstr) :=
  '(expression, issues) ← writeVisualCondition n source [];
  Ok (match issues with [] => Some expression | _ => None end).

Definition price_issue : jsstr := js "Enter a finite, non-negative price.".

(** The text of [fixed(...)] over the original price argument. *)
Definition fixed_text (source : jsstr) (price : node) (value : option num) (text : jsstr)
    : result exn jsstr :=
  match price with
  | ECall _ Ffixed [] => type_error
  | ECall _ Ffixed (ELit _ v as amount :: _) =>
      let t := if same_value value v then node_text source amount else text in
      Ok (patchSource source price [Patch amount t])
  | _ => Ok (js "fixed(" ++ text ++ js ")")
  end.

Definition write_fixed (o : Origin) (label fixedPrice : jsstr) (source : jsstr)
    (issues : list VisualBillingIssue) : written :=
  let value := parseNonNegativeNumber fixedPrice in
  let ok := match value with Some x => is_finite (nmul x (nZ 1000000)) | None => false end in
  let issues := if ok then issues else issues ++ [Issue (id o ++ js ":fixed") price_issue] in
  match origin o with
  | Some (ECall _ Ftier args as n) =>
      match args with
      | label_node :: price :: _ =>
          priceText ← fixed_text source price value fixedPrice;
          Ok (patchSource source n [Patch label_node (label_text source label_node label);
                                    Patch price priceText], issues)
      | _ => type_error
      end
  | _ => Ok (js "tier(" ++ json_stringify label ++ js ", fixed(" ++ fixedPrice ++ js "))", issues)
  end.

(** One price: its text, its patch if the original literal survives, and issues. *)
Definition write_price (o : Origin) (source : jsstr) (price : VisualPrice)
    (s : (list jsstr * list patch) * list VisualBillingIssue)
    : (list jsstr * list patch) * list VisualBillingIssue :=
  let '((terms, patches), issues) := s in
  let value := parseNonNegativeNumber (price_value price) in
  let issues := match value with
                | Some _ => issues
                | None => issues ++ [Issue (id o ++ js ":" ++ bvar_text (variable price)) price_issue]
                end in
  match price_origin price with
  | Some (EBin _ _ _ (ELit _ v as rhs) as n) =>
      let text := if same_value value v then node_text source rhs else price_value price in
      ((terms ++ [patchSource source n [Patch rhs text]], patches ++ [Patch rhs text]), issues)
  | _ => ((terms ++ [bvar_text (variable price) ++ js " * " ++ price_value price], patches), issues)
  end.

Definition write_token_tier (o : Origin) (label : jsstr) (prices : list VisualPrice)
    (source : jsstr) (issues : list VisualBillingIssue) : written :=
  let issues := match prices with
                | [] => issues ++ [Issue (id o) (js "Include at least one price variable.")]
                | _ => issues
                end in
  let '((terms, valuePatches), issues) :=
    fold_left (λ s p, write_price o source p s) prices (([], []), issues) in
  match origin o with
  | Some (ECall _ Ftier args as n) =>
      match args with
      | label_node :: body :: _ =>
          let labelPatch := Patch label_node (label_text source label_node label) in
          let original := flattenBinary body Oadd in
          if (length original =? length prices)
             && forallb (λ '(m, p), same_origin (price_origin p) m) (zip original prices)
          then Ok (patchSource source n (labelPatch :: valuePatches), issues)
          else Ok (patchSource source n [labelPatch; Patch body (join (js " + ") terms)], issues)
      | _ => type_error
      end
  | _ => Ok (js "tier(" ++ json_stringify label ++ js ", " ++ join (js " + ") terms ++ js ")", issues)
  end.

Fixpoint writeVisualPricing (n : VisualPricingNode) (source : jsstr)
    (issues : list VisualBillingIssue) : written :=
  match n with
  | VBranch o c yes no =>
      '(condition, issues) ← writeVisualCondition c source issues;
      '(yes, issues) ← writeVisualPricing yes source issues;
      '(no, issues) ← writeVisualPricing no source issues;
      Ok (match origin o with
          | Some (ECond _ oc oy on as n') =>
              patchSource source n' [Patch oc condition; Patch oy yes; Patch on no]
          | _ => js "(" ++ condition ++ js ") ? (" ++ yes ++ js ") : (" ++ no ++ js ")"
          end, issues)
  | VTier o label prices URequest fixedPrice => write_fixed o label fixedPrice source issues
  | VTier o label prices UToken _ => write_token_tier o label prices source issues
  end.

(** [{ ok: true, source }] or [{ ok: false, issues }]. *)
Definition VisualBillingSerialization : Type := jsstr + list VisualBillingIssue.

Definition serializeVisualBillingDocument (d : VisualBillingDocument)
    : result exn VisualBillingSerialization :=
  '(body, issues) ← writeVisualPricing (root d) (document_source d) [];
  match issues with
  | _ :: _ => Ok (inr issues)
  | [] =>
      match compile (document_source d) with
      | Err _ => Ok (inr [Issue (id (pricing_identity (root d)))
          (js "This expression cannot be edited visually without losing information.")])
      | Ok original =>
          let source := slice (document_source d) 0 (node_start (c_ast original)) ++ body
                        ++ drop (node_end (c_ast original)) (document_source d) in
          match compile source with
          | Err _ => Ok (inr [Issue (id (pricing_identity (root d)))
                                (js "Enter a valid condition value.")])
          | Ok _ => Ok (inl source)
          end
      end
  end.

Definition parseVisualBillingDocument (source : jsstr) : reader VisualBillingDocument :=
  match compile source with
  | Err _ => null
  | Ok compiled =>
      root ← readVisualPricing (c_ast compiled);
      let document := {| document_source := source; root := root |} in
      serialized ← lift_throw (serializeVisualBillingDocument document);
      match serialized with
      | inl _ => Ok document
      | inr _ => null
      end
  end.
End write.
