(* ===== verification/VisualFacts.v ===== *)
(** * The visual editor is lossless

    A document read from an expression and written back without an edit is
    the original text, white space, number spelling and labels included: each
    node is rendered by patching its own source span with unchanged parts. *)
From stdpp Require Import base list option numbers sets.
From Stdlib Require Import ZArith SpecFloat Lia.
From S2P Require Import Prelude.
From S2P Require Import JsString.
From S2P Require Import JsNumber.
From S2P Require Import Syntax.
From S2P Require Import Parser.
From S2P Require Import ParserFacts.
From S2P Require Import Compile.
From S2P Require Import CompileFacts.
From S2P Require Import Runtime.
From S2P Require Import Structure.
From S2P Require Import Display.
From S2P Require Import DisplayFacts.
From S2P Require Import Visual.

(** ** Patching unchanged text *)

Lemma elem_of_insert_patch p q l : p ∈ insert_patch q l ↔ p = q ∨ p ∈ l.
Proof.
  induction l as [|r l IH]; cbn; [set_solver|]. case_match; [set_solver|].
  rewrite !elem_of_cons, IH. tauto.
Qed.

Lemma elem_of_sort_patches p l : p ∈ sort_patches l ↔ p ∈ l.
Proof.
  unfold sort_patches.
  assert (H : ∀ acc, p ∈ fold_left (λ acc q, insert_patch q acc) l acc ↔ p ∈ acc ∨ p ∈ l).
  { induction l as [|q l IH]; intros acc; cbn; [set_solver|].
    rewrite IH, elem_of_insert_patch. set_solver. }
  rewrite H. set_solver.
Qed.

(** [m] lies inside the span of [n]. *)
Definition inside (n m : node) : Prop :=
  node_start n ≤ node_start m ∧ node_start m ≤ node_end m ∧ node_end m ≤ node_end n.

Lemma subnode_inside m n : subnode m n → wf_node n → inside n m.
Proof.
  induction 1 as [|n c Hc _ IH]; intros Hw; pose proof (wf_node_inv _ Hw) as (H1 & H2 & _ & _ & H5).
  - unfold inside. lia.
  - specialize (IH (H5 _ Hc)). pose proof (ordered_bounds _ _ _ _ H2 Hc). unfold inside in *. lia.
Qed.

Section patches.
Context (source : jsstr).

Lemma apply_patch_same n p :
  node_end n ≤ length source → inside n (patch_node p) →
  patch_text p = node_text source (patch_node p) →
  apply_patch (node_start n) (node_text source n) p = node_text source n.
Proof.
  intros Hl (H1 & H2 & H3) Ht. unfold apply_patch. rewrite Ht. unfold node_text, slice.
  rewrite drop_0, Nat.sub_0_r, take_take, Nat.min_l by lia.
  rewrite skipn_firstn_comm, drop_drop. rewrite app_assoc, take_drop_slice by lia.
  replace (node_start n + (node_end (patch_node p) - node_start n)) with (node_end (patch_node p)) by lia.
  replace (node_end n - node_start n - (node_end (patch_node p) - node_start n))
    with (node_end n - node_end (patch_node p)) by lia.
  apply take_drop_slice. lia.
Qed.

Lemma patchSource_same n patches :
  node_end n ≤ length source →
  Forall (λ p, inside n (patch_node p) ∧ patch_text p = node_text source (patch_node p)) patches →
  patchSource source n patches = node_text source n.
Proof.
  intros Hl Hp. unfold patchSource. change (slice _ _ _) with (node_text source n).
  assert (Hs : Forall (λ p, inside n (patch_node p) ∧ patch_text p = node_text source (patch_node p))
    (sort_patches patches)).
  { apply Forall_forall. intros p Hin. rewrite elem_of_sort_patches in Hin.
    rewrite Forall_forall in Hp. auto. }
  induction Hs as [|p l [H1 H2] _ IH]; [done|]. cbn. by rewrite apply_patch_same.
Qed.
End patches.

(** ** Reading *)

Lemma readVisualCondition_group o n sp a b :
  o = Oand ∨ o = Oor → n = EBin sp o a b →
  readVisualCondition n =
    (children ← read_all (map readVisualCondition (flattenBinary n o));
     Ok (match o with Oand => VAll | _ => VAny end (node_identity (js "condition-") n) children)).
Proof.
  intros Ho ->. destruct Ho as [->| ->].
  - assert (Hf : ∀ m, (fix flat (m : node) : list (reader VisualCondition) :=
        match m with EBin _ Oand a b => flat a ++ flat b | _ => [readVisualCondition m] end) m
      = map readVisualCondition (flattenBinary m Oand)).
    { induction m as [m IH] using node_rec_children.
      destruct m as [| | | |spm [] x y|]; try done.
      apply Forall_cons in IH as [IHx IH]. apply Forall_cons in IH as [IHy _].
      cbn [flattenBinary]. rewrite decide_True by done. rewrite map_app, <- IHx, <- IHy. done. }
    cbn [flattenBinary]. rewrite decide_True by done. rewrite map_app, <- !Hf. done.
  - assert (Hf : ∀ m, (fix flat (m : node) : list (reader VisualCondition) :=
        match m with EBin _ Oor a b => flat a ++ flat b | _ => [readVisualCondition m] end) m
      = map readVisualCondition (flattenBinary m Oor)).
    { induction m as [m IH] using node_rec_children.
      destruct m as [| | | |spm [] x y|]; try done.
      apply Forall_cons in IH as [IHx IH]. apply Forall_cons in IH as [IHy _].
      cbn [flattenBinary]. rewrite decide_True by done. rewrite map_app, <- IHx, <- IHy. done. }
    cbn [flattenBinary]. rewrite decide_True by done. rewrite map_app, <- !Hf. done.
Qed.

Lemma read_all_Ok {A} (l : list (reader A)) r : read_all l = Ok r → l = map Ok r.
Proof.
  revert r. induction l as [|x l IH]; intros r H; cbn in H; [by simplify_eq|].
  destruct x as [a|[]], (read_all l) as [rest|[]]; simplify_eq. cbn. f_equal. by apply IH.
Qed.

Lemma flatten_subnode m n o : m ∈ flattenBinary n o → subnode m n.
Proof.
  induction n as [n IH] using node_rec_children. intros Hm.
  destruct (flattenBinary_cases n o) as [(sp & a & b & -> & Hf)|[Hf _]]; rewrite Hf in Hm.
  - rewrite Forall_forall in IH. apply elem_of_app in Hm as [Hm|Hm];
      (econstructor; [|apply IH; [|exact Hm]]); cbn; set_solver.
  - apply list_elem_of_singleton in Hm as ->. constructor.
Qed.

(** The shapes [readVisualCondition] accepts. *)
Lemma readVisualCondition_cases n c :
  readVisualCondition n = Ok c →
  (∃ sp a child, n = EUn sp Unot a ∧ readVisualCondition a = Ok child ∧
     c = VNot (node_identity (js "condition-") n) child)
  ∨ (∃ sp o a b children, n = EBin sp o a b ∧ (o = Oand ∨ o = Oor) ∧
       map readVisualCondition (flattenBinary n o) = map Ok children ∧
       c = match o with Oand => VAll | _ => VAny end (node_identity (js "condition-") n) children)
  ∨ read_comparison n = Ok c.
Proof.
  intros H.
  destruct n as [| | |sp [] a|sp o a b|]; try (by right; right).
  - left. cbn in H. apply bind_Ok in H as (child & Hc & [= <-]). eauto 10.
  - destruct (decide (o = Oand ∨ o = Oor)) as [Ho|Ho].
    + right; left. rewrite (readVisualCondition_group o _ sp a b Ho eq_refl) in H.
      apply bind_Ok in H as (children & Hc & [= <-]). apply read_all_Ok in Hc. eauto 10.
    + right; right. destruct o; try done; tauto.
Qed.

Section lossless.
Context {host : Host} (source : jsstr).

(** Number text that reads back as the same number. *)
Definition literal_stable (m : node) : bool :=
  match m with
  | ELit _ (LNum x i) => same_value (parseNonNegativeNumber (number_to_string x)) (LNum x i)
  | _ => true
  end.

Definition fixed_number (m : node) : Prop :=
  match m with
  | ECall _ Ffixed (ELit _ v :: _) => ∃ x i, v = LNum x i
  | _ => True
  end.

(** A well-placed part of the source with stable numbers. *)
Definition placed (n : node) : Prop :=
  wf_node n ∧ node_end n ≤ length source ∧
  ∀ m, subnode m n → literal_stable m = true ∧ fixed_number m.

Lemma placed_sub m n : subnode m n → placed n → placed m.
Proof.
  intros Hs (H1 & H2 & H3). pose proof (subnode_inside _ _ Hs H1) as (_ & _ & ?).
  split; [by eapply wf_subnode|]. split; [lia|]. intros k Hk. apply H3. by eapply subnode_trans.
Qed.

Lemma placed_child n c : placed n → c ∈ children n → placed c.
Proof. intros Hp Hc. eapply placed_sub; [|done]. econstructor; [done|constructor]. Qed.

Lemma placed_patch n m : placed n → subnode m n →
  inside n (patch_node (Patch m (node_text source m))) ∧
  patch_text (Patch m (node_text source m)) = node_text source m.
Proof. intros (H & _) Hs. split; [by apply subnode_inside|done]. Qed.

(** Rewriting a placed node with the unchanged text of some of its parts. *)
Lemma patch_parts n ms : placed n → Forall (λ m, subnode m n) ms →
  patchSource source n (map (λ m, Patch m (node_text source m)) ms) = node_text source n.
Proof.
  intros Hp Hs. apply patchSource_same; [apply Hp|].
  apply Forall_map. eapply Forall_impl; [done|]. intros m Hm. by apply placed_patch.
Qed.

Lemma stable_value m sp x i : subnode (ELit sp (LNum x i)) m → placed m →
  same_value (parseNonNegativeNumber (number_to_string x)) (LNum x i) = true.
Proof. intros Hs (_ & _ & H). by destruct (H _ Hs). Qed.

Lemma node_eqb_refl n : node_eqb n n = true.
Proof. by apply node_eqb_eq. Qed.

Lemma write_comparison_same n c : read_comparison n = Ok c → placed n →
  condition_origin c = Some n ∧
  ∀ issues, ∃ issues', writeVisualCondition c source issues = Ok (node_text source n, issues').
Proof.
  intros Hr Hp. destruct n as [| | | |sp o lhs rhs|]; try done.
  destruct rhs as [spr [x i| | |]| | | | |]; try done. cbn [read_comparison] in Hr.
  destruct (is_comparison o) eqn:Ho; [|done]. cbn [negb] in Hr.
  assert (Hv : same_value (parseNonNegativeNumber (number_to_string x)) (LNum x i) = true).
  { apply (stable_value (EBin sp o lhs (ELit spr (LNum x i))) spr); [|done].
    econstructor; [|constructor]. cbn. set_solver. }
  pose proof (patch_parts _ [lhs; ELit spr (LNum x i)] Hp) as Hpatch. cbn [map] in Hpatch.
  assert (Hsub : Forall (λ m, subnode m (EBin sp o lhs (ELit spr (LNum x i)))) [lhs; ELit spr (LNum x i)]).
  { repeat constructor; (econstructor; [|constructor]); cbn; set_solver. }
  specialize (Hpatch Hsub).
  destruct lhs as [|spv v|spc f args| | |]; try done.
  - destruct (is_size_var v); [|done]. injection Hr as <-. split; [done|]. intros issues.
    cbn [writeVisualCondition]. unfold write_comparison. cbn [origin node_identity mbind result_bind].
    rewrite decide_True by done. unfold probe_source. rewrite bool_decide_eq_true_2 by done.
    cbn [mbind result_bind]. rewrite Hv, Hpatch. eauto.
  - destruct f as [| | | | | |f| | | | |]; try done.
    destruct args as [|[spa [|tz| |]| | | | |] args]; try done. injection Hr as <-.
    split; [done|]. intros issues.
    cbn [writeVisualCondition]. unfold write_comparison. cbn [origin node_identity original_zone mbind result_bind].
    rewrite bool_decide_eq_true_2 by done. cbn [mbind result_bind]. rewrite decide_True by done.
    unfold probe_source. rewrite bool_decide_eq_true_2 by done. rewrite jseq_refl.
    cbn [mbind result_bind]. rewrite Hv, Hpatch. eauto.
Qed.

Lemma write_list_same {A} (write : A → list VisualBillingIssue → written) l texts :
  Forall2 (λ a t, ∀ issues, ∃ issues', write a issues = Ok (t, issues')) l texts →
  ∀ issues, ∃ issues', write_list write l issues = Ok (texts, issues').
Proof.
  induction 1 as [|a t l texts Ha _ IH]; intros issues; [cbn; eauto|].
  destruct (Ha issues) as [i1 H1]. destruct (IH i1) as [i2 H2]. exists i2.
  cbn. rewrite H1. cbn. by rewrite H2.
Qed.

Lemma zip_patch l : zip_with Patch l (map (node_text source) l) = map (λ m, Patch m (node_text source m)) l.
Proof. induction l as [|m l IH]; [done|]. cbn. by rewrite IH. Qed.

Lemma write_group_same sp o a b children n :
  n = EBin sp o a b → placed n →
  Forall2 (λ m c, condition_origin c = Some m) (flattenBinary n o) children →
  write_group (node_identity (js "condition-") n) o children
    (map (node_text source) (flattenBinary n o)) source = node_text source n.
Proof.
  intros -> Hp Hc. unfold write_group. cbn [origin node_identity]. rewrite decide_True by done.
  assert (Hlen : length (flattenBinary (EBin sp o a b) o) = length children) by (by eapply Forall2_length).
  rewrite Hlen, Nat.eqb_refl. cbn [andb].
  assert (Hall : forallb (λ '(m, c), same_origin (condition_origin c) m)
    (zip (flattenBinary (EBin sp o a b) o) children) = true).
  { clear Hlen. induction Hc as [|m c l l' Hm _ IH]; [done|]. cbn. rewrite Hm. cbn.
    by rewrite node_eqb_refl. }
  rewrite Hall, zip_patch. apply patch_parts; [done|].
  apply Forall_forall. intros m. apply flatten_subnode.
Qed.

Lemma write_condition_same n : ∀ c, readVisualCondition n = Ok c → placed n →
  condition_origin c = Some n ∧
  ∀ issues, ∃ issues', writeVisualCondition c source issues = Ok (node_text source n, issues').
Proof.
  induction n as [n IH] using (induction_ltof1 _ size). unfold ltof in IH. intros c Hr Hp.
  destruct (readVisualCondition_cases _ _ Hr)
    as [(sp & a & child & -> & Hc & ->)|[(sp & o & a & b & children & Hn & Ho & Hc & ->)|Hc]];
    [| |by apply write_comparison_same].
  - destruct (IH a ltac:(cbn; lia) child Hc) as [Horig Hw].
    { eapply placed_child; [done|]. cbn. set_solver. }
    split; [done|]. intros issues. destruct (Hw issues) as [issues' Hi]. exists issues'.
    cbn [writeVisualCondition]. rewrite Hi. cbn. rewrite Horig. cbn. rewrite node_eqb_refl.
    do 2 f_equal. apply (patch_parts _ [a] Hp). repeat constructor. econstructor; [|constructor]. cbn. set_solver.
  - assert (Hch : Forall2 (λ m c, condition_origin c = Some m ∧
        ∀ issues, ∃ issues', writeVisualCondition c source issues = Ok (node_text source m, issues'))
      (flattenBinary n o) children).
    { assert (Hsub : Forall (λ m, size m < size n ∧ placed m) (flattenBinary n o)).
      { apply Forall_forall. intros m Hm. pose proof (flatten_subnode _ _ _ Hm) as Hs.
        split; [|by eapply placed_sub]. subst n. cbn [flattenBinary] in Hm. rewrite decide_True in Hm by done.
        apply elem_of_app in Hm as [Hm|Hm]; apply flatten_subnode, subnode_size in Hm; cbn; lia. }
      clear -Hc Hsub IH. revert children Hc. induction Hsub as [|m l [Hm Hpm] _ IHl]; intros [|c children] Hc;
        cbn in Hc; simplify_eq; constructor; auto. }
    assert (Hw : ∀ issues, ∃ issues', write_list (λ c, writeVisualCondition c source) children issues
      = Ok (map (node_text source) (flattenBinary n o), issues')).
    { apply write_list_same. clear -Hch. induction Hch as [|m c l l' [_ H] _ IHl]; constructor; auto. }
    assert (Hg : write_group (node_identity (js "condition-") n) o children
      (map (node_text source) (flattenBinary n o)) source = node_text source n).
    { eapply write_group_same; [exact Hn|done|]. eapply Forall2_impl; [done|]. by intros ?? []. }
    split; [by destruct Ho as [->| ->]|]. intros issues.
    destruct Ho as [->| ->]; cbn [writeVisualCondition];
      edestruct Hw as [issues' ->]; cbn [mbind result_bind]; rewrite Hg; eauto.
Qed.

(** ** Prices *)

(** What a price read from [m] looks like. *)
Definition price_of (m : node) (p : VisualPrice) : Prop :=
  ∃ sp spv v spr x i, m = EBin sp Omul (EVar spv v) (ELit spr (LNum x i)) ∧
    p = {| variable := v; price_value := number_to_string x; price_origin := Some m |}.

Lemma read_prices terms : ∀ acc prices,
  rfold read_price terms acc = Ok prices →
  ∃ new, prices = acc ++ new ∧ Forall2 price_of terms new.
Proof.
  induction terms as [|m terms IH]; intros acc prices H; cbn [rfold] in H.
  { injection H as <-. exists []. by rewrite app_nil_r. }
  apply bind_Ok in H as (acc' & Hm & H). apply IH in H as (new & -> & Hnew).
  destruct m as [| | | |sp o [|spv v| | | |] [spr [x i| | |]| | | | |]|]; try done; try (by destruct o).
  destruct o; try done. cbn [read_price] in Hm.
  destruct (_ && _); [|done]. destruct (existsb _ _); [done|]. injection Hm as <-.
  rewrite <- app_assoc. eexists. split; [done|]. constructor; [|done].
  exists sp, spv, v, spr, x, i. done.
Qed.

(** The right operand of a product. *)
Definition rhs_of (m : node) : node := match m with EBin _ _ _ b => b | _ => m end.

Lemma write_prices_same o terms prices :
  Forall2 price_of terms prices → Forall placed terms → ∀ ts ps issues,
  ∃ ts' issues', fold_left (λ s p, write_price o source p s) prices ((ts, ps), issues)
    = ((ts', ps ++ map (λ m, Patch m (node_text source m)) (map rhs_of terms)), issues').
Proof.
  induction 1 as [|m p terms prices (sp & spv & v & spr & x & i & -> & ->) _ IH];
    intros Hpl ts ps issues; [cbn; rewrite app_nil_r; eauto|].
  apply Forall_cons in Hpl as [Hm Hpl].
  assert (Hv : same_value (parseNonNegativeNumber (number_to_string x)) (LNum x i) = true).
  { eapply (stable_value _ spr x i); [|exact Hm]. econstructor; [|constructor]. cbn. set_solver. }
  cbn [fold_left map rhs_of].
  destruct (write_price o source _ ((ts, ps), issues)) as [[ts1 ps1] i1] eqn:E.
  assert (ps1 = ps ++ [Patch (ELit spr (LNum x i)) (node_text source (ELit spr (LNum x i)))]) as ->.
  { unfold write_price in E. cbn [price_value price_origin variable] in E. rewrite Hv in E.
    by injection E. }
  edestruct (IH Hpl) as (ts' & i' & ->). rewrite <- app_assoc. eauto.
Qed.

Lemma label_text_same sp label : label_text source (ELit sp (LStr label)) label = node_text source (ELit sp (LStr label)).
Proof. unfold label_text. by rewrite jseq_refl. Qed.

Lemma write_token_same n sp spl label body rest prices :
  n = ECall sp Ftier (ELit spl (LStr label) :: body :: rest) → placed n →
  Forall2 price_of (flattenBinary body Oadd) prices →
  ∀ issues, ∃ issues',
    write_token_tier (node_identity (js "pricing-") n) label prices source issues
    = Ok (node_text source n, issues').
Proof.
  intros -> Hp Hprices issues. unfold write_token_tier.
  set (n := ECall sp Ftier _) in *.
  assert (Hbody : subnode body n) by (econstructor; [|constructor]; cbn; set_solver).
  assert (Hterms : Forall (λ m, subnode m n) (flattenBinary body Oadd)).
  { apply Forall_forall. intros m Hm%flatten_subnode.
    exact (subnode_trans _ _ _ Hm Hbody). }
  destruct (write_prices_same (node_identity (js "pricing-") n) _ _ Hprices) with
    (ts := @nil jsstr) (ps := @nil patch)
    (issues := match prices with
               | [] => issues ++ [Issue (id (node_identity (js "pricing-") n)) (js "Include at least one price variable.")]
               | _ => issues end) as (ts' & i' & Heq).
  { eapply Forall_impl; [exact Hterms|]. intros m Hm. exact (placed_sub _ _ Hm Hp). }
  rewrite Heq. unfold n at 1. cbn [origin node_identity].
  assert (Hlen : length (flattenBinary body Oadd) = length prices) by (by eapply Forall2_length).
  rewrite Hlen, Nat.eqb_refl. cbn [andb].
  assert (Hall : forallb (λ '(m, p), same_origin (price_origin p) m)
    (zip (flattenBinary body Oadd) prices) = true).
  { clear -Hprices. induction Hprices as [|m p l l' (? & ? & ? & ? & ? & ? & ? & ->) _ IH]; [done|].
    cbn -[node_eqb]. by rewrite node_eqb_refl. }
  rewrite Hall, label_text_same. eexists. do 2 f_equal.
  apply (patch_parts _ (_ :: map rhs_of _) Hp). constructor.
  - econstructor; [|constructor]. cbn. set_solver.
  - apply Forall_map. clear -Hprices Hterms.
    induction Hprices as [|m p l l' (spm & spv & v & spr & x & i & -> & _) _ IH]; [done|].
    apply Forall_cons in Hterms as [Hm Hterms]. constructor; [|auto].
    eapply subnode_trans; [|exact Hm]. cbn. econstructor; [|constructor]. cbn. set_solver.
Qed.

Lemma write_fixed_same n sp spl label spf spv x i fargs rest :
  n = ECall sp Ftier (ELit spl (LStr label) :: ECall spf Ffixed (ELit spv (LNum x i) :: fargs) :: rest) →
  placed n → ∀ issues, ∃ issues',
    write_fixed (node_identity (js "pricing-") n) label (number_to_string x) source issues
    = Ok (node_text source n, issues').
Proof.
  intros -> Hp issues. unfold write_fixed. set (n := ECall sp Ftier _) in *.
  set (price := ECall spf Ffixed _) in *.
  change (origin (node_identity (js "pricing-") n))
    with (Some (ECall sp Ftier (ELit spl (LStr label) :: price :: rest))). cbv match.
  assert (Hprice : subnode price n) by (econstructor; [|constructor]; cbn; set_solver).
  assert (Hv : same_value (parseNonNegativeNumber (number_to_string x)) (LNum x i) = true).
  { apply (stable_value n spv); [|done]. eapply subnode_trans; [|exact Hprice].
    econstructor; [|constructor]. cbn. set_solver. }
  assert (Hf : fixed_text source price (parseNonNegativeNumber (number_to_string x)) (number_to_string x)
    = Ok (node_text source price)).
  { unfold fixed_text, price. rewrite Hv. f_equal.
    apply (patch_parts _ [_]); [by eapply placed_sub|]. repeat constructor.
    econstructor; [|constructor]. cbn. set_solver. }
  rewrite Hf. cbn [mbind result_bind]. rewrite label_text_same. eexists. do 2 f_equal.
  apply (patch_parts n [_; _] Hp). repeat constructor; [|done].
  econstructor; [|constructor]. cbn. set_solver.
Qed.

(** The shapes [read_tier] accepts. *)
Lemma read_tier_cases sp args v :
  read_tier (ECall sp Ftier args) args = Ok v →
  ∃ spl label body rest, args = ELit spl (LStr label) :: body :: rest ∧
    ((∃ spf spv w fargs, body = ECall spf Ffixed (ELit spv w :: fargs) ∧
       v = VTier (node_identity (js "pricing-") (ECall sp Ftier args)) label [] URequest (literal_text w))
     ∨ ∃ prices, rfold read_price (flattenBinary body Oadd) [] = Ok prices ∧
       v = VTier (node_identity (js "pricing-") (ECall sp Ftier args)) label prices UToken []).
Proof.
  intros H. unfold read_tier in H.
  destruct args as [|[spl [|label| |]| | | | |] [|body rest]]; try done.
  exists spl, label, body, rest. split; [done|].
  assert (Hcase : (∃ spf spv w fargs, body = ECall spf Ffixed (ELit spv w :: fargs)) ∨
    (prices ← rfold read_price (flattenBinary body Oadd) [];
     Ok (VTier (node_identity (js "pricing-") (ECall sp Ftier (ELit spl (LStr label) :: body :: rest)))
           label prices UToken [])) = Ok v).
  { destruct body as [| |spf f fargs| | |]; try (by right). destruct f; try (by right).
    destruct fargs as [|[spv w| | | | |] fargs]; try done; try (by right). left. eauto. }
  destruct Hcase as [(spf & spv & w & fargs & ->)|Hcase].
  - left. injection H as <-. eauto 10.
  - right. apply bind_Ok in Hcase as (prices & Hp & [= <-]). eauto.
Qed.

Lemma write_pricing_same n : ∀ v, readVisualPricing n = Ok v → placed n →
  ∀ issues, ∃ issues', writeVisualPricing v source issues = Ok (node_text source n, issues').
Proof.
  induction n as [n IH] using node_rec_children. intros v Hr Hp issues.
  destruct n as [| |sp f args| | |sp c y n]; try done.
  - destruct f; try done. cbn [readVisualPricing] in Hr.
    destruct (read_tier_cases _ _ _ Hr) as (spl & label & body & rest & -> &
      [(spf & spv & w & fargs & -> & ->)|(prices & Hprices & ->)]); cbn [writeVisualPricing].
    + destruct Hp as (Hp1 & Hp2 & Hp3).
      destruct (proj2 (Hp3 (ECall spf Ffixed (ELit spv w :: fargs))
        ltac:(econstructor; [|constructor]; cbn; set_solver))) as (x & i & ->).
      by eapply write_fixed_same.
    + apply read_prices in Hprices as (new & -> & Hnew). by eapply write_token_same.
  - apply Forall_cons in IH as [_ IH]. apply Forall_cons in IH as [IHy IH].
    apply Forall_cons in IH as [IHn _]. cbn [readVisualPricing] in Hr.
    apply bind_Ok in Hr as ([[vc vy] vn] & Hall & [= <-]).
    destruct (readVisualCondition c) as [vc'|[]] eqn:Hc, (readVisualPricing y) as [vy'|[]] eqn:Hy,
      (readVisualPricing n) as [vn'|[]] eqn:Hn; try done. injection Hall as -> -> ->.
    assert (Hch : ∀ m, m ∈ [c; y; n] → placed m) by (intros m Hm; by eapply placed_child).
    destruct (write_condition_same c vc Hc (Hch c ltac:(set_solver))) as [_ Hwc].
    destruct (Hwc issues) as [i1 H1].
    destruct (IHy vy eq_refl (Hch y ltac:(set_solver)) i1) as [i2 H2].
    destruct (IHn vn eq_refl (Hch n ltac:(set_solver)) i2) as [i3 H3].
    exists i3. cbn [writeVisualPricing]. rewrite H1. cbn [mbind result_bind].
    rewrite H2. cbn [mbind result_bind]. rewrite H3. cbn [mbind result_bind origin node_identity].
    do 2 f_equal. apply (patch_parts _ [c; y; n] Hp).
    repeat constructor; (econstructor; [|constructor]); cbn; set_solver.
Qed.
End lossless.

(** ** Documents *)

Lemma has_type_subnode m n t : subnode m n → has_type n t → ∃ t', has_type m t'.
Proof.
  intros Hs. revert t. induction Hs as [|n c Hc _ IH]; intros t Ht; [eauto|].
  apply has_type_inv in Ht as (ts & Hts & _).
  apply list_elem_of_lookup in Hc as [i Hi].
  destruct (Forall2_lookup_l _ _ _ _ _ Hts Hi) as (t' & _ & Ht'). eauto.
Qed.

Lemma typed_fixed_number m t : has_type m t → fixed_number m.
Proof.
  intros Ht. destruct m as [| |sp f args| | |]; try done. destruct f; try done.
  destruct args as [|[spv w| | | | |] args]; try done.
  apply has_type_inv in Ht as (ts & Hts & Hr). inversion Hts as [|? ta ? ts' Ha Hrest]; subst.
  apply has_type_inv in Ha as (ts0 & Hts0 & Ha). inversion Hts0; subst. cbn in Ha. injection Ha as <-.
  destruct ts'; [|done]. cbn in Hr. destruct w; [cbn; eauto|done..].
Qed.

(** Every numeric literal of an expression reads back from its own text. *)
Definition numbers_stable (ast : node) : bool := forallb literal_stable (postorder ast).

Lemma compiled_placed source c :
  compiled_ok source c → numbers_stable (c_ast c) = true → placed source (c_ast c).
Proof.
  intros Hc Hs. destruct Hc. split; [done|]. split; [done|]. intros m Hm. split.
  - unfold numbers_stable in Hs. rewrite forallb_forall in Hs. apply Hs, list_elem_of_In.
    by apply elem_of_postorder.
  - destruct ok_typed as [t Ht]. destruct (has_type_subnode _ _ _ Hm Ht) as [t' Ht'].
    by eapply typed_fixed_number.
Qed.

Lemma slice_around (source : jsstr) i j : i ≤ j → j ≤ length source →
  slice source 0 i ++ slice source i j ++ drop j source = source.
Proof.
  intros Hi Hj. unfold slice. rewrite drop_0, Nat.sub_0_r.
  replace (drop j source) with (drop (j - i) (drop i source)).
  - by rewrite take_drop, take_drop.
  - rewrite drop_drop. f_equal. lia.
Qed.

Lemma visual_lossless {host : Host} source d :
  parseVisualBillingDocument source = Ok d →
  (∀ c, compile source = Ok c → numbers_stable (c_ast c) = true) →
  serializeVisualBillingDocument d = Ok (inl source).
Proof.
  intros H Hs. unfold parseVisualBillingDocument in H.
  destruct (compile source) as [c|] eqn:Hc; [|done]. specialize (Hs c eq_refl).
  pose proof (compile_ok _ _ Hc) as Hok.
  apply bind_Ok in H as (rt & Hr & H). apply bind_Ok in H as (ser & Hser & H).
  destruct ser as [text|issues]; [|done]. injection H as <-.
  destruct (serializeVisualBillingDocument _) as [r|e] eqn:E; [|done]. injection Hser as ->.
  do 2 f_equal. unfold serializeVisualBillingDocument in E. cbn [root document_source] in E.
  destruct (write_pricing_same source (c_ast c) rt Hr (compiled_placed _ _ Hok Hs) []) as [issues Hw].
  rewrite Hw, Hc in E. cbn [mbind result_bind] in E. destruct issues; [|done].
  assert (Hfull : slice source 0 (node_start (c_ast c)) ++ node_text source (c_ast c)
    ++ drop (node_end (c_ast c)) source = source).
  { destruct Hok. pose proof (wf_node_inv _ ok_wf) as (? & _). apply slice_around; lia. }
  rewrite Hfull, Hc in E. by injection E.
Qed.
