(* ===== verification/Json.v ===== *)
(** * JSON text

    [JSON.parse] and [String(value)], as far as the sources use them. *)
From stdpp Require Import base list option numbers sets.
From Stdlib Require Import ZArith SpecFloat Lia.
From S2P Require Import Prelude.
From S2P Require Import JsString.
From S2P Require Import JsNumber.
From S2P Require Import Syntax.
From S2P Require Import Parser.
From S2P Require Import Compile.
From S2P Require Import Runtime.

Definition json_space (c : N) : bool :=
  ((c =? 32) || (c =? 9) || (c =? 10) || (c =? 13))%N.

Fixpoint skip_space (s : jsstr) : jsstr :=
  match s with
  | c :: s' => if json_space c then skip_space s' else s
  | [] => []
  end.

(** The escapes of JSON strings. *)
Definition json_escape (c : N) : option N :=
  if (c =? cu "n")%N then Some 10%N
  else if (c =? cu "r")%N then Some 13%N
  else if (c =? cu "t")%N then Some 9%N
  else if (c =? cu "b")%N then Some 8%N
  else if (c =? cu "f")%N then Some 12%N
  else if (c =? BACKSLASH)%N || (c =? DQUOTE)%N || (c =? cu "/")%N then Some c
  else None.
Arguments json_escape : simpl never.

(** After the opening quote: the value and the text after the closing one. *)
Fixpoint json_string_body (s : jsstr) (value : jsstr) : option (jsstr * jsstr) :=
  match s with
  | [] => None
  | c :: s1 =>
      if (c =? DQUOTE)%N then Some (value, s1)
      else if (c <? 32)%N then None
      else if negb (c =? BACKSLASH)%N then json_string_body s1 (value ++ [c])
      else
        match s1 with
        | [] => None
        | e :: s2 =>
            match json_escape e with
            | Some v => json_string_body s2 (value ++ [v])
            | None =>
                if (e =? cu "u")%N then
                  match s2 with
                  | h1 :: h2 :: h3 :: h4 :: s3 =>
                      match hex_text [h1; h2; h3; h4] with
                      | Some v => json_string_body s3 (value ++ [v])
                      | None => None
                      end
                  | _ => None
                  end
                else None
            end
        end
  end.

(** A JSON number: its value and the rest of the text. *)
Definition json_decimal (neg : bool) (ip frac rest : jsstr) : num * jsstr :=
  let '(e, rest) := span_exponent rest in
  let v := num_of_decimal (digits_value (ip ++ frac)) (e - Z.of_nat (length frac)) in
  (if neg then nneg v else v, rest).
Definition json_fraction (neg : bool) (ip rest : jsstr) : option (num * jsstr) :=
  match rest with
  | c :: r =>
      if (c =? 46)%N
      then match span_digits r with
           | ([], _) => None
           | (frac, r') => Some (json_decimal neg ip frac r')
           end
      else Some (json_decimal neg ip [] rest)
  | [] => Some (json_decimal neg ip [] [])
  end.
Definition leading_zero (ip : jsstr) : bool :=
  match ip with c :: _ :: _ => (c =? 48)%N | _ => false end.
Definition json_magnitude (neg : bool) (s : jsstr) : option (num * jsstr) :=
  match span_digits s with
  | ([], _) => None
  | (ip, rest) => if leading_zero ip then None else json_fraction neg ip rest
  end.
Definition json_number (s : jsstr) : option (num * jsstr) :=
  match s with
  | c :: t => if (c =? 45)%N then json_magnitude true t else json_magnitude false s
  | [] => None
  end.

Definition strip_prefix (p s : jsstr) : option jsstr :=
  if starts_with p s then Some (drop (length p) s) else None.

(** [object[key] = value]: the place of a key is that of its first
    definition, its value that of the last. *)
Fixpoint set_own (fields : list (jsstr * jsval)) (key : jsstr) (v : jsval) : list (jsstr * jsval) :=
  match fields with
  | [] => [(key, v)]
  | (k, x) :: fields => if jseq k key then (k, v) :: fields else (k, x) :: set_own fields key v
  end.
Definition json_object (fields : list (jsstr * jsval)) : jsval :=
  JObj (fold_left (λ object '(k, v), set_own object k v) fields []).

(** Values, with a fuel of one unit per code unit. *)
Fixpoint json_value (fuel : nat) (s : jsstr) {struct fuel} : option (jsval * jsstr) :=
  match fuel with
  | 0 => None
  | S fuel =>
      let s := skip_space s in
      match s with
      | 34%N :: r => '(v, r) ← json_string_body r []; Some (JStr v, r)
      | 91%N :: r =>
          match skip_space r with
          | 93%N :: r => Some (JArr [], r)
          | r => '(items, r) ← json_items fuel r; Some (JArr items, r)
          end
      | 123%N :: r =>
          match skip_space r with
          | 125%N :: r => Some (JObj [], r)
          | r => '(fields, r) ← json_fields fuel r; Some (json_object fields, r)
          end
      | _ =>
          match strip_prefix (js "null") s with
          | Some r => Some (JNull, r)
          | None =>
              match strip_prefix (js "true") s with
              | Some r => Some (JBool true, r)
              | None =>
                  match strip_prefix (js "false") s with
                  | Some r => Some (JBool false, r)
                  | None => '(x, r) ← json_number s; Some (JNum x, r)
                  end
              end
          end
      end
  end
with json_items (fuel : nat) (s : jsstr) {struct fuel} : option (list jsval * jsstr) :=
  match fuel with
  | 0 => None
  | S fuel =>
      '(v, r) ← json_value fuel s;
      match skip_space r with
      | 44%N :: r => '(vs, r) ← json_items fuel r; Some (v :: vs, r)
      | 93%N :: r => Some ([v], r)
      | _ => None
      end
  end
with json_fields (fuel : nat) (s : jsstr) {struct fuel} : option (list (jsstr * jsval) * jsstr) :=
  match fuel with
  | 0 => None
  | S fuel =>
      match skip_space s with
      | 34%N :: r =>
          '(k, r) ← json_string_body r [];
          match skip_space r with
          | 58%N :: r =>
              '(v, r) ← json_value fuel r;
              match skip_space r with
              | 44%N :: r => '(kvs, r) ← json_fields fuel r; Some ((k, v) :: kvs, r)
              | 125%N :: r => Some ([(k, v)], r)
              | _ => None
              end
          | _ => None
          end
      | _ => None
      end
  end.

(** [JSON.parse(text)]; [None] is a thrown [SyntaxError]. *)
Definition json_parse (s : jsstr) : option jsval :=
  '(v, r) ← json_value (2 * S (length s)) s;
  match skip_space r with [] => Some v | _ => None end.

(** [String(value)] *)
Fixpoint js_text (v : jsval) : jsstr :=
  match v with
  | JUndefined => js "undefined"
  | JNull => js "null"
  | JBool b => if b then js "true" else js "false"
  | JNum x => number_to_string x
  | JStr s => s
  | JArr items =>
      join (js ",") (map (λ i, match i with JUndefined | JNull => [] | _ => js_text i end) items)
  | JObj _ => js "[object Object]"
  end.

(** ** Reading back [JSON.stringify] of a string *)

Lemma hex_digit_value d : (d < 16)%N → hex_value (hex_digit d) = Some d.
Proof.
  intros H. unfold hex_digit. destruct (N.ltb_spec d 10) as [Hd|Hd].
  - unfold hex_value, is_digit. replace ((48 <=? 48 + d) && (48 + d <=? 57))%N with true.
    + f_equal. lia.
    + symmetry. apply andb_true_iff. split; apply N.leb_le; lia.
  - assert (d = 10 ∨ d = 11 ∨ d = 12 ∨ d = 13 ∨ d = 14 ∨ d = 15)%N
      as [->|[->|[->|[->|[->| ->]]]]] by lia; done.
Qed.

Lemma hex_text_digits c : (c < 65536)%N →
  hex_text [hex_digit (c / 4096); hex_digit (c / 256 mod 16); hex_digit (c / 16 mod 16);
            hex_digit (c mod 16)]%N = Some c.
Proof.
  intros H. unfold hex_text. cbn [fold_left mbind option_bind].
  rewrite !hex_digit_value by (try (apply N.mod_lt; lia); apply N.Div0.div_lt_upper_bound; lia).
  cbn [mbind option_bind]. f_equal.
  pose proof (N.div_mod c 16 ltac:(lia)). pose proof (N.div_mod (c / 16) 16 ltac:(lia)).
  pose proof (N.div_mod (c / 16 / 16) 16 ltac:(lia)).
  replace (c / 256)%N with (c / 16 / 16)%N by (by rewrite N.Div0.div_div).
  replace (c / 4096)%N with (c / 16 / 16 / 16)%N by (by rewrite !N.Div0.div_div). lia.
Qed.

Definition units_ok (s : jsstr) : Prop := Forall (λ c, (c < 65536)%N) s.

(** One step of the reader over the text of one unit. *)
Lemma json_unit_read c rest value :
  (c < 65536)%N →
  json_string_body (json_unit c ++ rest) value = json_string_body rest (value ++ [c]).
Proof.
  intros Hc. unfold json_unit.
  repeat match goal with
  | |- context [if (c =? ?k)%N then _ else _] =>
      destruct (N.eqb_spec c k) as [->|?]; [done|]
  end.
  destruct ((c <? 32)%N || is_high c || is_low c) eqn:E.
  - unfold unicode_escape. cbn [js app json_string_body].
    change (json_string_body ([cu "\"; cu "u"] ++
      [hex_digit (c / 4096); hex_digit (c / 256 mod 16); hex_digit (c / 16 mod 16); hex_digit (c mod 16)]%N
      ++ rest) value = json_string_body rest (value ++ [c])).
    cbn [app json_string_body].
    change (match hex_text [hex_digit (c / 4096); hex_digit (c / 256 mod 16);
                            hex_digit (c / 16 mod 16); hex_digit (c mod 16)]%N with
            | Some v => json_string_body rest (value ++ [v])
            | None => None
            end = json_string_body rest (value ++ [c])).
    by rewrite hex_text_digits.
  - apply orb_false_iff in E as [E _]. apply orb_false_iff in E as [E _]. cbn [app json_string_body].
    rewrite (proj2 (N.eqb_neq c DQUOTE)) by done. rewrite E.
    by rewrite (proj2 (N.eqb_neq c BACKSLASH)).
Qed.

Lemma json_units_read s : ∀ rest value,
  units_ok s →
  json_string_body (json_units s ++ DQUOTE :: rest) value = Some (value ++ s, rest).
Proof.
  induction s as [s IH] using (induction_ltof1 _ length). unfold ltof in IH.
  intros rest value Hs. destruct s as [|a s]; [cbn; by rewrite app_nil_r|].
  apply Forall_cons in Hs as [Ha Hs].
  assert (Hone : json_string_body (json_unit a ++ json_units s ++ DQUOTE :: rest) value
                 = Some (value ++ a :: s, rest)).
  { rewrite json_unit_read by done. rewrite IH by (done || cbn; lia). by rewrite <- app_assoc. }
  destruct s as [|b s]; [exact Hone|]. cbn [json_units]. apply Forall_cons in Hs as [Hb Hs].
  destruct (is_high a && is_low b) eqn:E; [|by rewrite <- app_assoc].
  apply andb_true_iff in E as [E1 E2]. unfold is_high, is_low in E1, E2. bools.
  assert (Hpass : ∀ c r v, (55296 <= c)%N → json_string_body (c :: r) v = json_string_body r (v ++ [c])).
  { intros c r v Hc. cbn [json_string_body]. unfold DQUOTE, BACKSLASH.
    rewrite (proj2 (N.eqb_neq c 34)), (proj2 (N.ltb_ge c 32)), (proj2 (N.eqb_neq c 92)) by lia. done. }
  cbn [app]. rewrite !Hpass by lia. rewrite IH by (done || cbn; lia). by rewrite <- !app_assoc.
Qed.

Lemma json_parse_stringify s : units_ok s → json_parse (json_stringify s) = Some (JStr s).
Proof.
  intros Hs. unfold json_parse, json_stringify. cbn -[Nat.mul].
  replace (2 * S (S (length (json_units s ++ [DQUOTE]))))
    with (S (2 * S (length (json_units s ++ [DQUOTE])) + 1)) by lia.
  cbn -[Nat.mul json_units]. by rewrite json_units_read.
Qed.
