(* ===== verification/BillingExpr.v ===== *)
(** * Request rules and price tables of the editor

    Models [billing-expr.ts]: the variable registry, the adapters from
    compiled expressions to price tables, and the request-rule editor (the
    parser of rule texts, their construction, and the separation of rules
    from the base expression).

    The regular expressions of the source are anchored and deterministic:
    each character class is followed by a literal outside the class, so a
    match is a left-to-right scan.  [lit], [take_class] and their sequencing
    spell them out. *)
From stdpp Require Import base list option numbers sets.
From Stdlib Require Import ZArith SpecFloat Lia.
From S2P Require Import Prelude.
From S2P Require Import JsString.
From S2P Require Import JsNumber.
From S2P Require Import Syntax.
From S2P Require Import Parser.
From S2P Require Import Compile.
From S2P Require Import Runtime.
From S2P Require Import Structure.
From S2P Require Import Display.
From S2P Require Import Json.

(** ** Variable registry *)

Inductive var_side : Type := SideInput | SideOutput | SideCondition.

Record BillingVar : Type := {
  key : bvar;
  field : option jsstr;
  tierField : option jsstr;
  label : jsstr;
  shortLabel : jsstr;
  side : var_side;
  isBase : bool;
  isConditionOnly : bool;
  group : option jsstr
}.

Definition BILLING_VARS : list BillingVar :=
  [ {| key := Vp; field := Some (js "inputPrice"); tierField := Some (js "input_unit_cost");
       label := js "Input price"; shortLabel := js "Input"; side := SideInput;
       isBase := true; isConditionOnly := false; group := None |};
    {| key := Vc; field := Some (js "outputPrice"); tierField := Some (js "output_unit_cost");
       label := js "Completion price"; shortLabel := js "Output"; side := SideOutput;
       isBase := true; isConditionOnly := false; group := None |};
    {| key := Vlen; field := None; tierField := None;
       label := js "Input length"; shortLabel := js "Length"; side := SideCondition;
       isBase := false; isConditionOnly := true; group := None |};
    {| key := Vcr; field := Some (js "cacheReadPrice"); tierField := Some (js "cache_read_unit_cost");
       label := js "Cache read price"; shortLabel := js "Cache Read"; side := SideInput;
       isBase := false; isConditionOnly := false; group := Some (js "cache") |};
    {| key := Vcc; field := Some (js "cacheCreatePrice"); tierField := Some (js "cache_create_unit_cost");
       label := js "Cache create price"; shortLabel := js "Cache Write"; side := SideInput;
       isBase := false; isConditionOnly := false; group := Some (js "cache") |};
    {| key := Vimg_cr; field := Some (js "imageCachePrice"); tierField := Some (js "image_cache_unit_cost");
       label := js "Image cache input price"; shortLabel := js "Image Cache"; side := SideInput;
       isBase := false; isConditionOnly := false; group := Some (js "cache") |};
    {| key := Vcc1h; field := Some (js "cacheCreate1hPrice");
       tierField := Some (js "cache_create_1h_unit_cost");
       label := js "Cache create (1h) price"; shortLabel := js "Cache Write (1h)"; side := SideInput;
       isBase := false; isConditionOnly := false; group := Some (js "cache") |};
    {| key := Vimg; field := Some (js "imagePrice"); tierField := Some (js "image_unit_cost");
       label := js "Image input price"; shortLabel := js "Image In"; side := SideInput;
       isBase := false; isConditionOnly := false; group := Some (js "media") |};
    {| key := Vimg_o; field := Some (js "imageOutputPrice"); tierField := Some (js "image_output_unit_cost");
       label := js "Image output price"; shortLabel := js "Image Out"; side := SideOutput;
       isBase := false; isConditionOnly := false; group := Some (js "media") |};
    {| key := Vai; field := Some (js "audioInputPrice"); tierField := Some (js "audio_input_unit_cost");
       label := js "Audio input price"; shortLabel := js "Audio In"; side := SideInput;
       isBase := false; isConditionOnly := false; group := Some (js "media") |};
    {| key := Vao; field := Some (js "audioOutputPrice"); tierField := Some (js "audio_output_unit_cost");
       label := js "Audio output price"; shortLabel := js "Audio Out"; side := SideOutput;
       isBase := false; isConditionOnly := false; group := Some (js "media") |} ].

Definition BILLING_PRICING_VARS : list BillingVar :=
  List.filter (λ v, negb (isConditionOnly v)) BILLING_VARS.
Definition BILLING_CONDITION_VARS : list bvar :=
  map key (List.filter (λ v, isBase v || isConditionOnly v) BILLING_VARS).
Definition BILLING_EXTRA_VARS : list BillingVar :=
  List.filter (λ v, negb (isBase v) && negb (isConditionOnly v)) BILLING_VARS.

Definition BILLING_VAR_KEY_TO_FIELD (v : bvar) : option jsstr :=
  match List.find (λ w, bool_decide (key w = v)) BILLING_PRICING_VARS with
  | Some w => field w
  | None => None
  end.

(** [{ field, exprVar }] for each extra variable. *)
Definition BILLING_CACHE_VAR_MAP : list (jsstr * bvar) :=
  map (λ v, (default [] (tierField v), key v)) BILLING_EXTRA_VARS.

(** ** Price tables *)

Record ParsedTier : Type := {
  pt_label : jsstr;
  pt_imageCount : bool;
  pt_conditions : list TokenTierCondition;
  pt_request : option (option num);       (** [billingUnit: 'request', fixedPrice] *)
  pt_conditionText : option jsstr;
  pt_prices : list (jsstr * num)          (** the price fields *)
}.

Definition mapTokenTier (t : TokenTier) : ParsedTier :=
  {| pt_label := t_label t;
     pt_imageCount := t_imageCount t;
     pt_conditions := t_conditions t;
     pt_request := match t_billingUnit t with URequest => Some (t_fixedPrice t) | UToken => None end;
     pt_conditionText := match t_conditionText t with
                         | Some [] | None => None
                         | Some text => Some text
                         end;
     pt_prices := map (λ '(v, price), (default (js "undefined") (BILLING_VAR_KEY_TO_FIELD v), price))
                    (t_prices t) |}.

(** [x ?? fallback] and [x ? ... : fallback] on a reader's [null]. *)
Definition null_or {A} (r : reader A) (fallback : result exn A) : result exn A :=
  match r with
  | Ok a => Ok a
  | Err None => fallback
  | Err (Some e) => Err e
  end.

Section tables.
Context {host : Host}.

Definition parseTiersFromExpr (exprStr : jsstr) : result exn (list ParsedTier) :=
  match exprStr with
  | [] => Ok []
  | _ =>
      match compile exprStr with
      | Err _ => Ok []
      | Ok compiled =>
          null_or (map mapTokenTier <$> readTokenTierChain (c_ast compiled))
            (null_or ((λ r, map (λ t, mapTokenTier (tt_tier t)) r.1) <$>
                        readTimeTokenPricing exprStr None) (Ok []))
      end
  end.

Definition getCurrentTimePricingTiers (exprStr : jsstr) (now : date)
    : result exn (option (list ParsedTier)) :=
  null_or ((λ r, Some (map (λ t, mapTokenTier (tt_tier t)) r.2)) <$>
             readTimeTokenPricing exprStr (Some now)) (Ok None).
End tables.

(** The three passes of [normalizeTierLabel] before lower-casing: a relation
    sign, ASCII or full-width, with an optional equals sign. *)
Definition is_equals (c : N) : bool := (c =? 61)%N || (c =? 65309)%N.

Fixpoint replace_sign (ascii wide composed : N) (s : jsstr) : jsstr :=
  match s with
  | [] => []
  | c :: s1 =>
      if (c =? ascii)%N || (c =? wide)%N then
        match s1 with
        | d :: s2 => if is_equals d then ascii :: replace_sign ascii wide composed s2
                     else ascii :: replace_sign ascii wide composed s1
        | [] => [ascii]
        end
      else if (c =? composed)%N then ascii :: replace_sign ascii wide composed s1
      else c :: replace_sign ascii wide composed s1
  end.

Definition normalizeTierLabel {host : Host} (label : option jsstr) : jsstr :=
  match label with
  | None | Some [] => []
  | Some label =>
      let s := replace_sign 60 65308 8804 label in
      let s := replace_sign 62 65310 8805 s in
      to_lower_case (List.filter (λ c, negb (is_space c)) s)
  end.

(** ** Request conditions *)

Definition MATCH_EQ : jsstr := js "eq".
Definition MATCH_CONTAINS : jsstr := js "contains".
Definition MATCH_GT : jsstr := js "gt".
Definition MATCH_GTE : jsstr := js "gte".
Definition MATCH_LT : jsstr := js "lt".
Definition MATCH_LTE : jsstr := js "lte".
Definition MATCH_EXISTS : jsstr := js "exists".
Definition MATCH_RANGE : jsstr := js "range".

Definition COMMON_TIMEZONES : list (jsstr * jsstr) :=
  [(js "Asia/Shanghai", js "UTC+8 Shanghai (Asia/Shanghai)");
   (js "UTC", js "UTC");
   (js "America/New_York", js "UTC-5 New York (America/New_York)");
   (js "America/Los_Angeles", js "UTC-8 Los Angeles (America/Los_Angeles)");
   (js "America/Chicago", js "UTC-6 Chicago (America/Chicago)");
   (js "Europe/London", js "UTC+0 London (Europe/London)");
   (js "Europe/Berlin", js "UTC+1 Berlin (Europe/Berlin)");
   (js "Asia/Tokyo", js "UTC+9 Tokyo (Asia/Tokyo)");
   (js "Asia/Singapore", js "UTC+8 Singapore (Asia/Singapore)");
   (js "Asia/Seoul", js "UTC+9 Seoul (Asia/Seoul)");
   (js "Australia/Sydney", js "UTC+10 Sydney (Australia/Sydney)")].

Inductive ph_source : Type := SParam | SHeader.

Definition source_text (s : ph_source) : jsstr :=
  match s with SParam => js "param" | SHeader => js "header" end.

Inductive RequestCondition : Type :=
| TimeCondition (timeFunc : timefn) (timezone mode value rangeStart rangeEnd : jsstr)
| ParamHeaderCondition (source : ph_source) (path mode value : jsstr).

Record RequestRuleGroup : Type := {
  g_conditions : list RequestCondition;
  g_multiplier : jsstr
}.

#[global] Instance ph_source_eq_dec : EqDecision ph_source.
Proof. solve_decision. Defined.
#[global] Instance RequestCondition_eq_dec : EqDecision RequestCondition.
Proof. solve_decision. Defined.
#[global] Instance RequestRuleGroup_eq_dec : EqDecision RequestRuleGroup.
Proof. solve_decision. Defined.

(** ** Matchers *)

(** A literal of the pattern. *)
Definition lit (p s : jsstr) : option jsstr := strip_prefix p s.

(** [class+]: a non-empty maximal run. *)
Fixpoint span_class (p : N → bool) (s : jsstr) : jsstr * jsstr :=
  match s with
  | c :: s' => if p c then let '(a, r) := span_class p s' in (c :: a, r) else ([], s)
  | [] => ([], [])
  end.
Definition take_class (p : N → bool) (s : jsstr) : option (jsstr * jsstr) :=
  match span_class p s with
  | ([], _) => None
  | m => Some m
  end.

(** [$] *)
Definition at_end (s : jsstr) : option unit := match s with [] => Some tt | _ => None end.

Definition not_quote (c : N) : bool := negb (c =? DQUOTE)%N.
(** [[\d.eE+-]] *)
Definition number_char (c : N) : bool :=
  is_digit c || (c =? 46)%N || (c =? 101)%N || (c =? 69)%N || (c =? 43)%N || (c =? 45)%N.

(** The first alternative that is a prefix. *)
Definition one_of {A} (text : A → jsstr) (l : list A) (s : jsstr) : option (A * jsstr) :=
  (fix go l :=
     match l with
     | [] => None
     | a :: l => match lit (text a) s with Some r => Some (a, r) | None => go l end
     end) l.

Definition quote_text : jsstr := [DQUOTE].

(** A parenthesised quoted argument without quotes inside, after the name. *)
Definition match_argument (s : jsstr) : option (jsstr * jsstr) :=
  s ← lit (js "(" ++ quote_text) s;
  '(arg, s) ← take_class not_quote s;
  s ← lit (quote_text ++ js ")") s;
  Some (arg, s).

Definition NUMERIC_LITERAL (text : jsstr) : bool :=
  let t := match text with 45%N :: t => t | _ => text end in
  match scan_decimal t with Some (_, []) => true | _ => false end.

Definition TIME_FUNC_RANGES (f : timefn) : num * num :=
  match f with
  | Hour => (nZ 0, nZ 23) | Minute => (nZ 0, nZ 59) | Weekday => (nZ 0, nZ 6)
  | Month => (nZ 1, nZ 12) | Day => (nZ 1, nZ 31)
  end.

Definition isTimeValueInRange (f : timefn) (text : jsstr) : bool :=
  if negb (NUMERIC_LITERAL text) then false
  else
    let value := number_of_string text in
    if negb (is_integer value) then false
    else let '(min, max) := TIME_FUNC_RANGES f in ngeb value min && nleb value max.

(** [fn("tz") >= a && fn("tz") < b] or with [||], up to the end [close]. *)
Definition match_time_range (close : jsstr) (s : jsstr) : option (timefn * jsstr * jsstr * jsstr) :=
  '(f, s) ← one_of timefn_text TIME_FUNCTIONS s;
  '(tz, s) ← match_argument s;
  s ← lit (js " >= ") s;
  '(a, s) ← take_class number_char s;
  s ← lit (js " ") s;
  s ← match lit (js "&&") s with Some r => Some r | None => lit (js "||") s end;
  s ← lit (js " " ++ timefn_text f ++ js "(" ++ quote_text ++ tz ++ quote_text ++ js ") < ") s;
  '(b, s) ← take_class number_char s;
  s ← lit close s;
  _ ← at_end s;
  Some (f, tz, a, b).

Inductive scalar_op : Type := SEq | SGe | SLt.
Definition scalar_op_text (o : scalar_op) : jsstr :=
  match o with SEq => js "==" | SGe => js ">=" | SLt => js "<" end.
Definition scalar_op_mode (o : scalar_op) : jsstr :=
  match o with SEq => MATCH_EQ | SGe => MATCH_GTE | SLt => MATCH_LT end.

Definition match_time_scalar (s : jsstr) : option (timefn * jsstr * scalar_op * jsstr) :=
  '(f, s) ← one_of timefn_text TIME_FUNCTIONS s;
  '(tz, s) ← match_argument s;
  s ← lit (js " ") s;
  '(o, s) ← one_of scalar_op_text [SEq; SGe; SLt] s;
  s ← lit (js " ") s;
  '(v, s) ← take_class number_char s;
  _ ← at_end s;
  Some (f, tz, o, v).

Definition tryParseTimeCondition (expr : jsstr) : option RequestCondition :=
  let range :=
    match match_time_range [] expr with
    | Some m => Some m
    | None => s ← lit (js "(") expr; match_time_range (js ")") s
    end in
  match range with
  | Some (f, tz, a, b) =>
      if negb (isTimeValueInRange f a) || negb (isTimeValueInRange f b) then None
      else Some (TimeCondition f tz MATCH_RANGE [] a b)
  | None =>
      '(f, tz, o, v) ← match_time_scalar expr;
      if negb (isTimeValueInRange f v) then None
      else Some (TimeCondition f tz (scalar_op_mode o) v [] [])
  end.

(** A [param] or [header] call with its quoted argument. *)
Definition match_probe (s : ph_source) (t : jsstr) : option (jsstr * jsstr) :=
  t ← lit (source_text s) t; match_argument t.

(** A quoted text with escape pairs (the pair must not end a line), as the
    pattern of the has-conditions: the text with its quotes and the rest. *)
Definition line_end (c : N) : bool := (c =? 10)%N || (c =? 13)%N || (c =? 8232)%N || (c =? 8233)%N.

Fixpoint quoted_body (s : jsstr) : option (jsstr * jsstr) :=
  match s with
  | [] => None
  | c :: s1 =>
      if (c =? DQUOTE)%N then Some ([c], s1)
      else if (c =? BACKSLASH)%N then
        match s1 with
        | e :: s2 => if line_end e then None
                     else '(a, r) ← quoted_body s2; Some (c :: e :: a, r)
        | [] => None
        end
      else '(a, r) ← quoted_body s1; Some (c :: a, r)
  end.
Definition match_quoted (s : jsstr) : option (jsstr * jsstr) :=
  s ← lit quote_text s; '(a, r) ← quoted_body s; Some (DQUOTE :: a, r).

Inductive order_op : Type := OGt | OGe | OLt | OLe.
Definition order_op_text (o : order_op) : jsstr :=
  match o with OGt => js ">" | OGe => js ">=" | OLt => js "<" | OLe => js "<=" end.
Definition order_op_mode (o : order_op) : jsstr :=
  match o with OGt => MATCH_GT | OGe => MATCH_GTE | OLt => MATCH_LT | OLe => MATCH_LTE end.

(** [(>|>=|<|<=) ]: the alternative is the one followed by the space. *)
Definition match_order (s : jsstr) : option (order_op * jsstr) :=
  one_of (λ o, order_op_text o ++ js " ") [OGt; OGe; OLt; OLe] s.

Definition match_header_exists (s : jsstr) : option jsstr :=
  '(path, s) ← match_probe SHeader s;
  s ← lit (js " != " ++ quote_text ++ quote_text) s; _ ← at_end s; Some path.

Definition match_param_exists (s : jsstr) : option jsstr :=
  '(path, s) ← match_probe SParam s; s ← lit (js " != nil") s; _ ← at_end s; Some path.

Definition match_header_contains (s : jsstr) : option (jsstr * jsstr) :=
  s ← lit (js "has(") s;
  '(path, s) ← match_probe SHeader s;
  s ← lit (js ", ") s; '(q, s) ← match_quoted s; s ← lit (js ")") s; _ ← at_end s; Some (path, q).

Definition match_param_contains (s : jsstr) : option (jsstr * jsstr * jsstr) :=
  '(path, s) ← match_probe SParam s;
  s ← lit (js " != nil && has(") s;
  '(path2, s) ← match_probe SParam s;
  s ← lit (js ", ") s; '(q, s) ← match_quoted s; s ← lit (js ")") s; _ ← at_end s;
  Some (path, path2, q).

Definition match_param_order (s : jsstr) : option (jsstr * jsstr * order_op * jsstr) :=
  '(path, s) ← match_probe SParam s;
  s ← lit (js " != nil && ") s;
  '(path2, s) ← match_probe SParam s;
  s ← lit (js " ") s;
  '(o, s) ← match_order s;
  '(v, s) ← take_class number_char s; _ ← at_end s;
  Some (path, path2, o, v).

(** An equality: the rest of the line is the literal. *)
Definition match_equality (s : jsstr) : option (ph_source * jsstr * jsstr) :=
  '(src, s) ← one_of source_text [SParam; SHeader] s;
  '(path, s) ← match_argument s;
  s ← lit (js " == ") s;
  match s with
  | [] => None
  | _ => if existsb line_end s then None else Some (src, path, s)
  end.

(** ** Parsing of rules *)

Definition syntax_error {A} : result exn A := Err (HostError (js "SyntaxError")).

(** [JSON.parse(m) as string] on a quoted text. *)
Definition parse_quoted (q : jsstr) : result exn jsstr :=
  match json_parse q with
  | Some v => Ok (js_text v)
  | None => syntax_error
  end.

(** The literal as text; [JSON.parse] yields [null] for the text [null]. *)
Definition parseExprLiteral (raw : jsstr) : option jsstr :=
  let text := trim raw in
  if jseq text (js "true") || jseq text (js "false") then Some text
  else if NUMERIC_LITERAL text then Some text
  else
    match json_parse text with
    | Some JNull | None => None
    | Some v => Some (js_text v)
    end.

Definition tryParseRequestCondition (expr : jsstr) : result exn (option RequestCondition) :=
  let equality :=
    match match_equality expr with
    | Some (src, path, raw) =>
        match parseExprLiteral raw with
        | Some v => Ok (Some (ParamHeaderCondition src path MATCH_EQ v))
        | None => Ok None
        end
    | None => Ok None
    end in
  let order :=
    match match_param_order expr with
    | Some (path, path2, o, v) =>
        if jseq path path2 then Ok (Some (ParamHeaderCondition SParam path (order_op_mode o) v))
        else equality
    | None => equality
    end in
  let contains :=
    match match_param_contains expr with
    | Some (path, path2, q) =>
        if jseq path path2 then
          v ← parse_quoted q; Ok (Some (ParamHeaderCondition SParam path MATCH_CONTAINS v))
        else order
    | None => order
    end in
  match tryParseTimeCondition expr with
  | Some tc => Ok (Some tc)
  | None =>
      match match_header_exists expr with
      | Some path => Ok (Some (ParamHeaderCondition SHeader path MATCH_EXISTS []))
      | None =>
          match match_param_exists expr with
          | Some path => Ok (Some (ParamHeaderCondition SParam path MATCH_EXISTS []))
          | None =>
              match match_header_contains expr with
              | Some (path, q) =>
                  v ← parse_quoted q; Ok (Some (ParamHeaderCondition SHeader path MATCH_CONTAINS v))
              | None => contains
              end
          end
      end
  end.

Definition tryParseTimeRangePair (lower upper : jsstr) : option RequestCondition :=
  match tryParseTimeCondition lower, tryParseTimeCondition upper with
  | Some (TimeCondition f tz mode v _ _), Some (TimeCondition f' tz' mode' v' _ _) =>
      if negb (bool_decide (f = f')) || negb (jseq tz tz') then None
      else if negb (jseq mode MATCH_GTE) || negb (jseq mode' MATCH_LT) then None
      else Some (TimeCondition f tz MATCH_RANGE [] v v')
  | _, _ => None
  end.

(** The loop over the conjuncts: [Ok None] is [return null]. *)
Fixpoint parse_conjuncts (parts : list jsstr) (conditions : list RequestCondition)
    : result exn (option (list RequestCondition)) :=
  match parts with
  | [] => Ok (match conditions with [] => None | _ => Some conditions end)
  | raw :: rest =>
      let part := trim raw in
      let scalar :=
        c ← tryParseRequestCondition part;
        match c with
        | Some c => parse_conjuncts rest (conditions ++ [c])
        | None => Ok None
        end in
      match rest with
      | raw_next :: rest' =>
          match trim raw_next with
          | [] => scalar
          | next =>
              match tryParseTimeRangePair part next with
              | Some merged => parse_conjuncts rest' (conditions ++ [merged])
              | None => scalar
              end
          end
      | [] => scalar
      end
  end.

(** The separators ["*"] and ["&&"] are not empty, so the split returns. *)
Definition split_or_fail (source operator : jsstr) : result exn (list jsstr) :=
  match splitExpressionAtTopLevel source operator with
  | Some parts => Ok parts
  | None => Err OutOfFuel
  end.
Definition splitTopLevelMultiply (expr : jsstr) : result exn (list jsstr) := split_or_fail expr (js "*").
Definition splitTopLevelAnd (expr : jsstr) : result exn (list jsstr) := split_or_fail expr (js "&&").

Definition tryParseRequestConditions (conditionStr : jsstr)
    : result exn (option (list RequestCondition)) :=
  match tryParseTimeCondition (trim conditionStr) with
  | Some whole => Ok (Some [whole])
  | None =>
      andParts ← splitTopLevelAnd conditionStr;
      parse_conjuncts andParts []
  end.

(** [^\((.+) \? ([\d.eE+-]+) : 1\)$], read from the end: the multiplier has
    no space, so it is the last run of the class before the fixed suffix. *)
Definition match_rule_factor (part : jsstr) : option (jsstr * jsstr) :=
  body ← lit (js "(") part;
  body ← lit (reverse (js " : 1)")) (reverse body);
  '(rev_multiplier, body) ← take_class number_char body;
  body ← lit (reverse (js " ? ")) body;
  match body with
  | [] => None
  | _ => Some (reverse body, reverse rev_multiplier)
  end.

Definition tryParseRuleGroupFactor (part : jsstr) : result exn (option RequestRuleGroup) :=
  match match_rule_factor part with
  | None => Ok None
  | Some (condition, multiplier) =>
      conditions ← tryParseRequestConditions condition;
      Ok (match conditions with
          | Some conditions => Some {| g_conditions := conditions; g_multiplier := multiplier |}
          | None => None
          end)
  end.

Record TracedGroup : Type := {
  tr_group : RequestRuleGroup;
  tr_conditionText : jsstr;
  tr_matched : bool
}.

Fixpoint requestRuleGroupsFromTrace (requestRules : list BillingRequestRule)
    : result exn (list TracedGroup) :=
  match requestRules with
  | [] => Ok []
  | rule :: requestRules =>
      let conditionText := trim (cond rule) in
      conditions ← tryParseRequestConditions conditionText;
      groups ← requestRuleGroupsFromTrace requestRules;
      Ok ({| tr_group := {| g_conditions := default [] conditions;
                            g_multiplier := number_to_string (multiplier rule) |};
             tr_conditionText := conditionText; tr_matched := matched rule |} :: groups)
  end.

Fixpoint parse_factors (parts : list jsstr) (groups : list RequestRuleGroup)
    : result exn (option (list RequestRuleGroup)) :=
  match parts with
  | [] => Ok (Some groups)
  | part :: parts =>
      g ← tryParseRuleGroupFactor part;
      match g with
      | Some g => parse_factors parts (groups ++ [g])
      | None => Ok None
      end
  end.

Definition tryParseRequestRuleExpr (expr : jsstr) : result exn (option (list RequestRuleGroup)) :=
  match trim expr with
  | [] => Ok (Some [])
  | trimmed => parts ← splitTopLevelMultiply trimmed; parse_factors parts []
  end.

(** ** Base expression and rules *)

Definition unwrapOuterParens (expr : jsstr) : result exn jsstr :=
  match unwrapExpressionParens expr with Some r => Ok r | None => Err OutOfFuel end.

(** The compiled part is itself a traced request rule. *)
Definition is_traced (part : jsstr) : bool :=
  match compile part with
  | Ok c => existsb (λ r, node_eqb (rule_node r) (c_ast c)) (c_requestRules c)
  | Err _ => false
  end.

(** [true] for a rule part, in order. *)
Fixpoint classify_parts (parts : list jsstr) : result exn (list (jsstr * bool)) :=
  match parts with
  | [] => Ok []
  | part :: parts =>
      parsed ← tryParseRequestRuleExpr part;
      let is_rule := match parsed with Some (_ :: _) => true | _ => false end || is_traced part in
      rest ← classify_parts parts;
      Ok ((part, is_rule) :: rest)
  end.

Fixpoint unwrap_all (parts : list jsstr) : result exn (list jsstr) :=
  match parts with
  | [] => Ok []
  | p :: parts => u ← unwrapOuterParens p; us ← unwrap_all parts; Ok (u :: us)
  end.

Record SplitExpr : Type := { billingExpr : jsstr; requestRuleExpr : jsstr }.

Definition splitBillingExprAndRequestRules (expr : jsstr) : result exn SplitExpr :=
  match trim expr with
  | [] => Ok {| billingExpr := []; requestRuleExpr := [] |}
  | trimmed =>
      let whole := Ok {| billingExpr := trimmed; requestRuleExpr := [] |} in
      parts ← splitTopLevelMultiply trimmed;
      if length parts <=? 1 then whole
      else
        classified ← classify_parts parts;
        let ruleParts := map fst (List.filter snd classified) in
        let baseParts := map fst (List.filter (λ p, negb (snd p)) classified) in
        unwrapped ← unwrap_all baseParts;
        let quantity := List.filter (λ p, jseq p (js "image_count")) unwrapped in
        if match ruleParts with [] => true | _ => false end
           || negb (length baseParts - length quantity =? 1) then whole
        else Ok {| billingExpr := join (js " * ") unwrapped;
                   requestRuleExpr := join (js " * ") ruleParts |}
  end.

Definition combineBillingExpr (baseExpr requestRuleExpr : jsstr) : jsstr :=
  match trim baseExpr, trim requestRuleExpr with
  | [], _ => []
  | base, [] => base
  | base, rules => js "(" ++ base ++ js ") * " ++ rules
  end.

Definition parseTaskTiersFromExpr (exprStr : jsstr) (schema : option BillingUsageSchema)
    (includeBooleanConditions : bool) : result exn (list TaskTier) :=
  match exprStr, schema with
  | [], _ | _, None | _, Some [] => Ok []
  | _, Some schema =>
      split ← splitBillingExprAndRequestRules exprStr;
      match compile (billingExpr split) with
      | Err _ => Ok []
      | Ok compiled => null_or (readTaskTierChain (c_ast compiled) schema includeBooleanConditions) (Ok [])
      end
  end.

(** ** Editor *)

Definition createEmptyCondition : RequestCondition := ParamHeaderCondition SParam [] MATCH_EQ [].
Definition createEmptyTimeCondition : RequestCondition :=
  TimeCondition Hour (js "Asia/Shanghai") MATCH_GTE [] [] [].
Definition createEmptyRuleGroup : RequestRuleGroup :=
  {| g_conditions := [createEmptyCondition]; g_multiplier := [] |}.
Definition createEmptyTimeRuleGroup : RequestRuleGroup :=
  {| g_conditions := [createEmptyTimeCondition]; g_multiplier := [] |}.

Inductive rule_source : Type := SourceTime | SourceOf (s : ph_source).

Definition getRequestRuleMatchOptions (source : rule_source) : list (jsstr * jsstr) :=
  let base := [(MATCH_EQ, js "Equals"); (MATCH_CONTAINS, js "Contains"); (MATCH_EXISTS, js "Exists")] in
  match source with
  | SourceTime =>
      [(MATCH_EQ, js "Equals"); (MATCH_GTE, js "Greater than or equal");
       (MATCH_LT, js "Less than"); (MATCH_RANGE, js "Overnight range")]
  | SourceOf SHeader => base
  | SourceOf SParam =>
      base ++ [(MATCH_GT, js "Greater than"); (MATCH_GTE, js "Greater than or equal");
               (MATCH_LT, js "Less than"); (MATCH_LTE, js "Less than or equal")]
  end.

(** [Partial<RequestCondition>]: fields of either shape, each maybe absent. *)
Record PartialCondition : Type := {
  pc_source : option jsstr; pc_path : option jsstr; pc_mode : option jsstr;
  pc_value : option jsstr; pc_timeFunc : option jsstr; pc_timezone : option jsstr;
  pc_rangeStart : option jsstr; pc_rangeEnd : option jsstr
}.

Definition empty_partial : PartialCondition :=
  {| pc_source := None; pc_path := None; pc_mode := None; pc_value := None;
     pc_timeFunc := None; pc_timezone := None; pc_rangeStart := None; pc_rangeEnd := None |}.

Definition partial_of (c : RequestCondition) : PartialCondition :=
  match c with
  | TimeCondition f tz mode v s e =>
      {| pc_source := Some (js "time"); pc_path := None; pc_mode := Some mode; pc_value := Some v;
         pc_timeFunc := Some (timefn_text f); pc_timezone := Some tz;
         pc_rangeStart := Some s; pc_rangeEnd := Some e |}
  | ParamHeaderCondition src path mode v =>
      {| pc_source := Some (source_text src); pc_path := Some path; pc_mode := Some mode;
         pc_value := Some v; pc_timeFunc := None; pc_timezone := None;
         pc_rangeStart := None; pc_rangeEnd := None |}
  end.

Definition valid_mode (source : rule_source) (mode : option jsstr) (fallback : jsstr) : jsstr :=
  match mode with
  | Some m => if existsb (λ o, jseq o.1 m) (getRequestRuleMatchOptions source) then m else fallback
  | None => fallback
  end.

(** [x || fallback] on strings. *)
Definition truthy_or (x : option jsstr) (fallback : jsstr) : jsstr :=
  match x with Some ((_ :: _) as s) => s | _ => fallback end.

Definition normalizeCondition (c : option PartialCondition) : RequestCondition :=
  let p := default empty_partial c in
  let is_source s := match pc_source p with Some t => jseq t (js s) | None => false end in
  if is_source "time"%string then
    TimeCondition
      (default Hour (t ← pc_timeFunc p; lookup_text timefn_text TIME_FUNCTIONS t))
      (truthy_or (pc_timezone p) (js "Asia/Shanghai"))
      (valid_mode SourceTime (pc_mode p) MATCH_GTE)
      (default [] (pc_value p)) (default [] (pc_rangeStart p)) (default [] (pc_rangeEnd p))
  else
    let src := if is_source "header"%string then SHeader else SParam in
    ParamHeaderCondition src (truthy_or (pc_path p) [])
      (valid_mode (SourceOf src) (pc_mode p) MATCH_EQ) (default [] (pc_value p)).

Definition buildExprLiteral (mode value : jsstr) : jsstr :=
  let text := trim value in
  if jseq mode MATCH_CONTAINS then json_stringify text
  else if jseq text (js "true") || jseq text (js "false") then text
  else if NUMERIC_LITERAL text then text
  else json_stringify text.

Definition build_time (f : timefn) (timezone mode value rangeStart rangeEnd : jsstr) : jsstr :=
  let fn := timefn_text f ++ js "(" ++ json_stringify timezone ++ js ")" in
  if jseq mode MATCH_RANGE then
    let s := trim rangeStart in
    let e := trim rangeEnd in
    if negb (isTimeValueInRange f s) || negb (isTimeValueInRange f e) then []
    else if ngtb (number_of_string s) (number_of_string e) then
      fn ++ js " >= " ++ s ++ js " || " ++ fn ++ js " < " ++ e
    else fn ++ js " >= " ++ s ++ js " && " ++ fn ++ js " < " ++ e
  else
    let v := trim value in
    if negb (isTimeValueInRange f v) then []
    else
      let op := if jseq mode MATCH_EQ then js "=="
                else if jseq mode MATCH_GTE then js ">="
                else if jseq mode MATCH_LT then js "<" else js "==" in
      fn ++ js " " ++ op ++ js " " ++ v.

Definition buildTimeConditionExpr (c : RequestCondition) : jsstr :=
  match normalizeCondition (Some (partial_of c)) with
  | TimeCondition f tz mode v s e => build_time f tz mode v s e
  | ParamHeaderCondition _ _ _ _ => []
  end.

Definition build_param_header (src : ph_source) (rawPath mode value : jsstr) : jsstr :=
  match trim rawPath with
  | [] => []
  | path =>
      let sourceExpr := source_text src ++ js "(" ++ json_stringify path ++ js ")" in
      let order (op : jsstr) :=
        let numText := trim value in
        if negb (NUMERIC_LITERAL numText) then []
        else sourceExpr ++ js " != nil && " ++ sourceExpr ++ js " " ++ op ++ js " " ++ numText in
      if jseq mode MATCH_EXISTS then
        match src with
        | SHeader => sourceExpr ++ js " != " ++ quote_text ++ quote_text
        | SParam => sourceExpr ++ js " != nil"
        end
      else if jseq mode MATCH_CONTAINS then
        let has := js "has(" ++ sourceExpr ++ js ", " ++ buildExprLiteral mode value ++ js ")" in
        match src with
        | SHeader => has
        | SParam => sourceExpr ++ js " != nil && " ++ has
        end
      else if jseq mode MATCH_GT then order (js ">")
      else if jseq mode MATCH_GTE then order (js ">=")
      else if jseq mode MATCH_LT then order (js "<")
      else if jseq mode MATCH_LTE then order (js "<=")
      else sourceExpr ++ js " == " ++ buildExprLiteral mode value
  end.

Definition buildRequestConditionExpr (c : RequestCondition) : jsstr :=
  match c with
  | TimeCondition _ _ _ _ _ _ => buildTimeConditionExpr c
  | ParamHeaderCondition _ _ _ _ =>
      match normalizeCondition (Some (partial_of c)) with
      | ParamHeaderCondition src path mode v => build_param_header src path mode v
      | TimeCondition _ _ _ _ _ _ => []
      end
  end.

Definition combine_conditions (condExprs : list jsstr) : jsstr :=
  match condExprs with
  | [e] => e
  | _ => join (js " && ")
           (map (λ e, if includes (js " || ") e then js "(" ++ e ++ js ")" else e) condExprs)
  end.

Definition buildRuleGroupFactor (g : RequestRuleGroup) : jsstr :=
  let multiplier := trim (g_multiplier g) in
  if negb (NUMERIC_LITERAL multiplier) then []
  else
    match List.filter nonempty (map buildRequestConditionExpr (g_conditions g)) with
    | [] => []
    | condExprs => js "(" ++ combine_conditions condExprs ++ js " ? " ++ multiplier ++ js " : 1)"
    end.

Definition buildRequestRuleExpr (groups : list RequestRuleGroup) : jsstr :=
  join (js " * ") (List.filter nonempty (map buildRuleGroupFactor groups)).
