(* ===== verification/TierExpr.v ===== *)
(** * Tier generator and cost estimator

    Models [tier-expr.ts] (the expression generated from a visual tier table,
    and the local cost estimator) and [breakdown-tier-match.ts] (which row of
    a price table is the settled one).  [tryParseVisualConfig], whose
    patterns need backtracking, is not modelled. *)
From stdpp Require Import base list option numbers sets.
From Stdlib Require Import ZArith SpecFloat Lia.
From S2P Require Import Prelude.
From S2P Require Import JsString.
From S2P Require Import JsNumber.
From S2P Require Import Syntax.
From S2P Require Import Parser.
From S2P Require Import Compile.
From S2P Require Import Runtime.
From S2P Require Import Structure.
From S2P Require Import Display.
From S2P Require Import Json.
From S2P Require Import BillingExpr.

(** ** Visual tiers *)

Inductive CacheMode : Type := CACHE_MODE_TIMED | CACHE_MODE_GENERIC.

(** The value of a condition input: a number or the text of a form field. *)
Inductive condition_value : Type := CVNum (x : num) | CVText (s : jsstr).

Record TierConditionInput : Type := { ci_var : bvar; ci_op : binop; ci_value : condition_value }.

(** [Partial<VisualTier>]: the cost fields beyond input and output are an
    association list keyed by field name. *)
Record VisualTierInput : Type := {
  vi_billing_unit : option billing_unit;
  vi_fixed_price : option jsstr;
  vi_label : option jsstr;
  vi_conditions : option (list TierConditionInput);
  vi_input_unit_cost : option num;
  vi_output_unit_cost : option num;
  vi_cache_mode : option CacheMode;
  vi_costs : list (jsstr * num)
}.

Record VisualTier : Type := {
  vt_billing_unit : option billing_unit;
  vt_fixed_price : option jsstr;
  vt_label : jsstr;
  vt_conditions : list TierConditionInput;
  vt_input_unit_cost : num;
  vt_output_unit_cost : num;
  vt_cache_mode : CacheMode;
  vt_costs : list (jsstr * num)
}.

Definition VisualConfig : Type := list VisualTier.

(** [Number(x) || 0] *)
Definition number_or_zero (x : option num) : num :=
  match x with
  | Some S754_nan | Some (S754_zero _) | None => NZERO
  | Some x => x
  end.

Definition getTierCacheMode (tier : VisualTierInput) : CacheMode :=
  match vi_cache_mode tier with
  | Some m => m
  | None =>
      match assoc (vi_costs tier) (js "cache_create_1h_unit_cost") with
      | Some x => if ngtb x NZERO then CACHE_MODE_TIMED else CACHE_MODE_GENERIC
      | None => CACHE_MODE_GENERIC
      end
  end.

(** The cost fields [normalizeVisualTier] rewrites after the spread. *)
Definition normalized_costs : list jsstr :=
  map js ["cache_read_unit_cost"; "cache_create_unit_cost"; "cache_create_1h_unit_cost";
          "image_unit_cost"; "image_output_unit_cost"; "audio_input_unit_cost";
          "audio_output_unit_cost"]%string.

(** [{ ...object, [k]: v }] *)
Fixpoint set_field {A} (l : list (jsstr * A)) (k : jsstr) (a : A) : list (jsstr * A) :=
  match l with
  | [] => [(k, a)]
  | (k', b) :: l => if jseq k' k then (k', a) :: l else (k', b) :: set_field l k a
  end.

(** Fields present in the input survive the spread unchanged. *)
Definition normalizeVisualTier (tier : VisualTierInput) : VisualTier :=
  {| vt_billing_unit := vi_billing_unit tier;
     vt_fixed_price := vi_fixed_price tier;
     vt_label := default [] (vi_label tier);
     vt_conditions := default [] (vi_conditions tier);
     vt_input_unit_cost := default NZERO (vi_input_unit_cost tier);
     vt_output_unit_cost := default NZERO (vi_output_unit_cost tier);
     vt_cache_mode := getTierCacheMode tier;
     vt_costs := fold_left (λ l k, set_field l k (number_or_zero (assoc (vi_costs tier) k)))
                   normalized_costs (vi_costs tier) |}.

Definition createDefaultVisualConfig : VisualConfig :=
  [normalizeVisualTier
     {| vi_billing_unit := None; vi_fixed_price := None; vi_label := Some (js "base");
        vi_conditions := Some []; vi_input_unit_cost := Some NZERO;
        vi_output_unit_cost := Some NZERO; vi_cache_mode := Some CACHE_MODE_GENERIC;
        vi_costs := [] |}].

(** The tiers of a config are given as the partial tiers they are read as. *)
Definition normalizeVisualConfig (config : option (list VisualTierInput)) : VisualConfig :=
  match config with
  | None | Some [] => createDefaultVisualConfig
  | Some tiers => map normalizeVisualTier tiers
  end.

(** ** Generated expressions *)

Definition condition_value_text (v : condition_value) : jsstr :=
  match v with CVNum x => number_to_string x | CVText s => s end.

Definition buildConditionStr (conditions : list TierConditionInput) : jsstr :=
  join (js " && ")
    (map (λ c, bvar_text (ci_var c) ++ js " " ++ binop_text (ci_op c) ++ js " "
               ++ condition_value_text (ci_value c))
       (List.filter (λ c, match ci_value c with CVText [] => false | _ => true end) conditions)).

Definition buildTierBodyExpr (tier : VisualTier) : jsstr :=
  match vt_billing_unit tier with
  | Some URequest => js "fixed(" ++ default [] (vt_fixed_price tier) ++ js ")"
  | _ =>
      let ic := number_or_zero (Some (vt_input_unit_cost tier)) in
      let oc := number_or_zero (Some (vt_output_unit_cost tier)) in
      let extra := omap (λ '(field, exprVar),
        let v := number_or_zero (assoc (vt_costs tier) field) in
        if neqb v NZERO then None
        else Some (bvar_text exprVar ++ js " * " ++ number_to_string v)) BILLING_CACHE_VAR_MAP in
      join (js " + ")
        ((js "p * " ++ number_to_string ic) :: (js "c * " ++ number_to_string oc) :: extra)
  end.

Definition tier_body (label : jsstr) (tier : VisualTier) : jsstr :=
  js "tier(" ++ quote_text ++ label ++ quote_text ++ js ", " ++ buildTierBodyExpr tier ++ js ")".

Fixpoint tier_parts (i : nat) (tiers : list VisualTier) : list jsstr :=
  match tiers with
  | [] => []
  | tier :: rest =>
      let label := match vt_label tier with
                   | [] => js "tier_" ++ nat_text (S i)
                   | l => l
                   end in
      let body := tier_body label tier in
      let part :=
        match rest, buildConditionStr (vt_conditions tier) with
        | _ :: _, (_ :: _) as c => c ++ js " ? " ++ body
        | _, _ => body
        end in
      part :: tier_parts (S i) rest
  end.

Definition generateExprFromVisualConfig (config : option VisualConfig) : jsstr :=
  match config with
  | None | Some [] => js "p * 0 + c * 0"
  | Some [tier] =>
      let label := match vt_label tier with [] => js "default" | l => l end in
      let body := tier_body label tier in
      match buildConditionStr (vt_conditions tier) with
      | [] => body
      | c => c ++ js " ? " ++ body ++ js " : p * 0 + c * 0"
      end
  | Some tiers => join (js " : ") (tier_parts 0 tiers)
  end.

(** ** Estimator *)

Record ExtraTokenValues : Type := {
  cacheReadTokens : num; cacheCreateTokens : num; cacheCreate1hTokens : num;
  imageTokens : num; imageCacheTokens : num; imageOutputTokens : num;
  audioInputTokens : num; audioOutputTokens : num
}.

Definition ESTIMATOR_VARS : list (bvar * (ExtraTokenValues → num)) :=
  [(Vcr, cacheReadTokens); (Vcc, cacheCreateTokens); (Vcc1h, cacheCreate1hTokens);
   (Vimg, imageTokens); (Vimg_cr, imageCacheTokens); (Vimg_o, imageOutputTokens);
   (Vai, audioInputTokens); (Vao, audioOutputTokens)].

Definition buildEstimatorTokens (promptTokens completionTokens : num) (x : ExtraTokenValues)
    : list (jsstr * jsval) :=
  [(js "p", JNum promptTokens);
   (js "c", JNum completionTokens);
   (js "len", JNum (nadd (nadd (nadd (nadd (nadd (nadd promptTokens (cacheReadTokens x))
      (imageCacheTokens x)) (imageTokens x)) (audioInputTokens x)) (cacheCreateTokens x))
      (cacheCreate1hTokens x)))]
  ++ map (λ '(v, get), (bvar_text v, JNum (get x))) ESTIMATOR_VARS.

(** [{ ...a, ...b }] *)
Definition spread {A} (a b : list (jsstr * A)) : list (jsstr * A) :=
  fold_left (λ l '(k, v), set_field l k v) b a.

Record EvalResult : Type := {
  er_cost : num;
  er_matchedTier : jsstr;
  er_error : option jsstr;
  er_billingUnit : option billing_unit
}.

Section estimator.
Context {host : Host}.

Definition estimator_context (promptTokens completionTokens : num) (x : ExtraTokenValues)
    (context : option BillingSimulationContext) : BillingSimulationContext :=
  let base := default {| imageCount := None; tokens := []; request := None; usage := None; now := None |}
                context in
  {| imageCount := imageCount base;
     tokens := spread (buildEstimatorTokens promptTokens completionTokens x) (tokens base);
     request := request base; usage := usage base; now := now base |}.

Definition evalExprLocally (current_time : date) (exprStr : jsstr)
    (promptTokens completionTokens : num) (x : ExtraTokenValues)
    (context : option BillingSimulationContext) : EvalResult :=
  match trim exprStr with
  | [] => {| er_cost := NZERO; er_matchedTier := []; er_error := None; er_billingUnit := None |}
  | _ =>
      match evaluateBillingExpression current_time exprStr
              (estimator_context promptTokens completionTokens x context) with
      | Err failure =>
          {| er_cost := NZERO; er_matchedTier := [];
             er_error := Some (detail (failure_diagnostic failure)); er_billingUnit := None |}
      | Ok r =>
          {| er_cost := cost r; er_matchedTier := s_matchedTier r; er_error := None;
             er_billingUnit := match s_billingUnit r with URequest => Some URequest | UToken => None end |}
      end
  end.
End estimator.

Definition exprUsesExtraVars (exprStr : jsstr) : bool :=
  match exprStr with
  | [] => false
  | _ =>
      match compile exprStr with
      | Err _ => false
      | Ok c => existsb (λ '(v, _), bool_decide (v ∈ c_variables c)) ESTIMATOR_VARS
      end
  end.

(** ** Settled row of a price table *)

Record ParsedTaskTier : Type := {
  pk_conditionText : option jsstr;
  pk_tier : TaskTier
}.

Inductive BreakdownMatchTier : Type := BToken (t : ParsedTier) | BTask (t : ParsedTaskTier).

Definition tier_label (t : BreakdownMatchTier) : jsstr :=
  match t with BToken t => pt_label t | BTask t => k_label (pk_tier t) end.

(** [Record<string, string | number>] *)
Definition UsageFacts : Type := list (jsstr * condition_value).

Definition fact_equals (facts : UsageFacts) (missing : option jsstr) (c : jsstr * jsstr) : bool :=
  match assoc facts c.1 with
  | Some v => jseq (condition_value_text v) c.2
  | None => match missing with Some text => jseq text c.2 | None => false end
  end.

Definition has_text (t : option jsstr) : bool := match t with Some (_ :: _) => true | _ => false end.

Section breakdown.
Context {host : Host}.

Definition tierMatchesNormalizedLabel (tier : BreakdownMatchTier) (label : jsstr) : bool :=
  nonempty label && jseq (normalizeTierLabel (Some (tier_label tier))) label.

(** The unit and fixed price reported by the engine, for token tiers. *)
Definition unit_mismatch (tier : BreakdownMatchTier) (unit : option billing_unit)
    (fixedPrice : option num) : bool :=
  match tier, unit with
  | BToken t, Some URequest =>
      match pt_request t with
      | None => true
      | Some price =>
          match fixedPrice with
          | None => false
          | Some engine => match price with Some p => negb (neqb p engine) | None => true end
          end
      end
  | BToken t, Some UToken => match pt_request t with Some _ => true | None => false end
  | _, _ => false
  end.

Definition isBreakdownTierMatched (tier : BreakdownMatchTier) (tiers : list BreakdownMatchTier)
    (matchedTierLabel : option jsstr) (usageFacts : option UsageFacts)
    (unit : option billing_unit) (fixedPrice : option num) : bool :=
  if unit_mismatch tier unit fixedPrice then false
  else
    let label := normalizeTierLabel matchedTierLabel in
    let carries t := tierMatchesNormalizedLabel t label in
    if carries tier then
      match tier with
      | BTask t =>
          if 1 <? length (List.filter carries tiers) then
            negb (has_text (pk_conditionText t)) &&
            match usageFacts with
            | Some facts =>
                match k_conditions (pk_tier t) with
                | [] => false
                | cs => forallb (fact_equals facts (Some (js "undefined"))) cs
                end
            | None => false
            end
          else true
      | BToken _ => true
      end
    else if existsb carries tiers then false
    else
      match usageFacts, tier with
      | None, _ => false
      | Some facts, BToken t => false
      | Some facts, BTask t =>
          match k_conditions (pk_tier t) with
          | [] => false
          | cs => negb (has_text (pk_conditionText t)) && forallb (fact_equals facts None) cs
          end
      end.
End breakdown.
