(* ===== verification/EditorFacts.v ===== *)
(** * Facts about the expression editors

    The request-rule parser and builder, the separation of base expression and
    rules, the generated tiers, the estimator, a run of a compiled expression
    and the settled row. *)
From stdpp Require Import base list option numbers sets relations.
From Stdlib Require Import ZArith SpecFloat Lia.
From S2P Require Import Prelude.
From S2P Require Import JsString.
From S2P Require Import JsNumber.
From S2P Require Import Syntax.
From S2P Require Import Parser.
From S2P Require Import ParserFacts.
From S2P Require Import Compile.
From S2P Require Import Runtime.
From S2P Require Import CompileFacts.
From S2P Require Import RuntimeFacts.
From S2P Require Import Structure.
From S2P Require Import Display.
From S2P Require Import DisplayFacts.
From S2P Require Import Json.
From S2P Require Import BillingExpr.
From S2P Require Import TierExpr.

(** ** The request-rule editor

    The rule parser accepts only time values the builder can write back, and
    rebuilding a parsed time condition gives its text; condition
    normalisation is idempotent; the splitter's only failure is the one of
    [JSON.parse]. *)

(** ** Matchers *)

Lemma lit_Some p s r : lit p s = Some r → s = p ++ r.
Proof.
  unfold lit, strip_prefix. destruct (starts_with p s) eqn:E; [|done].
  apply starts_with_prefix in E as [r' ->]. rewrite drop_app_length. by intros [= ->].
Qed.

Lemma span_class_Some p s a r : span_class p s = (a, r) → s = a ++ r ∧ Forall (λ c, p c = true) a.
Proof.
  revert a r. induction s as [|c s IH]; intros a r H; cbn in H; [by injection H as <- <-|].
  destruct (p c) eqn:E; [|by injection H as <- <-].
  destruct (span_class p s) as [a' r']. injection H as <- <-.
  destruct (IH _ _ eq_refl) as [-> H]. auto.
Qed.

Lemma take_class_Some p s a r :
  take_class p s = Some (a, r) → s = a ++ r ∧ Forall (λ c, p c = true) a ∧ a ≠ [].
Proof.
  unfold take_class. destruct (span_class p s) as [[|c a'] r'] eqn:E; [done|].
  intros [= <- <-]. by apply span_class_Some in E as [-> H].
Qed.

Lemma at_end_Some s u : at_end s = Some u → s = [].
Proof. by destruct s. Qed.

Lemma one_of_Some {A} (text : A → jsstr) l s a r : one_of text l s = Some (a, r) → s = text a ++ r.
Proof.
  induction l as [|b l IH]; [done|]. cbn. destruct (lit (text b) s) eqn:E; [|done].
  intros [= <- <-]. by apply lit_Some.
Qed.

Lemma match_argument_Some s a r :
  match_argument s = Some (a, r) →
  s = js "(" ++ quote_text ++ a ++ quote_text ++ js ")" ++ r ∧ a ≠ [].
Proof.
  unfold match_argument. intros H. apply bind_Some in H as (s1 & H1 & H).
  apply bind_Some in H as ([arg s2] & H2 & H). apply bind_Some in H as (s3 & H3 & [= <- <-]).
  apply lit_Some in H1 as ->. apply take_class_Some in H2 as (-> & _ & Hn). apply lit_Some in H3 as ->.
  split; [|done]. by rewrite <- !app_assoc.
Qed.

Ltac inv_match H :=
  repeat match type of H with
  | mbind _ _ = Some _ => let x := fresh "x" in let Hx := fresh "Hx" in apply bind_Some in H as (x & Hx & H)
  | (let '(_, _) := ?p in _) = Some _ => destruct p
  end.

(** Equality of texts up to the grouping of concatenations. *)
Ltac texts :=
  unfold quote_text; repeat (progress (cbn [app]; rewrite <- ?app_assoc, ?app_nil_r)); reflexivity.

(** ** Time conditions *)

Definition call_text (f : timefn) (tz : jsstr) : jsstr :=
  timefn_text f ++ js "(" ++ quote_text ++ tz ++ quote_text ++ js ")".
Definition range_text (f : timefn) (tz a b : jsstr) (overnight : bool) : jsstr :=
  call_text f tz ++ js " >= " ++ a ++ (if overnight then js " || " else js " && ")
  ++ call_text f tz ++ js " < " ++ b.
Definition scalar_text (f : timefn) (tz : jsstr) (o : scalar_op) (v : jsstr) : jsstr :=
  call_text f tz ++ js " " ++ scalar_op_text o ++ js " " ++ v.

Definition numeric_run (v : jsstr) : Prop := Forall (λ c, number_char c = true) v ∧ v ≠ [].

Lemma match_time_range_Some close s f tz a b :
  match_time_range close s = Some (f, tz, a, b) →
  tz ≠ [] ∧ numeric_run a ∧ numeric_run b ∧
  ∃ overnight, s = range_text f tz a b overnight ++ close.
Proof.
  unfold match_time_range. intros H.
  apply bind_Some in H as ([f' s1] & H1 & H). apply bind_Some in H as ([tz' s2] & H2 & H).
  apply bind_Some in H as (s3 & H3 & H). apply bind_Some in H as ([a' s4] & H4 & H).
  apply bind_Some in H as (s5 & H5 & H). apply bind_Some in H as (s6 & H6 & H).
  apply bind_Some in H as (s7 & H7 & H). apply bind_Some in H as ([b' s8] & H8 & H).
  apply bind_Some in H as (s9 & H9 & H). apply bind_Some in H as (u & H10 & [= <- <- <- <-]).
  apply one_of_Some in H1 as ->. apply match_argument_Some in H2 as [-> Htz].
  apply lit_Some in H3 as ->. apply take_class_Some in H4 as (-> & Ha & Ha').
  apply lit_Some in H5 as ->. apply take_class_Some in H8 as (-> & Hb & Hb').
  apply lit_Some in H9 as ->. apply at_end_Some in H10 as ->. apply lit_Some in H7 as ->.
  conjs; [done|by split|by split|].
  assert (Hop : ∃ overnight : bool,
    s5 = (if overnight then js "||" else js "&&") ++ js " " ++ call_text f' tz' ++ js " < " ++ b' ++ close).
  { destruct (lit (js "&&") s5) eqn:E.
    - injection H6 as ->. apply lit_Some in E as ->. exists false. unfold call_text. texts.
    - apply lit_Some in H6 as ->. exists true. unfold call_text. texts. }
  destruct Hop as [overnight ->]. exists overnight. unfold range_text, call_text.
  rewrite <- !app_assoc. by destruct overnight.
Qed.

Lemma match_time_scalar_Some s f tz o v :
  match_time_scalar s = Some (f, tz, o, v) → tz ≠ [] ∧ numeric_run v ∧ s = scalar_text f tz o v.
Proof.
  unfold match_time_scalar. intros H.
  apply bind_Some in H as ([f' s1] & H1 & H). apply bind_Some in H as ([tz' s2] & H2 & H).
  apply bind_Some in H as (s3 & H3 & H). apply bind_Some in H as ([o' s4] & H4 & H).
  apply bind_Some in H as (s5 & H5 & H). apply bind_Some in H as ([v' s6] & H6 & H).
  apply bind_Some in H as (u & H7 & [= <- <- <- <-]).
  apply one_of_Some in H1 as ->. apply match_argument_Some in H2 as [-> Htz].
  apply lit_Some in H3 as ->. apply one_of_Some in H4 as ->. apply lit_Some in H5 as ->.
  apply take_class_Some in H6 as (-> & Hv & Hv'). apply at_end_Some in H7 as ->.
  conjs; [done|by split|]. unfold scalar_text, call_text. by rewrite <- !app_assoc, app_nil_r.
Qed.

(** What the parser accepts as a time condition. *)
Inductive time_parsed (s : jsstr) : RequestCondition → Prop :=
| parsed_range f tz a b overnight :
    tz ≠ [] → numeric_run a → numeric_run b →
    isTimeValueInRange f a = true → isTimeValueInRange f b = true →
    s = range_text f tz a b overnight ∨ s = js "(" ++ range_text f tz a b overnight ++ js ")" →
    time_parsed s (TimeCondition f tz MATCH_RANGE [] a b)
| parsed_scalar f tz o v :
    tz ≠ [] → numeric_run v → isTimeValueInRange f v = true → s = scalar_text f tz o v →
    time_parsed s (TimeCondition f tz (scalar_op_mode o) v [] []).

Lemma tryParseTimeCondition_parsed s c : tryParseTimeCondition s = Some c → time_parsed s c.
Proof.
  unfold tryParseTimeCondition. intros H.
  match type of H with match ?r with _ => _ end = _ => destruct r as [[[[f tz] a] b]|] eqn:Hr end.
  - destruct (negb _ || negb _) eqn:E; [done|]. injection H as <-. bools.
    destruct (match_time_range [] s) as [m|] eqn:E1.
    + injection Hr as ->. apply match_time_range_Some in E1 as (? & ? & ? & o & ->).
      rewrite app_nil_r. eapply (parsed_range _ _ _ _ _ o); auto.
    + apply bind_Some in Hr as (s' & Hs & Hr). apply lit_Some in Hs as ->.
      apply match_time_range_Some in Hr as (? & ? & ? & o & ->).
      eapply (parsed_range _ _ _ _ _ o); auto.
  - apply bind_Some in H as ([[[f tz] o] v] & H1 & H).
    destruct (isTimeValueInRange f v) eqn:E; [|done]. injection H as <-.
    apply match_time_scalar_Some in H1 as (? & ? & ?). by constructor.
Qed.

(** ** Normalisation *)

Lemma timefn_lookup f : lookup_text timefn_text TIME_FUNCTIONS (timefn_text f) = Some f.
Proof. by destruct f. Qed.

Lemma truthy_or_nonempty s d : s ≠ [] → truthy_or (Some s) d = s.
Proof. by destruct s. Qed.

(** The editor offers mode [m] for the source. *)
Definition offered (source : rule_source) (m : jsstr) : Prop :=
  m ∈ map fst (getRequestRuleMatchOptions source).

Lemma offered_test source m :
  existsb (λ o, jseq o.1 m) (getRequestRuleMatchOptions source) = true ↔ offered source m.
Proof.
  unfold offered. rewrite existsb_exists, list_elem_of_fmap. split.
  - intros ([o l] & Hin & Ho). apply jseq_eq in Ho. exists (o, l). split; [done|by apply list_elem_of_In].
  - intros ([o l] & -> & Hin). exists (o, l). split; [by apply list_elem_of_In|apply jseq_refl].
Qed.

Lemma valid_mode_offered source mode fallback :
  offered source fallback → offered source (valid_mode source mode fallback).
Proof.
  intros Hf. unfold valid_mode. destruct mode as [m|]; [|done].
  destruct (existsb _ _) eqn:E; [|done]. by apply offered_test.
Qed.

Lemma valid_mode_id source m fallback : offered source m → valid_mode source (Some m) fallback = m.
Proof. intros H%offered_test. unfold valid_mode. by rewrite H. Qed.

Definition normal_condition (c : RequestCondition) : Prop :=
  match c with
  | TimeCondition _ tz mode _ _ _ =>
      tz ≠ [] ∧ offered SourceTime mode
  | ParamHeaderCondition src _ mode _ => offered (SourceOf src) mode
  end.

Lemma normalizeCondition_normal c : normal_condition (normalizeCondition c).
Proof.
  unfold normalizeCondition. case_match; cbn.
  - split; [by destruct (pc_timezone _) as [[]|]|]. apply valid_mode_offered. by apply offered_test.
  - apply valid_mode_offered. apply offered_test.
    by match goal with |- context [if ?b then SHeader else SParam] => destruct b end.
Qed.

Lemma normalizeCondition_id c : normal_condition c → normalizeCondition (Some (partial_of c)) = c.
Proof.
  destruct c as [f tz mode v s e|src path mode v]; cbn [normal_condition]; intros H;
    unfold normalizeCondition;
    cbn [default from_option id partial_of pc_source pc_timeFunc pc_timezone pc_mode pc_value pc_path
      pc_rangeStart pc_rangeEnd mbind option_bind].
  - destruct H as [Htz Hl]. change (jseq (js "time") (js "time")) with true. cbv match.
    rewrite timefn_lookup. cbn [default from_option id]. rewrite truthy_or_nonempty by done.
    by rewrite valid_mode_id.
  - destruct src; cbn [source_text].
    + change (jseq (js "param") (js "time")) with false. change (jseq (js "param") (js "header")) with false.
      cbv match. rewrite valid_mode_id by done. by destruct path.
    + change (jseq (js "header") (js "time")) with false. change (jseq (js "header") (js "header")) with true.
      cbv match. rewrite valid_mode_id by done. by destruct path.
Qed.

Lemma build_time_normal f tz mode v s e :
  normal_condition (TimeCondition f tz mode v s e) →
  buildTimeConditionExpr (TimeCondition f tz mode v s e) = build_time f tz mode v s e.
Proof. intros H. unfold buildTimeConditionExpr. by rewrite normalizeCondition_id. Qed.

(** ** Rebuilding *)

Lemma number_char_space c : number_char c = true → is_space c = false.
Proof.
  unfold number_char, is_digit. rewrite !orb_true_iff, andb_true_iff, !N.leb_le, !N.eqb_eq.
  intros H. assert (43 ≤ c ≤ 101)%N by lia. unfold is_space.
  repeat (apply orb_false_iff; split); try (apply N.eqb_neq; lia);
    apply andb_false_iff; rewrite !N.leb_gt; lia.
Qed.

Lemma numeric_run_trim v : numeric_run v → trim v = v.
Proof.
  intros [H Hn]. apply trimmed_trim.
  assert (Hall : ∀ c, c ∈ v → is_space c = false)
    by (intros c Hc; rewrite Forall_forall in H; by apply number_char_space, H).
  split.
  - destruct v as [|c v]; [done|]. cbn. by rewrite Hall by set_solver.
  - destruct (reverse v) as [|c w] eqn:E; [done|]. cbn.
    rewrite Hall; [done|]. apply elem_of_reverse. rewrite E. set_solver.
Qed.

Definition plain (s : jsstr) : Prop := json_units s = s.

Lemma call_text_json f tz : plain tz →
  timefn_text f ++ js "(" ++ json_stringify tz ++ js ")" = call_text f tz.
Proof. intros H. unfold call_text, json_stringify. rewrite H. by rewrite <- !app_assoc. Qed.

Lemma rebuild_scalar f tz o v :
  tz ≠ [] → numeric_run v → isTimeValueInRange f v = true → plain tz →
  buildTimeConditionExpr (TimeCondition f tz (scalar_op_mode o) v [] []) = scalar_text f tz o v.
Proof.
  intros Htz Hv Hr Hp. rewrite build_time_normal.
  2: { split; [done|]. apply offered_test. by destruct o. }
  unfold build_time. rewrite (numeric_run_trim v) by done. rewrite Hr, call_text_json by done.
  unfold scalar_text. by destruct o.
Qed.

Lemma rebuild_range f tz a b :
  tz ≠ [] → numeric_run a → numeric_run b →
  isTimeValueInRange f a = true → isTimeValueInRange f b = true → plain tz →
  buildTimeConditionExpr (TimeCondition f tz MATCH_RANGE [] a b)
  = range_text f tz a b (ngtb (number_of_string a) (number_of_string b)).
Proof.
  intros Htz Ha Hb Hra Hrb Hp. rewrite build_time_normal.
  2: { split; [done|]. by apply offered_test. }
  unfold build_time. change (jseq MATCH_RANGE MATCH_RANGE) with true. cbv match.
  rewrite (numeric_run_trim a), (numeric_run_trim b) by done. rewrite Hra, Hrb, call_text_json by done. cbn [negb orb].
  unfold range_text. by destruct (ngtb _ _).
Qed.

(** ** Literals *)

Lemma units_ok_trim s : units_ok s → units_ok (trim s).
Proof.
  unfold units_ok, trim, trim_end. intros H.
  assert (Hstart : ∀ t : jsstr, Forall (λ c, (c < 65536)%N) t → Forall (λ c, (c < 65536)%N) (trim_start t)).
  { intros t Ht. destruct (trim_start_suffix t) as [w Hw]. rewrite Hw in Ht. by apply Forall_app in Ht as [_ ?]. }
  apply Forall_reverse, Hstart, Forall_reverse, Hstart, H.
Qed.

Lemma trim_stringify s : trim (json_stringify s) = json_stringify s.
Proof.
  apply trimmed_trim. unfold json_stringify. split; [done|].
  rewrite app_assoc, reverse_app. done.
Qed.

(** The literal the builder writes reads back as the trimmed text. *)
Lemma literal_reread mode value :
  units_ok value → parseExprLiteral (buildExprLiteral mode value) = Some (trim value).
Proof.
  intros Hu. apply units_ok_trim in Hu.
  assert (Hjson : parseExprLiteral (json_stringify (trim value)) = Some (trim value)).
  { unfold parseExprLiteral. rewrite trim_stringify. cbn [json_stringify app].
    change (jseq (DQUOTE :: ?l) (js "true")) with false. change (jseq (DQUOTE :: ?l) (js "false")) with false.
    change (NUMERIC_LITERAL (DQUOTE :: ?l)) with false. cbn [orb].
    pose proof (json_parse_stringify (trim value) Hu) as Hp. unfold json_stringify in Hp. cbn [app] in Hp.
    by rewrite Hp. }
  unfold buildExprLiteral. destruct (jseq mode MATCH_CONTAINS); [done|].
  destruct (jseq (trim value) (js "true") || jseq (trim value) (js "false")) eqn:Eb.
  - unfold parseExprLiteral. by rewrite trim_trim, Eb.
  - destruct (NUMERIC_LITERAL (trim value)) eqn:En; [|done].
    unfold parseExprLiteral. by rewrite trim_trim, Eb, En.
Qed.

(** ** Parsing what was built *)

Lemma json_unit_length c : 1 ≤ length (json_unit c) ∧ (c = DQUOTE → 2 ≤ length (json_unit c)).
Proof.
  split; [|intros ->; vm_compute; lia]. unfold json_unit, unicode_escape. repeat case_match; vm_compute length; lia.
Qed.

Lemma json_units_grow s :
  length s ≤ length (json_units s) ∧ (DQUOTE ∈ s → S (length s) ≤ length (json_units s)).
Proof.
  induction s as [s IH] using (well_founded_induction (Wf_nat.well_founded_ltof _ length)).
  destruct s as [|a [|b s]].
  - split; [done|]. intros H. by apply not_elem_of_nil in H.
  - destruct (json_unit_length a) as [H1 H2]. split; [done|].
    intros H. apply list_elem_of_singleton in H. by apply H2.
  - change (json_units (a :: b :: s)) with
      (if is_high a && is_low b then a :: b :: json_units s else json_unit a ++ json_units (b :: s)).
    destruct (is_high a && is_low b) eqn:E.
    + destruct (IH s ltac:(unfold ltof; cbn; lia)) as [Hs1 Hs2]. cbn [length]. split; [lia|].
      intros H. apply elem_of_cons in H as [<-|H]; [done|].
      apply elem_of_cons in H as [<-|H]; [by rewrite andb_comm in E|]. specialize (Hs2 H). lia.
    + destruct (IH (b :: s) ltac:(unfold ltof; cbn; lia)) as [Hs1 Hs2].
      destruct (json_unit_length a) as [H1 H2]. rewrite length_app. cbn [length] in *. split; [lia|].
      intros H. apply elem_of_cons in H as [H|H]; [specialize (H2 (eq_sym H))|specialize (Hs2 H)]; lia.
Qed.

Lemma plain_no_quote s : plain s → Forall (λ c, not_quote c = true) s.
Proof.
  intros Hp. apply Forall_forall. intros c Hc. unfold not_quote. apply negb_true_iff, N.eqb_neq. intros ->.
  destruct (json_units_grow s) as [_ H]. specialize (H Hc). rewrite Hp in H. lia.
Qed.

Lemma lit_app p r : lit p (p ++ r) = Some r.
Proof.
  unfold lit, strip_prefix. replace (starts_with p (p ++ r)) with true.
  - by rewrite drop_app_length.
  - symmetry. apply starts_with_prefix. by exists r.
Qed.

(** A class stops at the end of the text or before a character outside it. *)
Definition stops (p : N → bool) (r : jsstr) : Prop := match r with [] => True | c :: _ => p c = false end.

Lemma take_class_app p a r :
  Forall (λ c, p c = true) a → a ≠ [] → stops p r → take_class p (a ++ r) = Some (a, r).
Proof.
  intros Ha Hn Hr. unfold take_class.
  assert (span_class p (a ++ r) = (a, r)) as ->; [|by destruct a].
  clear Hn. induction Ha as [|c a Hc _ IH]; cbn.
  - destruct r as [|c r]; [done|]. cbn in *. by rewrite Hr.
  - by rewrite Hc, IH.
Qed.

Lemma match_call f tz r : tz ≠ [] → plain tz →
  ∃ r', one_of timefn_text TIME_FUNCTIONS (call_text f tz ++ r) = Some (f, r') ∧
        match_argument r' = Some (tz, r).
Proof.
  intros Hn Hp. exists ((js "(" ++ quote_text) ++ tz ++ (quote_text ++ js ")") ++ r). split.
  - unfold call_text. rewrite <- !app_assoc. by destruct f.
  - unfold match_argument. rewrite lit_app. cbn [mbind option_bind].
    rewrite take_class_app; [|by apply plain_no_quote|done|done]. cbn [mbind option_bind].
    by rewrite lit_app.
Qed.

Lemma match_time_range_built close f tz a b overnight :
  tz ≠ [] → plain tz → numeric_run a → numeric_run b → stops number_char close →
  match_time_range close (range_text f tz a b overnight ++ close) = Some (f, tz, a, b).
Proof.
  intros Hn Hp [Ha Han] [Hb Hbn] Hclose. unfold match_time_range, range_text. rewrite <- !app_assoc.
  destruct (match_call f tz (js " >= " ++ a ++ (if overnight then js " || " else js " && ") ++
    call_text f tz ++ js " < " ++ b ++ close) Hn Hp) as (r & -> & Hr). cbn [mbind option_bind].
  rewrite Hr. cbn [mbind option_bind]. rewrite lit_app. cbn [mbind option_bind].
  rewrite take_class_app; [|done..|by destruct overnight]. cbn [mbind option_bind].
  set (call := js " " ++ timefn_text f ++ _). set (tail := call_text f tz ++ _).
  assert (Hl : lit call (js " " ++ tail) = Some (b ++ close)).
  { replace (js " " ++ tail) with (call ++ b ++ close); [apply lit_app|].
    unfold call, tail, call_text. by rewrite <- !app_assoc. }
  assert (Hop : (s ← lit (js " ") ((if overnight then js " || " else js " && ") ++ tail);
      match lit (js "&&") s with Some r => Some r | None => lit (js "||") s end) = Some (js " " ++ tail))
    by by destruct overnight.
  apply bind_Some in Hop as (s1 & -> & Hop). cbn [mbind option_bind]. rewrite Hop. cbn [mbind option_bind].
  rewrite Hl. cbn [mbind option_bind]. rewrite take_class_app by done. cbn [mbind option_bind].
  assert (lit close close = Some []) as -> by (rewrite <- (app_nil_r close) at 2; apply lit_app). done.
Qed.

Lemma match_time_range_scalar close f tz o v :
  tz ≠ [] → plain tz → numeric_run v → match_time_range close (scalar_text f tz o v) = None.
Proof.
  intros Hn Hp [Hv Hvn]. unfold match_time_range, scalar_text.
  destruct (match_call f tz (js " " ++ scalar_op_text o ++ js " " ++ v) Hn Hp) as (r & -> & Hr).
  cbn [mbind option_bind]. rewrite Hr. cbn [mbind option_bind]. destruct o; [done| |done].
  change (lit (js " >= ") _) with (Some v). cbn [mbind option_bind].
  rewrite <- (app_nil_r v), take_class_app by done. done.
Qed.

Lemma match_time_scalar_built f tz o v :
  tz ≠ [] → plain tz → numeric_run v → match_time_scalar (scalar_text f tz o v) = Some (f, tz, o, v).
Proof.
  intros Hn Hp [Hv Hvn]. unfold match_time_scalar, scalar_text.
  destruct (match_call f tz (js " " ++ scalar_op_text o ++ js " " ++ v) Hn Hp) as (r & -> & Hr).
  cbn [mbind option_bind]. rewrite Hr. cbn [mbind option_bind]. rewrite lit_app. cbn [mbind option_bind].
  assert (one_of scalar_op_text [SEq; SGe; SLt] (scalar_op_text o ++ js " " ++ v) = Some (o, js " " ++ v))
    as -> by by destruct o.
  cbn [mbind option_bind]. rewrite lit_app. cbn [mbind option_bind].
  rewrite <- (app_nil_r v), take_class_app by done. cbn. by rewrite app_nil_r.
Qed.

Lemma call_not_paren f tz r : lit (js "(") (call_text f tz ++ r) = None.
Proof. by destruct f. Qed.

(** The zone of a condition, when it has one, needs no escapes. *)
Definition plain_zone (c : RequestCondition) : Prop :=
  match c with TimeCondition _ tz _ _ _ _ => plain tz | ParamHeaderCondition _ _ _ _ => True end.

(** The time conditions of parsed rules: their values are in the domain of
    the time function, and the fields their mode does not use are empty. *)
Inductive time_in_range : RequestCondition → Prop :=
| in_range_range f tz a b :
    tz ≠ [] → numeric_run a → numeric_run b →
    isTimeValueInRange f a = true → isTimeValueInRange f b = true →
    time_in_range (TimeCondition f tz MATCH_RANGE [] a b)
| in_range_scalar f tz o v :
    tz ≠ [] → numeric_run v → isTimeValueInRange f v = true →
    time_in_range (TimeCondition f tz (scalar_op_mode o) v [] [])
| in_range_other source path mode v : time_in_range (ParamHeaderCondition source path mode v).

Lemma time_parsed_in_range s c : time_parsed s c → time_in_range c.
Proof. destruct 1; by constructor. Qed.

Definition is_time (c : RequestCondition) : bool :=
  match c with TimeCondition _ _ _ _ _ _ => true | ParamHeaderCondition _ _ _ _ => false end.

(** The rebuilt text of such a condition parses to that condition. *)
Lemma reparse_time c :
  time_in_range c → is_time c = true → plain_zone c →
  tryParseTimeCondition (buildTimeConditionExpr c) = Some c.
Proof.
  intros H Ht Hp. destruct H as [f tz a b Htz Ha Hb Hra Hrb|f tz o v Htz Hv Hr|]; [| |done]; cbn in Hp.
  - rewrite rebuild_range by done. set (overnight := ngtb _ _). unfold tryParseTimeCondition.
    pose proof (match_time_range_built [] f tz a b overnight Htz Hp Ha Hb I) as Hm. rewrite app_nil_r in Hm.
    by rewrite Hm, Hra, Hrb.
  - rewrite rebuild_scalar by done. unfold tryParseTimeCondition.
    rewrite match_time_range_scalar by done. unfold scalar_text at 1. rewrite call_not_paren.
    cbn [mbind option_bind]. rewrite match_time_scalar_built by done. cbn [mbind option_bind]. by rewrite Hr.
Qed.

(** ** Accepted values *)

Lemma tryParseTimeCondition_in_range s c : tryParseTimeCondition s = Some c → time_in_range c.
Proof. intros H. by eapply time_parsed_in_range, tryParseTimeCondition_parsed. Qed.

Lemma tryParseTimeRangePair_in_range a b c : tryParseTimeRangePair a b = Some c → time_in_range c.
Proof.
  unfold tryParseTimeRangePair.
  destruct (tryParseTimeCondition a) as [[f tz m v s e|]|] eqn:Ha; try done.
  destruct (tryParseTimeCondition b) as [[f' tz' m' v' s' e'|]|] eqn:Hb; try done.
  destruct (negb (bool_decide (f = f')) || negb (jseq tz tz')) eqn:E1; [done|].
  destruct (negb (jseq m MATCH_GTE) || negb (jseq m' MATCH_LT)) eqn:E2; [done|]. intros [= <-].
  bools. apply bool_decide_eq_true in H1 as <-. apply jseq_eq in H, H0, H2. subst.
  apply tryParseTimeCondition_in_range in Ha, Hb.
  inversion Ha; inversion Hb; subst; by constructor.
Qed.

Lemma tryParseRequestCondition_in_range s c :
  tryParseRequestCondition s = Ok (Some c) → time_in_range c.
Proof.
  intros H. unfold tryParseRequestCondition in H.
  destruct (tryParseTimeCondition s) as [tc|] eqn:Ht.
  { injection H as <-. by eapply tryParseTimeCondition_in_range. }
  repeat match type of H with
  | match ?x with _ => _ end = _ => destruct x; simplify_eq/=; try done
  | mbind _ _ = _ => apply bind_Ok in H as (? & _ & H); simplify_eq/=; try done
  end; constructor.
Qed.

Lemma parse_conjuncts_in_range parts : ∀ acc cs,
  Forall time_in_range acc → parse_conjuncts parts acc = Ok (Some cs) → Forall time_in_range cs.
Proof.
  induction parts as [parts IH] using (induction_ltof1 _ length). unfold ltof in IH.
  intros acc cs Hacc H. destruct parts as [|raw rest]; cbn [parse_conjuncts] in H.
  { destruct acc; simplify_eq/=; done. }
  assert (Hscalar : (c ← tryParseRequestCondition (trim raw);
      match c with Some c => parse_conjuncts rest (acc ++ [c]) | None => Ok None end) = Ok (Some cs) →
    Forall time_in_range cs).
  { intros Hs. apply bind_Ok in Hs as ([c|] & Hc & Hs); [|done].
    eapply IH; [| |exact Hs]; [cbn; lia|]. apply Forall_app. split; [done|].
    constructor; [by eapply tryParseRequestCondition_in_range|done]. }
  destruct rest as [|raw_next rest]; [by apply Hscalar|].
  destruct (trim raw_next); [by apply Hscalar|].
  destruct (tryParseTimeRangePair _ _) as [merged|] eqn:Em; [|by apply Hscalar].
  eapply IH; [| |exact H]; [cbn; lia|]. apply Forall_app. split; [done|].
  constructor; [by eapply tryParseTimeRangePair_in_range|done].
Qed.

Lemma tryParseRequestConditions_in_range s cs :
  tryParseRequestConditions s = Ok (Some cs) → Forall time_in_range cs.
Proof.
  unfold tryParseRequestConditions. destruct (tryParseTimeCondition _) eqn:E.
  - intros [= <-]. constructor; [by eapply tryParseTimeCondition_in_range|done].
  - intros H. apply bind_Ok in H as (parts & _ & H). by eapply parse_conjuncts_in_range.
Qed.

Lemma parse_factors_in_range parts : ∀ acc gs,
  Forall (λ g, Forall time_in_range (g_conditions g)) acc →
  parse_factors parts acc = Ok (Some gs) → Forall (λ g, Forall time_in_range (g_conditions g)) gs.
Proof.
  induction parts as [|part parts IH]; intros acc gs Hacc H; cbn in H; [by simplify_eq|].
  apply bind_Ok in H as ([g|] & Hg & H); [|done]. eapply IH; [|exact H].
  apply Forall_app. split; [done|]. constructor; [|done].
  unfold tryParseRuleGroupFactor in Hg. destruct (match_rule_factor part) as [[c m]|]; [|done].
  apply bind_Ok in Hg as ([cs|] & Hc & Hg); simplify_eq/=. by eapply tryParseRequestConditions_in_range.
Qed.

Lemma tryParseRequestRuleExpr_in_range s gs :
  tryParseRequestRuleExpr s = Ok (Some gs) → Forall (λ g, Forall time_in_range (g_conditions g)) gs.
Proof.
  unfold tryParseRequestRuleExpr. destruct (trim s); [by intros [= <-]|].
  intros H. apply bind_Ok in H as (parts & _ & H). by eapply parse_factors_in_range.
Qed.

(** ** Failures *)

Lemma separator_star : separator (js "*").
Proof. by conjs. Qed.
Lemma separator_and : separator (js "&&").
Proof. by conjs. Qed.

Lemma split_or_fail_Ok source operator : separator operator → ∃ parts, split_or_fail source operator = Ok parts.
Proof.
  intros Hs. unfold split_or_fail.
  destruct (splitExpressionAtTopLevel_spec source operator Hs) as [[_ ->]|(raws & last & _ & _ & _ & ->)]; eauto.
Qed.

Definition syntax_failure (e : exn) : Prop := e = HostError (js "SyntaxError").

Lemma tryParseRequestCondition_Err s e : tryParseRequestCondition s = Err e → syntax_failure e.
Proof.
  unfold tryParseRequestCondition, parse_quoted, syntax_error. intros H.
  repeat match type of H with
  | match ?x with _ => _ end = _ => destruct x; simplify_eq/=; try done
  | mbind _ _ = _ => apply bind_Err in H as [H|(? & _ & H)]; simplify_eq/=; try done
  end.
Qed.

Lemma parse_conjuncts_Err parts : ∀ acc e, parse_conjuncts parts acc = Err e → syntax_failure e.
Proof.
  induction parts as [parts IH] using (induction_ltof1 _ length). unfold ltof in IH.
  intros acc e H. destruct parts as [|raw rest]; cbn [parse_conjuncts] in H; [by destruct acc|].
  assert (Hscalar : (c ← tryParseRequestCondition (trim raw);
      match c with Some c => parse_conjuncts rest (acc ++ [c]) | None => Ok None end) = Err e →
    syntax_failure e).
  { intros Hs. apply bind_Err in Hs as [Hs|([c|] & _ & Hs)]; [by eapply tryParseRequestCondition_Err| |done].
    eapply IH; [|exact Hs]. cbn. lia. }
  destruct rest as [|raw_next rest]; [by apply Hscalar|].
  destruct (trim raw_next); [by apply Hscalar|].
  destruct (tryParseTimeRangePair _ _) as [merged|]; [|by apply Hscalar].
  eapply IH; [|exact H]. cbn. lia.
Qed.

Lemma tryParseRuleGroupFactor_Err s e : tryParseRuleGroupFactor s = Err e → syntax_failure e.
Proof.
  unfold tryParseRuleGroupFactor, tryParseRequestConditions. destruct (match_rule_factor s) as [[c m]|]; [|done].
  intros H. apply bind_Err in H as [H|(? & _ & H)]; [|done].
  destruct (tryParseTimeCondition _); [done|].
  destruct (split_or_fail_Ok c (js "&&") separator_and) as [parts Hp].
  unfold splitTopLevelAnd in H. rewrite Hp in H. cbn in H. by eapply parse_conjuncts_Err.
Qed.

Lemma tryParseRequestRuleExpr_Err s e : tryParseRequestRuleExpr s = Err e → syntax_failure e.
Proof.
  unfold tryParseRequestRuleExpr. destruct (trim s) as [|c t] eqn:E; [done|].
  destruct (split_or_fail_Ok (c :: t) (js "*") separator_star) as [parts Hp].
  unfold splitTopLevelMultiply. rewrite Hp. cbn. clear. generalize (@nil RequestRuleGroup).
  induction parts as [|part parts IH]; intros acc H; cbn in H; [done|].
  apply bind_Err in H as [H|([g|] & _ & H)]; [by eapply tryParseRuleGroupFactor_Err|by eapply IH|done].
Qed.

Lemma unwrap_all_Ok parts : ∃ us, unwrap_all parts = Ok us ∧ length us = length parts.
Proof.
  induction parts as [|p parts (us & Hus & Hl)]; [by exists []|]. cbn. unfold unwrapOuterParens.
  destruct (unwrapExpressionParens_spec p) as (r & -> & _). cbn. rewrite Hus. cbn.
  eexists. split; [done|]. cbn. lia.
Qed.

Lemma splitBilling_Err s e : splitBillingExprAndRequestRules s = Err e → syntax_failure e.
Proof.
  unfold splitBillingExprAndRequestRules. destruct (trim s) as [|c t] eqn:E; [done|].
  destruct (split_or_fail_Ok (c :: t) (js "*") separator_star) as [parts Hp].
  unfold splitTopLevelMultiply. rewrite Hp. cbn. case_match; [done|].
  intros H1. apply bind_Err in H1 as [H1|(cl & _ & H1)].
  - clear -H1. revert H1. induction parts as [|part parts IH]; cbn; [done|].
    intros H. apply bind_Err in H as [H|(? & _ & H)]; [by eapply tryParseRequestRuleExpr_Err|].
    apply bind_Err in H as [H|(? & _ & H)]; [auto|done].
  - destruct (unwrap_all_Ok (map fst (List.filter (λ p : jsstr * bool, negb (snd p)) cl))) as (us & Hus & _).
    rewrite Hus in H1. cbn in H1. by case_match.
Qed.

(** ** Estimator and settled rows

    The estimator supplies every token variable, so only request and task
    probes can be missing; and the row of a price table that the evaluator
    settled on is the row the table highlights. *)

#[local] Arguments evaluate : simpl never.

Section run.
Context {host : Host}.

(** A successful run is an evaluation of the compiled tree from a fresh state. *)
Lemma run_compiled_Ok t c ctx r :
  run_compiled t c ctx = Ok r →
  ∃ env st st' x i,
    check_tokens (tokens ctx) = Ok tt ∧ new_runtime t c ctx = Ok (env, st) ∧
    evaluate env 0 (c_ast c) st = Ok (RV (JNum x) i, st') ∧
    is_finite x = true ∧ nltb x NZERO = false ∧
    cost r = x ∧ s_billingUnit r = billingUnit st' ∧ s_fixedPrice r = fixedPrice st' ∧
    s_matchedTier r = matchedTier st' ∧ s_requestRules r = requestRules st'.
Proof.
  unfold run_compiled. intros H. apply bind_Ok in H as ([] & Ht & H).
  apply bind_Ok in H as ([env st] & Hn & H). apply bind_Ok in H as ([v st'] & He & H).
  destruct v as [[| | |x| | |] i]; try done. cbn [value] in H.
  destruct (negb (is_finite x) || nltb x NZERO) eqn:E; [done|]. injection H as <-.
  apply orb_false_iff in E as [E1 E2]. apply negb_false_iff in E1.
  exists env, st, st', x, i. by conjs.
Qed.

Lemma new_runtime_Ok t c ctx env st :
  new_runtime t c ctx = Ok (env, st) →
  compiled env = c ∧ context env = ctx ∧ env_now env = default t (now ctx) ∧
  matchedTier st = [] ∧ billingUnit st = UToken ∧ fixedPrice st = None ∧ timeValues st = [] ∧
  requestRules st = map (λ r, {| cond := rule_cond r; multiplier := rule_multiplier r;
                                 matched := false |}) (c_requestRules c).
Proof. unfold new_runtime. intros H. apply bind_Ok in H as (hs & _ & [= <- <-]). by conjs. Qed.

Lemma evaluateBillingExpression_Ok t source ctx r :
  evaluateBillingExpression t source ctx = Ok r →
  ∃ c, compile source = Ok c ∧ run_compiled t c ctx = Ok r.
Proof.
  unfold evaluateBillingExpression. destruct (compile source) as [c|]; [|done].
  destruct (run_compiled t c ctx) as [r'|] eqn:E; [|done]. intros [= ->]. eauto.
Qed.

Lemma read_headers_Err l : ∀ acc e, read_headers l acc = Err e →
  e = BillingExpressionError (Diagnostic Type_ (js "request header") None).
Proof.
  induction l as [|[name v] l IH]; intros acc e H; cbn in H; [done|].
  destruct v; unfold throw in H; try (by injection H as <-).
  repeat case_match; by eapply IH.
Qed.

Lemma check_tokens_Err l e : check_tokens l = Err e →
  ∃ name, e = BillingExpressionError (Diagnostic Number name None).
Proof.
  induction l as [|[name v] l IH]; cbn; [done|].
  destruct v; unfold throw; try (intros [= <-]; by eauto).
  case_match; [intros [= <-]; by eauto|done].
Qed.

Lemma check_tokens_own l : check_tokens l = Ok tt →
  ∀ k v, own l k = Some v → ∃ x, v = JNum x ∧ is_finite x = true ∧ nltb x NZERO = false.
Proof.
  induction l as [|[name w] l IH]; cbn; [done|]. destruct w as [| | |x| | |]; try done.
  destruct (negb (is_finite x) || nltb x NZERO) eqn:E; [done|]. intros H k v.
  apply orb_false_iff in E as [E1 E2]. apply negb_false_iff in E1.
  destruct (jseq name k); [intros [= <-]; eauto|by apply IH].
Qed.

(** ** Missing context *)

Definition probes_context (f : fname) : Prop := f = Fparam ∨ f = Fheader ∨ f = Fu.

(** When every token variable has an entry, missing context means a probe. *)
Lemma missing_is_probe t source c ctx f :
  compile source = Ok c →
  (∀ v, v ≠ Vimage_count → is_Some (own (tokens ctx) (bvar_text v))) →
  evaluateBillingExpression t source ctx = Err f → status f = SMissingContext →
  ∃ g, g ∈ c_functions c ∧ probes_context g.
Proof.
  intros Hc Hall H Hs. unfold evaluateBillingExpression in H. rewrite Hc in H.
  pose proof (compile_ok _ _ Hc) as Hok. destruct (run_compiled t c ctx) as [r|e] eqn:Hr; [done|].
  injection H as <-.
  assert (He : ∃ d p, e = BillingExpressionError (Diagnostic MissingContext d p)).
  { destruct e as [[[] d p]| |]; cbn in Hs; try done; eauto. }
  destruct He as (d & p & ->). unfold run_compiled in Hr.
  apply bind_Err in Hr as [Hr|([] & Htok & Hr)].
  { apply check_tokens_Err in Hr as [? [=]]. }
  apply bind_Err in Hr as [Hr|([env st] & Hn & Hr)].
  { unfold new_runtime in Hr. apply bind_Err in Hr as [Hr|(? & _ & Hr)]; [|done].
    by apply read_headers_Err in Hr. }
  apply new_runtime_Ok in Hn as (_ & Hctx & _).
  apply bind_Err in Hr as [Hr|([v st'] & _ & Hr)].
  2: { cbn in Hr. repeat case_match; by simplify_eq. }
  apply evaluate_Err in Hr as [[Hr _]|(m & Hm & Hr)]; [done|].
  inversion Hr as [? ? ? Hx| |? ? Hmiss|]; subst; [by destruct Hx as [|[|]]|].
  unfold missing in Hmiss.
  destruct m as [|sp v|sp g args| | |]; try done.
  - exfalso. destruct Hmiss as [Hv Hmiss]. destruct (Hall v Hv) as [w Hw].
    destruct Hmiss as [Hmiss|Hmiss]; [congruence|].
    destruct (check_tokens_own _ Htok _ _ Hmiss) as (? & [=] & _).
  - exists g. split.
    + apply (ok_functions _ _ Hok). eauto.
    + unfold probes_context. destruct g; try done; tauto.
Qed.

(** ** The estimator's tokens *)

Lemma own_set_field (l : list (jsstr * jsval)) k v k' :
  own (set_field l k v) k' = if jseq k k' then Some v else own l k'.
Proof.
  induction l as [|[k0 w] l IH]; cbn; [done|].
  destruct (jseq k0 k) eqn:E; cbn.
  - apply jseq_eq in E as ->. by destruct (jseq k k').
  - rewrite IH. destruct (jseq k0 k') eqn:E'; [|done].
    apply jseq_eq in E' as ->. apply jseq_neq in E. destruct (jseq k k') eqn:E2; [|done].
    apply jseq_eq in E2. congruence.
Qed.

Lemma own_spread (b : list (jsstr * jsval)) : ∀ a k,
  is_Some (own a k) → is_Some (own (spread a b) k).
Proof.
  unfold spread. induction b as [|[k0 v] b IH]; intros a k H; [done|]. cbn. apply IH.
  rewrite own_set_field. destruct (jseq k0 k); [eauto|done].
Qed.

Lemma estimator_tokens_complete p c x v :
  v ≠ Vimage_count → is_Some (own (buildEstimatorTokens p c x) (bvar_text v)).
Proof. intros Hv. destruct v; first [done|eexists; vm_compute; reflexivity]. Qed.

Lemma estimator_context_complete p c x ctx v :
  v ≠ Vimage_count → is_Some (own (tokens (estimator_context p c x ctx)) (bvar_text v)).
Proof. intros Hv. cbn. by apply own_spread, estimator_tokens_complete. Qed.

(** ** Settled rows *)

Definition row (t : TokenTier) : BreakdownMatchTier := BToken (mapTokenTier t).

Lemma neqb_refl x : x ≠ S754_nan → neqb x x = true.
Proof.
  destruct x as [s|s| |s m e]; try done; intros _; unfold neqb, SFeqb, SFcompare; destruct s; try done;
    by rewrite Z.compare_refl, Pos.compare_refl.
Qed.

(** A product that is a number has no NaN factor. *)
Lemma image_scaled_nan env y : image_scaled env S754_nan y → y = S754_nan.
Proof. induction 1 as [| y _ -> | y _ ->]; [done| |done]. by destruct (default _ _). Qed.

Lemma settled_row_matched tiers t label unit price :
  label = t_label t → normalizeTierLabel (Some label) ≠ [] →
  match t_billingUnit t with
  | URequest => unit = URequest ∧ ∃ amount, t_fixedPrice t = Some amount ∧ price = Some amount ∧
      amount ≠ S754_nan
  | UToken => unit = UToken
  end →
  isBreakdownTierMatched (row t) tiers (Some label) None (Some unit) price = true.
Proof.
  intros -> Hl Hu. unfold isBreakdownTierMatched.
  assert (Hm : unit_mismatch (row t) (Some unit) price = false).
  { unfold unit_mismatch, row. cbn. destruct (t_billingUnit t).
    - by subst unit.
    - destruct Hu as (-> & amount & -> & -> & Hf). by rewrite neqb_refl. }
  rewrite Hm. unfold tierMatchesNormalizedLabel. cbn [tier_label row mapTokenTier pt_label].
  rewrite jseq_refl. by destruct (normalizeTierLabel (Some (t_label t))).
Qed.

Lemma tierMatches_eq t label :
  tierMatchesNormalizedLabel t label = true → normalizeTierLabel (Some (tier_label t)) = label.
Proof. unfold tierMatchesNormalizedLabel. intros [_ H]%andb_true_iff. by apply jseq_eq. Qed.

(** Rows with distinct labels: the highlighted row is the one that carries
    the engine's label. *)
Lemma carries_unique tiers t label :
  NoDup (map (λ t, normalizeTierLabel (Some (tier_label t))) tiers) → t ∈ tiers →
  tierMatchesNormalizedLabel t label = true →
  List.filter (λ t, tierMatchesNormalizedLabel t label) tiers = [t].
Proof.
  intros Hnd Hin Ht. induction tiers as [|u tiers IH]; [set_solver|].
  cbn [map] in Hnd. apply NoDup_cons in Hnd as [Hu Hnd]. cbn [List.filter].
  destruct (tierMatchesNormalizedLabel u label) eqn:E.
  - apply tierMatches_eq in E as Eu. apply tierMatches_eq in Ht as Et.
    assert (Hrest : Forall (λ v, tierMatchesNormalizedLabel v label = false) tiers).
    { apply Forall_forall. intros v Hv. apply not_true_iff_false. intros Hc%tierMatches_eq.
      apply Hu, list_elem_of_fmap. exists v. split; [congruence|done]. }
    assert (List.filter (λ t, tierMatchesNormalizedLabel t label) tiers = []) as ->.
    { clear -Hrest. induction Hrest as [|v l Hv _ IHl]; [done|]. cbn. by rewrite Hv. }
    apply elem_of_cons in Hin as [->|Hin]; [done|].
    exfalso. apply Hu, list_elem_of_fmap. exists t. split; [congruence|done].
  - apply elem_of_cons in Hin as [->|Hin]; [congruence|]. by apply IH.
Qed.

Lemma isBreakdownTierMatched_label tiers t label facts :
  NoDup (map (λ t, normalizeTierLabel (Some (tier_label t))) tiers) → t ∈ tiers →
  (∃ u, u ∈ tiers ∧ tierMatchesNormalizedLabel u (normalizeTierLabel label) = true) →
  isBreakdownTierMatched t tiers label facts None None =
  tierMatchesNormalizedLabel t (normalizeTierLabel label).
Proof.
  intros Hnd Hin (u & Hu & Hmu). unfold isBreakdownTierMatched.
  replace (unit_mismatch t None None) with false by (by destruct t).
  destruct (tierMatchesNormalizedLabel t (normalizeTierLabel label)) eqn:E.
  - destruct t as [t|t]; [done|]. by rewrite (carries_unique _ _ _ Hnd Hin E).
  - replace (existsb _ tiers) with true; [done|]. symmetry. apply existsb_exists.
    exists u. split; [by apply list_elem_of_In|done].
Qed.
End run.
