(* ===== verification/TaskExpr.v ===== *)
(** * The task price editor

    Models [task-expr.ts]: the fields of a usage schema, the matrix of prices
    by combination of enumerated values, the visual tiers, the expressions
    generated from them, and the previews of example tasks.

    Objects used as records keyed by field are association lists in insertion
    order: field names are assumed not to be array indices, which JavaScript
    enumerates first, and not to be names of [Object.prototype].
    [String.prototype.localeCompare] depends on the locale data of the host: it
    is the parameter [locale_le] ([left.localeCompare(right) <= 0]). *)
From stdpp Require Import base list option numbers sets.
From Stdlib Require Import ZArith SpecFloat Lia.
From S2P Require Import Prelude.
From S2P Require Import JsString.
From S2P Require Import JsNumber.
From S2P Require Import Syntax.
From S2P Require Import Parser.
From S2P Require Import Compile.
From S2P Require Import Runtime.
From S2P Require Import Structure.
From S2P Require Import Display.
From S2P Require Import Json.
From S2P Require Import BillingExpr.
From S2P Require Import TierExpr.

(** ** Configurations *)

(** [TaskVisualTier] has the fields of a displayed task tier. *)
Definition TaskVisualTier : Type := TaskTier.
Definition TaskVisualConfig : Type := list TaskVisualTier.

Definition Combination : Type := list (jsstr * jsstr).

Record TaskMatrixRow : Type := {
  combination : Combination;
  row_constant : num;
  row_unitPrices : list (jsstr * num)
}.
Definition TaskMatrixConfig : Type := list TaskMatrixRow.

Inductive TaskPart : Type :=
| ConstantPart (amount : num)
| UsagePart (field : jsstr) (amount quantity unitPrice : num).

Record TaskPreviewResult : Type := {
  preview_tier : TaskVisualTier;
  preview_total : num;
  preview_parts : list TaskPart
}.

Definition TASK_TOKEN_PRICE_SCALE : num := nZ 1000000.

(** [record[field] ?? 0] *)
Definition price_or_zero (prices : list (jsstr * num)) (field : jsstr) : num :=
  default NZERO (assoc prices field).

(** [value === undefined ? ... : Number(value)] on a record of numbers. *)
Definition number_field (prices : list (jsstr * num)) (field : jsstr) : num :=
  default S754_nan (assoc prices field).

Definition is_token_unit (definition : BillingUsageFieldSchema) : bool :=
  match f_unit definition with Some unit => jseq unit (js "token") | None => false end.

Section fields.
Context (locale_le : jsstr → jsstr → bool).

(** ** Fields of a schema *)

(** [entries.sort(([left], [right]) => left.localeCompare(right))]: a stable
    sort by key. *)
Fixpoint insert_entry {A} (e : jsstr * A) (l : list (jsstr * A)) : list (jsstr * A) :=
  match l with
  | [] => [e]
  | e' :: l' => if locale_le (fst e') (fst e) then e' :: insert_entry e l' else e :: l
  end.
Definition sort_entries {A} (l : list (jsstr * A)) : list (jsstr * A) :=
  fold_left (λ acc e, insert_entry e acc) l [].

Definition getTaskNumberFields (schema : option BillingUsageSchema) : BillingUsageSchema :=
  match schema with
  | None => []
  | Some schema =>
      sort_entries (List.filter (λ e,
        match f_type (snd e) with Some FNumber => has_text (f_unit (snd e)) | _ => false end) schema)
  end.

Definition getTaskEnumFields (schema : option BillingUsageSchema) : BillingUsageSchema :=
  match schema with
  | None => []
  | Some schema =>
      sort_entries (List.filter (λ e, match f_enum (snd e) with Some (_ :: _) => true | _ => false end) schema)
  end.

(** One round of the loop over the enumerated fields. *)
Definition extend_combinations (combinations : list Combination) (e : jsstr * BillingUsageFieldSchema)
    : list Combination :=
  c ← combinations; map (λ value, set_field c (fst e) value) (default [] (f_enum (snd e))).

Definition getTaskEnumCombinations (schema : option BillingUsageSchema) : list Combination :=
  fold_left extend_combinations (getTaskEnumFields schema) [[]].

(** ** Default configurations *)

Definition zero_prices (schema : BillingUsageSchema) : list (jsstr * num) :=
  map (λ e, (fst e, NZERO)) (getTaskNumberFields (Some schema)).

Definition createDefaultTaskVisualConfig (schema : BillingUsageSchema) : TaskVisualConfig :=
  [{| k_label := js "base"; k_conditions := []; k_constant := NZERO; k_unitPrices := zero_prices schema |}].

Definition createDefaultTaskMatrixConfig (schema : BillingUsageSchema) : TaskMatrixConfig :=
  map (λ c, {| combination := c; row_constant := NZERO; row_unitPrices := zero_prices schema |})
    (getTaskEnumCombinations (Some schema)).

(** ** Matrix and tiers *)

Definition taskMatrixRowLabel (c : Combination) : jsstr :=
  match map snd (sort_entries c) with
  | [] => js "base"
  | values => join [183%N] values
  end.

(** [a === b] on entries that may be absent. *)
Definition same_entry (a b : option num) : bool :=
  match a, b with
  | Some x, Some y => neqb x y
  | None, None => true
  | _, _ => false
  end.

Definition field_prices (numberFields : BillingUsageSchema) (prices : list (jsstr * num))
    : list (jsstr * num) :=
  map (λ e, (fst e, price_or_zero prices (fst e))) numberFields.

Definition is_uniform (numberFields : BillingUsageSchema) (firstRow : TaskMatrixRow)
    (rows : TaskMatrixConfig) : bool :=
  forallb (λ row,
    neqb (row_constant row) (row_constant firstRow) &&
    forallb (λ e, same_entry (assoc (row_unitPrices row) (fst e)) (assoc (row_unitPrices firstRow) (fst e)))
      numberFields) rows.

(** The tier of a row; the last row of the table is unconditional. *)
Definition row_tier (numberFields : BillingUsageSchema) (last : bool) (row : TaskMatrixRow) : TaskVisualTier :=
  {| k_label := taskMatrixRowLabel (combination row);
     k_conditions := if last then [] else sort_entries (combination row);
     k_constant := row_constant row;
     k_unitPrices := field_prices numberFields (row_unitPrices row) |}.

Fixpoint row_tiers (numberFields : BillingUsageSchema) (rows : TaskMatrixConfig) : list TaskVisualTier :=
  match rows with
  | [] => []
  | row :: rest =>
      row_tier numberFields (match rest with [] => true | _ => false end) row :: row_tiers numberFields rest
  end.

Definition taskMatrixToTiers (config : TaskMatrixConfig) (schema : BillingUsageSchema)
    : list TaskVisualTier :=
  let numberFields := getTaskNumberFields (Some schema) in
  match numberFields, config with
  | [], _ | _, [] => []
  | _, firstRow :: _ =>
      if is_uniform numberFields firstRow config then
        [{| k_label := js "base"; k_conditions := []; k_constant := row_constant firstRow;
            k_unitPrices := field_prices numberFields (row_unitPrices firstRow) |}]
      else row_tiers numberFields config
  end.

(** [tier.conditions.every((c) => combination[c.field] === c.value)] *)
Definition covers (c : Combination) (tier : TaskVisualTier) : bool :=
  forallb (λ '(field, value), match assoc c field with Some v => jseq v value | None => false end)
    (k_conditions tier).

(** [new Set(fields).size === fields.length] *)
Definition distinct_fields (tier : TaskVisualTier) : bool :=
  bool_decide (NoDup (map fst (k_conditions tier))).

Definition matrix_row (numberFields : BillingUsageSchema) (tiers : list TaskVisualTier)
    (fallbackTier : TaskVisualTier) (c : Combination) : TaskMatrixRow :=
  let tier := default fallbackTier (List.find (covers c) tiers) in
  {| combination := c; row_constant := k_constant tier;
     row_unitPrices := field_prices numberFields (k_unitPrices tier) |}.

Definition tryParseTaskMatrixConfig (expression : option jsstr) (schema : BillingUsageSchema)
    : result exn (option TaskMatrixConfig) :=
  match expression with
  | None | Some [] => Ok None
  | Some expression =>
      tiers ← parseTaskTiersFromExpr expression (Some schema) false;
      Ok (match last tiers with
          | None => None
          | Some fallbackTier =>
              match k_conditions fallbackTier with
              | _ :: _ => None
              | [] =>
                  if forallb distinct_fields tiers then
                    Some (map (matrix_row (getTaskNumberFields (Some schema)) tiers fallbackTier)
                            (getTaskEnumCombinations (Some schema)))
                  else None
              end
          end)
  end.

(** ** Normalisation *)

(** [Number.isFinite(value) && value >= 0 ? value : 0] *)
Definition valid_price (value : num) : num :=
  if is_finite value && ngeb value NZERO then value else NZERO.

Definition normalize_tier (schema : BillingUsageSchema) (index : nat) (tier : TaskVisualTier)
    : TaskVisualTier :=
  let enumFields := map (λ e, (fst e, default [] (f_enum (snd e)))) (getTaskEnumFields (Some schema)) in
  {| k_label := match k_label tier with
                | [] => if index =? 0 then js "base" else js "tier_" ++ nat_text (S index)
                | label => label
                end;
     k_conditions := List.filter (λ c, match assoc enumFields (fst c) with
                                       | Some values => str_in (snd c) values
                                       | None => false
                                       end) (k_conditions tier);
     k_constant := valid_price (k_constant tier);
     k_unitPrices := map (λ e, (fst e, valid_price (number_field (k_unitPrices tier) (fst e))))
                       (getTaskNumberFields (Some schema)) |}.

Definition normalizeTaskVisualConfig (config : option TaskVisualConfig) (schema : BillingUsageSchema)
    : TaskVisualConfig :=
  match config with
  | None | Some [] => createDefaultTaskVisualConfig schema
  | Some tiers => imap (normalize_tier schema) tiers
  end.

(** ** Generated expressions *)

Definition usage_text (field : jsstr) : jsstr := js "u(" ++ json_stringify field ++ js ")".

Definition generateTaskTierBody (tier : TaskVisualTier) (numberFields : BillingUsageSchema) : jsstr :=
  join (js " + ")
    ((if ngtb (k_constant tier) NZERO then [number_to_string (k_constant tier)] else [])
     ++ map (λ e, usage_text (fst e) ++ js " * " ++ number_to_string (price_or_zero (k_unitPrices tier) (fst e))
                  ++ (if is_token_unit (snd e) then js " / 1000000" else [])) numberFields).

Definition generateTaskTierCall (tier : TaskVisualTier) (numberFields : BillingUsageSchema) : jsstr :=
  js "tier(" ++ json_stringify (k_label tier) ++ js ", " ++ generateTaskTierBody tier numberFields ++ js ")".

Definition generateTaskCondition (conditions : list (jsstr * jsstr)) : jsstr :=
  join (js " && ") (map (λ c, usage_text (fst c) ++ js " == " ++ json_stringify (snd c)) conditions).

(** The loop over the tiers: [None] is [return '']. *)
Fixpoint generate_parts (numberFields : BillingUsageSchema) (tiers : TaskVisualConfig) : option (list jsstr) :=
  match tiers with
  | [] => Some []
  | [tier] => Some [generateTaskTierCall tier numberFields]
  | tier :: rest =>
      match generateTaskCondition (k_conditions tier) with
      | [] => None
      | condition =>
          parts ← generate_parts numberFields rest;
          Some ((condition ++ js " ? " ++ generateTaskTierCall tier numberFields) :: parts)
      end
  end.

Definition generateTaskExprFromConfig (config : option TaskVisualConfig) (schema : BillingUsageSchema)
    : jsstr :=
  match getTaskNumberFields (Some schema) with
  | [] => []
  | numberFields =>
      match generate_parts numberFields (normalizeTaskVisualConfig config schema) with
      | Some parts => join (js " : ") parts
      | None => []
      end
  end.

Definition tryParseTaskVisualConfig (expression : option jsstr) (schema : BillingUsageSchema)
    : result exn (option TaskVisualConfig) :=
  match expression with
  | None | Some [] => Ok None
  | Some expression =>
      tiers ← parseTaskTiersFromExpr expression (Some schema) false;
      Ok (match tiers with
          | [] => None
          | _ => Some (normalizeTaskVisualConfig (Some tiers) schema)
          end)
  end.
End fields.

(** ** Previews *)

(** [Record<string, number | string>] *)
Definition Sample : Type := list (jsstr * jsval).

(** [Number(sample[field])] *)
Definition sample_number (sample : Sample) (field : jsstr) : num :=
  match own sample field with
  | Some (JNum x) => x
  | Some (JStr s) => number_of_string s
  | _ => S754_nan
  end.

Definition sample_covers (sample : Sample) (tier : TaskVisualTier) : bool :=
  forallb (λ '(field, value), match own sample field with Some (JStr v) => jseq v value | _ => false end)
    (k_conditions tier).

(** The first tier but the last whose conditions hold, or the last. *)
Definition preview_match (tiers : TaskVisualConfig) (sample : Sample) (fallback : TaskVisualTier)
    : TaskVisualTier :=
  default fallback (List.find (sample_covers sample) (removelast tiers)).

(** [schema?.[field]?.unit === 'token'] *)
Definition token_field (schema : option BillingUsageSchema) (field : jsstr) : bool :=
  match schema with
  | Some schema => match assoc schema field with Some d => is_token_unit d | None => false end
  | None => false
  end.

(** [!Number.isFinite(x) || x < 0] *)
Definition bad_amount (x : num) : bool := negb (is_finite x) || nltb x NZERO.

(** The loop over the unit prices: [None] is [return null]. *)
Fixpoint usage_parts (schema : option BillingUsageSchema) (sample : Sample) (prices : list (jsstr * num))
    : option (list TaskPart) :=
  match prices with
  | [] => Some []
  | (field, unitPrice) :: prices =>
      if bad_amount unitPrice then None
      else if neqb unitPrice NZERO then usage_parts schema sample prices
      else
        let quantity := sample_number sample field in
        if bad_amount quantity then None
        else
          let amount := if token_field schema field
                        then ndiv (nmul quantity unitPrice) TASK_TOKEN_PRICE_SCALE
                        else nmul quantity unitPrice in
          if negb (is_finite amount) then None
          else
            parts ← usage_parts schema sample prices;
            Some (UsagePart field amount quantity unitPrice :: parts)
  end.

(** The term and the usage entry of each priced field. *)
Definition part_term (schema : option BillingUsageSchema) (part : TaskPart) : option jsstr :=
  match part with
  | UsagePart ((_ :: _) as field) _ _ unitPrice =>
      Some (usage_text field ++ js " * " ++ number_to_string unitPrice
            ++ (if token_field schema field then js " / 1000000" else []))
  | _ => None
  end.
Definition part_usage (part : TaskPart) (usage : Sample) : Sample :=
  match part with
  | UsagePart ((_ :: _) as field) _ quantity _ => set_field usage field (JNum quantity)
  | _ => usage
  end.

Section preview.
Context {host : Host}.

Definition evaluateTaskVisualConfig (current_time : date) (config : TaskVisualConfig) (sample : Sample)
    (schema : option BillingUsageSchema) : option TaskPreviewResult :=
  fallback ← last config;
  let matchedTier := preview_match config sample fallback in
  let constant := k_constant matchedTier in
  if bad_amount constant then None
  else
    usages ← usage_parts schema sample (k_unitPrices matchedTier);
    let parts := (if ngtb constant NZERO then [ConstantPart constant] else []) ++ usages in
    let terms := number_to_string constant :: omap (part_term schema) parts in
    let normalizedUsage := fold_left (λ u p, part_usage p u) parts sample in
    match evaluateBillingExpression current_time
            (js "tier(" ++ json_stringify (k_label matchedTier) ++ js ", " ++ join (js " + ") terms ++ js ")")
            {| imageCount := None; tokens := []; request := None; usage := Some normalizedUsage; now := None |} with
    | Ok r => Some {| preview_tier := matchedTier; preview_total := cost r; preview_parts := parts |}
    | Err _ => None
    end.

Definition evaluateTaskUsageExamples (locale_le : jsstr → jsstr → bool) (current_time : date)
    (expression : option jsstr) (schema : option BillingUsageSchema) (examples : list (jsstr * Sample))
    : result exn (list (jsstr * num)) :=
  match expression, schema, examples with
  | None, _, _ | Some [], _, _ | _, None, _ | _, _, [] => Ok []
  | Some expression, Some schema, _ =>
      split ← splitBillingExprAndRequestRules expression;
      config ← tryParseTaskVisualConfig locale_le (Some (billingExpr split)) schema;
      Ok (match config with
          | None => []
          | Some config =>
              omap (λ '(label, facts),
                r ← evaluateTaskVisualConfig current_time config facts (Some schema);
                Some (label, preview_total r)) examples
          end)
  end.
End preview.
