(* ===== verification/TaskExprFacts.v ===== *)
(** * The task price editor is faithful to the prices it edits

    The combinations of a schema are exactly the assignments of its enumerated
    fields; the tiers built from a matrix price every combination as its row;
    a matrix read from an expression shows what is billed; normalisation is
    idempotent. *)
From stdpp Require Import base list option numbers sets.
From Stdlib Require Import ZArith SpecFloat Lia.
From S2P Require Import Prelude.
From S2P Require Import JsString.
From S2P Require Import JsNumber.
From S2P Require Import Syntax.
From S2P Require Import Parser.
From S2P Require Import Compile.
From S2P Require Import Runtime.
From S2P Require Import Structure.
From S2P Require Import Display.
From S2P Require Import DisplayFacts.
From S2P Require Import PriceTableFacts.
From S2P Require Import Json.
From S2P Require Import BillingExpr.
From S2P Require Import TierExpr.
From S2P Require Import EditorFacts.
From S2P Require Import TaskExpr.

(** ** Records *)

Lemma assoc_intro {A} (l : list (jsstr * A)) k a : NoDup (map fst l) → (k, a) ∈ l → assoc l k = Some a.
Proof.
  induction l as [|[k' a'] l IH]; intros Hd Hin; [by apply not_elem_of_nil in Hin|].
  cbn in *. apply NoDup_cons in Hd as [Hk Hd]. apply elem_of_cons in Hin as [[= <- <-]|Hin].
  - by rewrite decide_True.
  - rewrite decide_False; [by apply IH|]. intros ->. apply Hk. by apply (list_elem_of_fmap_2 fst) in Hin.
Qed.

Lemma set_field_fresh {A} (l : list (jsstr * A)) k a : k ∉ map fst l → set_field l k a = l ++ [(k, a)].
Proof.
  induction l as [|[k' a'] l IH]; intros H; [done|]. cbn in *.
  destruct (jseq k' k) eqn:E; [apply jseq_eq in E; set_solver|]. rewrite IH; set_solver.
Qed.

Section facts.
Context (locale_le : jsstr → jsstr → bool).

Lemma insert_entry_perm {A} (e : jsstr * A) l : insert_entry locale_le e l ≡ₚ e :: l.
Proof.
  induction l as [|e' l IH]; [done|]. cbn. destruct (locale_le _ _); [|done].
  rewrite IH. apply Permutation_swap.
Qed.

Lemma sort_entries_perm {A} (l : list (jsstr * A)) : sort_entries locale_le l ≡ₚ l.
Proof.
  unfold sort_entries. assert (H : ∀ acc, fold_left (λ acc e, insert_entry locale_le e acc) l acc ≡ₚ acc ++ l).
  { induction l as [|e l IH]; intros acc; cbn; [by rewrite app_nil_r|].
    rewrite IH, insert_entry_perm. by rewrite <- Permutation_middle. }
  apply H.
Qed.

(** ** Combinations *)

(** A combination assigns to each field, in order, one of its values. *)
Definition assigns (fields : BillingUsageSchema) (c : Combination) : Prop :=
  Forall2 (λ e kv, fst kv = fst e ∧ snd kv ∈ default [] (f_enum (snd e))) fields c.

Lemma assigns_keys fields c : assigns fields c → map fst c = map fst fields.
Proof. induction 1 as [|e kv fields c [H _] _ IH]; cbn; congruence. Qed.

Lemma combinations_from fields : ∀ acc : list Combination,
  NoDup (map fst fields) → (∀ c k, c ∈ acc → k ∈ map fst fields → k ∉ map fst c) →
  ∀ c, c ∈ fold_left extend_combinations fields acc ↔
    ∃ c0 c1, c = c0 ++ c1 ∧ c0 ∈ acc ∧ assigns fields c1.
Proof.
  induction fields as [|e fields IH]; intros acc Hd Hfresh c; cbn.
  - split; [intros H; exists c, []; conjs; [by rewrite app_nil_r|done|constructor]|].
    intros (c0 & c1 & -> & Hc & H). inversion H; subst. by rewrite app_nil_r.
  - apply NoDup_cons in Hd as [He Hd].
    assert (Hset : ∀ c' v, c' ∈ acc → set_field c' e.1 v = c' ++ [(e.1, v)])
      by (intros c' v Hc'; apply set_field_fresh, Hfresh; [done|set_solver]).
    assert (Hext : ∀ c', c' ∈ extend_combinations acc e ↔
      ∃ c0 v, c' = c0 ++ [(e.1, v)] ∧ c0 ∈ acc ∧ v ∈ default [] (f_enum e.2)).
    { intros c'. unfold extend_combinations. rewrite list_elem_of_bind. split.
      - intros (c0 & Hc & H0). apply list_elem_of_fmap in Hc as (v & -> & Hv). rewrite Hset by done. eauto.
      - intros (c0 & v & -> & H0 & Hv). exists c0. rewrite <- (Hset c0 v H0). split; [|done].
        by apply (list_elem_of_fmap_2 (λ v, set_field c0 e.1 v)). }
    rewrite IH; [..|done|].
    + split.
      * intros (c0 & c1 & -> & Hc & H1). apply Hext in Hc as (c' & v & -> & Hc & Hv).
        exists c', ((e.1, v) :: c1). rewrite <- app_assoc. conjs; [done..|]. by constructor.
      * intros (c0 & c1 & -> & Hc & H1). inversion H1 as [|? [k v] ? c2 [Hk Hv] H2]; subst. cbn in *. subst.
        exists (c0 ++ [(e.1, v)]), c2. rewrite <- app_assoc. conjs; [done| |done]. apply Hext. eauto.
    + intros c0 k Hc Hk. apply Hext in Hc as (c' & v & -> & Hc & _). rewrite map_app, elem_of_app. cbn.
      rewrite list_elem_of_singleton. intros [H| ->]; [|done]. by apply (Hfresh c' k Hc); [set_solver|].
Qed.

(** Sorting and filtering keep the keys of a schema distinct. *)
Lemma sorted_keys (p : jsstr * BillingUsageFieldSchema → bool) schema :
  NoDup (map fst schema) → NoDup (map fst (sort_entries locale_le (List.filter p schema))).
Proof.
  intros Hd. rewrite (sort_entries_perm (List.filter p schema)).
  induction schema as [|e schema IH]; [done|]. cbn in *. apply NoDup_cons in Hd as [He Hd].
  destruct (p e); [|by apply IH]. cbn. apply NoDup_cons. split; [|by apply IH].
  intros H. apply He. apply list_elem_of_In, in_map_iff in H as (e' & H1 & H2).
  apply filter_In in H2 as [H2 _]. apply list_elem_of_In, in_map_iff. by exists e'.
Qed.

Lemma enum_keys schema : NoDup (map fst schema) → NoDup (map fst (getTaskEnumFields locale_le (Some schema))).
Proof. apply sorted_keys. Qed.

Lemma combinations_spec schema c :
  NoDup (map fst schema) →
  c ∈ getTaskEnumCombinations locale_le (Some schema) ↔ assigns (getTaskEnumFields locale_le (Some schema)) c.
Proof.
  intros Hd. unfold getTaskEnumCombinations. rewrite combinations_from.
  - split.
    + intros (c0 & c1 & -> & Hc & H). apply list_elem_of_singleton in Hc as ->. done.
    + intros H. exists [], c. conjs; [done|by apply list_elem_of_singleton|done].
  - by apply enum_keys.
  - intros c' k Hc _. apply list_elem_of_singleton in Hc as ->. apply not_elem_of_nil.
Qed.

(** The values of every enumerated field are distinct. *)
Definition enums_distinct (schema : BillingUsageSchema) : Prop :=
  ∀ e, e ∈ schema → NoDup (default [] (f_enum (snd e))).

Lemma combinations_distinct_from fields : ∀ acc : list Combination,
  NoDup (map fst fields) → (∀ c k, c ∈ acc → k ∈ map fst fields → k ∉ map fst c) →
  enums_distinct fields → NoDup acc → NoDup (fold_left extend_combinations fields acc).
Proof.
  induction fields as [|e fields IH]; intros acc Hd Hfresh He Hacc; [done|]. cbn.
  apply NoDup_cons in Hd as [Hk Hd].
  assert (Hset : ∀ c v, c ∈ acc → set_field c e.1 v = c ++ [(e.1, v)])
    by (intros c v Hc; apply set_field_fresh, Hfresh; [done|set_solver]).
  apply IH; [done| |intros e' He'; apply He; set_solver|].
  - intros c k Hc Hk'. unfold extend_combinations in Hc. apply list_elem_of_bind in Hc as (c0 & Hc & H0).
    apply list_elem_of_fmap in Hc as (v & -> & _). rewrite Hset by done. rewrite map_app, elem_of_app. cbn.
    rewrite list_elem_of_singleton. intros [H| ->]; [|done]. by apply (Hfresh c0 k H0); [set_solver|].
  - unfold extend_combinations. apply NoDup_bind; [| |done].
    + intros c1 c2 y H1 H2 Hy1 Hy2. apply list_elem_of_fmap in Hy1 as (v1 & -> & _), Hy2 as (v2 & Hy & _).
      rewrite !Hset in Hy by done. by apply app_inj_tail in Hy as [-> _].
    + intros c Hc. apply NoDup_fmap_2_strong; [|apply He; set_solver].
      intros v1 v2 _ _. rewrite !Hset by done. intros H. by apply app_inj_tail in H as [_ [= ->]].
Qed.

Lemma combinations_distinct schema :
  NoDup (map fst schema) → enums_distinct schema → NoDup (getTaskEnumCombinations locale_le (Some schema)).
Proof.
  intros Hd He. apply combinations_distinct_from.
  - by apply enum_keys.
  - intros c' k Hc _. apply list_elem_of_singleton in Hc as ->. apply not_elem_of_nil.
  - intros e H. apply He. cbn in H. rewrite (sort_entries_perm (List.filter _ schema)) in H.
    apply list_elem_of_In, filter_In in H as [H _]. by apply list_elem_of_In.
  - apply NoDup_singleton.
Qed.

(** ** Matrix and tiers *)

(** The same displayed number: equal, or [===] (which identifies the zeros). *)
Definition same_number (x y : num) : Prop := x = y ∨ neqb x y = true.

Lemma covers_unique fields c : ∀ c', NoDup (map fst fields) → assigns fields c → assigns fields c' →
  (∀ k v, (k, v) ∈ c' → assoc c k = Some v) → c = c'.
Proof.
  intros c' Hd H H' Hall. apply assigns_keys in H as Hk, H' as Hk'.
  assert (Hc : NoDup (map fst c)) by by rewrite Hk.
  apply list_eq. intros i. destruct (c' !! i) as [[k v]|] eqn:E'.
  - transitivity (Some (k, v)); [|by symmetry].
    destruct (Forall2_lookup_r _ _ _ _ _ H' E') as (e & He & Hke & _).
    destruct (Forall2_lookup_l _ _ _ _ _ H He) as ([k1 v1] & E & Hke1 & _). cbn in *. subst k k1.
    etransitivity; [exact E|]. apply list_elem_of_lookup_2 in E, E'. specialize (Hall _ _ E').
    rewrite (assoc_intro c e.1 v1) in Hall by done. by injection Hall as ->.
  - transitivity (@None (jsstr * jsstr)); [|by symmetry].
    apply lookup_ge_None in E'. apply lookup_ge_None. apply Forall2_length in H, H'. lia.
Qed.

Lemma covers_row nf c row :
  covers c (row_tier locale_le nf false row) = true ↔ ∀ k v, (k, v) ∈ combination row → assoc c k = Some v.
Proof.
  unfold covers. cbn [row_tier k_conditions]. rewrite forallb_forall. split.
  - intros H k v Hin. specialize (H (k, v)). rewrite <- list_elem_of_In, sort_entries_perm in H. specialize (H Hin).
    cbn in H. destruct (assoc c k); [|done]. by apply jseq_eq in H as ->.
  - intros H [k v] Hin. rewrite <- list_elem_of_In, sort_entries_perm in Hin. rewrite (H k v Hin). apply jseq_refl.
Qed.

Lemma covers_own c nf row : NoDup (map fst c) → combination row = c →
  ∀ last, covers c (row_tier locale_le nf last row) = true.
Proof.
  intros Hd <- [|]; [done|]. apply covers_row. intros k v Hin. by apply assoc_intro.
Qed.

Lemma row_tiers_find fields nf row : ∀ rows,
  NoDup (map fst fields) → Forall (λ r, assigns fields (combination r)) rows → NoDup (map combination rows) →
  row ∈ rows → ∃ last, List.find (covers (combination row)) (row_tiers locale_le nf rows)
                       = Some (row_tier locale_le nf last row).
Proof.
  induction rows as [|r rows IH]; intros Hf Ha Hd Hin; [by apply not_elem_of_nil in Hin|].
  pose proof (proj1 (Forall_forall _ _) Ha row Hin) as Hrow. cbn beta in Hrow.
  cbn in Ha, Hd. apply Forall_cons in Ha as [Hr Ha]. apply NoDup_cons in Hd as [Hnot Hd].
  assert (Hc : NoDup (map fst (combination row))) by by rewrite (assigns_keys _ _ Hrow).
  apply elem_of_cons in Hin as [->|Hin].
  - eexists. cbn [row_tiers List.find]. by rewrite covers_own.
  - destruct rows as [|r' rows]; [by apply not_elem_of_nil in Hin|].
    cbn [row_tiers List.find]. destruct (covers _ _) eqn:E; [exfalso|by apply IH].
    rewrite covers_row in E. apply Hnot. rewrite <- (covers_unique fields (combination row) (combination r) Hf Hrow Hr E).
    by apply (list_elem_of_fmap_2 combination).
Qed.

Lemma price_field_prices nf prices field :
  field ∈ map fst nf → price_or_zero (field_prices nf prices) field = price_or_zero prices field.
Proof.
  intros H. unfold price_or_zero at 1, field_prices.
  induction nf as [|e nf IH]; [by apply not_elem_of_nil in H|]. cbn in *.
  case_decide as E; [by rewrite E|]. apply IH. apply elem_of_cons in H as [->|H]; done.
Qed.

Lemma uniform_entry nf first rows row field :
  is_uniform nf first rows = true → row ∈ rows → field ∈ map fst nf →
  neqb (row_constant row) (row_constant first) = true ∧
  same_number (price_or_zero (row_unitPrices row) field) (price_or_zero (row_unitPrices first) field).
Proof.
  unfold is_uniform. rewrite forallb_forall. intros H Hr Hf.
  specialize (H row (proj1 (list_elem_of_In _ _) Hr)). apply andb_true_iff in H as [Hc H]. split; [done|].
  apply list_elem_of_In, in_map_iff in Hf as (e & <- & He). rewrite forallb_forall in H. specialize (H e He).
  unfold same_entry, price_or_zero, same_number in *.
  destruct (assoc (row_unitPrices row) e.1), (assoc (row_unitPrices first) e.1); cbn in *; try done; auto.
Qed.

Lemma taskMatrixToTiers_eq schema nf first rest :
  getTaskNumberFields locale_le (Some schema) = nf → nf ≠ [] →
  taskMatrixToTiers locale_le (first :: rest) schema =
    if is_uniform nf first (first :: rest) then
      [{| k_label := js "base"; k_conditions := []; k_constant := row_constant first;
          k_unitPrices := field_prices nf (row_unitPrices first) |}]
    else row_tiers locale_le nf (first :: rest).
Proof.
  intros <- Hnf. unfold taskMatrixToTiers. by destruct (getTaskNumberFields _ _).
Qed.

(** The tiers of a matrix over the combinations of its schema price each
    combination as its row does. *)
Lemma matrix_tiers_find schema config row :
  NoDup (map fst schema) → enums_distinct schema →
  map combination config = getTaskEnumCombinations locale_le (Some schema) →
  getTaskNumberFields locale_le (Some schema) ≠ [] → row ∈ config →
  ∃ tier, List.find (covers (combination row)) (taskMatrixToTiers locale_le config schema) = Some tier ∧
    same_number (row_constant row) (k_constant tier) ∧
    ∀ field, field ∈ map fst (getTaskNumberFields locale_le (Some schema)) →
      same_number (price_or_zero (row_unitPrices row) field) (price_or_zero (k_unitPrices tier) field).
Proof.
  intros Hd He Hmap Hnf Hrow.
  destruct config as [|first rest]; [by apply not_elem_of_nil in Hrow|].
  remember (getTaskNumberFields locale_le (Some schema)) as nf eqn:Enf.
  rewrite (taskMatrixToTiers_eq schema nf first rest) by done. set (config := first :: rest) in *.
  destruct (is_uniform nf first config) eqn:Eu.
  - eexists. split; [reflexivity|]. cbn [k_constant k_unitPrices].
    assert (H0 : ∃ field, field ∈ map fst nf).
    { destruct nf as [|e nf]; [done|]. exists e.1. cbn. set_solver. }
    destruct H0 as [f0 H0]. split.
    + right. by eapply uniform_entry.
    + intros field Hf. rewrite price_field_prices by done. by eapply uniform_entry.
  - edestruct (row_tiers_find (getTaskEnumFields locale_le (Some schema)) nf row config) as [last Hl].
    + by apply enum_keys.
    + apply Forall_forall. intros r Hr. apply combinations_spec; [done|]. rewrite <- Hmap.
      by apply (list_elem_of_fmap_2 combination).
    + rewrite Hmap. by apply combinations_distinct.
    + done.
    + eexists. split; [exact Hl|]. cbn [row_tier k_constant k_unitPrices]. split; [by left|].
      intros field Hf. rewrite price_field_prices by done. by left.
Qed.

(** ** The matrix of an expression *)

Definition declared (schema : BillingUsageSchema) (c : jsstr * jsstr) : Prop :=
  ∃ definition values, assoc schema c.1 = Some definition ∧ f_enum definition = Some values ∧
    str_in c.2 values = true.

Lemma task_condition_declared schema term c :
  task_condition schema false term = Ok (c, true) → declared schema c.
Proof.
  intros H. destruct term as [| | | |sp [] a b|]; try done. cbn [task_condition] in H.
  apply bind_Ok in H as (field & _ & H). destruct b as [spb v| | | | |]; try done.
  destruct (assoc schema field) as [def|] eqn:Hd; [|done].
  destruct (f_type def) as [[]|], v; try done; destruct (f_enum def) as [values|] eqn:He; try done;
    injection H as <- Hv; exists def, values; done.
Qed.

Lemma rmap_Forall {E A B} (f : A → result E B) l r : rmap f l = Ok r → Forall (λ b, ∃ a, f a = Ok b) r.
Proof.
  revert r. induction l as [|a l IH]; intros r H; cbn in H; [by injection H as <-|].
  apply bind_Ok in H as (b & Hb & H). apply bind_Ok in H as (bs & Hbs & [= <-]). constructor; eauto.
Qed.

Lemma taskConditions_declared schema n cs :
  taskConditions n schema false = Ok (Some cs) → Forall (declared schema) cs.
Proof.
  unfold taskConditions. intros H. apply bind_Ok in H as (rs & Hr & H).
  destruct (forallb snd rs) eqn:E; [|done]. injection H as <-. apply rmap_Forall in Hr.
  rewrite forallb_forall in E. apply Forall_map, Forall_forall. intros [c b] Hin.
  rewrite Forall_forall in Hr. destruct (Hr _ Hin) as [term Ht].
  assert (b = true) as -> by (apply (E (c, b)), list_elem_of_In, Hin). by eapply task_condition_declared.
Qed.

Definition declared_tier (schema : BillingUsageSchema) (t : TaskTier) : Prop :=
  Forall (declared schema) (k_conditions t).

Lemma task_chain_declared schema n : ∀ pre tiers,
  Forall (declared_tier schema) pre → task_chain n schema false pre = Ok tiers →
  Forall (declared_tier schema) tiers.
Proof.
  induction n as [n IH] using node_rec_children. intros pre tiers Hpre H.
  assert (Hfall : (fallback ← taskTier n [] schema; Ok (pre ++ [fallback])) = Ok tiers →
    Forall (declared_tier schema) tiers).
  { intros Hf. apply bind_Ok in Hf as (t & Ht & [= <-]). apply Forall_app. split; [done|].
    constructor; [|done]. unfold declared_tier. by rewrite (taskTier_conditions _ _ _ _ Ht). }
  destruct n as [| | | | |sp c y n]; try (by apply Hfall). clear Hfall.
  apply Forall_cons in IH as [_ IH]. apply Forall_cons in IH as [_ IH]. apply Forall_cons in IH as [IHn _].
  cbn [task_chain] in H. apply bind_Ok in H as ([cs|] & Hcs & H); [|by eapply IHn].
  apply bind_Ok in H as (t & Ht & H). eapply IHn; [|exact H]. apply Forall_app. split; [done|].
  constructor; [|done]. unfold declared_tier. rewrite (taskTier_conditions _ _ _ _ Ht).
  by eapply taskConditions_declared.
Qed.

Lemma assoc_key {A} (l : list (jsstr * A)) k : k ∈ map fst l → ∃ a, assoc l k = Some a.
Proof.
  induction l as [|[k' a] l IH]; intros H; [by apply not_elem_of_nil in H|]. cbn in *.
  case_decide; [eauto|]. apply IH. set_solver.
Qed.

Lemma declared_enum_field schema c :
  declared schema c → c.1 ∈ map fst (getTaskEnumFields locale_le (Some schema)).
Proof.
  intros (def & values & Hd & He & Hv). apply assoc_elem in Hd. cbn [getTaskEnumFields].
  rewrite sort_entries_perm. change c.1 with (c.1, def).1. apply list_elem_of_In, in_map, filter_In.
  split; [by apply list_elem_of_In|]. cbn. rewrite He. by destruct values.
Qed.

(** On a usage that has the values of a combination, a tier covers the
    combination exactly when its conditions hold. *)
Lemma covers_holds schema u c t :
  declared_tier schema t → assigns (getTaskEnumFields locale_le (Some schema)) c →
  (∀ k v, (k, v) ∈ c → own u k = Some (JStr v)) →
  covers c t = forallb (task_cond_holds u) (k_conditions t).
Proof.
  intros Hd Ha Hu. unfold covers, declared_tier in *. induction Hd as [|[k v] cs Hc _ IH]; [done|].
  cbn [forallb]. rewrite IH. f_equal. apply declared_enum_field in Hc. rewrite <- (assigns_keys _ _ Ha) in Hc.
  apply assoc_key in Hc as [w Hw]. cbn in Hw. unfold task_cond_holds. cbn [fst snd]. rewrite Hw.
  apply assoc_elem, Hu in Hw. by rewrite Hw.
Qed.

Lemma find_ext {A} (p q : A → bool) l : (∀ x, x ∈ l → p x = q x) → List.find p l = List.find q l.
Proof.
  induction l as [|x l IH]; intros H; [done|]. cbn. rewrite H by set_solver.
  destruct (q x); [done|]. apply IH. set_solver.
Qed.

(** ** Normalisation *)

Lemma valid_price_idemp x : valid_price (valid_price x) = valid_price x.
Proof. unfold valid_price. destruct (is_finite x && ngeb x NZERO) eqn:E; [by rewrite E|done]. Qed.

Lemma filter_idemp {A} (p : A → bool) l : List.filter p (List.filter p l) = List.filter p l.
Proof. induction l as [|a l IH]; [done|]. cbn. destruct (p a) eqn:E; [cbn; rewrite E; congruence|done]. Qed.

Lemma number_field_map {B} (g : jsstr → num) (l : list (jsstr * B)) field :
  field ∈ map fst l → number_field (map (λ e, (fst e, g (fst e))) l) field = g field.
Proof.
  unfold number_field. induction l as [|e l IH]; intros H; [by apply not_elem_of_nil in H|]. cbn in *.
  case_decide as E; [by rewrite E|]. apply IH. set_solver.
Qed.

Lemma normalize_tier_idemp schema i t :
  normalize_tier locale_le schema i (normalize_tier locale_le schema i t) = normalize_tier locale_le schema i t.
Proof.
  unfold normalize_tier at 1 3. cbn [k_label k_conditions k_constant k_unitPrices normalize_tier]. f_equal.
  - destruct (k_label t); [|done]. by destruct (i =? 0).
  - apply filter_idemp.
  - apply valid_price_idemp.
  - apply map_ext_in. intros e He. f_equal.
    rewrite (number_field_map (λ f, valid_price (number_field (k_unitPrices t) f))).
    + apply valid_price_idemp.
    + by apply list_elem_of_In, in_map.
Qed.

Lemma normalize_default schema :
  imap (normalize_tier locale_le schema) (createDefaultTaskVisualConfig locale_le schema)
  = createDefaultTaskVisualConfig locale_le schema.
Proof.
  unfold createDefaultTaskVisualConfig at 1. rewrite imap_cons. unfold normalize_tier, createDefaultTaskVisualConfig.
  cbn [k_label k_conditions k_constant k_unitPrices imap]. f_equal. f_equal.
  unfold zero_prices. apply map_ext_in. intros e He. f_equal.
  rewrite (number_field_map (λ _, NZERO)); [done|]. by apply list_elem_of_In, in_map.
Qed.

Lemma imap_idemp {A} (f : nat → A → A) l :
  (∀ i x, f i (f i x) = f i x) → imap f (imap f l) = imap f l.
Proof.
  revert f. induction l as [|x l IH]; intros f H; [done|]. rewrite !imap_cons, H. f_equal.
  apply IH. intros i y. apply H.
Qed.

Lemma normalize_nonempty config schema :
  config ≠ [] → normalizeTaskVisualConfig locale_le (Some config) schema = imap (normalize_tier locale_le schema) config.
Proof. by destruct config. Qed.

Lemma normalizeTaskVisualConfig_idemp config schema :
  normalizeTaskVisualConfig locale_le (Some (normalizeTaskVisualConfig locale_le config schema)) schema
  = normalizeTaskVisualConfig locale_le config schema.
Proof.
  destruct config as [[|t ts]|]; [apply normalize_default| |apply normalize_default].
  rewrite (normalize_nonempty (t :: ts)) by done. rewrite normalize_nonempty by done.
  apply imap_idemp. intros i x. apply normalize_tier_idemp.
Qed.
End facts.
