(* ===== verification/TaskDisplay.v ===== *)
(** * Task prices with conditions on time

    Models [billing-expression/task-display.ts], [task-matrix-display.ts] and
    [pricingDisplayFallbackKey] of [task-price-display.ts]: the tables the
    price list shows for task expressions outside the grammar of the editor.
    [readConditionalTaskPricing] runs the expression symbolically, once for
    every combination of the categorical facts it reads: tests of facts are
    decided, comparisons of clock fields are kept as text, and amounts are
    linear in the measured fields.

    The arithmetic of the amounts is an argument of the symbolic run
    ([Arithmetic]); the code's is the instance [binary64].  [remaining] is the
    counter of the context; [None] is [null], and a thrown error ends the run. *)
From stdpp Require Import base list option numbers sets.
From Stdlib Require Import ZArith SpecFloat Lia.
From S2P Require Import Prelude.
From S2P Require Import JsString.
From S2P Require Import JsNumber.
From S2P Require Import Syntax.
From S2P Require Import Parser.
From S2P Require Import Compile.
From S2P Require Import Runtime.
From S2P Require Import Display.
From S2P Require Import BillingExpr.
From S2P Require Import TierExpr.
From S2P Require Import TaskExpr.

Definition MAX_DISPLAY_ROWS : nat := 128.

(** ** Arithmetic of amounts *)

Class Arithmetic (T : Type) : Type := {
  of_num : num → T;
  plus : T → T → T;
  times : T → T → T;
  divide : T → T → T;
  nonneg : T → bool;      (** [x >= 0] *)
  nonpos : T → bool;      (** [x <= 0] *)
  finite : T → bool;      (** [Number.isFinite(x)] *)
}.

#[export] Instance binary64 : Arithmetic num := {
  of_num x := x;
  plus := nadd;
  times := nmul;
  divide := ndiv;
  nonneg x := ngeb x NZERO;
  nonpos x := nleb x NZERO;
  finite := is_finite;
}.

Definition zero {T} `{Arithmetic T} : T := of_num NZERO.
Definition one {T} `{Arithmetic T} : T := of_num (nZ 1).

(** ** Conditions *)

(** [string | boolean] *)
Inductive fact : Type := Choice (s : jsstr) | Switch (b : bool).
Definition Facts : Type := list (jsstr * fact).

(** [facts[key] === literal.value] *)
Definition fact_is (f : fact) (v : literal) : bool :=
  match f, v with
  | Choice s, LStr t => jseq s t
  | Switch b, LBool c => Bool.eqb b c
  | _, _ => false
  end.

Definition fact_text (f : fact) : jsstr := match f with Choice s => s | Switch b => bool_text b end.

(** [boolean | string] *)
Inductive condition : Type := Decided (b : bool) | Remains (text : jsstr).

(** What a visit of a node returns, with the counter after it. *)
Abbreviation probe A := (result exn (option A * Z)).

Definition negate (c : condition) : condition :=
  match c with Decided b => Decided (negb b) | Remains text => Remains (js "!(" ++ text ++ js ")") end.

Definition is_decided (b : bool) (c : condition) : bool :=
  match c with Decided b' => Bool.eqb b' b | Remains _ => false end.

Definition connect (o : binop) (lhs rhs : condition) : condition :=
  let shortCircuit := bool_decide (o = Oor) in
  if is_decided shortCircuit lhs || is_decided shortCircuit rhs then Decided shortCircuit
  else match lhs, rhs with
       | Decided _, _ => rhs
       | _, Decided _ => lhs
       | Remains a, Remains b => Remains (js "(" ++ a ++ js ") " ++ binop_text o ++ js " (" ++ b ++ js ")")
       end.

Definition is_number (definition : BillingUsageFieldSchema) : bool :=
  match f_type definition with Some FNumber => true | _ => false end.

Section display.
Context (source : jsstr) (schema : BillingUsageSchema).

(** One round of the loop over [[left, right], [right, left]]: [None] is
    [continue], [Some None] is [return null]. *)
Definition equality_probe (facts : Facts) (o : binop) (probed literal : node)
    : result exn (option (option condition)) :=
  match probed with
  | ECall _ Fu [] => Err (HostError (js "TypeError"))
  | ECall _ Fu (ELit _ (LStr key) :: _) =>
      match literal with
      | ELit _ v =>
          match assoc facts key with
          | None => Ok (Some None)
          | Some f =>
              match assoc schema key with
              | None => Err (HostError (js "TypeError"))
              | Some definition =>
                  let decide_it := Ok (Some (Some (Decided
                    (if decide (o = Oeq) then fact_is f v else negb (fact_is f v))))) in
                  match f_type definition, v with
                  | Some FBoolean, LBool _ => decide_it
                  | Some FBoolean, _ => Ok (Some None)
                  | _, LStr s =>
                      if str_in s (default [] (f_enum definition)) then decide_it
                      else Ok (Some (Some (Decided (bool_decide (o = One)))))
                  | _, _ => Ok (Some None)
                  end
              end
          end
      | _ => Ok None
      end
  | _ => Ok None
  end.

Definition is_equality (o : binop) : bool := match o with Oeq | One => true | _ => false end.
Definition is_comparison (o : binop) : bool := is_equality o || is_order o.

Definition is_call (n : node) : bool := match n with ECall _ _ _ => true | _ => false end.

(** A number, or a field of the clock in a zone other than ['Local']. *)
Definition time_operand (n : node) : result exn bool :=
  match n with
  | ELit _ (LNum _ _) => Ok true
  | ECall _ (Ftime _) [] => Err (HostError (js "TypeError"))
  | ECall _ (Ftime _) (ELit _ (LStr zone) :: _) => Ok (negb (jseq (trim zone) (js "Local")))
  | _ => Ok false
  end.

Definition time_comparison (n : node) : result exn (option condition) :=
  match n with
  | EBin _ o a b =>
      if is_comparison o && (is_call a || is_call b) then
        l ← time_operand a;
        if negb l then Ok None
        else
          r ← time_operand b;
          Ok (if (r : bool) then Some (Remains (slice source (node_start n) (node_end n))) else None)
      else Ok None
  | _ => Ok None
  end.

(** The tests of facts, then the comparisons of time. *)
Definition comparison (facts : Facts) (n : node) : result exn (option condition) :=
  match n with
  | EBin _ o a b =>
      first ← (if is_equality o then equality_probe facts o a b else Ok None);
      match first with
      | Some c => Ok c
      | None =>
          second ← (if is_equality o then equality_probe facts o b a else Ok None);
          match second with
          | Some c => Ok c
          | None => time_comparison n
          end
      end
  | _ => Ok None
  end.

Fixpoint taskDisplayCondition (facts : Facts) (n : node) (remaining : Z) : probe condition :=
  let remaining := (remaining - 1)%Z in
  if (remaining <? 0)%Z then Ok (None, remaining)
  else
    match n with
    | ELit _ (LBool b) => Ok (Some (Decided b), remaining)
    | EUn _ Unot a =>
        '(v, remaining) ← taskDisplayCondition facts a remaining; Ok (option_map negate v, remaining)
    | EBin _ (Oand as o) a b | EBin _ (Oor as o) a b =>
        '(l, remaining) ← taskDisplayCondition facts a remaining;
        '(r, remaining) ← taskDisplayCondition facts b remaining;
        Ok (match l, r with Some l, Some r => Some (connect o l r) | _, _ => None end, remaining)
    | EBin _ _ _ _ => c ← comparison facts n; Ok (c, remaining)
    | _ => Ok (None, remaining)
    end.

(** ** Amounts *)

Section amounts.
Context {T : Type} `{!Arithmetic T}.

Record PriceBranch : Type := {
  b_label : option jsstr;
  b_constant : T;
  b_prices : list (jsstr * T);
  b_times : list (jsstr * bool)
}.

Definition has_label (b : PriceBranch) : bool := match b_label b with Some _ => true | None => false end.
Definition labelled (label : jsstr) (b : PriceBranch) : PriceBranch :=
  {| b_label := Some label; b_constant := b_constant b; b_prices := b_prices b; b_times := b_times b |}.

(** [new Map([[condition, matches], ...child.times])] *)
Definition map_of (entries : list (jsstr * bool)) : list (jsstr * bool) :=
  fold_left (λ m e, set_field m e.1 e.2) entries [].
Definition timed (condition : jsstr) (matches : bool) (b : PriceBranch) : PriceBranch :=
  {| b_label := b_label b; b_constant := b_constant b; b_prices := b_prices b;
     b_times := map_of ((condition, matches) :: b_times b) |}.

(** [times.has(key) && times.get(key) !== value] *)
Definition conflicts (times : list (jsstr * bool)) (e : jsstr * bool) : bool :=
  match assoc times e.1 with Some v => negb (Bool.eqb v e.2) | None => false end.

Definition side (condition : jsstr) (matches : bool) (children : list PriceBranch) : list PriceBranch :=
  map (timed condition matches)
    (List.filter (λ b, negb (conflicts (b_times b) (condition, matches))) children).

Definition price_of (prices : list (jsstr * T)) (field : jsstr) : T := default zero (assoc prices field).

Definition sum_prices (a b : list (jsstr * T)) : list (jsstr * T) :=
  map (λ field, (field, plus (price_of a field) (price_of b field)))
    (fold_left (λ s k, set_add k s) (a.*1 ++ b.*1) []).

Definition has_quantity (b : PriceBranch) : bool := match b_prices b with [] => false | _ => true end.

(** The constant and the prices of [a op b]; [None] is [return null]. *)
Definition amount_of (o : binop) (a b : PriceBranch) : option (T * list (jsstr * T)) :=
  match o with
  | Oadd => Some (plus (b_constant a) (b_constant b), sum_prices (b_prices a) (b_prices b))
  | _ =>
      let division := bool_decide (o = Odiv) in
      if (has_quantity a && has_quantity b) || (division && (has_quantity b || nonpos (b_constant b)))
      then None
      else
        let quantity := if has_quantity a then a else b in
        let factor := if division then divide one (b_constant b)
                      else if has_quantity a then b_constant b else b_constant a in
        let constant := if division then divide (b_constant a) (b_constant b)
                        else times (b_constant a) (b_constant b) in
        Some (constant, map (λ e, (e.1, times e.2 factor)) (b_prices quantity))
  end.

Definition good_amount (x : T) : bool := finite x && nonneg x.

(** One pair of branches: [None] is [return null], [Some None] [continue]. *)
Definition combine_branches (o : binop) (a b : PriceBranch) : option (option PriceBranch) :=
  match b_label a, b_label b with
  | Some _, Some _ => None
  | _, _ =>
      if existsb (conflicts (b_times b)) (b_times a) then Some None
      else
        match amount_of o a b with
        | None => None
        | Some (constant, prices) =>
            if forallb good_amount (constant :: prices.*2) then
              Some (Some {| b_label := match b_label a with Some l => Some l | None => b_label b end;
                            b_constant := constant; b_prices := prices;
                            b_times := map_of (b_times a ++ b_times b) |})
            else None
        end
  end.

Fixpoint combine_all (o : binop) (pairs : list (PriceBranch * PriceBranch)) : option (list PriceBranch) :=
  match pairs with
  | [] => Some []
  | (a, b) :: pairs =>
      match combine_branches o a b with
      | None => None
      | Some c => rest ← combine_all o pairs; Some (option_list c ++ rest)
      end
  end.

(** [for (const a of left) for (const b of right)] *)
Definition pairs_of {A B} (l : list A) (r : list B) : list (A * B) := flat_map (λ a, map (pair a) r) l.

Definition is_amount_operator (o : binop) : bool := match o with Oadd | Omul | Odiv => true | _ => false end.

Definition measured (field : jsstr) : bool :=
  match assoc schema field with
  | Some definition => is_number definition && has_text (f_unit definition)
  | None => false
  end.

Definition constant_branch (x : T) : PriceBranch :=
  {| b_label := None; b_constant := x; b_prices := []; b_times := [] |}.
Definition field_branch (field : jsstr) : PriceBranch :=
  {| b_label := None; b_constant := zero; b_prices := [(field, one)]; b_times := [] |}.

Fixpoint taskPriceBranches (facts : Facts) (n : node) (remaining : Z) : probe (list PriceBranch) :=
  let remaining := (remaining - 1)%Z in
  if (remaining <? 0)%Z then Ok (None, remaining)
  else
    match n with
    | ELit _ (LNum x _) =>
        Ok (if ngeb x NZERO then Some [constant_branch (of_num x)] else None, remaining)
    | ECall _ Fu [] | ECall _ Ftier [] => Err (HostError (js "TypeError"))
    | ECall _ Fu (ELit _ (LStr field) :: _) =>
        Ok (if measured field then Some [field_branch field] else None, remaining)
    | ECall _ Ftier [ELit _ (LStr label)] =>
        if (remaining - 1 <? 0)%Z then Ok (None, (remaining - 1)%Z) else Err (HostError (js "TypeError"))
    | ECall _ Ftier (ELit _ (LStr label) :: body :: _) =>
        '(branches, remaining) ← taskPriceBranches facts body remaining;
        Ok (match branches with
            | Some branches =>
                if existsb has_label branches then None else Some (map (labelled label) branches)
            | None => None
            end, remaining)
    | ECond _ c yes no =>
        '(c, remaining) ← taskDisplayCondition facts c remaining;
        match c with
        | None => Ok (None, remaining)
        | Some (Decided b) => if b then taskPriceBranches facts yes remaining
                              else taskPriceBranches facts no remaining
        | Some (Remains text) =>
            '(yes, remaining) ← taskPriceBranches facts yes remaining;
            match yes with
            | None => Ok (None, remaining)
            | Some yes =>
                '(no, remaining) ← taskPriceBranches facts no remaining;
                Ok (match no with
                    | Some no =>
                        let branches := side text true yes ++ side text false no in
                        if length branches <=? MAX_DISPLAY_ROWS then Some branches else None
                    | None => None
                    end, remaining)
            end
        end
    | EBin _ o a b =>
        if is_amount_operator o then
          '(l, remaining) ← taskPriceBranches facts a remaining;
          '(r, remaining) ← taskPriceBranches facts b remaining;
          Ok (match l, r with
              | Some l, Some r =>
                  if MAX_DISPLAY_ROWS <? length l * length r then None else combine_all o (pairs_of l r)
              | _, _ => None
              end, remaining)
        else Ok (None, remaining)
    | _ => Ok (None, remaining)
    end.
End amounts.
End display.
Arguments PriceBranch T : clear implicits.

(** ** The table *)

(** The visitor that collects the fields of [u(...)]; the flag is [valid]. *)
Definition usage_visitor (schema : BillingUsageSchema) (n : node) (s : list jsstr * bool)
    : result exn (list jsstr * bool) :=
  let '(fields, valid) := s in
  match n with
  | ECall _ Fu [] => Err (HostError (js "TypeError"))
  | ECall _ Fu (ELit _ (LStr key) :: _) =>
      match assoc schema key with
      | Some _ => Ok (set_add key fields, valid)
      | None => Ok (fields, false)
      end
  | ECall _ Fu _ => Ok (fields, false)
  | _ => Ok (fields, valid)
  end.

Definition fact_values (definition : BillingUsageFieldSchema) : list fact :=
  match f_type definition with
  | Some FBoolean => [Switch false; Switch true]
  | _ => map Choice (default [] (f_enum definition))
  end.

(** The loop over the fields; [None] is [return null]. *)
Fixpoint fact_combinations (schema : BillingUsageSchema) (fields : list jsstr) (combinations : list Facts)
    : option (list Facts) :=
  match fields with
  | [] => Some combinations
  | field :: fields =>
      match assoc schema field with
      | None => None
      | Some definition =>
          if is_number definition then fact_combinations schema fields combinations
          else
            let values := fact_values definition in
            if bool_decide (values = []) || (MAX_DISPLAY_ROWS <? length combinations * length values) then None
            else fact_combinations schema fields
                   (flat_map (λ facts, map (λ value, facts ++ [(field, value)]) values) combinations)
      end
  end.

Definition unit_price (schema : BillingUsageSchema) (prices : list (jsstr * num)) (field : jsstr)
    : option (jsstr * num) :=
  match assoc schema field with
  | Some definition =>
      if is_number definition && has_text (f_unit definition) then
        Some (field, nmul (price_of prices field)
                       (if is_token_unit definition then nZ 1000000 else nZ 1))
      else None
  | None => None
  end.

Definition times_text (times : list (jsstr * bool)) : jsstr :=
  join (js " && ")
    (map (λ e, if (e.2 : bool) then js "(" ++ e.1 ++ js ")" else js "!(" ++ e.1 ++ js ")") times).

Definition shown_tier (schema : BillingUsageSchema) (fields : list jsstr) (facts : Facts)
    (b : PriceBranch num) : option ParsedTaskTier :=
  match b_label b with
  | None => None
  | Some label =>
      let unitPrices := omap (unit_price schema (b_prices b)) fields in
      if bool_decide (unitPrices = []) || negb (forallb is_finite unitPrices.*2) then None
      else
        Some {| pk_conditionText := match times_text (b_times b) with [] => None | text => Some text end;
                pk_tier := {| k_label := label; k_conditions := map (λ e, (e.1, fact_text e.2)) facts;
                              k_constant := b_constant b; k_unitPrices := unitPrices |} |}
  end.

Fixpoint shown_tiers (schema : BillingUsageSchema) (fields : list jsstr) (facts : Facts)
    (branches : list (PriceBranch num)) : option (list ParsedTaskTier) :=
  match branches with
  | [] => Some []
  | b :: branches =>
      tier ← shown_tier schema fields facts b;
      tiers ← shown_tiers schema fields facts branches;
      Some (tier :: tiers)
  end.

(** The loop over the combinations. *)
Fixpoint conditional_tiers (source : jsstr) (schema : BillingUsageSchema) (fields : list jsstr) (ast : node)
    (combinations : list Facts) (remaining : Z) (tiers : list ParsedTaskTier) : reader (list ParsedTaskTier) :=
  match combinations with
  | [] => Ok tiers
  | facts :: combinations =>
      '(branches, remaining) ← lift_throw (taskPriceBranches source schema facts ast remaining);
      match branches with
      | None => null
      | Some branches =>
          if MAX_DISPLAY_ROWS <? length tiers + length branches then null
          else
            match shown_tiers schema fields facts branches with
            | None => null
            | Some more =>
                conditional_tiers source schema fields ast combinations remaining (tiers ++ more)
            end
      end
  end.

Definition readConditionalTaskPricing (source : jsstr) (schema : BillingUsageSchema)
    : reader (list ParsedTaskTier) :=
  match compile source with
  | Err _ => null
  | Ok compiled =>
      '(fields, valid) ← lift_throw (visitExpression (usage_visitor schema) (c_ast compiled) ([], true));
      if negb valid then null
      else
        match fact_combinations schema fields [[]] with
        | None => null
        | Some combinations =>
            conditional_tiers source schema fields (c_ast compiled) combinations 20000 []
        end
  end.

(** ** Rows of a matrix and conditions of a fallback *)

Definition plain_tier (t : TaskTier) : ParsedTaskTier := {| pk_conditionText := None; pk_tier := t |}.

Section matrix.
Context (locale_le : jsstr → jsstr → bool).

Definition matrix_display_tier (row : TaskMatrixRow) : ParsedTaskTier :=
  plain_tier {| k_label := taskMatrixRowLabel locale_le (combination row);
                k_conditions := sort_entries locale_le (combination row);
                k_constant := row_constant row; k_unitPrices := row_unitPrices row |}.

Definition getTaskMatrixDisplayTiers (expression : option jsstr) (schema : option BillingUsageSchema)
    : result exn (option (list ParsedTaskTier)) :=
  match schema with
  | None => Ok None
  | Some schema =>
      match getTaskEnumFields locale_le (Some schema) with
      | [] => Ok None
      | _ =>
          matrix ← tryParseTaskMatrixConfig locale_le expression schema;
          Ok (option_map (map matrix_display_tier) matrix)
      end
  end.
End matrix.

(** The fields the conditions of the tiers name, in the order of their code
    units. *)
Definition named_fields (tiers : list TaskTier) : list jsstr :=
  (sort_by_key (map (λ f, (f, tt))
     (fold_left (λ s f, set_add f s) (flat_map (λ t, (k_conditions t).*1) tiers) []))).*1.

Definition condition_values (schema : BillingUsageSchema) (field : jsstr) : list jsstr :=
  match assoc schema field with
  | Some definition =>
      match f_type definition with
      | Some FBoolean => [js "false"; js "true"]
      | _ => default [] (f_enum definition)
      end
  | None => []
  end.

(** [None]: the tiers are returned as they are. *)
Fixpoint condition_combinations (schema : BillingUsageSchema) (fields : list jsstr)
    (combinations : list Combination) : option (list Combination) :=
  match fields with
  | [] => Some combinations
  | field :: fields =>
      let values := condition_values schema field in
      if bool_decide (values = []) || (256 <? length combinations * length values) then None
      else condition_combinations schema fields
             (flat_map (λ c, map (λ value, c ++ [(field, value)]) values) combinations)
  end.

Definition tier_covers (c : Combination) (tier : TaskTier) : bool :=
  forallb (λ condition, existsb (λ e, jseq e.1 condition.1 && jseq e.2 condition.2) c) (k_conditions tier).

Definition named_fallback (schema : BillingUsageSchema) (tiers : list TaskTier) : list TaskTier :=
  match last tiers with
  | None => tiers
  | Some fallback =>
      if length tiers <? 2 then tiers
      else
        let previous := take (length tiers - 1) tiers in
        match condition_combinations schema (named_fields previous) [[]] with
        | None => tiers
        | Some combinations =>
            match List.filter (λ c, negb (existsb (tier_covers c) previous)) combinations with
            | [remaining] =>
                previous ++ [{| k_label := k_label fallback; k_conditions := remaining;
                                k_constant := k_constant fallback; k_unitPrices := k_unitPrices fallback |}]
            | _ => tiers
            end
        end
  end.

Definition getTaskPricingDisplayTiers (expression : option jsstr) (schema : option BillingUsageSchema)
    : result exn (list ParsedTaskTier) :=
  tiers ← parseTaskTiersFromExpr (default [] expression) schema true;
  match tiers, expression, schema with
  | [], Some ((_ :: _) as expression), Some schema =>
      split ← splitBillingExprAndRequestRules expression;
      null_or (readConditionalTaskPricing (billingExpr split) schema) (Ok [])
  | _, _, Some schema => Ok (map plain_tier (named_fallback schema tiers))
  | _, _, None => Ok (map plain_tier tiers)
  end.

(** ** The text shown instead of a table *)

Definition usage_missing (schema : option BillingUsageSchema) (n : node) : result exn bool :=
  match n with
  | ECall _ Fu args =>
      match schema, args with
      | None, _ => Ok true
      | Some _, [] => Err (HostError (js "TypeError"))
      | Some schema, ELit _ (LStr key) :: _ => Ok (negb (bool_decide (is_Some (assoc schema key))))
      | Some _, _ => Ok true
      end
  | _ => Ok false
  end.

Definition pricingDisplayFallbackKey (expression : jsstr) (schema : option BillingUsageSchema)
    : result exn jsstr :=
  missing ← match compile expression with
            | Ok compiled =>
                visitExpression (λ n s, m ← usage_missing schema n; Ok (s || m)) (c_ast compiled) false
            | Err _ => Ok false
            end;
  Ok (if (missing : bool)
      then js "Task usage metadata is unavailable. Pricing details cannot be displayed."
      else js "This expression cannot be expanded into a price table. View the original expression below.").
