(* ===== verification/TaskDisplayFacts.v ===== *)
(** * The settled row of a task price with conditions

    For usage with the facts of a combination, exactly one of the branches of
    the combination has all its conditions in force, and it is the one the
    evaluator settles on. *)
From stdpp Require Import base list option numbers sets.
From Stdlib Require Import ZArith SpecFloat Lia.
From S2P Require Import Prelude.
From S2P Require Import JsString.
From S2P Require Import JsNumber.
From S2P Require Import Syntax.
From S2P Require Import Parser.
From S2P Require Import ParserFacts.
From S2P Require Import Compile.
From S2P Require Import CompileFacts.
From S2P Require Import Runtime.
From S2P Require Import RuntimeFacts.
From S2P Require Import EvalFacts.
From S2P Require Import Display.
From S2P Require Import DisplayFacts.
From S2P Require Import PriceTableFacts.
From S2P Require Import BillingExpr.
From S2P Require Import TierExpr.
From S2P Require Import EditorFacts.
From S2P Require Import TaskExpr.
From S2P Require Import TaskDisplay.

#[local] Arguments evaluate : simpl never.

(** ** Lists *)

Lemma filter_pairs {A B} (p : A → bool) (q : B → bool) l r a b :
  List.filter p l = [a] → List.filter q r = [b] →
  List.filter (λ e, p e.1 && q e.2) (pairs_of l r) = [(a, b)].
Proof.
  intros Hl Hr. assert (∀ x, List.filter (λ e : A * B, p e.1 && q e.2) (map (pair x) r) = if p x then [(x, b)] else []) as Hrow.
  { intros x. transitivity (map (pair x) (List.filter (λ y, p x && q y) r)).
    { induction r as [|y r IH] in |- *; [done|]. cbn. destruct (p x && q y); cbn; by rewrite IH. }
    destruct (p x); [|clear Hr; induction r as [|y r IH]; [done|exact IH]].
    change (map (pair x) (List.filter q r) = [(x, b)]). by rewrite Hr. }
  revert a Hl. unfold pairs_of. induction l as [|x l IH]; intros a Hl; [done|].
  cbn in Hl |- *. rewrite List.filter_app, Hrow. destruct (p x) eqn:Hx; [|by apply IH].
  injection Hl as -> Hl. cbn. f_equal. clear -Hl Hrow. induction l as [|x l IH]; [done|].
  cbn in Hl |- *. rewrite List.filter_app, Hrow. destruct (p x); [done|]. by apply IH.
Qed.

(** ** Maps of conditions *)

Definition in_force (V : jsstr → bool) (times : list (jsstr * bool)) : bool :=
  forallb (λ e, Bool.eqb (V e.1) e.2) times.

Lemma set_field_in_force V times k b :
  (∀ c, assoc times k = Some c → c = b) →
  in_force V (set_field times k b) = in_force V times && Bool.eqb (V k) b.
Proof.
  unfold in_force. induction times as [|[k' c] times IH]; intros H; cbn; [by rewrite andb_true_r|].
  cbn in H. destruct (decide (k' = k)) as [->|Hd].
  - rewrite jseq_refl. specialize (H _ eq_refl) as ->. cbn. destruct (Bool.eqb (V k) b); cbn; by rewrite ?andb_true_r, ?andb_false_r.
  - rewrite (proj2 (jseq_neq k' k) Hd). cbn. rewrite IH by done. by rewrite andb_assoc.
Qed.

#[local] Arguments in_force : simpl never.

Lemma in_force_cons V k b es : in_force V ((k, b) :: es) = Bool.eqb (V k) b && in_force V es.
Proof. done. Qed.

Lemma assoc_set_field {A} (l : list (jsstr * A)) k a k' :
  assoc (set_field l k a) k' = if decide (k = k') then Some a else assoc l k'.
Proof.
  induction l as [|[k0 b] l IH]; cbn; [done|]. destruct (jseq k0 k) eqn:E.
  - apply jseq_eq in E as ->. cbn. by case_decide.
  - apply jseq_neq in E. cbn. rewrite IH. repeat case_decide; congruence.
Qed.

(** A map without conflicts with the entries that are added. *)
Lemma fold_fields_in_force V es : ∀ times,
  (∀ k b, (k, b) ∈ es → ∀ c, assoc times k = Some c → c = b) →
  (∀ k b c, (k, b) ∈ es → (k, c) ∈ es → b = c) →
  in_force V (fold_left (λ m e, set_field m e.1 e.2) es times) = in_force V times && in_force V es.
Proof.
  induction es as [|[k b] es IH]; intros times H Hes; [cbn; by rewrite andb_true_r|].
  cbn. rewrite IH.
  - rewrite set_field_in_force by (apply H; set_solver). by rewrite in_force_cons, andb_assoc.
  - intros k' b' Hk' c Hc. rewrite assoc_set_field in Hc. case_decide as Hd.
    + subst k'. injection Hc as <-. apply (Hes k); set_solver.
    + apply (H k' b'); [set_solver|done].
  - intros k' b' c Hb Hc. apply (Hes k'); set_solver.
Qed.

Lemma map_of_in_force V es :
  (∀ k b c, (k, b) ∈ es → (k, c) ∈ es → b = c) → in_force V (map_of es) = in_force V es.
Proof. intros H. unfold map_of. rewrite fold_fields_in_force; [done| |done]. by intros. Qed.

(** ** Conditions *)

Section conditions.
Context (source : jsstr) (schema : BillingUsageSchema) (facts : Facts) (V : jsstr → bool).

Definition truth (c : condition) : bool := match c with Decided b => b | Remains text => V text end.

(** [c] is what a visit of [n] displays. *)
Definition displays (n : node) (c : condition) : Prop :=
  ∃ r r', taskDisplayCondition source schema facts n r = Ok (Some c, r').

(** The connective decides what one of its sides decides. *)
Lemma connect_truth o l r : o = Oand ∨ o = Oor →
  (∃ a b, l = Remains a ∧ r = Remains b) ∨
  truth (connect o l r) = (if bool_decide (o = Oor) then truth l || truth r else truth l && truth r).
Proof.
  intros [-> | ->]; destruct l as [[]|a], r as [[]|b]; cbn; eauto;
    right; by rewrite ?orb_true_r, ?orb_false_r, ?andb_true_r, ?andb_false_r.
Qed.

(** Shapes of the nodes that can be displayed. *)
Lemma displays_inv n c : displays n c →
  match n with
  | ELit _ (LBool b) => c = Decided b
  | EUn _ Unot a => ∃ c', displays a c' ∧ c = negate c'
  | EBin _ (Oand as o) a b | EBin _ (Oor as o) a b =>
      ∃ l r, displays a l ∧ displays b r ∧ c = connect o l r
  | EBin _ _ _ _ => comparison source schema facts n = Ok (Some c)
  | _ => False
  end.
Proof.
  intros (r & r' & H). destruct n as [sp [|?|b|]|?|? ? ?|sp [] a|sp o a b|? ? ? ?]; cbn [taskDisplayCondition] in H;
    destruct (r - 1 <? 0)%Z; try done.
  - by simplify_eq.
  - apply bind_Ok in H as ([[c'|] r1] & Ha & H); [|done]. cbn in H. simplify_eq. exists c'. split; [|done]. by eexists _, _.
  - destruct o.
    1-2: apply bind_Ok in H as ([x r1] & Ha & H); apply bind_Ok in H as ([y r2] & Hb & H);
      destruct x as [x|], y as [y|]; try done; simplify_eq; exists x, y; split; [by eexists _, _|split; [by eexists _, _|done]].
    all: apply bind_Ok in H as (c' & Hc & [= -> _]); exact Hc.
Qed.

(** A comparison is one of facts, which is decided, or one of clock fields. *)
Lemma comparison_inv sp o a b c :
  comparison source schema facts (EBin sp o a b) = Ok (Some c) →
  is_equality o = true ∧ (equality_probe schema facts o a b = Ok (Some (Some c)) ∨
                          equality_probe schema facts o b a = Ok (Some (Some c))) ∨
  time_comparison source (EBin sp o a b) = Ok (Some c).
Proof.
  intros H. cbn [comparison] in H. destruct (is_equality o); [|by right].
  apply bind_Ok in H as ([f|] & Hf & H); [simplify_eq; eauto|].
  apply bind_Ok in H as ([s|] & Hs & H); [simplify_eq; eauto|eauto].
Qed.

Lemma equality_probe_inv o probed lit c :
  equality_probe schema facts o probed lit = Ok (Some (Some c)) →
  ∃ sp sp1 key rest sp2 v f, probed = ECall sp Fu (ELit sp1 (LStr key) :: rest) ∧ lit = ELit sp2 v ∧
    assoc facts key = Some f ∧
    (c = Decided (if decide (o = Oeq) then fact_is f v else negb (fact_is f v)) ∨
     ∃ definition s, assoc schema key = Some definition ∧ f_type definition ≠ Some FBoolean ∧ v = LStr s ∧
       str_in s (default [] (f_enum definition)) = false ∧ c = Decided (bool_decide (o = One))).
Proof.
  unfold equality_probe. intros H. destruct probed as [| |sp [] [|[sp1 [|key| |]| | | | |] rest]| | |]; try done.
  destruct lit as [sp2 v| | | | |]; try done. destruct (assoc facts key) as [f|] eqn:Hf; [|done].
  destruct (assoc schema key) as [definition|] eqn:Hs; [|done].
  exists sp, sp1, key, rest, sp2, v, f. conjs; [done..|].
  destruct (f_type definition) as [[]|] eqn:Ht, v as [| s | |]; simplify_eq; eauto;
    (destruct (str_in s _) eqn:Hin; simplify_eq; [by left|]); right; exists definition, s; conjs; try done; congruence.
Qed.

Lemma time_operand_inv n : time_operand n = Ok true →
  (∃ sp x i, n = ELit sp (LNum x i)) ∨
  ∃ sp f sp1 zone rest, n = ECall sp (Ftime f) (ELit sp1 (LStr zone) :: rest).
Proof.
  destruct n as [sp [x i| | |]| |sp [] [|[sp1 [|zone| |]| | | | |] rest]| | |]; try done; intros; [left|right]; eauto 10.
Qed.

Lemma time_comparison_inv n c : time_comparison source n = Ok (Some c) →
  ∃ sp o a b, n = EBin sp o a b ∧ is_comparison o = true ∧ time_operand a = Ok true ∧ time_operand b = Ok true ∧
    c = Remains (slice source (node_start n) (node_end n)).
Proof.
  destruct n as [| | | |sp o a b|]; try done. cbn [time_comparison].
  destruct (is_comparison o) eqn:Ho; [|done]. destruct (is_call a || is_call b); [|done]. cbn [andb].
  intros H. apply bind_Ok in H as ([] & Ha & H); [|done]. apply bind_Ok in H as ([] & Hb & H); [|done].
  simplify_eq. exists sp, o, a, b. eauto.
Qed.
End conditions.

(** ** Evaluation of conditions *)

Lemma literal_marker_free sp v : marker_free (ELit sp v).
Proof. intros sp1 f args H. inversion H; subst; set_solver. Qed.

Lemma call_marker_free sp f sp1 v : f ≠ Ftier → f ≠ Ffixed → marker_free (ECall sp f [ELit sp1 v]).
Proof.
  intros H1 H2 sp2 g args H. inversion H as [|m c Hc Hm]; subst; [done|].
  cbn in Hc. apply list_elem_of_singleton in Hc as ->. by apply literal_marker_free in Hm.
Qed.

Lemma marker_free_children n :
  (match n with ECall _ _ _ => False | _ => True end) → (∀ c, c ∈ children n → marker_free c) → marker_free n.
Proof.
  intros Hn Hc sp f args H. inversion H as [|m c Hin Hm]; subst; [done|]. by eapply Hc.
Qed.

(** What is displayed contains neither a tier nor a fixed price. *)
Lemma displays_marker_free source schema facts n : arities_ok n → ∀ c,
  displays source schema facts n c → marker_free n.
Proof.
  induction n as [n IH] using node_rec_children. intros Har c Hc. apply displays_inv in Hc.
  assert (∀ m c', m ∈ children n → displays source schema facts m c' → marker_free m) as IH'.
  { intros m c' Hm. rewrite Forall_forall in IH. eapply (IH m Hm). by eapply arities_child. }
  assert (∀ sp f args, ECall sp f args ∈ children n → arity_ok (ECall sp f args)) as Hcalls.
  { intros sp f args Hm. apply Har. econstructor; [done|constructor]. }
  clear IH. destruct n as [| | |sp o a|sp o a b|]; try done.
  - apply literal_marker_free.
  - destruct o; try done. destruct Hc as (c' & Ha & _). apply marker_free_children; [done|].
    intros m Hm. cbn in Hm. apply list_elem_of_singleton in Hm as ->. eapply IH'; [set_solver|done].
  - apply marker_free_children; [done|].
    assert (∀ m, m = a ∨ m = b → marker_free m) as Hm; [|intros m; cbn; set_solver].
    destruct (decide (o = Oand ∨ o = Oor)) as [Hl|Hl].
    { assert (∃ l r, displays source schema facts a l ∧ displays source schema facts b r) as (l & r & Ha & Hb)
        by (destruct o; naive_solver).
      intros m [-> | ->]; [eapply (IH' a)|eapply (IH' b)]; try done; cbn; set_solver. }
    assert (comparison source schema facts (EBin sp o a b) = Ok (Some c)) as Hcmp by (destruct o; tauto).
    assert (∀ n, n ∈ [a; b] → match n with
      | ELit _ _ => True | ECall _ f (ELit _ _ :: _) => f ≠ Ftier ∧ f ≠ Ffixed ∧ (f = Fu ∨ is_time_function f = true)
      | _ => False end) as Hops.
    { apply comparison_inv in Hcmp as [[_ [Hp|Hp]]|Ht].
      1-2: apply equality_probe_inv in Hp as (? & ? & ? & ? & ? & ? & ? & -> & -> & _); intros n; cbn;
        intros [-> | [-> | []%not_elem_of_nil]%elem_of_cons]%elem_of_cons; naive_solver.
      apply time_comparison_inv in Ht as (? & ? & ? & ? & [= <- <- <- <-] & _ & H1 & H2 & _).
      intros n [-> | [-> | []%not_elem_of_nil]%elem_of_cons]%elem_of_cons;
        [apply time_operand_inv in H1|apply time_operand_inv in H2]; naive_solver. }
    intros m Hm. assert (m ∈ [a; b]) as Hin by set_solver. specialize (Hops m Hin).
    destruct m as [| |sp1 f [|[sp2 v| | | | |] rest]| | |]; try done; [apply literal_marker_free|].
    destruct Hops as (H1 & H2 & H3). specialize (Hcalls sp1 f (ELit sp2 v :: rest)).
    assert (rest = []) as ->; [|by apply call_marker_free].
    assert (arity_ok (ECall sp1 f (ELit sp2 v :: rest))) as Hok by (apply Hcalls; cbn; set_solver).
    destruct H3 as [-> | Ht]; [|destruct f; try done]; cbn in Hok; by destruct rest.
Qed.

Definition fact_value (f : fact) : jsval := match f with Choice s => JStr s | Switch b => JBool b end.

(** The usage has the facts, and they are among the values of the schema. *)
Definition has_facts (u : list (jsstr * jsval)) (facts : Facts) : Prop :=
  ∀ key f, assoc facts key = Some f → own u key = Some (fact_value f).
Definition declared (schema : BillingUsageSchema) (facts : Facts) : Prop :=
  ∀ key f, assoc facts key = Some f → ∃ definition, assoc schema key = Some definition ∧ f ∈ fact_values definition.

Lemma fact_is_strict f v : strict_eq (fact_value f) (value (literal_value v)) = fact_is f v.
Proof. by destruct f, v. Qed.

Lemma fact_values_choice definition f :
  f ∈ fact_values definition → f_type definition ≠ Some FBoolean →
  ∃ s, f = Choice s ∧ str_in s (default [] (f_enum definition)) = true.
Proof.
  unfold fact_values. intros H Ht. destruct (f_type definition) as [[]|]; try done;
    apply list_elem_of_fmap in H as (s & -> & Hs); exists s; (split; [done|]);
    apply existsb_exists; exists s; (split; [by apply list_elem_of_In|apply jseq_refl]).
Qed.

Section eval.
Context {host : Host} (source : jsstr) (schema : BillingUsageSchema) (env : renv) (u : list (jsstr * jsval)).
Context (facts : Facts) (V : jsstr → bool).
Hypothesis Hu : usage (context env) = Some u.
Hypothesis Hfacts : has_facts u facts.
Hypothesis Hdeclared : declared schema facts.

(** The displayed conditions of [n] that remain hold as [V] says. *)
Definition told (n : node) : Prop :=
  ∀ m text d st r st', subnode m n → displays source schema facts m (Remains text) → times_ok env st →
    evaluate env d m st = Ok (r, st') → value r = JBool (V text).

Lemma told_child n c : told n → c ∈ children n → told c.
Proof. intros H Hc m text d st r st' Hm. eapply H. by econstructor. Qed.

Lemma equality_values pos o x y r :
  is_equality o = true → binary_values pos o x y = Ok r →
  value r = JBool (if decide (o = Oeq) then strict_eq (value x) (value y) else negb (strict_eq (value x) (value y))).
Proof. intros Ho. destruct o; try done; unfold binary_values; case_match; try done; by intros [= <-]. Qed.

Lemma strict_eq_sym a b : strict_eq a b = strict_eq b a.
Proof.
  destruct a as [| |x|x|x| |], b as [| |y|y|y| |]; try done; cbn.
  - by destruct x, y.
  - apply neqb_sym.
  - apply eq_true_iff_eq. rewrite !jseq_eq. naive_solver.
Qed.

Lemma usage_literal_eval sp sp1 key rest d st r st' :
  evaluate env d (ECall sp Fu (ELit sp1 (LStr key) :: rest)) st = Ok (r, st') →
  st' = st ∧ value r = default JNull (own u key).
Proof using Hu. by eapply usage_field_eval. Qed.

(** A decided test of a fact has the value it was decided to have. *)
Lemma fact_test_value pos o key f v c x y r :
  is_equality o = true → assoc facts key = Some f →
  (c = Decided (if decide (o = Oeq) then fact_is f v else negb (fact_is f v)) ∨
   ∃ definition s, assoc schema key = Some definition ∧ f_type definition ≠ Some FBoolean ∧ v = LStr s ∧
     str_in s (default [] (f_enum definition)) = false ∧ c = Decided (bool_decide (o = One))) →
  value x = default JNull (own u key) → y = literal_value v →
  binary_values pos o x y = Ok r ∨ binary_values pos o y x = Ok r →
  value r = JBool (truth V c).
Proof using Hfacts Hdeclared.
  intros Ho Hf Hc Hx -> Hr. pose proof (Hfacts _ _ Hf) as Hown. rewrite Hown in Hx. cbn in Hx.
  assert (value r = JBool (if decide (o = Oeq) then fact_is f v else negb (fact_is f v))) as ->.
  { destruct Hr as [Hr|Hr]; apply equality_values in Hr as ->; try done; rewrite Hx;
      rewrite ?(strict_eq_sym (value (literal_value v))), fact_is_strict; done. }
  destruct Hc as [-> | (def & s & Hs & Ht & -> & Hin & ->)]; [done|].
  destruct (Hdeclared _ _ Hf) as (def' & Hs' & Hv). rewrite Hs in Hs'. injection Hs' as <-.
  destruct (fact_values_choice _ _ Hv Ht) as (s' & -> & Hin'). cbn.
  destruct (jseq s' s) eqn:E; [apply jseq_eq in E; congruence|]. destruct o; done.
Qed.

Lemma evaluate_logic sp o a b d st r st' :
  o = Oand ∨ o = Oor → evaluate env d (EBin sp o a b) st = Ok (r, st') →
  ∃ x i st1, evaluate env (S d) a st = Ok (RV (JBool x) i, st1) ∧
    (x = bool_decide (o = Oor) ∧ value r = JBool x ∨
     x = negb (bool_decide (o = Oor)) ∧ ∃ y j st2, evaluate env (S d) b st1 = Ok (RV (JBool y) j, st2) ∧ value r = JBool y).
Proof.
  intros Ho H. apply evaluate_inv in H as (_ & H & _).
  assert (∀ k : bool * rstate → result exn (RuntimeValue * rstate),
    (evaluate env (S d) a st ≫= as_boolean a) ≫= k = Ok (r, st') →
    ∃ x i st1, evaluate env (S d) a st = Ok (RV (JBool x) i, st1) ∧ k (x, st1) = Ok (r, st')) as Hside.
  { intros k Hk. apply bind_Ok in Hk as ([x s] & Hx & Hk). apply bind_Ok in Hx as ([r1 s1] & Hx & Hb).
    apply as_boolean_Ok in Hb as [i [= -> ->]]. eauto. }
  destruct Ho as [-> | ->]; cbn -[evaluate] in H; apply Hside in H as (x & i & st1 & Hx & H);
    exists x, i, st1; (split; [done|]); destruct x; cbn;
    try (left; split; [done|]; by injection H as <- _); right; (split; [done|]);
    apply bind_Ok in H as ([y s] & Hy & [= <- <-]); apply bind_Ok in Hy as ([r1 s1] & Hy & Hb);
    apply as_boolean_Ok in Hb as [j [= -> ->]]; eauto 10.
Qed.

Lemma condition_eval n : told n → ∀ c d st r st',
  displays source schema facts n c → times_ok env st → evaluate env d n st = Ok (r, st') → value r = JBool (truth V c).
Proof using Hu Hfacts Hdeclared.
  induction n as [n IH] using node_rec_children. intros Ht c d st r st' Hc Hok H.
  destruct c as [b|text]; [|by eapply Ht; [constructor| | |]].
  apply displays_inv in Hc as Hi. destruct n as [sp [| |b'|]| | |sp o a|sp o a b2|]; try done.
  - injection Hi as ->. by apply evaluate_lit in H as [-> _].
  - destruct o; try done. destruct Hi as (c' & Ha & Hn). apply Forall_cons in IH as [IHa _].
    apply evaluate_inv in H as (_ & H & _). cbn in H. apply bind_Ok in H as ([x s] & Hx & [= <- <-]).
    apply bind_Ok in Hx as ([r1 s1] & Hx & Hb). apply as_boolean_Ok in Hb as [i [= -> ->]].
    eapply IHa in Hx; [|eapply told_child; [done|set_solver]|done|done].
    destruct c' as [b'|]; [|done]. injection Hn as ->. cbn in Hx. by injection Hx as ->.
  - destruct (decide (o = Oand ∨ o = Oor)) as [Hl|Hl].
    + assert (∃ l r, displays source schema facts a l ∧ displays source schema facts b2 r ∧ Decided b = connect o l r)
        as (l & r2 & Hdl & Hdr & Heq) by (destruct o; naive_solver).
      destruct (connect_truth V o l r2 Hl) as [(t1 & t2 & -> & ->)|Htr]; [by destruct Hl as [-> | ->]|].
      rewrite <- Heq in Htr. rewrite Htr. apply Forall_cons in IH as [IHa IH]. apply Forall_cons in IH as [IHb _].
      apply evaluate_logic in H as (x & i & st1 & Hx & H); [|done].
      pose proof (evaluate_times _ _ _ _ _ _ Hok Hx) as Hok1.
      eapply IHa in Hx; [|eapply told_child; [done|set_solver]|done|done]. injection Hx as ->.
      destruct H as [[Hs ->]|[Hs (y & j & st2 & Hy & ->)]]; f_equal.
      * destruct (bool_decide (o = Oor)), (truth V l); try done.
      * eapply IHb in Hy; [|eapply told_child; [done|set_solver]|done|done]. injection Hy as ->.
        destruct (bool_decide (o = Oor)), (truth V l); try done.
    + assert (comparison source schema facts (EBin sp o a b2) = Ok (Some (Decided b))) as Hcmp by (destruct o; tauto).
      apply comparison_inv in Hcmp as [[Ho Hp]|Htc];
        [|apply time_comparison_inv in Htc as (? & ? & ? & ? & _ & _ & _ & _ & [=])].
      apply evaluate_binary in H as (x & y & s1 & Hx & Hy & H); [|tauto..].
      destruct Hp as [Hp|Hp]; apply equality_probe_inv in Hp
        as (sp1 & sp2 & key & rest & sp3 & v & f & -> & -> & Hf & Hcase).
      * apply usage_literal_eval in Hx as [-> Hx]. apply evaluate_lit in Hy as [-> ->].
        eapply fact_test_value; eauto.
      * apply usage_literal_eval in Hy as [-> Hy]. apply evaluate_lit in Hx as [-> ->].
        eapply fact_test_value; eauto.
Qed.
End eval.

(** ** Branches *)

Definition consistent (es : list (jsstr * bool)) : Prop := ∀ k b c, (k, b) ∈ es → (k, c) ∈ es → b = c.

Lemma elem_of_set_field {A} (l : list (jsstr * A)) k a e : e ∈ set_field l k a → e = (k, a) ∨ e ∈ l.
Proof.
  induction l as [|[k' b] l IH]; cbn; [set_solver|]. destruct (jseq k' k) eqn:E; [apply jseq_eq in E as ->|]; set_solver.
Qed.

Lemma elem_of_map_of es e : e ∈ map_of es → e ∈ es.
Proof.
  assert (∀ times, e ∈ fold_left (λ m e, set_field m e.1 e.2) es times → e ∈ times ∨ e ∈ es) as H.
  { induction es as [|[k b] es IH]; intros times He; [by left|]. apply IH in He as [He|He]; [|set_solver].
    apply elem_of_set_field in He as [-> | He]; set_solver. }
  intros He. apply H in He as [[]%not_elem_of_nil|He]; done.
Qed.

Lemma consistent_map_of es : consistent es → consistent (map_of es).
Proof. intros H k b c Hb Hc. apply elem_of_map_of in Hb, Hc. by eapply H. Qed.

Lemma assoc_in {A} (l : list (jsstr * A)) k a : (k, a) ∈ l → ∃ b, assoc l k = Some b.
Proof.
  induction l as [|[k' b] l IH]; [set_solver|]. cbn. case_decide as E; [eauto|].
  intros [[= -> ->]|H]%elem_of_cons; [done|]. by apply IH.
Qed.

(** Entries that do not conflict with a consistent map are consistent with it. *)
Lemma no_conflict_agrees times k b c :
  consistent times → conflicts times (k, b) = false → (k, c) ∈ times → c = b.
Proof.
  intros Ht Hc Hk. unfold conflicts in Hc. cbn in Hc. destruct (assoc_in _ _ _ Hk) as (v & Hv).
  rewrite Hv in Hc. apply assoc_elem in Hv. rewrite (Ht _ _ _ Hk Hv). by destruct v, b.
Qed.

Lemma conflict_not_in_force V times e :
  conflicts times e = true → in_force V times && Bool.eqb (V e.1) e.2 = false.
Proof.
  destruct e as [k b]. unfold conflicts. cbn. destruct (assoc times k) as [v|] eqn:Hv; [|done]. intros H.
  apply assoc_elem in Hv. destruct (in_force V times) eqn:Hf; [|done]. cbn.
  unfold in_force in Hf. rewrite forallb_forall in Hf.
  specialize (Hf _ (proj1 (list_elem_of_In _ _) Hv)). cbn in Hf. by destruct (V k), v, b.
Qed.

Lemma in_force_app V a b : in_force V (a ++ b) = in_force V a && in_force V b.
Proof. apply forallb_app. Qed.

(** Maps are merged when no entry of the one conflicts with the other. *)
Lemma merge_consistent a b :
  consistent a → consistent b → existsb (conflicts b) a = false → consistent (a ++ b).
Proof.
  intros Ha Hb H. assert (∀ k v w, (k, v) ∈ a → (k, w) ∈ b → w = v) as Hab.
  { intros k v w Hk Hw. eapply no_conflict_agrees; [done| |done].
    destruct (conflicts b (k, v)) eqn:E; [|done]. exfalso. apply not_true_iff_false in H. apply H.
    apply existsb_exists. exists (k, v). split; [by apply list_elem_of_In|done]. }
  intros k v w [Hv|Hv]%elem_of_app [Hw|Hw]%elem_of_app; [by eapply Ha|symmetry; eauto|eauto|by eapply Hb].
Qed.

Lemma merge_in_force V a b :
  existsb (conflicts b) a = true → in_force V a && in_force V b = false.
Proof.
  intros H. apply existsb_exists in H as (e & He & Hc). apply (conflict_not_in_force V) in Hc.
  destruct (in_force V a) eqn:Ha; [|done]. unfold in_force in Ha. rewrite forallb_forall in Ha.
  specialize (Ha e He). cbn in Ha. rewrite Ha, andb_true_r in Hc. done.
Qed.

Section branches.
Context {T : Type} `{!Arithmetic T} (source : jsstr) (schema : BillingUsageSchema) (facts : Facts).

Definition branches_of (n : node) (bs : list (PriceBranch T)) : Prop :=
  ∃ r r', taskPriceBranches source schema facts n r = Ok (Some bs, r').

Lemma branches_inv n bs : branches_of n bs →
  match n with
  | ELit _ (LNum x _) => ngeb x NZERO = true ∧ bs = [constant_branch (of_num x)]
  | ECall _ Fu (ELit _ (LStr field) :: _) => measured schema field = true ∧ bs = [field_branch field]
  | ECall _ Ftier (ELit _ (LStr label) :: body :: _) =>
      ∃ bs', branches_of body bs' ∧ existsb has_label bs' = false ∧ bs = map (labelled label) bs'
  | ECond _ c yes no =>
      ∃ shown, displays source schema facts c shown ∧
        match shown with
        | Decided b => branches_of (if b then yes else no) bs
        | Remains text =>
            ∃ ys ns, branches_of yes ys ∧ branches_of no ns ∧ bs = side text true ys ++ side text false ns
        end
  | EBin _ o a b =>
      is_amount_operator o = true ∧
      ∃ l r, branches_of a l ∧ branches_of b r ∧ combine_all o (pairs_of l r) = Some bs
  | _ => False
  end.
Proof.
  intros (r & r' & H).
  destruct n as [sp [x i| | |]| |sp [] [|[sp1 [|s| |]| | | | |] [|body rest]]| |sp o a b|sp c yes no];
    cbn [taskPriceBranches] in H; destruct (r - 1 <? 0)%Z; try done.
  - destruct (ngeb x NZERO); by simplify_eq.
  - by destruct (_ <? 0)%Z.
  - apply bind_Ok in H as ([[bs'|] r1] & Hb & H); [|done]. destruct (existsb has_label bs') eqn:El; [done|].
    simplify_eq. exists bs'. split; [by eexists _, _|done].
  - destruct (measured schema s); by simplify_eq.
  - destruct (measured schema s); by simplify_eq.
  - destruct (is_amount_operator o); [|done]. split; [done|].
    apply bind_Ok in H as ([[l|] r1] & Ha & H); apply bind_Ok in H as ([[l'|] r2] & Hb & H); try done.
    destruct (_ <? _); [done|]. injection H as H _. exists l, l'. split; [by eexists _, _|]. split; [by eexists _, _|done].
  - apply bind_Ok in H as ([[[b|text]|] r1] & Hc & H); [| |done].
    + exists (Decided b). split; [by eexists _, _|]. destruct b; by eexists _, _.
    + exists (Remains text). split; [by eexists _, _|].
      apply bind_Ok in H as ([[ys|] r2] & Hy & H); [|done]. apply bind_Ok in H as ([[ns|] r3] & Hn & H); [|done].
      destruct (_ <=? _); [|done]. simplify_eq. exists ys, ns. split; [by eexists _, _|]. split; [by eexists _, _|done].
Qed.

Lemma combine_times o (a b : PriceBranch T) x :
  combine_branches o a b = Some x →
  (b_label a = None ∨ b_label b = None) ∧
  (existsb (conflicts (b_times b)) (b_times a) = true ∧ x = None ∨
   existsb (conflicts (b_times b)) (b_times a) = false ∧
   ∃ constant prices, amount_of o a b = Some (constant, prices) ∧ forallb good_amount (constant :: prices.*2) = true ∧
     x = Some {| b_label := match b_label a with Some l => Some l | None => b_label b end;
                 b_constant := constant; b_prices := prices; b_times := map_of (b_times a ++ b_times b) |}).
Proof.
  unfold combine_branches. intros H. split; [destruct (b_label a), (b_label b); auto; done|].
  assert ((if existsb (conflicts (b_times b)) (b_times a) then Some None else
    match amount_of o a b with
    | None => None
    | Some (constant, prices) =>
        if forallb good_amount (constant :: prices.*2) then
          Some (Some {| b_label := match b_label a with Some l => Some l | None => b_label b end;
                        b_constant := constant; b_prices := prices; b_times := map_of (b_times a ++ b_times b) |})
        else None end) = Some x) as H' by (destruct (b_label a), (b_label b); done).
  clear H. destruct (existsb _ _); [left; by simplify_eq|]. right. split; [done|].
  destruct (amount_of o a b) as [[constant prices]|]; [|done]. exists constant, prices.
  destruct (forallb good_amount _); [|done]. by simplify_eq.
Qed.

Lemma combine_all_elem o pairs : ∀ bs, combine_all o pairs = Some bs →
  ∀ c, c ∈ bs ↔ ∃ a b, (a, b) ∈ pairs ∧ combine_branches o a b = Some (Some c).
Proof.
  induction pairs as [|[a b] pairs IH]; intros bs H c; cbn in H; [simplify_eq; set_solver|].
  destruct (combine_branches o a b) as [x|] eqn:E; [|done].
  destruct (combine_all o pairs) as [rest|]; [|done]. cbn in H. injection H as <-.
  rewrite elem_of_app, (IH _ eq_refl). destruct x; cbn; set_solver.
Qed.

Lemma side_elem text matches (bs : list (PriceBranch T)) c : c ∈ side text matches bs →
  ∃ b, b ∈ bs ∧ conflicts (b_times b) (text, matches) = false ∧ c = timed text matches b.
Proof.
  unfold side. intros (b & -> & Hb)%list_elem_of_fmap. exists b.
  apply list_elem_of_In, filter_In in Hb as [Hb Hc]. apply negb_true_iff in Hc.
  split; [by apply list_elem_of_In|done].
Qed.

Lemma timed_consistent text matches times :
  consistent times → conflicts times (text, matches) = false → consistent ((text, matches) :: times).
Proof.
  intros Ht Hc. apply (merge_consistent [(text, matches)]); [|done|cbn; by rewrite Hc].
  intros k b c. set_solver.
Qed.

Lemma branches_consistent n : ∀ bs, branches_of n bs → ∀ b, b ∈ bs → consistent (b_times b).
Proof.
  induction n as [n IH] using node_rec_children. intros bs H b Hb. apply branches_inv in H.
  rewrite Forall_forall in IH.
  destruct n as [sp [x i| | |]| |sp [] [|[sp1 [|s| |]| | | | |] [|body rest]]| |sp o l r|sp c yes no]; try done.
  - destruct H as [_ ->]. apply list_elem_of_singleton in Hb as ->. intros k x1 x2 []%not_elem_of_nil.
  - destruct H as (bs' & Hbody & _ & ->). apply list_elem_of_fmap in Hb as (b' & -> & Hb').
    exact (IH body ltac:(cbn; set_solver) _ Hbody _ Hb').
  - destruct H as [_ ->]. apply list_elem_of_singleton in Hb as ->. intros k x1 x2 []%not_elem_of_nil.
  - destruct H as [_ ->]. apply list_elem_of_singleton in Hb as ->. intros k x1 x2 []%not_elem_of_nil.
  - destruct H as (_ & bl & br & Hl & Hr & Hc). apply (combine_all_elem _ _ _ Hc) in Hb as (a' & b' & Hin & Hb).
    apply combine_times in Hb as [_ [[_ [=]]|(Hno & constant & prices & _ & _ & [= ->])]]. cbn.
    unfold pairs_of in Hin. apply list_elem_of_In, in_flat_map in Hin as (a0 & Ha & Hin%list_elem_of_In).
    apply list_elem_of_fmap in Hin as (b0 & [= -> ->] & Hb0). apply consistent_map_of, merge_consistent; [| |done].
    + eapply (IH l); [cbn; set_solver|done|by apply list_elem_of_In].
    + eapply (IH r); [cbn; set_solver|done|done].
  - destruct H as ([v|text] & _ & H); [destruct v; [eapply (IH yes)|eapply (IH no)]; try done; cbn; set_solver|].
    destruct H as (ys & ns & Hy & Hn & ->). apply elem_of_app in Hb as [Hb|Hb];
      apply side_elem in Hb as (b' & Hb' & Hno & ->); cbn [timed b_times]; apply consistent_map_of, timed_consistent; try done;
      [eapply (IH yes)|eapply (IH no)]; try done; cbn; set_solver.
Qed.

(** Of all pairs only the pair of branches in force gives one in force. *)
Lemma combine_in_force V o pairs : ∀ bs,
  (∀ e, e ∈ pairs → consistent (b_times e.1) ∧ consistent (b_times e.2)) → combine_all o pairs = Some bs →
  List.filter (λ b, in_force V (b_times b)) bs =
  omap (λ e, mjoin (combine_branches o e.1 e.2))
    (List.filter (λ e, in_force V (b_times e.1) && in_force V (b_times e.2)) pairs).
Proof.
  induction pairs as [|[a b] pairs IH]; intros bs Hc H; cbn in H; [by simplify_eq|].
  destruct (combine_branches o a b) as [x|] eqn:E; [|done].
  destruct (combine_all o pairs) as [rest|]; [|done]. injection H as <-.
  rewrite List.filter_app, (IH rest) by (done || intros; apply Hc; set_solver). cbn.
  destruct (Hc (a, b) ltac:(set_solver)) as [Ha Hb]. cbn in Ha, Hb.
  apply combine_times in E as Et. destruct Et as [_ [[Hx ->]|(Hx & constant & prices & _ & _ & ->)]].
  - by rewrite (merge_in_force V _ _ Hx).
  - cbn -[map_of]. rewrite map_of_in_force by (by apply merge_consistent). rewrite in_force_app.
    destruct (in_force V (b_times a) && in_force V (b_times b)); [|done]. cbn. by rewrite E.
Qed.

Lemma side_in_force V text matches (bs : list (PriceBranch T)) :
  (∀ b, b ∈ bs → consistent (b_times b)) →
  List.filter (λ b, in_force V (b_times b)) (side text matches bs) =
  if Bool.eqb (V text) matches then map (timed text matches) (List.filter (λ b, in_force V (b_times b)) bs) else [].
Proof.
  induction bs as [|b bs IH]; intros Hc; [by destruct (Bool.eqb _ _)|]. unfold side in *. cbn [List.filter].
  destruct (conflicts (b_times b) (text, matches)) eqn:E; cbn [negb map List.filter]; rewrite IH by set_solver.
  - apply (conflict_not_in_force V) in E. cbn in E. destruct (Bool.eqb (V text) matches); [|done].
    rewrite andb_true_r in E. by rewrite E.
  - cbn [timed b_times]. rewrite map_of_in_force by (apply timed_consistent; [apply Hc; set_solver|done]).
    rewrite in_force_cons. destruct (Bool.eqb (V text) matches); [|done]. cbn [andb]. by destruct (in_force V (b_times b)).
Qed.

Lemma combine_all_Some o pairs a b : ∀ bs, combine_all o pairs = Some bs → (a, b) ∈ pairs →
  ∃ x, combine_branches o a b = Some x.
Proof.
  induction pairs as [|[a' b'] pairs IH]; intros bs H Hin; [set_solver|]. cbn in H.
  destruct (combine_branches o a' b') as [x|] eqn:E; [|done].
  apply elem_of_cons in Hin as [[= -> ->]|Hin]; [eauto|].
  destruct (combine_all o pairs) as [rest|]; [|done]. by eapply IH.
Qed.

Lemma elem_of_pairs {A B} (l : list A) (r : list B) a b : (a, b) ∈ pairs_of l r → a ∈ l ∧ b ∈ r.
Proof.
  unfold pairs_of. intros (a0 & Ha & Hin%list_elem_of_In)%list_elem_of_In%in_flat_map.
  apply list_elem_of_fmap in Hin as (b0 & [= -> ->] & Hb). by apply list_elem_of_In in Ha.
Qed.

Lemma combine_forced V o l r bs a b :
  (∀ c, c ∈ l → consistent (b_times c)) → (∀ c, c ∈ r → consistent (b_times c)) →
  combine_all o (pairs_of l r) = Some bs →
  List.filter (λ b, in_force V (b_times b)) l = [a] → List.filter (λ b, in_force V (b_times b)) r = [b] →
  ∃ c, combine_branches o a b = Some (Some c) ∧ List.filter (λ b, in_force V (b_times b)) bs = [c].
Proof.
  intros Cl Cr Hc Hl Hr. pose proof (filter_pairs _ _ _ _ _ _ Hl Hr) as Hp. cbn beta in Hp.
  assert (In (a, b) (List.filter (λ e, in_force V (b_times e.1) && in_force V (b_times e.2)) (pairs_of l r))) as Hi
    by (rewrite Hp; by left).
  apply filter_In in Hi as [Hin%list_elem_of_In Hboth]. cbn in Hboth.
  destruct (combine_all_Some _ _ _ _ _ Hc Hin) as ([c|] & E).
  - exists c. split; [done|]. rewrite (combine_in_force V o (pairs_of l r) bs), Hp; [cbn; by rewrite E| |done].
    intros [c1 c2] [H1 H2]%elem_of_pairs. auto.
  - apply combine_times in E as [_ [[Hx _]|(_ & ? & ? & _ & _ & [=])]]. apply (merge_in_force V) in Hx. congruence.
Qed.
End branches.

(** ** The settled branch *)

Section settled.
Context {host : Host} {T : Type} `{!Arithmetic T}.
Context (source : jsstr) (schema : BillingUsageSchema) (env : renv) (u : list (jsstr * jsval)).
Context (facts : Facts) (V : jsstr → bool).
Hypothesis Hu : usage (context env) = Some u.
Hypothesis Hfacts : has_facts u facts.
Hypothesis Hdeclared : declared schema facts.

Definition settles (b : PriceBranch T) (st st' : rstate) : Prop :=
  billingUnit st' = billingUnit st ∧ matchedTier st' = default (matchedTier st) (b_label b).

Abbreviation forced bs := (List.filter (λ b : PriceBranch T, in_force V (b_times b)) bs).

Lemma trace_rule_kept n b st :
  billingUnit (trace_rule env n b st) = billingUnit st ∧ matchedTier (trace_rule env n b st) = matchedTier st.
Proof. unfold trace_rule. by destruct (find_index _ _), b. Qed.

Lemma forced_map (f : PriceBranch T → PriceBranch T) bs :
  (∀ b, b_times (f b) = b_times b) → forced (map f bs) = map f (forced bs).
Proof. intros H. induction bs as [|b bs IH]; [done|]. cbn. rewrite H, IH. by destruct (in_force V (b_times b)). Qed.

Lemma settles_combine o a b c st st1 st2 :
  combine_branches o a b = Some (Some c) → settles a st st1 → settles b st1 st2 → settles c st st2.
Proof.
  intros H [Ua Ma] [Ub Mb]. apply combine_times in H as [Hl [[_ [=]]|(_ & constant & prices & _ & _ & [= ->])]].
  split; [congruence|]. cbn. rewrite Mb, Ma. by destruct (b_label a), (b_label b), Hl.
Qed.

Lemma branches_eval n : arities_ok n → told source schema env facts V n → ∀ bs d st r st',
  branches_of source schema facts n bs → times_ok env st → evaluate env d n st = Ok (r, st') →
  ∃ b, forced bs = [b] ∧ settles b st st'.
Proof using Hu Hfacts Hdeclared.
  induction n as [n IH] using node_rec_children. intros Har Ht bs d st r st' Hb Hok H.
  assert (∀ m, m ∈ children n → ∀ bs d st r st', branches_of source schema facts m bs →
    times_ok env st → evaluate env d m st = Ok (r, st') → ∃ b, forced bs = [b] ∧ settles b st st') as IH'.
  { intros m Hm. rewrite Forall_forall in IH. apply (IH m Hm); [by eapply arities_child|by eapply told_child]. }
  clear IH. apply branches_inv in Hb as Hi.
  destruct n as [sp [x i| | |]| |sp [] [|[sp1 [|s| |]| | | | |] rest]| |sp o l r0|sp c yes no]; try done.
  - destruct Hi as [_ ->]. apply evaluate_lit in H as [_ ->]. by eexists.
  - destruct rest as [|body rest]; [done|]. destruct Hi as (bs' & Hbody & Hl & ->).
    apply evaluate_tier in H as (l & b & rest' & name & x & i & j & s1 & s2 & [= <- <- <-] & Hn & Hx & -> & ->).
    apply evaluate_lit in Hn as [[= -> ->] ->].
    destruct (IH' body ltac:(cbn; set_solver) _ _ _ _ _ Hbody Hok Hx) as (b & Hf & Hs).
    exists (labelled s b). rewrite forced_map, Hf by done. split; [done|]. destruct Hs as [Hs _]. done.
  - destruct Hi as [_ ->]. apply (usage_literal_eval env u Hu) in H as [-> _]. by eexists.
  - destruct Hi as (Ho & bl & br & Hl & Hr & Hc).
    apply evaluate_binary in H as (x & y & st1 & Hx & Hy & _); [|by intros ->..].
    destruct (IH' l ltac:(cbn; set_solver) _ _ _ _ _ Hl Hok Hx) as (a & Hfa & Hsa).
    destruct (IH' r0 ltac:(cbn; set_solver) _ _ _ _ _ Hr (evaluate_times _ _ _ _ _ _ Hok Hx) Hy) as (b & Hfb & Hsb).
    destruct (combine_forced V o bl br bs a b) as (c & Hcomb & Hf); 
      [exact (branches_consistent source schema facts l _ Hl)|exact (branches_consistent source schema facts r0 _ Hr)|done..|].
    exists c. split; [done|]. by eapply settles_combine.
  - destruct Hi as (shown & Hshown & Hi). apply evaluate_cond in H as (b & i & st1 & Hb1 & H).
    assert (Ec : b = truth V shown).
    { eapply condition_eval in Hb1; [by injection Hb1|done|done|done|eapply told_child; [done|cbn; set_solver]|done|done]. }
    pose proof (evaluate_times _ _ _ _ _ _ Hok Hb1) as Hok1.
    assert (marker_free c) as Hm by (eapply displays_marker_free; [eapply arities_child; [done|cbn; set_solver]|done]).
    apply evaluate_marker_free in Hb1 as (Hm1 & Hu1 & _); [|done].
    destruct (trace_rule_kept (ECond sp c yes no) b st1) as [Hu2 Hm2].
    assert (∀ b', settles b' (trace_rule env (ECond sp c yes no) b st1) st' → settles b' st st') as Hpre.
    { intros b' [H1 H2]. split; [congruence|]. rewrite H2, Hm2, Hm1. done. }
    assert (∀ bs', branches_of source schema facts (if b then yes else no) bs' →
      ∃ b', forced bs' = [b'] ∧ settles b' st st') as Hside.
    { intros bs' Hbs'. destruct (IH' (if b then yes else no) ltac:(destruct b; cbn; set_solver) _ _ _ _ _ Hbs' (trace_rule_times _ _ _ _ Hok1) H) as (b' & H1 & H2). eauto. }
    destruct shown as [v|text]; cbn in Ec; subst b; [by apply Hside|].
    destruct Hi as (ys & ns & Hy & Hn & ->). rewrite List.filter_app.
    rewrite (side_in_force V _ _ ys), (side_in_force V _ _ ns)
      by first [exact (branches_consistent source schema facts _ _ Hy)|exact (branches_consistent source schema facts _ _ Hn)].
    destruct (V text); cbn; rewrite ?app_nil_r.
    + destruct (Hside _ Hy) as (b' & -> & Hs). by eexists.
    + destruct (Hside _ Hn) as (b' & -> & Hs). by eexists.
Qed.
End settled.

(** ** The combination of a usage *)

Definition fact_matches (u : list (jsstr * jsval)) (e : jsstr * fact) : bool :=
  match own u e.1, e.2 with
  | Some (JStr s), Choice t => jseq s t
  | Some (JBool b), Switch c => Bool.eqb b c
  | _, _ => false
  end.

Lemma fact_matches_own u k f : fact_matches u (k, f) = true ↔ own u k = Some (fact_value f).
Proof.
  unfold fact_matches. cbn. destruct (own u k) as [[]|], f; cbn; try (split; [done|congruence]).
  - rewrite eqb_true_iff. naive_solver.
  - rewrite jseq_eq. naive_solver.
Qed.

(** The facts that the usage has for the categorical fields among [fields]. *)
Fixpoint facts_in (schema : BillingUsageSchema) (fields : list jsstr) (u : list (jsstr * jsval)) : option Facts :=
  match fields with
  | [] => Some []
  | field :: fields =>
      definition ← assoc schema field;
      rest ← facts_in schema fields u;
      if is_number definition then Some rest
      else f ← List.find (λ f, fact_matches u (field, f)) (fact_values definition); Some ((field, f) :: rest)
  end.

(** The facts of the fields an expression reads. *)
Definition usage_facts (schema : BillingUsageSchema) (ast : node) (u : list (jsstr * jsval)) : option Facts :=
  match visitExpression (usage_visitor schema) ast ([], true) with
  | Ok (fields, _) => facts_in schema fields u
  | Err _ => None
  end.

(** No enumeration of the schema lists a value twice. *)
Definition distinct_values (schema : BillingUsageSchema) : bool :=
  forallb (λ e, bool_decide (NoDup (default [] (f_enum e.2)))) schema.

Lemma fact_values_distinct schema field definition :
  distinct_values schema = true → assoc schema field = Some definition → NoDup (fact_values definition).
Proof.
  intros H Hd. apply assoc_elem in Hd. unfold distinct_values in H. rewrite forallb_forall in H.
  specialize (H _ (proj1 (list_elem_of_In _ _) Hd)). apply bool_decide_eq_true in H. cbn in H.
  assert (NoDup (map Choice (default [] (f_enum definition)))) by (apply NoDup_fmap_2; [intros ?? [= ->]; done|done]).
  unfold fact_values. destruct (f_type definition) as [[]|]; try done.
  apply NoDup_cons. split; [set_solver|apply NoDup_singleton].
Qed.

Lemma facts_in_spec schema fields u : ∀ facts, facts_in schema fields u = Some facts →
  ∀ k f, (k, f) ∈ facts → own u k = Some (fact_value f) ∧ ∃ definition, assoc schema k = Some definition ∧ f ∈ fact_values definition.
Proof.
  induction fields as [|field fields IH]; intros facts H k f Hin; cbn in H; [simplify_eq; set_solver|].
  destruct (assoc schema field) as [definition|] eqn:Hd; [|done].
  destruct (facts_in schema fields u) as [rest|]; [|done]. cbn in H.
  destruct (is_number definition); [simplify_eq; by eapply IH|].
  destruct (List.find _ _) as [f0|] eqn:Hf; [|done]. cbn in H. injection H as <-.
  apply elem_of_cons in Hin as [[= -> ->]|Hin]; [|by eapply IH].
  apply find_some in Hf as [Hf Hm]. apply fact_matches_own in Hm. split; [done|]. exists definition. by apply list_elem_of_In in Hf.
Qed.

Lemma facts_in_has schema fields u facts :
  facts_in schema fields u = Some facts → has_facts u facts ∧ declared schema facts.
Proof.
  intros H. split; intros k f Hk; apply assoc_elem in Hk; by apply (facts_in_spec _ _ _ _ H) in Hk as [H1 H2].
Qed.

Definition matches_usage (u : list (jsstr * jsval)) (facts : Facts) : bool := forallb (fact_matches u) facts.

#[local] Arguments matches_usage : simpl never.
Lemma matches_usage_snoc u facts e : matches_usage u (facts ++ [e]) = matches_usage u facts && fact_matches u e.
Proof. unfold matches_usage. rewrite forallb_app. cbn. by rewrite andb_true_r. Qed.

Lemma find_distinct {A} (p : A → bool) l x :
  NoDup l → List.find p l = Some x → (∀ y, p y = true → y = x) → List.filter p l = [x].
Proof.
  intros Hn Hf Hu. induction l as [|y l IH]; [done|]. apply NoDup_cons in Hn as [Hy Hn]. cbn in *.
  destruct (p y) eqn:E; [|by apply IH]. injection Hf as ->. f_equal. apply filter_none.
  apply Forall_forall. intros z Hz. destruct (p z) eqn:Ez; [|done]. apply Hu in Ez as ->. done.
Qed.

Lemma fact_matches_unique u k f g : fact_matches u (k, f) = true → fact_matches u (k, g) = true → g = f.
Proof. rewrite !fact_matches_own. intros -> [= H]. destruct f, g; naive_solver. Qed.

(** Exactly one combination is that of the usage. *)
Lemma one_combination schema u fields : distinct_values schema = true → ∀ combinations out facts base,
  facts_in schema fields u = Some facts → List.filter (matches_usage u) combinations = [base] →
  fact_combinations schema fields combinations = Some out → List.filter (matches_usage u) out = [base ++ facts].
Proof.
  intros Hd. induction fields as [|field fields IH]; intros combinations out facts base Hf Hb H; cbn in Hf, H.
  { simplify_eq. by rewrite app_nil_r. }
  destruct (assoc schema field) as [definition|] eqn:Ha; [|done].
  destruct (facts_in schema fields u) as [rest|]; [|done]. cbn in Hf.
  destruct (is_number definition); [simplify_eq; by eapply IH|].
  destruct (List.find _ _) as [f|] eqn:Hfind; [|done]. cbn in Hf. injection Hf as <-. destruct (_ || _); [done|].
  replace (base ++ (field, f) :: rest) with ((base ++ [(field, f)]) ++ rest) by (by rewrite <- app_assoc).
  eapply IH; [done| |exact H].
  assert (List.filter (λ f, fact_matches u (field, f)) (fact_values definition) = [f]) as Hv.
  { apply find_distinct; [by eapply fact_values_distinct|done|]. intros g Hg. apply find_some in Hfind as [_ Hm].
    by eapply fact_matches_unique. }
  assert (∀ facts, List.filter (matches_usage u) (map (λ v, facts ++ [(field, v)]) (fact_values definition)) =
    if matches_usage u facts then [facts ++ [(field, f)]] else []) as Hrow.
  { intros facts. transitivity (map (λ v, facts ++ [(field, v)])
      (List.filter (λ v, matches_usage u facts && fact_matches u (field, v)) (fact_values definition))).
    - induction (fact_values definition) as [|v vs IHv] in |- *; [done|]. cbn. rewrite matches_usage_snoc, IHv.
      by destruct (matches_usage u facts && _).
    - destruct (matches_usage u facts); cbn; [|clear; by induction (fact_values definition)].
      change (map (λ v, facts ++ [(field, v)]) (List.filter (λ f, fact_matches u (field, f)) (fact_values definition)) = [facts ++ [(field, f)]]).
      by rewrite Hv. }
  clear -Hb Hrow. revert base Hb. induction combinations as [|c cs IHc]; intros base Hb; [done|].
  cbn in *. rewrite List.filter_app, Hrow. destruct (matches_usage u c); [|by apply IHc].
  injection Hb as -> Hb. cbn. f_equal. clear -Hb Hrow. induction cs as [|c cs IHc]; [done|]. cbn in *.
  rewrite List.filter_app, Hrow. destruct (matches_usage u c); [done|]. by apply IHc.
Qed.

(** ** Rows of the table *)

(** The combination and the branch of a row. *)
Definition table_row : Type := Facts * PriceBranch num.
Definition shows (schema : BillingUsageSchema) (fields : list jsstr) (r : table_row) (t : ParsedTaskTier) : Prop :=
  shown_tier schema fields r.1 r.2 = Some t.
Definition row_in_force (u : list (jsstr * jsval)) (V : jsstr → bool) (r : table_row) : bool :=
  matches_usage u r.1 && in_force V (b_times r.2).

Definition rows_of (groups : list (Facts * list (PriceBranch num))) : list table_row :=
  flat_map (λ g, map (pair g.1) g.2) groups.

Lemma shown_tiers_rows schema fields facts bs : ∀ tiers, shown_tiers schema fields facts bs = Some tiers →
  Forall2 (shows schema fields) (map (pair facts) bs) tiers.
Proof.
  induction bs as [|b bs IH]; intros tiers H; cbn in H; [simplify_eq; constructor|].
  destruct (shown_tier schema fields facts b) eqn:E; [|done]. destruct (shown_tiers _ _ _ _); [|done].
  cbn in H. injection H as <-. constructor; [done|by apply IH].
Qed.

Lemma conditional_tiers_rows source schema fields ast combinations : ∀ r tiers out,
  conditional_tiers source schema fields ast combinations r tiers = Ok out →
  ∃ groups more, groups.*1 = combinations ∧ out = tiers ++ more ∧
    Forall (λ g, branches_of source schema g.1 ast g.2) groups ∧ Forall2 (shows schema fields) (rows_of groups) more.
Proof.
  induction combinations as [|facts cs IH]; intros r tiers out H; cbn in H.
  { simplify_eq. exists [], []. rewrite app_nil_r. conjs; [done..|constructor|constructor]. }
  destruct (taskPriceBranches source schema facts ast r) as [[[bs|] r']|] eqn:E; cbn in H; try done.
  destruct (_ <? _); [done|]. destruct (shown_tiers schema fields facts bs) as [ts|] eqn:Es; [|done].
  apply IH in H as (groups & more & Hg & -> & Hb & Hr). exists ((facts, bs) :: groups), (ts ++ more). cbn. conjs.
  - by rewrite Hg.
  - by rewrite app_assoc.
  - constructor; [by eexists _, _|done].
  - apply Forall2_app; [by apply shown_tiers_rows|done].
Qed.

Lemma group_in_force u V facts bs :
  List.filter (row_in_force u V) (map (pair facts) bs) =
  if matches_usage u facts then map (pair facts) (List.filter (λ b, in_force V (b_times b)) bs) else [].
Proof.
  induction bs as [|b bs IH]; cbn; [by destruct (matches_usage u facts)|]. rewrite IH. unfold row_in_force. cbn.
  by destruct (matches_usage u facts), (in_force V (b_times b)).
Qed.

(** With one combination that matches, the rows in force are its branches in
    force. *)
Lemma rows_in_force u V groups facts :
  List.filter (matches_usage u) groups.*1 = [facts] →
  ∃ bs, (facts, bs) ∈ groups ∧
    List.filter (row_in_force u V) (rows_of groups) = map (pair facts) (List.filter (λ b, in_force V (b_times b)) bs).
Proof.
  intros Hm. unfold rows_of. induction groups as [|[g bs] groups IH]; [done|]. cbn in *.
  rewrite List.filter_app, group_in_force. destruct (matches_usage u g) eqn:Eg.
  - injection Hm as -> Hm. exists bs. split; [set_solver|]. rewrite <- (app_nil_r (map _ _)) at 2. f_equal. clear -Hm.
    induction groups as [|[g bs] groups IH]; [done|]. cbn in *. rewrite List.filter_app, group_in_force.
    destruct (matches_usage u g); [done|]. by apply IH.
  - destruct (IH Hm) as (bs' & Hin & E). exists bs'. split; [set_solver|exact E].
Qed.

Lemma shows_label schema fields rows tiers facts b :
  Forall2 (shows schema fields) rows tiers → (facts, b) ∈ rows → is_Some (b_label b).
Proof.
  intros H Hin. apply list_elem_of_lookup in Hin as (i & Hi). destruct (Forall2_lookup_l _ _ _ _ _ H Hi) as (t & _ & Ht).
  unfold shows, shown_tier in Ht. cbn in Ht. by destruct (b_label b).
Qed.

(** ** The table and a run *)

Section run.
Context {host : Host}.

(** [V] tells which of the displayed conditions hold in the run. *)
Definition tells (t : date) (source : jsstr) (schema : BillingUsageSchema) (c : CompiledBillingExpression)
    (ctx : BillingSimulationContext) (facts : Facts) (V : jsstr → bool) : Prop :=
  ∀ m text v, subnode m (c_ast c) → displays source schema facts m (Remains text) →
    value_in t c ctx m = Some v → v = JBool (V text).

Lemma conditional_table_settles t source schema c ctx u facts V tiers r :
  compile source = Ok c → readConditionalTaskPricing source schema = Ok tiers →
  distinct_values schema = true → usage ctx = Some u → usage_facts schema (c_ast c) u = Some facts →
  tells t source schema c ctx facts V → run_compiled t c ctx = Ok r →
  ∃ fields rows b, Forall2 (shows schema fields) rows tiers ∧
    List.filter (row_in_force u V) rows = [(facts, b)] ∧ b_label b = Some (s_matchedTier r) ∧
    s_billingUnit r = UToken ∧ ∃ bs, branches_of source schema facts (c_ast c) bs ∧
      List.filter (λ b : PriceBranch num, in_force V (b_times b)) bs = [b].
Proof.
  intros Hc Hr Hd Hu Hf Ht H. unfold readConditionalTaskPricing in Hr. rewrite Hc in Hr.
  unfold usage_facts in Hf. destruct (visitExpression _ _ _) as [[fields valid]|] eqn:Hv; [|done]. cbn in Hr.
  destruct valid; [|done]. cbn in Hr. destruct (fact_combinations schema fields [[]]) as [cs|] eqn:Hcs; [|done].
  apply conditional_tiers_rows in Hr as (groups & more & Hg & -> & Hbs & Hrows). cbn.
  pose proof (one_combination schema u fields Hd [[]] cs facts [] Hf eq_refl Hcs) as Hone. cbn in Hone. rewrite <- Hg in Hone.
  destruct (facts_in_has _ _ _ _ Hf) as [Hhas Hdec].
  apply run_compiled_Ok in H as (env & st & st' & x & j & _ & Hn & He & _ & _ & _ & Hbu & _ & Hm & _).
  pose proof (new_runtime_times _ _ _ _ _ Hn) as Htimes.
  pose proof (new_runtime_Ok _ _ _ _ _ Hn) as (_ & Hctx & _ & _ & Hu0 & _).
  assert (∀ bs, branches_of source schema facts (c_ast c) bs →
    ∃ b, List.filter (λ b : PriceBranch num, in_force V (b_times b)) bs = [b] ∧ settles b st st') as Hset.
  { intros bs Hb. eapply branches_eval; [by rewrite Hctx|done|done|apply wf_arities; by apply compile_ok in Hc as []| |done|done|done].
    intros m text d s v s' Hsub Hdis Hs Hev. eapply Ht; [done..|]. by eapply value_in_run. }
  destruct (rows_in_force u V groups facts Hone) as (bs & Hin & Hforce).
  rewrite Forall_forall in Hbs. pose proof (Hbs _ Hin) as Hb. cbn in Hb. destruct (Hset _ Hb) as (b & Hforced & Hsu & Hsm).
  rewrite Hforced in Hforce. cbn in Hforce. exists fields, (rows_of groups), b.
  assert (∀ y, In y (List.filter (row_in_force u V) (rows_of groups)) → y ∈ rows_of groups) as Hrow
    by (intros y Hy; apply filter_In in Hy as [Hy _]; by apply list_elem_of_In).
  destruct (shows_label _ _ _ _ facts b Hrows) as (label & Hl); [apply Hrow; rewrite Hforce; by left|].
  rewrite Hl in Hsm. cbn in Hsm. conjs; [done|done|congruence|congruence|]. exists bs. split; [done|done].
Qed.

(** The nodes a visit of a condition counts. *)
Fixpoint visits (n : node) : Z :=
  match n with
  | EUn _ Unot a => 1 + visits a
  | EBin _ (Oand | Oor) a b => 1 + visits a + visits b
  | _ => 1
  end.

Lemma visits_positive n : (1 ≤ visits n)%Z.
Proof.
  induction n as [n IH] using node_rec_children. rewrite Forall_forall in IH.
  assert (∀ m, m ∈ children n → (0 ≤ visits m)%Z) as H by (intros m Hm; specialize (IH m Hm); lia).
  destruct n as [| | |sp o a|sp o a b|]; cbn in *; try lia.
  - pose proof (H a ltac:(set_solver)). destruct o; lia.
  - pose proof (H a ltac:(set_solver)). pose proof (H b ltac:(set_solver)). destruct o; lia.
Qed.

Lemma display_logic source schema facts sp o a b r : o = Oand ∨ o = Oor → (0 < r)%Z →
  taskDisplayCondition source schema facts (EBin sp o a b) r =
  ('(l, remaining) ← taskDisplayCondition source schema facts a (r - 1)%Z;
   '(r, remaining) ← taskDisplayCondition source schema facts b remaining;
   Ok (match l, r with Some l, Some r => Some (connect o l r) | _, _ => None end, remaining)).
Proof. intros Ho Hr. cbn [taskDisplayCondition]. destruct (Z.ltb_spec (r - 1) 0); [lia|]. by destruct Ho as [-> | ->]. Qed.

Lemma display_leaf source schema facts n r : (0 < r)%Z →
  (match n with EUn _ Unot _ | EBin _ (Oand | Oor) _ _ => False | _ => True end) →
  taskDisplayCondition source schema facts n r =
  match n with
  | ELit _ (LBool b) => Ok (Some (Decided b), (r - 1)%Z)
  | EBin _ _ _ _ => c ← comparison source schema facts n; Ok (c, (r - 1)%Z)
  | _ => Ok (None, (r - 1)%Z)
  end.
Proof.
  intros Hr Hn. destruct n as [sp [| | |]| | |sp []|sp []|]; cbn [taskDisplayCondition]; destruct (Z.ltb_spec (r - 1) 0); done || lia.
Qed.

(** What is displayed does not depend on the counter, if it is large enough. *)
Lemma display_counted source schema facts n : ∀ c r r',
  taskDisplayCondition source schema facts n r = Ok (Some c, r') →
  (visits n ≤ r ∧ r' = r - visits n)%Z ∧
  ∀ r2, (visits n ≤ r2)%Z → taskDisplayCondition source schema facts n r2 = Ok (Some c, (r2 - visits n)%Z).
Proof.
  induction n as [n IH] using node_rec_children. intros c r r' H. rewrite Forall_forall in IH.
  assert (0 < r)%Z as Hr.
  { destruct (Z.ltb_spec 0 r); [done|]. exfalso. destruct n; cbn in H; destruct (Z.ltb_spec (r - 1) 0); (lia || done). }
  assert ((match n with EUn _ Unot _ | EBin _ (Oand | Oor) _ _ => False | _ => True end) →
    (visits n ≤ r ∧ r' = r - visits n)%Z ∧
    ∀ r2, (visits n ≤ r2)%Z → taskDisplayCondition source schema facts n r2 = Ok (Some c, (r2 - visits n)%Z)) as Hleaf.
  { intros Hn. assert (visits n = 1)%Z as -> by (destruct n as [| | |sp []|sp []|]; done).
    rewrite display_leaf in H by done.
    assert (r' = r - 1 ∧ ∀ r2, (1 ≤ r2)%Z → taskDisplayCondition source schema facts n r2 = Ok (Some c, (r2 - 1)%Z))%Z as [-> H2].
    { split; [|intros r2 Hr2; rewrite display_leaf by (done || lia)];
        destruct n as [sp [| | |]| | |sp []|sp o a b|]; try done; try (by simplify_eq);
        apply bind_Ok in H as (c' & Hc & [= -> <-]); [done|]; by rewrite Hc. }
    split; [lia|done]. }
  destruct n as [| | |sp o a|sp o a b|]; try (by apply Hleaf).
  - destruct o; try (by apply Hleaf). clear Hleaf. cbn [taskDisplayCondition visits] in *.
    destruct (Z.ltb_spec (r - 1) 0); [lia|].
    apply bind_Ok in H as ([[c'|] r1] & Ha & H); [|done]. cbn in H. injection H as <- <-.
    destruct (IH a ltac:(cbn; set_solver) _ _ _ Ha) as [[H1 ->] H2]. split; [lia|]. intros r2 Hr2.
    pose proof (visits_positive a). destruct (Z.ltb_spec (r2 - 1) 0); [lia|]. rewrite H2 by lia. cbn. do 2 f_equal. lia.
  - destruct (decide (o = Oand ∨ o = Oor)) as [Ho|Ho]; [|apply Hleaf; destruct o; tauto]. clear Hleaf.
    rewrite display_logic in H by done.
    assert (visits (EBin sp o a b) = 1 + visits a + visits b)%Z as -> by (by destruct Ho as [-> | ->]).
    apply bind_Ok in H as ([l r1] & Ha & H). apply bind_Ok in H as ([l' r2] & Hb & H).
    destruct l as [l|], l' as [l'|]; try done. injection H as <- <-.
    destruct (IH a ltac:(cbn; set_solver) _ _ _ Ha) as [[H1 ->] H2].
    destruct (IH b ltac:(cbn; set_solver) _ _ _ Hb) as [[H3 ->] H4].
    pose proof (visits_positive a). pose proof (visits_positive b).
    split; [lia|]. intros r3 Hr3. rewrite display_logic by (done || lia).
    rewrite H2 by lia. cbn [mbind result_bind]. rewrite H4 by lia. cbn. do 2 f_equal. lia.
Qed.

(** [tells] as a test over the nodes of the tree. *)
Definition told_at (t : date) (source : jsstr) (schema : BillingUsageSchema) (c : CompiledBillingExpression)
    (ctx : BillingSimulationContext) (facts : Facts) (V : jsstr → bool) (m : node) : bool :=
  match taskDisplayCondition source schema facts m (visits m) with
  | Ok (Some (Remains text), _) =>
      match value_in t c ctx m with
      | Some (JBool b) => Bool.eqb b (V text)
      | Some _ => false
      | None => true
      end
  | _ => true
  end.

Lemma tells_test t source schema c ctx facts V :
  forallb (told_at t source schema c ctx facts V) (postorder (c_ast c)) = true → tells t source schema c ctx facts V.
Proof.
  rewrite forallb_forall. intros H m text v Hm (r & r' & Hd) Hv. apply elem_of_postorder, list_elem_of_In in Hm.
  specialize (H m Hm). unfold told_at in H. destruct (display_counted _ _ _ _ _ _ _ Hd) as [_ H2].
  rewrite (H2 (visits m)) in H by lia. rewrite Hv in H. destruct v; try done. apply eqb_prop in H. congruence.
Qed.
End run.

(** ** A fallback with conditions *)

Definition usage_text_of (u : list (jsstr * jsval)) (field : jsstr) : option jsstr :=
  match own u field with Some (JStr s) => Some s | Some (JBool b) => Some (bool_text b) | _ => None end.

(** The usage has a declared value for each of the fields. *)
Definition reports (schema : BillingUsageSchema) (u : list (jsstr * jsval)) (fields : list jsstr) : Prop :=
  ∀ field, field ∈ fields → ∃ s, usage_text_of u field = Some s ∧ s ∈ condition_values schema field.

Definition usage_combination (u : list (jsstr * jsval)) (fields : list jsstr) : Combination :=
  map (λ field, (field, default [] (usage_text_of u field))) fields.

Lemma condition_combinations_complete schema u fields : reports schema u fields → ∀ combinations out base,
  condition_combinations schema fields combinations = Some out → base ∈ combinations →
  base ++ usage_combination u fields ∈ out.
Proof.
  induction fields as [|field fields IH]; intros Hr combinations out base H Hb; cbn in H.
  { simplify_eq. by rewrite app_nil_r. }
  destruct (_ || _); [done|]. destruct (Hr field) as (s & Hs & Hv); [set_solver|].
  replace (base ++ usage_combination u (field :: fields)) with ((base ++ [(field, s)]) ++ usage_combination u fields)
    by (rewrite <- app_assoc; cbn; by rewrite Hs).
  eapply IH; [intros f Hf; apply Hr; set_solver|done|].
  apply list_elem_of_In, in_flat_map. exists base. split; [by apply list_elem_of_In|].
  apply list_elem_of_In, list_elem_of_fmap. by exists s.
Qed.

Lemma usage_holds u field s : task_cond_holds u (field, s) = true ↔ usage_text_of u field = Some s.
Proof.
  unfold task_cond_holds, usage_text_of. cbn. destruct (own u field) as [[]|]; try (split; [done|congruence]);
    rewrite jseq_eq; naive_solver.
Qed.

Lemma combination_has u fields field s : field ∈ fields → is_Some (usage_text_of u field) →
  existsb (λ e, jseq e.1 field && jseq e.2 s) (usage_combination u fields) = task_cond_holds u (field, s).
Proof.
  intros Hin [s' Hs']. apply eq_true_iff_eq. rewrite usage_holds, Hs', existsb_exists. split.
  - intros ([f t] & Hf & He). apply list_elem_of_In, list_elem_of_fmap in Hf as (f' & [= -> ->] & _).
    apply andb_true_iff in He as [H1 H2]. cbn in *. apply jseq_eq in H1 as ->. apply jseq_eq in H2 as <-. by rewrite Hs'.
  - intros [= ->]. exists (field, s). split; [|cbn; by rewrite !jseq_refl].
    apply list_elem_of_In, list_elem_of_fmap. exists field. by rewrite Hs'.
Qed.

Lemma elem_of_named_fields tiers field :
  field ∈ named_fields tiers ↔ ∃ t s, t ∈ tiers ∧ (field, s) ∈ k_conditions t.
Proof.
  unfold named_fields. rewrite list_elem_of_fmap.
  assert (∀ ks s k, k ∈ fold_left (λ s (f : jsstr), set_add f s) ks s ↔ k ∈ s ∨ k ∈ ks) as Hadd.
  { induction ks as [|k0 ks IH]; intros s k; cbn; [set_solver|]. rewrite IH. unfold set_add. case_decide; set_solver. }
  setoid_rewrite elem_of_sort_by_key. setoid_rewrite list_elem_of_fmap. split.
  - intros ([f []] & -> & f' & [= ->] & H). apply Hadd in H as [[]%not_elem_of_nil|H].
    apply list_elem_of_In, in_flat_map in H as (t & Ht & H). apply list_elem_of_In, list_elem_of_fmap in H as ([f s] & -> & H).
    exists t, s. by apply list_elem_of_In in Ht.
  - intros (t & s & Ht & H). exists (field, tt). split; [done|]. exists field. split; [done|]. apply Hadd. right.
    apply list_elem_of_In, in_flat_map. exists t. split; [by apply list_elem_of_In|].
    apply list_elem_of_In, list_elem_of_fmap. by exists (field, s).
Qed.

Lemma covers_usage schema u previous t :
  reports schema u (named_fields previous) → t ∈ previous →
  tier_covers (usage_combination u (named_fields previous)) t = forallb (task_cond_holds u) (k_conditions t).
Proof.
  intros Hr Ht. unfold tier_covers.
  assert (∀ e, e ∈ k_conditions t → e.1 ∈ named_fields previous) as Hin
    by (intros [f s] He; apply elem_of_named_fields; eauto).
  induction (k_conditions t) as [|[f s] cs IH]; [done|]. cbn. rewrite IH by set_solver. f_equal.
  assert (f ∈ named_fields previous) as Hf by (apply (Hin (f, s)); set_solver).
  apply combination_has; [done|]. destruct (Hr _ Hf) as (s' & -> & _). eauto.
Qed.

(** Naming the conditions of the fallback does not change which row is met
    first, nor its label and prices. *)
Lemma named_fallback_same schema u tiers previous fallback :
  tiers = previous ++ [fallback] → k_conditions fallback = [] → reports schema u (named_fields previous) →
  ∃ t t', task_first_match u tiers = Some t ∧ task_first_match u (named_fallback schema tiers) = Some t' ∧
    k_label t' = k_label t ∧ k_constant t' = k_constant t ∧ k_unitPrices t' = k_unitPrices t.
Proof.
  intros -> Hk Hr. set (holds t := forallb (task_cond_holds u) (k_conditions t)).
  assert (∀ f, holds f = true → task_first_match u (previous ++ [f]) =
    Some (default f (List.find holds previous))) as Hfirst.
  { intros f Hf. unfold task_first_match. fold holds. clear -Hf. induction previous as [|t ts IH]; cbn; [by rewrite Hf|].
    by destruct (holds t). }
  assert (holds fallback = true) as Hf by (unfold holds; by rewrite Hk).
  assert (∀ f, holds f = true → k_label f = k_label fallback → k_constant f = k_constant fallback →
    k_unitPrices f = k_unitPrices fallback → ∃ t t', task_first_match u (previous ++ [fallback]) = Some t ∧
      task_first_match u (previous ++ [f]) = Some t' ∧ k_label t' = k_label t ∧ k_constant t' = k_constant t ∧
      k_unitPrices t' = k_unitPrices t) as Hdone.
  { intros f H1 H2 H3 H4. rewrite !Hfirst by done. eexists _, _. split; [done|]. split; [done|].
    by destruct (List.find holds previous). }
  unfold named_fallback. rewrite last_snoc, length_app. cbn [length]. replace (length previous + 1 - 1) with (length previous) by lia.
  rewrite take_app_length.
  destruct (_ <? 2); [by apply Hdone|]. destruct (condition_combinations _ _ _) as [cs|] eqn:Hcs; [|by apply Hdone].
  destruct (List.filter _ cs) as [|c [|]] eqn:Hfil; [by apply Hdone| |by apply Hdone].
  destruct (List.find holds previous) as [t|] eqn:Hfind.
  { exists t, t. conjs; try done; unfold task_first_match; fold holds;
      (clear -Hfind; induction previous as [|t0 ts IH]; [done|]; cbn in *; destruct (holds t0); [done|by apply IH]). }
  assert (usage_combination u (named_fields previous) = c) as <-.
  { assert (In (usage_combination u (named_fields previous)) (List.filter (λ c, negb (existsb (tier_covers c) previous)) cs)) as Hi.
    { apply filter_In. split.
      - apply list_elem_of_In. by eapply (condition_combinations_complete schema u _ Hr _ _ []); [done|set_solver].
      - apply negb_true_iff. apply not_true_iff_false. intros (t & Ht & Hc)%existsb_exists.
        rewrite (covers_usage schema u previous t) in Hc; [|done|by apply list_elem_of_In].
        pose proof (find_none _ _ Hfind t Ht) as Hn. unfold holds in Hn. congruence. }
    rewrite Hfil in Hi. by destruct Hi as [->|[]]. }
  apply Hdone; [|done..]. unfold holds. cbn. apply forallb_forall. intros [f s] Hin%list_elem_of_In.
  apply list_elem_of_fmap in Hin as (f' & [= -> ->] & Hf'). apply usage_holds.
  destruct (Hr _ Hf') as (s & -> & _). done.
Qed.
