(* ===== verification/TaskAmounts.v ===== *)
(** * Amounts of a task price with conditions

    The symbolic run of [taskPriceBranches] in rational arithmetic: the row in
    force charges, by its constant and the measured fields at its prices,
    exactly the price of the expression.  The run in binary64, which is the
    program's, has the same rows. *)
From stdpp Require Import base list option numbers sets.
From Stdlib Require Import ZArith SpecFloat QArith Qcanon Qpower Field Lia.
From S2P Require Import Prelude.
From S2P Require Import JsString.
From S2P Require Import JsNumber.
From S2P Require Import Syntax.
From S2P Require Import Parser.
From S2P Require Import ParserFacts.
From S2P Require Import Compile.
From S2P Require Import CompileFacts.
From S2P Require Import Runtime.
From S2P Require Import RuntimeFacts.
From S2P Require Import Display.
From S2P Require Import DisplayFacts.
From S2P Require Import PriceTableFacts.
From S2P Require Import BillingExpr.
From S2P Require Import TierExpr.
From S2P Require Import TaskExpr.
From S2P Require Import TaskDisplay.
From S2P Require Import TaskDisplayFacts.

Close Scope Qc_scope.
Close Scope Q_scope.

(** ** Rational arithmetic *)

(** The number a binary64 value stands for. *)
Definition num_value (x : num) : Qc :=
  match x with
  | S754_finite s m e => Q2Qc (inject_Z (if s then Z.neg m else Z.pos m) * Qpower (2 # 1) e)%Q
  | _ => 0%Qc
  end.

#[export] Instance rational : Arithmetic Qc := {
  of_num := num_value;
  plus := Qcplus;
  times := Qcmult;
  divide := Qcdiv;
  nonneg x := Qle_bool 0 (this x);
  nonpos x := Qle_bool (this x) 0;
  finite x := true;
}.

Section exact.
Context (choose : node → bool) (quantity : jsstr → Qc).

(** The price of an expression whose conditions have the values [choose], in
    rational arithmetic. *)
Fixpoint exact_price (n : node) : option Qc :=
  match n with
  | ELit _ (LNum x _) => Some (num_value x)
  | ECall _ Fu (ELit _ (LStr field) :: _) => Some (quantity field)
  | ECall _ Ftier (_ :: body :: _) => exact_price body
  | ECond _ c yes no => if choose c then exact_price yes else exact_price no
  | EBin _ o a b =>
      match exact_price a, exact_price b with
      | Some x, Some y =>
          match o with
          | Oadd => Some (x + y)%Qc
          | Osub => Some (x - y)%Qc
          | Omul => Some (x * y)%Qc
          | Odiv => if Qc_eq_dec y 0%Qc then None else Some (x / y)%Qc
          | _ => None
          end
      | _, _ => None
      end
  | _ => None
  end.

Fixpoint priced (prices : list (jsstr * Qc)) : Qc :=
  match prices with [] => 0%Qc | (field, p) :: prices => (p * quantity field + priced prices)%Qc end.

(** What a row charges: its constant and the measured fields at its prices. *)
Definition row_charge (b : PriceBranch Qc) : Qc := (b_constant b + priced (b_prices b))%Qc.

Lemma priced_scale prices x : priced (map (λ e, (e.1, (e.2 * x)%Qc)) prices) = (priced prices * x)%Qc.
Proof. induction prices as [|[f p] prices IH]; cbn; [ring|]. rewrite IH. ring. Qed.

Lemma priced_keys_add (l : list jsstr) (f g : jsstr → Qc) :
  priced (map (λ k, (k, (f k + g k)%Qc)) l) = (priced (map (λ k, (k, f k)) l) + priced (map (λ k, (k, g k)) l))%Qc.
Proof. induction l as [|k l IH]; cbn; [ring|]. rewrite IH. ring. Qed.

Lemma zero_is : (zero : Qc) = 0%Qc.
Proof. reflexivity. Qed.
Lemma one_is : (one : Qc) = 1%Qc.
Proof. apply Qc_is_canon. vm_compute. reflexivity. Qed.

#[local] Arguments price_of : simpl never.
Lemma price_of_cons (prices : list (jsstr * Qc)) k p k' :
  price_of ((k, p) :: prices) k' = if decide (k = k') then p else price_of prices k'.
Proof. unfold price_of. cbn. by case_decide. Qed.

(** Prices summed over more fields than they have. *)
Lemma priced_over prices : NoDup prices.*1 → ∀ l, NoDup l → prices.*1 ⊆ l →
  priced (map (λ k, (k, price_of prices k)) l) = priced prices.
Proof.
  induction prices as [|[k p] prices IH]; intros Hn l Hl Hs.
  - clear. induction l as [|k l IH]; [done|]. cbn. rewrite IH. unfold price_of. cbn. change (num_value NZERO) with 0%Qc. ring.
  - cbn in Hn. apply NoDup_cons in Hn as [Hk Hn].
    assert (k ∈ l) as (l1 & l2 & ->)%list_elem_of_split by (apply Hs; cbn; set_solver).
    apply NoDup_app in Hl as (N1 & N12 & N2). apply NoDup_cons in N2 as [Nk N2].
    assert (∀ k', k' ≠ k → price_of ((k, p) :: prices) k' = price_of prices k') as Hother
      by (intros k' Hk'; by rewrite price_of_cons, decide_False by congruence).
    rewrite map_app. cbn.
    assert (∀ a b, priced (a ++ b) = (priced a + priced b)%Qc) as Happ.
    { clear. intros a b. induction a as [|[f x] a IH]; cbn; [ring|]. rewrite IH. ring. }
    rewrite Happ. cbn. rewrite (price_of_cons prices k p k), decide_True by done.
    transitivity (p * quantity k + priced (map (λ k0, (k0, price_of prices k0)) (l1 ++ l2)))%Qc.
    + rewrite map_app, Happ. rewrite <- (map_ext_in (λ k0, (k0, price_of ((k, p) :: prices) k0)) (λ k0, (k0, price_of prices k0)) l1).
      2: { intros k' Hk'%list_elem_of_In. rewrite Hother; [done|]. intros ->. set_solver. }
      rewrite <- (map_ext_in (λ k0, (k0, price_of ((k, p) :: prices) k0)) (λ k0, (k0, price_of prices k0)) l2).
      2: { intros k' Hk'%list_elem_of_In. rewrite Hother; [done|]. intros ->. set_solver. }
      ring.
    + f_equal. apply IH; [done| |].
      * apply NoDup_app. split; [done|]. split; [|done]. intros x Hx Hx'. apply (N12 x); set_solver.
      * intros x Hx. assert (x ∈ l1 ++ k :: l2) as Hx' by (apply Hs; cbn; set_solver).
        assert (x ≠ k) by set_solver. set_solver.
Qed.

Lemma set_add_all (ks : list jsstr) : ∀ s, NoDup s →
  NoDup (fold_left (λ s k, set_add k s) ks s) ∧ ∀ k, k ∈ fold_left (λ s k, set_add k s) ks s ↔ k ∈ s ∨ k ∈ ks.
Proof.
  induction ks as [|k ks IH]; intros s Hs; [cbn; set_solver|]. cbn. unfold set_add at 2 4. case_decide as Hk.
  - destruct (IH s Hs) as [H1 H2]. split; [done|]. set_solver.
  - destruct (IH (s ++ [k])) as [H1 H2]; [apply NoDup_app; repeat split; [done|set_solver|apply NoDup_singleton]|].
    split; [done|]. set_solver.
Qed.

Definition well_priced (b : PriceBranch Qc) : Prop := NoDup (b_prices b).*1.

Lemma sum_prices_priced a b : NoDup a.*1 → NoDup b.*1 →
  priced (sum_prices a b) = (priced a + priced b)%Qc ∧ NoDup (sum_prices a b).*1.
Proof.
  intros Ha Hb. unfold sum_prices. destruct (set_add_all (a.*1 ++ b.*1) []) as [Hn He]; [constructor|].
  split.
  - cbn [plus rational]. rewrite priced_keys_add. f_equal; apply priced_over; try done; intros k Hk; apply He; set_solver.
  - rewrite <- list_fmap_compose. unfold compose. cbn. by rewrite list_fmap_id.
Qed.

Lemma no_quantity b : has_quantity b = false → priced (b_prices b) = 0%Qc.
Proof. unfold has_quantity. by destruct (b_prices b). Qed.

Lemma scaled_keys (prices : list (jsstr * Qc)) x : (map (λ e, (e.1, times e.2 x)) prices).*1 = prices.*1.
Proof. induction prices as [|e prices IH]; [done|]. cbn. f_equal. exact IH. Qed.

Lemma amount_of_exact o a b constant prices :
  is_amount_operator o = true → well_priced a → well_priced b → amount_of o a b = Some (constant, prices) →
  NoDup prices.*1 ∧
  match o with
  | Oadd => (constant + priced prices = row_charge a + row_charge b)%Qc
  | Omul => (constant + priced prices = row_charge a * row_charge b)%Qc
  | _ => row_charge b ≠ 0%Qc ∧ (constant + priced prices = row_charge a / row_charge b)%Qc
  end.
Proof.
  intros Ho Wa Wb H. unfold row_charge. destruct o; try done; cbn [amount_of] in H.
  - injection H as <- <-. destruct (sum_prices_priced _ _ Wa Wb) as [-> Hn]. split; [done|]. cbn. ring.
  - rewrite andb_false_l, orb_false_r in H. destruct (has_quantity a) eqn:Qa, (has_quantity b) eqn:Qb; try done;
      injection H as <- <-; rewrite scaled_keys; (split; [done|]); cbn; rewrite priced_scale;
      rewrite ?(no_quantity a Qa), ?(no_quantity b Qb); ring.
  - rewrite andb_true_l in H. destruct (has_quantity b) eqn:Qb; [by rewrite orb_true_l, orb_true_r in H|].
    rewrite andb_false_r, orb_false_l in H. destruct (nonpos (b_constant b)) eqn:Hp; [done|].
    assert (b_constant b ≠ 0%Qc) as Hz by (intros E; rewrite E in Hp; done).
    rewrite (no_quantity b Qb). split; [destruct (has_quantity a); injection H as <- <-; by rewrite scaled_keys|].
    assert (b_constant b + 0 = b_constant b)%Qc as E by ring. rewrite E. split; [done|].
    pose proof one_is as Hone. revert H Hone. generalize (one : Qc). intros i H ->.
    destruct (has_quantity a) eqn:Qa; injection H as <- <-; cbn [times divide rational]; rewrite priced_scale;
      rewrite ?(no_quantity a Qa), ?(no_quantity b Qb); by field.
Qed.
End exact.

Section exact_settled.
Context (source : jsstr) (schema : BillingUsageSchema) (facts : Facts) (V : jsstr → bool).
Context (choose : node → bool) (quantity : jsstr → Qc).

(** [choose] takes the conditions as they are displayed. *)
Definition chosen (n : node) : Prop :=
  ∀ m c, subnode m n → displays source schema facts m c → choose m = truth V c.

Lemma chosen_child n c : chosen n → c ∈ children n → chosen c.
Proof. intros H Hc m c' Hm. apply H. by econstructor. Qed.

Abbreviation forced bs := (List.filter (λ b : PriceBranch Qc, in_force V (b_times b)) bs).

Definition exact_branch (n : node) (bs : list (PriceBranch Qc)) : Prop :=
  ∃ b, forced bs = [b] ∧ well_priced b ∧ exact_price choose quantity n = Some (row_charge quantity b).

Lemma combine_exact sp o a b bl br bs :
  is_amount_operator o = true → branches_of source schema facts a bl → branches_of source schema facts b br →
  combine_all o (pairs_of bl br) = Some bs → exact_branch a bl → exact_branch b br → exact_branch (EBin sp o a b) bs.
Proof.
  intros Ho Hl Hr Hc (x & Fx & Wx & Ex) (y & Fy & Wy & Ey).
  destruct (combine_forced V o bl br bs x y) as (c & Hcomb & Hf);
    [exact (branches_consistent source schema facts a _ Hl)|exact (branches_consistent source schema facts b _ Hr)|done..|].
  apply combine_times in Hcomb as [_ [[_ [=]]|(_ & constant & prices & Ha & _ & [= ->])]].
  destruct (amount_of_exact quantity o x y constant prices) as [Hn He]; try done.
  eexists. split; [exact Hf|]. split; [exact Hn|]. cbn [exact_price]. rewrite Ex, Ey.
  transitivity (Some (constant + priced quantity prices)%Qc); [|done].
  destruct o; try done; [by rewrite He..|]. destruct He as [Hz He]. destruct (Qc_eq_dec _ _) as [E|_]; [by rewrite E in Hz|]. by rewrite He.
Qed.

Lemma branches_exact n : chosen n → ∀ bs, branches_of source schema facts n bs → exact_branch n bs.
Proof.
  induction n as [n IH] using node_rec_children. intros Hch bs Hb.
  assert (∀ m, m ∈ children n → ∀ bs, branches_of source schema facts m bs → exact_branch m bs) as IH'.
  { intros m Hm. rewrite Forall_forall in IH. apply (IH m Hm). by eapply chosen_child. }
  clear IH. apply branches_inv in Hb as Hi.
  destruct n as [sp [x i| | |]| |sp [] [|[sp1 [|s| |]| | | | |] rest]| |sp o l r0|sp c yes no]; try done.
  - destruct Hi as [_ ->]. eexists. split; [reflexivity|]. split; [constructor|]. cbn. f_equal. unfold row_charge. cbn. ring.
  - destruct rest as [|body rest]; [done|]. destruct Hi as (bs' & Hbody & _ & ->).
    destruct (IH' body ltac:(cbn; set_solver) _ Hbody) as (b & Hf & Hw & He).
    exists (labelled s b). rewrite forced_map, Hf by done. done.
  - destruct Hi as [_ ->]. eexists. split; [reflexivity|]. split; [apply NoDup_singleton|].
    cbn [exact_price]. f_equal. unfold row_charge. cbn [field_branch b_constant b_prices priced]. rewrite zero_is, one_is. ring.
  - destruct Hi as (Ho & bl & br & Hl & Hr & Hc). eapply combine_exact; try done; apply IH'; try done; cbn; set_solver.
  - destruct Hi as (shown & Hshown & Hi). assert (choose c = truth V shown) as Hc.
    { apply Hch; [|done]. eapply subnode_child; [|constructor]. cbn. set_solver. }
    assert (∀ bs', branches_of source schema facts (if choose c then yes else no) bs' →
      ∃ b, forced bs' = [b] ∧ well_priced b ∧ exact_price choose quantity (ECond sp c yes no) = Some (row_charge quantity b)) as Hside.
    { intros bs' Hbs'. destruct (IH' (if choose c then yes else no) ltac:(destruct (choose c); cbn; set_solver) _ Hbs') as (b & H1 & H2 & H3).
      exists b. conjs; [done..|]. cbn [exact_price]. by destruct (choose c). }
    destruct shown as [v|text]; cbn in Hc; rewrite Hc in Hside; [by apply Hside|].
    destruct Hi as (ys & ns & Hy & Hn & ->). unfold exact_branch. rewrite List.filter_app.
    rewrite (side_in_force V _ _ ys), (side_in_force V _ _ ns)
      by first [exact (branches_consistent source schema facts _ _ Hy)|exact (branches_consistent source schema facts _ _ Hn)].
    destruct (V text); cbn [Bool.eqb]; rewrite ?app_nil_r, ?app_nil_l.
    + destruct (Hside _ Hy) as (b & -> & Hw & He). eexists. split; [reflexivity|]. done.
    + destruct (Hside _ Hn) as (b & -> & Hw & He). eexists. split; [reflexivity|]. done.
Qed.
End exact_settled.

(** ** The binary64 run follows the rational one *)

Definition is_zero (x : num) : bool := match x with S754_zero _ => true | _ => false end.

(** A rational amount is not negative, and is nothing only where the binary64
    amount is. *)
Definition near (x : num) (q : Qc) : Prop := (0 <= q)%Qc ∧ (q = 0%Qc → is_zero x = true).

Definition similar (b : PriceBranch num) (e : PriceBranch Qc) : Prop :=
  b_label b = b_label e ∧ b_times b = b_times e ∧ near (b_constant b) (b_constant e) ∧
  Forall2 (λ x y, x.1 = y.1 ∧ near x.2 y.2) (b_prices b) (b_prices e).

Lemma Qc_sum_zero a b : (0 <= a)%Qc → (0 <= b)%Qc → (a + b = 0)%Qc → a = 0%Qc ∧ b = 0%Qc.
Proof.
  intros Ha Hb H. assert (∀ a b, (0 <= a)%Qc → (0 <= b)%Qc → (a + b = 0)%Qc → a = 0%Qc) as Hz.
  { intros x y Hx Hy E. apply Qcle_antisym; [|done]. rewrite <- E.
    rewrite <- (Qcplus_0_r x) at 1. apply Qcplus_le_compat; [apply Qcle_refl|done]. }
  split; [by eapply Hz|]. eapply (Hz b a); [done..|]. by rewrite Qcplus_comm.
Qed.

Lemma Qc_nonneg_mult a b : (0 <= a)%Qc → (0 <= b)%Qc → (0 <= a * b)%Qc.
Proof. intros Ha Hb. rewrite <- (Qcmult_0_l b). by apply Qcmult_le_compat_r. Qed.

Lemma Qc_nonneg_inv a : (0 <= a)%Qc → (0 <= / a)%Qc.
Proof.
  intros Ha. unfold Qcle in *. cbn [this Qcinv Q2Qc] in *. rewrite (Qred_correct (/ a)). by apply Qinv_le_0_compat.
Qed.

Lemma near_plus x y p q : near x p → near y q → near (nadd x y) (p + q)%Qc.
Proof.
  intros [Hp Zp] [Hq Zq]. split.
  - rewrite <- (Qcplus_0_l 0). by apply Qcplus_le_compat.
  - intros H. apply Qc_sum_zero in H as [H1 H2]; [|done..]. specialize (Zp H1). specialize (Zq H2).
    destruct x as [[]| | |], y as [[]| | |]; done.
Qed.

Lemma near_times x y p q : near x p → near y q → is_finite (nmul x y) = true → near (nmul x y) (p * q)%Qc.
Proof.
  intros [Hp Zp] [Hq Zq] Hf. split; [by apply Qc_nonneg_mult|]. intros H.
  apply Qcmult_integral in H as [H|H]; [specialize (Zp H)|specialize (Zq H)];
    destruct x as [[]|[]| |[]], y as [[]|[]| |[]]; try done.
Qed.

Lemma near_divide x y p q :
  near x p → near y q → q ≠ 0%Qc → nleb y NZERO = false → is_finite (ndiv x y) = true → near (ndiv x y) (p / q)%Qc.
Proof.
  intros [Hp Zp] [Hq Zq] Hn Hy Hf. split; [apply Qc_nonneg_mult; [done|by apply Qc_nonneg_inv]|]. intros H.
  assert (p = 0%Qc) as E.
  { rewrite <- (Qcmult_div_r p q Hn). rewrite Qcmult_comm. rewrite H. ring. }
  specialize (Zp E). destruct x as [[]| | |]; try done; destruct y as [[]|[]| |[]]; try done.
Qed.

Lemma near_factor x y p q :
  near x p → (0 <= q)%Qc → q ≠ 0%Qc → is_finite (nmul x y) = true → near (nmul x y) (p * q)%Qc.
Proof.
  intros [Hp Zp] Hq Hn Hf. split; [by apply Qc_nonneg_mult|]. intros H.
  apply Qcmult_integral in H as [H|H]; [|done]. specialize (Zp H).
  destruct x as [[]|[]| |[]], y as [[]|[]| |[]]; try done.
Qed.

Lemma near_literal x : ngeb x NZERO = true → is_finite x = true → near x (num_value x).
Proof.
  intros Hx Hf. destruct x as [s| | |s m e]; try done.
  destruct s; [done|]. cbn.
  assert (0 < inject_Z (Z.pos m) * Qpower (2 # 1) e)%Q as Hpos.
  { apply Qmult_lt_0_compat; [by unfold Qlt; cbn; lia|]. by apply Qpower_0_lt. }
  split.
  - unfold Qcle. cbn [this Q2Qc]. rewrite !Qred_correct. by apply Qlt_le_weak.
  - intros H. apply (f_equal this) in H. cbn [this Q2Qc] in H.
    assert (inject_Z (Z.pos m) * Qpower (2 # 1) e == 0)%Q as E by (rewrite <- (Qred_correct (_ * _)), H; reflexivity).
    rewrite E in Hpos. by apply Qlt_irrefl in Hpos.
Qed.

(** The same prices, field by field. *)
Abbreviation near_prices := (Forall2 (λ (x : jsstr * num) (y : jsstr * Qc), x.1 = y.1 ∧ near x.2 y.2)).

Lemma near_prices_keys l l' : near_prices l l' → l.*1 = l'.*1.
Proof. induction 1 as [|[] [] ? ? [H _] _ IH]; [done|]. cbn in *. by rewrite H, IH. Qed.

Lemma near_price_of l l' k : near_prices l l' → near (price_of l k) (price_of l' k).
Proof.
  unfold price_of. induction 1 as [|[k1 x] [k2 q] l l' [H1 H2] _ IH]; cbn in *.
  - split; [apply Qcle_refl|done].
  - subst k2. by case_decide.
Qed.

Lemma near_sum_prices a a' b b' :
  near_prices a a' → near_prices b b' → near_prices (sum_prices a b) (sum_prices a' b').
Proof.
  intros Ha Hb. unfold sum_prices. rewrite (near_prices_keys _ _ Ha), (near_prices_keys _ _ Hb).
  apply Forall2_fmap. apply Forall2_same_length_lookup_2; [done|]. intros i x y Hx Hy. rewrite Hx in Hy. injection Hy as ->.
  split; [done|]. apply near_plus; by apply near_price_of.
Qed.

Lemma similar_quantity b e : similar b e → has_quantity b = has_quantity e.
Proof. intros (_ & _ & _ & H). unfold has_quantity. by destruct H. Qed.

(** Prices times a factor, when the products are finite. *)
Lemma near_scaled l l' f g :
  near_prices l l' → (near f g ∨ (0 <= g)%Qc ∧ g ≠ 0%Qc) →
  forallb good_amount (map (λ e : jsstr * num, (e.1, times e.2 f)) l).*2 = true →
  near_prices (map (λ e, (e.1, times e.2 f)) l) (map (λ e, (e.1, times e.2 g)) l').
Proof.
  intros H Hf. induction H as [|[k x] [k' q] l l' [H1 H2] _ IH]; cbn; intros Hg; [constructor|].
  apply andb_true_iff in Hg as [Hx Hg]. unfold good_amount in Hx. apply andb_true_iff in Hx as [Hx _].
  constructor; [|by apply IH]. cbn in *. split; [done|].
  destruct Hf as [Hf|[Hf1 Hf2]]; [by apply near_times|by apply near_factor].
Qed.

Lemma near_positive x q : near x q → nonpos x = false → nonpos q = false ∧ q ≠ 0%Qc.
Proof.
  intros [Hq Hz] Hx. assert (q ≠ 0%Qc) as Hn by (intros E; specialize (Hz E); by destruct x).
  split; [|done]. cbn. apply not_true_iff_false. intros H. apply Qle_bool_iff in H. apply Hn.
  apply Qcle_antisym; [|done]. unfold Qcle. exact H.
Qed.

Lemma similar_amount o a b a' b' constant prices :
  is_amount_operator o = true → similar a a' → similar b b' → amount_of o a b = Some (constant, prices) →
  forallb good_amount (constant :: prices.*2) = true →
  ∃ constant' prices', amount_of o a' b' = Some (constant', prices') ∧ near constant constant' ∧ near_prices prices prices'.
Proof.
  intros Ho Ha Hb H Hg. pose proof (similar_quantity _ _ Ha) as Qa. pose proof (similar_quantity _ _ Hb) as Qb.
  destruct Ha as (_ & _ & Ca & Pa), Hb as (_ & _ & Cb & Pb).
  cbn in Hg. apply andb_true_iff in Hg as [Hc Hg]. unfold good_amount in Hc. apply andb_true_iff in Hc as [Hc _].
  destruct o; try done; cbn [amount_of] in *.
  - injection H as <- <-. eexists _, _. split; [done|]. split; [by apply near_plus|by apply near_sum_prices].
  - rewrite andb_false_l, orb_false_r in *. rewrite <- Qa, <- Qb.
    destruct (has_quantity a && has_quantity b); [done|].
    destruct (has_quantity a); injection H as <- <-; eexists _, _; (split; [done|]);
      (split; [by apply near_times|by apply near_scaled; auto]).
  - rewrite andb_true_l in *. rewrite <- Qa, <- Qb. destruct (has_quantity b); [by rewrite orb_true_l, orb_true_r in H|].
    rewrite andb_false_r, orb_false_l in *. destruct (nonpos (b_constant b)) eqn:Hn; [done|].
    destruct (near_positive _ _ Cb Hn) as [-> Hz]. injection H as <- <-. eexists _, _. split; [done|].
    split; [by apply near_divide|]. apply near_scaled; [by destruct (has_quantity a)| |done]. right.
    cbn [divide rational]. rewrite one_is. split.
    + apply Qc_nonneg_mult; [done|]. apply Qc_nonneg_inv, Cb.
    + intros E. pose proof (Qcmult_div_r 1 (b_constant b') Hz) as H1.
      assert (1 / b_constant b' = 0)%Qc as E' by exact E. rewrite E', Qcmult_0_r in H1. discriminate H1.
Qed.

Lemma similar_combine o a b a' b' x :
  is_amount_operator o = true → similar a a' → similar b b' → combine_branches o a b = Some x →
  ∃ x', combine_branches o a' b' = Some x' ∧ option_Forall2 similar x x'.
Proof.
  intros Ho Ha Hb H. pose proof Ha as (La & Ta & _). pose proof Hb as (Lb & Tb & _).
  apply combine_times in H as [Hl H]. unfold combine_branches. rewrite <- La, <- Lb, <- Ta, <- Tb.
  assert (∀ r : option (option (PriceBranch Qc)),
    match b_label a, b_label b with Some _, Some _ => None | _, _ => r end = r) as E
    by (intros r; destruct (b_label a), (b_label b), Hl; done).
  rewrite E. destruct H as [[-> ->]|(-> & constant & prices & Hm & Hg & ->)]; [eexists; split; [done|constructor]|].
  destruct (similar_amount _ _ _ _ _ _ _ Ho Ha Hb Hm Hg) as (constant' & prices' & -> & Hc & Hp).
  assert (forallb good_amount (constant' :: prices'.*2) = true) as ->.
  { assert (∀ x q, near x q → good_amount q = true) as Hgood.
    { intros x0 q [Hq _]. unfold good_amount. cbn. by apply Qle_bool_iff. }
    change (good_amount constant' && forallb good_amount prices'.*2 = true). rewrite (Hgood _ _ Hc). clear -Hp Hgood. induction Hp as [|x y l l' [_ Hn] _ IH]; [done|].
    change (good_amount y.2 && forallb good_amount l'.*2 = true). by rewrite (Hgood _ _ Hn). }
  eexists. split; [done|]. constructor. done.
Qed.

Lemma similar_combine_all o pairs pairs' bs :
  is_amount_operator o = true → Forall2 (λ x y, similar x.1 y.1 ∧ similar x.2 y.2) pairs pairs' →
  combine_all o pairs = Some bs → ∃ es, combine_all o pairs' = Some es ∧ Forall2 similar bs es.
Proof.
  intros Ho H. revert bs. induction H as [|[a b] [a' b'] pairs pairs' [Ha Hb] _ IH]; intros bs Hc; cbn in *.
  - simplify_eq. eexists. split; [done|constructor].
  - destruct (combine_branches o a b) as [x|] eqn:E; [|done].
    destruct (similar_combine _ _ _ _ _ _ Ho Ha Hb E) as (x' & -> & Hx).
    destruct (combine_all o pairs) as [rest|]; [|done]. cbn in Hc. injection Hc as <-.
    destruct (IH _ eq_refl) as (es & -> & Hes). eexists. split; [done|]. destruct Hx; cbn; [by constructor|done].
Qed.

Lemma similar_pairs l l' r r' : Forall2 similar l l' → Forall2 similar r r' →
  Forall2 (λ x y, similar x.1 y.1 ∧ similar x.2 y.2) (pairs_of l r) (pairs_of l' r').
Proof.
  intros Hl Hr. unfold pairs_of. induction Hl as [|a a' l l' Ha _ IH]; cbn; [constructor|].
  apply Forall2_app; [|done]. apply Forall2_fmap. eapply Forall2_impl; [done|]. done.
Qed.

Lemma similar_side text matches bs es : Forall2 similar bs es → Forall2 similar (side text matches bs) (side text matches es).
Proof.
  intros H. unfold side. induction H as [|b e bs es Hb _ IH]; cbn; [constructor|].
  destruct Hb as (H1 & H2 & H3 & H4). rewrite <- H2. destruct (conflicts (b_times b) (text, matches)); cbn; [done|].
  constructor; [|done]. unfold timed. split; [done|]. cbn [b_times]. by rewrite H2.
Qed.

Lemma similar_labelled label bs es :
  Forall2 similar bs es → existsb has_label bs = existsb has_label es ∧
    Forall2 similar (map (labelled label) bs) (map (labelled label) es).
Proof.
  induction 1 as [|b e bs es Hb _ [IH1 IH2]]; cbn; [split; [done|constructor]|].
  destruct Hb as (H1 & H2 & H3 & H4). unfold has_label at 1 3. rewrite H1, IH1. split; [done|].
  constructor; [|done]. done.
Qed.

Lemma field_similar field : Forall2 similar [field_branch field] [field_branch field].
Proof.
  constructor; [|constructor]. split; [done|]. split; [done|]. split.
  - split; [apply Qcle_refl|done].
  - constructor; [|constructor]. split; [done|]. cbn [snd]. split; [by rewrite one_is|]. rewrite one_is. discriminate.
Qed.

(** Where the binary64 run gives branches, the rational run gives the same
    ones. *)
Lemma branches_similar source schema facts n : arities_ok n → ∀ r bs r',
  taskPriceBranches (T := num) source schema facts n r = Ok (Some bs, r') →
  ∃ es, taskPriceBranches (T := Qc) source schema facts n r = Ok (Some es, r') ∧ Forall2 similar bs es.
Proof.
  induction n as [n IH] using node_rec_children. intros Har r bs r' H.
  assert (∀ m, m ∈ children n → ∀ r bs r', taskPriceBranches (T := num) source schema facts m r = Ok (Some bs, r') →
    ∃ es, taskPriceBranches (T := Qc) source schema facts m r = Ok (Some es, r') ∧ Forall2 similar bs es) as IH'.
  { intros m Hm. rewrite Forall_forall in IH. apply (IH m Hm). by eapply arities_child. }
  clear IH.
  destruct n as [sp [x i| | |]| |sp [] [|[sp1 [|s| |]| | | | |] [|body rest]]| |sp o a b|sp c yes no];
    cbn [taskPriceBranches] in *; destruct (r - 1 <? 0)%Z; try done.
  - destruct (ngeb x NZERO) eqn:Hx; [|done]. injection H as <- <-. eexists. split; [done|].
    constructor; [|constructor]. split; [done|]. split; [done|]. split; [|constructor].
    apply near_literal; [done|]. exact (Har _ (subnode_refl _)).
  - by destruct (_ <? 0)%Z.
  - apply bind_Ok in H as ([[bs'|] r1] & Hb & H); [|done].
    destruct (IH' body ltac:(cbn; set_solver) _ _ _ Hb) as (es & -> & Hes). cbn.
    destruct (similar_labelled s _ _ Hes) as [<- Hm]. destruct (existsb has_label bs'); [done|].
    injection H as <- <-. eexists. split; [done|done].
  - destruct (measured schema s); [|done]. injection H as <- <-. eexists. split; [done|]. by apply field_similar.
  - destruct (measured schema s); [|done]. injection H as <- <-. eexists. split; [done|]. by apply field_similar.
  - destruct (is_amount_operator o) eqn:Ho; [|done].
    apply bind_Ok in H as ([[l|] r1] & Ha & H); apply bind_Ok in H as ([[l'|] r2] & Hb & H); try done.
    destruct (IH' a ltac:(cbn; set_solver) _ _ _ Ha) as (ea & -> & Hea). cbn [mbind result_bind].
    destruct (IH' b ltac:(cbn; set_solver) _ _ _ Hb) as (eb & -> & Heb). cbn [mbind result_bind].
    rewrite <- (Forall2_length _ _ _ Hea), <- (Forall2_length _ _ _ Heb).
    destruct (_ <? _); [done|]. injection H as H <-.
    destruct (similar_combine_all _ _ _ _ Ho (similar_pairs _ _ _ _ Hea Heb) H) as (es & -> & Hes). eauto.
  - apply bind_Ok in H as ([[[v|text]|] r1] & Hc & H); rewrite Hc; cbn [mbind result_bind]; [| |done].
    + destruct v; [apply (IH' yes)|apply (IH' no)]; try done; cbn; set_solver.
    + apply bind_Ok in H as ([[ys|] r2] & Hy & H); [|done]. apply bind_Ok in H as ([[ns|] r3] & Hn & H); [|done].
      destruct (IH' yes ltac:(cbn; set_solver) _ _ _ Hy) as (ey & -> & Hey). cbn [mbind result_bind].
      destruct (IH' no ltac:(cbn; set_solver) _ _ _ Hn) as (en & -> & Hen). cbn [mbind result_bind].
      assert (Forall2 similar (side text true ys ++ side text false ns) (side text true ey ++ side text false en)) as Hs
        by (apply Forall2_app; by apply similar_side).
      rewrite <- (Forall2_length _ _ _ Hs). destruct (_ <=? _); [|done]. injection H as <- <-. eauto.
Qed.

(** ** Amount of the branch in force *)

Lemma forced_similar V bs es b : Forall2 similar bs es →
  List.filter (λ b : PriceBranch num, in_force V (b_times b)) bs = [b] →
  ∃ e, List.filter (λ b : PriceBranch Qc, in_force V (b_times b)) es = [e] ∧ similar b e.
Proof.
  intros H Hf. assert (Forall2 similar (List.filter (λ b : PriceBranch num, in_force V (b_times b)) bs)
    (List.filter (λ b : PriceBranch Qc, in_force V (b_times b)) es)) as Hs.
  { clear Hf. induction H as [|x y bs es Hx _ IH]; cbn; [constructor|]. pose proof Hx as (_ & <- & _).
    destruct (in_force V (b_times x)); [by constructor|done]. }
  rewrite Hf in Hs. inversion Hs as [|? e ? l He Hl]; subst. inversion Hl; subst. eauto.
Qed.

(** The row of a branch in force charges, computed with rational numbers, the
    price of the expression, whatever the quantities are. *)
Lemma branch_amount source schema facts V n bs b :
  arities_ok n → branches_of source schema facts n bs →
  List.filter (λ b : PriceBranch num, in_force V (b_times b)) bs = [b] →
  ∃ es e, branches_of (T := Qc) source schema facts n es ∧ e ∈ es ∧ similar b e ∧
    ∀ choose quantity, chosen source schema facts V choose n →
      exact_price choose quantity n = Some (row_charge quantity e).
Proof.
  intros Har (r & r' & Hb) Hf. destruct (branches_similar _ _ _ _ Har _ _ _ Hb) as (es & Hes & Hs).
  destruct (forced_similar V _ _ _ Hs Hf) as (e & He & Hbe). exists es, e. conjs; [by eexists _, _| |done|].
  - assert (In e (List.filter (λ b : PriceBranch Qc, in_force V (b_times b)) es)) as Hi by (rewrite He; by left).
    apply filter_In in Hi as [Hi _]. by apply list_elem_of_In.
  - intros choose quantity Hch. assert (branches_of (T := Qc) source schema facts n es) as Hbe' by (by eexists _, _).
    destruct (branches_exact source schema facts V choose quantity n Hch es Hbe') as (e' & He' & _ & Hx).
    rewrite He in He'. by injection He' as <-.
Qed.

(** The choices that the displayed conditions tell. *)
Definition displayed_choice (source : jsstr) (schema : BillingUsageSchema) (facts : Facts) (V : jsstr → bool) (m : node) : bool :=
  match taskDisplayCondition source schema facts m (visits m) with
  | Ok (Some c, _) => truth V c
  | _ => false
  end.

Lemma displayed_choice_chosen source schema facts V n :
  chosen source schema facts V (displayed_choice source schema facts V) n.
Proof.
  intros m c _ (r & r' & Hd). destruct (display_counted _ _ _ _ _ _ _ Hd) as [_ H]. unfold displayed_choice.
  by rewrite (H (visits m)) by lia.
Qed.
