(* ===== verification/ConditionDisplay.v ===== *)
(** * Texts of conditions

    Models [billing-expression/condition-display.ts]: a condition on the time
    or on the numbers of tokens becomes a text in the language of the reader.
    Comparisons of one field of the clock are joined to a range first.

    The translation [t] takes a key and its options; [weekday_name] is the
    short name of the weekday of a day of January 2026, and [number_text] is
    [Number.prototype.toLocaleString].  They rest on the resources of the
    console and on [Intl], and nothing is assumed of them.

    [describeBillingCondition] calls itself on the operands that
    [flattenBinary] returns.  The model returns, with the description of a
    node, those of the operands of the two connectives, so that the recursion
    is structural; [describe_eq] is the equation of the code. *)
From stdpp Require Import base list option numbers sets.
From Stdlib Require Import ZArith SpecFloat Lia.
From S2P Require Import Prelude.
From S2P Require Import JsString.
From S2P Require Import JsNumber.
From S2P Require Import Syntax.
From S2P Require Import Parser.
From S2P Require Import Compile.
From S2P Require Import Runtime.
From S2P Require Import RuntimeFacts.
From S2P Require Import EvalFacts.
From S2P Require Import Structure.
From S2P Require Import Display.
From S2P Require Import DisplayFacts.
From S2P Require Import TierExpr.
From S2P Require Import EditorFacts.
From S2P Require Import TaskDisplayFacts.

Inductive description_kind : Type := Calendar | Clock | Combined.
#[global] Instance description_kind_eq_dec : EqDecision description_kind.
Proof. solve_decision. Defined.

Record Description : Type := {
  d_text : jsstr;
  d_kind : description_kind;
  d_timezone : jsstr;
  d_disjunction : bool
}.

Record TimeComparison : Type := {
  tc_name : timefn;
  tc_timezone : jsstr;
  tc_operator : binop;
  tc_value : num
}.

(** From the first value to the one after the last. *)
Definition DOMAINS (f : timefn) : Z * Z :=
  match f with
  | Hour => (0, 24) | Minute => (0, 60) | Weekday => (0, 7) | Month => (1, 13) | Day => (1, 32)
  end%Z.

Definition is_range_operator (o : binop) : bool := match o with Oeq | Oge | Ogt | Ole | Olt => true | _ => false end.

Definition timeComparison (n : node) : result exn (option TimeComparison) :=
  match n with
  | EBin _ o (ECall _ (Ftime f) args) rhs =>
      if negb (is_range_operator o) then Ok None
      else
        match args with
        | [] => Err (HostError (js "TypeError"))
        | ELit _ (LStr zone) :: _ =>
            match rhs with
            | ELit _ (LNum x _) =>
                Ok (if is_integer x then
                      Some {| tc_name := f;
                              tc_timezone := match trim zone with [] => js "UTC" | z => z end;
                              tc_operator := o; tc_value := x |}
                    else None)
            | _ => Ok None
            end
        | _ => Ok None
        end
  | _ => Ok None
  end.

(** One round of the loop over the comparisons. *)
Definition narrow (range : num * num) (c : TimeComparison) : num * num :=
  let '(start, end_) := range in
  match tc_operator c with
  | Oge => (nmax start (tc_value c), end_)
  | Ogt => (nmax start (nadd (tc_value c) (nZ 1)), end_)
  | Olt => (start, nmin end_ (tc_value c))
  | Ole => (start, nmin end_ (nadd (tc_value c) (nZ 1)))
  | Oeq => (nmax start (tc_value c), nmin end_ (nadd (tc_value c) (nZ 1)))
  | _ => range
  end.

Definition time_range (name : timefn) (comparisons : list TimeComparison) : num * num :=
  fold_left narrow comparisons (nZ (DOMAINS name).1, nZ (DOMAINS name).2).

Section texts.
Context (t : jsstr → list (jsstr * jsval) → jsstr) (weekday_name : num → jsstr) (number_text : num → jsstr).

Definition RANGE : jsstr := js "{{start}}" ++ [8211%N] ++ js "{{end}}".
Definition span_text (from to : jsval) : jsstr := t RANGE [(js "start", from); (js "end", to)].

Definition clock_text (x : num) : jsval := JStr (pad2 (number_to_string x) ++ js ":00").

Definition describeTimeRange (first : TimeComparison) (comparisons : list TimeComparison) : option Description :=
  let '(start, end_) := time_range (tc_name first) comparisons in
  if ngeb start end_ then None
  else
    let one_value := neqb start (nsub end_ (nZ 1)) in
    let '(text, kind) :=
      match tc_name first with
      | Hour => (span_text (clock_text start) (clock_text end_), Clock)
      | Weekday =>
          let from := weekday_name (nadd (nZ 4) start) in
          let to := weekday_name (nsub (nadd (nZ 4) end_) (nZ 1)) in
          (if one_value then from else span_text (JStr from) (JStr to), Calendar)
      | name =>
          let label := match name with Minute => js "Minute" | Month => js "Month" | _ => js "Day" end in
          let values := if one_value then number_to_string start
                        else span_text (JNum start) (JNum (nsub end_ (nZ 1))) in
          (t label [] ++ js ": " ++ values, Calendar)
      end in
    Some {| d_text := text; d_kind := kind; d_timezone := tc_timezone first; d_disjunction := false |}.

(** ** Conditions of other kinds *)

Definition is_relation (o : binop) : bool := match o with Olt | Ole | Ogt | Oge | Oeq | One => true | _ => false end.

(** A comparison of a number of tokens: [Some None] is [return null]. *)
Definition describe_tokens (n : node) : option (option Description) :=
  match n with
  | EBin _ o (EVar _ v) (ELit _ (LNum x _)) =>
      if is_relation o then
        Some (match v with
              | Vp | Vc | Vlen =>
                  let label := match v with Vp => js "Input" | Vc => js "Output" | _ => js "Full input length" end in
                  Some {| d_text := t label [] ++ js " " ++ binop_text o ++ js " " ++ number_text x;
                          d_kind := Combined; d_timezone := []; d_disjunction := false |}
              | _ => None
              end)
      else None
  | _ => None
  end.

Definition negated (d : Description) : Description :=
  {| d_text := t (js "Outside these times: {{condition}}") [(js "condition", JStr (d_text d))];
     d_kind := Combined; d_timezone := d_timezone d; d_disjunction := d_disjunction d |}.

(** ** Connectives *)

(** The map of ranges in insertion order. *)
Definition range_key (c : TimeComparison) : jsstr := timefn_text (tc_name c) ++ js ":" ++ tc_timezone c.
Definition ranges : Type := list (jsstr * list TimeComparison).
Definition add_range (m : ranges) (c : TimeComparison) : ranges :=
  set_field m (range_key c) (default [] (assoc m (range_key c)) ++ [c]).

(** The loop over the operands of [&&]: their descriptions, where they are not
    comparisons of time. *)
Fixpoint conjuncts (parts : list (node * result exn (option Description))) (m : ranges) (ds : list Description)
    : result exn (option (ranges * list Description)) :=
  match parts with
  | [] => Ok (Some (m, ds))
  | (part, described) :: parts =>
      comparison ← timeComparison part;
      match comparison with
      | Some c => conjuncts parts (add_range m c) ds
      | None =>
          d ← described;
          match d with
          | None => Ok None
          | Some d => conjuncts parts m (ds ++ [d])
          end
      end
  end.

Fixpoint described_ranges (m : ranges) (ds : list Description) : option (list Description) :=
  match m with
  | [] => Some ds
  | (_, []) :: m => None
  | (_, (first :: _) as range) :: m =>
      d ← describeTimeRange first range; described_ranges m (ds ++ [d])
  end.

Fixpoint disjuncts (parts : list (node * result exn (option Description))) (ds : list Description)
    : result exn (option (list Description)) :=
  match parts with
  | [] => Ok (Some ds)
  | (_, described) :: parts =>
      d ← described;
      match d with None => Ok None | Some d => disjuncts parts (ds ++ [d]) end
  end.

Definition bracketed (conjunction : bool) (d : Description) : jsstr :=
  if conjunction && d_disjunction d then js "(" ++ d_text d ++ js ")" else d_text d.

Definition is_kind (k : description_kind) (d : Description) : bool := bool_decide (d_kind d = k).

(** What becomes of the descriptions of the operands. *)
Definition joined (o : binop) (parts : list Description) : option Description :=
  let conjunction := bool_decide (o = Oand) in
  let zones := fold_left (λ s z, set_add z s)
                 (List.filter (λ z, match z with [] => false | _ => true end) (map d_timezone parts)) [] in
  match parts with
  | [] => None
  | [d] => if 1 <? length zones then None else Some d
  | first :: rest =>
      if 1 <? length zones then None
      else
        let calendars := List.filter (is_kind Calendar) parts in
        let clocks := List.filter (is_kind Clock) parts in
        match conjunction && (length parts =? 2), calendars, clocks with
        | true, [calendar], [clock] =>
            Some {| d_text := d_text calendar ++ js " " ++ d_text clock; d_kind := Combined;
                    d_timezone := d_timezone first; d_disjunction := false |}
        | _, _, _ =>
            let separator := if conjunction then js "{{first}} and {{second}}" else js "{{first}} or {{second}}" in
            let text := fold_left (λ text d,
                t separator [(js "first", JStr text); (js "second", JStr (bracketed conjunction d))])
              rest (bracketed conjunction first) in
            Some {| d_text := text; d_kind := if length clocks =? length parts then Clock else Combined;
                    d_timezone := default [] (zones !! 0); d_disjunction := bool_decide (o = Oor) |}
        end
  end.

Definition describe_connective (o : binop) (parts : list (node * result exn (option Description)))
    : result exn (option Description) :=
  match o with
  | Oand =>
      found ← conjuncts parts [] [];
      Ok (match found with
          | Some (m, ds) => match described_ranges m ds with Some ds => joined Oand ds | None => None end
          | None => None
          end)
  | _ =>
      found ← disjuncts parts [];
      Ok (match found with Some ds => joined o ds | None => None end)
  end.

(** ** The recursion *)

Record described : Type := {
  whole : result exn (option Description);
  and_parts : list (node * result exn (option Description));
  or_parts : list (node * result exn (option Description))
}.

(** Everything but the connectives. *)
Definition describe_leaf (n : node) : result exn (option Description) :=
  match describe_tokens n with
  | Some d => Ok d
  | None =>
      single ← timeComparison n;
      Ok (match single with Some c => describeTimeRange c [c] | None => None end)
  end.

Fixpoint describe (n : node) : described :=
  match n with
  | EUn _ Unot a =>
      let w := d ← whole (describe a); Ok (option_map negated d) in
      {| whole := w; and_parts := [(n, w)]; or_parts := [(n, w)] |}
  | EBin _ Oand a b =>
      let parts := and_parts (describe a) ++ and_parts (describe b) in
      let w := describe_connective Oand parts in
      {| whole := w; and_parts := parts; or_parts := [(n, w)] |}
  | EBin _ Oor a b =>
      let parts := or_parts (describe a) ++ or_parts (describe b) in
      let w := describe_connective Oor parts in
      {| whole := w; and_parts := [(n, w)]; or_parts := parts |}
  | _ =>
      let w := describe_leaf n in
      {| whole := w; and_parts := [(n, w)]; or_parts := [(n, w)] |}
  end.

Definition describeBillingCondition (n : node) : result exn (option Description) := whole (describe n).
End texts.

Definition translate (t : jsstr → list (jsstr * jsval) → jsstr) (key : jsstr) (options : list (jsstr * jsval)) : jsstr :=
  t key (options ++ [(js "interpolation", JObj [(js "escapeValue", JBool false)])]).

(** An error of the description is caught. *)
Definition formatBillingCondition (t : jsstr → list (jsstr * jsval) → jsstr) (weekday_name number_text : num → jsstr)
    (source : jsstr) : option jsstr :=
  match compile source with
  | Err _ => None
  | Ok compiled =>
      match describeBillingCondition (translate t) weekday_name number_text (c_ast compiled) with
      | Ok (Some d) =>
          Some (match d_timezone d with
                | [] => d_text d
                | zone => translate t (js "{{condition}} ({{timezone}})")
                            [(js "condition", JStr (d_text d)); (js "timezone", JStr zone)]
                end)
      | _ => None
      end
  end.

(** ** The recursion is that of the code *)

Section recursion.
Context (t : jsstr → list (jsstr * jsval) → jsstr) (weekday_name number_text : num → jsstr).
Abbreviation describe_ := (describe t weekday_name number_text).
Abbreviation description_of := (describeBillingCondition t weekday_name number_text).

Lemma parts_flatten n :
  and_parts (describe_ n) = map (λ m, (m, description_of m)) (flattenBinary n Oand) ∧
  or_parts (describe_ n) = map (λ m, (m, description_of m)) (flattenBinary n Oor).
Proof.
  induction n as [n IH] using node_rec_children. rewrite Forall_forall in IH.
  destruct n as [| | |sp []|sp o a b|]; try done.
  destruct (IH a ltac:(cbn; set_solver)) as [A1 A2], (IH b ltac:(cbn; set_solver)) as [B1 B2].
  destruct o; split; first
    [reflexivity
    |cbn [flattenBinary]; rewrite decide_True, map_app by done; cbn [describe and_parts or_parts]; by rewrite ?A1, ?A2, ?B1, ?B2].
Qed.

(** A connective is described from the descriptions of its operands. *)
Lemma describe_eq sp o a b : o = Oand ∨ o = Oor →
  description_of (EBin sp o a b) =
  describe_connective t weekday_name o (map (λ m, (m, description_of m)) (flattenBinary (EBin sp o a b) o)).
Proof.
  intros Ho. destruct (parts_flatten a) as [A1 A2], (parts_flatten b) as [B1 B2].
  cbn [flattenBinary]. rewrite decide_True, map_app by done. unfold describeBillingCondition at 1.
  destruct Ho as [-> | ->]; cbn [describe whole]; by rewrite ?A1, ?A2, ?B1, ?B2.
Qed.
End recursion.

(** ** Whole numbers of a clock *)

Definition window : list Z := map (λ i, Z.of_nat i - 101)%Z (seq 0 203).

Lemma in_window z : (-101 ≤ z ≤ 101)%Z → z ∈ window.
Proof. intros H. apply list_elem_of_fmap. exists (Z.to_nat (z + 101)). rewrite elem_of_seq. lia. Qed.

Lemma window_ordered :
  forallb (λ a, forallb (λ b, match SFcompare (nZ a) (nZ b) with
    | Some c => bool_decide (c = (a ?= b)%Z) | None => false end) window) window = true.
Proof. vm_compute. reflexivity. Qed.

Lemma window_next : forallb (λ a, bool_decide (nadd (nZ a) (nZ 1) = nZ (a + 1))) window = true.
Proof. vm_compute. reflexivity. Qed.

Lemma small_compare a b : (-101 ≤ a ≤ 101)%Z → (-101 ≤ b ≤ 101)%Z → SFcompare (nZ a) (nZ b) = Some (a ?= b)%Z.
Proof.
  intros Ha%in_window%list_elem_of_In Hb%in_window%list_elem_of_In. pose proof window_ordered as H.
  rewrite forallb_forall in H. specialize (H a Ha). rewrite forallb_forall in H. specialize (H b Hb).
  destruct (SFcompare (nZ a) (nZ b)); [|done]. by apply bool_decide_eq_true in H as ->.
Qed.

Lemma small_next a : (-101 ≤ a ≤ 101)%Z → nadd (nZ a) (nZ 1) = nZ (a + 1).
Proof.
  intros Ha%in_window%list_elem_of_In. pose proof window_next as H. rewrite forallb_forall in H.
  specialize (H a Ha). by apply bool_decide_eq_true in H.
Qed.

Lemma small_leb a b : (-101 ≤ a ≤ 101)%Z → (-101 ≤ b ≤ 101)%Z → nleb (nZ a) (nZ b) = (a <=? b)%Z.
Proof. intros Ha Hb. unfold nleb, SFleb, Z.leb. rewrite small_compare by done. by destruct (a ?= b)%Z. Qed.
Lemma small_ltb a b : (-101 ≤ a ≤ 101)%Z → (-101 ≤ b ≤ 101)%Z → nltb (nZ a) (nZ b) = (a <? b)%Z.
Proof. intros Ha Hb. unfold nltb, SFltb, Z.ltb. rewrite small_compare by done. by destruct (a ?= b)%Z. Qed.
Lemma small_eqb a b : (-101 ≤ a ≤ 101)%Z → (-101 ≤ b ≤ 101)%Z → neqb (nZ a) (nZ b) = (a =? b)%Z.
Proof. intros Ha Hb. unfold neqb, SFeqb. rewrite small_compare, Z.eqb_compare by done. by destruct (a ?= b)%Z. Qed.

Lemma small_max a b : (-101 ≤ a ≤ 101)%Z → (-101 ≤ b ≤ 101)%Z → nmax (nZ a) (nZ b) = nZ (Z.max a b).
Proof.
  intros Ha Hb. unfold nmax, Z.max. rewrite small_compare by done. destruct (Z.compare_spec a b) as [->|H|H]; [|done|done].
  by destruct (is_neg_zero (nZ b)).
Qed.
Lemma small_min a b : (-101 ≤ a ≤ 101)%Z → (-101 ≤ b ≤ 101)%Z → nmin (nZ a) (nZ b) = nZ (Z.min a b).
Proof.
  intros Ha Hb. unfold nmin, Z.min. rewrite small_compare by done. destruct (Z.compare_spec a b) as [->|H|H]; [|done|done].
  by destruct (is_neg_zero (nZ b)).
Qed.

(** ** When a condition holds *)

Section ranges.
Context {host : Host}.

Definition compares (o : binop) (x y : num) : bool :=
  match o with
  | Oeq => neqb x y | Oge => ngeb x y | Ogt => ngtb x y | Ole => nleb x y | Olt => nltb x y | _ => false
  end.

(** The field of the clock that a comparison reads. *)
Definition field_at (now : date) (c : TimeComparison) : option num :=
  match timeInBillingZone now (tc_timezone c) with Ok fields => Some (fields (tc_name c)) | Err _ => None end.
Definition comparison_holds (now : date) (c : TimeComparison) : bool :=
  match field_at now c with Some x => compares (tc_operator c) x (tc_value c) | None => false end.

(** The clock shows a value of the range of the comparisons. *)
Definition range_holds (now : date) (comparisons : list TimeComparison) : bool :=
  match comparisons with
  | [] => true
  | first :: _ =>
      let '(start, end_) := time_range (tc_name first) comparisons in
      match field_at now first with Some x => nleb start x && nltb x end_ | None => false end
  end.

Definition ranges_of (comparisons : list TimeComparison) : ranges := fold_left add_range comparisons [].

Lemma zone_of_comparison now zone :
  timeInBillingZone now (match trim zone with [] => js "UTC" | z => z end) = timeInBillingZone now (trim zone).
Proof.
  unfold timeInBillingZone. destruct now; [|done]. rewrite trim_trim.
  destruct (trim zone) eqn:E; [done|]. by rewrite <-E, trim_trim, E.
Qed.

Lemma comparison_inv_time n c : timeComparison n = Ok (Some c) →
  ∃ sp sp1 sp2 sp3 zone rest x i, n = EBin sp (tc_operator c) (ECall sp1 (Ftime (tc_name c)) (ELit sp2 (LStr zone) :: rest))
      (ELit sp3 (LNum x i)) ∧
    tc_timezone c = match trim zone with [] => js "UTC" | z => z end ∧ tc_value c = x ∧ is_range_operator (tc_operator c) = true.
Proof.
  unfold timeComparison. intros H. destruct n as [| | | |sp o l r|]; try done. destruct l as [| |sp1 [] args| | |]; try done.
  destruct (is_range_operator o) eqn:Ho; cbn in H; [|done].
  destruct args as [|[sp2 []| | | | |] rest]; try done. destruct r as [sp3 []| | | | |]; try done.
  destruct (is_integer _); [|done]. injection H as <-. eauto 20.
Qed.

Lemma compares_value pos o x y i j r : is_range_operator o = true →
  binary_values pos o (RV (JNum x) i) (RV (JNum y) j) = Ok r → value r = JBool (compares o x y).
Proof. destruct o; try done; intros _ [= <-]; done. Qed.

(** A comparison has the value that its parts show. *)
Lemma comparison_eval env n c d st r st' : timeComparison n = Ok (Some c) → times_ok env st →
  evaluate env d n st = Ok (r, st') → value r = JBool (comparison_holds (env_now env) c).
Proof.
  intros (sp & sp1 & sp2 & sp3 & zone & rest & x & i & -> & Hz & <- & Ho)%comparison_inv_time Ht H.
  apply evaluate_binary in H as (a & b & st1 & Ha & Hb & H); [|by intros E; rewrite E in Ho..].
  apply evaluate_lit in Hb as [-> ->]. apply evaluate_inv in Ha as (_ & Ha & _). cbn -[evaluate eval_time] in Ha.
  apply bind_Ok in Ha as ([z s] & Hs & Ha). apply bind_Ok in Hs as ([r1 s1] & Hs & E).
  apply evaluate_lit in Hs as [-> ->]. injection E as -> ->.
  pose proof (eval_time_uncached env (tc_name c) z s Ht) as Hu. rewrite Ha in Hu. cbn in Hu.
  unfold comparison_holds, field_at. rewrite Hz, zone_of_comparison.
  destruct (timeInBillingZone _ (trim z)) as [fields|] eqn:E; [|done]. injection Hu as ->.
  by eapply compares_value.
Qed.

Lemma conjunction_eval env n : ∀ cs d st r st',
  rmap timeComparison (flattenBinary n Oand) = Ok (map Some cs) → times_ok env st →
  evaluate env d n st = Ok (r, st') → value r = JBool (forallb (comparison_holds (env_now env)) cs).
Proof.
  induction n as [n IH] using node_rec_children. intros cs d st r st' Hc Ht H.
  destruct (flattenBinary_cases n Oand) as [(sp & a & b & -> & Hf)|[Hf _]]; rewrite Hf in Hc.
  - apply rmap_app in Hc as (c1 & c2 & H1 & H2 & E). apply map_eq_app in E as (l1 & l2 & -> & <- & <-).
    apply Forall_cons in IH as [IHa IH]. apply Forall_cons in IH as [IHb _].
    apply evaluate_logic in H as (x & i & st1 & Hx & H); [|by left]. rewrite forallb_app.
    pose proof (IHa _ _ _ _ _ H1 Ht Hx) as [= <-]. cbn in H.
    destruct H as [[-> ->]|(-> & y & j & st2 & Hy & ->)]; [done|].
    exact (IHb _ _ _ (RV (JBool y) j) _ H2 (evaluate_times _ _ _ _ _ _ Ht Hx) Hy).
  - apply rmap_single in Hc as (c & Hc & E). destruct cs as [|c' [|]]; try done. injection E as <-.
    cbn. rewrite andb_true_r. by eapply comparison_eval.
Qed.

(** *** One range *)

(** The whole numbers of a comparison, and the field of a clock. *)
Definition small (c : TimeComparison) : Prop := ∃ k, tc_value c = nZ k ∧ (-100 ≤ k ≤ 100)%Z.
Definition in_domain (f : timefn) (x : num) : Prop := ∃ z, x = nZ z ∧ ((DOMAINS f).1 ≤ z < (DOMAINS f).2)%Z.

Definition bound (s : Z) : Prop := (-101 ≤ s ≤ 101)%Z.

Lemma narrow_holds c z s e : small c → is_range_operator (tc_operator c) = true → bound s → bound e → bound z →
  ∃ s' e', narrow (nZ s, nZ e) c = (nZ s', nZ e') ∧ bound s' ∧ bound e' ∧
    (s' <=? z)%Z && (z <? e')%Z = ((s <=? z)%Z && (z <? e)%Z) && compares (tc_operator c) (nZ z) (tc_value c).
Proof.
  intros (k & Hk & Hr) Ho Hs He Hz. unfold bound in *. unfold narrow. rewrite Hk.
  destruct (tc_operator c); try done; cbn [compares]; unfold ngeb, ngtb;
    rewrite ?small_next, ?small_max, ?small_min, ?small_leb, ?small_ltb, ?small_eqb by lia;
    do 2 eexists; (split; [reflexivity|]); lia.
Qed.

Lemma range_fold cs z : Forall (λ c, small c ∧ is_range_operator (tc_operator c) = true) cs → bound z →
  ∀ s e, bound s → bound e →
  ∃ s' e', fold_left narrow cs (nZ s, nZ e) = (nZ s', nZ e') ∧ bound s' ∧ bound e' ∧
    (s' <=? z)%Z && (z <? e')%Z =
      ((s <=? z)%Z && (z <? e)%Z) && forallb (λ c, compares (tc_operator c) (nZ z) (tc_value c)) cs.
Proof.
  intros Hcs Hz. induction Hcs as [|c cs [Hc Ho] _ IH]; intros s e Hs He.
  { exists s, e. cbn [fold_left forallb]. by rewrite andb_true_r. }
  destruct (narrow_holds c z s e) as (s1 & e1 & E & Hs1 & He1 & H); [done..|].
  destruct (IH s1 e1 Hs1 He1) as (s2 & e2 & E2 & Hs2 & He2 & H2). exists s2, e2. cbn [fold_left forallb].
  rewrite E. conjs; [done..|]. by rewrite H2, H, andb_assoc.
Qed.

(** Comparisons of one field of one clock. *)
Definition same_field (first : TimeComparison) (cs : list TimeComparison) : Prop :=
  Forall (λ c, tc_name c = tc_name first ∧ tc_timezone c = tc_timezone first) cs.
Definition sound_comparison (c : TimeComparison) : Prop := small c ∧ is_range_operator (tc_operator c) = true.

Lemma domain_bound f z : ((DOMAINS f).1 ≤ z ≤ (DOMAINS f).2)%Z → bound z.
Proof. unfold bound. destruct f; cbn; lia. Qed.

Lemma range_correct now first cs :
  (∀ x, field_at now first = Some x → in_domain (tc_name first) x) → Forall sound_comparison (first :: cs) → same_field first (first :: cs) →
  range_holds now (first :: cs) = forallb (comparison_holds now) (first :: cs) ∧
  (let '(start, end_) := time_range (tc_name first) (first :: cs) in ngeb start end_ = true →
   forallb (comparison_holds now) (first :: cs) = false).
Proof.
  intros Hd Hs Hsame. destruct (field_at now first) as [x|] eqn:Hf.
  2:{ unfold range_holds, comparison_holds. cbn [forallb]. rewrite Hf. by destruct (time_range _ _). }
  destruct (Hd x eq_refl) as (z & -> & Hz). clear Hd.
  destruct (range_fold (first :: cs) z Hs (domain_bound (tc_name first) z ltac:(lia))
    (DOMAINS (tc_name first)).1 (DOMAINS (tc_name first)).2) as (s & e & E & Hbs & Hbe & H);
    [apply (domain_bound (tc_name first)); destruct (tc_name first); cbn; lia..|].
  assert (forallb (comparison_holds now) (first :: cs) =
    forallb (λ c, compares (tc_operator c) (nZ z) (tc_value c)) (first :: cs)) as Hall.
  { clear -Hf Hsame. induction Hsame as [|c l [Hn Ht] _ IH]; [done|]. cbn [forallb]. rewrite IH. f_equal.
    unfold comparison_holds. replace (field_at now c) with (field_at now first); [by rewrite Hf|].
    unfold field_at. by rewrite Hn, Ht. }
  assert (bound z) as Hbz by (apply (domain_bound (tc_name first)); lia).
  destruct Hz as [Hz1%Z.leb_le Hz2%Z.ltb_lt]. rewrite Hz1, Hz2 in H. cbn [andb] in H.
  unfold range_holds, time_range. rewrite E, Hf, Hall, <-H, small_leb, small_ltb by done. split; [done|].
  unfold ngeb. rewrite small_leb by done. lia.
Qed.

(** *** All ranges of a conjunction *)

Lemma range_key_inj c c' : range_key c = range_key c' → tc_name c = tc_name c' ∧ tc_timezone c = tc_timezone c'.
Proof.
  unfold range_key. destruct (tc_name c), (tc_name c'); cbn; intros E; by simplify_eq.
Qed.

Definition grouped (P : TimeComparison → Prop) (m : ranges) : Prop :=
  Forall (λ e, e.2 ≠ [] ∧ Forall (λ c, range_key c = e.1 ∧ P c) e.2) m.

Lemma add_range_grouped P m c : grouped P m → P c → grouped P (add_range m c).
Proof.
  unfold grouped, add_range. intros Hm Hc. induction m as [|[k g] m IH]; cbn.
  { repeat constructor; done. }
  apply Forall_cons in Hm as [[Hn Hg] Hm]. destruct (decide (k = range_key c)) as [->|Hd].
  - rewrite jseq_refl. constructor; [|done]. cbn in *. split; [by destruct g|]. apply Forall_app. auto.
  - rewrite (proj2 (jseq_neq _ _) Hd). constructor; auto.
Qed.

Lemma add_range_all (h : TimeComparison → bool) m c :
  forallb (λ e, forallb h e.2) (add_range m c) = forallb (λ e, forallb h e.2) m && h c.
Proof.
  unfold add_range. induction m as [|[k g] m IH]; cbn; [by rewrite !andb_true_r|].
  destruct (decide (k = range_key c)) as [->|Hd].
  - rewrite jseq_refl. cbn. rewrite forallb_app. cbn. by rewrite andb_true_r, <-!andb_assoc, (andb_comm (h c)).
  - rewrite (proj2 (jseq_neq _ _) Hd). cbn. by rewrite IH, andb_assoc.
Qed.

Lemma ranges_of_spec P (h : TimeComparison → bool) cs : Forall P cs →
  grouped P (ranges_of cs) ∧ forallb (λ e, forallb h e.2) (ranges_of cs) = forallb h cs.
Proof.
  intros Hcs. unfold ranges_of. change (forallb h cs) with (forallb (λ e, forallb h e.2) ([] : ranges) && forallb h cs).
  assert (grouped P []) as Hm by constructor. revert Hm. generalize ([] : ranges).
  induction Hcs as [|c cs Hc _ IH]; intros m Hm; cbn; [by rewrite andb_true_r|].
  destruct (IH (add_range m c)) as [H1 H2]; [by apply add_range_grouped|]. by rewrite H2, add_range_all, andb_assoc.
Qed.

(** Comparisons only: the loop collects them all. *)
Lemma conjuncts_ranges parts : ∀ cs m ds,
  rmap timeComparison (map fst parts) = Ok (map Some cs) →
  conjuncts parts m ds = Ok (Some (fold_left add_range cs m, ds)).
Proof.
  induction parts as [|[n described] parts IH]; intros cs m ds H; cbn in H.
  { by destruct cs. }
  apply bind_Ok in H as (o & Ho & H). apply bind_Ok in H as (os & Hos & H).
  destruct cs as [|c cs]; [done|]. injection H as -> ->. cbn. rewrite Ho. cbn. by apply IH.
Qed.

Section described.
Context (t : jsstr → list (jsstr * jsval) → jsstr) (weekday_name number_text : num → jsstr).

Lemma ranges_undescribed m ds : described_ranges t weekday_name m ds = None →
  Exists (λ e, e.2 = [] ∨ ∃ first rest, e.2 = first :: rest ∧ describeTimeRange t weekday_name first e.2 = None) m.
Proof.
  revert ds. induction m as [|[k [|first rest]] m IH]; intros ds H; cbn in H; [done|by left; left|].
  destruct (describeTimeRange _ _ first _) as [d|] eqn:E; [right; by eapply IH|left; right; eauto].
Qed.

Lemma undescribed_range first cs : describeTimeRange t weekday_name first cs = None →
  let '(start, end_) := time_range (tc_name first) cs in ngeb start end_ = true.
Proof.
  unfold describeTimeRange. destruct (time_range _ _) as [s e]. destruct (ngeb s e); [done|]. intros H. cbv zeta in H.
  by destruct (match tc_name first with Hour => _ | _ => _ end).
Qed.

(** Comparisons of fields of clocks joined by [&&] are described by their ranges. *)
Lemma comparisons_described n cs :
  rmap timeComparison (flattenBinary n Oand) = Ok (map Some cs) →
  describeBillingCondition t weekday_name number_text n =
  Ok (match described_ranges t weekday_name (ranges_of cs) [] with Some ds => joined t Oand ds | None => None end).
Proof.
  intros H. destruct (flattenBinary_cases n Oand) as [(sp & a & b & -> & _)|[Hf _]].
  - rewrite describe_eq by auto. unfold describe_connective.
    rewrite (conjuncts_ranges _ cs) by (rewrite map_map; cbn; by rewrite map_id). done.
  - rewrite Hf in H. apply rmap_single in H as (c & Hc & E). destruct cs as [|c' [|]]; try done. injection E as <-.
    pose proof Hc as (sp & sp1 & sp2 & sp3 & zone & rest & x & i & -> & Hz & Hx & Ho)%comparison_inv_time.
    transitivity (describe_leaf t weekday_name number_text (EBin sp (tc_operator c')
      (ECall sp1 (Ftime (tc_name c')) (ELit sp2 (LStr zone) :: rest)) (ELit sp3 (LNum x i)))).
    { unfold describeBillingCondition. by destruct (tc_operator c'). }
    unfold describe_leaf. cbn [describe_tokens]. rewrite Hc. cbn.
    destruct (describeTimeRange _ _ c' [c']) as [d|]; [|done]. cbn. by destruct (d_timezone d).
Qed.
End described.

(** *** Fields of a clock *)

(** What [Intl.DateTimeFormat] documents: the parts it formats with an hour
    cycle of 0 to 23 are values of their fields. *)
Definition part_value (parts : dtf_parts) (f : timefn) : num :=
  match f with
  | Hour => number_of_string (part_hour parts)
  | Minute => number_of_string (part_minute parts)
  | Weekday => weekday_index (part_weekday parts)
  | Month => number_of_string (part_month parts)
  | Day => number_of_string (part_day parts)
  end.
Definition parts_in_domain : Prop :=
  ∀ zone resolved format moment f, date_time_format zone = Some (resolved, format) → in_domain f (part_value (format moment) f).

Lemma utc_in_domain moment f : in_domain f (nZ (utc_field moment f)).
Proof. exists (utc_field moment f). split; [done|]. pose proof (utc_field_domain moment f). destruct f; cbn in *; lia. Qed.

Lemma fields_in_domain now c x : parts_in_domain → field_at now c = Some x → in_domain (tc_name c) x.
Proof.
  intros Hp. unfold field_at, timeInBillingZone. destruct now as [moment|]; [|done].
  destruct (jseq _ (js "Local")); [done|]. destruct (negb _); [intros [= <-]; apply utc_in_domain|].
  destruct (date_time_format _) as [[resolved format]|] eqn:E; [|intros [= <-]; apply utc_in_domain].
  destruct (_ && _); intros [= <-]; [apply utc_in_domain|]. exact (Hp _ _ _ moment (tc_name c) E).
Qed.

Lemma ranges_correct t weekday_name now cs : parts_in_domain → Forall sound_comparison cs →
  forallb (λ e, range_holds now e.2) (ranges_of cs) = forallb (comparison_holds now) cs ∧
  (described_ranges t weekday_name (ranges_of cs) [] = None → forallb (comparison_holds now) cs = false).
Proof.
  intros Hp Hcs. destruct (ranges_of_spec _ (comparison_holds now) cs Hcs) as [Hg <-].
  assert (∀ k first rest, (k, first :: rest) ∈ ranges_of cs →
    range_holds now (first :: rest) = forallb (comparison_holds now) (first :: rest) ∧
    (describeTimeRange t weekday_name first (first :: rest) = None →
     forallb (comparison_holds now) (first :: rest) = false)) as Hone.
  { intros k first rest Hin. unfold grouped in Hg. rewrite Forall_forall in Hg. apply Hg in Hin as [_ Hin]. cbn in Hin.
    destruct (range_correct now first rest) as [H1 H2].
    - intros x. by apply fields_in_domain.
    - eapply Forall_impl; [exact Hin|]. by intros c [].
    - apply Forall_cons in Hin as [[Hk _] Hin']. constructor; [done|]. eapply Forall_impl; [exact Hin'|].
      intros c [Hc _]. apply range_key_inj. congruence.
    - split; [done|]. intros Hn. apply undescribed_range in Hn. destruct (time_range _ _). auto. }
  split.
  - clear -Hone Hg. induction Hg as [|[k [|first rest]] m [Hn _] _ IH]; [done|done|]. cbn [forallb snd].
    f_equal; [apply (Hone k first rest); by left|]. apply IH. intros. apply (Hone k0). by right.
  - intros Hn%ranges_undescribed. apply Exists_exists in Hn as ([k g] & Hin & [Hnil|(first & rest & E & Hn)]); cbn in E || cbn in Hnil.
    + unfold grouped in Hg. rewrite Forall_forall in Hg. by destruct (Hg _ Hin).
    + subst g. apply not_true_iff_false. rewrite forallb_forall. intros Hall. apply list_elem_of_In in Hin as Hin'.
      specialize (Hall _ Hin'). cbn in Hall, Hn. apply (Hone k first rest Hin) in Hn. cbn in Hn. congruence.
Qed.

(** ** A described condition *)

Lemma comparison_operators n cs : rmap timeComparison n = Ok (map Some cs) →
  Forall (λ c, is_range_operator (tc_operator c) = true) cs.
Proof.
  revert cs. induction n as [|m n IH]; intros cs H; cbn in H; [by destruct cs|].
  apply bind_Ok in H as (o & Ho & H). apply bind_Ok in H as (os & Hos & H).
  destruct cs as [|c cs]; [done|]. injection H as -> ->. constructor; [|by apply IH].
  by apply comparison_inv_time in Ho as (? & ? & ? & ? & ? & ? & ? & ? & _ & _ & _ & ?).
Qed.

Lemma condition_value c n now cs b :
  rmap timeComparison (flattenBinary n Oand) = Ok (map Some cs) →
  evaluateBillingCondition c n now = Some b → b = forallb (comparison_holds now) cs.
Proof.
  unfold evaluateBillingCondition. intros Hcs H.
  destruct (new_runtime now c _) as [[env st]|] eqn:E; [|done]. cbn -[evaluate] in H.
  destruct (evaluate env 0 n st) as [[v st']|] eqn:Ev; [|done].
  pose proof (conjunction_eval env n cs 0 st v st' Hcs (new_runtime_times _ _ _ _ _ E) Ev) as Hv.
  rewrite Hv in H. injection H as <-.
  apply new_runtime_Ok in E as (_ & _ & -> & _). done.
Qed.
End ranges.
