(* ===== verification/LanguageTheorems.v ===== *)
(** * Correctness of the billing-expression language

    The theorems about traversal, parsing, static checks, compilation and
    evaluation, each with an instance on a concrete expression. *)
From stdpp Require Import base list option numbers sets relations.
From Stdlib Require Import ZArith SpecFloat Lia.
From S2P Require Import Prelude.
From S2P Require Import JsString.
From S2P Require Import JsNumber.
From S2P Require Import Syntax.
From S2P Require Import Parser.
From S2P Require Import ParserFacts.
From S2P Require Import Compile.
From S2P Require Import Runtime.
From S2P Require Import CompileFacts.
From S2P Require Import RuntimeFacts.
From S2P Require Import EvalFacts.
From S2P Require Import Display.
From S2P Require Import DisplayFacts.
From S2P Require Import Json.
From S2P Require Import BillingExpr.
From S2P Require Import TierExpr.
From S2P Require Import EditorFacts.

(** ** Sample inputs *)

(** Expression text with single quotes written for double quotes. *)
Definition src (s : string) : jsstr := map (λ c, if (c =? SQUOTE)%N then DQUOTE else c) (js s).

Definition ascii_lower (c : N) : N := if is_upper c then (c + 32)%N else c.

(** A host without time-zone data: every zone falls back to UTC. *)
Definition utc_host : Host :=
  {| to_lower_case := map ascii_lower; date_time_format := λ _, None |}.

Definition no_context : BillingSimulationContext :=
  {| imageCount := None; tokens := []; request := None; usage := None; now := None |}.

Definition token_context (p c : Z) : BillingSimulationContext :=
  {| imageCount := None; tokens := [(js "p", JNum (nZ p)); (js "c", JNum (nZ c))];
     request := None; usage := None; now := Some (Some 0%Z) |}.

Definition body_context (fields : list (jsstr * jsval)) : BillingSimulationContext :=
  {| imageCount := None; tokens := []; request := Some {| body := JObj fields; request_headers := [] |};
     usage := None; now := None |}.

(** The compiled form of a text that compiles. *)
Definition compiled_or_empty (source : jsstr) : CompiledBillingExpression :=
  match compile source with
  | Ok c => c
  | Err _ => {| c_source := []; c_ast := ELit (Span 0 0) LNull; c_variables := [];
                c_functions := []; c_requestRules := [] |}
  end.

(** A fresh runtime for a compiled text. *)
Definition fresh (host : Host) (source : jsstr) (ctx : BillingSimulationContext) : renv * rstate :=
  match @new_runtime host None (compiled_or_empty source) ctx with
  | Ok es => es
  | Err _ => ({| compiled := compiled_or_empty source; context := ctx; env_now := None; headers := [] |},
              {| requestRules := []; matchedTier := []; billingUnit := UToken; fixedPrice := None;
                 timeValues := [] |})
  end.

(** ** Traversal *)

(** C15: the explicit-stack traversal [visitExpression] visits exactly the
    nodes a recursive postorder visits, in that order, and throws the depth
    error exactly where a recursion with the same bound would. *)
Theorem visit_is_bounded_postorder {S} (visitor : node → S → result exn S) n s :
  visitExpression visitor n s = visit_rec visitor 0 n s.
Proof. apply visitExpression_rec. Qed.

(** [expressionDependencies] returns exactly the variables and functions
    that occur in the tree, for every tree within the depth bound. *)
Theorem dependencies_exact n :
  height n ≤ 256 → ∃ vs fs, expressionDependencies n = Ok (vs, fs) ∧
    (∀ v, v ∈ vs ↔ ∃ sp, subnode (EVar sp v) n) ∧
    (∀ f, f ∈ fs ↔ ∃ sp args, subnode (ECall sp f args) n).
Proof. apply expressionDependencies_spec. Qed.

Lemma dependencies_exact_witness :
  ∃ vs fs, expressionDependencies (c_ast (compiled_or_empty (src "max(p, c) * 2"))) = Ok (vs, fs) ∧
    Vp ∈ vs ∧ Fmax ∈ fs.
Proof.
  destruct (dependencies_exact (c_ast (compiled_or_empty (src "max(p, c) * 2"))))
    as (vs & fs & H & _).
  - vm_compute. lia.
  - exists vs, fs. split; [exact H|]. vm_compute in H. injection H as <- <-. split; left.
Defined.

(** ** Parsing *)

(** C16: parsing terminates: the fuel of the modelled mutual recursion is
    always enough, for every source text. *)
Theorem parse_terminates source : parse source ≠ Err OutOfFuel.
Proof. apply parse_never_out_of_fuel. Qed.

(** A parsed tree is well placed: spans lie inside the text, children are
    in order inside their parent and strictly narrower, and every call has
    its declared number of arguments. *)
Theorem parse_well_placed source n :
  parse source = Ok n → wf_node n ∧ node_end n ≤ length source.
Proof. apply parse_wf. Qed.

Lemma parse_well_placed_witness :
  wf_node (c_ast (compiled_or_empty (src "p > 5 ? tier('a', p) : tier('b', (c))"))).
Proof.
  apply (parse_well_placed (src "p > 5 ? tier('a', p) : tier('b', (c))")).
  vm_compute. reflexivity.
Defined.

(** ** Static checks *)

(** C28: the type checker decides the typing relation: of the trees whose calls
    have the declared number of arguments, as the parser makes them, and which
    are not higher than the limit of the traversal, it accepts those that are
    typeable, and for the others it throws a type error. *)
Theorem type_checker_decides n :
  arities_ok n → height n ≤ 256 →
  match checkExpressionTypes n with
  | Ok _ => ∃ t, has_type n t
  | Err e => (∃ d p, e = BillingExpressionError (Diagnostic Type_ d p)) ∧ ¬ ∃ t, has_type n t
  end.
Proof. apply checkExpressionTypes_spec. Qed.

Lemma type_checker_decides_witness :
  ∃ t, has_type (c_ast (compiled_or_empty (src "tier('a', p * 2)"))) t.
Proof.
  pose proof (type_checker_decides (c_ast (compiled_or_empty (src "tier('a', p * 2)")))) as H.
  vm_compute in H. apply H.
  - apply wf_arities, (parse_wf (src "tier('a', p * 2)")). vm_compute. reflexivity.
  - lia.
Defined.

(** ** Compilation *)

(** C14: over any sequence of compilations the cache is transparent: every
    answer is what a fresh compilation gives, and the cache never holds more
    than 128 entries, one per source text. *)
Theorem cache_transparent sources :
  (compile_session sources []).1 = map compile sources ∧
  cache_ok (compile_session sources []).2.
Proof. apply compile_session_ok, cache_ok_nil. Qed.

(** ** Evaluation *)

Section evaluation.
Context {host : Host}.

(** C10: static types are preserved: evaluating a typed tree (without an
    addition of two operands of dynamic type) gives a value of its type. *)
Theorem evaluation_preserves_types env n t d st v st' :
  has_type n t → static_additions n → evaluate env d n st = Ok (v, st') →
  value_has_type (value v) t.
Proof. apply evaluate_typed. Qed.

(** C8: the rule trace of a success is exact: it lists the compiled request
    rules in order with their condition text and multiplier, and a rule is
    marked exactly when this run evaluates its conditional (it is not in a
    branch or operand that was skipped) and its condition has the value true
    in this run, with its context, headers and time; the cost is finite and
    not negative. *)
Theorem trace_sound t source ctx r :
  evaluateBillingExpression t source ctx = Ok r →
  is_finite (cost r) = true ∧ nltb (cost r) NZERO = false ∧
  ∃ c, compile source = Ok c ∧ length (s_requestRules r) = length (c_requestRules c) ∧
    ∀ i traced, s_requestRules r !! i = Some traced →
      ∃ rule, c_requestRules c !! i = Some rule ∧
        cond traced = rule_cond rule ∧ multiplier traced = rule_multiplier rule ∧
        (matched traced = true ↔
         evaluated (value_in t c ctx) (c_ast c) (rule_node rule) ∧
         value_in t c ctx (rule_condition rule) = Some (JBool true)).
Proof.
  intros H. apply evaluateBillingExpression_Ok in H as (c & Hc & H).
  apply run_compiled_Ok in H as (env & st & st' & x & j & _ & Hn & He & Hf & Hx & <- & _ & _ & _ & Hr).
  pose proof Hn as (Hcomp & _ & _ & _ & _ & _ & _ & Hst)%new_runtime_Ok.
  conjs; [done..|]. exists c. split; [done|]. pose proof (run_marks _ _ _ _ _ _ _ _ Hn Hcomp He) as M.
  rewrite Hr. split; [apply marks_length in M; by rewrite M, Hst, length_map|].
  intros i traced Hi. specialize (M i). rewrite Hst, Hi, list_lookup_fmap in M.
  destruct (c_requestRules c !! i) as [rule|] eqn:Er; [|done]. cbn in M. destruct M as (M1 & M2 & M3).
  exists rule. conjs; [done..|]. rewrite M3, (rule_fires _ _ _ _ _ Hc Er). naive_solver.
Qed.

(** C11: a compiled expression fails only in the documented ways: never with
    an exception of the language; with [missing_context] only if a part of
    the expression really needs an absent part of the context; and with the
    depth limit only if the tree has the maximal height 256. *)
Theorem failures_are_classified t source c ctx e :
  compile source = Ok c → run_compiled t c ctx = Err e →
  ∃ d, e = BillingExpressionError d ∧ code d ≠ Syntax ∧
    (code d = MissingContext → ∃ env m, context env = ctx ∧ subnode m (c_ast c) ∧ missing env m) ∧
    (code d = Limit → detail d = js "request value depth" ∨ height (c_ast c) = 256).
Proof.
  intros Hc H. pose proof (compile_ok _ _ Hc) as Hok. unfold run_compiled in H.
  apply bind_Err in H as [H|([] & _ & H)].
  { apply check_tokens_Err in H as [name ->]. eexists. by split. }
  apply bind_Err in H as [H|([env st] & Hn & H)].
  { unfold new_runtime in H. apply bind_Err in H as [H|(? & _ & H)]; [|done].
    apply read_headers_Err in H as ->. eexists. by split. }
  apply new_runtime_Ok in Hn as (_ & Hctx & _).
  apply bind_Err in H as [H|([v st'] & _ & H)].
  2: { unfold throw in H. repeat case_match; simplify_eq/=; eexists; by split. }
  apply evaluate_Err in H as [[-> Hh]|(m & Hm & H)].
  - eexists. conjs; [done..|]. intros _. right. destruct Hok. cbn in Hh. lia.
  - destruct H as [k d p Hk| |d p Hmiss|msg Har].
    + eexists. conjs; [done|..]; cbn; intuition congruence.
    + eexists. conjs; [done..|]. intros _. by left.
    + eexists. conjs; [done..| |done]. intros _. exists env, m. done.
    + exfalso. apply Har. by apply (wf_arities _ (ok_wf _ _ Hok)).
Qed.

(** A result depends only on the parts of the context that the
    expression names: runtimes that agree on the inputs of every part of the
    tree give the same outcome. *)
Theorem unnamed_context_is_irrelevant env env' n d st :
  c_requestRules (compiled env) = c_requestRules (compiled env') →
  (∀ m, subnode m n → agree_at env env' m) →
  evaluate env d n st = evaluate env' d n st.
Proof. apply evaluate_agree. Qed.

(** The interpreter's state is only an output: from any two states with
    sound time caches the same expression has the same value or exception,
    and it leaves both caches sound. *)
Theorem state_never_leaks_into_values env n d s1 s2 :
  times_ok env s1 → times_ok env s2 →
  same_outcome env (evaluate env d n s1) (evaluate env d n s2).
Proof. apply evaluate_same. Qed.

(** C9: an expression with a fixed price commits to exactly one leaf: the
    settled tier is the label of one tier call of the source, and the unit
    and fixed price are those of that call. *)
Theorem fixed_price_commits_to_one_tier t source c ctx r :
  compile source = Ok c → Ffixed ∈ c_functions c →
  evaluateBillingExpression t source ctx = Ok r →
  ∃ env sp label price, context env = ctx ∧
    subnode (ECall sp Ftier [label; price]) (c_ast c) ∧
    (∃ d s0 i s1, evaluate env d label s0 = Ok (RV (JStr (s_matchedTier r)) i, s1)) ∧
    ((∃ spf spa amount j, price = ECall spf Ffixed [ELit spa (LNum amount j)] ∧
        nleb NZERO amount = true ∧ s_billingUnit r = URequest ∧ s_fixedPrice r = Some amount)
     ∨ marker_free price ∧ s_billingUnit r = UToken ∧ s_fixedPrice r = None).
Proof.
  intros Hc Hf H. pose proof (compile_ok _ _ Hc) as Hok.
  apply evaluateBillingExpression_Ok in H as (c' & Hc' & H). rewrite Hc in Hc'. injection Hc' as <-.
  apply run_compiled_Ok in H as (env & st & st' & x & j & _ & Hn & He & _ & _ & _ & Hu & Hp & Hm & _).
  apply new_runtime_Ok in Hn as (_ & Hctx & _ & _ & Hu0 & Hp0 & _).
  eapply validated_committed in He as (sp & label & price & Hs & Hl & Hcase);
    [|exact (ok_rules _ _ Hok)|exact (wf_arities _ (ok_wf _ _ Hok))|exact (ok_fixed _ _ Hok Hf)].
  exists env, sp, label, price. rewrite Hm, Hu, Hp. conjs; [done..|].
  destruct Hcase as [(spf & spa & a & k & H1 & H2 & _ & H3 & H4)|(H1 & H2 & H3)].
  - left. exists spf, spa, a, k. done.
  - right. by rewrite H2, H3.
Qed.
End evaluation.

(** ** Instances *)

Definition two_tiers : jsstr := src "p > 5 ? tier('a', p * 2) : tier('b', c)".
Definition two_tiers_run : renv * rstate := fresh utc_host two_tiers (token_context 10 1).

(** No addition occurs in a tree. *)
Definition addition_free (n : node) : bool :=
  forallb (λ m, match m with EBin _ Oadd _ _ => false | _ => true end) (postorder n).

Lemma addition_free_static n : addition_free n = true → static_additions n.
Proof.
  unfold addition_free. rewrite forallb_forall. intros H sp a b Hs.
  apply elem_of_postorder, list_elem_of_In, H in Hs. done.
Qed.

Lemma evaluation_preserves_types_witness :
  ∃ t v st', has_type (c_ast (compiled_or_empty two_tiers)) t ∧
    @evaluate utc_host two_tiers_run.1 0 (c_ast (compiled_or_empty two_tiers)) two_tiers_run.2 = Ok (v, st') ∧
    value_has_type (value v) t.
Proof.
  assert (Hc : compile two_tiers = Ok (compiled_or_empty two_tiers)) by (vm_compute; reflexivity).
  destruct (ok_typed _ _ (compile_ok _ _ Hc)) as [t Ht].
  destruct (@evaluate utc_host two_tiers_run.1 0 (c_ast (compiled_or_empty two_tiers)) two_tiers_run.2)
    as [[v st']|e] eqn:E; [|vm_compute in E; discriminate].
  exists t, v, st'. conjs; [exact Ht|reflexivity|].
  eapply (@evaluation_preserves_types utc_host); [exact Ht| |exact E].
  apply addition_free_static. vm_compute. reflexivity.
Defined.

Definition ruled : jsstr := src "tier('a', p) * (param('x') == 1 ? 3 : 1)".

Lemma trace_sound_witness :
  ∃ r, @evaluateBillingExpression utc_host None ruled
         {| imageCount := None; tokens := [(js "p", JNum (nZ 4))];
            request := Some {| body := JObj [(js "x", JNum (nZ 1))]; request_headers := [] |};
            usage := None; now := None |} = Ok r ∧
       cost r = nZ 12 ∧ length (s_requestRules r) = 1 ∧
       ∃ traced, s_requestRules r = [traced] ∧ matched traced = true.
Proof.
  match goal with |- ∃ r, ?e = Ok r ∧ _ => destruct e as [r|f] eqn:E end;
    [|vm_compute in E; discriminate].
  exists r. split; [reflexivity|]. split.
  - vm_compute in E. injection E as <-. vm_compute. reflexivity.
  - destruct (@trace_sound utc_host _ _ _ _ E) as (_ & _ & c & Hc & Hl & Ht).
    vm_compute in Hc. injection Hc as <-. split; [exact Hl|].
    destruct (s_requestRules r) as [|traced [|]]; try discriminate Hl. exists traced. split; [reflexivity|].
    destruct (Ht 0 traced eq_refl) as (rule & Hr & _ & _ & Hm). injection Hr as <-. apply Hm. split.
    + eapply evaluated_part; [right; left|]. apply evaluated_here.
    + vm_compute. reflexivity.
Defined.

Lemma failures_are_classified_witness :
  ∃ d, @run_compiled utc_host None (compiled_or_empty two_tiers) no_context
       = Err (BillingExpressionError d) ∧ code d = MissingContext ∧
    ∃ env m, context env = no_context ∧ subnode m (c_ast (compiled_or_empty two_tiers)) ∧ missing env m.
Proof.
  destruct (@run_compiled utc_host None (compiled_or_empty two_tiers) no_context) as [r|e] eqn:E;
    [vm_compute in E; discriminate|].
  destruct (@failures_are_classified utc_host None two_tiers (compiled_or_empty two_tiers) no_context e)
    as (d & -> & _ & Hm & _); [vm_compute; reflexivity|exact E|].
  exists d. vm_compute in E. injection E as <-. split; [reflexivity|]. split; [reflexivity|].
  apply Hm. reflexivity.
Defined.

(** A context that differs only in a token the expression does not name. *)
Definition with_spare_token : renv :=
  {| compiled := compiled two_tiers_run.1;
     context := {| imageCount := None;
                   tokens := [(js "p", JNum (nZ 10)); (js "c", JNum (nZ 1)); (js "ai", JNum (nZ 7))];
                   request := None; usage := None; now := Some (Some 0%Z) |};
     env_now := Some 0%Z; headers := [] |}.

Definition agree_at_b (env env' : renv) (m : node) : bool :=
  match m with
  | EVar _ Vimage_count => false
  | EVar _ v =>
      match own (tokens (context env)) (bvar_text v), own (tokens (context env')) (bvar_text v) with
      | Some (JNum x), Some (JNum y) => bool_decide (x = y)
      | _, _ => false
      end
  | ECall _ (Fparam | Fheader | Fu | Ftime _) _ => false
  | _ => true
  end.

Lemma agree_at_b_sound env env' m : agree_at_b env env' m = true → agree_at env env' m.
Proof.
  destruct m as [|sp v|sp f args| | |]; try done.
  - unfold agree_at_b, agree_at. destruct v; try done;
      repeat (case_match; try done); intros ->%bool_decide_eq_true; done.
  - by destruct f.
Qed.

Lemma agree_everywhere env env' n :
  forallb (agree_at_b env env') (postorder n) = true → ∀ m, subnode m n → agree_at env env' m.
Proof.
  rewrite forallb_forall. intros H m Hm. apply agree_at_b_sound, H, list_elem_of_In.
  by apply elem_of_postorder.
Qed.

Lemma unnamed_context_is_irrelevant_witness :
  @evaluate utc_host two_tiers_run.1 0 (c_ast (compiled_or_empty two_tiers)) two_tiers_run.2
  = @evaluate utc_host with_spare_token 0 (c_ast (compiled_or_empty two_tiers)) two_tiers_run.2.
Proof.
  apply (@unnamed_context_is_irrelevant utc_host); [reflexivity|].
  apply agree_everywhere. vm_compute. reflexivity.
Defined.

Lemma state_never_leaks_into_values_witness :
  let st := two_tiers_run.2 in
  same_outcome (host := utc_host) two_tiers_run.1
    (@evaluate utc_host two_tiers_run.1 0 (c_ast (compiled_or_empty two_tiers)) st)
    (@evaluate utc_host two_tiers_run.1 0 (c_ast (compiled_or_empty two_tiers)) (set_tier (js "old") st)).
Proof.
  apply (@state_never_leaks_into_values utc_host); intros z f H; vm_compute in H; discriminate.
Defined.

Definition flat_fee : jsstr := src "p > 5 ? tier('big', fixed(0.5)) : tier('small', p)".

Lemma fixed_price_commits_to_one_tier_witness :
  ∃ r, @evaluateBillingExpression utc_host None flat_fee (token_context 10 0) = Ok r ∧
    s_fixedPrice r = Some (number_of_string (js "0.5")) ∧
    ∃ sp label price, subnode (ECall sp Ftier [label; price]) (c_ast (compiled_or_empty flat_fee)).
Proof.
  destruct (@evaluateBillingExpression utc_host None flat_fee (token_context 10 0)) as [r|f] eqn:E;
    [|vm_compute in E; discriminate].
  exists r. split; [reflexivity|]. split; [vm_compute in E; injection E as <-; vm_compute; reflexivity|].
  destruct (@fixed_price_commits_to_one_tier utc_host None flat_fee (compiled_or_empty flat_fee)
    (token_context 10 0) r) as (env & sp & label & price & _ & Hs & _).
  - vm_compute. reflexivity.
  - vm_compute. repeat first [apply list_elem_of_here | apply list_elem_of_further].
  - exact E.
  - eauto.
Defined.

(** ** The UTC clock *)

(** The UTC clock follows the Gregorian calendar: day 0 is 1970-01-01,
    consecutive day numbers are consecutive days, and at every time, before and
    after the epoch, each clock field is in its domain. *)
Theorem utc_clock_is_gregorian days t f :
  civil_from_days 0 = (1970, 1, 1)%Z ∧
  civil_from_days (days + 1) = next_day (civil_from_days days) ∧
  ((field_domain f).1 <= utc_field t f <= (field_domain f).2)%Z.
Proof. split; [apply civil_epoch|]. split; [apply civil_successor|apply utc_field_domain]. Qed.

(** ** Where the checks and the evaluator disagree *)

Definition dynamic_sum : jsstr := src "param('a') + param('b')".

(** The checker types a sum of two dynamic operands as a number, but on
    string parameters the evaluator concatenates them: a compiled expression of
    static type number evaluates to a string. *)
Theorem dynamic_sum_is_not_a_number :
  has_type (c_ast (compiled_or_empty dynamic_sum)) TNumber ∧
  let env := fresh utc_host dynamic_sum
    (body_context [(js "a", JStr (js "x")); (js "b", JStr (js "y"))]) in
  match @evaluate utc_host env.1 0 (c_ast (compiled_or_empty dynamic_sum)) env.2 with
  | Ok (v, _) => value v = JStr (js "xy")
  | Err _ => False
  end.
Proof.
  split; [|vm_compute; reflexivity].
  assert (Hp : ∀ sp sps s, has_type (ECall sp Fparam [ELit sps (LStr s)]) TDynamic).
  { intros. apply (has_type_intro _ [TString]); [|reflexivity].
    repeat constructor. by apply (has_type_intro _ []). }
  vm_compute. by apply (has_type_intro _ [TDynamic; TDynamic]); [repeat constructor; apply Hp|].
Qed.

(** The tree of [1 + 1 + ... + 1] with [k] additions, of height [k]. *)
Fixpoint sum_tree (k : nat) : node :=
  match k with
  | 0 => ELit (Span 0 1) (LNum (nZ 1) true)
  | S k => EBin (Span 0 (2 * k + 3)) Oadd (sum_tree k) (ELit (Span (2 * k + 2) (2 * k + 3)) (LNum (nZ 1) true))
  end.

Lemma sum_tree_height k : height (sum_tree k) = k.
Proof. induction k as [|k IH]; [done|]. cbn. rewrite IH. lia. Qed.

Lemma sum_tree_typed k : has_type (sum_tree k) TNumber.
Proof.
  induction k as [|k IH]; [by apply (has_type_intro _ [])|].
  apply (has_type_intro _ [TNumber; TNumber]); [|done]. repeat constructor; [done|].
  by apply (has_type_intro _ []).
Qed.

Lemma sum_tree_arities k : arities_ok (sum_tree k).
Proof.
  induction k as [|k IH]; intros m Hm; inversion Hm as [|? c Hc Hs]; subst; try done.
  - cbn in Hc. set_solver.
  - cbn in Hc. apply elem_of_cons in Hc as [->|Hc]; [by apply IH|].
    apply list_elem_of_singleton in Hc as ->. inversion Hs as [|? c Hc]; subst; [done|]. cbn in Hc. set_solver.
Qed.

Lemma sum_tree_too_deep {host : Host} env k : ∀ d st,
  256 ≤ d + k → evaluate env d (sum_tree k) st = Err depth_error.
Proof.
  induction k as [|k IH]; intros d st Hd; rewrite evaluate_eq;
    (destruct (Nat.ltb_spec 256 (S d)); [done|]); [lia|].
  cbn -[evaluate]. by rewrite IH by lia.
Qed.

(** The two depth limits differ by one: a tree of height 256 passes every
    traversal of the compiler, and evaluating it always hits the limit. *)
Theorem tall_tree_is_checked_but_never_evaluated {host : Host} env st :
  checkExpressionTypes (sum_tree 256) = Ok tt ∧
  is_ok (expressionDependencies (sum_tree 256)) = true ∧
  evaluate env 0 (sum_tree 256) st = Err depth_error.
Proof.
  pose proof (sum_tree_height 256) as Hh. conjs.
  - pose proof (checkExpressionTypes_spec (sum_tree 256) (sum_tree_arities 256) ltac:(lia)) as H.
    destruct (checkExpressionTypes (sum_tree 256)) as [[]|]; [done|].
    destruct H as [_ []]. eexists. apply sum_tree_typed.
  - destruct (expressionDependencies_spec (sum_tree 256) ltac:(lia)) as (vs & fs & -> & _). done.
  - apply sum_tree_too_deep. lia.
Qed.
