(* ===== verification/EditorTheorems.v ===== *)
(** * Correctness of price tables and editors

    The theorems about the readers, the visual editor, the request-rule
    editor, the estimator, the settled rows and the price matrix of tasks,
    each with an instance on a concrete expression, and the fixtures that the
    Go engine and the console share. *)
From stdpp Require Import base list option numbers sets relations.
From Stdlib Require Import ZArith SpecFloat Qcanon Lia.
From S2P Require Import Prelude.
From S2P Require Import JsString.
From S2P Require Import JsNumber.
From S2P Require Import Syntax.
From S2P Require Import Parser.
From S2P Require Import ParserFacts.
From S2P Require Import Compile.
From S2P Require Import Runtime.
From S2P Require Import CompileFacts.
From S2P Require Import RuntimeFacts.
From S2P Require Import EvalFacts.
From S2P Require Import Structure.
From S2P Require Import Display.
From S2P Require Import DisplayFacts.
From S2P Require Import PriceTableFacts.
From S2P Require Import Visual.
From S2P Require Import VisualFacts.
From S2P Require Import Json.
From S2P Require Import BillingExpr.
From S2P Require Import EditorFacts.
From S2P Require Import TierExpr.
From S2P Require Import TaskExpr.
From S2P Require Import TaskExprFacts.
From S2P Require Import TaskDisplay.
From S2P Require Import TaskDisplayFacts.
From S2P Require Import TaskAmounts.
From S2P Require Import ConditionDisplay.
From S2P Require Import LanguageTheorems.

(** ** Price tables *)

Section tables.
Context {host : Host}.

(** The bill [r] is the one tier [t] displays: its label, its unit, and a
    cost that is the sum of its prices over the quantities of the context. *)
Definition billed_as (env : renv) (t : TokenTier) (r : BillingSuccess) : Prop :=
  s_matchedTier r = t_label t ∧
  ∃ x, image_scaled env x (cost r) ∧ (t_imageCount t = false → cost r = x) ∧
    match t_billingUnit t with
    | URequest => ∃ amount, t_fixedPrice t = Some amount ∧ s_fixedPrice r = Some amount ∧
        s_billingUnit r = URequest ∧ x = nmul amount (nZ 1000000)
    | UToken => linear_cost env (t_prices t) x ∧ s_billingUnit r = UToken ∧ s_fixedPrice r = None
    end.

Lemma charged_billed env c ctx t0 r st st' t :
  new_runtime t0 c ctx = Ok (env, st) →
  s_billingUnit r = billingUnit st' → s_fixedPrice r = fixedPrice st' →
  s_matchedTier r = matchedTier st' → tier_charged env t (cost r) st st' → billed_as env t r.
Proof.
  intros Hn Hu Hp Hm (x & (Hl & Hc) & Hs & Hi).
  apply new_runtime_Ok in Hn as (_ & _ & _ & _ & Hu0 & Hp0 & _).
  split; [congruence|]. exists x. conjs; [done..|].
  destruct (t_billingUnit t).
  - destruct Hc as (Hlin & H1 & H2). conjs; [done|congruence..].
  - destruct Hc as (a & H1 & H2 & H3 & H4). exists a. conjs; [done|congruence..|done].
Qed.

(** C1: when a price table can be read from an expression, every successful
    evaluation is billed as the first displayed tier whose conditions hold in
    the context. *)
Theorem token_table_is_what_is_billed t source c ctx tiers r :
  compile source = Ok c → readTokenTierChain (c_ast c) = Ok tiers →
  evaluateBillingExpression t source ctx = Ok r →
  ∃ env tier, context env = ctx ∧ first_match env tiers = Some tier ∧ billed_as env tier r.
Proof.
  intros Hc Hr H. apply evaluateBillingExpression_Ok in H as (c' & Hc' & H).
  rewrite Hc in Hc'. injection Hc' as <-.
  apply run_compiled_Ok in H as (env & st & st' & x & j & _ & Hn & He & _ & _ & Hx & Hu & Hp & Hm & _).
  eapply readTokenTierChain_eval in He as (tier & y & Hf & Hy & Hch); [|done]. cbn in Hy. injection Hy as <-.
  subst x. exists env, tier. conjs; [by apply new_runtime_Ok in Hn as (_ & ? & _)|done|].
  by eapply charged_billed.
Qed.

(** C2: for prices that change with the clock, the tiers shown as current at
    a time are exactly the tiers of the one branch the evaluator takes then,
    and a successful evaluation at that time is billed as the first of them
    whose conditions hold. *)
Theorem current_time_table_is_what_is_billed t source c ctx tiers current r :
  compile source = Ok c →
  readTimeTokenPricing source (Some (default t (now ctx))) = Ok (tiers, current) →
  evaluateBillingExpression t source ctx = Ok r →
  ∃ env path chain tier, context env = ctx ∧
    current = map (time_tier source path) chain ∧ first_match env chain = Some tier ∧
    billed_as env tier r.
Proof.
  intros Hc Hr H. apply evaluateBillingExpression_Ok in H as (c' & Hc' & H).
  rewrite Hc in Hc'. injection Hc' as <-.
  apply run_compiled_Ok in H as (env & st & st' & x & j & _ & Hn & He & _ & _ & Hx & Hu & Hp & Hm & _).
  pose proof (new_runtime_Ok _ _ _ _ _ Hn) as (Hcomp & Hctx & Hnow & _ & _ & _ & Ht & _).
  unfold readTimeTokenPricing in Hr. rewrite Hc in Hr.
  apply bind_Ok in Hr as (ts & Hb & [= <- <-]). rewrite (ok_source _ _ (compile_ok _ _ Hc)) in Hb.
  eapply timeTierBranches_eval in He as (path & chain & Hcur & tier & y & Hf & Hy & Hch);
    [|exact Hb| |constructor].
  - cbn in Hy. injection Hy as <-. subst x. rewrite Hcomp, Hnow in Hcur.
    exists env, path, chain, tier. conjs; [done..|]. by eapply charged_billed.
  - intros z f. by rewrite Ht.
Qed.

(** C3: for task prices, on usage that conforms to the schema, every
    successful evaluation settles on the first displayed tier whose usage
    conditions hold (so the branches dropped as unreachable are never taken),
    and costs the displayed constant plus unit prices. *)
Theorem task_table_is_what_is_billed t source c ctx schema inc u tiers r :
  compile source = Ok c → readTaskTierChain (c_ast c) schema inc = Ok tiers →
  usage ctx = Some u → usage_conforms schema u →
  evaluateBillingExpression t source ctx = Ok r →
  ∃ tier, task_first_match u tiers = Some tier ∧ s_matchedTier r = k_label tier ∧
    s_billingUnit r = UToken ∧ task_cost schema u tier (cost r).
Proof.
  intros Hc Hr Hu Hconf H. apply evaluateBillingExpression_Ok in H as (c' & Hc' & H).
  rewrite Hc in Hc'. injection Hc' as <-.
  apply run_compiled_Ok in H as (env & st & st' & x & j & _ & Hn & He & _ & _ & Hx & Hbu & _ & Hm & _).
  pose proof (new_runtime_Ok _ _ _ _ _ Hn) as (_ & Hctx & _ & _ & Hu0 & _). subst ctx x.
  eapply task_chain_eval in He as (post & Hpost & tier & y & Hf & Hy & Hl & Hb & Hcost);
    [|done|exact Hconf|exact Hr]. cbn in Hpost, Hy. subst post. injection Hy as <-.
  exists tier. conjs; [done|congruence..|done].
Qed.

(** C4: the table of a task price with conditions on the time is what is
    billed.  Each row shown is a combination of facts with a branch of the
    expression under conditions [V] reads; exactly one row has the facts of the
    usage and its conditions in force, and it is the tier the engine settles
    on.  The amount of that row, computed with rational numbers instead of
    binary64, is the price of the expression for all quantities. *)
Theorem conditional_table_is_what_is_billed t source c ctx schema u facts V tiers r :
  compile source = Ok c → readConditionalTaskPricing source schema = Ok tiers →
  distinct_values schema = true → usage ctx = Some u → usage_facts schema (c_ast c) u = Some facts →
  tells t source schema c ctx facts V → evaluateBillingExpression t source ctx = Ok r →
  ∃ fields rows b es e, Forall2 (shows schema fields) rows tiers ∧
    List.filter (row_in_force u V) rows = [(facts, b)] ∧
    b_label b = Some (s_matchedTier r) ∧ s_billingUnit r = UToken ∧
    branches_of (T := Qc) source schema facts (c_ast c) es ∧ e ∈ es ∧ similar b e ∧
    ∀ choose quantity, chosen source schema facts V choose (c_ast c) →
      exact_price choose quantity (c_ast c) = Some (row_charge quantity e).
Proof.
  intros Hc Hr Hd Hu Hf Ht H. apply evaluateBillingExpression_Ok in H as (c' & Hc' & H).
  rewrite Hc in Hc'. injection Hc' as <-.
  destruct (conditional_table_settles t source schema c ctx u facts V tiers r)
    as (fields & rows & b & H1 & H2 & H3 & H4 & bs & Hb & Hforced); [done..|].
  destruct (branch_amount source schema facts V (c_ast c) bs b) as (es & e & H5 & H6 & H7 & H8);
    [apply wf_arities; by apply compile_ok in Hc as []|done|done|].
  exists fields, rows, b, es, e. by conjs.
Qed.

(** The row of the price table that an evaluation settled on is a row
    the table marks as matched, given the engine's label, unit and price. *)
Theorem settled_row_is_marked t source c ctx tiers r :
  compile source = Ok c → readTokenTierChain (c_ast c) = Ok tiers →
  evaluateBillingExpression t source ctx = Ok r →
  normalizeTierLabel (Some (s_matchedTier r)) ≠ [] →
  ∃ tier, tier ∈ tiers ∧
    isBreakdownTierMatched (row tier) (map row tiers) (Some (s_matchedTier r)) None
      (Some (s_billingUnit r)) (s_fixedPrice r) = true.
Proof.
  intros Hc Hr H Hl. apply evaluateBillingExpression_Ok in H as (c' & Hc' & H).
  rewrite Hc in Hc'. injection Hc' as <-.
  apply run_compiled_Ok in H as (env & st & st' & x & j & _ & Hn & He & Hfin & _ & Hx & Hu & Hp & Hm & _).
  eapply readTokenTierChain_eval in He as (tier & y & Hf & Hy & Hch); [|done]. cbn in Hy. injection Hy as <-.
  exists tier. apply find_some in Hf as [Hin _]. split; [by apply list_elem_of_In|].
  destruct Hch as (z & (Hlab & Hcase) & Hscale & _).
  apply new_runtime_Ok in Hn as (_ & _ & _ & _ & Hu0 & Hp0 & _).
  apply settled_row_matched; [congruence|done|].
  destruct (t_billingUnit tier).
  - destruct Hcase as (_ & H1 & _). congruence.
  - destruct Hcase as (a & H1 & H2 & H3 & H4). split; [congruence|].
    exists a. conjs; [done|congruence|].
    intros ->. subst z. apply image_scaled_nan in Hscale as ->. done.
Qed.

(** C5: comparisons of fields of clocks that are joined by [&&] are described
    by one range per field and time zone.  The condition holds when the clocks
    show values of all these ranges and at no other time, and a condition that
    is not described because a range is empty never holds. *)
Theorem described_ranges_are_when_it_holds translation weekday_name number_text c n now cs b :
  parts_in_domain → rmap timeComparison (flattenBinary n Oand) = Ok (map Some cs) → Forall small cs →
  evaluateBillingCondition c n now = Some b →
  describeBillingCondition translation weekday_name number_text n =
    Ok (match described_ranges translation weekday_name (ranges_of cs) [] with
        | Some ds => joined translation Oand ds
        | None => None
        end) ∧
  b = forallb (λ e, range_holds now e.2) (ranges_of cs) ∧
  (described_ranges translation weekday_name (ranges_of cs) [] = None → b = false).
Proof.
  intros Hp Hcs Hsmall H. pose proof (comparison_operators _ _ Hcs) as Ho.
  destruct (ranges_correct translation weekday_name now cs Hp) as [H1 H2].
  { rewrite Forall_forall in *. intros x Hx. split; auto. }
  apply (condition_value _ _ _ cs) in H as ->; [|done]. rewrite H1. conjs; [by apply comparisons_described|done..].
Qed.
End tables.

Definition tiered : jsstr := src "p <= 100 ? tier('small', p * 1 + c * 2) : tier('large', p * 3 + c * 4)".
Definition tiered_context : BillingSimulationContext := token_context 50 10.

(** The tiers of a compiled text. *)
Definition tiers_of (source : jsstr) : list TokenTier :=
  match readTokenTierChain (c_ast (compiled_or_empty source)) with Ok l => l | Err _ => [] end.

Lemma token_table_is_what_is_billed_witness :
  ∃ r env tier,
    @evaluateBillingExpression utc_host None tiered tiered_context = Ok r ∧ cost r = nZ 70 ∧
    context env = tiered_context ∧ first_match env (tiers_of tiered) = Some tier ∧ billed_as env tier r.
Proof.
  destruct (@evaluateBillingExpression utc_host None tiered tiered_context) as [r|f] eqn:E;
    [|vm_compute in E; discriminate].
  destruct (@token_table_is_what_is_billed utc_host None tiered (compiled_or_empty tiered) tiered_context
    (tiers_of tiered) r) as (env & tier & H1 & H2 & H3); [vm_compute; reflexivity..|exact E|].
  exists r, env, tier. split; [reflexivity|]. split; [|split; [exact H1|split; [exact H2|exact H3]]].
  vm_compute in E. injection E as <-. vm_compute. reflexivity.
Defined.

Definition by_hour : jsstr :=
  src "hour('UTC') < 8 ? tier('night', p * 1) : p > 5 ? tier('day', p * 2) : tier('idle', p * 0)".

Definition by_hour_tables : list TimeTokenTier * list TimeTokenTier :=
  match @readTimeTokenPricing utc_host by_hour (Some (Some 36000000%Z)) with Ok l => l | Err _ => ([], []) end.

Definition at_ten : BillingSimulationContext :=
  {| imageCount := None; tokens := [(js "p", JNum (nZ 7))]; request := None; usage := None;
     now := Some (Some 36000000%Z) |}.

Lemma current_time_table_is_what_is_billed_witness :
  ∃ r env path chain tier,
    @evaluateBillingExpression utc_host None by_hour at_ten = Ok r ∧ context env = at_ten ∧
    by_hour_tables.2 = map (time_tier by_hour path) chain ∧ first_match env chain = Some tier ∧
    billed_as env tier r.
Proof.
  destruct (@evaluateBillingExpression utc_host None by_hour at_ten) as [r|f] eqn:E;
    [|vm_compute in E; discriminate].
  destruct (@current_time_table_is_what_is_billed utc_host None by_hour (compiled_or_empty by_hour) at_ten
    by_hour_tables.1 by_hour_tables.2 r) as (env & path & chain & tier & H1 & H2 & H3 & H4);
    [vm_compute; reflexivity..|exact E|].
  exists r, env, path, chain, tier. split; [reflexivity|]. conjs; [exact H1|exact H2|exact H3|exact H4].
Defined.

Definition task_schema : BillingUsageSchema :=
  [(js "mode", {| f_type := None; f_unit := None; f_enum := Some [js "std"; js "pro"] |});
   (js "seconds", {| f_type := Some FNumber; f_unit := Some (js "second"); f_enum := None |})].
Definition task_source : jsstr :=
  src "u('mode') == 'pro' ? tier('pro', u('seconds') * 3 + 1) : tier('std', u('seconds') * 2)".
Definition task_usage : list (jsstr * jsval) := [(js "mode", JStr (js "pro")); (js "seconds", JNum (nZ 4))].
Definition task_context : BillingSimulationContext :=
  {| imageCount := None; tokens := []; request := None; usage := Some task_usage; now := None |}.
Definition task_tiers : list TaskTier :=
  match readTaskTierChain (c_ast (compiled_or_empty task_source)) task_schema false with
  | Ok l => l | Err _ => [] end.

Lemma task_table_is_what_is_billed_witness :
  ∃ r tier, @evaluateBillingExpression utc_host None task_source task_context = Ok r ∧
    task_first_match task_usage task_tiers = Some tier ∧ s_matchedTier r = k_label tier ∧
    task_cost task_schema task_usage tier (cost r).
Proof.
  destruct (@evaluateBillingExpression utc_host None task_source task_context) as [r|f] eqn:E;
    [|vm_compute in E; discriminate].
  destruct (@task_table_is_what_is_billed utc_host None task_source (compiled_or_empty task_source)
    task_context task_schema false task_usage task_tiers r) as (tier & H1 & H2 & _ & H3);
    [vm_compute; reflexivity|vm_compute; reflexivity|reflexivity| |exact E|].
  - apply usage_conforms_test. vm_compute. reflexivity.
  - exists r, tier. split; [reflexivity|]. conjs; [exact H1|exact H2|exact H3].
Defined.

Definition conditional_source : jsstr :=
  src "u('mode') == 'pro' && hour('UTC') >= 8 ? tier('day', u('seconds') * 3 + 1) : tier('base', u('seconds') * 4 / 2)".
Definition conditional_context : BillingSimulationContext :=
  {| imageCount := None; tokens := []; request := None; usage := Some task_usage; now := Some (Some 36000000%Z) |}.
Definition conditional_tables : list ParsedTaskTier :=
  match readConditionalTaskPricing conditional_source task_schema with Ok l => l | Err _ => [] end.

Lemma conditional_table_is_what_is_billed_witness :
  ∃ r rows b, @evaluateBillingExpression utc_host None conditional_source conditional_context = Ok r ∧
    length conditional_tables = 3 ∧ length rows = 3 ∧
    List.filter (row_in_force task_usage (λ _, true)) rows = [([(js "mode", Choice (js "pro"))], b)] ∧
    b_label b = Some (s_matchedTier r) ∧ s_matchedTier r = js "day".
Proof.
  destruct (@evaluateBillingExpression utc_host None conditional_source conditional_context) as [r|f] eqn:E;
    [|vm_compute in E; discriminate].
  destruct (@conditional_table_is_what_is_billed utc_host None conditional_source (compiled_or_empty conditional_source)
    conditional_context task_schema task_usage [(js "mode", Choice (js "pro"))] (λ _, true) conditional_tables r)
    as (fields & rows & b & es & e & H1 & H2 & H3 & _);
    [vm_compute; reflexivity|vm_compute; reflexivity|vm_compute; reflexivity|reflexivity|vm_compute; reflexivity| |exact E|].
  - apply tells_test. vm_compute. reflexivity.
  - exists r, rows, b. split; [reflexivity|]. split; [vm_compute; reflexivity|].
    split; [apply Forall2_length in H1; rewrite H1; vm_compute; reflexivity|].
    split; [exact H2|]. split; [exact H3|]. vm_compute in E. injection E as <-. vm_compute. reflexivity.
Defined.

(** A host that knows one time zone, nine hours ahead of UTC. *)
Definition tokyo_parts (moment : Z) : dtf_parts :=
  let field f := number_to_string (nZ (utc_field (moment + 32400000) f)) in
  {| part_hour := pad2 (field Hour); part_minute := pad2 (field Minute); part_month := field Month; part_day := field Day;
     part_weekday := default [] (map js ["Sun"; "Mon"; "Tue"; "Wed"; "Thu"; "Fri"; "Sat"]%string
                       !! Z.to_nat (utc_field (moment + 32400000) Weekday)) |}.
Definition tokyo : jsstr := js "Asia/Tokyo".
Definition tokyo_host : Host :=
  {| to_lower_case := map ascii_lower;
     date_time_format := λ zone, if jseq zone tokyo then Some (tokyo, tokyo_parts) else None |}.

Lemma tokyo_digits z : (0 ≤ z < 60)%Z →
  number_of_string (pad2 (number_to_string (nZ z))) = nZ z ∧ number_of_string (number_to_string (nZ z)) = nZ z.
Proof.
  intros Hz. assert (forallb (λ i, let z := Z.of_nat i in
    bool_decide (number_of_string (pad2 (number_to_string (nZ z))) = nZ z ∧ number_of_string (number_to_string (nZ z)) = nZ z))
    (seq 0 60) = true) as H by (vm_compute; reflexivity).
  rewrite forallb_forall in H. specialize (H (Z.to_nat z)). rewrite in_seq, Z2Nat.id in H by lia.
  by apply bool_decide_eq_true in H; [|lia].
Qed.

Lemma tokyo_weekdays z : (0 ≤ z < 7)%Z →
  weekday_index (default [] (map js ["Sun"; "Mon"; "Tue"; "Wed"; "Thu"; "Fri"; "Sat"]%string !! Z.to_nat z)) = nZ z.
Proof.
  intros Hz. assert (z ∈ [0; 1; 2; 3; 4; 5; 6]%Z) as Hin by (rewrite !elem_of_cons; lia).
  repeat (apply elem_of_cons in Hin as [->|Hin]; [vm_compute; reflexivity|]). by apply not_elem_of_nil in Hin.
Qed.

Lemma tokyo_in_domain : @parts_in_domain tokyo_host.
Proof.
  intros zone resolved format moment f. cbn. destruct (jseq zone tokyo); [|done]. intros [= <- <-].
  pose proof (utc_field_domain (moment + 32400000) f) as H. exists (utc_field (moment + 32400000) f).
  split; [|destruct f; cbn in *; lia].
  destruct f; cbn [field_domain fst snd] in H; unfold part_value, tokyo_parts;
    cbn [part_hour part_minute part_weekday part_month part_day];
    first [apply tokyo_weekdays; lia | apply tokyo_digits; lia].
Qed.

Definition office : jsstr :=
  src "hour('Asia/Tokyo') >= 9 && weekday(' Asia/Tokyo ') >= 1 && hour('Asia/Tokyo') < 18 && weekday('Asia/Tokyo') <= 5".
Definition office_comparisons : list TimeComparison :=
  let comparison f o k := {| tc_name := f; tc_timezone := tokyo; tc_operator := o; tc_value := nZ k |} in
  [comparison Hour Oge 9; comparison Weekday Oge 1; comparison Hour Olt 18; comparison Weekday Ole 5]%Z.

(** Ten o'clock of a Thursday. *)
Lemma described_ranges_are_when_it_holds_witness :
  @evaluateBillingCondition tokyo_host (compiled_or_empty office) (c_ast (compiled_or_empty office)) (Some 3600000%Z) = Some true ∧
  length (ranges_of office_comparisons) = 2 ∧
  forallb (λ e, @range_holds tokyo_host (Some 3600000%Z) e.2) (ranges_of office_comparisons) = true.
Proof.
  destruct (@described_ranges_are_when_it_holds tokyo_host (λ key _, key) number_to_string number_to_string
    (compiled_or_empty office) (c_ast (compiled_or_empty office)) (Some 3600000%Z) office_comparisons true) as (_ & H & _).
  - exact tokyo_in_domain.
  - vm_compute. reflexivity.
  - repeat constructor; eexists; (split; [reflexivity|lia]).
  - vm_compute. reflexivity.
  - split; [vm_compute; reflexivity|]. split; [vm_compute; reflexivity|]. symmetry. exact H.
Defined.

Lemma settled_row_is_marked_witness :
  ∃ r tier, @evaluateBillingExpression utc_host None tiered tiered_context = Ok r ∧ tier ∈ tiers_of tiered ∧
    @isBreakdownTierMatched utc_host (row tier) (map row (tiers_of tiered)) (Some (s_matchedTier r)) None
      (Some (s_billingUnit r)) (s_fixedPrice r) = true.
Proof.
  destruct (@evaluateBillingExpression utc_host None tiered tiered_context) as [r|f] eqn:E;
    [|vm_compute in E; discriminate].
  destruct (@settled_row_is_marked utc_host None tiered (compiled_or_empty tiered) tiered_context
    (tiers_of tiered) r) as (tier & H1 & H2); [vm_compute; reflexivity..|exact E| |].
  - vm_compute in E. injection E as <-. vm_compute. discriminate.
  - exists r, tier. split; [reflexivity|]. split; [exact H1|exact H2].
Defined.

(** ** Visual editor *)

(** C12: opening an expression in the visual editor and saving it without a
    change gives back the source text, character for character, for every
    expression the editor can open whose number literals survive being shown as
    text. *)
Theorem visual_editor_is_lossless {host : Host} source d :
  parseVisualBillingDocument source = Ok d →
  (∀ c, compile source = Ok c → numbers_stable (c_ast c) = true) →
  serializeVisualBillingDocument d = Ok (inl source).
Proof. apply visual_lossless. Qed.

Definition spaced : jsstr :=
  src " ( p<=100 && (c > 2.50) )?tier('a',p*1.0+c * 2) :  tier('b' , fixed(0.25)) ".

Lemma visual_editor_is_lossless_witness :
  ∃ d, @parseVisualBillingDocument utc_host spaced = Ok d ∧
    @serializeVisualBillingDocument utc_host d = Ok (inl spaced).
Proof.
  destruct (@parseVisualBillingDocument utc_host spaced) as [d|e] eqn:E; [|vm_compute in E; discriminate].
  exists d. split; [reflexivity|]. apply (@visual_editor_is_lossless utc_host spaced d E).
  intros c Hc. assert (Hs : numbers_stable (c_ast (compiled_or_empty spaced)) = true)
    by (vm_compute; reflexivity).
  unfold compiled_or_empty in Hs. rewrite Hc in Hs. exact Hs.
Defined.

(** ** Top-level structure *)

(** Splitting at an operator is lossless and exact: unless a question
    mark at top level makes the text one part, the text is the pieces joined by
    the operator, every piece before the last has balanced brackets and quotes,
    no piece has the operator at top level, and the result is the pieces
    trimmed with the empty ones dropped. *)
Theorem split_is_exact source operator :
  separator operator →
  (∃ u w, source = u ++ cu "?" :: w ∧ splitExpressionAtTopLevel source operator = Some [trim source])
  ∨ ∃ pieces last,
      source = concat (map (.++ operator) pieces) ++ last ∧
      Forall balanced pieces ∧ Forall (unsplittable operator) (pieces ++ [last]) ∧
      splitExpressionAtTopLevel source operator
      = Some (List.filter nonempty (map trim (pieces ++ [last]))).
Proof.
  intros H. destruct (splitExpressionAtTopLevel_spec source operator H) as [[(u & w & ?) ?]|?].
  - left. by exists u, w.
  - by right.
Qed.

Definition factors : jsstr := src "(p * 2) * has(header('a*b'), 'x') ".

Lemma split_is_exact_witness :
  splitExpressionAtTopLevel factors (js "*") = Some [src "(p * 2)"; src "has(header('a*b'), 'x')"] ∧
  ∃ pieces last, factors = concat (map (.++ js "*") pieces) ++ last ∧ Forall balanced pieces.
Proof.
  split; [vm_compute; reflexivity|].
  destruct (split_is_exact factors (js "*")) as [(u & w & Hs & H)|(pieces & last & H1 & H2 & _ & _)].
  - repeat split; vm_compute; congruence.
  - vm_compute in H. discriminate.
  - exists pieces, last. split; [exact H1|exact H2].
Defined.

(** Removing outer parentheses strips exactly pairs that enclose the
    whole text (never the two ends of [(a) * (b)]), always terminates, and has
    nothing left to strip. *)
Theorem unwrap_is_exact s :
  ∃ r, unwrapExpressionParens s = Some r ∧ wrapped r s ∧ unwrapExpressionParens r = Some r.
Proof. apply unwrapExpressionParens_spec. Qed.

(** ** Request rules *)

(** A literal of a rule condition, in every mode, is read back as the text
    that was entered (trimmed), whatever quotes, escapes or code units it has. *)
Theorem rule_literal_round_trip mode value :
  units_ok value → parseExprLiteral (buildExprLiteral mode value) = Some (trim value).
Proof. apply literal_reread. Qed.

Definition awkward : jsstr := [32; DQUOTE; BACKSLASH; 10; 1; 233; 55357; 56832]%N.

Lemma rule_literal_round_trip_witness :
  parseExprLiteral (buildExprLiteral MATCH_EQ awkward) = Some (trim awkward).
Proof. apply rule_literal_round_trip. repeat constructor. Defined.

(** Normalising a condition of the rule editor always yields a condition
    the editor offers, and changes nothing the second time. *)
Theorem normalize_condition_idempotent c :
  let n := normalizeCondition c in
  normal_condition n ∧ normalizeCondition (Some (partial_of n)) = n.
Proof.
  split; [apply normalizeCondition_normal|]. apply normalizeCondition_id, normalizeCondition_normal.
Qed.

(** The rule builder writes a parsed time condition back as it was: a
    comparison exactly, and a range with the operator that its bounds imply, for
    every zone name without characters that JSON escapes. *)
Theorem rebuilt_time_text s c :
  tryParseTimeCondition s = Some c → plain_zone c →
  (∃ f tz o v, s = scalar_text f tz o v ∧ buildTimeConditionExpr c = s)
  ∨ ∃ f tz a b overnight,
      (s = range_text f tz a b overnight ∨ s = js "(" ++ range_text f tz a b overnight ++ js ")") ∧
      buildTimeConditionExpr c
      = range_text f tz a b (ngtb (number_of_string a) (number_of_string b)).
Proof.
  intros H Hp. apply tryParseTimeCondition_parsed in H. destruct H; cbn in Hp.
  - right. exists f, tz, a, b, overnight. split; [done|]. by apply rebuild_range.
  - left. exists f, tz, o, v. split; [done|]. subst s. by apply rebuild_scalar.
Qed.

Definition working_hours : jsstr := src "(hour('UTC') >= 9 && hour('UTC') < 18)".

Lemma rebuilt_time_text_witness :
  ∃ c, tryParseTimeCondition working_hours = Some c ∧
    ∃ f tz a b overnight, working_hours = js "(" ++ range_text f tz a b overnight ++ js ")" ∧
      buildTimeConditionExpr c
      = range_text f tz a b (ngtb (number_of_string a) (number_of_string b)).
Proof.
  destruct (tryParseTimeCondition working_hours) as [c|] eqn:E; [|vm_compute in E; discriminate].
  exists c. split; [reflexivity|].
  destruct (rebuilt_time_text working_hours c E)
    as [(f & tz & o & v & H & _)|(f & tz & a & b & o & [H|H] & Hb)].
  - vm_compute in E. injection E as <-. vm_compute. reflexivity.
  - destruct f; vm_compute in H; discriminate.
  - destruct f; vm_compute in H; discriminate.
  - exists f, tz, a, b, o. split; [exact H|exact Hb].
Defined.

(** Every time condition the editor reads from a rule expression, merged
    pairs of comparisons included, is written back as a text that reads as the
    same condition: saving the rules drops or changes none of them. *)
Theorem parsed_time_conditions_survive s groups g c :
  tryParseRequestRuleExpr s = Ok (Some groups) → g ∈ groups → c ∈ g_conditions g →
  is_time c = true → plain_zone c →
  tryParseTimeCondition (buildRequestConditionExpr c) = Some c.
Proof.
  intros H Hg Hc Ht Hp. apply tryParseRequestRuleExpr_in_range in H.
  rewrite Forall_forall in H. specialize (H g Hg). rewrite Forall_forall in H. specialize (H c Hc).
  destruct c; [|done]. by apply reparse_time.
Qed.

Definition night_rule : jsstr :=
  src "(hour('UTC') >= 1 && hour('UTC') < 6 && weekday('UTC') == 0 ? 0.5 : 1)".

Lemma parsed_time_conditions_survive_witness :
  ∃ groups g c, tryParseRequestRuleExpr night_rule = Ok (Some groups) ∧ g ∈ groups ∧ c ∈ g_conditions g ∧
    tryParseTimeCondition (buildRequestConditionExpr c) = Some c.
Proof.
  set (c := TimeCondition Hour (js "UTC") MATCH_RANGE [] (js "1") (js "6")).
  set (d := TimeCondition Weekday (js "UTC") MATCH_EQ (js "0") [] []).
  set (g := {| g_conditions := [c; d]; g_multiplier := js "0.5" |}).
  assert (H : tryParseRequestRuleExpr night_rule = Ok (Some [g])) by (vm_compute; reflexivity).
  exists [g], g, c. split; [exact H|]. split; [left|]. split; [left|].
  apply (parsed_time_conditions_survive night_rule [g] g c); [exact H|left|left|reflexivity|].
  vm_compute. reflexivity.
Defined.

(** Separating the base expression from its request rules, and parsing
    the rules, terminate on every text and can fail only with the
    [SyntaxError] of [JSON.parse]. *)
Theorem rule_parsing_failures s e :
  splitBillingExprAndRequestRules s = Err e ∨ tryParseRequestRuleExpr s = Err e →
  e = HostError (js "SyntaxError").
Proof. intros [H|H]; [by apply splitBilling_Err in H|by apply tryParseRequestRuleExpr_Err in H]. Qed.

(** A rule whose quoted text has an escape that JSON does not know. *)
Definition hex_escape : jsstr := src "tier('a', p * 1) * (has(header('x'), '\x41') ? 2 : 1)".

Lemma rule_parsing_failures_witness :
  ∃ e, splitBillingExprAndRequestRules hex_escape = Err e ∧ e = HostError (js "SyntaxError").
Proof.
  destruct (splitBillingExprAndRequestRules hex_escape) as [r|e] eqn:E; [vm_compute in E; discriminate|].
  exists e. split; [reflexivity|]. apply (rule_parsing_failures hex_escape). left. exact E.
Defined.

(** ** Estimator and settled rows *)

(** The price estimator supplies every token variable, so an estimate
    can lack context only when the expression reads the request or the usage. *)
Theorem estimator_lacks_only_probes {host : Host} t source c p k x ctx f :
  compile source = Ok c →
  evaluateBillingExpression t source (estimator_context p k x ctx) = Err f → status f = SMissingContext →
  ∃ g, g ∈ c_functions c ∧ probes_context g.
Proof.
  intros Hc H Hs. eapply missing_is_probe; [exact Hc| |exact H|exact Hs].
  intros v Hv. by apply estimator_context_complete.
Qed.

Definition no_extra : ExtraTokenValues :=
  {| cacheReadTokens := NZERO; cacheCreateTokens := NZERO; cacheCreate1hTokens := NZERO;
     imageTokens := NZERO; imageCacheTokens := NZERO; imageOutputTokens := NZERO;
     audioInputTokens := NZERO; audioOutputTokens := NZERO |}.
Definition probing : jsstr := src "header('x') == 'a' ? tier('a', p * 2) : tier('b', p)".

Lemma estimator_lacks_only_probes_witness :
  ∃ f g, @evaluateBillingExpression utc_host None probing (estimator_context (nZ 1) (nZ 2) no_extra None)
      = Err f ∧ status f = SMissingContext ∧
    g ∈ c_functions (compiled_or_empty probing) ∧ probes_context g.
Proof.
  destruct (@evaluateBillingExpression utc_host None probing (estimator_context (nZ 1) (nZ 2) no_extra None))
    as [r|f] eqn:E; [vm_compute in E; discriminate|].
  assert (Hs : status f = SMissingContext) by (vm_compute in E; injection E as <-; reflexivity).
  destruct (@estimator_lacks_only_probes utc_host None probing (compiled_or_empty probing) (nZ 1) (nZ 2)
    no_extra None f) as (g & H1 & H2); [vm_compute; reflexivity|exact E|exact Hs|].
  exists f, g. split; [reflexivity|]. split; [exact Hs|split; [exact H1|exact H2]].
Defined.

(** When the rows of a table have distinct labels and one of them carries
    the settled label, exactly that row is marked, whatever the usage facts. *)
Theorem labelled_row_alone_is_marked {host : Host} tiers t label facts :
  NoDup (map (λ t, normalizeTierLabel (Some (tier_label t))) tiers) → t ∈ tiers →
  (∃ u, u ∈ tiers ∧ tierMatchesNormalizedLabel u (normalizeTierLabel label) = true) →
  isBreakdownTierMatched t tiers label facts None None =
  tierMatchesNormalizedLabel t (normalizeTierLabel label).
Proof. apply isBreakdownTierMatched_label. Qed.

Definition task_row (l : jsstr) : BreakdownMatchTier :=
  BTask {| pk_conditionText := None;
           pk_tier := {| k_label := l; k_conditions := [(js "mode", js "pro")]; k_constant := NZERO;
                         k_unitPrices := [] |} |}.

Lemma labelled_row_alone_is_marked_witness :
  let rows := [task_row (js "Up to < 5"); task_row (js "Over 5")] in
  @isBreakdownTierMatched utc_host (task_row (js "Up to < 5")) rows (Some (js "up TO <= 5"))
    (Some []) None None = true ∧
  @isBreakdownTierMatched utc_host (task_row (js "Over 5")) rows (Some (js "up TO <= 5"))
    (Some [(js "mode", CVText (js "pro"))]) None None = false.
Proof.
  split; rewrite (@labelled_row_alone_is_marked utc_host); try (vm_compute; reflexivity);
    try (repeat constructor; fail).
  all: try (exists (task_row (js "Up to < 5")); split; [left|vm_compute; reflexivity]).
  all: try (right; left).
  all: apply (bool_decide_unpack _); vm_compute; reflexivity.
Defined.

(** ** Where the editors and the engine disagree *)

(** The bill of an expression, when there is one. *)
Definition bill (source : jsstr) (ctx : BillingSimulationContext) : option num :=
  match @evaluateBillingExpression utc_host None source ctx with Ok r => Some (cost r) | Err _ => None end.

(** The expression after its rules went through the rule editor untouched. *)
Definition resaved (source : jsstr) : option jsstr :=
  match splitBillingExprAndRequestRules source with
  | Ok split =>
      match tryParseRequestRuleExpr (requestRuleExpr split) with
      | Ok (Some groups) => Some (combineBillingExpr (billingExpr split) (buildRequestRuleExpr groups))
      | _ => None
      end
  | Err _ => None
  end.

(** Ten input tokens at three in the afternoon, with the header [x: 5]. *)
Definition afternoon : BillingSimulationContext :=
  {| imageCount := Some (nZ 3); tokens := [(js "p", JNum (nZ 10))];
     request := Some {| body := JUndefined; request_headers := [(js "x", JStr (js "5"))] |};
     usage := None; now := Some (Some (15 * 3600000)%Z) |}.

Definition either_side : jsstr := src "tier('a', p * 1) * (hour('UTC') >= 9 || hour('UTC') < 12 ? 2 : 1)".

(** A rule that holds outside a gap, with bounds in ascending order, is
    saved as a rule that holds between the bounds, and the bill changes. *)
Theorem ascending_or_rule_is_changed_by_saving :
  ∃ saved, resaved either_side = Some saved ∧
    bill either_side afternoon = Some (nZ 20) ∧ bill saved afternoon = Some (nZ 10).
Proof. eexists. split; [vm_compute; reflexivity|]. split; vm_compute; reflexivity. Qed.

Definition sum_source : jsstr := src "tier('a', p * 1) + p * (header('x') == 'y' ? 3 : 1) * (header('x') != '' ? 2 : 1)".

(** The expression after its rules were separated and recombined. *)
Definition recombined (source : jsstr) : option jsstr :=
  match splitBillingExprAndRequestRules source with
  | Ok split => Some (combineBillingExpr (billingExpr split) (requestRuleExpr split))
  | Err _ => None
  end.

(** A rule that multiplies only the last summand of a sum is separated
    and recombined as a rule on the whole sum, and the bill changes. *)
Theorem sum_factor_is_rescoped_by_saving :
  ∃ saved, recombined sum_source = Some saved ∧
    bill sum_source afternoon = Some (nZ 30) ∧ bill saved afternoon = Some (nZ 40).
Proof. eexists. split; [vm_compute; reflexivity|]. split; vm_compute; reflexivity. Qed.

Definition header_text : jsstr := src "tier('a', p * 1) * (header('x') == '5' ? 2 : 1)".

(** An equality with a text of digits is saved as an equality with a
    number, which a header never equals, and the bill changes. *)
Theorem digit_text_rule_is_changed_by_saving :
  ∃ saved, resaved header_text = Some saved ∧
    bill header_text afternoon = Some (nZ 20) ∧ bill saved afternoon = Some (nZ 10).
Proof. eexists. split; [vm_compute; reflexivity|]. split; vm_compute; reflexivity. Qed.

(** A rule group on one parameter, as the builder writes it. *)
Definition parameter_rule (mode : jsstr) : jsstr :=
  buildRequestRuleExpr
    [{| g_conditions := [ParamHeaderCondition SParam (js "n") mode (js "5")]; g_multiplier := js "2" |}].
Definition guarded_modes : list jsstr := [MATCH_GT; MATCH_GTE; MATCH_LT; MATCH_LTE; MATCH_CONTAINS].

(** A rule group the editor builds from a numeric comparison, or from a
    contains-test, of a request parameter is not read back by the editor. *)
Theorem guarded_parameter_rules_are_not_read_back :
  forallb (λ mode, nonempty (parameter_rule mode)) guarded_modes = true ∧
  map (λ mode, tryParseRequestRuleExpr (parameter_rule mode)) guarded_modes = replicate 5 (Ok None).
Proof. split; vm_compute; reflexivity. Qed.

(** An expression that compiles and is billed makes the rule splitter
    throw, because its string escapes are not all JSON escapes. *)
Theorem splitter_throws_on_a_valid_expression :
  bill hex_escape afternoon = Some (nZ 10) ∧
  splitBillingExprAndRequestRules hex_escape = Err (HostError (js "SyntaxError")).
Proof. split; vm_compute; reflexivity. Qed.

Definition doubly_scaled : jsstr := src "image_count * (image_count * tier('a', fixed(0.5)))".
Definition singly_scaled : jsstr := src "image_count * tier('a', fixed(0.5))".

(** The price table of an expression that multiplies by the number of
    images twice is the table of the one that does so once, at a different
    bill. *)
Theorem repeated_image_scaling_is_not_displayed :
  tiers_of doubly_scaled ≠ [] ∧ tiers_of doubly_scaled = tiers_of singly_scaled ∧
  bill singly_scaled afternoon = Some (nZ 1500000) ∧ bill doubly_scaled afternoon = Some (nZ 4500000).
Proof. split; [by vm_compute|]. split; [|split]; vm_compute; reflexivity. Qed.

(** ** Correctness of the task price editor

    The theorems about the combinations of a usage schema, the price matrix
    and the visual tiers, each with an instance on a concrete schema. *)

Section theorems.
Context (locale_le : jsstr → jsstr → bool).

(** The combinations of a schema are exactly the assignments of one
    declared value to each enumerated field, whatever the order of the locale,
    and they are distinct when the declared values are. *)
Theorem combinations_are_the_assignments schema :
  NoDup (map fst schema) →
  (∀ c, c ∈ getTaskEnumCombinations locale_le (Some schema) ↔
        assigns (getTaskEnumFields locale_le (Some schema)) c) ∧
  (enums_distinct schema → NoDup (getTaskEnumCombinations locale_le (Some schema))).
Proof.
  intros Hd. split; [intros c; by apply combinations_spec|]. intros He. by apply combinations_distinct.
Qed.

(** The tiers built from a price matrix price every combination as its
    row does: the first tier that covers the combination has the constant and
    the unit prices of the row, although the last row loses its conditions and a
    uniform matrix becomes one tier. *)
Theorem matrix_tiers_price_every_combination schema config row :
  NoDup (map fst schema) → enums_distinct schema →
  map combination config = getTaskEnumCombinations locale_le (Some schema) →
  getTaskNumberFields locale_le (Some schema) ≠ [] → row ∈ config →
  ∃ tier, List.find (covers (combination row)) (taskMatrixToTiers locale_le config schema) = Some tier ∧
    same_number (row_constant row) (k_constant tier) ∧
    ∀ field, field ∈ map fst (getTaskNumberFields locale_le (Some schema)) →
      same_number (price_or_zero (row_unitPrices row) field) (price_or_zero (k_unitPrices tier) field).
Proof. apply matrix_tiers_find. Qed.

(** C13: a price matrix read from an expression shows what is billed: for a
    task whose usage has the values of a row, a successful evaluation of the base
    expression settles on a tier with the constant and the unit prices of that
    row, and costs what that tier says. *)
Theorem matrix_shows_what_is_billed {host : Host} t expression schema rows row split ctx u r :
  NoDup (map fst schema) →
  tryParseTaskMatrixConfig locale_le (Some expression) schema = Ok (Some rows) → row ∈ rows →
  splitBillingExprAndRequestRules expression = Ok split →
  usage ctx = Some u → usage_conforms schema u →
  (∀ k v, (k, v) ∈ combination row → own u k = Some (JStr v)) →
  evaluateBillingExpression t (billingExpr split) ctx = Ok r →
  ∃ tier, s_matchedTier r = k_label tier ∧ task_cost schema u tier (cost r) ∧
    row_constant row = k_constant tier ∧
    row_unitPrices row = field_prices (getTaskNumberFields locale_le (Some schema)) (k_unitPrices tier).
Proof.
  intros Hd Hm Hrow Hs Hu Hconf Hown H. unfold tryParseTaskMatrixConfig in Hm.
  destruct expression as [|x expression]; [done|]. apply bind_Ok in Hm as (tiers & Ht & Hm).
  unfold parseTaskTiersFromExpr in Ht. destruct schema as [|e0 schema0] eqn:Es; [by injection Ht as <-|].
  rewrite <- Es in *. rewrite Hs in Ht. cbn [mbind result_bind] in Ht.
  apply evaluateBillingExpression_Ok in H as (c & Hc & H). rewrite Hc in Ht.
  destruct (readTaskTierChain (c_ast c) schema false) as [tiers'|[|]] eqn:Hr; cbn in Ht;
    [injection Ht as <-|done|injection Ht as <-; done].
  destruct (last tiers') as [fallback|] eqn:Hl; [|done].
  destruct (k_conditions fallback); [|done]. destruct (forallb distinct_fields tiers'); [|done].
  injection Hm as <-. apply list_elem_of_fmap in Hrow as (cb & -> & Hcb).
  apply combinations_spec in Hcb; [|done]. cbn [combination matrix_row] in Hown.
  apply run_compiled_Ok in H as (env & st & st' & y & j & _ & Hn & He & _ & _ & Hx & _ & _ & Hmt & _).
  pose proof (new_runtime_Ok _ _ _ _ _ Hn) as (_ & Hctx & _). subst ctx y.
  eapply task_chain_eval in He as (post & Hpost & tier & z & Hf & Hy & Hlab & _ & Hcost);
    [|done|exact Hconf|exact Hr]. cbn in Hpost, Hy. subst post. injection Hy as <-.
  assert (Hfind : List.find (covers cb) tiers' = Some tier).
  { rewrite <- Hf. apply find_ext. intros t' Ht'. apply (covers_holds locale_le schema); [|done..].
    apply (task_chain_declared schema (c_ast c) [] tiers' (Forall_nil_2 _)) in Hr.
    by apply (proj1 (Forall_forall _ _) Hr). }
  exists tier. unfold matrix_row. rewrite Hfind. cbn [default row_constant row_unitPrices].
  conjs; [congruence|done..].
Qed.
End theorems.

(** Normalising the visual tiers of a task price is idempotent: a
    configuration the editor has normalised once is not changed again. *)
Theorem task_normalization_idempotent locale_le config schema :
  normalizeTaskVisualConfig locale_le
    (Some (normalizeTaskVisualConfig locale_le config schema)) schema
  = normalizeTaskVisualConfig locale_le config schema.
Proof. apply normalizeTaskVisualConfig_idemp. Qed.

(** ** Instances *)

(** Two enumerated fields and one priced by the second. *)
Definition video_schema : BillingUsageSchema :=
  [(js "seconds", {| f_type := Some FNumber; f_unit := Some (js "second"); f_enum := None |});
   (js "mode", {| f_type := None; f_unit := None; f_enum := Some [js "std"; js "pro"] |});
   (js "fps", {| f_type := None; f_unit := None; f_enum := Some [js "24"; js "60"] |})].

Lemma video_keys : NoDup (map fst video_schema).
Proof. apply (bool_decide_unpack _). vm_compute. exact I. Qed.

Lemma video_enums : enums_distinct video_schema.
Proof.
  intros e He. repeat (apply elem_of_cons in He as [->|He]; [apply (bool_decide_unpack _); vm_compute; exact I|]).
  by apply not_elem_of_nil in He.
Qed.

Definition fastest : Combination := [(js "fps", js "60"); (js "mode", js "pro")].

Lemma combinations_are_the_assignments_witness :
  length (getTaskEnumCombinations str_leb (Some video_schema)) = 4 ∧
  NoDup (getTaskEnumCombinations str_leb (Some video_schema)) ∧
  fastest ∈ getTaskEnumCombinations str_leb (Some video_schema).
Proof.
  destruct (combinations_are_the_assignments str_leb video_schema video_keys) as [H1 H2].
  split; [vm_compute; reflexivity|]. split; [exact (H2 video_enums)|].
  apply H1. vm_compute. repeat constructor.
Defined.

(** A matrix where the price depends on the mode only. *)
Definition video_row (c : Combination) : TaskMatrixRow :=
  {| combination := c; row_constant := NZERO;
     row_unitPrices := [(js "seconds", if bool_decide (assoc c (js "mode") = Some (js "pro")) then nZ 3 else nZ 2)] |}.
Definition video_matrix : TaskMatrixConfig :=
  map video_row (getTaskEnumCombinations str_leb (Some video_schema)).

Lemma matrix_tiers_price_every_combination_witness :
  ∃ tier, List.find (covers fastest) (taskMatrixToTiers str_leb video_matrix video_schema) = Some tier ∧
    same_number (nZ 3) (price_or_zero (k_unitPrices tier) (js "seconds")).
Proof.
  destruct (matrix_tiers_price_every_combination str_leb video_schema video_matrix (video_row fastest))
    as (tier & H1 & _ & H3).
  - exact video_keys.
  - exact video_enums.
  - vm_compute. reflexivity.
  - vm_compute. discriminate.
  - apply (list_elem_of_fmap_2 video_row). vm_compute.
    repeat first [apply list_elem_of_here | apply list_elem_of_further].
  - exists tier. split; [exact H1|]. apply (H3 (js "seconds")). vm_compute. apply list_elem_of_here.
Defined.

Definition task_matrix : TaskMatrixConfig :=
  match tryParseTaskMatrixConfig str_leb (Some task_source) task_schema with
  | Ok (Some rows) => rows | _ => [] end.
Definition pro_row : TaskMatrixRow :=
  {| combination := [(js "mode", js "pro")]; row_constant := nZ 1;
     row_unitPrices := [(js "seconds", nZ 3)] |}.

Lemma matrix_shows_what_is_billed_witness :
  ∃ r tier, @evaluateBillingExpression utc_host None task_source task_context = Ok r ∧
    s_matchedTier r = k_label tier ∧ task_cost task_schema task_usage tier (cost r) ∧
    k_constant tier = nZ 1.
Proof.
  destruct (@evaluateBillingExpression utc_host None task_source task_context) as [r|f] eqn:E;
    [|vm_compute in E; discriminate].
  destruct (@matrix_shows_what_is_billed str_leb utc_host None task_source task_schema task_matrix pro_row
    {| billingExpr := task_source; requestRuleExpr := [] |} task_context task_usage r)
    as (tier & H1 & H2 & H3 & _).
  - apply (bool_decide_unpack _). vm_compute. exact I.
  - vm_compute. reflexivity.
  - vm_compute. repeat first [apply list_elem_of_here | apply list_elem_of_further].
  - vm_compute. reflexivity.
  - reflexivity.
  - apply usage_conforms_test. vm_compute. reflexivity.
  - intros k v Hin. apply list_elem_of_singleton in Hin. injection Hin as -> ->. vm_compute. reflexivity.
  - exact E.
  - exists r, tier. split; [reflexivity|]. split; [exact H1|]. split; [exact H2|]. symmetry. exact H3.
Defined.

(** ** The simulation contract

    The fixtures of [pkg/billingexpr/testdata/frontend_simulation.json], which
    the tests of the billing engine and of the console share, run on the model:
    cost, settled tier, unit, fixed price, request-rule trace and price table
    are the recorded ones. *)

#[local] Instance billing_unit_eq_dec : EqDecision billing_unit.
Proof. solve_decision. Defined.

Record Fixture : Type := {
  x_expression : jsstr;
  x_imageCount : option num;
  x_tokens : list (jsstr * jsval);
  x_body : jsval;
  x_headers : list (jsstr * jsval);
  x_usage : option (list (jsstr * jsval));
  x_cost : num;
  x_tier : jsstr;
  x_unit : option billing_unit;
  x_fixed : option num;
  x_rules : list (num * bool)
}.

Definition fixtures : list Fixture := [
  (* versioned tokens and cache *)
  {| x_expression := src "v1:tier('base', p * 2 + c * 8 + cr * 0.2)";
     x_imageCount := None;
     x_tokens := [(src "p", JNum (nZ 900)); (src "c", JNum (nZ 100)); (src "cr", JNum (nZ 100))];
     x_body := JObj []; x_headers := []; x_usage := None;
     x_cost := nZ 2620; x_tier := src "base"; x_unit := None; x_fixed := None;
     x_rules := [] |};
  (* nil false and zero *)
  {| x_expression := src "param('missing') == nil && param('zero') == 0 && param('enabled') == false ? tier('ok', 3.5) : tier('bad', 99)";
     x_imageCount := None; x_tokens := [];
     x_body := (JObj [(src "zero", JNum (nZ 0)); (src "enabled", JBool false)]);
     x_headers := []; x_usage := None;
     x_cost := number_of_string (js "3.5"); x_tier := src "ok"; x_unit := None; x_fixed := None;
     x_rules := [] |};
  (* normalized headers and two rules *)
  {| x_expression := src "tier('base', p * 2) * (header(' X-Priority ') == 'high' ? 2 : 1) * (param('service_tier') == 'flex' ? 0.5 : 1)";
     x_imageCount := None; x_tokens := [(src "p", JNum (nZ 100))];
     x_body := (JObj [(src "service_tier", JStr (src "flex"))]);
     x_headers := [(src " X-Priority ", JStr (src " high "))]; x_usage := None;
     x_cost := nZ 200; x_tier := src "base"; x_unit := None; x_fixed := None;
     x_rules := [((nZ 2), true); ((number_of_string (js "0.5")), true)] |};
  (* unmatched rule *)
  {| x_expression := src "tier('base', 10) * (param('priority') == true ? 2 : 1)";
     x_imageCount := None; x_tokens := [];
     x_body := JObj []; x_headers := []; x_usage := None;
     x_cost := nZ 10; x_tier := src "base"; x_unit := None; x_fixed := None;
     x_rules := [((nZ 2), false)] |};
  (* rules skipped by short circuit *)
  {| x_expression := src "param('enabled') == true ? tier('yes', 10) * (header('tier') == 'fast' ? 3 : 1) : tier('no', 2)";
     x_imageCount := None; x_tokens := [];
     x_body := JObj []; x_headers := [(src "tier", JStr (src "fast"))]; x_usage := None;
     x_cost := nZ 2; x_tier := src "no"; x_unit := None; x_fixed := None;
     x_rules := [((nZ 3), false)] |};
  (* noncanonical factor still evaluates *)
  {| x_expression := src "tier('base', 10) * (param('priority') == true ? 2 : 1.5)";
     x_imageCount := None; x_tokens := [];
     x_body := JObj []; x_headers := []; x_usage := None;
     x_cost := nZ 15; x_tier := src "base"; x_unit := None; x_fixed := None;
     x_rules := [] |};
  (* path escapes array indices and length *)
  {| x_expression := src "param('a\\.b.items.0.price') + param('a\\.b.items.#')";
     x_imageCount := None; x_tokens := [];
     x_body := JObj [(src "a.b", JObj [(src "items",
       JArr [JObj [(src "price", JNum (nZ 4))]; JObj [(src "price", JNum (nZ 8))]])])];
     x_headers := [];
     x_usage := None;
     x_cost := nZ 6; x_tier := src ""; x_unit := None; x_fixed := None;
     x_rules := [] |};
  (* literal path to constructor *)
  {| x_expression := src "param('constructor') == nil ? 4 : 99";
     x_imageCount := None; x_tokens := [];
     x_body := JObj []; x_headers := []; x_usage := None;
     x_cost := nZ 4; x_tier := src ""; x_unit := None; x_fixed := None;
     x_rules := [] |};
  (* contains scalars and objects *)
  {| x_expression := src "has(param('n'), '12') && has(param('object'), 'map[a:1 b:[true <nil>]]') && !has(nil, 'x') && !has('abc', '') ? 8 : 99";
     x_imageCount := None; x_tokens := [];
     x_body := JObj [(src "n", JNum (nZ 123));
       (src "object", JObj [(src "b", JArr [JBool true; JNull]); (src "a", JNum (nZ 1))])];
     x_headers := [];
     x_usage := None;
     x_cost := nZ 8; x_tier := src ""; x_unit := None; x_fixed := None;
     x_rules := [] |};
  (* math and numeric division *)
  {| x_expression := src "min(10, max(2, 5)) + abs(-2) + ceil(1.1) + floor(2.9) + 5 / 2 + 7 % 3";
     x_imageCount := None; x_tokens := [];
     x_body := JObj []; x_headers := []; x_usage := None;
     x_cost := number_of_string (js "14.5"); x_tier := src ""; x_unit := None; x_fixed := None;
     x_rules := [] |};
  (* task token scale and request rule *)
  {| x_expression := src "tier('base', 0.2 + u('tokens') * 10 / 1000000) * (header('tier') == 'fast' ? 2 : 1)";
     x_imageCount := None; x_tokens := [];
     x_body := JObj [];
     x_headers := [(src "tier", JStr (src "fast"))]; x_usage := (Some [(src "tokens", JNum (nZ 500000))]);
     x_cost := number_of_string (js "10.4"); x_tier := src "base"; x_unit := None; x_fixed := None;
     x_rules := [((nZ 2), true)] |};
  (* task enum conditions *)
  {| x_expression := src "u('mode') == 'pro' ? tier('pro', u('seconds') * 0.8) : tier('std', u('seconds') * 0.4)";
     x_imageCount := None; x_tokens := [];
     x_body := JObj [];
     x_headers := []; x_usage := (Some [(src "mode", JStr (src "pro")); (src "seconds", JNum (nZ 5))]);
     x_cost := nZ 4; x_tier := src "pro"; x_unit := None; x_fixed := None;
     x_rules := [] |};
  (* scientific rates and parentheses *)
  {| x_expression := src "(tier('base', (p * 2e-3 + c * 1E+1)))";
     x_imageCount := None; x_tokens := [(src "p", JNum (nZ 1000)); (src "c", JNum (nZ 2))];
     x_body := JObj []; x_headers := []; x_usage := None;
     x_cost := nZ 22; x_tier := src "base"; x_unit := None; x_fixed := None;
     x_rules := [] |};
  (* fixed request with zero usage *)
  {| x_expression := src "tier('request', fixed(0.01))";
     x_imageCount := None; x_tokens := [];
     x_body := JObj []; x_headers := []; x_usage := None;
     x_cost := nZ 10000; x_tier := src "request"; x_unit := (Some URequest); x_fixed := (Some (number_of_string (js "0.01")));
     x_rules := [] |};
  (* explicit free request *)
  {| x_expression := src "tier('free', fixed(0))";
     x_imageCount := None; x_tokens := [(src "p", JNum (nZ 1000))];
     x_body := JObj []; x_headers := []; x_usage := None;
     x_cost := nZ 0; x_tier := src "free"; x_unit := (Some URequest); x_fixed := (Some (nZ 0));
     x_rules := [] |};
  (* mixed expression token fallback *)
  {| x_expression := src "len <= 32000 ? tier('short', fixed(0.01)) : tier('long', p * 2 + c * 8)";
     x_imageCount := None;
     x_tokens := [(src "p", JNum (nZ 32001)); (src "c", JNum (nZ 100)); (src "len", JNum (nZ 32001))];
     x_body := JObj []; x_headers := []; x_usage := None;
     x_cost := nZ 64802; x_tier := src "long"; x_unit := (Some UToken); x_fixed := None;
     x_rules := [] |};
  (* fixed request with multiplier *)
  {| x_expression := src "(len <= 32000 ? tier('short', fixed(0.01)) : tier('long', p * 2 + c * 8)) * (param('fast') == true ? 2 : 1)";
     x_imageCount := None; x_tokens := [(src "len", JNum (nZ 1))];
     x_body := (JObj [(src "fast", JBool true)]); x_headers := []; x_usage := None;
     x_cost := nZ 20000; x_tier := src "short"; x_unit := (Some URequest); x_fixed := (Some (number_of_string (js "0.01")));
     x_rules := [((nZ 2), true)] |};
  (* fixed time condition *)
  {| x_expression := src "hour('Asia/Shanghai') >= 0 && hour('Asia/Shanghai') < 24 ? tier('today', fixed(0.02)) : tier('fallback', p * 2)";
     x_imageCount := None; x_tokens := [];
     x_body := JObj []; x_headers := []; x_usage := None;
     x_cost := nZ 20000; x_tier := src "today"; x_unit := (Some URequest); x_fixed := (Some (number_of_string (js "0.02")));
     x_rules := [] |};
  (* image count is distinct from requested n *)
  {| x_expression := src "tier('image', fixed(0.04)) * image_count";
     x_imageCount := (Some (nZ 2)); x_tokens := [];
     x_body := (JObj [(src "n", JNum (nZ 3))]); x_headers := []; x_usage := None;
     x_cost := nZ 80000; x_tier := src "image"; x_unit := (Some URequest); x_fixed := (Some (number_of_string (js "0.04")));
     x_rules := [] |};
  (* image count and quality adjustment *)
  {| x_expression := src "tier('image', fixed(0.04)) * image_count * (param('quality') == 'hd' ? 2 : 1)";
     x_imageCount := (Some (nZ 3)); x_tokens := [];
     x_body := (JObj [(src "quality", JStr (src "hd"))]); x_headers := []; x_usage := None;
     x_cost := nZ 240000; x_tier := src "image"; x_unit := (Some URequest); x_fixed := (Some (number_of_string (js "0.04")));
     x_rules := [((nZ 2), true)] |};
  (* free image count maximum *)
  {| x_expression := src "tier('image', fixed(0)) * image_count";
     x_imageCount := (Some (nZ 128)); x_tokens := [];
     x_body := JObj []; x_headers := []; x_usage := None;
     x_cost := nZ 0; x_tier := src "image"; x_unit := (Some URequest); x_fixed := (Some (nZ 0));
     x_rules := [] |};
  (* default image quantity *)
  {| x_expression := src "tier('image', fixed(0.04)) * image_count";
     x_imageCount := None; x_tokens := [];
     x_body := JObj []; x_headers := []; x_usage := None;
     x_cost := nZ 40000; x_tier := src "image"; x_unit := (Some URequest); x_fixed := (Some (number_of_string (js "0.04")));
     x_rules := [] |};
  (* audio pricing ignores text cache discounts *)
  {| x_expression := src "(ai > 0 || ao > 0) ? tier('audio', max(len - ai, 0) * 2 + c * 6 + ai * 4 + ao * 4) : tier('base', p * 2 + c * 6 + cr * 0.2)";
     x_imageCount := None;
     x_tokens := [(src "len", JNum (nZ 1000)); (src "ai", JNum (nZ 200)); (src "ao", JNum (nZ 50)); (src "c", JNum (nZ 50))];
     x_body := JObj []; x_headers := []; x_usage := None;
     x_cost := nZ 2900; x_tier := src "audio"; x_unit := None; x_fixed := None;
     x_rules := [] |};
  (* text requests retain configured cache discount *)
  {| x_expression := src "(ai > 0 || ao > 0) ? tier('audio', max(len - ai, 0) * 2 + c * 6 + ai * 4 + ao * 4) : tier('base', p * 2 + c * 6 + cr * 0.2)";
     x_imageCount := None;
     x_tokens := [(src "p", JNum (nZ 600)); (src "c", JNum (nZ 100)); (src "cr", JNum (nZ 400)); (src "ai", JNum (nZ 0)); (src "ao", JNum (nZ 0))];
     x_body := JObj []; x_headers := []; x_usage := None;
     x_cost := nZ 1880; x_tier := src "base"; x_unit := None; x_fixed := None;
     x_rules := [] |};
  (* audio display survives redundant parentheses *)
  {| x_expression := src "(ai > 0 || ao > 0) ? tier('audio', max((len - ai), (0)) * 2 + c * 6 + ai * 4 + ao * 4) : tier('base', p * 2 + c * 6 + cr * 0.2)";
     x_imageCount := None;
     x_tokens := [(src "len", JNum (nZ 1000)); (src "ai", JNum (nZ 200)); (src "ao", JNum (nZ 50)); (src "c", JNum (nZ 50))];
     x_body := JObj []; x_headers := []; x_usage := None;
     x_cost := nZ 2900; x_tier := src "audio"; x_unit := None; x_fixed := None;
     x_rules := [] |};
  (* audio display survives commuted operands *)
  {| x_expression := src "(ao > 0 || ai > 0) ? tier('audio', 2 * max(0, len - ai) + 6 * c + 4 * ai + ao * 4) : tier('base', p * 2 + 6 * c + cr * 0.2)";
     x_imageCount := None;
     x_tokens := [(src "len", JNum (nZ 1000)); (src "ai", JNum (nZ 200)); (src "ao", JNum (nZ 50)); (src "c", JNum (nZ 50))];
     x_body := JObj []; x_headers := []; x_usage := None;
     x_cost := nZ 2900; x_tier := src "audio"; x_unit := None; x_fixed := None;
     x_rules := [] |} ].

Definition fixture_context (x : Fixture) : BillingSimulationContext :=
  {| imageCount := x_imageCount x; tokens := x_tokens x;
     request := Some {| body := x_body x; request_headers := x_headers x |};
     usage := x_usage x; now := None |}.

(** [toBeCloseTo(expected, 9)] *)
Definition close_to (a b : num) : bool := nltb (nabs (nsub a b)) (number_of_string (js "5e-10")).

(** What the tests expect of a successful evaluation. *)
Definition as_recorded (x : Fixture) (r : BillingSuccess) : bool :=
  close_to (cost r) (x_cost x) && jseq (s_matchedTier r) (x_tier x) &&
  match x_unit x with
  | Some unit => bool_decide (s_billingUnit r = unit) && bool_decide (s_fixedPrice r = x_fixed x)
  | None => true
  end &&
  bool_decide (map (λ t, (multiplier t, matched t)) (s_requestRules r) = x_rules x).

Definition reproduced (x : Fixture) : bool :=
  match @evaluateBillingExpression utc_host (Some 0%Z) (x_expression x) (fixture_context x) with
  | Ok r => as_recorded x r
  | Err _ => false
  end.

(** The rows recorded for the four audio expressions. *)
Definition audio_rows : list (jsstr * option jsstr * list (bvar * num)) :=
  [(js "audio", Some (js "Audio requests"), [(Vp, nZ 2); (Vc, nZ 6); (Vai, nZ 4); (Vao, nZ 4)]);
   (js "base", Some (js "Text-only requests"), [(Vp, nZ 2); (Vc, nZ 6); (Vcr, number_of_string (js "0.2"))])].

Definition rows_of (x : Fixture) : list (jsstr * option jsstr * list (bvar * num)) :=
  map (λ t, (t_label t, t_conditionText t, t_prices t)) (tiers_of (x_expression x)).

(** The model reproduces every fixture of the contract shared with the
    billing engine, and the price tables recorded for the audio expressions. *)
Theorem contract_reproduced :
  length fixtures = 26 ∧ forallb reproduced fixtures = true ∧
  map rows_of (drop 22 fixtures) = replicate 4 audio_rows.
Proof.
  split; [reflexivity|]. split; vm_compute; reflexivity.
Qed.
