(* ===== verification/JsText.v ===== *)
(** * Splitting and searching strings

    [String.prototype.split] and [indexOf] with a one-character separator,
    and the lemmas the text formats of the console share. *)
From stdpp Require Import base list option numbers sets.
From Stdlib Require Import ZArith Lia.
From S2P Require Import Prelude.
From S2P Require Import JsString.
From S2P Require Import JsNumber.

(** [s.split(sep)] *)
Fixpoint split_on (sep : N) (s : jsstr) : list jsstr :=
  match s with
  | [] => [[]]
  | c :: s =>
      if (c =? sep)%N then [] :: split_on sep s
      else match split_on sep s with
           | p :: ps => (c :: p) :: ps
           | [] => [[c]]
           end
  end.

(** [s.indexOf(c)], [None] for -1 *)
Definition index_of (c : N) (s : jsstr) : option nat := find_index (N.eqb c) s.

Lemma split_on_nonempty sep s : ∃ p ps, split_on sep s = p :: ps.
Proof.
  induction s as [|c s (p & ps & IH)]; cbn; [eauto|].
  destruct (c =? sep)%N; [eauto|]. rewrite IH. eauto.
Qed.

(** A text without the separator is one part. *)
Lemma split_on_single sep s : sep ∉ s → split_on sep s = [s].
Proof.
  induction s as [|c s IH]; intros H; [done|]. cbn.
  apply not_elem_of_cons in H as [Hc Hs].
  destruct (N.eqb_spec c sep); [congruence|]. by rewrite IH.
Qed.

Lemma split_on_app sep p s :
  sep ∉ p → split_on sep (p ++ sep :: s) = p :: split_on sep s.
Proof.
  induction p as [|c p IH]; intros H; cbn.
  - by rewrite N.eqb_refl.
  - apply not_elem_of_cons in H as [Hc Hs].
    destruct (N.eqb_spec c sep); [congruence|]. by rewrite IH.
Qed.

(** Splitting undoes joining. *)
Lemma split_on_join sep ps :
  ps ≠ [] → Forall (λ p, sep ∉ p) ps → split_on sep (join [sep] ps) = ps.
Proof.
  intros Hne H. induction H as [|p ps Hp Hps IH]; [done|].
  destruct ps as [|q ps]; [by apply split_on_single|].
  cbn [join]. cbn [app]. rewrite split_on_app by done.
  f_equal. by apply IH.
Qed.

(** The parts contain no separator. *)
Lemma split_on_parts sep s : Forall (λ p, sep ∉ p) (split_on sep s).
Proof.
  induction s as [|c s IH]; cbn; [repeat constructor; set_solver|].
  destruct (N.eqb_spec c sep); [constructor; [set_solver|done]|].
  destruct (split_on_nonempty sep s) as (p & ps & E). rewrite E in IH |- *.
  apply Forall_cons in IH as [Hp Hps]. constructor; [|done].
  apply not_elem_of_cons. split; [congruence|done].
Qed.

(** Joining undoes splitting. *)
Lemma join_split_on sep s : join [sep] (split_on sep s) = s.
Proof.
  induction s as [|c s IH]; [done|]. cbn.
  destruct (split_on_nonempty sep s) as (p & ps & E). rewrite E in IH |- *.
  destruct (N.eqb_spec c sep) as [->|]; cbn.
  - cbn in IH. by rewrite IH.
  - rewrite <- IH. by destruct ps.
Qed.

Lemma index_of_app c p s :
  c ∉ p → index_of c (p ++ c :: s) = Some (length p).
Proof.
  unfold index_of. induction p as [|d p IH]; intros H; cbn.
  - by rewrite N.eqb_refl.
  - apply not_elem_of_cons in H as [Hc Hs].
    destruct (N.eqb_spec c d); [congruence|]. by rewrite IH.
Qed.

(** A text that is not cut by [trim]. *)
Definition trimmed (s : jsstr) : bool := jseq (trim s) s.

Lemma trim_start_app_spaces a s : forallb is_space a = true → trim_start (a ++ s) = trim_start s.
Proof.
  induction a as [|c a IH]; cbn; [done|]. intros H. bools.
  by rewrite H, IH.
Qed.

(** ** Decimal text of natural numbers *)

Lemma N_digits_value fuel n acc :
  (n < 2 ^ N.of_nat fuel)%N →
  fold_left (λ a c, 10 * a + digit_value c)%N (N_digits fuel n acc) 0%N
  = fold_left (λ a c, 10 * a + digit_value c)%N acc n.
Proof.
  revert n acc. induction fuel as [|fuel IH]; intros n acc Hn.
  - cbn in *. by replace n with 0%N by lia.
  - cbn [N_digits]. destruct (N.ltb_spec n 10) as [H|H].
    + cbn [fold_left]. f_equal. unfold digit_value. rewrite N.mod_small by lia. lia.
    + rewrite IH.
      * cbn [fold_left]. f_equal. unfold digit_value. rewrite N.add_comm with (n := 48%N), N.add_sub.
        symmetry. apply N.div_mod. lia.
      * rewrite Nat2N.inj_succ, N.pow_succ_r' in Hn.
        apply N.Div0.div_lt_upper_bound. lia.
Qed.

Lemma N_text_fuel n : (n < 2 ^ N.of_nat (S (N.to_nat (N.log2 n))))%N.
Proof.
  rewrite Nat2N.inj_succ, N2Nat.id. destruct (decide (n = 0%N)) as [-> |N]; [done|].
  apply N.log2_spec. lia.
Qed.

(** Printing and reading back a natural number. *)
Lemma digits_value_N_text n : digits_value (N_text n) = n.
Proof. unfold digits_value, N_text. by rewrite N_digits_value by apply N_text_fuel. Qed.

Lemma N_digits_digits fuel n acc :
  forallb is_digit acc = true → forallb is_digit (N_digits fuel n acc) = true.
Proof.
  revert n acc. induction fuel as [|fuel IH]; intros n acc H; [done|]. cbn [N_digits].
  assert (forallb is_digit ((48 + n mod 10)%N :: acc) = true) as A.
  { cbn [forallb]. rewrite H, andb_true_r. unfold is_digit. pose proof (N.mod_lt n 10 ltac:(lia)) as M.
    revert M. generalize (n mod 10)%N. intros d M.
    apply andb_true_iff. split; apply N.leb_le; lia. }
  case_match; [done|by apply IH].
Qed.

Lemma N_digits_nonempty fuel n acc : acc ≠ [] → N_digits fuel n acc ≠ [].
Proof.
  revert n acc. induction fuel as [|fuel IH]; intros n acc H; [done|]. cbn [N_digits].
  case_match; [done|by apply IH].
Qed.

Lemma N_text_digits n : forallb is_digit (N_text n) = true.
Proof. by apply N_digits_digits. Qed.

Lemma N_text_nonempty n : N_text n ≠ [].
Proof.
  unfold N_text. cbn [N_digits]. case_match; [done|by apply N_digits_nonempty].
Qed.

Lemma digit_not_space c : is_digit c = true → is_space c = false.
Proof.
  unfold is_digit, is_space. intros H. bools.
  repeat match goal with
  | |- (_ || _)%bool = false => apply orb_false_iff; split
  | |- (_ && _)%bool = false => apply andb_false_iff
  | |- (_ =? _)%N = false => apply N.eqb_neq; lia
  end; rewrite !N.leb_gt; lia.
Qed.

(** ** Trimming *)

Lemma trim_start_solid s :
  match s with [] => True | c :: _ => is_space c = false end → trim_start s = s.
Proof. destruct s as [|c s]; cbn; [done|]. by intros ->. Qed.

(** A text without white space is not changed. *)
Lemma trim_solid s : forallb (λ c, negb (is_space c)) s = true → trim s = s.
Proof.
  intros H. assert (∀ t, forallb (λ c, negb (is_space c)) t = true → trim_start t = t) as T.
  { intros [|c t] Ht; [done|]. cbn in Ht. bools. by apply trim_start_solid. }
  unfold trim, trim_end. rewrite (T s H), T; [by rewrite reverse_involutive|].
  rewrite forallb_forall in *. intros c Hc. apply H.
  apply list_elem_of_In, elem_of_reverse. by apply list_elem_of_In.
Qed.
