(* ===== verification/JsonPrint.v ===== *)
(** * Printing JSON

    [JSON.stringify(value, null, gap)], and that [JSON.parse] reads it back.
    Without a [gap] the text has no spaces.  A number survives when its own
    text reads as that number, which [number_reads] decides. *)
From stdpp Require Import base list option numbers sets.
From Stdlib Require Import ZArith SpecFloat Lia.
From S2P Require Import Prelude.
From S2P Require Import JsString.
From S2P Require Import JsNumber.
From S2P Require Import Runtime.
From S2P Require Import Json.

(** ** The printer *)

Definition is_undefined (v : jsval) : bool := match v with JUndefined => true | _ => false end.

(** A line break and the indentation, if there is a gap. *)
Definition new_line (gap indent : nat) : jsstr :=
  match gap with 0 => [] | _ => 10%N :: repeat 32%N indent end.
Definition colon (gap : nat) : jsstr := match gap with 0 => [58%N] | _ => [58; 32]%N end.

(** Lines between two brackets, the empty list closed at once. *)
Definition bracketed (gap : nat) (opening closing : N) (indent : nat) (lines : list jsstr) : jsstr :=
  match lines with
  | [] => [opening; closing]
  | _ => opening :: join [cu ","] (map (app (new_line gap (indent + gap))) lines)
           ++ new_line gap indent ++ [closing]
  end.

Definition finite_text (x : num) : jsstr :=
  if is_finite x then number_to_string x else js "null".

(** [indent] is the indentation of the line the value starts on.  Undefined
    fields are left out, an undefined item is [null]. *)
Fixpoint json_text (gap indent : nat) (v : jsval) : jsstr :=
  match v with
  | JUndefined | JNull => js "null"
  | JBool b => if b then js "true" else js "false"
  | JNum x => finite_text x
  | JStr s => json_stringify s
  | JArr items => bracketed gap 91 93 indent (map (json_text gap (indent + gap)) items)
  | JObj fields =>
      bracketed gap 123 125 indent
        (flat_map (λ '(k, v),
           if is_undefined v then []
           else [json_stringify k ++ colon gap ++ json_text gap (indent + gap) v]) fields)
  end.
Arguments json_text : simpl never.

(** [JSON.stringify(v, null, 2)] and [JSON.stringify(v)] of an object *)
Definition stringify_pretty (v : jsval) : jsstr := json_text 2 0 v.
Definition json_compact (v : jsval) : jsstr := json_text 0 0 v.

(** ** Values that survive *)

Fixpoint jsval_rect' (P : jsval → Prop)
    (Hu : P JUndefined) (Hn : P JNull) (Hb : ∀ b, P (JBool b)) (Hx : ∀ x, P (JNum x))
    (Hs : ∀ s, P (JStr s)) (Ha : ∀ items, Forall P items → P (JArr items))
    (Ho : ∀ fields, Forall (λ kv, P kv.2) fields → P (JObj fields)) (v : jsval) : P v :=
  let rec := jsval_rect' P Hu Hn Hb Hx Hs Ha Ho in
  match v with
  | JUndefined => Hu
  | JNull => Hn
  | JBool b => Hb b
  | JNum x => Hx x
  | JStr s => Hs s
  | JArr items =>
      Ha items ((fix go l : Forall P l :=
                   match l with [] => Forall_nil_2 _ | v :: l => Forall_cons_2 _ _ _ (rec v) (go l) end) items)
  | JObj fields =>
      Ho fields ((fix go l : Forall (λ kv, P kv.2) l :=
                    match l with [] => Forall_nil_2 _ | kv :: l => Forall_cons_2 _ _ _ (rec kv.2) (go l) end)
                   fields)
  end.

(** The number is read from its text. *)
Definition number_reads (x : num) : bool :=
  is_finite x && match json_number (number_to_string x) with
                 | Some (y, []) => bool_decide (y = x)
                 | _ => false
                 end.

(** Texts, booleans, null and numbers, in arrays and in objects with distinct
    keys; undefined fields may occur. *)
Inductive printable : jsval → Prop :=
| printable_null : printable JNull
| printable_bool b : printable (JBool b)
| printable_num x : number_reads x = true → printable (JNum x)
| printable_text s : units_ok s → printable (JStr s)
| printable_array items : Forall printable items → printable (JArr items)
| printable_object fields :
    NoDup fields.*1 → Forall (λ kv, units_ok kv.1) fields → Forall (λ kv, printable kv.2 ∨ kv.2 = JUndefined) fields →
    printable (JObj fields).

Definition units_okb (s : jsstr) : bool := forallb (λ c, (c <? 65536)%N) s.
Fixpoint printableb (v : jsval) : bool :=
  match v with
  | JNull | JBool _ => true
  | JNum x => number_reads x
  | JStr s => units_okb s
  | JArr items => forallb printableb items
  | JObj fields =>
      bool_decide (NoDup fields.*1) &&
      forallb (λ '(k, v), units_okb k && (is_undefined v || printableb v)) fields
  | JUndefined => false
  end.

Lemma units_okb_sound s : units_okb s = true → units_ok s.
Proof.
  unfold units_okb, units_ok. rewrite forallb_forall, Forall_forall. intros F c C.
  apply N.ltb_lt, F. by apply list_elem_of_In.
Qed.

Lemma printableb_sound v : printableb v = true → printable v.
Proof.
  induction v as [| |b|x|s|items IH|fields IH] using jsval_rect'; cbn [printableb]; try done.
  - constructor.
  - constructor.
  - by constructor.
  - intros H. constructor. by apply units_okb_sound.
  - intros H. constructor. rewrite forallb_forall in H. rewrite Forall_forall in *. intros v I.
    apply IH; [done|]. apply H. by apply list_elem_of_In.
  - intros [D F]%andb_true_iff. apply bool_decide_eq_true in D. rewrite forallb_forall in F.
    rewrite Forall_forall in IH. constructor; [done|..]; apply Forall_forall; intros [k v] I;
      pose proof (F (k, v) (proj1 (list_elem_of_In _ _) I)) as K; apply andb_true_iff in K as [K1 K2].
    + by apply units_okb_sound.
    + apply orb_true_iff in K2 as [U|K2]; [right; by destruct v|left; by apply (IH (k, v))].
Qed.

(** The value without its undefined fields. *)
Definition defined (kv : jsstr * jsval) : bool := negb (is_undefined kv.2).
Fixpoint without_undefined (v : jsval) : jsval :=
  match v with
  | JArr items => JArr (map without_undefined items)
  | JObj fields =>
      JObj (flat_map (λ '(k, v), if is_undefined v then [] else [(k, without_undefined v)]) fields)
  | _ => v
  end.

(** ** Spaces *)

Definition spaces (s : jsstr) : Prop := Forall (λ c, json_space c = true) s.

Lemma spaces_new_line gap indent : spaces (new_line gap indent).
Proof. destruct gap; constructor; [done|]. induction indent; constructor; auto. Qed.

Lemma skip_space_app sp s : spaces sp → skip_space (sp ++ s) = skip_space s.
Proof. induction 1 as [|c sp C _ IH]; [done|]. cbn [app skip_space]. by rewrite C. Qed.

Lemma skip_space_solid c s : json_space c = false → skip_space (c :: s) = c :: s.
Proof. intros C. cbn [skip_space]. by rewrite C. Qed.

Lemma json_value_space f sp s : spaces sp → json_value f (sp ++ s) = json_value f s.
Proof. intros S. destruct f; [done|]. cbn [json_value]. by rewrite skip_space_app. Qed.

Lemma json_items_space f sp s : spaces sp → json_items f (sp ++ s) = json_items f s.
Proof. intros S. destruct f; [done|]. cbn [json_items]. by rewrite json_value_space. Qed.

Lemma json_fields_space f sp s : spaces sp → json_fields f (sp ++ s) = json_fields f s.
Proof. intros S. destruct f; [done|]. cbn [json_fields]. by rewrite skip_space_app. Qed.

(** ** Objects with distinct keys *)

Lemma set_own_new fields k v : k ∉ fields.*1 → set_own fields k v = fields ++ [(k, v)].
Proof.
  induction fields as [|[k' v'] fields IH]; [done|]. cbn. intros N. apply not_elem_of_cons in N as [N1 N2].
  rewrite (proj2 (jseq_neq _ _)) by congruence. by rewrite IH.
Qed.

Lemma json_object_distinct fields : NoDup fields.*1 → json_object fields = JObj fields.
Proof.
  intros D. unfold json_object. f_equal.
  assert (∀ done, NoDup (done ++ fields).*1 →
    fold_left (λ object '(k, v), set_own object k v) fields done = done ++ fields) as H.
  { clear D. induction fields as [|[k v] fields IH]; intros done D; [by rewrite app_nil_r|]. cbn.
    rewrite set_own_new.
    - rewrite IH by (by rewrite <- app_assoc). by rewrite <- app_assoc.
    - rewrite fmap_app in D. apply NoDup_app in D as (_ & D & _). intros I. apply (D k I). cbn. set_solver. }
  by apply H.
Qed.

(** ** Numbers *)

(** What may follow a number. *)
Definition delimits (rest : jsstr) : Prop :=
  match rest with
  | [] => True
  | c :: _ => is_digit c = false ∧ c ≠ 46%N ∧ c ≠ 101%N ∧ c ≠ 69%N
  end.

Lemma span_digits_delimited s d rest :
  span_digits s = (d, []) → delimits rest → span_digits (s ++ rest) = (d, rest).
Proof.
  revert d. induction s as [|c s IH]; intros d E D; cbn [span_digits app] in *.
  - injection E as <-. destruct rest as [|c rest]; [done|]. destruct D as [D _]. cbn. by rewrite D.
  - destruct (is_digit c); [|done]. destruct (span_digits s) as [d' r'] eqn:F. injection E as <- ->.
    by rewrite (IH d').
Qed.

Lemma span_digits_continued s d c r rest :
  span_digits s = (d, c :: r) → span_digits (s ++ rest) = (d, c :: r ++ rest).
Proof.
  revert d. induction s as [|x s IH]; intros d E; cbn [span_digits app] in *; [done|].
  destruct (is_digit x); [|by injection E as <- <- <-].
  destruct (span_digits s) as [d' r'] eqn:F. injection E as <- ->. by rewrite (IH d').
Qed.

Lemma span_exponent_delimited s e rest :
  span_exponent s = (e, []) → delimits rest → span_exponent (s ++ rest) = (e, rest).
Proof.
  intros E D. destruct s as [|c s]; cbn [span_exponent app] in *.
  - injection E as <-. destruct rest as [|c rest]; [done|]. destruct D as (_ & _ & D1 & D2). cbn.
    by rewrite (proj2 (N.eqb_neq _ _) D1), (proj2 (N.eqb_neq _ _) D2).
  - destruct (_ || _); [|done].
    assert (∃ neg t, match s with x :: t => if (x =? 43)%N then (false, t) else if (x =? 45)%N then (true, t) else (false, s)
                     | [] => (false, s) end = (neg, t) ∧
                     (t ≠ [] → match s ++ rest with x :: t => if (x =? 43)%N then (false, t) else if (x =? 45)%N then (true, t)
                       else (false, s ++ rest) | [] => (false, s ++ rest) end = (neg, t ++ rest))) as (neg & t & E1 & E2).
    { destruct s as [|x s]; [by exists false, []|]. cbn [app]. destruct (x =? 43)%N; [by eauto|].
      destruct (x =? 45)%N; eauto. }
    rewrite E1 in E. destruct (span_digits t) as [[|x ds] r] eqn:S; [done|]. injection E as <- ->.
    rewrite E2 by (by intros ->). by rewrite (span_digits_delimited _ _ _ S D).
Qed.

Lemma json_decimal_delimited neg ip frac s x rest :
  json_decimal neg ip frac s = (x, []) → delimits rest → json_decimal neg ip frac (s ++ rest) = (x, rest).
Proof.
  unfold json_decimal. destruct (span_exponent s) as [e r] eqn:E. intros [= <- ->] D.
  by rewrite (span_exponent_delimited _ _ _ E D).
Qed.

Lemma json_fraction_delimited neg ip s x rest :
  json_fraction neg ip s = Some (x, []) → delimits rest → json_fraction neg ip (s ++ rest) = Some (x, rest).
Proof.
  intros E D. destruct s as [|c s]; cbn [json_fraction app] in *.
  - apply Some_inj in E. apply (json_decimal_delimited _ _ _ _ _ rest) in E; [|done]. cbn [app] in E.
    destruct rest as [|c rest]; [exact (f_equal Some E)|]. cbn [json_fraction]. destruct D as (_ & N & _).
    by rewrite (proj2 (N.eqb_neq _ _) N), E.
  - destruct (c =? 46)%N.
    + destruct (span_digits s) as [[|f frac] r] eqn:S; [done|]. apply Some_inj in E.
      destruct r as [|c' r].
      * rewrite (span_digits_delimited _ _ _ S D). f_equal. by apply (json_decimal_delimited _ _ _ []).
      * rewrite (span_digits_continued _ _ _ _ _ S). f_equal. by apply (json_decimal_delimited _ _ _ (c' :: r)).
    + apply Some_inj in E. f_equal. by apply (json_decimal_delimited _ _ _ (c :: s)).
Qed.

Lemma json_magnitude_delimited neg s x rest :
  json_magnitude neg s = Some (x, []) → delimits rest → json_magnitude neg (s ++ rest) = Some (x, rest).
Proof.
  unfold json_magnitude. intros E D. destruct (span_digits s) as [[|i ip] r] eqn:S; [done|].
  destruct r as [|c r]; [rewrite (span_digits_delimited _ _ _ S D)|rewrite (span_digits_continued _ _ _ _ _ S)];
    (destruct (leading_zero (i :: ip)); [done|]).
  - by apply (json_fraction_delimited _ _ []).
  - by apply (json_fraction_delimited _ _ (c :: r)).
Qed.

Lemma json_number_delimited s x rest :
  json_number s = Some (x, []) → delimits rest → json_number (s ++ rest) = Some (x, rest).
Proof.
  destruct s as [|c s]; [done|]. cbn [json_number app]. destruct (c =? 45)%N.
  - apply json_magnitude_delimited.
  - apply (json_magnitude_delimited _ (c :: s)).
Qed.

(** The first unit of a number is a sign or a digit. *)
Definition number_head (c : N) : bool := (c =? 45)%N || is_digit c.

Lemma json_number_head s x r : json_number s = Some (x, r) → ∃ c t, s = c :: t ∧ number_head c = true.
Proof.
  destruct s as [|c s]; [done|]. intros E. exists c, s. split; [done|]. unfold number_head. cbn [json_number] in E.
  destruct (c =? 45)%N; [done|]. unfold json_magnitude in E. cbn [span_digits] in E. by destruct (is_digit c).
Qed.

(** ** Reading back *)

(** The defined fields, each with its printed value. *)
Definition kept (fields : list (jsstr * jsval)) : list (jsstr * jsval) :=
  flat_map (λ '(k, v), if is_undefined v then [] else [(k, v)]) fields.
Section Gap.
Variable gap : nat.

Definition field_line (indent : nat) (kv : jsstr * jsval) : jsstr :=
  json_stringify kv.1 ++ colon gap ++ json_text gap indent kv.2.

Lemma json_text_object indent fields :
  json_text gap indent (JObj fields)
  = bracketed gap 123 125 indent (map (field_line (indent + gap)) (kept fields)).
Proof.
  change (json_text gap indent (JObj fields)) with
    (bracketed gap 123 125 indent (flat_map (λ '(k, v), if is_undefined v then []
       else [json_stringify k ++ colon gap ++ json_text gap (indent + gap) v]) fields)).
  f_equal. unfold kept.
  induction fields as [|[k v] fields IH]; [done|]. cbn [flat_map]. rewrite IH, map_app.
  by destruct (is_undefined v).
Qed.

Lemma without_undefined_object fields :
  without_undefined (JObj fields) = JObj (map (λ kv, (kv.1, without_undefined kv.2)) (kept fields)).
Proof.
  cbn. f_equal. unfold kept.
  induction fields as [|[k v] fields IH]; [done|]. cbn. rewrite IH, map_app. by destruct (is_undefined v).
Qed.

Lemma elem_kept kv fields : kv ∈ kept fields ↔ kv ∈ fields ∧ kv.2 ≠ JUndefined.
Proof.
  unfold kept. rewrite list_elem_of_In, in_flat_map. split.
  - intros ([k v] & I & J). destruct (is_undefined v) eqn:U; [done|]. destruct J as [<-|[]].
    split; [by apply list_elem_of_In|]. by destruct v.
  - intros [I N]. exists kv. split; [by apply list_elem_of_In|]. destruct kv as [k []]; cbn; auto; done.
Qed.

Lemma kept_keys fields : NoDup fields.*1 → NoDup (kept fields).*1.
Proof.
  induction fields as [|[k v] fields IH]; [done|]. cbn. intros [N D]%NoDup_cons.
  destruct (is_undefined v); [by apply IH|]. cbn. apply NoDup_cons. split; [|by apply IH].
  intros (kv & -> & [I _]%elem_kept)%list_elem_of_fmap. apply N, list_elem_of_fmap. by exists kv.
Qed.

(** The first unit of a printed value; it is no space and closes nothing. *)
Lemma json_text_head indent v :
  printable v →
  ∃ c r, json_text gap indent v = c :: r ∧ (c ∈ ([34; 91; 123; 110; 116; 102]%N : list N) ∨ number_head c = true).
Proof.
  destruct 1 as [|[]|x N|s _|items _|fields _ _ _]; try (by eexists _, _; split; [reflexivity|left; set_solver]).
  - unfold number_reads in N. apply andb_true_iff in N as [F N].
    change (json_text gap indent (JNum x)) with (finite_text x). unfold finite_text. rewrite F.
    destruct (json_number _) as [[y r]|] eqn:E; [|done]. apply json_number_head in E as (c & u & -> & H); eauto.
  - change (json_text gap indent (JArr items)) with
      (bracketed gap 91 93 indent (map (json_text gap (indent + gap)) items)).
    destruct items; cbn [map bracketed]; eexists _, _; (split; [reflexivity|left; set_solver]).
  - rewrite json_text_object. destruct (map _ _); cbn [bracketed]; eexists _, _; (split; [reflexivity|left; set_solver]).
Qed.

(** The reader of one value, as the induction hypothesis provides it. *)
Definition reads (v : jsval) : Prop :=
  ∀ indent fuel rest, delimits rest → length (json_text gap indent v) ≤ fuel →
    json_value fuel (json_text gap indent v ++ rest) = Some (without_undefined v, rest).

Definition lines (indent : nat) (ls : list jsstr) : jsstr :=
  join [cu ","] (map (app (new_line gap indent)) ls).

Lemma lines_cons indent l ls :
  lines indent (l :: ls) = new_line gap indent ++ l ++ match ls with [] => [] | _ => cu "," :: lines indent ls end.
Proof. unfold lines. destruct ls; cbn [map join]; by rewrite <- ?app_assoc, ?app_nil_r. Qed.

Lemma delimits_closing outer c rest :
  c = 93%N ∨ c = 125%N → delimits (new_line gap outer ++ c :: rest).
Proof. intros [-> | ->]; unfold new_line; by destruct gap. Qed.

Lemma json_items_read items outer inner fuel rest :
  items ≠ [] → Forall reads items →
  length (lines inner (map (json_text gap inner) items)) < fuel →
  json_items fuel (lines inner (map (json_text gap inner) items) ++ new_line gap outer ++ 93%N :: rest)
  = Some (map without_undefined items, rest).
Proof.
  revert fuel. induction items as [|v items IH]; intros fuel NE R L; [done|].
  apply Forall_cons in R as [Rv R]. cbn [map] in *. rewrite lines_cons in *.
  rewrite !length_app in L.
  destruct fuel as [|fuel]; [lia|]. cbn [json_items].
  rewrite <- !app_assoc, json_value_space by apply spaces_new_line.
  destruct items as [|v' items];
    (rewrite Rv by (done || lia || (cbn [app]; apply delimits_closing; auto)); cbn [mbind option_bind]).
  - cbn [map app]. rewrite skip_space_app by apply spaces_new_line. done.
  - cbn [map app]. rewrite skip_space_solid by done. cbn [map] in IH.
    change (cu ",") with 44%N. cbv beta iota. rewrite IH; [done|done|done|].
    cbn [map length] in L. lia.
Qed.

Lemma json_fields_read fields outer inner fuel rest :
  fields ≠ [] → Forall (λ kv, units_ok kv.1 ∧ reads kv.2) fields →
  length (lines inner (map (field_line inner) fields)) < fuel →
  json_fields fuel (lines inner (map (field_line inner) fields) ++ new_line gap outer ++ 125%N :: rest)
  = Some (map (λ kv, (kv.1, without_undefined kv.2)) fields, rest).
Proof.
  revert fuel. induction fields as [|[k v] fields IH]; intros fuel NE R L; [done|].
  apply Forall_cons in R as [[U Rv] R]. cbn [map fst snd] in *. rewrite lines_cons in *.
  unfold field_line at 1 in L. unfold field_line at 1. cbn [fst snd] in *.
  rewrite !length_app in L.
  destruct fuel as [|fuel]; [lia|]. cbn [json_fields].
  rewrite <- !app_assoc, skip_space_app by apply spaces_new_line.
  unfold json_stringify. cbn [app]. rewrite skip_space_solid by done. change DQUOTE with 34%N at 1.
  cbv beta iota. rewrite <- !app_assoc. cbn [app]. rewrite json_units_read by done.
  cbn [mbind option_bind app].
  assert (∃ sp, colon gap = 58%N :: sp ∧ spaces sp) as (sp & EC & SP)
    by (unfold colon; destruct gap; eexists; (split; [reflexivity|by repeat constructor])).
  rewrite EC in *. cbn [app]. rewrite skip_space_solid by done. cbv beta iota. rewrite json_value_space by done.
  destruct fields as [|kv fields];
    (rewrite Rv by (done || lia || (cbn [app]; apply delimits_closing; auto)); cbn [mbind option_bind]).
  - cbn [map app]. rewrite skip_space_app by apply spaces_new_line. done.
  - cbn [map app]. rewrite skip_space_solid by done. cbn [map] in IH.
    change (cu ",") with 44%N. cbv beta iota. rewrite IH; [done|done|done|].
    cbn [map length] in L. lia.
Qed.

Lemma number_head_cases c : number_head c = true → c ∈ ([45; 48; 49; 50; 51; 52; 53; 54; 55; 56; 57]%N : list N).
Proof.
  unfold number_head, is_digit. intros [H|[L U]%andb_true_iff]%orb_true_iff.
  - apply N.eqb_eq in H as ->. set_solver.
  - apply N.leb_le in L, U.
    assert (c = 48 ∨ c = 49 ∨ c = 50 ∨ c = 51 ∨ c = 52 ∨ c = 53 ∨ c = 54 ∨ c = 55 ∨ c = 56 ∨ c = 57)%N as H by lia.
    repeat destruct H as [->|H]; subst; set_solver.
Qed.

Lemma head_cases c :
  c ∈ ([34; 91; 123; 110; 116; 102]%N : list N) ∨ number_head c = true →
  json_space c = false ∧ c ≠ 93%N ∧ c ≠ 125%N.
Proof.
  intros [H|H%number_head_cases]; rewrite !elem_of_cons, elem_of_nil in H; repeat destruct H as [->|H]; done.
Qed.

Lemma json_value_number fuel s x r :
  json_number s = Some (x, r) → json_value (S fuel) s = Some (JNum x, r).
Proof.
  intros E. pose proof (json_number_head _ _ _ E) as (c & t & -> & H%number_head_cases).
  rewrite !elem_of_cons, elem_of_nil in H.
  repeat destruct H as [->|H]; try done; cbn [json_value]; rewrite skip_space_solid by done;
    change (strip_prefix _ _) with (@None jsstr); cbv iota; by rewrite E.
Qed.

(** The reader of an array or object that has a first line. *)
Lemma json_array_step fuel r c rest :
  skip_space r = c :: rest → c ≠ 93%N →
  json_value (S fuel) (91%N :: r) = '(items, r) ← json_items fuel (c :: rest); Some (JArr items, r).
Proof.
  intros E N. cbn [json_value]. rewrite skip_space_solid, E by done.
  destruct c as [|p]; [done|]. repeat (destruct p as [p|p|]; try done).
Qed.

Lemma json_object_step fuel r c rest :
  skip_space r = c :: rest → c ≠ 125%N →
  json_value (S fuel) (123%N :: r) = '(fields, r) ← json_fields fuel (c :: rest); Some (json_object fields, r).
Proof.
  intros E N. cbn [json_value]. rewrite skip_space_solid, E by done.
  destruct c as [|p]; [done|]. repeat (destruct p as [p|p|]; try done).
Qed.

Lemma bracketed_lines o c indent l ls :
  bracketed gap o c indent (l :: ls) = o :: lines (indent + gap) (l :: ls) ++ new_line gap indent ++ [c].
Proof. done. Qed.

(** A list of lines starts, after the indentation, with its first line. *)
Lemma lines_head indent c l ls rest :
  json_space c = false →
  ∃ r, lines indent ((c :: l) :: ls) ++ rest = new_line gap indent ++ c :: r ∧
       skip_space (lines indent ((c :: l) :: ls) ++ rest) = c :: r.
Proof.
  intros S. rewrite lines_cons, <- !app_assoc. eexists. split; [reflexivity|].
  rewrite skip_space_app by apply spaces_new_line. cbn [app]. by apply skip_space_solid.
Qed.

Lemma array_reads items : Forall printable items → Forall reads items → reads (JArr items).
Proof.
  intros P R indent fuel rest DL L.
  change (json_text gap indent (JArr items)) with
    (bracketed gap 91 93 indent (map (json_text gap (indent + gap)) items)) in *.
  destruct items as [|v items]; [destruct fuel; [cbn in L; lia|done]|].
  destruct (json_text_head (indent + gap) v) as (c & r & E & (C1 & C2 & _)%head_cases);
    [by apply Forall_cons in P as [P _]|].
  pose proof (json_items_read (v :: items) indent (indent + gap) (pred fuel) rest ltac:(done) R) as I.
  cbn [map] in I, L |- *. rewrite bracketed_lines in *. rewrite E in *.
  cbn [length] in L. rewrite !length_app in L. cbn [length] in L. destruct fuel as [|fuel]; [lia|].
  cbn [pred] in I. specialize (I ltac:(lia)). cbn [app]. rewrite <- !app_assoc. cbn [app].
  destruct (lines_head (indent + gap) c r (map (json_text gap (indent + gap)) items)
              (new_line gap indent ++ 93%N :: rest) C1) as (x & X1 & X2).
  rewrite (json_array_step _ _ _ _ X2 C2), <- (json_items_space _ (new_line gap (indent + gap)))
    by apply spaces_new_line.
  apply (f_equal (json_items fuel)) in X1. by rewrite (eq_trans (eq_sym X1) I).
Qed.

Lemma object_reads fields :
  NoDup fields.*1 → Forall (λ kv, units_ok kv.1 ∧ reads kv.2) (kept fields) → reads (JObj fields).
Proof.
  intros D R indent fuel rest DL L. rewrite json_text_object, without_undefined_object in *.
  apply kept_keys in D. destruct (kept fields) as [|kv kvs] eqn:K; [destruct fuel; [cbn in L; lia|done]|].
  pose proof (json_fields_read (kv :: kvs) indent (indent + gap) (pred fuel) rest ltac:(done) R) as I.
  cbn [map] in I, L |- *. rewrite bracketed_lines in *.
  cbn [length] in L. rewrite !length_app in L. cbn [length] in L. destruct fuel as [|fuel]; [lia|].
  cbn [pred] in I. specialize (I ltac:(lia)). cbn [app]. rewrite <- !app_assoc. cbn [app].
  unfold field_line at 1, json_stringify in I. unfold field_line at 1, json_stringify. cbn [app] in I |- *.
  edestruct (lines_head (indent + gap) DQUOTE) as (x & X1 & X2); [done|].
  rewrite (json_object_step _ _ _ _ X2), <- (json_fields_space _ (new_line gap (indent + gap)))
    by (done || apply spaces_new_line).
  apply (f_equal (json_fields fuel)) in X1. rewrite (eq_trans (eq_sym X1) I). cbn [mbind option_bind]. rewrite json_object_distinct; [done|].
  change ((kv.1, without_undefined kv.2) :: map (λ kv, (kv.1, without_undefined kv.2)) kvs)
    with (map (λ kv, (kv.1, without_undefined kv.2)) (kv :: kvs)).
  rewrite <- list_fmap_compose. exact D.
Qed.

Lemma fuel_positive v indent fuel :
  printable v → length (json_text gap indent v) ≤ fuel → ∃ k, fuel = S k.
Proof.
  intros (c & r & E & _)%(json_text_head indent) L. rewrite E in L. destruct fuel; [cbn in L; lia|eauto].
Qed.

Lemma printable_reads v : printable v → reads v.
Proof.
  induction v as [| |b|x|s|items IH|fields IH] using jsval_rect'; intros P.
  - inversion P.
  - intros indent fuel rest D L. destruct (fuel_positive _ _ _ P L) as (k & ->). done.
  - intros indent fuel rest D L. destruct (fuel_positive _ _ _ P L) as (k & ->). by destruct b.
  - intros indent fuel rest D L. destruct (fuel_positive _ _ _ P L) as (k & ->). inversion_clear P as [| |? N| | |].
    unfold number_reads in N. apply andb_true_iff in N as [F N].
    change (json_text gap indent (JNum x)) with (finite_text x). unfold finite_text. rewrite F.
    destruct (json_number _) as [[y [|]]|] eqn:E; try done. apply bool_decide_eq_true in N as ->.
    by apply json_value_number, json_number_delimited.
  - intros indent fuel rest D L. destruct (fuel_positive _ _ _ P L) as (k & ->). inversion_clear P.
    change (json_text gap indent (JStr s)) with (json_stringify s). unfold json_stringify.
    cbn [app json_value]. rewrite skip_space_solid by done. change DQUOTE with 34%N at 1.
    cbv beta iota. rewrite <- app_assoc. cbn [app]. by rewrite json_units_read.
  - inversion_clear P as [| | | |? P'|]. apply array_reads; [done|].
    rewrite Forall_forall in *. eauto.
  - inversion_clear P as [| | | | |? D U P']. apply object_reads; [done|].
    rewrite Forall_forall in *. intros kv [I N]%elem_kept. split; [by apply U|].
    apply IH; [done|]. by destruct (P' kv I).
Qed.

(** Whatever is printed is read back, without its undefined fields. *)
Lemma json_parse_printed v : printable v → json_parse (json_text gap 0 v) = Some (without_undefined v).
Proof.
  intros P%printable_reads. unfold json_parse.
  rewrite <- (app_nil_r (json_text gap 0 v)) at 2. by rewrite P by (done || lia).
Qed.
End Gap.

Lemma json_parse_text v : printable v → json_parse (stringify_pretty v) = Some (without_undefined v).
Proof. apply json_parse_printed. Qed.

Lemma json_parse_compact v : printable v → json_parse (json_compact v) = Some (without_undefined v).
Proof. apply json_parse_printed. Qed.
