(* ===== verification/AuthStore.v ===== *)
(** * Authentication store and its data

    Models [stores/auth-store.ts] (the store and its five operations) and
    the type guards of [lib/auth-session.ts].  A guard [value is T] of the
    source is a boolean function on JSON values; the value it admits is read
    into the record [T] by [read_T], and the two agree (see
    [AuthSessionFacts]).  Objects keep the fields the guards do not look at:
    the optional fields of a user are unchecked, so the object itself is part
    of the record. *)
From stdpp Require Import base list option numbers sets.
From Stdlib Require Import ZArith SpecFloat Lia.
From S2P Require Import Prelude.
From S2P Require Import JsString.
From S2P Require Import JsNumber.
From S2P Require Import Runtime.

(** ** Reading properties *)

(** [v.key] on a value that is not null or undefined. *)
Definition prop (v : jsval) (key : jsstr) : jsval :=
  match v with
  | JObj fields => default JUndefined (own fields key)
  | _ => JUndefined
  end.

(** [typeof v === 'string'] and the string; likewise for the other types. *)
Definition as_string (v : jsval) : option jsstr :=
  match v with JStr s => Some s | _ => None end.
Definition as_number (v : jsval) : option num :=
  match v with JNum x => Some x | _ => None end.
Definition as_boolean (v : jsval) : option bool :=
  match v with JBool b => Some b | _ => None end.

(** [typeof v === 'string'] and the like, as tests. *)
Definition is_some {A} (o : option A) : bool := match o with Some _ => true | None => false end.
Definition is_string (v : jsval) : bool := is_some (as_string v).
Definition is_number (v : jsval) : bool := is_some (as_number v).
Definition is_boolean (v : jsval) : bool := is_some (as_boolean v).

(** [s.length > 0] on a value known to be a string *)
Definition nonempty (v : jsval) : bool :=
  match v with JStr (_ :: _) => true | _ => false end.

(** ** Data *)

Record AuthUser : Type := {
  user_id : num;
  username : jsstr;
  role : num;
  user_object : jsval;
}.

Record LoginSession : Type := {
  sid : jsstr;
  current : bool;
  login_method : jsstr;
  ip : jsstr;
  user_agent : jsstr;
  created_at : num;
  last_active_at : num;
  expires_at : num;
}.

Record AuthBundle : Type := {
  access_token : jsstr;
  token_type : jsstr;
  access_expires_at : num;
  bundle_user : AuthUser;
  bundle_session : LoginSession;
}.

Inductive AuthBootstrapState : Type := idle | checking | complete.

#[global] Instance AuthBootstrapState_eq_dec : EqDecision AuthBootstrapState.
Proof. solve_decision. Defined.

Record PendingLoginVerification : Type := {
  challenge : jsval;
  redirectTo : option jsstr;
}.

Record AuthState : Type := {
  user : option AuthUser;
  accessToken : option jsstr;
  accessExpiresAt : option num;
  session : option LoginSession;
  pendingLoginVerification : option PendingLoginVerification;
  bootstrapState : AuthBootstrapState;
}.

(** ** Store operations *)

Definition initialAuthState : AuthState :=
  {| user := None; accessToken := None; accessExpiresAt := None; session := None;
     pendingLoginVerification := None; bootstrapState := idle |}.

Definition setBundle (bundle : AuthBundle) (state : AuthState) : AuthState :=
  {| user := Some (bundle_user bundle);
     accessToken := Some (access_token bundle);
     accessExpiresAt := Some (access_expires_at bundle);
     session := Some (bundle_session bundle);
     pendingLoginVerification := None;
     bootstrapState := complete |}.

(** [a?.id === b?.id] *)
Definition same_user_id (a b : option AuthUser) : bool :=
  match a, b with
  | Some u, Some v => neqb (user_id u) (user_id v)
  | None, None => true
  | _, _ => false
  end.

Definition setUser (u : option AuthUser) (state : AuthState) : AuthState :=
  {| user := u;
     accessToken := accessToken state;
     accessExpiresAt := accessExpiresAt state;
     session := session state;
     pendingLoginVerification :=
       if same_user_id (user state) u then pendingLoginVerification state else None;
     bootstrapState := bootstrapState state |}.

Definition setPendingLoginVerification (pending : option PendingLoginVerification)
    (state : AuthState) : AuthState :=
  {| user := user state;
     accessToken := accessToken state;
     accessExpiresAt := accessExpiresAt state;
     session := session state;
     pendingLoginVerification := pending;
     bootstrapState := bootstrapState state |}.

Definition setBootstrapState (b : AuthBootstrapState) (state : AuthState) : AuthState :=
  {| user := user state;
     accessToken := accessToken state;
     accessExpiresAt := accessExpiresAt state;
     session := session state;
     pendingLoginVerification := pendingLoginVerification state;
     bootstrapState := b |}.

Definition reset (b : AuthBootstrapState) (state : AuthState) : AuthState :=
  {| user := None; accessToken := None; accessExpiresAt := None; session := None;
     pendingLoginVerification := None; bootstrapState := b |}.

(** [auth.session?.sid] *)
Definition session_sid (state : AuthState) : option jsstr := sid <$> session state.

(** ** Type guards *)

(** [Boolean(value) && typeof value === 'object'] *)
Definition isRecord (v : jsval) : bool := is_object v.

(** [Number.isInteger(value.id) && Number(value.id) > 0] *)
Definition positive_integer (v : jsval) : bool :=
  match v with JNum x => is_integer x && ngtb x NZERO | _ => false end.

Definition isAuthUser (v : jsval) : bool :=
  isRecord v &&
  (positive_integer (prop v (js "id")) &&
   is_string (prop v (js "username")) &&
   is_number (prop v (js "role"))).

Definition isLoginSession (v : jsval) : bool :=
  isRecord v &&
  (is_string (prop v (js "sid")) &&
   nonempty (prop v (js "sid")) &&
   is_boolean (prop v (js "current")) &&
   is_string (prop v (js "login_method")) &&
   is_string (prop v (js "ip")) &&
   is_string (prop v (js "user_agent")) &&
   is_number (prop v (js "created_at")) &&
   is_number (prop v (js "last_active_at")) &&
   is_number (prop v (js "expires_at"))).

(** [Number.isFinite(x) && x > 0] *)
Definition positive_finite (v : jsval) : bool :=
  match v with JNum x => is_finite x && ngtb x NZERO | _ => false end.

Definition hasValidTokenFields (v : jsval) : bool :=
  is_string (prop v (js "access_token")) &&
  nonempty (prop v (js "access_token")) &&
  is_string (prop v (js "token_type")) &&
  nonempty (prop v (js "token_type")) &&
  is_number (prop v (js "access_expires_at")) &&
  positive_finite (prop v (js "access_expires_at")).

Definition isAuthBundle (v : jsval) : bool :=
  isRecord v &&
  (hasValidTokenFields v &&
   isAuthUser (prop v (js "user")) &&
   isLoginSession (prop v (js "session"))).

(** [x === s] for a string literal [s] *)
Definition is_literal (v : jsval) (s : jsstr) : bool :=
  match v with JStr x => jseq x s | _ => false end.

Definition isAuthTokenRotation (v : jsval) : bool :=
  isRecord v &&
  hasValidTokenFields v &&
  is_literal (prop v (js "token_type")) (js "Bearer") &&
  isLoginSession (prop v (js "session")) &&
  match prop (prop v (js "session")) (js "current") with JBool b => b | _ => false end.

(** ** Typed reading of a guarded value *)

Definition read_AuthUser (v : jsval) : option AuthUser :=
  i ← as_number (prop v (js "id"));
  n ← as_string (prop v (js "username"));
  r ← as_number (prop v (js "role"));
  Some {| user_id := i; username := n; role := r; user_object := v |}.

Definition read_LoginSession (v : jsval) : option LoginSession :=
  s ← as_string (prop v (js "sid"));
  c ← as_boolean (prop v (js "current"));
  l ← as_string (prop v (js "login_method"));
  a ← as_string (prop v (js "ip"));
  g ← as_string (prop v (js "user_agent"));
  t1 ← as_number (prop v (js "created_at"));
  t2 ← as_number (prop v (js "last_active_at"));
  t3 ← as_number (prop v (js "expires_at"));
  Some {| sid := s; current := c; login_method := l; ip := a; user_agent := g;
          created_at := t1; last_active_at := t2; expires_at := t3 |}.

Definition read_AuthBundle (v : jsval) : option AuthBundle :=
  t ← as_string (prop v (js "access_token"));
  k ← as_string (prop v (js "token_type"));
  e ← as_number (prop v (js "access_expires_at"));
  u ← read_AuthUser (prop v (js "user"));
  s ← read_LoginSession (prop v (js "session"));
  Some {| access_token := t; token_type := k; access_expires_at := e;
          bundle_user := u; bundle_session := s |}.

(** [(value) => (isAuthBundle(value) ? value : null)] *)
Definition parseBundle (v : jsval) : option AuthBundle :=
  if isAuthBundle v then read_AuthBundle v else None.

(** The rotation without its user: the four fields of [AuthTokenRotation]. *)
Record AuthTokenRotation : Type := {
  rotation_access_token : jsstr;
  rotation_token_type : jsstr;
  rotation_access_expires_at : num;
  rotation_session : LoginSession;
}.

Definition read_AuthTokenRotation (v : jsval) : option AuthTokenRotation :=
  t ← as_string (prop v (js "access_token"));
  k ← as_string (prop v (js "token_type"));
  e ← as_number (prop v (js "access_expires_at"));
  s ← read_LoginSession (prop v (js "session"));
  Some {| rotation_access_token := t; rotation_token_type := k;
          rotation_access_expires_at := e; rotation_session := s |}.

(** ** Well-formed data *)

(** What the guards promise of the values they admit. *)
Definition valid_user (u : AuthUser) : bool :=
  is_integer (user_id u) && ngtb (user_id u) NZERO.
Definition valid_session (s : LoginSession) : bool :=
  match sid s with [] => false | _ => true end.
Definition valid_bundle (b : AuthBundle) : bool :=
  match access_token b with [] => false | _ => true end &&
  match token_type b with [] => false | _ => true end &&
  is_finite (access_expires_at b) && ngtb (access_expires_at b) NZERO &&
  valid_user (bundle_user b) && valid_session (bundle_session b).

(** The store's credentials come and go together: a session has a token and
    an expiry, and conversely; they are the ones of a valid bundle. *)
Definition credentials_ok (state : AuthState) : bool :=
  match accessToken state, accessExpiresAt state, session state with
  | Some (_ :: _), Some e, Some s => is_finite e && ngtb e NZERO && valid_session s
  | None, None, None => true
  | _, _, _ => false
  end.
