(* ===== verification/AuthSession.v ===== *)
(** * Login session of the console

    Models [lib/auth-session.ts], [lib/auth-session-sync.ts],
    [lib/session-hint.ts] and the listeners of [routes/__root.tsx].

    One browser tab is a [world]: the authentication store, the module
    variables [authEpoch] and [refreshPromise], the running refreshes (each
    an asynchronous function stopped at an [await]) and the visible effects.
    Synchronous code is a function on worlds.  An asynchronous function is
    cut at its [await]s: [run] and [resume_response] execute up to the next
    one and return a [suspension].  The environment decides the order in
    which answers, timers and user actions arrive: an execution is a list of
    [event]s, and the theorems hold for every such list. *)
From stdpp Require Import base list option numbers sets gmap.
From Stdlib Require Import ZArith SpecFloat Lia.
From S2P Require Import Prelude.
From S2P Require Import JsString.
From S2P Require Import JsNumber.
From S2P Require Import Runtime.
From S2P Require Import Json.
From S2P Require Import JsText.
From S2P Require Import AuthStore.

(** What a tab finds in its browser.  [randomIdentifier n] is the n-th
    identifier the module draws; the first one names the tab. *)
Class Platform := {
  has_window : bool;
  has_locks : bool;
  randomIdentifier : nat → jsstr;
}.

(** ** Session hint *)

Definition SESSION_HINT_COOKIE_NAME : jsstr := js "new_api_has_session".

Fixpoint read_parts (parts : list jsstr) (name : jsstr) : option jsstr :=
  match parts with
  | [] => None
  | part :: parts =>
      match index_of (cu "=") part with
      | None => read_parts parts name
      | Some separator =>
          if negb (jseq (trim (take separator part)) name) then read_parts parts name
          else Some (trim (drop (S separator) part))
      end
  end.

Definition readCookie (cookieHeader name : jsstr) : option jsstr :=
  read_parts (split_on (cu ";") cookieHeader) name.

(** The argument is [document.cookie], [None] when there is no document. *)
Definition hasSessionHint (cookie : option jsstr) : bool :=
  match cookie with
  | None => true
  | Some header => is_some (readCookie header SESSION_HINT_COOKIE_NAME)
  end.

(** ** Synchronisation events between tabs *)

Inductive sync_kind : Type := authenticated | signed_out.

#[global] Instance sync_kind_eq_dec : EqDecision sync_kind.
Proof. solve_decision. Defined.

Record AuthSessionSyncEvent : Type := {
  kind : sync_kind;
  event_sid : jsstr;
  source : jsstr;
  nonce : jsstr;
  timestamp : num;
}.

Definition AUTH_SYNC_STORAGE_KEY : jsstr := js "new-api:auth-session:event".

Definition isAuthSessionSyncEvent (v : jsval) : bool :=
  isRecord v &&
  ((is_literal (prop v (js "kind")) (js "authenticated")
    || is_literal (prop v (js "kind")) (js "signed_out")) &&
   is_string (prop v (js "sid")) &&
   nonempty (prop v (js "sid")) &&
   is_string (prop v (js "source")) &&
   is_string (prop v (js "nonce")) &&
   is_number (prop v (js "timestamp"))).

Definition read_sync_event (v : jsval) : option AuthSessionSyncEvent :=
  s ← as_string (prop v (js "sid"));
  o ← as_string (prop v (js "source"));
  n ← as_string (prop v (js "nonce"));
  t ← as_number (prop v (js "timestamp"));
  Some {| kind := if is_literal (prop v (js "kind")) (js "authenticated")
                  then authenticated else signed_out;
          event_sid := s; source := o; nonce := n; timestamp := t |}.

(** The object that is posted. *)
Definition sync_event_value (e : AuthSessionSyncEvent) : jsval :=
  JObj [(js "kind", JStr (match kind e with
                          | authenticated => js "authenticated"
                          | signed_out => js "signed_out" end));
        (js "sid", JStr (event_sid e)); (js "source", JStr (source e));
        (js "nonce", JStr (nonce e)); (js "timestamp", JNum (timestamp e))].

(** ** Refresh outcomes *)

Inductive refresh_error : Type :=
| AuthRefreshSupersededError
| ErrorValue (v : jsval).

Inductive RefreshOutcome : Type :=
| Authenticated (bundle : AuthBundle)
| Anonymous
| TransientError (error : refresh_error)
| OutOfSync (code : option jsstr).

Record AuthRefreshHTTPResponse : Type := {
  status : Z;
  data : jsval;
  error : jsval;
}.

(** ** The refresh runner

    [createRefreshRunner] over any runtime.  [request] and [wait] are the two
    points at which the function awaits; the other members act on the
    runtime's state [W]. *)
Record AuthRefreshRuntime (W : Type) : Type := {
  getExpectedSID : W → option jsstr;
  rt_parseBundle : jsval → option AuthBundle;
  acceptBundle : AuthBundle → W → W;
  rt_clear : bool → option AuthBootstrapState → W → W;
  markTransient : W → W;
  isCurrent : option (W → bool);
}.
Arguments getExpectedSID {W} _ _.
Arguments rt_parseBundle {W} _ _.
Arguments acceptBundle {W} _ _ _.
Arguments rt_clear {W} _ _ _ _.
Arguments markTransient {W} _ _.
Arguments isCurrent {W} _.

(** Where the function stops: at a request or at a delay, with the arguments
    of the [run] it continues with, or at its return. *)
Inductive suspension : Type :=
| Requesting (expectedSID : option jsstr) (raceAttempt : nat) (allowMismatchRetry : bool)
| Waiting (delay : Z) (raceAttempt : nat) (allowMismatchRetry : bool)
| Returned (outcome : RefreshOutcome).

Definition refreshRaceDelays : list Z := [80; 200; 500]%Z.

Section Runner.
Context {W : Type} (runtime : AuthRefreshRuntime W).

(** [!runtime.isCurrent || runtime.isCurrent()] *)
Definition is_current (w : W) : bool :=
  match isCurrent runtime with None => true | Some f => f w end.

(** [run] up to its request *)
Definition run (raceAttempt : nat) (allowMismatchRetry : bool) (w : W) : W * suspension :=
  if is_current w
  then (w, Requesting (getExpectedSID runtime w) raceAttempt allowMismatchRetry)
  else (w, Returned (TransientError AuthRefreshSupersededError)).

(** [responseData?.code] when it is a string *)
Definition response_code (response : AuthRefreshHTTPResponse) : option jsstr :=
  as_string (prop (data response) (js "code")).

(** [response.status === 409 && code === c] *)
Definition conflict (response : AuthRefreshHTTPResponse) (c : jsstr) : bool :=
  (status response =? 409)%Z &&
  match response_code response with Some x => jseq x c | None => false end.

(** The bundle of a successful answer:
    [responseData?.success === true && bundle] *)
Definition accepted_bundle (response : AuthRefreshHTTPResponse) : option AuthBundle :=
  match prop (data response) (js "success") with
  | JBool true => rt_parseBundle runtime (prop (data response) (js "data"))
  | _ => None
  end.

(** [response.error ?? response.data] *)
Definition response_error (response : AuthRefreshHTTPResponse) : jsval :=
  if is_nullish (error response) then data response else error response.

(** [!response.status || response.status >= 500 || response.status === 429] *)
Definition is_transient (response : AuthRefreshHTTPResponse) : bool :=
  ((status response =? 0) || (500 <=? status response) || (status response =? 429))%Z.

(** [run] from its request on *)
Definition resume_response (raceAttempt : nat) (allowMismatchRetry : bool)
    (response : AuthRefreshHTTPResponse) (w : W) : W * suspension :=
  if negb (is_current w) then (w, Returned (TransientError AuthRefreshSupersededError))
  else
    match accepted_bundle response with
    | Some bundle => (acceptBundle runtime bundle w, Returned (Authenticated bundle))
    | None =>
        if conflict response (js "AUTH_REFRESH_RACE") then
          match refreshRaceDelays !! raceAttempt with
          | Some delay => (w, Waiting delay (S raceAttempt) allowMismatchRetry)
          | None => (rt_clear runtime false None w, Returned (OutOfSync (response_code response)))
          end
        else if conflict response (js "AUTH_SESSION_MISMATCH") then
          if allowMismatchRetry then run 0 false (rt_clear runtime false (Some idle) w)
          else (rt_clear runtime false None w, Returned (OutOfSync (response_code response)))
        else if (status response =? 401)%Z then
          (rt_clear runtime true None w, Returned Anonymous)
        else if is_transient response then
          (markTransient runtime w, Returned (TransientError (ErrorValue (response_error response))))
        else
          (rt_clear runtime false None w,
           Returned (OutOfSync (Some (default (js "AUTH_INVALID_REFRESH_RESPONSE")
                                              (response_code response)))))
    end.

(** The whole function, fed with the answers its requests get; [None] when
    it is still waiting for one.  The middle component lists where it
    stopped: its requests and its delays, in order. *)
Fixpoint drive (s : suspension) (answers : list AuthRefreshHTTPResponse) (w : W) :
    option (W * list suspension * RefreshOutcome) :=
  let on_response raceAttempt allow (w : W) :=
    match answers with
    | [] => None
    | a :: answers =>
        let '(w, s) := resume_response raceAttempt allow a w in drive s answers w
    end in
  match s with
  | Returned o => Some (w, [], o)
  | Waiting _ raceAttempt allow =>
      match run raceAttempt allow w with
      | (w, Returned o) => Some (w, [s], o)
      | (w, s') => '(w, stops, o) ← on_response raceAttempt allow w; Some (w, s :: s' :: stops, o)
      end
  | Requesting _ raceAttempt allow =>
      '(w, stops, o) ← on_response raceAttempt allow w; Some (w, s :: stops, o)
  end.

(** [createRefreshRunner(runtime)()] *)
Definition createRefreshRunner (answers : list AuthRefreshHTTPResponse) (w : W) :
    option (W * list suspension * RefreshOutcome) :=
  let '(w, s) := run 0 true w in drive s answers w.

End Runner.

(** ** The request *)

(** What [authClient.post] does: resolve, or reject with an axios error
    (which may carry the server's response) or with another error. *)
Inductive post_result : Type :=
| Resolved (status : Z) (data : jsval)
| RejectedAxios (response : option (Z * jsval)) (error : jsval)
| RejectedOther (error : jsval).

Definition requestRefresh (r : post_result) : AuthRefreshHTTPResponse :=
  match r with
  | Resolved s d => {| status := s; data := d; error := JUndefined |}
  | RejectedOther e => {| status := 0; data := JUndefined; error := e |}
  | RejectedAxios response e =>
      {| status := default 0%Z (fst <$> response);
         data := default JUndefined (snd <$> response);
         error := e |}
  end.

(** [expectedSID ? { 'X-Auth-Session': expectedSID } : undefined] *)
Definition refresh_headers (expectedSID : option jsstr) : list (jsstr * jsstr) :=
  match expectedSID with
  | Some (c :: s) => [(js "X-Auth-Session", c :: s)]
  | _ => []
  end.

(** ** A tab *)

(** A running refresh: waiting for the browser lock, stopped at an [await]
    or returned, or rejected because the lock request was. *)
Inductive refresh_pc : Type :=
| AwaitLock
| Suspended (s : suspension)
| LockRejected (e : jsval).

Record Refresh : Type := { refreshEpoch : nat; pc : refresh_pc }.

(** Effects outside the store. *)
Inductive effect : Type :=
| ClearQueries
| ReloadPage
| NavigateToSignIn
| ShowSessionExpired
| RedirectToSignIn.

Record world : Type := {
  store : AuthState;
  authEpoch : nat;
  refreshPromise : option nat;
  refreshes : gmap nat Refresh;
  next_refresh : nat;
  requests : list (nat * list (jsstr * jsstr));
  settled : list (nat * (RefreshOutcome + jsval));
  posted : list AuthSessionSyncEvent;
  effects : list effect;
  now : Z;
}.

Definition initial_world (t : Z) : world :=
  {| store := initialAuthState; authEpoch := 0; refreshPromise := None; refreshes := ∅;
     next_refresh := 0; requests := []; settled := []; posted := []; effects := []; now := t |}.

(** Assignments to one part of the world. *)
Definition with_store (s : AuthState) (w : world) : world :=
  {| store := s; authEpoch := authEpoch w; refreshPromise := refreshPromise w;
     refreshes := refreshes w; next_refresh := next_refresh w; requests := requests w; settled := settled w;
     posted := posted w; effects := effects w; now := now w |}.
Definition with_epoch (n : nat) (w : world) : world :=
  {| store := store w; authEpoch := n; refreshPromise := refreshPromise w;
     refreshes := refreshes w; next_refresh := next_refresh w; requests := requests w; settled := settled w;
     posted := posted w; effects := effects w; now := now w |}.
Definition with_refreshes (p : option nat) (m : gmap nat Refresh) (n : nat) (w : world) : world :=
  {| store := store w; authEpoch := authEpoch w; refreshPromise := p;
     refreshes := m; next_refresh := n; requests := requests w; settled := settled w;
     posted := posted w; effects := effects w; now := now w |}.
Definition with_requests (l : list (nat * list (jsstr * jsstr))) (w : world) : world :=
  {| store := store w; authEpoch := authEpoch w; refreshPromise := refreshPromise w;
     refreshes := refreshes w; next_refresh := next_refresh w; requests := l; settled := settled w;
     posted := posted w; effects := effects w; now := now w |}.
Definition with_posted (l : list AuthSessionSyncEvent) (w : world) : world :=
  {| store := store w; authEpoch := authEpoch w; refreshPromise := refreshPromise w;
     refreshes := refreshes w; next_refresh := next_refresh w; requests := requests w; settled := settled w;
     posted := l; effects := effects w; now := now w |}.
Definition with_effects (l : list effect) (w : world) : world :=
  {| store := store w; authEpoch := authEpoch w; refreshPromise := refreshPromise w;
     refreshes := refreshes w; next_refresh := next_refresh w; requests := requests w; settled := settled w;
     posted := posted w; effects := l; now := now w |}.
Definition with_settled (l : list (nat * (RefreshOutcome + jsval))) (w : world) : world :=
  {| store := store w; authEpoch := authEpoch w; refreshPromise := refreshPromise w;
     refreshes := refreshes w; next_refresh := next_refresh w; requests := requests w; settled := l;
     posted := posted w; effects := effects w; now := now w |}.
Definition with_now (t : Z) (w : world) : world :=
  {| store := store w; authEpoch := authEpoch w; refreshPromise := refreshPromise w;
     refreshes := refreshes w; next_refresh := next_refresh w; requests := requests w; settled := settled w;
     posted := posted w; effects := effects w; now := t |}.

Definition emit (e : effect) (w : world) : world := with_effects (effects w ++ [e]) w.

(** [set] of the store: the new state, then the root component's
    subscription, which drops every cached query when the session changes. *)
Definition set_state (f : AuthState → AuthState) (w : world) : world :=
  let state := f (store w) in
  let w' := with_store state w in
  if decide (session_sid state = session_sid (store w)) then w' else emit ClearQueries w'.

Section Tab.
Context `{Platform}.

Definition authSyncSource : jsstr := randomIdentifier 0.

(** Both transports (a broadcast channel, or a storage item that is set and
    removed) deliver the event to the other tabs; a storage failure is
    ignored. *)
Definition publishAuthSessionEvent (k : sync_kind) (s : jsstr) (w : world) : world :=
  if negb has_window then w
  else match s with
  | [] => w
  | _ =>
      with_posted (posted w ++
        [{| kind := k; event_sid := s; source := authSyncSource;
            nonce := randomIdentifier (S (length (posted w)));
            timestamp := nZ (now w) |}]) w
  end.

Definition applyAuthBundle (bundle : AuthBundle) (synchronizeTabs : bool) (w : world) : world :=
  let previousSID := session_sid (store w) in
  let w := with_epoch (S (authEpoch w)) w in
  let w := set_state (setBundle bundle) w in
  if synchronizeTabs && negb (bool_decide (previousSID = Some (sid (bundle_session bundle))))
  then publishAuthSessionEvent authenticated (sid (bundle_session bundle)) w
  else w.

Definition applyAuthRotation (v : jsval) (w : world) : result jsstr world :=
  match isAuthTokenRotation v, read_AuthTokenRotation v with
  | true, Some r =>
      match user (store w), session (store w) with
      | Some u, Some s =>
          if negb (jseq (sid (rotation_session r)) (sid s))
          then Err (js "Authentication rotation session mismatch")
          else Ok (applyAuthBundle
                     {| access_token := rotation_access_token r;
                        token_type := rotation_token_type r;
                        access_expires_at := rotation_access_expires_at r;
                        bundle_session := rotation_session r;
                        bundle_user := u |} false w)
      | _, _ => Err (js "Authentication rotation has no active session")
      end
  | _, _ => Err (js "Invalid authentication rotation response")
  end.

Definition clearAuthentication (synchronizeTabs : bool) (b : AuthBootstrapState)
    (w : world) : world :=
  let s := session_sid (store w) in
  let w := with_epoch (S (authEpoch w)) w in
  let w := set_state (reset b) w in
  match synchronizeTabs, s with
  | true, Some s => publishAuthSessionEvent signed_out s w
  | _, _ => w
  end.

Definition clearAuthenticatedClientState (synchronizeTabs : bool) (w : world) : world :=
  clearAuthentication synchronizeTabs complete (emit ClearQueries w).

(** ** Refreshing *)

(** The runtime [runRefresh] passes to the runner. *)
Definition refresh_runtime (epoch : nat) : AuthRefreshRuntime world :=
  {| getExpectedSID := λ w, session_sid (store w);
     rt_parseBundle := parseBundle;
     acceptBundle := λ bundle, applyAuthBundle bundle false;
     rt_clear := λ synchronizeTabs b w,
       if negb synchronizeTabs && bool_decide (b = Some idle)
       then set_state (reset idle) w
       else clearAuthentication synchronizeTabs (default complete b) w;
     markTransient := set_state (setBootstrapState idle);
     isCurrent := Some (λ w, authEpoch w =? epoch) |}.

(** Record where refresh [i] stopped; a request that was sent is logged. *)
Definition suspend (i : nat) (epoch : nat) (r : world * suspension) : world :=
  let '(w, s) := r in
  let w := match s with
           | Requesting e _ _ => with_requests (requests w ++ [(i, refresh_headers e)]) w
           | _ => w
           end in
  with_refreshes (refreshPromise w)
    (<[i := {| refreshEpoch := epoch; pc := Suspended s |}]> (refreshes w)) (next_refresh w) w.

(** [runRefresh(epoch)] *)
Definition runRefresh (i epoch : nat) (w : world) : world :=
  suspend i epoch (run (refresh_runtime epoch) 0 true w).

Definition performRefreshWithBrowserLock (i epoch : nat) (w : world) : world :=
  if has_locks
  then with_refreshes (refreshPromise w)
         (<[i := {| refreshEpoch := epoch; pc := AwaitLock |}]> (refreshes w)) (next_refresh w) w
  else runRefresh i epoch w.

(** The world after the call and the refresh whose promise is returned. *)
Definition refreshAuthentication (w : world) : world * nat :=
  match refreshPromise w with
  | Some i => (w, i)
  | None =>
      let i := next_refresh w in
      let w := performRefreshWithBrowserLock i (authEpoch w) w in
      (with_refreshes (Some i) (refreshes w) (S i) w, i)
  end.

(** The answers of the environment to a running refresh. *)
Inductive completion : Type :=
| LockGranted (i : nat)
| LockFailed (i : nat) (e : jsval)
| Response (i : nat) (r : post_result)
| DelayElapsed (i : nat)
| Finally (i : nat).

(** The [finally] callback clears the shared promise; the callers that await
    it continue afterwards, with the value or the rejection [r]. *)
Definition release (i : nat) (r : RefreshOutcome + jsval) (w : world) : world :=
  with_settled (settled w ++ [(i, r)])
    (with_refreshes None (delete i (refreshes w)) (next_refresh w) w).

(** One continuation of a refresh; [None] when it is not waiting for that. *)
Definition resume (c : completion) (w : world) : option world :=
  match c with
  | LockGranted i =>
      match refreshes w !! i with
      | Some {| refreshEpoch := e; pc := AwaitLock |} => Some (runRefresh i e w)
      | _ => None
      end
  | LockFailed i err =>
      match refreshes w !! i with
      | Some {| refreshEpoch := e; pc := AwaitLock |} =>
          Some (with_refreshes (refreshPromise w)
                  (<[i := {| refreshEpoch := e; pc := LockRejected err |}]> (refreshes w))
                  (next_refresh w) w)
      | _ => None
      end
  | Response i r =>
      match refreshes w !! i with
      | Some {| refreshEpoch := e; pc := Suspended (Requesting _ raceAttempt allow) |} =>
          Some (suspend i e
                  (resume_response (refresh_runtime e) raceAttempt allow (requestRefresh r) w))
      | _ => None
      end
  | DelayElapsed i =>
      match refreshes w !! i with
      | Some {| refreshEpoch := e; pc := Suspended (Waiting _ raceAttempt allow) |} =>
          Some (suspend i e (run (refresh_runtime e) raceAttempt allow w))
      | _ => None
      end
  | Finally i =>
      match refreshes w !! i with
      | Some {| pc := Suspended (Returned o) |} => Some (release i (inl o) w)
      | Some {| pc := LockRejected err |} => Some (release i (inr err) w)
      | _ => None
      end
  end.

(** ** Resolving authentication *)

(** [Math.floor(Date.now() / 1000)] *)
Definition now_seconds (t : Z) : num := nfloor (ndiv (nZ t) (nZ 1000)).

(** [!x] for a number that may be null *)
Definition falsy_number (x : option num) : bool :=
  match x with None | Some (S754_zero _) | Some S754_nan => true | _ => false end.

(** A token and its expiry, both truthy, the expiry after [t]. *)
Definition token_until (state : AuthState) (t : num) : bool :=
  match accessToken state, accessExpiresAt state with
  | Some (_ :: _), Some e => negb (falsy_number (Some e)) && ngtb e t
  | _, _ => false
  end.

Definition currentValidAuthBundle (w : world) : option AuthBundle :=
  let auth := store w in
  match user auth, accessToken auth, accessExpiresAt auth, session auth with
  | Some u, Some (c :: t), Some e, Some s =>
      if falsy_number (Some e) || nleb e (now_seconds (now w)) then None
      else Some {| access_token := c :: t; token_type := js "Bearer";
                   access_expires_at := e; bundle_user := u; bundle_session := s |}
  | _, _, _, _ => None
  end.

(** An answer that is known at once, or the promise of a refresh. *)
Definition answer : Type := RefreshOutcome + nat.

Definition resolveAuthentication (w : world) : world * answer :=
  match currentValidAuthBundle w with
  | Some bundle => (set_state (setBootstrapState complete) w, inl (Authenticated bundle))
  | None =>
      let auth := store w in
      let hasStaleSession := is_some (user auth) && is_some (session auth) in
      if bool_decide (bootstrapState auth = complete) && negb hasStaleSession
      then (w, inl Anonymous)
      else let '(w, i) := refreshAuthentication (set_state (setBootstrapState checking) w) in
           (w, inr i)
  end.

Definition bootstrapAuthentication (cookie : option jsstr) (w : world) : world * answer :=
  if negb (is_some (currentValidAuthBundle w)) && negb (hasSessionHint cookie)
     && (negb (is_some (user (store w))) && negb (is_some (session (store w))))
  then (w, inl Anonymous)
  else resolveAuthentication w.

(** ** Request headers *)

Definition getCommonHeaders (w : world) : list (jsstr * jsstr) :=
  (js "Content-Type", js "application/json") ::
  match accessToken (store w) with
  | Some (c :: t) => [(js "Authorization", js "Bearer " ++ c :: t)]
  | _ => []
  end.

(** [getFreshAuthHeaders] up to its [await]: the headers, or the refresh
    that is awaited. *)
Definition getFreshAuthHeaders (w : world) : world * (list (jsstr * jsstr) + nat) :=
  if token_until (store w) (nadd (now_seconds (now w)) (nZ 60))
  then (w, inl (getCommonHeaders w))
  else let '(w, i) := refreshAuthentication w in (w, inr i).

Inductive headers_error : Type :=
| RequestFailed (cause : refresh_error)
| SessionExpired.

(** ... and from there on, with the outcome of that refresh. *)
Definition freshHeadersAfter (outcome : RefreshOutcome) (w : world) :
    result headers_error (list (jsstr * jsstr)) :=
  match outcome with
  | Authenticated _ => Ok (getCommonHeaders w)
  | _ =>
      if token_until (store w) (now_seconds (now w)) then Ok (getCommonHeaders w)
      else match outcome with
           | TransientError e => Err (RequestFailed e)
           | _ => Err SessionExpired
           end
  end.

(** ** Events of other tabs *)

(** The listener of [RootComponent]. *)
Definition onAuthSessionEvent (event : AuthSessionSyncEvent) (w : world) : world :=
  let currentSID := session_sid (store w) in
  match kind event with
  | authenticated =>
      if bool_decide (currentSID = Some (event_sid event)) then w
      else
        let w := match currentSID with
                 | Some (_ :: _) => clearAuthentication false complete w
                 | _ => w
                 end in
        emit ReloadPage w
  | signed_out =>
      match currentSID with
      | Some (c :: s) =>
          if jseq (event_sid event) (c :: s)
          then emit NavigateToSignIn (clearAuthenticatedClientState false w)
          else w
      | _ => w
      end
  end.

(** [deliver] of [subscribeAuthSessionEvents], with that listener. *)
Definition deliver (v : jsval) (w : world) : world :=
  match isAuthSessionSyncEvent v, read_sync_event v with
  | true, Some event =>
      if negb (jseq (source event) authSyncSource) &&
         nltb (nabs (nsub (nZ (now w)) (timestamp event))) (nZ 60000)
      then onAuthSessionEvent event w
      else w
  | _, _ => w
  end.

(** [handleStorage]: the key and the new value of a storage event. *)
Definition handleStorage (key newValue : option jsstr) (w : world) : world :=
  match newValue with
  | Some (c :: text) =>
      if negb (bool_decide (key = Some AUTH_SYNC_STORAGE_KEY)) then w
      else match json_parse (c :: text) with Some v => deliver v w | None => w end
  | _ => w
  end.

(** ** Executions *)

(** The callers: pages, guards, dialogs, other tabs and the clock. *)
Inductive action : Type :=
| Login (result : jsval)
| Rotate (v : jsval)
| Clear (synchronizeTabs : bool)
| SignOut (synchronizeTabs : bool)
| SetUser (u : option AuthUser)
| SetPending (p : option PendingLoginVerification)
| RefreshCall
| ResolveCall
| BootstrapCall (cookie : option jsstr)
| HeadersCall
| Deliver (v : jsval)
| StorageEvent (key newValue : option jsstr)
| Tick (ms : N).

Definition act (a : action) (w : world) : world :=
  match a with
  | Login v => match parseBundle v with Some b => applyAuthBundle b true w | None => w end
  | Rotate v => match applyAuthRotation v w with Ok w' => w' | Err _ => w end
  | Clear sync => clearAuthentication sync complete w
  | SignOut sync => clearAuthenticatedClientState sync w
  | SetUser u => set_state (setUser u) w
  | SetPending p => set_state (setPendingLoginVerification p) w
  | RefreshCall => fst (refreshAuthentication w)
  | ResolveCall => fst (resolveAuthentication w)
  | BootstrapCall cookie => fst (bootstrapAuthentication cookie w)
  | HeadersCall => fst (getFreshAuthHeaders w)
  | Deliver v => deliver v w
  | StorageEvent key value => handleStorage key value w
  | Tick ms => with_now (now w + Z.of_N ms)%Z w
  end.

Inductive event : Type :=
| Act (a : action)
| Done (c : completion).

Definition step (e : event) (w : world) : option world :=
  match e with Act a => Some (act a w) | Done c => resume c w end.

Fixpoint exec (es : list event) (w : world) : option world :=
  match es with
  | [] => Some w
  | e :: es => w' ← step e w; exec es w'
  end.

(** Continuations of refreshes only. *)
Fixpoint settle (cs : list completion) (w : world) : option world :=
  match cs with
  | [] => Some w
  | c :: cs => w' ← resume c w; settle cs w'
  end.

(** The worlds a page can be in. *)
Definition reachable (w : world) : Prop := ∃ t es, exec es (initial_world t) = Some w.

End Tab.

#[global] Arguments applyAuthBundle : simpl never.
#[global] Arguments clearAuthentication : simpl never.
#[global] Arguments publishAuthSessionEvent : simpl never.
#[global] Arguments set_state : simpl never.
#[global] Arguments suspend : simpl never.
#[global] Arguments run : simpl never.
