(* ===== verification/AuthSessionFacts.v ===== *)
(** * Facts about the login session

    The type guards are exact, every operation keeps the store's credentials
    and the refresh bookkeeping consistent, and what each continuation of a
    refresh does to the store. *)
From stdpp Require Import base list option numbers sets gmap.
From Stdlib Require Import ZArith SpecFloat Lia.
From S2P Require Import Prelude.
From S2P Require Import JsString.
From S2P Require Import JsNumber.
From S2P Require Import Runtime.
From S2P Require Import Json.
From S2P Require Import JsText.
From S2P Require Import AuthStore.
From S2P Require Import AuthSession.

(** ** Type guards *)

Lemma is_some_bind {A B} (o : option A) (f : A → option B) b :
  (o ≫= f) = Some b ↔ ∃ a, o = Some a ∧ f a = Some b.
Proof. destruct o; naive_solver. Qed.

Lemma as_string_Some v s : as_string v = Some s ↔ v = JStr s.
Proof. destruct v; naive_solver. Qed.
Lemma as_number_Some v x : as_number v = Some x ↔ v = JNum x.
Proof. destruct v; naive_solver. Qed.
Lemma as_boolean_Some v b : as_boolean v = Some b ↔ v = JBool b.
Proof. destruct v; naive_solver. Qed.

(** Decompose a typed read: every field is present with its type. *)
Ltac inv_read H :=
  repeat match type of H with
  | (_ ≫= _) = Some _ =>
      let x := fresh "x" in let E := fresh "E" in
      apply is_some_bind in H as (x & E & H);
      try first [ apply as_string_Some in E | apply as_number_Some in E
                | apply as_boolean_Some in E ]
  | Some _ = Some _ => injection H as H; subst
  end.

(** A field that is present makes its holder an object. *)
Lemma prop_object v k : prop v k ≠ JUndefined → isRecord v = true.
Proof. by destruct v. Qed.

Lemma isRecord_string v k s : prop v k = JStr s → isRecord v = true.
Proof. intros E. apply (prop_object _ k). by rewrite E. Qed.
Lemma isRecord_number v k x : prop v k = JNum x → isRecord v = true.
Proof. intros E. apply (prop_object _ k). by rewrite E. Qed.

Lemma isAuthUser_read v :
  isAuthUser v = true ↔ ∃ u, read_AuthUser v = Some u ∧ valid_user u = true.
Proof.
  unfold isAuthUser, read_AuthUser. split.
  - intros H. bools.
    destruct (prop v (js "id")); try done.
    destruct (prop v (js "username")); try done.
    destruct (prop v (js "role")); try done. cbn in *. eauto.
  - intros (u & E & V). inv_read E. rewrite E0, E1, E2.
    rewrite (isRecord_number _ _ _ E0). unfold valid_user in V. cbn in *. by rewrite V.
Qed.

Lemma isLoginSession_read v :
  isLoginSession v = true ↔ ∃ s, read_LoginSession v = Some s ∧ valid_session s = true.
Proof.
  unfold isLoginSession, read_LoginSession. split.
  - intros H. bools.
    repeat match goal with
    | H : ?f (prop v ?k) = true |- _ => destruct (prop v k); try done
    end.
    cbn in *. eexists. split; [done|]. by destruct s.
  - intros (s & E & V). inv_read E.
    rewrite (isRecord_string _ _ _ E0), E0, E1, E2, E3, E4, E5, E6, E7.
    by destruct x.
Qed.

Lemma isAuthBundle_read v :
  isAuthBundle v = true ↔ ∃ b, read_AuthBundle v = Some b ∧ valid_bundle b = true.
Proof.
  unfold isAuthBundle, read_AuthBundle, hasValidTokenFields. split.
  - intros H. bools.
    match goal with H : isAuthUser _ = true |- _ =>
      apply isAuthUser_read in H as (u & Hu & Vu) end.
    match goal with H : isLoginSession _ = true |- _ =>
      apply isLoginSession_read in H as (s & Hs & Vs) end.
    destruct (prop v (js "access_token")) as [| | | |t| |]; try done.
    destruct (prop v (js "token_type")) as [| | | |k| |]; try done.
    destruct (prop v (js "access_expires_at")); try done.
    cbn in *. rewrite Hu, Hs. cbn. bools.
    eexists. split; [done|]. unfold valid_bundle. cbn.
    rewrite Vu, Vs. destruct t, k; try done. cbn. rewrite !andb_true_r. apply andb_true_iff. auto.
  - intros (b & E & V). inv_read E. unfold valid_bundle in V. cbn in V. bools.
    rewrite (isRecord_string _ _ _ E0), E0, E1, E2.
    rewrite (proj2 (isAuthUser_read _)) by eauto.
    rewrite (proj2 (isLoginSession_read _)) by eauto.
    destruct x, x0; try done. cbn. rewrite !andb_true_r. apply andb_true_iff. auto.
Qed.

Lemma parseBundle_Some v b :
  parseBundle v = Some b ↔ read_AuthBundle v = Some b ∧ valid_bundle b = true.
Proof.
  unfold parseBundle. destruct (isAuthBundle v) eqn:E.
  - apply isAuthBundle_read in E as (b' & E & V). rewrite E. naive_solver.
  - split; [done|]. intros [R V].
    enough (isAuthBundle v = true) by congruence. apply isAuthBundle_read. eauto.
Qed.

Lemma parseBundle_valid v b : parseBundle v = Some b → valid_bundle b = true.
Proof. by intros [_ ?]%parseBundle_Some. Qed.

(** What a rotation that passes its guard carries. *)
Lemma isAuthTokenRotation_read v :
  isAuthTokenRotation v = true →
  ∃ r, read_AuthTokenRotation v = Some r ∧
       rotation_token_type r = js "Bearer" ∧
       rotation_access_token r ≠ [] ∧
       is_finite (rotation_access_expires_at r) = true ∧
       ngtb (rotation_access_expires_at r) NZERO = true ∧
       valid_session (rotation_session r) = true ∧
       current (rotation_session r) = true.
Proof.
  unfold isAuthTokenRotation, hasValidTokenFields, read_AuthTokenRotation. intros H. bools.
  match goal with H : isLoginSession _ = true |- _ =>
    apply isLoginSession_read in H as (s & Hs & Vs) end.
  destruct (prop v (js "access_token")) as [| | | |t| |]; try done.
  destruct (prop v (js "token_type")) as [| | | |k| |]; try done.
  destruct (prop v (js "access_expires_at")); try done.
  rewrite Hs. cbn in *. bools. eexists. split; [done|]. cbn.
  conjs; try done.
  - by apply jseq_eq.
  - by destruct t.
  - unfold read_LoginSession in Hs. inv_read Hs. cbn.
    match goal with E : prop _ (js "current") = _ |- _ => by rewrite E in * end.
Qed.

(** ** Frames *)

(** Between [w] and [w'] only the store, the epoch (upwards), the posted
    events and the effects may differ: no refresh was touched. *)
Record same_refreshes (w w' : world) : Prop := {
  same_promise : refreshPromise w' = refreshPromise w;
  same_map : refreshes w' = refreshes w;
  same_next : next_refresh w' = next_refresh w;
  same_requests : requests w' = requests w;
  epoch_grows : authEpoch w ≤ authEpoch w';
}.

#[global] Instance same_refreshes_preorder : PreOrder same_refreshes.
Proof.
  split; [by constructor|]. intros w1 w2 w3 [] []. constructor; [congruence..|lia].
Qed.

Lemma set_state_same f w : same_refreshes w (set_state f w).
Proof. unfold set_state. case_decide; by constructor. Qed.
Lemma store_set_state f w : store (set_state f w) = f (store w).
Proof. unfold set_state. by case_decide. Qed.
Lemma epoch_set_state f w : authEpoch (set_state f w) = authEpoch w.
Proof. unfold set_state. by case_decide. Qed.
Lemma posted_set_state f w : posted (set_state f w) = posted w.
Proof. unfold set_state. by case_decide. Qed.
Lemma now_set_state f w : now (set_state f w) = now w.
Proof. unfold set_state. by case_decide. Qed.

Create HintDb session.
Create Rewrite HintDb session_store.
#[export] Hint Rewrite store_set_state epoch_set_state posted_set_state now_set_state : session_store.
#[export] Hint Resolve set_state_same : session.

Section Tab.
Context `{Platform}.

Lemma publish_same k s w : same_refreshes w (publishAuthSessionEvent k s w).
Proof. unfold publishAuthSessionEvent. destruct has_window, s; by constructor. Qed.
Lemma store_publish k s w : store (publishAuthSessionEvent k s w) = store w.
Proof. unfold publishAuthSessionEvent. by destruct has_window, s. Qed.
Lemma epoch_publish k s w : authEpoch (publishAuthSessionEvent k s w) = authEpoch w.
Proof. unfold publishAuthSessionEvent. by destruct has_window, s. Qed.
Lemma now_publish k s w : now (publishAuthSessionEvent k s w) = now w.
Proof. unfold publishAuthSessionEvent. by destruct has_window, s. Qed.

Lemma with_epoch_same w n : authEpoch w ≤ n → same_refreshes w (with_epoch n w).
Proof. by constructor. Qed.

Lemma applyAuthBundle_same b sync w : same_refreshes w (applyAuthBundle b sync w).
Proof.
  unfold applyAuthBundle. etransitivity; [apply (with_epoch_same w (S (authEpoch w))); lia|].
  etransitivity; [apply set_state_same|]. case_match; [apply publish_same|reflexivity].
Qed.
Lemma store_applyAuthBundle b sync w :
  store (applyAuthBundle b sync w) = setBundle b (store w).
Proof. unfold applyAuthBundle. case_match; rewrite ?store_publish; by rewrite store_set_state. Qed.
Lemma epoch_applyAuthBundle b sync w :
  authEpoch (applyAuthBundle b sync w) = S (authEpoch w).
Proof. unfold applyAuthBundle. case_match; rewrite ?epoch_publish; by rewrite epoch_set_state. Qed.

Lemma clearAuthentication_same sync b w : same_refreshes w (clearAuthentication sync b w).
Proof.
  unfold clearAuthentication. etransitivity; [apply (with_epoch_same w (S (authEpoch w))); lia|].
  etransitivity; [apply set_state_same|].
  destruct sync; [case_match; [apply publish_same|reflexivity]|reflexivity].
Qed.
Lemma store_clearAuthentication sync b w :
  store (clearAuthentication sync b w) = reset b (store w).
Proof.
  unfold clearAuthentication. destruct sync; [case_match|];
    rewrite ?store_publish; by rewrite store_set_state.
Qed.
Lemma epoch_clearAuthentication sync b w :
  authEpoch (clearAuthentication sync b w) = S (authEpoch w).
Proof.
  unfold clearAuthentication. destruct sync; [case_match|];
    rewrite ?epoch_publish; by rewrite epoch_set_state.
Qed.
Lemma emit_same e w : same_refreshes w (emit e w).
Proof. by constructor. Qed.

#[local] Hint Resolve publish_same applyAuthBundle_same clearAuthentication_same emit_same : session.
#[local] Hint Rewrite store_publish epoch_publish now_publish store_applyAuthBundle
  epoch_applyAuthBundle store_clearAuthentication epoch_clearAuthentication : session_store.

(** ** Credentials *)

Lemma credentials_setBundle b s : valid_bundle b = true → credentials_ok (setBundle b s) = true.
Proof.
  unfold valid_bundle, credentials_ok. intros V. bools. cbn.
  destruct (access_token b); [done|].
  repeat match goal with H : _ = true |- _ => rewrite H end. done.
Qed.

Lemma credentials_rotation b s :
  access_token b ≠ [] → is_finite (access_expires_at b) = true →
  ngtb (access_expires_at b) NZERO = true → valid_session (bundle_session b) = true →
  credentials_ok (setBundle b s) = true.
Proof.
  intros Ht Hf Hp Hs. unfold credentials_ok. cbn. destruct (access_token b); [done|].
  by rewrite Hf, Hp, Hs.
Qed.

Lemma rotation_valid v w w' :
  applyAuthRotation v w = Ok w' →
  ∃ b u s, user (store w) = Some u ∧ session (store w) = Some s ∧
    bundle_user b = u ∧ sid (bundle_session b) = sid s ∧ token_type b = js "Bearer" ∧
    current (bundle_session b) = true ∧ w' = applyAuthBundle b false w ∧
    access_token b ≠ [] ∧ is_finite (access_expires_at b) = true ∧
    ngtb (access_expires_at b) NZERO = true ∧ valid_session (bundle_session b) = true.
Proof.
  unfold applyAuthRotation. intros H0.
  destruct (isAuthTokenRotation v) eqn:G; [|done].
  apply isAuthTokenRotation_read in G as (r & E & ? & ? & ? & ? & ? & ?). rewrite E in H0.
  destruct (user (store w)) as [u|], (session (store w)) as [s|]; try done.
  destruct (jseq _ _) eqn:J; [|done]. cbn in H0. injection H0 as <-. apply jseq_eq in J.
  eexists _, u, s. conjs; try reflexivity; by cbn.
Qed.

(** ** The invariant *)

(** The waits of a runner stay within the table of delays. *)
Definition pc_ok (p : refresh_pc) : Prop :=
  match p with Suspended (Waiting _ n _) | Suspended (Requesting _ n _) => n ≤ 3 | _ => True end.

Lemma race_delay n d : refreshRaceDelays !! n = Some d → n < 3.
Proof. intros L. by apply lookup_lt_Some in L. Qed.

Lemma pc_ok_run e n a w : n ≤ 3 → pc_ok (Suspended (snd (run (refresh_runtime e) n a w))).
Proof. intros N. unfold run. by destruct is_current. Qed.

Lemma pc_ok_response e n a r w :
  n ≤ 3 → pc_ok (Suspended (snd (resume_response (refresh_runtime e) n a r w))).
Proof.
  intros N. unfold resume_response. repeat case_match; try done.
  - match goal with D : refreshRaceDelays !! _ = Some _ |- _ => apply race_delay in D end. cbn. lia.
  - apply pc_ok_run. lia.
Qed.

Record world_ok (w : world) : Prop := {
  (** a session comes with a token and an expiry *)
  ok_credentials : credentials_ok (store w) = true;
  (** the running refresh is the one whose promise is shared *)
  ok_flight : ∀ i, is_Some (refreshes w !! i) ↔ refreshPromise w = Some i;
  (** its race counter is within the table of delays *)
  ok_pcs : ∀ i r, refreshes w !! i = Some r → pc_ok (pc r);
  (** no refresh is ahead of the epoch *)
  ok_epochs : ∀ i r, refreshes w !! i = Some r → refreshEpoch r ≤ authEpoch w;
}.

Lemma world_ok_init t : world_ok (initial_world t).
Proof. constructor; cbn; [done|intros i|intros i r|intros i r]; by rewrite lookup_empty. Qed.

(** An operation that leaves the refreshes alone keeps the invariant when it
    keeps the credentials. *)
Lemma world_ok_frame w w' :
  same_refreshes w w' → credentials_ok (store w') = true → world_ok w → world_ok w'.
Proof.
  intros [] C []. constructor; [done| | |].
  - intros i. by rewrite same_map0, same_promise0.
  - by rewrite same_map0.
  - intros i r E. rewrite same_map0 in E. specialize (ok_epochs0 _ _ E). lia.
Qed.

Lemma world_ok_applyAuthBundle b sync w :
  credentials_ok (setBundle b (store w)) = true → world_ok w →
  world_ok (applyAuthBundle b sync w).
Proof.
  intros V. apply world_ok_frame; [apply applyAuthBundle_same|].
  by rewrite store_applyAuthBundle.
Qed.

Lemma world_ok_clear sync b w : world_ok w → world_ok (clearAuthentication sync b w).
Proof.
  apply world_ok_frame; [apply clearAuthentication_same|]. by rewrite store_clearAuthentication.
Qed.

(** Setters that do not touch the credentials, and the local reset. *)
Lemma world_ok_set_state f w :
  credentials_ok (f (store w)) = true → world_ok w → world_ok (set_state f w).
Proof. intros C. apply world_ok_frame; [apply set_state_same|by rewrite store_set_state]. Qed.

Lemma world_ok_emit e w : world_ok w → world_ok (emit e w).
Proof. intros []. by constructor. Qed.

#[local] Hint Resolve world_ok_clear world_ok_emit credentials_setBundle ok_credentials : session.

Lemma world_ok_onAuthSessionEvent e w : world_ok w → world_ok (onAuthSessionEvent e w).
Proof.
  intros OK. unfold onAuthSessionEvent, clearAuthenticatedClientState.
  repeat case_match; auto 6 with session.
Qed.

Lemma world_ok_deliver v w : world_ok w → world_ok (deliver v w).
Proof.
  intros OK. unfold deliver. repeat case_match; auto using world_ok_onAuthSessionEvent.
Qed.

(** The runner: every way it acts on the world keeps the invariant. *)
Lemma run_world e n a w : fst (run (refresh_runtime e) n a w) = w.
Proof. unfold run. by destruct is_current. Qed.

Lemma world_ok_rt_clear e sync b w : world_ok w → world_ok (rt_clear (refresh_runtime e) sync b w).
Proof.
  intros OK. cbn. case_match; [by apply world_ok_set_state|auto with session].
Qed.

Lemma world_ok_resume_response e n a r w :
  world_ok w → world_ok (fst (resume_response (refresh_runtime e) n a r w)).
Proof.
  intros OK. unfold resume_response.
  repeat case_match; rewrite ?run_world; cbn [fst];
    try (by apply world_ok_rt_clear); try done.
  - apply world_ok_applyAuthBundle; [|done]. apply credentials_setBundle.
    unfold accepted_bundle in *. repeat case_match; try done.
    eapply parseBundle_valid; eauto.
  - apply world_ok_set_state; [|done]. by destruct OK.
Qed.

Lemma resume_response_same e n a r w :
  same_refreshes w (fst (resume_response (refresh_runtime e) n a r w)).
Proof.
  unfold resume_response.
  repeat case_match; rewrite ?run_world; cbn; try reflexivity; repeat case_match; auto with session.
Qed.

(** Recording where a refresh stopped. *)
Lemma refreshes_suspend i e w s :
  refreshes (suspend i e (w, s)) = <[i := {| refreshEpoch := e; pc := Suspended s |}]> (refreshes w).
Proof. by destruct s. Qed.
Lemma promise_suspend i e w s : refreshPromise (suspend i e (w, s)) = refreshPromise w.
Proof. by destruct s. Qed.
Lemma store_suspend i e w s : store (suspend i e (w, s)) = store w.
Proof. by destruct s. Qed.
Lemma epoch_suspend i e w s : authEpoch (suspend i e (w, s)) = authEpoch w.
Proof. by destruct s. Qed.
Lemma posted_suspend i e w s : posted (suspend i e (w, s)) = posted w.
Proof. by destruct s. Qed.
Lemma next_suspend i e w s : next_refresh (suspend i e (w, s)) = next_refresh w.
Proof. by destruct s. Qed.

#[local] Hint Rewrite refreshes_suspend promise_suspend store_suspend epoch_suspend
  posted_suspend next_suspend : session_store.

(** Replacing the state of the shared refresh keeps the invariant. *)
Lemma world_ok_update i r w w' :
  world_ok w → refreshPromise w' = Some i → refreshEpoch r ≤ authEpoch w' →
  refreshes w' = <[i := r]> (refreshes w) → credentials_ok (store w') = true → pc_ok (pc r) →
  refreshPromise w = Some i ∨ refreshPromise w = None →
  authEpoch w ≤ authEpoch w' → world_ok w'.
Proof.
  intros [C F Q E] HP HE HM HC HQ HI HG. constructor; [done| | |].
  - intros k. rewrite HM, HP. destruct (decide (i = k)) as [->|N].
    + rewrite lookup_insert_eq. naive_solver.
    + rewrite lookup_insert_ne, F by done. destruct HI as [-> | ->]; naive_solver.
  - intros k r'. rewrite HM. destruct (decide (i = k)) as [->|N].
    + rewrite lookup_insert_eq. naive_solver.
    + rewrite lookup_insert_ne by done. apply Q.
  - intros k r'. rewrite HM. destruct (decide (i = k)) as [->|N].
    + rewrite lookup_insert_eq. naive_solver.
    + rewrite lookup_insert_ne by done. intros L. specialize (E _ _ L). lia.
Qed.

Lemma world_ok_suspend i e r w :
  world_ok w → refreshPromise w = Some i → e ≤ authEpoch w →
  same_refreshes w (fst r) → world_ok (fst r) → pc_ok (Suspended (snd r)) →
  world_ok (suspend i e r).
Proof.
  intros OK HP HE [] OK' Q. destruct r as [w' s]. cbn in *.
  apply (world_ok_update i {| refreshEpoch := e; pc := Suspended s |} w');
    autorewrite with session_store; try done; try congruence.
  - cbn. lia.
  - by destruct OK'.
  - left. congruence.
Qed.

Lemma world_ok_refreshAuthentication w : world_ok w → world_ok (fst (refreshAuthentication w)).
Proof.
  intros OK. unfold refreshAuthentication. destruct (refreshPromise w) eqn:P; [done|].
  unfold performRefreshWithBrowserLock, runRefresh. cbn [fst].
  destruct has_locks; cbn [fst].
  - apply (world_ok_update (next_refresh w)
             {| refreshEpoch := authEpoch w; pc := AwaitLock |} w); try done; [by destruct OK|by right].
  - destruct (run _ _ _ _) as [w' s] eqn:R.
    assert (w' = w) as -> by (rewrite <- (run_world (authEpoch w) 0 true w); by rewrite R).
    assert (pc_ok (Suspended s)).
    { change s with (snd (w, s)). rewrite <- R. apply pc_ok_run. lia. }
    apply (world_ok_update (next_refresh w)
             {| refreshEpoch := authEpoch w; pc := Suspended s |} w);
      cbn; autorewrite with session_store; try done; [by destruct OK|by right].
Qed.

Lemma world_ok_resolve w : world_ok w → world_ok (fst (resolveAuthentication w)).
Proof.
  intros OK. unfold resolveAuthentication. case_match.
  - apply world_ok_set_state; [|done]. by destruct OK.
  - case_match; [done|]. destruct (refreshAuthentication _) as [w' i] eqn:R. cbn.
    change w' with (fst (w', i)). rewrite <- R. apply world_ok_refreshAuthentication.
    apply world_ok_set_state; [|done]. by destruct OK.
Qed.

Lemma world_ok_headers w : world_ok w → world_ok (fst (getFreshAuthHeaders w)).
Proof.
  intros OK. unfold getFreshAuthHeaders. case_match; [done|].
  destruct (refreshAuthentication _) as [w' i] eqn:R. cbn.
  change w' with (fst (w', i)). rewrite <- R. by apply world_ok_refreshAuthentication.
Qed.

Lemma world_ok_act a w : world_ok w → world_ok (act a w).
Proof.
  intros OK. destruct a; cbn.
  - case_match; [|done]. apply world_ok_applyAuthBundle; [|done].
    eauto using credentials_setBundle, parseBundle_valid.
  - case_match; [|done].
    match goal with E : applyAuthRotation _ _ = Ok _ |- _ =>
      apply rotation_valid in E as (b & u & s & ? & ? & ? & ? & ? & ? & -> & ? & ? & ? & ?) end.
    apply world_ok_applyAuthBundle; [|done]. by apply credentials_rotation.
  - by apply world_ok_clear.
  - unfold clearAuthenticatedClientState. auto with session.
  - apply world_ok_set_state; [|done]. by destruct OK.
  - apply world_ok_set_state; [|done]. by destruct OK.
  - by apply world_ok_refreshAuthentication.
  - by apply world_ok_resolve.
  - unfold bootstrapAuthentication. case_match; [done|by apply world_ok_resolve].
  - by apply world_ok_headers.
  - by apply world_ok_deliver.
  - unfold handleStorage. repeat case_match; auto using world_ok_deliver.
  - destruct OK. by constructor.
Qed.

Lemma world_ok_resume c w w' : world_ok w → resume c w = Some w' → world_ok w'.
Proof.
  intros OK R. pose proof OK as [C F Q E].
  assert (∀ i r, refreshes w !! i = Some r → refreshPromise w = Some i) as FP.
  { intros i r L. apply F. eauto. }
  destruct c as [i|i err|i resp|i|i]; cbn in R;
    destruct (refreshes w !! i) as [[e p]|] eqn:L; try done;
    pose proof (E _ _ L) as HE; pose proof (FP _ _ L) as HP; pose proof (Q _ _ L) as HQ;
    cbn in HE, HQ.
  - destruct p; try done. injection R as <-. unfold runRefresh.
    apply (world_ok_suspend _ _ _ w); rewrite ?run_world;
      try done || reflexivity || (apply pc_ok_run; lia).
  - destruct p; try done. injection R as <-.
    apply (world_ok_update i {| refreshEpoch := e; pc := LockRejected err |} w); try done. by left.
  - destruct p as [|[| |]|]; try done. injection R as <-.
    apply (world_ok_suspend _ _ _ w);
      auto using resume_response_same, world_ok_resume_response, pc_ok_response.
  - destruct p as [|[| |]|]; try done. injection R as <-.
    apply (world_ok_suspend _ _ _ w); rewrite ?run_world;
      done || reflexivity || (by apply pc_ok_run).
  - assert (∃ o, w' = release i o w) as [o ->].
    { destruct p as [|[| |]|]; simplify_eq; eauto. }
    constructor; [done| | |].
    + intros k. cbn. split; [|done]. intros [r Lk].
      apply lookup_delete_Some in Lk as [N Lk]. apply FP in Lk. congruence.
    + intros k r. cbn. intros Lk. apply lookup_delete_Some in Lk as [N Lk]. eauto.
    + intros k r. cbn. intros Lk. apply lookup_delete_Some in Lk as [N Lk]. eauto.
Qed.

Lemma world_ok_step e w w' : world_ok w → step e w = Some w' → world_ok w'.
Proof.
  intros OK. destruct e; cbn; [intros [= <-]; by apply world_ok_act|by apply world_ok_resume].
Qed.

Lemma world_ok_exec es w w' : world_ok w → exec es w = Some w' → world_ok w'.
Proof.
  revert w. induction es as [|e es IH]; intros w OK; cbn; [by intros [= <-]|].
  intros (w1 & S1 & X)%bind_Some. eauto using world_ok_step.
Qed.

Lemma reachable_ok w : reachable w → world_ok w.
Proof. intros (t & es & X). eauto using world_ok_exec, world_ok_init. Qed.

(** ** Superseded refreshes *)

(** No running refresh belongs to the present epoch. *)
Definition all_superseded (w : world) : Prop :=
  ∀ i r, refreshes w !! i = Some r → refreshEpoch r ≠ authEpoch w.

(** Everything but the refresh bookkeeping is unchanged. *)
Record untouched (w w' : world) : Prop := {
  un_store : store w' = store w;
  un_epoch : authEpoch w' = authEpoch w;
  un_requests : requests w' = requests w;
  un_posted : posted w' = posted w;
  un_effects : effects w' = effects w;
}.

#[global] Instance untouched_preorder : PreOrder untouched.
Proof. split; [by constructor|]. intros w1 w2 w3 [] []. constructor; congruence. Qed.

Lemma stale_run e n a w :
  e ≠ authEpoch w →
  run (refresh_runtime e) n a w = (w, Returned (TransientError AuthRefreshSupersededError)).
Proof. intros N. unfold run, is_current. cbn. by destruct (Nat.eqb_spec (authEpoch w) e). Qed.

Lemma stale_response e n a r w :
  e ≠ authEpoch w →
  resume_response (refresh_runtime e) n a r w
  = (w, Returned (TransientError AuthRefreshSupersededError)).
Proof. intros N. unfold resume_response, is_current. cbn. by destruct (Nat.eqb_spec (authEpoch w) e). Qed.

Lemma superseded_insert i e p w w' :
  all_superseded w → e ≠ authEpoch w → authEpoch w' = authEpoch w →
  refreshes w' = <[i := {| refreshEpoch := e; pc := p |}]> (refreshes w) → all_superseded w'.
Proof.
  intros S N HE HM k r. rewrite HM, HE. destruct (decide (i = k)) as [->|].
  - rewrite lookup_insert_eq. by intros [= <-].
  - rewrite lookup_insert_ne by done. apply S.
Qed.

Lemma superseded_resume c w w' :
  all_superseded w → resume c w = Some w' → untouched w w' ∧ all_superseded w'.
Proof.
  intros S R.
  destruct c as [i|i err|i resp|i|i]; cbn in R;
    destruct (refreshes w !! i) as [[e p]|] eqn:L; try done; pose proof (S _ _ L) as N; cbn in N.
  - destruct p; try done. injection R as <-. unfold runRefresh. rewrite stale_run by done.
    split; [by constructor|]. eapply superseded_insert; eauto.
  - destruct p; try done. injection R as <-.
    split; [by constructor|]. eapply superseded_insert; eauto.
  - destruct p as [|[| |]|]; try done. injection R as <-. rewrite stale_response by done.
    split; [by constructor|]. eapply superseded_insert; eauto.
  - destruct p as [|[| |]|]; try done. injection R as <-. rewrite stale_run by done.
    split; [by constructor|]. eapply superseded_insert; eauto.
  - assert (∃ o, w' = release i o w) as [o ->].
    { destruct p as [|[| |]|]; simplify_eq; eauto. }
    split; [by constructor|]. intros k r. cbn. intros [_ Lk]%lookup_delete_Some. eauto.
Qed.

Lemma superseded_settle cs w w' :
  all_superseded w → settle cs w = Some w' → untouched w w'.
Proof.
  revert w. induction cs as [|c cs IH]; intros w S; cbn; [by intros [= <-]|].
  intros (w1 & R & X)%bind_Some. apply superseded_resume in R as [U S1]; [|done].
  etrans; eauto.
Qed.

(** The operations that replace or drop the credentials. *)
Definition changes_credentials (a : action) (w : world) : bool :=
  match a with
  | Login v => isAuthBundle v
  | Rotate v => is_ok (applyAuthRotation v w)
  | Clear _ | SignOut _ => true
  | _ => false
  end.

Lemma changes_credentials_epoch a w :
  changes_credentials a w = true →
  authEpoch (act a w) = S (authEpoch w) ∧ refreshes (act a w) = refreshes w.
Proof.
  destruct a; cbn; try done; intros C.
  - unfold parseBundle. rewrite C. apply isAuthBundle_read in C as (b & -> & _).
    rewrite epoch_applyAuthBundle. split; [done|]. apply applyAuthBundle_same.
  - destruct (applyAuthRotation v w) as [w'|] eqn:E; [|done].
    apply rotation_valid in E as (b & u & s & ? & ? & ? & ? & ? & ? & -> & _).
    rewrite epoch_applyAuthBundle. split; [done|]. apply applyAuthBundle_same.
  - rewrite epoch_clearAuthentication. split; [done|]. apply clearAuthentication_same.
  - unfold clearAuthenticatedClientState. rewrite epoch_clearAuthentication. split; [done|].
    by rewrite (same_map _ _ (clearAuthentication_same _ _ _)).
Qed.

Lemma changes_credentials_supersedes a w :
  world_ok w → changes_credentials a w = true → all_superseded (act a w).
Proof.
  intros OK C. apply changes_credentials_epoch in C as [E M].
  intros i r. rewrite M, E. intros L. pose proof (ok_epochs _ OK _ _ L). lia.
Qed.

(** ** Termination *)

(** Continuations a refresh still needs at most, and requests it may still send. *)
Definition race_rank (n : nat) (allow : bool) : nat := 2 + 2 * (3 - n) + (if allow then 8 else 0).
Definition pc_rank (p : refresh_pc) : nat :=
  match p with
  | AwaitLock => 17
  | Suspended (Requesting _ n allow) => race_rank n allow
  | Suspended (Waiting _ n allow) => S (race_rank n allow)
  | Suspended (Returned _) | LockRejected _ => 1
  end.
Definition request_rank (p : refresh_pc) : nat :=
  match p with
  | AwaitLock => 8
  | Suspended (Requesting _ n allow) => (3 - n) + (if allow then 4 else 0)
  | Suspended (Waiting _ n allow) => (4 - n) + (if allow then 4 else 0)
  | _ => 0
  end.

(** The running refresh of a world, if any. *)
Definition in_flight (w : world) : option refresh_pc :=
  i ← refreshPromise w; pc <$> refreshes w !! i.
Definition flight_rank (w : world) : nat := from_option pc_rank 0 (in_flight w).
Definition flight_requests (w : world) : nat := from_option request_rank 0 (in_flight w).

Lemma pc_rank_run e n a w :
  pc_rank (Suspended (snd (run (refresh_runtime e) n a w))) ≤ race_rank n a.
Proof. unfold run. destruct is_current; cbn; unfold race_rank; lia. Qed.

Lemma pc_rank_response e n a r w :
  pc_rank (Suspended (snd (resume_response (refresh_runtime e) n a r w))) < race_rank n a.
Proof.
  unfold resume_response. repeat case_match; cbn; unfold race_rank; try lia.
  - match goal with D : refreshRaceDelays !! _ = Some _ |- _ => apply race_delay in D end. lia.
  - pose proof (pc_rank_run e 0 false (rt_clear (refresh_runtime e) false (Some idle) w)) as P.
    unfold race_rank in P. cbn in P |- *. lia.
Qed.

(** The requests sent by reaching a suspension, and the ones it may send later. *)
Definition request_count (s : suspension) : nat :=
  match s with Requesting _ _ _ => 1 | _ => 0 end.

Lemma requests_suspend i e w s :
  length (requests (suspend i e (w, s))) = length (requests w) + request_count s.
Proof. destruct s; unfold suspend; cbn; rewrite ?length_app; cbn; lia. Qed.

Lemma request_rank_run e n a w :
  n ≤ 3 →
  request_count (snd (run (refresh_runtime e) n a w))
  + request_rank (Suspended (snd (run (refresh_runtime e) n a w)))
  ≤ (4 - n) + (if a then 4 else 0).
Proof. unfold run. destruct is_current; cbn; lia. Qed.

Lemma request_rank_response e n a r w :
  request_count (snd (resume_response (refresh_runtime e) n a r w))
  + request_rank (Suspended (snd (resume_response (refresh_runtime e) n a r w)))
  ≤ (3 - n) + (if a then 4 else 0).
Proof.
  unfold resume_response. repeat case_match; cbn; try lia.
  pose proof (request_rank_run e 0 false (rt_clear (refresh_runtime e) false (Some idle) w)) as P.
  cbn in P. cbn. lia.
Qed.

Lemma in_flight_update i p e w :
  refreshPromise w = Some i →
  refreshes w !! i = Some {| refreshEpoch := e; pc := p |} → in_flight w = Some p.
Proof. intros P L. unfold in_flight. rewrite P. cbn. by rewrite L. Qed.

Lemma in_flight_suspend i e w s :
  refreshPromise w = Some i → in_flight (suspend i e (w, s)) = Some (Suspended s).
Proof.
  intros P. unfold in_flight. rewrite promise_suspend, P. cbn.
  by rewrite refreshes_suspend, lookup_insert_eq.
Qed.

(** One continuation of the shared refresh, seen from its program counter. *)
Inductive advances (w w' : world) (i : nat) (p : refresh_pc) : Prop :=
| advance_suspend e r :
    w' = suspend i e r → same_refreshes w (fst r) →
    pc_rank (Suspended (snd r)) < pc_rank p →
    request_count (snd r) + request_rank (Suspended (snd r)) ≤ request_rank p →
    advances w w' i p
| advance_reject e err :
    p = AwaitLock →
    w' = with_refreshes (refreshPromise w)
           (<[i := {| refreshEpoch := e; pc := LockRejected err |}]> (refreshes w))
           (next_refresh w) w → advances w w' i p
| advance_finally o :
    w' = release i o w → pc_rank p = 1 →
    advances w w' i p.

Lemma resume_advances c w w' :
  world_ok w → resume c w = Some w' →
  ∃ i p, refreshPromise w = Some i ∧ in_flight w = Some p ∧ advances w w' i p.
Proof.
  intros OK R.
  assert (∀ i r, refreshes w !! i = Some r → refreshPromise w = Some i) as FP.
  { intros i r L. apply OK. eauto. }
  destruct c as [i|i err|i resp|i|i]; cbn in R;
    destruct (refreshes w !! i) as [[e p]|] eqn:L; try done;
    pose proof (FP _ _ L) as HP; pose proof (in_flight_update _ _ _ _ HP L) as HF;
    pose proof (ok_pcs _ OK _ _ L) as PO; exists i, p; (split; [done|]); (split; [done|]).
  - destruct p; try done. injection R as <-.
    eapply (advance_suspend _ _ _ _ e (run (refresh_runtime e) 0 true w)); rewrite ?run_world;
      try reflexivity.
    + pose proof (pc_rank_run e 0 true w). unfold race_rank in *. cbn in *. lia.
    + pose proof (request_rank_run e 0 true w). cbn in *. lia.
  - destruct p; try done. injection R as <-. by eapply advance_reject.
  - destruct p as [|[? n a| |]|]; try done. injection R as <-. cbn in PO.
    eapply (advance_suspend _ _ _ _ e _); [reflexivity|apply resume_response_same|
      apply pc_rank_response|apply request_rank_response].
  - destruct p as [|[|? n a|]|]; try done. injection R as <-. cbn in PO.
    eapply (advance_suspend _ _ _ _ e (run (refresh_runtime e) n a w)); rewrite ?run_world;
      try reflexivity.
    + pose proof (pc_rank_run e n a w). cbn in *. lia.
    + apply (request_rank_run e n a w). cbn in PO. lia.
  - destruct p as [|[| |]|]; simplify_eq; by eapply advance_finally.
Qed.

Lemma advances_ranks w w' i p :
  refreshPromise w = Some i → in_flight w = Some p → advances w w' i p →
  flight_rank w' < flight_rank w ∧
  length (requests w') + flight_requests w' ≤ length (requests w) + flight_requests w.
Proof.
  intros HP HF A. unfold flight_rank, flight_requests. rewrite HF. cbn.
  destruct A as [e [w1 s] -> [] R1 R2|e err -> ->|o -> R].
  - cbn in *. rewrite in_flight_suspend by congruence. rewrite requests_suspend. cbn.
    split; [done|]. rewrite same_requests0. lia.
  - unfold in_flight. cbn. rewrite HP. cbn. rewrite lookup_insert_eq. cbn.
    lia.
  - cbn. lia.
Qed.

Lemma pc_rank_bounds p : 1 ≤ pc_rank p ≤ 17.
Proof. destruct p as [|[? ? []|? ? []|]|]; cbn; unfold race_rank; lia. Qed.
Lemma flight_rank_bound w : flight_rank w ≤ 17.
Proof. unfold flight_rank. destruct (in_flight w); cbn; [apply pc_rank_bounds|lia]. Qed.
Lemma flight_requests_bound w : flight_requests w ≤ 8.
Proof.
  unfold flight_requests. destruct (in_flight w) as [[|[? ? []|? ? []|]|]|]; cbn; lia.
Qed.

Lemma resume_ranks c w w' :
  world_ok w → resume c w = Some w' →
  flight_rank w' < flight_rank w ∧
  length (requests w') + flight_requests w' ≤ length (requests w) + flight_requests w.
Proof.
  intros OK R. apply resume_advances in R as (i & p & HP & HF & A); [|done].
  eauto using advances_ranks.
Qed.

Lemma settle_ranks cs w w' :
  world_ok w → settle cs w = Some w' →
  world_ok w' ∧ length cs + flight_rank w' ≤ flight_rank w ∧
  length (requests w') + flight_requests w' ≤ length (requests w) + flight_requests w.
Proof.
  revert w. induction cs as [|c cs IH]; intros w OK; cbn; [intros [= <-]; auto|].
  intros (w1 & R & X)%bind_Some.
  pose proof (world_ok_resume _ _ _ OK R) as OK1.
  apply resume_ranks in R as [R1 R2]; [|done].
  apply IH in X as (OK' & X1 & X2); [|done]. split; [done|lia].
Qed.

(** ** Progress *)

(** What the running refresh waits for; [r] answers its request. *)
Definition awaited (i : nat) (p : refresh_pc) (r : post_result) : completion :=
  match p with
  | AwaitLock => LockGranted i
  | Suspended (Requesting _ _ _) => Response i r
  | Suspended (Waiting _ _ _) => DelayElapsed i
  | Suspended (Returned _) | LockRejected _ => Finally i
  end.

(** The refresh is continued as long as there is one, request number [k]
    from the end being answered by [answers k]. *)
Fixpoint pump (answers : nat → post_result) (fuel : nat) (w : world) : world :=
  match fuel with
  | 0 => w
  | S k =>
      match refreshPromise w, in_flight w with
      | Some i, Some p =>
          match resume (awaited i p (answers k)) w with
          | Some w' => pump answers k w'
          | None => w
          end
      | _, _ => w
      end
  end.

Lemma awaited_enabled i p r w :
  refreshPromise w = Some i → in_flight w = Some p → is_Some (resume (awaited i p r) w).
Proof.
  intros HP HF. unfold in_flight in HF. rewrite HP in HF. cbn in HF.
  destruct (refreshes w !! i) as [[e q]|] eqn:L; [|done]. injection HF as ->.
  destruct p as [|[| |]|]; cbn; rewrite L; eauto.
Qed.

Lemma in_flight_Some w i :
  world_ok w → refreshPromise w = Some i → ∃ p, in_flight w = Some p.
Proof.
  intros OK HP. apply (ok_flight _ OK) in HP as HL. destruct HL as [r L].
  exists (pc r). unfold in_flight. rewrite HP. cbn. by rewrite L.
Qed.

Lemma pump_settles answers fuel w :
  world_ok w → flight_rank w ≤ fuel →
  refreshPromise (pump answers fuel w) = None ∧
  ∃ cs, settle cs w = Some (pump answers fuel w).
Proof.
  revert w. induction fuel as [|k IH]; intros w OK F; cbn.
  - destruct (refreshPromise w) as [i|] eqn:HP; [|split; [done|by exists []]].
    destruct (in_flight_Some w i OK HP) as [p HF]. unfold flight_rank in F.
    rewrite HF in F. cbn in F. pose proof (pc_rank_bounds p). lia.
  - destruct (refreshPromise w) as [i|] eqn:HP; [|split; [done|by exists []]].
    destruct (in_flight_Some w i OK HP) as [p HF]. rewrite HF.
    destruct (awaited_enabled i p (answers k) w HP HF) as [w1 R]. rewrite R.
    destruct (resume_ranks _ _ _ OK R) as [R1 _].
    destruct (IH w1) as [D (cs & X)]; [eauto using world_ok_resume|lia|].
    split; [done|]. exists (awaited i p (answers k) :: cs). cbn. by rewrite R.
Qed.

End Tab.
