(* ===== verification/AuthSessionTheorems.v ===== *)
(** * Theorems about the login session

    What a page may rely on: a refresh that was overtaken by a sign-in or a
    sign-out changes nothing, every refresh settles after a bounded number of
    requests, its outcome tells what became of the store, and tabs sign out
    together. *)
From stdpp Require Import base list option numbers sets gmap.
From Stdlib Require Import ZArith SpecFloat Lia.
From S2P Require Import Prelude.
From S2P Require Import JsString.
From S2P Require Import JsNumber.
From S2P Require Import Runtime.
From S2P Require Import Json.
From S2P Require Import JsText.
From S2P Require Import AuthStore.
From S2P Require Import AuthSession.
From S2P Require Import AuthSessionFacts.

Section Outcomes.
Context `{Platform}.

(** What an outcome says about the store, [s0] being the store at the start. *)
Definition refresh_post (s0 : AuthState) (o : RefreshOutcome) (s : AuthState) : Prop :=
  match o with
  | Authenticated b => valid_bundle b = true ∧ s = setBundle b s0
  | Anonymous | OutOfSync _ => s = reset complete s0
  | TransientError e =>
      e ≠ AuthRefreshSupersededError ∧ (s = setBootstrapState idle s0 ∨ s = reset idle s0)
  end.

(** While it runs undisturbed, a refresh has left the store alone or, after a
    session mismatch, emptied it. *)
Definition undisturbed (epoch : nat) (s0 : AuthState) (w : world) : Prop :=
  authEpoch w = epoch ∧ (store w = s0 ∨ store w = reset idle s0).

Definition suspension_post (epoch : nat) (s0 : AuthState) (r : world * suspension) : Prop :=
  match snd r with
  | Returned o => refresh_post s0 o (store (fst r))
  | _ => undisturbed epoch s0 (fst r)
  end.

Lemma current_epoch e s0 w : undisturbed e s0 w → is_current (refresh_runtime e) w = true.
Proof. intros [E _]. unfold is_current. cbn. by rewrite E, Nat.eqb_refl. Qed.

Lemma run_post e n a s0 w :
  undisturbed e s0 w → suspension_post e s0 (run (refresh_runtime e) n a w).
Proof. intros U. unfold run. by rewrite (current_epoch _ _ _ U). Qed.

(** The three ways the runner clears the store. *)
Lemma rt_clear_idle e w : rt_clear (refresh_runtime e) false (Some idle) w = set_state (reset idle) w.
Proof. reflexivity. Qed.
Lemma rt_clear_none e sync w :
  rt_clear (refresh_runtime e) sync None w = clearAuthentication sync complete w.
Proof. by destruct sync. Qed.

Lemma reset_idle_undisturbed e s0 w :
  undisturbed e s0 w → undisturbed e s0 (rt_clear (refresh_runtime e) false (Some idle) w).
Proof.
  intros [E S]. rewrite rt_clear_idle. split; [by rewrite epoch_set_state|].
  right. by rewrite store_set_state.
Qed.

Lemma resume_response_post e n a r s0 w :
  undisturbed e s0 w → suspension_post e s0 (resume_response (refresh_runtime e) n a r w).
Proof.
  intros U. unfold resume_response. rewrite (current_epoch _ _ _ U). cbn [negb].
  destruct (accepted_bundle _ r) as [b|] eqn:B.
  { unfold suspension_post. cbn. rewrite store_applyAuthBundle. split; [|done].
    unfold accepted_bundle in B. repeat case_match; try done. eapply parseBundle_valid; eauto. }
  rewrite !rt_clear_none.
  repeat case_match; try (unfold suspension_post; cbn; by rewrite ?store_clearAuthentication).
  - apply run_post. by apply reset_idle_undisturbed.
  - unfold suspension_post; cbn. rewrite store_set_state. split; [done|].
    destruct U as [_ [-> | ->]]; auto.
Qed.

(** The invariant of one refresh, started with the store [s0]. *)
Definition refresh_inv (i : nat) (s0 : AuthState) (w : world) : Prop :=
  (∀ j, is_Some (refreshes w !! j) → j = i) ∧
  match refreshes w !! i with
  | Some {| refreshEpoch := e; pc := Suspended s |} => suspension_post e s0 (w, s)
  | Some {| refreshEpoch := e |} => undisturbed e s0 w
  | None => True
  end.

Lemma refresh_inv_suspend i e s0 w r :
  (∀ j, is_Some (refreshes w !! j) → j = i) → refreshes (fst r) = refreshes w →
  suspension_post e s0 r → refresh_inv i s0 (suspend i e r).
Proof.
  intros O M P. destruct r as [w1 s]. cbn in M. split.
  - intros j. rewrite refreshes_suspend, M. destruct (decide (i = j)) as [->|]; [done|].
    rewrite lookup_insert_ne by done. apply O.
  - rewrite refreshes_suspend, lookup_insert_eq. unfold suspension_post, undisturbed in *. cbn in *.
    destruct s; rewrite ?store_suspend, ?epoch_suspend; done.
Qed.

Lemma refresh_inv_resume i s0 c w w' :
  refresh_inv i s0 w → resume c w = Some w' → refresh_inv i s0 w'.
Proof.
  intros [O I] R.
  destruct c as [k|k err|k resp|k|k]; cbn in R;
    destruct (refreshes w !! k) as [[e p]|] eqn:L; try done;
    assert (k = i) as -> by eauto; rewrite L in I.
  - destruct p; try done. injection R as <-. unfold runRefresh.
    apply (refresh_inv_suspend _ _ _ w); [done|by rewrite run_world|by apply run_post].
  - destruct p; try done. injection R as <-. split; cbn.
    + intros j. destruct (decide (i = j)) as [->|]; [done|]. rewrite lookup_insert_ne; auto.
    + by rewrite lookup_insert_eq.
  - destruct p as [|[| |]|]; try done. injection R as <-.
    apply (refresh_inv_suspend _ _ _ w); [done|apply resume_response_same|].
    by apply resume_response_post.
  - destruct p as [|[| |]|]; try done. injection R as <-.
    apply (refresh_inv_suspend _ _ _ w); [done|by rewrite run_world|by apply run_post].
  - assert (∃ o, w' = release i o w) as [o ->].
    { destruct p as [|[| |]|]; simplify_eq; eauto. }
    split; cbn; [|by rewrite lookup_delete_eq].
    intros j. destruct (decide (i = j)) as [->|]; [done|]. rewrite lookup_delete_ne; auto.
Qed.

Lemma refresh_inv_settle i s0 cs w w' :
  refresh_inv i s0 w → settle cs w = Some w' → refresh_inv i s0 w'.
Proof.
  revert w. induction cs as [|c cs IH]; intros w I; cbn; [by intros [= <-]|].
  intros (w1 & R & X)%bind_Some. eauto using refresh_inv_resume.
Qed.

Lemma refresh_inv_start w w1 i :
  world_ok w → refreshPromise w = None → refreshAuthentication w = (w1, i) →
  refresh_inv i (store w) w1.
Proof.
  intros OK P. unfold refreshAuthentication. rewrite P. intros [= <- <-].
  assert (∀ j, is_Some (refreshes w !! j) → j = next_refresh w) as O.
  { intros j J. apply OK in J. congruence. }
  assert (undisturbed (authEpoch w) (store w) w) as U by (split; auto).
  unfold performRefreshWithBrowserLock. destruct has_locks.
  - split; cbn.
    + intros j. destruct (decide (next_refresh w = j)) as [->|]; [done|].
      rewrite lookup_insert_ne; auto.
    + rewrite lookup_insert_eq. exact U.
  - unfold runRefresh.
    destruct (refresh_inv_suspend (next_refresh w) (authEpoch w) (store w) w
      (run (refresh_runtime (authEpoch w)) 0 true w)) as [O' I'];
      [done|by rewrite run_world|by apply run_post|]. by split.
Qed.

End Outcomes.

(** ** Sample data *)

Definition sample_user : jsval :=
  JObj [(js "id", JNum (nZ 42)); (js "username", JStr (js "user")); (js "role", JNum (nZ 1))].
Definition sample_session (s : jsstr) : jsval :=
  JObj [(js "sid", JStr s); (js "current", JBool true); (js "login_method", JStr (js "password"));
        (js "ip", JStr (js "127.0.0.1")); (js "user_agent", JStr (js "test"));
        (js "created_at", JNum (nZ 100)); (js "last_active_at", JNum (nZ 100));
        (js "expires_at", JNum (nZ 9999999999))].
Definition sample_bundle (token s : jsstr) : jsval :=
  JObj [(js "access_token", JStr token); (js "token_type", JStr (js "Bearer"));
        (js "access_expires_at", JNum (nZ 9999999999)); (js "user", sample_user);
        (js "session", sample_session s)].
Definition sample_success (token s : jsstr) : jsval :=
  JObj [(js "success", JBool true); (js "data", sample_bundle token s)].
Definition sample_conflict (code : jsstr) : post_result :=
  RejectedAxios (Some (409%Z, JObj [(js "code", JStr code)])) JNull.

(** A browser with a window and no lock manager, and one with locks. *)
Definition sample_platform (tag : jsstr) : Platform :=
  {| has_window := true; has_locks := false; randomIdentifier := λ n, tag ++ nat_text n |}.
Definition locking_platform (tag : jsstr) : Platform :=
  {| has_window := true; has_locks := true; randomIdentifier := λ n, tag ++ nat_text n |}.

(** The world after some events. *)
Definition after `{Platform} (es : list event) (t : Z) : world :=
  default (initial_world t) (exec es (initial_world t)).

Lemma reachable_after `{Platform} es t : is_Some (exec es (initial_world t)) → reachable (after es t).
Proof. intros [w E]. exists t, es. unfold after. by rewrite E. Qed.

(** ** Claims *)

(** C17: a sign-in, a sign-out or a token rotation that happens while a refresh
    is under way wins: whatever answers, delays and lock grants the refresh
    still receives afterwards, it changes neither the store nor the epoch, it
    sends no further request and it posts nothing to the other tabs. *)
Theorem newer_operation_wins `{Platform} w a cs w' :
  reachable w → changes_credentials a w = true →
  settle cs (act a w) = Some w' → untouched (act a w) w'.
Proof.
  intros RW C. apply superseded_settle.
  by apply changes_credentials_supersedes; [apply reachable_ok|].
Qed.

Lemma newer_operation_wins_witness :
  let _ := sample_platform (js "tab") in
  let w := after [Act RefreshCall] 0 in
  let a := Login (sample_bundle (js "fresh") (js "session-b")) in
  let cs := [Response 0 (Resolved 200 (sample_success (js "stale") (js "session-a")))] in
  ∃ w', settle cs (act a w) = Some w' ∧ untouched (act a w) w' ∧
        accessToken (store w') = Some (js "fresh").
Proof.
  intros P w a cs. destruct (settle cs (act a w)) as [w'|] eqn:E; [|vm_compute in E; discriminate].
  exists w'. split; [done|].
  assert (untouched (act a w) w') as U.
  { apply (newer_operation_wins w a cs w'); [|vm_compute; reflexivity|exact E].
    apply reachable_after. vm_compute. eauto. }
  split; [exact U|]. rewrite (un_store _ _ U). vm_compute. reflexivity.
Defined.

(** C18: a refresh always settles.  In every state a page can reach, whatever
    arrives, at most 17 continuations of the running refresh are possible and
    they send at most 8 requests (four attempts, and four more after a session
    mismatch); and if the browser answers every step, with any answers at all,
    the shared promise is settled and released after at most 17 of them. *)
Theorem refresh_settles `{Platform} w :
  reachable w →
  (∀ cs w', settle cs w = Some w' →
     length cs ≤ 17 ∧ length (requests w') ≤ length (requests w) + 8) ∧
  (∀ answers, refreshPromise (pump answers 17 w) = None ∧
     ∃ cs, settle cs w = Some (pump answers 17 w)).
Proof.
  intros OK%reachable_ok. pose proof (flight_rank_bound w). split.
  - intros cs w' (_ & R1 & R2)%settle_ranks; [|done].
    pose proof (flight_requests_bound w). lia.
  - intros answers. by apply pump_settles.
Qed.

Lemma refresh_settles_witness :
  let _ := locking_platform (js "tab") in
  let w := after [Act RefreshCall] 0 in
  let answers k :=
    sample_conflict (if decide (k = 9) then js "AUTH_SESSION_MISMATCH" else js "AUTH_REFRESH_RACE") in
  refreshPromise w = Some 0 ∧
  refreshPromise (pump answers 17 w) = None ∧ length (requests (pump answers 17 w)) = 8.
Proof.
  intros P w answers. split; [vm_compute; reflexivity|]. split.
  - apply (refresh_settles w). apply reachable_after. vm_compute. eauto.
  - vm_compute. reflexivity.
Defined.

(** The outcome of a refresh that nothing overtook says what became of the
    store: [authenticated] means exactly the validated bundle is installed,
    [anonymous] and [out_of_sync] mean the store is empty and the check is
    complete, and a transient error is the server's or the network's, leaves
    the check to be repeated and keeps the credentials unless the server
    reported a session mismatch before (then they are dropped). *)
Theorem refresh_outcome_tells_the_store `{Platform} w w1 i cs w2 e o :
  reachable w → refreshPromise w = None → refreshAuthentication w = (w1, i) →
  settle cs w1 = Some w2 →
  refreshes w2 !! i = Some {| refreshEpoch := e; pc := Suspended (Returned o) |} →
  match o with
  | Authenticated b => valid_bundle b = true ∧ store w2 = setBundle b (store w)
  | Anonymous | OutOfSync _ => store w2 = reset complete (store w)
  | TransientError err =>
      err ≠ AuthRefreshSupersededError ∧
      (store w2 = setBootstrapState idle (store w) ∨ store w2 = reset idle (store w))
  end.
Proof.
  intros OK%reachable_ok P S X L.
  eapply refresh_inv_settle in X as [_ I]; [|by eapply refresh_inv_start].
  by rewrite L in I.
Qed.

Lemma refresh_outcome_tells_the_store_witness :
  let _ := sample_platform (js "tab") in
  let w := after [Act (Login (sample_bundle (js "t") (js "session-a")))] 0 in
  let w1 := fst (refreshAuthentication w) in
  ∃ w2, settle [Response 0 (RejectedAxios (Some (503%Z, JNull)) JNull)] w1 = Some w2 ∧
        store w2 = setBootstrapState idle (store w).
Proof.
  intros P w w1.
  destruct (settle [Response 0 (RejectedAxios (Some (503%Z, JNull)) JNull)] w1) as [w2|] eqn:E;
    [|vm_compute in E; discriminate].
  exists w2. split; [done|].
  assert (L : refreshes w2 !! 0 = Some {| refreshEpoch := 1;
    pc := Suspended (Returned (TransientError (ErrorValue JNull))) |})
    by (vm_compute in E; injection E as <-; vm_compute; reflexivity).
  pose proof (refresh_outcome_tells_the_store w w1 0 _ w2 1 (TransientError (ErrorValue JNull))
    ltac:(apply reachable_after; vm_compute; eauto) ltac:(vm_compute; reflexivity)
    ltac:(vm_compute; reflexivity) E L) as [_ [S|S]]; [exact S|].
  vm_compute in E. injection E as <-. vm_compute in S. discriminate.
Defined.

(** C19: in every state a page can reach, the session, the access token and its
    expiry are present or absent together (the token and the session
    identifier are not empty, the expiry is a positive finite number), and at
    most one refresh is running, the one whose promise is shared. *)
Theorem session_state_is_consistent `{Platform} w :
  reachable w →
  credentials_ok (store w) = true ∧
  ∀ i, is_Some (refreshes w !! i) ↔ refreshPromise w = Some i.
Proof. intros []%reachable_ok. auto. Qed.

Lemma session_state_is_consistent_witness :
  let _ := sample_platform (js "tab") in
  let w := after [Act (Login (sample_bundle (js "t") (js "session-a"))); Act RefreshCall] 0 in
  credentials_ok (store w) = true ∧ is_Some (refreshes w !! 0).
Proof.
  intros P w.
  destruct (session_state_is_consistent w) as [C F];
    [apply reachable_after; vm_compute; eauto|].
  split; [exact C|]. apply F. vm_compute. reflexivity.
Defined.

(** The type guard of a login answer is exact: a value passes
    [isAuthBundle] if and only if it can be read as a bundle of the declared
    types whose token, token type and session identifier are not empty, whose
    expiry is a positive finite number and whose user has a positive integer
    id. *)
Theorem bundle_guard_is_exact v :
  isAuthBundle v = true ↔
  ∃ b, read_AuthBundle v = Some b ∧ valid_bundle b = true.
Proof. apply isAuthBundle_read. Qed.

(** What [resolveAuthentication] answers, by kind of answer. *)
Definition resolve_post (w w' : world) (ans : answer) : Prop :=
  match ans with
  | inl (Authenticated b) =>
      user (store w) = Some (bundle_user b) ∧ session (store w) = Some (bundle_session b) ∧
      accessToken (store w) = Some (access_token b) ∧
      accessExpiresAt (store w) = Some (access_expires_at b) ∧
      nleb (access_expires_at b) (now_seconds (now w)) = false ∧ requests w' = requests w
  | inl Anonymous =>
      w' = w ∧ bootstrapState (store w) = complete ∧
      (user (store w) = None ∨ session (store w) = None)
  | inl _ => False
  | inr i => refreshPromise w' = Some i
  end.

Lemma resolve_cases `{Platform} w w' ans :
  resolveAuthentication w = (w', ans) → resolve_post w w' ans.
Proof.
  unfold resolveAuthentication, resolve_post. destruct (currentValidAuthBundle w) as [b|] eqn:B.
  - intros [= <- <-]. unfold currentValidAuthBundle in B. repeat case_match; simplify_eq/=. bools.
    conjs; try done. apply set_state_same.
  - case_match.
    + intros [= <- <-]. bools.
      repeat match goal with H : bool_decide _ = true |- _ => apply bool_decide_eq_true in H end.
      conjs; try done. destruct (user (store w)), (session (store w)); [done|auto..].
    + destruct (refreshAuthentication _) as [w1 i] eqn:R. intros [= <- <-].
      unfold refreshAuthentication in R. repeat case_match; by simplify_eq.
Qed.

(** Resolving authentication never answers from memory wrongly.  An
    immediate [authenticated] carries the store's own credentials and they
    have not expired; an immediate [anonymous] changes nothing and is given
    only when an earlier check was complete and no session is left; every
    other call joins or starts the shared refresh. *)
Theorem resolve_answers `{Platform} w w' ans :
  resolveAuthentication w = (w', ans) →
  match ans with
  | inl (Authenticated b) =>
      user (store w) = Some (bundle_user b) ∧ session (store w) = Some (bundle_session b) ∧
      accessToken (store w) = Some (access_token b) ∧
      accessExpiresAt (store w) = Some (access_expires_at b) ∧
      nleb (access_expires_at b) (now_seconds (now w)) = false ∧ requests w' = requests w
  | inl Anonymous =>
      w' = w ∧ bootstrapState (store w) = complete ∧
      (user (store w) = None ∨ session (store w) = None)
  | inl _ => False
  | inr i => refreshPromise w' = Some i
  end.
Proof. apply resolve_cases. Qed.

Lemma resolve_answers_witness :
  let _ := sample_platform (js "tab") in
  let w := after [Act (Login (sample_bundle (js "t") (js "session-a")))] 1000 in
  ∃ w' b, resolveAuthentication w = (w', inl (Authenticated b)) ∧
          nleb (access_expires_at b) (now_seconds (now w)) = false.
Proof.
  intros P w. destruct (resolveAuthentication w) as [w' ans] eqn:E.
  pose proof (resolve_answers w w' ans E) as S. vm_compute in E. injection E as <- <-.
  eexists _, _. split; [reflexivity|]. apply S.
Defined.

(** Skipping the refresh for want of a session hint is no verdict.  For a
    visitor with an empty store and no completed check, bootstrap without the
    hint answers [anonymous] and changes nothing at all, so that a later
    [resolveAuthentication] still waits for a refresh of the server. *)
Theorem missing_hint_is_no_verdict `{Platform} w cookie :
  user (store w) = None → session (store w) = None →
  bootstrapState (store w) ≠ complete → hasSessionHint (Some cookie) = false →
  bootstrapAuthentication (Some cookie) w = (w, inl Anonymous) ∧
  ∃ w' i, resolveAuthentication w = (w', inr i) ∧ refreshPromise w' = Some i.
Proof.
  intros U S N C.
  assert (currentValidAuthBundle w = None) as B by (unfold currentValidAuthBundle; by rewrite U).
  unfold bootstrapAuthentication. rewrite C, B, U, S. split; [done|].
  destruct (resolveAuthentication w) as [w' ans] eqn:R.
  pose proof (resolve_cases w w' ans R) as A. destruct ans as [[b| | |]|i]; try done.
  - destruct A as (E & _). congruence.
  - destruct A as (_ & E & _). done.
  - eauto.
Qed.

Lemma missing_hint_is_no_verdict_witness :
  let _ := sample_platform (js "tab") in
  let w := initial_world 0 in
  bootstrapAuthentication (Some (js "theme=dark; lang=en")) w = (w, inl Anonymous) ∧
  ∃ w' i, resolveAuthentication w = (w', inr i) ∧ refreshPromise w' = Some i.
Proof.
  intros P w. apply (missing_hint_is_no_verdict w (js "theme=dark; lang=en"));
    [reflexivity|reflexivity|discriminate|vm_compute; reflexivity].
Defined.

(** *** Tabs *)

Lemma sync_event_round_trip e :
  event_sid e ≠ [] →
  isAuthSessionSyncEvent (sync_event_value e) = true ∧
  read_sync_event (sync_event_value e) = Some e.
Proof. intros N. destruct e as [[] [|c s] so no t]; done. Qed.

Lemma session_sid_nonempty s : credentials_ok s = true → session_sid s ≠ Some [].
Proof.
  unfold credentials_ok, session_sid, valid_session. intros C.
  destruct (accessToken s) as [[|]|], (accessExpiresAt s), (session s); try done.
  bools. cbn. by destruct (sid _).
Qed.

(** The event a sign-out posts. *)
Definition sign_out_event `{Platform} (s : jsstr) (w : world) : AuthSessionSyncEvent :=
  {| kind := signed_out; event_sid := s; source := authSyncSource;
     nonce := randomIdentifier (S (length (posted w))); timestamp := nZ (now w) |}.

Lemma posted_clear `{Platform} w s c b :
  has_window = true → session_sid (store w) = Some (c :: s) →
  posted (clearAuthentication true b w) = posted w ++ [sign_out_event (c :: s) w].
Proof.
  intros W S. unfold clearAuthentication, publishAuthSessionEvent. rewrite S, W. cbn.
  by rewrite posted_set_state, now_set_state.
Qed.

Lemma posted_clear_local `{Platform} b w :
  posted (clearAuthentication false b w) = posted w.
Proof. unfold clearAuthentication. by rewrite posted_set_state. Qed.

(** Events are only reacted to, never answered. *)
Lemma posted_deliver `{Platform} v w : posted (deliver v w) = posted w.
Proof.
  unfold deliver, onAuthSessionEvent, clearAuthenticatedClientState.
  repeat case_match; cbn; rewrite ?posted_clear_local; done.
Qed.

Lemma deliver_event `{Platform} e w :
  event_sid e ≠ [] → source e ≠ authSyncSource →
  nltb (nabs (nsub (nZ (now w)) (timestamp e))) (nZ 60000) = true →
  deliver (sync_event_value e) w = onAuthSessionEvent e w.
Proof.
  intros N S T. destruct (sync_event_round_trip e N) as [G R].
  unfold deliver. rewrite G, R, T. apply jseq_neq in S. by rewrite S.
Qed.

Lemma deliver_own `{Platform} v w e :
  read_sync_event v = Some e → source e = authSyncSource → deliver v w = w.
Proof.
  intros R S. unfold deliver. rewrite R, S, jseq_refl. by destruct (isAuthSessionSyncEvent v).
Qed.

(** Tabs sign out together and events do not bounce.  When a tab signs
    out, it posts one event; any other tab of the same login that receives it
    within a minute ends with an empty store, its cached queries dropped, on
    its way to the sign-in page; it posts nothing itself, and the tab that
    sent the event ignores its own. *)
Theorem tabs_sign_out_together (P1 P2 : Platform) w1 w2 s :
  @reachable P1 w1 → @has_window P1 = true → @authSyncSource P1 ≠ @authSyncSource P2 →
  session_sid (store w1) = Some s → session_sid (store w2) = Some s →
  nltb (nabs (nsub (nZ (now w2)) (nZ (now w1)))) (nZ 60000) = true →
  ∃ e,
    posted (@clearAuthenticatedClientState P1 true w1) = posted w1 ++ [e] ∧
    let w2' := @deliver P2 (sync_event_value e) w2 in
    store w2' = reset complete (store w2) ∧ ClearQueries ∈ effects w2' ∧
    last (effects w2') = Some NavigateToSignIn ∧ posted w2' = posted w2 ∧
    ∀ w, @deliver P1 (sync_event_value e) w = w.
Proof.
  intros RW HW HS S1 S2 T.
  pose proof (session_sid_nonempty _ (ok_credentials _ (reachable_ok _ RW))) as NE.
  destruct s as [|c s]; [by rewrite S1 in NE|].
  exists (@sign_out_event P1 (c :: s) w1). unfold clearAuthenticatedClientState at 1.
  rewrite (posted_clear _ s c) by done. split; [done|].
  assert (event_sid (@sign_out_event P1 (c :: s) w1) ≠ []) as N by done.
  assert (@deliver P2 (sync_event_value (@sign_out_event P1 (c :: s) w1)) w2
          = emit NavigateToSignIn (clearAuthenticatedClientState false w2)) as ->.
  { rewrite deliver_event by done. unfold onAuthSessionEvent. cbn [kind sign_out_event].
    rewrite S2. cbn [event_sid sign_out_event]. by rewrite jseq_refl. }
  conjs.
  - cbn. unfold clearAuthenticatedClientState. by rewrite store_clearAuthentication.
  - cbn. unfold clearAuthenticatedClientState, clearAuthentication, set_state.
    case_decide; cbn; set_solver.
  - cbn. by rewrite last_snoc.
  - cbn. unfold clearAuthenticatedClientState. by rewrite posted_clear_local.
  - intros w. destruct (sync_event_round_trip _ N) as [_ R]. by eapply deliver_own.
Qed.

Lemma tabs_sign_out_together_witness :
  let P1 := sample_platform (js "first") in
  let P2 := sample_platform (js "second") in
  let login := [Act (Login (sample_bundle (js "t") (js "session-a")))] in
  ∃ e, posted (@clearAuthenticatedClientState P1 true (@after P1 login 1000))
       = posted (@after P1 login 1000) ++ [e] ∧
       store (@deliver P2 (sync_event_value e) (@after P2 login 2000))
       = reset complete (store (@after P2 login 2000)).
Proof.
  intros P1 P2 login.
  destruct (tabs_sign_out_together P1 P2 (@after P1 login 1000) (@after P2 login 2000)
    (js "session-a")) as (e & E & S & _);
    [apply reachable_after; vm_compute; eauto|reflexivity|vm_compute; discriminate|
     vm_compute; reflexivity..|].
  exists e. split; [exact E|exact S].
Defined.

(** *** Cookies *)

(** A cookie jar as [document.cookie] prints it. *)
Definition cookie_pair (c : jsstr * jsstr) : jsstr := fst c ++ cu "=" :: snd c.
Definition cookie_text (cookies : list (jsstr * jsstr)) : jsstr :=
  join (js "; ") (map cookie_pair cookies).
Definition cookie_ok (c : jsstr * jsstr) : bool :=
  negb (existsb (N.eqb (cu "=")) (fst c)) && negb (existsb (N.eqb (cu ";")) (cookie_pair c)) &&
  trimmed (fst c) && trimmed (snd c).

Lemma not_exists_eqb c s : existsb (N.eqb c) s = false → c ∉ s.
Proof.
  intros E I. apply list_elem_of_In in I.
  enough (existsb (N.eqb c) s = true) by congruence.
  apply existsb_exists. exists c. by rewrite N.eqb_refl.
Qed.

Lemma join_semicolon p ps :
  join (js "; ") (p :: ps) = join [cu ";"] (p :: map (cons 32%N) ps).
Proof.
  revert p. induction ps as [|q ps IH]; intros p; [done|].
  change (p ++ js "; " ++ join (js "; ") (q :: ps)
          = p ++ [cu ";"] ++ join [cu ";"] (map (cons 32%N) (q :: ps))).
  rewrite IH. cbn [map]. by destruct ps.
Qed.

Lemma trim_space s : trim (32%N :: s) = trim s.
Proof. reflexivity. Qed.

Lemma cookie_part c sp parts name :
  cookie_ok c = true → sp = [] ∨ sp = [32%N] →
  read_parts ((sp ++ cookie_pair c) :: parts) name =
  if jseq (fst c) name then Some (snd c) else read_parts parts name.
Proof.
  unfold cookie_ok, trimmed. destruct c as [n v]. cbn [fst snd]. intros C SP. bools.
  assert (cu "=" ∉ n) as NE by auto using not_exists_eqb.
  cbn [read_parts]. unfold cookie_pair. cbn [fst snd]. rewrite app_assoc.
  rewrite index_of_app by (destruct SP as [-> | ->]; set_solver).
  rewrite take_app_length.
  replace (drop (S (length (sp ++ n))) ((sp ++ n) ++ cu "=" :: v)) with v
    by (rewrite cons_middle, app_assoc, drop_app_length'; [done|rewrite !length_app; cbn; lia]).
  replace (trim (sp ++ n)) with n
    by (destruct SP as [-> | ->]; cbn [app]; rewrite ?trim_space; symmetry; by apply jseq_eq).
  replace (trim v) with v by (symmetry; by apply jseq_eq).
  by destruct (jseq n name).
Qed.

Lemma cookie_parts cookies name :
  Forall (λ c, cookie_ok c = true) cookies →
  read_parts (map (λ c, 32%N :: cookie_pair c) cookies) name =
  snd <$> find (λ c, jseq (fst c) name) cookies.
Proof.
  induction 1 as [|c cookies C _ IH]; [done|]. cbn [map find].
  rewrite (cookie_part c [32%N]) by auto. destruct (jseq (fst c) name); [done|apply IH].
Qed.

Lemma cookie_ok_semicolon c : cookie_ok c = true → cu ";" ∉ cookie_pair c.
Proof. unfold cookie_ok. intros C. bools. auto using not_exists_eqb. Qed.

(** Reading a cookie inverts printing the jar: in the text the browser
    shows for a list of cookies (names without [=] or [;], values without
    [;], none with blanks around it), [readCookie] finds the value of the
    first cookie of that name and nothing when there is none. *)
Theorem cookies_read_back cookies name :
  Forall (λ c, cookie_ok c = true) cookies →
  readCookie (cookie_text cookies) name = snd <$> find (λ c, jseq (fst c) name) cookies.
Proof.
  intros C. unfold readCookie, cookie_text. destruct C as [|c cookies C CS]; [done|].
  cbn [map]. rewrite join_semicolon, split_on_join, map_map; [|done|].
  - change (cookie_pair c :: map (λ x, 32%N :: cookie_pair x) cookies)
      with (([] ++ cookie_pair c) :: map (λ x, 32%N :: cookie_pair x) cookies).
    rewrite cookie_part by auto. cbn [find]. destruct (jseq (fst c) name); [done|].
    by apply cookie_parts.
  - constructor; [by apply cookie_ok_semicolon|]. rewrite map_map. apply Forall_map.
    eapply Forall_impl; [exact CS|]. intros d D. cbn.
    apply not_elem_of_cons. split; [done|by apply cookie_ok_semicolon].
Qed.

Lemma cookies_read_back_witness :
  let jar := [(js "theme", js "dark"); (js "new_api_has_session", js "1"); (js "theme", js "light")] in
  readCookie (cookie_text jar) (js "theme") = Some (js "dark") ∧
  hasSessionHint (Some (cookie_text jar)) = true.
Proof.
  intros jar. split.
  - rewrite (cookies_read_back jar); [reflexivity|]. repeat constructor.
  - vm_compute. reflexivity.
Defined.

(** A rejected lock request escapes the error handling.  When the browser
    refuses the lock of a refresh, the promise every caller awaits is rejected
    with that error and the check is left in the state [checking]; the
    handler that would report a transient error and set [idle] is not run,
    because the promise is returned, not awaited, inside the [try]. *)
Theorem lock_failure_escapes `{Platform} w err :
  has_locks = true → refreshPromise w = None → currentValidAuthBundle w = None →
  bootstrapState (store w) ≠ complete →
  ∃ w1 i w2 e,
    resolveAuthentication w = (w1, inr i) ∧ resume (LockFailed i err) w1 = Some w2 ∧
    refreshes w2 !! i = Some {| refreshEpoch := e; pc := LockRejected err |} ∧
    bootstrapState (store w2) = checking.
Proof.
  intros HL P B N. unfold resolveAuthentication. rewrite B.
  rewrite (bool_decide_eq_false_2 _ N). cbn [andb].
  unfold refreshAuthentication, performRefreshWithBrowserLock.
  rewrite (same_promise _ _ (set_state_same _ _)), P, HL. cbn.
  eexists _, _, _, _. split; [reflexivity|]. cbn. rewrite lookup_insert_eq.
  split; [reflexivity|]. cbn. rewrite lookup_insert_eq. split; [reflexivity|].
  by rewrite store_set_state.
Qed.

Lemma lock_failure_escapes_witness :
  let _ := locking_platform (js "tab") in
  ∃ w1 i w2 e,
    resolveAuthentication (initial_world 0) = (w1, inr i) ∧
    resume (LockFailed i (JStr (js "SecurityError"))) w1 = Some w2 ∧
    refreshes w2 !! i
      = Some {| refreshEpoch := e; pc := LockRejected (JStr (js "SecurityError")) |} ∧
    bootstrapState (store w2) = checking.
Proof.
  intros P. apply (lock_failure_escapes (initial_world 0) (JStr (js "SecurityError")));
    [reflexivity..|discriminate].
Defined.

(** *** The published test cases

    [auth-session.test.ts] drives the runner with a recording runtime. *)
Record recorder : Type := {
  rec_expected : option jsstr;
  rec_clears : list (bool * option AuthBootstrapState);
  rec_accepted : list AuthBundle;
  rec_transients : nat;
}.
Definition fresh_recorder (expected : option jsstr) : recorder :=
  {| rec_expected := expected; rec_clears := []; rec_accepted := []; rec_transients := 0 |}.

Definition recording_runtime : AuthRefreshRuntime recorder :=
  {| getExpectedSID := rec_expected;
     rt_parseBundle := parseBundle;
     acceptBundle := λ b r,
       {| rec_expected := rec_expected r; rec_clears := rec_clears r;
          rec_accepted := rec_accepted r ++ [b]; rec_transients := rec_transients r |};
     rt_clear := λ sync b r,
       {| rec_expected := None; rec_clears := rec_clears r ++ [(sync, b)];
          rec_accepted := rec_accepted r; rec_transients := rec_transients r |};
     markTransient := λ r,
       {| rec_expected := rec_expected r; rec_clears := rec_clears r;
          rec_accepted := rec_accepted r; rec_transients := S (rec_transients r) |};
     isCurrent := None |}.

Definition plain (s : Z) (d : jsval) : AuthRefreshHTTPResponse :=
  {| status := s; data := d; error := JUndefined |}.
Definition coded (c : jsstr) : jsval := JObj [(js "code", JStr c)].
Definition the_bundle : option AuthBundle := parseBundle (sample_bundle (js "t") (js "session-a")).

(** The visible result of a test: the clears, the accepted bundles, the
    number of transient marks, the stops and the outcome. *)
Definition observe (r : option (recorder * list suspension * RefreshOutcome)) :=
  (λ '(w, stops, o), (rec_clears w, rec_accepted w, rec_transients w, stops, o)) <$> r.
Definition test (answers : list AuthRefreshHTTPResponse) :=
  observe (createRefreshRunner recording_runtime answers (fresh_recorder (Some (js "session-a")))).

(** The model of the refresh runner reproduces the published test cases:
    a mismatch clears locally and retries once without the stale session, a
    401 clears and synchronises, 503 and 429 are transient and clear nothing,
    an exhausted race waits 80, 200 and 500 ms and then clears, and an
    unexpected success is out of sync. *)
Theorem refresh_tests_reproduced :
  (∃ b, the_bundle = Some b ∧
    test [plain 409 (coded (js "AUTH_SESSION_MISMATCH")); plain 200 (sample_success (js "t") (js "session-a"))]
    = Some ([(false, Some idle)], [b], 0,
            [Requesting (Some (js "session-a")) 0 true; Requesting None 0 false], Authenticated b)) ∧
  test [plain 401 JUndefined]
  = Some ([(true, None)], [], 0, [Requesting (Some (js "session-a")) 0 true], Anonymous) ∧
  test [{| status := 503; data := JUndefined; error := JStr (js "unavailable") |}]
  = Some ([], [], 1, [Requesting (Some (js "session-a")) 0 true],
          TransientError (ErrorValue (JStr (js "unavailable")))) ∧
  test [plain 429 JUndefined]
  = Some ([], [], 1, [Requesting (Some (js "session-a")) 0 true],
          TransientError (ErrorValue JUndefined)) ∧
  test (replicate 4 (plain 409 (coded (js "AUTH_REFRESH_RACE"))))
  = Some ([(false, None)], [], 0,
          [Requesting (Some (js "session-a")) 0 true; Waiting 80 1 true;
           Requesting (Some (js "session-a")) 1 true; Waiting 200 2 true;
           Requesting (Some (js "session-a")) 2 true; Waiting 500 3 true;
           Requesting (Some (js "session-a")) 3 true],
          OutOfSync (Some (js "AUTH_REFRESH_RACE"))) ∧
  test [plain 200 (JObj [(js "success", JBool true)])]
  = Some ([(false, None)], [], 0, [Requesting (Some (js "session-a")) 0 true],
          OutOfSync (Some (js "AUTH_INVALID_REFRESH_RESPONSE"))).
Proof.
  conjs; [|vm_compute; reflexivity..].
  eexists. split; vm_compute; reflexivity.
Qed.
