(* ===== verification/HttpClient.v ===== *)
(** * API requests of the console

    Models the interceptors and the request sharing of [lib/http-client.ts]
    and [executeLogout] of [features/auth/api.ts].

    A request is a [call]: its configuration (whose flags the interceptors
    assign), where it stands, and how often it went over the wire.  The
    asynchronous interceptors are cut at their [await]s, as the refresh is in
    [AuthSession]; the state they share with it is the tab's [world]. *)
From stdpp Require Import base list option numbers sets gmap.
From Stdlib Require Import ZArith SpecFloat Lia.
From S2P Require Import Prelude.
From S2P Require Import JsString.
From S2P Require Import JsNumber.
From S2P Require Import Runtime.
From S2P Require Import JsText.
From S2P Require Import AuthStore.
From S2P Require Import AuthSession.

(** The flags of a request that the client reads; [has_proof] is
    [config.headers.has('X-Security-Proof')], [authorization] is the header
    the client sets. *)
Record ApiRequestConfig : Type := {
  skipErrorHandler : bool;
  skipAuthRefresh : bool;
  authRetry : bool;
  acceptAuthRotation : bool;
  singleUseAuthorization : bool;
  has_proof : bool;
  authorization : option jsstr;
}.

Definition set_skipAuthRefresh (c : ApiRequestConfig) : ApiRequestConfig :=
  {| skipErrorHandler := skipErrorHandler c; skipAuthRefresh := true; authRetry := authRetry c;
     acceptAuthRotation := acceptAuthRotation c; singleUseAuthorization := singleUseAuthorization c;
     has_proof := has_proof c; authorization := authorization c |}.
Definition set_authRetry (c : ApiRequestConfig) : ApiRequestConfig :=
  {| skipErrorHandler := skipErrorHandler c; skipAuthRefresh := skipAuthRefresh c; authRetry := true;
     acceptAuthRotation := acceptAuthRotation c; singleUseAuthorization := singleUseAuthorization c;
     has_proof := has_proof c; authorization := authorization c |}.
Definition set_authorization (a : jsstr) (c : ApiRequestConfig) : ApiRequestConfig :=
  {| skipErrorHandler := skipErrorHandler c; skipAuthRefresh := skipAuthRefresh c;
     authRetry := authRetry c; acceptAuthRotation := acceptAuthRotation c;
     singleUseAuthorization := singleUseAuthorization c;
     has_proof := has_proof c; authorization := Some a |}.

(** How a call ends. *)
Inductive call_result : Type :=
| Answered (body : jsval)
| HttpFailure (status : option Z)
| RotationFailure (message : jsstr)
| HeadersFailure (e : headers_error)
| RefreshRejected (e : jsval).

(** Where a call stands: the request interceptor awaits fresh headers, the
    request is on the wire, the error interceptor awaits a refresh (the
    refresh's number is given), or the caller has its result. *)
Inductive call_state : Type :=
| AwaitingHeaders (i : nat)
| OnWire
| AwaitingRefresh (i : nat) (status : Z)
| Finished (r : call_result).

Record call : Type := { config : ApiRequestConfig; state : call_state; sends : nat }.

Definition finish (c : call) (r : call_result) : call :=
  {| config := config c; state := Finished r; sends := sends c |}.
Definition send (cfg : ApiRequestConfig) (c : call) : call :=
  {| config := cfg; state := OnWire; sends := S (sends c) |}.

Section Client.
Context `{Platform}.

(** The [Authorization] entry of a list of headers, set on the request. *)
Definition set_headers (hs : list (jsstr * jsstr)) (cfg : ApiRequestConfig) : ApiRequestConfig :=
  match find (λ h, jseq (fst h) (js "Authorization")) hs with
  | Some (_, v) => set_authorization v cfg
  | None => cfg
  end.

(** The request interceptor, up to its [await] *)
Definition request_interceptor (c : call) (w : world) : world * call :=
  let cfg := config c in
  if singleUseAuthorization cfg || has_proof cfg then
    let cfg := set_skipAuthRefresh cfg in
    match getFreshAuthHeaders w with
    | (w, inl headers) => (w, send (set_headers headers cfg) c)
    | (w, inr i) => (w, {| config := cfg; state := AwaitingHeaders i; sends := sends c |})
    end
  else
    match accessToken (store w) with
    | Some (ch :: t) => (w, send (set_authorization (js "Bearer " ++ ch :: t) cfg) c)
    | _ => (w, send cfg c)
    end.

(** ... and from its [await] on *)
Definition headers_ready (c : call) (r : RefreshOutcome + jsval) (w : world) : world * call :=
  match r with
  | inr e => (w, finish c (RefreshRejected e))
  | inl outcome =>
      match freshHeadersAfter outcome w with
      | Ok headers => (w, send (set_headers headers (config c)) c)
      | Err e => (w, finish c (HeadersFailure e))
      end
  end.

(** The response interceptor for a successful response *)
Definition response_interceptor (c : call) (body : jsval) (w : world) : world * call :=
  match acceptAuthRotation (config c), prop body (js "success") with
  | true, JBool true =>
      match applyAuthRotation (prop body (js "data")) w with
      | Ok w => (w, finish c (Answered body))
      | Err message => (w, finish c (RotationFailure message))
      end
  | _, _ => (w, finish c (Answered body))
  end.

Definition report (c : call) (w : world) : world :=
  if skipErrorHandler (config c) then w else emit ShowSessionExpired w.

(** [at_sign_in]: [window.location.pathname === '/sign-in'] *)
Definition redirectToSignIn (at_sign_in : bool) (w : world) : world :=
  if has_window && negb at_sign_in then emit RedirectToSignIn w else w.

(** The response interceptor for an error, up to its [await]; the status is
    [None] when there is no response. *)
Definition error_interceptor (at_sign_in : bool) (c : call) (status : option Z) (w : world) :
    world * call :=
  let cfg := config c in
  match status with
  | Some 401%Z =>
      if negb (skipAuthRefresh cfg) && negb (authRetry cfg) then
        let '(w, i) := refreshAuthentication w in
        (w, {| config := set_authRetry cfg; state := AwaitingRefresh i 401; sends := sends c |})
      else if authRetry cfg then
        let w := clearAuthentication false complete w in
        (redirectToSignIn at_sign_in (report c w), finish c (HttpFailure status))
      else (report c w, finish c (HttpFailure status))
  | _ => (w, finish c (HttpFailure status))
  end.

(** ... and from its [await] on.  [api.request(config)] runs the request
    interceptor again. *)
Definition refreshed (at_sign_in : bool) (c : call) (status : Z) (r : RefreshOutcome + jsval)
    (w : world) : world * call :=
  match r with
  | inr e => (w, finish c (RefreshRejected e))
  | inl (Authenticated _) =>
      let cfg := match accessToken (store w) with
                 | Some (ch :: t) => set_authorization (js "Bearer " ++ ch :: t) (config c)
                 | _ => config c
                 end in
      request_interceptor {| config := cfg; state := state c; sends := sends c |} w
  | inl Anonymous | inl (OutOfSync _) =>
      (redirectToSignIn at_sign_in (report c w), finish c (HttpFailure (Some status)))
  | inl (TransientError _) => (w, finish c (HttpFailure (Some status)))
  end.

(** What can happen to a call. *)
Inductive call_event : Type :=
| ResponseOk (body : jsval)
| ResponseError (at_sign_in : bool) (status : option Z)
| RefreshDone (at_sign_in : bool).

(** The result of refresh [i], once its promise is released. *)
Definition refresh_result (i : nat) (w : world) : option (RefreshOutcome + jsval) :=
  snd <$> find (λ e, fst e =? i) (settled w).

Definition call_step (e : call_event) (p : world * call) : option (world * call) :=
  let '(w, c) := p in
  match state c, e with
  | OnWire, ResponseOk body => Some (response_interceptor c body w)
  | OnWire, ResponseError at_sign_in status => Some (error_interceptor at_sign_in c status w)
  | AwaitingHeaders i, RefreshDone _ =>
      r ← refresh_result i w; Some (headers_ready c r w)
  | AwaitingRefresh i status, RefreshDone at_sign_in =>
      r ← refresh_result i w; Some (refreshed at_sign_in c status r w)
  | _, _ => None
  end.

(** A call among the other events of the tab. *)
Inductive client_event : Type :=
| CallEvent (e : call_event)
| TabEvent (e : event).

Definition client_step (e : client_event) (p : world * call) : option (world * call) :=
  match e with
  | CallEvent e => call_step e p
  | TabEvent e => w ← step e (fst p); Some (w, snd p)
  end.

Fixpoint client_exec (es : list client_event) (p : world * call) : option (world * call) :=
  match es with
  | [] => Some p
  | e :: es => p' ← client_step e p; client_exec es p'
  end.

(** [api.request(config)] *)
Definition request_call (cfg : ApiRequestConfig) (w : world) : world * call :=
  request_interceptor {| config := cfg; state := OnWire; sends := 0 |} w.

End Client.

(** ** Sharing of concurrent reads

    [api.get]: requests with the same key share one promise until it
    settles.  [inFlightGet] maps keys to promises, numbered here. *)
Record get_world : Type := {
  inFlightGet : gmap jsstr nat;
  running_gets : gmap nat jsstr;
  next_get : nat;
}.

(** [session?.sid || 'anonymous'] *)
Definition session_key (s : option jsstr) : jsstr :=
  match s with Some (c :: t) => c :: t | _ => js "anonymous" end.

(** The key; [params] is [JSON.stringify(config.params)], if there are any. *)
Definition get_key (s : option jsstr) (url : jsstr) (params : option jsstr) : jsstr :=
  session_key s ++ js ":" ++ url ++ js "?" ++ default (js "{}") params.

(** The call's promise; [disableDuplicate] requests are not shared. *)
Definition api_get (s : option jsstr) (url : jsstr) (params : option jsstr)
    (disableDuplicate : bool) (g : get_world) : get_world * nat :=
  let key := get_key s url params in
  if disableDuplicate then
    ({| inFlightGet := inFlightGet g; running_gets := running_gets g;
        next_get := S (next_get g) |}, next_get g)
  else
    match inFlightGet g !! key with
    | Some existingRequest => (g, existingRequest)
    | None =>
        let i := next_get g in
        ({| inFlightGet := <[key := i]> (inFlightGet g);
            running_gets := <[i := key]> (running_gets g); next_get := S i |}, i)
    end.

(** The [finally] callback of a shared request. *)
Definition get_settled (i : nat) (g : get_world) : option get_world :=
  key ← running_gets g !! i;
  Some {| inFlightGet := delete key (inFlightGet g); running_gets := delete i (running_gets g);
          next_get := next_get g |}.

Inductive get_event : Type :=
| Get (s : option jsstr) (url : jsstr) (params : option jsstr) (disableDuplicate : bool)
| GetSettled (i : nat).

Fixpoint get_exec (es : list get_event) (g : get_world) : option get_world :=
  match es with
  | [] => Some g
  | Get s url params dup :: es => get_exec es (fst (api_get s url params dup g))
  | GetSettled i :: es => g' ← get_settled i g; get_exec es g'
  end.

Definition no_gets : get_world := {| inFlightGet := ∅; running_gets := ∅; next_get := 0 |}.

(** ** Signing out

    [executeLogout] over the results of its requests and refreshes. *)
Inductive logout_error : Type :=
| AxiosFailure (response : option (Z * jsval))
| OtherFailure (e : jsval).

(** [status === 409 && code === 'AUTH_SESSION_MISMATCH'] of an axios error *)
Definition is_mismatch (e : logout_error) : bool :=
  match e with
  | AxiosFailure (Some (status, body)) =>
      (status =? 409)%Z && is_literal (prop body (js "code")) (js "AUTH_SESSION_MISMATCH")
  | _ => false
  end.

(** The function with the answers of its [n]-th request and of its refresh. *)
Fixpoint executeLogout (fuel : nat) (request : nat → result logout_error jsval)
    (refresh : RefreshOutcome) (n : nat) (allowMismatchRecovery : bool) :
    option (result logout_error jsval * nat) :=
  match fuel with
  | 0 => None
  | S fuel =>
      match request n with
      | Ok response => Some (Ok response, S n)
      | Err e =>
          if allowMismatchRecovery && is_mismatch e then
            match refresh with
            | Authenticated _ => executeLogout fuel request refresh (S n) false
            | Anonymous =>
                Some (Ok (JObj [(js "success", JBool true); (js "message", JStr [])]), S n)
            | _ => Some (Err e, S n)
            end
          else Some (Err e, S n)
      end
  end.
