(* ===== verification/HttpClientFacts.v ===== *)
(** * Facts about API requests

    A request is repeated at most once and carries the current token, reads
    are never shared across sessions, and signing out takes at most two
    requests. *)
From stdpp Require Import base list option numbers sets gmap.
From Stdlib Require Import ZArith SpecFloat Lia.
From S2P Require Import Prelude.
From S2P Require Import JsString.
From S2P Require Import JsNumber.
From S2P Require Import Runtime.
From S2P Require Import JsText.
From S2P Require Import AuthStore.
From S2P Require Import AuthSession.
From S2P Require Import AuthSessionFacts.
From S2P Require Import AuthSessionTheorems.
From S2P Require Import HttpClient.

(** ** Repetition *)

(** Requests that must never be replayed. *)
Definition single_use (cfg : ApiRequestConfig) : bool :=
  singleUseAuthorization cfg || has_proof cfg.

(** What holds of a call at each of its stops: [r] says whether it has been
    repeated, [k] whether it is exempt from repetition. *)
Definition stop_ok (s : call_state) (n : nat) (r k single : bool) : bool :=
  match s with
  | AwaitingHeaders _ => (n =? 0) && k
  | OnWire => ((n =? 1) || (n =? 2) && r && negb k) && (negb single || k)
  | AwaitingRefresh _ _ => (n =? 1) && r && negb single && negb k
  | Finished _ => (n <=? if k then 1 else 2) && (negb single || k)
  end.
Definition call_ok (c : call) : bool :=
  stop_ok (state c) (sends c) (authRetry (config c)) (skipAuthRefresh (config c))
          (single_use (config c)).

(** The flags a call started with still bind it. *)
Definition flags_kept (cfg : ApiRequestConfig) (c : call) : Prop :=
  single_use (config c) = single_use cfg ∧
  (skipAuthRefresh cfg = true → skipAuthRefresh (config c) = true).

(** Setting headers touches no flag. *)
Lemma set_headers_cases hs cfg :
  set_headers hs cfg = cfg ∨ ∃ a, set_headers hs cfg = set_authorization a cfg.
Proof. unfold set_headers. repeat case_match; eauto. Qed.

Ltac no_headers :=
  match goal with |- context [set_headers ?hs ?cfg] =>
    destruct (set_headers_cases hs cfg) as [-> | [? ->]] end.

Section Client.
Context `{Platform}.

(** The request interceptor, called before the first send or before the
    second one of a call that may be repeated. *)
Lemma request_interceptor_ok c w cfg :
  flags_kept cfg c →
  sends c = 0 ∨ sends c = 1 ∧ authRetry (config c) = true ∧ single_use (config c) = false ∧
                skipAuthRefresh (config c) = false →
  let c' := snd (request_interceptor c w) in call_ok c' = true ∧ flags_kept cfg c'.
Proof.
  destruct c as [[e k r a u p au] st n]. unfold flags_kept, call_ok, request_interceptor, single_use.
  cbn. intros [F1 F2] N.
  destruct (u || p) eqn:U.
  - destruct N as [-> |(_ & _ & N & _)]; [|done].
    destruct (getFreshAuthHeaders w) as [w' [hs|i]]; cbn -[set_headers].
    + no_headers; cbn; rewrite U; by split.
    + rewrite U. by split.
  - assert (stop_ok OnWire (S n) r k (u || p) = true) as G.
    { rewrite U. by destruct N as [-> |(-> & -> & _ & ->)]. }
    rewrite U in *. repeat case_match; cbn; rewrite ?U; auto.
Qed.

Lemma finish_ok c r : call_ok c = true → call_ok (finish c r) = true.
Proof.
  destruct c as [cfg st n]. unfold call_ok, stop_ok. cbn.
  destruct (single_use cfg), (skipAuthRefresh cfg), (authRetry cfg), st; cbn; intros C;
    rewrite ?andb_true_r, ?andb_false_r, ?orb_false_r in *; try done;
    repeat match goal with H : _ || _ = true |- _ => apply orb_true_iff in H as [H|H] end;
    bools; subst; done.
Qed.

Lemma call_step_ok cfg e w c w' c' :
  call_ok c = true → flags_kept cfg c → call_step e (w, c) = Some (w', c') →
  call_ok c' = true ∧ flags_kept cfg c'.
Proof.
  intros C F. cbn.
  assert (∀ r, call_ok (finish c r) = true ∧ flags_kept cfg (finish c r)) as G
    by (split; [by apply finish_ok|done]).
  destruct (state c) as [i| |i st|r] eqn:T; [| | |done]; destruct e as [body|a st'|a]; try done.
  - intros ([o|err] & _ & E%(inj Some))%bind_Some; unfold headers_ready in E;
      [|by injection E as <- <-].
    case_match; injection E as <- <-; [|apply G].
    revert C F. unfold call_ok, flags_kept. rewrite T. cbn -[set_headers].
    no_headers; cbn; intros C F; bools; (split; [|done]);
      repeat match goal with H : _ = _ |- _ => rewrite H end; by rewrite orb_true_r.
  - intros E%(inj Some). unfold response_interceptor in E.
    repeat case_match; injection E as <- <-; apply G.
  - intros E%(inj Some). unfold error_interceptor in E.
    destruct (decide (st' = Some 401%Z)) as [-> |N].
    + destruct (negb _ && negb _) eqn:B.
      * destruct (refreshAuthentication w) as [w1 i]. injection E as <- <-. bools.
        revert C F. unfold call_ok, flags_kept. rewrite T. cbn.
        change (single_use (set_authRetry (config c))) with (single_use (config c)).
        repeat match goal with H : _ = false |- _ => rewrite H end.
        rewrite !andb_false_r, orb_false_r. cbn. intros C F. bools. split; [|done].
        destruct (single_use (config c)); [done|]. by repeat match goal with H : sends c = _ |- _ => rewrite H end.
      * case_match; injection E as <- <-; apply G.
    + assert (E' : (w, finish c (HttpFailure st')) = (w', c')).
      { rewrite <- E. repeat case_match; congruence. }
      injection E' as <- <-. apply G.
  - intros ([[b| | |]|err] & _ & E%(inj Some))%bind_Some; unfold refreshed in E;
      try (injection E as <- <-; apply G).
    change c' with (snd (w', c')). rewrite <- E. clear E.
    revert C F. unfold call_ok, flags_kept. rewrite T. cbn. intros C F. bools. subst.
    apply request_interceptor_ok; [|right]; repeat case_match; cbn; auto.
Qed.

Lemma client_step_ok cfg e p p' :
  call_ok (snd p) = true → flags_kept cfg (snd p) → client_step e p = Some p' →
  call_ok (snd p') = true ∧ flags_kept cfg (snd p').
Proof.
  destruct p as [w c], p' as [w' c'], e; cbn [snd client_step fst].
  - apply call_step_ok.
  - intros C F (w1 & _ & [= <- <-])%bind_Some. auto.
Qed.

Lemma client_exec_ok cfg es p p' :
  call_ok (snd p) = true → flags_kept cfg (snd p) → client_exec es p = Some p' →
  call_ok (snd p') = true ∧ flags_kept cfg (snd p').
Proof.
  revert p. induction es as [|e es IH]; intros p C F; cbn; [by intros [= <-]|].
  intros (p1 & S & X)%bind_Some. destruct (client_step_ok cfg e p p1 C F S). eauto.
Qed.

Lemma call_ok_sends c :
  call_ok c = true →
  sends c ≤ 2 ∧ (single_use (config c) || skipAuthRefresh (config c) = true → sends c ≤ 1).
Proof.
  unfold call_ok, stop_ok. intros C.
  destruct (single_use (config c)), (skipAuthRefresh (config c)), (authRetry (config c)), (state c);
    cbn in *; rewrite ?andb_true_r, ?andb_false_r, ?orb_false_r in *; try done;
    repeat match goal with H : _ || _ = true |- _ => apply orb_true_iff in H as [H|H] end;
    bools; lia.
Qed.

(** ** Authorization *)

(** The header a request leaves with: the token of the store at that time. *)
Definition bearer (state : AuthState) : option jsstr :=
  match accessToken state with Some (c :: t) => Some (js "Bearer " ++ c :: t) | _ => None end.

Lemma set_headers_common w cfg :
  authorization (set_headers (getCommonHeaders w) cfg)
  = match bearer (store w) with Some b => Some b | None => authorization cfg end.
Proof. unfold set_headers, getCommonHeaders, bearer. by destruct (accessToken (store w)) as [[|]|]. Qed.

Lemma fresh_headers_common w w' hs :
  getFreshAuthHeaders w = (w', inl hs) → w' = w ∧ hs = getCommonHeaders w.
Proof. unfold getFreshAuthHeaders. repeat case_match; naive_solver. Qed.

Lemma fresh_headers_after o w hs : freshHeadersAfter o w = Ok hs → hs = getCommonHeaders w.
Proof. unfold freshHeadersAfter. repeat case_match; naive_solver. Qed.

Lemma request_interceptor_bearer c w w' c' :
  request_interceptor c w = (w', c') → state c' = OnWire →
  sends c' = S (sends c) ∧ w' = w ∧
  authorization (config c')
  = match bearer (store w) with Some b => Some b | None => authorization (config c) end.
Proof.
  unfold request_interceptor. case_match.
  - destruct (getFreshAuthHeaders w) as [w1 [hs|i]] eqn:G; intros [= <- <-]; [|done].
    intros _. apply fresh_headers_common in G as [-> ->]. cbn -[set_headers].
    by rewrite set_headers_common.
  - unfold bearer. repeat case_match; intros [= <- <-] _; done.
Qed.

End Client.

(** ** Claims *)

(** C20: a request of the API client goes over the wire at most twice, the
    second time only after a refresh; a request that spends a single-use
    authorization (or is exempt from refreshing) is never repeated.  This
    holds however its answers, refreshes and the other events of the tab
    interleave. *)
Theorem request_repeated_at_most_once `{Platform} cfg w es w' c :
  client_exec es (request_call cfg w) = Some (w', c) →
  sends c ≤ 2 ∧ (single_use cfg || skipAuthRefresh cfg = true → sends c ≤ 1).
Proof.
  intros X.
  destruct (request_interceptor_ok {| config := cfg; state := OnWire; sends := 0 |} w cfg)
    as [C F]; [by split|by left|].
  eapply client_exec_ok in X as [C' [F1 F2]]; [|exact C|exact F].
  apply call_ok_sends in C' as [S1 S2]. split; [done|]. cbn in *.
  intros U. apply S2. rewrite F1. apply orb_true_iff in U as [U|U]; apply orb_true_iff; auto.
Qed.

(** Every send carries the token that is current when it leaves.
    Whenever a call goes on the wire again, its [Authorization] header is the
    bearer token the store holds at that moment, if it holds one. *)
Theorem sends_carry_current_token `{Platform} e w c w' c' b :
  call_step e (w, c) = Some (w', c') → sends c' ≠ sends c → bearer (store w') = Some b →
  authorization (config c') = Some b.
Proof.
  intros S N B. cbn in S.
  destruct (state c) as [i| |i st|r] eqn:T; [| | |done]; destruct e as [body|a st'|a]; try done.
  - apply bind_Some in S as ([o|err] & _ & E%(inj Some)); unfold headers_ready in E;
      [|by injection E as <- <-].
    destruct (freshHeadersAfter o w) eqn:G; injection E as <- <-; [|done].
    apply fresh_headers_after in G as ->. cbn -[set_headers]. rewrite set_headers_common. by rewrite B.
  - apply (inj Some) in S. unfold response_interceptor in S.
    repeat case_match; injection S as <- <-; done.
  - apply (inj Some) in S. unfold error_interceptor in S.
    destruct (refreshAuthentication w). repeat case_match; injection S as <- <-; done.
  - apply bind_Some in S as ([[b'| | |]|err] & _ & E%(inj Some)); unfold refreshed in E;
      try (injection E as <- <-; done).
    destruct (state c') eqn:T'.
    + exfalso. apply N. revert E. unfold request_interceptor.
      repeat case_match; intros [= <- <-]; done.
    + apply request_interceptor_bearer in E as (_ & -> & ->); [|done]. by rewrite B.
    + exfalso. revert E. unfold request_interceptor. repeat case_match; by intros [= <- <-].
    + exfalso. revert E. unfold request_interceptor. repeat case_match; by intros [= <- <-].
Qed.

(** A plain request, one that spends a proof, and a failed session. *)
Definition plain_request : ApiRequestConfig :=
  {| skipErrorHandler := false; skipAuthRefresh := false; authRetry := false;
     acceptAuthRotation := false; singleUseAuthorization := false; has_proof := false;
     authorization := None |}.
Definition login_events : list event := [Act (Login (sample_bundle (js "old") (js "session-a")))].
Definition refused_then_refreshed : list client_event :=
  [CallEvent (ResponseError false (Some 401%Z));
   TabEvent (Done (Response 0 (Resolved 200 (sample_success (js "new") (js "session-a")))));
   TabEvent (Done (Finally 0));
   CallEvent (RefreshDone false)].

Lemma request_repeated_at_most_once_witness :
  let _ := sample_platform (js "tab") in
  ∃ w c, client_exec refused_then_refreshed (request_call plain_request (after login_events 0))
         = Some (w, c) ∧ sends c = 2 ∧ sends c ≤ 2.
Proof.
  intros P.
  destruct (client_exec refused_then_refreshed (request_call plain_request (after login_events 0)))
    as [[w c]|] eqn:E; [|vm_compute in E; discriminate].
  exists w, c. split; [done|]. split.
  - vm_compute in E. injection E as <- <-. reflexivity.
  - exact (proj1 (request_repeated_at_most_once _ _ _ _ _ E)).
Defined.

Lemma sends_carry_current_token_witness :
  let _ := sample_platform (js "tab") in
  ∃ w c w' c',
    client_exec (take 3 refused_then_refreshed)
      (request_call plain_request (after login_events 0)) = Some (w, c) ∧
    call_step (RefreshDone false) (w, c) = Some (w', c') ∧
    authorization (config c') = Some (js "Bearer new").
Proof.
  intros P.
  destruct (client_exec (take 3 refused_then_refreshed)
    (request_call plain_request (after login_events 0))) as [[w c]|] eqn:E;
    [|vm_compute in E; discriminate].
  destruct (call_step (RefreshDone false) (w, c)) as [[w' c']|] eqn:F.
  - exists w, c, w', c'. split; [done|]. split; [done|].
    apply (sends_carry_current_token _ _ _ _ _ _ F); vm_compute in E; injection E as <- <-;
      vm_compute in F; injection F as <- <-; [vm_compute; discriminate|vm_compute; reflexivity].
  - vm_compute in E; injection E as <- <-. vm_compute in F. discriminate.
Defined.

(** A request that is refused again after its refresh signs the tab out:
    the store is emptied with the check complete, no event is posted to the
    other tabs, the user is told unless the caller asked for silence, and sent
    to the sign-in page unless already there. *)
Theorem refused_twice_signs_out `{Platform} at_sign_in w c w' c' :
  state c = OnWire → authRetry (config c) = true →
  call_step (ResponseError at_sign_in (Some 401%Z)) (w, c) = Some (w', c') →
  store w' = reset complete (store w) ∧ posted w' = posted w ∧
  state c' = Finished (HttpFailure (Some 401%Z)) ∧
  (skipErrorHandler (config c) = false → ShowSessionExpired ∈ effects w') ∧
  (has_window = true → at_sign_in = false → last (effects w') = Some RedirectToSignIn).
Proof.
  intros T R. cbn. rewrite T. unfold error_interceptor. rewrite R, andb_false_r.
  intros [= <- <-]. unfold redirectToSignIn, report.
  destruct (skipErrorHandler (config c)), has_window, at_sign_in; cbn;
    rewrite store_clearAuthentication, posted_clear_local; conjs; try done; intros;
    try (by rewrite last_snoc); set_solver.
Qed.

Lemma refused_twice_signs_out_witness :
  let _ := sample_platform (js "tab") in
  ∃ w c w' c',
    client_exec refused_then_refreshed (request_call plain_request (after login_events 0))
      = Some (w, c) ∧
    call_step (ResponseError false (Some 401%Z)) (w, c) = Some (w', c') ∧
    store w' = reset complete (store w).
Proof.
  intros P.
  destruct (client_exec refused_then_refreshed (request_call plain_request (after login_events 0)))
    as [[w c]|] eqn:E; [|vm_compute in E; discriminate].
  destruct (call_step (ResponseError false (Some 401%Z)) (w, c)) as [[w' c']|] eqn:F.
  - exists w, c, w', c'. split; [done|]. split; [done|].
    apply (refused_twice_signs_out _ _ _ _ _) in F; [apply F|..];
      vm_compute in E; injection E as <- <-; reflexivity.
  - vm_compute in E; injection E as <- <-. vm_compute in F. discriminate.
Defined.

(** ** Shared reads *)

(** The table holds exactly the shared requests that are running. *)
Definition gets_ok (g : get_world) : Prop :=
  (∀ k i, inFlightGet g !! k = Some i ↔ running_gets g !! i = Some k) ∧
  (∀ i k, running_gets g !! i = Some k → i < next_get g).

Lemma gets_ok_get s u p d g : gets_ok g → gets_ok (fst (api_get s u p d g)).
Proof.
  intros [B L]. unfold api_get. destruct d; [split; cbn; [done|]; intros i k E; apply L in E; lia|].
  destruct (inFlightGet g !! get_key s u p) as [e|] eqn:E; [done|]. split; cbn.
  - intros k i. rewrite !lookup_insert_Some, B. split.
    + intros [[<- <-]|[N R]]; [auto|]. right. split; [|done]. intros <-. apply L in R. lia.
    + intros [[<- <-]|[N R]]; [auto|]. right. split; [|done]. intros <-. apply B in R. congruence.
  - intros i k. rewrite lookup_insert_Some. intros [[<- <-]|[N R]]; [lia|]. apply L in R. lia.
Qed.

Lemma gets_ok_settled i g g' : gets_ok g → get_settled i g = Some g' → gets_ok g'.
Proof.
  intros [B L] (k & R & [= <-])%bind_Some. split; cbn.
  - intros k' j. rewrite !lookup_delete_Some, B. split; intros [N E]; (split; [|done]).
    + intros <-. congruence.
    + intros <-. apply B in E. apply B in R. congruence.
  - intros j k'. rewrite lookup_delete_Some. intros [_ E]. eauto.
Qed.

Lemma gets_ok_exec es g g' : gets_ok g → get_exec es g = Some g' → gets_ok g'.
Proof.
  revert g. induction es as [|[s u p d|i] es IH]; intros g OK; cbn.
  - by intros [= <-].
  - apply IH. by apply gets_ok_get.
  - intros (g1 & S & X)%bind_Some. eauto using gets_ok_settled.
Qed.

Lemma api_get_running s u p g g' i :
  gets_ok g → api_get s u p false g = (g', i) → running_gets g' !! i = Some (get_key s u p).
Proof.
  intros [B _]. unfold api_get. destruct (inFlightGet g !! _) eqn:E; intros [= <- <-].
  - by apply B.
  - cbn. by rewrite lookup_insert_eq.
Qed.

Lemma api_get_keeps s u p g g' i j k :
  gets_ok g → api_get s u p false g = (g', i) → running_gets g !! j = Some k →
  running_gets g' !! j = Some k.
Proof.
  intros [_ L]. unfold api_get. destruct (inFlightGet g !! _); intros [= <- <-] R; [done|]. cbn.
  rewrite lookup_insert_ne; [done|]. apply L in R. lia.
Qed.

Lemma key_session (sep : N) (a b c d : jsstr) :
  sep ∉ a → sep ∉ b → a ++ sep :: c = b ++ sep :: d → a = b.
Proof.
  intros Ha Hb E. pose proof (split_on_app sep a c Ha) as S1.
  rewrite E, split_on_app in S1 by done. congruence.
Qed.

(** Concurrent reads are shared exactly when they ask for the same thing,
    and never across sessions: after any history of reads, two callers get the
    same promise if and only if their keys (session, address, parameters) are
    equal, and then they belong to the same session. *)
Theorem reads_shared_within_session es g s1 u1 p1 s2 u2 p2 g1 i g2 j :
  get_exec es no_gets = Some g →
  cu ":" ∉ session_key s1 → cu ":" ∉ session_key s2 →
  api_get s1 u1 p1 false g = (g1, i) → api_get s2 u2 p2 false g1 = (g2, j) →
  (i = j ↔ get_key s1 u1 p1 = get_key s2 u2 p2) ∧
  (i = j → session_key s1 = session_key s2).
Proof.
  intros X N1 N2 G1 G2.
  assert (gets_ok g) as OK by (eapply gets_ok_exec; [|exact X]; split; intros ??; by rewrite ?lookup_empty).
  assert (gets_ok g1) as OK1 by (pose proof (gets_ok_get s1 u1 p1 false g OK) as O; by rewrite G1 in O).
  pose proof (api_get_running _ _ _ _ _ _ OK G1) as R1.
  pose proof (api_get_running _ _ _ _ _ _ OK1 G2) as R2.
  assert (i = j ↔ get_key s1 u1 p1 = get_key s2 u2 p2) as K.
  { split.
    - intros <-. pose proof (api_get_keeps _ _ _ _ _ _ _ _ OK1 G2 R1). congruence.
    - intros E. unfold api_get in G2. rewrite <- E in G2.
      rewrite (proj2 (proj1 OK1 _ _) R1) in G2. congruence. }
  split; [done|]. intros E%K. unfold get_key in E. exact (key_session _ _ _ _ _ N1 N2 E).
Qed.

Lemma reads_shared_within_session_witness :
  let g := no_gets in
  let r1 := api_get (Some (js "session-a")) (js "/api/user/self") None false g in
  let r2 := api_get (Some (js "session-b")) (js "/api/user/self") None false (fst r1) in
  snd r1 ≠ snd r2.
Proof.
  intros g r1 r2 E.
  destruct (reads_shared_within_session [] g (Some (js "session-a")) (js "/api/user/self") None
    (Some (js "session-b")) (js "/api/user/self") None (fst r1) (snd r1) (fst r2) (snd r2))
    as [_ S]; [reflexivity|apply not_exists_eqb; vm_compute; reflexivity|
               apply not_exists_eqb; vm_compute; reflexivity|reflexivity|reflexivity|].
  specialize (S E). vm_compute in S. discriminate.
Defined.

(** Signing out always comes to an end and reports a real answer: with
    any answers of the server and any outcome of the refresh, [executeLogout]
    sends at most two requests; it succeeds with the answer of one of them, or
    because the mismatched session turned out to be gone already, and it
    fails with the error of a request it sent. *)
Theorem logout_settles request refresh :
  ∃ r n, executeLogout 2 request refresh 0 true = Some (r, n) ∧ 1 ≤ n ≤ 2 ∧
  match r with
  | Ok v => (∃ k, k < n ∧ request k = Ok v) ∨
            (refresh = Anonymous ∧ (∃ e, request 0 = Err e ∧ is_mismatch e = true) ∧
             v = JObj [(js "success", JBool true); (js "message", JStr [])])
  | Err e => ∃ k, k < n ∧ request k = Err e
  end.
Proof.
  cbn. destruct (request 0) as [v|e] eqn:R0; [eexists _, _; split; [done|]; split; [lia|]; eauto|].
  destruct (is_mismatch e) eqn:M; cbn; [|eexists _, _; split; [done|]; split; [lia|]; eauto].
  destruct refresh; [|eexists _, _; split; [done|]; split; [lia|]; eauto 6..].
  destruct (request 1) as [v|e1] eqn:R1; eexists _, _; (split; [done|]); (split; [lia|]); eauto.
Qed.
