(* ===== verification/StatusRules.v ===== *)
(** * Lists of HTTP status codes

    Models [lib/http-status-code-rules.ts]: the text in which administrators
    write which status codes a channel reacts to ([401, 500-599]) is parsed,
    merged and printed back in a normal form.

    Codes are natural numbers: [Number.parseInt] is applied to texts of
    digits only, and its rounding of numbers beyond 2^53 cannot bring them
    into the range 100 to 599. *)
From stdpp Require Import base list option numbers sets.
From Stdlib Require Import ZArith Sorted Lia.
From S2P Require Import Prelude.
From S2P Require Import JsString.
From S2P Require Import JsNumber.
From S2P Require Import Runtime.
From S2P Require Import Json.
From S2P Require Import JsText.

Record StatusCodeRange : Type := { start : N; end_ : N }.

#[global] Instance StatusCodeRange_eq_dec : EqDecision StatusCodeRange.
Proof. solve_decision. Defined.

Record ParsedHttpStatusCodeRules : Type := {
  ok : bool;
  ranges : list StatusCodeRange;
  tokens : list jsstr;
  normalized : jsstr;
  invalidTokens : list jsstr;
}.

(** [/^\d+$/.test(s)] *)
Definition isNumber (s : jsstr) : bool :=
  match s with [] => false | _ => forallb is_digit s end.

(** [Number.isFinite(code) && code >= 100 && code <= 599] *)
Definition isValidCode (code : N) : bool := ((100 <=? code) && (code <=? 599))%N.

Definition MINUS : N := cu "-".
Definition COMMA : N := cu ",".

(** [token.trim().replace(/\s/g, '')] *)
Definition cleaned_token (token : jsstr) : jsstr :=
  List.filter (λ c, negb (is_space c)) (trim token).

Definition parseToken (token : jsstr) : option StatusCodeRange :=
  let cleaned := cleaned_token token in
  match cleaned with
  | [] => None
  | _ =>
      if existsb (N.eqb MINUS) cleaned then
        match split_on MINUS cleaned with
        | a :: b :: _ =>
            if negb (isNumber a) || negb (isNumber b) then None
            else
              let s := digits_value a in
              let e := digits_value b in
              if negb (isValidCode s) || negb (isValidCode e) || (e <? s)%N then None
              else Some {| start := s; end_ := e |}
        | _ => None
        end
      else if negb (isNumber cleaned) then None
      else
        let code := digits_value cleaned in
        if negb (isValidCode code) then None else Some {| start := code; end_ := code |}
  end.

(** The comparator [a.start !== b.start ? a.start - b.start : a.end - b.end],
    as the order [comparator(a, b) <= 0]. *)
Definition range_le (a b : StatusCodeRange) : bool :=
  if (start a =? start b)%N then (end_ a <=? end_ b)%N else (start a <? start b)%N.

(** [Array.prototype.sort] with that comparator. *)
Fixpoint insert_range (r : StatusCodeRange) (l : list StatusCodeRange) : list StatusCodeRange :=
  match l with
  | [] => [r]
  | x :: l => if range_le r x then r :: x :: l else x :: insert_range r l
  end.
Definition sort_ranges (l : list StatusCodeRange) : list StatusCodeRange :=
  foldr insert_range [] l.

(** The callback of [reduce]: push a copy, or extend the last range. *)
Definition merge_step (merged : list StatusCodeRange) (current : StatusCodeRange) :
    list StatusCodeRange :=
  match last merged with
  | None => merged ++ [current]
  | Some l =>
      if (end_ l + 1 <? start current)%N then merged ++ [current]
      else removelast merged ++ [{| start := start l; end_ := N.max (end_ l) (end_ current) |}]
  end.

Definition mergeRanges (l : list StatusCodeRange) : list StatusCodeRange :=
  match l with
  | [] => []
  | _ => fold_left merge_step (sort_ranges l) []
  end.

(** [r.start === r.end ? `${r.start}` : `${r.start}-${r.end}`] *)
Definition range_text (r : StatusCodeRange) : jsstr :=
  if (start r =? end_ r)%N then N_text (start r)
  else N_text (start r) ++ [MINUS] ++ N_text (end_ r).

(** The loop over the segments. *)
Fixpoint parse_segments (segments : list jsstr) : list StatusCodeRange * list jsstr :=
  match segments with
  | [] => ([], [])
  | segment :: segments =>
      let '(rs, invalid) := parse_segments segments in
      match parseToken segment with
      | None => (rs, segment :: invalid)
      | Some r => (r :: rs, invalid)
      end
  end.

(** [raw.replace(/[，]/g, ',')]: the full-width comma *)
Definition sanitize (raw : jsstr) : jsstr :=
  map (λ c, if (c =? 65292)%N then COMMA else c) raw.

(** [sanitized.split(',').map((s) => s.trim()).filter(Boolean)] *)
Definition segments_of (raw : jsstr) : list jsstr :=
  List.filter (λ s, match s with [] => false | _ => true end)
    (map trim (split_on COMMA (sanitize raw))).

Definition parse_text (raw : jsstr) : ParsedHttpStatusCodeRules :=
  match raw with
  | [] => {| ok := true; ranges := []; tokens := []; normalized := []; invalidTokens := [] |}
  | _ =>
      let '(rs, invalid) := parse_segments (segments_of raw) in
      match invalid with
      | _ :: _ =>
          {| ok := false; ranges := []; tokens := []; normalized := raw; invalidTokens := invalid |}
      | [] =>
          let merged := mergeRanges rs in
          let tokens := map range_text merged in
          {| ok := true; ranges := merged; tokens := tokens;
             normalized := join [COMMA] tokens; invalidTokens := [] |}
      end
  end.

Definition parseHttpStatusCodeRules (input : jsval) : ParsedHttpStatusCodeRules :=
  parse_text (trim (if is_nullish input then [] else js_text input)).

(** ** What a list of ranges denotes *)

Definition covers (l : list StatusCodeRange) (n : N) : Prop :=
  ∃ r, r ∈ l ∧ (start r <= n <= end_ r)%N.

(** Non-empty ranges in ascending order with a gap between neighbours. *)
Inductive canonical : list StatusCodeRange → Prop :=
| canonical_nil : canonical []
| canonical_one r : (start r <= end_ r)%N → canonical [r]
| canonical_cons r x l :
    (start r <= end_ r)%N → (end_ r + 1 < start x)%N → canonical (x :: l) → canonical (r :: x :: l).

(** The reference: absorb the ranges of a sorted list into [r]. *)
Fixpoint absorb (r : StatusCodeRange) (l : list StatusCodeRange) : list StatusCodeRange :=
  match l with
  | [] => [r]
  | x :: l =>
      if (end_ r + 1 <? start x)%N then r :: absorb x l
      else absorb {| start := start r; end_ := N.max (end_ r) (end_ x) |} l
  end.

(** ** Sorting *)

Definition sorted_starts (l : list StatusCodeRange) : Prop :=
  StronglySorted (λ a b, start a <= start b)%N l.

Lemma elem_insert_range x r l : x ∈ insert_range r l ↔ x = r ∨ x ∈ l.
Proof.
  induction l as [|y l IH]; cbn; [set_solver|]. case_match; set_solver.
Qed.

Lemma elem_sort_ranges x l : x ∈ sort_ranges l ↔ x ∈ l.
Proof.
  induction l as [|y l IH]; cbn; [done|]. rewrite elem_insert_range. set_solver.
Qed.

Lemma range_le_start a b : range_le a b = true → (start a <= start b)%N.
Proof. unfold range_le. destruct (N.eqb_spec (start a) (start b)); intros; bools; lia. Qed.
Lemma range_gt_start a b : range_le a b = false → (start b <= start a)%N.
Proof. unfold range_le. destruct (N.eqb_spec (start a) (start b)); intros; bools; lia. Qed.

Lemma insert_range_sorted r l : sorted_starts l → sorted_starts (insert_range r l).
Proof.
  induction 1 as [|x l S IH F]; cbn; [repeat constructor|].
  destruct (range_le r x) eqn:E.
  - apply range_le_start in E. repeat constructor; auto.
    eapply Forall_impl; [exact F|]. intros y Hy. cbn in *. lia.
  - apply range_gt_start in E. constructor; [done|].
    apply Forall_forall. intros y Hy%elem_insert_range.
    rewrite Forall_forall in F. destruct Hy as [-> |Hy]; [done|by apply F].
Qed.

Lemma sort_ranges_sorted l : sorted_starts (sort_ranges l).
Proof. induction l; cbn; [constructor|by apply insert_range_sorted]. Qed.

(** ** Merging *)

Lemma merge_fold acc r l : fold_left merge_step l (acc ++ [r]) = acc ++ absorb r l.
Proof.
  revert acc r. induction l as [|x l IH]; intros acc r; cbn; [done|].
  unfold merge_step at 2. rewrite last_snoc. case_match.
  - rewrite IH. by rewrite <- app_assoc.
  - rewrite removelast_last. apply IH.
Qed.

(** The reduction is the reference on the sorted list. *)
Lemma mergeRanges_absorb l :
  mergeRanges l = match sort_ranges l with [] => [] | r :: l => absorb r l end.
Proof.
  unfold mergeRanges. destruct l as [|x l]; [done|].
  destruct (sort_ranges (x :: l)) as [|r s]; [done|]. cbn. apply (merge_fold []).
Qed.

Lemma covers_cons r l n : covers (r :: l) n ↔ (start r <= n <= end_ r)%N ∨ covers l n.
Proof.
  unfold covers. split.
  - intros (y & [-> |Hy]%elem_of_cons & B); [by left|right; eauto].
  - intros [B|(y & Hy & B)]; eexists; rewrite elem_of_cons; eauto.
Qed.

Lemma absorb_covers r l n :
  (start r <= end_ r)%N → Forall (λ x, start x <= end_ x)%N l → sorted_starts (r :: l) →
  covers (absorb r l) n ↔ covers (r :: l) n.
Proof.
  revert r. induction l as [|x l IH]; intros r Hr Hl S; cbn; [done|].
  apply Forall_cons in Hl as [Hx Hl].
  apply StronglySorted_inv in S as [S F]. apply Forall_cons in F as [Frx Frl].
  case_match; bools.
  - by rewrite covers_cons, IH, <- covers_cons.
  - apply StronglySorted_inv in S as [S _].
    rewrite IH, !covers_cons by (cbn; done || lia || by constructor). cbn.
    split; [intros [B|]|intros [B|[B|]]]; try tauto; [|left; lia..].
    destruct (N.le_gt_cases n (end_ r)); [left; lia|right; left; lia].
Qed.

Lemma absorb_head r l : ∃ e t, absorb r l = {| start := start r; end_ := e |} :: t.
Proof.
  revert r. induction l as [|x l IH]; intros [s e]; cbn; [eauto|].
  case_match; [eauto|apply IH].
Qed.

Lemma absorb_canonical r l :
  (start r <= end_ r)%N → Forall (λ x, start x <= end_ x)%N l → canonical (absorb r l).
Proof.
  revert r. induction l as [|x l IH]; intros r Hr Hl; cbn; [by constructor|].
  apply Forall_cons in Hl as [Hx Hl]. case_match; bools.
  - specialize (IH x Hx Hl). destruct (absorb_head x l) as (e & t & E). rewrite E in *.
    by constructor.
  - apply IH; cbn; [lia|done].
Qed.

(** ** Parsed ranges *)

Definition valid_range (r : StatusCodeRange) : Prop :=
  (100 <= start r)%N ∧ (start r <= end_ r)%N ∧ (end_ r <= 599)%N.

Lemma parseToken_valid t r : parseToken t = Some r → valid_range r.
Proof.
  unfold parseToken, isValidCode, valid_range. intros H.
  repeat (case_match; try done); simplify_eq/=;
    repeat match goal with H : (_ || _)%bool = false |- _ => apply orb_false_iff in H as [? ?] end;
    bools; lia.
Qed.

(** The loop collects the ranges of the segments, or the rejected ones. *)
Lemma parse_segments_spec segments :
  parse_segments segments =
  (omap parseToken segments, List.filter (λ s, negb (is_ok (from_option Ok (Err ()) (parseToken s)))) segments).
Proof.
  induction segments as [|s l IH]; [done|]. cbn. rewrite IH. by destruct (parseToken s).
Qed.

Lemma omap_valid segments : Forall valid_range (omap parseToken segments).
Proof.
  apply Forall_forall. intros r (s & _ & E)%list_elem_of_omap. eauto using parseToken_valid.
Qed.

Lemma valid_sorted l : Forall valid_range l → Forall (λ x, start x <= end_ x)%N (sort_ranges l).
Proof.
  rewrite !Forall_forall. intros V x X%elem_sort_ranges%V. apply X.
Qed.

Lemma mergeRanges_canonical l : Forall valid_range l → canonical (mergeRanges l).
Proof.
  intros V%valid_sorted. rewrite mergeRanges_absorb.
  destruct (sort_ranges l) as [|r s]; [constructor|]. apply Forall_cons in V as [V1 V2].
  by apply absorb_canonical.
Qed.

Lemma mergeRanges_covers l n : Forall valid_range l → covers (mergeRanges l) n ↔ covers l n.
Proof.
  intros V%valid_sorted. rewrite mergeRanges_absorb.
  assert (covers (sort_ranges l) n ↔ covers l n) as <-.
  { unfold covers. by setoid_rewrite elem_sort_ranges. }
  pose proof (sort_ranges_sorted l) as S.
  destruct (sort_ranges l) as [|r s]; [done|]. apply Forall_cons in V as [V1 V2].
  by apply absorb_covers.
Qed.

(** ** Canonical lists *)

Lemma canonical_tail r l : canonical (r :: l) → canonical l.
Proof. inversion 1; [constructor|done]. Qed.

Lemma canonical_head r l : canonical (r :: l) → (start r <= end_ r)%N.
Proof. by inversion 1. Qed.

Lemma canonical_above r l n : canonical (r :: l) → covers l n → (end_ r + 1 < n)%N.
Proof.
  revert r. induction l as [|x l IH]; intros r C H; [by destruct H as (? & ?%elem_of_nil & _)|].
  inversion C as [| |? ? ? ? G C']; subst. apply covers_cons in H as [B|B]; [lia|].
  specialize (IH x C' B). apply canonical_head in C'. lia.
Qed.

(** A canonical list is determined by the codes it covers. *)
Lemma canonical_unique l l' :
  canonical l → canonical l' → (∀ n, covers l n ↔ covers l' n) → l = l'.
Proof.
  revert l'. induction l as [|r l IH]; intros [|r' l'] C C' E; [done|..].
  - exfalso. destruct (E (start r')) as [_ H]. apply canonical_head in C'.
    destruct H as (? & ?%elem_of_nil & _); [|done]. apply covers_cons. left. lia.
  - exfalso. destruct (E (start r)) as [H _]. apply canonical_head in C.
    destruct H as (? & ?%elem_of_nil & _); [|done]. apply covers_cons. left. lia.
  - pose proof (canonical_head _ _ C) as V. pose proof (canonical_head _ _ C') as V'.
    assert (∀ n, covers l n → end_ r + 1 < n)%N as A by (intros n; by apply canonical_above).
    assert (∀ n, covers l' n → end_ r' + 1 < n)%N as A' by (intros n; by apply canonical_above).
    assert (∀ n, (start r <= n <= end_ r)%N ∨ covers l n ↔
                 (start r' <= n <= end_ r')%N ∨ covers l' n) as F
      by (intros n; by rewrite <- !covers_cons).
    assert (start r = start r') as S.
    { destruct (proj1 (F (start r))) as [B|B]; [left; lia| |apply A' in B];
      destruct (proj2 (F (start r'))) as [D|D]; try (left; lia); try (apply A in D); lia. }
    assert (end_ r = end_ r') as D.
    { destruct (N.lt_trichotomy (end_ r) (end_ r')) as [L|[?|L]]; [|done|]; exfalso.
      - destruct (proj2 (F (end_ r + 1)%N)) as [B|B]; [left; lia|lia|apply A in B; lia].
      - destruct (proj1 (F (end_ r' + 1)%N)) as [B|B]; [left; lia|lia|apply A' in B; lia]. }
    f_equal; [destruct r, r'; cbn in *; congruence|].
    apply IH; [by eapply canonical_tail..|]. intros n. split; intros B.
    + destruct (proj1 (F n) (or_intror B)) as [X|]; [|done]. apply A in B. lia.
    + destruct (proj2 (F n) (or_intror B)) as [X|]; [|done]. apply A' in B. lia.
Qed.

(** Merging leaves a canonical list alone. *)
Lemma mergeRanges_id l : Forall valid_range l → canonical l → mergeRanges l = l.
Proof.
  intros V C. apply canonical_unique; [by apply mergeRanges_canonical|done|].
  intros n. by apply mergeRanges_covers.
Qed.

(** Every range of a canonical cover of valid codes is valid. *)
Lemma covers_valid l : Forall valid_range l → Forall valid_range (mergeRanges l).
Proof.
  intros V. apply Forall_forall. intros r R. pose proof (mergeRanges_canonical l V) as C.
  assert (start r <= end_ r)%N as B.
  { clear V. induction C; [by apply elem_of_nil in R|..];
      [by apply list_elem_of_singleton in R as ->|].
    apply elem_of_cons in R as [-> |R]; auto. }
  assert (∀ n, (start r <= n <= end_ r)%N → (100 <= n <= 599)%N) as W.
  { intros n Hn. assert (covers (mergeRanges l) n) as X by (exists r; auto).
    apply (mergeRanges_covers l n V) in X as (x & X & Hx).
    rewrite Forall_forall in V. apply V in X. unfold valid_range in X. lia. }
  pose proof (W (start r) ltac:(lia)). pose proof (W (end_ r) ltac:(lia)).
  unfold valid_range. lia.
Qed.

(** ** Printing and parsing *)

(** The characters of a printed range. *)
Definition token_char (c : N) : bool := is_digit c || (c =? MINUS)%N.

Lemma token_char_plain c :
  token_char c = true → is_space c = false ∧ c ≠ COMMA ∧ c ≠ 65292%N.
Proof.
  unfold token_char. intros [D|E]%orb_true_iff.
  - split; [by apply digit_not_space|]. unfold is_digit in D. bools.
    split; intros ->; [by vm_compute in H|by vm_compute in H0].
  - bools. by subst.
Qed.

Lemma digits_token s : forallb is_digit s = true → forallb token_char s = true.
Proof.
  rewrite !forallb_forall. intros D c C. unfold token_char. by rewrite (D c C).
Qed.

Lemma range_text_chars r : forallb token_char (range_text r) = true.
Proof.
  unfold range_text. case_match; [|rewrite !forallb_app];
    rewrite ?(digits_token _ (N_text_digits _)); done.
Qed.

Lemma range_text_nonempty r : range_text r ≠ [].
Proof.
  unfold range_text. case_match; [apply N_text_nonempty|].
  intros E%app_nil. by destruct E as [E%N_text_nonempty _].
Qed.

Lemma token_solid s : forallb token_char s = true → forallb (λ c, negb (is_space c)) s = true.
Proof.
  rewrite !forallb_forall. intros T c C. by rewrite (proj1 (token_char_plain c (T c C))).
Qed.

Lemma cleaned_token_id s : forallb token_char s = true → cleaned_token s = s.
Proof.
  intros T%token_solid. unfold cleaned_token. rewrite trim_solid by done.
  apply filter_all, Forall_forall. intros c C%list_elem_of_In. rewrite forallb_forall in T. by apply T.
Qed.

Lemma isNumber_N_text n : isNumber (N_text n) = true.
Proof.
  unfold isNumber. pose proof (N_text_nonempty n). pose proof (N_text_digits n).
  by destruct (N_text n).
Qed.

Lemma no_minus s : forallb is_digit s = true → MINUS ∉ s.
Proof.
  rewrite forallb_forall. intros D M%list_elem_of_In%D. by vm_compute in M.
Qed.

Lemma existsb_not_elem c s : c ∉ s → existsb (N.eqb c) s = false.
Proof.
  intros N. apply not_true_is_false. intros (x & X & E)%existsb_exists.
  apply N.eqb_eq in E as ->. by apply N, list_elem_of_In.
Qed.

Lemma valid_codes r :
  valid_range r → isValidCode (start r) = true ∧ isValidCode (end_ r) = true.
Proof.
  unfold valid_range, isValidCode. intros V. rewrite !andb_true_iff, !N.leb_le. lia.
Qed.

(** A printed range is read back. *)
Lemma parse_range_text r : valid_range r → parseToken (range_text r) = Some r.
Proof.
  intros V. unfold parseToken. rewrite cleaned_token_id by apply range_text_chars.
  pose proof (range_text_nonempty r) as NE.
  destruct (range_text r) as [|c t] eqn:E; [done|]. rewrite <- E. clear NE E c t.
  destruct (valid_codes r V) as [VS VE]. unfold range_text. destruct (N.eqb_spec (start r) (end_ r)) as [EQ|NQ].
  - rewrite existsb_not_elem by apply no_minus, N_text_digits.
    rewrite isNumber_N_text. cbn [negb]. rewrite digits_value_N_text, VS. cbn [negb].
    destruct r; cbn in *. by subst.
  - assert (existsb (N.eqb MINUS) (N_text (start r) ++ [MINUS] ++ N_text (end_ r)) = true) as ->.
    { apply existsb_exists. exists MINUS. rewrite N.eqb_refl. split; [|done].
      apply in_app_iff. right. by left. }
    cbn [app]. rewrite split_on_app, split_on_single by apply no_minus, N_text_digits.
    rewrite !isNumber_N_text, !digits_value_N_text, VS, VE. cbn [negb orb].
    destruct V as (_ & V & _). apply N.ltb_ge in V. rewrite V. by destruct r.
Qed.

Lemma sanitize_plain s : 65292%N ∉ s → sanitize s = s.
Proof.
  unfold sanitize. induction s as [|c s IH]; intros H; [done|]. apply not_elem_of_cons in H as [N H].
  cbn [map]. rewrite IH by done. by destruct (N.eqb_spec c 65292); [congruence|].
Qed.

Lemma elem_join c sep ps : c ∈ join sep ps → c ∈ sep ∨ ∃ p, p ∈ ps ∧ c ∈ p.
Proof.
  induction ps as [|p ps IH]; cbn; [by intros ?%elem_of_nil|].
  destruct ps as [|q ps].
  - intros H. right. exists p. set_solver.
  - intros [H|[H|H]%elem_of_app]%elem_of_app; [right; exists p; set_solver|by left|].
    destruct (IH H) as [S|(x & X & C)]; [by left|]. right. exists x. set_solver.
Qed.

(** The segments of printed ranges are those texts. *)
Lemma segments_of_tokens l : l ≠ [] → segments_of (join [COMMA] (map range_text l)) = map range_text l.
Proof.
  intros NE. unfold segments_of.
  assert (∀ p c, p ∈ map range_text l → c ∈ p → token_char c = true) as T.
  { intros p c (r & -> & _)%list_elem_of_fmap C. pose proof (range_text_chars r) as R.
    rewrite forallb_forall in R. by apply R, list_elem_of_In. }
  rewrite sanitize_plain.
  2:{ intros [E%list_elem_of_singleton|(p & P & C)]%elem_join; [done|].
      by apply (T _ _ P), token_char_plain in C as (_ & _ & ?). }
  rewrite split_on_join.
  - clear. induction l as [|r l IH]; [done|]. cbn [map].
    rewrite trim_solid by apply token_solid, range_text_chars. cbn [List.filter].
    pose proof (range_text_nonempty r). destruct (range_text r); [done|]. by rewrite IH.
  - by destruct l.
  - apply Forall_forall. intros p P C. by apply (T _ _ P), token_char_plain in C as (_ & ? & _).
Qed.

Lemma omap_tokens l : Forall valid_range l → parse_segments (map range_text l) = (l, []).
Proof.
  induction 1 as [|r l V _ IH]; [done|]. cbn [map parse_segments]. by rewrite IH, parse_range_text.
Qed.

(** The result for a list of ranges that is already canonical. *)
Definition rules_of (l : list StatusCodeRange) : ParsedHttpStatusCodeRules :=
  {| ok := true; ranges := l; tokens := map range_text l;
     normalized := join [COMMA] (map range_text l); invalidTokens := [] |}.

Lemma join_nonempty p ps : p ≠ [] → join [COMMA] (p :: ps) ≠ [].
Proof. intros N. cbn. destruct ps; [done|]. by destruct p. Qed.

Lemma parse_normalized l :
  Forall valid_range l → canonical l → parse_text (join [COMMA] (map range_text l)) = rules_of l.
Proof.
  intros V C. destruct l as [|r l]; [done|].
  unfold parse_text. rewrite segments_of_tokens, omap_tokens, mergeRanges_id by done.
  pose proof (join_nonempty (range_text r) (map range_text l) (range_text_nonempty r)) as NE.
  unfold rules_of. cbn [map]. by destruct (join _ _).
Qed.

(** The shape of an accepted result. *)
Lemma parse_text_ok raw :
  ok (parse_text raw) = true →
  ∃ rs, parse_text raw = rules_of (mergeRanges rs) ∧ Forall valid_range rs ∧
        ∀ n, covers rs n ↔ ∃ s r, s ∈ segments_of raw ∧ parseToken s = Some r ∧ (start r <= n <= end_ r)%N.
Proof.
  assert (∀ l n, covers (omap parseToken l) n ↔
    ∃ s r, s ∈ l ∧ parseToken s = Some r ∧ (start r <= n <= end_ r)%N) as CO.
  { intros l n. unfold covers. setoid_rewrite list_elem_of_omap. naive_solver. }
  destruct raw as [|c raw].
  - intros _. exists []. split; [done|]. split; [constructor|].
    intros n. rewrite <- CO. by vm_compute.
  - unfold parse_text. rewrite parse_segments_spec. case_match; [|done]. intros _.
    eexists. split; [reflexivity|]. split; [apply omap_valid|]. apply CO.
Qed.

Lemma normalized_trim l : trim (join [COMMA] (map range_text l)) = join [COMMA] (map range_text l).
Proof.
  apply trim_solid, forallb_forall. intros c C%list_elem_of_In.
  apply elem_join in C as [C|(p & P & C)].
  - by apply list_elem_of_singleton in C as ->.
  - apply list_elem_of_fmap in P as (r & -> & _). pose proof (range_text_chars r) as R.
    rewrite forallb_forall in R. apply list_elem_of_In in C.
    by rewrite (proj1 (token_char_plain c (R c C))).
Qed.

(** The trimmed text of an input. *)
Definition raw_text (input : jsval) : jsstr :=
  trim (if is_nullish input then [] else js_text input).

Lemma merged_facts rs :
  Forall valid_range rs →
  canonical (mergeRanges rs) ∧ Forall valid_range (mergeRanges rs) ∧
  parseHttpStatusCodeRules (JStr (normalized (rules_of (mergeRanges rs)))) = rules_of (mergeRanges rs).
Proof.
  intros V. pose proof (mergeRanges_canonical rs V) as C. pose proof (covers_valid rs V) as V'.
  split; [done|]. split; [done|]. unfold parseHttpStatusCodeRules. cbn -[trim mergeRanges].
  rewrite normalized_trim. by apply parse_normalized.
Qed.

(** ** Claims *)

(** C21: an accepted list of status codes has a normal form.  Its ranges are
    ascending, within 100 to 599 and separated by gaps; they contain exactly
    the codes some segment of the text names; and the normalised text parses
    back to the very same result, so normalising twice changes nothing. *)
Theorem status_rules_normal_form input :
  let p := parseHttpStatusCodeRules input in
  ok p = true →
  canonical (ranges p) ∧ Forall valid_range (ranges p) ∧
  (∀ n, covers (ranges p) n ↔
     ∃ s r, s ∈ segments_of (raw_text input) ∧ parseToken s = Some r ∧ (start r <= n <= end_ r)%N) ∧
  parseHttpStatusCodeRules (JStr (normalized p)) = p.
Proof.
  intros p O. apply parse_text_ok in O as (rs & E & V & S).
  change (parse_text _) with p in E. rewrite E.
  destruct (merged_facts rs V) as (C & V' & P). conjs; [done|done| |done].
  intros n. cbn [ranges rules_of]. rewrite mergeRanges_covers by done. apply S.
Qed.

Lemma status_rules_normal_form_witness :
  let p := parseHttpStatusCodeRules (JStr (js "500-503, 401,504 - 599,401")) in
  normalized p = js "401,500-599" ∧ parseHttpStatusCodeRules (JStr (normalized p)) = p.
Proof.
  intros p. split; [vm_compute; reflexivity|].
  apply (status_rules_normal_form (JStr (js "500-503, 401,504 - 599,401"))). vm_compute. reflexivity.
Defined.

(** The normal form is canonical: two accepted texts have the same
    normalised text if and only if they name the same status codes. *)
Theorem status_rules_canonical a b :
  let p := parseHttpStatusCodeRules a in
  let q := parseHttpStatusCodeRules b in
  ok p = true → ok q = true →
  normalized p = normalized q ↔ (∀ n, covers (ranges p) n ↔ covers (ranges q) n).
Proof.
  intros p q (rs & E & V & _)%parse_text_ok (rs' & E' & V' & _)%parse_text_ok.
  change (parse_text _) with p in E. change (parse_text _) with q in E'. rewrite E, E'.
  destruct (merged_facts rs V) as (C & _ & P). destruct (merged_facts rs' V') as (C' & _ & P').
  split.
  - intros N n. rewrite N, P' in P. injection P as P _ _. cbn. by rewrite P.
  - intros S. cbn in S. by rewrite (canonical_unique _ _ C C' S).
Qed.

Lemma status_rules_canonical_witness :
  let p := parseHttpStatusCodeRules (JStr (js "500-599")) in
  let q := parseHttpStatusCodeRules (JStr (js "550-599, 500-549")) in
  ∀ n, covers (ranges p) n ↔ covers (ranges q) n.
Proof.
  intros p q.
  apply (status_rules_canonical (JStr (js "500-599")) (JStr (js "550-599, 500-549")));
    vm_compute; reflexivity.
Defined.

(** A text that is not accepted is kept as it was typed, with no ranges,
    and the reported tokens are exactly the segments that name no range; there
    is at least one. *)
Theorem status_rules_rejected input :
  let p := parseHttpStatusCodeRules input in
  ok p = false →
  ranges p = [] ∧ normalized p = raw_text input ∧ invalidTokens p ≠ [] ∧
  ∀ s, s ∈ invalidTokens p ↔ s ∈ segments_of (raw_text input) ∧ parseToken s = None.
Proof.
  intros p. unfold p, parseHttpStatusCodeRules. fold (raw_text input). unfold parse_text.
  destruct (raw_text input) as [|c raw]; [done|]. rewrite parse_segments_spec.
  destruct (List.filter _ _) as [|t l] eqn:F; [done|]. intros _. cbn [ranges normalized invalidTokens].
  conjs; [done..|]. intros s. rewrite <- F, !list_elem_of_In, filter_In.
  destruct (parseToken s); cbn; naive_solver.
Qed.

Lemma status_rules_rejected_witness :
  let p := parseHttpStatusCodeRules (JStr (js "401,abc,99")) in
  normalized p = js "401,abc,99" ∧ invalidTokens p = [js "abc"; js "99"].
Proof.
  intros p. split; [|vm_compute; reflexivity].
  apply (status_rules_rejected (JStr (js "401,abc,99"))). vm_compute. reflexivity.
Defined.

(** Text after a second dash is silently dropped: [200-299-400] is
    accepted as the range 200 to 299, and is normalised to it. *)
Theorem third_bound_is_dropped :
  parseHttpStatusCodeRules (JStr (js "200-299-400")) = rules_of [{| start := 200; end_ := 299 |}] ∧
  normalized (parseHttpStatusCodeRules (JStr (js "200-299-400"))) = js "200-299".
Proof. split; vm_compute; reflexivity. Qed.
