(* ===== verification/Playground.v ===== *)
(** * Playground messages

    Models the message functions of the console's chat playground
    ([features/playground/lib/message/]): think tags, timing, streaming
    chunks, finalisation, restoring and editing conversations.

    Times are numbers of milliseconds, an argument of the functions that read
    the clock; one call reads it once.  [nanoid] is an argument too. *)
From stdpp Require Import base list option numbers sets.
From Stdlib Require Import ZArith SpecFloat Lia.
From S2P Require Import Prelude.
From S2P Require Import JsString.
From S2P Require Import JsNumber.
From S2P Require Import JsText.

(** ** Data *)

Inductive MessageRole : Type := USER | ASSISTANT | SYSTEM.
Inductive MessageStatus : Type := LOADING | STREAMING | COMPLETE | ERROR.

#[global] Instance MessageRole_eq_dec : EqDecision MessageRole.
Proof. solve_decision. Defined.
#[global] Instance MessageStatus_eq_dec : EqDecision MessageStatus.
Proof. solve_decision. Defined.

Record MessageVersion : Type := { version_id : jsstr; content : jsstr }.

Record Reasoning : Type := {
  reasoning_content : jsstr;
  duration : num;
  r_startedAt : option num;
  r_completedAt : option num;
  r_durationMs : option num;
}.

Record Message : Type := {
  key : jsstr;
  from : MessageRole;
  versions : list MessageVersion;
  createdAt : option num;
  startedAt : option num;
  completedAt : option num;
  durationMs : option num;
  sources : option (list (jsstr * jsstr));
  reasoning : option Reasoning;
  isReasoningStreaming : option bool;
  isReasoningComplete : option bool;
  isContentComplete : option bool;
  status : option MessageStatus;
  (** absent, null or a code *)
  errorCode : option (option jsstr);
}.

(** Copies with one field replaced: [{ ...message, field }]. *)
Definition with_versions (v : list MessageVersion) (m : Message) : Message :=
  {| key := key m; from := from m; versions := v; createdAt := createdAt m;
     startedAt := startedAt m; completedAt := completedAt m; durationMs := durationMs m;
     sources := sources m; reasoning := reasoning m; isReasoningStreaming := isReasoningStreaming m;
     isReasoningComplete := isReasoningComplete m; isContentComplete := isContentComplete m;
     status := status m; errorCode := errorCode m |}.
Definition with_reasoning (r : option Reasoning) (m : Message) : Message :=
  {| key := key m; from := from m; versions := versions m; createdAt := createdAt m;
     startedAt := startedAt m; completedAt := completedAt m; durationMs := durationMs m;
     sources := sources m; reasoning := r; isReasoningStreaming := isReasoningStreaming m;
     isReasoningComplete := isReasoningComplete m; isContentComplete := isContentComplete m;
     status := status m; errorCode := errorCode m |}.
Definition with_reasoning_streaming (b : bool) (m : Message) : Message :=
  {| key := key m; from := from m; versions := versions m; createdAt := createdAt m;
     startedAt := startedAt m; completedAt := completedAt m; durationMs := durationMs m;
     sources := sources m; reasoning := reasoning m; isReasoningStreaming := Some b;
     isReasoningComplete := isReasoningComplete m; isContentComplete := isContentComplete m;
     status := status m; errorCode := errorCode m |}.
Definition with_status (s : MessageStatus) (m : Message) : Message :=
  {| key := key m; from := from m; versions := versions m; createdAt := createdAt m;
     startedAt := startedAt m; completedAt := completedAt m; durationMs := durationMs m;
     sources := sources m; reasoning := reasoning m; isReasoningStreaming := isReasoningStreaming m;
     isReasoningComplete := isReasoningComplete m; isContentComplete := isContentComplete m;
     status := Some s; errorCode := errorCode m |}.
Definition with_errorCode (c : option jsstr) (m : Message) : Message :=
  {| key := key m; from := from m; versions := versions m; createdAt := createdAt m;
     startedAt := startedAt m; completedAt := completedAt m; durationMs := durationMs m;
     sources := sources m; reasoning := reasoning m; isReasoningStreaming := isReasoningStreaming m;
     isReasoningComplete := isReasoningComplete m; isContentComplete := isContentComplete m;
     status := status m; errorCode := Some c |}.
Definition with_createdAt (t : option num) (m : Message) : Message :=
  {| key := key m; from := from m; versions := versions m; createdAt := t;
     startedAt := startedAt m; completedAt := completedAt m; durationMs := durationMs m;
     sources := sources m; reasoning := reasoning m; isReasoningStreaming := isReasoningStreaming m;
     isReasoningComplete := isReasoningComplete m; isContentComplete := isContentComplete m;
     status := status m; errorCode := errorCode m |}.
Definition with_timing (s c d : num) (m : Message) : Message :=
  {| key := key m; from := from m; versions := versions m; createdAt := createdAt m;
     startedAt := Some s; completedAt := Some c; durationMs := Some d;
     sources := sources m; reasoning := reasoning m; isReasoningStreaming := isReasoningStreaming m;
     isReasoningComplete := isReasoningComplete m; isContentComplete := isContentComplete m;
     status := status m; errorCode := errorCode m |}.

(** ** Versions *)

Definition getCurrentVersion (m : Message) : MessageVersion :=
  match versions m with
  | v :: _ => v
  | [] => {| version_id := js "default"; content := [] |}
  end.

Definition getMessageContent (m : Message) : jsstr := content (getCurrentVersion m).

Definition nonblank (s : jsstr) : bool := match trim s with [] => false | _ => true end.
Definition hasMessageContent (m : Message) : bool := nonblank (getMessageContent m).

Definition updateCurrentVersionContent (m : Message) (c : jsstr) : Message :=
  with_versions [{| version_id := version_id (getCurrentVersion m); content := c |}] m.

Definition createUserMessage (k v : jsstr) (c : jsstr) (t : num) : Message :=
  {| key := k; from := USER; versions := [{| version_id := v; content := c |}];
     createdAt := Some t; startedAt := None; completedAt := None; durationMs := None;
     sources := None; reasoning := None; isReasoningStreaming := None;
     isReasoningComplete := None; isContentComplete := None; status := None; errorCode := None |}.

Definition createLoadingAssistantMessage (k v : jsstr) (t : num) : Message :=
  {| key := k; from := ASSISTANT; versions := [{| version_id := v; content := [] |}];
     createdAt := Some t; startedAt := Some t; completedAt := None; durationMs := None;
     sources := None; reasoning := None; isReasoningStreaming := Some false;
     isReasoningComplete := Some false; isContentComplete := Some false;
     status := Some LOADING; errorCode := None |}.

(** ** Think tags *)

(** [s.indexOf(p)], [None] for -1 *)
Fixpoint find_sub (p s : jsstr) : option nat :=
  if starts_with p s then Some 0
  else match s with [] => None | _ :: s => S <$> find_sub p s end.

Definition OPEN : jsstr := js "<think>".
Definition CLOSE : jsstr := js "</think>".

Record ParsedThinkTags : Type := {
  visibleContent : jsstr;
  tag_reasoning : jsstr;
  hasUnclosedTag : bool;
}.

(** The loop, on the text from [currentPos] on; every round consumes a tag,
    so the length of the text is enough fuel. *)
Fixpoint think_loop (fuel : nat) (rest : jsstr) : list jsstr * list jsstr * bool :=
  match fuel with
  | 0 => ([], [], false)
  | S fuel =>
      match find_sub OPEN rest with
      | None => (match rest with [] => [] | _ => [rest] end, [], false)
      | Some o =>
          let visible := match o with 0 => [] | _ => [take o rest] end in
          let body := drop (o + 7) rest in
          match find_sub CLOSE body with
          | None => (visible, [body], true)
          | Some c =>
              let '(v, r, u) := think_loop fuel (drop (c + 8) body) in
              (visible ++ v, take c body :: r, u)
          end
      end
  end.

Definition parseThinkTags (c : jsstr) : ParsedThinkTags :=
  if negb (includes OPEN c) then
    {| visibleContent := c; tag_reasoning := []; hasUnclosedTag := false |}
  else
    let '(v, r, u) := think_loop (S (length c)) c in
    {| visibleContent := trim (concat v);
       tag_reasoning := trim (join [10; 10]%N r);
       hasUnclosedTag := u |}.

(** ** Timing *)

(** [Math.max(0, b - a)] *)
Definition elapsed (a b : num) : num := nmax NZERO (nsub b a).

(** [a ?? b ?? c] *)
Definition or_else {A} (a b : option A) : option A := match a with Some _ => a | None => b end.

Definition completeAssistantTiming (m : Message) (t : num) : Message :=
  match from m with
  | ASSISTANT =>
      let s := default t (or_else (startedAt m) (createdAt m)) in
      with_timing s t (elapsed s t) m
  | _ => m
  end.

Definition startReasoningTiming (m : Message) (t : num) : Reasoning :=
  match reasoning m with
  | Some r =>
      {| reasoning_content := reasoning_content r; duration := duration r;
         r_startedAt := Some (default t (r_startedAt r));
         r_completedAt := r_completedAt r; r_durationMs := r_durationMs r |}
  | None =>
      {| reasoning_content := []; duration := NZERO; r_startedAt := Some t;
         r_completedAt := None; r_durationMs := None |}
  end.

Definition completeReasoningTiming (m : Message) (t : num) : Message :=
  match reasoning m with
  | Some {| reasoning_content := c; r_startedAt := s0; r_durationMs := None |} =>
      let s := default t (or_else s0 (startedAt m)) in
      let d := elapsed s t in
      with_reasoning (Some {| reasoning_content := c; duration := nceil (ndiv d (nZ 1000));
                              r_startedAt := Some s; r_completedAt := Some t;
                              r_durationMs := Some d |}) m
  | _ => m
  end.

Definition set_reasoning_content (c : jsstr) (r : Reasoning) : Reasoning :=
  {| reasoning_content := c; duration := duration r; r_startedAt := r_startedAt r;
     r_completedAt := r_completedAt r; r_durationMs := r_durationMs r |}.

(** ** Streaming *)

Definition processStreamingContent (m : Message) (chunk : jsstr) (t : num) : Message :=
  let full := content (getCurrentVersion m) ++ chunk in
  match reasoning m, includes OPEN full with
  | None, false => with_reasoning_streaming false (updateCurrentVersionContent m full)
  | _, _ =>
      let p := parseThinkTags full in
      let final := match tag_reasoning p with
                   | [] => reasoning m
                   | r => Some (set_reasoning_content r (startReasoningTiming m t))
                   end in
      with_reasoning_streaming (hasUnclosedTag p)
        (with_reasoning final (updateCurrentVersionContent m full))
  end.

Inductive StreamChunkType : Type := reasoning_chunk | content_chunk.

Definition getAppendableChunk (current chunk : jsstr) : jsstr :=
  match current with
  | [] => chunk
  | _ => if starts_with current chunk then drop (length current) chunk else chunk
  end.

Definition is_status (s : MessageStatus) (m : Message) : bool := bool_decide (status m = Some s).

Definition applyStreamingChunk (m : Message) (type : StreamChunkType) (chunk : jsstr) (t : num) :
    Message :=
  if is_status ERROR m then m
  else
    match type with
    | reasoning_chunk =>
        let r := startReasoningTiming m t in
        let appendable := getAppendableChunk (reasoning_content r) chunk in
        with_status STREAMING (with_reasoning_streaming true
          (with_reasoning (Some (set_reasoning_content (reasoning_content r ++ appendable) r)) m))
    | content_chunk =>
        let appendable := getAppendableChunk (content (getCurrentVersion m)) chunk in
        let cm := processStreamingContent m appendable t in
        with_status STREAMING
          (if default false (isReasoningStreaming cm) then cm else completeReasoningTiming cm t)
    end.

(** ** Finalising *)

(** [a || b] on strings, undefined being the empty string here *)
Definition str_or (a b : jsstr) : jsstr := match a with [] => b | _ => a end.

Definition finalizeMessage (m : Message) (api_reasoning : option jsstr) (t : num) : Message :=
  let c := content (getCurrentVersion m) in
  let '(visible, parsed_reasoning) :=
    if includes OPEN c then let p := parseThinkTags c in (visibleContent p, tag_reasoning p)
    else (c, []) in
  let final :=
    str_or (default [] api_reasoning)
      (str_or (from_option reasoning_content [] (reasoning m)) parsed_reasoning) in
  let r := match final with
           | [] => None
           | _ => Some (set_reasoning_content final (startReasoningTiming m t))
           end in
  completeReasoningTiming
    (with_reasoning_streaming false
       (with_reasoning r (updateCurrentVersionContent m visible))) t.

Definition completeAssistantMessage (m : Message) (t : num) : Message :=
  completeAssistantTiming (with_status COMPLETE (finalizeMessage m None t)) t.

Definition isAssistantMessageFinal (m : Message) : bool := is_status COMPLETE m || is_status ERROR m.
Definition isAssistantMessagePending (m : Message) : bool :=
  is_status LOADING m || is_status STREAMING m.
Definition is_assistant (m : Message) : bool := bool_decide (from m = ASSISTANT).
Definition isPendingAssistantMessage (m : Message) : bool :=
  is_assistant m && isAssistantMessagePending m.

(** A choice of a completion: its content and its reasoning, if given. *)
Definition applyChatCompletionChoice (m : Message) (c r : option jsstr) (t : num) : Message :=
  completeAssistantTiming
    (with_status COMPLETE
       (finalizeMessage (updateCurrentVersionContent m (default [] c)) r t)) t.

(** ** Restoring a conversation *)

(** The index of the last element that satisfies [p]. *)
Fixpoint last_index {A} (p : A → bool) (l : list A) : option nat :=
  match l with
  | [] => None
  | x :: l =>
      match last_index p l with
      | Some i => Some (S i)
      | None => if p x then Some 0 else None
      end
  end.

(** [text] is the translated notice of an interrupted generation. *)
Definition sanitized_message (m : Message) (text : jsstr) (t : num) : Message :=
  let finalized := finalizeMessage m None t in
  if hasMessageContent finalized || nonblank (from_option reasoning_content [] (reasoning finalized))
  then completeAssistantTiming (with_reasoning_streaming false (with_status COMPLETE finalized)) t
  else completeAssistantTiming
         (with_reasoning_streaming false
            (with_status ERROR (updateCurrentVersionContent finalized text))) t.

Definition sanitizeMessagesOnLoad (messages : list Message) (text : jsstr) (t : num) : list Message :=
  match last_index isPendingAssistantMessage messages with
  | None => messages
  | Some i =>
      match messages !! i with
      | Some m => <[i := sanitized_message m text t]> messages
      | None => messages
      end
  end.

(** ** Conversation *)

Definition updateLastAssistantMessage (messages : list Message) (updater : Message → Message) :
    list Message :=
  match last messages with
  | Some m => if is_assistant m then removelast messages ++ [updater m] else messages
  | None => messages
  end.

Definition updateAssistantMessageWithError (messages : list Message) (errorMessage : jsstr)
    (code : option jsstr) (title : jsstr) (t : num) : list Message :=
  updateLastAssistantMessage messages (λ m,
    completeAssistantTiming
      (with_errorCode (match code with Some [] => None | c => c end)
         (with_reasoning_streaming false
            (with_status ERROR (updateCurrentVersionContent m (title ++ js ": " ++ errorMessage))))) t).

Definition appendUserMessagePair (messages : list Message) (ids : nat → jsstr) (c : jsstr) (t : num) :
    list Message :=
  messages ++ [createUserMessage (ids 0) (ids 1) c t;
               createLoadingAssistantMessage (ids 2) (ids 3) t].

Definition createRegeneratedMessages (messages : list Message) (ids : nat → jsstr) (k : jsstr)
    (t : num) : option (list Message) :=
  i ← find_index (λ m, jseq (key m) k) messages;
  m ← messages !! i;
  Some (match from m with
        | USER => take (S i) messages
        | _ => take i messages
        end ++ [createLoadingAssistantMessage (ids 0) (ids 1) t]).

Definition removeMessageByKey (messages : list Message) (k : jsstr) : list Message :=
  List.filter (λ m, negb (jseq (key m) k)) messages.

(** [for (index = beforeIndex - 1; index >= 0; index--)] *)
Definition getPreviousUserMessage (messages : list Message) (beforeIndex : nat) : option Message :=
  i ← last_index (λ m, bool_decide (from m = USER)) (take beforeIndex messages);
  messages !! i.

Definition applyMessageEdit (messages : list Message) (ids : nat → jsstr) (k c : jsstr)
    (shouldSubmit : bool) (t : num) : option (list Message * bool) :=
  i ← find_index (λ m, jseq (key m) k) messages;
  let updated := map (λ m,
    if jseq (key m) k
    then with_createdAt (if shouldSubmit then Some t else createdAt m)
           (updateCurrentVersionContent m c)
    else m) messages in
  m ← updated !! i;
  Some (if negb shouldSubmit || negb (bool_decide (from m = USER)) then (updated, false)
        else (take (S i) updated ++ [createLoadingAssistantMessage (ids 0) (ids 1) t], true)).

(** ** Limits of stored conversations *)

Definition MAX_STORED_MESSAGES : nat := 100.
Definition MAX_LOADED_MESSAGES_CHARS : N := 120000.
Definition TRUNCATED_CONTENT_SUFFIX : jsstr := [10; 10]%N ++ js "[...]".

(** [messages.slice(-MAX_STORED_MESSAGES)] when there are more *)
Definition trimMessages (messages : list Message) : list Message :=
  drop (length messages - MAX_STORED_MESSAGES) messages.

Definition getMessageSize (m : Message) : N :=
  (fold_left (λ total v, total + N.of_nat (length (content v))) (versions m) 0
   + from_option (λ r, N.of_nat (length (reasoning_content r))) 0 (reasoning m))%N.

Definition truncateText (text : jsstr) (maxLength : N) : jsstr :=
  if (N.of_nat (length text) <=? maxLength)%N then text
  else if (maxLength <=? N.of_nat (length TRUNCATED_CONTENT_SUFFIX))%N
  then take (N.to_nat maxLength) text
  else take (N.to_nat maxLength - length TRUNCATED_CONTENT_SUFFIX) text ++ TRUNCATED_CONTENT_SUFFIX.

(** The loop from the last message backwards; [result] is kept reversed, as
    the code keeps it. *)
Fixpoint trim_loop (backwards : list Message) (totalSize : N) (result : list Message) : list Message :=
  match backwards with
  | [] => result
  | m :: backwards =>
      let size := getMessageSize m in
      match result with
      | _ :: _ =>
          if (MAX_LOADED_MESSAGES_CHARS <? totalSize + size)%N then result
          else trim_loop backwards (totalSize + size)%N (result ++ [m])
      | [] => trim_loop backwards (totalSize + size)%N (result ++ [m])
      end
  end.

Definition trimMessagesByContentSize (messages : list Message) : list Message :=
  reverse (trim_loop (reverse messages) 0 []).

(** ** Requests *)

Definition isValidMessage (m : Message) : bool :=
  match versions m with
  | [] => false
  | _ => negb (is_assistant m && negb (hasMessageContent m))
  end.

Record PlaygroundConfig : Type := {
  cfg_model : jsstr;
  cfg_group : jsstr;
  cfg_temperature : num;
  cfg_top_p : num;
  cfg_max_tokens : num;
  cfg_frequency_penalty : num;
  cfg_presence_penalty : num;
  cfg_seed : option num;
  cfg_stream : bool;
}.

Record ParameterEnabled : Type := {
  en_temperature : bool;
  en_top_p : bool;
  en_max_tokens : bool;
  en_frequency_penalty : bool;
  en_presence_penalty : bool;
  en_seed : bool;
}.

Record ChatCompletionRequest : Type := {
  req_model : jsstr;
  req_group : jsstr;
  req_messages : list (MessageRole * jsstr);
  req_stream : bool;
  req_temperature : option num;
  req_top_p : option num;
  req_max_tokens : option num;
  req_frequency_penalty : option num;
  req_presence_penalty : option num;
  req_seed : option num;
}.

Definition formatMessageForAPI (m : Message) : MessageRole * jsstr :=
  (from m, content (getCurrentVersion m)).

Definition buildChatCompletionPayload (messages : list Message) (config : PlaygroundConfig)
    (enabled : ParameterEnabled) : ChatCompletionRequest :=
  let given (b : bool) (x : num) := if b then Some x else None in
  {| req_model := cfg_model config; req_group := cfg_group config;
     req_messages := map formatMessageForAPI (List.filter isValidMessage messages);
     req_stream := cfg_stream config;
     req_temperature := given (en_temperature enabled) (cfg_temperature config);
     req_top_p := given (en_top_p enabled) (cfg_top_p config);
     req_max_tokens := given (en_max_tokens enabled) (cfg_max_tokens config);
     req_frequency_penalty := given (en_frequency_penalty enabled) (cfg_frequency_penalty config);
     req_presence_penalty := given (en_presence_penalty enabled) (cfg_presence_penalty config);
     req_seed := if en_seed enabled then cfg_seed config else None |}.

(** ** Display *)

(** The content shown for a version of a message. *)
Definition getDisplayContent (m : Message) (c : jsstr) : jsstr :=
  if negb (is_assistant m) then c
  else if negb (includes OPEN c) then c
  else visibleContent (parseThinkTags c).

Definition shouldShowMessageLoader (m : Message) (isAssistant : bool) (c : jsstr) : bool :=
  isAssistant && negb (default false (isReasoningStreaming m)) &&
  (is_status LOADING m || is_status STREAMING m && match c with [] => true | _ => false end).

Definition shouldShowMessageContent (m : Message) (c : jsstr) : bool :=
  (bool_decide (from m = USER) || negb (default false (isReasoningStreaming m))) &&
  match c with [] => false | _ => true end.

(** What is shown of a version of a message; [None] for the reasoning is the
    variant without reasoning. *)
Record MessageContentState : Type := {
  displayContent : jsstr;
  hasSources : bool;
  mcs_isAssistant : bool;
  showLoader : bool;
  showMessageContent : bool;
  mcs_sources : list (jsstr * jsstr);
  reasoningContent : option jsstr;
}.

Definition getMessageContentState (m : Message) (c : jsstr) : MessageContentState :=
  let isAssistant := is_assistant m in
  let shown := default [] (sources m) in
  {| displayContent := getDisplayContent m c;
     hasSources := match shown with [] => false | _ => true end;
     mcs_isAssistant := isAssistant;
     showLoader := shouldShowMessageLoader m isAssistant c;
     showMessageContent := shouldShowMessageContent m c;
     mcs_sources := shown;
     reasoningContent :=
       match (if isAssistant then reasoning_content <$> reasoning m else None) with
       | Some [] => None
       | r => r
       end |}.

Record MessageActionState : Type := {
  action_content : jsstr;
  hasContent : bool;
  isAssistant : bool;
  isLoading : bool;
  isUser : bool;
}.

Definition is_user (m : Message) : bool := bool_decide (from m = USER).

Definition getMessageActionState (m : Message) : MessageActionState :=
  {| action_content := getMessageContent m; hasContent := hasMessageContent m;
     isAssistant := is_assistant m; isLoading := is_status LOADING m || is_status STREAMING m;
     isUser := is_user m |}.

Record MessageEditorState : Type := { canSave : bool; hasChanged : bool; showSaveAndSubmit : bool }.

Definition getMessageEditorState (m : Message) (editText originalText : jsstr) : MessageEditorState :=
  let changed := negb (jseq editText originalText) in
  {| canSave := nonblank editText && changed; hasChanged := changed; showSaveAndSubmit := is_user m |}.

Inductive error_kind : Type := generic_error | model_price_error.
Record MessageErrorState : Type := {
  error_content : jsstr;
  error_kind_of : error_kind;
  showSettingsLink : bool;
}.

Definition FALLBACK_ERROR_CONTENT : jsstr := js "An unknown error occurred".
Definition MODEL_PRICE_ERROR_CODE : jsstr := js "model_price_error".

(** The role is a number or absent. *)
Definition isAdminRole (role : option num) : bool :=
  match role with Some r => nleb (nZ 10) r | None => false end.
Definition isErrorMessage (m : Message) : bool := is_status ERROR m.

Definition getMessageErrorState (m : Message) (isAdmin : bool) : option MessageErrorState :=
  if negb (isErrorMessage m) then None
  else
    let isModelPriceError := match errorCode m with
                             | Some (Some c) => jseq c MODEL_PRICE_ERROR_CODE
                             | _ => false
                             end in
    Some {| error_content := str_or (getMessageContent m) FALLBACK_ERROR_CONTENT;
            error_kind_of := if isModelPriceError then model_price_error else generic_error;
            showSettingsLink := isModelPriceError && isAdmin |}.

Inductive PlaygroundMessageLayoutMode : Type := layout_alternating | layout_left.
Inductive MessageAlignment : Type := align_left | align_right.

Definition getMessageAlignment (m : Message) (mode : PlaygroundMessageLayoutMode) : MessageAlignment :=
  match mode with
  | layout_left => align_left
  | layout_alternating => if is_user m then align_right else align_left
  end.

(** [!editingKey] holds of an absent and of an empty key. *)
Definition getEditingMessageContent (messages : list Message) (editingKey : option jsstr) : jsstr :=
  match editingKey with
  | None | Some [] => []
  | Some k =>
      match List.find (λ m, jseq (key m) k) messages with
      | Some m => getMessageContent m
      | None => []
      end
  end.

(** Whether the actions are always shown, the content, and whether it is
    being edited. *)
Definition getChatMessageRenderState (messages : list Message) (m : Message) (messageIndex : nat)
    (editingKey : option jsstr) : bool * jsstr * bool :=
  ((S messageIndex =? length messages) && is_assistant m, getMessageContent m,
   match editingKey with Some k => jseq k (key m) | None => false end).

(** ** Content parts *)

Inductive ContentPart : Type :=
| TextPart (text : jsstr)
| ImagePart (url : jsstr).

Definition buildMessageContent (text : jsstr) (imageUrls : list jsstr) : jsstr + list ContentPart :=
  match List.filter nonblank imageUrls with
  | [] => inl text
  | urls => inr (TextPart text :: map (λ url, ImagePart (trim url)) urls)
  end.

Definition is_text_part (p : ContentPart) : bool := match p with TextPart _ => true | _ => false end.

Definition getTextContent (c : jsstr + list ContentPart) : jsstr :=
  match c with
  | inl text => text
  | inr parts =>
      match List.find is_text_part parts with
      | Some (TextPart text) => text
      | _ => []
      end
  end.

(** The text of a composed content is the text it was composed from. *)
Lemma composed_text text urls : getTextContent (buildMessageContent text urls) = text.
Proof. unfold buildMessageContent. by destruct (List.filter _ _). Qed.
