(* ===== verification/PlaygroundStream.v ===== *)
(** * Playground streaming

    Models [hooks/use-stream-request.ts] (the stream controller),
    [lib/streaming/stream-utils.ts] and [hooks/use-chat-handler.ts] of the
    chat playground.

    The controller is a state with one function per event it listens to; each
    returns the callbacks it invokes, in order.  The chat handler reacts to
    them.  React state: an updater passed to [onMessageUpdate] is run at once
    when no other update is pending and React evaluates it eagerly, and at
    the next render otherwise; the environment chooses ([eager]).  Values the
    protocol types as strings are taken to be strings. *)
From stdpp Require Import base list option numbers sets gmap.
From Stdlib Require Import ZArith SpecFloat Lia.
From S2P Require Import Prelude.
From S2P Require Import JsString.
From S2P Require Import JsNumber.
From S2P Require Import Runtime.
From S2P Require Import Json.
From S2P Require Import JsText.
From S2P Require Import AuthStore.
From S2P Require Import Playground.

(** ** Error messages *)

Definition API_REQUEST_ERROR : jsstr := js "Request error occurred".
Definition NETWORK_ERROR : jsstr := js "Network connection failed or server not responding".
Definition PARSE_ERROR : jsstr := js "Error parsing response data".
Definition STREAM_START_ERROR : jsstr := js "Error establishing connection".
Definition CONNECTION_CLOSED : jsstr := js "Connection closed".
Definition INTERRUPTED : jsstr := js "Generation was interrupted".
Definition KNOWN_ERROR_MESSAGES : list jsstr :=
  [API_REQUEST_ERROR; NETWORK_ERROR; PARSE_ERROR; STREAM_START_ERROR; CONNECTION_CLOSED; INTERRUPTED].

(** ** Stream data *)

(** A value typed as an optional string, when it is truthy. *)
Definition truthy_string (v : jsval) : option jsstr :=
  match v with JStr (c :: s) => Some (c :: s) | _ => None end.

(** [v?.[0]] *)
Definition first_item (v : jsval) : jsval :=
  match v with
  | JArr (x :: _) => x
  | JObj fields => default JUndefined (own fields (js "0"))
  | _ => JUndefined
  end.

(** [None] when the code throws: the text is no JSON, or it is null. *)
Definition parseStreamMessageUpdates (text : jsstr) : option (list (StreamChunkType * jsstr)) :=
  chunk ← json_parse text;
  if is_nullish chunk then None
  else
    let delta := prop (first_item (prop chunk (js "choices"))) (js "delta") in
    Some (match truthy_string (prop delta (js "reasoning_content")) with
          | Some r => [(reasoning_chunk, r)]
          | None => []
          end ++
          match truthy_string (prop delta (js "content")) with
          | Some c => [(content_chunk, c)]
          | None => []
          end).

Definition isStreamDoneMessage (text : jsstr) : bool := jseq text (js "[DONE]").

(** The error message and code of an error event's data. *)
Definition parseStreamErrorDetails (text : option jsstr) : jsstr * option jsstr :=
  match text with
  | None | Some [] => (API_REQUEST_ERROR, None)
  | Some fallback =>
      match json_parse fallback with
      | None => (fallback, None)
      | Some parsed =>
          let e := prop parsed (js "error") in
          (default fallback (truthy_string (prop e (js "message"))),
           truthy_string (prop e (js "code")))
      end
  end.

(** Message and code of a failed request; the chains [?.] read undefined
    where a part is missing. *)
Definition parseRequestErrorDetails (error : jsval) : jsstr * option jsstr :=
  let data := prop (prop error (js "response")) (js "data") in
  let message :=
    match truthy_string (prop data (js "message")) with
    | Some m => m
    | None => default API_REQUEST_ERROR (truthy_string (prop error (js "message")))
    end in
  (message, truthy_string (prop (prop data (js "error")) (js "code"))).

Definition isStreamClosedReadyState (readyState : option Z) : bool :=
  bool_decide (readyState = Some 2%Z).

(** [HTTP ${status}: ...] of a closed stream whose status is not 200 *)
Definition getStreamReadyStateError (readyState status : option Z) : option jsstr :=
  match readyState, status with
  | Some r, Some s =>
      if (2 <=? r)%Z && negb (s =? 200)%Z
      then Some (js "HTTP " ++ number_to_string (nZ s) ++ js ": " ++ CONNECTION_CLOSED)
      else None
  | _, _ => None
  end.

(** ** The stream controller *)

Inductive stage : Type :=
| AwaitHeaders
| Active (completed : bool)
| Gone.

(** A request; [tag] identifies the callbacks it was given. *)
Record request : Type := { tag : nat; req_stage : stage }.

(** A source has the number of the request that created it. *)
Record controller : Type := {
  generation : nat;
  source : option nat;
  reqs : gmap nat request;
  streaming : bool;
  closed : list nat;
}.

Definition initial_controller : controller :=
  {| generation := 0; source := None; reqs := ∅; streaming := false; closed := [] |}.

Inductive callback : Type :=
| OnUpdate (type : StreamChunkType) (chunk : jsstr)
| OnComplete
| OnError (error : jsstr) (code : option jsstr).

(** What the controller calls: the request, the tag of its callbacks and the
    callback. *)
Definition emitted : Type := list (nat * nat * callback).

Definition set_stage (g : nat) (r : request) (s : stage) (c : controller) : controller :=
  {| generation := generation c; source := source c;
     reqs := <[g := {| tag := tag r; req_stage := s |}]> (reqs c);
     streaming := streaming c; closed := closed c |}.

Definition closeActiveSource (g : nat) (c : controller) : controller :=
  if bool_decide (source c = Some g)
  then {| generation := generation c; source := None; reqs := reqs c; streaming := false;
          closed := closed c ++ [g] |}
  else {| generation := generation c; source := source c; reqs := reqs c; streaming := streaming c;
          closed := closed c ++ [g] |}.

(** [previousSource?.close()] *)
Definition closing (s : option nat) (l : list nat) : list nat :=
  match s with Some g => l ++ [g] | None => l end.

(** [send] up to its [await]; the request gets the next generation. *)
Definition ctl_send (t : nat) (c : controller) : controller :=
  let g := S (generation c) in
  {| generation := g; source := None;
     reqs := <[g := {| tag := t; req_stage := AwaitHeaders |}]> (reqs c);
     streaming := false; closed := closing (source c) (closed c) |}.

Definition isCurrentSource (g : nat) (c : controller) : bool :=
  (generation c =? g) && bool_decide (source c = Some g).

Definition handleError (g : nat) (r : request) (completed : bool) (e : jsstr) (code : option jsstr)
    (c : controller) : controller * emitted :=
  if negb (isCurrentSource g c) || completed then (c, [])
  else (closeActiveSource g (set_stage g r (Active true) c), [(g, tag r, OnError e code)]).

(** [send] from its [await] on.  The headers, or the message of the failure
    ([None] when the error is no [Error]); [throws]: [nextSource.stream()]
    throws. *)
Definition ctl_headers (g : nat) (headers : result (option jsstr) ()) (throws : bool)
    (c : controller) : option (controller * emitted) :=
  match reqs c !! g with
  | Some r =>
      match req_stage r with
      | AwaitHeaders =>
          if negb (generation c =? g) then Some (set_stage g r Gone c, [])
          else match headers with
          | Err e => Some (set_stage g r Gone c, [(g, tag r, OnError (default STREAM_START_ERROR e) None)])
          | Ok _ =>
              let c := {| generation := generation c; source := Some g; reqs := reqs c;
                          streaming := true; closed := closed c |} in
              let c := set_stage g r (Active false) c in
              Some (if throws then handleError g r false STREAM_START_ERROR None c else (c, []))
          end
      | _ => None
      end
  | None => None
  end.

(** The events of source [g]. *)
Inductive source_event : Type :=
| SMessage (text : option jsstr)
| SError (text : option jsstr) (readyState : option Z)
| SReadyState (readyState status : option Z).

Definition ctl_event (g : nat) (e : source_event) (c : controller) : option (controller * emitted) :=
  match reqs c !! g with
  | Some r =>
      match req_stage r with
      | Active completed =>
          Some
            (if negb (isCurrentSource g c) || completed then (c, [])
             else match e with
             | SMessage text =>
                 let text := default [] text in
                 if isStreamDoneMessage text
                 then (closeActiveSource g (set_stage g r (Active true) c), [(g, tag r, OnComplete)])
                 else match parseStreamMessageUpdates text with
                 | Some updates => (c, map (λ '(ty, ch), (g, tag r, OnUpdate ty ch)) updates)
                 | None => handleError g r completed PARSE_ERROR None c
                 end
             | SError text readyState =>
                 if isStreamClosedReadyState readyState then (c, [])
                 else let '(message, code) := parseStreamErrorDetails text in
                      handleError g r completed message code c
             | SReadyState readyState status =>
                 match getStreamReadyStateError readyState status with
                 | Some message => handleError g r completed message None c
                 | None => (c, [])
                 end
             end)
      | _ => None
      end
  | None => None
  end.

(** [stop] ([notify]) and [dispose] *)
Definition ctl_cancel (notify : bool) (c : controller) : controller :=
  {| generation := S (generation c); source := None; reqs := reqs c;
     streaming := if notify then false else streaming c;
     closed := closing (source c) (closed c) |}.

(** ** Executions of the controller *)

Inductive ctl_op : Type :=
| Send (t : nat)
| Headers (g : nat) (headers : result (option jsstr) ()) (throws : bool)
| SourceEvent (g : nat) (e : source_event)
| Stop
| Dispose.

Definition ctl_step (o : ctl_op) (c : controller) : option (controller * emitted) :=
  match o with
  | Send t => Some (ctl_send t c, [])
  | Headers g h throws => ctl_headers g h throws c
  | SourceEvent g e => ctl_event g e c
  | Stop => Some (ctl_cancel true c, [])
  | Dispose => Some (ctl_cancel false c, [])
  end.

Fixpoint ctl_exec (os : list ctl_op) (c : controller) : option (controller * emitted) :=
  match os with
  | [] => Some (c, [])
  | o :: os =>
      '(c, calls) ← ctl_step o c;
      '(c, more) ← ctl_exec os c;
      Some (c, calls ++ more)
  end.

(** ** The chat handler *)

Section Chat.
(** Translation of the interface texts. *)
Context (t : jsstr → jsstr).

Record PendingStreamChunks : Type := {
  pending_generation : nat;
  pending_content : jsstr;
  pending_reasoning : jsstr;
}.

(** The updaters passed to [onMessageUpdate], with the values they close
    over. *)
Inductive updater : Type :=
| UFlush (generation : nat) (chunks : PendingStreamChunks)
| UComplete (generation : nat)
| UError (generation : nat) (message : jsstr) (code : option jsstr)
| UResponse (generation : nat) (content reasoning : option jsstr)
| UStop (generation : nat)
| USet (messages : list Message).

Record chat : Type := {
  ctl : controller;
  requestGeneration : nat;
  pending : PendingStreamChunks;
  (** the generation a scheduled flush was set for *)
  flushTimer : option nat;
  (** the generation whose [AbortController] is stored *)
  abortController : option nat;
  aborted : gset nat;
  (** the non-streaming requests that have not been answered *)
  outstanding : gset nat;
  isRequesting : bool;
  messages : list Message;
  queue : list updater;
}.

Definition empty_chunks (g : nat) : PendingStreamChunks :=
  {| pending_generation := g; pending_content := []; pending_reasoning := [] |}.

Definition mergePendingStreamChunk (current next : jsstr) : jsstr :=
  match current with
  | [] => next
  | _ => if starts_with current next then next else current ++ next
  end.

(** An updater, run when [requestGenerationRef.current] is [now_gen]. *)
Definition run_updater (now_gen : nat) (u : updater) (time : num) (prev : list Message) :
    list Message :=
  match u with
  | UFlush g chunks =>
      if negb (g =? now_gen) then prev
      else updateLastAssistantMessage prev (λ m,
        let m := match pending_reasoning chunks with
                 | [] => m
                 | r => applyStreamingChunk m reasoning_chunk r time
                 end in
        match pending_content chunks with
        | [] => m
        | c => applyStreamingChunk m content_chunk c time
        end)
  | UComplete g =>
      if negb (g =? now_gen) then prev
      else updateLastAssistantMessage prev (λ m,
        if isAssistantMessageFinal m then m else completeAssistantMessage m time)
  | UError g message code =>
      if negb (g =? now_gen) then prev
      else updateAssistantMessageWithError prev message code (t API_REQUEST_ERROR) time
  | UResponse g c r =>
      if negb (g =? now_gen) then prev
      else updateLastAssistantMessage prev (λ m, applyChatCompletionChoice m c r time)
  | UStop g =>
      if negb (g =? now_gen) then prev
      else updateLastAssistantMessage prev (λ m,
        if isAssistantMessagePending m then completeAssistantMessage m time else m)
  | USet ms => ms
  end.

(** Assignments. *)
Definition with_messages (ms : list Message) (q : list updater) (s : chat) : chat :=
  {| ctl := ctl s; requestGeneration := requestGeneration s; pending := pending s;
     flushTimer := flushTimer s; abortController := abortController s; aborted := aborted s; outstanding := outstanding s;
     isRequesting := isRequesting s; messages := ms; queue := q |}.
Definition with_pending (p : PendingStreamChunks) (timer : option nat) (s : chat) : chat :=
  {| ctl := ctl s; requestGeneration := requestGeneration s; pending := p;
     flushTimer := timer; abortController := abortController s; aborted := aborted s; outstanding := outstanding s;
     isRequesting := isRequesting s; messages := messages s; queue := queue s |}.
Definition with_requesting (b : bool) (s : chat) : chat :=
  {| ctl := ctl s; requestGeneration := requestGeneration s; pending := pending s;
     flushTimer := flushTimer s; abortController := abortController s; aborted := aborted s; outstanding := outstanding s;
     isRequesting := b; messages := messages s; queue := queue s |}.
Definition with_generation (g : nat) (s : chat) : chat :=
  {| ctl := ctl s; requestGeneration := g; pending := pending s;
     flushTimer := flushTimer s; abortController := abortController s; aborted := aborted s; outstanding := outstanding s;
     isRequesting := isRequesting s; messages := messages s; queue := queue s |}.
Definition with_ctl (c : controller) (s : chat) : chat :=
  {| ctl := c; requestGeneration := requestGeneration s; pending := pending s;
     flushTimer := flushTimer s; abortController := abortController s; aborted := aborted s; outstanding := outstanding s;
     isRequesting := isRequesting s; messages := messages s; queue := queue s |}.

Definition with_outstanding (o : gset nat) (s : chat) : chat :=
  {| ctl := ctl s; requestGeneration := requestGeneration s; pending := pending s;
     flushTimer := flushTimer s; abortController := abortController s; aborted := aborted s;
     outstanding := o; isRequesting := isRequesting s; messages := messages s; queue := queue s |}.

(** [abortControllerRef.current?.abort(); abortControllerRef.current = next] *)
Definition replace_abort (next : option nat) (s : chat) : chat :=
  {| ctl := ctl s; requestGeneration := requestGeneration s; pending := pending s;
     flushTimer := flushTimer s; abortController := next;
     aborted := match abortController s with Some g => {[g]} ∪ aborted s | None => aborted s end;
     outstanding := outstanding s;
     isRequesting := isRequesting s; messages := messages s; queue := queue s |}.

(** [onMessageUpdate(updater)] *)
Definition onMessageUpdate (eager : bool) (time : num) (u : updater) (s : chat) : chat :=
  match eager, queue s with
  | true, [] => with_messages (run_updater (requestGeneration s) u time (messages s)) [] s
  | _, q => with_messages (messages s) (q ++ [u]) s
  end.

(** A render runs the queued updaters in order. *)
Definition render (time : num) (s : chat) : chat :=
  with_messages (fold_left (λ ms u, run_updater (requestGeneration s) u time ms) (queue s) (messages s))
    [] s.

Definition discardPendingStreamUpdates (g : nat) (s : chat) : chat :=
  with_pending (empty_chunks g) None s.

Definition flushStreamUpdates (eager : bool) (time : num) (g : nat) (s : chat) : chat :=
  if negb (g =? requestGeneration s) then s
  else
    let s := with_pending (pending s) None s in
    let chunks := pending s in
    if negb (pending_generation chunks =? g) then s
    else match pending_reasoning chunks, pending_content chunks with
    | [], [] => s
    | _, _ => onMessageUpdate eager time (UFlush g chunks) (with_pending (empty_chunks g) None s)
    end.

Definition scheduleStreamFlush (g : nat) (s : chat) : chat :=
  if negb (g =? requestGeneration s) then s
  else match flushTimer s with
  | Some _ => s
  | None => with_pending (pending s) (Some g) s
  end.

Definition getDisplayError (e : jsstr) : jsstr :=
  let suffix := js ": " ++ CONNECTION_CLOSED in
  if str_in e KNOWN_ERROR_MESSAGES then t e
  else if ends_with suffix e
  then take (length e - length CONNECTION_CLOSED) e ++ t CONNECTION_CLOSED
  else e.

Definition handleStreamUpdate (g : nat) (type : StreamChunkType) (chunk : jsstr) (s : chat) : chat :=
  if negb (g =? requestGeneration s) || negb (pending_generation (pending s) =? g) then s
  else
    let p := pending s in
    let p := match type with
             | content_chunk =>
                 {| pending_generation := pending_generation p;
                    pending_content := mergePendingStreamChunk (pending_content p) chunk;
                    pending_reasoning := pending_reasoning p |}
             | reasoning_chunk =>
                 {| pending_generation := pending_generation p;
                    pending_content := pending_content p;
                    pending_reasoning := mergePendingStreamChunk (pending_reasoning p) chunk |}
             end in
    scheduleStreamFlush g (with_pending p (flushTimer s) s).

Definition handleStreamComplete (eager : bool) (time : num) (g : nat) (s : chat) : chat :=
  if negb (g =? requestGeneration s) then s
  else onMessageUpdate eager time (UComplete g)
         (with_requesting false (flushStreamUpdates eager time g s)).

Definition handleStreamError (eager : bool) (time : num) (g : nat) (e : jsstr) (code : option jsstr)
    (s : chat) : chat :=
  if negb (g =? requestGeneration s) then s
  else onMessageUpdate eager time (UError g (getDisplayError e) code)
         (with_requesting false (flushStreamUpdates eager time g s)).

(** The callbacks [sendStreamingChat] passes to the controller. *)
Definition on_callback (eager : bool) (time : num) (s : chat) (e : nat * nat * callback) : chat :=
  match e with
  | (_, g, OnUpdate type chunk) => handleStreamUpdate g type chunk s
  | (_, g, OnComplete) => handleStreamComplete eager time g s
  | (_, g, OnError error code) => handleStreamError eager time g error code s
  end.

Definition sendStreamingChat (s : chat) : chat :=
  let g := S (requestGeneration s) in
  let s := with_generation g s in
  let s := replace_abort None s in
  let s := discardPendingStreamUpdates g s in
  let s := with_requesting true s in
  with_ctl (ctl_send g (ctl s)) s.

(** [sendNonStreamingChat] up to its [await] *)
Definition sendNonStreamingChat (s : chat) : chat :=
  let g := S (requestGeneration s) in
  let s := with_generation g s in
  let s := with_ctl (ctl_cancel true (ctl s)) s in
  let s := discardPendingStreamUpdates g s in
  let s := replace_abort (Some g) s in
  let s := with_requesting true s in
  with_outstanding ({[g]} ∪ outstanding s) s.

(** ... and from there on: the first choice of the response, if it has one,
    or the message and code of the failure. *)
Definition chat_response (eager : bool) (time : num) (g : nat)
    (r : result (jsstr * option jsstr) (option (option jsstr * option jsstr))) (s : chat) : chat :=
  let s := with_outstanding (outstanding s ∖ {[g]}) s in
  let s :=
    if bool_decide (g ∈ aborted s) || negb (requestGeneration s =? g) then s
    else match r with
         | Ok None => handleStreamError eager time g API_REQUEST_ERROR None s
         | Ok (Some (c, reas)) => onMessageUpdate eager time (UResponse g c reas) s
         | Err (message, code) => handleStreamError eager time g message code s
         end in
  if negb (requestGeneration s =? g) then s
  else with_requesting false
    {| ctl := ctl s; requestGeneration := requestGeneration s; pending := pending s;
       flushTimer := flushTimer s; abortController := None; aborted := aborted s;
       outstanding := outstanding s;
       isRequesting := isRequesting s; messages := messages s; queue := queue s |}.

Definition sendChat (stream : bool) (s : chat) : chat :=
  if stream then sendStreamingChat s else sendNonStreamingChat s.

Definition stopGeneration (eager : bool) (time : num) (s : chat) : chat :=
  let stopped := requestGeneration s in
  let s := flushStreamUpdates eager time stopped s in
  let idle := S stopped in
  let s := with_generation idle s in
  let s := discardPendingStreamUpdates idle s in
  let s := with_ctl (ctl_cancel true (ctl s)) s in
  let s := replace_abort None s in
  let s := with_requesting false s in
  onMessageUpdate eager time (UStop idle) s.

(** ** Executions of the chat *)

(** What arrives from outside while the user does nothing. *)
Inductive background : Type :=
| BController (o : ctl_op) (eager : bool) (time : num)
| BFlushTimer (eager : bool) (time : num)
| BResponse (g : nat) (r : result (jsstr * option jsstr) (option (option jsstr * option jsstr)))
    (eager : bool) (time : num)
| BRender (time : num).

Definition is_source_op (o : ctl_op) : bool :=
  match o with Headers _ _ _ | SourceEvent _ _ => true | _ => false end.

Definition background_step (b : background) (s : chat) : option chat :=
  match b with
  | BController o eager time =>
      if is_source_op o then
        '(c, calls) ← ctl_step o (ctl s);
        Some (fold_left (on_callback eager time) calls (with_ctl c s))
      else None
  | BFlushTimer eager time =>
      g ← flushTimer s; Some (flushStreamUpdates eager time g s)
  | BResponse g r eager time =>
      if bool_decide (g ∈ outstanding s) then Some (chat_response eager time g r s) else None
  | BRender time => Some (render time s)
  end.

Fixpoint background_exec (bs : list background) (s : chat) : option chat :=
  match bs with
  | [] => Some s
  | b :: bs => s' ← background_step b s; background_exec bs s'
  end.

(** The operations of the page. *)
Inductive chat_op : Type :=
| CBackground (b : background)
| CSend (stream : bool) (ms : list Message) (eager : bool) (time : num)
| CStop (eager : bool) (time : num)
| CEdit (ms : list Message) (eager : bool) (time : num).

Definition chat_step (o : chat_op) (s : chat) : option chat :=
  match o with
  | CBackground b => background_step b s
  | CSend stream ms eager time => Some (sendChat stream (onMessageUpdate eager time (USet ms) s))
  | CStop eager time => Some (stopGeneration eager time s)
  | CEdit ms eager time => Some (onMessageUpdate eager time (USet ms) s)
  end.

Fixpoint chat_exec (os : list chat_op) (s : chat) : option chat :=
  match os with
  | [] => Some s
  | o :: os => s' ← chat_step o s; chat_exec os s'
  end.

Definition initial_chat (ms : list Message) : chat :=
  {| ctl := initial_controller; requestGeneration := 0; pending := empty_chunks 0;
     flushTimer := None; abortController := None; aborted := ∅; outstanding := ∅; isRequesting := false;
     messages := ms; queue := [] |}.

End Chat.

#[global] Arguments parseStreamMessageUpdates : simpl never.
#[global] Arguments parseStreamErrorDetails : simpl never.
#[global] Arguments getStreamReadyStateError : simpl never.
#[global] Arguments isStreamDoneMessage : simpl never.
#[global] Arguments isStreamClosedReadyState : simpl never.
