(* ===== verification/PlaygroundFacts.v ===== *)
(** * Facts about the playground

    The stream controller calls back in order and only for the latest
    request, a stopped generation is final, think tags are separated exactly,
    and restored conversations are settled and bounded. *)
From stdpp Require Import base list option numbers sets gmap.
From Stdlib Require Import ZArith SpecFloat Lia.
From S2P Require Import Prelude.
From S2P Require Import JsString.
From S2P Require Import JsNumber.
From S2P Require Import Runtime.
From S2P Require Import Json.
From S2P Require Import JsText.
From S2P Require Import AuthStore.
From S2P Require Import Playground.
From S2P Require Import PlaygroundStream.

(** ** The stream controller *)

(** The callbacks of request [g], in order. *)
Definition calls_of (g : nat) (calls : emitted) : list callback :=
  omap (λ '(g', _, cb), if g' =? g then Some cb else None) calls.

Definition is_update (cb : callback) : bool :=
  match cb with OnUpdate _ _ => true | _ => false end.

(** Updates, then at most one completion or error. *)
Definition in_order (cs : list callback) : Prop :=
  ∃ us tail, cs = us ++ tail ∧ forallb is_update us = true ∧
    (tail = [] ∨ ∃ cb, tail = [cb] ∧ is_update cb = false).

(** What has been called back, by stage of the request. *)
Definition stage_calls (s : stage) (cs : list callback) : Prop :=
  match s with
  | AwaitHeaders => cs = []
  | Active false => forallb is_update cs = true
  | Active true => ∃ us cb, cs = us ++ [cb] ∧ forallb is_update us = true ∧ is_update cb = false
  | Gone => cs = [] ∨ ∃ cb, cs = [cb] ∧ is_update cb = false
  end.

Lemma stage_calls_in_order s cs : stage_calls s cs → in_order cs.
Proof.
  unfold in_order. destruct s as [|[]|]; cbn.
  - intros ->. exists [], []. auto.
  - intros (us & cb & -> & U & T). exists us, [cb]. eauto 6.
  - intros U. exists cs, []. rewrite app_nil_r. auto.
  - intros [-> |(cb & -> & T)]; [exists [], []; auto|exists [], [cb]; eauto 6].
Qed.

Lemma calls_of_app g a b : calls_of g (a ++ b) = calls_of g a ++ calls_of g b.
Proof. apply omap_app. Qed.

Lemma calls_of_one g g' t cb :
  calls_of g [(g', t, cb)] = if g' =? g then [cb] else [].
Proof. unfold calls_of. cbn. by destruct (g' =? g). Qed.

Lemma calls_of_updates g g' t (us : list (StreamChunkType * jsstr)) :
  calls_of g (map (λ '(ty, ch), (g', t, OnUpdate ty ch)) us)
  = if g' =? g then map (λ '(ty, ch), OnUpdate ty ch) us else [].
Proof.
  unfold calls_of. induction us as [|[ty ch] us IH]; cbn; [by case_match|].
  rewrite IH. by destruct (g' =? g).
Qed.

Record ctl_inv (c : controller) (calls : emitted) : Prop := {
  inv_known : ∀ g r, reqs c !! g = Some r →
    g ≤ generation c ∧ stage_calls (req_stage r) (calls_of g calls);
  inv_unknown : ∀ g, reqs c !! g = None → calls_of g calls = [];
  inv_source : ∀ g, source c = Some g →
    generation c = g ∧ ∃ t, reqs c !! g = Some {| tag := t; req_stage := Active false |};
  inv_closed : ∀ g r b, reqs c !! g = Some r → req_stage r = Active b →
    source c = Some g ∨ g ∈ closed c;
}.

Lemma ctl_inv_init : ctl_inv initial_controller [].
Proof. constructor; cbn; intros; try done; by rewrite lookup_empty in *. Qed.

Lemma elem_closing g s l : g ∈ closing s l ↔ s = Some g ∨ g ∈ l.
Proof. destruct s; cbn; [rewrite elem_of_app, list_elem_of_singleton|]; naive_solver. Qed.

(** Dropping the source: [send] and [cancel]. *)
Lemma ctl_inv_cancel notify c calls : ctl_inv c calls → ctl_inv (ctl_cancel notify c) calls.
Proof.
  intros [K U SO L]. constructor; cbn; try done.
  - intros g r E. destruct (K g r E). split; [lia|done].
  - intros g r b E B. right. apply elem_closing. eauto.
Qed.

Lemma ctl_inv_send t c calls :
  ctl_inv c calls → ctl_inv (ctl_send t c) calls.
Proof.
  intros [K U SO L].
  assert (reqs c !! S (generation c) = None) as N.
  { destruct (reqs c !! S (generation c)) eqn:E; [|done]. apply K in E as [E _]. lia. }
  constructor; cbn; try done.
  - intros g r. rewrite lookup_insert_Some. intros [[<- <-]|[_ E]];
      [split; [done|by apply U]|].
    destruct (K g r E). split; [lia|done].
  - intros g [E _]%lookup_insert_None. auto.
  - intros g r b. rewrite lookup_insert_Some. intros [[<- <-]|[_ E]]; [done|].
    intros B. right. apply elem_closing. eauto.
Qed.

(** Replacing the stage of a request that is not the source's. *)
Lemma ctl_inv_stage g r st c calls new :
  ctl_inv c calls → reqs c !! g = Some r → source c ≠ Some g →
  (∀ b, st = Active b → g ∈ closed c) →
  (∀ k, k ≠ g → calls_of k new = []) →
  stage_calls st (calls_of g (calls ++ new)) →
  ctl_inv (set_stage g r st c) (calls ++ new).
Proof.
  intros [K U SO L] E N A O T. constructor; cbn.
  - intros k q. rewrite lookup_insert_Some. intros [[<- <-]|[NE Q]].
    + split; [by apply (K g r)|done].
    + rewrite calls_of_app, (O k), app_nil_r by done. by apply K.
  - intros k [Q NE]%lookup_insert_None. rewrite calls_of_app, (O k), app_nil_r by done. by apply U.
  - intros k Q. destruct (SO k Q) as (G & t & R). split; [done|]. exists t.
    rewrite lookup_insert_ne; [done|congruence].
  - intros k q b. rewrite lookup_insert_Some. intros [[<- <-]|[NE Q]] B; [right; by eapply A|eauto].
Qed.

Lemma isCurrentSource_true g c : isCurrentSource g c = true ↔ generation c = g ∧ source c = Some g.
Proof.
  unfold isCurrentSource. rewrite andb_true_iff, Nat.eqb_eq, bool_decide_eq_true. done.
Qed.

(** A terminal callback of the current source. *)
Lemma ctl_inv_terminal g r cb c calls :
  ctl_inv c calls → reqs c !! g = Some r → req_stage r = Active false →
  isCurrentSource g c = true → is_update cb = false →
  ctl_inv (closeActiveSource g (set_stage g r (Active true) c)) (calls ++ [(g, tag r, cb)]).
Proof.
  intros [K U SO L] E A [G C]%isCurrentSource_true T.
  unfold closeActiveSource. cbn. rewrite C, bool_decide_eq_true_2 by done.
  assert (∀ k, calls_of k (calls ++ [(g, tag r, cb)])
               = calls_of k calls ++ if g =? k then [cb] else []) as CO
    by (intros k; by rewrite calls_of_app, calls_of_one).
  constructor; cbn; try done.
  - intros k q. rewrite lookup_insert_Some, CO. intros [[<- <-]|[NE Q]].
    + split; [lia|]. cbn. rewrite Nat.eqb_refl. destruct (K g r E) as [_ X]. rewrite A in X.
      eauto.
    + rewrite (proj2 (Nat.eqb_neq g k)), app_nil_r by done. auto.
  - intros k [Q NE]%lookup_insert_None.
    rewrite CO, (proj2 (Nat.eqb_neq g k)), app_nil_r by done. auto.
  - intros k q b. rewrite lookup_insert_Some. intros [[<- <-]|[NE Q]] B; right; apply elem_of_app.
    + right. by apply list_elem_of_singleton.
    + left. destruct (L k q b Q B) as [X|]; [congruence|done].
Qed.

(** Updates of the current source. *)
Lemma ctl_inv_updates g r us c calls :
  ctl_inv c calls → reqs c !! g = Some r → req_stage r = Active false →
  ctl_inv c (calls ++ map (λ '(ty, ch), (g, tag r, OnUpdate ty ch)) us).
Proof.
  intros [K U SO L] E A.
  assert (∀ k, calls_of k (calls ++ map (λ '(ty, ch), (g, tag r, OnUpdate ty ch)) us)
               = calls_of k calls ++ if g =? k then map (λ '(ty, ch), OnUpdate ty ch) us else []) as CO
    by (intros k; by rewrite calls_of_app, calls_of_updates).
  constructor; try done.
  - intros k q Q. rewrite CO. destruct (K k q Q) as [G X]. split; [done|].
    destruct (Nat.eqb_spec g k) as [<-|NE]; [|by rewrite app_nil_r].
    rewrite E in Q. injection Q as <-. rewrite A in X |- *. cbn in *.
    rewrite forallb_app, X. clear. induction us as [|[] us IH]; [done|]. cbn. by apply IH.
  - intros k Q. rewrite CO, (U k Q). destruct (Nat.eqb_spec g k); [congruence|done].
Qed.

Lemma ctl_inv_handleError g r b e code c calls :
  ctl_inv c calls → reqs c !! g = Some r → req_stage r = Active b →
  ctl_inv (fst (handleError g r b e code c)) (calls ++ snd (handleError g r b e code c)).
Proof.
  intros I E A. unfold handleError.
  destruct (isCurrentSource g c) eqn:C; cbn; [|by rewrite app_nil_r].
  destruct b; cbn; [by rewrite app_nil_r|]. by apply ctl_inv_terminal.
Qed.

(** Opening the source of the latest request. *)
Lemma ctl_inv_open g r c calls :
  ctl_inv c calls → reqs c !! g = Some r → req_stage r = AwaitHeaders → generation c = g →
  ctl_inv (set_stage g r (Active false)
    {| generation := generation c; source := Some g; reqs := reqs c; streaming := true;
       closed := closed c |}) calls.
Proof.
  intros [K U SO L] E A G. constructor; cbn.
  - intros k q. rewrite lookup_insert_Some. intros [[<- <-]|[NE Q]]; [|auto].
    split; [lia|]. cbn. destruct (K g r E) as [_ X]. rewrite A in X. cbn in X. by rewrite X.
  - intros k [Q NE]%lookup_insert_None. auto.
  - intros k [= <-]. split; [done|]. exists (tag r). by rewrite lookup_insert_eq.
  - intros k q b. rewrite lookup_insert_Some. intros [[<- <-]|[NE Q]] B; [by left|].
    destruct (L k q b Q B) as [X|]; [|by right]. exfalso. destruct (SO k X) as [G' _]. congruence.
Qed.

Lemma ctl_inv_headers g h throws c c' new calls :
  ctl_inv c calls → ctl_headers g h throws c = Some (c', new) → ctl_inv c' (calls ++ new).
Proof.
  intros I. unfold ctl_headers. destruct (reqs c !! g) as [r|] eqn:E; [|done].
  destruct (req_stage r) eqn:A; try done.
  assert (source c ≠ Some g) as N.
  { intros S. apply (inv_source _ _ I) in S as (_ & t & Q). rewrite E in Q. by simplify_eq/=. }
  destruct (inv_known _ _ I g r E) as [_ C]. rewrite A in C. cbn in C.
  destruct (Nat.eqb_spec (generation c) g) as [G|G]; cbn [negb].
  - destruct h as [[]|err].
    + pose proof (ctl_inv_open g r c calls I E A G) as O.
      destruct throws; intros X%(inj Some); [|injection X as <- <-; by rewrite app_nil_r].
      pose proof (ctl_inv_handleError g {| tag := tag r; req_stage := Active false |} false
        STREAM_START_ERROR None _ calls O) as Y.
      cbn in Y. rewrite lookup_insert_eq in Y. specialize (Y eq_refl eq_refl).
      change (handleError g {| tag := tag r; req_stage := Active false |} false STREAM_START_ERROR None)
        with (handleError g r false STREAM_START_ERROR None) in Y.
      by rewrite X in Y.
    + intros [= <- <-]. apply ctl_inv_stage; try done.
      * intros k K. rewrite calls_of_one. by destruct (Nat.eqb_spec g k); [congruence|].
      * rewrite calls_of_app, C, calls_of_one, Nat.eqb_refl. cbn. eauto.
  - intros [= <- <-]. apply ctl_inv_stage; try done. rewrite app_nil_r, C. cbn. auto.
Qed.

Lemma ctl_inv_event g e c c' new calls :
  ctl_inv c calls → ctl_event g e c = Some (c', new) → ctl_inv c' (calls ++ new).
Proof.
  intros I. unfold ctl_event. destruct (reqs c !! g) as [r|] eqn:E; [|done].
  destruct (req_stage r) as [|b|] eqn:A; try done. intros X%(inj Some).
  destruct (isCurrentSource g c) eqn:C; cbn in X; [|injection X as <- <-; by rewrite app_nil_r].
  destruct b; [injection X as <- <-; by rewrite app_nil_r|].
  assert (∀ m k, ctl_inv (fst (handleError g r false m k c)) (calls ++ snd (handleError g r false m k c)))
    as H by (intros m k; by apply ctl_inv_handleError).
  destruct e as [text|text rs|rs st].
  - destruct (isStreamDoneMessage _); [injection X as <- <-; by apply ctl_inv_terminal|].
    destruct (parseStreamMessageUpdates _) as [us|]; [injection X as <- <-; by apply ctl_inv_updates|].
    specialize (H PARSE_ERROR None). by rewrite X in H.
  - destruct (isStreamClosedReadyState _); [injection X as <- <-; by rewrite app_nil_r|].
    destruct (parseStreamErrorDetails text) as [m k]. specialize (H m k). by rewrite X in H.
  - destruct (getStreamReadyStateError _ _) as [m|]; [|injection X as <- <-; by rewrite app_nil_r].
    specialize (H m None). by rewrite X in H.
Qed.

Lemma ctl_inv_step o c c' new calls :
  ctl_inv c calls → ctl_step o c = Some (c', new) → ctl_inv c' (calls ++ new).
Proof.
  destruct o; cbn; intros I.
  - intros [= <- <-]. rewrite app_nil_r. by apply ctl_inv_send.
  - by apply ctl_inv_headers.
  - by apply ctl_inv_event.
  - intros [= <- <-]. rewrite app_nil_r. by apply ctl_inv_cancel.
  - intros [= <- <-]. rewrite app_nil_r. by apply ctl_inv_cancel.
Qed.

Lemma ctl_exec_cons o os c c' calls :
  ctl_exec (o :: os) c = Some (c', calls) →
  ∃ c1 a b, ctl_step o c = Some (c1, a) ∧ ctl_exec os c1 = Some (c', b) ∧ calls = a ++ b.
Proof.
  cbn. intros ([c1 a] & S & ([c2 b] & X & [= <- <-])%bind_Some)%bind_Some. eauto 7.
Qed.

Lemma ctl_inv_exec os c c' new calls :
  ctl_inv c calls → ctl_exec os c = Some (c', new) → ctl_inv c' (calls ++ new).
Proof.
  revert c new calls. induction os as [|o os IH]; intros c new calls I.
  - intros [= <- <-]. by rewrite app_nil_r.
  - intros (c1 & a & b & S & X & ->)%ctl_exec_cons. rewrite app_assoc.
    eauto using ctl_inv_step.
Qed.

(** *** Silence of superseded requests *)

(** A step calls back for the latest request only, and never goes back. *)
Lemma handleError_current g r b e code c k :
  k ≠ generation c → calls_of k (snd (handleError g r b e code c)) = [].
Proof.
  intros N. unfold handleError. destruct (isCurrentSource g c) eqn:C; cbn; [|done].
  destruct b; [done|]. cbn -[calls_of]. rewrite calls_of_one.
  apply isCurrentSource_true in C as [C _]. destruct (Nat.eqb_spec g k); [congruence|done].
Qed.

Lemma handleError_generation g r b e code c :
  generation (fst (handleError g r b e code c)) = generation c.
Proof. unfold handleError, closeActiveSource. by repeat case_match. Qed.

Lemma ctl_step_latest o c c' new :
  ctl_step o c = Some (c', new) →
  generation c ≤ generation c' ∧ ∀ k, k ≠ generation c → calls_of k new = [].
Proof.
  destruct o as [t|g h throws|g e| |]; cbn; try (intros [= <- <-]; cbn; split; [lia|done]).
  - unfold ctl_headers. intros X. repeat (case_match; try done); simplify_eq/=; bools; subst;
      try (split; [done|]; intros k K; rewrite ?calls_of_one;
           try (destruct (Nat.eqb_spec (generation c) k); [congruence|]); done).
    match goal with H : handleError ?g ?r ?b ?e ?k ?c0 = (c', new) |- _ =>
      pose proof (handleError_generation g r b e k c0) as G;
      pose proof (handleError_current g r b e k c0) as Q; rewrite H in G, Q end.
    cbn in G, Q. split; [lia|done].
  - unfold ctl_event. intros X. destruct (reqs c !! g) as [r|]; [|done].
    destruct (req_stage r) as [|b|]; try done. apply (inj Some) in X.
    destruct (isCurrentSource g c) eqn:C; cbn in X; [|injection X as <- <-; done].
    destruct b; [injection X as <- <-; done|].
    assert (∀ m k, handleError g r false m k c = (c', new) →
      generation c ≤ generation c' ∧ ∀ k, k ≠ generation c → calls_of k new = []) as H.
    { intros m k HE. pose proof (handleError_generation g r false m k c) as G.
      pose proof (handleError_current g r false m k c) as Q. rewrite HE in G, Q. cbn in G. split; [lia|done]. }
    apply isCurrentSource_true in C as [C _].
    destruct e as [text|text rs|rs st].
    + destruct (isStreamDoneMessage _).
      * injection X as <- <-. unfold closeActiveSource. split; [by case_match|].
        intros k K. rewrite calls_of_one. destruct (Nat.eqb_spec g k); [congruence|done].
      * destruct (parseStreamMessageUpdates _) as [us|]; [|eauto]. injection X as <- <-.
        split; [done|]. intros k K. rewrite calls_of_updates.
        destruct (Nat.eqb_spec g k); [congruence|done].
    + destruct (isStreamClosedReadyState _); [by injection X as <- <-|].
      destruct (parseStreamErrorDetails text). eauto.
    + destruct (getStreamReadyStateError _ _); [eauto|by injection X as <- <-].
Qed.

Lemma ctl_exec_silent os c c' new g :
  g < generation c → ctl_exec os c = Some (c', new) → calls_of g new = [].
Proof.
  revert c new. induction os as [|o os IH]; intros c new G.
  - by intros [= <- <-].
  - intros (c1 & a & b & S & X & ->)%ctl_exec_cons.
    apply ctl_step_latest in S as [G1 Q]. rewrite calls_of_app, Q by lia.
    cbn. apply (IH c1); [lia|done].
Qed.

(** *** Callbacks by the tag they were sent with *)

(** The tags of the requests that are sent, and the calls with a tag. *)
Definition sent (os : list ctl_op) : list nat := omap (λ o, match o with Send t => Some t | _ => None end) os.
Definition calls_for (t : nat) (calls : emitted) : list callback :=
  omap (λ '(_, t', cb), if t' =? t then Some cb else None) calls.

Definition tags (c : controller) : gmap nat nat := tag <$> reqs c.

Lemma tags_stage g r st c : reqs c !! g = Some r → tags (set_stage g r st c) = tags c.
Proof.
  intros E. unfold tags. cbn. rewrite fmap_insert. apply insert_id. by rewrite lookup_fmap, E.
Qed.

Lemma tags_close g c : tags (closeActiveSource g c) = tags c.
Proof. unfold closeActiveSource. by case_match. Qed.

Lemma tags_error g r b e code c :
  reqs c !! g = Some r →
  tags (fst (handleError g r b e code c)) = tags c ∧
  Forall (λ x, tags c !! x.1.1 = Some x.1.2) (snd (handleError g r b e code c)).
Proof.
  intros E. unfold handleError. destruct (negb _ || b); [by split|]. cbn [fst snd].
  rewrite tags_close, tags_stage by done. split; [done|]. apply Forall_singleton. cbn. unfold tags. by rewrite lookup_fmap, E.
Qed.

(** A step adds the tag of a request that is sent, and calls back with the
    tag of the request. *)
Lemma step_tags o c c' new :
  ctl_step o c = Some (c', new) →
  tags c' = match o with Send t => <[S (generation c) := t]> (tags c) | _ => tags c end ∧
  Forall (λ x, tags c !! x.1.1 = Some x.1.2) new.
Proof.
  destruct o as [t|g h throws|g e| |]; cbn; try (by intros [= <- <-]).
  - intros [= <- <-]. unfold tags. cbn. by rewrite fmap_insert.
  - unfold ctl_headers. destruct (reqs c !! g) as [r|] eqn:E; [|done]. destruct (req_stage r); try done.
    destruct (negb _); [intros [= <- <-]; by rewrite tags_stage|].
    destruct h as [[]|err]; intros X%(inj Some).
    + set (c0 := {| generation := generation c; source := Some g; reqs := reqs c; streaming := true; closed := closed c |}) in X.
      assert (tags (set_stage g r (Active false) c0) = tags c) as T by (exact (tags_stage g r (Active false) c0 E)).
      destruct throws; [|by injection X as <- <-].
      assert (reqs (set_stage g r (Active false) c0) !! g = Some {| tag := tag r; req_stage := Active false |}) as Eg
        by (cbn; apply lookup_insert_eq).
      pose proof (tags_error _ _ false STREAM_START_ERROR None _ Eg) as Y. rewrite T in Y.
      change (handleError g {| tag := tag r; req_stage := Active false |} false STREAM_START_ERROR None)
        with (handleError g r false STREAM_START_ERROR None) in Y. by rewrite X in Y.
    + injection X as <- <-. rewrite tags_stage by done. split; [done|]. apply Forall_singleton. cbn. unfold tags.
      by rewrite lookup_fmap, E.
  - unfold ctl_event. destruct (reqs c !! g) as [r|] eqn:E; [|done]. destruct (req_stage r) as [|b|]; try done.
    intros X%(inj Some). assert (tags c !! g = Some (tag r)) as Tg by (unfold tags; by rewrite lookup_fmap, E).
    assert (∀ m k, handleError g r b m k c = (c', new) →
      tags c' = tags c ∧ Forall (λ x, tags c !! x.1.1 = Some x.1.2) new) as HE.
    { intros m k HE. pose proof (tags_error g r b m k c E) as Y. by rewrite HE in Y. }
    destruct (negb _ || b); [by injection X as <- <-|].
    destruct e as [text|text rs|rs st].
    + destruct (isStreamDoneMessage _).
      * injection X as <- <-. rewrite tags_close, tags_stage by done. split; [done|]. by apply Forall_singleton.
      * destruct (parseStreamMessageUpdates _) as [us|]; [|eauto]. injection X as <- <-.
        split; [done|]. apply Forall_map, Forall_forall. by intros [].
    + destruct (isStreamClosedReadyState _); [by injection X as <- <-|].
      destruct (parseStreamErrorDetails text). eauto.
    + destruct (getStreamReadyStateError _ _); [eauto|by injection X as <- <-].
Qed.

(** Every request has the tag it was sent with, and no two the same. *)
Record tag_inv (c : controller) (done : list nat) (calls : emitted) : Prop := {
  tag_known : ∀ g t, tags c !! g = Some t → g ≤ generation c ∧ t ∈ done;
  tag_unique : ∀ g g' t, tags c !! g = Some t → tags c !! g' = Some t → g = g';
  tag_calls : Forall (λ x, tags c !! x.1.1 = Some x.1.2) calls;
}.

Lemma tag_inv_step o c c' new done calls :
  ctl_step o c = Some (c', new) → NoDup (done ++ sent [o]) → tag_inv c done calls →
  tag_inv c' (done ++ sent [o]) (calls ++ new) ∧ tags c ⊆ tags c' ∧
  ∀ g t, tags c' !! g = Some t → tags c !! g = Some t ∨ t ∈ sent [o].
Proof.
  intros S N [K Q C]. destruct (step_tags _ _ _ _ S) as [T F]. destruct (ctl_step_latest _ _ _ _ S) as [G _].
  assert ((∃ t, o = Send t) ∨ sent [o] = [] ∧ tags c' = tags c) as [[t ->]|[E T']] by (destruct o; eauto).
  - cbn in S, N |- *. injection S as <- <-. cbn [generation ctl_send] in *.
    assert (tags c !! S (generation c) = None) as Fresh.
    { destruct (tags c !! S (generation c)) eqn:E; [|done]. apply K in E as [E _]. lia. }
    assert (t ∉ done) as Nt by (apply NoDup_app in N as (_ & N & _); intros Ht; by apply (N t Ht); left).
    assert (tags c ⊆ tags (ctl_send t c)) as Sub by (rewrite T; by apply insert_subseteq).
    conjs; [|done|].
    + split.
      * intros g u. rewrite T, lookup_insert_Some. intros [[<- <-]|[_ E]]; [split; [done|]; apply elem_of_app; right; left|].
        apply K in E as [E1 E2]. split; [cbn; lia|]. apply elem_of_app. by left.
      * intros g g' u. rewrite T, !lookup_insert_Some. intros [[<- <-]|[_ E]] [[<- E']|[_ E']]; try done.
        -- by apply K in E' as [_ E'].
        -- subst. by apply K in E as [_ E].
        -- by apply (Q g g' u).
      * rewrite app_nil_r. eapply Forall_impl; [exact C|]. intros x E. by apply (lookup_weaken _ _ _ _ E).
    + intros g u. rewrite T, lookup_insert_Some. intros [[_ <-]|[_ E]]; [right; left|by left].
  - rewrite E, app_nil_r. rewrite T'. conjs; [|done|auto]. split.
    + intros g u Hu. rewrite T' in Hu. apply K in Hu as [K1 K2]. split; [lia|done].
    + intros g g' u. rewrite T'. apply Q.
    + rewrite T'. by apply Forall_app.
Qed.

Lemma tag_inv_exec os : ∀ c c' new done calls,
  ctl_exec os c = Some (c', new) → NoDup (done ++ sent os) → tag_inv c done calls →
  tag_inv c' (done ++ sent os) (calls ++ new) ∧ tags c ⊆ tags c' ∧
  ∀ g t, tags c' !! g = Some t → tags c !! g = Some t ∨ t ∈ sent os.
Proof.
  induction os as [|o os IH]; intros c c' new done calls.
  - intros [= <- <-] N I. cbn. rewrite !app_nil_r. auto.
  - intros (c1 & a & b & S & X & ->)%ctl_exec_cons N I.
    assert (sent (o :: os) = sent [o] ++ sent os) as E by (by destruct o). rewrite E in N |- *. rewrite app_assoc in N.
    pose proof N as (N1 & _ & _)%NoDup_app. destruct (tag_inv_step _ _ _ _ _ _ S N1 I) as (I1 & S1 & B1).
    destruct (IH _ _ _ _ _ X N I1) as (I2 & S2 & B2). rewrite !app_assoc. conjs; [done|by etrans|].
    intros g t Ht. rewrite elem_of_app. destruct (B2 g t Ht) as [Ht'|]; [|auto]. destruct (B1 g t Ht'); auto.
Qed.

Lemma tag_inv_init : tag_inv initial_controller [] [].
Proof. by split. Qed.

(** The calls with a tag are those of the request that has it. *)
Lemma calls_for_request c done calls g t :
  tag_inv c done calls → tags c !! g = Some t → calls_for t calls = calls_of g calls.
Proof.
  intros [_ Q C] E. unfold calls_for, calls_of. induction C as [|[[g' t'] cb] calls Hx _ IH]; [done|].
  cbn [omap list_omap fst snd] in *. destruct (Nat.eqb_spec t' t) as [->|Nt], (Nat.eqb_spec g' g) as [->|Ng]; try done.
  - by rewrite IH.
  - by destruct Ng; apply (Q _ _ t).
  - congruence.
Qed.

Lemma calls_for_nobody c done calls t :
  tag_inv c done calls → (∀ g, tags c !! g ≠ Some t) → calls_for t calls = [].
Proof.
  intros [_ _ C] N. unfold calls_for. induction C as [|[[g' t'] cb] calls Hx _ IH]; [done|].
  cbn [omap list_omap fst snd] in *. destruct (Nat.eqb_spec t' t) as [->|Nt]; [by destruct (N g')|done].
Qed.

Lemma has_tag (c : controller) t : (∃ g, tags c !! g = Some t) ∨ ∀ g, tags c !! g ≠ Some t.
Proof.
  destruct (decide (t ∈ (map_to_list (tags c)).*2)) as [E|E].
  - left. apply list_elem_of_fmap in E as ([g u] & -> & E). exists g. by apply elem_of_map_to_list.
  - right. intros g Hg. apply E. apply list_elem_of_fmap. exists (g, t). split; [done|]. by apply elem_of_map_to_list.
Qed.

(** What ends a request that is under way. *)
Definition ends_requests (o : ctl_op) : bool :=
  match o with Send _ | Stop | Dispose => true | _ => false end.

Lemma ended_silent os1 o os2 c1 c2 calls1 calls2 t :
  NoDup (sent os1 ++ sent (o :: os2)) → ends_requests o = true →
  ctl_exec os1 initial_controller = Some (c1, calls1) → ctl_exec (o :: os2) c1 = Some (c2, calls2) →
  t ∈ sent os1 → calls_for t calls2 = [].
Proof.
  intros N Ho X1 X2 Ht. pose proof N as (N1 & N2 & _)%NoDup_app.
  destruct (tag_inv_exec _ _ _ _ [] [] X1 N1 tag_inv_init) as (I1 & _ & _). cbn [app] in I1.
  assert (tag_inv c1 (sent os1) []) as I0 by (destruct I1; by split).
  destruct (tag_inv_exec _ _ _ _ _ [] X2 N I0) as (I2 & _ & B). cbn [app] in I2.
  destruct (has_tag c2 t) as [[g Hg]|No]; [|by apply (calls_for_nobody _ _ _ _ I2)].
  rewrite (calls_for_request _ _ _ _ _ I2 Hg). destruct (B g t Hg) as [Hg1|Ht']; [|by destruct (N2 t Ht)].
  apply ctl_exec_cons in X2 as (c0 & a & b & St & X2 & ->). apply (tag_known _ _ _ I1) in Hg1 as [Hl _].
  rewrite calls_of_app. assert (a = [] ∧ generation c0 = S (generation c1)) as [-> Hc]
    by (destruct o; try done; cbn in St; by injection St as <- <-).
  cbn. apply (ctl_exec_silent os2 c0 c2); [lia|done].
Qed.

(** C22: the stream controller calls back in order, and not after the end.
    The callbacks a request was sent with (told apart by their tags) get
    updates followed by at most one completion or error, and nothing after
    it; callbacks that were not sent get nothing; once the stream was stopped
    or disposed of, or a newer request was sent, the callbacks of the requests
    before that get nothing more, whatever events and headers still arrive;
    and every source that was opened is closed unless it is the current
    one. *)
Theorem stream_callbacks_in_order os1 o os2 c1 c2 calls1 calls2 :
  NoDup (sent os1 ++ sent (o :: os2)) →
  ctl_exec os1 initial_controller = Some (c1, calls1) → ctl_exec (o :: os2) c1 = Some (c2, calls2) →
  (∀ t, in_order (calls_for t (calls1 ++ calls2))) ∧
  (∀ t, t ∉ sent os1 ++ sent (o :: os2) → calls_for t (calls1 ++ calls2) = []) ∧
  (ends_requests o = true → ∀ t, t ∈ sent os1 → calls_for t calls2 = []) ∧
  (∀ g r b, reqs c2 !! g = Some r → req_stage r = Active b → source c2 = Some g ∨ g ∈ closed c2).
Proof.
  intros N X1 X2. pose proof N as (N1 & _ & _)%NoDup_app.
  pose proof (ctl_inv_exec _ _ _ _ _ ctl_inv_init X1) as I1. cbn in I1.
  pose proof (ctl_inv_exec _ _ _ _ _ I1 X2) as I2.
  destruct (tag_inv_exec _ _ _ _ [] [] X1 N1 tag_inv_init) as (T1 & _ & _).
  destruct (tag_inv_exec _ _ _ _ _ _ X2 N T1) as (T2 & _ & _). cbn [app] in T2.
  conjs.
  - intros t. destruct (has_tag c2 t) as [[g Hg]|No].
    + rewrite (calls_for_request _ _ _ _ _ T2 Hg). unfold tags in Hg. apply lookup_fmap_Some in Hg as (r & _ & E).
      apply (stage_calls_in_order (req_stage r)). by apply (inv_known _ _ I2).
    + rewrite (calls_for_nobody _ _ _ _ T2 No). exists [], []. auto.
  - intros t Ht. apply (calls_for_nobody _ _ _ _ T2). intros g Hg. by apply (tag_known _ _ _ T2) in Hg as [_ Hg].
  - intros Ho t. by apply (ended_silent os1 o os2 c1 c2 calls1).
  - apply (inv_closed _ _ I2).
Qed.

(** A content chunk, written with single quotes. *)
Definition quoted (s : string) : jsstr := map (λ c, if (c =? SQUOTE)%N then DQUOTE else c) (js s).
Definition content_event (c : jsstr) : source_event :=
  SMessage (Some (quoted "{'choices':[{'delta':{'content':'" ++ c ++ quoted "'}}]}")).

Lemma stream_callbacks_in_order_witness :
  let os1 := [Send 7; Headers 1 (Ok ()) false; SourceEvent 1 (content_event (js "first"))] in
  let os2 := [SourceEvent 1 (content_event (js "stale")); Send 8; Headers 3 (Ok ()) false;
              SourceEvent 3 (content_event (js "second")); SourceEvent 3 (SMessage (Some (js "[DONE]")));
              SourceEvent 3 (content_event (js "late"))] in
  ∃ c1 calls1 c2 calls2,
    ctl_exec os1 initial_controller = Some (c1, calls1) ∧ ctl_exec (Stop :: os2) c1 = Some (c2, calls2) ∧
    calls_for 7 calls1 = [OnUpdate content_chunk (js "first")] ∧ calls_for 7 calls2 = [] ∧
    in_order (calls_for 8 (calls1 ++ calls2)) ∧
    calls_for 8 calls2 = [OnUpdate content_chunk (js "second"); OnComplete].
Proof.
  intros os1 os2.
  destruct (ctl_exec os1 initial_controller) as [[c1 calls1]|] eqn:E1; [|vm_compute in E1; discriminate].
  destruct (ctl_exec (Stop :: os2) c1) as [[c2 calls2]|] eqn:E2.
  - exists c1, calls1, c2, calls2. split; [done|]. split; [done|].
    destruct (stream_callbacks_in_order os1 Stop os2 c1 c2 calls1 calls2) as (T1 & _ & T2 & _);
      [apply (bool_decide_unpack _); vm_compute; exact I|exact E1|exact E2|].
    split; [vm_compute in E1; injection E1 as <- <-; vm_compute; reflexivity|].
    split; [apply (T2 eq_refl); left|]. split; [apply T1|].
    vm_compute in E1; injection E1 as <- <-. vm_compute in E2. injection E2 as <- <-. vm_compute. reflexivity.
  - vm_compute in E1; injection E1 as <- <-. vm_compute in E2. discriminate.
Defined.

(** ** The chat handler *)

(** Tags of the controller's requests, and of what it calls. *)
Definition tags_below (n : nat) (c : controller) : Prop :=
  ∀ g r, reqs c !! g = Some r → tag r < n.

Lemma tags_set_stage n g r st c :
  tags_below n c → reqs c !! g = Some r → tags_below n (set_stage g r st c).
Proof.
  intros T E k q. cbn. rewrite lookup_insert_Some. intros [[<- <-]|[_ Q]]; [exact (T g r E)|exact (T k q Q)].
Qed.

Lemma tags_handleError n g r b e code c :
  tags_below n c → reqs c !! g = Some r →
  tags_below n (fst (handleError g r b e code c)) ∧
  Forall (λ x, x.1.2 < n) (snd (handleError g r b e code c)).
Proof.
  intros T E. unfold handleError. destruct (negb _ || b); cbn; [by split|].
  split; [|repeat constructor; exact (T g r E)].
  pose proof (tags_set_stage n g r (Active true) c T E) as S.
  unfold closeActiveSource. case_match; done.
Qed.

Lemma tags_step n o c c' calls :
  is_source_op o = true → tags_below n c → ctl_step o c = Some (c', calls) →
  tags_below n c' ∧ Forall (λ x, x.1.2 < n) calls.
Proof.
  intros O T. destruct o as [|g h throws|g e| |]; try done; cbn.
  - unfold ctl_headers. destruct (reqs c !! g) as [r|] eqn:E; [|done].
    pose proof (T g r E) as R.
    destruct (req_stage r); try done. destruct (negb _).
    { intros [= <- <-]. split; [by apply tags_set_stage|constructor]. }
    destruct h as [[]|err]; intros X%(inj Some).
    + assert (tags_below n (set_stage g r (Active false)
        {| generation := generation c; source := Some g; reqs := reqs c; streaming := true;
           closed := closed c |})) as T' by (by apply tags_set_stage).
      destruct throws; [|by injection X as <- <-].
      pose proof (tags_handleError n g {| tag := tag r; req_stage := Active false |} false
        STREAM_START_ERROR None _ T') as Y.
      cbn in Y. rewrite lookup_insert_eq in Y. specialize (Y eq_refl).
      change (handleError g {| tag := tag r; req_stage := Active false |} false STREAM_START_ERROR None)
        with (handleError g r false STREAM_START_ERROR None) in Y.
      by rewrite X in Y.
    + injection X as <- <-. split; [by apply tags_set_stage|by repeat constructor].
  - unfold ctl_event. destruct (reqs c !! g) as [r|] eqn:E; [|done]. pose proof (T g r E) as R.
    destruct (req_stage r) as [|b|]; try done. intros X%(inj Some).
    assert (∀ m k, handleError g r b m k c = (c', calls) →
      tags_below n c' ∧ Forall (λ x, x.1.2 < n) calls) as H.
    { intros m k HE. pose proof (tags_handleError n g r b m k c T E) as Y. by rewrite HE in Y. }
    destruct (negb _ || b); [by injection X as <- <-|].
    destruct e as [text|text rs|rs st].
    + destruct (isStreamDoneMessage _).
      * injection X as <- <-. split; [|by repeat constructor].
        pose proof (tags_set_stage n g r (Active true) c T E) as S.
        unfold closeActiveSource. case_match; done.
      * destruct (parseStreamMessageUpdates _) as [us|]; [|eauto]. injection X as <- <-.
        split; [done|]. apply Forall_map, Forall_forall. by intros [].
    + destruct (isStreamClosedReadyState _); [by injection X as <- <-|].
      destruct (parseStreamErrorDetails text). eauto.
    + destruct (getStreamReadyStateError _ _); [eauto|by injection X as <- <-].
Qed.

(** The parts of the chat that decide which events count. *)
Record same_core (s s' : chat) : Prop := {
  core_ctl : ctl s' = ctl s;
  core_generation : requestGeneration s' = requestGeneration s;
  core_outstanding : outstanding s' = outstanding s;
}.

#[global] Instance same_core_preorder : PreOrder same_core.
Proof. split; [by constructor|]. intros s1 s2 s3 [] []. constructor; congruence. Qed.

Section Chat.
Context (t : jsstr → jsstr).

Lemma core_onMessageUpdate eager time u s : same_core s (onMessageUpdate t eager time u s).
Proof. unfold onMessageUpdate. by destruct eager, (queue s). Qed.

Lemma core_flush eager time g s : same_core s (flushStreamUpdates t eager time g s).
Proof.
  unfold flushStreamUpdates. repeat (case_match; try by constructor);
    (etransitivity; [|apply core_onMessageUpdate]); by constructor.
Qed.

Lemma core_on_callback eager time s e : same_core s (on_callback t eager time s e).
Proof.
  destruct e as [[k g] [ty ch| |er code]]; cbn.
  - unfold handleStreamUpdate, scheduleStreamFlush. by repeat case_match.
  - unfold handleStreamComplete. case_match; [done|].
    etransitivity; [apply core_flush|]. etransitivity; [|apply core_onMessageUpdate]. by constructor.
  - unfold handleStreamError. case_match; [done|].
    etransitivity; [apply core_flush|]. etransitivity; [|apply core_onMessageUpdate]. by constructor.
Qed.

Lemma core_callbacks eager time calls s : same_core s (fold_left (on_callback t eager time) calls s).
Proof.
  revert s. induction calls as [|e calls IH]; intros s; cbn; [done|].
  etransitivity; [apply core_on_callback|apply IH].
Qed.

(** Callbacks of an older generation do nothing. *)
Lemma stale_callbacks eager time calls s :
  Forall (λ x, x.1.2 < requestGeneration s) calls → fold_left (on_callback t eager time) calls s = s.
Proof.
  induction 1 as [|[[k g] cb] calls G _ IH]; [done|]. cbn in G. cbn [fold_left].
  assert (on_callback t eager time s (k, g, cb) = s) as ->; [|apply IH].
  assert ((g =? requestGeneration s) = false) as N by (apply Nat.eqb_neq; lia).
  destruct cb; cbn;
    [unfold handleStreamUpdate|unfold handleStreamComplete|unfold handleStreamError]; by rewrite N.
Qed.

(** No request is ahead of the generation. *)
Definition chat_ok (s : chat) : Prop :=
  tags_below (S (requestGeneration s)) (ctl s) ∧
  ∀ g, g ∈ outstanding s → g ≤ requestGeneration s.

Lemma chat_ok_core s s' : same_core s s' → chat_ok s → chat_ok s'.
Proof. intros [C G O] [T N]. unfold chat_ok. by rewrite C, G, O. Qed.

Lemma chat_ok_response eager time g r s : chat_ok s → chat_ok (chat_response t eager time g r s).
Proof.
  intros [T N]. unfold chat_response.
  set (s0 := with_outstanding (outstanding s ∖ {[g]}) s).
  assert (chat_ok s0) as OK by (split; [done|]; cbn; intros k K; apply N; set_solver).
  match goal with |- context [with_requesting false ?x] => idtac end.
  assert (∀ x, same_core s0 x → chat_ok
    (if negb (requestGeneration x =? g) then x else with_requesting false
      {| ctl := ctl x; requestGeneration := requestGeneration x; pending := pending x;
         flushTimer := flushTimer x; abortController := None; aborted := aborted x;
         outstanding := outstanding x; isRequesting := isRequesting x; messages := messages x;
         queue := queue x |})) as F.
  { intros x C. apply (chat_ok_core s0); [|done]. case_match; [done|]. by destruct C. }
  apply F. case_match; [done|]. destruct r as [[[c reas]|]|[m k]].
  - apply core_onMessageUpdate.
  - apply (core_on_callback eager time s0 (0, g, OnError API_REQUEST_ERROR None)).
  - apply (core_on_callback eager time s0 (0, g, OnError m k)).
Qed.

Lemma chat_ok_background b s s' : chat_ok s → background_step t b s = Some s' → chat_ok s'.
Proof.
  intros OK. destruct b as [o eager time|eager time|g r eager time|time]; cbn.
  - destruct (is_source_op o) eqn:O; [|done].
    intros ([c calls] & X & [= <-])%bind_Some. destruct OK as [T N].
    apply (chat_ok_core (with_ctl c s)); [apply core_callbacks|]. split; [|done].
    by apply (tags_step _ o (ctl s) c calls).
  - intros (g & _ & [= <-])%bind_Some. by apply (chat_ok_core s); [apply core_flush|].
  - case_match; [|done]. intros [= <-]. by apply chat_ok_response.
  - intros [= <-]. by apply (chat_ok_core s).
Qed.

Lemma tags_cancel n notify c : tags_below n c → tags_below n (ctl_cancel notify c).
Proof. done. Qed.

Lemma chat_ok_step o s s' : chat_ok s → chat_step t o s = Some s' → chat_ok s'.
Proof.
  intros OK. destruct o as [b|stream ms eager time|eager time|ms eager time]; cbn.
  - by apply chat_ok_background.
  - intros [= <-].
    pose proof (chat_ok_core _ _ (core_onMessageUpdate eager time (USet ms) s) OK) as [T N].
    unfold sendChat. destruct stream; split; cbn.
    + intros g r. cbn. rewrite lookup_insert_Some. intros [[<- <-]|[_ E]]; [cbn; lia|].
      apply T in E. lia.
    + intros g G. apply N in G. lia.
    + intros g r E. apply T in E. lia.
    + intros g G. apply elem_of_union in G as [?%elem_of_singleton|G%N]; lia.
  - intros [= <-].
    pose proof (chat_ok_core _ _ (core_flush eager time (requestGeneration s) s) OK) as [T N].
    destruct (core_flush eager time (requestGeneration s) s) as [C G O].
    eapply chat_ok_core; [apply core_onMessageUpdate|]. split; cbn.
    + intros k r E. apply T in E. rewrite G in E. lia.
    + intros k K. apply N in K. rewrite G in K. lia.
  - intros [= <-]. by apply (chat_ok_core s); [apply core_onMessageUpdate|].
Qed.

Lemma chat_ok_exec os s s' : chat_ok s → chat_exec t os s = Some s' → chat_ok s'.
Proof.
  revert s. induction os as [|o os IH]; intros s OK; cbn; [by intros [= <-]|].
  intros (s1 & X & Y)%bind_Some. eauto using chat_ok_step.
Qed.

Lemma chat_ok_init ms : chat_ok (initial_chat ms).
Proof. split; [intros g r; cbn; by rewrite lookup_empty|]. cbn. set_solver. Qed.

(** *** A stopped chat *)

(** Nothing that is still under way belongs to the present generation. *)
Record quiet (s : chat) : Prop := {
  quiet_tags : tags_below (requestGeneration s) (ctl s);
  quiet_outstanding : ∀ g, g ∈ outstanding s → g < requestGeneration s;
  quiet_timer : flushTimer s = None;
  quiet_queue : queue s = [];
}.

Lemma quiet_step b s s' :
  quiet s → background_step t b s = Some s' → quiet s' ∧ messages s' = messages s.
Proof.
  intros [T O F Q]. destruct b as [o eager time|eager time|g r eager time|time]; cbn.
  - destruct (is_source_op o) eqn:S; [|done].
    intros ([c calls] & X & [= <-])%bind_Some.
    apply (tags_step (requestGeneration s)) in X as [T' C]; [|done..].
    rewrite stale_callbacks by done. by split.
  - by rewrite F.
  - destruct (bool_decide_reflect (g ∈ outstanding s)) as [G|]; [|done].
    intros [= <-]. apply O in G. unfold chat_response. cbn.
    rewrite (proj2 (Nat.eqb_neq (requestGeneration s) g)) by lia. rewrite orb_true_r. cbn.
    rewrite (proj2 (Nat.eqb_neq (requestGeneration s) g)) by lia. cbn. split; [|done].
    constructor; try done. cbn. intros k K. apply O. set_solver.
  - intros [= <-]. unfold render. rewrite Q. cbn. by split.
Qed.

Lemma quiet_exec bs s s' :
  quiet s → background_exec t bs s = Some s' → messages s' = messages s.
Proof.
  revert s. induction bs as [|b bs IH]; intros s QS; cbn; [by intros [= <-]|].
  intros (s1 & X & Y)%bind_Some. apply quiet_step in X as [Q1 M]; [|done].
  rewrite <- M. by apply IH.
Qed.

Lemma render_stop_quiet eager time1 time2 s :
  chat_ok s → quiet (render t time2 (stopGeneration t eager time1 s)).
Proof.
  intros OK. pose proof (core_flush eager time1 (requestGeneration s) s) as C.
  pose proof (chat_ok_core _ _ C OK) as [T N]. destruct C as [C1 C2 C3]. rewrite C2 in T, N.
  unfold stopGeneration.
  match goal with |- context [onMessageUpdate t eager time1 ?u ?x] =>
    destruct (core_onMessageUpdate eager time1 u x) as [D1 D2 D3];
    assert (flushTimer (onMessageUpdate t eager time1 u x) = None) as D4
      by (unfold onMessageUpdate; by destruct eager, (queue _));
    revert D1 D2 D3 D4; generalize (onMessageUpdate t eager time1 u x) end.
  intros y D1 D2 D3 D4. constructor; cbn; try done.
  - rewrite D1, D2. cbn. intros g r E. apply T in E. lia.
  - rewrite D2, D3. cbn. intros g G. apply N in G. lia.
Qed.

Lemma updateLast_last ms f m :
  last (updateLastAssistantMessage ms f) = Some m →
  (∃ m0, last ms = Some m0 ∧ is_assistant m0 = true ∧ m = f m0) ∨
  (last ms = Some m ∧ is_assistant m = false).
Proof.
  unfold updateLastAssistantMessage. destruct (last ms) as [m0|] eqn:L; [|by rewrite L].
  destruct (is_assistant m0) eqn:A.
  - rewrite last_snoc. intros [= <-]. left. eauto.
  - rewrite L. intros [= <-]. auto.
Qed.

Lemma completeAssistant_status m time : status (completeAssistantMessage m time) = Some COMPLETE.
Proof. unfold completeAssistantMessage, completeAssistantTiming. by case_match. Qed.

Lemma run_stop_settled g time ms m :
  last (run_updater t g (UStop g) time ms) = Some m → is_assistant m = true →
  isAssistantMessagePending m = false.
Proof.
  cbn. rewrite Nat.eqb_refl. cbn. intros L A.
  apply updateLast_last in L as [(m0 & _ & A0 & ->)|(_ & A')]; [|congruence].
  destruct (isAssistantMessagePending m0) eqn:P; [|done].
  unfold isAssistantMessagePending, is_status. by rewrite completeAssistant_status.
Qed.

Lemma stop_settled eager time1 time2 s m :
  last (messages (render t time2 (stopGeneration t eager time1 s))) = Some m →
  is_assistant m = true → isAssistantMessagePending m = false.
Proof.
  unfold stopGeneration.
  match goal with |- context [onMessageUpdate t eager time1 ?u ?x] =>
    assert (requestGeneration x = S (requestGeneration s)) as G by done;
    revert G; generalize x end.
  intros x G. unfold onMessageUpdate, render.
  destruct eager, (queue x) as [|q0 q] eqn:Q; cbn -[run_updater]; rewrite ?G, ?fold_left_app;
    cbn -[run_updater]; rewrite ?G; apply run_stop_settled.
Qed.

End Chat.

(** C23: stopping is final.  After any history of the playground, once the
    user stops the generation and the page has rendered, an assistant message
    at the end of the conversation is no longer pending, and nothing that
    still arrives (stream events, headers, answers, timers, renders) changes
    any message until the user acts again. *)
Theorem stopped_chat_is_final t os ms s eager time1 time2 bs s' :
  chat_exec t os (initial_chat ms) = Some s →
  let stopped := render t time2 (stopGeneration t eager time1 s) in
  background_exec t bs stopped = Some s' →
  messages s' = messages stopped ∧
  ∀ m, last (messages s') = Some m → is_assistant m = true → isAssistantMessagePending m = false.
Proof.
  intros X stopped B.
  pose proof (chat_ok_exec t _ _ _ (chat_ok_init ms) X) as OK.
  assert (messages s' = messages stopped) as M by (eapply quiet_exec; [|exact B]; by apply render_stop_quiet).
  split; [done|]. intros m. rewrite M. apply stop_settled.
Qed.

(** A conversation in which an answer is being streamed. *)
Definition no_translation (s : jsstr) : jsstr := s.
Definition asked : list Message :=
  [createUserMessage (js "u") (js "v") (js "hello") (nZ 1000);
   createLoadingAssistantMessage (js "a") (js "b") (nZ 1000)].
Definition streamed_so_far : list chat_op :=
  [CSend true asked true (nZ 1000);
   CBackground (BController (Headers 1 (Ok ()) false) true (nZ 1010));
   CBackground (BController (SourceEvent 1 (content_event (js "Hello"))) true (nZ 1020));
   CBackground (BFlushTimer true (nZ 1070));
   CBackground (BRender (nZ 1071));
   CBackground (BController (SourceEvent 1 (content_event (js " world"))) true (nZ 1080))].

Lemma stopped_chat_is_final_witness :
  ∃ s s',
    chat_exec no_translation streamed_so_far (initial_chat []) = Some s ∧
    let stopped := render no_translation (nZ 1101) (stopGeneration no_translation true (nZ 1100) s) in
    background_exec no_translation
      [BController (SourceEvent 1 (content_event (js "late"))) false (nZ 1110); BRender (nZ 1111)]
      stopped = Some s' ∧ messages s' = messages stopped.
Proof.
  destruct (chat_exec no_translation streamed_so_far (initial_chat [])) as [s|] eqn:E;
    [|vm_compute in E; discriminate].
  destruct (background_exec no_translation
      [BController (SourceEvent 1 (content_event (js "late"))) false (nZ 1110); BRender (nZ 1111)]
      (render no_translation (nZ 1101) (stopGeneration no_translation true (nZ 1100) s))) as [s'|] eqn:B.
  - exists s, s'. split; [done|]. split; [done|].
    apply (stopped_chat_is_final _ _ _ _ _ _ _ _ _ E B).
  - exfalso. vm_compute in E. injection E as <-. vm_compute in B. discriminate.
Defined.

(** What the answer shows after stopping. *)
Definition stopped_text (eager : bool) : option (list jsstr) :=
  s ← chat_exec no_translation streamed_so_far (initial_chat []);
  Some (map getMessageContent
    (messages (render no_translation (nZ 1101) (stopGeneration no_translation eager (nZ 1100) s)))).

(** Stopping can lose text that was already received.  The pending chunk
    is flushed by an updater that checks the generation when React runs it,
    and stopping advances the generation right after the flush: unless React
    evaluates the updater eagerly, the chunk is dropped. *)
Theorem stop_can_drop_received_text :
  stopped_text true = Some [js "hello"; js "Hello world"] ∧
  stopped_text false = Some [js "hello"; js "Hello"].
Proof. split; vm_compute; reflexivity. Qed.
