(* ===== verification/PlaygroundTheorems.v ===== *)
(** * Theorems about playground messages

    Streaming accumulates the chunks, think tags are separated exactly, a
    restored conversation is settled, and the stored part of a conversation
    is bounded. *)
From stdpp Require Import base list option numbers sets gmap.
From Stdlib Require Import ZArith SpecFloat Lia.
From S2P Require Import Prelude.
From S2P Require Import JsString.
From S2P Require Import JsNumber.
From S2P Require Import JsText.
From S2P Require Import Playground.

(** ** Searching *)

Lemma find_sub_None p s : find_sub p s = None ↔ includes p s = false.
Proof.
  induction s as [|c s IH]; cbn.
  - by destruct p.
  - destruct (starts_with p (c :: s)); cbn; [done|]. rewrite <- IH.
    by destruct (find_sub p s).
Qed.

Lemma starts_with_self p s : starts_with p (p ++ s) = true.
Proof. apply starts_with_app. by exists s. Qed.

Lemma find_sub_head p s : starts_with p s = true → find_sub p s = Some 0.
Proof. intros H. destruct s; cbn; by rewrite H. Qed.

(** A pattern whose first character occurs only there is found right after a
    text that does not contain it. *)
Lemma find_sub_app c p v s :
  c ∉ p → includes (c :: p) v = false → find_sub (c :: p) (v ++ (c :: p) ++ s) = Some (length v).
Proof.
  intros NB. induction v as [|d v IH]; intros I.
  - cbn [app length]. by apply find_sub_head, (starts_with_self (c :: p)).
  - cbn [includes] in I. apply orb_false_iff in I as [I1 I2].
    specialize (IH I2). cbn [app find_sub length] in IH |- *.
    destruct (starts_with (c :: p) (d :: v ++ c :: p ++ s)) eqn:E; [|by rewrite IH].
    exfalso. apply starts_with_app in E as (r & E).
    change (d :: v ++ c :: p ++ s) with ((d :: v) ++ (c :: p) ++ s) in E.
    apply app_eq_app in E as (k & [[E1 E2]|[E1 E2]]).
    + enough (starts_with (c :: p) (d :: v) = true) by congruence.
      apply starts_with_app. eauto.
    + destruct k as [|x k].
      * rewrite app_nil_r in E1.
        enough (starts_with (c :: p) (d :: v) = true) by congruence.
        apply starts_with_app. exists []. by rewrite app_nil_r.
      * cbn in E2. injection E2 as -> _. cbn in E1. injection E1 as _ E1. apply NB. rewrite E1.
        set_solver.
Qed.

(** ** Think tags *)

(** Visible texts with a thought after each, and the text after the last. *)
Definition think_text (segs : list (jsstr * jsstr)) (tail : jsstr) : jsstr :=
  concat (map (λ s, fst s ++ OPEN ++ snd s ++ CLOSE) segs) ++ tail.

Definition seg_ok (s : jsstr * jsstr) : bool :=
  negb (includes OPEN (fst s)) && negb (includes CLOSE (snd s)).

Lemma find_open v s : includes OPEN v = false → find_sub OPEN (v ++ OPEN ++ s) = Some (length v).
Proof. apply find_sub_app. apply (bool_decide_eq_true (_ ∉ _)). vm_compute. reflexivity. Qed.
Lemma find_close v s : includes CLOSE v = false → find_sub CLOSE (v ++ CLOSE ++ s) = Some (length v).
Proof. apply find_sub_app. apply (bool_decide_eq_true (_ ∉ _)). vm_compute. reflexivity. Qed.

(** The visible piece before a tag. *)
Lemma visible_piece (v rest : jsstr) :
  concat (match length v with 0 => [] | S _ => [take (length v) (v ++ rest)] end) = v.
Proof. destruct v; [done|]. rewrite take_app_length. cbn. by rewrite app_nil_r. Qed.

Lemma drop_tag (v tag rest : jsstr) n :
  length tag = n → drop (length v + n) (v ++ tag ++ rest) = rest.
Proof. intros <-. rewrite app_assoc, drop_app_length'; [done|]. by rewrite length_app. Qed.

(** One round of the loop. *)
Lemma think_loop_seg fuel v r rest :
  includes OPEN v = false → includes CLOSE r = false →
  think_loop (S fuel) (v ++ OPEN ++ r ++ CLOSE ++ rest) =
  let '(vs, rs, u) := think_loop fuel rest in
  (match length v with 0 => [] | S _ => [take (length v) (v ++ OPEN ++ r ++ CLOSE ++ rest)] end ++ vs,
   r :: rs, u).
Proof.
  intros V R. cbn [think_loop]. rewrite find_open by done. rewrite drop_tag by done.
  rewrite find_close by done. rewrite drop_tag by done.
  by rewrite (take_app_length r).
Qed.

Lemma think_text_cons v r segs tail :
  think_text ((v, r) :: segs) tail = v ++ OPEN ++ r ++ CLOSE ++ think_text segs tail.
Proof. unfold think_text. cbn [map concat fst snd]. by rewrite <- !app_assoc. Qed.

Lemma think_loop_segs segs tail k :
  Forall (λ s, seg_ok s = true) segs →
  let '(vt, rt, ut) := think_loop k tail in
  ∃ vs, think_loop (length segs + k) (think_text segs tail) = (vs, map snd segs ++ rt, ut) ∧
        concat vs = concat (map fst segs) ++ concat vt.
Proof.
  intros OK. destruct (think_loop k tail) as [[vt rt] ut] eqn:T.
  induction OK as [|[v r] segs O _ (vs & E & C)]; [by exists vt|].
  unfold seg_ok in O. cbn in O. bools.
  rewrite think_text_cons. cbn [length Nat.add]. rewrite think_loop_seg, E by done.
  eexists. split; [reflexivity|]. cbn [map concat fst].
  by rewrite concat_app, visible_piece, C, app_assoc.
Qed.

Lemma think_text_length segs tail : length segs + length tail ≤ length (think_text segs tail).
Proof.
  induction segs as [|[v r] segs IH]; [done|]. rewrite think_text_cons, !length_app. change (length OPEN) with 7. cbn [length]. lia.
Qed.

(** The whole parser, on a text with at least one opening tag. *)
Lemma parse_think_text segs tail vt rt ut :
  Forall (λ s, seg_ok s = true) segs → includes OPEN (think_text segs tail) = true →
  (∀ k, think_loop (S k) tail = (vt, rt, ut)) →
  parseThinkTags (think_text segs tail) =
  {| visibleContent := trim (concat (map fst segs) ++ concat vt);
     tag_reasoning := trim (join [10; 10]%N (map snd segs ++ rt));
     hasUnclosedTag := ut |}.
Proof.
  intros OK I T. unfold parseThinkTags. rewrite I. cbn [negb].
  pose proof (think_text_length segs tail) as L.
  replace (S (length (think_text segs tail)))
    with (length segs + S (length (think_text segs tail) - length segs)) by lia.
  pose proof (think_loop_segs segs tail (S (length (think_text segs tail) - length segs)) OK) as S.
  rewrite T in S. destruct S as (vs & -> & C). by rewrite C.
Qed.

Lemma includes_open v r : includes OPEN (v ++ OPEN ++ r) = true.
Proof.
  induction v as [|c v IH]; [|cbn; rewrite IH; by rewrite orb_true_r].
  assert (starts_with OPEN (OPEN ++ r) = true) as S by apply starts_with_self.
  cbn [app]. change (includes OPEN (OPEN ++ r) = true). destruct (OPEN ++ r); [done|].
  cbn [includes]. by rewrite S.
Qed.

(** Think tags are separated exactly.  For an answer that alternates
    visible texts (without an opening tag) and thoughts (without a closing
    tag), the visible content is the visible texts in order, trimmed, the
    reasoning is the thoughts separated by blank lines, trimmed, and a tag is
    reported as unclosed exactly when the answer ends inside a thought, whose
    beginning then counts as reasoning. *)
Theorem think_tags_are_separated segs v r :
  Forall (λ s, seg_ok s = true) segs → segs ≠ [] → includes OPEN v = false →
  includes CLOSE r = false →
  parseThinkTags (think_text segs v) =
    {| visibleContent := trim (concat (map fst segs) ++ v);
       tag_reasoning := trim (join [10; 10]%N (map snd segs)); hasUnclosedTag := false |} ∧
  parseThinkTags (think_text segs (v ++ OPEN ++ r)) =
    {| visibleContent := trim (concat (map fst segs) ++ v);
       tag_reasoning := trim (join [10; 10]%N (map snd segs ++ [r])); hasUnclosedTag := true |}.
Proof.
  intros OK NE V R. split.
  - rewrite (parse_think_text segs v (match v with [] => [] | _ => [v] end) [] false); [|done|..].
    + rewrite app_nil_r. repeat f_equal. destruct v; [done|]. cbn. by rewrite app_nil_r.
    + destruct segs as [|[v0 r0] segs]; [done|]. rewrite think_text_cons. apply includes_open.
    + intros k. cbn [think_loop]. by rewrite (proj2 (find_sub_None _ _) V).
  - rewrite (parse_think_text segs _
      (match length v with 0 => [] | S _ => [take (length v) (v ++ OPEN ++ r)] end) [r] true); [|done|..].
    + by rewrite visible_piece.
    + destruct segs as [|[v0 r0] segs]; [apply includes_open|].
      rewrite think_text_cons. apply includes_open.
    + intros k. cbn [think_loop]. rewrite find_open by done.
      replace (drop (length v + 7) (v ++ OPEN ++ r)) with r by (by rewrite drop_tag).
      by rewrite (proj2 (find_sub_None _ _) R).
Qed.

Lemma think_tags_are_separated_witness :
  parseThinkTags (js "A <think>one</think>B <think>two</think>C") =
    {| visibleContent := js "A B C"; tag_reasoning := js "one" ++ [10; 10]%N ++ js "two";
       hasUnclosedTag := false |}.
Proof.
  destruct (think_tags_are_separated [(js "A ", js "one"); (js "B ", js "two")] (js "C") []) as [T _];
    [repeat constructor|discriminate|reflexivity|reflexivity|].
  exact T.
Defined.

(** ** Streaming *)

Definition stream_chunks (m : Message) (chunks : list jsstr) (t : num) : Message :=
  fold_left (λ m c, applyStreamingChunk m content_chunk c t) chunks m.

(** No chunk repeats the whole text so far; every chunk does. *)
Fixpoint deltas (acc : jsstr) (chunks : list jsstr) : bool :=
  match chunks with
  | [] => true
  | c :: chunks =>
      match acc with [] => true | _ => negb (starts_with acc c) end && deltas (acc ++ c) chunks
  end.
Fixpoint snapshots (acc : jsstr) (chunks : list jsstr) : bool :=
  match chunks with
  | [] => true
  | c :: chunks => starts_with acc c && snapshots c chunks
  end.

Lemma versions_completeReasoning m t : versions (completeReasoningTiming m t) = versions m.
Proof. unfold completeReasoningTiming. by repeat case_match. Qed.

Lemma content_process m c t :
  getMessageContent (processStreamingContent m c t) = getMessageContent m ++ c.
Proof. unfold processStreamingContent. by repeat case_match. Qed.

Lemma content_chunk_appends m c t :
  is_status ERROR m = false →
  getMessageContent (applyStreamingChunk m content_chunk c t)
  = getMessageContent m ++ getAppendableChunk (getMessageContent m) c ∧
  is_status ERROR (applyStreamingChunk m content_chunk c t) = false.
Proof.
  intros E. unfold applyStreamingChunk. rewrite E. split; [|done].
  rewrite <- (content_process m _ t).
  fold (getMessageContent m).
  generalize (processStreamingContent m (getAppendableChunk (getMessageContent m) c) t). intros p.
  unfold getMessageContent, getCurrentVersion. cbn -[completeReasoningTiming].
  destruct (default false (isReasoningStreaming p)); [done|]. by rewrite versions_completeReasoning.
Qed.

Lemma appendable_snapshot acc c : starts_with acc c = true → acc ++ getAppendableChunk acc c = c.
Proof.
  intros S. unfold getAppendableChunk. destruct acc as [|x acc]; [done|]. rewrite S.
  apply starts_with_app in S as (r & ->). by rewrite drop_app_length.
Qed.

Lemma appendable_delta acc c :
  match acc with [] => true | _ => negb (starts_with acc c) end = true → getAppendableChunk acc c = c.
Proof. unfold getAppendableChunk. destruct acc; [done|]. intros H. bools. by rewrite H. Qed.

Lemma stream_deltas chunks m t :
  is_status ERROR m = false → deltas (getMessageContent m) chunks = true →
  getMessageContent (stream_chunks m chunks t) = getMessageContent m ++ concat chunks.
Proof.
  revert m. induction chunks as [|c chunks IH]; intros m E D; cbn; [by rewrite app_nil_r|].
  cbn in D. apply andb_true_iff in D as [D1 D2].
  destruct (content_chunk_appends m c t E) as [C S]. rewrite appendable_delta in C by done.
  fold (stream_chunks (applyStreamingChunk m content_chunk c t) chunks t).
  rewrite IH; rewrite ?C; [by rewrite <- app_assoc|done|done].
Qed.

Lemma stream_snapshots chunks m t :
  is_status ERROR m = false → snapshots (getMessageContent m) chunks = true →
  getMessageContent (stream_chunks m chunks t) = default (getMessageContent m) (last chunks).
Proof.
  revert m. induction chunks as [|c chunks IH]; intros m E D; [done|].
  cbn in D. apply andb_true_iff in D as [D1 D2].
  destruct (content_chunk_appends m c t E) as [C S]. rewrite appendable_snapshot in C by done.
  change (getMessageContent (stream_chunks (applyStreamingChunk m content_chunk c t) chunks t)
          = default (getMessageContent m) (last (c :: chunks))).
  rewrite IH, C, last_cons; [by destruct (last chunks)|done|by rewrite C].
Qed.

(** What is shown is what was streamed.  For a message that has not
    failed, a stream of increments accumulates to their concatenation, and a
    stream of snapshots (each repeating the text so far and extending it)
    leaves the last snapshot. *)
Theorem streamed_text_accumulates m chunks t :
  is_status ERROR m = false →
  (deltas (getMessageContent m) chunks = true →
   getMessageContent (stream_chunks m chunks t) = getMessageContent m ++ concat chunks) ∧
  (snapshots (getMessageContent m) chunks = true →
   getMessageContent (stream_chunks m chunks t) = default (getMessageContent m) (last chunks)).
Proof. intros E. split; [by apply stream_deltas|by apply stream_snapshots]. Qed.

Definition loading : Message := createLoadingAssistantMessage (js "a") (js "b") (nZ 1000).

Lemma streamed_text_accumulates_witness :
  getMessageContent (stream_chunks loading [js "Hel"; js "lo "; js "world"] (nZ 2000))
  = js "Hello world".
Proof.
  apply (streamed_text_accumulates loading [js "Hel"; js "lo "; js "world"] (nZ 2000));
    vm_compute; reflexivity.
Defined.

(** A repeated increment at the start of an answer is lost.  The code
    takes a chunk that begins with the whole text so far for a snapshot; a
    genuine increment that does (a second "ha" after "ha", a digit repeated)
    is dropped. *)
Theorem repeated_increment_is_lost :
  getMessageContent (stream_chunks loading [js "ha"; js "ha"; js "!"] (nZ 2000)) = js "ha!" ∧
  concat [js "ha"; js "ha"; js "!"] = js "haha!".
Proof. split; vm_compute; reflexivity. Qed.

(** ** Restoring a conversation *)

Lemma last_index_None {A} (p : A → bool) l j y :
  last_index p l = None → l !! j = Some y → p y = false.
Proof.
  revert j. induction l as [|x l IH]; intros j; cbn; [done|].
  destruct (last_index p l); [done|]. destruct (p x) eqn:P; [done|]. intros _.
  destruct j; cbn; [congruence|]. by apply IH.
Qed.

Lemma last_index_Some {A} (p : A → bool) l i :
  last_index p l = Some i →
  (∃ x, l !! i = Some x ∧ p x = true) ∧ ∀ j y, i < j → l !! j = Some y → p y = false.
Proof.
  revert i. induction l as [|x l IH]; intros i; cbn; [done|].
  destruct (last_index p l) as [k|] eqn:L.
  - intros [= <-]. destruct (IH k eq_refl) as [E F]. split; [exact E|].
    intros [|j] y J; [lia|]. apply F. lia.
  - destruct (p x) eqn:P; [|done]. intros [= <-]. split; [by exists x|].
    intros [|j] y J; [lia|]. exact (last_index_None p l j y L).
Qed.

Lemma from_finalize m r t : from (finalizeMessage m r t) = from m.
Proof. unfold finalizeMessage, completeReasoningTiming. by repeat case_match. Qed.

Lemma completeAssistantTiming_keeps m t :
  status (completeAssistantTiming m t) = status m ∧
  isReasoningStreaming (completeAssistantTiming m t) = isReasoningStreaming m ∧
  versions (completeAssistantTiming m t) = versions m.
Proof. unfold completeAssistantTiming. by case_match. Qed.

(** A message that no longer changes: final, not streaming, and showing
    content, reasoning or the notice. *)
Definition settled_message (text : jsstr) (m : Message) : Prop :=
  isReasoningStreaming m = Some false ∧
  (status m = Some COMPLETE ∨ status m = Some ERROR ∧ getMessageContent m = text).

Lemma sanitized_settled m text t : settled_message text (sanitized_message m text t).
Proof.
  unfold sanitized_message, settled_message, getMessageContent, getCurrentVersion. case_match;
    match goal with |- context [completeAssistantTiming ?x t] =>
      destruct (completeAssistantTiming_keeps x t) as (-> & -> & ->) end; auto.
Qed.

(** Restoring a conversation settles its last pending answer and touches
    nothing else.  The list keeps its length and every other message; the last
    pending assistant message, if any, becomes complete, or an error showing
    the interruption notice when it has neither content nor reasoning; no
    pending assistant message remains at or behind its place. *)
Theorem restored_conversation_is_settled messages text t :
  let restored := sanitizeMessagesOnLoad messages text t in
  let pending := last_index isPendingAssistantMessage messages in
  length restored = length messages ∧
  (∀ i, pending ≠ Some i → restored !! i = messages !! i) ∧
  (∀ i, pending = Some i → ∃ m, restored !! i = Some m ∧ settled_message text m) ∧
  (∀ i j m, pending = Some i → i ≤ j → restored !! j = Some m → isPendingAssistantMessage m = false).
Proof.
  intros restored pending. unfold restored, pending, sanitizeMessagesOnLoad.
  destruct (last_index isPendingAssistantMessage messages) as [i|] eqn:L; [|naive_solver].
  destruct (last_index_Some _ _ _ L) as [(m & M & P) F]. rewrite M.
  pose proof (lookup_lt_Some _ _ _ M) as B. conjs.
  - apply length_insert.
  - intros j J. apply list_lookup_insert_ne. congruence.
  - intros j [= <-]. rewrite list_lookup_insert_eq by done. eauto using sanitized_settled.
  - intros k j y [= <-] J. destruct (decide (j = i)) as [-> |N].
    + rewrite list_lookup_insert_eq by done. intros [= <-].
      destruct (sanitized_settled m text t) as [_ [S|[S _]]];
        unfold isPendingAssistantMessage, isAssistantMessagePending, is_status; rewrite S;
        by rewrite andb_false_r.
    + rewrite list_lookup_insert_ne by done. apply F. lia.
Qed.

(** ** Bounded conversations *)

Definition total_size (l : list Message) : N := foldr (λ m n, getMessageSize m + n)%N 0%N l.

Lemma total_size_app a b : total_size (a ++ b) = (total_size a + total_size b)%N.
Proof. unfold total_size. induction a as [|m a IH]; cbn; [done|]. rewrite IH. lia. Qed.

Lemma total_size_one m : total_size [m] = getMessageSize m.
Proof. apply N.add_0_r. Qed.

Lemma total_size_reverse l : total_size (reverse l) = total_size l.
Proof. induction l as [|m l IH]; [done|]. rewrite reverse_cons, total_size_app, IH, total_size_one. apply N.add_comm. Qed.

(** The loop keeps a prefix of the reversed list. *)
Lemma trim_loop_spec b res :
  (total_size res <= MAX_LOADED_MESSAGES_CHARS)%N ∨ length res ≤ 1 →
  ∃ n, trim_loop b (total_size res) res = res ++ take n b ∧ n ≤ length b ∧
    ((total_size (res ++ take n b) <= MAX_LOADED_MESSAGES_CHARS)%N ∨ length (res ++ take n b) ≤ 1) ∧
    (res ++ b ≠ [] → res ++ take n b ≠ []) ∧
    (∀ m, b !! n = Some m →
       (MAX_LOADED_MESSAGES_CHARS < total_size (res ++ take n b) + getMessageSize m)%N).
Proof.
  revert res. induction b as [|m b IH]; intros res R; cbn.
  { exists 0. cbn. rewrite app_nil_r. conjs; try done. }
  assert (trim_loop b (total_size res + getMessageSize m) (res ++ [m])
          = trim_loop b (total_size (res ++ [m])) (res ++ [m])) as TS
    by (by rewrite total_size_app, total_size_one).
  assert (∀ C : (total_size (res ++ [m]) <= MAX_LOADED_MESSAGES_CHARS)%N ∨ length (res ++ [m]) ≤ 1,
    ∃ n, trim_loop b (total_size res + getMessageSize m) (res ++ [m]) = res ++ take n (m :: b) ∧
      n ≤ S (length b) ∧
      ((total_size (res ++ take n (m :: b)) <= MAX_LOADED_MESSAGES_CHARS)%N
       ∨ length (res ++ take n (m :: b)) ≤ 1) ∧
      (res ++ m :: b ≠ [] → res ++ take n (m :: b) ≠ []) ∧
      (∀ x, (m :: b) !! n = Some x →
         (MAX_LOADED_MESSAGES_CHARS < total_size (res ++ take n (m :: b)) + getMessageSize x)%N)) as STEP.
  { intros C. rewrite TS. destruct (IH _ C) as (n & E & N & S & NE & X). exists (Datatypes.S n).
    rewrite <- app_assoc in E, S, X. cbn [app] in E, S, X. cbn [take lookup list_lookup].
    conjs; [done|lia|done| |done]. intros _. by destruct res. }
  destruct res as [|r res]; [apply STEP; right; cbn; lia|].
  destruct (N.ltb_spec MAX_LOADED_MESSAGES_CHARS (total_size (r :: res) + getMessageSize m)) as [G|G].
  - exists 0. cbn [take]. rewrite app_nil_r. conjs; [done|lia|done|done|]. intros x [= <-]. exact G.
  - apply STEP. left. rewrite total_size_app, total_size_one. exact G.
Qed.

(** What is kept of a long conversation is bounded and its most recent
    part.  Storing keeps the last 100 messages; loading keeps a suffix that is
    not empty if there was a message, whose texts have at most 120,000
    characters unless it is a single message, and to which the message before
    it could not have been added. *)
Theorem kept_messages_are_bounded messages :
  let stored := trimMessages messages in
  let loaded := trimMessagesByContentSize messages in
  (∃ k, stored = drop k messages) ∧ length stored = min 100 (length messages) ∧
  ∃ k, loaded = drop k messages ∧ (messages ≠ [] → loaded ≠ []) ∧
    ((total_size loaded <= 120000)%N ∨ length loaded ≤ 1) ∧
    (∀ m, 0 < k → messages !! (k - 1) = Some m → (120000 < total_size loaded + getMessageSize m)%N).
Proof.
  intros stored loaded. split; [by eexists|].
  split; [unfold stored, trimMessages, MAX_STORED_MESSAGES; rewrite length_drop; lia|].
  destruct (trim_loop_spec (reverse messages) []) as (n & E & N & S & NE & X); [right; cbn; lia|].
  change (total_size []) with 0%N in E. cbn [app] in E, S, NE, X. rewrite length_reverse in N.
  assert (loaded = drop (length messages - n) messages) as L.
  { unfold loaded, trimMessagesByContentSize. by rewrite E, take_reverse, reverse_involutive. }
  assert (total_size loaded = total_size (take n (reverse messages))) as T.
  { unfold loaded, trimMessagesByContentSize. by rewrite E, total_size_reverse. }
  assert (length loaded = length (take n (reverse messages))) as TL.
  { unfold loaded, trimMessagesByContentSize. by rewrite E, length_reverse. }
  exists (length messages - n). split; [done|]. rewrite T. split; [|split].
  - intros M. rewrite <- length_zero_iff_nil in M |- *. rewrite TL, length_zero_iff_nil. apply NE.
    by rewrite <- length_zero_iff_nil, length_reverse.
  - destruct S as [S|S]; [by left|right; by rewrite TL].
  - intros m K M. apply X. apply reverse_lookup_Some. split; [|lia].
    rewrite <- M. f_equal. lia.
Qed.
