(* ===== verification/AdvancedCustom.v ===== *)
(** * Routes of an advanced custom channel

    Models [features/channels/lib/advanced-custom.ts]: the routes by which a
    custom channel forwards requests upstream, their normalisation,
    validation, editing and text.

    A configuration comes from JSON text an administrator typed, and the code
    does not check the types of its parts, so configurations and routes are
    dynamic values here ([jsval]) and a method called on a value that has no
    such method throws.  Names of [Object.prototype] are outside the model.
    The parser behind [new URL] is the class [UrlHost]. *)
From stdpp Require Import base list option numbers sets gmap.
From Stdlib Require Import ZArith SpecFloat Lia.
From S2P Require Import Prelude.
From S2P Require Import JsString.
From S2P Require Import JsNumber.
From S2P Require Import Syntax.
From S2P Require Import Runtime.
From S2P Require Import Json.
From S2P Require Import JsText.
From S2P Require Import JsonPrint.
From S2P Require Import AuthStore.

(** [new URL(text)]: its protocol and host, or an exception. *)
Class UrlHost := { parse_url : jsstr → option (jsstr * jsstr) }.

(** ** Dynamic values *)

(** [Boolean(v)] *)
Definition truthy (v : jsval) : bool :=
  match v with
  | JUndefined | JNull => false
  | JBool b => b
  | JNum (S754_zero _) | JNum S754_nan => false
  | JNum _ => true
  | JStr s => match s with [] => false | _ => true end
  | JArr _ | JObj _ => true
  end.

(** [a || b] *)
Definition js_or (a b : jsval) : jsval := if truthy a then a else b.

Definition type_error : exn := HostError (js "TypeError").

(** [v.key] *)
Definition member (v : jsval) (key : jsstr) : result exn jsval :=
  if is_nullish v then Err type_error else Ok (prop v key).

(** [v.trim()] *)
Definition call_trim (v : jsval) : result exn jsstr :=
  match v with JStr s => Ok (trim s) | _ => Err type_error end.

(** [v?.trim() || ''] *)
Definition optional_trim (v : jsval) : result exn jsstr :=
  if is_nullish v then Ok [] else call_trim v.

Fixpoint rmap {E A B} (f : A → result E B) (l : list A) : result E (list B) :=
  match l with
  | [] => Ok []
  | a :: l => b ← f a; bs ← rmap f l; Ok (b :: bs)
  end.

(** [new Set(l)] as the list of its elements in insertion order. *)
Fixpoint unique_from (seen : list jsstr) (l : list jsstr) : list jsstr :=
  match l with
  | [] => []
  | x :: l => if bool_decide (x ∈ seen) then unique_from seen l else x :: unique_from (x :: seen) l
  end.
Definition unique (l : list jsstr) : list jsstr := unique_from [] l.

Definition nonempty_text (s : jsstr) : bool := match s with [] => false | _ => true end.

(** ** Constants *)

Definition ADVANCED_CUSTOM_MODEL_LIST_PATH : jsstr := js "/v1/models".
Definition ADVANCED_CUSTOM_MODEL_LIST_LABEL : jsstr := js "OpenAI Models".
Definition ADVANCED_CUSTOM_BALANCE_PATH : jsstr := js "/v1/dashboard/billing/credit_grants".
Definition ADVANCED_CUSTOM_BALANCE_LABEL : jsstr := js "Balance Query".
Definition ADVANCED_CUSTOM_MODEL_REGEX_PREFIX : jsstr := js "re:".

Definition openAIChatPath : jsstr := js "/v1/chat/completions".
Definition openAIResponsesPath : jsstr := js "/v1/responses".
Definition claudeMessagesPath : jsstr := js "/v1/messages".
Definition geminiGenerateContentPath : jsstr := js "/v1beta/models/{model}:generateContent".

(** Value, label and trigger label of the converters. *)
Definition ADVANCED_CUSTOM_CONVERTER_OPTIONS : list (jsstr * jsstr * jsstr) :=
  [(js "none", js "Native forwarding", js "Native forwarding");
   (js "anthropic_messages_to_openai_chat_completions", js "Anthropic Messages to OpenAI Chat",
    js "To OpenAI Chat");
   (js "openai_chat_completions_to_anthropic_messages", js "OpenAI Chat to Anthropic Messages",
    js "To Anthropic Messages");
   (js "openai_chat_completions_to_openai_responses", js "OpenAI Chat to OpenAI Responses",
    js "To OpenAI Responses");
   (js "openai_responses_to_openai_chat_completions", js "OpenAI Responses to OpenAI Chat",
    js "To OpenAI Chat");
   (js "openai_responses_to_gemini_generate_content", js "OpenAI Responses to Gemini Generate Content",
    js "To Gemini Generate Content");
   (js "gemini_generate_content_to_openai_chat_completions", js "Gemini Generate Content to OpenAI Chat",
    js "To OpenAI Chat");
   (js "openai_chat_completions_to_gemini_generate_content", js "OpenAI Chat to Gemini Generate Content",
    js "To Gemini Generate Content")].
Definition converter_value (o : jsstr * jsstr * jsstr) : jsstr := o.1.1.

(** Value and label of the incoming paths. *)
Definition ADVANCED_CUSTOM_INCOMING_PATH_OPTIONS : list (jsstr * jsstr) :=
  [(js "/v1/chat/completions", js "OpenAI Chat");
   (js "/v1/responses", js "OpenAI Responses");
   (js "/v1/responses/compact", js "OpenAI Responses Compact");
   (js "/v1/alpha/search", js "Codex Alpha Search");
   (js "/v1/embeddings", js "OpenAI Embeddings");
   (js "/v1/images/generations", js "OpenAI Image Generations");
   (js "/v1/images/edits", js "OpenAI Image Edits");
   (js "/v1/completions", js "OpenAI Completions");
   (js "/v1/audio/speech", js "OpenAI Audio Speech");
   (js "/v1/audio/transcriptions", js "OpenAI Audio Transcriptions");
   (js "/v1/audio/translations", js "OpenAI Audio Translations");
   (js "/v1/rerank", js "Rerank");
   (js "/v1/realtime", js "OpenAI Realtime");
   (js "/v1/messages", js "Claude Messages");
   (js "/v1beta/models/{model}:generateContent", js "Gemini Generate Content");
   (js "/v1beta/models/{model}:embedContent", js "Gemini Embed Content");
   (js "/v1beta/models/{model}:batchEmbedContents", js "Gemini Batch Embed Contents")].

Definition ADVANCED_CUSTOM_ROUTE_SUMMARY_LABELS : list (jsstr * jsstr) :=
  [(js "/v1/chat/completions", js "OpenAI Chat");
   (ADVANCED_CUSTOM_MODEL_LIST_PATH, ADVANCED_CUSTOM_MODEL_LIST_LABEL);
   (ADVANCED_CUSTOM_BALANCE_PATH, ADVANCED_CUSTOM_BALANCE_LABEL)].

(** ** Routes as objects *)

Definition auth_value (type name value : jsstr) : jsval :=
  JObj [(js "type", JStr type); (js "name", JStr name); (js "value", JStr value)].
Definition bearerHeaderAuth : jsval := auth_value (js "header") (js "Authorization") (js "Bearer {api_key}").
Definition apiKeyHeaderAuth : jsval := auth_value (js "header") (js "x-api-key") (js "{api_key}").
Definition geminiQueryAuth : jsval := auth_value (js "query") (js "key") (js "{api_key}").

Definition config_of (routes : list jsval) : jsval := JObj [(js "advanced_routes", JArr routes)].

Definition native_route (auth : jsval) (path : jsstr) : jsval :=
  JObj [(js "incoming_path", JStr path); (js "upstream_path", JStr path);
        (js "converter", JStr (js "none")); (js "auth", auth)].

Definition createOpenAINativeRoutes : list jsval :=
  map (native_route bearerHeaderAuth)
    [js "/v1/chat/completions"; js "/v1/completions"; js "/v1/responses"; js "/v1/responses/compact";
     js "/v1/embeddings"; js "/v1/images/generations"; js "/v1/images/edits"; js "/v1/audio/speech";
     js "/v1/audio/transcriptions"; js "/v1/audio/translations"; js "/v1/realtime"].
Definition createClaudeNativeRoutes : list jsval := [native_route apiKeyHeaderAuth (js "/v1/messages")].
Definition createGeminiNativeRoutes : list jsval :=
  map (native_route geminiQueryAuth)
    [js "/v1beta/models/{model}:generateContent"; js "/v1beta/models/{model}:embedContent";
     js "/v1beta/models/{model}:batchEmbedContents"].
Definition createGatewayNativeRoutes : list jsval :=
  map (native_route bearerHeaderAuth) [js "/v1/alpha/search"; js "/v1/rerank"].

(** Value, label and configuration of the templates. *)
Definition ADVANCED_CUSTOM_TEMPLATE_OPTIONS : list (jsstr * jsstr * jsval) :=
  [(js "all_protocols", js "All routes",
    config_of (createOpenAINativeRoutes ++ createClaudeNativeRoutes ++ createGeminiNativeRoutes
               ++ createGatewayNativeRoutes));
   (js "openai_only", js "OpenAI only", config_of createOpenAINativeRoutes);
   (js "claude_only", js "Claude only", config_of createClaudeNativeRoutes);
   (js "gemini_only", js "Gemini only", config_of createGeminiNativeRoutes)].

Definition getAdvancedCustomTemplateConfig (templateKey : jsstr) : jsval :=
  match List.find (λ o, jseq o.1.1 templateKey) ADVANCED_CUSTOM_TEMPLATE_OPTIONS with
  | Some o => o.2
  | None => default JUndefined (snd <$> head ADVANCED_CUSTOM_TEMPLATE_OPTIONS)
  end.

Definition createAdvancedCustomRoute : jsval :=
  JObj [(js "incoming_path", JStr openAIChatPath); (js "upstream_path", JStr openAIChatPath);
        (js "converter", JStr (js "none"))].
Definition createAdvancedCustomConfig : jsval := config_of [createAdvancedCustomRoute].
Definition createAdvancedCustomManagementRoute (path : jsstr) : jsval :=
  JObj [(js "incoming_path", JStr path); (js "upstream_path", JStr path);
        (js "converter", JStr (js "none")); (js "models", JArr [])].

(** ** Normalisation *)

Definition getAdvancedCustomRouteUpstreamPath (route : jsval) : result exn jsstr :=
  p ← member route (js "upstream_path");
  call_trim (js_or p (JStr [])).

Definition normalizeAdvancedCustomRouteModels (models : jsval) : result exn (list jsstr) :=
  match models with
  | JArr items => ms ← rmap call_trim items; Ok (List.filter nonempty_text ms)
  | _ => Ok []
  end.

Definition normalizeAdvancedCustomRoute (route : jsval) : result exn jsval :=
  incoming ← member route (js "incoming_path");
  upstream ← getAdvancedCustomRouteUpstreamPath route;
  let converter := js_or (prop route (js "converter")) (JStr (js "none")) in
  models ← normalizeAdvancedCustomRouteModels (prop route (js "models"));
  let auth := prop route (js "auth") in
  Ok (JObj
    ([(js "incoming_path", js_or incoming (JStr [])); (js "upstream_path", JStr upstream);
      (js "converter", converter)]
     ++ match models with [] => [] | _ => [(js "models", JArr (map JStr models))] end
     ++ match prop route (js "pass_through_body_enabled") with
        | JBool true => [(js "pass_through_body_enabled", JBool true)]
        | _ => []
        end
     ++ (if truthy auth
         then [(js "auth", JObj [(js "type", prop auth (js "type"));
                                 (js "name", js_or (prop auth (js "name")) (JStr []));
                                 (js "value", js_or (prop auth (js "value")) (JStr []))])]
         else []))).

(** The routes of the normalised configuration. *)
Definition normalized_routes (config : jsval) : result exn (list jsval) :=
  r ← member config (js "advanced_routes");
  match r with
  | JArr routes => rmap normalizeAdvancedCustomRoute routes
  | _ => Ok []
  end.
Definition normalizeAdvancedCustomConfig (config : jsval) : result exn jsval :=
  config_of <$> normalized_routes config.

(** ** Text *)

(** [null] is [None]; the exceptions of the parser and of the normalisation
    are caught. *)
Definition parseAdvancedCustomConfig (value : option jsstr) : option jsval :=
  match value with
  | None => None
  | Some text =>
      if negb (nonempty_text (trim text)) then None
      else
        parsed ← json_parse text;
        match parsed with
        | JObj _ => match normalizeAdvancedCustomConfig parsed with Ok c => Some c | Err _ => None end
        | _ => None
        end
  end.

Definition stringifyAdvancedCustomConfig (config : jsval) : result exn jsstr :=
  stringify_pretty <$> normalizeAdvancedCustomConfig config.

Definition parseAdvancedCustomRouteModels (value : jsstr) : list jsstr :=
  unique (List.filter nonempty_text (map trim (split_on (cu ",") value))).

(** ** Model rules *)

Inductive AdvancedCustomModelRuleKind : Type := exact_rule | regex_rule.

Definition getAdvancedCustomModelRuleKind (modelRule : jsstr) : AdvancedCustomModelRuleKind :=
  if starts_with ADVANCED_CUSTOM_MODEL_REGEX_PREFIX modelRule then regex_rule else exact_rule.
Definition getAdvancedCustomRegexModelPattern (modelRule : jsstr) : jsstr :=
  drop (length ADVANCED_CUSTOM_MODEL_REGEX_PREFIX) modelRule.

(** ** Converters and paths *)

Definition isAdvancedCustomManagementPath (path : jsstr) : bool :=
  jseq path ADVANCED_CUSTOM_MODEL_LIST_PATH || jseq path ADVANCED_CUSTOM_BALANCE_PATH.

Definition isAdvancedCustomConverter (value : jsval) : bool :=
  existsb (λ o, is_literal value (converter_value o)) ADVANCED_CUSTOM_CONVERTER_OPTIONS.

Definition isConverterPathAllowed (incomingPath : jsstr) (converter : jsval) : bool :=
  if is_literal converter (js "none") then true
  else if jseq incomingPath (js "/v1/alpha/search") then false
  else if is_literal converter (js "anthropic_messages_to_openai_chat_completions")
  then jseq incomingPath (js "/v1/messages")
  else if is_literal converter (js "openai_chat_completions_to_anthropic_messages")
          || is_literal converter (js "openai_chat_completions_to_openai_responses")
          || is_literal converter (js "openai_chat_completions_to_gemini_generate_content")
  then jseq incomingPath (js "/v1/chat/completions")
  else if is_literal converter (js "openai_responses_to_openai_chat_completions")
  then jseq incomingPath (js "/v1/responses")
  else if is_literal converter (js "openai_responses_to_gemini_generate_content")
  then jseq incomingPath (js "/v1/responses")
  else includes (js ":generateContent") incomingPath
       || includes (js ":streamGenerateContent") incomingPath.

Definition isAdvancedCustomIncomingPathAllowed := isConverterPathAllowed.
Definition isAdvancedCustomPassThroughAllowed (converter : jsval) : bool :=
  is_literal converter (js "none").

Definition getAdvancedCustomIncomingPathOptions (converter : jsval) : list (jsstr * jsstr) :=
  List.filter (λ o, isConverterPathAllowed o.1 converter) ADVANCED_CUSTOM_INCOMING_PATH_OPTIONS.

Definition getDefaultAdvancedCustomIncomingPath (converter : jsval) : jsstr :=
  match getAdvancedCustomIncomingPathOptions converter with
  | ((_ :: _) as p, _) :: _ => p
  | _ => js "/v1/chat/completions"
  end.

Definition getAdvancedCustomConverterOptions (incomingPath : jsstr) : list (jsstr * jsstr * jsstr) :=
  let normalized := trim incomingPath in
  List.filter (λ o, jseq (converter_value o) (js "none")
                    || isConverterPathAllowed normalized (JStr (converter_value o)))
    ADVANCED_CUSTOM_CONVERTER_OPTIONS.

Definition getAdvancedCustomIncomingPathLabel (value : jsstr) : jsstr :=
  match List.find (λ o, jseq o.1 value) ADVANCED_CUSTOM_INCOMING_PATH_OPTIONS with
  | Some (_, (_ :: _) as label) => label
  | _ => value
  end.

Definition getAdvancedCustomNativeAuth (incomingPath : jsstr) : jsval :=
  if jseq incomingPath claudeMessagesPath then apiKeyHeaderAuth
  else if includes (js ":generateContent") incomingPath
          || includes (js ":streamGenerateContent") incomingPath
          || includes (js ":embedContent") incomingPath
          || includes (js ":batchEmbedContents") incomingPath
  then geminiQueryAuth
  else bearerHeaderAuth.

(** Upstream path and authorization. *)
Definition getAdvancedCustomConverterDefaults (converter : jsval) (incomingPath : jsstr) :
    jsstr * jsval :=
  let normalized := match trim incomingPath with
                    | [] => getDefaultAdvancedCustomIncomingPath converter
                    | p => p
                    end in
  let conv s := is_literal converter (js s) in
  if conv "none"%string then (normalized, getAdvancedCustomNativeAuth normalized)
  else if conv "anthropic_messages_to_openai_chat_completions"%string
          || conv "gemini_generate_content_to_openai_chat_completions"%string
          || conv "openai_responses_to_openai_chat_completions"%string
  then (openAIChatPath, bearerHeaderAuth)
  else if conv "openai_chat_completions_to_openai_responses"%string
  then (openAIResponsesPath, bearerHeaderAuth)
  else if conv "openai_chat_completions_to_anthropic_messages"%string
  then (claudeMessagesPath, apiKeyHeaderAuth)
  else if conv "openai_chat_completions_to_gemini_generate_content"%string
          || conv "openai_responses_to_gemini_generate_content"%string
  then (geminiGenerateContentPath, geminiQueryAuth)
  else (match normalized with [] => openAIChatPath | p => p end,
        getAdvancedCustomNativeAuth normalized).

Definition getAdvancedCustomUpstreamPathPlaceholder (converter : jsval) (incomingPath : option jsstr) :
    jsstr :=
  (getAdvancedCustomConverterDefaults converter
     (default (getDefaultAdvancedCustomIncomingPath converter) incomingPath)).1.

(** ** Authorization *)

Inductive AdvancedCustomAuthMode : Type := auth_default | auth_none | auth_header | auth_query.

Definition getAdvancedCustomAuthMode (route : jsval) : result exn jsval :=
  auth ← member route (js "auth");
  Ok (js_or (if is_nullish auth then JUndefined else prop auth (js "type")) (JStr (js "default"))).

(** [previous?.key || fallback] *)
Definition previous_or (previous : jsval) (key fallback : jsstr) : jsval :=
  js_or (if is_nullish previous then JUndefined else prop previous key) (JStr fallback).

Definition buildAdvancedCustomAuth (mode : AdvancedCustomAuthMode) (previousAuth : jsval) : jsval :=
  let auth type name value :=
    JObj [(js "type", JStr type); (js "name", previous_or previousAuth (js "name") name);
          (js "value", previous_or previousAuth (js "value") value)] in
  match mode with
  | auth_default => JUndefined
  | auth_none => JObj [(js "type", JStr (js "none"))]
  | auth_header => auth (js "header") (js "Authorization") (js "Bearer {api_key}")
  | auth_query => auth (js "query") (js "api_key") (js "{api_key}")
  end.

(** ** Validation *)

Record AdvancedCustomValidationError : Type := { message : jsstr; routeIndex : option nat }.

(** A validator returns early with an error, or throws. *)
Inductive stop : Type :=
| Rejected (e : AdvancedCustomValidationError)
| Threw (e : exn).

(** A call that may throw. *)
Definition call {A} (r : result exn A) : result stop A :=
  match r with Ok a => Ok a | Err e => Err (Threw e) end.

(** [if (b) return { routeIndex, message }] *)
Definition reject_if (b : bool) (index : nat) (m : jsstr) : result stop () :=
  if b then Err (Rejected {| message := m; routeIndex := Some index |}) else Ok ().

(** What earlier routes of an incoming path claimed. *)
Record path_state : Type := { catchAllIndex : option nat; state_models : gmap jsstr nat }.
Definition no_claims : path_state := {| catchAllIndex := None; state_models := ∅ |}.

Record validation : Type := {
  routeModelsByPath : gmap jsstr path_state;
  modelListRouteIndex : option nat;
  balanceRouteIndex : option nat;
}.
Definition initial_validation : validation :=
  {| routeModelsByPath := ∅; modelListRouteIndex := None; balanceRouteIndex := None |}.

Fixpoint claim_models (index : nat) (models : list jsstr) (seenInRoute : gset jsstr) (state : path_state) :
    result stop path_state :=
  match models with
  | [] => Ok state
  | model :: models =>
      _ ← reject_if (match getAdvancedCustomModelRuleKind model with regex_rule => true | _ => false end
                     && negb (nonempty_text (getAdvancedCustomRegexModelPattern model)))
            index (js "Model regex cannot be empty");
      _ ← reject_if (bool_decide (model ∈ seenInRoute)) index (js "Duplicate model in route models");
      _ ← reject_if (is_some (state_models state !! model)) index
            (js "Route models must be unique for the same incoming path");
      claim_models index models ({[model]} ∪ seenInRoute)
        {| catchAllIndex := catchAllIndex state; state_models := <[model := index]> (state_models state) |}
  end.

Definition validateAdvancedCustomRouteModels (index : nat) (incomingPath : jsstr) (models : list jsstr)
    (paths : gmap jsstr path_state) : result stop (gmap jsstr path_state) :=
  let state := default no_claims (paths !! incomingPath) in
  match models with
  | [] =>
      _ ← reject_if (is_some (catchAllIndex state)) index
            (js "Only one catch-all route is allowed for the same incoming path");
      Ok (<[incomingPath := {| catchAllIndex := Some index; state_models := state_models state |}]> paths)
  | _ =>
      _ ← reject_if (is_some (catchAllIndex state)) index
            (js "Catch-all route must be last for the same incoming path");
      state ← claim_models index models ∅ state;
      Ok (<[incomingPath := state]> paths)
  end.

(** [return { routeIndex, message }] with the message of the error, if any *)
Definition validateRouteAuth (auth : jsval) : result exn (option jsstr) :=
  if negb (truthy auth) then Ok None
  else
    let type := prop auth (js "type") in
    if is_literal type (js "none") then Ok None
    else if negb (is_literal type (js "header")) && negb (is_literal type (js "query"))
    then Ok (Some (js "Auth type is invalid"))
    else
      name ← optional_trim (prop auth (js "name"));
      if negb (nonempty_text name) then Ok (Some (js "Auth name is required"))
      else
        value ← optional_trim (prop auth (js "value"));
        Ok (if negb (nonempty_text value) then Some (js "Auth value is required") else None).

Section Validation.
Context `{UrlHost}.

Definition isFullHttpURLOrAbsolutePath (value : jsstr) : bool :=
  if starts_with (js "/") value then negb (starts_with (js "//") value)
  else match parse_url value with
       | Some (protocol, host) =>
           nonempty_text host && (jseq protocol (js "http:") || jseq protocol (js "https:"))
       | None => false
       end.

(** The part of the loop body for the two management paths. *)
Definition validate_management (index : nat) (incomingPath upstreamPath : jsstr) (converter : jsval)
    (routeModels : list jsstr) (route : jsval) (st : validation) : result stop validation :=
  if negb (isAdvancedCustomManagementPath incomingPath) then Ok st
  else
    let isModelListRoute := jseq incomingPath ADVANCED_CUSTOM_MODEL_LIST_PATH in
    let existingIndex := if isModelListRoute then modelListRouteIndex st else balanceRouteIndex st in
    let routeLabel := if isModelListRoute then js "OpenAI Models" else js "Balance Query" in
    _ ← reject_if (is_some existingIndex) index (js "Only one " ++ routeLabel ++ js " route is allowed");
    let st :=
      if isModelListRoute
      then {| routeModelsByPath := routeModelsByPath st; modelListRouteIndex := Some index;
              balanceRouteIndex := balanceRouteIndex st |}
      else {| routeModelsByPath := routeModelsByPath st; modelListRouteIndex := modelListRouteIndex st;
              balanceRouteIndex := Some index |} in
    _ ← reject_if (match routeModels with [] => false | _ => true end) index
          (routeLabel ++ js " route does not support client model rules");
    _ ← reject_if (negb (is_literal converter (js "none"))) index
          (routeLabel ++ js " route must use native forwarding");
    _ ← reject_if (includes (js "{model}") upstreamPath) index
          (routeLabel ++ js " upstream path must not contain {model}");
    _ ← reject_if (truthy (prop route (js "pass_through_body_enabled"))) index
          (routeLabel ++ js " route does not support pass-through");
    Ok st.

(** The loop body. *)
Definition validate_route (index : nat) (route : jsval) (st : validation) : result stop validation :=
  incoming ← call (member route (js "incoming_path"));
  incomingPath ← call (optional_trim incoming);
  upstreamPath ← call (getAdvancedCustomRouteUpstreamPath route);
  let converter := js_or (prop route (js "converter")) (JStr (js "none")) in
  routeModels ← call (normalizeAdvancedCustomRouteModels (prop route (js "models")));
  _ ← reject_if (negb (nonempty_text incomingPath)) index (js "Incoming path is required");
  _ ← reject_if (negb (starts_with (js "/") incomingPath)) index (js "Incoming path must start with /");
  _ ← reject_if (includes (js "?") incomingPath) index (js "Incoming path must not include query");
  st ← validate_management index incomingPath upstreamPath converter routeModels route st;
  paths ← validateAdvancedCustomRouteModels index incomingPath routeModels (routeModelsByPath st);
  let st := {| routeModelsByPath := paths; modelListRouteIndex := modelListRouteIndex st;
               balanceRouteIndex := balanceRouteIndex st |} in
  _ ← reject_if (negb (nonempty_text upstreamPath)) index (js "Upstream path is required");
  _ ← reject_if (negb (isFullHttpURLOrAbsolutePath upstreamPath)) index
        (js "Upstream path must be a full URL or a path starting with /");
  _ ← reject_if (negb (isAdvancedCustomConverter converter)) index (js "Converter is not registered");
  _ ← reject_if (negb (isConverterPathAllowed incomingPath converter)) index
        (js "Converter does not match incoming path");
  _ ← reject_if (truthy (prop route (js "pass_through_body_enabled"))
                 && negb (isAdvancedCustomPassThroughAllowed converter)) index
        (js "Pass-through requires native forwarding");
  authError ← call (validateRouteAuth (prop route (js "auth")));
  _ ← reject_if (is_some authError) index (default [] authError);
  Ok st.

Fixpoint validate_routes (index : nat) (routes : list jsval) (st : validation) : result stop validation :=
  match routes with
  | [] => Ok st
  | route :: routes => st ← validate_route index route st; validate_routes (S index) routes st
  end.

(** [null] is [Ok None]; the argument is null when there is no
    configuration. *)
Definition validateAdvancedCustomConfig (config : jsval) :
    result exn (option AdvancedCustomValidationError) :=
  if negb (truthy config)
  then Ok (Some {| message := js "Advanced custom configuration is required"; routeIndex := None |})
  else
    routes ← normalized_routes config;
    match routes with
    | [] => Ok (Some {| message := js "Advanced custom configuration requires at least one route";
                        routeIndex := None |})
    | _ =>
        match validate_routes 0 routes initial_validation with
        | Ok _ => Ok None
        | Err (Rejected e) => Ok (Some e)
        | Err (Threw e) => Err e
        end
    end.

Definition at_path (path : jsstr) (route : jsval) : result exn bool :=
  incoming ← member route (js "incoming_path");
  if is_nullish incoming then Ok false
  else p ← call_trim incoming; Ok (jseq p path).

(** [routes.some(f)] and [routes.find(f)] *)
Fixpoint some_route (f : jsval → result exn bool) (routes : list jsval) : result exn bool :=
  match routes with
  | [] => Ok false
  | r :: routes => b ← f r; if (b : bool) then Ok true else some_route f routes
  end.
Fixpoint index_route (f : jsval → result exn bool) (routes : list jsval) : result exn (option nat) :=
  match routes with
  | [] => Ok None
  | r :: routes => b ← f r; if (b : bool) then Ok (Some 0) else i ← index_route f routes; Ok (option_map S i)
  end.

Definition hasValidAdvancedCustomModelListRoute (config : jsval) : result exn bool :=
  if negb (truthy config) then Ok false
  else
    error ← validateAdvancedCustomConfig config;
    if is_some error then Ok false
    else
      routes ← normalized_routes config;
      some_route (at_path ADVANCED_CUSTOM_MODEL_LIST_PATH) routes.

Definition advancedCustomConfigUsesRelativeUpstreamPath (config : jsval) : result exn bool :=
  if negb (truthy config) then Ok false
  else
    routes ← normalized_routes config;
    some_route (λ r, p ← getAdvancedCustomRouteUpstreamPath r; Ok (starts_with (js "/") p)) routes.

Definition getAdvancedCustomRouteSummaryLabel (route : jsval) : result exn (option jsstr) :=
  incoming ← member route (js "incoming_path");
  path ← optional_trim incoming;
  Ok (match path with
      | [] => None
      | _ => Some (match List.find (λ o, jseq o.1 path) ADVANCED_CUSTOM_ROUTE_SUMMARY_LABELS with
                   | Some (_, label) => label
                   | None => getAdvancedCustomIncomingPathLabel path
                   end)
      end).

(** Route count, validity and the labels of the kinds of routes. *)
Definition getAdvancedCustomStats (value : option jsstr) : result exn (nat * bool * list jsstr) :=
  match parseAdvancedCustomConfig value with
  | None => Ok (0, false, [])
  | Some config =>
      routes ← normalized_routes config;
      labels ← rmap getAdvancedCustomRouteSummaryLabel routes;
      error ← validateAdvancedCustomConfig (config_of routes);
      Ok (length routes, negb (is_some error), unique (omap id labels))
  end.
End Validation.

(** ** Editing *)

Definition getAdvancedCustomManagementRoute (config : jsval) (path : jsstr) : result exn (option jsval) :=
  routes ← normalized_routes config;
  i ← index_route (at_path path) routes;
  Ok (i ← i; routes !! i).

(** [routes.splice(index, 1)] removes, [routes[index] = r] replaces. *)
Definition replaceAdvancedCustomManagementRoute (config : jsval) (path : jsstr) (route : option jsval) :
    result exn jsval :=
  routes ← normalized_routes config;
  index ← index_route (at_path path) routes;
  match route with
  | None => Ok (config_of (match index with Some i => delete i routes | None => routes end))
  | Some route =>
      upstream ← member route (js "upstream_path");
      let managementRoute :=
        JObj [(js "incoming_path", JStr path); (js "upstream_path", js_or upstream (JStr []));
              (js "converter", JStr (js "none")); (js "models", JArr []);
              (js "auth", prop route (js "auth"))] in
      Ok (config_of (match index with
                     | Some i => <[i := managementRoute]> routes
                     | None => routes ++ [managementRoute]
                     end))
  end.

Definition is_management (route : jsval) : result exn bool :=
  incoming ← member route (js "incoming_path");
  p ← optional_trim incoming;
  Ok (isAdvancedCustomManagementPath p).

(** [routes.filter(f)] *)
Fixpoint filter_routes (f : jsval → result exn bool) (routes : list jsval) : result exn (list jsval) :=
  match routes with
  | [] => Ok []
  | r :: routes => b ← f r; rs ← filter_routes f routes; Ok (if (b : bool) then r :: rs else rs)
  end.

Definition replaceAdvancedCustomForwardingRoutes (config : jsval) (forwardingRoutes : list jsval) :
    result exn jsval :=
  routes ← normalized_routes config;
  first ← index_route (λ r, b ← is_management r; Ok (negb b)) routes;
  managementRoutes ← filter_routes is_management routes;
  match first with
  | None => Ok (config_of (managementRoutes ++ forwardingRoutes))
  | Some i =>
      before ← filter_routes is_management (take i routes);
      after ← filter_routes is_management (drop i routes);
      Ok (config_of (before ++ forwardingRoutes ++ after))
  end.
