(* ===== verification/AdvancedCustomFacts.v ===== *)
(** * Facts about the routes of an advanced custom channel

    Normalised routes as a record, the abstract notion of a valid route
    table, and that the validator decides it. *)
From stdpp Require Import base list option numbers sets gmap.
From Stdlib Require Import ZArith SpecFloat Lia.
From S2P Require Import Prelude.
From S2P Require Import JsString.
From S2P Require Import JsNumber.
From S2P Require Import Syntax.
From S2P Require Import Runtime.
From S2P Require Import Structure.
From S2P Require Import Json.
From S2P Require Import JsText.
From S2P Require Import JsonPrint.
From S2P Require Import AuthStore.
From S2P Require Import AdvancedCustom.

(** ** Normalisation *)

Lemma rmap_Ok {E A B} (f : A → result E B) l bs :
  rmap f l = Ok bs ↔ Forall2 (λ a b, f a = Ok b) l bs.
Proof.
  revert bs. induction l as [|a l IH]; intros bs; cbn.
  - split; [intros [= <-]; constructor|]. by inversion 1.
  - split.
    + intros H. destruct (f a) as [b|] eqn:Fa; [|done]. cbn in H.
      destruct (rmap f l) as [bs'|] eqn:Fl; [|done]. cbn in H. injection H as <-.
      constructor; [done|]. by apply IH.
    + inversion 1 as [|? b ? bs' Fa Fl]; subst. rewrite Fa. cbn. apply IH in Fl. by rewrite Fl.
Qed.

Lemma js_or_idem a b : js_or (js_or a b) b = js_or a b.
Proof. unfold js_or. destruct (truthy a) eqn:T; [by rewrite T|]. by destruct (truthy b). Qed.

(** The models of a normalised route. *)
Definition clean_models (ms : list jsstr) : Prop :=
  Forall (λ m, trim m = m ∧ nonempty_text m = true) ms.

Lemma normalize_models_clean v ms : normalizeAdvancedCustomRouteModels v = Ok ms → clean_models ms.
Proof.
  destruct v; try (intros [= <-]; constructor). cbn. destruct (rmap call_trim items) as [ts|] eqn:R; [|done].
  intros [= <-]. apply rmap_Ok in R. unfold clean_models. rewrite Forall_forall.
  intros m [I N]%list_elem_of_In%filter_In. split; [|done]. apply list_elem_of_In in I.
  apply list_elem_of_lookup in I as [i I].
  destruct (Forall2_lookup_r _ _ _ _ _ R I) as (x & _ & X). destruct x; try done.
  cbn in X. injection X as <-. apply trim_trim.
Qed.

Lemma normalize_clean_models ms :
  clean_models ms → normalizeAdvancedCustomRouteModels (JArr (map JStr ms)) = Ok ms.
Proof.
  intros C. cbn. assert (rmap call_trim (map JStr ms) = Ok (ms : list jsstr)) as ->.
  { induction C as [|m ms [T N] C IH]; [done|]. cbn in *. by rewrite IH, T. }
  cbn. f_equal. apply filter_all. eapply Forall_impl; [exact C|]. by intros m [].
Qed.

(** A normalised route: the fields of the object [normalizeAdvancedCustomRoute]
    builds, the optional ones absent when empty. *)
Record Route : Type := {
  r_incoming : jsval;
  r_upstream : jsstr;
  r_converter : jsval;
  r_models : list jsstr;
  r_pass : bool;
  r_auth : option (jsval * jsval * jsval);
}.

Definition auth_object (t n v : jsval) : jsval :=
  JObj [(js "type", t); (js "name", n); (js "value", v)].

Lemma auth_props t n v :
  prop (auth_object t n v) (js "type") = t ∧ prop (auth_object t n v) (js "name") = n ∧
  prop (auth_object t n v) (js "value") = v.
Proof. done. Qed.

Definition route_auth (r : Route) : jsval :=
  match r_auth r with
  | Some (t, n, v) => auth_object t n v
  | None => JUndefined
  end.

Definition route_value (r : Route) : jsval :=
  JObj ([(js "incoming_path", r_incoming r); (js "upstream_path", JStr (r_upstream r));
         (js "converter", r_converter r)]
        ++ match r_models r with [] => [] | ms => [(js "models", JArr (map JStr ms))] end
        ++ (if r_pass r then [(js "pass_through_body_enabled", JBool true)] else [])
        ++ match r_auth r with None => [] | Some _ => [(js "auth", route_auth r)] end).

(** What the reads of a normalised route give. *)
Lemma route_value_props r :
  prop (route_value r) (js "incoming_path") = r_incoming r ∧
  prop (route_value r) (js "upstream_path") = JStr (r_upstream r) ∧
  prop (route_value r) (js "converter") = r_converter r ∧
  prop (route_value r) (js "models")
    = match r_models r with [] => JUndefined | ms => JArr (map JStr ms) end ∧
  prop (route_value r) (js "pass_through_body_enabled") = (if r_pass r then JBool true else JUndefined) ∧
  prop (route_value r) (js "auth") = route_auth r.
Proof. by destruct r as [i u c [|m ms] [] [[[t n] v]|]]. Qed.

Lemma member_route r k : member (route_value r) k = Ok (prop (route_value r) k).
Proof. done. Qed.

Record ok_route (r : Route) : Prop := {
  ok_incoming : js_or (r_incoming r) (JStr []) = r_incoming r;
  ok_upstream : trim (r_upstream r) = r_upstream r;
  ok_converter : js_or (r_converter r) (JStr (js "none")) = r_converter r;
  ok_models : clean_models (r_models r);
  ok_auth : match r_auth r with
            | Some (_, n, v) => js_or n (JStr []) = n ∧ js_or v (JStr []) = v
            | None => True
            end;
}.

Lemma upstream_trimmed v up : getAdvancedCustomRouteUpstreamPath v = Ok up → trim up = up.
Proof.
  unfold getAdvancedCustomRouteUpstreamPath. destruct (member v _); [|done]. cbn.
  destruct (js_or _ _); try done. intros [= <-]. apply trim_trim.
Qed.

(** The route a value normalises to. *)
Definition normal_route (v : jsval) (up : jsstr) (ms : list jsstr) : Route :=
  let a := prop v (js "auth") in
  {| r_incoming := js_or (prop v (js "incoming_path")) (JStr []); r_upstream := up;
     r_converter := js_or (prop v (js "converter")) (JStr (js "none")); r_models := ms;
     r_pass := match prop v (js "pass_through_body_enabled") with JBool true => true | _ => false end;
     r_auth := if truthy a then Some (prop a (js "type"), js_or (prop a (js "name")) (JStr []),
                                      js_or (prop a (js "value")) (JStr [])) else None |}.

Lemma normalize_route_eq v :
  normalizeAdvancedCustomRoute v =
    (up ← getAdvancedCustomRouteUpstreamPath v;
     ms ← normalizeAdvancedCustomRouteModels (prop v (js "models"));
     Ok (route_value (normal_route v up ms))).
Proof.
  unfold normalizeAdvancedCustomRoute, getAdvancedCustomRouteUpstreamPath, member.
  destruct (is_nullish v); [done|]. cbn [mbind result_bind].
  destruct (call_trim _) as [up|]; [|done]. cbn [mbind result_bind].
  destruct (normalizeAdvancedCustomRouteModels _) as [ms|]; [|done]. cbn [mbind result_bind].
  unfold route_value, route_auth, normal_route. cbn -[prop js_or truthy js].
  by destruct ms, (prop v (js "pass_through_body_enabled")) as [| |[]| | | |], (truthy (prop v (js "auth"))).
Qed.

Lemma normalize_route_shape v v' :
  normalizeAdvancedCustomRoute v = Ok v' →
  ∃ up ms, v' = route_value (normal_route v up ms) ∧ ok_route (normal_route v up ms).
Proof.
  rewrite normalize_route_eq.
  destruct (getAdvancedCustomRouteUpstreamPath v) as [up|] eqn:U; [|done]. cbn [mbind result_bind].
  destruct (normalizeAdvancedCustomRouteModels _) as [ms|] eqn:M; [|done]. cbn [mbind result_bind].
  intros [= <-]. exists up, ms. split; [done|]. apply upstream_trimmed in U. apply normalize_models_clean in M.
  split; cbn -[prop js_or truthy js]; auto using js_or_idem.
  destruct (truthy (prop v (js "auth"))); auto using js_or_idem.
Qed.

Lemma route_upstream r : ok_route r → getAdvancedCustomRouteUpstreamPath (route_value r) = Ok (r_upstream r).
Proof.
  intros O. unfold getAdvancedCustomRouteUpstreamPath. destruct (route_value_props r) as (_ & P & _).
  rewrite member_route, P. cbn [mbind result_bind]. pose proof (ok_upstream r O) as T.
  unfold js_or. destruct (r_upstream r); cbn; [done|]. cbn in T. by rewrite T.
Qed.

Lemma route_models r :
  ok_route r →
  normalizeAdvancedCustomRouteModels (prop (route_value r) (js "models")) = Ok (r_models r).
Proof.
  intros O. destruct (route_value_props r) as (_ & _ & _ & -> & _).
  pose proof (normalize_clean_models _ (ok_models r O)) as N. by destruct (r_models r).
Qed.

Lemma normalize_route_value r :
  ok_route r → normalizeAdvancedCustomRoute (route_value r) = Ok (route_value r).
Proof.
  intros O. unfold normalizeAdvancedCustomRoute.
  rewrite member_route, route_upstream, route_models by done.
  destruct (route_value_props r) as (-> & _ & -> & _ & -> & ->). cbn [mbind result_bind].
  destruct O as [-> _ -> _ A]. do 2 f_equal. unfold route_auth. destruct r as [i u c ms p a]. cbn in *.
  destruct a as [[[t n] v]|]; [|by destruct ms, p].
  destruct (auth_props t n v) as (-> & -> & ->). rewrite (proj1 A), (proj2 A). by destruct ms, p.
Qed.

Lemma normalize_route_idem v v' :
  normalizeAdvancedCustomRoute v = Ok v' → normalizeAdvancedCustomRoute v' = Ok v'.
Proof. intros (up & ms & -> & O)%normalize_route_shape. by apply normalize_route_value. Qed.

Lemma normalized_routes_idem c rs : normalized_routes c = Ok rs → normalized_routes (config_of rs) = Ok rs.
Proof.
  unfold normalized_routes at 1. destruct (member c _) as [r|]; [|done]. cbn [mbind result_bind].
  intros H. change (normalized_routes (config_of rs)) with (rmap normalizeAdvancedCustomRoute rs).
  apply rmap_Ok, Forall2_same_length_lookup_2; [done|]. intros i x y X Y. rewrite X in Y. injection Y as <-.
  destruct r; try (by injection H as <-). apply rmap_Ok in H.
  destruct (Forall2_lookup_r _ _ _ _ _ H X) as (v & _ & V). by eapply normalize_route_idem.
Qed.

(** ** Typed configurations *)

Definition text_or_absent (v : jsval) : Prop := v = JUndefined ∨ ∃ s, v = JStr s.

(** A route whose fields have their declared types. *)
Record typed_route (v : jsval) : Prop := {
  typed_object : is_nullish v = false;
  typed_incoming : text_or_absent (prop v (js "incoming_path"));
  typed_upstream : text_or_absent (prop v (js "upstream_path"));
  typed_converter : text_or_absent (prop v (js "converter"));
  typed_models : prop v (js "models") = JUndefined ∨ ∃ ms, prop v (js "models") = JArr (map JStr ms);
  typed_auth :
    prop v (js "auth") = JUndefined ∨
    (text_or_absent (prop (prop v (js "auth")) (js "type")) ∧
     text_or_absent (prop (prop v (js "auth")) (js "name")) ∧
     text_or_absent (prop (prop v (js "auth")) (js "value")));
}.

Definition typed_config (c : jsval) : Prop :=
  ∃ routes, c = config_of routes ∧ Forall typed_route routes.

(** The fields of a normalised typed route are texts. *)
Record text_route (r : Route) : Prop := {
  text_incoming : ∃ s, r_incoming r = JStr s;
  text_converter : ∃ s, r_converter r = JStr s;
  text_auth : match r_auth r with
              | Some (t, n, v) => text_or_absent t ∧ (∃ s, n = JStr s) ∧ (∃ s, v = JStr s)
              | None => True
              end;
}.

Lemma js_or_text v s : text_or_absent v → ∃ s', js_or v (JStr s) = JStr s'.
Proof. intros [->|[x ->]]; unfold js_or; [by eexists|]. destruct x; by eexists. Qed.

Lemma call_trim_texts ms : rmap call_trim (map JStr ms) = Ok (map trim ms).
Proof. induction ms as [|m ms IH]; [done|]. cbn. cbn in IH. by rewrite IH. Qed.

Lemma typed_normalizes v :
  typed_route v →
  ∃ r, normalizeAdvancedCustomRoute v = Ok (route_value r) ∧ ok_route r ∧ text_route r.
Proof.
  intros T.
  destruct (js_or_text _ [] (typed_upstream v T)) as [u U].
  assert (∃ ms, normalizeAdvancedCustomRouteModels (prop v (js "models")) = Ok ms) as [ms M].
  { destruct (typed_models v T) as [->|[ms ->]]; [by eexists|]. cbn. rewrite call_trim_texts. by eexists. }
  assert (normalizeAdvancedCustomRoute v = Ok (route_value (normal_route v (trim u) ms))) as N.
  { rewrite normalize_route_eq. unfold getAdvancedCustomRouteUpstreamPath, member.
    rewrite (typed_object v T). cbn [mbind result_bind]. rewrite U. cbn [call_trim mbind result_bind].
    by rewrite M. }
  exists (normal_route v (trim u) ms). split; [done|]. split.
  - split; cbn -[prop js_or truthy js trim]; [apply js_or_idem|apply trim_trim|apply js_or_idem|..].
    + by eapply normalize_models_clean.
    + destruct (truthy (prop v (js "auth"))); auto using js_or_idem.
  - split; cbn -[prop js_or truthy js]; [apply js_or_text; apply T..|].
    destruct (typed_auth v T) as [->|(A1 & A2 & A3)]; [done|].
    destruct (truthy (prop v (js "auth"))); auto using js_or_text.
Qed.

(** ** Valid route tables *)

(** The incoming path a request is compared with. *)
Definition r_path (r : Route) : jsstr := match r_incoming r with JStr s => trim s | _ => [] end.

(** Which converter serves which incoming path. *)
Inductive serves : jsstr → jsstr → Prop :=
| serves_native p : serves (js "none") p
| serves_anthropic : serves (js "anthropic_messages_to_openai_chat_completions") (js "/v1/messages")
| serves_chat_anthropic :
    serves (js "openai_chat_completions_to_anthropic_messages") (js "/v1/chat/completions")
| serves_chat_responses :
    serves (js "openai_chat_completions_to_openai_responses") (js "/v1/chat/completions")
| serves_chat_gemini :
    serves (js "openai_chat_completions_to_gemini_generate_content") (js "/v1/chat/completions")
| serves_responses_chat : serves (js "openai_responses_to_openai_chat_completions") (js "/v1/responses")
| serves_responses_gemini : serves (js "openai_responses_to_gemini_generate_content") (js "/v1/responses")
| serves_gemini p :
    includes (js ":generateContent") p = true ∨ includes (js ":streamGenerateContent") p = true →
    serves (js "gemini_generate_content_to_openai_chat_completions") p.

(** An authorization: none, or a named header or query parameter. *)
Definition auth_valid (r : Route) : Prop :=
  match r_auth r with
  | None => True
  | Some (t, n, v) =>
      t = JStr (js "none") ∨
      ((t = JStr (js "header") ∨ t = JStr (js "query")) ∧
       (∃ s, n = JStr s ∧ trim s ≠ []) ∧ (∃ s, v = JStr s ∧ trim s ≠ []))
  end.

(** The rules of one route. *)
Record rules_valid (ms : list jsstr) : Prop := {
  rules_distinct : NoDup ms;
  rules_patterns : js "re:" ∉ ms;
}.

Record acceptable `{UrlHost} (r : Route) : Prop := {
  acc_slash : starts_with (js "/") (r_path r) = true;
  acc_query : includes (js "?") (r_path r) = false;
  acc_upstream : r_upstream r ≠ [];
  acc_target : isFullHttpURLOrAbsolutePath (r_upstream r) = true;
  acc_converter : ∃ c, r_converter r = JStr c ∧ serves c (r_path r);
  acc_pass : r_pass r = true → r_converter r = JStr (js "none");
  acc_auth : auth_valid r;
  acc_rules : rules_valid (r_models r);
  acc_management :
    isAdvancedCustomManagementPath (r_path r) = true →
    r_models r = [] ∧ r_converter r = JStr (js "none") ∧
    includes (js "{model}") (r_upstream r) = false ∧ r_pass r = false;
}.

(** A later route of the same path is reachable: the earlier one is no
    catch-all and claims none of its models. *)
Definition compatible (earlier later : Route) : Prop :=
  r_path earlier = r_path later →
  r_models earlier ≠ [] ∧ ∀ m, m ∈ r_models later → m ∉ r_models earlier.

Definition fits `{UrlHost} (done : list Route) (r : Route) : Prop :=
  acceptable r ∧ ∀ d, d ∈ done → compatible d r.

(** Every route is acceptable and fits behind the earlier ones. *)
Definition valid_table `{UrlHost} (rs : list Route) : Prop :=
  ∀ i r, rs !! i = Some r → fits (take i rs) r.

(** ** The parts of the validator *)

Lemma is_literal_spec v s : is_literal v s = true ↔ v = JStr s.
Proof.
  unfold is_literal. destruct v; try (by split; [|intros [=]]). rewrite jseq_eq. naive_solver.
Qed.

Lemma serves_spec c p :
  isAdvancedCustomConverter (JStr c) = true →
  isConverterPathAllowed p (JStr c) = true ↔ serves c p.
Proof.
  intros C. split.
  - unfold isAdvancedCustomConverter in C. apply existsb_exists in C as (o & O & L).
    apply is_literal_spec in L. injection L as ->.
    cbn [ADVANCED_CUSTOM_CONVERTER_OPTIONS In] in O.
    repeat match type of O with _ ∨ _ => destruct O as [<-|O] | False => done end;
      unfold isConverterPathAllowed, converter_value; cbn [fst];
      repeat match goal with |- context [is_literal (JStr ?a) ?b] =>
        let x := eval vm_compute in (is_literal (JStr a) b) in change (is_literal (JStr a) b) with x end;
      cbn [orb]; try (intros _; by constructor);
      (destruct (jseq p (js "/v1/alpha/search")); [done|]); rewrite ?jseq_eq; try (intros ->; by constructor).
    intros G%orb_true_iff. by constructor.
  - destruct 1 as [p| | | | | | |p G]; try done.
    unfold isConverterPathAllowed.
    repeat match goal with |- context [is_literal (JStr ?a) ?b] =>
      let x := eval vm_compute in (is_literal (JStr a) b) in change (is_literal (JStr a) b) with x end.
    cbn [orb]. destruct (jseq p (js "/v1/alpha/search")) eqn:A; [|by apply orb_true_iff].
    apply jseq_eq in A as ->. by destruct G.
Qed.

Lemma serves_registered c p : serves c p → isAdvancedCustomConverter (JStr c) = true.
Proof. by destruct 1. Qed.

(** The answer of the authorization check. *)
Lemma validate_auth_spec r :
  text_route r →
  ∃ o, validateRouteAuth (route_auth r) = Ok o ∧ (o = None ↔ auth_valid r).
Proof.
  intros T. unfold validateRouteAuth, route_auth, auth_valid. pose proof (text_auth r T) as A.
  destruct (r_auth r) as [[[t n] v]|]; [|by exists None].
  change (truthy (auth_object t n v)) with true. cbn [negb].
  destruct (auth_props t n v) as (-> & -> & ->). destruct A as (_ & [s ->] & [w ->]).
  destruct (is_literal t (js "none")) eqn:L0; [apply is_literal_spec in L0; eexists; split; [done|]; tauto|].
  assert (t ≠ JStr (js "none")) as N0 by (intros ->; done).
  destruct (is_literal t (js "header")) eqn:L1, (is_literal t (js "query")) eqn:L2; cbn [negb andb].
  4: { eexists. split; [done|]. split; [done|]. intros [?|[[-> | ->] _]]; done. }
  all: cbn [optional_trim is_nullish call_trim mbind result_bind].
  all: assert (t = JStr (js "header") ∨ t = JStr (js "query")) as K
    by (rewrite <- !is_literal_spec, L1, L2; auto).
  all: destruct (trim s) eqn:S; cbn [nonempty_text negb];
    [eexists; split; [done|]; split; [done|]; intros [?|(_ & (x & [= <-] & X) & _)]; congruence|].
  all: destruct (trim w) eqn:W; cbn [nonempty_text negb];
    [eexists; split; [done|]; split; [done|]; intros [?|(_ & _ & (x & [= <-] & X))]; congruence
    |exists None; split; [done|]; split; [|done]; intros _; right; split; [done|];
     split; eexists; (split; [reflexivity|congruence])].
Qed.

(** Rejecting and going on. *)
Lemma reject_if_bind {A} b i m (k : result stop A) :
  (_ ← reject_if b i m; k) = if b then Err (Rejected {| message := m; routeIndex := Some i |}) else k.
Proof. by destruct b. Qed.

(** The outcome of a check: it holds and gives a result, or the rejection
    names the route. *)
Definition decides {A} (i : nat) (x : result stop A) (P : Prop) (Q : A → Prop) : Prop :=
  match x with
  | Ok a => P ∧ Q a
  | Err (Rejected e) => routeIndex e = Some i ∧ ¬ P
  | Err (Threw _) => False
  end.

Lemma empty_pattern m :
  match getAdvancedCustomModelRuleKind m with regex_rule => true | _ => false end
  && negb (nonempty_text (getAdvancedCustomRegexModelPattern m)) = bool_decide (m = js "re:").
Proof.
  unfold getAdvancedCustomModelRuleKind. destruct (starts_with _ m) eqn:S.
  - apply starts_with_app in S as (r & ->). unfold getAdvancedCustomRegexModelPattern.
    rewrite drop_app_length. destruct r; cbn [nonempty_text negb andb]; symmetry.
    + by apply bool_decide_eq_true.
    + apply bool_decide_eq_false. intros E%(f_equal length). vm_compute in E. discriminate.
  - symmetry. apply bool_decide_eq_false. by intros ->.
Qed.

Lemma is_some_true {A} (o : option A) : is_some o = true ↔ is_Some o.
Proof. split; [by destruct o|by intros [? ->]]. Qed.

Lemma is_some_decide {A} (o : option A) : is_some o = bool_decide (is_Some o).
Proof. symmetry. destruct o; [apply bool_decide_eq_true|apply bool_decide_eq_false]; [eauto|by intros []]. Qed.

(** Claiming one model before the others. *)
Lemma claim_step (i : nat) (m : jsstr) (ms : list jsstr) (seen : gset jsstr) st :
  m ≠ js "re:" → m ∉ seen → state_models st !! m = None →
  rules_valid ms ∧
    (∀ x, x ∈ ms → ¬ x ∈ {[m]} ∪ seen ∧ (<[m := i]> (state_models st)) !! x = None)
  ↔ rules_valid (m :: ms) ∧ ∀ x, x ∈ m :: ms → ¬ x ∈ seen ∧ state_models st !! x = None.
Proof.
  intros E1 E2 E3. split.
  - intros [[D P] R]. split; [split|].
    + apply NoDup_cons. split; [|done]. intros I. destruct (R m I) as [[] _].
      by apply elem_of_union_l, elem_of_singleton.
    + intros [E|I]%elem_of_cons; [by apply E1|done].
    + intros x [->|I]%elem_of_cons; [done|]. destruct (R x I) as [R1 R2].
      apply not_elem_of_union in R1 as [R0 R1]. rewrite lookup_insert_ne in R2; [done|].
      intros ->. by apply R0, elem_of_singleton.
  - intros [[[D1 D2]%NoDup_cons P] R]. split; [split; [done|]; intros I; apply P, elem_of_cons; auto|].
    intros x I. destruct (R x) as [R1 R2]; [apply elem_of_cons; auto|].
    assert (x ≠ m) by (intros ->; done). rewrite lookup_insert_ne by done. split; [|done].
    intros [J%elem_of_singleton|J]%elem_of_union; done.
Qed.

Lemma claim_models_spec i ms seen st :
  decides i (claim_models i ms seen st)
    (rules_valid ms ∧ ∀ m, m ∈ ms → ¬ m ∈ seen ∧ state_models st !! m = None)
    (λ st', catchAllIndex st' = catchAllIndex st ∧
       ∀ m, is_Some (state_models st' !! m) ↔ m ∈ ms ∨ is_Some (state_models st !! m)).
Proof.
  revert seen st. induction ms as [|m ms IH]; intros seen st.
  { split; [|split; [done|]]; [split; [split; [constructor|apply not_elem_of_nil]|]|];
      intros x; rewrite elem_of_nil; tauto. }
  cbn [claim_models]. rewrite !reject_if_bind, empty_pattern, is_some_decide.
  case_bool_decide as E1; [split; [done|]; intros [[_ R] _]; apply R; rewrite E1; apply elem_of_cons; auto|].
  case_bool_decide as E2; [split; [done|]; intros [_ R]; destruct (R m); [apply elem_of_cons|]; auto|].
  case_bool_decide as E3.
  { split; [done|]. intros [_ R]. destruct (R m) as [_ N]; [apply elem_of_cons; auto|].
    rewrite N in E3. by destruct E3. }
  apply eq_None_not_Some in E3. set (st' := {| catchAllIndex := _ |}).
  assert (rules_valid ms ∧ (∀ x, x ∈ ms → ¬ x ∈ ({[m]} ∪ seen : gset jsstr) ∧ state_models st' !! x = None)
    ↔ rules_valid (m :: ms) ∧ ∀ x, x ∈ m :: ms → ¬ x ∈ seen ∧ state_models st !! x = None) as EQ
    by (by apply claim_step).
  specialize (IH ({[m]} ∪ seen) st'). unfold decides in *.
  destruct (claim_models _ _ _ _) as [st2|[e|]]; [|by rewrite <- EQ|done].
  destruct IH as [H1 (H2 & H3)]. split; [by apply EQ|]. split; [done|]. intros x. rewrite H3. subst st'. cbn.
  rewrite elem_of_cons. destruct (decide (x = m)) as [-> |N]; [rewrite lookup_insert_eq; split; eauto|].
  rewrite lookup_insert_ne by done. tauto.
Qed.

(** ** What the validator remembers *)

Definition path_claims (paths : gmap jsstr path_state) (p : jsstr) : path_state :=
  default no_claims (paths !! p).

Lemma path_claims_insert paths p q st :
  path_claims (<[p := st]> paths) q = if decide (p = q) then st else path_claims paths q.
Proof.
  unfold path_claims. destruct (decide (p = q)) as [-> |N]; [by rewrite lookup_insert_eq|].
  by rewrite lookup_insert_ne.
Qed.

(** The claims are those of the routes seen so far. *)
Definition tracks_paths (paths : gmap jsstr path_state) (done : list Route) : Prop :=
  ∀ p,
    (is_Some (catchAllIndex (path_claims paths p)) ↔ ∃ d, d ∈ done ∧ r_path d = p ∧ r_models d = []) ∧
    (∀ m, is_Some (state_models (path_claims paths p) !! m) ↔
       ∃ d, d ∈ done ∧ r_path d = p ∧ m ∈ r_models d).

Record tracks (st : validation) (done : list Route) : Prop := {
  tracks_models : tracks_paths (routeModelsByPath st) done;
  tracks_list : is_Some (modelListRouteIndex st) ↔
    ∃ d, d ∈ done ∧ r_path d = ADVANCED_CUSTOM_MODEL_LIST_PATH;
  tracks_balance : is_Some (balanceRouteIndex st) ↔
    ∃ d, d ∈ done ∧ r_path d = ADVANCED_CUSTOM_BALANCE_PATH;
}.

Lemma tracks_init : tracks initial_validation [].
Proof.
  split; [intros p; split; [|intros m]|..]; cbn; rewrite ?lookup_empty;
    (split; [by intros []|intros (d & D & _); by apply elem_of_nil in D]).
Qed.

(** One more route. *)
Lemma ex_snoc {P : Route → Prop} done r :
  (∃ d, d ∈ done ++ [r] ∧ P d) ↔ (∃ d, d ∈ done ∧ P d) ∨ P r.
Proof.
  split.
  - intros (d & [D|D%list_elem_of_singleton]%elem_of_app & H); [eauto|subst; auto].
  - intros [(d & D & H)|H]; [exists d|exists r]; (split; [|done]); apply elem_of_app;
      [auto|right; by apply list_elem_of_singleton].
Qed.

Lemma tracks_paths_snoc paths done r st :
  tracks_paths paths done →
  (is_Some (catchAllIndex st) ↔
     is_Some (catchAllIndex (path_claims paths (r_path r))) ∨ r_models r = []) →
  (∀ m, is_Some (state_models st !! m) ↔
     m ∈ r_models r ∨ is_Some (state_models (path_claims paths (r_path r)) !! m)) →
  tracks_paths (<[r_path r := st]> paths) (done ++ [r]).
Proof.
  intros T C M p. destruct (T p) as [T1 T2]. rewrite path_claims_insert, ex_snoc.
  setoid_rewrite ex_snoc. destruct (decide (r_path r = p)) as [<-|N].
  - split; [rewrite C, T1|intros m; rewrite M, T2]; tauto.
  - split; [rewrite T1|intros m; rewrite T2]; tauto.
Qed.

(** The rules of a route fit behind the earlier routes. *)
Definition rules_fit (done : list Route) (r : Route) : Prop :=
  rules_valid (r_models r) ∧ ∀ d, d ∈ done → compatible d r.

Lemma rules_fit_alt paths done r :
  tracks_paths paths done →
  rules_fit done r ↔
    rules_valid (r_models r) ∧ catchAllIndex (path_claims paths (r_path r)) = None ∧
    ∀ m, m ∈ r_models r → state_models (path_claims paths (r_path r)) !! m = None.
Proof.
  intros T. destruct (T (r_path r)) as [T1 T2]. unfold rules_fit. split; intros [V F]; (split; [done|]).
  - split.
    + apply eq_None_not_Some. rewrite T1. intros (d & D & P & M). by destruct (F d D P).
    + intros m I. apply eq_None_not_Some. rewrite T2. intros (d & D & P & M). by eapply (F d D P).
  - destruct F as [F1 F2]. intros d D P. split.
    + intros M. assert (is_Some (catchAllIndex (path_claims paths (r_path r)))) as S by (apply T1; eauto).
      rewrite F1 in S. by destruct S.
    + intros m I J. assert (is_Some (state_models (path_claims paths (r_path r)) !! m)) as S by (apply T2; eauto).
      rewrite F2 in S by done. by destruct S.
Qed.

Lemma rules_valid_nil : rules_valid [].
Proof. split; [constructor|]. apply not_elem_of_nil. Qed.

Lemma validate_models_spec i done r paths :
  tracks_paths paths done →
  decides i (validateAdvancedCustomRouteModels i (r_path r) (r_models r) paths)
    (rules_fit done r) (λ paths', tracks_paths paths' (done ++ [r])).
Proof.
  intros T. unfold validateAdvancedCustomRouteModels. fold (path_claims paths (r_path r)).
  pose proof (rules_fit_alt _ _ r T) as A. pose proof (tracks_paths_snoc paths done r) as X.
  set (st := path_claims paths (r_path r)) in *. destruct (r_models r) as [|m ms] eqn:M.
  - rewrite reject_if_bind, is_some_decide. case_bool_decide as E.
    + split; [done|]. intros (_ & N & _)%A. rewrite N in E. by destruct E.
    + apply eq_None_not_Some in E. split.
      * apply A. split; [apply rules_valid_nil|]. split; [done|]. intros x I. by apply elem_of_nil in I.
      * apply X; [done|cbn; split; eauto|]. intros x. cbn. rewrite elem_of_nil. tauto.
  - rewrite reject_if_bind, is_some_decide. case_bool_decide as E.
    + split; [done|]. intros (_ & N & _)%A. rewrite N in E. by destruct E.
    + apply eq_None_not_Some in E. pose proof (claim_models_spec i (m :: ms) ∅ st) as C.
      unfold decides in C. destruct (claim_models _ _ _ _) as [st'|[e|]]; [| |done].
      * destruct C as ([V C1] & C2 & C3). cbn. split.
        -- apply A. split; [done|]. split; [done|]. intros x I. by apply C1.
        -- apply X; [done|rewrite C2; intuition discriminate|done].
      * cbn. destruct C as [C1 C2]. split; [done|]. intros (V & _ & F)%A. apply C2. split; [done|].
        intros x I. split; [apply not_elem_of_empty|by apply F].
Qed.

(** ** One route *)

Section Route.
Context `{UrlHost}.

Definition management_fits (done : list Route) (r : Route) : Prop :=
  isAdvancedCustomManagementPath (r_path r) = true →
  (∀ d, d ∈ done → r_path d ≠ r_path r) ∧
  r_models r = [] ∧ r_converter r = JStr (js "none") ∧
  includes (js "{model}") (r_upstream r) = false ∧ r_pass r = false.

(** What the management checks record. *)
Definition management_tracked (st st' : validation) (done : list Route) (r : Route) : Prop :=
  routeModelsByPath st' = routeModelsByPath st ∧
  (is_Some (modelListRouteIndex st') ↔
     (∃ d, d ∈ done ∧ r_path d = ADVANCED_CUSTOM_MODEL_LIST_PATH) ∨
     r_path r = ADVANCED_CUSTOM_MODEL_LIST_PATH) ∧
  (is_Some (balanceRouteIndex st') ↔
     (∃ d, d ∈ done ∧ r_path d = ADVANCED_CUSTOM_BALANCE_PATH) ∨
     r_path r = ADVANCED_CUSTOM_BALANCE_PATH).

Lemma pass_truthy r : truthy (prop (route_value r) (js "pass_through_body_enabled")) = r_pass r.
Proof. destruct (route_value_props r) as (_ & _ & _ & _ & -> & _). by destruct (r_pass r). Qed.

Lemma management_paths_differ : ADVANCED_CUSTOM_MODEL_LIST_PATH ≠ ADVANCED_CUSTOM_BALANCE_PATH.
Proof. apply jseq_neq. reflexivity. Qed.

Lemma validate_management_spec i done r st :
  tracks st done →
  decides i (validate_management i (r_path r) (r_upstream r) (r_converter r) (r_models r) (route_value r) st)
    (management_fits done r) (λ st', management_tracked st st' done r).
Proof.
  intros T. unfold validate_management, management_fits, management_tracked.
  destruct (isAdvancedCustomManagementPath (r_path r)) eqn:MP; cbn [negb].
  2: { apply orb_false_iff in MP as [M1 M2]. apply jseq_neq in M1, M2. split; [done|]. split; [done|].
       rewrite (tracks_list _ _ T), (tracks_balance _ _ T).
       split; (split; [auto|]; intros [?|?]; done). }
  rewrite !reject_if_bind, pass_truthy, is_some_decide.
  set (ml := jseq (r_path r) ADVANCED_CUSTOM_MODEL_LIST_PATH).
  assert (is_Some (if ml then modelListRouteIndex st else balanceRouteIndex st) ↔
          ∃ d, d ∈ done ∧ r_path d = r_path r) as U.
  { destruct ml eqn:E; subst ml; [apply jseq_eq in E; rewrite E; apply (tracks_list _ _ T)|].
    unfold isAdvancedCustomManagementPath in MP. rewrite E in MP. cbn in MP. apply jseq_eq in MP. rewrite MP.
    apply (tracks_balance _ _ T). }
  case_bool_decide as E; [split; [done|]; intros F; destruct (F eq_refl) as [D _]; apply U in E as (d & I & P); by apply (D d)|].
  destruct (r_models r) as [|m ms]; [|split; [done|]; intros F; destruct (F eq_refl) as (_ & [=] & _)].
  destruct (is_literal (r_converter r) (js "none")) eqn:L; cbn [negb].
  2: { split; [done|]. intros F. destruct (F eq_refl) as (_ & _ & C & _). rewrite C in L. done. }
  destruct (includes (js "{model}") (r_upstream r)) eqn:I; [split; [done|]; intros F; by destruct (F eq_refl) as (_ & _ & _ & [=] & _)|].
  destruct (r_pass r); [split; [done|]; intros F; by destruct (F eq_refl) as (_ & _ & _ & _ & [=])|].
  apply is_literal_spec in L. split.
  - intros _. split; [|done]. intros d D P. apply E, U. eauto.
  - destruct ml eqn:K; subst ml; cbn.
    + apply jseq_eq in K. rewrite (tracks_balance _ _ T), K. split; [done|].
      split; [split; eauto|]. split; [auto|]. intros [?|Q]; [done|by destruct (management_paths_differ Q)].
    + unfold isAdvancedCustomManagementPath in MP. rewrite K in MP. cbn in MP. apply jseq_eq in MP.
      rewrite (tracks_list _ _ T), MP. split; [done|]. split; [|split; eauto].
      split; [auto|]. intros [?|Q]; [done|by destruct (management_paths_differ (eq_sym Q))].
Qed.

(** The checks of one route are together the specification, behind
    acceptable routes. *)
Lemma fits_alt done r :
  (∀ d, d ∈ done → acceptable d) →
  fits done r ↔
    starts_with (js "/") (r_path r) = true ∧ includes (js "?") (r_path r) = false ∧
    management_fits done r ∧ rules_fit done r ∧ r_upstream r ≠ [] ∧
    isFullHttpURLOrAbsolutePath (r_upstream r) = true ∧
    (∃ c, r_converter r = JStr c ∧ serves c (r_path r)) ∧
    (r_pass r = true → r_converter r = JStr (js "none")) ∧ auth_valid r.
Proof.
  intros D. unfold fits, rules_fit, management_fits. split.
  - intros [[] F]. conjs; try done. intros MP. split; [|auto]. intros d I P.
    destruct (F d I P) as [N _]. apply N. apply (acc_management d (D d I)). by rewrite P.
  - intros (A1 & A2 & A3 & (A4 & A5) & A6 & A7 & A8 & A9 & A10). split; [|done]. split; try done.
    intros MP. by apply A3.
Qed.

Lemma nonempty_text_true s : nonempty_text s = true ↔ s ≠ [].
Proof. by destruct s. Qed.

Lemma validate_route_spec i done r st :
  ok_route r → text_route r → tracks st done → (∀ d, d ∈ done → acceptable d) →
  decides i (validate_route i (route_value r) st) (fits done r) (λ st', tracks st' (done ++ [r])).
Proof.
  intros O TX T D. pose proof (fits_alt done r D) as F. unfold validate_route.
  rewrite member_route, route_upstream, route_models by done.
  destruct (route_value_props r) as (-> & _ & -> & _ & _ & ->).
  destruct (text_incoming r TX) as [s S]. destruct (text_converter r TX) as [c C].
  assert (optional_trim (r_incoming r) = Ok (r_path r)) as I by (unfold r_path; by rewrite S).
  rewrite (ok_converter r O). cbn [call mbind result_bind]. rewrite I. cbn [call mbind result_bind].
  rewrite !reject_if_bind.
  destruct (starts_with (js "/") (r_path r)) eqn:E1; cbn [negb].
  2: { destruct (nonempty_text (r_path r)); cbn [negb]; (split; [done|]; intros K%F; by destruct K as [[=] _]). }
  assert (nonempty_text (r_path r) = true) as -> by (by destruct (r_path r)). cbn [negb].
  destruct (includes (js "?") (r_path r)) eqn:E2; [split; [done|]; intros K%F; by destruct K as (_ & [=] & _)|].
  pose proof (validate_management_spec i done r st T) as M.
  destruct (validate_management _ _ _ _ _ _ _) as [st1|[e|]]; cbn [mbind result_bind decides] in M |- *;
    [|split; [apply M|]; intros K%F; tauto|done].
  destruct M as (M1 & M2 & M3 & M4).
  pose proof (validate_models_spec i done r (routeModelsByPath st1)) as R. rewrite M2 in R.
  specialize (R (tracks_models _ _ T)). rewrite M2.
  destruct (validateAdvancedCustomRouteModels _ _ _ _) as [paths|[e|]]; cbn [mbind result_bind decides] in R |- *;
    [|split; [apply R|]; intros K%F; tauto|done].
  destruct R as [R1 R2]. rewrite !reject_if_bind.
  destruct (nonempty_text (r_upstream r)) eqn:E3; cbn [negb].
  2: { split; [done|]. intros K%F. destruct K as (_ & _ & _ & _ & K & _). apply nonempty_text_true in K. congruence. }
  apply nonempty_text_true in E3.
  destruct (isFullHttpURLOrAbsolutePath (r_upstream r)) eqn:E4; cbn [negb].
  2: { split; [done|]. intros K%F. by destruct K as (_ & _ & _ & _ & _ & [=] & _). }
  rewrite C in *. destruct (isAdvancedCustomConverter (JStr c)) eqn:E5; cbn [negb].
  2: { split; [done|]. intros K%F. destruct K as (_ & _ & _ & _ & _ & _ & (? & [= <-] & V) & _).
       apply serves_registered in V. congruence. }
  pose proof (serves_spec c (r_path r) E5) as V. destruct (isConverterPathAllowed _ _) eqn:E6; cbn [negb].
  2: { split; [done|]. intros K%F. destruct K as (_ & _ & _ & _ & _ & _ & (? & [= <-] & W) & _).
       apply V in W. congruence. }
  rewrite pass_truthy. unfold isAdvancedCustomPassThroughAllowed.
  destruct (r_pass r && negb (is_literal (JStr c) (js "none"))) eqn:E7.
  { apply andb_true_iff in E7 as [P L]. split; [done|]. intros K%F.
    destruct K as (_ & _ & _ & _ & _ & _ & _ & K & _). rewrite (K P) in L. done. }
  destruct (validate_auth_spec r TX) as (o & -> & A). cbn [call mbind result_bind]. rewrite reject_if_bind.
  destruct o as [m|]; cbn [is_some]; [split; [done|]; intros K%F; assert (Some m = None) by (apply A; tauto); done|].
  split.
  - apply F. split_and!; try done; [eexists; split; [done|]; by apply V| |by apply A].
    + intros P. rewrite P in E7. cbn [andb] in E7. by apply negb_false_iff, is_literal_spec in E7.
  - split; cbn; [done|by rewrite ex_snoc..].
Qed.
End Route.
