(* ===== verification/AdvancedCustomTheorems.v ===== *)
(** * Theorems about the routes of an advanced custom channel

    The validator decides the valid route tables, a saved configuration
    reopens unchanged, the edits of one kind of route keep the other, and the
    configurations the editor offers are valid. *)
From stdpp Require Import base list option numbers sets gmap.
From Stdlib Require Import ZArith SpecFloat Lia.
From S2P Require Import Prelude.
From S2P Require Import JsString.
From S2P Require Import JsNumber.
From S2P Require Import Syntax.
From S2P Require Import Runtime.
From S2P Require Import Structure.
From S2P Require Import Json.
From S2P Require Import JsText.
From S2P Require Import JsonPrint.
From S2P Require Import AuthStore.
From S2P Require Import AdvancedCustom.
From S2P Require Import AdvancedCustomFacts.

(** ** The loop over the routes *)

Definition good_route (r : Route) : Prop := ok_route r ∧ text_route r.

Lemma typed_routes_normalize routes :
  Forall typed_route routes →
  ∃ rs, rmap normalizeAdvancedCustomRoute routes = Ok (map route_value rs) ∧ Forall good_route rs.
Proof.
  induction 1 as [|v routes V _ (rs & R & G)]; [by exists []|].
  destruct (typed_normalizes v V) as (r & N & O & T). exists (r :: rs). cbn. rewrite N. cbn. rewrite R.
  split; [done|]. by constructor.
Qed.

Lemma typed_config_normalizes c :
  typed_config c →
  ∃ rs, normalized_routes c = Ok (map route_value rs) ∧ Forall good_route rs.
Proof. intros (routes & -> & T). by apply typed_routes_normalize. Qed.

Section Validator.
Context `{UrlHost}.

Lemma valid_table_nil : valid_table [].
Proof. intros i r E. done. Qed.

Lemma valid_table_snoc done r : valid_table (done ++ [r]) ↔ valid_table done ∧ fits done r.
Proof.
  unfold valid_table. split.
  - intros V. split.
    + intros i x X. rewrite <- (take_app_le done [r] i); [|apply lookup_lt_Some in X; lia].
      apply V. by apply lookup_app_l_Some.
    + specialize (V (length done) r). rewrite take_app_length in V. apply V.
      rewrite lookup_app_r, Nat.sub_diag by lia. done.
  - intros [V F] i x [X|[L X]]%lookup_app_Some.
    + rewrite take_app_le; [by apply V|]. apply lookup_lt_Some in X. lia.
    + apply list_lookup_singleton_Some in X as [E ->].
      assert (i = length done) as -> by lia. by rewrite take_app_length.
Qed.

Lemma valid_table_acceptable rs d : valid_table rs → d ∈ rs → acceptable d.
Proof. intros V [i D]%list_elem_of_lookup. by destruct (V i d D). Qed.

Lemma validate_routes_spec rs done st :
  Forall good_route rs → tracks st done → valid_table done →
  match validate_routes (length done) (map route_value rs) st with
  | Ok _ => valid_table (done ++ rs)
  | Err (Rejected e) =>
      ∃ k, k < length rs ∧ routeIndex e = Some (length done + k) ∧
        valid_table (done ++ take k rs) ∧ ¬ valid_table (done ++ take (S k) rs)
  | Err (Threw _) => False
  end.
Proof.
  revert done st. induction rs as [|r rs IH]; intros done st G T V; [by rewrite app_nil_r|].
  apply Forall_cons in G as [[O X] G]. cbn [map validate_routes].
  pose proof (validate_route_spec (length done) done r st O X T
                (λ d D, valid_table_acceptable done d V D)) as R.
  destruct (validate_route _ _ _) as [st'|[e|]]; cbn [mbind result_bind decides] in R |- *; [| |done].
  - destruct R as [F T']. assert (valid_table (done ++ [r])) as V' by (by apply valid_table_snoc).
    specialize (IH (done ++ [r]) st' G T' V'). rewrite length_app, Nat.add_1_r in IH.
    destruct (validate_routes _ _ _) as [|[e|]]; [by rewrite <- app_assoc in IH| |done].
    destruct IH as (k & K1 & K2 & K3 & K4). exists (S k). cbn [length take]. rewrite <- !app_assoc in K3, K4.
    conjs; [lia|rewrite K2; f_equal; lia|done|done].
  - destruct R as [R1 R2]. exists 0. cbn [length take]. rewrite app_nil_r, Nat.add_0_r.
    conjs; [lia|done|done|]. intros [_ F]%valid_table_snoc. done.
Qed.

(** C26: the validator decides the valid route tables.  For a configuration of
    the declared types it never throws; it accepts exactly a table that is
    not empty, in which every route is well formed on its own (paths, target,
    converter that serves the path, authorization, rules) and reachable
    behind the earlier routes of its path; and a rejection names the first
    route that makes the table invalid. *)
Theorem validator_decides c :
  typed_config c →
  ∃ rs, normalized_routes c = Ok (map route_value rs) ∧
  match validateAdvancedCustomConfig c with
  | Ok None => rs ≠ [] ∧ valid_table rs
  | Ok (Some e) =>
      match routeIndex e with
      | None => rs = []
      | Some k => k < length rs ∧ valid_table (take k rs) ∧ ¬ valid_table (take (S k) rs)
      end
  | Err _ => False
  end.
Proof.
  intros T. destruct (typed_config_normalizes c T) as (rs & N & G). exists rs. split; [done|].
  unfold validateAdvancedCustomConfig. rewrite N.
  assert (truthy c = true) as -> by (by destruct T as (? & -> & _)). cbn [negb mbind result_bind].
  pose proof (validate_routes_spec rs [] initial_validation G tracks_init valid_table_nil) as V.
  destruct rs as [|r rs]; [done|]. cbn [map]. cbn [map length] in V.
  destruct (validate_routes _ _ _) as [|[e|]]; [by split| |done].
  destruct V as (k & K1 & K2 & K3 & K4). rewrite K2. done.
Qed.
End Validator.

Definition no_urls : UrlHost := {| parse_url := λ _, None |}.

(** A route to the chat completions for the given models. *)
Definition chat_route (models : list jsstr) : jsval :=
  JObj [(js "incoming_path", JStr (js " /v1/chat/completions")); (js "upstream_path", JStr (js "/chat"));
        (js "models", JArr (map JStr models))].

Lemma typed_chat_route models : typed_route (chat_route models).
Proof.
  split; [done|right; eexists; reflexivity|right; eexists; reflexivity|by left|right; by eexists|by left].
Qed.

Lemma validator_decides_witness :
  let c := config_of [chat_route [js "gpt-4"]; chat_route []; chat_route [js "gpt-5"]] in
  ∃ rs, length rs = 3 ∧ @valid_table no_urls (take 2 rs) ∧ ¬ @valid_table no_urls rs.
Proof.
  intros c. destruct (@validator_decides no_urls c) as (rs & N & V).
  { eexists. split; [reflexivity|]. apply Forall_forall. intros v I. rewrite !elem_of_cons in I.
    destruct I as [->|[->|[->|I%elem_of_nil]]]; [apply typed_chat_route..|done]. }
  exists rs. assert (length rs = 3) as L.
  { apply (f_equal (λ x, match x with Ok l => length l | Err _ => 0 end)) in N.
    rewrite length_map in N. rewrite <- N. vm_compute. reflexivity. }
  split; [exact L|].
  assert (∃ m, @validateAdvancedCustomConfig no_urls c = Ok (Some {| message := m; routeIndex := Some 2 |}))
    as (m & E) by (eexists; vm_compute; reflexivity).
  rewrite E in V. destruct V as (_ & V1 & V2). split; [exact V1|]. by rewrite take_ge in V2 by (rewrite L; lia).
Defined.

(** ** Saving and reopening *)

(** The object that is read back has the same fields. *)
Lemma reread_props r :
  text_route r →
  let v := without_undefined (route_value r) in
  prop v (js "incoming_path") = r_incoming r ∧
  prop v (js "upstream_path") = JStr (r_upstream r) ∧
  prop v (js "converter") = r_converter r ∧
  prop v (js "models") = match r_models r with [] => JUndefined | ms => JArr (map JStr ms) end ∧
  prop v (js "pass_through_body_enabled") = (if r_pass r then JBool true else JUndefined) ∧
  prop v (js "auth") = without_undefined (route_auth r).
Proof.
  intros [[i I] [c C] _]. destruct r as [ri u rc ms p a]. cbn in I, C. subst ri rc.
  assert (∀ l, map without_undefined (map JStr l) = map JStr l) as M by (induction l; cbn; congruence).
  destruct ms as [|m ms], p, a as [[[t n] v]|]; split_and!; try reflexivity;
    change (JArr (map without_undefined (map JStr (m :: ms))) = JArr (map JStr (m :: ms))); by rewrite M.
Qed.

Lemma reread_auth t n v :
  text_or_absent t → (∃ s, n = JStr s) → (∃ s, v = JStr s) →
  let a := without_undefined (auth_object t n v) in
  truthy a = true ∧ prop a (js "type") = t ∧ prop a (js "name") = n ∧ prop a (js "value") = v.
Proof. by intros [->|[x ->]] [s ->] [w ->]. Qed.

Lemma reread_route r :
  good_route r → normalizeAdvancedCustomRoute (without_undefined (route_value r)) = Ok (route_value r).
Proof.
  intros [O T]. rewrite normalize_route_eq. unfold getAdvancedCustomRouteUpstreamPath.
  destruct (reread_props r T) as (P1 & P2 & P3 & P4 & P5 & P6).
  change (member (without_undefined (route_value r)) (js "upstream_path"))
    with (Ok (E := exn) (prop (without_undefined (route_value r)) (js "upstream_path"))).
  cbn [mbind result_bind]. rewrite P2.
  assert (call_trim (js_or (JStr (r_upstream r)) (JStr [])) = Ok (r_upstream r)) as ->.
  { pose proof (ok_upstream r O) as U. unfold js_or. destruct (r_upstream r); [done|]. cbn -[trim]. by rewrite U. }
  cbn [mbind result_bind]. rewrite P4.
  assert (normalizeAdvancedCustomRouteModels
            (match r_models r with [] => JUndefined | ms => JArr (map JStr ms) end) = Ok (r_models r)) as ->.
  { pose proof (normalize_clean_models _ (ok_models r O)) as N. by destruct (r_models r). }
  cbn [mbind result_bind]. do 2 f_equal. unfold normal_route. rewrite P1, P3, P5, P6.
  rewrite (ok_incoming r O), (ok_converter r O). pose proof (ok_auth r O) as A. pose proof (text_auth r T) as X.
  unfold route_auth. destruct r as [ri u rc ms p a]. cbn [r_incoming r_upstream r_converter r_models r_pass r_auth] in *.
  destruct a as [[[t n] v]|]; [|by destruct p].
  destruct (reread_auth t n v) as (-> & -> & -> & ->); [apply X..|].
  rewrite (proj1 A), (proj2 A). by destruct p.
Qed.

Lemma reread_routes rs :
  Forall good_route rs →
  rmap normalizeAdvancedCustomRoute (map without_undefined (map route_value rs)) = Ok (map route_value rs).
Proof.
  induction 1 as [|r rs G _ IH]; [done|]. cbn [map rmap]. rewrite reread_route by done. cbn [mbind result_bind].
  by rewrite IH.
Qed.

(** A printed object is already trimmed. *)
Lemma printed_object_trim fields : trim (stringify_pretty (JObj fields)) = stringify_pretty (JObj fields).
Proof.
  apply trimmed_trim. unfold stringify_pretty. rewrite json_text_object.
  destruct (map _ _) as [|l ls]; [by split|]. rewrite bracketed_lines. split; [done|].
  change (123%N :: ?x) with ([123%N] ++ x). rewrite !app_assoc, reverse_app. done.
Qed.

(** C27: a saved configuration reopens unchanged.  For every configuration of
    the declared types, whatever code units its texts contain, parsing the
    text that is saved gives exactly the normalised configuration. *)
Theorem saved_configuration_reopens c c' :
  typed_config c → normalizeAdvancedCustomConfig c = Ok c' → printable c' →
  ∃ text, stringifyAdvancedCustomConfig c = Ok text ∧ parseAdvancedCustomConfig (Some text) = Some c'.
Proof.
  intros T N P. destruct (typed_config_normalizes c T) as (rs & R & G).
  unfold stringifyAdvancedCustomConfig. rewrite N. exists (stringify_pretty c'). split; [done|].
  unfold normalizeAdvancedCustomConfig in N. rewrite R in N. injection N as <-.
  unfold parseAdvancedCustomConfig.
  assert (nonempty_text (trim (stringify_pretty (config_of (map route_value rs)))) = true) as ->.
  { unfold config_of. by rewrite printed_object_trim. }
  cbn [negb]. rewrite json_parse_text by done. cbn [mbind option_bind].
  change (without_undefined (config_of (map route_value rs)))
    with (config_of (map without_undefined (map route_value rs))).
  change (normalizeAdvancedCustomConfig (config_of ?l)) with (config_of <$> rmap normalizeAdvancedCustomRoute l).
  unfold config_of at 1. rewrite reread_routes by done. done.
Qed.

(** A route with an authorization that has no type yet. *)
Definition odd_route : jsval :=
  JObj [(js "incoming_path", JStr (js "/v1/messages")); (js "upstream_path", JStr (DQUOTE :: 55296%N :: js " \ "));
        (js "auth", JObj [(js "name", JStr (js "key"))])].

Lemma typed_odd_route : typed_route odd_route.
Proof.
  split; [done|right; eexists; reflexivity|right; eexists; reflexivity|by left|by left|].
  right. split; [by left|]. split; [right; eexists; reflexivity|by left].
Qed.

Lemma saved_configuration_reopens_witness :
  let c := config_of [chat_route [js "gpt-4"; js " "]; odd_route] in
  ∃ text c', stringifyAdvancedCustomConfig c = Ok text ∧ parseAdvancedCustomConfig (Some text) = Some c'.
Proof.
  intros c. destruct (normalizeAdvancedCustomConfig c) as [c'|e] eqn:E; [|vm_compute in E; discriminate].
  destruct (saved_configuration_reopens c c') as (text & S & P); [..|by exists text, c'].
  - eexists. split; [reflexivity|]. apply Forall_forall. intros v I. rewrite !elem_of_cons in I.
    destruct I as [->|[->|I%elem_of_nil]]; [apply typed_chat_route|apply typed_odd_route|done].
  - exact E.
  - apply printableb_sound. vm_compute in E. injection E as <-. vm_compute. reflexivity.
Defined.

(** ** Editing one kind of route *)

Lemma index_route_spec f p rs :
  (∀ r, r ∈ rs → f (route_value r) = Ok (p r)) →
  index_route f (map route_value rs) = Ok (find_index p rs).
Proof.
  induction rs as [|r rs IH]; intros F; [done|]. cbn [map index_route find_index].
  rewrite F by (apply elem_of_cons; auto). cbn [mbind result_bind]. destruct (p r); [done|].
  rewrite IH by (intros x X; apply F, elem_of_cons; auto). cbn. by destruct (find_index p rs).
Qed.

Lemma filter_routes_spec f p rs :
  (∀ r, r ∈ rs → f (route_value r) = Ok (p r)) →
  filter_routes f (map route_value rs) = Ok (map route_value (List.filter p rs)).
Proof.
  induction rs as [|r rs IH]; intros F; [done|]. cbn [map filter_routes List.filter].
  rewrite F by (apply elem_of_cons; auto). cbn [mbind result_bind].
  rewrite IH by (intros x X; apply F, elem_of_cons; auto). cbn. by destruct (p r).
Qed.

Lemma find_index_insert {A} (p : A → bool) l i x :
  find_index p l = Some i → p x = true → find_index p (<[i := x]> l) = Some i.
Proof.
  revert i. induction l as [|a l IH]; intros i F X; [done|]. cbn in F. destruct (p a) eqn:P.
  - injection F as <-. cbn. by rewrite X.
  - destruct (find_index p l) as [k|]; [|done]. injection F as <-.
    change (find_index p (a :: <[k := x]> l) = Some (S k)). cbn [find_index]. by rewrite P, (IH k).
Qed.

Lemma find_index_snoc {A} (p : A → bool) l x :
  find_index p l = None → p x = true → find_index p (l ++ [x]) = Some (length l).
Proof.
  induction l as [|a l IH]; cbn; intros F X; [by rewrite X|]. destruct (p a); [done|].
  destruct (find_index p l); [done|]. by rewrite IH.
Qed.

Lemma filter_insert_hidden {A} (p : A → bool) l i x :
  (∀ a, l !! i = Some a → p a = false) → p x = false → List.filter p (<[i := x]> l) = List.filter p l.
Proof.
  revert i. induction l as [|a l IH]; intros [|i] N X; [done..| |]; cbn.
  - by rewrite X, (N a).
  - change (list_insert i x l) with (<[i := x]> l). by rewrite IH.
Qed.

Lemma filter_delete_hidden {A} (p : A → bool) l i :
  (∀ a, l !! i = Some a → p a = false) → List.filter p (delete i l) = List.filter p l.
Proof.
  revert i. induction l as [|a l IH]; intros [|i] N; [done..| |]; cbn.
  - by rewrite (N a).
  - change (list_delete i l) with (delete i l). by rewrite IH.
Qed.

Lemma filter_delete_seen {A} (p : A → bool) l i :
  find_index p l = Some i → length (List.filter p (delete i l)) = pred (length (List.filter p l)).
Proof.
  revert i. induction l as [|a l IH]; intros i F; [done|]. cbn in F. destruct (p a) eqn:P.
  - injection F as <-. cbn. by rewrite P.
  - destruct (find_index p l) as [k|]; [|done]. injection F as <-. cbn. rewrite P.
    change (list_delete k l) with (delete k l). by apply IH.
Qed.

Lemma not_found_filter {A} (p : A → bool) l : find_index p l = None → List.filter p l = [].
Proof.
  induction l as [|a l IH]; cbn; [done|]. destruct (p a); [done|]. destruct (find_index p l); [done|auto].
Qed.

(** Reads of a good route. *)
Lemma at_path_spec path r : text_route r → at_path path (route_value r) = Ok (jseq (r_path r) path).
Proof.
  intros T. unfold at_path. rewrite member_route. destruct (route_value_props r) as (-> & _).
  destruct (text_incoming r T) as [s S]. unfold r_path. by rewrite S.
Qed.

Lemma is_management_spec r :
  text_route r → is_management (route_value r) = Ok (isAdvancedCustomManagementPath (r_path r)).
Proof.
  intros T. unfold is_management. rewrite member_route. destruct (route_value_props r) as (-> & _).
  destruct (text_incoming r T) as [s S]. unfold r_path. by rewrite S.
Qed.

Lemma good_routes rs r : Forall good_route rs → r ∈ rs → ok_route r ∧ text_route r.
Proof. rewrite Forall_forall. intros F I. by destruct (F r I). Qed.

Lemma normalize_good rs :
  Forall good_route rs →
  Forall2 (λ v v', normalizeAdvancedCustomRoute v = Ok v') (map route_value rs) (map route_value rs).
Proof.
  induction 1 as [|r rs [O _] _ IH]; constructor; [by apply normalize_route_value|done].
Qed.

Lemma normalized_config_of l rs :
  Forall2 (λ v v', normalizeAdvancedCustomRoute v = Ok v') l (map route_value rs) →
  normalized_routes (config_of l) = Ok (map route_value rs).
Proof. intros F%rmap_Ok. done. Qed.

(** The object an edit of a management path stores, and its normal form. *)
Definition stored_object (path : jsstr) (v : jsval) : jsval :=
  JObj [(js "incoming_path", JStr path); (js "upstream_path", js_or (prop v (js "upstream_path")) (JStr []));
        (js "converter", JStr (js "none")); (js "models", JArr []); (js "auth", prop v (js "auth"))].
Definition stored_route (path : jsstr) (v : jsval) (up : jsstr) : Route :=
  {| r_incoming := JStr path; r_upstream := up; r_converter := JStr (js "none"); r_models := [];
     r_pass := false; r_auth := r_auth (normal_route v up []) |}.

Lemma stored_normalizes path v up :
  typed_route v → getAdvancedCustomRouteUpstreamPath v = Ok up →
  normalizeAdvancedCustomRoute (stored_object path v) = Ok (route_value (stored_route path v up)) ∧
  good_route (stored_route path v up).
Proof.
  intros T U. pose proof (upstream_trimmed v up U) as TU. split.
  - assert (getAdvancedCustomRouteUpstreamPath (stored_object path v) = Ok up) as E.
    { revert U. unfold getAdvancedCustomRouteUpstreamPath, member. rewrite (typed_object v T).
      change (is_nullish (stored_object path v)) with false.
      change (prop (stored_object path v) (js "upstream_path"))
        with (js_or (prop v (js "upstream_path")) (JStr [])).
      cbn [mbind result_bind]. by rewrite js_or_idem. }
    rewrite normalize_route_eq, E. cbn [mbind result_bind].
    change (normalizeAdvancedCustomRouteModels (prop (stored_object path v) (js "models")))
      with (Ok (E := exn) (@nil jsstr)).
    cbn [mbind result_bind]. do 2 f_equal. by destruct path.
  - split; split; cbn -[prop js_or truthy js trim]; try done.
    + by destruct path.
    + constructor.
    + destruct (truthy (prop v (js "auth"))); auto using js_or_idem.
    + by eexists.
    + by eexists.
    + destruct (typed_auth v T) as [->|(A1 & A2 & A3)]; [done|].
      destruct (truthy (prop v (js "auth"))); auto using js_or_text.
Qed.

Definition at_route (path : jsstr) (r : Route) : bool := jseq (r_path r) path.
Definition others (path : jsstr) (r : Route) : bool := negb (at_route path r).

Lemma index_at path rs :
  Forall good_route rs → index_route (at_path path) (map route_value rs) = Ok (find_index (at_route path) rs).
Proof. intros G. apply index_route_spec. intros r R. apply at_path_spec. by apply (good_routes rs). Qed.

Lemma found_hidden path rs i a :
  find_index (at_route path) rs = Some i → rs !! i = Some a → others path a = false.
Proof.
  intros (b & B & P)%find_index_Some A. unfold others. assert (a = b) as -> by congruence. by rewrite P.
Qed.

Lemma stored_found path v up rs i :
  trim path = path → find_index (at_route path) rs = i →
  let r := stored_route path v up in
  let rs' := match i with Some i => <[i := r]> rs | None => rs ++ [r] end in
  List.filter (others path) rs' = List.filter (others path) rs ∧
  ∃ k, find_index (at_route path) rs' = Some k ∧ rs' !! k = Some r.
Proof.
  intros PT F r rs'. assert (at_route path r = true) as P.
  { unfold at_route, r_path. cbn [r stored_route r_incoming]. rewrite PT. by apply jseq_eq. }
  destruct i as [i|]; subst rs'; cbn zeta.
  - split; [apply filter_insert_hidden; [intros a; by apply found_hidden|unfold others; by rewrite P]|].
    exists i. split; [by apply find_index_insert|]. apply list_lookup_insert_eq.
    apply find_index_Some in F as (a & A & _). by apply lookup_lt_Some in A.
  - split; [rewrite List.filter_app; cbn; unfold others at 2; rewrite P; by rewrite app_nil_r|].
    exists (length rs). split; [by apply find_index_snoc|]. by apply lookup_snoc_Some; auto.
Qed.

Lemma stored_reads path v up rs :
  Forall good_route rs → typed_route v → getAdvancedCustomRouteUpstreamPath v = Ok up →
  let r := stored_route path v up in
  let i := find_index (at_route path) rs in
  let rs' := match i with Some i => <[i := r]> rs | None => rs ++ [r] end in
  Forall good_route rs' ∧
  normalized_routes
    (config_of (match i with
                | Some i => <[i := stored_object path v]> (map route_value rs)
                | None => map route_value rs ++ [stored_object path v]
                end)) = Ok (map route_value rs').
Proof.
  intros G T U r i rs'. destruct (stored_normalizes path v up T U) as [N GS]. subst rs'. split.
  - destruct i; [by apply Forall_insert|apply Forall_app_2; [done|by constructor]].
  - apply normalized_config_of. pose proof (normalize_good rs G) as F. destruct i as [i|].
    + change (map route_value (<[i := r]> rs)) with (route_value <$> <[i := r]> rs).
      rewrite list_fmap_insert. by apply Forall2_insert.
    + rewrite map_app. apply Forall2_app; [done|]. by repeat constructor.
Qed.

Lemma typed_upstream_read v : typed_route v → ∃ up, getAdvancedCustomRouteUpstreamPath v = Ok up.
Proof.
  intros T. unfold getAdvancedCustomRouteUpstreamPath, member. rewrite (typed_object v T). cbn [mbind result_bind].
  destruct (js_or_text _ [] (typed_upstream v T)) as [u ->]. by eexists.
Qed.

(** Storing a management route keeps all other routes.  On configurations
    of the declared types the edit succeeds, the routes of other paths stay
    as they are and in order, and the route found at the path afterwards is
    the native catch-all with the given target and authorization. *)
Theorem management_route_is_stored c path v :
  typed_config c → trim path = path → typed_route v →
  ∃ c' rs rs' up,
    replaceAdvancedCustomManagementRoute c path (Some v) = Ok c' ∧
    normalized_routes c = Ok (map route_value rs) ∧ normalized_routes c' = Ok (map route_value rs') ∧
    List.filter (others path) rs' = List.filter (others path) rs ∧
    getAdvancedCustomRouteUpstreamPath v = Ok up ∧
    getAdvancedCustomManagementRoute c' path = Ok (Some (route_value (stored_route path v up))).
Proof.
  intros T PT TV. destruct (typed_config_normalizes c T) as (rs & N & G).
  destruct (typed_upstream_read v TV) as [up U].
  destruct (stored_reads path v up rs G TV U) as [G' N'].
  destruct (stored_found path v up rs _ PT eq_refl) as (F & k & K1 & K2).
  set (rs' := match find_index (at_route path) rs with Some i => _ | None => _ end) in *.
  eexists _, rs, rs', up. split_and!; [|done|exact N'|done|done|].
  - unfold replaceAdvancedCustomManagementRoute, member. rewrite N. cbn [mbind result_bind].
    rewrite index_at by done. cbn [mbind result_bind]. rewrite (typed_object v TV). reflexivity.
  - unfold getAdvancedCustomManagementRoute. rewrite N'. cbn [mbind result_bind].
    rewrite index_at by done. cbn [mbind result_bind]. rewrite K1. cbn.
    change (map route_value rs') with (route_value <$> rs'). by rewrite list_lookup_fmap, K2.
Qed.

Lemma management_route_is_stored_witness :
  let c := config_of [chat_route []; chat_route [js "gpt-4"]] in
  ∃ c' rs rs', replaceAdvancedCustomManagementRoute c ADVANCED_CUSTOM_BALANCE_PATH (Some odd_route) = Ok c' ∧
    normalized_routes c = Ok (map route_value rs) ∧ normalized_routes c' = Ok (map route_value rs') ∧
    List.filter (others ADVANCED_CUSTOM_BALANCE_PATH) rs' = List.filter (others ADVANCED_CUSTOM_BALANCE_PATH) rs.
Proof.
  intros c.
  destruct (management_route_is_stored c ADVANCED_CUSTOM_BALANCE_PATH odd_route)
    as (c' & rs & rs' & up & R & N & N' & F & _).
  - eexists. split; [reflexivity|]. apply Forall_forall. intros v I. rewrite !elem_of_cons in I.
    destruct I as [->|[->|I%elem_of_nil]]; [apply typed_chat_route..|done].
  - vm_compute. reflexivity.
  - apply typed_odd_route.
  - exists c', rs, rs'. auto.
Defined.

(** Removing a management route takes one route of its path away and keeps
    all others. *)
Theorem management_route_is_removed c path :
  typed_config c →
  ∃ c' rs rs',
    replaceAdvancedCustomManagementRoute c path None = Ok c' ∧
    normalized_routes c = Ok (map route_value rs) ∧ normalized_routes c' = Ok (map route_value rs') ∧
    List.filter (others path) rs' = List.filter (others path) rs ∧
    length (List.filter (at_route path) rs') = pred (length (List.filter (at_route path) rs)).
Proof.
  intros T. destruct (typed_config_normalizes c T) as (rs & N & G).
  set (rs' := match find_index (at_route path) rs with Some i => delete i rs | None => rs end).
  exists (config_of (map route_value rs')), rs, rs'. split_and!; [|done|..].
  - unfold replaceAdvancedCustomManagementRoute. rewrite N. cbn [mbind result_bind].
    rewrite index_at by done. cbn [mbind result_bind]. do 2 f_equal. subst rs'.
    destruct (find_index (at_route path) rs) as [i|]; [|done].
    change (map route_value (delete i rs)) with (route_value <$> delete i rs). by rewrite list_fmap_delete.
  - apply normalized_config_of, normalize_good. subst rs'. destruct (find_index _ _); [by apply Forall_delete|done].
  - subst rs'. destruct (find_index (at_route path) rs) as [i|] eqn:F; [|done].
    apply filter_delete_hidden. intros a. by apply found_hidden.
  - subst rs'. destruct (find_index (at_route path) rs) as [i|] eqn:F; [by apply filter_delete_seen|].
    by rewrite not_found_filter.
Qed.

Definition is_mgmt (r : Route) : bool := isAdvancedCustomManagementPath (r_path r).

Lemma filter_negb {A} (p : A → bool) l : List.filter (λ a, negb (p a)) (List.filter p l) = [].
Proof. induction l as [|a l IH]; [done|]. cbn. destruct (p a) eqn:P; cbn; [by rewrite P|done]. Qed.

Lemma filter_twice {A} (p : A → bool) l : List.filter p (List.filter p l) = List.filter p l.
Proof. induction l as [|a l IH]; [done|]. cbn. destruct (p a) eqn:P; cbn; [by rewrite P, IH|done]. Qed.

(** Replacing the forwarding routes keeps the management routes, in order,
    and puts the new ones, as given, in one block. *)
Theorem forwarding_routes_are_replaced c fwd :
  typed_config c → Forall typed_route fwd →
  ∃ rs fs, normalized_routes c = Ok (map route_value rs) ∧
    rmap normalizeAdvancedCustomRoute fwd = Ok (map route_value fs) ∧
    (Forall (λ r, is_mgmt r = false) fs →
     ∃ c' rs', replaceAdvancedCustomForwardingRoutes c fwd = Ok c' ∧
       normalized_routes c' = Ok (map route_value rs') ∧
       List.filter is_mgmt rs' = List.filter is_mgmt rs ∧
       List.filter (λ r, negb (is_mgmt r)) rs' = fs).
Proof.
  intros T TF. destruct (typed_config_normalizes c T) as (rs & N & G).
  destruct (typed_routes_normalize fwd TF) as (fs & NF & GF). exists rs, fs. split; [done|]. split; [done|].
  intros FW.
  assert (List.filter is_mgmt fs = []) as E1 by (by apply filter_none).
  assert (List.filter (λ r, negb (is_mgmt r)) fs = fs) as E2.
  { apply filter_all. eapply Forall_impl; [exact FW|]. by intros r ->. }
  set (split_at := match find_index (λ r, negb (is_mgmt r)) rs with Some i => i | None => length rs end).
  set (rs' := List.filter is_mgmt (take split_at rs) ++ fs ++ List.filter is_mgmt (drop split_at rs)).
  exists (config_of (map route_value (List.filter is_mgmt (take split_at rs)) ++ fwd
                     ++ map route_value (List.filter is_mgmt (drop split_at rs)))), rs'.
  assert (∀ l, Forall good_route l → filter_routes is_management (map route_value l)
            = Ok (map route_value (List.filter is_mgmt l))) as FR.
  { intros l GL. apply filter_routes_spec. intros r R. apply is_management_spec. by apply (good_routes l). }
  assert (∀ l, Forall good_route l → Forall good_route (List.filter is_mgmt l)) as GK.
  { intros l GL. rewrite Forall_forall in *. intros r [R _]%list_elem_of_In%filter_In. apply GL. by apply list_elem_of_In. }
  split_and!.
  - unfold replaceAdvancedCustomForwardingRoutes. rewrite N. cbn [mbind result_bind].
    rewrite (index_route_spec _ (λ r, negb (is_mgmt r))).
    2: { intros r R. rewrite is_management_spec by (by apply (good_routes rs)). done. }
    cbn [mbind result_bind]. rewrite FR by done. cbn [mbind result_bind]. subst split_at.
    destruct (find_index _ rs) as [i|] eqn:F.
    + rewrite firstn_map, skipn_map.
      rewrite !FR by (by apply Forall_take || by apply Forall_drop). done.
    + rewrite take_ge, drop_ge by done. cbn. by rewrite app_nil_r.
  - apply normalized_config_of. subst rs'. rewrite !map_app.
    apply Forall2_app; [apply normalize_good, GK; by apply Forall_take|].
    apply Forall2_app; [by apply rmap_Ok|apply normalize_good, GK; by apply Forall_drop].
  - subst rs'. rewrite !List.filter_app, E1, !filter_twice. cbn [app]. by rewrite <- List.filter_app, take_drop.
  - subst rs'. rewrite !List.filter_app, E2, !filter_negb. cbn [app]. by rewrite app_nil_r.
Qed.

(** ** What the editor offers *)

Definition accepted `{UrlHost} (c : jsval) : bool :=
  match validateAdvancedCustomConfig c with Ok None => true | _ => false end.

(** A route filled in with the defaults of its converter. *)
Definition default_route (converter incomingPath : jsstr) : jsval :=
  let '(up, auth) := getAdvancedCustomConverterDefaults (JStr converter) incomingPath in
  JObj [(js "incoming_path", JStr incomingPath); (js "upstream_path", JStr up);
        (js "converter", JStr converter); (js "auth", auth)].

(** Whatever the editor offers is valid: every template (an unknown key gives
    the first), the initial configuration, and every converter with any of
    the incoming paths offered for it and its default target and
    authorization. *)
Theorem offered_configurations_are_valid `{UrlHost} :
  (∀ key, accepted (getAdvancedCustomTemplateConfig key) = true) ∧
  accepted createAdvancedCustomConfig = true ∧
  ∀ o p, o ∈ ADVANCED_CUSTOM_CONVERTER_OPTIONS →
    p ∈ getAdvancedCustomIncomingPathOptions (JStr (converter_value o)) →
    accepted (config_of [default_route (converter_value o) p.1]) = true.
Proof.
  split; [|split].
  - intros key. unfold getAdvancedCustomTemplateConfig.
    destruct (List.find _ _) as [o|] eqn:F; [|vm_compute; reflexivity].
    apply find_some in F as [F _]. cbn [ADVANCED_CUSTOM_TEMPLATE_OPTIONS In] in F.
    repeat destruct F as [<-|F]; [vm_compute; reflexivity..|done].
  - vm_compute. reflexivity.
  - intros o p O P.
    assert (forallb (λ o, forallb (λ p, accepted (config_of [default_route (converter_value o) p.1]))
              (getAdvancedCustomIncomingPathOptions (JStr (converter_value o))))
              ADVANCED_CUSTOM_CONVERTER_OPTIONS = true) as A by (vm_compute; reflexivity).
    rewrite forallb_forall in A. specialize (A o (proj1 (list_elem_of_In _ _) O)).
    rewrite forallb_forall in A. by apply A, list_elem_of_In.
Qed.

(** ** Where the code falls short *)

(** An incoming path that is a number passes the parser, and the summary of
    the channel form throws on it instead of reporting an invalid
    configuration. *)
Theorem summary_throws_on_a_number `{UrlHost} :
  let text := stringify_pretty (config_of [JObj [(js "incoming_path", JNum (nZ 5))]]) in
  (∃ c, parseAdvancedCustomConfig (Some text) = Some c) ∧
  getAdvancedCustomStats (Some text) = Err type_error.
Proof. split; [eexists|]; vm_compute; reflexivity. Qed.

(** The rerank converter of the gateway is unknown to the console, so a
    configuration that uses it cannot be saved. *)
Theorem rerank_converter_is_unknown `{UrlHost} :
  validateAdvancedCustomConfig
    (config_of [JObj [(js "incoming_path", JStr (js "/v1/rerank")); (js "upstream_path", JStr (js "/rerank"));
                      (js "converter", JStr (js "jina_rerank_to_sglang"))]])
  = Ok (Some {| message := js "Converter is not registered"; routeIndex := Some 0 |}).
Proof. vm_compute. reflexivity. Qed.
