(* ===== verification/PlaygroundSchema.v ===== *)
(** * The schemas of stored playground data

    Models [features/playground/lib/storage/storage-schema.ts]: the schemas as
    data, and messages as the JavaScript values that are validated, written
    and read back.  The validation library is the class [Zod]; the law
    [zod_accepts] states what its documentation promises and what the code
    relies on: a value that has the declared fields and no others is accepted
    and returned as it is. *)
From stdpp Require Import base list option numbers sets.
From Stdlib Require Import ZArith SpecFloat Lia.
From S2P Require Import Prelude.
From S2P Require Import JsString.
From S2P Require Import JsNumber.
From S2P Require Import Runtime.
From S2P Require Import Json.
From S2P Require Import JsText.
From S2P Require Import JsonPrint.
From S2P Require Import Playground.

(** ** Schemas *)

(** The constructors of the library that the code uses; a field of an object
    may be optional. *)
Inductive schema : Type :=
| z_string
| z_number
| z_boolean
| z_enum (values : list jsstr)
| z_nullable (s : schema)
| z_array (min : nat) (s : schema)
| z_object (shape : list (jsstr * bool * schema)).

Definition required (k : jsstr) (s : schema) : jsstr * bool * schema := (k, false, s).
Definition optional (k : jsstr) (s : schema) : jsstr * bool * schema := (k, true, s).

Definition playgroundConfigSchema : schema := z_object
  [ optional (js "model") z_string; optional (js "group") z_string;
    optional (js "temperature") z_number; optional (js "top_p") z_number;
    optional (js "max_tokens") z_number; optional (js "frequency_penalty") z_number;
    optional (js "presence_penalty") z_number; optional (js "seed") (z_nullable z_number);
    optional (js "stream") z_boolean ].

Definition parameterEnabledSchema : schema := z_object
  [ optional (js "temperature") z_boolean; optional (js "top_p") z_boolean;
    optional (js "max_tokens") z_boolean; optional (js "frequency_penalty") z_boolean;
    optional (js "presence_penalty") z_boolean; optional (js "seed") z_boolean ].

Definition messageRoleSchema : schema := z_enum [js "user"; js "assistant"; js "system"].
Definition messageStatusSchema : schema :=
  z_enum [js "loading"; js "streaming"; js "complete"; js "error"].
Definition messageVersionSchema : schema :=
  z_object [required (js "id") z_string; required (js "content") z_string].
Definition sourceSchema : schema :=
  z_object [required (js "href") z_string; required (js "title") z_string].
Definition reasoningSchema : schema := z_object
  [ required (js "content") z_string; required (js "duration") z_number;
    optional (js "startedAt") z_number; optional (js "completedAt") z_number;
    optional (js "durationMs") z_number ].

Definition messageSchema : schema := z_object
  [ required (js "key") z_string; required (js "from") messageRoleSchema;
    required (js "versions") (z_array 1 messageVersionSchema);
    optional (js "createdAt") z_number; optional (js "startedAt") z_number;
    optional (js "completedAt") z_number; optional (js "durationMs") z_number;
    optional (js "sources") (z_array 0 sourceSchema); optional (js "reasoning") reasoningSchema;
    optional (js "isReasoningStreaming") z_boolean; optional (js "isReasoningComplete") z_boolean;
    optional (js "isContentComplete") z_boolean; optional (js "status") messageStatusSchema;
    optional (js "errorCode") (z_nullable z_string) ].

Definition messagesSchema : schema := z_array 0 messageSchema.

(** A value of the schema with its fields in the declared order, without
    undefined ones and without others. *)
Fixpoint canonical (s : schema) (v : jsval) {struct s} : bool :=
  match s, v with
  | z_string, JStr _ => true
  | z_number, JNum x => is_finite x
  | z_boolean, JBool _ => true
  | z_enum values, JStr t => existsb (jseq t) values
  | z_nullable _, JNull => true
  | z_nullable s, _ => canonical s v
  | z_array min s, JArr items => (min <=? length items) && forallb (canonical s) items
  | z_object shape, JObj fields =>
      (fix go (shape : list (jsstr * bool * schema)) (fields : list (jsstr * jsval)) : bool :=
         match shape with
         | [] => match fields with [] => true | _ => false end
         | (k, opt, s) :: shape =>
             match fields with
             | (k', v) :: fields' =>
                 if jseq k' k then canonical s v && go shape fields' else opt && go shape fields
             | [] => opt && go shape []
             end
         end) shape fields
  | _, _ => false
  end.

Class Zod := { zparse : schema → jsval → option jsval }.
Class ZodLaws (Z : Zod) : Prop := {
  zod_accepts : ∀ s v, canonical s v = true → zparse s v = Some v;
}.

(** A validator that accepts nothing else. *)
Definition strict_zod : Zod := {| zparse s v := if canonical s v then Some v else None |}.
Lemma strict_zod_laws : ZodLaws strict_zod.
Proof. constructor. intros s v C. cbn. by rewrite C. Qed.

(** ** Messages as values *)

Definition role_text (r : MessageRole) : jsstr :=
  match r with USER => js "user" | ASSISTANT => js "assistant" | SYSTEM => js "system" end.
Definition status_text (s : MessageStatus) : jsstr :=
  match s with
  | LOADING => js "loading" | STREAMING => js "streaming"
  | COMPLETE => js "complete" | ERROR => js "error"
  end.

(** An absent field is undefined. *)
Definition maybe {A} (f : A → jsval) (o : option A) : jsval := from_option f JUndefined o.
Definition nullable {A} (f : A → jsval) (o : option A) : jsval := from_option f JNull o.

Definition version_value (v : MessageVersion) : jsval :=
  JObj [(js "id", JStr (version_id v)); (js "content", JStr (content v))].
Definition source_value (s : jsstr * jsstr) : jsval :=
  JObj [(js "href", JStr s.1); (js "title", JStr s.2)].

Definition reasoning_fields (r : Reasoning) : list (jsstr * jsval) :=
  [ (js "content", JStr (reasoning_content r)); (js "duration", JNum (duration r));
    (js "startedAt", maybe JNum (r_startedAt r)); (js "completedAt", maybe JNum (r_completedAt r));
    (js "durationMs", maybe JNum (r_durationMs r)) ].
Definition reasoning_value (r : Reasoning) : jsval := JObj (kept (reasoning_fields r)).

(** The fields in the declared order; [kept] leaves out the undefined
    ones. *)
Definition message_fields (m : Message) : list (jsstr * jsval) :=
  [ (js "key", JStr (key m)); (js "from", JStr (role_text (from m)));
    (js "versions", JArr (map version_value (versions m)));
    (js "createdAt", maybe JNum (createdAt m)); (js "startedAt", maybe JNum (startedAt m));
    (js "completedAt", maybe JNum (completedAt m)); (js "durationMs", maybe JNum (durationMs m));
    (js "sources", maybe (λ l, JArr (map source_value l)) (sources m));
    (js "reasoning", maybe reasoning_value (reasoning m));
    (js "isReasoningStreaming", maybe JBool (isReasoningStreaming m));
    (js "isReasoningComplete", maybe JBool (isReasoningComplete m));
    (js "isContentComplete", maybe JBool (isContentComplete m));
    (js "status", maybe (λ s, JStr (status_text s)) (status m));
    (js "errorCode", maybe (nullable JStr) (errorCode m)) ].
Definition message_value (m : Message) : jsval := JObj (kept (message_fields m)).

Definition messages_value (ms : list Message) : jsval := JArr (map message_value ms).

(** ** Values as messages *)

(** [object.key] *)
Definition field (fields : list (jsstr * jsval)) (k : jsstr) : jsval := default JUndefined (own fields k).

Definition as_text (v : jsval) : option jsstr := match v with JStr s => Some s | _ => None end.
Definition as_num (v : jsval) : option num := match v with JNum x => Some x | _ => None end.
Definition as_bool (v : jsval) : option bool := match v with JBool b => Some b | _ => None end.
Definition as_items (v : jsval) : option (list jsval) := match v with JArr l => Some l | _ => None end.

Definition role_of (t : jsstr) : option MessageRole :=
  List.find (λ r, jseq t (role_text r)) [USER; ASSISTANT; SYSTEM].
Definition status_of (t : jsstr) : option MessageStatus :=
  List.find (λ s, jseq t (status_text s)) [LOADING; STREAMING; COMPLETE; ERROR].

Definition version_of (v : jsval) : option MessageVersion :=
  match v with
  | JObj f =>
      i ← as_text (field f (js "id"));
      c ← as_text (field f (js "content"));
      Some {| version_id := i; content := c |}
  | _ => None
  end.
Definition source_of (v : jsval) : option (jsstr * jsstr) :=
  match v with
  | JObj f => h ← as_text (field f (js "href")); t ← as_text (field f (js "title")); Some (h, t)
  | _ => None
  end.
Definition reasoning_of (v : jsval) : option Reasoning :=
  match v with
  | JObj f =>
      c ← as_text (field f (js "content"));
      d ← as_num (field f (js "duration"));
      Some {| reasoning_content := c; duration := d; r_startedAt := as_num (field f (js "startedAt"));
              r_completedAt := as_num (field f (js "completedAt"));
              r_durationMs := as_num (field f (js "durationMs")) |}
  | _ => None
  end.

(** The value that passed the schema, as a message; the cast of the code
    does not look at it. *)
Definition message_of (v : jsval) : option Message :=
  match v with
  | JObj f =>
      k ← as_text (field f (js "key"));
      r ← as_text (field f (js "from")) ≫= role_of;
      vs ← as_items (field f (js "versions")) ≫= mapM version_of;
      Some {| key := k; from := r; versions := vs;
              createdAt := as_num (field f (js "createdAt")); startedAt := as_num (field f (js "startedAt"));
              completedAt := as_num (field f (js "completedAt")); durationMs := as_num (field f (js "durationMs"));
              sources := as_items (field f (js "sources")) ≫= mapM source_of;
              reasoning := reasoning_of (field f (js "reasoning"));
              isReasoningStreaming := as_bool (field f (js "isReasoningStreaming"));
              isReasoningComplete := as_bool (field f (js "isReasoningComplete"));
              isContentComplete := as_bool (field f (js "isContentComplete"));
              status := as_text (field f (js "status")) ≫= status_of;
              errorCode := match field f (js "errorCode") with
                           | JNull => Some None
                           | JStr c => Some (Some c)
                           | _ => None
                           end |}
  | _ => None
  end.
Definition messages_of (v : jsval) : option (list Message) := as_items v ≫= mapM message_of.

(** ** Values of messages are canonical and read back *)

Lemma own_absent fields k : k ∉ fields.*1 → own fields k = None.
Proof.
  induction fields as [|[k' v] fields IH]; [done|]. cbn. intros [N1 N2]%not_elem_of_cons.
  by rewrite (proj2 (jseq_neq _ _)), IH by congruence.
Qed.

Lemma kept_cons kv fields :
  kept (kv :: fields) = if is_undefined kv.2 then kept fields else kv :: kept fields.
Proof. unfold kept. destruct kv as [k v]. cbn. by destruct (is_undefined v). Qed.

Lemma kept_absent fields k : k ∉ fields.*1 → k ∉ (kept fields).*1.
Proof. intros N (kv & -> & [I _]%elem_kept)%list_elem_of_fmap. apply N, list_elem_of_fmap. by exists kv. Qed.

Lemma field_kept fields k : NoDup fields.*1 → field (kept fields) k = field fields k.
Proof.
  unfold field. induction fields as [|[k' v] fields IH]; [done|]. intros [N D]%NoDup_cons. rewrite kept_cons. cbn [snd fst] in *.
  specialize (IH D). destruct (is_undefined v) eqn:U; cbn [own]; destruct (jseq k' k) eqn:E; try done.
  apply jseq_eq in E as <-. rewrite own_absent by (by apply kept_absent). by destruct v.
Qed.

Lemma canonical_object shape fs :
  Forall2 (λ d kv, kv.1 = d.1.1 ∧ (if is_undefined kv.2 then d.1.2 else canonical d.2 kv.2) = true) shape fs →
  NoDup fs.*1 → canonical (z_object shape) (JObj (kept fs)) = true.
Proof.
  induction 1 as [|[[k opt] s] [k' v] shape fs [E V] F IH]; [done|]. intros [N D]%NoDup_cons.
  specialize (IH D). cbn [fst snd] in *. subst k'. rewrite kept_cons. cbn [snd]. destruct (is_undefined v).
  - assert (k ∉ (kept fs).*1) as A by (by apply kept_absent). cbn in IH |- *. destruct (kept fs) as [|[k' v'] r].
    + by rewrite V.
    + rewrite (proj2 (jseq_neq _ _)) by (intros ->; apply A; by left). by rewrite V.
  - cbn in IH |- *. by rewrite (proj2 (jseq_eq _ _) eq_refl), V.
Qed.

Lemma message_keys m : NoDup (message_fields m).*1.
Proof. apply (bool_decide_unpack _). vm_compute. exact I. Qed.
Lemma reasoning_keys r : NoDup (reasoning_fields r).*1.
Proof. apply (bool_decide_unpack _). vm_compute. exact I. Qed.

(** The fields of a printable object are printable. *)
Lemma printable_field fs kv : printable (JObj (kept fs)) → kv ∈ fs → kv.2 = JUndefined ∨ printable kv.2.
Proof.
  intros P I. inversion_clear P as [| | | | |? _ _ P']. destruct (is_undefined kv.2) eqn:U; [left; by destruct kv.2|].
  right. rewrite Forall_forall in P'. destruct (P' kv) as [|E]; [|done|by rewrite E in U].
  apply elem_kept. split; [done|]. by intros E; rewrite E in U.
Qed.

(** What the code relies on: a message has a version, its numbers are read
    from their texts. *)
Record storable (m : Message) : Prop := {
  storable_versions : versions m ≠ [];
  storable_printable : printable (message_value m);
}.
Definition storableb (m : Message) : bool :=
  match versions m with [] => false | _ => printableb (message_value m) end.

Lemma storableb_sound m : storableb m = true → storable m.
Proof.
  unfold storableb. intros S. split; [by destruct (versions m)|].
  destruct (versions m); [done|]. by apply printableb_sound.
Qed.

Lemma number_canonical o :
  maybe JNum o = JUndefined ∨ printable (maybe JNum o) →
  (if is_undefined (maybe JNum o) then true else canonical z_number (maybe JNum o)) = true.
Proof.
  intros P. destruct o as [x|]; [|done]. cbn in *. destruct P as [|P]; [done|].
  inversion_clear P as [| |? N| | |]. unfold number_reads in N. by apply andb_true_iff in N as [-> _].
Qed.

Lemma reasoning_canonical r : printable (reasoning_value r) → canonical reasoningSchema (reasoning_value r) = true.
Proof.
  intros P. pose proof (λ kv, printable_field (reasoning_fields r) kv P) as F. clear P.
  apply canonical_object; [|apply reasoning_keys].
  assert (canonical z_number (JNum (duration r)) = true) as D.
  { apply (number_canonical (Some (duration r))), (F (js "duration", JNum (duration r))). right; left. }
  repeat (apply Forall2_cons; split; [split; [reflexivity|]|]); try apply Forall2_nil_2;
    try exact D; try reflexivity.
  - apply number_canonical, (F (js "startedAt", _)). do 2 right; left.
  - apply number_canonical, (F (js "completedAt", _)). do 3 right; left.
  - apply number_canonical, (F (js "durationMs", _)). do 4 right; left.
Qed.

Lemma enum_canonical values t : t ∈ values → canonical (z_enum values) (JStr t) = true.
Proof.
  intros I. cbn. apply existsb_exists. exists t. split; [by apply list_elem_of_In|]. by apply jseq_eq.
Qed.

Lemma list_canonical {A} (f : A → jsval) s min l :
  min ≤ length l → (∀ a, canonical s (f a) = true) → canonical (z_array min s) (JArr (map f l)) = true.
Proof.
  intros L F. cbn. rewrite length_map. apply andb_true_iff. split; [by apply Nat.leb_le|].
  apply forallb_forall. intros v (a & <- & _)%in_map_iff. apply F.
Qed.

Lemma message_canonical m : storable m → canonical messageSchema (message_value m) = true.
Proof.
  intros [V P]. pose proof (λ kv, printable_field (message_fields m) kv P) as F. clear P.
  apply canonical_object; [|apply message_keys].
  assert (∀ k o, (k, maybe JNum o) ∈ message_fields m →
    (if is_undefined (maybe JNum o) then true else canonical z_number (maybe JNum o)) = true) as N
    by (intros k o I; by apply number_canonical, (F (k, maybe JNum o))).
  assert (∀ b, (if is_undefined (maybe JBool b) then true else canonical z_boolean (maybe JBool b)) = true) as B
    by (intros [[]|]; reflexivity).
  repeat (apply Forall2_cons; split; [split; [reflexivity|]|]); try apply Forall2_nil_2; cbn [snd fst required optional].
  - reflexivity.
  - apply enum_canonical. destruct (from m); [left|right; left|do 2 right; left].
  - apply list_canonical; [destruct (versions m); [done|cbn; lia]|done].
  - apply (N (js "createdAt")). do 3 right; left.
  - apply (N (js "startedAt")). do 4 right; left.
  - apply (N (js "completedAt")). do 5 right; left.
  - apply (N (js "durationMs")). do 6 right; left.
  - destruct (sources m) as [l|]; [|done]. apply list_canonical; [lia|done].
  - pose proof (F (js "reasoning", maybe reasoning_value (reasoning m)) ltac:(do 8 right; left)) as R.
    destruct (reasoning m) as [r|]; [|done]. destruct R as [|R]; [done|]. by apply reasoning_canonical.
  - apply B.
  - apply B.
  - apply B.
  - destruct (status m) as [s|]; [|done]. apply enum_canonical.
    destruct s; [left|right; left|do 2 right; left|do 3 right; left].
  - by destruct (errorCode m) as [[c|]|].
Qed.

Lemma mapM_map {A} (f : A → jsval) (g : jsval → option A) l :
  (∀ a, g (f a) = Some a) → mapM g (map f l) = Some l.
Proof. intros G. induction l as [|a l IH]; [done|]. cbn. by rewrite G, IH. Qed.

Lemma reasoning_reads r : reasoning_of (reasoning_value r) = Some r.
Proof.
  unfold reasoning_of, reasoning_value. rewrite !field_kept by apply reasoning_keys.
  destruct r as [c d [] [] []]; reflexivity.
Qed.

Lemma as_num_maybe o : as_num (maybe JNum o) = o.
Proof. by destruct o. Qed.
Lemma as_bool_maybe o : as_bool (maybe JBool o) = o.
Proof. by destruct o. Qed.

(** A message is what is read from its value. *)
Lemma message_reads m : message_of (message_value m) = Some m.
Proof.
  unfold message_of, message_value. rewrite !field_kept by apply message_keys.
  change (field (message_fields m) (js "key")) with (JStr (key m)).
  change (field (message_fields m) (js "from")) with (JStr (role_text (from m))).
  change (field (message_fields m) (js "versions")) with (JArr (map version_value (versions m))).
  change (field (message_fields m) (js "createdAt")) with (maybe JNum (createdAt m)).
  change (field (message_fields m) (js "startedAt")) with (maybe JNum (startedAt m)).
  change (field (message_fields m) (js "completedAt")) with (maybe JNum (completedAt m)).
  change (field (message_fields m) (js "durationMs")) with (maybe JNum (durationMs m)).
  change (field (message_fields m) (js "sources")) with (maybe (λ l, JArr (map source_value l)) (sources m)).
  change (field (message_fields m) (js "reasoning")) with (maybe reasoning_value (reasoning m)).
  change (field (message_fields m) (js "isReasoningStreaming")) with (maybe JBool (isReasoningStreaming m)).
  change (field (message_fields m) (js "isReasoningComplete")) with (maybe JBool (isReasoningComplete m)).
  change (field (message_fields m) (js "isContentComplete")) with (maybe JBool (isContentComplete m)).
  change (field (message_fields m) (js "status")) with (maybe (λ s, JStr (status_text s)) (status m)).
  change (field (message_fields m) (js "errorCode")) with (maybe (nullable JStr) (errorCode m)).
  rewrite !as_num_maybe, !as_bool_maybe. cbn [as_text as_items mbind option_bind].
  rewrite (mapM_map version_value) by (by intros []).
  replace (role_of (role_text (from m))) with (Some (from m)) by (by destruct (from m)).
  replace (as_items (maybe (λ l, JArr (map source_value l)) (sources m)) ≫= mapM source_of) with (sources m)
    by (destruct (sources m) as [l|]; [cbn; by rewrite (mapM_map source_value) by (by intros [])|done]).
  replace (reasoning_of (maybe reasoning_value (reasoning m))) with (reasoning m)
    by (destruct (reasoning m); [symmetry; apply reasoning_reads|done]).
  replace (as_text (maybe (λ s, JStr (status_text s)) (status m)) ≫= status_of) with (status m)
    by (by destruct (status m) as [[]|]).
  destruct m as [? ? ? ? ? ? ? ? ? ? ? ? ? [[|]|]]; reflexivity.
Qed.

Lemma messages_read ms : messages_of (messages_value ms) = Some ms.
Proof. unfold messages_of, messages_value. cbn. apply mapM_map, message_reads. Qed.

Lemma messages_canonical ms : Forall storable ms → canonical messagesSchema (messages_value ms) = true.
Proof.
  intros S. cbn [messagesSchema messages_value canonical]. cbn [Nat.leb andb].
  apply forallb_forall. intros v (m & <- & I)%in_map_iff. apply message_canonical.
  rewrite Forall_forall in S. by apply S, list_elem_of_In.
Qed.

(** ** Values without undefined parts *)

Lemma canonical_fields shape fields :
  canonical (z_object shape) (JObj fields) = true → Forall (λ kv, ∃ s, canonical s kv.2 = true) fields.
Proof.
  revert fields. induction shape as [|[[k opt] s] shape IH]; intros fields; [by destruct fields|].
  destruct fields as [|[k' v] fields]; [constructor|]. cbn. destruct (jseq k' k).
  - intros [V F]%andb_true_iff. constructor; [by exists s|]. by apply IH.
  - intros [_ F]%andb_true_iff. by apply IH.
Qed.

Lemma without_undefined_fields fields :
  Forall (λ kv, without_undefined kv.2 = kv.2 ∧ kv.2 ≠ JUndefined) fields →
  without_undefined (JObj fields) = JObj fields.
Proof.
  intros F. rewrite without_undefined_object. f_equal.
  induction F as [|[k v] fields [E N] _ IH]; [done|]. rewrite kept_cons. cbn [snd] in *.
  destruct (is_undefined v) eqn:U; [by destruct v|]. cbn. by rewrite E, IH.
Qed.

Lemma without_undefined_canonical s v : canonical s v = true → without_undefined v = v ∧ v ≠ JUndefined.
Proof.
  revert s. induction v as [| |b|x|t|items IH|fields IH] using jsval_rect'; intros s C; try done.
  - exfalso. by induction s.
  - split; [|done]. cbn. f_equal.
    assert (∃ s, forallb (canonical s) items = true) as (s' & F).
    { induction s; try done; [by apply IHs|]. cbn in C. apply andb_true_iff in C as [_ C]. eauto. }
    clear C. rewrite forallb_forall in F. rewrite <- (map_id items) at 2. apply map_ext_in. intros v I.
    rewrite Forall_forall in IH. by apply (IH v (proj2 (list_elem_of_In _ _) I) s'), F.
  - split; [|done]. apply without_undefined_fields.
    assert (Forall (λ kv, ∃ s, canonical s kv.2 = true) fields) as F.
    { induction s; try done; [by apply IHs|]. by eapply canonical_fields. }
    rewrite Forall_forall in *. intros kv I. destruct (F kv I) as [s' C']. eauto.
Qed.
