(* ===== verification/PlaygroundStorage.v ===== *)
(** * Stored conversations of the playground

    Models [features/playground/lib/storage/storage.ts] and
    [lib/state/playground-state-utils.ts]: conversations, settings and
    parameter switches are validated, written as JSON text and read back;
    of a loaded conversation repeated section snapshots are collapsed, texts
    are truncated, interrupted answers are completed, and the size of what is
    kept is limited.  The validation library is the class [Zod]. *)
From stdpp Require Import base list option numbers sets gmap.
From Stdlib Require Import ZArith SpecFloat Lia.
From S2P Require Import Prelude.
From S2P Require Import JsString.
From S2P Require Import JsNumber.
From S2P Require Import Runtime.
From S2P Require Import Json.
From S2P Require Import JsText.
From S2P Require Import JsonPrint.
From S2P Require Import Playground.
From S2P Require Import PlaygroundSchema.

Definition STORAGE_VERSION : num := nZ 1.
Definition MAX_STORED_MESSAGES_BYTES : N := 1024 * 1024.
Definition MAX_LOADED_MESSAGE_CHARS : N := 40000.
Definition MIN_PREFIX_COLLAPSE_LENGTH : N := 2000.
Definition MIN_REPEATED_SECTION_COUNT : nat := 3.

(** ** Headings *)

Definition line_terminator (c : N) : bool :=
  ((c =? 10) || (c =? 13) || (c =? 8232) || (c =? 8233))%N.

(** The length of the longest prefix whose units satisfy [p]. *)
Fixpoint run_length (p : N → bool) (s : jsstr) : nat :=
  match s with
  | c :: s => if p c then S (run_length p s) else 0
  | [] => 0
  end.

(** [\s+.+$] where the longest run of spaces has length [spaces]: the
    expression gives spaces back, one by one, until a unit of the line
    follows. *)
Fixpoint match_title (spaces : nat) (s : jsstr) : option nat :=
  match spaces with
  | 0 => None
  | S fewer =>
      match run_length (λ c, negb (line_terminator c)) (drop spaces s) with
      | 0 => match_title fewer s
      | n => Some (spaces + n)
      end
  end.

(** [#{2,6}\s+\d+\.\s+.+$] at the start of a line: the length of the match.
    A sign, a space, a digit and a point exclude each other, so the runs
    before the title are maximal. *)
Definition match_heading (s : jsstr) : option nat :=
  let signs := run_length (N.eqb (cu "#")) s in
  let s1 := drop signs s in
  let gap := run_length is_space s1 in
  let s2 := drop gap s1 in
  let digits := run_length is_digit s2 in
  let s3 := drop digits s2 in
  if (2 <=? signs) && (signs <=? 6) && (1 <=? gap) && (1 <=? digits)
  then match s3 with
       | c :: s4 =>
           if (c =? cu ".")%N
           then n ← match_title (run_length is_space s4) s4; Some (signs + gap + digits + 1 + n)
           else None
       | [] => None
       end
  else None.

(** The matches of the pattern, from left to right and without overlaps;
    [skip] units belong to the last match. *)
Fixpoint section_scan (at_line_start : bool) (skip index : nat) (s : jsstr) : list (jsstr * nat) :=
  match s with
  | [] => []
  | c :: rest =>
      match skip with
      | S skip => section_scan (line_terminator c) skip (S index) rest
      | 0 =>
          match (if at_line_start then match_heading s else None) with
          | Some n => (take n s, index) :: section_scan (line_terminator c) (n - 1) (S index) rest
          | None => section_scan (line_terminator c) 0 (S index) rest
          end
      end
  end.

Definition getSectionOccurrences (text : jsstr) : list (jsstr * nat) := section_scan true 0 0 text.

Definition getHeadingCounts (occurrences : list (jsstr * nat)) : gmap jsstr nat :=
  fold_left (λ counts o, <[o.1 := S (default 0 (counts !! o.1))]> counts) occurrences ∅.

(** The loop from the last occurrence backwards. *)
Fixpoint last_repeated (backwards : list (jsstr * nat)) (counts : gmap jsstr nat)
    (seenHeadings : gset jsstr) : list nat :=
  match backwards with
  | [] => []
  | (heading, index) :: backwards =>
      if (default 0 (counts !! heading) <? MIN_REPEATED_SECTION_COUNT)
         || bool_decide (heading ∈ seenHeadings)
      then last_repeated backwards counts seenHeadings
      else index :: last_repeated backwards counts ({[heading]} ∪ seenHeadings)
  end.

(** [None] is -1 *)
Definition findLastRepeatedSectionRunStart (text : jsstr) : option nat :=
  let occurrences := getSectionOccurrences text in
  match last_repeated (reverse occurrences) (getHeadingCounts occurrences) ∅ with
  | [] => None
  | i :: more => Some (fold_left Nat.min more i)
  end.

Definition collapseRepeatedSectionSnapshots (text : jsstr) : jsstr :=
  if (N.of_nat (length text) <? MIN_PREFIX_COLLAPSE_LENGTH)%N then text
  else match findLastRepeatedSectionRunStart text with
       | None => text
       | Some start => drop start text
       end.

(** ** Loading *)

Definition load_version (v : MessageVersion) : MessageVersion :=
  {| version_id := version_id v;
     content := truncateText (collapseRepeatedSectionSnapshots (content v)) MAX_LOADED_MESSAGE_CHARS |}.

Definition load_reasoning (r : Reasoning) : Reasoning :=
  set_reasoning_content (truncateText (reasoning_content r) MAX_LOADED_MESSAGE_CHARS) r.

(** [now] is read when no other time is known.  The object that is returned
    unchanged and the copy with equal fields are the same value here. *)
Definition normalizeStoredMessageForLoad (m : Message) (now : num) : Message :=
  let normalized := with_reasoning (load_reasoning <$> reasoning m)
                      (with_versions (load_version <$> versions m) m) in
  if negb (isAssistantMessagePending normalized) then normalized
  else if negb (hasMessageContent normalized)
          && negb (nonblank (from_option reasoning_content [] (reasoning normalized)))
  then normalized
  else
    let completed :=
      default now (or_else (completedAt normalized)
                  (or_else (reasoning normalized ≫= r_completedAt)
                  (or_else (startedAt normalized) (createdAt normalized)))) in
    completeAssistantTiming
      (with_reasoning_streaming false (with_status COMPLETE (finalizeMessage normalized None now)))
      completed.

(** What happens to the parsed messages. *)
Definition loaded (messages : list Message) (notice : jsstr) (now : num) : list Message :=
  sanitizeMessagesOnLoad
    (trimMessagesByContentSize (trimMessages ((λ m, normalizeStoredMessageForLoad m now) <$> messages)))
    notice now.

(** ** The storage of the browser *)

(** The items; the storage may be inaccessible as a whole, and a write may be
    refused. *)
Record storage : Type := { items : gmap jsstr jsstr; accessible : bool; writable : bool }.

Definition CONFIG : jsstr := js "playground_config".
Definition MESSAGES : jsstr := js "playground_messages".
Definition PARAMETER_ENABLED : jsstr := js "playground_parameter_enabled".

(** [localStorage.setItem] and [removeItem]; [Err]: an exception *)
Definition setItem (k text : jsstr) (st : storage) : result () storage :=
  if accessible st && writable st
  then Ok {| items := <[k := text]> (items st); accessible := true; writable := true |}
  else Err ().
Definition removeItem (k : jsstr) (st : storage) : result () storage :=
  if accessible st
  then Ok {| items := delete k (items st); accessible := true; writable := writable st |}
  else Err ().
Definition getItem (k : jsstr) (st : storage) : result () (option jsstr) :=
  if accessible st then Ok (items st !! k) else Err ().

(** [JSON.parse]; [Err]: the text is no JSON. *)
Definition parse_saved (saved : jsstr) : result () (option jsval) :=
  match json_parse saved with Some v => Ok (Some v) | None => Err () end.

(** [None] is [null]. *)
Definition readStoredValue (k : jsstr) (st : storage) : result () (option jsval) :=
  saved ← getItem k st;
  match saved with
  | None | Some [] => Ok None
  | Some saved => parse_saved saved
  end.

(** A text that is too long is removed. *)
Definition readStoredMessagesValue (st : storage) : result () (option jsval) * storage :=
  match getItem MESSAGES st with
  | Err e => (Err e, st)
  | Ok None | Ok (Some []) => (Ok None, st)
  | Ok (Some saved) =>
      if (MAX_STORED_MESSAGES_BYTES <? N.of_nat (length saved))%N
      then match removeItem MESSAGES st with
           | Ok st => (Ok None, st)
           | Err e => (Err e, st)
           end
      else (parse_saved saved, st)
  end.

(** The envelope [{ version, data }] is unwrapped. *)
Definition unwrapStoredValue (v : jsval) : jsval :=
  match v with
  | JObj fields =>
      match own fields (js "version"), own fields (js "data") with
      | Some _, Some data => data
      | _, _ => v
      end
  | _ => v
  end.

Definition envelope (data : jsval) : jsval :=
  JObj [(js "version", JNum STORAGE_VERSION); (js "data", data)].
Definition writeStoredValue (k : jsstr) (data : jsval) (st : storage) : result () storage :=
  setItem k (json_compact (envelope data)) st.

(** [!saved] *)
Definition falsy_value (v : jsval) : bool :=
  match v with
  | JUndefined | JNull | JBool false | JNum (S754_zero _) | JNum S754_nan | JStr [] => true
  | _ => false
  end.

(** [catch (error) { console.error(...) }] *)
Definition caught {A} (a : A) (r : result () A) : A := match r with Ok x => x | Err _ => a end.

Section Storage.
Context `{Zod}.

(** ** Settings *)

(** [schema.parse(value)] *)
Definition parsed (s : schema) (v : jsval) : result () jsval :=
  match zparse s v with Some w => Ok w | None => Err () end.

(** The common body of [loadConfig] and [loadParameterEnabled]. *)
Definition load_settings (k : jsstr) (s : schema) (st : storage) : jsval :=
  caught (JObj [])
    (saved ← readStoredValue k st;
     match saved with
     | None => Ok (JObj [])
     | Some v => if falsy_value v then Ok (JObj []) else parsed s (unwrapStoredValue v)
     end).
Definition loadConfig (st : storage) : jsval := load_settings CONFIG playgroundConfigSchema st.
Definition loadParameterEnabled (st : storage) : jsval :=
  load_settings PARAMETER_ENABLED parameterEnabledSchema st.

Definition save_settings (k : jsstr) (s : schema) (v : jsval) (st : storage) : storage :=
  caught st (data ← parsed s v; writeStoredValue k data st).
Definition saveConfig (config : jsval) (st : storage) : storage :=
  save_settings CONFIG playgroundConfigSchema config st.
Definition saveParameterEnabled (parameterEnabled : jsval) (st : storage) : storage :=
  save_settings PARAMETER_ENABLED parameterEnabledSchema parameterEnabled st.

(** ** Conversations *)

Definition saveMessages (messages : list Message) (st : storage) : storage :=
  caught st (data ← parsed messagesSchema (messages_value (trimMessages messages));
             writeStoredValue MESSAGES data st).

(** [trimMessagesByContentSize] returns a new array, so the comparison with
    the old one always finds a change and the result is always saved. *)
Definition loadMessages (notice : jsstr) (now : num) (st : storage) : option (list Message) * storage :=
  match readStoredMessagesValue st with
  | (Ok (Some saved), st) =>
      if falsy_value saved then (None, st)
      else match zparse messagesSchema (unwrapStoredValue saved) ≫= messages_of with
           | None => (None, st)
           | Some messages =>
               let sanitized := loaded messages notice now in
               (Some sanitized, saveMessages sanitized st)
           end
  | (_, st) => (None, st)
  end.

(** An inaccessible storage fails at the first step. *)
Definition clearPlaygroundData (st : storage) : storage :=
  caught st (st ← removeItem CONFIG st; st ← removeItem PARAMETER_ENABLED st; removeItem MESSAGES st).

(** ** Initial state *)

(** The value of the settings, all fields present. *)
Definition config_fields (c : PlaygroundConfig) : list (jsstr * jsval) :=
  [ (js "model", JStr (cfg_model c)); (js "group", JStr (cfg_group c));
    (js "temperature", JNum (cfg_temperature c)); (js "top_p", JNum (cfg_top_p c));
    (js "max_tokens", JNum (cfg_max_tokens c)); (js "frequency_penalty", JNum (cfg_frequency_penalty c));
    (js "presence_penalty", JNum (cfg_presence_penalty c)); (js "seed", nullable JNum (cfg_seed c));
    (js "stream", JBool (cfg_stream c)) ].
Definition config_value (c : PlaygroundConfig) : jsval := JObj (config_fields c).
Definition enabled_value (e : ParameterEnabled) : jsval :=
  JObj [ (js "temperature", JBool (en_temperature e)); (js "top_p", JBool (en_top_p e));
         (js "max_tokens", JBool (en_max_tokens e)); (js "frequency_penalty", JBool (en_frequency_penalty e));
         (js "presence_penalty", JBool (en_presence_penalty e)); (js "seed", JBool (en_seed e)) ].

Definition fields_of (v : jsval) : list (jsstr * jsval) := match v with JObj f => f | _ => [] end.

(** [{ ...config, ...value }] for a value that passed the schema *)
Definition config_with (c : PlaygroundConfig) (v : jsval) : PlaygroundConfig :=
  let f := fields_of v in
  {| cfg_model := default (cfg_model c) (as_text (field f (js "model")));
     cfg_group := default (cfg_group c) (as_text (field f (js "group")));
     cfg_temperature := default (cfg_temperature c) (as_num (field f (js "temperature")));
     cfg_top_p := default (cfg_top_p c) (as_num (field f (js "top_p")));
     cfg_max_tokens := default (cfg_max_tokens c) (as_num (field f (js "max_tokens")));
     cfg_frequency_penalty := default (cfg_frequency_penalty c) (as_num (field f (js "frequency_penalty")));
     cfg_presence_penalty := default (cfg_presence_penalty c) (as_num (field f (js "presence_penalty")));
     cfg_seed := match field f (js "seed") with JNum x => Some x | JNull => None | _ => cfg_seed c end;
     cfg_stream := default (cfg_stream c) (as_bool (field f (js "stream"))) |}.
Definition enabled_with (e : ParameterEnabled) (v : jsval) : ParameterEnabled :=
  let f := fields_of v in
  {| en_temperature := default (en_temperature e) (as_bool (field f (js "temperature")));
     en_top_p := default (en_top_p e) (as_bool (field f (js "top_p")));
     en_max_tokens := default (en_max_tokens e) (as_bool (field f (js "max_tokens")));
     en_frequency_penalty := default (en_frequency_penalty e) (as_bool (field f (js "frequency_penalty")));
     en_presence_penalty := default (en_presence_penalty e) (as_bool (field f (js "presence_penalty")));
     en_seed := default (en_seed e) (as_bool (field f (js "seed"))) |}.

Definition DEFAULT_CONFIG : PlaygroundConfig :=
  {| cfg_model := js "gpt-4o"; cfg_group := js "default"; cfg_temperature := num_of_decimal 7 (-1);
     cfg_top_p := nZ 1; cfg_max_tokens := nZ 4096; cfg_frequency_penalty := nZ 0;
     cfg_presence_penalty := nZ 0; cfg_seed := None; cfg_stream := true |}.
Definition DEFAULT_PARAMETER_ENABLED : ParameterEnabled :=
  {| en_temperature := true; en_top_p := true; en_max_tokens := false;
     en_frequency_penalty := true; en_presence_penalty := true; en_seed := false |}.

Definition getInitialPlaygroundConfig (st : storage) : PlaygroundConfig :=
  config_with DEFAULT_CONFIG (loadConfig st).
Definition getInitialParameterEnabled (st : storage) : ParameterEnabled :=
  enabled_with DEFAULT_PARAMETER_ENABLED (loadParameterEnabled st).
Definition getInitialMessages (notice : jsstr) (now : num) (st : storage) : list Message * storage :=
  let '(ms, st) := loadMessages notice now st in (default [] ms, st).
End Storage.
