(* ===== verification/PlaygroundStorageTheorems.v ===== *)
(** * What is stored by the playground is loaded again

    Bounds on the loaded messages and their texts, round trips of
    conversations, settings and parameter switches through the storage of the
    browser, and what a second load does. *)
From stdpp Require Import base list option numbers sets gmap.
From Stdlib Require Import ZArith SpecFloat Lia.
From S2P Require Import Prelude.
From S2P Require Import JsString.
From S2P Require Import JsNumber.
From S2P Require Import Runtime.
From S2P Require Import Structure.
From S2P Require Import Json.
From S2P Require Import JsText.
From S2P Require Import JsonPrint.
From S2P Require Import Playground.
From S2P Require Import PlaygroundTheorems.
From S2P Require Import PlaygroundSchema.
From S2P Require Import PlaygroundStorage.

(** ** What is loaded of a stored conversation

    Bounds on the loaded messages and their texts. *)

(** ** Lengths *)

Lemma find_sub_bound p s n : find_sub p s = Some n → n + length p ≤ length s.
Proof.
  revert n. induction s as [|c s IH]; intros n.
  - cbn. destruct (starts_with p []) eqn:S; [|done]. intros [= <-].
    apply starts_with_app in S as (r & E). apply (f_equal length) in E. rewrite length_app in E. cbn in *. lia.
  - cbn [find_sub]. destruct (starts_with p (c :: s)) eqn:S.
    + intros [= <-]. apply starts_with_app in S as (r & ->). rewrite length_app. lia.
    + destruct (find_sub p s) as [k|]; [|done]. intros [= <-]. specialize (IH k eq_refl). cbn [length]. lia.
Qed.

Lemma join_length sep x (l : list jsstr) :
  length (join sep (x :: l)) = length x + match l with [] => 0 | _ => length sep + length (join sep l) end.
Proof. destruct l; cbn [join]; rewrite ?length_app; lia. Qed.

Lemma think_loop_length fuel rest v r u :
  think_loop fuel rest = (v, r, u) →
  length (concat v) ≤ length rest ∧ (r ≠ [] → length (join [10; 10]%N r) + 2 ≤ length rest).
Proof.
  revert rest v r u. induction fuel as [|fuel IH]; intros rest v r u; [intros [= <- <- <-]; cbn; split; [lia|done]|].
  cbn [think_loop]. destruct (find_sub OPEN rest) as [o|] eqn:F.
  2: { intros [= <- <- <-]. split; [|done]. destruct rest; cbn; rewrite ?app_nil_r; cbn; lia. }
  apply find_sub_bound in F. change (length OPEN) with 7 in F.
  assert (length (concat (match o with 0 => [] | S _ => [take o rest] end)) = o) as VO.
  { destruct o; [done|]. cbn [concat]. rewrite app_nil_r, length_take. lia. }
  assert (length (drop (o + 7) rest) = length rest - (o + 7)) as LB by apply length_drop.
  destruct (find_sub CLOSE (drop (o + 7) rest)) as [c|] eqn:G.
  - apply find_sub_bound in G. change (length CLOSE) with 8 in G.
    destruct (think_loop fuel _) as [[v' r'] u'] eqn:E. intros [= <- <- <-]. apply IH in E as [E1 E2].
    rewrite length_drop in E1, E2. split.
    + rewrite concat_app, length_app, VO. lia.
    + intros _. rewrite join_length, length_take. destruct r' as [|x r']; [lia|].
      specialize (E2 ltac:(done)). change (length [10; 10]%N) with 2. lia.
  - intros [= <- <- <-]. split; [lia|]. intros _. rewrite join_length. lia.
Qed.

Lemma parse_think_length c :
  length (visibleContent (parseThinkTags c)) ≤ length c ∧ length (tag_reasoning (parseThinkTags c)) ≤ length c.
Proof.
  unfold parseThinkTags. destruct (includes OPEN c); cbn [negb]; [|cbn; lia].
  destruct (think_loop _ _) as [[v r] u] eqn:E. apply think_loop_length in E as [E1 E2]. cbn [visibleContent tag_reasoning].
  pose proof (trim_length (concat v)). pose proof (trim_length (join [10; 10]%N r)). split; [lia|].
  destruct r as [|x r]; [cbn in *; lia|]. specialize (E2 ltac:(done)). lia.
Qed.

(** ** Bounded messages *)

Definition short (s : jsstr) : Prop := (N.of_nat (length s) <= MAX_LOADED_MESSAGE_CHARS)%N.

Record bounded (m : Message) : Prop := {
  bounded_versions : Forall (λ v, short (content v)) (versions m);
  bounded_reasoning : match reasoning m with Some r => short (reasoning_content r) | None => True end;
}.

Lemma truncate_short text : short (truncateText text MAX_LOADED_MESSAGE_CHARS).
Proof.
  unfold short, truncateText. destruct (N.leb_spec (N.of_nat (length text)) MAX_LOADED_MESSAGE_CHARS) as [L|L]; [done|].
  change (MAX_LOADED_MESSAGE_CHARS <=? N.of_nat (length TRUNCATED_CONTENT_SUFFIX))%N with false. cbv iota.
  rewrite length_app, length_take. change (length TRUNCATED_CONTENT_SUFFIX) with 7.
  generalize (length text). unfold MAX_LOADED_MESSAGE_CHARS. intros n. lia.
Qed.

Lemma shorter a b : length a ≤ length b → short b → short a.
Proof. unfold short. lia. Qed.

Lemma current_short m : bounded m → short (content (getCurrentVersion m)).
Proof.
  intros B. unfold getCurrentVersion. pose proof (bounded_versions m B) as V.
  destruct (versions m) as [|v vs]; [cbn; unfold short; cbn; lia|]. by apply Forall_cons in V as [V _].
Qed.

Lemma bounded_reasoning_text m : bounded m → short (from_option reasoning_content [] (reasoning m)).
Proof.
  intros B. pose proof (bounded_reasoning m B). destruct (reasoning m); [done|]. unfold short. cbn. lia.
Qed.

Lemma start_content m t : reasoning_content (startReasoningTiming m t) = from_option reasoning_content [] (reasoning m).
Proof. unfold startReasoningTiming. by destruct (reasoning m). Qed.

Lemma bounded_completeReasoning m t : bounded m → bounded (completeReasoningTiming m t).
Proof.
  intros B. unfold completeReasoningTiming. pose proof (bounded_reasoning m B) as R.
  destruct (reasoning m) as [[c d s e [x|]]|] eqn:E; [done| |done].
  split; [apply B|exact R].
Qed.

Lemma bounded_completeAssistant m t : bounded m → bounded (completeAssistantTiming m t).
Proof. intros B. unfold completeAssistantTiming. destruct (from m); [done| |done]. split; apply B. Qed.

Lemma bounded_finalize m t : bounded m → bounded (finalizeMessage m None t).
Proof.
  intros B. unfold finalizeMessage. pose proof (current_short m B) as C. pose proof (bounded_reasoning_text m B) as R.
  set (c := content (getCurrentVersion m)) in *. destruct (parse_think_length c) as [P1 P2].
  assert (∀ vis pr, short vis → short pr →
    bounded (completeReasoningTiming (with_reasoning_streaming false (with_reasoning
      (match str_or (default [] None) (str_or (from_option reasoning_content [] (reasoning m)) pr) with
       | [] => None
       | _ => Some (set_reasoning_content
                (str_or (default [] None) (str_or (from_option reasoning_content [] (reasoning m)) pr))
                (startReasoningTiming m t))
       end) (updateCurrentVersionContent m vis))) t)) as K.
  { intros vis pr SV SP. apply bounded_completeReasoning. split; [by repeat constructor|]. cbn [default str_or].
    assert (short (str_or (from_option reasoning_content [] (reasoning m)) pr)) as S
      by (unfold str_or at 1; by destruct (from_option reasoning_content [] (reasoning m))).
    cbn [with_reasoning_streaming with_reasoning reasoning].
    destruct (str_or (from_option reasoning_content [] (reasoning m)) pr); [done|exact S]. }
  assert (short []) as S0 by (unfold short; cbn; lia).
  destruct (includes OPEN c); apply K; eauto using shorter.
Qed.

Lemma bounded_normalize m now : bounded (normalizeStoredMessageForLoad m now).
Proof.
  unfold normalizeStoredMessageForLoad.
  set (n := with_reasoning _ _). assert (bounded n) as B.
  { split.
    - cbn. apply Forall_fmap, Forall_true. intros v. apply truncate_short.
    - cbn. destruct (reasoning m); [apply truncate_short|done]. }
  destruct (negb (isAssistantMessagePending n)); [done|]. destruct (_ && _); [done|].
  apply bounded_completeAssistant. split; cbn; by apply bounded_finalize.
Qed.

(** A message that is bounded, or shows the notice of an interruption. *)
Definition presentable (notice : jsstr) (m : Message) : Prop :=
  bounded m ∨ (getMessageContent m = notice ∧ status m = Some ERROR).

Lemma sanitized_presentable m notice now : bounded m → presentable notice (sanitized_message m notice now).
Proof.
  intros B. unfold sanitized_message. case_match.
  - left. apply bounded_completeAssistant. split; cbn; by apply bounded_finalize.
  - right. unfold completeAssistantTiming. cbn [with_reasoning_streaming with_status updateCurrentVersionContent with_versions from].
    by destruct (from (finalizeMessage m None now)).
Qed.

(** The size limit keeps a suffix. *)
Lemma trim_loop_suffix b total res : ∃ n, trim_loop b total res = res ++ take n b.
Proof.
  revert total res. induction b as [|m b IH]; intros total res; [exists 0; cbn; by rewrite app_nil_r|].
  cbn [trim_loop].
  assert (∃ n, trim_loop b (total + getMessageSize m) (res ++ [m]) = res ++ take n (m :: b)) as K.
  { destruct (IH (total + getMessageSize m)%N (res ++ [m])) as [n ->]. exists (S n). by rewrite <- app_assoc. }
  destruct res; [done|]. case_match; [|done]. exists 0. cbn. by rewrite app_nil_r.
Qed.

Lemma trimmed_suffix ms : ∃ k, trimMessagesByContentSize ms = drop k ms.
Proof.
  unfold trimMessagesByContentSize. destruct (trim_loop_suffix (reverse ms) 0 []) as [n ->]. cbn [app].
  exists (length ms - n). by rewrite take_reverse, reverse_involutive.
Qed.

(** Loading gives at most 100 messages, none with a text of more than 40,000
    code units, apart from the notice of an interrupted answer. *)
Theorem loaded_texts_are_bounded messages notice now :
  let ms := loaded messages notice now in
  length ms ≤ 100 ∧ Forall (presentable notice) ms.
Proof.
  unfold loaded. set (kept := trimMessagesByContentSize _).
  assert (length kept ≤ 100 ∧ Forall bounded kept) as [L B].
  { unfold kept. destruct (trimmed_suffix (trimMessages
      ((λ m, normalizeStoredMessageForLoad m now) <$> messages))) as [k ->].
    unfold trimMessages, MAX_STORED_MESSAGES. rewrite !length_drop. split; [lia|].
    apply Forall_drop, Forall_drop, Forall_fmap, Forall_true. intros m. apply bounded_normalize. }
  unfold sanitizeMessagesOnLoad. cbn zeta. case_match; [|split; [done|]; by eapply Forall_impl; [exact B|left]].
  case_match; [|split; [done|]; by eapply Forall_impl; [exact B|left]].
  rewrite length_insert. split; [done|]. apply Forall_insert; [by eapply Forall_impl; [exact B|left]|].
  apply sanitized_presentable. rewrite Forall_forall in B. apply B. by eapply list_elem_of_lookup_2.
Qed.

(** ** What is stored by the playground is loaded again

    Round trips of conversations, settings and parameter switches through the
    storage of the browser, and what a second load does. *)

(** ** The envelope *)

Definition usable (st : storage) : Prop := accessible st = true ∧ writable st = true.

Lemma envelope_printable v : printable v → printable (envelope v).
Proof.
  intros P. constructor.
  - apply (bool_decide_unpack _). vm_compute. exact I.
  - repeat constructor; apply units_okb_sound; vm_compute; reflexivity.
  - apply Forall_cons. split; [left; apply printableb_sound; vm_compute; reflexivity|].
    apply Forall_singleton. by left.
Qed.

Lemma envelope_reads s v :
  printable v → canonical s v = true → json_parse (json_compact (envelope v)) = Some (envelope v).
Proof.
  intros P C. rewrite json_parse_compact by (by apply envelope_printable). f_equal.
  apply without_undefined_fields. apply Forall_cons. split; [done|].
  apply Forall_singleton, (without_undefined_canonical s v C).
Qed.

Lemma compact_nonempty v : ∃ c r, json_compact (envelope v) = c :: r.
Proof. unfold json_compact, envelope. rewrite json_text_object. destruct (map _ _); eauto. Qed.

(** What was written is read. *)
Lemma read_written k s v st st' :
  printable v → canonical s v = true → writeStoredValue k v st = Ok st' →
  readStoredValue k st' = Ok (Some (envelope v)).
Proof.
  intros P C. unfold writeStoredValue, setItem. destruct (accessible st && writable st); [|done]. intros [= <-].
  unfold readStoredValue, getItem. cbn [accessible items mbind result_bind]. rewrite lookup_insert_eq.
  destruct (compact_nonempty v) as (c & r & E). rewrite E. rewrite <- E. unfold parse_saved.
  by rewrite (envelope_reads s).
Qed.

Lemma writes_when_usable k v st : usable st → ∃ st', writeStoredValue k v st = Ok st'.
Proof. intros [A W]. unfold writeStoredValue, setItem. rewrite A, W. eauto. Qed.

(** ** Conversations that loading leaves alone *)

(** How often a text has a numbered heading. *)
Definition heading_count (text heading : jsstr) : nat :=
  length (List.filter (λ o, bool_decide (o.1 = heading)) (getSectionOccurrences text)).

(** A text of fewer than 2,000 code units, or one in which no numbered heading
    stands three times: loading takes other texts for snapshots of a growing
    answer and cuts them. *)
Definition no_snapshots (text : jsstr) : Prop :=
  length text < 2000 ∨ ∀ heading, heading_count text heading < 3.

Lemma heading_counts_from l h : ∀ counts : gmap jsstr nat,
  default 0 (fold_left (λ counts o, <[o.1 := S (default 0 (counts !! o.1))]> counts) l counts !! h) =
  default 0 (counts !! h) + length (List.filter (λ o : jsstr * nat, bool_decide (o.1 = h)) l).
Proof.
  induction l as [|o l IH]; intros counts; cbn [fold_left List.filter]; [cbn; lia|]. rewrite IH.
  destruct (decide (o.1 = h)) as [<-|N].
  - rewrite lookup_insert_eq, bool_decide_true by done. cbn. lia.
  - by rewrite lookup_insert_ne, bool_decide_false.
Qed.

Lemma nothing_repeated counts l : ∀ seen,
  (∀ h, default 0 (counts !! h) < 3) → last_repeated l counts seen = [].
Proof.
  induction l as [|[h i] l IH]; intros seen F; cbn [last_repeated]; [done|].
  rewrite (proj2 (Nat.ltb_lt _ MIN_REPEATED_SECTION_COUNT) (F h)). by apply IH.
Qed.

Lemma no_snapshots_kept text : no_snapshots text → collapseRepeatedSectionSnapshots text = text.
Proof.
  unfold collapseRepeatedSectionSnapshots. intros [L|F].
  - rewrite (proj2 (N.ltb_lt _ _)); [done|]. unfold MIN_PREFIX_COLLAPSE_LENGTH. lia.
  - unfold findLastRepeatedSectionRunStart. rewrite nothing_repeated; [by case_match|].
    intros h. unfold getHeadingCounts. rewrite heading_counts_from, lookup_empty. apply F.
Qed.

Record settled (m : Message) : Prop := {
  settled_versions : Forall (λ v, short (content v) ∧ no_snapshots (content v)) (versions m);
  settled_reasoning : match reasoning m with Some r => short (reasoning_content r) | None => True end;
  settled_status : isAssistantMessagePending m = false;
}.

Lemma truncate_id text : short text → truncateText text MAX_LOADED_MESSAGE_CHARS = text.
Proof. unfold short, truncateText. intros S. by rewrite (proj2 (N.leb_le _ _) S). Qed.

Lemma normalize_settled m now : settled m → normalizeStoredMessageForLoad m now = m.
Proof.
  intros [V R P]. unfold normalizeStoredMessageForLoad.
  assert (load_version <$> versions m = versions m) as ->.
  { rewrite <- (list_fmap_id (versions m)) at 2. apply list_fmap_ext. intros i v I.
    rewrite Forall_lookup in V. destruct (V i v I) as [S C%no_snapshots_kept]. unfold load_version. rewrite C, truncate_id by done. by destruct v. }
  assert (load_reasoning <$> reasoning m = reasoning m) as ->.
  { destruct (reasoning m) as [r|]; [|done]. cbn. unfold load_reasoning. rewrite truncate_id by done. by destruct r. }
  assert (with_reasoning (reasoning m) (with_versions (versions m) m) = m) as -> by (by destruct m).
  by rewrite P.
Qed.

Lemma trim_loop_fits b res :
  (total_size (res ++ b) <= MAX_LOADED_MESSAGES_CHARS)%N → trim_loop b (total_size res) res = res ++ b.
Proof.
  revert res. induction b as [|m b IH]; intros res T; [by rewrite app_nil_r|]. cbn [trim_loop].
  assert (trim_loop b (total_size res + getMessageSize m)%N (res ++ [m]) = res ++ m :: b) as K.
  { rewrite <- total_size_one, <- total_size_app, IH; by rewrite <- app_assoc. }
  rewrite total_size_app in T. cbn [total_size foldr] in T. destruct res; [done|].
  rewrite (proj2 (N.ltb_ge _ _)); [done|]. unfold total_size in *. lia.
Qed.

Lemma last_index_none {A} (p : A → bool) l : Forall (λ a, p a = false) l → last_index p l = None.
Proof. induction 1 as [|a l P _ IH]; [done|]. cbn. by rewrite IH, P. Qed.

Lemma loaded_settled ms notice now :
  Forall settled ms → length ms ≤ 100 → (total_size ms <= 120000)%N → loaded ms notice now = ms.
Proof.
  intros S L T. unfold loaded.
  assert ((λ m, normalizeStoredMessageForLoad m now) <$> ms = ms) as ->.
  { rewrite <- (list_fmap_id ms) at 2. apply list_fmap_ext. intros i m I. rewrite Forall_lookup in S.
    by apply normalize_settled, (S i). }
  unfold trimMessages, MAX_STORED_MESSAGES. replace (length ms - 100) with 0 by lia. rewrite drop_0.
  unfold trimMessagesByContentSize. change 0%N with (total_size []). rewrite trim_loop_fits.
  2: { cbn [app]. rewrite total_size_reverse. exact T. }
  cbn [app]. rewrite reverse_involutive. unfold sanitizeMessagesOnLoad. rewrite last_index_none; [done|].
  eapply Forall_impl; [exact S|]. intros m SM. unfold isPendingAssistantMessage. rewrite (settled_status _ SM).
  apply andb_false_r.
Qed.

(** The text of a stored conversation. *)
Definition stored_text (ms : list Message) : jsstr := json_compact (envelope (messages_value ms)).

Section RoundTrip.
Context `{Z : Zod} {L : ZodLaws Z}.

Lemma settings_round_trip k s v st :
  printable v → canonical s v = true → usable st → load_settings k s (save_settings k s v st) = v.
Proof using L.
  intros P C U. unfold save_settings, parsed. rewrite zod_accepts by done.
  destruct (writes_when_usable k v st U) as (st' & W). cbn [mbind result_bind]. rewrite W. cbn [caught].
  unfold load_settings. rewrite (read_written k s v st st' P C W). cbn [mbind result_bind].
  change (falsy_value (envelope v)) with false. change (unwrapStoredValue (envelope v)) with v. cbv iota.
  unfold parsed. by rewrite zod_accepts.
Qed.

Lemma config_canonical c : printable (config_value c) → canonical playgroundConfigSchema (config_value c) = true.
Proof.
  intros P. inversion_clear P as [| | | | |? _ _ F].
  assert (∀ k x, (k, JNum x) ∈ config_fields c → is_finite x = true) as N.
  { intros k x I. rewrite Forall_forall in F. destruct (F _ I) as [N|]; [|done].
    inversion_clear N as [| |? R| | |]. unfold number_reads in R. by apply andb_true_iff in R as [-> _]. }
  cbn. rewrite !(N (js "temperature")), !(N (js "top_p")), !(N (js "max_tokens")),
    !(N (js "frequency_penalty")), !(N (js "presence_penalty"))
    by (unfold config_fields; repeat (first [left|right])).
  destruct (cfg_seed c) as [x|] eqn:E; [|done]. cbn. rewrite (N (js "seed") x); [done|].
  unfold config_fields. rewrite E. cbn [nullable from_option].
  repeat (first [left|right]).
Qed.

Lemma messages_printable ms : Forall storable ms → printable (messages_value ms).
Proof. intros S. constructor. apply Forall_fmap. eapply Forall_impl; [exact S|]. by intros m []. Qed.

Lemma save_storable ms st :
  Forall storable ms → length ms ≤ 100 → usable st →
  saveMessages ms st = {| items := <[MESSAGES := stored_text ms]> (items st); accessible := true; writable := true |}.
Proof using L.
  intros S N [A W]. unfold saveMessages, parsed, trimMessages, MAX_STORED_MESSAGES.
  replace (length ms - 100) with 0 by lia. rewrite drop_0, zod_accepts by (by apply messages_canonical).
  cbn [mbind result_bind]. unfold writeStoredValue, setItem. by rewrite A, W.
Qed.

(** What was saved is what the load starts from. *)
Lemma load_saved ms notice now st :
  Forall storable ms → length ms ≤ 100 → usable st →
  (N.of_nat (length (stored_text ms)) <= MAX_STORED_MESSAGES_BYTES)%N →
  let st' := saveMessages ms st in
  loadMessages notice now st' = (Some (loaded ms notice now), saveMessages (loaded ms notice now) st').
Proof using L.
  intros S N U B st'. assert (st' = saveMessages ms st) as E by done. clearbody st'.
  rewrite (save_storable ms st S N U) in E.
  assert (readStoredMessagesValue st' = (Ok (Some (envelope (messages_value ms))), st')) as R.
  { rewrite E. unfold readStoredMessagesValue, getItem. cbn [accessible items]. rewrite lookup_insert_eq.
    assert (parse_saved (stored_text ms) = Ok (Some (envelope (messages_value ms)))) as P.
    { unfold stored_text, parse_saved.
      by rewrite (envelope_reads messagesSchema) by (by apply messages_printable || apply messages_canonical). }
    destruct (compact_nonempty (messages_value ms)) as (c & r & C). fold (stored_text ms) in C.
    destruct (stored_text ms) as [|x t] eqn:X; [done|]. by rewrite (proj2 (N.ltb_ge _ _) B), P. }
  unfold loadMessages. rewrite R. change (falsy_value (envelope _)) with false.
  change (unwrapStoredValue (envelope ?v)) with v. cbv iota.
  rewrite zod_accepts by (by apply messages_canonical). cbn [mbind option_bind]. by rewrite messages_read.
Qed.

Lemma save_then_load ms notice now st :
  Forall storable ms → Forall settled ms → length ms ≤ 100 → (total_size ms <= 120000)%N →
  (N.of_nat (length (stored_text ms)) <= MAX_STORED_MESSAGES_BYTES)%N → usable st →
  let st' := saveMessages ms st in loadMessages notice now st' = (Some ms, st').
Proof using L.
  intros S T N K B U st'. unfold st'. rewrite (load_saved ms notice now st S N U B), loaded_settled by done. f_equal.
  rewrite (save_storable ms st), save_storable by done. cbn [items]. by rewrite insert_insert_eq.
Qed.

(** C25: a conversation survives storage.  With a storage that can be used, a
    conversation of at most 100 messages and 120,000 code units, stored in at
    most [MAX_STORED_MESSAGES_BYTES], is loaded exactly as it was saved, and
    loading does not change what is stored, when every value in it can be
    written as JSON, no answer is pending, no text has more than 40,000 code
    units, and none of 2,000 or more has a numbered heading three times. *)
Theorem conversation_survives_storage ms notice now st :
  Forall storable ms → Forall settled ms → length ms ≤ 100 → (total_size ms <= 120000)%N →
  (N.of_nat (length (stored_text ms)) <= MAX_STORED_MESSAGES_BYTES)%N → usable st →
  let st' := saveMessages ms st in loadMessages notice now st' = (Some ms, st').
Proof using L. apply save_then_load. Qed.

(** Saving under one key. *)
Lemma save_settings_cases k s v st :
  save_settings k s v st = st ∨
  ∃ t, usable st ∧ save_settings k s v st = {| items := <[k := t]> (items st); accessible := true; writable := true |}.
Proof.
  unfold save_settings. destruct (parsed s v) as [data|]; [|by left]. cbn [mbind result_bind].
  unfold writeStoredValue, setItem. destruct (accessible st) eqn:A, (writable st) eqn:W; cbn; try by left.
  right. exists (json_compact (envelope data)). by split.
Qed.

Lemma save_settings_usable k s v st : usable st → usable (save_settings k s v st).
Proof. intros U. by destruct (save_settings_cases k s v st) as [->|(t & _ & ->)]. Qed.

Lemma load_settings_other k s k' s' v st :
  k ≠ k' → load_settings k s (save_settings k' s' v st) = load_settings k s st.
Proof.
  intros N. destruct (save_settings_cases k' s' v st) as [->|(t & [A _] & ->)]; [done|].
  unfold load_settings, readStoredValue, getItem. cbn [accessible items]. by rewrite A, lookup_insert_ne.
Qed.

(** Settings survive storage.  The settings and the parameter switches
    found at the next start are those that were saved. *)
Theorem settings_survive_storage c e st :
  printable (config_value c) → usable st →
  let st' := saveParameterEnabled (enabled_value e) (saveConfig (config_value c) st) in
  getInitialPlaygroundConfig st' = c ∧ getInitialParameterEnabled st' = e.
Proof using L.
  intros P U. cbn zeta. split.
  - unfold getInitialPlaygroundConfig, loadConfig, saveParameterEnabled, saveConfig.
    rewrite load_settings_other, settings_round_trip; [|done|by apply config_canonical|done|done].
    by destruct c as [? ? ? ? ? ? ? [] ?].
  - unfold getInitialParameterEnabled, loadParameterEnabled, saveParameterEnabled.
    rewrite settings_round_trip; [by destruct e|..|by apply save_settings_usable].
    + apply printableb_sound. vm_compute. reflexivity.
    + vm_compute. reflexivity.
Qed.
End RoundTrip.

Definition sample_message : Message :=
  {| key := js "k1"; from := ASSISTANT; versions := [{| version_id := js "v1"; content := js "Hello <b>" |}];
     createdAt := Some (nZ 1700000000000); startedAt := Some (nZ 1700000000000);
     completedAt := Some (nZ 1700000001500); durationMs := Some (nZ 1500);
     sources := Some [(js "https://a.example", js "A")];
     reasoning := Some {| reasoning_content := js "thinking"; duration := nZ 1; r_startedAt := Some (nZ 1700000000000);
                          r_completedAt := None; r_durationMs := Some (num_of_decimal 125 (-1)) |};
     isReasoningStreaming := Some false; isReasoningComplete := None; isContentComplete := Some true;
     status := Some COMPLETE; errorCode := Some None |}.
Definition empty_storage : storage := {| items := ∅; accessible := true; writable := true |}.

Lemma sample_settled : settled sample_message.
Proof.
  split; [|vm_compute; discriminate|reflexivity].
  apply Forall_singleton. split; [vm_compute; discriminate|]. left. change (length _) with 9. lia.
Qed.

Lemma conversation_survives_storage_witness :
  let st' := @saveMessages strict_zod [sample_message] empty_storage in
  @loadMessages strict_zod (js "interrupted") (nZ 5) st' = (Some [sample_message], st').
Proof.
  apply (@conversation_survives_storage strict_zod strict_zod_laws).
  - apply Forall_singleton, storableb_sound. vm_compute. reflexivity.
  - apply Forall_singleton, sample_settled.
  - cbn. lia.
  - vm_compute. discriminate.
  - vm_compute. discriminate.
  - split; reflexivity.
Defined.

Lemma settings_survive_storage_witness :
  let st' := @saveParameterEnabled strict_zod (enabled_value DEFAULT_PARAMETER_ENABLED)
               (@saveConfig strict_zod (config_value DEFAULT_CONFIG) empty_storage) in
  @getInitialPlaygroundConfig strict_zod st' = DEFAULT_CONFIG ∧
  @getInitialParameterEnabled strict_zod st' = DEFAULT_PARAMETER_ENABLED.
Proof.
  apply (@settings_survive_storage strict_zod strict_zod_laws).
  - apply printableb_sound. vm_compute. reflexivity.
  - split; reflexivity.
Defined.

(** ** What loading loses *)

(** A conversation whose text is too long is saved, and deleted as a whole by
    the next load: the limit is not checked when it is saved. *)
Theorem oversized_conversation_is_deleted `{Z : Zod} {L : ZodLaws Z} ms notice now st :
  Forall storable ms → length ms ≤ 100 → usable st →
  (MAX_STORED_MESSAGES_BYTES < N.of_nat (length (stored_text ms)))%N →
  let st' := saveMessages ms st in
  items st' !! MESSAGES = Some (stored_text ms) ∧
  (loadMessages notice now st').1 = None ∧ items (loadMessages notice now st').2 !! MESSAGES = None.
Proof.
  intros S N U B. cbn zeta. rewrite (save_storable ms st S N U). cbn [items]. rewrite lookup_insert_eq.
  unfold loadMessages, readStoredMessagesValue, getItem, removeItem. cbn [accessible items]. rewrite lookup_insert_eq.
  destruct (compact_nonempty (messages_value ms)) as (c & r & C). fold (stored_text ms) in C.
  destruct (stored_text ms) as [|x t] eqn:X; [done|]. rewrite (proj2 (N.ltb_lt _ _) B). cbn.
  by rewrite lookup_delete_eq.
Qed.

(** Three snapshots of one section, then three of another, the last with a
    long text. *)
Definition snapshots : jsstr :=
  concat (repeat (js "## 1. Setup" ++ [10%N]) 3) ++ concat (repeat (js "## 2. Usage" ++ [10%N]) 3)
  ++ repeat 97%N (N.to_nat 2000).

(** Collapsing repeated sections is not idempotent: the first load keeps the
    last snapshot of every section, the second one drops the first section. *)
Theorem second_load_drops_a_section :
  let first := collapseRepeatedSectionSnapshots snapshots in
  let second := collapseRepeatedSectionSnapshots first in
  includes (js "## 1. Setup") first = true ∧ includes (js "## 2. Usage") first = true ∧
  includes (js "## 1. Setup") second = false.
Proof. vm_compute. done. Qed.
