(* ===== verification/PlaygroundState.v ===== *)
(** * The state of the playground page

    Models [features/playground/hooks/use-playground-state.ts] with its
    deferred load and its debounced saving, the handlers of
    [hooks/use-playground-conversation.ts], the effects of
    [hooks/use-playground-options.ts] with [lib/options] and [lib/input].

    A state variable of React is a cell: its value and the actions that wait
    for the next render.  An action may also run at once ([eager], React does
    so when no other action waits).  The body of an updater runs when the
    action does, with its effects. *)
From stdpp Require Import base list option numbers sets gmap.
From Stdlib Require Import ZArith SpecFloat Lia.
From S2P Require Import Prelude.
From S2P Require Import JsString.
From S2P Require Import JsNumber.
From S2P Require Import Runtime.
From S2P Require Import Json.
From S2P Require Import JsText.
From S2P Require Import Playground.
From S2P Require Import PlaygroundSchema.
From S2P Require Import PlaygroundStorage.

(** ** Model and group options *)

Record ModelOption : Type := { model_label : jsstr; model_name : jsstr }.
Record GroupOption : Type := { group_label : jsstr; group_name : jsstr; ratio : num; desc : option jsstr }.

Definition has_model (models : list ModelOption) (model : jsstr) : bool :=
  existsb (λ m, jseq (model_name m) model) models.

Definition getModelFallback (models : list ModelOption) (currentModel : jsstr) : option jsstr :=
  match models with
  | [] => None
  | m :: _ => if has_model models currentModel then None else Some (model_name m)
  end.

Definition shouldClearModelForGroup (models : list ModelOption) (currentModel : jsstr) : bool :=
  match currentModel with [] => false | _ => negb (has_model models currentModel) end.

Definition has_group (groups : list GroupOption) (group : jsstr) : bool :=
  existsb (λ g, jseq (group_name g) group) groups.

Definition getGroupFallback (groups : list GroupOption) (currentGroup : jsstr) : option jsstr :=
  match groups with
  | [] => None
  | g :: _ =>
      if has_group groups currentGroup then None
      else Some (match List.find (λ g, jseq (group_name g) (js "default")) groups with
                 | Some g => group_name g
                 | None => group_name g
                 end)
  end.

(** ** Input *)

(** [None] is [null]; the text may be absent. *)
Definition getSubmittableInputText (text : option jsstr) (disabled : bool) : option jsstr :=
  if disabled || negb (nonblank (default [] text)) then None else text.

Record InputControlState : Type := {
  canSubmit : bool;
  isSelectorDisabled : bool;
  shouldShowStop : bool;
}.

Definition getInputControlState (disabled : bool) (groups : list GroupOption) (hasStopHandler isGenerating
    isModelLoading : bool) (models : list ModelOption) (text : jsstr) : InputControlState :=
  {| canSubmit := negb disabled && negb (match models with [] => true | _ => false end) && nonblank text;
     isSelectorDisabled := disabled || isModelLoading || match groups with [] => true | _ => false end;
     shouldShowStop := isGenerating && hasStopHandler |}.

(** ** Cells *)

(** [setX(value)], and [setX(prev => ...)] whose body saves the new value. *)
Inductive action (A : Type) : Type :=
| Put (a : A)
| Update (f : A → A).
Arguments Put {A}.
Arguments Update {A}.

Record cell (A : Type) : Type := { current : A; waiting : list (action A) }.
Arguments current {A}.
Arguments waiting {A}.
Arguments Build_cell {A}.

(** An action on the value, and the saving of the body on the rest of the
    state. *)
Definition act {A S} (save : A → S → S) (o : action A) (x : A * S) : A * S :=
  match o with
  | Put a => (a, x.2)
  | Update f => let a := f x.1 in (a, save a x.2)
  end.

Definition dispatch {A S} (save : A → S → S) (eager : bool) (o : action A) (c : cell A) (s : S) : cell A * S :=
  match waiting c, eager with
  | [], true => let '(a, s) := act save o (current c, s) in ({| current := a; waiting := [] |}, s)
  | w, _ => ({| current := current c; waiting := w ++ [o] |}, s)
  end.

Definition settle {A S} (save : A → S → S) (c : cell A) (s : S) : cell A * S :=
  let '(a, s) := fold_left (λ x o, act save o x) (waiting c) (current c, s) in
  ({| current := a; waiting := [] |}, s).

(** ** The page *)

(** The mutable references: the latest messages, whether a save is scheduled,
    whether the conversation was loaded; and the storage. *)
Record refs : Type := {
  latestMessages : list Message;
  hasLoadedMessages : bool;
  messagesSaveTimer : bool;
  local : storage;
}.

Record page : Type := {
  config : cell PlaygroundConfig;
  parameterEnabled : cell ParameterEnabled;
  messages : cell (list Message);
  isLoadingMessages : bool;
  models : list ModelOption;
  groups : list GroupOption;
  cancelled : bool;
  persisted : refs;
}.

Definition with_local (st : storage) (r : refs) : refs :=
  {| latestMessages := latestMessages r; hasLoadedMessages := hasLoadedMessages r;
     messagesSaveTimer := messagesSaveTimer r; local := st |}.
Definition with_config (x : cell PlaygroundConfig * refs) (p : page) : page :=
  {| config := x.1; parameterEnabled := parameterEnabled p; messages := messages p;
     isLoadingMessages := isLoadingMessages p; models := models p; groups := groups p;
     cancelled := cancelled p; persisted := x.2 |}.
Definition with_parameters (x : cell ParameterEnabled * refs) (p : page) : page :=
  {| config := config p; parameterEnabled := x.1; messages := messages p;
     isLoadingMessages := isLoadingMessages p; models := models p; groups := groups p;
     cancelled := cancelled p; persisted := x.2 |}.
Definition with_conversation (x : cell (list Message) * refs) (p : page) : page :=
  {| config := config p; parameterEnabled := parameterEnabled p; messages := x.1;
     isLoadingMessages := isLoadingMessages p; models := models p; groups := groups p;
     cancelled := cancelled p; persisted := x.2 |}.
Definition with_refs (r : refs) (p : page) : page := with_conversation (messages p, r) p.

Section Page.
Context `{Zod}.

Definition mount (st : storage) : page :=
  {| config := {| current := getInitialPlaygroundConfig st; waiting := [] |};
     parameterEnabled := {| current := getInitialParameterEnabled st; waiting := [] |};
     messages := {| current := []; waiting := [] |};
     isLoadingMessages := true; models := []; groups := []; cancelled := false;
     persisted := {| latestMessages := []; hasLoadedMessages := false; messagesSaveTimer := false;
                     local := st |} |}.

(** The timer is restarted: one save is scheduled. *)
Definition persistMessages (messagesToSave : list Message) (r : refs) : refs :=
  {| latestMessages := messagesToSave; hasLoadedMessages := hasLoadedMessages r;
     messagesSaveTimer := hasLoadedMessages r || messagesSaveTimer r; local := local r |}.

(** The save timer fires. *)
Definition save_now (r : refs) : refs :=
  {| latestMessages := latestMessages r; hasLoadedMessages := hasLoadedMessages r;
     messagesSaveTimer := false; local := saveMessages (latestMessages r) (local r) |}.
Definition fire_save_timer (p : page) : option page :=
  if messagesSaveTimer (persisted p) then Some (with_refs (save_now (persisted p)) p) else None.

Definition saving_config (c : PlaygroundConfig) (r : refs) : refs :=
  with_local (saveConfig (config_value c) (local r)) r.
Definition saving_parameters (e : ParameterEnabled) (r : refs) : refs :=
  with_local (saveParameterEnabled (enabled_value e) (local r)) r.

(** [updateConfig(key, value)] as the change it makes *)
Definition updateConfig (eager : bool) (change : PlaygroundConfig → PlaygroundConfig) (p : page) : page :=
  with_config (dispatch saving_config eager (Update change) (config p) (persisted p)) p.
Definition updateParameterEnabled (eager : bool) (change : ParameterEnabled → ParameterEnabled) (p : page) :
    page :=
  with_parameters (dispatch saving_parameters eager (Update change) (parameterEnabled p) (persisted p)) p.

(** An array or a function. *)
Inductive MessageStateUpdater : Type :=
| new_messages (ms : list Message)
| change_messages (f : list Message → list Message).

Definition applyMessageStateUpdate (previousMessages : list Message) (updater : MessageStateUpdater) :
    list Message :=
  match updater with new_messages ms => ms | change_messages f => f previousMessages end.

Definition updateMessages (eager : bool) (updater : MessageStateUpdater) (p : page) : page :=
  with_conversation
    (dispatch persistMessages eager (Update (λ prev, applyMessageStateUpdate prev updater))
       (messages p) (persisted p)) p.

Definition clearMessages (eager : bool) (p : page) : page := updateMessages eager (new_messages []) p.

Definition resetConfig (eager : bool) (p : page) : page :=
  let p := with_config (dispatch saving_config eager (Put DEFAULT_CONFIG) (config p) (persisted p)) p in
  let p := with_parameters
             (dispatch saving_parameters eager (Put DEFAULT_PARAMETER_ENABLED) (parameterEnabled p) (persisted p)) p in
  with_refs (saving_parameters DEFAULT_PARAMETER_ENABLED (saving_config DEFAULT_CONFIG (persisted p))) p.

(** The deferred load; nothing but the storage changes after the page was
    left. *)
Definition load_timer (eager : bool) (notice : jsstr) (now : num) (p : page) : page :=
  let '(loadedMessages, st) := getInitialMessages notice now (local (persisted p)) in
  if cancelled p then with_refs (with_local st (persisted p)) p
  else
    let r := {| latestMessages := loadedMessages; hasLoadedMessages := true;
                messagesSaveTimer := messagesSaveTimer (persisted p); local := st |} in
    let '(c, r) := dispatch persistMessages eager (Put loadedMessages) (messages p) r in
    {| config := config p; parameterEnabled := parameterEnabled p; messages := c; isLoadingMessages := false;
       models := models p; groups := groups p; cancelled := false; persisted := r |}.

(** A render runs the waiting actions of the cells in the order of the
    hooks. *)
Definition render_page (p : page) : page :=
  let p := with_config (settle saving_config (config p) (persisted p)) p in
  let p := with_parameters (settle saving_parameters (parameterEnabled p) (persisted p)) p in
  with_conversation (settle persistMessages (messages p) (persisted p)) p.

(** The cleanups of both effects; a scheduled save happens at once. *)
Definition unmount (p : page) : page :=
  let r := if messagesSaveTimer (persisted p) then save_now (persisted p) else persisted p in
  {| config := config p; parameterEnabled := parameterEnabled p; messages := messages p;
     isLoadingMessages := isLoadingMessages p; models := models p; groups := groups p;
     cancelled := true; persisted := r |}.

(** ** Effects of the loaded options *)

Definition set_model (m : jsstr) (c : PlaygroundConfig) : PlaygroundConfig :=
  {| cfg_model := m; cfg_group := cfg_group c; cfg_temperature := cfg_temperature c; cfg_top_p := cfg_top_p c;
     cfg_max_tokens := cfg_max_tokens c; cfg_frequency_penalty := cfg_frequency_penalty c;
     cfg_presence_penalty := cfg_presence_penalty c; cfg_seed := cfg_seed c; cfg_stream := cfg_stream c |}.
Definition set_group (g : jsstr) (c : PlaygroundConfig) : PlaygroundConfig :=
  {| cfg_model := cfg_model c; cfg_group := g; cfg_temperature := cfg_temperature c; cfg_top_p := cfg_top_p c;
     cfg_max_tokens := cfg_max_tokens c; cfg_frequency_penalty := cfg_frequency_penalty c;
     cfg_presence_penalty := cfg_presence_penalty c; cfg_seed := cfg_seed c; cfg_stream := cfg_stream c |}.

Definition with_options (ms : list ModelOption) (gs : list GroupOption) (p : page) : page :=
  {| config := config p; parameterEnabled := parameterEnabled p; messages := messages p;
     isLoadingMessages := isLoadingMessages p; models := ms; groups := gs;
     cancelled := cancelled p; persisted := persisted p |}.

(** [currentModel] and [currentGroup] are those of the last render. *)
Definition models_effect (eager : bool) (modelsData : list ModelOption) (currentModel : jsstr) (p : page) : page :=
  let p := with_options modelsData (groups p) p in
  match getModelFallback modelsData currentModel with
  | Some (c :: fallback) => updateConfig eager (set_model (c :: fallback)) p
  | _ =>
      if shouldClearModelForGroup modelsData currentModel then updateConfig eager (set_model []) p else p
  end.

Definition groups_effect (eager : bool) (groupsData : list GroupOption) (currentGroup : jsstr) (p : page) : page :=
  let p := with_options (models p) groupsData p in
  match getGroupFallback groupsData currentGroup with
  | Some (c :: fallback) => updateConfig eager (set_group (c :: fallback)) p
  | _ => p
  end.

(** ** Handlers of the conversation *)

(** What a handler does: the key of the edited message, the update of the
    messages, and the messages that are sent. *)
Record handled : Type := {
  editingMessageKey : option jsstr;
  update : option MessageStateUpdater;
  sent : option (list Message);
}.

Definition handleSendMessage (ids : nat → jsstr) (now : num) (shown : list Message) (editing : option jsstr)
    (text : jsstr) : handled :=
  let next := appendUserMessagePair shown ids text now in
  {| editingMessageKey := editing; update := Some (new_messages next); sent := Some next |}.

Definition handleRegenerateMessage (ids : nat → jsstr) (now : num) (shown : list Message)
    (editing : option jsstr) (m : Message) : handled :=
  match createRegeneratedMessages shown ids (key m) now with
  | None => {| editingMessageKey := editing; update := None; sent := None |}
  | Some next => {| editingMessageKey := editing; update := Some (new_messages next); sent := Some next |}
  end.

Definition handleEditMessage (m : Message) : handled :=
  {| editingMessageKey := Some (key m); update := None; sent := None |}.
Definition handleEditOpenChange (editing : option jsstr) (open : bool) : handled :=
  {| editingMessageKey := if open then editing else None; update := None; sent := None |}.

Definition applyEdit (ids : nat → jsstr) (now : num) (shown : list Message) (editing : option jsstr)
    (newContent : jsstr) (shouldSubmit : bool) : handled :=
  let unchanged := {| editingMessageKey := editing; update := None; sent := None |} in
  match editing with
  | None | Some [] => unchanged
  | Some k =>
      match applyMessageEdit shown ids k newContent shouldSubmit now with
      | None => unchanged
      | Some (next, shouldSend) =>
          {| editingMessageKey := None; update := Some (new_messages next);
             sent := if shouldSend then Some next else None |}
      end
  end.

Definition handleDeleteMessage (editing : option jsstr) (m : Message) : handled :=
  {| editingMessageKey := editing;
     update := Some (change_messages (λ previous, removeMessageByKey previous (key m))); sent := None |}.

(** ** Histories *)

Inductive page_op : Type :=
| UpdateConfig (eager : bool) (change : PlaygroundConfig → PlaygroundConfig)
| UpdateParameter (eager : bool) (change : ParameterEnabled → ParameterEnabled)
| UpdateMessages (eager : bool) (u : MessageStateUpdater)
| ResetConfig (eager : bool)
| ModelsEffect (eager : bool) (data : list ModelOption) (current : jsstr)
| GroupsEffect (eager : bool) (data : list GroupOption) (current : jsstr)
| SaveTimer
| Render.

Definition page_step (o : page_op) (p : page) : option page :=
  match o with
  | UpdateConfig e f => Some (updateConfig e f p)
  | UpdateParameter e f => Some (updateParameterEnabled e f p)
  | UpdateMessages e u => Some (updateMessages e u p)
  | ResetConfig e => Some (resetConfig e p)
  | ModelsEffect e d c => Some (models_effect e d c p)
  | GroupsEffect e d c => Some (groups_effect e d c p)
  | SaveTimer => fire_save_timer p
  | Render => Some (render_page p)
  end.

Fixpoint page_exec (os : list page_op) (p : page) : option page :=
  match os with
  | [] => Some p
  | o :: os => p ← page_step o p; page_exec os p
  end.
End Page.
