(* ===== verification/PlaygroundStateTheorems.v ===== *)
(** * The playground page keeps its conversation

    The invariant of the page (once the waiting actions ran, the messages on
    the screen are the latest ones, and they are stored or about to be), and
    the theorems: a conversation outlives the page, and the chosen model
    follows the options that were loaded. *)
From stdpp Require Import base list option numbers sets gmap.
From Stdlib Require Import ZArith SpecFloat Lia.
From S2P Require Import Prelude.
From S2P Require Import JsString.
From S2P Require Import JsNumber.
From S2P Require Import Runtime.
From S2P Require Import Json.
From S2P Require Import JsText.
From S2P Require Import JsonPrint.
From S2P Require Import Playground.
From S2P Require Import PlaygroundTheorems.
From S2P Require Import PlaygroundSchema.
From S2P Require Import PlaygroundStorage.
From S2P Require Import PlaygroundStorageTheorems.
From S2P Require Import PlaygroundState.

(** ** The playground page keeps its conversation

    The invariant of the page: once the waiting actions ran, the messages on
    the screen are the latest ones, and they are stored or about to be. *)

(** ** Writes under another key *)

Definition put (k t : jsstr) (st : storage) : storage :=
  {| items := <[k := t]> (items st); accessible := true; writable := true |}.

(** A storage after a write under [k], or after a write that failed. *)
Definition written (k : jsstr) (st st' : storage) : Prop := st' = st ∨ ∃ t, usable st ∧ st' = put k t st.

Lemma written_usable k st st' : written k st st' → usable st → usable st'.
Proof. by intros [->|(t & _ & ->)]. Qed.

Section Facts.
Context `{Zod}.

Lemma config_written c st : written CONFIG st (saveConfig c st).
Proof. apply save_settings_cases. Qed.
Lemma parameters_written e st : written PARAMETER_ENABLED st (saveParameterEnabled e st).
Proof. apply save_settings_cases. Qed.

(** Saving writes one text, if it writes. *)
Lemma save_text ms : (∀ st, saveMessages ms st = st) ∨ ∃ t, ∀ st,
  saveMessages ms st = if accessible st && writable st then put MESSAGES t st else st.
Proof.
  unfold saveMessages. destruct (parsed _ _) as [data|]; [|by left]. right.
  exists (json_compact (envelope data)). intros st. cbn [mbind result_bind]. unfold writeStoredValue, setItem.
  by destruct (_ && _).
Qed.

Lemma save_written ms st : written MESSAGES st (saveMessages ms st).
Proof.
  destruct (save_text ms) as [E|(t & E)]; rewrite E; [by left|].
  destruct (accessible st) eqn:A, (writable st) eqn:W; try by left. right. exists t. by split.
Qed.

Lemma save_idempotent ms st : saveMessages ms (saveMessages ms st) = saveMessages ms st.
Proof.
  destruct (save_text ms) as [E|(t & E)]; [by rewrite E|]. rewrite !E.
  destruct (accessible st) eqn:A, (writable st) eqn:W; cbn [andb]; rewrite ?A, ?W; cbn [andb]; try done.
  unfold put. cbn [items accessible writable andb]. by rewrite insert_insert_eq.
Qed.

(** The stored text is not touched by other keys. *)
Lemma saved_other k ms st st' :
  k ≠ MESSAGES → written k st st' → saveMessages ms st = st → saveMessages ms st' = st'.
Proof.
  intros N [->|(t & [A W] & ->)]; [done|]. destruct (save_text ms) as [E|(u & E)]; rewrite !E; [done|].
  rewrite A, W. cbn [andb put accessible writable]. intros S. apply (f_equal items) in S. cbn in S.
  unfold put. cbn. by rewrite insert_insert_ne, S by done.
Qed.

Definition loads_nothing (st : storage) : Prop := ∀ notice now, (loadMessages notice now st).1 = None.

Lemma loads_same st st' :
  accessible st' = accessible st → items st' !! MESSAGES = items st !! MESSAGES →
  ∀ notice now, (loadMessages notice now st').1 = (loadMessages notice now st).1.
Proof.
  intros A E notice now. unfold loadMessages, readStoredMessagesValue, getItem, removeItem. rewrite A, E.
  destruct (accessible st); [|done]. destruct (items st !! MESSAGES) as [[|c t]|]; [done| |done].
  destruct (_ <? _)%N; [done|]. destruct (parse_saved _) as [[v|]|]; [|done|done].
  destruct (falsy_value v); [done|]. by destruct (_ ≫= _).
Qed.

Lemma loads_nothing_other k st st' : k ≠ MESSAGES → written k st st' → loads_nothing st → loads_nothing st'.
Proof.
  intros N [->|(t & [A W] & ->)] L; [done|]. intros notice now. rewrite <- (L notice now). apply loads_same.
  - by rewrite A.
  - cbn. by rewrite lookup_insert_ne.
Qed.

Lemma read_storage st r st' :
  readStoredMessagesValue st = (r, st') →
  st' = st ∨ (r = Ok None ∧ items st' !! MESSAGES = None ∧ accessible st' = accessible st ∧ writable st' = writable st).
Proof.
  unfold readStoredMessagesValue, getItem, removeItem. destruct (accessible st) eqn:A; [|intros [= <- <-]; by left].
  destruct (items st !! MESSAGES) as [[|c t]|]; [intros [= <- <-]; by left| |intros [= <- <-]; by left].
  destruct (_ <? _)%N; intros [= <- <-]; [right|by left]. cbn. by rewrite lookup_delete_eq.
Qed.

Lemma nothing_stored st : items st !! MESSAGES = None → loads_nothing st.
Proof.
  intros E notice now. unfold loadMessages, readStoredMessagesValue, getItem. rewrite E. by destruct (accessible st).
Qed.

Lemma loads_nothing_any notice now st : (loadMessages notice now st).1 = None → loads_nothing st.
Proof.
  intros L n t. unfold loadMessages in *. destruct (readStoredMessagesValue st) as [[[v|]|] st']; try done.
  destruct (falsy_value v); [done|]. by destruct (_ ≫= _).
Qed.

(** After a load the storage holds what was loaded, or nothing that can be
    loaded. *)
Lemma load_outcome notice now st found st' :
  loadMessages notice now st = (found, st') →
  (usable st → usable st') ∧
  match found with
  | Some ms => saveMessages ms st' = st'
  | None => loads_nothing st'
  end.
Proof.
  intros E. pose proof (loads_nothing_any notice now st) as N. rewrite E in N. cbn in N.
  unfold loadMessages in E. destruct (readStoredMessagesValue st) as [r st1] eqn:R.
  assert (usable st → usable st1) as U.
  { apply read_storage in R as [->|(_ & _ & A & W)]; [done|]. unfold usable. by rewrite A, W. }
  assert (found = None → st' = st1 → (usable st → usable st') ∧ loads_nothing st') as K.
  { intros -> ->. split; [done|]. apply read_storage in R as [->|(_ & I & _)]; [by apply N|by apply nothing_stored]. }
  destruct r as [[v|]|]; [|injection E as <- <-; by apply K..].
  destruct (falsy_value v); [injection E as <- <-; by apply K|].
  destruct (_ ≫= _) as [parsed|]; injection E as <- <-; [|by apply K].
  split; [|apply save_idempotent]. intros US. apply (written_usable MESSAGES st1); [apply save_written|by apply U].
Qed.

(** ** The invariant *)

(** The messages are stored, or there are none and none can be loaded. *)
Definition kept_in (st : storage) (ms : list Message) : Prop :=
  saveMessages ms st = st ∨ (ms = [] ∧ loads_nothing st).

(** The messages and the latest messages after the waiting actions. *)
Definition outcome (c : cell (list Message)) (latest : list Message) : list Message * list Message :=
  fold_left (λ x o, match o with Put a => (a, x.2) | Update f => (f x.1, f x.1) end) (waiting c) (current c, latest).

Record sound (p : page) : Prop := {
  sound_loaded : hasLoadedMessages (persisted p) = true;
  sound_latest : (outcome (messages p) (latestMessages (persisted p))).1
                 = (outcome (messages p) (latestMessages (persisted p))).2;
  sound_stored : messagesSaveTimer (persisted p) = true ∨ kept_in (local (persisted p)) (latestMessages (persisted p));
  sound_usable : usable (local (persisted p));
}.

Lemma kept_in_other k st st' ms : k ≠ MESSAGES → written k st st' → kept_in st ms → kept_in st' ms.
Proof.
  intros N W [S|[-> L]]; [left; by eapply saved_other|right]. split; [done|]. by eapply loads_nothing_other.
Qed.

(** References that differ by a write under another key. *)
Definition elsewhere (r r' : refs) : Prop :=
  latestMessages r' = latestMessages r ∧ hasLoadedMessages r' = hasLoadedMessages r ∧
  messagesSaveTimer r' = messagesSaveTimer r ∧ (usable (local r) → usable (local r')) ∧
  ∀ ms, kept_in (local r) ms → kept_in (local r') ms.

#[global] Instance elsewhere_preorder : PreOrder elsewhere.
Proof.
  split; [by intros r|]. intros a b c (A1 & A2 & A3 & A4 & A5) (B1 & B2 & B3 & B4 & B5).
  unfold elsewhere. rewrite B1, B2, B3. eauto 10.
Qed.

Lemma elsewhere_written k r st : k ≠ MESSAGES → written k (local r) st → elsewhere r (with_local st r).
Proof. intros N W. unfold elsewhere. conjs; try done; [by eapply written_usable|]. intros ms. by eapply kept_in_other. Qed.

Lemma elsewhere_config c r : elsewhere r (saving_config c r).
Proof. apply (elsewhere_written CONFIG); [done|apply config_written]. Qed.
Lemma elsewhere_parameters e r : elsewhere r (saving_parameters e r).
Proof. apply (elsewhere_written PARAMETER_ENABLED); [done|apply parameters_written]. Qed.

Lemma act_elsewhere {A} (save : A → refs → refs) o x :
  (∀ a r, elsewhere r (save a r)) → elsewhere x.2 (act save o x).2.
Proof. intros S. destruct o; cbn; [done|apply S]. Qed.

Lemma dispatch_elsewhere {A} (save : A → refs → refs) eager o c r :
  (∀ a r, elsewhere r (save a r)) → elsewhere r (dispatch save eager o c r).2.
Proof.
  intros S. unfold dispatch. destruct (waiting c), eager; try done.
  pose proof (act_elsewhere save o (current c, r) S) as K. by destruct (act save o (current c, r)).
Qed.

Lemma settle_elsewhere {A} (save : A → refs → refs) c r :
  (∀ a r, elsewhere r (save a r)) → elsewhere r (settle save c r).2.
Proof.
  intros S. unfold settle.
  assert (∀ l x, elsewhere x.2 (fold_left (λ x o, act save o x) l x).2) as K.
  { induction l as [|o l IH]; intros x; [done|]. cbn. etransitivity; [|apply IH]. by apply act_elsewhere. }
  specialize (K (waiting c) (current c, r)). by destruct (fold_left _ _ _).
Qed.

Lemma sound_elsewhere p r (q : page) :
  sound p → elsewhere (persisted p) r → messages q = messages p → persisted q = r → sound q.
Proof.
  intros [S1 S2 S3 S4] (E1 & E2 & E3 & E4 & E5) M <-. split; rewrite ?M, ?E1, ?E2, ?E3; auto.
  destruct S3; auto.
Qed.

(** Running actions on messages follows [outcome]; an update schedules a save. *)
Lemma run_messages l ms r :
  hasLoadedMessages r = true →
  let x := fold_left (λ x o, act persistMessages o x) l (ms, r) in
  (x.1, latestMessages x.2) = outcome {| current := ms; waiting := l |} (latestMessages r) ∧
  hasLoadedMessages x.2 = true ∧ local x.2 = local r ∧
  (messagesSaveTimer x.2 = true ∨
   messagesSaveTimer x.2 = messagesSaveTimer r ∧ latestMessages x.2 = latestMessages r).
Proof.
  revert ms r. induction l as [|o l IH]; intros ms r L; [cbn; conjs; auto|]. destruct o as [a|f]; cbn [fold_left act fst snd].
  - by apply IH.
  - destruct (IH (f ms) (persistMessages (f ms) r)) as (E & H1 & H2 & T); [done|]. conjs; [done|done|done|left].
    destruct T as [T|[T _]]; [done|]. rewrite T. cbn. by rewrite L.
Qed.

(** The page after its waiting messages were run from other references. *)
Lemma settle_sound p c r :
  sound p → settle persistMessages (messages p) (persisted p) = (c, r) →
  ∀ q, messages q = c → persisted q = r → sound q ∧ waiting c = [] ∧ current c = latestMessages r.
Proof.
  intros [S1 S2 S3 S4] E q EM ER. unfold settle in E.
  destruct (run_messages (waiting (messages p)) (current (messages p)) (persisted p) S1) as (X & H1 & H2 & T).
  destruct (fold_left _ _ _) as [a r']. cbn [fst snd] in *. injection E as <- <-.
  change (outcome _ _) with (outcome (messages p) (latestMessages (persisted p))) in X. rewrite <- X in S2. cbn in S2.
  conjs; [|done|done]. split; rewrite ?EM, ?ER; [done|done| |by rewrite H2].
  destruct T as [T|[-> ->]]; [by left|]. by rewrite H2.
Qed.

Lemma updateMessages_sound eager u p : sound p → sound (updateMessages eager u p).
Proof.
  intros [S1 S2 S3 S4]. unfold updateMessages, dispatch. set (f := λ prev, _).
  destruct (messages p) as [ms l] eqn:M. cbn [waiting current].
  destruct l as [|o l], eager; cbn [act with_conversation fst snd]; split; cbn [messages persisted];
    first [done | left; cbn; by rewrite S1 | unfold outcome, with_conversation; cbn [waiting current messages fst snd]; by rewrite fold_left_app].
Qed.

Lemma fire_save_timer_sound p q : fire_save_timer p = Some q → sound p → sound q.
Proof.
  unfold fire_save_timer. destruct (messagesSaveTimer _); [|done]. intros [= <-] [S1 S2 S3 S4].
  split; cbn; [done|done| |by apply (written_usable MESSAGES (local (persisted p))); [apply save_written|]].
  right. left. apply save_idempotent.
Qed.

Lemma updateConfig_sound eager f p : sound p → sound (updateConfig eager f p).
Proof.
  intros S. eapply sound_elsewhere; [exact S|apply (dispatch_elsewhere saving_config eager (Update f) (config p))|done|done].
  apply elsewhere_config.
Qed.
Lemma with_options_sound ms gs p : sound p → sound (with_options ms gs p).
Proof. intros S. by eapply sound_elsewhere. Qed.
#[local] Hint Resolve updateConfig_sound with_options_sound updateMessages_sound : core.

Lemma resetConfig_sound eager p : sound p → sound (resetConfig eager p).
Proof.
  intros S. eapply sound_elsewhere; [exact S| |done|done]. cbn [persisted with_refs with_conversation snd].
  etransitivity; [|apply elsewhere_parameters]. etransitivity; [|apply elsewhere_config].
  cbn [with_parameters persisted snd].
  etransitivity; [|apply dispatch_elsewhere, elsewhere_parameters]. apply dispatch_elsewhere, elsewhere_config.
Qed.

Lemma render_sound p :
  sound p → sound (render_page p) ∧ waiting (messages (render_page p)) = [] ∧
            current (messages (render_page p)) = latestMessages (persisted (render_page p)).
Proof.
  intros S. unfold render_page. set (p1 := with_config _ _). set (p2 := with_parameters _ _).
  assert (sound p1) as S1.
  { eapply sound_elsewhere; [exact S|apply (settle_elsewhere saving_config (config p)), elsewhere_config|done|done]. }
  assert (sound p2) as S2.
  { eapply sound_elsewhere;
      [exact S1|apply (settle_elsewhere saving_parameters (parameterEnabled p1)), elsewhere_parameters|done|done]. }
  destruct (settle persistMessages (messages p2) (persisted p2)) as [c r] eqn:E.
  by apply (settle_sound p2 c r).
Qed.

Lemma page_step_sound o p q : page_step o p = Some q → sound p → sound q.
Proof.
  intros E S. destruct o; cbn in E; try (injection E as <-); auto.
  - eapply sound_elsewhere; [exact S|apply (dispatch_elsewhere saving_parameters eager (Update change) (parameterEnabled p))|done|done].
    apply elsewhere_parameters.
  - by apply resetConfig_sound.
  - unfold models_effect. destruct (getModelFallback _ _) as [[|]|]; auto; case_match; auto.
  - unfold groups_effect. destruct (getGroupFallback _ _) as [[|]|]; auto.
  - by eapply fire_save_timer_sound.
  - by apply render_sound.
Qed.

Lemma page_exec_sound os p q : page_exec os p = Some q → sound p → sound q.
Proof.
  revert p. induction os as [|o os IH]; intros p; cbn [page_exec]; [by intros [= <-]|].
  destruct (page_step o p) as [p'|] eqn:E; [|done]. cbn [mbind option_bind]. eauto using page_step_sound.
Qed.

(** The loaded page. *)
Lemma load_sound eager notice now st : usable st → sound (load_timer eager notice now (mount st)).
Proof.
  intros U. unfold load_timer, getInitialMessages. cbn [persisted mount local cancelled].
  destruct (loadMessages notice now st) as [found st'] eqn:E. apply load_outcome in E as [U' K].
  destruct eager; cbn; split; cbn; auto; right; destruct found; [by left|by right|by left|by right].
Qed.

Lemma unmount_keeps p :
  sound p → waiting (messages p) = [] → current (messages p) = latestMessages (persisted p) →
  kept_in (local (persisted (unmount p))) (current (messages (unmount p))) ∧ usable (local (persisted (unmount p))).
Proof.
  intros [S1 S2 S3 S4] W C. unfold unmount. cbn [messages persisted]. rewrite C.
  destruct (messagesSaveTimer _) eqn:T; cbn [save_now local].
  - split; [left; apply save_idempotent|]. apply (written_usable MESSAGES (local (persisted p))); [apply save_written|done].
  - by destruct S3.
Qed.
End Facts.

(** ** Theorems about the playground page

    A conversation outlives the page, and the chosen model follows the options
    that were loaded. *)

(** What storage keeps exactly. *)
Record storable_conversation (ms : list Message) : Prop := {
  conversation_storable : Forall storable ms;
  conversation_settled : Forall settled ms;
  conversation_length : length ms ≤ 100;
  conversation_size : (total_size ms <= 120000)%N;
  conversation_text : (N.of_nat (length (stored_text ms)) <= MAX_STORED_MESSAGES_BYTES)%N;
}.

Section Theorems.
Context `{Z : Zod} {L : ZodLaws Z}.

(** A conversation that is kept is loaded. *)
Lemma kept_is_loaded notice now st ms :
  kept_in st ms → usable st → storable_conversation ms →
  (getInitialMessages notice now st).1 = ms.
Proof using L.
  intros K U [C1 C2 C3 C4 C5]. unfold getInitialMessages. destruct K as [S|[-> N]].
  - pose proof (save_then_load ms notice now st C1 C2 C3 C4 C5 U) as E.
    rewrite S in E. by rewrite E.
  - specialize (N notice now). destruct (loadMessages notice now st) as [found st']. cbn in N. by subst found.
Qed.

(** The deferred load shows what was loaded. *)
Lemma loaded_page_shows eager notice now st :
  current (messages (render_page (load_timer eager notice now (mount st)))) = (getInitialMessages notice now st).1.
Proof.
  unfold load_timer. cbn [persisted mount local cancelled].
  destruct (getInitialMessages notice now st) as [ms st']. by destruct eager.
Qed.

(** C24: a conversation outlives the page.  Where the storage can be used,
    whatever happened since the conversation was loaded (updates of messages
    and settings that run at once or wait for a render, saves, renders, loaded
    options), when the page was rendered and left with a conversation that
    storage keeps, opening it again shows exactly the messages that were
    shown.  Such a conversation has at most 100 messages and 120,000 code
    units, fits the limit of the stored text, has no pending answer, no text
    of more than 40,000 code units and none of 2,000 or more with a numbered
    heading three times, and all its values can be written as JSON. *)
Theorem conversation_outlives_the_page os eager eager' notice notice' now now' st p :
  usable st → page_exec os (load_timer eager notice now (mount st)) = Some p →
  let left := unmount (render_page p) in
  storable_conversation (current (messages left)) →
  let reopened := render_page (load_timer eager' notice' now' (mount (local (persisted left)))) in
  current (messages reopened) = current (messages left).
Proof using L.
  intros U E left C. cbn zeta. rewrite loaded_page_shows.
  apply page_exec_sound in E; [|by apply load_sound]. apply render_sound in E as (S & W & X).
  destruct (unmount_keeps _ S W X) as [K U']. by apply kept_is_loaded.
Qed.

(** ** Options *)

Lemma render_config p :
  waiting (config p) = [] → config (render_page p) = config p.
Proof.
  intros W. unfold render_page, settle. cbn [config with_config with_parameters with_conversation fst].
  rewrite W. cbn. by destruct (config p); cbn in *; subst.
Qed.

Lemma render_updateConfig eager f p :
  waiting (config p) = [] →
  config (render_page (updateConfig eager f p)) = {| current := f (current (config p)); waiting := [] |}.
Proof.
  intros W. unfold updateConfig, dispatch. rewrite W. destruct eager; [by rewrite render_config|].
  by unfold render_page, settle.
Qed.

Lemma first_model_offered m data : has_model (m :: data) (model_name m) = true.
Proof. unfold has_model. cbn. by rewrite (proj2 (jseq_eq _ _) eq_refl). Qed.

Lemma set_model_same c : set_model (cfg_model c) c = c.
Proof. by destruct c. Qed.

(** The model after the effect. *)
Definition next_model (data : list ModelOption) (old : jsstr) : jsstr :=
  if has_model data old then old else match data with m :: _ => model_name m | [] => [] end.

Lemma next_model_offered data old : has_model data (next_model data old) = true ∨ next_model data old = [].
Proof.
  unfold next_model. destruct (has_model data old) eqn:E; [by left|]. destruct data; [by right|left].
  apply first_model_offered.
Qed.

Lemma next_model_stable data old : next_model data (next_model data old) = next_model data old.
Proof.
  destruct (next_model_offered data old) as [E|E]; [by unfold next_model at 1; rewrite E|].
  unfold next_model in E |- * at 2. unfold next_model. destruct (has_model data old) eqn:O; [by rewrite O|].
  destruct data as [|m data]; [done|]. by rewrite first_model_offered.
Qed.

Lemma models_effect_config eager data p :
  waiting (config p) = [] →
  config (render_page (models_effect eager data (cfg_model (current (config p))) p))
  = {| current := set_model (next_model data (cfg_model (current (config p)))) (current (config p)); waiting := [] |}.
Proof.
  intros W. unfold models_effect. set (p1 := with_options data (groups p) p).
  assert (∀ f, config (render_page (updateConfig eager f p1)) = {| current := f (current (config p)); waiting := [] |}) as UC
    by (intros f; by rewrite render_updateConfig).
  assert (config (render_page p1)
    = {| current := set_model (cfg_model (current (config p))) (current (config p)); waiting := [] |}) as ID.
  { rewrite render_config by done. rewrite set_model_same. cbn. destruct (config p); cbn in *; by subst. }
  clearbody p1. unfold shouldClearModelForGroup, next_model, getModelFallback. destruct data as [|m data].
  - change (has_model [] ?x) with false. cbn [negb]. destruct (cfg_model _) eqn:O; [by rewrite ID|by rewrite UC].
  - destruct (has_model (m :: data) _) eqn:O; cbn [negb]; [destruct (cfg_model _) eqn:M; by rewrite ID|].
    destruct (model_name m) eqn:N; [|by rewrite UC]. destruct (cfg_model _) eqn:M; [by rewrite ID|by rewrite UC].
Qed.

(** The chosen model is one that is offered.  After the loaded models took
    effect on the settings of the last render, the model is offered or none is
    chosen, an offered model is kept, no other setting changed, and the effect
    has nothing left to do. *)
Theorem chosen_model_is_offered eager data p :
  waiting (config p) = [] →
  let old := cfg_model (current (config p)) in
  let p' := render_page (models_effect eager data old p) in
  let model := cfg_model (current (config p')) in
  (has_model data model = true ∨ model = [] ∧ data = []) ∧ (has_model data old = true → model = old) ∧
  current (config p') = set_model model (current (config p)) ∧
  config (render_page (models_effect eager data model p')) = config p'.
Proof.
  intros W old p' model. pose proof (models_effect_config eager data p W) as E. fold old p' in E.
  assert (model = next_model data old) as M by (unfold model; by rewrite E). conjs.
  - rewrite M. unfold next_model. destruct (has_model data old) eqn:O; [by left|]. destruct data; [by right|left].
    apply first_model_offered.
  - intros O. rewrite M. unfold next_model. by rewrite O.
  - by rewrite M, E.
  - assert (waiting (config p') = []) as W' by (by rewrite E).
    pose proof (models_effect_config eager data p' W') as E'. fold model in E'. rewrite E'.
    rewrite M, next_model_stable, E. done.
Qed.
End Theorems.

Definition sample_history : list page_op :=
  [UpdateMessages false (new_messages [sample_message]); Render; UpdateConfig false (set_model (js "m2"));
   UpdateMessages true (change_messages (λ ms, ms ++ [sample_message])); SaveTimer; ResetConfig true;
   UpdateMessages false (change_messages (λ ms, drop 1 ms))].

Lemma sample_conversation : storable_conversation [sample_message].
Proof.
  split.
  - apply Forall_singleton, storableb_sound. vm_compute. reflexivity.
  - apply Forall_singleton, sample_settled.
  - cbn. lia.
  - vm_compute. discriminate.
  - vm_compute. discriminate.
Qed.

Definition page_of (o : option (@page)) (st : storage) : page := default (@mount strict_zod st) o.

Lemma conversation_outlives_the_page_witness :
  let p := page_of (@page_exec strict_zod sample_history
                      (@load_timer strict_zod true [] (nZ 1) (@mount strict_zod empty_storage))) empty_storage in
  let left := @unmount strict_zod (@render_page strict_zod p) in
  current (messages left) = [sample_message] ∧
  current (messages (@render_page strict_zod (@load_timer strict_zod true [] (nZ 9)
    (@mount strict_zod (local (persisted left)))))) = current (messages left).
Proof.
  assert (current (messages (@unmount strict_zod (@render_page strict_zod (page_of (@page_exec strict_zod sample_history
                      (@load_timer strict_zod true [] (nZ 1) (@mount strict_zod empty_storage))) empty_storage))))
          = [sample_message]) as C by reflexivity.
  cbn zeta. split; [exact C|].
  apply (@conversation_outlives_the_page strict_zod strict_zod_laws sample_history true true [] [] (nZ 1) (nZ 9) empty_storage).
  - split; reflexivity.
  - reflexivity.
  - rewrite C. apply sample_conversation.
Defined.

Lemma chosen_model_is_offered_witness :
  let data := [{| model_label := js "M"; model_name := js "m2" |}] in
  let p := @mount strict_zod empty_storage in
  cfg_model (current (config (@render_page strict_zod (@models_effect strict_zod true data (js "gpt-4o") p)))) = js "m2" ∧
  has_model data (cfg_model (current (config (@render_page strict_zod
    (@models_effect strict_zod true data (cfg_model (current (config p))) p))))) = true.
Proof.
  split; [reflexivity|].
  destruct (@chosen_model_is_offered strict_zod true [{| model_label := js "M"; model_name := js "m2" |}]
              (@mount strict_zod empty_storage) eq_refl) as ([E|[_ E]] & _); [exact E|discriminate].
Defined.
