(* ===== verification/Catalogue.v ===== *)
(** * The catalogue of models

    Models the data of the price list ([features/pricing/types.ts]), the
    selection and order of models ([lib/filters.ts]), prices from ratios
    ([lib/model-helpers.ts], [lib/price.ts]), the kinds of billing
    ([lib/billing-mode.ts] and the predicates of [lib/dynamic-price.ts]) and the
    variants of task plugins ([lib/plugin-pricing.ts]).

    [Array.prototype.sort] is the stable sort by the comparator; the language
    fixes its result for consistent comparators only.  [localeCompare] is the
    argument [locale_le], [toLowerCase] the class [Host], and the text of an
    amount, which rests on [Intl.NumberFormat] and the system settings, the
    argument [currency]. *)
From stdpp Require Import base list option numbers sets.
From Stdlib Require Import ZArith SpecFloat Lia.
From S2P Require Import Prelude.
From S2P Require Import JsString.
From S2P Require Import JsNumber.
From S2P Require Import Syntax.
From S2P Require Import Parser.
From S2P Require Import Compile.
From S2P Require Import Runtime.
From S2P Require Import Structure.
From S2P Require Import Display.
From S2P Require Import BillingExpr.
From S2P Require Import TaskExpr.

(** ** Data *)

Record BillingUsageExample : Type := { ex_label : jsstr; facts : Sample }.

Record BillingPluginVariant : Type := {
  plugin_key : jsstr;
  plugin_name : jsstr;
  v_billing_expr : jsstr;
  v_billing_mode : option jsstr;
  v_billing_usage_schema : BillingUsageSchema;
  v_billing_usage_examples : option (list BillingUsageExample);
}.

(** The fields that the modelled functions read.  A ratio that is null is
    absent. *)
Record PricingModel : Type := {
  billing_plugin_variants : option (list BillingPluginVariant);
  model_name : option jsstr;
  description : option jsstr;
  vendor_name : option jsstr;
  quota_type : num;
  model_ratio : num;
  completion_ratio : num;
  model_price : option num;
  cache_ratio : option num;
  create_cache_ratio : option num;
  image_ratio : option num;
  audio_ratio : option num;
  audio_completion_ratio : option num;
  enable_groups : option (list jsstr);
  tags : option jsstr;
  supported_endpoint_types : option (list jsstr);
  group_ratio : option (list (jsstr * num));
  billing_mode : option jsstr;
  billing_expr : option jsstr;
  billing_usage_schema : option BillingUsageSchema;
  billing_usage_examples : option (list BillingUsageExample);
}.

Definition FILTER_ALL : jsstr := js "all".
Definition EXCLUDED_GROUPS : list jsstr := [[]; js "auto"].
Definition TOKEN : num := nZ 0.
Definition REQUEST : num := nZ 1.

(** [list.includes(text)] *)
Definition listed (l : list jsstr) (t : jsstr) : bool := existsb (λ x, jseq x t) l.

(** [Boolean(text)] of a text that may be absent *)
Definition present (t : option jsstr) : bool := match t with None | Some [] => false | _ => true end.

(** [value || 0] *)
Definition number_or_zero (x : option num) : num :=
  match x with Some x => if neqb x NZERO || negb (neqb x x) then NZERO else x | None => NZERO end.

(** ** Groups *)

Definition getAvailableGroups {A} (model : PricingModel) (usableGroup : list (jsstr * A)) : list jsstr :=
  let modelEnableGroups := default [] (enable_groups model) in
  List.filter (listed modelEnableGroups)
    (List.filter (λ g, negb (listed EXCLUDED_GROUPS g)) (map fst usableGroup)).

Definition getConfiguredGroupRatio (groupRatio : list (jsstr * num)) (group : jsstr) : num :=
  match assoc groupRatio group with
  | Some ratio => if is_finite ratio then ratio else nZ 1
  | None => nZ 1
  end.

(** The loop over the groups of the model. *)
Fixpoint min_ratio (groupRatio : list (jsstr * num)) (groups : list jsstr) (minRatio : num) : num :=
  match groups with
  | [] => minRatio
  | group :: groups =>
      min_ratio groupRatio groups
        (match assoc groupRatio group with
         | Some ratio => if is_finite ratio && nltb ratio minRatio then ratio else minRatio
         | None => minRatio
         end)
  end.

Definition INFINITY : num := S754_infinity false.

Definition getDisplayGroupRatio (model : PricingModel) (selectedGroup : option jsstr) : num :=
  let modelEnableGroups := default [] (enable_groups model) in
  let groupRatio := default [] (group_ratio model) in
  let selected :=
    match selectedGroup with
    | None | Some [] => None
    | Some g => if negb (jseq g FILTER_ALL) && listed modelEnableGroups g then Some g else None
    end in
  match selected with
  | Some g => getConfiguredGroupRatio groupRatio g
  | None =>
      match modelEnableGroups with
      | [] => nZ 1
      | _ =>
          let minRatio := min_ratio groupRatio modelEnableGroups INFINITY in
          if neqb minRatio INFINITY then nZ 1 else minRatio
      end
  end.

(** [path.replaceAll('{model}', modelName)]: matches from left to right;
    [skip] units belong to the last match.  The patterns [$$], [$&], [$`] and
    [$'] of a replacement text are expanded by the language; a model name
    without [$] is inserted as it is. *)
Fixpoint replace_placeholder (skip : nat) (path modelName : jsstr) : jsstr :=
  match path with
  | [] => []
  | c :: rest =>
      match skip with
      | S skip => replace_placeholder skip rest modelName
      | 0 =>
          if starts_with (js "{model}") path then modelName ++ replace_placeholder 6 rest modelName
          else c :: replace_placeholder 0 rest modelName
      end
  end.
Definition replaceModelInPath (path modelName : jsstr) : jsstr := replace_placeholder 0 path modelName.

Definition isTokenBasedModel (model : PricingModel) : bool := neqb (quota_type model) TOKEN.

(** ** Plugin variants *)

Definition plugin_head (c : N) : bool := is_digit c || ((97 <=? c) && (c <=? 122))%N.
Definition plugin_char (c : N) : bool := plugin_head c || (c =? cu "_")%N || (c =? cu "-")%N.
(** [/^[a-z0-9][a-z0-9_-]{0,29}$/] *)
Definition plugin_pattern (s : jsstr) : bool :=
  match s with
  | c :: rest => plugin_head c && forallb plugin_char rest && (length rest <=? 29)
  | [] => false
  end.

(** [key.indexOf('::')] *)
Fixpoint separator_at (s : jsstr) : option nat :=
  if starts_with (js "::") s then Some 0
  else match s with [] => None | _ :: s => S <$> separator_at s end.

Definition splitPluginBillingExprKey (key : jsstr) : option (jsstr * jsstr) :=
  match separator_at key with
  | None | Some 0 => None
  | Some separator =>
      let plugin := take separator key in
      let model := drop (separator + 2) key in
      if negb (plugin_pattern plugin) || match trim model with [] => true | _ => false end then None
      else Some (plugin, model)
  end.

Definition withPluginPricing (model : PricingModel) (variant : BillingPluginVariant) : PricingModel :=
  let ratio := match v_billing_mode variant with Some m => jseq m (js "ratio") | None => false end in
  {| billing_plugin_variants := None; model_name := model_name model; description := description model;
     vendor_name := vendor_name model; quota_type := if ratio then quota_type model else nZ 0;
     model_ratio := model_ratio model; completion_ratio := completion_ratio model;
     model_price := model_price model; cache_ratio := cache_ratio model;
     create_cache_ratio := create_cache_ratio model; image_ratio := image_ratio model;
     audio_ratio := audio_ratio model; audio_completion_ratio := audio_completion_ratio model;
     enable_groups := enable_groups model; tags := tags model;
     supported_endpoint_types := supported_endpoint_types model; group_ratio := group_ratio model;
     billing_mode := Some (default (js "tiered_expr") (v_billing_mode variant));
     billing_expr := Some (v_billing_expr variant);
     billing_usage_schema := Some (v_billing_usage_schema variant);
     billing_usage_examples := v_billing_usage_examples variant |}.

(** Objects with distinct keys. *)
Definition pluginExpressionsEqual (left right : list (jsstr * jsstr)) : bool :=
  (length left =? length right) &&
  forallb (λ '(k, v), match assoc right k with Some w => jseq v w | None => false end) left.

Definition pluginUsageSchema (model : option PricingModel) (pluginKey : option jsstr) :
    option BillingUsageSchema :=
  m ← model;
  match List.find (λ v, match pluginKey with Some k => jseq (plugin_key v) k | None => false end)
          (default [] (billing_plugin_variants m)) with
  | Some v => Some (v_billing_usage_schema v)
  | None => billing_usage_schema m
  end.

(** The visitor clears the flag at a usage key that the schema lacks. *)
Definition unknown_usage (schema : BillingUsageSchema) (n : node) : bool :=
  match n with
  | ECall _ Fu (ELit _ (LStr k) :: _) => match assoc schema k with Some _ => false | None => true end
  | _ => false
  end.
Definition compatible_visitor (schema : BillingUsageSchema) (n : node) (compatible : bool) : result exn bool :=
  Ok (compatible && negb (unknown_usage schema n)).

(** [None]: the expression cannot be checked. *)
Definition taskExpressionCompatible (expression : jsstr) (schema : BillingUsageSchema) :
    result exn (option bool) :=
  match trim expression with
  | [] => Ok (Some false)
  | _ =>
      match compile expression with
      | Err _ => Ok None
      | Ok compiled =>
          let compatible := negb (bool_decide (Ffixed ∈ c_functions compiled)) in
          Some <$> visitExpression (compatible_visitor schema) (c_ast compiled) compatible
      end
  end.

(** ** Kinds of billing *)

Definition is_ratio_mode (v : BillingPluginVariant) : bool :=
  match v_billing_mode v with Some m => jseq m (js "ratio") | None => false end.
Definition is_tiered (m : PricingModel) : bool :=
  match billing_mode m with Some b => jseq b (js "tiered_expr") | None => false end.

Definition hasTaskUsageSchema (m : PricingModel) : bool :=
  match billing_usage_schema m with None | Some [] => false | _ => true end.

Definition isDynamicPricingModel (m : PricingModel) : bool :=
  match billing_plugin_variants m with
  | Some ((_ :: _) as variants) =>
      existsb (λ v, negb (is_ratio_mode v) && present (Some (v_billing_expr v))) variants
  | _ => is_tiered m && present (billing_expr m)
  end.

Definition isTaskUsagePricingModel (m : PricingModel) : bool := is_tiered m && hasTaskUsageSchema m.

(** A model without variants. *)
Definition unconfigured (m : PricingModel) : bool :=
  negb (neqb (quota_type m) REQUEST) && hasTaskUsageSchema m && negb (isDynamicPricingModel m).
(** [withPluginPricing] leaves no variants, so the recursion has one level. *)
Definition isUnconfiguredTaskUsageModel (m : PricingModel) : bool :=
  match billing_plugin_variants m with
  | Some ((_ :: _) as variants) =>
      forallb (λ v, if is_ratio_mode v then unconfigured (withPluginPricing m v)
                    else negb (present (Some (v_billing_expr v)))) variants
  | _ => unconfigured m
  end.

Inductive BillingModeLabelKey : Type := PerRequest | DynamicPricing | TokenBased | TaskBilling.
Definition getBillingModeLabelKey (m : PricingModel) : BillingModeLabelKey :=
  if hasTaskUsageSchema m then TaskBilling
  else if isDynamicPricingModel m then DynamicPricing
  else if isTokenBasedModel m then TokenBased
  else PerRequest.

(** ** Prices *)

Inductive PriceType : Type :=
| price_input | price_output | price_cache | price_create_cache | price_image | price_audio_input | price_audio_output.
Inductive TokenUnit : Type := unit_M | unit_K.
Definition TOKEN_UNIT_DIVISORS (u : TokenUnit) : num := match u with unit_M => nZ 1 | unit_K => nZ 1000 end.

Definition hasRatio (value : option num) : bool := match value with Some x => is_finite x | None => false end.

(** [base * Number(ratio)] when there is a ratio *)
Definition scaled (base : num) (value : option num) : num :=
  match value with Some x => if is_finite x then nmul base x else S754_nan | None => S754_nan end.

Definition calculateTokenPrice (m : PricingModel) (type : PriceType) (ratio : num) : num :=
  let base := nmul (nmul (model_ratio m) (nZ 2)) ratio in
  match type with
  | price_input => base
  | price_output => nmul base (completion_ratio m)
  | price_cache => scaled base (cache_ratio m)
  | price_create_cache => scaled base (create_cache_ratio m)
  | price_image => scaled base (image_ratio m)
  | price_audio_input => scaled base (audio_ratio m)
  | price_audio_output =>
      if hasRatio (audio_ratio m) && hasRatio (audio_completion_ratio m)
      then scaled (scaled base (audio_ratio m)) (audio_completion_ratio m) else S754_nan
  end.

Definition applyRechargeRate (price : num) (showWithRecharge : bool) (priceRate usdExchangeRate : num) : num :=
  if showWithRecharge then ndiv (nmul price priceRate) usdExchangeRate else price.

Section Prices.
(** [formatBillingCurrencyFromUSD] with whether the symbol is shown and the
    numbers of digits of large and small amounts *)
Context (currency : num → bool → N → N → jsstr).

Definition formatPrice (m : PricingModel) (type : PriceType) (unit : TokenUnit) (showWithRecharge : bool)
    (priceRate usdExchangeRate : num) (selectedGroup : option jsstr) (showCurrencySymbol : bool) : jsstr :=
  if neqb (quota_type m) REQUEST then js "-"
  else
    let price := applyRechargeRate (calculateTokenPrice m type (getDisplayGroupRatio m selectedGroup))
                   showWithRecharge priceRate usdExchangeRate in
    currency (ndiv price (TOKEN_UNIT_DIVISORS unit)) showCurrencySymbol 4 6.

Definition formatGroupPrice (m : PricingModel) (group : jsstr) (type : PriceType) (unit : TokenUnit)
    (showWithRecharge : bool) (priceRate usdExchangeRate : num) (groupRatio : list (jsstr * num)) : jsstr :=
  if neqb (quota_type m) REQUEST then js "-"
  else
    let price := applyRechargeRate (calculateTokenPrice m type (getConfiguredGroupRatio groupRatio group))
                   showWithRecharge priceRate usdExchangeRate in
    currency (ndiv price (TOKEN_UNIT_DIVISORS unit)) true 4 6.

Definition formatFixedPrice (m : PricingModel) (group : jsstr) (showWithRecharge : bool)
    (priceRate usdExchangeRate : num) (groupRatio : list (jsstr * num)) : jsstr :=
  if negb (neqb (quota_type m) REQUEST) then js "-"
  else
    let price := nmul (number_or_zero (model_price m)) (getConfiguredGroupRatio groupRatio group) in
    currency (applyRechargeRate price showWithRecharge priceRate usdExchangeRate) true 4 4.

Definition formatRequestPrice (m : PricingModel) (showWithRecharge : bool) (priceRate usdExchangeRate : num)
    (selectedGroup : option jsstr) (showCurrencySymbol : bool) : jsstr :=
  if negb (neqb (quota_type m) REQUEST) then js "-"
  else
    let price := nmul (number_or_zero (model_price m)) (getDisplayGroupRatio m selectedGroup) in
    currency (applyRechargeRate price showWithRecharge priceRate usdExchangeRate) showCurrencySymbol 4 4.
End Prices.

(** ** Filters *)

(** [.sort(comparator)]; [after a b] is [comparator(a, b) > 0] *)
Fixpoint insert_stable {A} (after : A → A → bool) (x : A) (l : list A) : list A :=
  match l with
  | [] => [x]
  | y :: l => if after y x then x :: y :: l else y :: insert_stable after x l
  end.
Definition stable_sort {A} (after : A → A → bool) (l : list A) : list A :=
  fold_left (λ sorted x, insert_stable after x sorted) l [].

Definition tag_separator (c : N) : bool :=
  (c =? cu ",")%N || (c =? cu ";")%N || (c =? cu "|")%N || is_space c.

(** [.split(/[...]+/)]; [run] is whether the last unit was a separator. *)
Fixpoint split_runs (separator : N → bool) (run : bool) (piece s : jsstr) : list jsstr :=
  match s with
  | [] => [piece]
  | c :: s =>
      if separator c
      then if run then split_runs separator true piece s else piece :: split_runs separator true [] s
      else split_runs separator false (piece ++ [c]) s
  end.

Definition parseTags (tagsString : option jsstr) : list jsstr :=
  match tagsString with
  | None | Some [] => []
  | Some t => List.filter (λ t, present (Some t)) (map trim (split_runs tag_separator false [] t))
  end.

Inductive quota_filter : Type := quota_all | quota_token | quota_request | quota_task.
Definition quota_filter_of (t : jsstr) : quota_filter :=
  if jseq t (js "all") then quota_all
  else if jseq t (js "task") then quota_task
  else if jseq t (js "token") then quota_token
  else quota_request.

Inductive sort_option : Type := sort_name | sort_price_low | sort_price_high | sort_none.
Definition sort_option_of (t : jsstr) : sort_option :=
  if jseq t (js "name") then sort_name
  else if jseq t (js "price-low") then sort_price_low
  else if jseq t (js "price-high") then sort_price_high
  else sort_none.

Definition getModelPrice (m : PricingModel) : num :=
  if neqb (quota_type m) TOKEN then model_ratio m else number_or_zero (model_price m).

Section Filters.
Context {host : Host} (locale_le : jsstr → jsstr → bool).

(** [text?.toLowerCase().includes(lowerQuery)] *)
Definition mentions (lowerQuery : jsstr) (text : option jsstr) : bool :=
  match text with Some t => includes lowerQuery (to_lower_case t) | None => false end.

Definition matches_search (query : jsstr) (m : PricingModel) : bool :=
  let lowerQuery := to_lower_case query in
  mentions lowerQuery (model_name m) || mentions lowerQuery (description m)
  || mentions lowerQuery (tags m) || mentions lowerQuery (vendor_name m).
Definition filterBySearch (models : list PricingModel) (query : jsstr) : list PricingModel :=
  match query with [] => models | _ => List.filter (matches_search query) models end.

Definition matches_vendor (vendor : jsstr) (m : PricingModel) : bool :=
  match vendor_name m with Some v => jseq v vendor | None => false end.
Definition filterByVendor (models : list PricingModel) (vendor : jsstr) : list PricingModel :=
  if jseq vendor FILTER_ALL then models else List.filter (matches_vendor vendor) models.

Definition matches_group (group : jsstr) (m : PricingModel) : bool :=
  listed (default [] (enable_groups m)) group.
Definition filterByGroup (models : list PricingModel) (group : jsstr) : list PricingModel :=
  if jseq group FILTER_ALL then models else List.filter (matches_group group) models.

Definition filterByQuotaType (models : list PricingModel) (quotaType : jsstr) : list PricingModel :=
  match quota_filter_of quotaType with
  | quota_all => models
  | quota_task => List.filter hasTaskUsageSchema models
  | quota_token => List.filter (λ m, neqb (quota_type m) TOKEN && negb (hasTaskUsageSchema m)) models
  | quota_request => List.filter (λ m, neqb (quota_type m) REQUEST && negb (hasTaskUsageSchema m)) models
  end.

Definition matches_endpoint (endpointType : jsstr) (m : PricingModel) : bool :=
  listed (default [] (supported_endpoint_types m)) endpointType.
Definition filterByEndpointType (models : list PricingModel) (endpointType : jsstr) : list PricingModel :=
  if jseq endpointType (js "all") then models else List.filter (matches_endpoint endpointType) models.

Definition matches_tag (tag : jsstr) (m : PricingModel) : bool :=
  listed (map to_lower_case (parseTags (tags m))) (to_lower_case tag).
Definition filterByTag (models : list PricingModel) (tag : jsstr) : list PricingModel :=
  if jseq tag FILTER_ALL then models else List.filter (matches_tag tag) models.

(** The comparators. *)
Definition after_name (a b : PricingModel) : bool :=
  negb (locale_le (default [] (model_name a)) (default [] (model_name b))).
Definition after_low (a b : PricingModel) : bool := ngtb (nsub (getModelPrice a) (getModelPrice b)) NZERO.
Definition after_high (a b : PricingModel) : bool := ngtb (nsub (getModelPrice b) (getModelPrice a)) NZERO.
Definition comparator (o : sort_option) : PricingModel → PricingModel → bool :=
  match o with
  | sort_name => after_name
  | sort_price_low => after_low
  | sort_price_high => after_high
  | sort_none => λ _ _, false
  end.

Definition sortModels (models : list PricingModel) (sortBy : jsstr) : list PricingModel :=
  match sort_option_of sortBy with
  | sort_none => models
  | o => stable_sort (comparator o) models
  end.

Record catalogue_filters : Type := {
  search : jsstr;
  vendor : jsstr;
  group : jsstr;
  quotaType : jsstr;
  endpointType : jsstr;
  tag : jsstr;
  sortBy : jsstr;
}.

Definition filterAndSortModels (models : list PricingModel) (f : catalogue_filters) : list PricingModel :=
  let result := filterBySearch models (search f) in
  let result := filterByVendor result (vendor f) in
  let result := filterByGroup result (group f) in
  let result := filterByQuotaType result (quotaType f) in
  let result := filterByEndpointType result (endpointType f) in
  let result := filterByTag result (tag f) in
  sortModels result (sortBy f).

(** [tagSet.add(tag)] *)
Definition add_tag (l : list jsstr) (t : jsstr) : list jsstr := if listed l t then l else l ++ [t].
Definition extractAllTags (models : list PricingModel) : list jsstr :=
  stable_sort (λ a b, negb (locale_le a b))
    (fold_left (λ set m, fold_left (λ set t, add_tag set (to_lower_case t)) (parseTags (tags m)) set) models []).
End Filters.
