(* ===== verification/DynamicPrice.v ===== *)
(** * Summaries of dynamic prices

    Models [features/pricing/lib/dynamic-price.ts]: the tiers of a model or of
    its providers, the prices a tier shows, and the summary of a model card
    with the ranges of its prices; [hasSimpleTaskPricing] and the labels of
    [lib/task-price-display.ts], with [lib/localized-text.ts].

    The text of an amount is the argument [currency] as in [Catalogue].  The
    schema of usage has no display texts, so an entry has no [unitLabel] and no
    [description]; nothing else of an entry depends on them.  The time is an
    argument, the default of [options.now]. *)
From stdpp Require Import base list option numbers sets.
From Stdlib Require Import ZArith SpecFloat Lia.
From S2P Require Import Prelude.
From S2P Require Import JsString.
From S2P Require Import JsNumber.
From S2P Require Import Syntax.
From S2P Require Import Parser.
From S2P Require Import Compile.
From S2P Require Import Runtime.
From S2P Require Import Structure.
From S2P Require Import Display.
From S2P Require Import PriceTableFacts.
From S2P Require Import BillingExpr.
From S2P Require Import TierExpr.
From S2P Require Import TaskExpr.
From S2P Require Import TaskExprFacts.
From S2P Require Import TaskDisplay.
From S2P Require Import TaskDisplayFacts.
From S2P Require Import ConditionDisplay.
From S2P Require Import Catalogue.

(** ** Data *)

Record DynamicPriceOptions : Type := {
  o_tokenUnit : TokenUnit;
  o_showCurrencySymbol : option bool;
  o_showRechargePrice : option bool;
  o_priceRate : option num;
  o_usdExchangeRate : option num;
  o_groupRatioMultiplier : option num;
  o_usageSchema : option BillingUsageSchema;
  o_now : option date
}.

Inductive DynamicPriceLabelKind : Type := label_i18n | label_schema.

Record DynamicPriceEntry : Type := {
  e_key : jsstr;
  e_field : jsstr;
  e_label : jsstr;
  e_shortLabel : jsstr;
  e_labelKind : DynamicPriceLabelKind;
  e_value : num;
  e_formatted : jsstr;
  e_formattedRange : option jsstr;
  e_minValue : option num;
  e_maxValue : option num;
  e_unit : jsstr;
  e_variable : option BillingVar
}.

Record CardExamplePrice : Type := { card_label : jsstr; card_formatted : jsstr }.

(** [isTaskPricingTier] tells which of the two a tier is. *)
Inductive DynamicPricingTier : Type := TokenPrices (t : ParsedTier) | TaskPrices (t : ParsedTaskTier).

Record DynamicPricingSummary : Type := {
  s_tiers : list DynamicPricingTier;
  s_tier : option DynamicPricingTier;
  s_tierCount : nat;
  s_hasRequestRules : bool;
  s_isSpecialExpression : bool;
  s_rawExpression : jsstr;
  s_entries : list DynamicPriceEntry;
  s_primaryEntries : list DynamicPriceEntry;
  s_secondaryEntries : list DynamicPriceEntry;
  s_isTaskUsage : bool;
  s_isTimePricing : option bool;
  s_isMixedBilling : option bool;
  s_providerCount : option nat;
  s_hasUnconfiguredProviders : option bool
}.

(** ** Units *)

Definition is_unit (name : string) (u : jsstr) : bool := jseq u (js name).

Definition getTaskUsageQuantityUnitLabelKey (unit : option jsstr) : jsstr :=
  match unit with
  | Some u =>
      if is_unit "second" u then js "s" else if is_unit "token" u then js "token (unit)"
      else if is_unit "credit" u then js "credit" else js "unit"
  | None => js "unit"
  end.

Definition getTaskUsagePriceUnitLabelKey (unit : option jsstr) : jsstr :=
  match unit with
  | Some u =>
      if is_unit "second" u then js "second" else if is_unit "token" u then js "1M token"
      else if is_unit "credit" u then js "credit" else js "unit"
  | None => js "unit"
  end.

Definition getDynamicPriceUnitLabelKey (e : DynamicPriceEntry) : option jsstr :=
  let u := e_unit e in
  if is_unit "second" u then Some (js "s")
  else if is_unit "count" u then Some (js "unit")
  else if is_unit "credit" u then Some (js "credit")
  else if is_unit "token" u && match e_variable e with None => true | Some _ => false end then Some (js "1M token")
  else if is_unit "request" u then Some (js "request")
  else if is_unit "image" u then Some (js "image")
  else None.

Definition PRIMARY_DYNAMIC_FIELDS : list jsstr := [js "inputPrice"; js "outputPrice"].
Definition primary_field (e : DynamicPriceEntry) : bool := listed PRIMARY_DYNAMIC_FIELDS (e_field e).
Definition per_call (e : DynamicPriceEntry) : bool := is_unit "request" (e_unit e) || is_unit "image" (e_unit e).

Section summaries.
Context {host : Host} (locale_le : jsstr → jsstr → bool) (currency : num → bool → N → N → jsstr) (current_time : date).

Definition getTaskPricingUnit (m : PricingModel) : option jsstr :=
  match getTaskNumberFields locale_le (billing_usage_schema m) with (_, d) :: _ => f_unit d | [] => None end.

Definition getDynamicDisplayGroupRatio (m : PricingModel) (selectedGroup : option jsstr) : num :=
  getDisplayGroupRatio m selectedGroup.

(** ** Amounts *)

Definition displayed (priceUSD : num) (options : DynamicPriceOptions) : jsstr :=
  currency (applyRechargeRate priceUSD (default false (o_showRechargePrice options))
              (default (nZ 1) (o_priceRate options)) (default (nZ 1) (o_usdExchangeRate options)))
    (default true (o_showCurrencySymbol options)) 4 6.

Definition formatDynamicUnitPrice (valuePerMillionTokens : num) (options : DynamicPriceOptions) : jsstr :=
  displayed (ndiv (nmul valuePerMillionTokens (default (nZ 1) (o_groupRatioMultiplier options)))
               (TOKEN_UNIT_DIVISORS (o_tokenUnit options))) options.

Definition formatTaskUsageUnitPrice (valuePerUnit : num) (options : DynamicPriceOptions) : jsstr :=
  displayed (nmul valuePerUnit (default (nZ 1) (o_groupRatioMultiplier options))) options.

(** ** Tiers and rules *)

(** A model without variants; [withPluginPricing] leaves none, so that the
    recursion of the two functions has one level. *)
Definition own_tiers (m : PricingModel) : result exn (list DynamicPricingTier) :=
  if negb (isDynamicPricingModel m) then Ok []
  else
    split ← splitBillingExprAndRequestRules (default [] (billing_expr m));
    if isTaskUsagePricingModel m then
      tiers ← getTaskPricingDisplayTiers (Some (billingExpr split)) (billing_usage_schema m);
      Ok (map TaskPrices tiers)
    else
      tiers ← parseTiersFromExpr (billingExpr split);
      Ok (map TokenPrices tiers).

Definition getDynamicPricingTiers (m : PricingModel) : result exn (list DynamicPricingTier) :=
  match billing_plugin_variants m with
  | Some ((_ :: _) as variants) =>
      tiers ← rmap (λ v, own_tiers (withPluginPricing m v)) variants; Ok (List.concat tiers)
  | _ => own_tiers m
  end.

Definition own_rules (m : PricingModel) : result exn bool :=
  if negb (isDynamicPricingModel m) then Ok false
  else
    split ← splitBillingExprAndRequestRules (default [] (billing_expr m));
    groups ← tryParseRequestRuleExpr (requestRuleExpr split);
    match groups with
    | Some (_ :: _) => Ok true
    | _ =>
        Ok (match compile (default [] (billing_expr m)) with
            | Ok compiled => match c_requestRules compiled with [] => false | _ => true end
            | Err _ => false
            end)
    end.

(** [variants.some(variant => ...)]: the rest is not visited after a hit. *)
Fixpoint some_variant (p : BillingPluginVariant → result exn bool) (l : list BillingPluginVariant) : result exn bool :=
  match l with
  | [] => Ok false
  | v :: l => b ← p v; if (b : bool) then Ok true else some_variant p l
  end.

Definition hasDynamicRequestRules (m : PricingModel) : result exn bool :=
  match billing_plugin_variants m with
  | Some ((_ :: _) as variants) => some_variant (λ v, own_rules (withPluginPricing m v)) variants
  | _ => own_rules m
  end.

(** ** The prices of a tier *)

Definition request_entry (key field label shortLabel unit : jsstr) (value : num) (options : DynamicPriceOptions)
    : DynamicPriceEntry :=
  {| e_key := key; e_field := field; e_label := label; e_shortLabel := shortLabel; e_labelKind := label_i18n;
     e_value := value; e_formatted := formatTaskUsageUnitPrice value options; e_formattedRange := None;
     e_minValue := None; e_maxValue := None; e_unit := unit; e_variable := None |}.

Definition fixed_entry (t : ParsedTier) (fixedPrice : num) (options : DynamicPriceOptions) : DynamicPriceEntry :=
  if pt_imageCount t
  then request_entry (js "fixed") (js "fixedPrice") (js "Price per image") (js "Per image") (js "image") fixedPrice options
  else request_entry (js "fixed") (js "fixedPrice") (js "Price per request") (js "Per-call") (js "request") fixedPrice options.

(** The price of a field, [None] where the field is left out. *)
Definition usage_price (t : ParsedTaskTier) (field : jsstr) : option num :=
  let value := number_field (k_unitPrices (pk_tier t)) field in
  if negb (is_finite value) || nltb value NZERO then None else Some value.

Definition usage_entry (t : ParsedTaskTier) (options : DynamicPriceOptions) (field : jsstr * BillingUsageFieldSchema)
    : option DynamicPriceEntry :=
  match usage_price t field.1, f_unit field.2 with
  | Some value, Some ((_ :: _) as unit) =>
      Some {| e_key := field.1; e_field := field.1; e_label := field.1; e_shortLabel := field.1;
              e_labelKind := label_schema; e_value := value; e_formatted := formatTaskUsageUnitPrice value options;
              e_formattedRange := None; e_minValue := None; e_maxValue := None; e_unit := unit; e_variable := None |}
  | _, _ => None
  end.

Definition task_entries (t : ParsedTaskTier) (schema : BillingUsageSchema) (options : DynamicPriceOptions)
    : list DynamicPriceEntry :=
  let constant := k_constant (pk_tier t) in
  omap (usage_entry t options) (getTaskNumberFields locale_le (Some schema)) ++
  (if ngtb constant NZERO
   then [request_entry (js "constant") (js "constant") (js "Additional charge") (js "Additional charge") (js "request")
           constant options]
   else []).

Definition token_entry (t : ParsedTier) (options : DynamicPriceOptions) (v : BillingVar) : option DynamicPriceEntry :=
  match field v with
  | None | Some [] => None
  | Some name =>
      let value := number_field (pt_prices t) name in
      if negb (is_finite value) || nltb value NZERO then None
      else if bool_decide (key v = Vcr) && negb (neqb value NZERO)
              && neqb value (number_field (pt_prices t) (js "inputPrice")) then None
      else
        let five_minutes := bool_decide (key v = Vcc)
          && match assoc (pt_prices t) (js "cacheCreate1hPrice") with Some _ => true | None => false end in
        Some {| e_key := bvar_text (key v); e_field := name;
                e_label := if five_minutes then js "Cache Creation (5m)" else label v;
                e_shortLabel := if five_minutes then js "Cache Write (5m)" else shortLabel v;
                e_labelKind := label_i18n; e_value := value; e_formatted := formatDynamicUnitPrice value options;
                e_formattedRange := None; e_minValue := None; e_maxValue := None; e_unit := js "token";
                e_variable := Some v |}
  end.

Definition token_entries (t : ParsedTier) (options : DynamicPriceOptions) : list DynamicPriceEntry :=
  stable_sort (λ a b, negb (primary_field a) && primary_field b) (omap (token_entry t options) BILLING_PRICING_VARS).

(** A task tier without a schema has none of the price fields. *)
Definition getDynamicPriceEntries (tier : option DynamicPricingTier) (options : DynamicPriceOptions)
    : list DynamicPriceEntry :=
  match tier with
  | None => []
  | Some (TokenPrices t) =>
      match pt_request t with
      | Some (Some fixedPrice) => [fixed_entry t fixedPrice options]
      | _ => token_entries t options
      end
  | Some (TaskPrices t) =>
      match o_usageSchema options with
      | Some schema => task_entries t schema options
      | None => []
      end
  end.

(** ** Ranges *)

Definition range_of (lo hi : num) (options : DynamicPriceOptions) : option jsstr :=
  if neqb lo hi then None
  else Some (formatTaskUsageUnitPrice lo options ++ js " " ++ [8211%N] ++ js " " ++ formatTaskUsageUnitPrice hi options).

Definition task_tier (t : DynamicPricingTier) : option ParsedTaskTier :=
  match t with TaskPrices t => Some t | TokenPrices _ => None end.

(** The loop over the tiers of a model. *)
Definition widen (field : jsstr) (range : num * num) (t : DynamicPricingTier) : num * num :=
  match task_tier t with
  | Some t =>
      match usage_price t field with
      | Some value => (nmin range.1 value, nmax range.2 value)
      | None => range
      end
  | None => range
  end.
Definition tier_range (field : jsstr) (tiers : list DynamicPricingTier) : option (num * num) :=
  let '(lo, hi) := fold_left (widen field) tiers (INFINITY, S754_infinity true) in
  if is_finite lo && is_finite hi then Some (lo, hi) else None.

Definition price_ranges (schema : option BillingUsageSchema) (tiers : list DynamicPricingTier)
    : list (jsstr * (num * num)) :=
  fold_left (λ m f, match tier_range f.1 tiers with Some range => set_field m f.1 range | None => m end)
    (getTaskNumberFields locale_le schema) [].

Definition with_range (options : DynamicPriceOptions) (range : num * num) (e : DynamicPriceEntry) : DynamicPriceEntry :=
  {| e_key := e_key e; e_field := e_field e; e_label := e_label e; e_shortLabel := e_shortLabel e;
     e_labelKind := e_labelKind e; e_value := e_value e; e_formatted := e_formatted e;
     e_formattedRange := range_of range.1 range.2 options; e_minValue := Some range.1; e_maxValue := Some range.2;
     e_unit := e_unit e; e_variable := e_variable e |}.

Definition ranged (options : DynamicPriceOptions) (ranges : list (jsstr * (num * num))) (e : DynamicPriceEntry)
    : DynamicPriceEntry :=
  match assoc ranges (e_field e) with Some range => with_range options range e | None => e end.

(** ** The summary of a model without providers *)

Definition is_token_tier (t : DynamicPricingTier) : bool :=
  match t with TokenPrices t => match pt_request t with None => true | Some _ => false end | TaskPrices _ => false end.
Definition is_request_tier (t : DynamicPricingTier) : bool :=
  match t with TokenPrices t => match pt_request t with None => false | Some _ => true end | TaskPrices _ => false end.

Definition with_schema (options : DynamicPriceOptions) (schema : option BillingUsageSchema) : DynamicPriceOptions :=
  {| o_tokenUnit := o_tokenUnit options; o_showCurrencySymbol := o_showCurrencySymbol options;
     o_showRechargePrice := o_showRechargePrice options; o_priceRate := o_priceRate options;
     o_usdExchangeRate := o_usdExchangeRate options; o_groupRatioMultiplier := o_groupRatioMultiplier options;
     o_usageSchema := schema; o_now := o_now options |}.

Definition own_summary (m : PricingModel) (options : DynamicPriceOptions) : result exn (option DynamicPricingSummary) :=
  if negb (isDynamicPricingModel m) then Ok None
  else
    tiers ← getDynamicPricingTiers m;
    let isTaskUsage := isTaskUsagePricingModel m in
    split ← splitBillingExprAndRequestRules (default [] (billing_expr m));
    timeTiers ← (if isTaskUsage then Ok None
                 else getCurrentTimePricingTiers (billingExpr split) (default current_time (o_now options)));
    let summaryTiers := match timeTiers with Some l => map TokenPrices l | None => tiers end in
    let tier := if isTaskUsage then last summaryTiers else head summaryTiers in
    let entries := getDynamicPriceEntries tier (with_schema options (billing_usage_schema m)) in
    let mixed :=
      if isTaskUsage then None
      else match List.find is_token_tier summaryTiers, List.find is_request_tier summaryTiers with
           | Some tokenTier, Some requestTier => Some (tokenTier, requestTier)
           | _, _ => None
           end in
    let entries :=
      match mixed with
      | Some (tokenTier, requestTier) =>
          getDynamicPriceEntries (Some tokenTier) options ++ getDynamicPriceEntries (Some requestTier) options
      | None => entries
      end in
    let entries :=
      if isTaskUsage then map (ranged options (price_ranges (billing_usage_schema m) tiers)) entries else entries in
    let rawExpression := default [] (billing_expr m) in
    rules ← hasDynamicRequestRules m;
    let primary e := if isTaskUsage then negb (per_call e) else per_call e || primary_field e in
    Ok (Some {|
      s_tiers := tiers; s_tier := tier; s_tierCount := length tiers; s_hasRequestRules := rules;
      s_isSpecialExpression := match trim rawExpression, tiers with _ :: _, [] => true | _, _ => false end;
      s_rawExpression := rawExpression; s_entries := entries;
      s_primaryEntries := List.filter primary entries;
      s_secondaryEntries := List.filter (λ e, if isTaskUsage then per_call e else negb (per_call e) && negb (primary_field e)) entries;
      s_isTaskUsage := isTaskUsage;
      s_isTimePricing := Some (match timeTiers with Some _ => true | None => false end);
      s_isMixedBilling := match mixed with Some _ => Some true | None => None end;
      s_providerCount := None; s_hasUnconfiguredProviders := None |}).

(** ** The summary of a model with providers *)

Definition entry_key (e : DynamicPriceEntry) : jsstr := e_field e ++ js ":" ++ e_unit e.

Definition entry_min (e : DynamicPriceEntry) : num := default (e_value e) (e_minValue e).
Definition entry_max (e : DynamicPriceEntry) : num := default (e_value e) (e_maxValue e).

Definition with_key (k : jsstr) (e : DynamicPriceEntry) : DynamicPriceEntry :=
  {| e_key := k; e_field := e_field e; e_label := e_label e; e_shortLabel := e_shortLabel e;
     e_labelKind := e_labelKind e; e_value := e_value e; e_formatted := e_formatted e;
     e_formattedRange := e_formattedRange e; e_minValue := e_minValue e; e_maxValue := e_maxValue e;
     e_unit := e_unit e; e_variable := e_variable e |}.

(** One round of the loops over the entries of the providers. *)
Definition merge_entry (m : list (jsstr * (DynamicPriceEntry * num * num))) (e : DynamicPriceEntry)
    : list (jsstr * (DynamicPriceEntry * num * num)) :=
  let k := entry_key e in
  let '(merged, lo, hi) := default (with_key k e, INFINITY, S754_infinity true) (assoc m k) in
  set_field m k (merged, nmin lo (entry_min e), nmax hi (entry_max e)).

Definition merged_entry (options : DynamicPriceOptions) (r : DynamicPriceEntry * num * num) : DynamicPriceEntry :=
  let '(e, lo, hi) := r in
  {| e_key := e_key e; e_field := e_field e; e_label := e_label e; e_shortLabel := e_shortLabel e;
     e_labelKind := e_labelKind e; e_value := lo; e_formatted := formatTaskUsageUnitPrice lo options;
     e_formattedRange := range_of lo hi options; e_minValue := Some lo; e_maxValue := Some hi;
     e_unit := e_unit e; e_variable := e_variable e |}.

Definition merge_entries (options : DynamicPriceOptions) (entries : list DynamicPriceEntry) : list DynamicPriceEntry :=
  map (λ r, merged_entry options r.2) (fold_left merge_entry entries []).

Definition per_call_entries (m : PricingModel) (variants : list BillingPluginVariant) (options : DynamicPriceOptions)
    : list DynamicPriceEntry :=
  match model_price m with
  | Some price =>
      if neqb (quota_type m) REQUEST && existsb is_ratio_mode variants
      then [request_entry (js "modelPrice") (js "modelPrice") (js "Price per request") (js "Per-call") (js "request") price options]
      else []
  | None => []
  end.

Definition is_primary (e : DynamicPriceEntry) : bool := negb (per_call e) || jseq (e_field e) (js "modelPrice").

Definition provider_summary (m : PricingModel) (variants : list BillingPluginVariant) (options : DynamicPriceOptions)
    (summaries : list DynamicPricingSummary) : DynamicPricingSummary :=
  let perCallEntries := per_call_entries m variants options in
  let entries := merge_entries options (List.concat (map s_entries summaries) ++ perCallEntries) in
  let primaryKeys := List.concat (map (λ s, map entry_key (take 1 (s_primaryEntries s))) summaries) in
  let has e := listed primaryKeys (e_key e) in
  let tiers := List.concat (map s_tiers summaries) in
  {| s_tiers := tiers;
     s_tier := match summaries with s :: _ => s_tier s | [] => None end;
     s_tierCount := length tiers;
     s_hasRequestRules := existsb s_hasRequestRules summaries;
     s_isSpecialExpression :=
       match perCallEntries, summaries with [], _ :: _ => forallb s_isSpecialExpression summaries | _, _ => false end;
     s_rawExpression := match summaries with s :: _ => s_rawExpression s | [] => [] end;
     s_entries := entries;
     s_primaryEntries := stable_sort (λ a b, has b && negb (has a)) (List.filter is_primary entries);
     s_secondaryEntries := List.filter (λ e, per_call e && negb (jseq (e_field e) (js "modelPrice"))) entries;
     s_isTaskUsage := true;
     s_isTimePricing := None;
     s_isMixedBilling := None;
     s_providerCount := if 2 <=? length variants then Some (length variants) else None;
     s_hasUnconfiguredProviders :=
       Some (existsb (λ v, if is_ratio_mode v then isUnconfiguredTaskUsageModel (withPluginPricing m v)
                           else negb (present (Some (v_billing_expr v)))) variants) |}.

Definition getDynamicPricingSummary (m : PricingModel) (options : DynamicPriceOptions)
    : result exn (option DynamicPricingSummary) :=
  match billing_plugin_variants m with
  | Some ((_ :: _) as variants) =>
      summaries ← rmap (λ v, own_summary (withPluginPricing m v) options) variants;
      Ok (Some (provider_summary m variants options (omap id summaries)))
  | _ => own_summary m options
  end.

(** ** The example of a card *)

Definition own_example (m : PricingModel) (options : DynamicPriceOptions) : result exn (option CardExamplePrice) :=
  if negb (isTaskUsagePricingModel m) then Ok None
  else
    match billing_usage_schema m, billing_usage_examples m with
    | Some schema, Some (firstExample :: _) =>
        split ← splitBillingExprAndRequestRules (default [] (billing_expr m));
        config ← tryParseTaskVisualConfig locale_le (Some (billingExpr split)) schema;
        Ok (match config with
            | None => None
            | Some config =>
                match evaluateTaskVisualConfig current_time config (facts firstExample) (Some schema) with
                | None => None
                | Some result =>
                    Some {| card_label := ex_label firstExample;
                            card_formatted := formatTaskUsageUnitPrice (preview_total result) options |}
                end
            end)
    | _, _ => Ok None
    end.

Definition getCardExamplePrice (m : PricingModel) (options : DynamicPriceOptions) : result exn (option CardExamplePrice) :=
  match billing_plugin_variants m with
  | Some ((_ :: _) as variants) =>
      match List.find (λ v, present (Some (v_billing_expr v))) variants with
      | Some v => own_example (withPluginPricing m v) options
      | None => Ok None
      end
  | _ => own_example m options
  end.

(** [model.billing_expr] is truthy, [tiers[0].conditionText] falsy. *)
Definition hasSimpleTaskPricing (m : PricingModel) : result exn bool :=
  match billing_usage_schema m, billing_expr m with
  | Some schema, Some ((_ :: _) as expression) =>
      if negb (is_tiered m) then Ok false
      else
        split ← splitBillingExprAndRequestRules expression;
        match trim (requestRuleExpr split) with
        | _ :: _ => Ok false
        | [] =>
            tiers ← getTaskPricingDisplayTiers (Some (billingExpr split)) (Some schema);
            Ok (match tiers with [t] => negb (present (pk_conditionText t)) | _ => false end)
        end
  | _, _ => Ok false
  end.
End summaries.

(** ** Localised labels *)

Inductive LocalizedTextValue : Type := PlainText (s : jsstr) | Localized (texts : list (jsstr * jsstr)).

(** The display texts of a usage field, beside its [BillingUsageFieldSchema]. *)
Record FieldTexts : Type := {
  ft_unitLabel : option LocalizedTextValue;
  ft_enumLabels : option (list (jsstr * LocalizedTextValue));
  ft_description : option LocalizedTextValue
}.
Definition LabelledSchema : Type := list (jsstr * (BillingUsageFieldSchema * FieldTexts)).

(** [x || fallback] on texts *)
Definition text_or (x fallback : jsstr) : jsstr := match x with [] => fallback | _ => x end.

Section labels.
Context {host : Host} (locale_le : jsstr → jsstr → bool).

(** [tag.trim().replaceAll('_', '-').toLowerCase()] *)
Definition normal_tag (tag : jsstr) : jsstr :=
  to_lower_case (map (λ c, if (c =? cu "_")%N then cu "-" else c) (trim tag)).

Definition add_locale (keys : list jsstr) (tag : jsstr) : list jsstr :=
  if present (Some tag) && negb (listed keys tag) then keys ++ [tag] else keys.

(** [tag.slice(0, tag.indexOf('-'))] of a tag with a hyphen *)
Fixpoint primary_subtag (tag : jsstr) : jsstr :=
  match tag with
  | [] => []
  | c :: tag => if (c =? cu "-")%N then [] else c :: primary_subtag tag
  end.

Definition localeFallbackKeys (language : jsstr) : list jsstr :=
  let normalized := normal_tag language in
  let zhcn := jseq normalized (js "zhcn") in
  let zhtw := jseq normalized (js "zhtw") in
  let keys := add_locale [] normalized in
  let keys := if zhcn then add_locale keys (js "zh-cn") else keys in
  let keys := if zhtw then add_locale keys (js "zh-tw") else keys in
  let keys := if includes (js "-") normalized then add_locale keys (primary_subtag normalized)
              else if zhcn || zhtw then add_locale keys (js "zh") else keys in
  add_locale keys (js "en").

(** One round of the loop over the texts. *)
Definition add_text (texts : list (jsstr * jsstr)) (e : jsstr * jsstr) : list (jsstr * jsstr) :=
  match trim e.2, normal_tag e.1 with
  | _ :: _, (_ :: _) as tag => set_field texts tag e.2
  | _, _ => texts
  end.
Definition usable_texts (value : list (jsstr * jsstr)) : list (jsstr * jsstr) := fold_left add_text value [].

(** The first of the candidates that has a text. *)
Fixpoint candidate_text (texts : list (jsstr * jsstr)) (candidates : list jsstr) : option jsstr :=
  match candidates with
  | [] => None
  | tag :: candidates => match assoc texts tag with Some t => Some t | None => candidate_text texts candidates end
  end.

Definition resolveLocalizedText (value : option LocalizedTextValue) (language : jsstr) : jsstr :=
  match value with
  | None => []
  | Some (PlainText s) => s
  | Some (Localized value) =>
      let texts := usable_texts value in
      match texts with
      | [] => []
      | _ =>
          match candidate_text texts (localeFallbackKeys language) with
          | Some t => t
          | None => match sort_entries locale_le texts with (_, t) :: _ => t | [] => [] end
          end
      end
  end.

Definition taskPriceLabel (description : option LocalizedTextValue) (field language : jsstr) : jsstr :=
  let localized :=
    match description with
    | Some (Localized texts) =>
        Some (Localized (set_field texts (js "en") (text_or (trim (default [] (assoc texts (js "en")))) field)))
    | _ => description
    end in
  text_or (resolveLocalizedText localized language) field.

Definition taskEnumLabel (definition : option FieldTexts) (value language : jsstr) : jsstr :=
  taskPriceLabel
    (match definition with
     | Some d => match ft_enumLabels d with Some labels => assoc labels value | None => None end
     | None => None
     end) value language.

Definition taskUsageUnitLabel (definition : option (option jsstr * option LocalizedTextValue)) (language fallback : jsstr)
    : jsstr :=
  match definition with
  | Some (Some unit, unitLabel) =>
      if is_unit "count" unit then text_or (resolveLocalizedText unitLabel language) fallback else fallback
  | _ => fallback
  end.

(** The text between conditions. *)
Definition DOT : jsstr := js " " ++ [183%N] ++ js " ".

Definition condition_label (schema : option LabelledSchema) (language : jsstr) (t : jsstr → jsstr) (c : jsstr * jsstr) : jsstr :=
  let definition := match schema with Some s => assoc s c.1 | None => None end in
  let label := taskPriceLabel (match definition with Some d => ft_description d.2 | None => None end) c.1 language in
  if match definition with Some d => match f_type d.1 with Some FBoolean => true | _ => false end | None => false end
  then label ++ js ": " ++ (if jseq c.2 (js "true") then t (js "Yes") else t (js "No"))
  else
    let optionLabel := taskEnumLabel (option_map snd definition) c.2 language in
    if jseq optionLabel c.2 then label ++ js ": " ++ optionLabel else optionLabel.

Definition taskPricingConditions (conditions : list (jsstr * jsstr)) (schema : option LabelledSchema) (language : jsstr)
    (t : jsstr → jsstr) : jsstr :=
  join DOT (map (condition_label schema language t) conditions).

Definition taskTierConditions (tier : ParsedTaskTier) (schema : option LabelledSchema) (language : jsstr)
    (t : jsstr → list (jsstr * jsval) → jsstr) (weekday_name number_text : num → jsstr) : jsstr :=
  let usage := taskPricingConditions (k_conditions (pk_tier tier)) schema language (λ key, t key []) in
  let time :=
    match pk_conditionText tier with
    | None | Some [] => []
    | Some text => default text (formatBillingCondition t weekday_name number_text text)
    end in
  join DOT (List.filter (λ x, present (Some x)) [usage; time]).

(** *** Labels are never empty, and an exact translation is used *)

Lemma usable_texts_app a b : usable_texts (a ++ b) = fold_left add_text b (usable_texts a).
Proof. apply fold_left_app. Qed.

(** Texts that count: of the entry, and under its normal tag. *)
Lemma usable_text value k t : (k, t) ∈ usable_texts value →
  ∃ tag, (tag, t) ∈ value ∧ normal_tag tag = k ∧ trim t ≠ [].
Proof.
  induction value as [|[tag text] value IH] using rev_ind; [by intros ?%not_elem_of_nil|].
  rewrite usable_texts_app. cbn [fold_left]. unfold add_text at 1. cbn [fst snd].
  assert (∀ e, e ∈ value → e ∈ value ++ [(tag, text)]) as Hin by set_solver.
  destruct (trim text) as [|c r] eqn:Ht; [intros H; apply IH in H as (g & ? & ?); eauto|].
  destruct (normal_tag tag) as [|c' r'] eqn:Hn; [intros H; apply IH in H as (g & ? & ?); eauto|].
  intros [E|H]%elem_of_set_field; [|apply IH in H as (g & ? & ?); eauto].
  injection E as -> ->. exists tag. rewrite Ht. set_solver.
Qed.

Lemma candidate_text_elem texts candidates t : candidate_text texts candidates = Some t → ∃ k, (k, t) ∈ texts.
Proof.
  induction candidates as [|k candidates IH]; [done|]. cbn. destruct (assoc texts k) eqn:E; [|done].
  intros [= ->]. exists k. by apply assoc_elem.
Qed.

Lemma resolved_text value language :
  resolveLocalizedText (Some (Localized value)) language = [] ∧ usable_texts value = [] ∨
  ∃ tag, (tag, resolveLocalizedText (Some (Localized value)) language) ∈ value ∧
    trim (resolveLocalizedText (Some (Localized value)) language) ≠ [].
Proof.
  cbn [resolveLocalizedText]. pose proof (usable_text value) as Hu. destruct (usable_texts value) as [|e texts]; [by left|right].
  destruct (candidate_text (e :: texts) _) as [t|] eqn:E.
  { apply candidate_text_elem in E as (k & Hk). apply Hu in Hk as (tag & ? & _ & ?). eauto. }
  pose proof (sort_entries_perm locale_le (e :: texts)) as Hp.
  destruct (sort_entries locale_le (e :: texts)) as [|[k t] l]; [by apply Permutation_nil in Hp|].
  destruct (Hu k t) as (tag & ? & _ & ?); [|eauto]. rewrite <-Hp. by left.
Qed.

Lemma text_or_cases x fallback : text_or x fallback = x ∧ x ≠ [] ∨ text_or x fallback = fallback ∧ x = [].
Proof. destruct x; auto. Qed.

(** A label is one of the texts of the description, or the name of the field. *)
Theorem label_is_a_text texts field language : field ≠ [] →
  let label := taskPriceLabel (Some (Localized texts)) field language in
  label ≠ [] ∧ (label = field ∨ ∃ tag text, (tag, text) ∈ texts ∧ (label = text ∨ label = trim text)).
Proof.
  intros Hf. cbv zeta. unfold taskPriceLabel. set (en := text_or (trim _) field).
  pose proof (resolved_text (set_field texts (js "en") en) language) as Hr.
  set (resolved := resolveLocalizedText _ language) in *. clearbody resolved.
  destruct (text_or_cases resolved field) as [[-> Hn]|[-> _]]; [|split; [done|by left]]. split; [done|].
  destruct Hr as [[E _]|(tag & Hin & _)]; [done|].
  apply elem_of_set_field in Hin as [[= _ ->]|Hin]; [|right; exists tag, resolved; auto].
  subst en. destruct (text_or_cases (trim (default [] (assoc texts (js "en")))) field) as [[-> He]|[-> _]]; [|by left].
  destruct (assoc texts (js "en")) as [text|] eqn:Ea; [|done]. right. exists (js "en"), text. split; [by apply assoc_elem|by right].
Qed.

(** A translation into the language of the reader is the one that is shown. *)
Theorem exact_translation_is_shown value language t :
  normal_tag language ≠ [] → assoc (usable_texts value) (normal_tag language) = Some t →
  resolveLocalizedText (Some (Localized value)) language = t.
Proof.
  intros Hl Ht. cbn [resolveLocalizedText]. destruct (usable_texts value) as [|e texts]; [done|].
  assert (∃ rest, localeFallbackKeys language = normal_tag language :: rest) as [rest ->]; [|cbn [candidate_text]; by rewrite Ht].
  unfold localeFallbackKeys. set (n := normal_tag language) in *.
  assert (∀ keys tag, (∃ rest, keys = n :: rest) → ∃ rest, add_locale keys tag = n :: rest) as Hadd.
  { intros keys tag [rest ->]. unfold add_locale. case_match; cbn; eauto. }
  assert (∃ rest, add_locale [] n = n :: rest) as H0.
  { unfold add_locale. destruct n; [done|]. cbn. eauto. }
  apply Hadd. repeat case_match; repeat first [exact H0|apply Hadd].
Qed.
End labels.

(** ** Least and greatest numbers *)

Definition comparable (x : num) : Prop := x ≠ S754_nan.

Lemma finite_comparable x : is_finite x = true → comparable x.
Proof. by intros H ->. Qed.

Lemma comparable_compare x y : comparable x → comparable y → SFcompare x y ≠ None.
Proof.
  unfold comparable. destruct x as [| | |[]], y as [| | |[]]; cbn; try done; intros _ _; repeat case_match; done.
Qed.

Lemma nleb_refl x : comparable x → nleb x x = true.
Proof.
  intros H. pose proof (comparable_compare x x H H). pose proof (nltb_irrefl x) as Hi.
  pose proof (SFcompare_swap x x) as Hs. unfold nltb, nleb, SFltb, SFleb in *. by destruct (SFcompare x x) as [[]|].
Qed.

Lemma nmin_spec x y : comparable x → comparable y →
  (nmin x y = x ∨ nmin x y = y) ∧ nleb (nmin x y) x = true ∧ nleb (nmin x y) y = true.
Proof.
  intros Hx Hy. pose proof (comparable_compare x y Hx Hy) as Hc. pose proof (SFcompare_swap x y) as Hs.
  pose proof (nleb_refl x Hx) as Rx. pose proof (nleb_refl y Hy) as Ry. unfold nmin.
  destruct (SFcompare x y) as [[]|] eqn:E; [destruct (is_neg_zero x)| | |done]; conjs; auto;
    unfold nleb, SFleb; by rewrite ?E, ?Hs.
Qed.

Lemma nmax_spec x y : comparable x → comparable y →
  (nmax x y = x ∨ nmax x y = y) ∧ nleb x (nmax x y) = true ∧ nleb y (nmax x y) = true.
Proof.
  intros Hx Hy. pose proof (comparable_compare x y Hx Hy) as Hc. pose proof (SFcompare_swap x y) as Hs.
  pose proof (nleb_refl x Hx) as Rx. pose proof (nleb_refl y Hy) as Ry. unfold nmax.
  destruct (SFcompare x y) as [[]|] eqn:E; [destruct (is_neg_zero x)| | |done]; conjs; auto;
    unfold nleb, SFleb; by rewrite ?E, ?Hs.
Qed.

Lemma least_fold l : ∀ x, comparable x → Forall comparable l →
  let lo := fold_left nmin l x in
  (lo = x ∨ lo ∈ l) ∧ nleb lo x = true ∧ (∀ y, y ∈ l → nleb lo y = true).
Proof.
  induction l as [|a l IH]; intros x Hx Hl; cbn.
  { conjs; [by left|by apply nleb_refl|by intros y ?%elem_of_nil]. }
  apply Forall_cons in Hl as [Ha Hl]. destruct (nmin_spec x a Hx Ha) as (Hc & H1 & H2).
  assert (comparable (nmin x a)) as Hm by (by destruct Hc as [-> | ->]).
  destruct (IH (nmin x a) Hm Hl) as (Hin & Hle & Hall). conjs.
  - destruct Hin as [-> | Hin]; [destruct Hc as [-> | ->]; [by left|right; by left]|right; by right].
  - by eapply nleb_trans.
  - intros y [->|Hy]%elem_of_cons; [by eapply nleb_trans|by apply Hall].
Qed.

Lemma greatest_fold l : ∀ x, comparable x → Forall comparable l →
  let hi := fold_left nmax l x in
  (hi = x ∨ hi ∈ l) ∧ nleb x hi = true ∧ (∀ y, y ∈ l → nleb y hi = true).
Proof.
  induction l as [|a l IH]; intros x Hx Hl; cbn.
  { conjs; [by left|by apply nleb_refl|by intros y ?%elem_of_nil]. }
  apply Forall_cons in Hl as [Ha Hl]. destruct (nmax_spec x a Hx Ha) as (Hc & H1 & H2).
  assert (comparable (nmax x a)) as Hm by (by destruct Hc as [-> | ->]).
  destruct (IH (nmax x a) Hm Hl) as (Hin & Hle & Hall). conjs.
  - destruct Hin as [-> | Hin]; [destruct Hc as [-> | ->]; [by left|right; by left]|right; by right].
  - by eapply nleb_trans.
  - intros y [->|Hy]%elem_of_cons; [by eapply nleb_trans|by apply Hall].
Qed.

(** [lo] is the least number of [l], [hi] the greatest of [r]. *)
Definition bounds (l r : list num) (lo hi : num) : Prop :=
  lo ∈ l ∧ hi ∈ r ∧ (∀ x, x ∈ l → nleb lo x = true) ∧ (∀ x, x ∈ r → nleb x hi = true).

Lemma folds_bound l r : l ≠ [] → r ≠ [] → Forall (λ x, is_finite x = true) l → Forall (λ x, is_finite x = true) r →
  bounds l r (fold_left nmin l INFINITY) (fold_left nmax r (S754_infinity true)).
Proof.
  intros Hl Hr Fl Fr.
  destruct (least_fold l INFINITY) as (H1 & _ & H2); [done|eapply Forall_impl; [exact Fl|apply finite_comparable]|].
  destruct (greatest_fold r (S754_infinity true)) as (H3 & _ & H4); [done|eapply Forall_impl; [exact Fr|apply finite_comparable]|].
  unfold bounds; conjs; [| |done|done].
  - destruct H1 as [E|]; [|done]. destruct l as [|x l]; [done|]. specialize (H2 x ltac:(by left)). rewrite E in H2.
    apply Forall_cons in Fl as [Fx _]. destruct x as [[]|[]| |[]]; done.
  - destruct H3 as [E|]; [|done]. destruct r as [|x r]; [done|]. specialize (H4 x ltac:(by left)). rewrite E in H4.
    apply Forall_cons in Fr as [Fx _]. destruct x as [[]|[]| |[]]; done.
Qed.

(** ** The range of a field over the tiers *)

(** The prices of a field that the tiers show. *)
Definition shown_prices (field : jsstr) (tiers : list DynamicPricingTier) : list num :=
  omap (λ t, match task_tier t with Some t => usage_price t field | None => None end) tiers.

Lemma usage_price_finite t f x : usage_price t f = Some x → is_finite x = true.
Proof. unfold usage_price. destruct (is_finite _) eqn:E; [|done]. cbn. destruct (nltb _ _); [done|]. by intros [= <-]. Qed.

Lemma shown_prices_finite field tiers : Forall (λ x, is_finite x = true) (shown_prices field tiers).
Proof.
  apply Forall_forall. intros x (t & _ & H)%list_elem_of_omap. destruct (task_tier t); [|done].
  by eapply usage_price_finite.
Qed.

Lemma widen_fold field tiers : ∀ lo hi,
  fold_left (widen field) tiers (lo, hi) =
  (fold_left nmin (shown_prices field tiers) lo, fold_left nmax (shown_prices field tiers) hi).
Proof.
  induction tiers as [|t tiers IH]; intros lo hi; [done|]. cbn. unfold widen at 2.
  destruct (task_tier t) as [k|]; [|apply IH]. destruct (usage_price k field); apply IH.
Qed.

Lemma tier_range_bounds field tiers : shown_prices field tiers ≠ [] →
  ∃ lo hi, tier_range field tiers = Some (lo, hi) ∧ bounds (shown_prices field tiers) (shown_prices field tiers) lo hi.
Proof.
  intros Hne. pose proof (shown_prices_finite field tiers) as Hf. pose proof (folds_bound _ _ Hne Hne Hf Hf) as Hb.
  unfold tier_range. rewrite widen_fold. do 2 eexists. split; [|exact Hb].
  rewrite Forall_forall in Hf. destruct Hb as (H1 & H2 & _). by rewrite !Hf.
Qed.

Section range_facts.
Context (locale_le : jsstr → jsstr → bool) (currency : num → bool → N → N → jsstr).

Lemma ranges_fold (g : jsstr → option (num * num)) (fields : BillingUsageSchema) k : ∀ m,
  assoc (fold_left (λ m (f : jsstr * BillingUsageFieldSchema),
    match g f.1 with Some range => set_field m f.1 range | None => m end) fields m) k =
  if decide (k ∈ fields.*1) then match g k with Some range => Some range | None => assoc m k end else assoc m k.
Proof.
  induction fields as [|[f d] fields IH]; intros m; cbn [fold_left fst fmap list_fmap]; [done|]. rewrite IH.
  destruct (decide (k = f)) as [->|Hkf].
  - rewrite (decide_True (P := f ∈ f :: _)) by (by left).
    destruct (g f) eqn:E; rewrite ?assoc_set_field; repeat destruct (decide _); done.
  - assert (assoc (match g f with Some range => set_field m f range | None => m end) k = assoc m k) as ->.
    { destruct (g f); [|done]. rewrite assoc_set_field, decide_False; congruence. }
    destruct (decide (k ∈ fields.*1)); [rewrite decide_True|rewrite decide_False]; rewrite ?elem_of_cons; tauto.
Qed.

Lemma price_ranges_at schema tiers field d : (field, d) ∈ getTaskNumberFields locale_le schema →
  assoc (price_ranges locale_le schema tiers) field = tier_range field tiers.
Proof.
  intros H. unfold price_ranges. rewrite (ranges_fold (λ f, tier_range f tiers)), decide_True; [by destruct (tier_range field tiers)|].
  change field with (field, d).1. by apply list_elem_of_fmap_2.
Qed.

(** The entries of usage fields. *)
Lemma usage_entry_fields t options f e : usage_entry currency t options f = Some e →
  e_field e = f.1 ∧ e_labelKind e = label_schema ∧ usage_price t f.1 = Some (e_value e).
Proof.
  unfold usage_entry. destruct (usage_price t f.1) as [x|]; [|done]. destruct (f_unit f.2) as [[|]|]; try done.
  by intros [= <-].
Qed.

Lemma task_entries_field t schema options e : e ∈ task_entries locale_le currency t schema options →
  e_labelKind e = label_schema →
  ∃ d, (e_field e, d) ∈ getTaskNumberFields locale_le (Some schema) ∧ usage_price t (e_field e) = Some (e_value e).
Proof.
  unfold task_entries. rewrite elem_of_app. intros [H|H] Hk.
  - apply list_elem_of_omap in H as ([f d] & Hf & H). apply usage_entry_fields in H as (-> & _ & H). eauto.
  - destruct (ngtb _ _); [|by apply not_elem_of_nil in H]. apply list_elem_of_singleton in H as ->. done.
Qed.

Lemma range_text_none lo hi options : range_of currency lo hi options = None ↔ neqb lo hi = true.
Proof. unfold range_of. by destruct (neqb lo hi). Qed.
End range_facts.

(** ** Entries of the providers *)

Definition of_key (k : jsstr) (entries : list DynamicPriceEntry) : list DynamicPriceEntry :=
  List.filter (λ e, jseq (entry_key e) k) entries.

Definition merged_at (k : jsstr) (entries : list DynamicPriceEntry) : option (DynamicPriceEntry * num * num) :=
  match entries with
  | [] => None
  | e :: _ => Some (with_key k e, fold_left nmin (map entry_min entries) INFINITY,
                    fold_left nmax (map entry_max entries) (S754_infinity true))
  end.

Lemma merge_at entries k : assoc (fold_left merge_entry entries []) k = merged_at k (of_key k entries).
Proof.
  induction entries as [|e entries IH] using rev_ind; [done|].
  rewrite fold_left_app. cbn [fold_left]. unfold of_key. rewrite List.filter_app. change (List.filter _ entries) with (of_key k entries).
  unfold merge_entry at 1. cbn [List.filter]. destruct (decide (entry_key e = k)) as [<-|Hk].
  - rewrite jseq_refl, IH. set (k := entry_key e) in *. destruct (of_key k entries) as [|e' l]; cbn [merged_at default from_option]; unfold id; cbv zeta iota beta.
    + by rewrite assoc_set_field, decide_True.
    + rewrite assoc_set_field, decide_True by done. cbn [app merged_at]. by rewrite !map_cons, !map_app, !app_comm_cons, !fold_left_app.
  - rewrite (proj2 (jseq_neq _ _) Hk), app_nil_r.
    destruct (default _ _) as [[merged lo] hi]. by rewrite assoc_set_field, decide_False.
Qed.

Lemma set_field_distinct {A} (l : list (jsstr * A)) k a : NoDup l.*1 → NoDup (set_field l k a).*1.
Proof.
  induction l as [|[k' b] l IH]; cbn; intros H; [apply NoDup_singleton|].
  apply NoDup_cons in H as [Hn Hd]. destruct (jseq k' k) eqn:E; cbn; [by apply NoDup_cons|].
  apply NoDup_cons. split; [|by apply IH]. intros ([k0 c] & -> & H)%list_elem_of_fmap.
  apply elem_of_set_field in H as [[= -> ->]|H]; [by rewrite jseq_refl in E|].
  apply Hn. change k0 with (k0, c).1. by apply list_elem_of_fmap_2.
Qed.

Lemma merged_distinct entries : NoDup (fold_left merge_entry entries []).*1.
Proof.
  induction entries as [|e entries IH] using rev_ind; [constructor|]. rewrite fold_left_app. cbn [fold_left].
  unfold merge_entry at 1. destruct (default _ _) as [[merged lo] hi]. by apply set_field_distinct.
Qed.

Lemma merged_elem entries k r : (k, r) ∈ fold_left merge_entry entries [] ↔ merged_at k (of_key k entries) = Some r.
Proof.
  rewrite <-merge_at. split; [apply assoc_intro, merged_distinct|apply assoc_elem].
Qed.
