(* ===== verification/CatalogueTheorems.v ===== *)
(** * The catalogue is labelled and priced as stated

    The stable sort as a permutation, tags, billing kinds,
    group ratios, the compatibility of task expressions, and the ranges of
    prices a card shows: first the lemmas, then the theorems. *)
From stdpp Require Import base list option numbers sets sorting.
From Stdlib Require Import ZArith SpecFloat Lia.
From S2P Require Import Prelude.
From S2P Require Import JsString.
From S2P Require Import JsNumber.
From S2P Require Import Syntax.
From S2P Require Import Parser.
From S2P Require Import Compile.
From S2P Require Import Runtime.
From S2P Require Import CompileFacts.
From S2P Require Import Structure.
From S2P Require Import Display.
From S2P Require Import BillingExpr.
From S2P Require Import TaskExpr.
From S2P Require Import Catalogue.
From S2P Require Import DynamicPrice.
From S2P Require Import LanguageTheorems.

(** ** The stable sort *)

Section Sort.
Context {A : Type} (after : A → A → bool).

Lemma insert_stable_perm x l : insert_stable after x l ≡ₚ x :: l.
Proof.
  induction l as [|y l IH]; [done|]. cbn. destruct (after y x); [done|]. rewrite IH. apply Permutation_swap.
Qed.

Lemma stable_sort_perm l : stable_sort after l ≡ₚ l.
Proof.
  unfold stable_sort. assert (∀ acc, fold_left (λ sorted x, insert_stable after x sorted) l acc ≡ₚ acc ++ l) as K.
  { induction l as [|x l IH]; intros acc; [cbn; by rewrite app_nil_r|]. cbn. rewrite IH, insert_stable_perm.
    by rewrite <- Permutation_middle. }
  by rewrite K.
Qed.

End Sort.

(** ** Group ratios *)

(** A configured ratio of one of the groups. *)
Definition configured (ratios : list (jsstr * num)) (groups : list jsstr) (x : num) : Prop :=
  ∃ g, g ∈ groups ∧ assoc ratios g = Some x ∧ is_finite x = true.

Lemma configured_cons ratios g groups x :
  configured ratios (g :: groups) x ↔
  (assoc ratios g = Some x ∧ is_finite x = true) ∨ configured ratios groups x.
Proof.
  unfold configured. split.
  - intros (h & [->|H]%elem_of_cons & A & F); [by left|right; eauto].
  - intros [[A F]|(h & H & A & F)]; [exists g|exists h]; rewrite elem_of_cons; auto.
Qed.

Lemma min_ratio_spec ratios groups r0 :
  let r := min_ratio ratios groups r0 in
  (r = r0 ∨ configured ratios groups r ∧ nltb r r0 = true) ∧
  ∀ x, configured ratios groups x → nltb x r = false.
Proof.
  revert r0. induction groups as [|g groups IH]; intros r0; cbn [min_ratio].
  { split; [by left|]. intros x (h & H & _). by apply not_elem_of_nil in H. }
  set (r1 := match assoc ratios g with Some _ => _ | None => _ end).
  destruct (IH r1) as [M N]. set (r := min_ratio ratios groups r1) in *.
  assert (r1 = r0 ∨ (assoc ratios g = Some r1 ∧ is_finite r1 = true) ∧ nltb r1 r0 = true) as R.
  { unfold r1. destruct (assoc ratios g) as [x|]; [|by left]. destruct (is_finite x) eqn:F, (nltb x r0) eqn:L; auto. }
  assert (∀ x, assoc ratios g = Some x → is_finite x = true → nltb x r1 = false) as X.
  { intros x A F. unfold r1. rewrite A, F. cbn [andb]. destruct (nltb x r0) eqn:L; [apply nltb_irrefl|done]. }
  clearbody r. clearbody r1. split.
  - destruct M as [->|[C L]]; [destruct R as [->|[C L]]; [by left|right; rewrite configured_cons; auto]|].
    right. rewrite configured_cons. split; [by right|]. destruct R as [<-|[_ L']]; [done|by eapply nltb_trans].
  - intros x [[A F]|C]%configured_cons; [|by apply N]. specialize (X x A F).
    destruct M as [->|[_ L]]; [done|]. destruct (nltb x r) eqn:Y; [|done].
    by rewrite (nltb_trans _ _ _ Y L) in X.
Qed.

(** ** Tags *)

Lemma listed_spec l t : listed l t = true ↔ t ∈ l.
Proof.
  unfold listed. rewrite existsb_exists. split.
  - intros (x & I & E). apply jseq_eq in E as ->. by apply list_elem_of_In.
  - intros I. exists t. split; [by apply list_elem_of_In|by apply jseq_eq].
Qed.

Section Tags.
Context {host : Host}.

Lemma add_tag_elem l t x : x ∈ add_tag l t ↔ x ∈ l ∨ x = t.
Proof.
  unfold add_tag. destruct (listed l t) eqn:E.
  - apply listed_spec in E. split; [by left|]. by intros [?| ->].
  - by rewrite elem_of_app, list_elem_of_singleton.
Qed.

Lemma add_tag_nodup l t : NoDup l → NoDup (add_tag l t).
Proof.
  intros D. unfold add_tag. destruct (listed l t) eqn:E; [done|]. apply NoDup_app. split_and!; [done| |apply NoDup_singleton].
  intros x X ->%list_elem_of_singleton. apply listed_spec in X. congruence.
Qed.

Definition tag_set (ms : list PricingModel) (set : list jsstr) : list jsstr :=
  fold_left (λ set m, fold_left (λ set t, add_tag set (to_lower_case t)) (parseTags (tags m)) set) ms set.

Lemma model_tags_spec ts set :
  (NoDup set → NoDup (fold_left (λ set t, add_tag set (to_lower_case t)) ts set)) ∧
  ∀ x, x ∈ fold_left (λ set t, add_tag set (to_lower_case t)) ts set ↔
       x ∈ set ∨ x ∈ map to_lower_case ts.
Proof.
  revert set. induction ts as [|t ts IH]; intros set; cbn [fold_left map].
  - split; [done|]. intros x. rewrite elem_of_nil. tauto.
  - destruct (IH (add_tag set (to_lower_case t))) as [D E]. split.
    + intros N. by apply D, add_tag_nodup.
    + intros x. rewrite E, add_tag_elem, elem_of_cons. tauto.
Qed.

Lemma tag_set_spec ms set :
  (NoDup set → NoDup (tag_set ms set)) ∧
  ∀ x, x ∈ tag_set ms set ↔ x ∈ set ∨ ∃ m, m ∈ ms ∧ x ∈ map to_lower_case (parseTags (tags m)).
Proof.
  unfold tag_set. revert set. induction ms as [|m ms IH]; intros set; cbn [fold_left].
  - split; [done|]. intros x. split; [by left|]. intros [?|(m & M & _)]; [done|]. by apply not_elem_of_nil in M.
  - destruct (IH (fold_left (λ set t, add_tag set (to_lower_case t)) (parseTags (tags m)) set)) as [D E].
    destruct (model_tags_spec (parseTags (tags m)) set) as [D' E']. split; [auto|].
    intros x. rewrite E, E'. split.
    + intros [[?|?]|(n & N & ?)]; [by left|right; exists m|right; exists n]; rewrite elem_of_cons; auto.
    + intros [?|(n & [->|N]%elem_of_cons & ?)]; eauto.
Qed.
End Tags.

(** ** Theorems about the catalogue of models

    Tags, billing kinds, group ratios and the compatibility of task
    expressions. *)

Definition plain_host : Host := {| to_lower_case := id; date_time_format := λ _, None |}.
(** Every tag that is offered is one of a model and selects it; no tag is
    offered twice. *)
Theorem offered_tags_select {host : Host} locale_le models :
  (∀ s, to_lower_case (to_lower_case s) = to_lower_case s) →
  let offered := extractAllTags locale_le models in
  NoDup offered ∧
  (∀ m t, m ∈ models → t ∈ parseTags (tags m) → to_lower_case t ∈ offered) ∧
  ∀ t, t ∈ offered → ∃ m, m ∈ models ∧ m ∈ filterByTag models t.
Proof.
  intros L offered. destruct (tag_set_spec models []) as [D E].
  assert (∀ t, t ∈ offered ↔ ∃ m, m ∈ models ∧ t ∈ map to_lower_case (parseTags (tags m))) as O.
  { intros t. unfold offered, extractAllTags. rewrite stable_sort_perm. change (fold_left _ models []) with (tag_set models []).
    rewrite E, elem_of_nil. tauto. }
  split; [|split].
  - unfold offered, extractAllTags. rewrite stable_sort_perm. apply D. constructor.
  - intros m t M T. apply O. exists m. split; [done|]. by apply list_elem_of_fmap_2.
  - intros t (m & M & T)%O. exists m. split; [done|]. unfold filterByTag. destruct (jseq t FILTER_ALL); [done|].
    apply list_elem_of_In, filter_In. split; [by apply list_elem_of_In|]. unfold matches_tag. apply listed_spec.
    apply list_elem_of_fmap in T as (s & -> & S). rewrite L. by apply list_elem_of_fmap_2.
Qed.

(** The kinds of billing of the quota filter are disjoint and, for the two
    quota types, exhaustive: a model is in exactly one of the lists. *)
Theorem quota_kinds_partition m :
  neqb (quota_type m) TOKEN || neqb (quota_type m) REQUEST = true →
  length (filterByQuotaType [m] (js "token")) + length (filterByQuotaType [m] (js "request"))
  + length (filterByQuotaType [m] (js "task")) = 1.
Proof.
  intros Q. unfold filterByQuotaType. change (quota_filter_of (js "token")) with quota_token.
  change (quota_filter_of (js "request")) with quota_request. change (quota_filter_of (js "task")) with quota_task.
  cbn [List.filter]. assert (neqb (quota_type m) TOKEN = true → neqb (quota_type m) REQUEST = true → False) as X.
  { unfold TOKEN, REQUEST. destruct (quota_type m) as [[]|[]| |[] mm e]; cbn; try discriminate. }
  destruct (neqb (quota_type m) TOKEN), (neqb (quota_type m) REQUEST), (hasTaskUsageSchema m); cbn; try done; by destruct X.
Qed.

(** The ratio of the displayed price is the least configured ratio of the
    groups of the model, or one if none is configured. *)
Theorem display_ratio_is_least m groups :
  enable_groups m = Some groups → groups ≠ [] →
  let ratios := default [] (group_ratio m) in
  let r := getDisplayGroupRatio m None in
  (configured ratios groups r ∧ ∀ x, configured ratios groups x → nltb x r = false) ∨
  (r = nZ 1 ∧ ∀ x, ¬ configured ratios groups x).
Proof.
  intros G NE ratios r. unfold r, getDisplayGroupRatio. rewrite G. cbn [default].
  destruct groups as [|g groups]; [done|]. fold ratios.
  destruct (min_ratio_spec ratios (g :: groups) INFINITY) as [M N]. set (k := min_ratio _ _ _) in *. clearbody k.
  destruct M as [->|[C L]].
  - right. split; [done|]. intros x C. specialize (N x C). destruct C as (h & _ & _ & F). by destruct x as [| | |[]].
  - left. assert (neqb k INFINITY = false) as -> by (destruct C as (h & _ & _ & F); by destruct k as [| | |[]]). done.
Qed.

(** A group without a configured ratio is billed with ratio one, but does not
    count for the displayed price: the price shown as the best one can be
    higher than the price of a group of the model. *)
Definition two_groups : PricingModel :=
  {| billing_plugin_variants := None; model_name := Some (js "m"); description := None; vendor_name := None;
     quota_type := nZ 0; model_ratio := nZ 1; completion_ratio := nZ 1; model_price := None; cache_ratio := None;
     create_cache_ratio := None; image_ratio := None; audio_ratio := None; audio_completion_ratio := None;
     enable_groups := Some [js "vip"; js "default"]; tags := None; supported_endpoint_types := None;
     group_ratio := Some [(js "vip", nZ 2)]; billing_mode := None; billing_expr := None;
     billing_usage_schema := None; billing_usage_examples := None |}.
Theorem best_price_misses_a_group :
  getDisplayGroupRatio two_groups None = nZ 2 ∧
  getConfiguredGroupRatio (default [] (group_ratio two_groups)) (js "default") = nZ 1.
Proof. by split. Qed.

Lemma compatible_fold schema l b :
  rfold (compatible_visitor schema) l b = Ok (b && forallb (λ n, negb (unknown_usage schema n)) l).
Proof.
  revert b. induction l as [|n l IH]; intros b; cbn; [by rewrite andb_true_r|]. rewrite IH. by rewrite <- andb_assoc.
Qed.

(** The check of a task expression against a schema is exact: it answers
    unless the expression does not compile, and accepts the expressions
    without a fixed price in which every literal usage key is a field. *)
Theorem compatibility_is_exact expression schema :
  trim expression ≠ [] →
  match compile expression with
  | Err _ => taskExpressionCompatible expression schema = Ok None
  | Ok c =>
      ∃ b, taskExpressionCompatible expression schema = Ok (Some b) ∧
        (b = true ↔
         (∀ sp args, ¬ subnode (ECall sp Ffixed args) (c_ast c)) ∧
         ∀ sp sp' k more, subnode (ECall sp Fu (ELit sp' (LStr k) :: more)) (c_ast c) → assoc schema k ≠ None)
  end.
Proof.
  intros T. unfold taskExpressionCompatible. destruct (trim expression); [done|].
  destruct (compile expression) as [c|] eqn:C; [|done]. apply compile_ok in C.
  rewrite visitExpression_postorder by apply (ok_height _ _ C). rewrite compatible_fold.
  eexists. split; [reflexivity|]. rewrite andb_true_iff, negb_true_iff, bool_decide_eq_false, forallb_forall.
  rewrite (ok_functions _ _ C). split.
  - intros [F U]. split; [intros sp args S; apply F; eauto|]. intros sp sp' k more S%elem_of_postorder%list_elem_of_In A.
    specialize (U _ S). cbn in U. by rewrite A in U.
  - intros [F U]. split; [by intros (sp & args & S); apply (F sp args)|]. intros x N%list_elem_of_In%elem_of_postorder.
    destruct x as [| |sp [] [|[sp' []| | | | |] more]| | |]; try done. cbn. specialize (U _ _ _ _ N).
    by destruct (assoc schema value).
Qed.

(** ** Ranges of prices *)

Section Summaries.
Context {host : Host} (locale_le : jsstr → jsstr → bool) (currency : num → bool → N → N → jsstr) (current_time : date).
Abbreviation summary_of := (getDynamicPricingSummary locale_le currency current_time).

(** The summary of a model without providers. *)
Lemma own_summary_Ok m options s : own_summary locale_le currency current_time m options = Ok (Some s) →
  getDynamicPricingTiers m = Ok (s_tiers s) ∧ s_isTaskUsage s = isTaskUsagePricingModel m ∧
  (s_isTaskUsage s = true →
   s_entries s = map (ranged currency options (price_ranges locale_le (billing_usage_schema m) (s_tiers s)))
     (getDynamicPriceEntries locale_le currency (last (s_tiers s)) (with_schema options (billing_usage_schema m)))) ∧
  (∃ primary, s_primaryEntries s = List.filter primary (s_entries s) ∧
     s_secondaryEntries s = List.filter (λ e, negb (primary e)) (s_entries s)).
Proof.
  unfold own_summary. destruct (isDynamicPricingModel m); [|done]. cbn [negb]. intros H.
  apply bind_Ok in H as (tiers & Ht & H). apply bind_Ok in H as (split & _ & H).
  apply bind_Ok in H as (timeTiers & Htime & H). apply bind_Ok in H as (rules & _ & H).
  destruct (isTaskUsagePricingModel m); injection H as <-;
    cbn [s_tiers s_isTaskUsage s_entries s_primaryEntries s_secondaryEntries].
  - injection Htime as <-. conjs; [done..|]. exists (λ e, negb (per_call e)). split; [done|].
    apply filter_ext. intros e. by rewrite negb_involutive.
  - conjs; [done..|]. exists (λ e, per_call e || primary_field e). split; [done|].
    apply filter_ext. intros e. by rewrite negb_orb.
Qed.

(** Prices of tokens have labels of the console. *)
Lemma token_entries_kind t options e : e ∈ token_entries currency t options → e_labelKind e = label_i18n.
Proof.
  unfold token_entries. rewrite stable_sort_perm. intros (v & _ & H)%list_elem_of_omap. unfold token_entry in H.
  destruct (field v) as [[|]|]; try done. cbv zeta in H.
  repeat match type of H with (if ?b then None else _) = _ => destruct b; [done|] end. by injection H as <-.
Qed.

Lemma schema_entries tier options e :
  e ∈ getDynamicPriceEntries locale_le currency tier options → e_labelKind e = label_schema →
  ∃ t schema, tier = Some (TaskPrices t) ∧ o_usageSchema options = Some schema ∧
    e ∈ task_entries locale_le currency t schema options.
Proof.
  unfold getDynamicPriceEntries. intros He Hk. destruct tier as [[t|t]|]; [| |by apply not_elem_of_nil in He].
  - destruct (pt_request t) as [[x|]|]; [|by apply token_entries_kind in He; congruence..].
    apply list_elem_of_singleton in He as ->. unfold fixed_entry in Hk. by destruct (pt_imageCount t).
  - destruct (o_usageSchema options) as [schema|]; [eauto|by apply not_elem_of_nil in He].
Qed.

Lemma filter_split {A} (p : A → bool) l : List.filter p l ++ List.filter (λ x, negb (p x)) l ≡ₚ l.
Proof.
  induction l as [|x l IH]; [done|]. cbn. destruct (p x); cbn; [by rewrite IH|]. rewrite <-Permutation_middle. by rewrite IH.
Qed.

(** Every price of a summary is shown once, with the primary prices or with
    the others. *)
Theorem summary_shows_every_price_once m options s : summary_of m options = Ok (Some s) →
  s_primaryEntries s ++ s_secondaryEntries s ≡ₚ s_entries s.
Proof.
  unfold getDynamicPricingSummary. intros H.
  assert (own_summary locale_le currency current_time m options = Ok (Some s) →
    s_primaryEntries s ++ s_secondaryEntries s ≡ₚ s_entries s) as Hown.
  { intros (_ & _ & _ & primary & -> & ->)%own_summary_Ok. apply filter_split. }
  destruct (billing_plugin_variants m) as [[|v vs]|]; [by apply Hown| |by apply Hown].
  apply bind_Ok in H as (summaries & _ & H). injection H as <-. unfold provider_summary; cbn [s_entries s_primaryEntries s_secondaryEntries]. rewrite stable_sort_perm.
  rewrite <-(filter_split is_primary (merge_entries _ _ _)) at 3. f_equiv.
  erewrite filter_ext; [done|]. intros e. unfold is_primary. by rewrite negb_orb, negb_involutive.
Qed.

(** C6: the range a card shows for a field of the usage of a model is exact:
    its ends are the least and the greatest price of the field in the tiers
    of the model, and a single price is shown when they are equal. *)
Theorem shown_range_is_exact m options s e :
  billing_plugin_variants m = None → summary_of m options = Ok (Some s) → s_isTaskUsage s = true →
  e ∈ s_entries s → e_labelKind e = label_schema →
  ∃ lo hi, e_minValue e = Some lo ∧ e_maxValue e = Some hi ∧
    bounds (shown_prices (e_field e) (s_tiers s)) (shown_prices (e_field e) (s_tiers s)) lo hi ∧
    (e_formattedRange e = None ↔ neqb lo hi = true).
Proof.
  unfold getDynamicPricingSummary. intros -> (_ & _ & Hentries & _)%own_summary_Ok Ht He Hk.
  rewrite (Hentries Ht) in He. apply list_elem_of_fmap in He as (e0 & -> & He). unfold ranged in *.
  assert (e_labelKind e0 = label_schema) as Hk0 by (by destruct (assoc _ _)).
  apply schema_entries in He as (t & schema & Hlast & Hs & He); [|done]. cbn [with_schema o_usageSchema] in Hs.
  apply task_entries_field in He as (d & Hd & Hp); [|done].
  assert (e_value e0 ∈ shown_prices (e_field e0) (s_tiers s)) as Hin.
  { apply list_elem_of_omap. exists (TaskPrices t). split; [by apply last_Some_elem_of|done]. }
  destruct (tier_range_bounds (e_field e0) (s_tiers s)) as (lo & hi & Hr & Hb);
    [intros Hnil; rewrite Hnil in Hin; by apply not_elem_of_nil in Hin|].
  rewrite <-Hs in Hd. rewrite (price_ranges_at _ _ _ _ d Hd), Hr.
  exists lo, hi. conjs; [done..|exact Hb|apply range_text_none].
Qed.

(** What the loop over the entries of the providers leaves at a key. *)
Lemma merged_at_spec k entries r : merged_at k (of_key k entries) = Some r →
  ∃ first, first ∈ entries ∧ entry_key first = k ∧
    r = (with_key k first, fold_left nmin (map entry_min (of_key k entries)) INFINITY,
         fold_left nmax (map entry_max (of_key k entries)) (S754_infinity true)) ∧ of_key k entries ≠ [].
Proof.
  intros H. destruct (of_key k entries) as [|first l] eqn:E; [done|]. injection H as <-.
  assert (In first (of_key k entries)) as [Hin Hk]%filter_In by (rewrite E; by left).
  exists first. conjs; [by apply list_elem_of_In|by apply jseq_eq|done..].
Qed.

Lemma entries_at_key k entries e : e ∈ of_key k entries ↔ e ∈ entries ∧ entry_key e = k.
Proof. unfold of_key. by rewrite !list_elem_of_In, filter_In, jseq_eq. Qed.

End Summaries.

(** ** Examples *)

Definition any_order (a b : jsstr) : bool := true.
Definition amount_text (x : num) (_ : bool) (_ _ : N) : jsstr := number_to_string x.
Definition plain_options : DynamicPriceOptions :=
  {| o_tokenUnit := unit_M; o_showCurrencySymbol := None; o_showRechargePrice := None; o_priceRate := None;
     o_usdExchangeRate := None; o_groupRatioMultiplier := None; o_usageSchema := None; o_now := None |}.

Definition video_fields : BillingUsageSchema :=
  [(js "mode", {| f_type := None; f_unit := None; f_enum := Some [js "std"; js "pro"] |});
   (js "seconds", {| f_type := Some FNumber; f_unit := Some (js "second"); f_enum := None |})].
Definition modes : jsstr := src "u('mode') == 'pro' ? tier('pro', u('seconds') * 5) : tier('std', u('seconds') * 3)".

Definition task_model : PricingModel :=
  {| billing_plugin_variants := None; model_name := Some (js "video"); description := None; vendor_name := None;
     quota_type := nZ 0; model_ratio := nZ 1; completion_ratio := nZ 1; model_price := None; cache_ratio := None;
     create_cache_ratio := None; image_ratio := None; audio_ratio := None; audio_completion_ratio := None;
     enable_groups := None; tags := None; supported_endpoint_types := None; group_ratio := None;
     billing_mode := Some (js "tiered_expr"); billing_expr := Some modes;
     billing_usage_schema := Some video_fields; billing_usage_examples := None |}.

Definition variant (key expression : jsstr) (schema : BillingUsageSchema) : BillingPluginVariant :=
  {| plugin_key := key; plugin_name := key; v_billing_expr := expression; v_billing_mode := None;
     v_billing_usage_schema := schema; v_billing_usage_examples := None |}.
Definition offered_by (m : PricingModel) (variants : list BillingPluginVariant) : PricingModel :=
  {| billing_plugin_variants := Some variants; model_name := model_name m; description := description m;
     vendor_name := vendor_name m; quota_type := quota_type m; model_ratio := model_ratio m;
     completion_ratio := completion_ratio m; model_price := model_price m; cache_ratio := cache_ratio m;
     create_cache_ratio := create_cache_ratio m; image_ratio := image_ratio m; audio_ratio := audio_ratio m;
     audio_completion_ratio := audio_completion_ratio m; enable_groups := enable_groups m; tags := tags m;
     supported_endpoint_types := supported_endpoint_types m; group_ratio := group_ratio m;
     billing_mode := billing_mode m; billing_expr := billing_expr m;
     billing_usage_schema := billing_usage_schema m; billing_usage_examples := billing_usage_examples m |}.

Definition summary (m : PricingModel) (options : DynamicPriceOptions) : result exn (option DynamicPricingSummary) :=
  @getDynamicPricingSummary utc_host any_order amount_text None m options.
Definition entries_of (m : PricingModel) (options : DynamicPriceOptions) : list DynamicPriceEntry :=
  match summary m options with Ok (Some s) => s_entries s | _ => [] end.

Lemma shown_range_is_exact_witness :
  ∃ s e, summary task_model plain_options = Ok (Some s) ∧ s_entries s = [e] ∧
    e_minValue e = Some (nZ 3) ∧ e_maxValue e = Some (nZ 5) ∧
    bounds (shown_prices (js "seconds") (s_tiers s)) (shown_prices (js "seconds") (s_tiers s)) (nZ 3) (nZ 5).
Proof.
  destruct (summary task_model plain_options) as [[s|]|] eqn:E; [|vm_compute in E; discriminate..].
  destruct (s_entries s) as [|e [|]] eqn:Ee;
    [vm_compute in E; injection E as <-; discriminate| |vm_compute in E; injection E as <-; discriminate].
  destruct (@shown_range_is_exact utc_host any_order amount_text None task_model plain_options s e)
    as (lo & hi & H1 & H2 & H3 & _).
  - reflexivity.
  - exact E.
  - vm_compute in E. injection E as <-. reflexivity.
  - rewrite Ee. by left.
  - vm_compute in E. injection E as <-. cbn in Ee. injection Ee as <-. reflexivity.
  - assert (e_minValue e = Some (nZ 3) ∧ e_maxValue e = Some (nZ 5) ∧ e_field e = js "seconds") as (H4 & H5 & H6).
    { vm_compute in E. injection E as <-. cbn in Ee. injection Ee as <-. vm_compute. done. }
    exists s, e. rewrite H1 in H4. rewrite H2 in H5. injection H4 as ->. injection H5 as ->. rewrite H6 in H3.
    split; [reflexivity|]. split; [exact Ee|]. split; [exact H1|]. split; [exact H2|exact H3].
Defined.

Definition two_providers : PricingModel :=
  offered_by task_model [variant (js "a") modes video_fields;
                         variant (js "b") (src "tier('only', u('seconds') * 4 + 1)") video_fields].


(** Prices of tokens per thousand: a provider without usage fields. *)
Definition thousands : DynamicPriceOptions :=
  {| o_tokenUnit := unit_K; o_showCurrencySymbol := None; o_showRechargePrice := None; o_priceRate := None;
     o_usdExchangeRate := None; o_groupRatioMultiplier := None; o_usageSchema := None; o_now := None |}.
Definition chat_provider : BillingPluginVariant := variant (js "a") (src "tier('t', p * 2)") [].

(** The summary of the providers of a model formats every price as an amount
    per unit.  A price of tokens is shown per million where the card names the
    chosen unit, a thousand: a thousand times the price of the provider. *)
Theorem provider_token_price_ignores_the_unit :
  map e_formatted (entries_of (withPluginPricing task_model chat_provider) thousands) = [js "0.002"] ∧
  map (λ e, (e_formatted e, getDynamicPriceUnitLabelKey e)) (entries_of (offered_by task_model [chat_provider]) thousands)
  = [(js "2", None)].
Proof. vm_compute. done. Qed.
