(* ===== verification/JsDynamic.v ===== *)
(** * Dynamic values

    The task plugins under [src/plugins] are plain JavaScript over values
    whose shape nobody checked: request bodies of clients, answers of
    providers and the context the gateway passes.  This file gives the
    operations of the language they use on [jsval]: property access that
    throws on [null] and [undefined], conversions to number, text and truth,
    object literals, assignment and [Object.assign], and the string methods.

    A function that may throw returns [JS A]; [Thrown m] is
    [throw new Error(m)], [TypeError] what the language itself throws,
    [URIError] what [encodeURIComponent] throws and [SyntaxError] what
    [JSON.parse] throws.

    Names that objects inherit from [Object.prototype] are outside the model,
    as they are for the rest of the library, and an object lists its keys in
    the order of their first definition. *)
From stdpp Require Import base list option numbers sets.
From Stdlib Require Import ZArith SpecFloat Lia.
From S2P Require Import Prelude.
From S2P Require Import JsString.
From S2P Require Import JsNumber.
From S2P Require Import Syntax.
From S2P Require Import Runtime.
From S2P Require Import Json.
From S2P Require Import JsText.
From S2P Require Import JsonPrint.
From S2P Require Import AdvancedCustom.

Inductive thrown : Type :=
| Thrown (message : jsstr)
| TypeError
| URIError
| SyntaxError.

Abbreviation JS := (result thrown).

(** [throw new Error(message)], and [if (b) throw new Error(message);] *)
Definition throw {A} (message : jsstr) : JS A := Err (Thrown message).
Definition throw_if (b : bool) (message : jsstr) : JS unit := if b then throw message else Ok tt.

(** ** Objects *)

Definition obj : Type := list (jsstr * jsval).
Definition str (s : string) : jsval := JStr (js s).
Arguments str s%_string.

(** The array index a property key denotes. *)
Definition array_index (key : jsstr) : option N :=
  let n := digits_value key in if jseq (N_text n) key then Some n else None.

Definition element {A} (l : list A) (key : jsstr) : option A :=
  n ← array_index key;
  if (n <? N.of_nat (length l))%N then l !! N.to_nat n else None.

(** [v.key] and [v[key]] on a value that is neither [null] nor [undefined]. *)
Definition get (v : jsval) (key : jsstr) : jsval :=
  match v with
  | JObj fields => default JUndefined (own fields key)
  | JArr items =>
      if jseq key (js "length") then JNum (nZ (Z.of_nat (length items))) else default JUndefined (element items key)
  | JStr s =>
      if jseq key (js "length") then JNum (nZ (Z.of_nat (length s)))
      else match element s key with Some c => JStr [c] | None => JUndefined end
  | _ => JUndefined
  end.

(** [v.key] *)
Definition dot (v : jsval) (key : jsstr) : JS jsval :=
  if is_nullish v then Err TypeError else Ok (get v key).

Declare Scope js_scope.
Delimit Scope js_scope with js.
Notation "v ~> k" := (get v (js k%string)) (at level 8, left associativity, format "v ~> k") : js_scope.
Notation "v ~>! k" := (dot v (js k%string)) (at level 8, left associativity, format "v ~>! k") : js_scope.
Notation "k ↦ v" := (js k%string, v) (at level 60) : js_scope.
Open Scope js_scope.

(** [object.key = value], [delete object.key] *)
Definition put (o : obj) (key : jsstr) (v : jsval) : obj := set_own o key v.
Definition remove (o : obj) (key : jsstr) : obj := List.filter (λ kv, negb (jseq kv.1 key)) o.

(** [if (b) object.key = value;] *)
Definition put_if (b : bool) (o : obj) (key : jsstr) (v : jsval) : obj := if b then put o key v else o.

(** The own enumerable properties of a value. *)
Fixpoint indexed_from (i : nat) (l : list jsval) : obj :=
  match l with
  | [] => []
  | v :: l => (nat_text i, v) :: indexed_from (S i) l
  end.
Definition entries (v : jsval) : obj :=
  match v with
  | JObj fields => fields
  | JArr items => indexed_from 0 items
  | JStr s => indexed_from 0 (map (λ c, JStr [c]) s)
  | _ => []
  end.

(** [Object.assign(target, source)] *)
Definition assign (target : obj) (source : jsval) : obj :=
  fold_left (λ o kv, put o kv.1 kv.2) (entries source) target.

(** [Object.prototype.hasOwnProperty.call(v, key)] on a value that is neither
    [null] nor [undefined] *)
Definition has_own (v : jsval) (key : jsstr) : bool :=
  match v with
  | JObj fields => match own fields key with Some _ => true | None => false end
  | JArr items => jseq key (js "length") || match element items key with Some _ => true | None => false end
  | JStr s => jseq key (js "length") || match element s key with Some _ => true | None => false end
  | _ => false
  end.

(** [v && typeof v === 'object' && !Array.isArray(v)] *)
Definition plain_object (v : jsval) : bool := match v with JObj _ => true | _ => false end.
(** [Array.isArray(v)] *)
Definition is_array (v : jsval) : bool := match v with JArr _ => true | _ => false end.
(** [typeof v === 'string'] *)
Definition is_text (v : jsval) : bool := match v with JStr _ => true | _ => false end.

(** [v || {}], [v || []], [a && b] for a [b] without effects *)
Definition or_object (v : jsval) : jsval := js_or v (JObj []).
Definition or_array (v : jsval) : jsval := js_or v (JArr []).
Definition js_and (a b : jsval) : jsval := if truthy a then b else a.

(** ** Conversions *)

(** [Number(v)] *)
Definition to_number (v : jsval) : num :=
  match v with
  | JUndefined => S754_nan
  | JNull => NZERO
  | JBool b => if b then nZ 1 else NZERO
  | JNum x => x
  | JStr s => number_of_string s
  | JArr _ | JObj _ => number_of_string (js_text v)
  end.

(** [Number.isInteger(x)] is [is_integer] of the numbers; [x !== x] aside,
    [Number.isFinite(x)] is [is_finite]. *)

(** [Number.parseFloat(v)] *)
Definition parse_float (v : jsval) : num :=
  let unsigned (s : jsstr) : num :=
    if starts_with (js "Infinity") s then S754_infinity false
    else match scan_decimal s with Some (x, _) => x | None => S754_nan end in
  match trim_start (js_text v) with
  | 43%N :: s => unsigned s
  | 45%N :: s => nneg (unsigned s)
  | s => unsigned s
  end.

(** [Number.parseInt(v, 10)] *)
Definition parse_int (v : jsval) : num :=
  let unsigned (s : jsstr) : num :=
    match span_digits s with ([], _) => S754_nan | (digits, _) => num_of_decimal (digits_value digits) 0 end in
  match trim_start (js_text v) with
  | 43%N :: s => unsigned s
  | 45%N :: s => nneg (unsigned s)
  | s => unsigned s
  end.

(** [Math.round(x)] for [x >= 0]: the nearest integer, the upper one of two *)
Definition nround (x : num) : num :=
  let f := nfloor x in if ngeb (nsub x f) (ndiv (nZ 1) (nZ 2)) then nadd f (nZ 1) else f.
(** [Math.sqrt(x)] *)
Definition nsqrt : num → num := SFsqrt 53 1024.

(** [Number.isInteger(v)] and [Number.isFinite(v)] on a value of any type *)
Definition integer_value (v : jsval) : bool := match v with JNum x => is_integer x | _ => false end.
Definition finite_value (v : jsval) : bool := match v with JNum x => is_finite x | _ => false end.

(** [String(v || "").trim()]: every plugin has this function as [trimmed]. *)
Definition trimmed_text (v : jsval) : jsstr := trim (js_text (js_or v (JStr []))).

(** [["a", "b"].includes(v)] for a list of texts *)
Definition one_of (v : jsval) (l : list jsstr) : bool :=
  match v with JStr s => str_in s l | _ => false end.

(** [table[v]] for a literal object from texts to texts *)
Definition table_get (table : obj) (v : jsval) : jsval := get (JObj table) (js_text v).

(** [for (const x of v)], [v.map], [v.some] ...: the elements of an array; the
    code points of a string where the loop is a [for]. *)
Fixpoint code_points (s : jsstr) : list jsstr :=
  match s with
  | [] => []
  | a :: s1 =>
      match s1 with
      | b :: s2 => if is_high a && is_low b then [a; b] :: code_points s2 else [a] :: code_points s1
      | [] => [[a]]
      end
  end.
Definition iterate (v : jsval) : JS (list jsval) :=
  match v with
  | JArr items => Ok items
  | JStr s => Ok (map JStr (code_points s))
  | _ => Err TypeError
  end.
Definition array_items (v : jsval) : JS (list jsval) :=
  match v with JArr items => Ok items | _ => Err TypeError end.

(** A method of strings, on a value that may not be one. *)
Definition text_of (v : jsval) : JS jsstr :=
  match v with JStr s => Ok s | _ => Err TypeError end.

(** ** Strings *)

(** [s.replace(/c/g, t)] and [s.replace("c", t)] for one character *)
Definition replace_all (c : N) (t s : jsstr) : jsstr :=
  flat_map (λ x, if (x =? c)%N then t else [x]) s.
Fixpoint replace_first (c : N) (t s : jsstr) : jsstr :=
  match s with
  | [] => []
  | x :: s => if (x =? c)%N then t ++ s else x :: replace_first c t s
  end.
(** [s.replace(p, t)] for a text [p] *)
Fixpoint replace_text (p t s : jsstr) : jsstr :=
  if starts_with p s then t ++ drop (length p) s
  else match s with [] => [] | x :: s => x :: replace_text p t s end.

(** [encodeURIComponent(s)] *)
Definition unreserved (c : N) : bool := is_alpha c || is_digit c || existsb (N.eqb c) (js "-_.!~*'()").
Definition percent (b : N) : jsstr :=
  let hex d := if (d <? 10)%N then (48 + d)%N else (55 + d)%N in [cu "%"; hex (b / 16)%N; hex (b mod 16)%N].
Definition utf8 (c : N) : list N :=
  if (c <? 128)%N then [c]
  else if (c <? 2048)%N then [192 + c / 64; 128 + c mod 64]%N
  else if (c <? 65536)%N then [224 + c / 4096; 128 + c / 64 mod 64; 128 + c mod 64]%N
  else [240 + c / 262144; 128 + c / 4096 mod 64; 128 + c / 64 mod 64; 128 + c mod 64]%N.
Definition encode_point (c : N) : jsstr := if unreserved c then [c] else flat_map percent (utf8 c).
Fixpoint encodeURIComponent (s : jsstr) : JS jsstr :=
  match s with
  | [] => Ok []
  | a :: s1 =>
      if is_low a then Err URIError
      else if is_high a then
        match s1 with
        | b :: s2 =>
            if is_low b then
              rest ← encodeURIComponent s2;
              Ok (encode_point (65536 + (a - 55296) * 1024 + (b - 56320))%N ++ rest)
            else Err URIError
        | [] => Err URIError
        end
      else rest ← encodeURIComponent s1; Ok (encode_point a ++ rest)
  end.

(** ** The gateway's utilities

    [utils] is the object the gateway gives to a plugin; [to_upper_case] is
    the language's [toUpperCase], beside [to_lower_case] of [Host].  A
    utility that reports an error throws. *)
Class TaskHost : Type := {
  to_upper_case : jsstr → jsstr;
  unixNow : num;
  jwtSignHS256 : jsval → jsstr → JS jsstr;
  hmacSHA256 : jsstr → jsstr → jsstr;
  base64URL : jsstr → jsstr;
  base64URLDecode : jsstr → JS jsstr;
  volcSignV4 : jsval → JS jsval
}.

(** What the plugins rely on: the case conversions on ASCII text, and that
    decoding undoes encoding. *)
Definition ascii_low (c : N) : N := if is_upper c then (c + 32)%N else c.
Definition ascii_up (c : N) : N := if is_lower c then (c - 32)%N else c.
Definition ascii_text (s : jsstr) : Prop := Forall (λ c, (c < 128)%N) s.
Class TaskHostLaws {H : Host} {U : TaskHost} : Prop := {
  lower_ascii s : ascii_text s → to_lower_case s = map ascii_low s;
  upper_ascii s : ascii_text s → to_upper_case s = map ascii_up s;
  base64URL_decodes s : ascii_text s → base64URLDecode (base64URL s) = Ok s
}.

(** ** Laws of objects *)

Lemma own_set_own fields k v k' :
  own (set_own fields k v) k' = if jseq k k' then Some v else own fields k'.
Proof.
  induction fields as [|[k0 v0] fields IH]; [done|]. cbn [set_own].
  destruct (jseq k0 k) eqn:E.
  - apply jseq_eq in E as ->. cbn [own]. by destruct (jseq k k').
  - cbn [own]. rewrite IH. destruct (jseq k0 k') eqn:E'; [|done].
    apply jseq_eq in E' as ->. destruct (jseq k k') eqn:F; [|done].
    apply jseq_eq in F as ->. by rewrite jseq_refl in E.
Qed.

Lemma own_put o k v k' : own (put o k v) k' = if jseq k k' then Some v else own o k'.
Proof. apply own_set_own. Qed.

Lemma own_put_same o k v : own (put o k v) k = Some v.
Proof. by rewrite own_put, jseq_refl. Qed.

Lemma own_put_other o k v k' : k ≠ k' → own (put o k v) k' = own o k'.
Proof. intros H. rewrite own_put. by rewrite (proj2 (jseq_neq k k') H). Qed.

Lemma own_put_if b o k v k' :
  own (put_if b o k v) k' = if b && jseq k k' then Some v else own o k'.
Proof. destruct b; [apply own_put|done]. Qed.

Lemma own_remove o k k' : own (remove o k) k' = if jseq k k' then None else own o k'.
Proof.
  unfold remove. induction o as [|[k0 v0] o IH]; cbn; [by destruct (jseq k k')|].
  destruct (jseq k0 k) eqn:E; cbn.
  - apply jseq_eq in E as ->. rewrite IH. by destruct (jseq k k').
  - rewrite IH. destruct (jseq k0 k') eqn:E'; [|done].
    apply jseq_eq in E' as ->. destruct (jseq k k') eqn:F; [|done].
    apply jseq_eq in F as ->. by rewrite jseq_refl in E.
Qed.

(** The value the last of several definitions of a key gives it. *)
Definition last_own (fields : obj) (key : jsstr) : option jsval := own (reverse fields) key.

Lemma own_app a b k : own (a ++ b) k = match own a k with Some v => Some v | None => own b k end.
Proof.
  induction a as [|[k0 v0] a IH]; [done|]. cbn. by destruct (jseq k0 k).
Qed.

Lemma own_fold_put l : ∀ o k,
  own (fold_left (λ o kv, put o kv.1 kv.2) l o) k =
  match last_own l k with Some v => Some v | None => own o k end.
Proof.
  unfold last_own. induction l as [|[k0 v0] l IH]; intros o k; [done|].
  cbn [fold_left]. rewrite IH, reverse_cons, own_app, own_put. cbn.
  destruct (own (reverse l) k); [done|]. by destruct (jseq k0 k).
Qed.

(** A property of [Object.assign(target, source)] is that of the source where
    the source has it. *)
Lemma own_assign o v k :
  own (assign o v) k = match last_own (entries v) k with Some x => Some x | None => own o k end.
Proof. apply own_fold_put. Qed.

Definition keys_unique (o : obj) : Prop := NoDup o.*1.

Lemma own_None o k : own o k = None ↔ k ∉ o.*1.
Proof.
  induction o as [|[k0 v0] o IH]; cbn; [set_solver|].
  destruct (jseq k0 k) eqn:E.
  - apply jseq_eq in E as ->. set_solver.
  - apply jseq_neq in E. rewrite IH. set_solver.
Qed.

Lemma own_Some_elem o k v : own o k = Some v → (k, v) ∈ o.
Proof.
  induction o as [|[k0 v0] o IH]; cbn; [done|].
  destruct (jseq k0 k) eqn:E; [apply jseq_eq in E as ->; intros [= ->]; left|].
  intros H. right. by apply IH.
Qed.

Lemma own_unique o k v : keys_unique o → (k, v) ∈ o → own o k = Some v.
Proof.
  unfold keys_unique. induction o as [|[k0 v0] o IH]; intros Hn Hin; [by apply not_elem_of_nil in Hin|].
  cbn in Hn. apply NoDup_cons in Hn as [Hk Hn]. apply elem_of_cons in Hin as [[= -> ->]|Hin].
  - cbn. by rewrite jseq_refl.
  - cbn. destruct (jseq k0 k) eqn:E; [|by apply IH].
    apply jseq_eq in E as ->. destruct Hk. apply list_elem_of_fmap. by exists (k, v).
Qed.

Lemma last_own_unique o k : keys_unique o → last_own o k = own o k.
Proof.
  intros Hn. unfold last_own. destruct (own o k) as [v|] eqn:E.
  - apply own_unique.
    + unfold keys_unique. by rewrite fmap_reverse, reverse_Permutation.
    + apply elem_of_reverse. by apply own_Some_elem.
  - apply own_None. rewrite fmap_reverse, elem_of_reverse. by apply own_None.
Qed.

Lemma elem_of_keys_put o k v x : x ∈ (put o k v).*1 ↔ x = k ∨ x ∈ o.*1.
Proof.
  unfold put. induction o as [|[k0 v0] o IH]; cbn; [set_solver|].
  destruct (jseq k0 k) eqn:E; cbn; [apply jseq_eq in E as ->; set_solver|].
  rewrite !elem_of_cons, IH. naive_solver.
Qed.

Lemma keys_put o k v : keys_unique o → keys_unique (put o k v).
Proof.
  unfold keys_unique. induction o as [|[k0 v0] o IH]; intros H; cbn; [apply NoDup_singleton|].
  apply NoDup_cons in H as [Hk0 Ho]. destruct (jseq k0 k) eqn:E; cbn; [by apply NoDup_cons|].
  apply jseq_neq in E. apply NoDup_cons. split; [|by apply IH].
  intros Hin%elem_of_keys_put. naive_solver.
Qed.

Lemma keys_assign o v : keys_unique o → keys_unique (assign o v).
Proof.
  unfold assign. generalize (entries v). intros l. revert o.
  induction l as [|kv l IH]; intros o H; [done|]. cbn. apply IH. by apply keys_put.
Qed.

(** ** Conversions *)

Lemma truthy_js_or a b : truthy (js_or a b) = truthy a || truthy b.
Proof. unfold js_or. destruct (truthy a) eqn:E; [by rewrite E|done]. Qed.

Lemma or_object_not_nullish v : is_nullish (or_object v) = false.
Proof. unfold or_object, js_or. by destruct v as [| |[]|[]|[]| |]. Qed.

Lemma truthy_not_nullish v : truthy v = true → is_nullish v = false.
Proof. by destruct v. Qed.

Lemma dot_Ok v k x : dot v k = Ok x ↔ is_nullish v = false ∧ x = get v k.
Proof. unfold dot. destruct (is_nullish v); naive_solver. Qed.

Lemma throw_if_Ok b m u : throw_if b m = Ok u ↔ b = false.
Proof. unfold throw_if. destruct b, u; naive_solver. Qed.

Lemma throw_if_false b m : b = false → throw_if b m = Ok tt.
Proof. by intros ->. Qed.
