(* ===== verification/PluginCommon.v ===== *)
(** * What the task plugins have in common

    Every plugin of [src/plugins/tasks] is one self-contained file, so the
    functions for the protocols of the gateway are written out again in each:
    reading the prompt and the images of a Responses request
    ([responsesInput]), decoding a JSON or multipart video request, rendering
    the events of a running task ([renderEvents]), the text of its result
    ([responsesVideoText]) and the way to its artifact ([artifactData]).  This
    file models these functions once; the file of each plugin names them under
    the plugin's own functions, next to what is particular to it.

    The context of a hook, the task and the answers of a provider are the
    dynamic values the gateway passes. *)
From stdpp Require Import base list option numbers sets.
From Stdlib Require Import ZArith SpecFloat Lia.
From S2P Require Import Prelude.
From S2P Require Import JsString.
From S2P Require Import JsNumber.
From S2P Require Import Syntax.
From S2P Require Import Runtime.
From S2P Require Import Display.
From S2P Require Import Json.
From S2P Require Import JsText.
From S2P Require Import JsonPrint.
From S2P Require Import AdvancedCustom.
From S2P Require Import JsDynamic.

Definition int (z : Z) : jsval := JNum (nZ z).

(** [a !== b] with a text, and [v !== undefined] *)
Definition is_not (v : jsval) (s : string) : bool := negb (strict_eq v (str s)).
Arguments is_not v s%_string.
Definition equals (v : jsval) (s : string) : bool := strict_eq v (str s).
Arguments equals v s%_string.
Definition is_defined (v : jsval) : bool := negb (is_undefined v).

(** [Object.prototype.hasOwnProperty.call(table, key)] for a literal table, and
    the entry *)
Fixpoint entry_of {A} (table : list (jsstr * A)) (key : jsstr) : option A :=
  match table with
  | [] => None
  | (k, a) :: table => if jseq k key then Some a else entry_of table key
  end.

(** ** Usage schemas

    What a plugin reports for billing; the console prices these fields
    ([BillingUsageSchema] of the price editor). *)
Definition number_field (unit : string) : BillingUsageFieldSchema :=
  {| f_type := Some FNumber; f_unit := Some (js unit); f_enum := None |}.
Definition enum_field (values : list jsstr) : BillingUsageFieldSchema :=
  {| f_type := None; f_unit := None; f_enum := Some values |}.
Definition boolean_field : BillingUsageFieldSchema :=
  {| f_type := Some FBoolean; f_unit := None; f_enum := None |}.
Arguments number_field unit%_string.

(** ** Responses requests *)

(** The texts and the images found so far. *)
Definition found : Type := list jsstr * list jsstr.
Definition push_text (t : jsstr) (f : found) : found := (f.1 ++ [t], f.2).
Definition push_image (t : jsstr) (f : found) : found := (f.1, f.2 ++ [t]).

Definition part_image (part : jsval) : jsval :=
  let image := part~>"image_url" in
  if truthy image && is_object image then image~>"url" else image.

Definition read_part (f : found) (part : jsval) : found :=
  match part with
  | JStr s => push_text s f
  | JObj _ =>
      let f := match part~>"text" with
               | JStr s => if one_of part~>"type" [js "input_text"; js "text"] then push_text s f else f
               | _ => f
               end in
      if one_of part~>"type" [js "input_image"; js "image_url"] && nonempty_text (trimmed_text (part_image part))
      then push_image (trimmed_text (part_image part)) f else f
  | _ => f
  end.

Definition content_of (item : jsval) : list jsval :=
  match item~>"content" with
  | JUndefined => [item]
  | JArr parts => parts
  | v => [v]
  end.

Definition read_item (f : found) (item : jsval) : found :=
  match item with
  | JStr s => push_text s f
  | JObj _ => fold_left read_part (content_of item) f
  | _ => f
  end.

Definition read_input (req : jsval) : found :=
  match req~>"input" with
  | JStr s => ([s], [])
  | JArr items => fold_left read_item items ([], [])
  | _ => ([], [])
  end.

(** Prompt and images of a request; the request is an object here. *)
Definition responses_input (req : jsval) : jsstr * list jsstr :=
  let '(texts, images) := read_input req in
  (join [10%N] (List.filter (λ t, nonempty_text (trim t)) texts), images).

(** The checks every [decodeRequest] of the Responses protocol begins with. *)
Definition responses_body (ctx : jsval) : JS jsval :=
  body ← ctx~>!"body";
  _ ← throw_if (negb (truthy body) || is_not body~>"kind" "json") (js "JSON body required");
  let req := body~>"value" in
  _ ← throw_if (negb (plain_object req)) (js "request body must be an object");
  Ok req.

Definition check_model (v : jsval) : JS jsstr :=
  let model := trimmed_text v in
  _ ← throw_if (negb (nonempty_text model)) (js "model is required");
  Ok model.

Definition check_input (req : jsval) : JS unit :=
  let input := req~>"input" in
  throw_if (is_defined input && negb (is_text input) && negb (is_array input))
    (js "input must be a string or array").

Definition check_images (req : jsval) : JS unit :=
  let images := req~>"images" in
  throw_if (is_defined images && negb (is_array images)) (js "images must be an array").

Definition check_metadata (req : jsval) : JS unit :=
  let metadata := req~>"metadata" in
  throw_if (is_defined metadata && negb (plain_object metadata)) (js "metadata must be an object").

(** [input.prompt || trimmed(req.prompt)] *)
Definition prompt_of (input : jsstr) (req : jsval) : jsstr :=
  if nonempty_text input then input else trimmed_text req~>"prompt".

Definition add_image (images : list jsstr) (image : jsval) : list jsstr :=
  let t := trimmed_text image in
  if nonempty_text t && negb (str_in t images) then images ++ [t] else images.

(** The distinct images of a request: its own fields, then those of the input. *)
Definition request_images (req : jsval) (input_images : list jsstr) : list jsstr :=
  fold_left add_image
    ([req~>"image"; req~>"input_reference"] ++
     match or_array req~>"images" with JArr items => items | v => [v] end ++ map JStr input_images) [].

(** [if (hasOwn(req, from)) body.to = req.from;] *)
Definition copy_own (req : jsval) (from : string) (to : string) (body : obj) : obj :=
  put_if (has_own req (js from)) body (js to) (get req (js from)).
Arguments copy_own req from%_string to%_string body.

Definition copy_seconds (req : jsval) (to : string) (body : obj) : obj :=
  if has_own req (js "seconds") then put body (js to) req~>"seconds" else copy_own req "duration" to body.
Arguments copy_seconds req to%_string body.

Definition video_action (with_image : bool) : jsval :=
  if with_image then str "image_to_video" else str "text_to_video".

Definition submit_request (model action : jsval) (requestBody : obj) : jsval :=
  JObj ["kind" ↦ str "submit"; "model" ↦ model; "action" ↦ action; "requestBody" ↦ JObj requestBody].

(** ** Video requests *)

(** [(fields)[name] || []]: the first value of a form field given once *)
Definition first_value (fields : jsval) (name : jsstr) : JS jsval :=
  let values := or_array (get fields name) in
  _ ← throw_if (ngtb (to_number values~>"length") (nZ 1)) (name ++ js " must be provided once");
  Ok (values~>"0").

Definition form_fields (body : jsval) : JS obj :=
  let fields := or_object body~>"fields" in
  rfold (λ name req, v ← first_value fields name; Ok (put req name v)) (entries fields).*1 [].

(** The loop over the files; the state is [hasInputReferenceFile]. *)
Definition accept_file (check : jsval → JS unit) (file : jsval) (has : bool) : JS bool :=
  field ← file~>!"field";
  _ ← throw_if (is_not field "input_reference") (js "unexpected file field: " ++ js_text field);
  _ ← throw_if has (js "input_reference must be provided once");
  _ ← check file;
  Ok true.
Definition form_files (check : jsval → JS unit) (body : jsval) : JS bool :=
  files ← iterate (or_array body~>"files");
  rfold (accept_file check) files false.
Definition any_file (file : jsval) : JS unit := Ok tt.

Definition form_metadata (req : obj) : JS obj :=
  let metadata := (JObj req)~>"metadata" in
  if is_undefined metadata then Ok req
  else match json_parse (js_text metadata) with
       | Some parsed =>
           _ ← throw_if (negb (plain_object parsed)) (js "metadata must be a JSON object string");
           Ok (put req (js "metadata") parsed)
       | None => throw (js "metadata must be a JSON object string")
       end.

Definition form_seconds (req : obj) : obj :=
  if is_defined (JObj req)~>"seconds" then put req (js "seconds") (JNum (to_number (JObj req)~>"seconds"))
  else put_if (is_defined (JObj req)~>"duration") req (js "seconds") (JNum (to_number (JObj req)~>"duration")).

(** A multipart body: its fields, and whether it carries a reference file. *)
Definition form_request (check : jsval → JS unit) (body : jsval) : JS (obj * bool) :=
  req ← form_fields body;
  has ← form_files check body;
  req ← form_metadata req;
  Ok (form_seconds req, has).

Definition json_object_body (body : jsval) : JS jsval :=
  let value := body~>"value" in
  _ ← throw_if (negb (truthy value) || is_array value) (js "JSON object required");
  Ok value.

Definition video_body (ctx : jsval) : JS jsval :=
  body ← ctx~>!"body";
  _ ← throw_if (negb (truthy body) || is_not body~>"kind" "json" && is_not body~>"kind" "multipart")
        (js "JSON or multipart body required");
  Ok body.

(** The request of a JSON or multipart body. *)
Definition video_request (check : jsval → JS unit) (ctx : jsval) : JS (obj * bool) :=
  body ← video_body ctx;
  if equals body~>"kind" "json" then
    value ← json_object_body body; Ok (assign [] value, false)
  else form_request check body.

(** [req.seconds === undefined ? req.duration : req.seconds] *)
Definition requested_seconds (req : jsval) : jsval :=
  if is_undefined req~>"seconds" then req~>"duration" else req~>"seconds".

(** The request passed on: [Object.assign({}, req, { model: ctx.model })]. *)
Definition with_model (req : jsval) (ctx : jsval) : obj := put (assign [] req) (js "model") ctx~>"model".

(** ** Files and artifacts *)

Definition file_placeholder (image : jsval) : jsval :=
  if negb (plain_object image) || negb (truthy image~>"__fileRef") then image
  else
    let placeholder := ["__fileRef" ↦ image~>"__fileRef"; "encoding" ↦ image~>"encoding"] in
    let placeholder := put_if (truthy image~>"mimeType") placeholder (js "mimeType") image~>"mimeType" in
    JObj (put_if (negb (is_nullish image~>"maxBytes")) placeholder (js "maxBytes") image~>"maxBytes").

(** [(ctx && ctx.data) || {}], or the payload inside a stored task *)
Definition artifact_data (ctx : jsval) : jsval :=
  let data := or_object (js_and ctx ctx~>"data") in
  let inner := data~>"data" in
  if truthy inner && is_object inner && truthy inner~>"task_id" && has_own inner (js "data")
  then or_object inner~>"data" else data.

Definition artifact_not_found {A} : JS A := throw (js "artifact_not_found").
Definition video_artifact : jsval := JObj ["key" ↦ str "video"; "type" ↦ str "video"].
Definition artifact_list (artifact : jsval) (present : bool) : jsval := JArr (if present then [artifact] else []).

(** Download of an artifact from a public address, without credentials. *)
Definition public_download (url : jsstr) (ctx : jsval) : JS jsval :=
  method ← (ctx~>"clientRequest")~>!"method";
  Ok (JObj ["url" ↦ JStr url; "method" ↦ method; "credentialless" ↦ JBool true]).

(** [apiKey.startsWith("sk-")], and whether the channel is another gateway *)
Definition is_relay (apiKey : jsval) : JS bool := key ← text_of apiKey; Ok (starts_with (js "sk-") key).
Definition via_gateway (ctx : jsval) : JS bool :=
  upstream ← ctx~>!"upstream";
  if truthy upstream && equals upstream~>"kind" "new_api" then Ok true else is_relay ctx~>"apiKey".

(** ** Results *)

Definition escape_attribute (url : jsstr) : jsstr :=
  replace_all (cu ">") (js "&gt;") (replace_all (cu "<") (js "&lt;")
    (replace_all DQUOTE (js "&quot;") (replace_all (cu "&") (js "&amp;") url))).

(** A literal text with ['] for the double quotes. *)
Definition quoted (s : string) : jsstr := map (λ c, if (c =? SQUOTE)%N then DQUOTE else c) (js s).
Arguments quoted s%_string.

Definition artifact_url (ctx : jsval) (key : jsstr) : jsstr :=
  let artifact := js_and (js_and ctx ctx~>"artifacts") (get ctx~>"artifacts" key) in
  trimmed_text (js_and artifact artifact~>"url").

Definition responses_video_text (ctx : jsval) : JS jsstr :=
  let url := artifact_url ctx (js "video") in
  _ ← throw_if (negb (nonempty_text url)) (js "video artifact is unavailable");
  Ok (quoted "<video controls src='" ++ escape_attribute url ++ quoted "'></video>").

Section events.
Context {H : Host} {U : TaskHost}.

Definition task_status (task : jsval) : jsstr := to_upper_case (js_text (js_or task~>"status" (str "UNKNOWN"))).

(** [Number(String(v || d).replace("%", ""))] *)
Definition percentage (v : jsval) (d : string) : num :=
  number_of_string (replace_first (cu "%") [] (js_text (js_or v (str d)))).

Definition task_progress (task : jsval) : jsval :=
  let value := percentage task~>"progress" "" in
  if is_finite value && ngeb value NZERO && nleb value (nZ 100) then JNum value else JNull.

Definition render_state (task : jsval) : jsval :=
  JObj ["status" ↦ JStr (task_status task); "progress" ↦ task_progress task].

Definition rendered (events : list jsval) (task : jsval) (done : bool) : jsval :=
  JObj ["events" ↦ JArr events; "state" ↦ render_state task; "done" ↦ JBool done].

Definition output_event (text : jsstr) : jsval := JObj ["type" ↦ str "output"; "data" ↦ JStr text].
Definition error_event (task : jsval) : jsval :=
  JObj ["type" ↦ str "error"; "code" ↦ str "task_failed";
        "message" ↦ js_or task~>"fail_reason" (str "task failed")].
Definition progress_event (task : jsval) : jsval :=
  JObj (put_if (negb (is_nullish (task_progress task)))
    ["type" ↦ str "progress"; "message" ↦ JStr (to_lower_case (task_status task))]
    (js "progress") (task_progress task)).

(** [renderEvents]; [text] is what the plugin shows of a successful task. *)
Definition render_events (text : JS jsstr) (task previousState : jsval) : JS jsval :=
  _ ← task~>!"status";
  let status := task_status task in
  let same := truthy previousState && strict_eq previousState~>"status" (JStr status) in
  if jseq status (js "SUCCESS") then
    text ← text;
    Ok (rendered (if same then [] else [output_event text]) task true)
  else if jseq status (js "FAILURE") then Ok (rendered [error_event task] task true)
  else if same && strict_eq previousState~>"progress" (task_progress task) then Ok (rendered [] task false)
  else Ok (rendered [progress_event task] task false).

Definition output_text (text : jsstr) : jsval :=
  JObj ["type" ↦ str "output_text"; "text" ↦ JStr text; "annotations" ↦ JArr []; "logprobs" ↦ JArr []].
Definition assistant_message (content : list jsval) : jsval :=
  JObj ["type" ↦ str "message"; "status" ↦ str "completed"; "role" ↦ str "assistant"; "content" ↦ JArr content].

Definition render_final (text : JS jsstr) (metadata : obj) : JS jsval :=
  text ← text;
  Ok (JObj ["output" ↦ JArr [assistant_message [output_text text]]; "metadata" ↦ JObj metadata]).

(** The names of the statuses in the OpenAI video protocol. *)
Definition video_statuses : obj :=
  ["NOT_START" ↦ str "queued"; "SUBMITTED" ↦ str "queued"; "QUEUED" ↦ str "queued";
   "IN_PROGRESS" ↦ str "in_progress"; "SUCCESS" ↦ str "completed"; "FAILURE" ↦ str "failed"].

Definition video_object (statuses : obj) (task model created_at : jsval) : obj :=
  ["id" ↦ task~>"task_id"; "object" ↦ str "video"; "model" ↦ model;
   "status" ↦ js_or (table_get statuses task~>"status") (str "unknown");
   "progress" ↦ JNum (percentage task~>"progress" "0"); "created_at" ↦ created_at].
End events.

(** ** Sizes *)

Section sizes.
Context {H : Host}.

Definition size_parts (size : jsval) : option (num * num) :=
  match split_on (cu "x") (to_lower_case (js_text (js_or size (JStr [])))) with
  | [a; b] => Some (number_of_string a, number_of_string b)
  | _ => None
  end.

Definition resolution_for_size (size : jsval) : jsstr :=
  match size_parts size with
  | None => js "720p"
  | Some (width, height) =>
      let max := nmax width height in
      if ngeb max (nZ 3840) then js "4k" else if ngeb max (nZ 1920) then js "1080p" else js "720p"
  end.

Definition aspect_for_size (size : jsval) : jsstr :=
  match size_parts size with
  | None => js "16:9"
  | Some (width, height) =>
      if nleb width NZERO || nleb height NZERO then js "16:9"
      else if ngtb height width then js "9:16" else js "16:9"
  end.
End sizes.

(** [/^[A-Za-z0-9+/]+={0,2}$/.test(value)] *)
Definition base64_char (c : N) : bool := is_alpha c || is_digit c || (c =? cu "+")%N || (c =? cu "/")%N.
Definition base64_end (rest : jsstr) : bool := str_in rest [[]; js "="; js "=="].
Fixpoint base64_text (value : jsstr) : bool :=
  match value with
  | [] => false
  | c :: rest => base64_char c && (base64_end rest || base64_text rest)
  end.
