(* ===== verification/PluginSora.v ===== *)
(** * The Sora plugin

    Models [src/plugins/tasks/sora/plugin.js]: the requests to the OpenAI
    video interface, its answers, the usage that is billed, and the decoding
    and rendering for the Responses and the video protocols. *)
From stdpp Require Import base list option numbers sets.
From Stdlib Require Import ZArith SpecFloat Lia.
From S2P Require Import Prelude.
From S2P Require Import JsString.
From S2P Require Import JsNumber.
From S2P Require Import Syntax.
From S2P Require Import Runtime.
From S2P Require Import Display.
From S2P Require Import Json.
From S2P Require Import JsText.
From S2P Require Import JsonPrint.
From S2P Require Import AdvancedCustom.
From S2P Require Import JsDynamic.
From S2P Require Import PluginCommon.

Section sora.
Context {H : Host} {U : TaskHost}.

Definition sizes : list jsstr := [js "720x1280"; js "1280x720"; js "1792x1024"; js "1024x1792"].

Definition usageSchema : BillingUsageSchema :=
  ["seconds" ↦ number_field "second"; "size" ↦ enum_field sizes].

Definition trimmed (value : jsval) : jsstr := trimmed_text value.
Definition responsesInput (req : jsval) : jsstr * list jsstr := responses_input req.
Definition responsesVideoText (ctx : jsval) : JS jsstr := responses_video_text ctx.

(** ** Provider interface *)

Definition requestValues (req model : jsval) : obj := put (assign [] (or_object req)) (js "model") model.

Definition auth_headers (ctx : jsval) : obj :=
  ["Authorization" ↦ JStr (js "Bearer " ++ js_text ctx~>"apiKey")].
Definition json_headers (ctx : jsval) : obj :=
  put (auth_headers ctx) (js "Content-Type") (str "application/json").

(** The form fields of the plain values, the metadata and the files. *)
Definition plain_value (v : jsval) : bool := negb (is_nullish v) && negb (is_object v).
Definition value_parts (values : obj) : list jsval :=
  flat_map (λ key, let v := get (JObj values) key in
    if plain_value v then [JObj ["name" ↦ JStr key; "value" ↦ v]] else []) values.*1.
Definition metadata_parts (values : obj) : list jsval :=
  let metadata := (JObj values)~>"metadata" in
  if plain_object metadata
  then [JObj ["name" ↦ str "metadata"; "value" ↦ JStr (json_compact metadata)]] else [].
Definition file_part (file : jsval) : JS jsval :=
  field ← file~>!"field";
  Ok (JObj ["name" ↦ field; "fileRef" ↦ file~>"ref"; "filename" ↦ file~>"filename"]).

Definition buildSubmitRequest (ctx : jsval) : JS jsval :=
  body ← ctx~>!"requestBody";
  let req := or_object body in
  _ ← throw_if (negb (nonempty_text (trimmed_text req~>"prompt"))) (js "field prompt is required");
  let action := ctx~>"action" in
  let values := requestValues req ctx~>"upstreamModel" in
  if equals action "remix" then
    Ok (JObj ["url" ↦ JStr (js_text ctx~>"baseUrl" ++ js "/v1/videos/" ++ js_text ctx~>"originTaskId"
                            ++ js "/remix");
              "method" ↦ str "POST"; "headers" ↦ JObj (json_headers ctx); "body" ↦ JObj values;
              "action" ↦ action])
  else if truthy (or_array ctx~>"files")~>"length" then
    files ← iterate ctx~>"files";
    file_parts ← rmap file_part files;
    Ok (JObj ["url" ↦ JStr (js_text ctx~>"baseUrl" ++ js "/v1/videos"); "method" ↦ str "POST";
              "headers" ↦ JObj (auth_headers ctx); "bodyType" ↦ str "multipart";
              "parts" ↦ JArr (value_parts values ++ metadata_parts values ++ file_parts)])
  else
    Ok (JObj ["url" ↦ JStr (js_text ctx~>"baseUrl" ++ js "/v1/videos"); "method" ↦ str "POST";
              "headers" ↦ JObj (json_headers ctx); "body" ↦ JObj values]).

Definition parseSubmitResponse (ctx resp : jsval) : JS jsval :=
  body ← resp~>!"body";
  let body := or_object body in
  let taskId := js_or body~>"id" body~>"task_id" in
  _ ← throw_if (negb (truthy taskId)) (js "task_id is empty");
  Ok (JObj ["taskId" ↦ taskId; "taskData" ↦ body]).

(** ** Usage *)

Definition billed_seconds (req : jsval) : num :=
  let seconds := to_number (js_or (js_or req~>"seconds" req~>"duration") (int 4)) in
  let seconds := if negb (is_finite seconds) || nleb seconds NZERO then nZ 4 else seconds in
  nmin seconds (nZ 3600).

Definition extractUsage (ctx : jsval) : JS obj :=
  action ← ctx~>!"action";
  if equals action "remix" then Ok []
  else
    let req := or_object ctx~>"requestBody" in
    Ok ["seconds" ↦ JNum (billed_seconds req); "size" ↦ js_or req~>"size" (str "720x1280")].

Definition extractUsageOnComplete (task taskResult body : jsval) : obj :=
  let body := or_object body in
  let seconds := to_number (js_or (js_or body~>"seconds" body~>"duration") (int 0)) in
  let facts := put_if (is_finite seconds && ngtb seconds NZERO) [] (js "seconds") (JNum (nmin seconds (nZ 3600))) in
  let size := trimmed body~>"size" in
  put_if (str_in size sizes) facts (js "size") (JStr size).

(** ** Polling *)

Definition buildQueryRequest (ctx : jsval) : JS jsval :=
  base ← ctx~>!"baseUrl";
  Ok (JObj ["url" ↦ JStr (js_text base ++ js "/v1/videos/" ++ js_text ctx~>"taskId"); "method" ↦ str "GET";
            "headers" ↦ JObj (auth_headers ctx)]).

Definition statuses : obj :=
  ["queued" ↦ str "QUEUED"; "pending" ↦ str "QUEUED"; "processing" ↦ str "IN_PROGRESS";
   "in_progress" ↦ str "IN_PROGRESS"; "completed" ↦ str "SUCCESS"; "failed" ↦ str "FAILURE";
   "cancelled" ↦ str "FAILURE"].

Definition parseTaskResult (ctx body : jsval) : JS jsval :=
  status ← body~>!"status";
  let mapped := table_get statuses status in
  let result := ["status" ↦ js_or mapped (str "UNKNOWN")] in
  let result := put_if (negb (truthy mapped)) result (js "reason")
                  (JStr (js "unrecognized status: " ++ js_text (js_or status (JStr [])))) in
  let progress := body~>"progress" in
  let result := put_if (ngtb (to_number progress) NZERO && nltb (to_number progress) (nZ 100)) result
                  (js "progress") (JStr (js_text progress ++ js "%")) in
  let error := body~>"error" in
  let result := put_if (equals (js_or mapped (str "UNKNOWN")) "FAILURE") result (js "reason")
                  (if truthy error && truthy error~>"message" then error~>"message" else str "task failed") in
  Ok (JObj result).

Definition listArtifacts (task : jsval) : JS jsval :=
  status ← task~>!"status";
  Ok (artifact_list video_artifact (equals status "SUCCESS")).

Definition buildContentRequest (ctx : jsval) : JS jsval :=
  key ← ctx~>!"artifactKey";
  if is_not key "video" then artifact_not_found
  else
    id ← encodeURIComponent (js_text ctx~>"upstreamTaskId");
    method ← (ctx~>"clientRequest")~>!"method";
    Ok (JObj ["url" ↦ JStr (js_text ctx~>"baseUrl" ++ js "/v1/videos/" ++ id ++ js "/content");
              "method" ↦ method; "headers" ↦ JObj (auth_headers ctx)]).

(** ** The Responses protocol *)

Definition responses_decodeRequest (ctx : jsval) : JS jsval :=
  req ← responses_body ctx;
  model ← check_model req~>"model";
  _ ← check_input req;
  _ ← check_images req;
  _ ← check_metadata req;
  let '(text, found_images) := responsesInput req in
  let prompt := prompt_of text req in
  _ ← throw_if (negb (nonempty_text prompt)) (js "input is required");
  let images := request_images req found_images in
  let body := ["model" ↦ JStr model; "prompt" ↦ JStr prompt] in
  let body := match images with
              | image :: _ => put body (js "input_reference") (JStr image)
              | [] => body
              end in
  let body := copy_seconds req "seconds" body in
  let body := copy_own req "metadata" "metadata" (copy_own req "size" "size" body) in
  Ok (submit_request (JStr model) (video_action (negb (bool_decide (images = [])))) body).

Definition renderEvents (ctx task previousState : jsval) : JS jsval :=
  render_events (responsesVideoText ctx) task previousState.
Definition renderFinal (ctx : jsval) : JS jsval :=
  render_final (responsesVideoText ctx) ["vendor" ↦ str "sora"].

(** ** The video protocol *)

Definition check_seconds (seconds : jsval) : JS unit :=
  let n := to_number seconds in
  throw_if (is_defined seconds && (negb (is_finite n) || nleb n NZERO || ngtb n (nZ 3600)))
    (js "seconds must be between 1 and 3600").

Definition video_submit (ctx req : jsval) (with_file : bool) : jsval :=
  submit_request ctx~>"model"
    (video_action (with_file || truthy req~>"input_reference" || truthy req~>"image")) (with_model req ctx).

Definition video_decodeRequest (ctx : jsval) : JS jsval :=
  body ← video_body ctx;
  if equals body~>"kind" "json" then
    req ← json_object_body body;
    _ ← check_seconds (requested_seconds req);
    Ok (video_submit ctx req false)
  else
    '(fields, with_file) ← form_request any_file body;
    _ ← check_seconds (requested_seconds (JObj fields));
    Ok (video_submit ctx (JObj fields) with_file).

Definition legacy_openai_video (task : jsval) : JS jsval :=
  _ ← task~>!"task_id";
  let model := js_or (or_object task~>"properties")~>"origin_model_name" (JStr []) in
  let output := video_object video_statuses task model (JNum (to_number (js_or task~>"created_at" (int 0)))) in
  let completedAt := to_number (js_or (js_or task~>"finished_at" task~>"updated_at") (int 0)) in
  let output := put_if (ngtb completedAt NZERO) output (js "completed_at") (JNum completedAt) in
  Ok (JObj (put_if (equals task~>"status" "FAILURE") output (js "error")
    (JObj ["code" ↦ str "video_generation_failed"; "message" ↦ str "The video generation task failed."]))).

Definition video_render (ctx task : jsval) : JS jsval :=
  data ← task~>!"data";
  if plain_object data then Ok data else legacy_openai_video task.

End sora.
