(* ===== verification/PluginKling.v ===== *)
(** * The Kling plugin

    Models [src/plugins/tasks/kling/plugin.js]: token and address of the two
    kinds of upstream, the mode and duration that are sent and billed, the
    answers of the provider, and the native, Responses and video protocols. *)
From stdpp Require Import base list option numbers sets.
From Stdlib Require Import ZArith SpecFloat Lia.
From S2P Require Import Prelude.
From S2P Require Import JsString.
From S2P Require Import JsNumber.
From S2P Require Import Syntax.
From S2P Require Import Runtime.
From S2P Require Import Display.
From S2P Require Import Json.
From S2P Require Import JsText.
From S2P Require Import JsonPrint.
From S2P Require Import AdvancedCustom.
From S2P Require Import JsDynamic.
From S2P Require Import PluginCommon.


Section kling.
Context {H : Host} {U : TaskHost}.

Definition usageSchema : BillingUsageSchema := ["units" ↦ number_field "credit"].

(** Units per second of output, by model and mode. *)
Definition UNITS_PER_SECOND : obj :=
  ["kling-v1" ↦ JObj ["std" ↦ JNum (number_of_string (js "0.2")); "pro" ↦ JNum (number_of_string (js "0.7"))];
   "kling-v1-6" ↦ JObj ["std" ↦ JNum (number_of_string (js "0.4")); "pro" ↦ JNum (number_of_string (js "0.7"))];
   "kling-v2-master" ↦ JObj ["pro" ↦ JNum (number_of_string (js "2.0"))]].

Definition trimmed (value : jsval) : jsstr := trimmed_text value.
Definition responsesInput (req : jsval) : jsstr * list jsstr := responses_input req.
Definition responsesVideoText (ctx : jsval) : JS jsstr := responses_video_text ctx.
Definition isRelay (apiKey : jsval) : JS bool := is_relay apiKey.
Definition viaGateway (ctx : jsval) : JS bool := via_gateway ctx.
Definition filePlaceholder (image : jsval) : jsval := file_placeholder image.
Definition artifactData (ctx : jsval) : jsval := artifact_data ctx.

(** ** Upstream *)

Definition tokenFor (ctx : jsval) : JS jsstr :=
  gateway ← viaGateway ctx;
  if (gateway : bool) then Ok (js_text ctx~>"apiKey")
  else
    key ← text_of ctx~>"apiKey";
    match split_on (cu "|") key with
    | [access; secret] =>
        jwtSignHS256 (JObj ["iss" ↦ JStr (trim access); "exp" ↦ JNum (nadd unixNow (nZ 1800));
                            "nbf" ↦ JNum (nsub unixNow (nZ 5))]) (trim secret)
    | _ => throw (js "invalid api_key, required format is accessKey|secretKey")
    end.

Definition pathFor (action : jsval) : jsstr :=
  if equals action "image_to_video" then js "/v1/videos/image2video" else js "/v1/videos/text2video".

Definition urlFor (ctx action : jsval) : JS jsstr :=
  gateway ← viaGateway ctx;
  Ok (js_text ctx~>"baseUrl" ++ (if (gateway : bool) then js "/kling" else []) ++ pathFor action).

Definition aspectRatio (size : jsval) : jsval :=
  js_or (table_get ["1024x1024" ↦ str "1:1"; "512x512" ↦ str "1:1"; "1280x720" ↦ str "16:9";
                    "1920x1080" ↦ str "16:9"; "720x1280" ↦ str "9:16"; "1080x1920" ↦ str "9:16"] size)
        (str "1:1").

(** ** Mode, duration and units *)

Definition submitModel (ctx req : jsval) : jsval :=
  js_or (js_or (js_or (js_and ctx ctx~>"upstreamModel") (js_and ctx ctx~>"model")) (js_and req req~>"model"))
        (str "kling-v1").

Definition resolveKlingMode (model mode : jsval) : JS jsstr :=
  let raw := to_lower_case (trimmed mode) in
  if equals model "kling-v2-master" then
    _ ← throw_if (jseq raw (js "std")) (js "kling-v2-master does not support mode std");
    _ ← throw_if (nonempty_text raw && negb (jseq raw (js "pro"))) (js "mode must be pro");
    Ok (js "pro")
  else if negb (nonempty_text raw) then Ok (js "std")
  else
    _ ← throw_if (negb (jseq raw (js "std")) && negb (jseq raw (js "pro"))) (js "mode must be std or pro");
    Ok raw.

Definition perSecondRate (model : jsval) (mode : jsstr) : jsval :=
  let table := js_or (table_get UNITS_PER_SECOND model) (JObj UNITS_PER_SECOND)~>"kling-v1" in
  if is_defined (get table mode) then get table mode
  else if is_defined table~>"pro" then table~>"pro"
  else table~>"std".

Definition estimateUnits (model : jsval) (mode : jsstr) (durationSeconds : num) : num :=
  nmul (to_number (perSecondRate model mode)) durationSeconds.

Definition validateKlingDuration (value : jsval) : JS num :=
  let n := to_number value in
  _ ← throw_if (negb (is_integer n) || nleb n NZERO || ngtb n (nZ 3600))
        (js "seconds must be a positive integer at most 3600");
  Ok n.

Definition metadata_of (req : jsval) : jsval := or_object (js_and req req~>"metadata").

Definition outboundDuration (req : jsval) : num :=
  let n := to_number (js_and req req~>"duration") in
  if is_finite n && ngtb n NZERO then n
  else
    let fromMeta := to_number (metadata_of req)~>"duration" in
    if is_finite fromMeta && ngtb fromMeta NZERO then fromMeta else nZ 5.

Definition outboundMode (req model : jsval) : JS jsstr :=
  resolveKlingMode model (js_or (js_and req req~>"mode") (metadata_of req)~>"mode").

Definition hasKlingImage (req : jsval) (hasInputReferenceFile : bool) : bool :=
  let metadata := metadata_of req in
  let image := js_and req req~>"image" in
  hasInputReferenceFile
  || truthy req && plain_object image && truthy image~>"__fileRef"
  || nonempty_text (trimmed (js_and req req~>"input_reference"))
  || nonempty_text (trimmed image)
  || truthy metadata~>"image" || truthy metadata~>"image_tail".

(** ** The native protocol *)

Definition text_or_empty (v : jsval) : jsstr := match v with JStr s => s | _ => [] end.

Definition decodeNativeSubmit (ctx : jsval) : JS jsval :=
  body ← responses_body ctx;
  let model := text_or_empty body~>"model_name" in
  let model := if nonempty_text model then model else text_or_empty body~>"model" in
  _ ← throw_if (negb (nonempty_text (trim model))) (js "model is required");
  Ok (JObj ["kind" ↦ str "submit"; "model" ↦ JStr model;
            "requestBody" ↦ JObj ["model" ↦ JStr model; "prompt" ↦ JStr (text_or_empty body~>"prompt");
                                  "metadata" ↦ body]]).

(** A provider answer with the public task id in place of the provider's. *)
Definition with_task_id (result data task : jsval) : jsval :=
  JObj (put (assign [] result) (js "data") (JObj (put (assign [] data) (js "task_id") task~>"task_id"))).

Definition native_taskCreated (ctx task : jsval) : JS jsval :=
  data ← task~>!"data";
  let result := or_object data in
  Ok (with_task_id result (or_object result~>"data") task).

Definition native_statuses : obj :=
  ["NOT_START" ↦ str "submitted"; "SUBMITTED" ↦ str "submitted"; "QUEUED" ↦ str "submitted";
   "IN_PROGRESS" ↦ str "processing"; "SUCCESS" ↦ str "succeed"; "FAILURE" ↦ str "failed"].

Definition native_taskStatus (ctx task : jsval) : JS jsval :=
  result ← task~>!"data";
  if plain_object result then
    let data := result~>"data" in
    Ok (with_task_id result (if truthy data && is_object data then data else JObj []) task)
  else
    Ok (JObj ["code" ↦ int 0;
              "data" ↦ JObj ["task_id" ↦ task~>"task_id";
                             "task_status" ↦ js_or (table_get native_statuses task~>"status") (str "submitted");
                             "task_status_msg" ↦ js_or task~>"fail_reason" (JStr [])]]).

Definition native_error (ctx error : jsval) : JS jsval :=
  code ← error~>!"code";
  Ok (JObj ["code" ↦ code; "message" ↦ error~>"message"]).

(** ** Provider interface *)

Definition submit_action (ctx req metadata : jsval) : jsval :=
  let action := ctx~>"action" in
  if equals action "text_to_video" || equals action "image_to_video" then action
  else video_action (truthy req~>"image" || truthy metadata~>"image" || truthy metadata~>"image_tail").

(** What is sent before the metadata of the request is laid over it. *)
Definition default_body (req : jsval) (model : jsval) (mode : jsstr) : obj :=
  ["prompt" ↦ req~>"prompt"; "image" ↦ req~>"image"; "mode" ↦ JStr mode;
   "duration" ↦ JStr (js_text (js_or req~>"duration" (int 5))); "aspect_ratio" ↦ aspectRatio req~>"size";
   "model_name" ↦ model; "model" ↦ model; "cfg_scale" ↦ JNum (number_of_string (js "0.5"))].

(** [if (body.key) body.key = filePlaceholder(body.key);] *)
Definition place_file (body : obj) (key : jsstr) : obj :=
  let v := get (JObj body) key in put_if (truthy v) body key (filePlaceholder v).
(** [if (!body.key) delete body.key;] *)
Definition drop_falsy (body : obj) (key : jsstr) : obj :=
  if truthy (get (JObj body) key) then body else remove body key.

Definition submit_body (req metadata model : jsval) : JS obj :=
  mode ← outboundMode req model;
  let body := assign (default_body req model mode) metadata in
  mode ← outboundMode (JObj ["mode" ↦ (JObj body)~>"mode"; "metadata" ↦ metadata]) model;
  let body := put body (js "mode") (JStr mode) in
  let body := place_file (place_file body (js "image")) (js "image_tail") in
  Ok (drop_falsy (drop_falsy body (js "prompt")) (js "image")).

Definition sdk_headers (token : jsstr) : obj :=
  ["Accept" ↦ str "application/json"; "Authorization" ↦ JStr (js "Bearer " ++ token);
   "User-Agent" ↦ str "kling-sdk/1.0"].

Definition buildSubmitRequest (ctx : jsval) : JS jsval :=
  req ← ctx~>!"requestBody";
  metadata ← req~>!"metadata";
  let metadata := or_object metadata in
  let action := submit_action ctx req metadata in
  let model := js_or ctx~>"upstreamModel" (str "kling-v1") in
  body ← submit_body req metadata model;
  url ← urlFor ctx action;
  token ← tokenFor ctx;
  Ok (JObj ["url" ↦ JStr url; "method" ↦ str "POST";
            "headers" ↦ JObj (("Content-Type" ↦ str "application/json") :: sdk_headers token);
            "body" ↦ JObj body; "action" ↦ action]).

Definition parseSubmitResponse (ctx resp : jsval) : JS jsval :=
  body ← resp~>!"body";
  let result := or_object body in
  _ ← throw_if (negb (strict_eq result~>"code" (int 0)))
        (js_text (js_or result~>"message" (str "kling submit failed")));
  let data := result~>"data" in
  _ ← throw_if (negb (truthy data) || negb (truthy data~>"task_id")) (js "missing task_id");
  Ok (JObj ["taskId" ↦ data~>"task_id"; "taskData" ↦ result]).

Definition extractUsage (ctx : jsval) : JS (option obj) :=
  purpose ← ctx~>!"usagePurpose";
  if equals purpose "billing_ratios" then Ok None
  else
    let req := or_object ctx~>"requestBody" in
    let model := submitModel ctx req in
    let duration := outboundDuration req in
    mode ← outboundMode req model;
    Ok (Some ["units" ↦ JNum (estimateUnits model mode duration)]).

Definition buildQueryRequest (ctx : jsval) : JS jsval :=
  action ← ctx~>!"action";
  url ← urlFor ctx action;
  token ← tokenFor ctx;
  Ok (JObj ["url" ↦ JStr (url ++ js "/" ++ js_text ctx~>"taskId"); "method" ↦ str "GET";
            "headers" ↦ JObj (sdk_headers token)]).

Definition statuses : obj :=
  ["submitted" ↦ str "SUBMITTED"; "processing" ↦ str "IN_PROGRESS"; "succeed" ↦ str "SUCCESS";
   "failed" ↦ str "FAILURE"].

(** [data.task_result && data.task_result.videos ? data.task_result.videos : []] *)
Definition result_videos (data : jsval) : jsval :=
  let result := data~>"task_result" in
  if truthy result && truthy result~>"videos" then result~>"videos" else JArr [].

Definition parseTaskResult (ctx body : jsval) : JS jsval :=
  data ← body~>!"data";
  let data := or_object data in
  let status := table_get statuses data~>"task_status" in
  if negb (truthy status) then
    Ok (JObj ["status" ↦ str "UNKNOWN";
              "reason" ↦ JStr (js "unknown task status: " ++ js_text (js_or data~>"task_status" (JStr [])))])
  else
    let videos := if equals status "SUCCESS" then result_videos data else JArr [] in
    let result := ["code" ↦ js_or body~>"code" (int 0); "taskId" ↦ data~>"task_id"; "status" ↦ status;
                   "reason" ↦ js_or data~>"task_status_msg" (JStr [])] in
    url ← (if truthy videos~>"length" then (videos~>"0")~>!"url" else Ok JUndefined);
    let result := put_if (truthy url) result (js "url") url in
    let units := parse_float (js_or data~>"final_unit_deduction" (JStr [])) in
    let measured := is_finite units && ngtb units NZERO in
    let result := put_if measured result (js "completionTokens") (JNum (nceil units)) in
    Ok (JObj (put_if measured result (js "totalTokens") (JNum (nceil units)))).

Definition artifactVideoURL (ctx : jsval) : JS jsstr :=
  let result := or_object (or_object (artifactData ctx)~>"data")~>"task_result" in
  match result~>"videos" with
  | JArr (video :: _) => url ← video~>!"url"; Ok (trimmed_text url)
  | _ => Ok []
  end.

Definition listArtifacts (task : jsval) : JS jsval :=
  status ← task~>!"status";
  if equals status "SUCCESS" then
    url ← artifactVideoURL task; Ok (artifact_list video_artifact (nonempty_text url))
  else Ok (artifact_list video_artifact false).

Definition buildContentRequest (ctx : jsval) : JS jsval :=
  key ← ctx~>!"artifactKey";
  if is_not key "video" then artifact_not_found
  else
    url ← artifactVideoURL ctx;
    if nonempty_text url then public_download url ctx else artifact_not_found.

Definition extractUsageOnComplete (task taskResult body : jsval) : option obj :=
  let data := or_object (js_and body body~>"data") in
  let deduction := data~>"final_unit_deduction" in
  if negb (has_own data (js "final_unit_deduction")) || is_nullish deduction
     || strict_eq deduction (JStr []) then None
  else
    let units := parse_float deduction in
    if is_finite units then Some ["units" ↦ JNum units] else None.

(** ** The Responses protocol *)

Definition responses_decodeRequest (ctx : jsval) : JS jsval :=
  req ← responses_body ctx;
  model ← check_model ctx~>"model";
  _ ← check_input req;
  _ ← check_images req;
  _ ← check_metadata req;
  let '(text, found_images) := responsesInput req in
  let prompt := prompt_of text req in
  let images := request_images req found_images in
  _ ← throw_if (negb (nonempty_text prompt) && bool_decide (images = [])) (js "input is required");
  let metadata := copy_own req "mode" "mode" (assign [] (or_object req~>"metadata")) in
  mode ← resolveKlingMode (js_or ctx~>"upstreamModel" (JStr model)) (JObj metadata)~>"mode";
  let metadata := put metadata (js "mode") (JStr mode) in
  let metadata := match images with
                  | _ :: tail :: _ =>
                      put_if (negb (truthy (JObj metadata)~>"image_tail")) metadata (js "image_tail") (JStr tail)
                  | _ => metadata
                  end in
  let body := ["model" ↦ JStr model; "prompt" ↦ JStr prompt; "metadata" ↦ JObj metadata] in
  let body := match images with
              | image :: _ => put body (js "image") (JStr image)
              | [] => body
              end in
  let body := copy_own req "size" "size" (copy_seconds req "duration" body) in
  Ok (submit_request (JStr model) (video_action (negb (bool_decide (images = [])))) body).

Definition renderEvents (ctx task previousState : jsval) : JS jsval :=
  render_events (responsesVideoText ctx) task previousState.
Definition renderFinal (ctx : jsval) : JS jsval :=
  render_final (responsesVideoText ctx) ["vendor" ↦ str "kling"].

(** ** The video protocol *)

Definition input_reference_file : jsval :=
  JObj ["__fileRef" ↦ str "request_file:input_reference"; "encoding" ↦ str "base64"; "maxBytes" ↦ int 10485760].

Definition place_image (req : obj) (with_file : bool) : obj :=
  if with_file then put req (js "image") input_reference_file
  else
    let image := trimmed (js_or (JObj req)~>"input_reference" (JObj req)~>"image") in
    put_if (nonempty_text image) req (js "image") (JStr image).

Definition video_decodeRequest (ctx : jsval) : JS jsval :=
  '(req, with_file) ← video_request any_file ctx;
  let seconds := requested_seconds (JObj req) in
  duration ← (if is_defined seconds then validateKlingDuration seconds else Ok (nZ 5));
  let req := place_image (put req (js "duration") (JNum duration)) with_file in
  let model := js_or (js_or (js_or ctx~>"upstreamModel" ctx~>"model") (JObj req)~>"model") (str "kling-v1") in
  let metadata := or_object (JObj req)~>"metadata" in
  mode ← resolveKlingMode model (js_or (JObj req)~>"mode" metadata~>"mode");
  let req := put req (js "mode") (JStr mode) in
  Ok (submit_request ctx~>"model" (video_action (hasKlingImage (JObj req) with_file))
        (with_model (JObj req) ctx)).

Definition video_render (ctx task : jsval) : JS jsval :=
  response ← task~>!"data";
  let response := or_object response in
  let data := or_object response~>"data" in
  let output := video_object video_statuses task (JStr []) (js_or data~>"created_at" (int 0)) in
  let output := put_if (truthy data~>"updated_at") output (js "completed_at") data~>"updated_at" in
  let videos := result_videos data in
  duration ← (if truthy videos~>"length" then (videos~>"0")~>!"duration" else Ok JUndefined);
  let output := put_if (truthy duration) output (js "seconds") duration in
  let output := put_if (negb (strict_eq response~>"code" (int 0)) && truthy response~>"message") output (js "error")
    (JObj ["message" ↦ response~>"message"; "code" ↦ JStr (js_text response~>"code")]) in
  Ok (JObj (put_if (equals data~>"task_status" "failed") output (js "error")
    (JObj ["message" ↦ data~>"task_status_msg"; "code" ↦ JStr []]))).

End kling.
