(* ===== verification/PluginVidu.v ===== *)
(** * The Vidu plugin

    Models [src/plugins/tasks/vidu/plugin.js]: the durations and resolutions
    of the model families, the choice of the generation endpoint, requests and
    answers of the provider, usage, and the Responses and video protocols. *)
From stdpp Require Import base list option numbers sets.
From Stdlib Require Import ZArith SpecFloat Lia.
From S2P Require Import Prelude.
From S2P Require Import JsString.
From S2P Require Import JsNumber.
From S2P Require Import Syntax.
From S2P Require Import Runtime.
From S2P Require Import Display.
From S2P Require Import Json.
From S2P Require Import JsText.
From S2P Require Import JsonPrint.
From S2P Require Import AdvancedCustom.
From S2P Require Import JsDynamic.
From S2P Require Import PluginCommon.


Section vidu.
Context {H : Host} {U : TaskHost}.

Definition RESOLUTIONS : list jsstr := [js "360p"; js "540p"; js "720p"; js "1080p"].

Definition usageSchema : BillingUsageSchema :=
  ["credits" ↦ number_field "credit"; "duration" ↦ number_field "second"; "resolution" ↦ enum_field RESOLUTIONS].

Definition trimmed (value : jsval) : jsstr := trimmed_text value.
Definition responsesInput (req : jsval) : jsstr * list jsstr := responses_input req.
Definition responsesVideoText (ctx : jsval) : JS jsstr := responses_video_text ctx.
Definition filePlaceholder (image : jsval) : jsval := file_placeholder image.
Definition artifactData (ctx : jsval) : jsval := artifact_data ctx.

(** ** Durations and resolutions *)

Definition isQ2Model (model : jsval) : bool := starts_with (js "viduq2") (js_text (js_or model (JStr []))).

Definition defaultDuration (model : jsval) : num := if equals model "vidu2.0" then nZ 4 else nZ 5.

Definition defaultResolution (model : jsval) : jsstr :=
  if isQ2Model model then js "720p" else if equals model "vidu2.0" then js "360p" else js "1080p".

(** The resolution whose larger side holds the given one. *)
Definition resolution_of_side (max : num) : jsstr :=
  if ngeb max (nZ 1920) then js "1080p"
  else if ngeb max (nZ 1280) then js "720p"
  else if ngeb max (nZ 960) then js "540p" else js "360p".

Definition normalizeResolution (value model : jsval) : jsstr :=
  if equals model "viduq1" then js "1080p"
  else
    let raw := to_lower_case (trimmed value) in
    if str_in raw RESOLUTIONS then raw
    else
      match split_on (cu "x") (replace_first (cu "*") (js "x") raw) with
      | [w; h] =>
          let width := number_of_string w in
          let height := number_of_string h in
          if ngtb width NZERO && ngtb height NZERO then resolution_of_side (nmax width height)
          else defaultResolution model
      | _ => defaultResolution model
      end.

Definition outboundDuration (req model : jsval) : num :=
  let n := to_number (js_and req req~>"duration") in
  if is_finite n && ngtb n NZERO then n else defaultDuration model.

Definition outboundResolution (req model : jsval) : jsstr :=
  let metadata := or_object (js_and req req~>"metadata") in
  if truthy req && truthy req~>"resolution" then normalizeResolution req~>"resolution" model
  else if truthy metadata~>"resolution" then normalizeResolution metadata~>"resolution" model
  else if truthy req && truthy req~>"size" then normalizeResolution req~>"size" model
  else defaultResolution model.

Definition hasViduImages (req : jsval) (hasInputReferenceFile : bool) : bool :=
  hasInputReferenceFile
  || match js_and req req~>"images" with JArr (_ :: _) => true | _ => false end
  || nonempty_text (trimmed (js_and req req~>"input_reference"))
  || nonempty_text (trimmed (js_and req req~>"image")).

(** [Number.isInteger(n) && low <= n && n <= high], negated *)
Definition outside (n : num) (low high : Z) : bool :=
  negb (is_integer n) || nltb n (nZ low) || ngtb n (nZ high).

Definition validateViduCombo (model duration : jsval) (resolution : jsstr) (hasImages : bool) : JS unit :=
  _ ← throw_if (equals model "vidu2.0" && negb hasImages) (js "vidu2.0 does not support text-to-video");
  let n := to_number duration in
  if equals model "viduq1" then
    throw_if (is_defined duration && negb (neqb n (nZ 5))) (js "viduq1 duration must be 5")
  else if equals model "vidu2.0" then
    let n := if is_undefined duration then nZ 4 else n in
    if neqb n (nZ 4) then
      throw_if (negb (str_in resolution [js "360p"; js "720p"; js "1080p"]))
        (js "vidu2.0 duration 4 only allows resolution 360p, 720p, or 1080p")
    else if neqb n (nZ 8) then
      throw_if (negb (jseq resolution (js "720p"))) (js "vidu2.0 duration 8 only allows resolution 720p")
    else throw (js "vidu2.0 duration must be 4 or 8")
  else if isQ2Model model then
    throw_if (is_defined duration && outside n 1 10) (js "viduq2 duration must be between 1 and 10")
  else
    throw_if (is_defined duration && (negb (is_integer n) || nleb n NZERO || ngtb n (nZ 3600)))
      (js "seconds must be between 1 and 3600").

(** ** Endpoints *)

Definition action_aliases : obj :=
  ["generate" ↦ str "image_to_video"; "textGenerate" ↦ str "text_to_video";
   "firstTailGenerate" ↦ str "first_tail_to_video"; "referenceGenerate" ↦ str "reference_to_video";
   "remixGenerate" ↦ str "remix"].

Definition actionFor (req : jsval) : JS jsval :=
  metadata ← req~>!"metadata";
  if truthy metadata && truthy metadata~>"action" then
    Ok (js_or (table_get action_aliases metadata~>"action") metadata~>"action")
  else
    let images := req~>"images" in
    let count := images~>"length" in
    Ok (if negb (truthy images) || strict_eq count (int 0) then str "text_to_video"
        else if strict_eq count (int 2) then str "first_tail_to_video"
        else if ngtb (to_number count) (nZ 2) then str "reference_to_video"
        else str "image_to_video").

Definition pathFor (action : jsval) : jsstr :=
  if equals action "image_to_video" then js "/img2video"
  else if equals action "first_tail_to_video" then js "/start-end2video"
  else if equals action "reference_to_video" then js "/reference2video"
  else js "/text2video".

(** ** Provider interface *)

Definition token_headers (ctx : jsval) : obj :=
  ["Accept" ↦ str "application/json"; "Authorization" ↦ JStr (js "Token " ++ js_text ctx~>"apiKey")].

(** Reference generation names the family instead of a variant. *)
Definition submit_model (ctx action : jsval) : JS jsval :=
  let model := js_or ctx~>"upstreamModel" (str "viduq1") in
  if equals action "reference_to_video" then
    m ← text_of model; Ok (if includes (js "viduq2") m then str "viduq2" else model)
  else Ok model.

Definition default_body (req model : jsval) : obj :=
  ["model" ↦ model;
   "images" ↦ match req~>"images" with JArr images => JArr (map filePlaceholder images) | _ => JNull end;
   "prompt" ↦ js_or req~>"prompt" JNull; "duration" ↦ JNum (outboundDuration req model);
   "resolution" ↦ JStr (outboundResolution req model); "movement_amplitude" ↦ str "auto"].

Definition drop_falsy (body : obj) (key : jsstr) : obj :=
  if truthy (get (JObj body) key) then body else remove body key.
Definition place_files (body : obj) : obj :=
  match (JObj body)~>"images" with
  | JArr images => put body (js "images") (JArr (map filePlaceholder images))
  | _ => body
  end.
Definition submit_body (req metadata model : jsval) : obj :=
  let body := remove (assign (default_body req model) metadata) (js "action") in
  place_files (drop_falsy (drop_falsy body (js "prompt")) (js "bgm")).

Definition buildSubmitRequest (ctx : jsval) : JS jsval :=
  req ← ctx~>!"requestBody";
  action ← actionFor req;
  model ← submit_model ctx action;
  Ok (JObj ["url" ↦ JStr (js_text ctx~>"baseUrl" ++ js "/ent/v2" ++ pathFor action); "method" ↦ str "POST";
            "headers" ↦ JObj (("Content-Type" ↦ str "application/json") :: token_headers ctx);
            "body" ↦ JObj (submit_body req (or_object req~>"metadata") model); "action" ↦ action]).

Definition parseSubmitResponse (ctx resp : jsval) : JS jsval :=
  body ← resp~>!"body";
  _ ← throw_if (negb (truthy body) || equals body~>"state" "failed") (js "task failed");
  _ ← throw_if (negb (truthy body~>"task_id")) (js "missing task_id");
  Ok (JObj ["taskId" ↦ body~>"task_id"; "taskData" ↦ body]).

Definition extractUsage (ctx : jsval) : JS (option obj) :=
  purpose ← ctx~>!"usagePurpose";
  if equals purpose "billing_ratios" then Ok None
  else
    let req := or_object ctx~>"requestBody" in
    let model := js_or ctx~>"upstreamModel" req~>"model" in
    Ok (Some ["duration" ↦ JNum (outboundDuration req model);
              "resolution" ↦ JStr (outboundResolution req model)]).

Definition buildQueryRequest (ctx : jsval) : JS jsval :=
  base ← ctx~>!"baseUrl";
  Ok (JObj ["url" ↦ JStr (js_text base ++ js "/ent/v2/tasks/" ++ js_text ctx~>"taskId" ++ js "/creations");
            "method" ↦ str "GET"; "headers" ↦ JObj (token_headers ctx)]).

Definition statuses : obj :=
  ["created" ↦ str "SUBMITTED"; "queueing" ↦ str "SUBMITTED"; "processing" ↦ str "IN_PROGRESS";
   "success" ↦ str "SUCCESS"; "failed" ↦ str "FAILURE"].

Definition parseTaskResult (ctx body : jsval) : JS jsval :=
  state ← body~>!"state";
  let status := table_get statuses state in
  if negb (truthy status) then
    Ok (JObj ["status" ↦ str "UNKNOWN";
              "reason" ↦ JStr (js "unknown task state: " ++ js_text (js_or state (JStr [])))])
  else
    let creations := body~>"creations" in
    url ← (if truthy creations && truthy creations~>"length" then (creations~>"0")~>!"url" else Ok (JStr []));
    let result := ["status" ↦ status;
                   "reason" ↦ if equals state "failed" then js_or body~>"err_code" (JStr []) else JStr []] in
    Ok (JObj (put_if (truthy url) result (js "url") url)).

Definition artifactVideoURL (ctx : jsval) : JS jsstr :=
  match (artifactData ctx)~>"creations" with
  | JArr (creation :: _) => url ← creation~>!"url"; Ok (trimmed_text url)
  | _ => Ok []
  end.

Definition listArtifacts (task : jsval) : JS jsval :=
  status ← task~>!"status";
  if equals status "SUCCESS" then
    url ← artifactVideoURL task; Ok (artifact_list video_artifact (nonempty_text url))
  else Ok (artifact_list video_artifact false).

Definition buildContentRequest (ctx : jsval) : JS jsval :=
  key ← ctx~>!"artifactKey";
  if is_not key "video" then artifact_not_found
  else
    url ← artifactVideoURL ctx;
    if nonempty_text url then public_download url ctx else artifact_not_found.

Definition extractUsageOnComplete (task taskResult body : jsval) : option obj :=
  if negb (truthy body) || negb (has_own body (js "credits")) || is_nullish body~>"credits" then None
  else
    let credits := to_number body~>"credits" in
    if is_finite credits then Some ["credits" ↦ JNum credits] else None.

(** ** The Responses protocol *)

Definition responses_decodeRequest (ctx : jsval) : JS jsval :=
  req ← responses_body ctx;
  model ← check_model req~>"model";
  _ ← check_input req;
  _ ← check_images req;
  _ ← check_metadata req;
  let '(text, found_images) := responsesInput req in
  let prompt := prompt_of text req in
  let images := request_images req found_images in
  _ ← throw_if (negb (nonempty_text prompt) && bool_decide (images = [])) (js "input is required");
  let with_images := negb (bool_decide (images = [])) in
  let body := put_if with_images ["model" ↦ JStr model; "prompt" ↦ JStr prompt] (js "images")
                (JArr (map JStr images)) in
  let body := copy_own req "size" "size" (copy_seconds req "duration" body) in
  let body := copy_own req "metadata" "metadata" body in
  let requested := (JObj body)~>"duration" in
  let duration := if is_undefined requested then JUndefined else JNum (to_number requested) in
  _ ← validateViduCombo (JStr model) duration (outboundResolution (JObj body) (JStr model)) with_images;
  action ← actionFor (JObj body);
  Ok (submit_request (JStr model) action body).

Definition renderEvents (ctx task previousState : jsval) : JS jsval :=
  render_events (responsesVideoText ctx) task previousState.
Definition renderFinal (ctx : jsval) : JS jsval :=
  render_final (responsesVideoText ctx) ["vendor" ↦ str "vidu"].

(** ** The video protocol *)

Definition legacy_openai_video (task : jsval) : JS jsval :=
  _ ← task~>!"task_id";
  let output := video_object video_statuses task (JStr []) task~>"created_at" in
  let output := put_if (truthy task~>"updated_at") output (js "completed_at") task~>"updated_at" in
  let data := task~>"data" in
  Ok (JObj (put_if (truthy data && equals data~>"state" "failed" && truthy data~>"err_code") output (js "error")
    (JObj ["message" ↦ data~>"err_code"; "code" ↦ data~>"err_code"]))).

Definition input_reference_file : jsval :=
  JObj ["__fileRef" ↦ str "request_file:input_reference"; "encoding" ↦ str "dataUrl"; "maxBytes" ↦ int 15728640].

Definition place_image (req : obj) (with_file : bool) : obj :=
  if with_file then put req (js "images") (JArr [input_reference_file])
  else
    let image := trimmed (js_or (JObj req)~>"input_reference" (JObj req)~>"image") in
    let has_images := match (JObj req)~>"images" with JArr (_ :: _) => true | _ => false end in
    put_if (nonempty_text image && negb has_images) req (js "images") (JArr [JStr image]).

Definition video_decodeRequest (ctx : jsval) : JS jsval :=
  '(req, with_file) ← video_request any_file ctx;
  let model := js_or (js_or ctx~>"upstreamModel" ctx~>"model") (JObj req)~>"model" in
  let seconds := requested_seconds (JObj req) in
  let duration := if is_defined seconds then to_number seconds else defaultDuration model in
  let req := place_image (put req (js "duration") (JNum duration)) with_file in
  let resolution := outboundResolution (JObj req) model in
  let req := put req (js "resolution") (JStr resolution) in
  _ ← validateViduCombo model (JNum duration) resolution (hasViduImages (JObj req) with_file);
  action ← actionFor (JObj req);
  Ok (submit_request ctx~>"model" action (with_model (JObj req) ctx)).

Definition video_render (ctx task : jsval) : JS jsval := legacy_openai_video task.

End vidu.
