(* ===== verification/PluginGoogle.v ===== *)
(** * The Google Veo plugin (Gemini API)

    Models [src/plugins/tasks/google/plugin.js]: image inputs, the request of a
    long-running operation, its polling under an encoded operation name,
    usage, and the Responses and video protocols. *)
From stdpp Require Import base list option numbers sets.
From Stdlib Require Import ZArith SpecFloat Lia.
From S2P Require Import Prelude.
From S2P Require Import JsString.
From S2P Require Import JsNumber.
From S2P Require Import Syntax.
From S2P Require Import Runtime.
From S2P Require Import Display.
From S2P Require Import Json.
From S2P Require Import JsText.
From S2P Require Import JsonPrint.
From S2P Require Import AdvancedCustom.
From S2P Require Import JsDynamic.
From S2P Require Import PluginCommon.


Section google.
Context {H : Host} {U : TaskHost}.

Definition resolutions : list jsstr := [js "720p"; js "1080p"; js "4k"].

Definition usageSchema : BillingUsageSchema :=
  ["seconds" ↦ number_field "second"; "resolution" ↦ enum_field resolutions].

Definition trimmed (value : jsval) : jsstr := trimmed_text value.
Definition responsesInput (req : jsval) : jsstr * list jsstr := responses_input req.
Definition responsesVideoText (ctx : jsval) : JS jsstr := responses_video_text ctx.
Definition artifactData (ctx : jsval) : jsval := artifact_data ctx.
Definition sizeParts (size : jsval) : option (num * num) := size_parts size.
Definition resolutionForSize (size : jsval) : jsstr := resolution_for_size size.
Definition aspectForSize (size : jsval) : jsstr := aspect_for_size size.

(** ** Images *)

Definition inline_data (mime : jsval) (data : jsval) : jsval :=
  JObj ["inlineData" ↦ JObj ["mimeType" ↦ mime; "data" ↦ data]].
Definition OCTETS : jsval := str "application/octet-stream".

(** The type of the uploaded file a reference names. *)
Fixpoint file_mime (ref : jsval) (files : list jsval) : JS jsval :=
  match files with
  | [] => Ok (JStr [])
  | file :: files =>
      r ← file~>!"ref";
      if strict_eq r ref || equals file~>"field" "input_reference"
      then Ok (js_or file~>"mimeType" (JStr [])) else file_mime ref files
  end.

Definition data_url (value : jsstr) : option jsval :=
  match index_of (cu ",") value with
  | Some comma =>
      match drop (S comma) value with
      | [] => None
      | data =>
          let mediaType := default [] (head (split_on (cu ";") (slice value 5 comma))) in
          Some (inline_data (js_or (JStr mediaType) OCTETS) (JStr data))
      end
  | None => None
  end.

Definition base64_mime (value : jsstr) : jsval :=
  if starts_with (js "iVBORw0KGgo") value then str "image/png"
  else if starts_with (js "/9j/") value then str "image/jpeg"
  else if starts_with (js "R0lGOD") value then str "image/gif"
  else if starts_with (js "UklGR") value then str "image/webp"
  else OCTETS.

Definition text_image (value : jsstr) : option jsval :=
  if negb (nonempty_text value) then None
  else if starts_with (js "data:") value then data_url value
  else if base64_text value then Some (inline_data (base64_mime value) (JStr value)) else None.

Definition imageInput (value files : jsval) : JS (option jsval) :=
  if plain_object value && truthy value~>"__fileRef" then
    let mime := js_or value~>"mimeType" (JStr []) in
    mime ← (if negb (truthy mime) && truthy files
            then items ← iterate files; file_mime value~>"__fileRef" items else Ok mime);
    Ok (Some (inline_data (js_or mime OCTETS) value))
  else Ok (text_image (trimmed_text value)).

(** ** Provider interface *)

Definition has_image (image : option jsval) : bool := match image with Some _ => true | None => false end.

Definition parameters (req : jsval) : obj :=
  let params := assign [] (or_object req~>"metadata") in
  let params := put_if (ngtb (to_number req~>"duration") NZERO) params (js "durationSeconds")
                  (JNum (to_number req~>"duration")) in
  let params := put_if (negb (truthy (JObj params)~>"resolution") && truthy req~>"size") params (js "resolution")
                  (JStr (resolutionForSize req~>"size")) in
  let params := put_if (negb (truthy (JObj params)~>"aspectRatio") && truthy req~>"size") params (js "aspectRatio")
                  (JStr (aspectForSize req~>"size")) in
  let params := put_if (truthy (JObj params)~>"resolution") params (js "resolution")
                  (JStr (to_lower_case (js_text (JObj params)~>"resolution"))) in
  put params (js "numberOfVideos") (int 1).

(** Body and action of a submission. *)
Definition converted (ctx : jsval) : JS (jsval * jsval) :=
  body ← ctx~>!"requestBody";
  let req := or_object body in
  image ← imageInput (or_array req~>"images")~>"0" ctx~>"files";
  let instance := match image with
                  | Some i => put ["prompt" ↦ req~>"prompt"] (js "image") i
                  | None => ["prompt" ↦ req~>"prompt"]
                  end in
  Ok (JObj ["instances" ↦ JArr [JObj instance]; "parameters" ↦ JObj (parameters req)],
      video_action (has_image image)).

Definition version (ctx : jsval) : jsval := js_or (or_object ctx~>"userSetting")~>"geminiVersion" (str "v1beta").

Definition key_headers (ctx : jsval) : obj :=
  ["Accept" ↦ str "application/json"; "x-goog-api-key" ↦ ctx~>"apiKey"].

Definition buildSubmitRequest (ctx : jsval) : JS jsval :=
  '(body, action) ← converted ctx;
  Ok (JObj ["url" ↦ JStr (js_text ctx~>"baseUrl" ++ js "/" ++ js_text (version ctx) ++ js "/models/"
                          ++ js_text ctx~>"upstreamModel" ++ js ":predictLongRunning");
            "method" ↦ str "POST";
            "headers" ↦ JObj (("Content-Type" ↦ str "application/json") :: key_headers ctx);
            "body" ↦ body; "action" ↦ action]).

(** [((v.response || {}).generateVideoResponse || {}).generatedVideos || []] *)
Definition generated_videos (v : jsval) : jsval :=
  or_array (or_object (or_object v~>"response")~>"generateVideoResponse")~>"generatedVideos".
(** [videos.length && videos[0].video ? videos[0].video.uri || "" : ""] *)
Definition first_uri (videos : jsval) : JS jsval :=
  if truthy videos~>"length" then
    video ← (videos~>"0")~>!"video";
    Ok (if truthy video then js_or video~>"uri" (JStr []) else JStr [])
  else Ok (JStr []).

Definition parseSubmitResponse (ctx resp : jsval) : JS jsval :=
  body ← resp~>!"body";
  let body := or_object body in
  _ ← throw_if (negb (nonempty_text (trimmed_text body~>"name"))) (js "missing operation name");
  let taskId := JStr (base64URL (js_text body~>"name")) in
  let result := ["taskId" ↦ taskId; "taskData" ↦ body] in
  let error := body~>"error" in
  if truthy body~>"done" && negb (truthy error && truthy error~>"message") then
    uri ← first_uri (generated_videos body);
    Ok (JObj (put result (js "immediate")
      (JObj ["taskId" ↦ taskId; "status" ↦ str "SUCCESS"; "progress" ↦ str "100%"; "remoteUrl" ↦ uri])))
  else Ok (JObj result).

Definition extractUsage (ctx : jsval) : JS obj :=
  body ← ctx~>!"requestBody";
  let req := or_object body in
  let metadata := or_object req~>"metadata" in
  let seconds := to_number req~>"duration" in
  let seconds := if negb (is_finite seconds) || nleb seconds NZERO then nZ 8 else seconds in
  let resolution := js_or (js_or metadata~>"resolution" (JStr (resolutionForSize req~>"size"))) (str "720p") in
  Ok ["seconds" ↦ JNum seconds; "resolution" ↦ JStr (to_lower_case (js_text resolution))].

Definition extractUsageOnComplete : jsval := JNull.

Definition buildQueryRequest (ctx : jsval) : JS jsval :=
  base ← ctx~>!"baseUrl";
  name ← base64URLDecode (js_text ctx~>"taskId");
  Ok (JObj ["url" ↦ JStr (js_text base ++ js "/v1beta/" ++ name); "method" ↦ str "GET";
            "headers" ↦ JObj (key_headers ctx)]).

Definition parseTaskResult (ctx body : jsval) : JS jsval :=
  error ← body~>!"error";
  if truthy error && truthy error~>"message" then
    Ok (JObj ["status" ↦ str "FAILURE"; "progress" ↦ str "100%"; "reason" ↦ error~>"message"])
  else if negb (truthy body) || negb (is_object body) || negb (nonempty_text (trimmed_text body~>"name")) then
    Ok (JObj ["status" ↦ str "UNKNOWN"; "reason" ↦ str "unrecognized operation state"])
  else if negb (strict_eq body~>"done" (JBool true)) then
    Ok (JObj ["status" ↦ str "IN_PROGRESS"; "progress" ↦ str "50%"])
  else
    uri ← first_uri (generated_videos body);
    Ok (JObj ["taskId" ↦ JStr (base64URL (js_text (js_or body~>"name" (JStr [])))); "status" ↦ str "SUCCESS";
              "progress" ↦ str "100%"; "remoteUrl" ↦ uri]).

Definition artifactVideoURL (ctx : jsval) : JS jsstr :=
  uri ← first_uri (generated_videos (artifactData ctx)); Ok (trimmed_text uri).

Definition listArtifacts (task : jsval) : JS jsval :=
  status ← task~>!"status";
  if equals status "SUCCESS" then
    url ← artifactVideoURL task; Ok (artifact_list video_artifact (nonempty_text url))
  else Ok (artifact_list video_artifact false).

Definition buildContentRequest (ctx : jsval) : JS jsval :=
  key ← ctx~>!"artifactKey";
  if is_not key "video" then artifact_not_found
  else
    url ← artifactVideoURL ctx;
    if nonempty_text url then
      method ← (ctx~>"clientRequest")~>!"method";
      Ok (JObj ["url" ↦ JStr url; "method" ↦ method; "headers" ↦ JObj ["x-goog-api-key" ↦ ctx~>"apiKey"]])
    else artifact_not_found.

(** ** The Responses protocol *)

Definition responses_decodeRequest (ctx : jsval) : JS jsval :=
  req ← responses_body ctx;
  model ← check_model req~>"model";
  _ ← check_input req;
  _ ← check_images req;
  _ ← check_metadata req;
  let '(text, found_images) := responsesInput req in
  let prompt := prompt_of text req in
  let images := request_images req found_images in
  _ ← throw_if (negb (nonempty_text prompt) && bool_decide (images = [])) (js "input is required");
  image ← (match images with i :: _ => imageInput (JStr i) JUndefined | [] => Ok None end);
  let with_images := negb (bool_decide (images = [])) in
  _ ← throw_if (with_images && negb (has_image image)) (js "input image must be a data URL or base64 value");
  let metadata := copy_own req "resolution" "resolution" (assign [] (or_object req~>"metadata")) in
  let body := ["model" ↦ JStr model; "prompt" ↦ JStr prompt; "metadata" ↦ JObj metadata] in
  let body := put_if with_images body (js "images") (JArr (map JStr images)) in
  let body := copy_own req "size" "size" (copy_seconds req "duration" body) in
  Ok (submit_request (JStr model) (video_action with_images) body).

Definition renderEvents (ctx task previousState : jsval) : JS jsval :=
  render_events (responsesVideoText ctx) task previousState.
Definition renderFinal (ctx : jsval) : JS jsval :=
  render_final (responsesVideoText ctx) ["vendor" ↦ str "gemini"].

(** ** The video protocol *)

Definition legacy_statuses : obj :=
  ["SUBMITTED" ↦ str "queued"; "QUEUED" ↦ str "queued"; "IN_PROGRESS" ↦ str "in_progress";
   "SUCCESS" ↦ str "completed"; "FAILURE" ↦ str "failed"].

Definition legacy_openai_video (task : jsval) : JS jsval :=
  properties ← task~>!"properties";
  let model := js_or (or_object properties)~>"origin_model_name" (str "veo-3.0-generate-001") in
  let output := video_object legacy_statuses task model task~>"created_at" in
  let finished := to_number task~>"finish_time" in
  let updated := to_number task~>"updated_at" in
  Ok (JObj (if ngtb finished NZERO then put output (js "completed_at") (JNum finished)
            else put_if (ngtb updated NZERO) output (js "completed_at") (JNum updated))).

Definition check_seconds (req : obj) : JS obj :=
  let seconds := requested_seconds (JObj req) in
  if is_undefined seconds then Ok req
  else
    let n := to_number seconds in
    _ ← throw_if (negb (neqb n (nZ 4)) && negb (neqb n (nZ 6)) && negb (neqb n (nZ 8)))
          (js "seconds must be one of 4, 6, or 8");
    Ok (put req (js "duration") (JNum n)).

Definition provided_resolution (req : obj) : jsval :=
  let resolution := (JObj req)~>"resolution" in
  let metadata := (JObj req)~>"metadata" in
  if is_defined resolution then resolution else js_and metadata metadata~>"resolution".

Definition check_resolution (req : obj) : JS unit :=
  let provided := provided_resolution req in
  throw_if (is_defined provided && negb (strict_eq provided (JStr []))
            && negb (str_in (to_lower_case (js_text provided)) resolutions))
    (js "resolution must be one of 720p, 1080p, or 4k").

Definition input_reference_file : jsval :=
  JObj ["__fileRef" ↦ str "request_file:input_reference"; "encoding" ↦ str "base64"; "maxBytes" ↦ int 20971520].

(** The end both Veo plugins share: the checks and the request passed on. *)
Definition veo_submit (ctx : jsval) (req : obj) (with_file : bool) : JS jsval :=
  req ← check_seconds req;
  _ ← check_resolution req;
  let req := put_if with_file req (js "images") (JArr [input_reference_file]) in
  Ok (submit_request ctx~>"model"
        (video_action (with_file || truthy (JObj req)~>"input_reference" || truthy (JObj req)~>"image"))
        (with_model (JObj req) ctx)).

Definition video_decodeRequest (ctx : jsval) : JS jsval :=
  '(req, with_file) ← video_request any_file ctx;
  veo_submit ctx req with_file.

Definition video_render (ctx task : jsval) : JS jsval := legacy_openai_video task.

End google.
