(* ===== verification/PluginVertex.v ===== *)
(** * The Google Veo plugin (Vertex AI)

    Models [src/plugins/tasks/vertex-ai/plugin.js]: regions and addresses,
    image inputs, the request of a long-running operation, its polling by the
    parts of the operation name, usage, and the Responses and video
    protocols. *)
From stdpp Require Import base list option numbers sets.
From Stdlib Require Import ZArith SpecFloat Lia.
From S2P Require Import Prelude.
From S2P Require Import JsString.
From S2P Require Import JsNumber.
From S2P Require Import Syntax.
From S2P Require Import Runtime.
From S2P Require Import Display.
From S2P Require Import Json.
From S2P Require Import JsText.
From S2P Require Import JsonPrint.
From S2P Require Import AdvancedCustom.
From S2P Require Import JsDynamic.
From S2P Require Import PluginCommon.

From S2P Require Import PluginGoogle.

Section vertex.
Context {H : Host} {U : TaskHost}.

Definition usageSchema : BillingUsageSchema :=
  ["seconds" ↦ number_field "second"; "resolution" ↦ enum_field [js "720p"; js "1080p"; js "4k"];
   "generate_audio" ↦ boolean_field].

Definition trimmed (value : jsval) : jsstr := trimmed_text value.
Definition responsesInput (req : jsval) : jsstr * list jsstr := responses_input req.
Definition sizeParts (size : jsval) : option (num * num) := size_parts size.
Definition resolution (size : jsval) : jsstr := resolution_for_size size.
Definition aspect (size : jsval) : jsstr := aspect_for_size size.

Definition validImageInput (value : jsval) : bool :=
  let value := trimmed value in
  nonempty_text value &&
  if starts_with (js "data:") value then
    match index_of (cu ",") value with
    | Some comma => nonempty_text (drop (S comma) value)
    | None => false
    end
  else base64_text value.

Definition duration (req : jsval) : num :=
  let n := to_number req~>"duration" in
  if negb (is_finite n) || nleb n NZERO then nZ 8 else n.

(** ** Addresses *)

Definition region (ctx model : jsval) : jsval :=
  let setting := or_object ctx~>"userSetting" in
  let configured := js_or (js_or setting~>"vertexRegion" setting~>"apiVersion") (str "global") in
  if truthy configured && is_object configured then
    js_or (js_or (get configured (js_text model)) configured~>"default") (str "global")
  else JStr (js_text (js_or configured (str "global"))).

(** [text.replace(/\/$/, "")] *)
Definition without_slash (s : jsstr) : jsstr :=
  match reverse s with
  | c :: rest => if (c =? cu "/")%N then reverse rest else s
  | [] => s
  end.

Definition apiBase (baseUrl project location : jsval) : jsstr :=
  let base := without_slash (js_text (js_or baseUrl (JStr []))) in
  let place := js "/projects/" ++ js_text project ++ js "/locations/" ++ js_text location in
  if nonempty_text base then base ++ (if ends_with (js "/v1") base then [] else js "/v1") ++ place
  else js "https://" ++ (if equals location "global" then [] else js_text location ++ js "-")
       ++ js "aiplatform.googleapis.com/v1" ++ place.

Definition modelURL (ctx project location model : jsval) (action : string) : jsstr :=
  apiBase ctx~>"baseUrl" project location ++ js "/publishers/google/models/" ++ js_text model ++ js ":" ++ js action.
Arguments modelURL ctx project location model action%_string.

Definition decodeTaskId (value : jsval) : JS jsstr := base64URLDecode (js_text value).

(** The rest of a text after the first occurrence of a marker. *)
Fixpoint after (marker s : jsstr) : option jsstr :=
  if starts_with marker s then Some (drop (length marker) s)
  else match s with [] => None | _ :: s => after marker s end.

Definition operationPart (name marker : jsstr) : jsstr :=
  match after marker name with
  | Some rest => default [] (head (split_on (cu "/") rest))
  | None => []
  end.

(** The video of an operation, as an address or as a data URL. *)
Definition dataVideo (response : jsval) : jsval :=
  let first := or_object (or_array response~>"videos")~>"0" in
  let data := js_or (js_or (js_or first~>"bytesBase64Encoded" response~>"bytesBase64Encoded") response~>"video")
                    (JStr []) in
  if negb (truthy data) || starts_with (js "data:") (js_text data) || starts_with (js "http") (js_text data)
  then data
  else
    let enc := js_or (js_or (js_or first~>"mimeType" first~>"encoding") response~>"encoding") (str "mp4") in
    JStr (js "data:" ++ (if includes (js "/") (js_text enc) then js_text enc else js "video/" ++ js_text enc)
          ++ js ";base64," ++ js_text data).

(** ** Submission *)

Definition parameters (req : jsval) : obj :=
  let metadata := assign [] (or_object req~>"metadata") in
  let metadata := put_if (ngtb (to_number req~>"duration") NZERO) metadata (js "durationSeconds")
                    (JNum (to_number req~>"duration")) in
  let metadata := put_if (negb (truthy (JObj metadata)~>"resolution") && truthy req~>"size") metadata
                    (js "resolution") (JStr (resolution req~>"size")) in
  let metadata := put_if (negb (truthy (JObj metadata)~>"aspectRatio") && truthy req~>"size") metadata
                    (js "aspectRatio") (JStr (aspect req~>"size")) in
  let metadata := put_if (truthy (JObj metadata)~>"resolution") metadata (js "resolution")
                    (JStr (to_lower_case (js_text (JObj metadata)~>"resolution"))) in
  put metadata (js "sampleCount") (int 1).

Definition accepted_mime (mime : jsstr) : bool := jseq mime (js "image/jpeg") || jseq mime (js "image/png").
Definition check_mime (mime : jsstr) : JS unit :=
  throw_if (negb (accepted_mime mime)) (js "input image must be image/jpeg or image/png").

Definition mime_text (v : jsval) : jsstr := to_lower_case (js_text (js_or v (JStr []))).

(** The type of the file a reference names, [mime] where none does. *)
Fixpoint file_mime (mime : jsstr) (ref : jsval) (files : list jsval) : JS jsstr :=
  match files with
  | [] => Ok mime
  | file :: files =>
      r ← file~>!"ref";
      if strict_eq r ref || equals file~>"field" "input_reference"
      then Ok (mime_text file~>"mimeType") else file_mime mime ref files
  end.

Definition reference_image (image files : jsval) : JS jsval :=
  let mime := mime_text image~>"mimeType" in
  mime ← (if accepted_mime mime then Ok mime
          else items ← iterate (or_array files); file_mime mime image~>"__fileRef" items);
  _ ← check_mime mime;
  Ok (JObj ["bytesBase64Encoded" ↦ image; "mimeType" ↦ JStr mime]).

(** [text.slice(5, comma)] for the result of [indexOf], -1 when there is no comma. *)
Definition text_image (text : jsstr) : JS jsval :=
  let comma := index_of (cu ",") text in
  let '(mime, data) :=
    if starts_with (js "data:") text then
      let media := slice text 5 (match comma with Some c => c | None => length text - 1 end) in
      (to_lower_case (default [] (head (split_on (cu ";") media))),
       match comma with Some c => drop (S c) text | None => text end)
    else if starts_with (js "iVBORw0KGgo") text then (js "image/png", text)
    else if starts_with (js "/9j/") text then (js "image/jpeg", text)
    else ([], text) in
  _ ← check_mime mime;
  Ok (JObj ["bytesBase64Encoded" ↦ JStr data; "mimeType" ↦ JStr mime]).

Definition instance_image (image files : jsval) : JS (option jsval) :=
  if plain_object image && truthy image~>"__fileRef" then i ← reference_image image files; Ok (Some i)
  else if truthy image then i ← text_image (js_text image); Ok (Some i)
  else Ok None.

Definition auth_headers (ctx auth : jsval) : obj :=
  ["Content-Type" ↦ str "application/json"; "Accept" ↦ str "application/json";
   "Authorization" ↦ ctx~>"authHeader"; "x-goog-user-project" ↦ auth~>"projectId"].

Definition buildSubmitRequest (ctx : jsval) : JS jsval :=
  authError ← ctx~>!"authError";
  _ ← throw_if (truthy authError) (js_text authError);
  let req := or_object ctx~>"requestBody" in
  let model := js_or ctx~>"upstreamModel" (str "veo-3.0-generate-001") in
  let image := (or_array req~>"images")~>"0" in
  i ← instance_image image ctx~>"files";
  let instance := match i with
                  | Some i => put ["prompt" ↦ req~>"prompt"] (js "image") i
                  | None => ["prompt" ↦ req~>"prompt"]
                  end in
  let auth := ctx~>"auth" in
  project ← auth~>!"projectId";
  Ok (JObj ["url" ↦ JStr (modelURL ctx project (region ctx model) model "predictLongRunning");
            "method" ↦ str "POST"; "headers" ↦ JObj (auth_headers ctx auth);
            "body" ↦ JObj ["instances" ↦ JArr [JObj instance]; "parameters" ↦ JObj (parameters req)];
            "action" ↦ video_action (truthy image)]).

Definition parseSubmitResponse (ctx resp : jsval) : JS jsval :=
  body ← resp~>!"body";
  let body := or_object body in
  _ ← throw_if (negb (nonempty_text (trimmed_text body~>"name"))) (js "missing operation name");
  Ok (JObj ["taskId" ↦ JStr (base64URL (js_text body~>"name")); "taskData" ↦ body]).

Definition extractUsage (ctx : jsval) : JS obj :=
  body ← ctx~>!"requestBody";
  let req := or_object body in
  let metadata := or_object req~>"metadata" in
  let res := js_or (js_or metadata~>"resolution" (JStr (resolution req~>"size"))) (str "720p") in
  Ok ["seconds" ↦ JNum (duration req); "resolution" ↦ JStr (to_lower_case (js_text res));
      "generate_audio" ↦ JBool (negb (strict_eq metadata~>"generateAudio" (JBool false)))].

Definition extractUsageOnComplete : jsval := JNull.

(** ** Polling *)

Definition buildQueryRequest (ctx : jsval) : JS jsval :=
  id ← ctx~>!"taskId";
  name ← decodeTaskId id;
  let project := operationPart name (js "projects/") in
  let location := operationPart name (js "locations/") in
  let model := operationPart name (js "models/") in
  _ ← throw_if (negb (nonempty_text project) || negb (nonempty_text model))
        (js "cannot extract project or model from operation name");
  let auth := ctx~>"auth" in
  _ ← auth~>!"projectId";
  Ok (JObj ["url" ↦ JStr (modelURL ctx (JStr project) (js_or (JStr location) (str "us-central1")) (JStr model)
                            "fetchPredictOperation");
            "method" ↦ str "POST"; "headers" ↦ JObj (auth_headers ctx auth);
            "body" ↦ JObj ["operationName" ↦ JStr name]]).

Definition parseTaskResult (ctx body : jsval) : JS jsval :=
  error ← body~>!"error";
  if truthy error && truthy error~>"message" then
    Ok (JObj ["status" ↦ str "FAILURE"; "progress" ↦ str "100%"; "reason" ↦ error~>"message"])
  else if negb (truthy body) || negb (is_object body) || negb (nonempty_text (trimmed_text body~>"name")) then
    Ok (JObj ["status" ↦ str "UNKNOWN"; "reason" ↦ str "unrecognized operation state"])
  else if negb (strict_eq body~>"done" (JBool true)) then
    Ok (JObj ["status" ↦ str "IN_PROGRESS"; "progress" ↦ str "50%"])
  else
    let url := dataVideo (or_object body~>"response") in
    Ok (JObj ["status" ↦ str "SUCCESS"; "progress" ↦ str "100%"; "url" ↦ url; "remoteUrl" ↦ url]).

Definition listArtifacts : jsval := JArr [].
Definition buildContentRequest : JS jsval := artifact_not_found.

(** ** The Responses protocol *)

Definition completionMessage (ctx task : jsval) : JS jsstr :=
  let request := or_object (js_and ctx ctx~>"requestBody") in
  properties ← (if nonempty_text (trimmed request~>"model") then Ok JUndefined else task~>!"properties");
  status ← task~>!"status";
  let model :=
    if nonempty_text (trimmed request~>"model") then trimmed request~>"model"
    else let origin := trimmed (or_object properties)~>"origin_model_name" in
         if nonempty_text origin then origin else js "veo-3.0-generate-001" in
  Ok (js "Video generation for " ++ model ++ js " completed (" ++ number_to_string (duration request)
      ++ js " seconds, status " ++ to_upper_case (js_text (js_or status (str "SUCCESS")))
      ++ js "). Retrieve the video through the native /v1/videos task flow.").

Definition responses_decodeRequest (ctx : jsval) : JS jsval :=
  req ← responses_body ctx;
  model ← check_model req~>"model";
  _ ← check_input req;
  _ ← check_images req;
  _ ← check_metadata req;
  let '(text, found_images) := responsesInput req in
  let prompt := prompt_of text req in
  let images := request_images req found_images in
  _ ← throw_if (negb (nonempty_text prompt) && bool_decide (images = [])) (js "input is required");
  _ ← (match images with
       | image :: _ => throw_if (negb (validImageInput (JStr image)))
                         (js "input image must be a data URL or base64 value")
       | [] => Ok tt
       end);
  let with_images := negb (bool_decide (images = [])) in
  let metadata := copy_own req "resolution" "resolution" (assign [] (or_object req~>"metadata")) in
  let body := ["model" ↦ JStr model; "prompt" ↦ JStr prompt; "metadata" ↦ JObj metadata] in
  let body := put_if with_images body (js "images") (JArr (map JStr images)) in
  let body := copy_own req "size" "size" (copy_seconds req "duration" body) in
  Ok (submit_request (JStr model) (video_action with_images) body).

(** The message is only made for the first successful rendering. *)
Definition renderEvents (ctx task previousState : jsval) : JS jsval :=
  _ ← task~>!"status";
  if truthy previousState && strict_eq previousState~>"status" (JStr (task_status task))
  then render_events (Ok []) task previousState
  else render_events (completionMessage ctx task) task previousState.

Definition renderFinal (ctx task : jsval) : JS jsval :=
  render_final (completionMessage ctx task) ["vendor" ↦ str "vertex"; "artifact_mode" ↦ str "native_videos"].

(** ** The video protocol *)

Definition legacy_openai_video (task : jsval) : JS jsval :=
  properties ← task~>!"properties";
  let model := js_or (or_object properties)~>"origin_model_name" (str "veo-3.0-generate-001") in
  let output := video_object video_statuses task model task~>"created_at" in
  let updated := to_number task~>"updated_at" in
  Ok (JObj (put_if (ngtb updated NZERO) output (js "completed_at") (JNum updated))).

Definition check_file (file : jsval) : JS unit :=
  throw_if (negb (accepted_mime (mime_text file~>"mimeType")))
    (js "input_reference must be image/jpeg or image/png").

Definition video_decodeRequest (ctx : jsval) : JS jsval :=
  '(req, with_file) ← video_request check_file ctx;
  veo_submit ctx req with_file.

Definition video_render (ctx task : jsval) : JS jsval := legacy_openai_video task.

End vertex.
