(* ===== verification/PluginJimeng.v ===== *)
(** * The Jimeng plugin

    Models [src/plugins/tasks/jimeng/plugin.js]: the request keys of the
    product tiers, signed requests, the frames that are sent and the seconds
    that are billed, the answers of the provider, and the native, Responses
    and video protocols. *)
From stdpp Require Import base list option numbers sets.
From Stdlib Require Import ZArith SpecFloat Lia.
From S2P Require Import Prelude.
From S2P Require Import JsString.
From S2P Require Import JsNumber.
From S2P Require Import Syntax.
From S2P Require Import Runtime.
From S2P Require Import Display.
From S2P Require Import Json.
From S2P Require Import JsText.
From S2P Require Import JsonPrint.
From S2P Require Import AdvancedCustom.
From S2P Require Import JsDynamic.
From S2P Require Import PluginCommon.


Section jimeng.
Context {H : Host} {U : TaskHost}.

Definition products : list jsstr := [js "s2_pro"; js "v30_720p"; js "v30_1080p"; js "v30_pro"].

Definition usageSchema : BillingUsageSchema :=
  ["seconds" ↦ number_field "second"; "product" ↦ enum_field products].

Definition trimmed (value : jsval) : jsstr := trimmed_text value.
Definition responsesVideoText (ctx : jsval) : JS jsstr := responses_video_text ctx.
Definition isRelay (apiKey : jsval) : JS bool := is_relay apiKey.
Definition viaGateway (ctx : jsval) : JS bool := via_gateway ctx.
Definition filePlaceholder (image : jsval) : jsval := file_placeholder image.
Definition artifactData (ctx : jsval) : jsval := artifact_data ctx.

(** ** Inputs *)

Definition read_text_part (part : jsval) (texts : list jsstr) : JS (list jsstr) :=
  match part with
  | JStr s => Ok (texts ++ [s])
  | JObj _ =>
      let texts := match part~>"text" with
                   | JStr s => if one_of part~>"type" [js "input_text"; js "text"] then texts ++ [s] else texts
                   | _ => texts
                   end in
      _ ← throw_if (one_of part~>"type" [js "input_image"; js "image_url"])
            (js "Jimeng Responses supports text input only");
      Ok texts
  | _ => Ok texts
  end.

Definition read_text_item (item : jsval) (texts : list jsstr) : JS (list jsstr) :=
  match item with
  | JStr s => Ok (texts ++ [s])
  | JObj _ => rfold read_text_part (content_of item) texts
  | _ => Ok texts
  end.

Definition responsesInput (req : jsval) : JS jsstr :=
  texts ← match req~>"input" with
          | JStr s => Ok [s]
          | JArr items => rfold read_text_item items []
          | _ => Ok []
          end;
  Ok (join [10%N] (List.filter (λ t, nonempty_text (trim t)) texts)).

Definition items_of (v : jsval) : list jsval := match v with JArr items => items | _ => [] end.

Definition imageValues (body : jsval) : list jsval :=
  match items_of body~>"image_urls" ++ items_of body~>"binary_data_base64" with
  | [] =>
      match items_of body~>"images", body~>"image" with
      | [], JStr image => if nonempty_text (trim image) then [JStr image] else []
      | images, _ => images
      end
  | images => images
  end.

Definition actionForImageCount (imageCount : num) : jsval :=
  if ngtb imageCount (nZ 1) then str "first_tail_to_video"
  else if neqb imageCount (nZ 1) then str "image_to_video" else str "text_to_video".

Definition count (l : list jsval) : num := nZ (Z.of_nat (length l)).

(** ** The native protocol *)

Definition text_or_empty (v : jsval) : jsval := match v with JStr s => v | _ => JStr [] end.

Definition decodeNativeRequest (ctx : jsval) : JS jsval :=
  body ← ctx~>!"body";
  _ ← throw_if (negb (truthy body) || is_not body~>"kind" "json") (js "JSON body required");
  let requestBody := body~>"value" in
  let actions := or_array (or_object ctx~>"query")~>"Action" in
  let action := if truthy actions~>"length" then actions~>"0" else JStr [] in
  _ ← throw_if (negb (truthy action)) (js "Action query parameter is required");
  let body := if is_object requestBody then requestBody else JObj [] in
  if equals action "CVSync2AsyncGetResult" then
    _ ← throw_if (match body~>"task_id" with JStr s => negb (nonempty_text (trim s)) | _ => true end)
          (js "task_id is required for CVSync2AsyncGetResult");
    Ok (JObj ["kind" ↦ str "query"; "taskIds" ↦ JArr [body~>"task_id"]])
  else
    _ ← throw_if (is_not action "CVSync2AsyncSubmitTask") (js "unsupported Jimeng Action");
    let images := imageValues body in
    let model := text_or_empty body~>"req_key" in
    Ok (submit_request model (actionForImageCount (count images))
          ["model" ↦ model; "prompt" ↦ text_or_empty body~>"prompt"; "images" ↦ JArr images; "metadata" ↦ body]).

(** ** Addresses and signatures *)

Definition endpoint (ctx : jsval) (action : string) : JS jsstr :=
  gateway ← viaGateway ctx;
  Ok (js_text ctx~>"baseUrl" ++ (if (gateway : bool) then js "/jimeng/" else js "/") ++ js "?Action=" ++ js action
      ++ js "&Version=2022-08-31").
Arguments endpoint ctx action%_string.

Definition requestHeaders (ctx : jsval) (method : string) (url bodyText : jsstr) : JS jsval :=
  gateway ← viaGateway ctx;
  let headers := ["Content-Type" ↦ str "application/json"; "Accept" ↦ str "application/json"] in
  if (gateway : bool) then
    Ok (JObj (put headers (js "Authorization") (JStr (js "Bearer " ++ js_text ctx~>"apiKey"))))
  else
    key ← text_of ctx~>"apiKey";
    match split_on (cu "|") key with
    | [access; secret] =>
        signed ← volcSignV4 (JObj ["Method" ↦ str method; "URL" ↦ JStr url;
          "Headers" ↦ JObj ["Content-Type" ↦ str "application/json"]; "Body" ↦ JStr bodyText;
          "AccessKey" ↦ JStr (trim access); "SecretKey" ↦ JStr (trim secret);
          "Region" ↦ str "cn-north-1"; "Service" ↦ str "cv"]);
        Ok (JObj (assign headers signed))
    | _ => throw (js "invalid api key format for jimeng: expected 'ak|sk'")
    end.
Arguments requestHeaders ctx method%_string url bodyText.

(** ** Request keys *)

Definition ASPECT_RATIOS : list jsstr := [js "16:9"; js "9:16"; js "1:1"; js "4:3"; js "3:4"; js "21:9"].
Definition ASPECT_RATIO_VALUES : list (jsstr * num) :=
  [(js "16:9", ndiv (nZ 16) (nZ 9)); (js "9:16", ndiv (nZ 9) (nZ 16)); (js "1:1", nZ 1);
   (js "4:3", ndiv (nZ 4) (nZ 3)); (js "3:4", ndiv (nZ 3) (nZ 4)); (js "21:9", ndiv (nZ 21) (nZ 9))].

Definition isV3ReqKey (reqKey : jsval) : bool := includes (js "v30") (js_text (js_or reqKey (JStr []))).

(** [text.replace(/p$/, "")] *)
Definition without_p (s : jsstr) : jsstr :=
  match reverse s with
  | c :: rest => if (c =? cu "p")%N then reverse rest else s
  | [] => s
  end.

Definition converted_key (reqKey : jsstr) (imageCount : num) : jsstr :=
  if jseq reqKey (js "jimeng_vgfm_t2v_l20") && ngtb imageCount NZERO then js "jimeng_vgfm_i2v_l20"
  else if negb (includes (js "jimeng_v30") reqKey) then reqKey
  else if jseq reqKey (js "jimeng_v30_pro") then js "jimeng_ti2v_v30_pro"
  else if ngtb imageCount (nZ 1) then
    without_p (replace_text (js "jimeng_v30") (js "jimeng_i2v_first_tail_v30") reqKey)
  else if neqb imageCount (nZ 1) then without_p (replace_text (js "jimeng_v30") (js "jimeng_i2v_first_v30") reqKey)
  else replace_text (js "jimeng_v30") (js "jimeng_t2v_v30") reqKey.

Definition convertedReqKey (reqKey : jsval) (imageCount : num) : JS jsstr :=
  key ← text_of reqKey; Ok (converted_key key imageCount).

Definition productForReqKey (key : jsstr) : jsstr :=
  if includes (js "vgfm") key && ends_with (js "_l20") key then js "s2_pro"
  else if jseq key (js "jimeng_ti2v_v30_pro") || includes (js "v30_pro") key then js "v30_pro"
  else if includes (js "1080") key then js "v30_1080p"
  else if includes (js "v30") key then js "v30_720p"
  else js "s2_pro".

Definition metadata_of (req : jsval) : jsval := or_object (js_and req req~>"metadata").

Definition submitImageCount (req : jsval) : num :=
  let metadata := metadata_of req in
  match items_of metadata~>"binary_data_base64" ++ items_of metadata~>"image_urls" with
  | [] => count (items_of (js_and req req~>"images"))
  | images => count images
  end.

Definition submitReqKey (ctx : jsval) : jsstr :=
  let req := or_object (js_and ctx ctx~>"requestBody") in
  let metadata := or_object req~>"metadata" in
  let base := js_or (js_or (js_or metadata~>"req_key" (js_and ctx ctx~>"upstreamModel")) req~>"model") (JStr []) in
  match converted_key (js_text base) (submitImageCount req) with
  | [] => js "jimeng_vgfm_t2v_l20"
  | key => key
  end.

Definition outboundSeconds (req : jsval) (reqKey : jsstr) : Z :=
  let frames := to_number (metadata_of req)~>"frames" in
  if negb (isV3ReqKey (JStr reqKey)) then 5
  else if neqb frames (nZ 241) then 10
  else if neqb frames (nZ 121) then 5
  else if neqb (to_number (js_and req req~>"duration")) (nZ 10) then 10 else 5.

(** ** Aspect ratios *)

Definition nearer (value : num) (best : jsstr * num) (candidate : jsstr * num) : jsstr * num :=
  let diff := nabs (nsub value candidate.2) in
  if nltb diff best.2 then (candidate.1, diff) else best.

Definition aspectRatioFromSize (size : jsval) : jsstr :=
  let raw := trimmed_text size in
  if str_in raw ASPECT_RATIOS then raw
  else
    match split_on (cu "x") (to_lower_case raw) with
    | [w; h] =>
        let width := number_of_string w in
        let height := number_of_string h in
        if negb (ngtb width NZERO) || negb (ngtb height NZERO) then []
        else (fold_left (nearer (ndiv width height)) ASPECT_RATIO_VALUES ([], S754_infinity false)).1
    | _ => []
    end.

Definition outboundAspectRatio (req : jsval) : jsval :=
  let metadata := metadata_of req in
  if one_of metadata~>"aspect_ratio" ASPECT_RATIOS then metadata~>"aspect_ratio"
  else if one_of (js_and req req~>"aspect_ratio") ASPECT_RATIOS then req~>"aspect_ratio"
  else if truthy req && truthy req~>"size" then JStr (aspectRatioFromSize req~>"size") else JStr [].

Definition queryReqKey (ctx : jsval) : jsstr :=
  let state := or_object (js_and ctx ctx~>"state") in
  let key := match state~>"req_key" with JStr s => trim s | _ => [] end in
  if nonempty_text key then key
  else if truthy ctx && equals ctx~>"action" "image_to_video" then js "jimeng_vgfm_i2v_l20"
  else if truthy ctx && equals ctx~>"action" "first_tail_to_video" then js "jimeng_i2v_first_tail_v30"
  else js "jimeng_vgfm_t2v_l20".

Definition validateSecondsForReqKey (reqKey : jsstr) (seconds : jsval) : JS num :=
  let n := to_number seconds in
  if isV3ReqKey (JStr reqKey) then
    _ ← throw_if (negb (neqb n (nZ 5)) && negb (neqb n (nZ 10))) (js "seconds must be 5 or 10"); Ok n
  else _ ← throw_if (negb (neqb n (nZ 5))) (js "seconds must be 5"); Ok n.

Definition decodeImageCount (req : jsval) (hasInputReferenceFile : bool) : num :=
  let images := items_of req~>"images" in
  if hasInputReferenceFile then nmax (nZ 1) (count images)
  else match images with
       | [] => if nonempty_text (trimmed req~>"input_reference") || nonempty_text (trimmed req~>"image")
               then nZ 1 else submitImageCount req
       | _ => count images
       end.

(** ** Submission *)

Definition copied_keys : list jsstr :=
  [js "req_key"; js "binary_data_base64"; js "image_urls"; js "prompt"; js "seed"; js "aspect_ratio"; js "frames"].

(** One round of the loop over the keys taken from the metadata. *)
Definition copy_key (metadata : jsval) (body : obj) (key : jsstr) : obj :=
  let v := get metadata key in
  if is_nullish v then body
  else if jseq key (js "aspect_ratio") && negb (nonempty_text (trim (js_text v))) then body
  else put body key v.

Definition initial_body (ctx req : jsval) : obj :=
  let body := ["req_key" ↦ ctx~>"upstreamModel";
               "prompt" ↦ js_or req~>"prompt" JUndefined; "seed" ↦ int 0] in
  put_if (truthy (outboundAspectRatio req)) body (js "aspect_ratio") (outboundAspectRatio req).

(** Images given as addresses or as data. *)
Definition place_images (images : jsval) (body : obj) : JS obj :=
  if truthy images~>"length" then
    if starts_with (js "http") (js_text images~>"0") then Ok (put body (js "image_urls") images)
    else items ← array_items images;
         Ok (put body (js "binary_data_base64") (JArr (map filePlaceholder items)))
  else Ok body.

Definition place_binary (body : obj) : obj :=
  match (JObj body)~>"binary_data_base64" with
  | JArr items => put body (js "binary_data_base64") (JArr (map filePlaceholder items))
  | _ => body
  end.

Definition body_images (body : obj) : list jsval :=
  items_of (JObj body)~>"binary_data_base64" ++ items_of (JObj body)~>"image_urls".
Definition image_count (body : obj) (images : jsval) : num :=
  match body_images body with
  | [] => to_number images~>"length"
  | l => count l
  end.

(** The frames of the body, by the final key. *)
Definition set_frames (req : jsval) (key : jsstr) (body : obj) : obj :=
  if isV3ReqKey (JStr key) then
    put_if (is_nullish (JObj body)~>"frames") body (js "frames")
      (int (if (outboundSeconds req key =? 10)%Z then 241 else 121))
  else remove body (js "frames").

Definition ordered (body : obj) : obj :=
  let b := JObj body in
  let o := ["req_key" ↦ b~>"req_key"] in
  let o := put_if (truthy b~>"binary_data_base64" && truthy (b~>"binary_data_base64")~>"length") o
             (js "binary_data_base64") b~>"binary_data_base64" in
  let o := put_if (truthy b~>"image_urls" && truthy (b~>"image_urls")~>"length") o (js "image_urls") b~>"image_urls" in
  let o := put_if (truthy b~>"prompt") o (js "prompt") b~>"prompt" in
  let o := put o (js "seed") b~>"seed" in
  let o := put_if (truthy b~>"aspect_ratio") o (js "aspect_ratio") b~>"aspect_ratio" in
  put_if (truthy b~>"frames") o (js "frames") b~>"frames".

(** Body and image count of a submission. *)
Definition submit_body (ctx req : jsval) : JS (obj * num) :=
  let metadata := or_object req~>"metadata" in
  let images := or_array req~>"images" in
  body ← place_images images (initial_body ctx req);
  let body := place_binary (fold_left (copy_key metadata) copied_keys body) in
  let imageCount := image_count body images in
  key ← convertedReqKey (JObj body)~>"req_key" imageCount;
  Ok (ordered (set_frames req key (put body (js "req_key") (JStr key))), imageCount).

Definition buildSubmitRequest (ctx : jsval) : JS jsval :=
  req ← ctx~>!"requestBody";
  '(body, imageCount) ← submit_body ctx (or_object req);
  url ← endpoint ctx "CVSync2AsyncSubmitTask";
  let bodyText := json_compact (JObj body) in
  headers ← requestHeaders ctx "POST" url bodyText;
  Ok (JObj ["url" ↦ JStr url; "method" ↦ str "POST"; "headers" ↦ headers; "body" ↦ JStr bodyText;
            "action" ↦ actionForImageCount imageCount]).

Definition parseSubmitResponse (ctx resp : jsval) : JS jsval :=
  body ← resp~>!"body";
  let body := or_object body in
  _ ← throw_if (negb (strict_eq body~>"code" (int 10000)))
        (js_text (js_or body~>"message" (str "jimeng submit failed")));
  let data := body~>"data" in
  _ ← throw_if (negb (truthy data) || negb (truthy data~>"task_id")) (js "missing task_id");
  let key := JStr (submitReqKey ctx) in
  Ok (JObj ["taskId" ↦ data~>"task_id"; "taskData" ↦ JObj (put (assign [] body) (js "req_key") key);
            "state" ↦ JObj ["req_key" ↦ key]]).

Definition extractUsage (ctx : jsval) : JS (option obj) :=
  purpose ← ctx~>!"usagePurpose";
  if equals purpose "billing_ratios" then Ok None
  else
    let key := submitReqKey ctx in
    Ok (Some ["seconds" ↦ int (outboundSeconds (or_object ctx~>"requestBody") key);
              "product" ↦ JStr (productForReqKey key)]).

Definition extractUsageOnComplete : jsval := JNull.

(** ** Polling *)

Definition buildQueryRequest (ctx : jsval) : JS jsval :=
  let body := json_compact (JObj ["req_key" ↦ JStr (queryReqKey ctx); "task_id" ↦ ctx~>"taskId"]) in
  _ ← ctx~>!"taskId";
  url ← endpoint ctx "CVSync2AsyncGetResult";
  headers ← requestHeaders ctx "POST" url body;
  Ok (JObj ["url" ↦ JStr url; "method" ↦ str "POST"; "headers" ↦ headers; "body" ↦ JStr body]).

Definition polled (status progress : string) (data : jsval) : jsval :=
  JObj (put_if (truthy data~>"video_url")
    ["code" ↦ int 0; "status" ↦ str status; "progress" ↦ str progress; "reason" ↦ JStr []]
    (js "url") data~>"video_url").
Arguments polled status%_string progress%_string data.

Definition parseTaskResult (ctx body : jsval) : JS jsval :=
  data ← body~>!"data";
  let data := or_object data in
  if negb (strict_eq body~>"code" (int 10000)) then
    Ok (JObj ["code" ↦ js_or body~>"code" (int 0); "status" ↦ str "FAILURE"; "progress" ↦ str "100%";
              "reason" ↦ js_or body~>"message" (JStr [])])
  else if equals data~>"status" "in_queue" then Ok (polled "QUEUED" "10%" data)
  else if equals data~>"status" "done" then Ok (polled "SUCCESS" "100%" data)
  else Ok (JObj ["code" ↦ int 0; "status" ↦ str "UNKNOWN";
                 "reason" ↦ JStr (js "unrecognized status: " ++ js_text (js_or data~>"status" (JStr [])))]).

Definition video_url (ctx : jsval) : jsstr := trimmed_text (or_object (artifactData ctx)~>"data")~>"video_url".

Definition listArtifacts (task : jsval) : JS jsval :=
  status ← task~>!"status";
  Ok (artifact_list video_artifact (equals status "SUCCESS" && nonempty_text (video_url task))).

Definition buildContentRequest (ctx : jsval) : JS jsval :=
  key ← ctx~>!"artifactKey";
  if is_not key "video" then artifact_not_found
  else if nonempty_text (video_url ctx) then public_download (video_url ctx) ctx else artifact_not_found.

(** ** The Responses protocol *)

Definition responses_decodeRequest (ctx : jsval) : JS jsval :=
  req ← responses_body ctx;
  model ← check_model req~>"model";
  _ ← check_input req;
  _ ← check_metadata req;
  text ← responsesInput req;
  let prompt := prompt_of text req in
  _ ← throw_if (negb (nonempty_text prompt)) (js "input is required");
  let metadata := fold_left remove [js "binary_data_base64"; js "image_urls"; js "images"; js "image"]
                    (assign [] (or_object req~>"metadata")) in
  let body := ["model" ↦ JStr model; "prompt" ↦ JStr prompt; "metadata" ↦ JObj metadata] in
  Ok (submit_request (JStr model) (str "text_to_video") (copy_seconds req "duration" body)).

Definition renderEvents (ctx task previousState : jsval) : JS jsval :=
  render_events (responsesVideoText ctx) task previousState.
Definition renderFinal (ctx : jsval) : JS jsval :=
  render_final (responsesVideoText ctx) ["vendor" ↦ str "jimeng"].

(** ** The video protocol *)

Definition legacy_openai_video (task : jsval) : JS jsval :=
  _ ← task~>!"task_id";
  let output := video_object video_statuses task (JStr []) task~>"created_at" in
  let output := put_if (truthy task~>"updated_at") output (js "completed_at") task~>"updated_at" in
  let data := task~>"data" in
  Ok (JObj (put_if (truthy data && negb (strict_eq data~>"code" (int 10000))) output (js "error")
    (JObj ["message" ↦ js_or data~>"message" (JStr []); "code" ↦ JStr (js_text (js_or data~>"code" (int 0)))]))).

Definition jimeng_native (tasks : jsval) : JS jsval :=
  let task := match tasks with JArr _ => tasks~>"0" | _ => tasks end in
  let object_or_empty v := if truthy v && is_object v then v else JObj [] in
  let stored := object_or_empty (js_and task task~>"data") in
  let data := object_or_empty stored~>"data" in
  id ← task~>!"task_id";
  let response := put (assign [] stored) (js "code")
                    (if is_undefined stored~>"code" then int 10000 else stored~>"code") in
  Ok (JObj (put response (js "data") (JObj (put (assign [] data) (js "task_id") id)))).

Definition input_reference_file : jsval :=
  JObj ["__fileRef" ↦ str "request_file:input_reference"; "encoding" ↦ str "base64"; "maxBytes" ↦ int 4928307].

Definition place_image (req : obj) (with_file : bool) : obj :=
  if with_file then put req (js "images") (JArr [input_reference_file])
  else
    let image := trimmed (js_or (JObj req)~>"input_reference" (JObj req)~>"image") in
    let has_images := match (JObj req)~>"images" with JArr (_ :: _) => true | _ => false end in
    put_if (nonempty_text image && negb has_images) req (js "images") (JArr [JStr image]).

Definition video_decodeRequest (ctx : jsval) : JS jsval :=
  '(req, with_file) ← video_request any_file ctx;
  let req := place_image req with_file in
  let imageCount := decodeImageCount (JObj req) with_file in
  let seconds := requested_seconds (JObj req) in
  req ← (if is_undefined seconds then Ok req
         else
           let base := js_or (js_or (js_or ctx~>"upstreamModel" ctx~>"model") (JObj req)~>"model") (JStr []) in
           n ← validateSecondsForReqKey (converted_key (js_text base) imageCount) seconds;
           Ok (put req (js "duration") (JNum n)));
  Ok (submit_request ctx~>"model" (actionForImageCount imageCount) (with_model (JObj req) ctx)).

Definition video_render (ctx task : jsval) : JS jsval := legacy_openai_video task.

Definition native_renderTask (ctx tasks : jsval) : JS jsval := jimeng_native tasks.
Definition native_error (ctx error : jsval) : JS jsval :=
  status ← error~>!"httpStatus";
  Ok (JObj ["code" ↦ status; "message" ↦ error~>"message"]).

End jimeng.
