(* ===== verification/PluginHailuo.v ===== *)
(** * The Hailuo plugin

    Models [src/plugins/tasks/hailuo/plugin.js]: the model families of MiniMax
    with their durations and resolutions, the multimodal content of
    MiniMax-H3, requests and answers of both interface versions, the usage at
    submission and at completion, and the Responses and video protocols. *)
From stdpp Require Import base list option numbers sets.
From Stdlib Require Import ZArith SpecFloat Lia.
From S2P Require Import Prelude.
From S2P Require Import JsString.
From S2P Require Import JsNumber.
From S2P Require Import Syntax.
From S2P Require Import Runtime.
From S2P Require Import Display.
From S2P Require Import Json.
From S2P Require Import JsText.
From S2P Require Import JsonPrint.
From S2P Require Import AdvancedCustom.
From S2P Require Import JsDynamic.
From S2P Require Import PluginCommon.


Section hailuo.
Context {H : Host} {U : TaskHost}.

(** ** Usage schemas *)

Definition H3_USAGE_SCHEMA : BillingUsageSchema :=
  ["seconds" ↦ number_field "second"; "resolution" ↦ enum_field [js "768P"; js "2K"];
   "input_images" ↦ number_field "count"; "input_video_seconds" ↦ number_field "second"].
Definition HAILUO_23_USAGE_SCHEMA : BillingUsageSchema :=
  ["seconds" ↦ number_field "second"; "resolution" ↦ enum_field [js "768P"; js "1080P"]].
Definition HAILUO_02_USAGE_SCHEMA : BillingUsageSchema :=
  ["seconds" ↦ number_field "second"; "resolution" ↦ enum_field [js "512P"; js "768P"; js "1080P"]].
Definition HAILUO_01_USAGE_SCHEMA : BillingUsageSchema := ["seconds" ↦ number_field "second"].

(** The union of the families, for an alias of several models. *)
Definition usageSchema : BillingUsageSchema :=
  ["seconds" ↦ number_field "second";
   "resolution" ↦ enum_field [js "512P"; js "768P"; js "720P"; js "1080P"; js "2K"];
   "input_images" ↦ number_field "count"; "input_video_seconds" ↦ number_field "second"].

(** The models of each schema. *)
Definition usageProfiles : list (list jsstr * BillingUsageSchema) :=
  [([js "MiniMax-H3"], H3_USAGE_SCHEMA);
   ([js "MiniMax-Hailuo-2.3"; js "MiniMax-Hailuo-2.3-Fast"], HAILUO_23_USAGE_SCHEMA);
   ([js "MiniMax-Hailuo-02"], HAILUO_02_USAGE_SCHEMA);
   ([js "T2V-01-Director"; js "T2V-01"; js "I2V-01-Director"; js "I2V-01-live"; js "I2V-01"; js "S2V-01"],
    HAILUO_01_USAGE_SCHEMA)].

Definition trimmed (value : jsval) : jsstr := trimmed_text value.
Definition responsesInput (req : jsval) : jsstr * list jsstr := responses_input req.
Definition responsesVideoText (ctx : jsval) : JS jsstr := responses_video_text ctx.
Definition artifactData (ctx : jsval) : jsval := artifact_data ctx.

(** ** Families before H3 *)

Definition isModernHailuo (model : jsval) : bool :=
  equals model "MiniMax-Hailuo-2.3" || equals model "MiniMax-Hailuo-2.3-Fast" || equals model "MiniMax-Hailuo-02".

Definition defaultResolution (model : jsval) : jsstr :=
  if equals model "MiniMax-Hailuo-2.3" || equals model "MiniMax-Hailuo-2.3-Fast" || equals model "MiniMax-Hailuo-02"
  then js "768P" else js "720P".

Definition resolutionFor (size model : jsval) : jsstr :=
  let value := js_text (js_or size (JStr [])) in
  if includes (js "1080") value then js "1080P"
  else if includes (js "768") value then js "768P"
  else if includes (js "720") value then if isModernHailuo model then js "768P" else js "720P"
  else if includes (js "512") value then js "512P"
  else defaultResolution model.

Definition outboundDuration (req : jsval) : num :=
  let n := to_number (js_and req req~>"duration") in
  if is_finite n && ngtb n NZERO then n else nZ 6.

Definition outboundResolution (req model : jsval) : jsstr :=
  let metadata := or_object (js_and req req~>"metadata") in
  if truthy req && truthy req~>"resolution" then resolutionFor req~>"resolution" model
  else if truthy metadata~>"resolution" then resolutionFor metadata~>"resolution" model
  else if truthy req && truthy req~>"size" then resolutionFor req~>"size" model
  else defaultResolution model.

Definition hasHailuoImage (req : jsval) (hasInputReferenceFile : bool) : bool :=
  let metadata := or_object (js_and req req~>"metadata") in
  hasInputReferenceFile
  || nonempty_text (trimmed (js_and req req~>"input_reference"))
  || nonempty_text (trimmed (js_and req req~>"image"))
  || match js_and req req~>"images" with JArr (_ :: _) => true | _ => false end
  || truthy metadata~>"first_frame_image" || truthy metadata~>"last_frame_image"
  || truthy metadata~>"subject_reference".

(** ** MiniMax-H3 *)

Definition H3_MODEL : jsstr := js "MiniMax-H3".
Definition H3_MIN_DURATION : Z := 4.
Definition H3_MAX_DURATION : Z := 15.
Definition H3_DEFAULT_DURATION : Z := 5.
Definition H3_MAX_FRAME_IMAGES : nat := 2.
Definition H3_MAX_REFERENCE_IMAGES : nat := 9.
Definition H3_MAX_REFERENCE_VIDEOS : nat := 3.
Definition H3_MAX_REFERENCE_AUDIOS : nat := 3.
Definition H3_MAX_INPUT_VIDEO_SECONDS : Z := 15.
Definition H3_RATIOS : list jsstr :=
  [js "adaptive"; js "21:9"; js "16:9"; js "4:3"; js "1:1"; js "3:4"; js "9:16"].

Definition isH3 (model : jsval) : bool := strict_eq model (JStr H3_MODEL).

Definition h3_error {A} (text : jsstr) : JS A := throw (H3_MODEL ++ text).
Definition at_most (limit : nat) (what : string) : jsstr :=
  js " accepts at most " ++ nat_text limit ++ js " " ++ js what.
Arguments at_most limit what%_string.

Definition h3Duration (req : jsval) : JS num :=
  let raw := req~>"duration" in
  if is_nullish raw || strict_eq raw (JStr []) then Ok (nZ H3_DEFAULT_DURATION)
  else
    let seconds := to_number raw in
    if negb (is_integer seconds) || nltb seconds (nZ H3_MIN_DURATION) || ngtb seconds (nZ H3_MAX_DURATION)
    then h3_error (js " duration must be an integer between 4 and 15 seconds")
    else Ok seconds.

Definition h3Resolution (req : jsval) : JS jsstr :=
  let metadata := or_object req~>"metadata" in
  let first a b := if nonempty_text a then a else b in
  let raw := first (first (trimmed metadata~>"resolution") (trimmed req~>"resolution")) (trimmed req~>"size") in
  if negb (nonempty_text raw) then Ok (js "768P")
  else
    let value := to_upper_case raw in
    if includes (js "2K") value then Ok (js "2K")
    else if includes (js "768") value then Ok (js "768P")
    else h3_error (js " resolution must be 768P or 2K").

Definition h3MediaItem (type : string) (url : jsval) (role : string) : jsval :=
  JObj (put ["type" ↦ str type; "role" ↦ str role] (js type) (JObj ["url" ↦ url])).
Arguments h3MediaItem type%_string url role%_string.

Definition h3MediaList (source : jsval) (key : string) : list jsval :=
  let raw := get source (js key) in
  if is_nullish raw then []
  else List.filter (λ v, is_object v || nonempty_text (trimmed v)) (match raw with JArr l => l | v => [v] end).
Arguments h3MediaList source key%_string.

(** The first image is the first frame, every other one the last. *)
Definition frame_items (images : list jsval) : list jsval :=
  match images with
  | [] => []
  | image :: images =>
      h3MediaItem "image_url" image "first_frame" :: map (λ i, h3MediaItem "image_url" i "last_frame") images
  end.

Definition h3FrameImages (req : jsval) : JS (list jsval) :=
  let metadata := or_object req~>"metadata" in
  let images := h3MediaList req "images" in
  if (H3_MAX_FRAME_IMAGES <? length images) then h3_error (at_most H3_MAX_FRAME_IMAGES "frame images")
  else
    let frame key role := let v := get metadata (js key) in
      if truthy v then [h3MediaItem "image_url" v role] else [] in
    match frame "first_frame_image"%string "first_frame"%string
          ++ frame "last_frame_image"%string "last_frame"%string with
    | [] => Ok (frame_items images)
    | frames => Ok frames
    end.

(** What the loop of [validateH3Content] counts. *)
Record content_counts : Type := {
  hasText : bool; hasFrame : bool; hasReference : bool;
  firstFrames : nat; lastFrames : nat; referenceImages : nat;
  referenceVideos : nat; referenceAudios : nat; inputImages : nat
}.
Definition no_content : content_counts :=
  {| hasText := false; hasFrame := false; hasReference := false; firstFrames := 0; lastFrames := 0;
     referenceImages := 0; referenceVideos := 0; referenceAudios := 0; inputImages := 0 |}.

Definition is_text_item (item : jsval) : bool := equals item~>"type" "text" && nonempty_text (trimmed item~>"text").

Definition count_image (c : content_counts) (role : jsstr) : content_counts :=
  let first := negb (nonempty_text role) || jseq role (js "first_frame") in
  let last := negb first && jseq role (js "last_frame") in
  let middle := negb first && jseq role (js "middle_frame") in
  let reference := negb first && jseq role (js "reference_image") in
  {| hasText := hasText c; hasFrame := hasFrame c || first || last || middle;
     hasReference := hasReference c || reference;
     firstFrames := firstFrames c + (if first then 1 else 0);
     lastFrames := lastFrames c + (if last then 1 else 0);
     referenceImages := referenceImages c + (if reference then 1 else 0);
     referenceVideos := referenceVideos c; referenceAudios := referenceAudios c;
     inputImages := inputImages c + 1 |}.

Definition count_item (c : content_counts) (item : jsval) : content_counts :=
  if negb (plain_object item) then c
  else if is_text_item item then
    {| hasText := true; hasFrame := hasFrame c; hasReference := hasReference c; firstFrames := firstFrames c;
       lastFrames := lastFrames c; referenceImages := referenceImages c; referenceVideos := referenceVideos c;
       referenceAudios := referenceAudios c; inputImages := inputImages c |}
  else if equals item~>"type" "image_url" then count_image c (trimmed item~>"role")
  else
    let video := equals item~>"type" "video_url" in
    let audio := equals item~>"type" "audio_url" in
    {| hasText := hasText c; hasFrame := hasFrame c; hasReference := hasReference c || video || audio;
       firstFrames := firstFrames c; lastFrames := lastFrames c; referenceImages := referenceImages c;
       referenceVideos := referenceVideos c + (if video then 1 else 0);
       referenceAudios := referenceAudios c + (if audio then 1 else 0); inputImages := inputImages c |}.

Definition content_of_items (items : list jsval) : content_counts := fold_left count_item items no_content.

Definition validateH3Content (items : list jsval) : JS (list jsval) :=
  let c := content_of_items items in
  if negb (hasText c) then h3_error (js " requires a non-empty text item")
  else if 1 <? firstFrames c then h3_error (js " accepts at most one first_frame image")
  else if 1 <? lastFrames c then h3_error (js " accepts at most one last_frame image")
  else if H3_MAX_REFERENCE_IMAGES <? referenceImages c
    then h3_error (at_most H3_MAX_REFERENCE_IMAGES "reference images")
  else if H3_MAX_REFERENCE_IMAGES <? inputImages c then h3_error (at_most H3_MAX_REFERENCE_IMAGES "input images")
  else if H3_MAX_REFERENCE_VIDEOS <? referenceVideos c
    then h3_error (at_most H3_MAX_REFERENCE_VIDEOS "reference videos")
  else if H3_MAX_REFERENCE_AUDIOS <? referenceAudios c
    then h3_error (at_most H3_MAX_REFERENCE_AUDIOS "reference audios")
  else if hasFrame c && hasReference c then h3_error (js " cannot mix frame images with reference media")
  else Ok items.

Definition text_item (prompt : jsstr) : jsval := JObj ["type" ↦ str "text"; "text" ↦ JStr prompt].

(** The content assembled from prompt, frames and reference media. *)
Definition assembled_content (req metadata : jsval) (prompt : jsstr) : JS (list jsval) :=
  frames ← h3FrameImages req;
  let videos := h3MediaList metadata "reference_video" in
  let audios := h3MediaList metadata "reference_audio" in
  if H3_MAX_REFERENCE_VIDEOS <? length videos then h3_error (at_most H3_MAX_REFERENCE_VIDEOS "reference videos")
  else if H3_MAX_REFERENCE_AUDIOS <? length audios
    then h3_error (at_most H3_MAX_REFERENCE_AUDIOS "reference audios")
  else
    match (if nonempty_text prompt then [text_item prompt] else []) ++ frames
          ++ map (λ v, h3MediaItem "video_url" v "reference_video") videos
          ++ map (λ a, h3MediaItem "audio_url" a "reference_audio") audios with
    | [] => h3_error (js " requires a prompt or a media input")
    | content => validateH3Content content
    end.

Definition h3Content (req : jsval) : JS (list jsval) :=
  let metadata := or_object req~>"metadata" in
  let prompt := trimmed req~>"prompt" in
  if negb (is_nullish metadata~>"content") then
    match metadata~>"content" with
    | JArr items =>
        if existsb (λ item, truthy item && is_text_item item) items then validateH3Content items
        else if negb (nonempty_text prompt) then h3_error (js " metadata.content requires a text item or a prompt")
        else validateH3Content (text_item prompt :: items)
    | _ => throw (js "metadata.content must be an array")
    end
  else assembled_content req metadata prompt.

Definition is_item (type : string) (item : jsval) : bool := truthy item && equals item~>"type" type.
Arguments is_item type%_string item.

Definition h3HasVisualContent (content : list jsval) : bool :=
  existsb (λ item, is_item "image_url" item || is_item "video_url" item) content.

Definition h3Ratio (req : jsval) (content : list jsval) : JS jsstr :=
  let ratio := trimmed (or_object req~>"metadata")~>"ratio" in
  if negb (nonempty_text ratio) then Ok (if h3HasVisualContent content then js "adaptive" else js "16:9")
  else if negb (str_in ratio H3_RATIOS) then h3_error (js " ratio must be one of " ++ join (js ", ") H3_RATIOS)
  else if jseq ratio (js "adaptive") && negb (h3HasVisualContent content)
    then h3_error (js " ratio adaptive requires an image or video input")
  else Ok ratio.

Definition plain_or_null (v : jsval) : jsval := if plain_object v then v else JNull.
Definition h3QueryTask (body : jsval) : jsval :=
  if plain_object body then plain_or_null body~>"task" else JNull.

(** Message and status code of an error answer. *)
Definition h3APIError (body : jsval) : option (jsstr * num) :=
  let error := if plain_object body then body~>"error" else JNull in
  if negb (plain_object error) then None
  else
    let message := trimmed error~>"message" in
    if negb (nonempty_text message) then None
    else
      let statusCode := to_number (js_or (js_or error~>"http_code" error~>"code") (int 0)) in
      Some (message, if is_integer statusCode then statusCode else NZERO).

Definition validateHailuoCombo (model duration : jsval) (resolution : jsstr) (hasImage : bool) : JS unit :=
  let n := if is_undefined duration then nZ 6 else to_number duration in
  if isH3 model then Ok tt
  else if equals model "MiniMax-Hailuo-2.3-Fast" && negb hasImage
    then throw (js "MiniMax-Hailuo-2.3-Fast supports image-to-video only")
  else if negb (isModernHailuo model) then
    throw_if (is_defined duration && negb (neqb n (nZ 6))) (js_text model ++ js " duration must be 6")
  else if negb (neqb n (nZ 6)) && negb (neqb n (nZ 10)) then throw (js_text model ++ js " duration must be 6 or 10")
  else if neqb n (nZ 10) then
    if equals model "MiniMax-Hailuo-02" && hasImage then
      throw_if (negb (jseq resolution (js "768P")) && negb (jseq resolution (js "512P")))
        (js "MiniMax-Hailuo-02 duration 10 only allows resolution 768P or 512P")
    else throw_if (negb (jseq resolution (js "768P"))) (js_text model ++ js " duration 10 only allows resolution 768P")
  else
    let allowed := if equals model "MiniMax-Hailuo-02" && hasImage
                   then [js "512P"; js "768P"; js "1080P"] else [js "768P"; js "1080P"] in
    throw_if (negb (str_in resolution allowed))
      (js_text model ++ js " duration 6 only allows resolution " ++ join (js " or ") allowed).

(** ** Submission *)

(** [if (metadata[key] != null) body[key] = metadata[key];] for each key *)
Definition copy_given (metadata : jsval) (keys : list jsstr) (body : obj) : obj :=
  fold_left (λ body key, put_if (negb (is_nullish (get metadata key))) body key (get metadata key)) keys body.

Definition bearer_headers (ctx : jsval) : obj :=
  ["Accept" ↦ str "application/json"; "Authorization" ↦ JStr (js "Bearer " ++ js_text ctx~>"apiKey")].

Definition submission (ctx : jsval) (path : string) (body : obj) (action : jsval) : jsval :=
  JObj ["url" ↦ JStr (js_text ctx~>"baseUrl" ++ js path); "method" ↦ str "POST";
        "headers" ↦ JObj (("Content-Type" ↦ str "application/json") :: bearer_headers ctx);
        "body" ↦ JObj body; "action" ↦ action].
Arguments submission ctx path%_string body action.

Definition h3_body (req model : jsval) : JS (obj * list jsval) :=
  content ← h3Content req;
  resolution ← h3Resolution req;
  duration ← h3Duration req;
  ratio ← h3Ratio req content;
  Ok (copy_given (or_object req~>"metadata") [js "callback_url"; js "aigc_watermark"]
        ["model" ↦ model; "content" ↦ JArr content; "resolution" ↦ JStr resolution; "duration" ↦ JNum duration;
         "ratio" ↦ JStr ratio], content).

Definition flat_body (req model : jsval) : obj :=
  copy_given (or_object req~>"metadata")
    [js "prompt_optimizer"; js "fast_pretreatment"; js "callback_url"; js "aigc_watermark"; js "first_frame_image";
     js "last_frame_image"; js "subject_reference"]
    ["model" ↦ model; "prompt" ↦ js_or req~>"prompt" JUndefined; "duration" ↦ JNum (outboundDuration req);
     "resolution" ↦ JStr (outboundResolution req model)].

Definition buildSubmitRequest (ctx : jsval) : JS jsval :=
  body ← ctx~>!"requestBody";
  let req := or_object body in
  let model := ctx~>"upstreamModel" in
  if isH3 model then
    '(body, content) ← h3_body req model;
    Ok (submission ctx "/v2/video_generation" body (video_action (h3HasVisualContent content)))
  else Ok (submission ctx "/v1/video_generation" (flat_body req model) (video_action (hasHailuoImage req false))).

Definition parseSubmitResponse (ctx resp : jsval) : JS jsval :=
  body ← resp~>!"body";
  let body := or_object body in
  _ ← (match (if isH3 ctx~>"upstreamModel" then h3APIError body else None) with
       | Some (message, _) => throw message
       | None => Ok tt
       end);
  let base := body~>"base_resp" in
  _ ← (if truthy base
       then throw_if (negb (strict_eq base~>"status_code" (int 0)))
              (js_text (js_or base~>"status_msg" (str "hailuo submit failed")))
       else throw_if (negb (isH3 ctx~>"upstreamModel")) (js "hailuo submit failed"));
  _ ← throw_if (negb (truthy body~>"task_id")) (js "missing task_id");
  Ok (JObj ["taskId" ↦ body~>"task_id"; "taskData" ↦ body]).

(** ** Usage *)

Definition count_items (type : string) (content : list jsval) : nat := length (List.filter (is_item type) content).
Arguments count_items type%_string content.

Definition extractUsage (ctx : jsval) : JS (option obj) :=
  purpose ← ctx~>!"usagePurpose";
  if equals purpose "billing_ratios" then Ok None
  else
    let req := or_object ctx~>"requestBody" in
    let model := js_or ctx~>"upstreamModel" req~>"model" in
    if isH3 model then
      content ← h3Content req;
      seconds ← h3Duration req;
      resolution ← h3Resolution req;
      Ok (Some ["seconds" ↦ JNum seconds; "resolution" ↦ JStr resolution;
                "input_images" ↦ int (Z.of_nat (count_items "image_url" content));
                "input_video_seconds" ↦
                  int (if existsb (is_item "video_url") content then H3_MAX_INPUT_VIDEO_SECONDS else 0)])
    else
      Ok (Some ["seconds" ↦ JNum (outboundDuration req); "resolution" ↦ JStr (outboundResolution req model);
                "input_images" ↦ int 0; "input_video_seconds" ↦ int 0]).

(** A usage value of the provider, taken only inside its bounds. *)
Definition bounded_fact (key : string) (v : jsval) (minimum maximum : Z) (integer : bool) (facts : obj) : obj :=
  let x := to_number v in
  if is_nullish v || strict_eq v (JStr []) then facts
  else if negb (is_finite x) || nltb x (nZ minimum) || ngtb x (nZ maximum) || integer && negb (is_integer x)
    then facts
  else put facts (js key) (JNum x).
Arguments bounded_fact key%_string v minimum maximum integer facts.

Definition h3_facts (task : jsval) : obj :=
  let resolution := to_upper_case (trimmed task~>"resolution") in
  let facts := put_if (jseq resolution (js "2K") || jseq resolution (js "768P")) [] (js "resolution")
                 (JStr resolution) in
  let usage := if plain_object task~>"usage" then task~>"usage" else JObj [] in
  bounded_fact "input_video_seconds" usage~>"input_seconds" 0%Z H3_MAX_INPUT_VIDEO_SECONDS false
    (bounded_fact "input_images" usage~>"input_image_count" 0%Z (Z.of_nat H3_MAX_REFERENCE_IMAGES) true
      (bounded_fact "seconds" usage~>"output_seconds" H3_MIN_DURATION H3_MAX_DURATION false facts)).

Definition extractUsageOnComplete (task taskResult body : jsval) : option obj :=
  let h3Task := h3QueryTask body in
  if truthy h3Task then
    match h3_facts h3Task with [] => None | facts => Some facts end
  else
    let width := to_number (js_or (or_object body)~>"video_width" (int 0)) in
    let height := to_number (js_or (or_object body)~>"video_height" (int 0)) in
    if negb (ngtb width NZERO) || negb (ngtb height NZERO) then None
    else Some ["resolution" ↦ JStr (resolutionFor
                 (JStr (number_to_string width ++ js "x" ++ number_to_string height)) (JStr []))].

(** ** Polling *)

Definition buildQueryRequest (ctx : jsval) : JS jsval :=
  upstreamModel ← ctx~>!"upstreamModel";
  id ← encodeURIComponent (js_text ctx~>"taskId");
  let path := if isH3 (js_or upstreamModel ctx~>"model") then js "/v2/query/video_generation/" ++ id
              else js "/v1/query/video_generation?task_id=" ++ id in
  Ok (JObj ["url" ↦ JStr (js_text ctx~>"baseUrl" ++ path); "method" ↦ str "GET";
            "headers" ↦ JObj (bearer_headers ctx)]).

Definition h3Statuses : obj :=
  ["queued" ↦ str "QUEUED"; "running" ↦ str "IN_PROGRESS"; "succeeded" ↦ str "SUCCESS";
   "failed" ↦ str "FAILURE"; "cancelled" ↦ str "FAILURE"].
Definition statuses : obj :=
  ["Preparing" ↦ str "IN_PROGRESS"; "Queueing" ↦ str "IN_PROGRESS"; "Processing" ↦ str "IN_PROGRESS";
   "Success" ↦ str "SUCCESS"; "Fail" ↦ str "FAILURE"].

Definition unknown_status (status : jsval) : jsval :=
  JObj ["status" ↦ str "UNKNOWN";
        "reason" ↦ JStr (js "unrecognized status: " ++ js_text (js_or status (JStr [])))].

Definition h3_result (task : jsval) : jsval :=
  let status := table_get h3Statuses task~>"status" in
  if negb (truthy status) then unknown_status task~>"status"
  else
    let result := ["code" ↦ int 0; "status" ↦ status;
                   "progress" ↦ if equals status "QUEUED" then str "30%"
                                else if equals status "IN_PROGRESS" then str "50%" else str "100%"] in
    let content := task~>"content" in
    let url := trimmed (js_and content content~>"url") in
    let result := put_if (equals status "SUCCESS" && nonempty_text url) result (js "url") (JStr url) in
    let error := task~>"error" in
    let message := trimmed (js_and error error~>"message") in
    JObj (put_if (equals status "FAILURE") result (js "reason")
      (JStr (if nonempty_text message then message else js "task " ++ trimmed task~>"status"))).

Definition flat_result (body : jsval) : jsval :=
  let base := body~>"base_resp" in
  if truthy base && negb (strict_eq base~>"status_code" (int 0)) then
    JObj ["code" ↦ js_or base~>"status_code" (int 0); "status" ↦ str "FAILURE"; "progress" ↦ str "100%";
          "reason" ↦ js_or base~>"status_msg" (JStr [])]
  else
    let status := table_get statuses body~>"status" in
    if negb (truthy status) then unknown_status body~>"status"
    else
      JObj ["code" ↦ js_or (or_object base)~>"status_code" (int 0); "status" ↦ status;
            "progress" ↦ if equals status "SUCCESS" || equals status "FAILURE" then str "100%"
                         else if equals body~>"status" "Processing" then str "50%" else str "30%";
            "reason" ↦ if equals status "FAILURE" then str "task failed" else JStr []].

(** An error answer that may pass: the poll itself fails and is repeated. *)
Definition transient (statusCode : num) : bool :=
  neqb statusCode (nZ 408) || neqb statusCode (nZ 429) || ngeb statusCode (nZ 500).

Definition parseTaskResult (ctx body : jsval) : JS jsval :=
  match h3APIError body with
  | Some (message, statusCode) =>
      if transient statusCode then throw message
      else Ok (JObj ["code" ↦ JNum statusCode; "status" ↦ str "FAILURE"; "progress" ↦ str "100%";
                     "reason" ↦ JStr message])
  | None =>
      let h3Task := h3QueryTask body in
      if truthy h3Task then Ok (h3_result h3Task)
      else _ ← body~>!"base_resp"; Ok (flat_result body)
  end.

(** ** Artifacts *)

Definition artifactFileID (ctx : jsval) : jsstr := trimmed (artifactData ctx)~>"file_id".
Definition h3ArtifactURL (ctx : jsval) : jsstr :=
  let task := h3QueryTask (artifactData ctx) in
  if truthy task then trimmed (js_and task~>"content" (task~>"content")~>"url") else [].

Definition mp4_artifact : jsval :=
  JObj ["key" ↦ str "video"; "type" ↦ str "video"; "mimeType" ↦ str "video/mp4"].

Definition listArtifacts (task : jsval) : JS jsval :=
  status ← task~>!"status";
  Ok (artifact_list mp4_artifact (equals status "SUCCESS" &&
        (nonempty_text (artifactFileID task) || nonempty_text (h3ArtifactURL task)))).

Definition buildContentRequest (ctx : jsval) : JS jsval :=
  key ← ctx~>!"artifactKey";
  if is_not key "video" then artifact_not_found
  else if nonempty_text (artifactFileID ctx) then
    id ← encodeURIComponent (artifactFileID ctx);
    method ← (ctx~>"clientRequest")~>!"method";
    Ok (JObj ["url" ↦ JStr (js_text ctx~>"baseUrl" ++ js "/v1/files/download?file_id=" ++ id); "method" ↦ method;
              "headers" ↦ JObj ["Accept" ↦ str "video/*";
                                "Authorization" ↦ JStr (js "Bearer " ++ js_text ctx~>"apiKey")]])
  else if nonempty_text (h3ArtifactURL ctx) then public_download (h3ArtifactURL ctx) ctx
  else artifact_not_found.

(** ** The Responses protocol *)

Definition responses_decodeRequest (ctx : jsval) : JS jsval :=
  req ← responses_body ctx;
  model ← check_model req~>"model";
  _ ← check_input req;
  _ ← check_images req;
  _ ← check_metadata req;
  let '(text, found_images) := responsesInput req in
  let prompt := prompt_of text req in
  let images := request_images req found_images in
  _ ← throw_if (negb (nonempty_text prompt) && bool_decide (images = [])) (js "input is required");
  let metadata := assign [] (or_object req~>"metadata") in
  let frame key i metadata :=
    match images !! i with
    | Some image => put_if (negb (truthy (get (JObj metadata) (js key)))) metadata (js key) (JStr image)
    | None => metadata
    end in
  let metadata := frame "last_frame_image"%string 1 (frame "first_frame_image"%string 0 metadata) in
  let with_images := negb (bool_decide (images = [])) in
  let body := ["model" ↦ JStr model; "prompt" ↦ JStr prompt; "metadata" ↦ JObj metadata] in
  let body := put_if with_images body (js "images") (JArr (map JStr images)) in
  let body := copy_seconds req "duration" body in
  let body := if has_own req (js "size") then put body (js "size") req~>"size"
              else copy_own req "resolution" "size" body in
  Ok (submit_request (JStr model) (video_action with_images) body).

Definition renderEvents (ctx task previousState : jsval) : JS jsval :=
  render_events (responsesVideoText ctx) task previousState.
Definition renderFinal (ctx : jsval) : JS jsval :=
  render_final (responsesVideoText ctx) ["vendor" ↦ str "hailuo"].

(** ** The video protocol *)

Definition legacy_openai_video (task : jsval) : JS jsval :=
  _ ← task~>!"task_id";
  let properties := task~>"properties" in
  let model := if truthy properties && truthy properties~>"origin_model_name"
               then properties~>"origin_model_name" else JStr [] in
  let output := video_object video_statuses task model task~>"created_at" in
  let output := put_if (truthy task~>"updated_at") output (js "completed_at") task~>"updated_at" in
  let data := task~>"data" in
  let base := js_and data data~>"base_resp" in
  Ok (JObj (put_if (truthy data && truthy base && negb (strict_eq base~>"status_code" (int 0))) output (js "error")
    (JObj ["message" ↦ base~>"status_msg"; "code" ↦ JStr (js_text base~>"status_code")]))).

Definition input_reference_file : jsval :=
  JObj ["__fileRef" ↦ str "request_file:input_reference"; "encoding" ↦ str "dataUrl"; "maxBytes" ↦ int 20971520].

Definition place_image (req : obj) (with_file : bool) : obj :=
  let metadata := assign [] (or_object (JObj req)~>"metadata") in
  if with_file then
    put req (js "metadata") (JObj (put metadata (js "first_frame_image") input_reference_file))
  else
    let image := trimmed (js_or (JObj req)~>"input_reference" (JObj req)~>"image") in
    put_if (nonempty_text image) req (js "metadata")
      (JObj (put_if (negb (truthy (JObj metadata)~>"first_frame_image")) metadata (js "first_frame_image")
        (JStr image))).

Definition video_decodeRequest (ctx : jsval) : JS jsval :=
  '(req, with_file) ← video_request any_file ctx;
  let seconds := requested_seconds (JObj req) in
  let req := put_if (is_defined seconds) req (js "duration") (JNum (to_number seconds)) in
  let req := place_image req with_file in
  let hasImage := hasHailuoImage (JObj req) with_file in
  let requested := (JObj req)~>"duration" in
  let duration := if is_undefined requested then JUndefined else JNum (to_number requested) in
  let comboModel := js_or ctx~>"upstreamModel" ctx~>"model" in
  _ ← validateHailuoCombo comboModel duration (outboundResolution (JObj req) comboModel) hasImage;
  Ok (submit_request ctx~>"model" (video_action hasImage) (with_model (JObj req) ctx)).

Definition video_render (ctx task : jsval) : JS jsval := legacy_openai_video task.

End hailuo.
