(* ===== verification/PluginSuno.v ===== *)
(** * The SunoAPI plugin

    Models [src/plugins/tasks/sunoapi/plugin.js]: music and lyrics tasks, which
    are polled in batches, their artifacts (audio and cover of each song, under
    keys derived from the song's id), usage, and the native and Responses
    protocols. *)
From stdpp Require Import base list option numbers sets.
From Stdlib Require Import ZArith SpecFloat Lia.
From S2P Require Import Prelude.
From S2P Require Import JsString.
From S2P Require Import JsNumber.
From S2P Require Import Syntax.
From S2P Require Import Runtime.
From S2P Require Import Display.
From S2P Require Import Json.
From S2P Require Import JsText.
From S2P Require Import JsonPrint.
From S2P Require Import AdvancedCustom.
From S2P Require Import JsDynamic.
From S2P Require Import PluginCommon.


Section suno.
Context {H : Host} {U : TaskHost}.

Definition usageSchema : BillingUsageSchema :=
  ["clips" ↦ number_field "count"; "action" ↦ enum_field [js "music"; js "lyrics"]].

Definition trimmed (value : jsval) : jsstr := trimmed_text value.

(** ** Requests *)

Definition read_part (texts : list jsstr) (part : jsval) : list jsstr :=
  match part with
  | JStr s => texts ++ [s]
  | JObj _ =>
      match part~>"text" with
      | JStr s => if one_of part~>"type" [js "input_text"; js "text"] then texts ++ [s] else texts
      | _ => texts
      end
  | _ => texts
  end.
Definition read_item (texts : list jsstr) (item : jsval) : list jsstr :=
  match item with
  | JStr s => texts ++ [s]
  | JObj _ => fold_left read_part (content_of item) texts
  | _ => texts
  end.
Definition responsesText (req : jsval) : jsstr :=
  let texts := match req~>"input" with
               | JStr s => [s]
               | JArr items => fold_left read_item items []
               | _ => []
               end in
  join [10%N] (List.filter (λ t, nonempty_text (trim t)) texts).

Definition actionName (ctx : jsval) : JS jsstr :=
  params ← ctx~>!"params";
  Ok (to_upper_case (js_text (js_or (js_or (or_object params)~>"action" ctx~>"action") (JStr [])))).

Definition json_body (ctx : jsval) : JS jsval :=
  body ← ctx~>!"body";
  _ ← throw_if (negb (truthy body) || is_not body~>"kind" "json") (js "JSON body required");
  Ok (body~>"value").

Definition decodeNativeSubmit (ctx : jsval) : JS jsval :=
  value ← json_body ctx;
  action ← actionName ctx;
  _ ← throw_if (negb (jseq action (js "MUSIC")) && negb (jseq action (js "LYRICS"))) (js "invalid_action");
  Ok (JObj ["kind" ↦ str "submit";
            "model" ↦ if jseq action (js "MUSIC") then str "suno_music" else str "suno_lyrics";
            "action" ↦ JStr action; "requestBody" ↦ value]).

Definition decodeNativeBatch (ctx : jsval) : JS jsval :=
  value ← json_body ctx;
  Ok (JObj ["kind" ↦ str "query";
            "taskIds" ↦ match (or_object value)~>"ids" with JArr ids => JArr ids | _ => JArr [] end]).

Definition validateAndNormalize (ctx : jsval) : JS (jsstr * obj) :=
  requestBody ← ctx~>!"requestBody";
  let body := assign [] (or_object requestBody) in
  let body := put_if (is_undefined (JObj body)~>"make_instrumental") body (js "make_instrumental") (JBool false) in
  action ← actionName ctx;
  if jseq action (js "MUSIC") then
    Ok (action, put_if (negb (truthy (JObj body)~>"mv")) body (js "mv") (str "chirp-v3-0"))
  else if jseq action (js "LYRICS") then
    _ ← throw_if (negb (truthy (JObj body)~>"prompt")) (js "prompt_empty");
    Ok (action, body)
  else throw (js "invalid_action").

Definition bearer (ctx : jsval) : jsval := JStr (js "Bearer " ++ js_text ctx~>"apiKey").

(** [if (typeof v === 'string' && v) headers[key] = v;] *)
Definition copy_header (incoming : jsval) (key : string) (headers : obj) : obj :=
  let v := get incoming (js key) in put_if (is_text v && truthy v) headers (js key) v.
Arguments copy_header incoming key%_string headers.

Definition buildSubmitRequest (ctx : jsval) : JS jsval :=
  '(action, body) ← validateAndNormalize ctx;
  let incoming := or_object ctx~>"requestHeaders" in
  let headers := copy_header incoming "Accept"
                   (copy_header incoming "Content-Type" ["Authorization" ↦ bearer ctx]) in
  Ok (JObj ["url" ↦ JStr (js_text ctx~>"baseUrl" ++ js "/suno/submit/" ++ action); "method" ↦ str "POST";
            "headers" ↦ JObj headers; "body" ↦ JObj body; "action" ↦ JStr action]).

Definition message_text (v : jsval) : jsstr := js_text (js_or v~>"message" (JStr [])).

Definition parseSubmitResponse (ctx resp : jsval) : JS jsval :=
  body ← resp~>!"body";
  let body := or_object body in
  _ ← throw_if (is_not body~>"code" "success") (message_text body);
  _ ← throw_if (negb (truthy body~>"data")) (js "task_id is empty");
  Ok (JObj ["taskId" ↦ body~>"data"; "taskData" ↦ JObj ["message" ↦ JStr (message_text body)]]).

(** ** Usage *)

Definition extractUsage (ctx : jsval) : JS (option obj) :=
  purpose ← ctx~>!"usagePurpose";
  if equals purpose "billing_ratios" then Ok None
  else
    let model := to_lower_case (trimmed (js_or (js_or ctx~>"upstreamModel" ctx~>"model")
                   (or_object ctx~>"requestBody")~>"model")) in
    name ← actionName ctx;
    let action := to_lower_case name in
    let action := if nonempty_text action then action
                  else if jseq model (js "suno_lyrics") then js "lyrics" else js "music" in
    Ok (Some ["clips" ↦ int (if jseq action (js "lyrics") then 1 else 2); "action" ↦ JStr action]).

(** An array, or one object as a list. *)
Definition values_of (v : jsval) : list jsval :=
  match v with JArr items => items | JObj _ => [v] | _ => [] end.

Definition extractUsageOnComplete (task taskResult body : jsval) : obj :=
  match values_of body with
  | [] => []
  | values =>
      let music := existsb (λ item, truthy item &&
        (nonempty_text (trimmed item~>"audio_url") || nonempty_text (trimmed item~>"video_url"))) values in
      ["clips" ↦ int (Z.of_nat (length values)); "action" ↦ if music then str "music" else str "lyrics"]
  end.

(** ** Polling *)

Definition buildBatchQueryRequest (ctx tasks : jsval) : JS jsval :=
  base ← ctx~>!"baseUrl";
  items ← array_items (or_array tasks);
  ids ← rmap (λ task, task~>!"taskId") items;
  Ok (JObj ["url" ↦ JStr (js_text base ++ js "/suno/fetch"); "method" ↦ str "POST";
            "headers" ↦ JObj ["Content-Type" ↦ str "application/json"; "Authorization" ↦ bearer ctx];
            "body" ↦ JObj ["ids" ↦ JArr ids]]).

Definition buildQueryRequest (ctx : jsval) : JS jsval := buildBatchQueryRequest ctx (JArr [ctx]).

Definition batch_item (item : jsval) : JS jsval :=
  id ← item~>!"task_id";
  Ok (JObj ["taskId" ↦ js_or id (JStr []); "action" ↦ js_or item~>"action" (JStr []);
            "status" ↦ js_or item~>"status" (JStr []); "reason" ↦ js_or item~>"fail_reason" (JStr []);
            "submitTime" ↦ js_or item~>"submit_time" (int 0); "startTime" ↦ js_or item~>"start_time" (int 0);
            "finishTime" ↦ js_or item~>"finish_time" (int 0); "data" ↦ item~>"data"]).

Definition parseBatchResult (ctx body : jsval) : JS (list jsval) :=
  code ← body~>!"code";
  _ ← throw_if (is_not code "success") (message_text body);
  items ← array_items (or_array body~>"data");
  rmap batch_item items.

Definition parseTaskResult (ctx body : jsval) : JS jsval :=
  results ← parseBatchResult ctx (JObj ["code" ↦ int 200; "data" ↦ JArr [body]]);
  match results with
  | result :: _ => Ok result
  | [] => Ok (JObj ["status" ↦ str "UNKNOWN"])
  end.

(** ** Artifacts *)

Definition artifactData (ctx : jsval) : list jsval :=
  let data := or_array (js_and ctx ctx~>"data") in
  let inner := data~>"data" in
  if truthy inner && is_object inner && truthy inner~>"task_id" && has_own inner (js "data")
  then values_of inner~>"data" else values_of data.

Definition artifactKey (type : string) (song : jsval) : jsstr :=
  js type ++ js "-" ++ hmacSHA256 (js_text song~>"id") (js "new-api:suno:artifact-key").
Arguments artifactKey type%_string song.

(** [song && String(song.id || "").trim()] *)
Definition named (song : jsval) : bool := truthy song && nonempty_text (trimmed_text song~>"id").

Definition audio_of (song : jsval) : jsstr := trimmed_text song~>"audio_url".
Definition cover_of (song : jsval) : jsstr := trimmed_text song~>"image_url".

Definition song_artifacts (song : jsval) : list jsval :=
  if negb (named song) then []
  else
    (if nonempty_text (audio_of song)
     then [JObj ["key" ↦ JStr (artifactKey "audio" song); "type" ↦ str "audio"; "mimeType" ↦ str "audio/mpeg"]]
     else []) ++
    (if nonempty_text (cover_of song)
     then [JObj ["key" ↦ JStr (artifactKey "cover" song); "type" ↦ str "image"]] else []).

Definition listArtifacts (task : jsval) : JS jsval :=
  status ← task~>!"status";
  Ok (JArr (if is_not status "SUCCESS" then [] else flat_map song_artifacts (artifactData task))).

Definition owns_key (key : jsval) (song : jsval) : bool :=
  named song && (strict_eq (JStr (artifactKey "audio" song)) key || strict_eq (JStr (artifactKey "cover" song)) key).

Definition content_url (key song : jsval) : jsstr :=
  if strict_eq (JStr (artifactKey "cover" song)) key then cover_of song
  else if strict_eq (JStr (artifactKey "audio" song)) key then audio_of song else [].

Definition buildContentRequest (ctx : jsval) : JS jsval :=
  key ← ctx~>!"artifactKey";
  match List.find (owns_key key) (artifactData ctx) with
  | Some song =>
      let url := content_url key song in
      if nonempty_text url then public_download url ctx else artifact_not_found
  | None => artifact_not_found
  end.

(** ** Results *)

Definition escapedAttribute (value : jsval) : jsstr := escape_attribute (trimmed value).

Definition lyrics_of (songs : list jsval) : list jsstr :=
  flat_map (λ song,
    if truthy song && nonempty_text (trimmed song~>"text") then
      let title := trimmed song~>"title" in
      [if nonempty_text title then title ++ [10%N] ++ trimmed song~>"text" else trimmed song~>"text"]
    else []) songs.

Definition has_audio (song : jsval) : bool := truthy song && nonempty_text (trimmed song~>"audio_url").

Definition audio_part (ctx song : jsval) : JS (list jsval) :=
  if has_audio song then
    let url := artifact_url ctx (artifactKey "audio" song) in
    _ ← throw_if (negb (nonempty_text url)) (js "audio artifact is unavailable");
    Ok [output_text (quoted "<audio controls src='" ++ escapedAttribute (JStr url) ++ quoted "'></audio>")]
  else Ok [].

Definition responseContent (ctx task : jsval) : JS (list jsval) :=
  upstream ← ctx~>!"upstreamModel";
  let declared := to_lower_case (trimmed (js_or upstream ctx~>"model")) in
  let songs := artifactData task in
  let lyrics := join [10; 10]%N (lyrics_of songs) in
  let text d := if nonempty_text lyrics then lyrics else js d in
  if jseq declared (js "suno_lyrics") || negb (jseq declared (js "suno_music")) && negb (existsb has_audio songs)
  then Ok [output_text (text "Lyrics generation completed."%string)]
  else
    parts ← rmap (audio_part ctx) songs;
    Ok (output_text (text "Music generation completed."%string) :: concat parts).

Definition part_text (part : jsval) : jsstr := match part~>"text" with JStr s => s | _ => [] end.
Definition responseText (ctx task : jsval) : JS jsstr :=
  content ← responseContent ctx task; Ok (join [10; 10]%N (map part_text content)).

(** ** The Responses protocol *)

Definition responses_decodeRequest (ctx : jsval) : JS jsval :=
  req ← responses_body ctx;
  let declared := to_lower_case (trimmed (js_or ctx~>"upstreamModel" ctx~>"model")) in
  _ ← throw_if (negb (jseq declared (js "suno_music")) && negb (jseq declared (js "suno_lyrics")))
        (js "model must be suno_music or suno_lyrics");
  _ ← check_input req;
  _ ← check_metadata req;
  let input := responsesText req in
  let body := assign [] (or_object req~>"metadata") in
  let fill key body :=
    put_if (negb (nonempty_text (trimmed (get (JObj body) (js key))))) body (js key) (JStr (prompt_of input req)) in
  if jseq declared (js "suno_lyrics") then
    let body := fill "prompt"%string body in
    _ ← throw_if (negb (nonempty_text (trimmed (JObj body)~>"prompt"))) (js "input is required");
    Ok (submit_request ctx~>"model" (str "LYRICS") body)
  else
    let body := fill "gpt_description_prompt"%string body in
    _ ← throw_if (negb (nonempty_text (trimmed (JObj body)~>"gpt_description_prompt"))
                  && negb (nonempty_text (trimmed (JObj body)~>"prompt"))) (js "input is required");
    Ok (submit_request ctx~>"model" (str "MUSIC") body).

Definition renderEvents (ctx task previousState : jsval) : JS jsval :=
  render_events (responseText ctx task) task previousState.
Definition renderFinal (ctx task : jsval) : JS jsval :=
  content ← responseContent ctx task;
  Ok (JObj ["output" ↦ JArr [assistant_message content]; "metadata" ↦ JObj ["vendor" ↦ str "sunoapi"]]).

(** ** The native protocol *)

Definition nativeTask (task : jsval) : JS jsval :=
  created ← task~>!"created_at";
  Ok (JObj ["created_at" ↦ js_or created (int 0); "updated_at" ↦ js_or task~>"updated_at" (int 0);
            "task_id" ↦ js_or task~>"task_id" (JStr []); "platform" ↦ js_or task~>"platform" (str "sunoapi");
            "status" ↦ js_or task~>"status" (JStr []); "fail_reason" ↦ js_or task~>"fail_reason" (JStr []);
            "submit_time" ↦ js_or created (int 0); "finish_time" ↦ js_or task~>"finished_at" (int 0);
            "progress" ↦ js_or task~>"progress" (JStr []); "data" ↦ or_null task~>"data"]).

Definition native_renderSubmit (ctx task : jsval) : JS jsval :=
  data ← task~>!"data";
  let data := if truthy data && is_object data then data else JObj [] in
  Ok (JObj ["code" ↦ str "success"; "message" ↦ JStr (message_text data);
            "data" ↦ JStr (js_text (js_or task~>"task_id" (JStr [])))]).
Definition native_answer (data : jsval) : jsval :=
  JObj ["code" ↦ str "success"; "message" ↦ JStr []; "data" ↦ data].
Definition native_renderTask (ctx task : jsval) : JS jsval := t ← nativeTask task; Ok (native_answer t).
Definition native_renderTasks (ctx tasks : jsval) : JS jsval :=
  items ← array_items tasks; ts ← rmap nativeTask items; Ok (native_answer (JArr ts)).
Definition native_error (ctx error : jsval) : JS jsval :=
  code ← error~>!"code";
  Ok (JObj ["code" ↦ code; "message" ↦ error~>"message"; "data" ↦ JNull]).

End suno.
