(* ===== verification/Seedream.v ===== *)
(** * Seedream images and Ark tasks

    Models the part of [src/plugins/tasks/doubao/plugin.js] that
    [src/plugins/local/doubao.js] repeats word for word: the capabilities of
    the Seedance and Seedream models with their usage schemas, the
    conversion of an image request with its checks and its estimate, the
    settlement on the delivered images, and the rewriting of draft tasks. *)
From stdpp Require Import base list option numbers sets.
From Stdlib Require Import ZArith SpecFloat Lia.
From S2P Require Import Prelude.
From S2P Require Import JsString.
From S2P Require Import JsNumber.
From S2P Require Import Syntax.
From S2P Require Import Runtime.
From S2P Require Import Display.
From S2P Require Import Json.
From S2P Require Import JsText.
From S2P Require Import JsonPrint.
From S2P Require Import AdvancedCustom.
From S2P Require Import JsDynamic.
From S2P Require Import PluginCommon.

Section seedream.
Context {H : Host} {U : TaskHost}.

(** ** Capabilities *)

Record VideoProfile : Type := { resolutions : list jsstr; videoInput : bool; audio : bool }.
Definition video_profile (rs : list jsstr) : VideoProfile := {| resolutions := rs; videoInput := false; audio := false |}.

Definition UP_TO_720P : list jsstr := [js "480p"; js "720p"].
Definition UP_TO_1080P : list jsstr := [js "480p"; js "720p"; js "1080p"].
Definition SEEDANCE_RESOLUTIONS : list jsstr := [js "480p"; js "720p"; js "1080p"; js "4k"].

Definition VIDEO_MODELS : list (jsstr * VideoProfile) :=
  ["doubao-seedance-1-0-pro-250528" ↦ video_profile UP_TO_1080P;
   "doubao-seedance-1-0-lite-t2v" ↦ video_profile UP_TO_1080P;
   "doubao-seedance-1-0-lite-i2v" ↦ video_profile UP_TO_1080P;
   "doubao-seedance-1-5-pro-251215" ↦ {| resolutions := UP_TO_1080P; videoInput := false; audio := true |};
   "doubao-seedance-2-0-260128" ↦ {| resolutions := SEEDANCE_RESOLUTIONS; videoInput := true; audio := false |};
   "doubao-seedance-2-0-fast-260128" ↦ {| resolutions := UP_TO_720P; videoInput := true; audio := false |};
   "doubao-seedance-2-0-mini-260615" ↦ {| resolutions := UP_TO_720P; videoInput := true; audio := false |};
   "doubao-seedance-2-5-260628" ↦ {| resolutions := UP_TO_1080P; videoInput := true; audio := false |}].
Definition DEFAULT_VIDEO_PROFILE : VideoProfile :=
  {| resolutions := SEEDANCE_RESOLUTIONS; videoInput := true; audio := false |}.

Record ImageProfile : Type := {
  presets : list jsstr; minPixels : Z; maxPixels : Z; maxReferenceImages : nat;
  sequential : bool; layers : bool; outputFormat : bool; background : bool; tools : bool; fastPromptMode : bool
}.

Definition lite_profile : ImageProfile :=
  {| presets := [js "2K"; js "3K"; js "4K"]; minPixels := 3686400; maxPixels := 16777216; maxReferenceImages := 14;
     sequential := true; layers := false; outputFormat := true; background := false; tools := true;
     fastPromptMode := false |}.

Definition IMAGE_MODELS : list (jsstr * ImageProfile) :=
  ["doubao-seedream-5-0-pro-260628" ↦
     {| presets := [js "1K"; js "1.5K"; js "2K"]; minPixels := 921600; maxPixels := 4624220; maxReferenceImages := 10;
        sequential := false; layers := true; outputFormat := true; background := true; tools := false;
        fastPromptMode := true |};
   "doubao-seedream-5-0-lite-260128" ↦ lite_profile;
   "doubao-seedream-5-0-260128" ↦ lite_profile;
   "doubao-seedream-4-5-251128" ↦
     {| presets := [js "2K"; js "4K"]; minPixels := 3686400; maxPixels := 16777216; maxReferenceImages := 14;
        sequential := true; layers := false; outputFormat := false; background := false; tools := false;
        fastPromptMode := false |};
   "doubao-seedream-4-0-250828" ↦
     {| presets := [js "1K"; js "2K"; js "4K"]; minPixels := 921600; maxPixels := 16777216; maxReferenceImages := 14;
        sequential := true; layers := false; outputFormat := false; background := false; tools := false;
        fastPromptMode := true |}].

Definition IMAGE_RESOLUTIONS : list jsstr := [js "1K"; js "1.5K"; js "2K"; js "3K"; js "4K"].
Definition IMAGE_PRESET_PIXELS : list (jsstr * Z) :=
  ["1K" ↦ 1048576%Z; "1.5K" ↦ 2359296%Z; "2K" ↦ 4194304%Z; "3K" ↦ 9437184%Z; "4K" ↦ 16777216%Z].
Definition DEFAULT_IMAGE_PROFILE : ImageProfile :=
  {| presets := IMAGE_RESOLUTIONS; minPixels := 921600; maxPixels := 16777216; maxReferenceImages := 14;
     sequential := true; layers := true; outputFormat := true; background := true; tools := true;
     fastPromptMode := true |}.
Definition LAYER_SIZE_PRESETS : list jsstr := [js "1K"; js "1.5K"; js "2K"].
Definition IMAGE_ACTIONS : list jsstr := [js "text_to_image"; js "image_to_image"].
Definition IMAGE_TIER_MAX_PIXELS : Z := 2610000.
Definition MAX_IMAGE_OUTPUTS : nat := 17.
Definition MAX_REFERENCE_IMAGES : nat := 14.

(** [/^data:image\/[a-z0-9.+-]+;base64,[A-Za-z0-9+/]+={0,2}$/.test(value)] *)
Definition format_char (c : N) : bool :=
  is_lower c || is_digit c || (c =? cu ".")%N || (c =? cu "+")%N || (c =? cu "-")%N.
Fixpoint data_format (s : jsstr) : jsstr :=
  match s with
  | c :: rest => if format_char c then data_format rest else s
  | [] => []
  end.
Definition IMAGE_DATA_URI (value : jsstr) : bool :=
  match strip_prefix (js "data:image/") value with
  | Some (c :: rest) =>
      format_char c && match strip_prefix (js ";base64,") (data_format rest) with
                       | Some payload => base64_text payload
                       | None => false
                       end
  | _ => false
  end.

Definition IMAGE_REQUEST_KEYS : list jsstr :=
  [js "size"; js "seed"; js "guidance_scale"; js "response_format"; js "watermark"; js "optimize_prompt";
   js "optimize_prompt_options"; js "sequential_image_generation"; js "sequential_image_generation_options";
   js "output_format"; js "layer_decomposition"].

(** The entry of the first name that has one. *)
Fixpoint first_entry {A} (table : list (jsstr * A)) (names : list jsstr) : option A :=
  match names with
  | [] => None
  | name :: names => match entry_of table name with Some a => Some a | None => first_entry table names end
  end.

(** ** Usage schemas *)

Definition IMAGE_USAGE_SCHEMA : BillingUsageSchema :=
  ["images_up_to_1_5k" ↦ number_field "count"; "images_above_1_5k" ↦ number_field "count";
   "input_images" ↦ number_field "count"; "layer_decomposition" ↦ boolean_field].

Definition seedanceUsageSchema (profile : VideoProfile) : BillingUsageSchema :=
  ["tokens" ↦ number_field "token"; "resolution" ↦ enum_field (resolutions profile)]
  ++ (if videoInput profile then ["video_input" ↦ enum_field [js "none"; js "video"]] else [])
  ++ (if audio profile then ["generate_audio" ↦ boolean_field] else []).

(** ** Shared helpers *)

Definition trimmed (value : jsval) : jsstr := trimmed_text value.
Definition responsesInput (req : jsval) : jsstr * list jsstr := responses_input req.
Definition responsesVideoText (ctx : jsval) : JS jsstr := responses_video_text ctx.
Definition artifactData (ctx : jsval) : jsval := artifact_data ctx.

Definition apiRoot (ctx : jsval) : JS jsstr :=
  base ← ctx~>!"baseUrl";
  let upstream := ctx~>"upstream" in
  Ok (js_text base ++ (if truthy upstream && equals upstream~>"kind" "new_api" then js "/doubao" else [])).

Definition objectValue (value : jsval) (name : string) : JS jsval :=
  if is_nullish value then Ok (JObj [])
  else if negb (plain_object value) then throw (js name ++ js " must be an object") else Ok value.
Arguments objectValue value name%_string.

(** The id of the draft an item of the content refers to. *)
Definition draft_id (item : jsval) : jsstr :=
  if plain_object item && equals item~>"type" "draft_task" && plain_object item~>"draft_task"
  then trimmed (item~>"draft_task")~>"id" else [].

Definition draftTaskIds (content : jsval) : list jsstr :=
  match content with
  | JArr items => List.filter nonempty_text (map draft_id items)
  | _ => []
  end.

(** The upstream id of the first origin task with a public id. *)
Definition upstream_id (originTasks : jsval) (publicId : jsstr) : jsstr :=
  match originTasks with
  | JArr tasks =>
      match List.find (λ task, truthy task && strict_eq task~>"taskId" (JStr publicId)) tasks with
      | Some task => trimmed task~>"upstreamTaskId"
      | None => []
      end
  | _ => []
  end.

Definition rewrite_draft (originTasks item : jsval) : JS jsval :=
  let publicId := draft_id item in
  if negb (nonempty_text publicId) then Ok item
  else
    let upstream := upstream_id originTasks publicId in
    _ ← throw_if (negb (nonempty_text upstream)) (js "origin task is unavailable");
    Ok (JObj (put (assign [] item) (js "draft_task")
      (JObj (put (assign [] item~>"draft_task") (js "id") (JStr upstream))))).

Definition rewriteDraftTaskContent (content : list jsval) (originTasks : jsval) : JS (list jsval) :=
  rmap (rewrite_draft originTasks) content.

Definition resolution_of_side (max : num) : jsstr :=
  if ngeb max (nZ 3840) then js "4k"
  else if ngeb max (nZ 1920) then js "1080p"
  else if ngeb max (nZ 1280) then js "720p" else js "480p".

(** [raw.replace("*", "x").split("x")] *)
Definition dimensions (raw : jsstr) : list jsstr := split_on (cu "x") (replace_first (cu "*") (js "x") raw).

Definition normalizeResolution (value : jsval) : jsstr :=
  let raw := to_lower_case (trimmed value) in
  if str_in raw SEEDANCE_RESOLUTIONS then raw
  else match dimensions raw with
       | [a; b] => resolution_of_side (nmax (number_of_string a) (number_of_string b))
       | _ => js "720p"
       end.

Definition hasVideo (content : jsval) : bool :=
  match content with
  | JArr items => existsb (λ item, truthy item && (equals item~>"type" "video_url" || has_own item (js "video_url"))) items
  | _ => false
  end.

Definition resolutionMaxPixels (resolution : jsstr) : Z * Z :=
  if jseq resolution (js "480p") then (854, 480)%Z
  else if jseq resolution (js "1080p") then (1920, 1080)%Z
  else if jseq resolution (js "4k") then (3840, 2160)%Z else (1280, 720)%Z.

Definition estimateTokens (seconds : num) (resolution : jsstr) : num :=
  let dims := resolutionMaxPixels resolution in
  ndiv (nmul (nmul (nmul seconds (nZ dims.1)) (nZ dims.2)) (nZ 24)) (nZ 1024).

Definition quotient (a b : Z) : num := ndiv (nZ a) (nZ b).
Definition decimal (m : N) : num := num_of_decimal m (-1).

Definition videoInputRatio (model resolution content : jsval) : num :=
  let video := hasVideo content in
  let res := to_lower_case (trimmed resolution) in
  let pick (a b : num) : num := if video then a else b in
  if equals model "doubao-seedance-2-5-260628" then
    if jseq res (js "1080p") then pick (ndiv (nZ 7) (decimal 107)) (ndiv (decimal 117) (decimal 107))
    else pick (quotient 42 70) (nZ 1)
  else if equals model "doubao-seedance-2-0-260128" then
    if jseq res (js "1080p") then pick (quotient 31 46) (quotient 51 46)
    else if jseq res (js "4k") then pick (quotient 16 46) (quotient 26 46)
    else pick (quotient 28 46) (nZ 1)
  else if equals model "doubao-seedance-2-0-fast-260128" then pick (quotient 22 37) (nZ 1)
  else if equals model "doubao-seedance-2-0-mini-260615" then pick (quotient 14 23) (nZ 1)
  else nZ 1.

(** The facts of the examples shown for a profile, in order; the labels are
    texts for display. *)
Definition example_facts (profile : VideoProfile) (resolution : jsstr) (seconds : Z) (input : jsstr) (sound : bool) : obj :=
  ["tokens" ↦ JNum (nround (estimateTokens (nZ seconds) resolution));
   "resolution" ↦ JStr resolution]
  ++ (if videoInput profile then ["video_input" ↦ JStr input] else [])
  ++ (if audio profile then ["generate_audio" ↦ JBool sound] else []).

Definition seedanceUsageExamples (profile : VideoProfile) : list obj :=
  map (λ resolution, example_facts profile resolution 5 (js "none") true) (resolutions profile)
  ++ (if videoInput profile then [example_facts profile (js "720p") 9 (js "video") true] else [])
  ++ (if audio profile then [example_facts profile (js "720p") 5 (js "none") false] else []).

(** ** Image requests *)

Definition imageModelCandidates (ctx : jsval) : list jsstr :=
  let req := or_object (js_and ctx ctx~>"requestBody") in
  List.filter nonempty_text
    [trimmed (js_and ctx ctx~>"upstreamModel"); trimmed (js_and ctx ctx~>"model"); trimmed req~>"model"].

Definition imageProfile (ctx : jsval) : ImageProfile :=
  default DEFAULT_IMAGE_PROFILE (first_entry IMAGE_MODELS (imageModelCandidates ctx)).

Definition imageTask (ctx : jsval) : bool :=
  match first_entry IMAGE_MODELS (imageModelCandidates ctx) with Some _ => true | None => false end
  || one_of (js_and ctx ctx~>"action") IMAGE_ACTIONS.

Record image_dims : Type := { width : num; height : num; pixels : num }.

(** [/^(\d+)\s*[xX×*]\s*(\d+)$/.exec(text)] *)
Definition times_sign (c : N) : bool :=
  (c =? cu "x")%N || (c =? cu "X")%N || (c =? 215)%N || (c =? cu "*")%N.
Definition match_dimensions (s : jsstr) : option (jsstr * jsstr) :=
  match span_digits s with
  | ([], _) => None
  | (a, rest) =>
      match trim_start rest with
      | c :: rest =>
          if times_sign c then
            match span_digits (trim_start rest) with
            | ([], _) => None
            | (b, []) => Some (a, b)
            | _ => None
            end
          else None
      | [] => None
      end
  end.

Definition imageSizePixels (value : jsval) : option image_dims :=
  '(a, b) ← match_dimensions (trimmed value);
  let width := number_of_string a in
  let height := number_of_string b in
  if negb (is_safe_integer width) || negb (is_safe_integer height) || nleb width NZERO || nleb height NZERO then None
  else Some {| width := width; height := height; pixels := nmul width height |}.

(** The size that is sent, where there is one, and its pixels where known. *)
Definition preset_pixels (preset : jsstr) : option num := nZ <$> entry_of IMAGE_PRESET_PIXELS preset.

Definition imageSize (size : jsval) (profile : ImageProfile) (layered : bool) : JS (option jsstr * option num) :=
  match size with
  | JUndefined => Ok (None, if layered then None else preset_pixels (js "2K"))
  | JStr _ =>
      let preset := to_upper_case (trimmed size) in
      if jseq preset (js "AUTO") then
        _ ← throw_if (negb layered) (js "size auto is only supported with layer decomposition");
        Ok (Some (js "auto"), None)
      else if str_in preset IMAGE_RESOLUTIONS then
        let allowed := if layered then LAYER_SIZE_PRESETS else presets profile in
        _ ← throw_if (negb (str_in preset allowed))
              (js "size must be one of " ++ join (js ", ") allowed ++
               (if layered then js ", auto" else js " or width x height pixels"));
        Ok (Some preset, preset_pixels preset)
      else if layered then
        throw (js "layer decomposition sizes must be one of " ++ join (js ", ") LAYER_SIZE_PRESETS ++ js ", auto")
      else
        match imageSizePixels size with
        | None => throw (js "size must be a resolution preset or width x height pixels")
        | Some dims =>
            let ratio := ndiv (width dims) (height dims) in
            _ ← throw_if (nltb (pixels dims) (nZ (minPixels profile)) || ngtb (pixels dims) (nZ (maxPixels profile))
                          || nltb ratio (quotient 1 16) || ngtb ratio (nZ 16))
                  (js "size is outside the model's pixel and aspect-ratio limits");
            Ok (Some (number_to_string (width dims) ++ js "x" ++ number_to_string (height dims)), Some (pixels dims))
        end
  | _ => throw (js "size must be a string")
  end.

(** The fields of a request that are passed on. *)
Definition passed_on (req : jsval) : obj :=
  fold_left (λ body kv, if str_in kv.1 [js "model"; js "stream"] || is_undefined kv.2 then body
                        else put body kv.1 kv.2) (entries req) [].

Definition check_boolean (body : jsval) (key : jsstr) (u : unit) : JS unit :=
  throw_if (negb (is_undefined (get body key)) && negb (match get body key with JBool _ => true | _ => false end))
    (key ++ js " must be a boolean").

Definition body_images (body : jsval) : list jsval :=
  match body~>"image" with JUndefined => [] | JArr images => images | image => [image] end.

(** [/^https?:\/\//i.test(value)] *)
Definition http_url (value : jsstr) : bool :=
  let low := map ascii_low value in starts_with (js "http://") low || starts_with (js "https://") low.

Definition check_image (image : jsval) (u : unit) : JS unit :=
  let value := match image with JStr _ => trimmed image | _ => [] end in
  throw_if (negb (http_url value) && negb (IMAGE_DATA_URI value))
    (js "image must be an HTTP URL or a data:image/<format>;base64 URL with a lowercase format").

Definition check_format (profile : ImageProfile) (body : jsval) : JS unit :=
  let format := body~>"output_format" in
  if is_undefined format then Ok tt
  else
    _ ← throw_if (is_not format "png" && is_not format "jpeg") (js "output_format must be png or jpeg");
    throw_if (negb (outputFormat profile)) (js "output_format is not supported by this model").

Definition check_background (profile : ImageProfile) (body : jsval) (images : list jsval) : JS unit :=
  let value := body~>"background" in
  let transparent := background profile && equals value "transparent" in
  if is_undefined value then Ok tt
  else
    _ ← throw_if (is_not value "opaque" && is_not value "transparent") (js "background must be opaque or transparent");
    _ ← throw_if (transparent && negb (length images =? 1)) (js "background transparent requires exactly one input image");
    throw_if (transparent && equals body~>"output_format" "jpeg")
      (js "background transparent cannot be combined with output_format jpeg").

Definition check_tools (profile : ImageProfile) (body : jsval) : JS unit :=
  let well_formed (tool : jsval) : bool := plain_object tool && nonempty_text (trimmed tool~>"type") in
  if is_undefined body~>"tools" then Ok tt
  else
    _ ← throw_if (negb (match body~>"tools" with JArr l => forallb well_formed l | _ => false end))
          (js "tools must be an array of objects with a string type");
    throw_if (negb (tools profile)) (js "tools are not supported by this model").

Definition check_prompt_mode (profile : ImageProfile) (body : jsval) : JS unit :=
  options ← objectValue body~>"optimize_prompt_options" "optimize_prompt_options";
  let mode := options~>"mode" in
  if is_undefined mode then Ok tt
  else
    _ ← throw_if (is_not mode "standard" && is_not mode "fast")
          (js "optimize_prompt_options.mode must be standard or fast");
    throw_if (equals mode "fast" && negb (fastPromptMode profile))
      (js "optimize_prompt_options.mode fast is not supported by this model").

Definition max_images (body : jsval) : JS num :=
  options ← objectValue body~>"sequential_image_generation_options" "sequential_image_generation_options";
  let n := options~>"max_images" in
  if is_undefined n then Ok (nZ 15)
  else
    _ ← throw_if (negb (integer_value n) || nltb (to_number n) (nZ 1) || ngtb (to_number n) (nZ 15))
          (js "max_images must be an integer between 1 and 15");
    Ok (to_number n).

Record converted_image : Type := { body : obj; action : jsval; facts : obj }.

Definition image_facts (higherTier : bool) (imageCount : num) (images : nat) (layered : bool) : obj :=
  ["images_up_to_1_5k" ↦ JNum (if higherTier then NZERO else imageCount);
   "images_above_1_5k" ↦ JNum (if higherTier then imageCount else NZERO);
   "input_images" ↦ int (Z.of_nat images); "layer_decomposition" ↦ JBool layered].

Definition higher_tier (pixels : option num) : bool :=
  match pixels with None => true | Some p => ngtb p (nZ IMAGE_TIER_MAX_PIXELS) end.

Definition image_count (layered auto : bool) (maxImages : num) (images : nat) : num :=
  if layered then nZ (Z.of_nat MAX_IMAGE_OUTPUTS)
  else if auto then nmax (nZ 1) (nmin maxImages (nZ (15 - Z.of_nat images))) else nZ 1.

(** The checks between the images and the size, in order; the result is the
    largest number of images asked for. *)
Definition check_options (profile : ImageProfile) (body : jsval) (images : list jsval) : JS num :=
  _ ← throw_if (negb (is_undefined body~>"response_format") && is_not body~>"response_format" "url")
        (js "response_format must be url");
  _ ← throw_if (negb (is_undefined body~>"seed") && negb (integer_value body~>"seed")) (js "seed must be an integer");
  _ ← throw_if (negb (is_undefined body~>"guidance_scale") && negb (finite_value body~>"guidance_scale"))
        (js "guidance_scale must be a number");
  _ ← check_format profile body;
  _ ← check_background profile body images;
  _ ← check_tools profile body;
  _ ← check_prompt_mode profile body;
  let mode := body~>"sequential_image_generation" in
  _ ← throw_if (negb (is_undefined mode) && is_not mode "auto" && is_not mode "disabled")
        (js "sequential_image_generation must be auto or disabled");
  _ ← throw_if (negb (is_undefined mode) && negb (sequential profile))
        (js "sequential_image_generation is not supported by this model");
  max_images body.

Definition convertImage (ctx : jsval) : JS converted_image :=
  req ← ctx~>!"requestBody";
  let req := or_object req in
  let model := trimmed (js_or ctx~>"upstreamModel" req~>"model") in
  _ ← throw_if (negb (nonempty_text model)) (js "model is required");
  let profile := imageProfile ctx in
  let fields := put (passed_on req) (js "model") (JStr model) in
  let body := JObj fields in
  _ ← rfold (check_boolean body) [js "watermark"; js "optimize_prompt"; js "layer_decomposition"] tt;
  let layered := strict_eq body~>"layer_decomposition" (JBool true) in
  _ ← throw_if (layered && negb (layers profile)) (js "layer_decomposition is not supported by this model");
  _ ← throw_if (negb (is_undefined body~>"prompt") && negb (is_text body~>"prompt")) (js "prompt must be a string");
  _ ← throw_if (negb layered && negb (nonempty_text (trimmed body~>"prompt"))) (js "prompt is required");
  let images := body_images body in
  _ ← rfold check_image images tt;
  _ ← throw_if (layered && negb (length images =? 1)) (js "layer decomposition requires exactly one input image");
  _ ← throw_if (maxReferenceImages profile <? length images)
        (js "at most " ++ nat_text (maxReferenceImages profile) ++ js " reference images are supported");
  maxImages ← check_options profile body images;
  '(size, pixels) ← imageSize body~>"size" profile layered;
  let fields := match size with Some size => put fields (js "size") (JStr size) | None => fields end in
  let imageCount :=
    image_count layered (equals body~>"sequential_image_generation" "auto") maxImages (length images) in
  Ok {| body := fields;
        action := match images with [] => str "text_to_image" | _ => str "image_to_image" end;
        facts := image_facts (higher_tier pixels) imageCount (length images) layered |}.

(** ** Delivered images *)

Definition imageEntries (body : jsval) : list jsval :=
  match js_and body body~>"data" with
  | JArr items => List.filter plain_object items
  | JObj fields => [JObj fields]
  | _ => []
  end.

Definition imageURLEntries (body : jsval) : list jsval :=
  List.filter (λ item, nonempty_text (trimmed item~>"url")) (imageEntries body).

Definition imagePayloads (body : jsval) : JS (list jsval) :=
  let payloads := List.filter (λ item, nonempty_text (trimmed item~>"url") || nonempty_text (trimmed item~>"b64_json"))
                    (imageEntries body) in
  _ ← throw_if (MAX_IMAGE_OUTPUTS <? length payloads) (js "too many output images");
  let count := (or_object body~>"usage")~>"generated_images" in
  let n := to_number count in
  _ ← throw_if (negb (is_undefined count) &&
          (negb (integer_value count) || nltb n NZERO || ngtb n (nZ (Z.of_nat MAX_IMAGE_OUTPUTS))
           || negb (strict_eq count (int (Z.of_nat (length payloads))))))
        (js "invalid upstream generated_images");
  Ok payloads.

(** The images of the two tiers; nothing when the size of one is unknown. *)
Definition count_tier (tiers : nat * nat) (dims : image_dims) : nat * nat :=
  if ngtb (pixels dims) (nZ IMAGE_TIER_MAX_PIXELS) then (tiers.1, S tiers.2) else (S tiers.1, tiers.2).
Fixpoint count_tiers (payloads : list jsval) (tiers : nat * nat) : option (nat * nat) :=
  match payloads with
  | [] => Some tiers
  | item :: payloads =>
      match imageSizePixels item~>"size" with
      | None => None
      | Some dims => count_tiers payloads (count_tier tiers dims)
      end
  end.

Definition imageUsage (body : jsval) : JS obj :=
  usage ← body~>!"usage";
  payloads ← imagePayloads body;
  let facts :=
    match count_tiers payloads (0, 0) with
    | Some (lower, higher) =>
        ["images_up_to_1_5k" ↦ int (Z.of_nat lower); "images_above_1_5k" ↦ int (Z.of_nat higher)]
    | None => []
    end in
  let input := (or_object usage)~>"input_images" in
  Ok (put_if (integer_value input && ngeb (to_number input) NZERO
              && nleb (to_number input) (nZ (Z.of_nat MAX_REFERENCE_IMAGES))) facts (js "input_images") input).

(** ** Rendering and legacy settlement *)

Definition image_key (index : nat) : jsstr := js "image-" ++ nat_text (S index).

(** One reference per image of the answer. *)
Definition image_reference (ctx : jsval) (index : nat) : JS jsstr :=
  artifacts ← ctx~>!"artifacts";
  let artifact := get (or_object artifacts) (image_key index) in
  _ ← throw_if (negb (truthy artifact) || negb (nonempty_text (trimmed artifact~>"url")))
        (js "image artifact is unavailable");
  Ok (js "![Image " ++ nat_text (S index) ++ js "](<" ++ js_text artifact~>"url" ++ js ">)").

Definition responsesOutputText (ctx task : jsval) : JS jsstr :=
  let data := artifactData task in
  if negb (imageTask ctx) && negb (is_array data~>"data") then responsesVideoText ctx
  else
    parts ← rmap (image_reference ctx) (seq 0 (length (imageURLEntries data)));
    _ ← throw_if (bool_decide (parts = [])) (js "image artifact is unavailable");
    Ok (join [10%N; 10%N] parts).

Definition extractUsageOnSubmit (ctx body : jsval) : JS (option obj) :=
  if negb (imageTask ctx) then Ok None
  else
    payloads ← imagePayloads (or_object body);
    Ok (Some (match payloads with [] => [] | _ => ["image_count" ↦ int (Z.of_nat (length payloads))] end)).
End seedream.
