(* ===== verification/PluginDoubao.v ===== *)
(** * The Doubao plugin

    Models [src/plugins/tasks/doubao/plugin.js]: Seedance videos through Ark
    tasks and Seedream images through the synchronous image interface; what
    the two share with the local plugin is in [Seedream]. *)
From stdpp Require Import base list option numbers sets.
From Stdlib Require Import ZArith SpecFloat Lia.
From S2P Require Import Prelude.
From S2P Require Import JsString.
From S2P Require Import JsNumber.
From S2P Require Import Syntax.
From S2P Require Import Runtime.
From S2P Require Import Display.
From S2P Require Import Json.
From S2P Require Import JsText.
From S2P Require Import JsonPrint.
From S2P Require Import AdvancedCustom.
From S2P Require Import JsDynamic.
From S2P Require Import PluginCommon.
From S2P Require Import Seedream.

Section doubao.
Context {H : Host} {U : TaskHost}.

(** ** Usage schemas *)

Definition usageSchema : BillingUsageSchema := seedanceUsageSchema DEFAULT_VIDEO_PROFILE.

(** [resolutions.join("/") + ...]: the shape that models of one profile share *)
Definition shape (capability : VideoProfile) : jsstr :=
  join (js "/") (resolutions capability) ++ (if videoInput capability then js "+video" else [])
  ++ (if audio capability then js "+audio" else []).

Record usage_profile : Type := { profile_shape : jsstr; models : list jsstr; schema : BillingUsageSchema; examples : list obj }.

(** One round of the loop over the models. *)
Fixpoint add_model (profiles : list usage_profile) (model : jsstr) (capability : VideoProfile) : list usage_profile :=
  match profiles with
  | [] => [{| profile_shape := shape capability; models := [model]; schema := seedanceUsageSchema capability;
              examples := seedanceUsageExamples capability |}]
  | p :: profiles =>
      if jseq (profile_shape p) (shape capability)
      then {| profile_shape := profile_shape p; models := models p ++ [model]; schema := schema p; examples := examples p |}
           :: profiles
      else p :: add_model profiles model capability
  end.
Definition seedanceUsageProfiles : list usage_profile :=
  fold_left (λ profiles entry, add_model profiles entry.1 entry.2) VIDEO_MODELS [].

(** ** Resolutions *)

Definition videoProfile (ctx : jsval) : VideoProfile :=
  default DEFAULT_VIDEO_PROFILE
    (first_entry VIDEO_MODELS [trimmed (js_and ctx ctx~>"upstreamModel"); trimmed (js_and ctx ctx~>"model")]).

(** The tier of a request that leaves the resolution to the provider. *)
Definition reserved_resolution (profile : VideoProfile) : jsstr :=
  if str_in (js "1080p") (resolutions profile) then js "1080p" else default [] (last (resolutions profile)).

Definition videoResolution (ctx : jsval) : JS jsstr :=
  req ← ctx~>!"requestBody";
  let req := or_object req in
  let metadata := or_object req~>"metadata" in
  let profile := videoProfile ctx in
  let raw := to_lower_case (trimmed (js_or metadata~>"resolution" req~>"size")) in
  let recognized := str_in raw SEEDANCE_RESOLUTIONS || (length (dimensions raw) =? 2) in
  if negb recognized then Ok (reserved_resolution profile)
  else
    let resolution := normalizeResolution (JStr raw) in
    _ ← throw_if (negb (str_in resolution (resolutions profile)))
          (trimmed (js_or ctx~>"upstreamModel" ctx~>"model") ++ js " resolution must be one of "
           ++ join (js ", ") (resolutions profile));
    Ok resolution.

(** ** Submission *)

Definition ark_headers (ctx : jsval) : jsval :=
  JObj ["Content-Type" ↦ str "application/json"; "Accept" ↦ str "application/json";
        "Authorization" ↦ JStr (js "Bearer " ++ js_text ctx~>"apiKey")].

Definition image_item (url : jsval) : jsval := JObj ["type" ↦ str "image_url"; "image_url" ↦ JObj ["url" ↦ url]].

(** The references of a submission: its images, then the content given in the
    metadata, without texts. *)
Definition references (req : jsval) (body : obj) : list jsval :=
  let images := match req~>"images" with JArr images => images | _ => [] end in
  let content := match (JObj body)~>"content" with JArr items => items | _ => [] end in
  List.filter (λ item, truthy item && is_not item~>"type" "text") (map image_item images ++ content).

Definition submit_content (req : jsval) (refs : list jsval) : list jsval :=
  if nonempty_text (trimmed req~>"prompt") || bool_decide (refs = [])
  then refs ++ [JObj ["type" ↦ str "text"; "text" ↦ js_or req~>"prompt" (JStr [])]] else refs.

(** The body of an Ark task, and whether it has a reference. *)
Definition ark_body (ctx req : jsval) : JS (obj * bool) :=
  let body := assign ["model" ↦ js_or req~>"model" (JStr []); "content" ↦ JArr []] (or_object req~>"metadata") in
  let refs := references req body in
  content ← rewriteDraftTaskContent (submit_content req refs) ctx~>"originTasks";
  let body := put body (js "content") (JArr content) in
  let seconds := parse_int (js_or req~>"seconds" (JStr [])) in
  let body := put_if (ngtb seconds NZERO) body (js "duration") (JNum seconds) in
  Ok (put body (js "model") (js_or ctx~>"upstreamModel" (JObj body)~>"model"), negb (bool_decide (refs = []))).

Definition buildSubmitRequest (ctx : jsval) : JS jsval :=
  if imageTask ctx then
    converted ← convertImage ctx;
    root ← apiRoot ctx;
    Ok (JObj ["url" ↦ JStr (root ++ js "/api/v3/images/generations"); "method" ↦ str "POST";
              "headers" ↦ ark_headers ctx; "body" ↦ JObj (body converted); "action" ↦ action converted;
              "rewriteModel" ↦ (JObj (body converted))~>"model"])
  else
    req ← ctx~>!"requestBody";
    _ ← req~>!"metadata";
    _ ← videoResolution ctx;
    '(body, hasReference) ← ark_body ctx req;
    root ← apiRoot ctx;
    Ok (JObj ["url" ↦ JStr (root ++ js "/api/v3/contents/generations/tasks"); "method" ↦ str "POST";
              "headers" ↦ ark_headers ctx; "body" ↦ JObj body; "action" ↦ video_action hasReference;
              "rewriteModel" ↦ (JObj body)~>"model"]).

Definition text_or (t : jsstr) (s : string) : jsstr := if nonempty_text t then t else js s.
Arguments text_or t s%_string.

(** The answer to an image request. *)
Definition image_submitted (ctx body : jsval) : JS jsval :=
  _ ← throw_if (negb (plain_object body)) (js "invalid image generation response");
  let error := body~>"error" in
  _ ← throw_if (truthy error && is_object error)
        (text_or (trimmed error~>"code") "upstream_error" ++ js ": "
         ++ text_or (trimmed error~>"message") "image generation failed");
  match imageURLEntries body with
  | [] => throw (js "image generation returned no images")
  | first :: _ =>
      let taskId := trimmed ctx~>"publicTaskId" in
      _ ← throw_if (negb (nonempty_text taskId)) (js "missing gateway task id");
      Ok (JObj ["taskId" ↦ JStr taskId; "taskData" ↦ body;
                "immediate" ↦ JObj ["status" ↦ str "SUCCESS"; "progress" ↦ str "100%";
                                    "url" ↦ JStr (trimmed first~>"url")]])
  end.

Definition parseSubmitResponse (ctx resp : jsval) : JS jsval :=
  body ← resp~>!"body";
  if imageTask ctx then image_submitted ctx body
  else
    _ ← throw_if (negb (truthy body) || negb (truthy body~>"id")) (js "task_id is empty");
    Ok (JObj ["taskId" ↦ body~>"id"; "taskData" ↦ body]).

(** ** Usage *)

Definition billed_seconds (req metadata : jsval) : num :=
  let seconds := to_number (js_or (js_or (js_or req~>"seconds" req~>"duration") metadata~>"duration") (int 0)) in
  let frames := to_number metadata~>"frames" in
  let seconds := if negb (is_finite seconds) || nleb seconds NZERO
                 then if is_finite frames && ngtb frames NZERO then nfloor (ndiv frames (nZ 24)) else nZ 15
                 else seconds in
  let seconds := if nleb seconds NZERO then nZ 5 else seconds in
  nmin seconds (nZ 3600).

Definition video_facts (profile : VideoProfile) (seconds : num) (resolution : jsstr) (metadata : jsval) : obj :=
  ["tokens" ↦ JNum (estimateTokens seconds resolution); "resolution" ↦ JStr resolution]
  ++ (if videoInput profile
      then ["video_input" ↦ if hasVideo metadata~>"content" then str "video" else str "none"] else [])
  ++ (if audio profile
      then ["generate_audio" ↦ JBool (negb (strict_eq metadata~>"generate_audio" (JBool false)))] else []).

Definition extractUsage (ctx : jsval) : JS (option obj) :=
  if imageTask ctx then
    converted ← convertImage ctx;
    let facts := JObj (facts converted) in
    if equals ctx~>"usagePurpose" "billing_ratios" then
      Ok (Some ["image_count" ↦ JNum (nadd (to_number facts~>"images_up_to_1_5k")
                                           (to_number facts~>"images_above_1_5k"))])
    else Ok (Some (Seedream.facts converted))
  else
    req ← ctx~>!"requestBody";
    let req := or_object req in
    let metadata := or_object req~>"metadata" in
    if equals ctx~>"usagePurpose" "billing_ratios" then
      let ratio := videoInputRatio (js_or ctx~>"upstreamModel" ctx~>"model") metadata~>"resolution" metadata~>"content" in
      Ok (if neqb ratio (nZ 1) then None else Some ["video_input_ratio" ↦ JNum ratio])
    else
      resolution ← videoResolution ctx;
      Ok (Some (video_facts (videoProfile ctx) (billed_seconds req metadata) resolution metadata)).

Definition reported_tokens (usage : jsval) : num :=
  let tokens := to_number usage~>"completion_tokens" in
  if negb (is_finite tokens) || nleb tokens NZERO then to_number usage~>"total_tokens" else tokens.

Definition extractUsageOnComplete (task taskResult body : jsval) : JS obj :=
  if imageTask task then imageUsage (or_object body)
  else if negb (truthy body) || is_not body~>"status" "succeeded" then Ok []
  else
    let tokens := reported_tokens (or_object body~>"usage") in
    let facts := put_if (is_finite tokens && ngtb tokens NZERO) [] (js "tokens") (JNum tokens) in
    let content := or_object body~>"content" in
    let resolution := to_lower_case (trimmed (js_or content~>"resolution" body~>"resolution")) in
    Ok (put_if (str_in resolution (resolutions (videoProfile task))) facts (js "resolution") (JStr resolution)).

(** ** Polling *)

Definition buildQueryRequest (ctx : jsval) : JS jsval :=
  root ← apiRoot ctx;
  Ok (JObj ["url" ↦ JStr (root ++ js "/api/v3/contents/generations/tasks/" ++ js_text ctx~>"taskId");
            "method" ↦ str "GET";
            "headers" ↦ JObj ["Accept" ↦ str "application/json"; "Content-Type" ↦ str "application/json";
                              "Authorization" ↦ JStr (js "Bearer " ++ js_text ctx~>"apiKey")]]).

(** [if (Number.isFinite(n) && n > 0) result[key] = n;] for [Number(v || 0)] *)
Definition put_count (v : jsval) (key : string) (result : obj) : obj :=
  let n := to_number (js_or v (int 0)) in put_if (is_finite n && ngtb n NZERO) result (js key) (JNum n).
Arguments put_count v key%_string result.

Definition succeeded (body : jsval) : jsval :=
  let content := body~>"content" in
  let usage := or_object body~>"usage" in
  JObj (put_count usage~>"total_tokens" "totalTokens" (put_count usage~>"completion_tokens" "completionTokens"
    ["status" ↦ str "SUCCESS"; "progress" ↦ str "100%";
     "url" ↦ if truthy content && truthy content~>"video_url" then content~>"video_url" else JStr []])).

Definition parseTaskResult (ctx body : jsval) : JS jsval :=
  status ← body~>!"status";
  Ok (if one_of status [js "pending"; js "queued"] then
        JObj ["status" ↦ str "QUEUED"; "progress" ↦ str "10%"]
      else if one_of status [js "processing"; js "running"] then
        JObj ["status" ↦ str "IN_PROGRESS"; "progress" ↦ str "50%"]
      else if equals status "succeeded" then succeeded body
      else if one_of status [js "failed"; js "expired"; js "cancelled"] then
        let error := body~>"error" in
        JObj ["status" ↦ str "FAILURE"; "progress" ↦ str "100%";
              "reason" ↦ if truthy error && truthy error~>"message" then error~>"message" else status]
      else JObj ["status" ↦ str "UNKNOWN";
                 "reason" ↦ JStr (js "unrecognized status: " ++ js_text (js_or status (JStr [])))]).

(** ** Artifacts *)

Definition image_artifact (index : nat) (item : jsval) : jsval :=
  JObj (["key" ↦ JStr (image_key index); "type" ↦ str "image"]
        ++ if equals item~>"output_format" "png" then ["mimeType" ↦ str "image/png"]
           else if equals item~>"output_format" "jpeg" then ["mimeType" ↦ str "image/jpeg"] else []).

Definition last_frame_artifact : jsval :=
  JObj ["key" ↦ str "last_frame"; "type" ↦ str "image"; "mimeType" ↦ str "image/png"].

Definition content_artifacts (content : jsval) : list jsval :=
  (if nonempty_text (trimmed content~>"video_url") then [video_artifact] else [])
  ++ (if nonempty_text (trimmed content~>"last_frame_url") then [last_frame_artifact] else []).

Definition listArtifacts (task : jsval) : JS jsval :=
  status ← task~>!"status";
  let data := artifactData task in
  Ok (JArr (if is_not status "SUCCESS" then []
            else if imageTask task || is_array data~>"data" then imap image_artifact (imageURLEntries data)
            else content_artifacts (or_object data~>"content"))).

(** The entry whose key is asked for, by position. *)
Fixpoint keyed_entry (key : jsval) (index : nat) (items : list jsval) : option jsval :=
  match items with
  | [] => None
  | item :: items => if strict_eq key (JStr (image_key index)) then Some item else keyed_entry key (S index) items
  end.

Definition artifact_address (data key : jsval) : jsstr :=
  if starts_with (js "image-") (js_text (js_or key (JStr []))) then
    match keyed_entry key 0 (imageURLEntries data) with Some item => trimmed item~>"url" | None => [] end
  else
    let content := or_object data~>"content" in
    trimmed (table_get ["video" ↦ content~>"video_url"; "last_frame" ↦ content~>"last_frame_url"] key).

Definition buildContentRequest (ctx : jsval) : JS jsval :=
  key ← ctx~>!"artifactKey";
  let url := artifact_address (artifactData ctx) key in
  if nonempty_text url then public_download url ctx else artifact_not_found.

(** ** The Responses protocol *)

Definition copy_keys (req : jsval) (keys : list jsstr) (body : obj) : obj :=
  fold_left (λ body key, put_if (has_own req key) body key (get req key)) keys body.

(** Only the search tool is passed on. *)
Definition copy_tools (req : jsval) (body : obj) : obj :=
  match req~>"tools" with
  | JArr items =>
      match List.filter (λ tool, plain_object tool && equals tool~>"type" "web_search") items with
      | [] => body
      | tools => put body (js "tools") (JArr (map (λ _, JObj ["type" ↦ str "web_search"]) tools))
      end
  | _ => body
  end.

Definition listed_images (req : jsval) (found_images : list jsstr) : list jsstr :=
  let listed := match req~>"image" with JArr items => items | JUndefined => [] | image => [image] end in
  fold_left add_image
    (listed ++ match or_array req~>"images" with JArr items => items | v => [v] end ++ map JStr found_images) [].

Definition decode_image (ctx req : jsval) (model text : jsstr) (found_images : list jsstr) : JS jsval :=
  let prompt := prompt_of text req in
  let images := listed_images req found_images in
  _ ← throw_if (negb (nonempty_text prompt) && bool_decide (images = [])) (js "input is required");
  let body := ["model" ↦ JStr model] in
  let body := put_if (nonempty_text prompt) body (js "prompt") (JStr prompt) in
  let body := put_if (negb (bool_decide (images = []))) body (js "image") (JArr (map JStr images)) in
  let body := copy_tools req (copy_keys req IMAGE_REQUEST_KEYS body) in
  converted ← convertImage (JObj ["upstreamModel" ↦ ctx~>"upstreamModel"; "model" ↦ JStr model;
                                  "requestBody" ↦ JObj body]);
  Ok (submit_request (JStr model) (action converted) body).

(** [if (originTaskIds.length) intent.originTaskIds = originTaskIds;] *)
Definition with_origins (content : jsval) (intent : jsval) : jsval :=
  match intent, draftTaskIds content with
  | JObj fields, ids => JObj (put_if (negb (bool_decide (ids = []))) fields (js "originTaskIds") (JArr (map JStr ids)))
  | _, _ => intent
  end.

Definition decode_video (req : jsval) (model text : jsstr) (found_images : list jsstr) : JS jsval :=
  _ ← check_metadata req;
  let prompt := prompt_of text req in
  let images := request_images req found_images in
  _ ← throw_if (negb (nonempty_text prompt) && bool_decide (images = [])) (js "input is required");
  let metadata := assign [] (or_object req~>"metadata") in
  let metadata := if has_own req (js "resolution") then put metadata (js "resolution") req~>"resolution"
                  else put_if (truthy req~>"size" && negb (truthy (JObj metadata)~>"resolution")) metadata
                         (js "resolution") (JStr (normalizeResolution req~>"size")) in
  let body := ["model" ↦ JStr model; "prompt" ↦ JStr prompt; "metadata" ↦ JObj metadata] in
  let body := put_if (negb (bool_decide (images = []))) body (js "images") (JArr (map JStr images)) in
  let body := copy_own req "size" "size" (copy_seconds req "seconds" body) in
  Ok (with_origins (JObj metadata)~>"content"
    (submit_request (JStr model) (video_action (negb (bool_decide (images = [])))) body)).

Definition responses_decodeRequest (ctx : jsval) : JS jsval :=
  req ← responses_body ctx;
  model ← check_model req~>"model";
  _ ← check_input req;
  _ ← check_images req;
  let '(text, found_images) := responsesInput req in
  if imageTask (JObj ["upstreamModel" ↦ ctx~>"upstreamModel"; "model" ↦ JStr model])
  then decode_image ctx req model text found_images
  else decode_video req model text found_images.

Definition renderEvents (ctx task previousState : jsval) : JS jsval :=
  render_events (responsesOutputText ctx task) task previousState.
Definition renderFinal (ctx task : jsval) : JS jsval :=
  render_final (responsesOutputText ctx task) ["vendor" ↦ str "doubao"].

(** ** Native routes *)

(** The texts of the content, and whether it holds anything else. *)
Definition read_content (found : list jsstr * bool) (item : jsval) : list jsstr * bool :=
  if negb (plain_object item) then found
  else match item~>"text" with
       | JStr s => if equals item~>"type" "text" then (found.1 ++ [s], found.2) else (found.1, true)
       | _ => (found.1, true)
       end.

Definition native_createTask (ctx : jsval) : JS jsval :=
  body ← responses_body ctx;
  model ← check_model body~>"model";
  _ ← throw_if (is_defined body~>"content" && negb (is_array body~>"content")) (js "content must be an array");
  let content := match body~>"content" with JArr items => items | _ => [] end in
  let '(texts, hasReference) := fold_left read_content content ([], false) in
  _ ← throw_if (bool_decide (texts = []) && negb hasReference) (js "content is required");
  let prompt := join [10%N] (List.filter (λ t, nonempty_text (trim t)) texts) in
  let requestBody := ["model" ↦ JStr model; "prompt" ↦ JStr prompt; "metadata" ↦ body] in
  let seconds := to_number body~>"duration" in
  let requestBody := put_if (is_finite seconds && ngtb seconds NZERO) requestBody (js "seconds") (JNum seconds) in
  Ok (with_origins (JArr content) (submit_request (JStr model) (video_action hasReference) requestBody)).

Definition with_task_id (data task : jsval) : jsval := JObj (put (assign [] data) (js "id") task~>"task_id").

Definition native_taskCreated (ctx task : jsval) : JS jsval :=
  data ← task~>!"data";
  Ok (with_task_id (if plain_object data then data else JObj []) task).

Definition native_statuses : obj :=
  ["NOT_START" ↦ str "queued"; "SUBMITTED" ↦ str "queued"; "QUEUED" ↦ str "queued"; "IN_PROGRESS" ↦ str "running";
   "SUCCESS" ↦ str "succeeded"; "FAILURE" ↦ str "failed"].

Definition native_taskStatus (ctx task : jsval) : JS jsval :=
  data ← task~>!"data";
  if plain_object data then Ok (with_task_id data task)
  else
    let output := ["id" ↦ task~>"task_id"; "status" ↦ js_or (table_get native_statuses task~>"status") (str "queued")] in
    Ok (JObj (put_if (truthy task~>"fail_reason") output (js "error") (JObj ["message" ↦ task~>"fail_reason"]))).

Definition native_createImage (ctx : jsval) : JS jsval :=
  body ← responses_body ctx;
  model ← check_model body~>"model";
  _ ← throw_if (is_defined body~>"stream" && negb (strict_eq body~>"stream" (JBool false)))
        (js "stream is not supported on this route; the complete JSON response is returned once all images are generated");
  let requestBody := JObj (put (assign [] body) (js "model") (JStr model)) in
  converted ← convertImage (JObj ["model" ↦ JStr model; "requestBody" ↦ requestBody]);
  Ok (JObj ["kind" ↦ str "submit"; "model" ↦ JStr model; "action" ↦ action converted; "requestBody" ↦ requestBody]).

Definition native_imageCreated (ctx task : jsval) : JS jsval :=
  data ← task~>!"data";
  Ok (if plain_object data then data else JObj []).

Definition native_error (ctx error : jsval) : JS jsval :=
  code ← error~>!"code";
  Ok (JObj ["error" ↦ JObj ["code" ↦ code; "message" ↦ error~>"message"]]).

(** ** The video protocol *)

Definition check_seconds (seconds : jsval) : JS unit :=
  let n := to_number seconds in
  throw_if (is_defined seconds && (negb (is_finite n) || nleb n NZERO || ngtb n (nZ 3600)))
    (js "seconds must be between 1 and 3600").

Definition video_submit (ctx req : jsval) : jsval :=
  submit_request ctx~>"model" (video_action (truthy req~>"input_reference" || truthy req~>"image")) (with_model req ctx).

Definition video_decodeRequest (ctx : jsval) : JS jsval :=
  body ← video_body ctx;
  if equals body~>"kind" "json" then
    req ← json_object_body body;
    _ ← check_seconds (requested_seconds req);
    Ok (video_submit ctx req)
  else
    fields ← form_fields body;
    fields ← form_metadata fields;
    _ ← throw_if (truthy (or_array body~>"files")~>"length")
          (js "Doubao requires image and video references to be URLs inside metadata.content");
    let fields := form_seconds fields in
    _ ← check_seconds (requested_seconds (JObj fields));
    Ok (video_submit ctx (JObj fields)).

Definition legacy_openai_video (task : jsval) : JS jsval :=
  data ← task~>!"data";
  let data := or_object data in
  let properties := task~>"properties" in
  let model := if truthy properties then js_or properties~>"origin_model_name" (JStr []) else JStr [] in
  let output := video_object video_statuses task model task~>"created_at" ++ ["completed_at" ↦ task~>"updated_at"] in
  let error := data~>"error" in
  let of_error (key : string) : jsval := if truthy error then js_or (get error (js key)) (JStr []) else JStr [] in
  Ok (JObj (put_if (equals data~>"status" "failed") output (js "error")
    (JObj ["message" ↦ of_error "message"%string; "code" ↦ of_error "code"%string]))).

Definition video_render (ctx task : jsval) : JS jsval := legacy_openai_video task.
End doubao.
