(* ===== verification/LocalDoubao.v ===== *)
(** * The local Doubao plugin

    Models [src/plugins/local/doubao.js] with its two extensions
    [seedance_video_storage.js] and [seedance_enhance.js]: Seedance videos
    through Ark tasks or through an OpenAI-compatible Videos interface, the
    protocol pinned on a task, and the projection of a task onto the ModelArk
    interface.  Images and whatever the file repeats from the plugin it
    replaces are those of [Seedream] and [PluginDoubao]. *)
From stdpp Require Import base list option numbers sets.
From Stdlib Require Import ZArith SpecFloat Lia.
From S2P Require Import Prelude.
From S2P Require Import JsString.
From S2P Require Import JsNumber.
From S2P Require Import Syntax.
From S2P Require Import Runtime.
From S2P Require Import Display.
From S2P Require Import Json.
From S2P Require Import JsText.
From S2P Require Import JsonPrint.
From S2P Require Import AdvancedCustom.
From S2P Require Import JsDynamic.
From S2P Require Import PluginCommon.
From S2P Require Import Seedream.
From S2P Require Import PluginDoubao.

Section local.
Context {H : Host} {U : TaskHost}.

(** ** Protocols *)

(** The Videos interfaces differ by vendor. *)
Inductive VideosContract : Type := Standard | Codeyy | Zapgogo.
Inductive Upstream : Type := Ark | OpenAIVideo (profile : VideosContract).

Definition VIDEO_PROTOCOL_ARK : jsstr := js "ark".
Definition VIDEO_PROTOCOL_OPENAI_VIDEO : jsstr := js "openai_video".
Definition profile_name (p : VideosContract) : jsstr :=
  match p with Standard => js "standard" | Codeyy => js "seedance_codeyy" | Zapgogo => js "seedance_zapgogo" end.
Definition VIDEO_OPENAI_PROFILES : list VideosContract := [Standard; Codeyy; Zapgogo].
Definition MAX_VIDEO_DURATION_SECONDS : Z := 3600.

Definition profile_of (name : jsstr) : option VideosContract :=
  List.find (λ p, jseq (profile_name p) name) VIDEO_OPENAI_PROFILES.

(** [{ protocol: upstream.protocol, profile: upstream.profile }] *)
Definition upstream_value (u : Upstream) : jsval :=
  match u with
  | Ark => JObj ["protocol" ↦ JStr VIDEO_PROTOCOL_ARK; "profile" ↦ JStr (profile_name Standard)]
  | OpenAIVideo p => JObj ["protocol" ↦ JStr VIDEO_PROTOCOL_OPENAI_VIDEO; "profile" ↦ JStr (profile_name p)]
  end.

Definition FROM_720P : list jsstr := [js "720p"; js "1080p"].
Definition with_video (rs : list jsstr) : VideoProfile := {| resolutions := rs; videoInput := true; audio := false |}.
Definition ZAPGOGO_VIDEO_MODELS : list (jsstr * VideoProfile) :=
  ["dreamina-seedance-2-0-260128" ↦ with_video [js "720p"; js "1080p"; js "4k"];
   "dreamina-seedance-2-0-fast-260128" ↦ with_video FROM_720P;
   "dreamina-seedance-2-0-mini-260615" ↦ with_video FROM_720P;
   "dreamina-seedance-2-5-260628" ↦ with_video FROM_720P].
Definition DEFAULT_ZAPGOGO_PROFILE : VideoProfile := with_video FROM_720P.
Definition CODEYY_VIDEO_MODELS : list (jsstr * VideoProfile) :=
  ["doubao-seedance-2-5-260628" ↦ with_video UP_TO_1080P; "doubao-seedance-2-0-260128" ↦ with_video UP_TO_1080P;
   "doubao-seedance-2-0-fast-260128" ↦ with_video UP_TO_1080P;
   "doubao-seedance-2-0-mini-260615" ↦ with_video UP_TO_1080P].
Definition DEFAULT_CODEYY_PROFILE : VideoProfile := video_profile UP_TO_1080P.

Definition unsupported {A} (what : string) (v : jsval) : JS A :=
  throw (js "unsupported " ++ js what ++ js ": " ++ trimmed v).
Arguments unsupported {A} what%_string v.

Definition videoUpstream (ctx : jsval) : JS Upstream :=
  let raw := js_or (js_and ctx ctx~>"videoUpstream") JNull in
  if negb (truthy raw) then Ok Ark
  else
    let protocol := to_lower_case (trimmed raw~>"protocol") in
    if jseq protocol VIDEO_PROTOCOL_ARK then Ok Ark
    else if jseq protocol VIDEO_PROTOCOL_OPENAI_VIDEO then
      match profile_of (to_lower_case (trimmed raw~>"profile")) with
      | Some p => Ok (OpenAIVideo p)
      | None => unsupported "video_upstream_profile" raw~>"profile"
      end
    else unsupported "video_upstream_protocol" raw~>"protocol".

(** The numbers of a dotted version, filled up to three. *)
Definition version_numbers (version : jsval) : option (list num) :=
  let parts := map number_of_string (split_on (cu ".") (trimmed version)) in
  if negb (nonempty_text (default [] (head (split_on (cu ".") (trimmed version))))) then None
  else if forallb (λ n, is_integer n && negb (nltb n NZERO)) parts then Some (parts ++ replicate (3 - length parts) NZERO)
  else None.

Definition producerVersionAtLeast (version : jsval) (major minor patch : Z) : bool :=
  match version_numbers version with
  | Some (a :: b :: c :: _) =>
      if negb (neqb a (nZ major)) then ngtb a (nZ major)
      else if negb (neqb b (nZ minor)) then ngtb b (nZ minor) else ngeb c (nZ patch)
  | _ => false
  end.

(** The protocol pinned on a task. *)
Definition pinned_upstream (pinned : jsval) : JS Upstream :=
  if negb (plain_object pinned) then throw (js "task video protocol state is invalid")
  else
    let protocol := to_lower_case (trimmed pinned~>"protocol") in
    let name := to_lower_case (trimmed pinned~>"profile") in
    let name := if nonempty_text name then name else profile_name Standard in
    if jseq protocol VIDEO_PROTOCOL_ARK then Ok Ark
    else match profile_of name with
         | Some p => if jseq protocol VIDEO_PROTOCOL_OPENAI_VIDEO then Ok (OpenAIVideo p)
                     else throw (js "unknown pinned video upstream protocol or profile")
         | None => throw (js "unknown pinned video upstream protocol or profile")
         end.

Definition resolvedVideoUpstream (ctx : jsval) : JS Upstream :=
  let state := js_and ctx ctx~>"state" in
  if plain_object state && has_own state (js "video_upstream") then pinned_upstream state~>"video_upstream"
  else if producerVersionAtLeast (js_and ctx ctx~>"producerVersion") 1 2 0
    then throw (js "task video protocol state is missing; the task cannot be interpreted safely")
  else
    let configured := js_and ctx ctx~>"videoUpstream" in
    if plain_object configured && nonempty_text (trimmed configured~>"protocol") then videoUpstream ctx else Ok Ark.

Definition pinnedUpstreamOf (task : jsval) : JS Upstream :=
  resolvedVideoUpstream (JObj ["state" ↦ js_and task task~>"state";
                               "producerVersion" ↦ js_and task task~>"producer_version"]).

(** ** Capabilities *)

(** [model.replace(/^doubao-seedance-/, "dreamina-seedance-")] *)
Definition zapgogo_alias (model : jsstr) : jsstr :=
  match strip_prefix (js "doubao-seedance-") model with
  | Some rest => js "dreamina-seedance-" ++ rest
  | None => model
  end.
Definition zapgogo_names (models : list jsstr) : list jsstr := flat_map (λ m, [m; zapgogo_alias m]) models.

Definition profile_under (u : Upstream) (models : list jsstr) : VideoProfile :=
  match u with
  | OpenAIVideo Zapgogo => default DEFAULT_ZAPGOGO_PROFILE (first_entry ZAPGOGO_VIDEO_MODELS (zapgogo_names models))
  | OpenAIVideo Codeyy => default DEFAULT_CODEYY_PROFILE (first_entry CODEYY_VIDEO_MODELS models)
  | _ => default DEFAULT_VIDEO_PROFILE (first_entry VIDEO_MODELS models)
  end.

Definition videoProfile (ctx : jsval) : JS VideoProfile :=
  upstream ← resolvedVideoUpstream ctx;
  Ok (profile_under upstream [trimmed (js_and ctx ctx~>"upstreamModel"); trimmed (js_and ctx ctx~>"model")]).

(** A tier, or two numbers with a sign between them. *)
Definition recognized (raw : jsstr) : bool := str_in raw SEEDANCE_RESOLUTIONS || (length (dimensions raw) =? 2).

Definition videoResolution (ctx : jsval) : JS jsstr :=
  req ← ctx~>!"requestBody";
  let req := or_object req in
  let metadata := or_object req~>"metadata" in
  profile ← videoProfile ctx;
  let raw := to_lower_case (trimmed (js_or (js_or metadata~>"resolution" req~>"resolution") req~>"size")) in
  if negb (recognized raw) then Ok (reserved_resolution profile)
  else
    let resolution := normalizeResolution (JStr raw) in
    _ ← throw_if (negb (str_in resolution (resolutions profile)))
          (trimmed (js_or ctx~>"upstreamModel" ctx~>"model") ++ js " resolution must be one of "
           ++ join (js ", ") (resolutions profile));
    Ok resolution.

(** The tiers a model is priced for: those of any of its upstreams. *)
Definition priced_capability (extend : bool) (model : jsstr) (capability : VideoProfile) : VideoProfile :=
  match (if extend then entry_of CODEYY_VIDEO_MODELS model else None) with
  | Some extension =>
      {| resolutions := List.filter (λ r, str_in r (resolutions capability) || str_in r (resolutions extension))
                          SEEDANCE_RESOLUTIONS;
         videoInput := videoInput capability; audio := audio capability |}
  | None => capability
  end.
Definition seedanceUsageProfiles (extend : bool) (table : list (jsstr * VideoProfile)) : list usage_profile :=
  fold_left (λ profiles entry, add_model profiles entry.1 (priced_capability extend entry.1 entry.2)) table [].

(** ** Requests to a Videos interface *)

(** [text.replace(/\/+$/, "").replace(/\/v1$/i, "")] *)
Fixpoint drop_slashes (reversed : jsstr) : jsstr :=
  match reversed with
  | c :: rest => if (c =? cu "/")%N then drop_slashes rest else reversed
  | [] => []
  end.
Definition without_v1 (s : jsstr) : jsstr :=
  match reverse s with
  | 49%N :: v :: 47%N :: rest => if (ascii_low v =? cu "v")%N then reverse rest else s
  | _ => s
  end.
Definition videosApiRoot (ctx : jsval) : JS jsstr :=
  base ← ctx~>!"baseUrl";
  Ok (without_v1 (reverse (drop_slashes (reverse (trimmed base)))) ++ js "/v1").

Definition raw_duration (req metadata : jsval) : jsval :=
  if is_defined req~>"seconds" then req~>"seconds"
  else if is_defined req~>"duration" then req~>"duration" else metadata~>"duration".

Definition videoDurationSeconds (req metadata : jsval) (allowAutomatic : bool) : JS (option num) :=
  let raw := raw_duration req metadata in
  if is_nullish raw || strict_eq raw (JStr []) then Ok None
  else
    let value := to_number raw in
    if allowAutomatic && neqb value (nZ (-1)) then Ok (Some value)
    else
      _ ← throw_if (negb (is_finite value) || negb (is_integer value) || nleb value NZERO)
            (js "seconds must be a positive whole number of seconds");
      _ ← throw_if (ngtb value (nZ MAX_VIDEO_DURATION_SECONDS)) (js "seconds must be at most 3600");
      Ok (Some value).

Definition parseAspectRatio (value : jsval) : option num :=
  match split_on (cu ":") (trimmed value) with
  | [a; b] =>
      let width := number_of_string a in
      let height := number_of_string b in
      if negb (is_finite width) || negb (is_finite height) || nleb width NZERO || nleb height NZERO then None
      else Some (ndiv width height)
  | _ => None
  end.

Definition size_text (width height : num) : jsstr := number_to_string width ++ js "x" ++ number_to_string height.

Definition pixelSizeFor (resolution : jsstr) (ratio : jsval) : jsstr :=
  let '(w, h) := resolutionMaxPixels resolution in
  match parseAspectRatio ratio with
  | None => size_text (nZ w) (nZ h)
  | Some aspect =>
      let area := nmul (nZ w) (nZ h) in
      let height := nmul (nround (ndiv (nsqrt (ndiv area aspect)) (nZ 2))) (nZ 2) in
      let width := nmul (nround (ndiv (nmul height aspect) (nZ 2))) (nZ 2) in
      size_text width height
  end.

Definition plain_or_empty (v : jsval) : jsval := if plain_object v then v else JObj [].

(** [v && typeof v === "object" ? v.url : v] *)
Definition url_of (v : jsval) : jsval := if truthy v && is_object v then v~>"url" else v.

(** What the loop over the content collects. *)
Record content_parts : Type := { textParts : list jsstr; images : list jsstr; videoRefs : list jsstr }.
Definition no_parts : content_parts := {| textParts := []; images := []; videoRefs := [] |}.
Definition add_url (url : jsval) (l : list jsstr) : list jsstr := if nonempty_text (trimmed url) then l ++ [trimmed url] else l.

Definition read_content_item (item : jsval) (p : content_parts) : JS content_parts :=
  let role := trimmed item~>"role" in
  match (if equals item~>"type" "text" then item~>"text" else JUndefined) with
  | JStr text => Ok {| textParts := textParts p ++ [text]; images := images p; videoRefs := videoRefs p |}
  | _ =>
      if equals item~>"type" "image_url" || has_own item (js "image_url") then
        _ ← throw_if (nonempty_text role && negb (str_in role [js "first_frame"; js "reference_image"]))
              (js "image role " ++ js_text item~>"role" ++ js " is not supported by this upstream contract");
        Ok {| textParts := textParts p; images := add_url (url_of item~>"image_url") (images p); videoRefs := videoRefs p |}
      else if equals item~>"type" "video_url" || has_own item (js "video_url") then
        _ ← throw_if (nonempty_text role && is_not item~>"role" "reference_video") (js "unsupported video reference role");
        Ok {| textParts := textParts p; images := images p; videoRefs := add_url (url_of item~>"video_url") (videoRefs p) |}
      else throw (js "content type " ++ js_text (js_or item~>"type" (str "unknown"))
                  ++ js " is not supported by this upstream contract")
  end.

(** The images of the aliases of the video protocol. *)
Definition reference_candidate (reference : jsval) : JS (list jsstr) :=
  if is_nullish reference || strict_eq reference (JStr []) then Ok []
  else match reference with
       | JStr _ => Ok [trimmed reference]
       | JObj _ =>
           let url := url_of reference~>"image_url" in
           let url := if is_nullish url then reference~>"url" else url in
           _ ← throw_if (negb (nonempty_text (trimmed url)))
                 (js "input_reference must carry an image URL; file_id references are not supported by this upstream");
           Ok [trimmed url]
       | _ => throw (js "input_reference must be an image URL or an {image_url} object")
       end.

Definition videosReferenceImages (req : jsval) : JS (list jsstr) :=
  candidates ← reference_candidate req~>"input_reference";
  let single := match req~>"image" with JUndefined => [] | JArr items => items | image => [image] end in
  let listed := match req~>"images" with JArr items => items | _ => [] end in
  Ok (fold_left (λ l item, add_url item l) (single ++ listed) candidates).

Definition add_candidate (images : list jsstr) (candidate : jsstr) : list jsstr :=
  if nonempty_text candidate && negb (str_in candidate images) then images ++ [candidate] else images.

Record video_semantics : Type := {
  s_prompt : jsstr; s_images : list jsstr; s_videoRefs : list jsstr; s_duration : option num;
  s_resolution : jsstr; s_ratio : jsstr; s_generateAudio : jsval; s_watermark : jsval
}.

Definition semanticVideoRequest (req : jsval) : JS video_semantics :=
  let metadata := plain_or_empty req~>"metadata" in
  let content := match metadata~>"content" with JArr items => List.filter plain_object items | _ => [] end in
  parts ← rfold read_content_item content no_parts;
  let texts := List.filter nonempty_text (map trim (textParts parts)) in
  let prompt := trimmed req~>"prompt" in
  candidates ← videosReferenceImages req;
  duration ← videoDurationSeconds req metadata false;
  Ok {| s_prompt := if nonempty_text prompt then prompt else join [10%N] texts;
        s_images := fold_left add_candidate candidates (images parts); s_videoRefs := videoRefs parts;
        s_duration := duration; s_resolution := trimmed (js_or metadata~>"resolution" req~>"resolution");
        s_ratio := trimmed (js_or metadata~>"ratio" req~>"ratio");
        s_generateAudio := metadata~>"generate_audio"; s_watermark := metadata~>"watermark" |}.

Definition VIDEO_COMMON_FOREIGN_PARAMS : list jsstr :=
  [js "seed"; js "return_last_frame"; js "camera_fixed"; js "frames"; js "output_format"; js "service_tier";
   js "execution_expires_after"; js "safety_identifier"; js "tools"; js "callback_url"; js "draft"; js "priority"].

Definition rejectForeignVideoParams (req : jsval) (profile : VideosContract) : JS unit :=
  let metadata := plain_or_empty req~>"metadata" in
  let foreign := match profile with
                 | Standard => VIDEO_COMMON_FOREIGN_PARAMS ++ [js "generate_audio"; js "watermark"]
                 | _ => VIDEO_COMMON_FOREIGN_PARAMS
                 end in
  rfold (λ key _, throw_if (is_defined (get metadata key)) (key ++ js " is not supported by this upstream contract"))
    foreign tt.

Definition put_some {A} (v : option A) (f : A → jsval) (key : string) (o : obj) : obj :=
  match v with Some a => put o (js key) (f a) | None => o end.
Arguments put_some {A} v f key%_string o.
Definition put_text (t : jsstr) (v : jsval) (key : string) (o : obj) : obj := put_if (nonempty_text t) o (js key) v.
Arguments put_text t v key%_string o.

Definition seconds_text (n : num) : jsval := JStr (number_to_string n).
Definition video_reference (url : jsstr) : jsval :=
  JObj ["type" ↦ str "video_url"; "video_url" ↦ JObj ["url" ↦ JStr url]; "role" ↦ str "reference_video"].

(** The metadata of the vendor contracts. *)
Definition vendor_metadata (r : video_semantics) : obj :=
  let metadata := put_text (s_resolution r) (JStr (normalizeResolution (JStr (s_resolution r)))) "resolution" [] in
  let metadata := put_text (s_ratio r) (JStr (s_ratio r)) "ratio" metadata in
  let metadata := put_if (is_defined (s_generateAudio r)) metadata (js "generate_audio") (s_generateAudio r) in
  put_if (is_defined (s_watermark r)) metadata (js "watermark") (s_watermark r).

Definition put_images (r : video_semantics) (body : obj) : obj :=
  put_if (negb (bool_decide (s_images r = []))) body (js "images") (JArr (map JStr (s_images r))).

Definition standard_body (r : video_semantics) (body : obj) : JS obj :=
  _ ← throw_if (negb (bool_decide (s_videoRefs r = [])))
        (js "reference video input is not supported by the standard Videos contract");
  _ ← throw_if (1 <? length (s_images r)) (js "the standard Videos contract accepts one reference image");
  let body := put_text (s_resolution r)
                (JStr (pixelSizeFor (normalizeResolution (JStr (s_resolution r))) (JStr (s_ratio r)))) "size" body in
  let body := put_some (s_duration r) seconds_text "seconds" body in
  Ok (match s_images r with
      | [image] => put body (js "input_reference") (JObj ["image_url" ↦ JStr image])
      | _ => body
      end).

Definition codeyy_body (r : video_semantics) (body : obj) : JS obj :=
  _ ← throw_if (negb (bool_decide (s_videoRefs r = []))) (js "reference video input is not supported by this upstream");
  let metadata := put_some (s_duration r) JNum "duration" (vendor_metadata r) in
  Ok (put (put_images r body) (js "metadata") (JObj metadata)).

Definition zapgogo_body (r : video_semantics) (body : obj) : obj :=
  let body := put_some (s_duration r) seconds_text "seconds" body in
  let metadata := put_if (negb (bool_decide (s_videoRefs r = []))) (vendor_metadata r) (js "content")
                    (JArr (map video_reference (s_videoRefs r))) in
  put (put_images r body) (js "metadata") (JObj metadata).

Definition contract_body (profile : VideosContract) (r : video_semantics) (body : obj) : JS obj :=
  match profile with
  | Standard => standard_body r body
  | Codeyy => codeyy_body r body
  | Zapgogo => Ok (zapgogo_body r body)
  end.

Definition buildVideosSubmitRequest (ctx : jsval) (contract : VideosContract) : JS jsval :=
  req ← ctx~>!"requestBody";
  let req := or_object req in
  _ ← rejectForeignVideoParams req contract;
  request ← semanticVideoRequest req;
  _ ← throw_if (negb (nonempty_text (s_prompt request))) (js "prompt is required");
  profile ← videoProfile ctx;
  _ ← throw_if (nonempty_text (s_resolution request) && negb (recognized (to_lower_case (s_resolution request))))
        (js "resolution must be a supported tier or width x height pixels");
  _ ← videoResolution ctx;
  let model := trimmed (js_or ctx~>"upstreamModel" req~>"model") in
  _ ← throw_if (negb (nonempty_text model)) (js "model is required");
  let references := negb (bool_decide (s_videoRefs request = [])) in
  _ ← throw_if (references && negb (videoInput profile)) (js "reference video input is not supported by this upstream");
  body ← contract_body contract request ["model" ↦ JStr model; "prompt" ↦ JStr (s_prompt request)];
  root ← videosApiRoot ctx;
  Ok (JObj ["url" ↦ JStr (root ++ js "/videos"); "method" ↦ str "POST"; "headers" ↦ ark_headers ctx;
            "body" ↦ JObj body;
            "action" ↦ video_action (negb (bool_decide (s_images request = [])) || references);
            "rewriteModel" ↦ JStr model]).

(** ** Answers of a Videos interface *)

Definition videosToModelArkStatus (status : jsval) : jsstr :=
  let value := to_lower_case (trimmed status) in
  if str_in value [js "in_progress"; js "processing"; js "running"] then js "running"
  else if str_in value [js "completed"; js "succeeded"; js "success"] then js "succeeded"
  else if str_in value [js "failed"; js "failure"] then js "failed"
  else if str_in value [js "cancelled"; js "canceled"] then js "cancelled"
  else if jseq value (js "expired") then js "expired" else js "queued".

Definition isOpenAIVideosSnapshot (data : jsval) : bool :=
  plain_object data && jseq (to_lower_case (trimmed data~>"object")) (js "video").

Definition videosContentURL (data : jsval) : jsstr :=
  let metadata := plain_or_empty data~>"metadata" in
  default [] (List.find nonempty_text (map trimmed [metadata~>"url"; data~>"url"; data~>"video_url"])).

(** [/^https?:\/\/[^/\s@?#]+(?:[/?#]|$)/i.test(text)] *)
Definition host_char (c : N) : bool :=
  negb (is_space c) && negb (existsb (N.eqb c) (js "/@?#")).
Fixpoint skip_while (p : N → bool) (s : jsstr) : jsstr :=
  match s with
  | c :: rest => if p c then skip_while p rest else s
  | [] => []
  end.
(** [(?:[..]|$)] *)
Definition ends_at (stops : jsstr) (s : jsstr) : bool :=
  match s with [] => true | c :: _ => existsb (N.eqb c) stops end.
Definition public_host (rest : jsstr) : bool :=
  match rest with c :: _ => host_char c && ends_at (js "/?#") (skip_while host_char rest) | [] => false end.
Definition public_url (candidate : jsstr) : bool :=
  let low := map ascii_low candidate in
  match strip_prefix (js "http://") low with
  | Some _ => public_host (drop 7 candidate)
  | None => match strip_prefix (js "https://") low with
            | Some _ => public_host (drop 8 candidate)
            | None => false
            end
  end.

(** [/[\s\\]/.test(text)] *)
Definition has_blank (s : jsstr) : bool := existsb (λ c, is_space c || (c =? BACKSLASH)%N) s.

(** [/\/v1\/videos\/[^/?#]+\/content\/?(?:[?#]|$)/i.test(text)] *)
Definition segment_char (c : N) : bool := negb (existsb (N.eqb c) (js "/?#")).
Definition content_end (s : jsstr) : bool :=
  match strip_prefix (js "/content") s with
  | Some (47%N :: rest) => ends_at (js "?#") rest
  | Some rest => ends_at (js "?#") rest
  | None => false
  end.
Definition content_here (s : jsstr) : bool :=
  match strip_prefix (js "/v1/videos/") s with
  | Some (c :: rest) => segment_char c && content_end (skip_while segment_char rest)
  | _ => false
  end.
Fixpoint some_suffix (p : jsstr → bool) (s : jsstr) : bool :=
  p s || match s with _ :: rest => some_suffix p rest | [] => false end.
Definition content_endpoint (candidate : jsstr) : bool := some_suffix content_here (map ascii_low candidate).

Definition is_codeyy (u : Upstream) : bool := match u with OpenAIVideo Codeyy => true | _ => false end.
Definition deliverable (u : Upstream) (candidate : jsstr) : bool :=
  public_url candidate && negb (has_blank candidate) && negb (is_codeyy u && content_endpoint candidate).

Definition videosDeliverableURL (data : jsval) (u : Upstream) : jsstr :=
  let metadata := if truthy data~>"metadata" && is_object data~>"metadata" then data~>"metadata" else JObj [] in
  default [] (List.find (deliverable u) (map trimmed [metadata~>"url"; data~>"url"; data~>"video_url"])).

(** ** The ModelArk view of a task *)

(** The beginning of the reason of a task that timed out. *)
Definition TIMED_OUT : jsstr := [20219; 21153; 36229; 26102]%N.

Definition modelArkTaskStatus (task data : jsval) : jsstr :=
  let hostStatus := to_upper_case (trimmed task~>"status") in
  let reason := trimmed task~>"fail_reason" in
  if jseq hostStatus (js "SUCCESS") then js "succeeded"
  else if jseq hostStatus (js "FAILURE") then
    if jseq (to_lower_case reason) (js "cancelled") then js "cancelled"
    else if jseq (trimmed data~>"status") (js "expired") || jseq reason (js "expired") || starts_with TIMED_OUT reason
      then js "expired" else js "failed"
  else if negb (nonempty_text (trimmed data~>"status")) && jseq hostStatus (js "IN_PROGRESS") then js "running"
  else videosToModelArkStatus data~>"status".

Definition ended : list jsstr := [js "failed"; js "cancelled"; js "expired"].

(** [Math.floor(n)] of a positive finite [Number(v)] *)
Definition put_time (v : jsval) (key : string) (o : obj) : obj :=
  let n := to_number v in put_if (is_finite n && ngtb n NZERO) o (js key) (JNum (nfloor n)).
Arguments put_time v key%_string o.

Definition put_model (task : jsval) (o : obj) : obj := put_text (trimmed task~>"model") (JStr (trimmed task~>"model")) "model" o.

Definition view_error (task data : jsval) (status : jsstr) (o : obj) : obj :=
  let reason := trimmed task~>"fail_reason" in
  let error := data~>"error" in
  if truthy error && is_object error
  then put o (js "error") (JObj ["code" ↦ JStr (trimmed error~>"code"); "message" ↦ JStr (trimmed error~>"message")])
  else put_if (nonempty_text reason && str_in status ended) o (js "error")
         (JObj ["code" ↦ JStr status; "message" ↦ JStr reason]).

Definition view_usage (data : jsval) (o : obj) : obj :=
  let usage := plain_or_empty data~>"usage" in
  let completion := to_number usage~>"completion_tokens" in
  let total := to_number usage~>"total_tokens" in
  let positive (n : num) : bool := is_finite n && ngtb n NZERO in
  put_if (positive completion) o (js "usage")
    (JObj (put_if (positive total) ["completion_tokens" ↦ JNum completion] (js "total_tokens") (JNum total))).

Definition modelArkTaskFromVideos (task : jsval) : JS jsval :=
  data ← task~>!"data";
  let data := plain_or_empty data in
  let status := modelArkTaskStatus task data in
  let output := put_model task ["id" ↦ task~>"task_id"; "status" ↦ JStr status] in
  let output := put_time data~>"completed_at" "updated_at" (put_time data~>"created_at" "created_at" output) in
  output ← (if jseq status (js "succeeded") then
              upstream ← pinnedUpstreamOf task;
              let url := videosDeliverableURL data upstream in
              Ok (put_text url (JObj ["video_url" ↦ JStr url]) "content" output)
            else Ok output);
  Ok (JObj (view_usage data (view_error task data status output))).

Definition modelArkTask (task : jsval) : JS jsval :=
  upstream ← pinnedUpstreamOf task;
  match upstream with
  | OpenAIVideo _ => modelArkTaskFromVideos task
  | Ark =>
      data ← task~>!"data";
      let data := plain_or_empty data in
      let status := modelArkTaskStatus task data in
      let output := put (put (assign [] data) (js "id") task~>"task_id") (js "status") (JStr status) in
      let output := put_model task output in
      Ok (JObj (put_if (str_in status ended && negb (truthy (JObj output)~>"error") && truthy task~>"fail_reason")
        output (js "error") (JObj ["code" ↦ JStr status; "message" ↦ task~>"fail_reason"])))
  end.

(** ** Native routes *)

Definition native_taskCreated (ctx task : jsval) : JS jsval :=
  data ← task~>!"data";
  let data := plain_or_empty data in
  upstream ← pinnedUpstreamOf task;
  Ok (match upstream with
      | OpenAIVideo _ =>
          JObj (put_time data~>"created_at" "created_at"
            ["id" ↦ task~>"task_id"; "status" ↦ JStr (videosToModelArkStatus data~>"status")])
      | Ark => with_task_id data task
      end).

Definition native_taskStatus (ctx task : jsval) : JS jsval := modelArkTask task.

Definition native_taskList (ctx page : jsval) : JS jsval :=
  items ← rmap modelArkTask (match js_and page page~>"tasks" with JArr tasks => tasks | _ => [] end);
  total ← page~>!"total";
  Ok (JObj ["items" ↦ JArr items; "total" ↦ js_or (JNum (to_number total)) (int 0)]).

(** ** Hooks *)

(** The content of an Ark task: the images and the content of the metadata,
    with the prompt where no text is given. *)
Definition ark_content (req : jsval) (body : obj) : list jsval :=
  let images := match req~>"images" with JArr images => images | _ => [] end in
  let given := match (JObj body)~>"content" with JArr items => items | _ => [] end in
  List.filter truthy (map image_item images ++ given).
Definition has_reference (content : list jsval) : bool := existsb (λ item, is_not item~>"type" "text") content.
Definition has_text (content : list jsval) : bool := existsb (λ item, equals item~>"type" "text") content.
Definition with_prompt (req : jsval) (content : list jsval) : list jsval :=
  if negb (has_text content) && (nonempty_text (trimmed req~>"prompt") || negb (has_reference content))
  then content ++ [JObj ["type" ↦ str "text"; "text" ↦ js_or req~>"prompt" (JStr [])]] else content.

Definition local_ark_body (ctx req : jsval) : JS (obj * bool) :=
  let metadata := or_object req~>"metadata" in
  let body := assign ["model" ↦ js_or req~>"model" (JStr []); "content" ↦ JArr []] metadata in
  let content := ark_content req body in
  rewritten ← rewriteDraftTaskContent (with_prompt req content) ctx~>"originTasks";
  let body := put body (js "content") (JArr rewritten) in
  duration ← videoDurationSeconds req metadata true;
  let body := put_some duration JNum "duration" body in
  Ok (put body (js "model") (js_or ctx~>"upstreamModel" (JObj body)~>"model"), has_reference content).

Definition buildSubmitRequest (ctx : jsval) : JS jsval :=
  if imageTask ctx then PluginDoubao.buildSubmitRequest ctx
  else
    upstream ← videoUpstream ctx;
    match upstream with
    | OpenAIVideo contract => buildVideosSubmitRequest ctx contract
    | Ark =>
        req ← ctx~>!"requestBody";
        _ ← req~>!"metadata";
        _ ← videoResolution ctx;
        '(body, hasReference) ← local_ark_body ctx req;
        root ← apiRoot ctx;
        Ok (JObj ["url" ↦ JStr (root ++ js "/api/v3/contents/generations/tasks"); "method" ↦ str "POST";
                  "headers" ↦ ark_headers ctx; "body" ↦ JObj body; "action" ↦ video_action hasReference;
                  "rewriteModel" ↦ (JObj body)~>"model"])
    end.

(** The state that pins the protocol on the task. *)
Definition submit_state (ctx : jsval) (u : Upstream) : JS jsval :=
  req ← ctx~>!"requestBody";
  let tier := (or_object (or_object req)~>"metadata")~>"service_tier" in
  Ok (JObj ["video_upstream" ↦ upstream_value u; "service_tier" ↦ js_or tier (str "default")]).

Definition videos_submitted (body state : jsval) : JS jsval :=
  _ ← throw_if (negb (plain_object body)) (js "invalid video task response");
  let error := body~>"error" in
  _ ← throw_if (truthy error && is_object error)
        (text_or (trimmed error~>"code") "upstream_error" ++ js ": "
         ++ text_or (trimmed error~>"message") "video generation failed");
  let taskId := trimmed body~>"id" in
  _ ← throw_if (negb (nonempty_text taskId)) (js "task_id is empty");
  Ok (JObj ["taskId" ↦ JStr taskId; "taskData" ↦ body; "state" ↦ state]).

Definition parseSubmitResponse (ctx resp : jsval) : JS jsval :=
  if imageTask ctx then body ← resp~>!"body"; image_submitted ctx body
  else
    upstream ← videoUpstream ctx;
    state ← submit_state ctx upstream;
    body ← resp~>!"body";
    match upstream with
    | OpenAIVideo _ => videos_submitted body state
    | Ark =>
        _ ← throw_if (negb (truthy body) || negb (truthy body~>"id")) (js "task_id is empty");
        Ok (JObj ["taskId" ↦ body~>"id"; "taskData" ↦ body; "state" ↦ state])
    end.

Definition default_seconds (ctx : jsval) : num :=
  let model := js_text (js_or (js_or ctx~>"upstreamModel" ctx~>"model") (JStr [])) in
  if includes (js "seedance-2-5") model || includes (js "seedance-2.5") model then nZ 30 else nZ 15.

Definition local_seconds (ctx req metadata : jsval) : num :=
  let seconds := to_number (js_or (js_or (js_or req~>"seconds" req~>"duration") metadata~>"duration") (int 0)) in
  let frames := to_number metadata~>"frames" in
  let seconds := if negb (is_finite seconds) || nleb seconds NZERO
                 then if is_finite frames && ngtb frames NZERO then nfloor (ndiv frames (nZ 24)) else default_seconds ctx
                 else seconds in
  let seconds := if nleb seconds NZERO then nZ 5 else seconds in
  nmin seconds (nZ 3600).

Definition extractUsage (ctx : jsval) : JS (option obj) :=
  if imageTask ctx then PluginDoubao.extractUsage ctx
  else
    req ← ctx~>!"requestBody";
    let req := or_object req in
    let metadata := or_object req~>"metadata" in
    if equals ctx~>"usagePurpose" "billing_ratios" then
      upstream ← resolvedVideoUpstream ctx;
      match upstream with
      | OpenAIVideo _ => Ok None
      | Ark =>
          let ratio := videoInputRatio (js_or ctx~>"upstreamModel" ctx~>"model") metadata~>"resolution" metadata~>"content" in
          Ok (if neqb ratio (nZ 1) then None else Some ["video_input_ratio" ↦ JNum ratio])
      end
    else
      profile ← videoProfile ctx;
      resolution ← videoResolution ctx;
      Ok (Some (video_facts profile (local_seconds ctx req metadata) resolution metadata)).

Definition query_headers (ctx : jsval) : jsval :=
  JObj ["Accept" ↦ str "application/json"; "Content-Type" ↦ str "application/json";
        "Authorization" ↦ JStr (js "Bearer " ++ js_text ctx~>"apiKey")].

Definition ark_task_request (ctx : jsval) (method : string) : JS jsval :=
  root ← apiRoot ctx;
  id ← encodeURIComponent (js_text ctx~>"taskId");
  Ok (JObj ["url" ↦ JStr (root ++ js "/api/v3/contents/generations/tasks/" ++ id); "method" ↦ str method;
            "headers" ↦ query_headers ctx]).
Arguments ark_task_request ctx method%_string.

Definition buildQueryRequest (ctx : jsval) : JS jsval :=
  upstream ← resolvedVideoUpstream ctx;
  match upstream with
  | OpenAIVideo _ =>
      root ← videosApiRoot ctx;
      id ← encodeURIComponent (js_text ctx~>"taskId");
      Ok (JObj ["url" ↦ JStr (root ++ js "/videos/" ++ id); "method" ↦ str "GET"; "headers" ↦ query_headers ctx])
  | Ark => ark_task_request ctx "GET"
  end.

Definition buildDeleteRequest (ctx : jsval) : JS jsval :=
  upstream ← resolvedVideoUpstream ctx;
  match upstream with
  | OpenAIVideo _ => throw (js "the pinned upstream contract does not support cancelling or deleting tasks")
  | Ark => ark_task_request ctx "DELETE"
  end.

(** A count a provider measured. *)
Definition measuredVideoTokens (value : jsval) : num :=
  let tokens := to_number value in
  match value with
  | JNum _ => if is_safe_integer tokens && ngtb tokens NZERO then tokens else NZERO
  | JStr (c :: s) => if forallb is_digit (c :: s) && is_safe_integer tokens && ngtb tokens NZERO then tokens else NZERO
  | _ => NZERO
  end.

Definition video_usage (body : jsval) : jsval := plain_or_empty body~>"usage".

Definition failed_result (reason : jsval) : jsval :=
  JObj ["status" ↦ str "FAILURE"; "progress" ↦ str "100%"; "reason" ↦ reason].

Definition delivery_state (body : jsval) (u : Upstream) (url : jsstr) : obj :=
  ["video_upstream" ↦ upstream_value u;
   "delivery" ↦
     if nonempty_text url then JObj ["status" ↦ str "available"]
     else JObj ["status" ↦ str "unavailable";
                "code" ↦ if nonempty_text (videosContentURL body) then str "upstream_url_requires_access_contract"
                         else str "upstream_url_missing"]].

(** A completed Videos task; [state] is that of the task so far. *)
Definition completed_result (body : jsval) (u : Upstream) (state : jsval) : jsval :=
  let url := videosDeliverableURL body u in
  let completion := measuredVideoTokens (video_usage body)~>"completion_tokens" in
  let total := measuredVideoTokens (video_usage body)~>"total_tokens" in
  let result := put_text url (JStr url) "url" ["status" ↦ str "SUCCESS"; "progress" ↦ str "100%"] in
  let result := put result (js "state") (JObj (assign (assign [] (or_object state)) (JObj (delivery_state body u url)))) in
  let result := put_if (ngtb completion NZERO) result (js "completionTokens") (JNum completion) in
  JObj (put_if (ngtb total NZERO) result (js "totalTokens") (JNum total)).

Definition parseVideosTaskResult (body : jsval) (u : Upstream) (state : jsval) : jsval :=
  if negb (plain_object body)
  then JObj ["status" ↦ str "UNKNOWN"; "reason" ↦ str "unrecognized video task response"]
  else
    let status := to_lower_case (trimmed body~>"status") in
    if str_in status [js "queued"; js "pending"] then JObj ["status" ↦ str "QUEUED"; "progress" ↦ str "10%"]
    else if str_in status [js "in_progress"; js "processing"; js "running"] then
      JObj ["status" ↦ str "IN_PROGRESS"; "progress" ↦ str "50%"]
    else if str_in status [js "completed"; js "succeeded"; js "success"] then completed_result body u state
    else if str_in status [js "failed"; js "failure"] then
      let error := body~>"error" in
      failed_result (if truthy error && truthy error~>"message" then error~>"message" else JStr status)
    else if str_in status [js "cancelled"; js "canceled"] then failed_result (str "cancelled")
    else if jseq status (js "expired") then failed_result (str "expired")
    else JObj ["status" ↦ str "UNKNOWN";
               "reason" ↦ JStr (js "unrecognized status: " ++ js_text (js_or body~>"status" (JStr [])))].

Definition parseTaskResult (ctx body : jsval) : JS jsval :=
  upstream ← resolvedVideoUpstream ctx;
  match upstream with
  | OpenAIVideo _ => Ok (parseVideosTaskResult body upstream ctx~>"state")
  | Ark => PluginDoubao.parseTaskResult ctx body
  end.

Definition listArtifacts (task : jsval) : JS jsval :=
  status ← task~>!"status";
  let data := artifactData task in
  Ok (JArr (if is_not status "SUCCESS" then []
            else if imageTask task || is_array data~>"data" then imap image_artifact (imageURLEntries data)
            else if isOpenAIVideosSnapshot data
            then if nonempty_text (videosContentURL data) then [video_artifact] else []
            else content_artifacts (or_object data~>"content"))).

Definition buildContentRequest (ctx : jsval) : JS jsval :=
  let data := artifactData ctx in
  if isOpenAIVideosSnapshot data then
    let url := videosContentURL data in
    if nonempty_text url then
      method ← (ctx~>"clientRequest")~>!"method";
      Ok (JObj ["url" ↦ JStr url; "method" ↦ method;
                "headers" ↦ JObj ["Authorization" ↦ JStr (js "Bearer " ++ js_text ctx~>"apiKey")]])
    else artifact_not_found
  else PluginDoubao.buildContentRequest ctx.

(** ** Completion *)

Definition put_resolution (task resolution : jsval) (facts : obj) : JS obj :=
  let resolution := to_lower_case (trimmed resolution) in
  profile ← videoProfile task;
  Ok (put_if (str_in resolution (resolutions profile)) facts (js "resolution") (JStr resolution)).

Definition arkCompletionFacts (task body : jsval) : JS obj :=
  if negb (truthy body) || is_not body~>"status" "succeeded" then Ok []
  else
    let usage := if truthy body~>"usage" && is_object body~>"usage" then body~>"usage" else JObj [] in
    let tokens := measuredVideoTokens (if is_undefined usage~>"completion_tokens" then usage~>"total_tokens"
                                       else usage~>"completion_tokens") in
    let facts := if ngtb tokens NZERO then ["tokens" ↦ JNum tokens; "usage_pending" ↦ JBool false]
                 else ["usage_pending" ↦ JBool true] in
    put_resolution task (js_or (or_object body~>"content")~>"resolution" body~>"resolution") facts.

Definition videosCompletionFacts (task body : jsval) : JS obj :=
  if negb (plain_object body) then Ok []
  else if negb (str_in (to_lower_case (trimmed body~>"status")) [js "completed"; js "succeeded"; js "success"]) then Ok []
  else
    let tokens := measuredVideoTokens (video_usage body)~>"completion_tokens" in
    if ngtb tokens NZERO then
      put_resolution task (js_or body~>"resolution" (or_object body~>"metadata")~>"resolution")
        ["tokens" ↦ JNum tokens; "usage_pending" ↦ JBool false]
    else Ok ["usage_pending" ↦ JBool true].

Definition extractUsageOnComplete (task taskResult body : jsval) : JS obj :=
  if imageTask task then imageUsage (or_object body)
  else
    upstream ← resolvedVideoUpstream task;
    match upstream with
    | OpenAIVideo _ => videosCompletionFacts task body
    | Ark => arkCompletionFacts task body
    end.

(** ** The Responses protocol *)

Definition renderEvents (ctx task previousState : jsval) : JS jsval :=
  render_events (responsesOutputText ctx task) task previousState.
Definition renderFinal (ctx task : jsval) : JS jsval :=
  render_final (responsesOutputText ctx task) ["vendor" ↦ str "doubao"].

(** ** Extensions *)

(** [seedance_video_storage.js]: a stored video is shown under the address of
    the store. *)
Definition projectSeedanceStoredVideo (task output : jsval) : jsval :=
  let storage := js_and (js_and task task~>"state") (task~>"state")~>"seedance_storage" in
  if negb (truthy storage) then output
  else
    let content := remove (assign [] (or_object output~>"content")) (js "video_url") in
    let content := put_if (equals task~>"status" "SUCCESS" && truthy storage~>"video_url") content
                     (js "video_url") storage~>"video_url" in
    JObj (put (assign [] output) (js "content") (JObj content)).

Definition stored_taskStatus (ctx task : jsval) : JS jsval :=
  output ← native_taskStatus ctx task; Ok (projectSeedanceStoredVideo task output).

Definition stored_taskList (ctx page : jsval) : JS jsval :=
  result ← native_taskList ctx page;
  tasks ← page~>!"tasks";
  items ← array_items result~>"items";
  projected ← rmap (λ '(index, item), task ← dot tasks (nat_text index); Ok (projectSeedanceStoredVideo task item))
                (imap pair items);
  Ok (JObj ["items" ↦ JArr projected; "total" ↦ result~>"total"]).

(** [seedance_enhance.js]: the models that are enhanced, and what they are
    billed for. *)
Definition seedanceEnhanceBaseModels : list jsstr :=
  [js "doubao-seedance-2-0-260128"; js "doubao-seedance-2-0-fast-260128"; js "doubao-seedance-2-0-mini-260615";
   js "doubao-seedance-2-5-260628"].
Definition seedanceEnhanceModels : list jsstr := map (λ name, name ++ js "-enhance") seedanceEnhanceBaseModels.
Definition seedanceEnhanceSchema : BillingUsageSchema :=
  ["seconds" ↦ number_field "second"; "output_resolution" ↦ enum_field [js "1080p"; js "2k"];
   "fps_tier" ↦ enum_field [js "le30"; js "le60"; js "le120"]; "video_input" ↦ enum_field [js "none"; js "video"]].
Definition enhance_examples : list obj :=
  [["seconds" ↦ int 10; "output_resolution" ↦ str "1080p"; "fps_tier" ↦ str "le30"; "video_input" ↦ str "none"];
   ["seconds" ↦ JNum (decimal 102); "output_resolution" ↦ str "2k"; "fps_tier" ↦ str "le30"; "video_input" ↦ str "none"]].

Record plugin_meta : Type := {
  m_models : list jsstr; m_profiles : list usage_profile; m_protocols : list (jsstr * list jsstr)
}.
Definition extendSeedanceEnhanceMetadata (meta : plugin_meta) : plugin_meta :=
  {| m_models := m_models meta ++ seedanceEnhanceModels;
     m_profiles := m_profiles meta ++ [{| profile_shape := []; models := seedanceEnhanceModels;
                                          schema := seedanceEnhanceSchema; examples := enhance_examples |}];
     m_protocols := map (λ claim, (claim.1, if jseq claim.1 (js "openai_video") then claim.2 ++ seedanceEnhanceModels
                                            else claim.2)) (m_protocols meta) |}.
End local.
