(* ===== verification/AlibabaImages.v ===== *)
(** * Models and images of the Alibaba plugin

    Models the first part of [src/plugins/tasks/alibaba/plugin.js]: the tables
    of the Wan, Qwen-Image and Z-Image models, the conversion of an image
    request into the body that is sent ([convertImage]), with the checks of
    the limits of each model, and the images of an answer. *)
From stdpp Require Import base list option numbers sets.
From Stdlib Require Import ZArith SpecFloat Lia.
From S2P Require Import Prelude.
From S2P Require Import JsString.
From S2P Require Import JsNumber.
From S2P Require Import Syntax.
From S2P Require Import Runtime.
From S2P Require Import Display.
From S2P Require Import Json.
From S2P Require Import JsText.
From S2P Require Import JsonPrint.
From S2P Require Import AdvancedCustom.
From S2P Require Import JsDynamic.
From S2P Require Import PluginCommon.

(** [a ?? b] *)
Definition nullish (a b : jsval) : jsval := if is_nullish a then b else a.

(** ** Video models *)

Inductive wan_kind : Type := Wan_all | Wan_t2v | Wan_media | Wan_size | Wan_image | Wan_frames | Wan_speech.
#[export] Instance wan_kind_eq : EqDecision wan_kind.
Proof. solve_decision. Defined.

(** [durations], [maxDuration], or neither: the audio decides. *)
Inductive wan_durations : Type := Listed (durations : list Z) | Through (maxDuration : Z) | AudioDecides.

Record WanProfile : Type := {
  kind : wan_kind; resolutions : list jsstr; defaultResolution : jsstr; durations : wan_durations
}.

Definition FROM_480P : list jsstr := [js "480P"; js "720P"; js "1080P"].
Definition FROM_720P : list jsstr := [js "720P"; js "1080P"].
Definition wan (k : wan_kind) (rs : list jsstr) (d : string) (ds : wan_durations) : WanProfile :=
  {| kind := k; resolutions := rs; defaultResolution := js d; durations := ds |}.
Arguments wan k rs d%_string ds.

Definition WAN_MODELS : list (jsstr * WanProfile) :=
  ["wan3.0-video" ↦ wan Wan_all FROM_480P "1080P" (Through 30);
   "wan3.0-video-prime" ↦ wan Wan_all FROM_480P "1080P" (Through 30);
   "wan2.7-t2v" ↦ wan Wan_t2v FROM_720P "1080P" (Through 15);
   "wan2.7-i2v" ↦ wan Wan_media FROM_720P "1080P" (Through 15);
   "wan2.6-t2v" ↦ wan Wan_size FROM_720P "1080P" (Through 15);
   "wan2.6-t2v-us" ↦ wan Wan_size FROM_720P "1080P" (Listed [5; 10; 15]%Z);
   "wan2.6-i2v" ↦ wan Wan_image FROM_720P "1080P" (Through 15);
   "wan2.6-i2v-flash" ↦ wan Wan_image FROM_720P "1080P" (Through 15);
   "wan2.6-i2v-us" ↦ wan Wan_image FROM_720P "1080P" (Listed [5; 10; 15]%Z);
   "wan2.5-t2v-preview" ↦ wan Wan_size FROM_480P "1080P" (Listed [5; 10]%Z);
   "wan2.5-i2v-preview" ↦ wan Wan_image FROM_480P "1080P" (Listed [5; 10]%Z);
   "wan2.2-t2v-plus" ↦ wan Wan_size [js "480P"; js "1080P"] "1080P" (Listed [5]%Z);
   "wan2.2-i2v-flash" ↦ wan Wan_image FROM_480P "720P" (Listed [5]%Z);
   "wan2.2-i2v-plus" ↦ wan Wan_image [js "480P"; js "1080P"] "1080P" (Listed [5]%Z);
   "wan2.2-kf2v-flash" ↦ wan Wan_frames FROM_480P "720P" (Listed [5]%Z);
   "wan2.2-s2v" ↦ wan Wan_speech [js "480P"; js "720P"] "480P" AudioDecides;
   "wanx2.1-t2v-plus" ↦ wan Wan_size [js "720P"] "720P" (Listed [5]%Z);
   "wanx2.1-t2v-turbo" ↦ wan Wan_size [js "480P"; js "720P"] "720P" (Listed [5]%Z);
   "wanx2.1-i2v-plus" ↦ wan Wan_image [js "720P"] "720P" (Listed [5]%Z);
   "wanx2.1-i2v-turbo" ↦ wan Wan_image [js "480P"; js "720P"] "720P" (Listed [3; 4; 5]%Z)].

(** ** Image models *)

Inductive image_kind : Type := image27 | image26 | t2i | legacy | legacy_edit | legacy_imageedit | qwen.
#[export] Instance image_kind_eq : EqDecision image_kind.
Proof. solve_decision. Defined.

Definition IMAGE_MODELS : list (jsstr * image_kind) :=
  ["wan2.7-image-pro" ↦ image27; "wan2.7-image" ↦ image27; "wan2.6-image" ↦ image26; "wan2.6-t2i" ↦ t2i;
   "wan2.5-t2i-preview" ↦ legacy; "wan2.2-t2i-flash" ↦ legacy; "wan2.2-t2i-plus" ↦ legacy;
   "wanx2.1-t2i-turbo" ↦ legacy; "wanx2.1-t2i-plus" ↦ legacy; "wanx2.0-t2i-turbo" ↦ legacy;
   "wan2.5-i2i-preview" ↦ legacy_edit; "wanx2.1-imageedit" ↦ legacy_imageedit;
   "qwen-image" ↦ qwen; "qwen-image-plus" ↦ qwen; "qwen-image-max" ↦ qwen; "qwen-image-2.0" ↦ qwen;
   "qwen-image-2.0-pro" ↦ qwen; "qwen-image-3.0" ↦ qwen; "qwen-image-3.0-pro" ↦ qwen; "qwen-image-edit" ↦ qwen;
   "qwen-image-edit-plus" ↦ qwen; "qwen-image-edit-max" ↦ qwen; "z-image-turbo" ↦ qwen].

Definition IMAGE_EDIT_FUNCTIONS : list jsstr :=
  [js "stylization_all"; js "stylization_local"; js "description_edit"; js "description_edit_with_mask";
   js "remove_watermark"; js "expand"; js "super_resolution"; js "colorization"; js "doodle";
   js "control_cartoon_feature"].
Definition IMAGE_EDIT_FUNCTION_PARAMETERS : list jsstr :=
  [js "strength"; js "top_scale"; js "bottom_scale"; js "left_scale"; js "right_scale"; js "upscale_factor";
   js "is_sketch"].

(** [minInput] is 0 where the table has none. *)
Record QwenLimits : Type := { maxN : Z; maxInput : nat; minInput : nat }.
Definition qwen_limits (n : Z) (most least : nat) : QwenLimits := {| maxN := n; maxInput := most; minInput := least |}.

Definition QWEN_IMAGE_LIMITS : list (jsstr * QwenLimits) :=
  ["qwen-image" ↦ qwen_limits 1 0 0; "qwen-image-plus" ↦ qwen_limits 1 0 0; "qwen-image-max" ↦ qwen_limits 1 0 0;
   "qwen-image-2.0" ↦ qwen_limits 6 3 0; "qwen-image-2.0-pro" ↦ qwen_limits 6 3 0;
   "qwen-image-3.0" ↦ qwen_limits 6 3 0; "qwen-image-3.0-pro" ↦ qwen_limits 6 3 0;
   "qwen-image-edit" ↦ qwen_limits 1 3 1; "qwen-image-edit-plus" ↦ qwen_limits 6 3 1;
   "qwen-image-edit-max" ↦ qwen_limits 6 3 1; "z-image-turbo" ↦ qwen_limits 1 0 0].

Definition IMAGE_MODEL_SNAPSHOTS : list jsstr :=
  [js "qwen-image-plus-2026-01-09"; js "qwen-image-max-2025-12-30"; js "qwen-image-2.0-2026-03-03";
   js "qwen-image-2.0-pro-2026-03-03"; js "qwen-image-2.0-pro-2026-04-22"; js "qwen-image-2.0-pro-2026-06-22";
   js "qwen-image-edit-plus-2025-10-30"; js "qwen-image-edit-plus-2025-12-15"; js "qwen-image-edit-max-2026-01-16"].
Definition QWEN_IMAGE3_MODELS : list jsstr := [js "qwen-image-3.0"; js "qwen-image-3.0-pro"].
Definition Z_IMAGE_MODELS : list jsstr := [js "z-image-turbo"].
Definition QWEN_IMAGE3_TIER_MAX_PIXELS : Z := 2250000.
Definition MAX_IMAGE_OUTPUTS : nat := 12.
Definition Z_IMAGE_PROMPT_EXTEND_RATIO : Z := 2.
Definition MAX_INPUT_IMAGE_BYTES : Z := 10485760.

(** ** Usage schemas *)

Definition IMAGE_COUNT_FIELD : BillingUsageFieldSchema := number_field "count".
Definition WAN_IMAGE_USAGE_SCHEMA : BillingUsageSchema := ["image_count" ↦ IMAGE_COUNT_FIELD].
Definition Z_IMAGE_USAGE_SCHEMA : BillingUsageSchema :=
  ["image_count" ↦ IMAGE_COUNT_FIELD; "prompt_extend" ↦ boolean_field].
Definition OUTPUT_IMAGE_TYPES : list jsstr := [js "qima_output_1k"; js "qima_output_2k"].
Definition QWEN_IMAGE3_USAGE_SCHEMA : BillingUsageSchema :=
  ["image_count" ↦ IMAGE_COUNT_FIELD; "output_image_type" ↦ enum_field OUTPUT_IMAGE_TYPES;
   "input_image_count" ↦ number_field "count"].

Definition wanVideoUsageSchema (rs : list jsstr) (audio : bool) : BillingUsageSchema :=
  ["seconds" ↦ number_field "second"; "resolution" ↦ enum_field rs]
  ++ (if audio then ["audio" ↦ boolean_field] else []).

Definition WAN_AUDIO_VIDEO_MODELS : list jsstr := [js "wan2.6-i2v-flash"].
Definition WAN_VIDEO_SNAPSHOTS : list jsstr :=
  [js "wan2.7-t2v-2026-04-25"; js "wan2.7-t2v-2026-06-12"; js "wan2.7-i2v-2026-04-25"].
Definition WAN_VIDEO_RESOLUTIONS : list jsstr := FROM_480P.

(** ** Names of models *)

(** [text.replace(/-\d{4}-\d{2}-\d{2}$/, "")] *)
Definition date_suffix (s : jsstr) : bool :=
  match s with
  | [a; y1; y2; y3; y4; b; m1; m2; c; d1; d2] =>
      forallb (N.eqb (cu "-")) [a; b; c] && forallb is_digit [y1; y2; y3; y4; m1; m2; d1; d2]
  | _ => false
  end.
Definition without_date (s : jsstr) : jsstr :=
  let k := length s - 11 in if date_suffix (drop k s) then take k s else s.

Definition modelKey (model : jsval) : jsstr :=
  let name := without_date (js_text (js_or model (JStr []))) in
  match strip_prefix (js "wan2.1-") name with Some rest => js "wanx2.1-" ++ rest | None => name end.

Definition modelProfile (model : jsval) : JS WanProfile :=
  match entry_of WAN_MODELS (modelKey model) with
  | Some profile => Ok profile
  | None => throw (js "unsupported Wan model: " ++ js_text model)
  end.

(** One usage profile per set of resolutions and audio option; every model of
    the loop is one of the table. *)
Record usage_profile : Type := { profile_shape : jsstr; models : list jsstr; schema : BillingUsageSchema }.
Definition shape (rs : list jsstr) (audio : bool) : jsstr :=
  join (js "/") rs ++ (if audio then js "+audio" else []).
Fixpoint add_model (profiles : list usage_profile) (model : jsstr) (rs : list jsstr) (audio : bool) : list usage_profile :=
  match profiles with
  | [] => [{| profile_shape := shape rs audio; models := [model]; schema := wanVideoUsageSchema rs audio |}]
  | p :: profiles =>
      if jseq (profile_shape p) (shape rs audio)
      then {| profile_shape := profile_shape p; models := models p ++ [model]; schema := schema p |} :: profiles
      else p :: add_model profiles model rs audio
  end.
Definition wanVideoUsageProfiles : list usage_profile :=
  fold_left (λ profiles model,
    let key := modelKey (JStr model) in
    match entry_of WAN_MODELS key with
    | Some profile => add_model profiles model (resolutions profile) (str_in key WAN_AUDIO_VIDEO_MODELS)
    | None => profiles
    end) (WAN_MODELS.*1 ++ WAN_VIDEO_SNAPSHOTS) [].

(** The model of an image task; [imageModel] reads the context first, so that
    the two predicates after it do not fail. *)
Definition image_name (ctx : jsval) : jsstr :=
  modelKey (js_or (js_or ctx~>"upstreamModel" ctx~>"model") (or_object ctx~>"requestBody")~>"model").
Definition imageModel (ctx : jsval) : JS (option image_kind) :=
  _ ← ctx~>!"upstreamModel";
  Ok (entry_of IMAGE_MODELS (image_name ctx)).
Definition qwenImage3 (ctx : jsval) : bool := str_in (image_name ctx) QWEN_IMAGE3_MODELS.
Definition zImage (ctx : jsval) : bool := str_in (image_name ctx) Z_IMAGE_MODELS.

(** ** Helpers *)

Definition trimmed (value : jsval) : jsstr := trimmed_text value.

Definition viaNewAPI (ctx : jsval) : bool :=
  let upstream := ctx~>"upstream" in truthy upstream && equals upstream~>"kind" "new_api".
Definition apiRoot (ctx : jsval) : JS jsstr :=
  base ← ctx~>!"baseUrl";
  Ok (js_text base ++ (if viaNewAPI ctx then js "/ali" else [])).

(** The images listed by a request that are not blank. *)
Definition present_images (req : jsval) : JS (list jsstr) :=
  images ← iterate (or_array req~>"images");
  Ok (List.filter nonempty_text (map trimmed images)).
Definition firstImage (req : jsval) : JS jsstr :=
  if nonempty_text (trimmed req~>"image") then Ok (trimmed req~>"image")
  else
    images ← present_images req;
    Ok (match images with image :: _ => image | [] => trimmed req~>"input_reference" end).
Definition secondImage (req : jsval) : JS jsstr :=
  images ← present_images req;
  Ok (match images with _ :: image :: _ => image | _ => [] end).

Definition LEGACY_SIZES : list (jsstr * list (jsstr * jsstr)) :=
  ["480P" ↦ ["16:9" ↦ js "832*480"; "9:16" ↦ js "480*832"; "1:1" ↦ js "624*624"];
   "720P" ↦ ["16:9" ↦ js "1280*720"; "9:16" ↦ js "720*1280"; "1:1" ↦ js "960*960"; "4:3" ↦ js "1088*832";
             "3:4" ↦ js "832*1088"];
   "1080P" ↦ ["16:9" ↦ js "1920*1080"; "9:16" ↦ js "1080*1920"; "1:1" ↦ js "1440*1440"; "4:3" ↦ js "1632*1248";
              "3:4" ↦ js "1248*1632"]].
Definition MODERN_SIZES : list (jsstr * list (jsstr * jsstr)) :=
  ["720P" ↦ ["16:9" ↦ js "1280*720"; "9:16" ↦ js "720*1280"; "1:1" ↦ js "960*960"; "4:3" ↦ js "1104*832";
             "3:4" ↦ js "832*1104"];
   "1080P" ↦ ["16:9" ↦ js "1920*1080"; "9:16" ↦ js "1080*1920"; "1:1" ↦ js "1440*1440"; "4:3" ↦ js "1648*1248";
              "3:4" ↦ js "1248*1648"]].

Definition isFileRef (value : jsval) : bool := plain_object value && is_text value~>"__fileRef".

(** [/^(https?:\/\/|data:image\/)/i.test(value)] *)
Definition isImageInput (value : jsval) : bool :=
  isFileRef value ||
  match value with
  | JStr s => existsb (λ p, starts_with p (map ascii_low s)) [js "http://"; js "https://"; js "data:image/"]
  | _ => false
  end.

Record size_dims : Type := { width : num; height : num; pixels : num }.

(** [/^(\d+)\*(\d+)$/.exec(size)] *)
Definition match_size (s : jsstr) : option (jsstr * jsstr) :=
  match span_digits s with
  | (a :: w, 42%N :: rest) =>
      match span_digits rest with (b :: h, []) => Some (a :: w, b :: h) | _ => None end
  | _ => None
  end.
Definition sizePixels (size : jsstr) : option size_dims :=
  '(w, h) ← match_size size;
  let width := number_of_string w in
  let height := number_of_string h in
  if negb (is_safe_integer width) || negb (is_safe_integer height) || nleb width NZERO || nleb height NZERO then None
  else Some {| width := width; height := height; pixels := nmul width height |}.

(** [text.replace(/x/i, "*")] *)
Fixpoint star_size (s : jsstr) : jsstr :=
  match s with
  | [] => []
  | c :: s => if (c =? cu "x")%N || (c =? cu "X")%N then cu "*" :: s else c :: star_size s
  end.

Definition objectValue (value : jsval) (name : string) : JS jsval :=
  if is_nullish value then Ok (JObj [])
  else if negb (plain_object value) then throw (js name ++ js " must be an object") else Ok value.
Arguments objectValue value name%_string.

(** [for (const key of keys) if (req[key] !== undefined) body[key] = req[key];] *)
Definition copy_defined (req : jsval) (keys : list jsstr) (body : obj) : obj :=
  fold_left (λ body key, put_if (is_defined (get req key)) body key (get req key)) keys body.

Definition check_boolean (parameters : obj) (key : jsstr) (u : unit) : JS unit :=
  throw_if (is_defined (get (JObj parameters) key)
            && negb (match get (JObj parameters) key with JBool _ => true | _ => false end))
    (key ++ js " must be a boolean").

(** ** Image requests *)

Definition IMAGE_PARAMETERS : list jsstr :=
  [js "n"; js "size"; js "negative_prompt"; js "prompt_extend"; js "prompt_extend_mode"; js "enable_thinking";
   js "watermark"; js "seed"; js "enable_interleave"; js "max_images"; js "enable_sequential"; js "thinking_mode";
   js "bbox_list"; js "color_palette"].
Definition IMAGE_FLAGS : list jsstr :=
  [js "prompt_extend"; js "enable_thinking"; js "watermark"; js "enable_interleave"; js "enable_sequential";
   js "thinking_mode"; js "stream"].

Definition legacyProfile (profile : image_kind) : bool :=
  match profile with legacy | legacy_edit | legacy_imageedit => true | _ => false end.
Definition is_kind (profile k : image_kind) : bool := bool_decide (profile = k).

(** [mode === "sync"]; every other mode is [async] then. *)
Definition synchronous_mode (profile : image_kind) (metadata : jsval) : JS bool :=
  let mode := nullish metadata~>"upstream_mode" (str (if is_kind profile qwen then "sync" else "async")) in
  _ ← throw_if (is_not mode "sync" && is_not mode "async") (js "upstream_mode must be sync or async");
  _ ← throw_if (legacyProfile profile && equals mode "sync")
        (js "this image model only supports asynchronous HTTP calls");
  _ ← throw_if (is_kind profile qwen && equals mode "async")
        (js "this image model only supports synchronous HTTP calls");
  Ok (equals mode "sync").

Definition image_parameters (profile : image_kind) (req metadata : jsval) : JS obj :=
  let parameters := copy_defined req IMAGE_PARAMETERS [] in
  let parameters := if is_kind profile legacy_imageedit
                    then copy_defined req IMAGE_EDIT_FUNCTION_PARAMETERS parameters else parameters in
  given ← objectValue metadata~>"parameters" "metadata.parameters";
  Ok (assign parameters given).

(** [parameters.key] as a condition *)
Definition flag (parameters : obj) (key : string) : bool := truthy (get (JObj parameters) (js key)).
Arguments flag parameters key%_string.

Definition image_flags (profile : image_kind) (sync : bool) (parameters : obj) : JS obj :=
  _ ← rfold (check_boolean parameters) IMAGE_FLAGS tt;
  let interleave := flag parameters "enable_interleave" in
  _ ← throw_if (strict_eq (JObj parameters)~>"stream" (JBool true)
                && (negb sync || negb (is_kind profile image26) || negb interleave))
        (js "upstream streaming requires synchronous wan2.6-image interleaved output");
  _ ← throw_if (interleave && negb (is_kind profile image26))
        (js "enable_interleave is only supported by wan2.6-image");
  _ ← throw_if (flag parameters "enable_sequential" && negb (is_kind profile image27))
        (js "enable_sequential is only supported by wan2.7-image models");
  Ok (put_if (interleave && sync) parameters (js "stream") (JBool true)).

(** [limits.key], where the table may have no entry *)
Definition limits_of (limits : option QwenLimits) : JS QwenLimits :=
  match limits with Some limits => Ok limits | None => Err TypeError end.

Definition max_n (profile : image_kind) (limits : option QwenLimits) (parameters : obj) : JS Z :=
  if flag parameters "enable_interleave" then Ok 1%Z
  else if flag parameters "enable_sequential" then Ok 12%Z
  else if is_kind profile qwen then limits ← limits_of limits; Ok (maxN limits) else Ok 4%Z.

Definition default_n (profile : image_kind) (sync : bool) (parameters : obj) : Z :=
  if sync || flag parameters "enable_interleave" || is_kind profile qwen || is_kind profile legacy_imageedit then 1
  else if is_kind profile image27 then if flag parameters "enable_sequential" then 12 else 1
  else 4.

(** [!Number.isInteger(v) || v < low || v > high] *)
Definition outside (v : jsval) (low high : Z) : bool :=
  negb (integer_value v) || nltb (to_number v) (nZ low) || ngtb (to_number v) (nZ high).

Definition image_counts (profile : image_kind) (sync : bool) (limits : option QwenLimits) (parameters : obj) : JS obj :=
  maxN ← max_n profile limits parameters;
  let n := nullish (JObj parameters)~>"n" (int (default_n profile sync parameters)) in
  let parameters := put parameters (js "n") n in
  _ ← throw_if (outside n 1 maxN)
        (if (maxN =? 1)%Z then js "n must be 1 for this model"
         else js "n must be an integer between 1 and " ++ number_to_string (nZ maxN));
  let max_images := (JObj parameters)~>"max_images" in
  _ ← throw_if (is_defined max_images && outside max_images 1 5) (js "max_images must be an integer between 1 and 5");
  let parameters := put_if (flag parameters "enable_interleave") parameters (js "max_images") (nullish max_images (int 5)) in
  let seed := (JObj parameters)~>"seed" in
  _ ← throw_if (is_defined seed && outside seed 0 2147483647)
        (js "seed must be an integer between 0 and 2147483647");
  let extend := (JObj parameters)~>"prompt_extend_mode" in
  _ ← throw_if (is_defined extend && is_not extend "direct" && is_not extend "agent")
        (js "prompt_extend_mode must be direct or agent");
  Ok parameters.

Definition listed_images (req : jsval) : JS (list jsval) :=
  match req~>"images" with
  | JUndefined =>
      if isFileRef req~>"image" then Ok [req~>"image"]
      else first ← firstImage req; Ok (if nonempty_text first then [JStr first] else [])
  | JArr images => Ok images
  | _ => throw (js "images must be an array")
  end.

(** The input of [wanx2.1-imageedit]: one base image and a function. *)
Definition edit_input (req : jsval) (listed : list jsval) (input parameters : obj) : JS obj :=
  let inp := JObj input in
  _ ← throw_if (is_defined inp~>"images") (js "this model takes input.base_image_url, not input.images");
  let input := match listed with
               | [image] => put_if (is_undefined inp~>"base_image_url") input (js "base_image_url") image
               | _ => input
               end in
  _ ← throw_if ((1 <? length listed) || negb (isImageInput (JObj input)~>"base_image_url"))
        (js "this model requires exactly one input image as an HTTP URL or Base64 data URL");
  let input := put_if (is_undefined (JObj input)~>"mask_image_url" && is_defined req~>"mask") input
                 (js "mask_image_url") req~>"mask" in
  let mask := (JObj input)~>"mask_image_url" in
  let function := nullish (nullish (JObj input)~>"function" req~>"function")
                    (str (if is_defined mask then "description_edit_with_mask" else "description_edit")) in
  let input := put input (js "function") function in
  _ ← throw_if (negb (one_of function IMAGE_EDIT_FUNCTIONS))
        (js "function must be one of " ++ join (js ", ") IMAGE_EDIT_FUNCTIONS);
  _ ← throw_if (equals function "description_edit_with_mask" && negb (isImageInput mask))
        (js "description_edit_with_mask requires a mask image as an HTTP URL or Base64 data URL");
  _ ← throw_if (is_not function "description_edit_with_mask" && is_defined mask)
        (js "mask images are only used by description_edit_with_mask");
  _ ← throw_if (is_defined (JObj parameters)~>"size") (js "this model does not accept size");
  Ok input.

(** The negative prompt is part of the input of the legacy models. *)
Definition move_negative (profile : image_kind) (input parameters : obj) : JS (obj * obj) :=
  let negative := (JObj parameters)~>"negative_prompt" in
  if is_undefined negative then Ok (input, parameters)
  else
    _ ← throw_if (is_kind profile legacy_imageedit) (js "this model does not accept negative_prompt");
    Ok (put input (js "negative_prompt") negative, remove parameters (js "negative_prompt")).

(** Input, parameters and the number of input images of a legacy model. *)
Definition legacy_input (profile : image_kind) (req : jsval) (listed : list jsval) (input parameters : obj)
  : JS (obj * obj * nat) :=
  let prompt := nullish (JObj input)~>"prompt" req~>"prompt" in
  let input := put input (js "prompt") prompt in
  _ ← throw_if (negb (match prompt with JStr s => nonempty_text (trim s) | _ => false end)) (js "prompt is required");
  _ ← throw_if (is_defined (JObj input)~>"messages") (js "this model does not accept input.messages");
  '(input, parameters) ← move_negative profile input parameters;
  if is_kind profile legacy then
    _ ← throw_if (negb (bool_decide (listed = []))) (js "this model only supports text-to-image input");
    Ok (input, parameters, 0)
  else if is_kind profile legacy_edit then
    let images := nullish (JObj input)~>"images" (JArr listed) in
    let accepted := match images with
                    | JArr l => (1 <=? length l) && (length l <=? 3) && forallb isImageInput l
                    | _ => false
                    end in
    _ ← throw_if (negb accepted) (js "this model requires 1 to 3 input images as HTTP URLs or Base64 data URLs");
    Ok (put input (js "images") images, parameters, match images with JArr l => length l | _ => 0 end)
  else
    input ← edit_input req listed input parameters;
    Ok (input, parameters, 1).

(** Without messages, the images and the prompt are one message. *)
Definition message_input (req : jsval) (listed : list jsval) (input : obj) : obj :=
  put_if (is_undefined (JObj input)~>"messages") input (js "messages")
    (JArr [JObj ["role" ↦ str "user";
                 "content" ↦ JArr (map (λ image, JObj ["image" ↦ image]) listed ++ [JObj ["text" ↦ req~>"prompt"]])]]).

(** One round over the content; the state counts texts and images. *)
Definition count_part (part : jsval) (counts : nat * nat) : JS (nat * nat) :=
  _ ← throw_if (negb (plain_object part)) (js "invalid image message content");
  let text := part~>"text" in
  _ ← throw_if (is_defined text && negb (match text with JStr s => nonempty_text (trim s) | _ => false end))
        (js "text must be a non-empty string");
  let image := part~>"image" in
  _ ← throw_if (is_defined image && negb (isImageInput image)) (js "image must be an HTTP URL or Base64 data URL");
  Ok ((if is_defined text then S counts.1 else counts.1), (if is_defined image then S counts.2 else counts.2)).

Definition message_content (input : obj) : JS (list jsval) :=
  match (JObj input)~>"messages" with
  | JArr [message] =>
      match message~>"content" with
      | JArr content =>
          if truthy message && equals message~>"role" "user" then Ok content
          else throw (js "input.messages must contain one user message with a content array")
      | _ => throw (js "input.messages must contain one user message with a content array")
      end
  | _ => throw (js "input.messages must contain one user message with a content array")
  end.

Definition max_input (profile : image_kind) (limits : option QwenLimits) (interleave : bool) : JS nat :=
  match profile with
  | image27 => Ok 9
  | image26 => Ok (if interleave then 1 else 4)
  | qwen => limits ← limits_of limits; Ok (maxInput limits)
  | _ => Ok 0
  end.

(** The number of images of the message. *)
Definition check_messages (profile : image_kind) (limits : option QwenLimits) (parameters input : obj) : JS nat :=
  content ← message_content input;
  '(texts, images) ← rfold count_part content (0, 0);
  _ ← throw_if (negb (texts =? 1)) (js "input.messages must contain exactly one text prompt");
  let interleave := flag parameters "enable_interleave" in
  most ← max_input profile limits interleave;
  _ ← throw_if (most <? images)
        (if most =? 0 then js "this model only supports text-to-image input" else js "too many input images for this model");
  _ ← throw_if (is_kind profile image26 && negb interleave && (images =? 0))
        (js "wan2.6-image editing requires a reference image; use wan2.6-t2i for text-to-image");
  least ← (if is_kind profile qwen then limits ← limits_of limits; Ok (minInput limits) else Ok 0);
  _ ← throw_if (images <? least) (js "this image editing model requires at least one input image");
  Ok images.

Definition image_input (profile : image_kind) (limits : option QwenLimits) (req : jsval) (listed : list jsval)
  (input parameters : obj) : JS (obj * obj * nat) :=
  if legacyProfile profile then legacy_input profile req listed input parameters
  else
    let input := message_input req listed input in
    images ← check_messages profile limits parameters input;
    Ok (input, parameters, images).

Definition max_pixels (profile : image_kind) (supports4K interleave : bool) : Z :=
  match profile with
  | image27 => if supports4K then 4096 * 4096 else 2048 * 2048
  | image26 => if interleave then 1280 * 1280 else 2048 * 2048
  | qwen => 2048 * 2048
  | legacy_edit => 1280 * 1280
  | _ => 1440 * 1440
  end.

(** [width], [height] and area within the limits of the model *)
Definition size_allowed (profile : image_kind) (model : jsval) (supports4K interleave : bool) (dims : size_dims) : bool :=
  let ratio := if is_kind profile image27 || is_kind profile qwen then nZ 8 else nZ 4 in
  let least := if is_kind profile qwen then (512 * 512)%Z else 0%Z in
  negb
    (if is_kind profile legacy && negb (jseq (modelKey model) (js "wan2.5-t2i-preview"))
     then nltb (width dims) (nZ 512) || nltb (height dims) (nZ 512)
          || ngtb (width dims) (nZ 1440) || ngtb (height dims) (nZ 1440)
     else ngtb (pixels dims) (nZ (max_pixels profile supports4K interleave)) || nltb (pixels dims) (nZ least)
          || ngtb (ndiv (width dims) (height dims)) ratio || ngtb (ndiv (height dims) (width dims)) ratio).

Definition image_size (profile : image_kind) (model : jsval) (images : nat) (parameters : obj) : JS obj :=
  match (JObj parameters)~>"size" with
  | JUndefined => Ok parameters
  | JStr given =>
      let size := star_size given in
      let interleave := flag parameters "enable_interleave" in
      let supports4K := jseq (modelKey model) (js "wan2.7-image-pro") && (images =? 0)
                        && negb (flag parameters "enable_sequential") in
      _ ← (if str_in size [js "1K"; js "2K"; js "4K"] then
             _ ← throw_if ((negb (is_kind profile image26) && negb (is_kind profile image27)) || interleave)
                   (js "this model requires a width*height image size");
             throw_if (jseq size (js "4K") && negb supports4K)
               (js "4K is only supported by wan2.7-image-pro text-to-image without sequential output")
           else
             match sizePixels size with
             | None => throw (js "size must be width*height or a supported resolution preset")
             | Some dims => throw_if (negb (size_allowed profile model supports4K interleave dims))
                              (js "size is outside the model's pixel and aspect-ratio limits")
             end);
      Ok (put parameters (js "size") (JStr size))
  | _ => throw (js "size must be a string")
  end.

Definition image_service (profile : image_kind) (sync : bool) : jsstr :=
  match profile with
  | legacy => js "text2image/image-synthesis"
  | legacy_edit | legacy_imageedit => js "image2image/image-synthesis"
  | _ => if sync then js "multimodal-generation/generation" else js "image-generation/generation"
  end.

(** [body.model], [body.input] and [body.parameters] are the first three. *)
Record converted_image : Type := {
  image_model : jsval; image_inputs : obj; image_settings : obj;
  service : jsstr; synchronous : bool; action : jsval; inputImages : nat
}.

Definition convertImage (ctx : jsval) : JS converted_image :=
  req ← ctx~>!"requestBody";
  let req := or_object req in
  let model := js_or ctx~>"upstreamModel" req~>"model" in
  found ← imageModel ctx;
  match found with
  | None => throw (js "unsupported image model: " ++ js_text model)
  | Some profile =>
      let limits := entry_of QWEN_IMAGE_LIMITS (modelKey model) in
      metadata ← objectValue req~>"metadata" "metadata";
      _ ← throw_if (is_defined metadata~>"model" && negb (strict_eq metadata~>"model" model))
            (js "can't change model with metadata");
      sync ← synchronous_mode profile metadata;
      parameters ← image_parameters profile req metadata;
      parameters ← image_flags profile sync parameters;
      parameters ← image_counts profile sync limits parameters;
      given ← objectValue metadata~>"input" "metadata.input";
      listed ← listed_images req;
      '(input, parameters, images) ← image_input profile limits req listed (assign [] given) parameters;
      parameters ← image_size profile model images parameters;
      Ok {| image_model := model; image_inputs := input; image_settings := parameters;
            service := image_service profile sync; synchronous := sync;
            action := if images =? 0 then str "text_to_image" else str "image_to_image"; inputImages := images |}
  end.

Definition image_body (converted : converted_image) : jsval :=
  JObj ["model" ↦ image_model converted; "input" ↦ JObj (image_inputs converted);
        "parameters" ↦ JObj (image_settings converted)].

(** ** Billing facts of images *)

Definition imageEstimate (ctx : jsval) (converted : converted_image) : obj :=
  let parameters := JObj (image_settings converted) in
  let facts := ["image_count" ↦ if truthy parameters~>"enable_interleave" then parameters~>"max_images"
                                else parameters~>"n"] in
  let facts := put_if (zImage ctx) facts (js "prompt_extend")
                 (JBool (strict_eq parameters~>"prompt_extend" (JBool true))) in
  if qwenImage3 ctx then
    let dims := match parameters~>"size" with JStr size => sizePixels size | _ => None end in
    let lower := match dims with
                 | Some dims => nleb (pixels dims) (nZ QWEN_IMAGE3_TIER_MAX_PIXELS)
                 | None => false
                 end in
    put (put facts (js "output_image_type") (if lower then str "qima_output_1k" else str "qima_output_2k"))
      (js "input_image_count") (int (Z.of_nat (inputImages converted)))
  else facts.

Definition imageRatios (ctx : jsval) (converted : converted_image) (count : jsval) : obj :=
  let extend := (JObj (image_settings converted))~>"prompt_extend" in
  put_if (zImage ctx && strict_eq extend (JBool true)) ["image_count" ↦ count] (js "prompt_extend_ratio")
    (int Z_IMAGE_PROMPT_EXTEND_RATIO).

(** ** Delivered images *)

(** [{ image }] and [{ text }] *)
Inductive image_part : Type := Picture (image : jsstr) | Words (text : jsstr).
Definition is_picture (part : image_part) : bool := match part with Picture _ => true | Words _ => false end.

Definition array_or_empty (v : jsval) : list jsval := match v with JArr items => items | _ => [] end.

Definition result_part (result : jsval) : list image_part :=
  match result~>"url" with JStr (c :: s) => [Picture (c :: s)] | _ => [] end.
Definition content_part (part : jsval) : list image_part :=
  match part~>"image", part~>"text" with
  | JStr (c :: s), _ => [Picture (c :: s)]
  | _, JStr text => [Words text]
  | _, _ => []
  end.
Definition choice_parts (choice : jsval) : list image_part :=
  flat_map content_part (array_or_empty (choice~>"message")~>"content").

Definition imageContent (body : jsval) : list image_part :=
  let output := or_object (js_and body body~>"output") in
  flat_map result_part (array_or_empty output~>"results") ++ flat_map choice_parts (array_or_empty output~>"choices").

(** [content.filter((part) => part.image)] *)
Definition pictures (content : list image_part) : list jsstr :=
  flat_map (λ part, match part with Picture image => [image] | Words _ => [] end) content.

Definition put_image3 (usage : jsval) (facts : obj) : obj :=
  let type := usage~>"output_image_type" in
  let facts := put_if (one_of type OUTPUT_IMAGE_TYPES) facts (js "output_image_type") type in
  let input := usage~>"input_image_count" in
  put_if (negb (outside input 0 3)) facts (js "input_image_count") input.

Definition imageUsage (ctx body : jsval) : JS obj :=
  let usage := or_object (js_and body body~>"usage") in
  let content := imageContent body in
  let images := pictures content in
  _ ← throw_if (MAX_IMAGE_OUTPUTS <? length images) (js "too many output images");
  let reported := if is_defined usage~>"image_count" then usage~>"image_count" else usage~>"output_image_count" in
  let settle (count : jsval) : obj :=
    let facts := ["image_count" ↦ count] in if qwenImage3 ctx then put_image3 usage facts else facts in
  if is_defined reported then
    _ ← throw_if (outside reported 0 (Z.of_nat MAX_IMAGE_OUTPUTS)
                  || (negb (bool_decide (images = [])) && strict_eq reported (int 0)))
          (js "invalid upstream image count");
    Ok (settle reported)
  else match content with
       | [] => Ok []
       | _ => Ok (settle (int (Z.of_nat (length images))))
       end.

(** The rest of a data URL: up to the first semicolon, which [base64,]
    follows, and no comma before it. *)
Fixpoint data_payload (s : jsstr) : option jsstr :=
  match s with
  | [] => None
  | c :: rest =>
      if (c =? cu ";")%N then strip_prefix (js "base64,") rest
      else if (c =? cu ",")%N then None else data_payload rest
  end.
Definition http_url (value : jsstr) : bool :=
  let low := map ascii_low value in starts_with (js "http://") low || starts_with (js "https://") low.
Definition imageDatum (image : jsstr) : jsval :=
  if http_url image then JObj ["url" ↦ JStr image]
  else
    let payload := rest ← strip_prefix (js "data:") image; data_payload rest in
    JObj ["b64_json" ↦ JStr (default image payload)].
