(* ===== verification/AlibabaVideos.v ===== *)
(** * Videos of the Alibaba plugin

    Models the conversion of a video request in
    [src/plugins/tasks/alibaba/plugin.js]: the normal form of a request
    ([normalizeRequest]), sizes and ratios, and [convert], which checks a
    request against its model and makes the body that is sent. *)
From stdpp Require Import base list option numbers sets.
From Stdlib Require Import ZArith SpecFloat Lia.
From S2P Require Import Prelude.
From S2P Require Import JsString.
From S2P Require Import JsNumber.
From S2P Require Import Syntax.
From S2P Require Import Runtime.
From S2P Require Import Display.
From S2P Require Import Json.
From S2P Require Import JsText.
From S2P Require Import JsonPrint.
From S2P Require Import AdvancedCustom.
From S2P Require Import JsDynamic.
From S2P Require Import PluginCommon.
From S2P Require Import AlibabaImages.

Section video.
Context {U : TaskHost}.

(** ** Video requests *)

Definition normalizeResolution (value : jsval) : jsstr :=
  let resolution := to_upper_case (trimmed value) in
  if negb (nonempty_text resolution) then []
  else if ends_with (js "P") resolution then resolution else resolution ++ js "P".

(** [Number(v) === -1] *)
Definition minus_one (v : jsval) : bool := neqb (to_number v) (nZ (-1)).

(** [if (o[key] != null) o[key] = normalizeResolution(o[key]);] *)
Definition normal_resolution (o : obj) : obj :=
  let resolution := (JObj o)~>"resolution" in
  put_if (negb (is_nullish resolution)) o (js "resolution") (JStr (normalizeResolution resolution)).

Definition drop_minus_one (key : string) (o : obj) : obj :=
  if minus_one (get (JObj o) (js key)) then remove o (js key) else o.
Arguments drop_minus_one key%_string o.

(** The object of the parameters is part of the new metadata, so what is
    changed in it afterwards is changed there. *)
Definition normalizeRequest (value : jsval) : JS obj :=
  let req := assign [] value in
  metadata ← objectValue (JObj req)~>"metadata" "metadata";
  given ← objectValue metadata~>"parameters" "metadata.parameters";
  let parameters := assign [] given in
  _ ← (if is_defined (JObj req)~>"metadata" then objectValue metadata~>"input" "metadata.input" else Ok (JObj []));
  let duration :=
    nullish (nullish (nullish (JObj parameters)~>"duration" (JObj req)~>"duration") (JObj req)~>"seconds")
      (if strict_eq (JObj req)~>"auto_duration" (JBool true) then int (-1) else JUndefined) in
  let parameters := normal_resolution (drop_minus_one "duration" parameters) in
  let req := put_if (is_defined (JObj req)~>"metadata") req (js "metadata")
               (JObj (put (assign [] metadata) (js "parameters") (JObj parameters))) in
  let req := drop_minus_one "seconds" (drop_minus_one "duration" req) in
  let req := if minus_one duration
             then remove (remove (put req (js "auto_duration") (JBool true)) (js "duration")) (js "seconds")
             else remove req (js "auto_duration") in
  Ok (normal_resolution req).

(** [{ resolution, ratio }] *)
Definition size_entry (size : jsstr) (table : list (jsstr * list (jsstr * jsstr))) : option (jsstr * jsstr) :=
  head (flat_map (λ '(resolution, sizes),
    flat_map (λ '(ratio, pixels), if jseq pixels size then [(resolution, ratio)] else []) sizes) table).

Definition videoSize (value : jsval) : JS (jsstr * option jsstr) :=
  let size := star_size (trimmed value) in
  if negb (existsb (N.eqb (cu "*")) size) then Ok (normalizeResolution (JStr size), None)
  else match size_entry size (LEGACY_SIZES ++ MODERN_SIZES) with
       | Some (resolution, ratio) => Ok (resolution, Some ratio)
       | None => throw (js "invalid size: " ++ size)
       end.

Definition has_image (source : jsval) : JS bool :=
  first ← firstImage source;
  Ok (nonempty_text first || nonempty_text (trimmed source~>"img_url") || nonempty_text (trimmed source~>"image_url")
      || nonempty_text (trimmed source~>"first_frame_url")
      || match source~>"media" with JArr (_ :: _) => true | _ => false end).

Definition videoAction (req : jsval) : JS jsval :=
  metadata ← req~>!"metadata";
  input ← objectValue (or_object metadata)~>"input" "metadata.input";
  own_image ← has_image req;
  if (own_image : bool) then Ok (str "image_to_video")
  else
    given_image ← has_image input;
    Ok (video_action given_image).

Record converted_video : Type := { video_model : jsval; video_input : obj; video_settings : obj }.

Definition INPUT_KEYS : list jsstr :=
  [js "prompt"; js "negative_prompt"; js "img_url"; js "image_url"; js "first_frame_url"; js "last_frame_url";
   js "audio_url"; js "template"; js "media"].
Definition SETTING_KEYS : list jsstr :=
  [js "resolution"; js "ratio"; js "prompt_extend"; js "watermark"; js "audio"; js "seed"; js "shot_type"].

Definition is_wan (profile : WanProfile) (k : wan_kind) : bool := bool_decide (kind profile = k).

Definition given_input (req metadata : jsval) : JS obj :=
  let input := copy_defined req INPUT_KEYS [] in
  image ← firstImage req;
  let input := put_if (nonempty_text image && is_undefined (JObj input)~>"img_url") input (js "img_url") (JStr image) in
  given ← objectValue metadata~>"input" "metadata.input";
  Ok (assign input given).

Definition check_setting (parameters : obj) (key : jsstr) (u : unit) : JS unit :=
  let v := get (JObj parameters) key in
  throw_if (negb (is_nullish v) && negb (match v with JBool _ => true | _ => false end)) (key ++ js " must be a boolean").

Definition given_settings (profile : WanProfile) (req native : jsval) : JS obj :=
  let parameters := if is_wan profile Wan_speech then [] else ["prompt_extend" ↦ JBool true] in
  let parameters := assign (copy_defined req SETTING_KEYS parameters) native in
  _ ← rfold (check_setting parameters) [js "prompt_extend"; js "watermark"; js "audio"] tt;
  let seed := (JObj parameters)~>"seed" in
  let least := if is_wan profile Wan_all then (-1)%Z else 0%Z in
  _ ← throw_if (negb (is_nullish seed) && outside seed least 2147483647)
        (js "seed must be an integer between " ++ number_to_string (nZ least) ++ js " and 2147483647");
  Ok parameters.

(** [v == null || v === ""] *)
Definition no_size (v : jsval) : bool := is_nullish v || strict_eq v (JStr []).

Definition optional (o : option jsstr) : jsval := match o with Some s => JStr s | None => JUndefined end.

(** Resolution and ratio of a request. *)
Definition resolution_and_ratio (profile : WanProfile) (req native : jsval) (parameters : obj) : JS (jsstr * jsval) :=
  let value := nullish native~>"size" req~>"size" in
  size ← (if no_size value then Ok (None, None) else '(r, q) ← videoSize value; Ok (Some r, q));
  if is_wan profile Wan_size && negb (no_size native~>"size") then
    Ok (default [] size.1, nullish (nullish (optional size.2) (JObj parameters)~>"ratio") (str "16:9"))
  else
    Ok (normalizeResolution
          (nullish (nullish (JObj parameters)~>"resolution" (optional size.1)) (JStr (defaultResolution profile))),
        nullish (nullish (JObj parameters)~>"ratio" (optional size.2))
          (str (if is_wan profile Wan_all then "adaptive" else "16:9"))).

Definition RATIOS : list jsstr := [js "16:9"; js "9:16"; js "1:1"; js "4:3"; js "3:4"].

(** The size, or the resolution and where the model has one the ratio. *)
Definition sized_settings (profile : WanProfile) (upstreamModel : jsval) (resolution : jsstr) (ratio : jsval)
  (parameters : obj) : JS obj :=
  _ ← throw_if (negb (str_in resolution (resolutions profile)))
        (js_text upstreamModel ++ js " resolution must be one of " ++ join (js ", ") (resolutions profile));
  let with_ratio := is_wan profile Wan_t2v || is_wan profile Wan_all in
  let ratios := RATIOS ++ (if is_wan profile Wan_all then [js "adaptive"] else []) in
  _ ← throw_if ((is_wan profile Wan_size || with_ratio) && negb (one_of ratio ratios))
        (js_text upstreamModel ++ js " ratio must be one of " ++ join (js ", ") ratios);
  if is_wan profile Wan_size then
    let sizes := default [] (entry_of LEGACY_SIZES resolution) in
    match entry_of sizes (js_text ratio) with
    | None => throw (js "unsupported ratio for " ++ resolution ++ js ": " ++ js_text ratio)
    | Some size =>
        Ok (remove (remove (put parameters (js "size") (JStr size)) (js "resolution")) (js "ratio"))
    end
  else
    let parameters := remove (put parameters (js "resolution") (JStr resolution)) (js "size") in
    Ok (if with_ratio then put parameters (js "ratio") ratio else remove parameters (js "ratio")).

Definition raw_duration (req native : jsval) : jsval :=
  nullish native~>"duration"
    (if strict_eq req~>"auto_duration" (JBool true) then int (-1) else nullish req~>"duration" req~>"seconds").

(** [duration < 2 || duration > profile.maxDuration] among the integers *)
Definition duration_in (profile : WanProfile) (duration : num) : bool :=
  match durations profile with
  | Listed ds => existsb (λ d, neqb (nZ d) duration) ds
  | Through most =>
      (is_wan profile Wan_all && neqb duration (nZ (-1)))
      || (is_integer duration && negb (nltb duration (nZ 2)) && negb (ngtb duration (nZ most)))
  | AudioDecides => is_integer duration && negb (nltb duration (nZ 2))
  end.

Definition duration_error (profile : WanProfile) (upstreamModel : jsval) : jsstr :=
  match durations profile with
  | Listed ds => js_text upstreamModel ++ js " duration must be one of "
                 ++ join (js ", ") (map (λ d, number_to_string (nZ d)) ds)
  | Through most => js_text upstreamModel ++ js " duration must be "
                    ++ (if is_wan profile Wan_all then js "-1 or " else [])
                    ++ js "an integer between 2 and " ++ number_to_string (nZ most)
  | AudioDecides => js_text upstreamModel ++ js " duration must be an integer between 2 and undefined"
  end.

Definition timed_settings (profile : WanProfile) (upstreamModel req native : jsval) (parameters : obj) : JS obj :=
  let raw := raw_duration req native in
  _ ← throw_if (negb (is_nullish raw)
                && match raw with
                   | JNum _ => false
                   | JStr s => negb (nonempty_text (trim s))
                   | _ => true
                   end) (js "duration must be a number");
  let duration := if is_nullish raw then nZ 5 else to_number raw in
  _ ← throw_if (neqb duration (nZ (-1)) && negb (is_wan profile Wan_all))
        (js "duration -1 (smart duration) is only supported by wan3.0 models");
  if is_wan profile Wan_speech then
    _ ← throw_if (negb (is_nullish raw)
                  && (negb (is_finite duration) || nleb duration NZERO || ngeb duration (nZ 20)))
          (js "wan2.2-s2v duration must be positive and less than 20 seconds; output follows the audio");
    Ok (remove parameters (js "duration"))
  else
    _ ← throw_if (negb (duration_in profile duration)) (duration_error profile upstreamModel);
    Ok (put parameters (js "duration") (JNum duration)).

(** ** Media *)

Definition media_item (type : string) (url : jsval) : jsval := JObj ["type" ↦ str type; "url" ↦ url].
Arguments media_item type%_string url.

(** The first text that is not blank. *)
Definition first_text (a b : jsstr) : jsstr := if nonempty_text a then a else b.

(** The media of a request that lists none. *)
Definition derived_media (profile : WanProfile) (req : jsval) (input : obj) : JS (list jsval) :=
  let inp := JObj input in
  let given := first_text (trimmed inp~>"first_frame_url") (trimmed inp~>"img_url") in
  first ← (if nonempty_text given then Ok given else firstImage req);
  last ← (if nonempty_text (trimmed inp~>"last_frame_url") then Ok (trimmed inp~>"last_frame_url") else secondImage req);
  Ok ((if nonempty_text first then [media_item "first_frame" (JStr first)] else [])
      ++ (if nonempty_text last then [media_item "last_frame" (JStr last)] else [])
      ++ (if nonempty_text (trimmed inp~>"audio_url")
          then [media_item (if is_wan profile Wan_media then "driving_audio" else "reference_audio") inp~>"audio_url"]
          else [])).

Definition media_limits (profile : WanProfile) : list (jsstr * nat) :=
  if is_wan profile Wan_media
  then ["first_frame" ↦ 1; "last_frame" ↦ 1; "driving_audio" ↦ 1; "first_clip" ↦ 1]
  else ["first_frame" ↦ 1; "last_frame" ↦ 1; "reference_image" ↦ 10; "reference_video" ↦ 5; "reference_audio" ↦ 5;
        "file" ↦ 1; "link" ↦ 1].

(** [counts[type]] *)
Definition media_counts : Type := jsstr → nat.
Definition count_one (type : jsstr) (counts : media_counts) : media_counts :=
  λ key, if jseq key type then S (counts key) else counts key.

Definition count_media (limits : list (jsstr * nat)) (media : jsval) (counts : media_counts) : JS media_counts :=
  let type := js_text media~>"type" in
  match entry_of limits type with
  | Some limit =>
      _ ← throw_if (negb (truthy media) || negb (nonempty_text (trimmed media~>"url")))
            (js "invalid input.media type or url");
      let counts := count_one type counts in
      _ ← throw_if (limit <? counts type) (js "too many input.media entries for " ++ type);
      Ok counts
  | None => throw (js "invalid input.media type or url")
  end.

Definition has (counts : media_counts) (type : string) : bool := negb (counts (js type) =? 0).
Arguments has counts type%_string.

Definition media_combination (profile : WanProfile) (counts : media_counts) : bool :=
  if is_wan profile Wan_media then
    (has counts "first_frame" || has counts "first_clip")
    && negb (has counts "first_clip" && (has counts "first_frame" || has counts "driving_audio"))
  else
    let frames := has counts "first_frame" || has counts "last_frame" in
    let references := has counts "reference_image" || has counts "reference_video" || has counts "reference_audio"
                      || has counts "file" || has counts "link" in
    negb (frames && references) && negb (has counts "file" && has counts "link")
    && negb (has counts "last_frame" && negb (has counts "first_frame")).

Definition check_media (profile : WanProfile) (input : obj) (media : list jsval) : JS unit :=
  counts ← rfold (count_media (media_limits profile)) media (λ _, 0);
  _ ← throw_if (negb (media_combination profile counts))
        (if is_wan profile Wan_media
         then js "wan2.7-i2v requires first_frame or first_clip with a supported media combination"
         else js "unsupported wan3.0 input.media combination");
  throw_if (is_wan profile Wan_all && negb (nonempty_text (trimmed (JObj input)~>"prompt")) && bool_decide (media = []))
    (js "wan3.0-video requires prompt or input.media").

Definition media_input (profile : WanProfile) (req : jsval) (input : obj) : JS obj :=
  media ← (match (JObj input)~>"media" with
           | JArr (item :: items) => Ok (item :: items)
           | JArr [] | JUndefined => derived_media profile req input
           | _ => throw (js "input.media must be an array")
           end);
  let input := put input (js "media") (JArr media) in
  _ ← check_media profile input media;
  let input := if bool_decide (media = []) then remove input (js "media") else input in
  Ok (fold_left remove [js "img_url"; js "first_frame_url"; js "last_frame_url"; js "audio_url"] input).

Definition frames_input (upstreamModel req : jsval) (input : obj) : JS obj :=
  let first := first_text (trimmed (JObj input)~>"first_frame_url") (trimmed (JObj input)~>"img_url") in
  let input := put input (js "first_frame_url") (JStr first) in
  _ ← throw_if (negb (nonempty_text first)) (js_text upstreamModel ++ js " requires first_frame_url or image");
  input ← (if truthy (JObj input)~>"last_frame_url" then Ok input
           else second ← secondImage req; Ok (put_if (nonempty_text second) input (js "last_frame_url") (JStr second)));
  Ok (remove input (js "img_url")).

Definition speech_input (input : obj) : JS obj :=
  let image := first_text (trimmed (JObj input)~>"image_url") (trimmed (JObj input)~>"img_url") in
  let input := put input (js "image_url") (JStr image) in
  _ ← throw_if (negb (nonempty_text image) || negb (nonempty_text (trimmed (JObj input)~>"audio_url")))
        (js "wan2.2-s2v requires image_url and audio_url");
  let input := remove input (js "img_url") in
  Ok (if nonempty_text (trimmed (JObj input)~>"prompt") then input else remove input (js "prompt")).

Definition checked_input (profile : WanProfile) (upstreamModel req : jsval) (input : obj) : JS obj :=
  match kind profile with
  | Wan_media | Wan_all => media_input profile req input
  | Wan_frames => frames_input upstreamModel req input
  | Wan_speech => speech_input input
  | Wan_image =>
      _ ← throw_if (negb (nonempty_text (trimmed (JObj input)~>"img_url")))
            (js_text upstreamModel ++ js " requires img_url or image");
      Ok input
  | Wan_t2v | Wan_size =>
      _ ← throw_if (negb (nonempty_text (trimmed (JObj input)~>"prompt"))) (js "input is required");
      Ok input
  end.

Definition convert (ctx : jsval) : JS converted_video :=
  req ← ctx~>!"requestBody";
  upstreamModel ← (if truthy ctx~>"upstreamModel" then Ok ctx~>"upstreamModel" else req~>!"model");
  profile ← modelProfile upstreamModel;
  given ← req~>!"metadata";
  metadata ← objectValue given "metadata";
  _ ← throw_if (is_defined metadata~>"model" && negb (strict_eq metadata~>"model" upstreamModel))
        (js "can't change model with metadata");
  input ← given_input req metadata;
  native ← objectValue metadata~>"parameters" "metadata.parameters";
  parameters ← given_settings profile req native;
  '(resolution, ratio) ← resolution_and_ratio profile req native parameters;
  parameters ← sized_settings profile upstreamModel resolution ratio parameters;
  parameters ← timed_settings profile upstreamModel req native parameters;
  input ← checked_input profile upstreamModel req input;
  Ok {| video_model := upstreamModel; video_input := input; video_settings := parameters |}.

Definition video_body (converted : converted_video) : jsval :=
  JObj ["model" ↦ video_model converted; "input" ↦ JObj (video_input converted);
        "parameters" ↦ JObj (video_settings converted)].

(** The resolution of what is sent. *)
Definition sent_resolution (converted : converted_video) : JS jsval :=
  let parameters := JObj (video_settings converted) in
  if truthy parameters~>"size" then '(resolution, _) ← videoSize parameters~>"size"; Ok (JStr resolution)
  else Ok parameters~>"resolution".

Definition over (a : Z) (m : N) : num := ndiv (nZ a) (num_of_decimal m (-1)).
Definition RESOLUTION_RATIOS : list (jsstr * list (jsstr * num)) :=
  ["wan3.0-video" ↦ ["480P" ↦ nZ 1; "720P" ↦ nZ 2; "1080P" ↦ nZ 4];
   "wan3.0-video-prime" ↦ ["480P" ↦ nZ 1; "720P" ↦ nZ 2; "1080P" ↦ nZ 4];
   "wan2.6-i2v" ↦ ["720P" ↦ nZ 1; "1080P" ↦ over 1 6];
   "wan2.5-t2v-preview" ↦ ["480P" ↦ nZ 1; "720P" ↦ nZ 2; "1080P" ↦ over 1 3];
   "wan2.2-t2v-plus" ↦ ["480P" ↦ nZ 1; "1080P" ↦ nZ 5];
   "wan2.5-i2v-preview" ↦ ["480P" ↦ nZ 1; "720P" ↦ nZ 2; "1080P" ↦ over 1 3];
   "wan2.2-i2v-plus" ↦ ["480P" ↦ nZ 1; "1080P" ↦ nZ 5];
   "wan2.2-kf2v-flash" ↦ ["480P" ↦ nZ 1; "720P" ↦ nZ 2; "1080P" ↦ num_of_decimal 48 (-1)];
   "wan2.2-i2v-flash" ↦ ["480P" ↦ nZ 1; "720P" ↦ nZ 2];
   "wan2.2-s2v" ↦ ["480P" ↦ nZ 1; "720P" ↦ num_of_decimal 18 (-1)]].

(** The key and, where the table has the resolution, the value. *)
Definition resolutionRatio (converted : converted_video) : JS (option (jsstr * option num)) :=
  resolution ← sent_resolution converted;
  Ok (match entry_of RESOLUTION_RATIOS (modelKey (video_model converted)) with
      | Some ratios => Some (js "resolution-" ++ js_text resolution, entry_of ratios (js_text resolution))
      | None => None
      end).
End video.
