(* ===== verification/PluginAlibaba.v ===== *)
(** * The Alibaba plugin

    Models the hooks of [src/plugins/tasks/alibaba/plugin.js] on the requests
    of [AlibabaImages] and [AlibabaVideos]: submission, also of an answer that
    comes as a stream of events, usage, polling, artifacts, the native routes
    and the three protocols. *)
From stdpp Require Import base list option numbers sets.
From Stdlib Require Import ZArith SpecFloat Lia.
From S2P Require Import Prelude.
From S2P Require Import JsString.
From S2P Require Import JsNumber.
From S2P Require Import Syntax.
From S2P Require Import Runtime.
From S2P Require Import Display.
From S2P Require Import Json.
From S2P Require Import JsText.
From S2P Require Import JsonPrint.
From S2P Require Import AdvancedCustom.
From S2P Require Import JsDynamic.
From S2P Require Import PluginCommon.
From S2P Require Import AlibabaImages.
From S2P Require Import AlibabaVideos.

(** ** Metadata *)

Definition usageSchema : BillingUsageSchema := WAN_IMAGE_USAGE_SCHEMA ++ wanVideoUsageSchema WAN_VIDEO_RESOLUTIONS false.

Definition usageProfiles : list usage_profile :=
  [{| profile_shape := js "image";
      models := List.filter (λ name, negb (str_in name QWEN_IMAGE3_MODELS) && negb (str_in name Z_IMAGE_MODELS))
                  (IMAGE_MODELS.*1 ++ IMAGE_MODEL_SNAPSHOTS);
      schema := WAN_IMAGE_USAGE_SCHEMA |};
   {| profile_shape := js "z-image"; models := Z_IMAGE_MODELS; schema := Z_IMAGE_USAGE_SCHEMA |};
   {| profile_shape := js "qwen-image-3"; models := QWEN_IMAGE3_MODELS; schema := QWEN_IMAGE3_USAGE_SCHEMA |}]
  ++ wanVideoUsageProfiles.

Definition meta_models : list jsstr :=
  [js "wan3.0-video"; js "wan3.0-video-prime"; js "wan2.7-t2v"; js "wan2.7-t2v-2026-04-25"; js "wan2.7-t2v-2026-06-12";
   js "wan2.7-i2v"; js "wan2.7-i2v-2026-04-25"; js "wan2.6-t2v"; js "wan2.6-t2v-us"; js "wan2.6-i2v";
   js "wan2.6-i2v-flash"; js "wan2.6-i2v-us"; js "wan2.5-t2v-preview"; js "wan2.5-i2v-preview"; js "wan2.2-t2v-plus";
   js "wan2.2-i2v-flash"; js "wan2.2-i2v-plus"; js "wan2.2-kf2v-flash"; js "wan2.2-s2v"; js "wanx2.1-t2v-plus";
   js "wanx2.1-t2v-turbo"; js "wanx2.1-i2v-plus"; js "wanx2.1-i2v-turbo"; js "wan2.7-image-pro"; js "wan2.7-image";
   js "wan2.6-image"; js "wan2.6-t2i"; js "wan2.5-t2i-preview"; js "wan2.2-t2i-flash"; js "wan2.2-t2i-plus";
   js "wanx2.1-t2i-turbo"; js "wanx2.1-t2i-plus"; js "wanx2.0-t2i-turbo"; js "wan2.5-i2i-preview";
   js "wanx2.1-imageedit"; js "qwen-image"; js "qwen-image-plus"; js "qwen-image-max"; js "qwen-image-2.0";
   js "qwen-image-2.0-pro"; js "qwen-image-3.0"; js "qwen-image-3.0-pro"; js "qwen-image-edit";
   js "qwen-image-edit-plus"; js "qwen-image-edit-max"; js "z-image-turbo"] ++ IMAGE_MODEL_SNAPSHOTS.

Section alibaba.
Context {H : Host} {U : TaskHost}.

(** ** Submission *)

Definition bearer (ctx : jsval) : obj :=
  ["Authorization" ↦ JStr (js "Bearer " ++ js_text ctx~>"apiKey"); "Content-Type" ↦ str "application/json"].

Definition image_request (ctx : jsval) : JS jsval :=
  converted ← convertImage ctx;
  let interleave := strict_eq (JObj (image_settings converted))~>"enable_interleave" (JBool true) in
  let streaming := synchronous converted && interleave && negb (viaNewAPI ctx) in
  let headers := put_if (negb (synchronous converted)) (bearer ctx) (js "X-DashScope-Async") (str "enable") in
  let headers := put_if streaming headers (js "X-DashScope-Sse") (str "enable") in
  root ← apiRoot ctx;
  Ok (JObj ["url" ↦ JStr (root ++ js "/api/v1/services/aigc/" ++ service converted); "method" ↦ str "POST";
            "headers" ↦ JObj headers; "body" ↦ image_body converted; "action" ↦ action converted;
            "responseType" ↦ if streaming then str "sse" else str "json"]).

Definition video_request (ctx : jsval) : JS jsval :=
  converted ← convert ctx;
  profile ← modelProfile (video_model converted);
  let service := if is_wan profile Wan_frames || is_wan profile Wan_speech
                 then js "image2video" else js "video-generation" in
  root ← apiRoot ctx;
  action ← videoAction (JObj (video_input converted));
  Ok (JObj ["url" ↦ JStr (root ++ js "/api/v1/services/aigc/" ++ service ++ js "/video-synthesis");
            "method" ↦ str "POST";
            "headers" ↦ JObj (bearer ctx ++ ["X-DashScope-Async" ↦ str "enable"]);
            "body" ↦ AlibabaVideos.video_body converted; "action" ↦ action]).

Definition buildSubmitRequest (ctx : jsval) : JS jsval :=
  image ← imageModel ctx;
  match image with Some _ => image_request ctx | None => video_request ctx end.

(** The answer of a call that waits for the images. *)
Definition image_submitted (ctx body : jsval) (converted : converted_image) : JS jsval :=
  let content := imageContent body in
  let interleaved := strict_eq (JObj (image_settings converted))~>"enable_interleave" (JBool true) in
  let nothing := match pictures content with
                 | [] => negb (interleaved && negb (bool_decide (length content = 0)))
                 | _ => false
                 end in
  _ ← throw_if (nothing || strict_eq (or_object body~>"output")~>"finished" (JBool false))
        (js "synchronous image response has no completed output");
  let taskId := js_or ctx~>"publicTaskId" body~>"request_id" in
  _ ← throw_if (negb (truthy taskId)) (js "missing synchronous image request id");
  Ok (JObj ["taskId" ↦ taskId; "taskData" ↦ body;
            "immediate" ↦ JObj ["status" ↦ str "SUCCESS"; "progress" ↦ str "100%";
                                "url" ↦ JStr (default [] (head (pictures content)))]]).

Definition task_submitted (body : jsval) : JS jsval :=
  let output := body~>"output" in
  _ ← throw_if (negb (truthy output) || negb (truthy output~>"task_id")) (js "task_id is empty");
  Ok (JObj ["taskId" ↦ output~>"task_id"; "taskData" ↦ body]).

Definition parseSubmitResponse (ctx resp : jsval) : JS jsval :=
  body ← resp~>!"body";
  let body := or_object body in
  _ ← throw_if (truthy body~>"code")
        (js_text body~>"code" ++ js ": " ++ js_text (js_or body~>"message" (JStr [])));
  image ← imageModel ctx;
  match image with
  | Some _ =>
      converted ← convertImage ctx;
      if synchronous converted then image_submitted ctx body converted else task_submitted body
  | None => task_submitted body
  end.

(** ** Usage *)

(** [media.some((item) => item.type === "reference_video")] *)
Fixpoint some_video (media : list jsval) : JS bool :=
  match media with
  | [] => Ok false
  | item :: media => type ← item~>!"type"; if equals type "reference_video" then Ok true else some_video media
  end.
Definition has_reference_video (input : obj) : JS bool :=
  match or_array (JObj input)~>"media" with JArr media => some_video media | _ => Err TypeError end.

Definition billed_seconds (profile : WanProfile) (hasVideo : bool) (duration : jsval) : jsval :=
  if is_wan profile Wan_speech then int 20
  else if is_wan profile Wan_all && (hasVideo || strict_eq duration (int (-1))) then int 30 else duration.

Definition video_usage (ctx : jsval) : JS obj :=
  converted ← convert ctx;
  profile ← modelProfile (video_model converted);
  hasVideo ← has_reference_video (video_input converted);
  let parameters := JObj (video_settings converted) in
  let seconds := billed_seconds profile hasVideo parameters~>"duration" in
  if equals ctx~>"usagePurpose" "billing_ratios" then
    resolution ← resolutionRatio converted;
    Ok (match resolution with
        | Some (key, Some value) => put ["seconds" ↦ seconds] key (JNum value)
        | _ => ["seconds" ↦ seconds]
        end)
  else
    resolution ← sent_resolution converted;
    Ok (put_if (str_in (modelKey (video_model converted)) WAN_AUDIO_VIDEO_MODELS)
          ["seconds" ↦ seconds; "resolution" ↦ resolution]
          (js "audio") (JBool (negb (strict_eq parameters~>"audio" (JBool false))))).

Definition extractUsage (ctx : jsval) : JS obj :=
  image ← imageModel ctx;
  match image with
  | Some _ =>
      converted ← convertImage ctx;
      let estimate := imageEstimate ctx converted in
      Ok (if equals ctx~>"usagePurpose" "billing_ratios"
          then imageRatios ctx converted (JObj estimate)~>"image_count" else estimate)
  | None => video_usage ctx
  end.

Definition extractUsageOnSubmit (ctx body : jsval) : JS obj :=
  image ← imageModel ctx;
  match image with
  | None => Ok []
  | Some _ =>
      converted ← convertImage ctx;
      if negb (synchronous converted) then Ok []
      else
        actual ← imageUsage ctx (or_object body);
        let count := (JObj actual)~>"image_count" in
        Ok (if is_undefined count then [] else imageRatios ctx converted count)
  end.

(** [typeof v !== "number" || !Number.isFinite(v) || v < 0] *)
Definition invalid_seconds (v : jsval) : bool := negb (finite_value v) || nltb (to_number v) NZERO.

Definition wan3_seconds (usage : jsval) : option jsval :=
  let inputSeconds := usage~>"input_video_duration" in
  let outputSeconds := nullish usage~>"output_video_duration" usage~>"duration" in
  if is_nullish inputSeconds || is_nullish outputSeconds then None
  else Some (if invalid_seconds inputSeconds then inputSeconds
             else if invalid_seconds outputSeconds then outputSeconds
             else JNum (nadd (to_number inputSeconds) (to_number outputSeconds))).

Definition output_seconds (output usage : jsval) : option jsval :=
  let seconds := nullish (nullish (nullish usage~>"duration" usage~>"output_video_duration") output~>"duration")
                   output~>"duration_seconds" in
  if is_nullish seconds then None else Some seconds.

Definition is_wan3 (model : jsstr) : bool := str_in model [js "wan3.0-video"; js "wan3.0-video-prime"].

Definition extractUsageOnComplete (task taskResult body : jsval) : JS obj :=
  image ← imageModel task;
  match image with
  | Some _ => imageUsage task (or_object body)
  | None =>
      let output := or_object (js_and body body~>"output") in
      let usage := or_object (js_and body body~>"usage") in
      let model := modelKey (js_or task~>"upstreamModel" task~>"model") in
      let wan3 := is_wan3 model || (negb (nonempty_text model) && negb (is_nullish usage~>"input_video_duration")) in
      let facts := match (if wan3 then wan3_seconds usage else output_seconds output usage) with
                   | Some seconds => ["seconds" ↦ seconds]
                   | None => []
                   end in
      let resolution := nullish usage~>"SR" output~>"resolution" in
      let facts := put_if (negb (is_nullish resolution)) facts (js "resolution") (JStr (normalizeResolution resolution)) in
      let audio := usage~>"audio" in
      Ok (put_if (str_in model WAN_AUDIO_VIDEO_MODELS && match audio with JBool _ => true | _ => false end)
            facts (js "audio") audio)
  end.

(** ** Polling *)

Definition buildQueryRequest (ctx : jsval) : JS jsval :=
  root ← apiRoot ctx;
  Ok (JObj ["url" ↦ JStr (root ++ js "/api/v1/tasks/" ++ js_text ctx~>"taskId"); "method" ↦ str "GET";
            "headers" ↦ JObj ["Authorization" ↦ JStr (js "Bearer " ++ js_text ctx~>"apiKey")]]).

Definition artifactData (ctx : jsval) : jsval := artifact_data ctx.

Definition videoURL (body : jsval) : jsstr :=
  let output := or_object (js_and body body~>"output") in
  first_text (trimmed output~>"video_url") (trimmed (or_object output~>"results")~>"video_url").

(** [part.text] that is not blank *)
Definition has_words (part : image_part) : bool :=
  match part with Words text => nonempty_text (trim text) | Picture _ => false end.

Definition images_done (k : image_kind) (body : jsval) : jsval :=
  let content := imageContent body in
  match pictures content with
  | image :: _ => JObj ["status" ↦ str "SUCCESS"; "url" ↦ JStr image]
  | [] =>
      if is_kind k image26 && existsb has_words content then JObj ["status" ↦ str "SUCCESS"]
      else JObj ["status" ↦ str "FAILURE"; "reason" ↦ str "image task succeeded without any images"]
  end.

Definition failure_reason (body output : jsval) : jsval :=
  if truthy body~>"message" then body~>"message"
  else if truthy output~>"message" then
    JStr (js "task failed, code: " ++ js_text (js_or output~>"code" (JStr [])) ++ js " , message: "
          ++ js_text output~>"message")
  else str "task failed".

Definition parseTaskResult (ctx body : jsval) : JS jsval :=
  output ← body~>!"output";
  let output := or_object output in
  let status := output~>"task_status" in
  if equals status "PENDING" then Ok (JObj ["status" ↦ str "QUEUED"])
  else if equals status "RUNNING" then Ok (JObj ["status" ↦ str "IN_PROGRESS"])
  else if equals status "SUCCEEDED" then
    image ← imageModel ctx;
    Ok (match image with
        | Some k => images_done k body
        | None => JObj ["status" ↦ str "SUCCESS"; "url" ↦ JStr (videoURL body)]
        end)
  else if one_of status [js "FAILED"; js "CANCELED"; js "UNKNOWN"] then
    Ok (JObj ["status" ↦ str "FAILURE"; "reason" ↦ failure_reason body output])
  else Ok (JObj ["status" ↦ str "UNKNOWN";
                 "reason" ↦ JStr (js "unrecognized status: " ++ js_text (js_or status (JStr [])))]).

(** ** Artifacts *)

Definition image_key (index : nat) : jsstr := js "image-" ++ nat_text (S index).
Definition image_artifact (index : nat) (image : jsstr) : jsval :=
  JObj ["key" ↦ JStr (image_key index); "type" ↦ str "image"].

Definition listArtifacts (task : jsval) : JS jsval :=
  status ← task~>!"status";
  if is_not status "SUCCESS" then Ok (JArr [])
  else
    let body := artifactData task in
    Ok (match pictures (imageContent body) with
        | [] => artifact_list video_artifact (nonempty_text (videoURL body))
        | images => JArr (imap image_artifact images)
        end).

Fixpoint keyed_image (key : jsval) (index : nat) (images : list jsstr) : jsstr :=
  match images with
  | [] => []
  | image :: images => if strict_eq key (JStr (image_key index)) then image else keyed_image key (S index) images
  end.

Definition buildContentRequest (ctx : jsval) : JS jsval :=
  key ← ctx~>!"artifactKey";
  let url := if equals key "video" then videoURL (artifactData ctx)
             else keyed_image key 0 (pictures (imageContent (artifactData ctx))) in
  if nonempty_text url then public_download url ctx else artifact_not_found.

(** ** Results *)

Definition responsesInput (req : jsval) : jsstr * list jsstr := responses_input req.
Definition responsesVideoText (ctx : jsval) : JS jsstr := responses_video_text ctx.

(** The parts of the text, with the number of the images before them. *)
Fixpoint output_parts (ctx : jsval) (index : nat) (content : list image_part) : JS (list jsstr) :=
  match content with
  | [] => Ok []
  | Picture _ :: content =>
      artifacts ← ctx~>!"artifacts";
      let artifact := get (or_object artifacts) (image_key index) in
      _ ← throw_if (negb (truthy artifact) || negb (truthy artifact~>"url")) (js "image artifact is unavailable");
      parts ← output_parts ctx (S index) content;
      Ok ((js "![Image " ++ nat_text (S index) ++ js "](<" ++ js_text artifact~>"url" ++ js ">)") :: parts)
  | Words text :: content => parts ← output_parts ctx index content; Ok (text :: parts)
  end.

Definition responsesOutputText (ctx task : jsval) : JS jsstr :=
  match imageContent (artifactData task) with
  | [] => responsesVideoText ctx
  | content => parts ← output_parts ctx 0 content; Ok (join [10%N; 10%N] parts)
  end.

Definition failed_event : jsval :=
  JObj ["type" ↦ str "error"; "code" ↦ str "task_failed"; "message" ↦ str "task failed"].

Definition renderEvents (ctx task previousState : jsval) : JS jsval :=
  _ ← task~>!"status";
  let status := task_status task in
  let same := truthy previousState && strict_eq previousState~>"status" (JStr status) in
  if jseq status (js "SUCCESS") then
    text ← responsesOutputText ctx task;
    Ok (rendered (if same then [] else if nonempty_text text then [output_event text] else []) task true)
  else if jseq status (js "FAILURE") then Ok (rendered [failed_event] task true)
  else if same && strict_eq previousState~>"progress" (task_progress task) then Ok (rendered [] task false)
  else Ok (rendered [progress_event task] task false).

Definition renderFinal (ctx task : jsval) : JS jsval :=
  render_final (responsesOutputText ctx task) ["vendor" ↦ str "ali"].

(** ** The Responses protocol *)

Definition copy_owned (req : jsval) (keys : list jsstr) (body : obj) : obj :=
  fold_left (λ body key, put_if (has_own req key) body key (get req key)) keys body.

Definition RESPONSES_KEYS : list jsstr :=
  [js "size"; js "resolution"; js "ratio"; js "duration"; js "seconds"; js "auto_duration"; js "prompt_extend";
   js "watermark"; js "audio"; js "seed"; js "shot_type"; js "negative_prompt"; js "img_url"; js "image_url";
   js "first_frame_url"; js "last_frame_url"; js "audio_url"; js "template"; js "media"].
Definition RESPONSES_IMAGE_KEYS : list jsstr :=
  [js "n"; js "enable_interleave"; js "max_images"; js "enable_sequential"; js "thinking_mode"; js "bbox_list";
   js "color_palette"].

(** [if (trimmed(req[key])) body[key] = trimmed(req[key]);] *)
Definition copy_text (req : jsval) (key : string) (body : obj) : obj :=
  let text := trimmed (get req (js key)) in put_if (nonempty_text text) body (js key) (JStr text).
Arguments copy_text req key%_string body.

Definition distinct_images (req : jsval) (found_images : list jsstr) : list jsstr :=
  fold_left (λ images image, if str_in image images then images else images ++ [image]) found_images
    (fold_left add_image (array_or_empty (or_array req~>"images")) []).

Definition responses_request (req : jsval) (model text : jsstr) (found_images : list jsstr) : obj :=
  let body := copy_text req "image" ["model" ↦ JStr model; "prompt" ↦ JStr (prompt_of text req)] in
  let images := distinct_images req found_images in
  let body := put_if (negb (bool_decide (images = []))) body (js "images") (JArr (map JStr images)) in
  let body := copy_text req "input_reference" body in
  copy_owned req [js "metadata"] (copy_owned req RESPONSES_KEYS body).

Definition decode_image (req : jsval) (model : jsstr) (body : obj) : JS jsval :=
  let body := copy_owned req RESPONSES_IMAGE_KEYS body in
  image ← firstImage (JObj body);
  Ok (submit_request (JStr model)
        (if nonempty_text image then str "image_to_image" else str "text_to_image") body).

Definition needs_prompt (ctx : jsval) (model : jsstr) : bool :=
  match entry_of WAN_MODELS (modelKey (js_or ctx~>"upstreamModel" (JStr model))) with
  | Some profile => is_wan profile Wan_size || is_wan profile Wan_t2v
  | None => false
  end.

Definition decode_video (ctx : jsval) (model prompt : jsstr) (body : obj) : JS jsval :=
  body ← normalizeRequest (JObj body);
  action ← videoAction (JObj body);
  input ← objectValue (or_object (JObj body)~>"metadata")~>"input" "metadata.input";
  _ ← throw_if (negb (nonempty_text (trimmed (nullish input~>"prompt" (JStr prompt))))
                && (equals action "text_to_video" || needs_prompt ctx model)) (js "input is required");
  Ok (submit_request (JStr model) action body).

Definition responses_decodeRequest (ctx : jsval) : JS jsval :=
  req ← responses_body ctx;
  model ← check_model ctx~>"model";
  _ ← check_input req;
  _ ← check_images req;
  let '(text, found_images) := responsesInput req in
  let body := responses_request req model text found_images in
  image ← imageModel (JObj ["upstreamModel" ↦ ctx~>"upstreamModel"; "model" ↦ JStr model]);
  match image with
  | Some _ => decode_image req model body
  | None => decode_video ctx model (prompt_of text req) body
  end.

(** ** Native routes *)

Definition native_body (ctx : jsval) : JS jsval :=
  body ← ctx~>!"body";
  _ ← throw_if (negb (truthy body) || is_not body~>"kind" "json" || negb (plain_object body~>"value"))
        (js "JSON object required");
  Ok body~>"value".

Definition native_createImageTask (ctx : jsval) : JS jsval :=
  req ← native_body ctx;
  _ ← throw_if (is_defined req~>"stream" && negb (strict_eq req~>"stream" (JBool false)))
        (js "native task responses are aggregated JSON; configure upstream streaming in parameters");
  input ← objectValue req~>"input" "input";
  parameters ← objectValue req~>"parameters" "parameters";
  let path := js_text (js_or ctx~>"path" (JStr [])) in
  let mode := if includes (js "/multimodal-generation/") path then str "sync" else str "async" in
  Ok (JObj ["kind" ↦ str "submit"; "model" ↦ req~>"model";
            "requestBody" ↦ JObj ["model" ↦ req~>"model";
              "metadata" ↦ JObj ["input" ↦ input; "parameters" ↦ parameters; "upstream_mode" ↦ mode]]]).

Definition native_imageCreated (ctx task : jsval) : JS jsval := data ← task~>!"data"; Ok (or_object data).

Definition native_createVideoTask (ctx : jsval) : JS jsval :=
  req ← native_body ctx;
  input ← objectValue req~>"input" "input";
  parameters ← objectValue req~>"parameters" "parameters";
  let body := ["model" ↦ req~>"model"; "metadata" ↦ JObj ["input" ↦ input; "parameters" ↦ parameters]] in
  let body := put_if (is_defined input~>"prompt") body (js "prompt") input~>"prompt" in
  let image := js_or (js_or input~>"img_url" input~>"image_url") input~>"first_frame_url" in
  let body := put_if (is_defined image) body (js "image") image in
  action ← videoAction (JObj body);
  normal ← normalizeRequest (JObj body);
  Ok (submit_request req~>"model" action normal).

Definition native_taskCreated (ctx task : jsval) : JS jsval :=
  data ← task~>!"data";
  Ok (JObj ["request_id" ↦ js_or (or_object data)~>"request_id" (JStr []);
            "output" ↦ JObj ["task_id" ↦ task~>"task_id"; "task_status" ↦ str "PENDING"]]).

Definition native_taskStatus (ctx task : jsval) : JS jsval :=
  data ← task~>!"data";
  let data := or_object data in
  let output := put (assign [] (or_object data~>"output")) (js "task_id") task~>"task_id" in
  Ok (JObj (put (assign [] data) (js "output") (JObj output))).

Definition native_error (ctx error : jsval) : JS jsval :=
  code ← error~>!"code";
  Ok (JObj ["code" ↦ code; "message" ↦ error~>"message"; "request_id" ↦ JStr []]).

(** ** The image protocol *)

Definition field_values (fields : jsval) (name : jsstr) (req : obj) : JS obj :=
  let values := get fields name in
  length ← values~>!"length";
  _ ← throw_if (ngtb (to_number length) (nZ 1)) (name ++ js " must be provided once");
  Ok (put req name values~>"0").

(** [if (req[key] !== undefined) req[key] = Number(req[key]);] *)
Definition read_number (req : obj) (key : jsstr) : obj :=
  let v := get (JObj req) key in put_if (is_defined v) req key (JNum (to_number v)).

Definition read_boolean (key : jsstr) (req : obj) : JS obj :=
  let v := get (JObj req) key in
  if is_undefined v then Ok req
  else
    _ ← throw_if (is_not v "true" && is_not v "false") (key ++ js " must be true or false");
    Ok (put req key (JBool (equals v "true"))).

Definition read_json (key : jsstr) (req : obj) : JS obj :=
  let v := get (JObj req) key in
  if is_undefined v then Ok req
  else match json_parse (js_text v) with
       | Some parsed => Ok (put req key parsed)
       | None => throw (key ++ js " must be a JSON object string")
       end.

(** [/^image(\[\d*\])?$/.test(name)] *)
Definition image_field (name : jsstr) : bool :=
  match strip_prefix (js "image") name with
  | Some [] => true
  | Some (91%N :: rest) => jseq (span_digits rest).2 (js "]")
  | _ => false
  end.

Definition upload (file : jsval) : jsval :=
  JObj ["__fileRef" ↦ file~>"ref"; "encoding" ↦ str "dataUrl";
        "mimeType" ↦ JStr (first_text (trimmed file~>"mimeType") (js "image/png"));
        "maxBytes" ↦ int MAX_INPUT_IMAGE_BYTES].

(** The mask and the uploaded images. *)
Definition read_file (file : jsval) (state : obj * list jsval) : JS (obj * list jsval) :=
  field ← file~>!"field";
  Ok (if equals field "mask" then (put state.1 (js "mask") (upload file), state.2)
      else if image_field (js_text field) then (state.1, state.2 ++ [upload file]) else state).

Definition NUMBER_FIELDS : list jsstr :=
  [js "n"; js "seed"; js "max_images"; js "upscale_factor"; js "strength"; js "top_scale"; js "bottom_scale";
   js "left_scale"; js "right_scale"].
Definition BOOLEAN_FIELDS : list jsstr :=
  [js "prompt_extend"; js "watermark"; js "enable_thinking"; js "enable_interleave"; js "enable_sequential";
   js "thinking_mode"; js "is_sketch"].

Definition image_form (body : jsval) : JS (obj * list jsval) :=
  let fields := or_object body~>"fields" in
  req ← rfold (field_values fields) (entries fields).*1 [];
  let req := fold_left read_number NUMBER_FIELDS req in
  req ← rfold read_boolean BOOLEAN_FIELDS req;
  req ← rfold read_json [js "parameters"; js "input"] req;
  files ← iterate (or_array body~>"files");
  rfold read_file files (req, []).

Definition image_form_or_json (ctx : jsval) : JS (jsval * list jsval) :=
  let body := ctx~>"body" in
  if truthy body && equals body~>"kind" "json" then
    _ ← throw_if (negb (plain_object body~>"value")) (js "request body must be an object");
    Ok (body~>"value", [])
  else if truthy body && equals body~>"kind" "multipart" then
    '(req, uploads) ← image_form body; Ok (JObj req, uploads)
  else throw (js "JSON or multipart body required").

(** [[].concat(v === undefined ? [] : v)] *)
Definition concat_value (v : jsval) : list jsval :=
  match v with JUndefined => [] | JArr items => items | v => [v] end.

Definition accept_image (image : jsval) (images : list jsval) : JS (list jsval) :=
  match image with
  | JStr s =>
      if isImageInput image || nonempty_text (trimmed image) then Ok (images ++ [JStr (trimmed image)])
      else throw (js "image must be an HTTP URL or Base64 data URL")
  | _ => if isImageInput image then Ok (images ++ [image])
         else throw (js "image must be an HTTP URL or Base64 data URL")
  end.

Definition IMAGE_PROTOCOL_KEYS : list jsstr :=
  [js "size"; js "negative_prompt"; js "prompt_extend"; js "prompt_extend_mode"; js "enable_thinking"; js "watermark";
   js "seed"; js "enable_interleave"; js "max_images"; js "enable_sequential"; js "thinking_mode"; js "bbox_list";
   js "color_palette"; js "function"; js "mask"; js "strength"; js "top_scale"; js "bottom_scale"; js "left_scale";
   js "right_scale"; js "upscale_factor"; js "is_sketch"].

(** [if (req[key] !== undefined) metadata[key] = objectValue(req[key], key);] *)
Definition pass_object (req : jsval) (key : string) (metadata : obj) : JS obj :=
  let v := get req (js key) in
  if is_undefined v then Ok metadata else o ← objectValue v key; Ok (put metadata (js key) o).
Arguments pass_object req key%_string metadata.

Definition check_prompt (req : jsval) (prompt : jsval) : JS unit :=
  if nonempty_text (trimmed prompt) then Ok tt
  else
    input ← objectValue req~>"input" "input";
    throw_if (negb (truthy input~>"messages") && negb (truthy input~>"prompt")) (js "prompt is required").

Definition image_decodeRequest (ctx : jsval) : JS jsval :=
  name ← ctx~>!"model";
  model ← check_model name;
  '(req, uploads) ← image_form_or_json ctx;
  let stream := req~>"stream" in
  _ ← throw_if (is_defined stream && negb (strict_eq stream (JBool false)) && is_not stream "false")
        (js "stream is not supported; the complete image response is returned once all images are generated");
  let format := req~>"response_format" in
  _ ← throw_if (is_defined format && is_not format "url" && is_not format "b64_json")
        (js "response_format must be url or b64_json");
  let prompt := if is_text req~>"prompt" then req~>"prompt" else JStr [] in
  _ ← check_prompt req prompt;
  let n := nullish req~>"n" (int 1) in
  _ ← throw_if (negb (integer_value n) || nltb (to_number n) (nZ 1)) (js "n must be a positive integer");
  listed ← rfold accept_image (concat_value req~>"image" ++ concat_value req~>"images") [];
  let images := listed ++ uploads in
  _ ← throw_if (equals ctx~>"operation" "edit" && bool_decide (length images = 0)) (js "image is required");
  let body := ["model" ↦ JStr model; "prompt" ↦ prompt; "n" ↦ n] in
  let body := put_if (negb (bool_decide (length images = 0))) body (js "images") (JArr images) in
  let body := copy_owned req IMAGE_PROTOCOL_KEYS body in
  metadata ← pass_object req "parameters" [];
  metadata ← pass_object req "input" metadata;
  let body := put_if (negb (bool_decide (length metadata = 0))) body (js "metadata") (JObj metadata) in
  Ok (submit_request (JStr model)
        (if bool_decide (length images = 0) then str "text_to_image" else str "image_to_image") body).

Definition image_render (ctx task : jsval) : JS jsval :=
  let data := artifactData task in
  created ← task~>!"created_at";
  Ok (JObj ["created" ↦ created; "data" ↦ JArr (map imageDatum (pictures (imageContent data))); "metadata" ↦ data]).

(** ** The video protocol *)

Definition video_fields (fields : jsval) (name : jsstr) (req : obj) : JS obj :=
  if jseq name (js "images") then Ok (put req name (or_array (get fields name)))
  else v ← first_value fields name; Ok (put req name v).

Definition video_form (body : jsval) : JS obj :=
  _ ← throw_if (truthy (or_array body~>"files")~>"length") (js "Alibaba requires image references to be URLs");
  let fields := or_object body~>"fields" in
  req ← rfold (video_fields fields) (entries fields).*1 [];
  req ← form_metadata req;
  let req := form_seconds req in
  let req := fold_left read_number [js "duration"; js "seed"] req in
  rfold read_boolean [js "prompt_extend"; js "watermark"; js "audio"; js "auto_duration"] req.

Definition video_json_or_form (ctx : jsval) : JS jsval :=
  body ← ctx~>!"body";
  if truthy body && equals body~>"kind" "json" then Ok body~>"value"
  else if truthy body && equals body~>"kind" "multipart" then req ← video_form body; Ok (JObj req)
  else throw (js "JSON or multipart body required").

Definition video_decodeRequest (ctx : jsval) : JS jsval :=
  req ← video_json_or_form ctx;
  _ ← throw_if (negb (plain_object req)) (js "request body must be an object");
  _ ← check_images req;
  body ← normalizeRequest (JObj (with_model req ctx));
  action ← videoAction (JObj body);
  Ok (submit_request ctx~>"model" action body).

Definition upstream_statuses : obj :=
  ["PENDING" ↦ str "queued"; "RUNNING" ↦ str "in_progress"; "SUCCEEDED" ↦ str "completed"; "FAILED" ↦ str "failed";
   "CANCELED" ↦ str "failed"; "UNKNOWN" ↦ str "failed"].

Definition video_render (ctx task : jsval) : JS jsval :=
  data ← task~>!"data";
  let data := or_object data in
  let output := or_object data~>"output" in
  let properties := task~>"properties" in
  let model := if truthy properties then js_or properties~>"origin_model_name" (JStr []) else JStr [] in
  let video :=
    ["id" ↦ task~>"task_id"; "object" ↦ str "video"; "model" ↦ model;
     "status" ↦ js_or (table_get upstream_statuses output~>"task_status") (str "unknown");
     "progress" ↦ JNum (percentage task~>"progress" "0"); "created_at" ↦ task~>"created_at";
     "completed_at" ↦ task~>"updated_at"] in
  let error_of (v : jsval) : jsval := JObj ["code" ↦ v~>"code"; "message" ↦ js_or v~>"message" (JStr [])] in
  Ok (JObj (if truthy data~>"code" then put video (js "error") (error_of data)
            else put_if (truthy output~>"code") video (js "error") (error_of output))).
End alibaba.
