(* ===== verification/AlibabaStream.v ===== *)
(** * Streamed answers of the Alibaba plugin

    Models [parseSubmitEventDelta] of [src/plugins/tasks/alibaba/plugin.js]:
    an answer that arrives as events is turned into changes, which the gateway
    applies to a document of its own ([pkg/jsplugin/json_state.go],
    [relay/channel/task/jsplugin/submit_stream.go]).  The reference is the
    answer put together directly ([assemble]); the document is shown to be
    that answer. *)
From stdpp Require Import base list option numbers sets.
From Stdlib Require Import ZArith SpecFloat Lia.
From S2P Require Import Prelude.
From S2P Require Import JsString.
From S2P Require Import JsNumber.
From S2P Require Import Syntax.
From S2P Require Import Runtime.
From S2P Require Import Display.
From S2P Require Import Json.
From S2P Require Import JsText.
From S2P Require Import JsonPrint.
From S2P Require Import AdvancedCustom.
From S2P Require Import JsDynamic.
From S2P Require Import PluginCommon.

(** ** Changes *)

Inductive segment : Type := Key (key : jsstr) | At (index : nat).
Inductive change : Type :=
| Set_ (path : list segment) (value : jsval)
| Append (path : list segment) (value : jsval)
| AppendText (path : list segment) (value : jsstr).

(** [f] at the end of a path; only the last key may be new. *)
Fixpoint change_at (path : list segment) (f : option jsval → option jsval) (v : jsval) : option jsval :=
  match path with
  | [] => f (Some v)
  | Key key :: path =>
      match v with
      | JObj fields =>
          match own fields key, path with
          | Some child, _ => child ← change_at path f child; Some (JObj (put fields key child))
          | None, [] => child ← f None; Some (JObj (put fields key child))
          | None, _ => None
          end
      | _ => None
      end
  | At index :: path =>
      match v with
      | JArr items => child ← items !! index; child ← change_at path f child; Some (JArr (<[index := child]> items))
      | _ => None
      end
  end.

Definition append_value (value : jsval) (v : option jsval) : option jsval :=
  match v with Some (JArr items) => Some (JArr (items ++ [value])) | _ => None end.
Definition append_text (text : jsstr) (v : option jsval) : option jsval :=
  match v with Some (JStr s) => Some (JStr (s ++ text)) | _ => None end.

Definition apply_change (c : change) (v : jsval) : option jsval :=
  match c with
  | Set_ path value => change_at path (λ _, Some value) v
  | Append path value => change_at path (append_value value) v
  | AppendText path text => change_at path (append_text text) v
  end.

(** ** The plugin *)

(** What the plugin keeps between events; it is only read by the plugin. *)
Record choice_state : Type := { count : nat; lastText : bool; finishReason : jsval }.
Record stream_state : Type := { choices : list choice_state; hasUsage : bool }.
Definition fresh_choice : choice_state := {| count := 0; lastText := false; finishReason := JStr [] |}.
Definition fresh_stream : stream_state := {| choices := []; hasUsage := false |}.

Definition OUTPUT : segment := Key (js "output").
Definition CHOICES : list segment := [OUTPUT; Key (js "choices")].
Definition content_path (index : nat) : list segment := CHOICES ++ [At index; Key (js "message"); Key (js "content")].
Definition new_choice : jsval :=
  JObj ["message" ↦ JObj ["role" ↦ str "assistant"; "content" ↦ JArr []]].

(** One part of the content of a choice. *)
Definition stream_part (index : nat) (control : choice_state) (part : jsval) : JS (choice_state * change) :=
  _ ← throw_if (negb (is_object part)) (js "invalid DashScope stream content");
  let appended := Append (content_path index) part in
  let next (text : bool) : choice_state :=
    {| count := S (count control); lastText := text; finishReason := finishReason control |} in
  Ok (match part~>"text" with
      | JStr text =>
          if lastText control
          then (control, AppendText (content_path index ++ [At (count control - 1); Key (js "text")]) text)
          else (next true, appended)
      | _ => (next false, appended)
      end).

Fixpoint stream_parts (index : nat) (control : choice_state) (parts : list jsval) : JS (choice_state * list change) :=
  match parts with
  | [] => Ok (control, [])
  | part :: parts =>
      '(control, c) ← stream_part index control part;
      '(control, cs) ← stream_parts index control parts;
      Ok (control, c :: cs)
  end.

Definition finishes (choice : jsval) : bool :=
  truthy choice~>"finish_reason" && is_not choice~>"finish_reason" "null".

Definition stream_choice (index : nat) (choice : jsval) (controls : list choice_state)
  : JS (list choice_state * list change) :=
  match (choice~>"message")~>"content" with
  | JArr parts =>
      let '(controls, opened) :=
        match controls !! index with
        | Some _ => (controls, [])
        | None => (controls ++ [fresh_choice], [Append CHOICES new_choice])
        end in
      '(control, changes) ← stream_parts index (default fresh_choice (controls !! index)) parts;
      let reason := choice~>"finish_reason" in
      Ok (if finishes choice
          then (<[index := {| count := count control; lastText := lastText control; finishReason := reason |}]> controls,
                opened ++ changes ++ [Set_ (CHOICES ++ [At index; Key (js "finish_reason")]) reason])
          else (<[index := control]> controls, opened ++ changes))
  | _ => throw (js "invalid DashScope stream choice")
  end.

Fixpoint stream_choices (index : nat) (items : list jsval) (controls : list choice_state)
  : JS (list choice_state * list change) :=
  match items with
  | [] => Ok (controls, [])
  | choice :: items =>
      '(controls, cs) ← stream_choice index choice controls;
      '(controls, cs') ← stream_choices (S index) items controls;
      Ok (controls, cs ++ cs')
  end.

(** [choices[index]] for [index < choices.length]; of a value that is not an
    array, the loop ends at the first index that is missing, and there is one
    among the first [1 + length (entries v)]. *)
Definition listed_choices (v : jsval) : list jsval :=
  match v with
  | JArr items => items
  | _ =>
      let length_of := to_number v~>"length" in
      map (λ i, get v (nat_text i))
        (List.filter (λ i, nltb (nZ (Z.of_nat i)) length_of) (seq 0 (S (length (entries v)))))
  end.

Definition usage_changes (usage : jsval) : list change :=
  map (λ kv, Set_ [Key (js "usage"); Key kv.1] kv.2) (entries usage).

(** The state stands for the copy [utils.json.clone] makes of it. *)
Definition parseSubmitEventDelta (ctx event : jsval) (previousState : option stream_state)
  : JS (list change * stream_state * bool) :=
  data ← event~>!"data";
  match json_parse (js_text data) with
  | None => Err SyntaxError
  | Some body =>
      _ ← throw_if (negb (plain_object body)) (js "invalid DashScope stream event");
      _ ← throw_if (truthy body~>"code" || equals event~>"event" "error")
            (js_text (js_or body~>"code" (str "upstream_error")) ++ js ": "
             ++ js_text (js_or body~>"message" (str "stream failed")));
      let state := default fresh_stream previousState in
      let opening := match previousState with
                     | None => [Set_ [] (JObj ["output" ↦ JObj ["choices" ↦ JArr []; "finished" ↦ JBool false]])]
                     | Some _ => []
                     end in
      let request := if truthy body~>"request_id" then [Set_ [Key (js "request_id")] body~>"request_id"] else [] in
      let usage := body~>"usage" in
      let used := if truthy usage
                  then (if hasUsage state then [] else [Set_ [Key (js "usage")] (JObj [])]) ++ usage_changes usage
                  else [] in
      let items := listed_choices (or_array (or_object body~>"output")~>"choices") in
      '(controls, changes) ← stream_choices 0 items (choices state);
      let done := negb (bool_decide (length controls = 0))
                  && forallb (λ c, equals (finishReason c) "stop") controls in
      Ok (opening ++ request ++ used ++ changes ++ [Set_ [OUTPUT; Key (js "finished")] (JBool done)],
          {| choices := controls; hasUsage := hasUsage state || truthy usage |}, done)
  end.

(** ** The gateway *)

Section gateway.
(** The limits on bytes, nodes and depth of the document. *)
Variable fits : jsval → bool.

Definition apply_one (doc : option jsval) (c : change) : option jsval :=
  doc ← doc; doc ← apply_change c doc; if fits doc then Some doc else None.
Definition MAX_CHANGES : nat := 256.
Definition apply_changes (cs : list change) (doc : jsval) : option jsval :=
  if MAX_CHANGES <? length cs then None else fold_left apply_one cs (Some doc).

Inductive stream_error : Type := Rejected (e : thrown) | InvalidChanges | Unfinished.

Fixpoint readSubmitEvents (ctx : jsval) (events : list jsval) (state : option stream_state) (doc : jsval)
  : result stream_error jsval :=
  match events with
  | [] => Err Unfinished
  | event :: events =>
      match parseSubmitEventDelta ctx event state with
      | Err e => Err (Rejected e)
      | Ok (changes, state, done) =>
          match apply_changes changes doc with
          | None => Err InvalidChanges
          | Some doc => if done : bool then Ok doc else readSubmitEvents ctx events (Some state) doc
          end
      end
  end.
End gateway.

(** ** The answer put together *)

Record answer : Type := { parts : list jsval; reason : option jsval }.
Record assembly : Type := { request : option jsval; usage : option obj; answers : list answer }.
Definition no_answer : answer := {| parts := []; reason := None |}.
Definition nothing : assembly := {| request := None; usage := None; answers := [] |}.

(** A text continues the text before it; anything else is a part of its own. *)
Definition text_part (part : jsval) : option (obj * jsstr) :=
  match part with
  | JObj fields => match own fields (js "text") with Some (JStr text) => Some (fields, text) | _ => None end
  | _ => None
  end.
Definition last_text (ps : list jsval) : option (obj * jsstr) := part ← last ps; text_part part.
Definition merge_part (ps : list jsval) (part : jsval) : list jsval :=
  match last_text ps, part~>"text" with
  | Some (fields, before), JStr text => removelast ps ++ [JObj (put fields (js "text") (JStr (before ++ text)))]
  | _, _ => ps ++ [part]
  end.

Definition choice_content (choice : jsval) : list jsval :=
  match (choice~>"message")~>"content" with JArr ps => ps | _ => [] end.
Definition assemble_choice (choice : jsval) (a : answer) : answer :=
  {| parts := fold_left merge_part (choice_content choice) (parts a);
     reason := if finishes choice then Some choice~>"finish_reason" else reason a |}.
(** Choices of an event continue those before it, one by one. *)
Fixpoint assemble_choices (items : list jsval) (l : list answer) : list answer :=
  match items with
  | [] => l
  | choice :: items =>
      assemble_choice choice (default no_answer (head l)) :: assemble_choices items (tail l)
  end.

Definition event_choices (body : jsval) : list jsval := listed_choices (or_array (or_object body~>"output")~>"choices").
Definition assemble (a : assembly) (body : jsval) : assembly :=
  {| request := if truthy body~>"request_id" then Some body~>"request_id" else request a;
     usage := if truthy body~>"usage" then Some (assign (default [] (usage a)) body~>"usage") else usage a;
     answers := assemble_choices (event_choices body) (answers a) |}.

Definition answer_value (a : answer) : jsval :=
  JObj (["message" ↦ JObj ["role" ↦ str "assistant"; "content" ↦ JArr (parts a)]]
        ++ match reason a with Some r => ["finish_reason" ↦ r] | None => [] end).

Definition finished (a : assembly) : bool :=
  negb (bool_decide (length (answers a) = 0))
  && forallb (λ x, match reason x with Some r => equals r "stop" | None => false end) (answers a).

(** The document is the answer. *)
Record shown (a : assembly) (done : bool) (doc : jsval) : Prop := {
  shown_request : doc~>"request_id" = default JUndefined (request a);
  shown_usage : doc~>"usage" = default JUndefined (JObj <$> usage a);
  shown_choices : (doc~>"output")~>"choices" = JArr (map answer_value (answers a));
  shown_finished : (doc~>"output")~>"finished" = JBool done;
  shown_results : (doc~>"output")~>"results" = JUndefined
}.
