(* ===== verification/PluginUsage.v ===== *)
(** * Facts shared by the plugins

    Requests, events and artifacts of the common functions, and the usage that
    plugins report. *)
From stdpp Require Import base list option numbers sets.
From Stdlib Require Import ZArith SpecFloat Lia.
From S2P Require Import Prelude.
From S2P Require Import JsString.
From S2P Require Import JsNumber.
From S2P Require Import Syntax.
From S2P Require Import Runtime.
From S2P Require Import Display.
From S2P Require Import PriceTableFacts.
From S2P Require Import Json.
From S2P Require Import EditorFacts.
From S2P Require Import JsText.
From S2P Require Import JsonPrint.
From S2P Require Import AdvancedCustom.
From S2P Require Import CatalogueTheorems.
From S2P Require Import JsDynamic.
From S2P Require Import PluginCommon.

(** ** Facts about the functions the plugins share

    The texts of results cannot leave their attribute, the events of a task
    are its changes followed by one closing event, and the images and form
    fields of a request are the ones it contains. *)

(** ** Escaping *)

Definition entity (c : N) : jsstr :=
  if (c =? cu "&")%N then js "&amp;"
  else if (c =? DQUOTE)%N then js "&quot;"
  else if (c =? cu "<")%N then js "&lt;"
  else if (c =? cu ">")%N then js "&gt;"
  else [c].

(** The four replacements, each over the whole text, act character by
    character: none of them touches what an earlier one wrote. *)
Lemma escape_attribute_entities url : escape_attribute url = flat_map entity url.
Proof.
  unfold escape_attribute, replace_all. induction url as [|c url IH]; [done|].
  cbn [flat_map]. rewrite !flat_map_app, IH. f_equal. unfold entity.
  destruct (N.eqb_spec c (cu "&")) as [->|H1]; [reflexivity|]. cbn [flat_map app].
  destruct (N.eqb_spec c DQUOTE) as [->|H2]; [reflexivity|]. cbn [flat_map app].
  destruct (N.eqb_spec c (cu "<")) as [->|H3]; [reflexivity|]. cbn [flat_map app].
  destruct (N.eqb_spec c (cu ">")) as [->|H4]; reflexivity.
Qed.

(** A character that would end or open something in the markup. *)
Definition markup (c : N) : bool := (c =? DQUOTE)%N || (c =? cu "<")%N || (c =? cu ">")%N.

Lemma entity_no_markup c : forallb (λ x, negb (markup x)) (entity c) = true.
Proof.
  unfold entity.
  destruct (N.eqb_spec c (cu "&")); [reflexivity|].
  destruct (N.eqb_spec c DQUOTE) as [|H1]; [reflexivity|].
  destruct (N.eqb_spec c (cu "<")) as [|H2]; [reflexivity|].
  destruct (N.eqb_spec c (cu ">")) as [|H3]; [reflexivity|].
  cbn. unfold markup. by rewrite (proj2 (N.eqb_neq _ _) H1), (proj2 (N.eqb_neq _ _) H2), (proj2 (N.eqb_neq _ _) H3).
Qed.

Lemma escape_no_markup url : Forall (λ c, markup c = false) (escape_attribute url).
Proof.
  rewrite escape_attribute_entities. induction url as [|c url IH]; [constructor|].
  cbn [flat_map]. apply Forall_app. split; [|done].
  pose proof (entity_no_markup c) as H. rewrite forallb_forall in H.
  apply Forall_forall. intros x Hx%list_elem_of_In. by apply negb_true_iff, H.
Qed.

(** Reading the entities back, as a browser reads the attribute. *)
Definition read_entity (s : jsstr) : option (N * jsstr) :=
  match strip_prefix (js "&amp;") s with
  | Some r => Some (cu "&", r)
  | None =>
  match strip_prefix (js "&quot;") s with
  | Some r => Some (DQUOTE, r)
  | None =>
  match strip_prefix (js "&lt;") s with
  | Some r => Some (cu "<", r)
  | None =>
  match strip_prefix (js "&gt;") s with
  | Some r => Some (cu ">", r)
  | None => match s with c :: r => Some (c, r) | [] => None end
  end end end end.
Fixpoint unescape (fuel : nat) (s : jsstr) : jsstr :=
  match fuel with
  | 0 => []
  | S fuel => match read_entity s with Some (c, r) => c :: unescape fuel r | None => [] end
  end.
Definition attribute_value (s : jsstr) : jsstr := unescape (length s) s.

Lemma read_entity_entity c rest : read_entity (entity c ++ rest) = Some (c, rest).
Proof.
  unfold entity.
  destruct (N.eqb_spec c (cu "&")) as [->|H1]; [reflexivity|].
  destruct (N.eqb_spec c DQUOTE) as [->|H2]; [reflexivity|].
  destruct (N.eqb_spec c (cu "<")) as [->|H3]; [reflexivity|].
  destruct (N.eqb_spec c (cu ">")) as [->|H4]; [reflexivity|].
  assert (∀ p, strip_prefix (cu "&" :: p) ([c] ++ rest) = None) as E.
  { intros p. unfold strip_prefix. cbn [app starts_with].
    by rewrite (proj2 (N.eqb_neq _ _) (not_eq_sym H1)). }
  unfold read_entity.
  change (js "&amp;") with (cu "&" :: js "amp;"). change (js "&quot;") with (cu "&" :: js "quot;").
  change (js "&lt;") with (cu "&" :: js "lt;"). change (js "&gt;") with (cu "&" :: js "gt;").
  by rewrite !E.
Qed.

Lemma unescape_flat_map url : ∀ fuel, length (flat_map entity url) ≤ fuel →
  unescape fuel (flat_map entity url) = url.
Proof.
  induction url as [|c url IH]; intros fuel Hf; [by destruct fuel|].
  cbn [flat_map] in *. rewrite length_app in Hf.
  assert (1 ≤ length (entity c)).
  { unfold entity. repeat case_match; apply Nat.leb_le; reflexivity. }
  destruct fuel as [|fuel]; [lia|]. cbn [unescape]. rewrite read_entity_entity. f_equal. apply IH. lia.
Qed.

Lemma escape_round_trip url : attribute_value (escape_attribute url) = url.
Proof. rewrite escape_attribute_entities. by apply unescape_flat_map. Qed.

(** ** Events *)

Section events.
Context {H : Host} {U : TaskHost}.

Definition snapshot (task : jsval) : jsstr * jsval := (task_status task, task_progress task).

Definition final (task : jsval) : bool :=
  jseq (task_status task) (js "SUCCESS") || jseq (task_status task) (js "FAILURE").

(** Same status and progress as the last poll. *)
Definition unchanged (last : option jsval) (task : jsval) : bool :=
  match last with
  | Some t => jseq (task_status t) (task_status task) && strict_eq (task_progress t) (task_progress task)
  | None => false
  end.

(** The polls that show something new. *)
Fixpoint changes (last : option jsval) (polls : list jsval) : list jsval :=
  match polls with
  | [] => []
  | t :: polls => (if unchanged last t then [] else [t]) ++ changes (Some t) polls
  end.

(** The gateway renders poll after poll, passing back the state of the last
    rendering, until a rendering is done. *)
Fixpoint watch (render : jsval → jsval → JS jsval) (state : jsval) (polls : list jsval) : JS (list jsval * bool) :=
  match polls with
  | [] => Ok ([], false)
  | task :: polls =>
      r ← render task state;
      events ← array_items r~>"events";
      if truthy r~>"done" then Ok (events, true)
      else '(rest, finished) ← watch render r~>"state" polls; Ok (events ++ rest, finished)
  end.

(** The polls before the first final one, and that one. *)
Fixpoint running (polls : list jsval) : list jsval :=
  match polls with
  | [] => []
  | t :: polls => if final t then [] else t :: running polls
  end.
Definition closing (polls : list jsval) : option jsval := List.find final polls.

(** What a final task shows. *)
Definition closing_event (text : jsval → JS jsstr) (task : jsval) : JS jsval :=
  if jseq (task_status task) (js "SUCCESS") then t ← text task; Ok (output_event t) else Ok (error_event task).

Definition is_task (task : jsval) : Prop := is_nullish task = false.
Definition state_of (last : option jsval) : jsval :=
  match last with Some t => render_state t | None => JNull end.

Lemma jseq_sym a b : jseq a b = jseq b a.
Proof.
  destruct (jseq a b) eqn:E; [apply jseq_eq in E as ->; by rewrite jseq_refl|].
  symmetry. apply jseq_neq. apply jseq_neq in E. congruence.
Qed.

Lemma same_status last task :
  truthy (state_of last) && strict_eq (state_of last)~>"status" (JStr (task_status task)) =
  match last with Some t => jseq (task_status t) (task_status task) | None => false end.
Proof. by destruct last. Qed.

Lemma same_progress last task :
  truthy (state_of last) && strict_eq (state_of last)~>"status" (JStr (task_status task))
    && strict_eq (state_of last)~>"progress" (task_progress task) = unchanged last task.
Proof. by destruct last. Qed.

(** One rendering, by the status of the task. *)
Lemma render_running text task last :
  is_task task → final task = false →
  render_events text task (state_of last) =
  Ok (rendered (if unchanged last task then [] else [progress_event task]) task false).
Proof.
  intros Ht Hf. unfold render_events, dot. rewrite Ht. cbn [mbind result_bind].
  apply orb_false_iff in Hf as [-> ->]. rewrite same_progress. by destruct (unchanged last task).
Qed.

Lemma render_final_task text task last :
  is_task task → final task = true → (∀ t, last = Some t → final t = false) →
  render_events (text task) task (state_of last) =
  (e ← closing_event text task; Ok (rendered [e] task true)).
Proof.
  intros Ht Hf Hl. unfold render_events, dot, closing_event. rewrite Ht. cbn [mbind result_bind].
  apply orb_true_iff in Hf as [Hs|Hs].
  - rewrite Hs. destruct (text task) as [t|e]; [|done]. cbn [mbind result_bind].
    rewrite same_status. destruct last as [l|]; [|done].
    destruct (jseq (task_status l) (task_status task)) eqn:E; [|done].
    apply jseq_eq in E. specialize (Hl _ eq_refl). unfold final in Hl. by rewrite E, Hs in Hl.
  - rewrite Hs. destruct (jseq (task_status task) (js "SUCCESS")) eqn:E; [|done].
    apply jseq_eq in E. rewrite E in Hs. done.
Qed.

(** A task watched to its end, with a rendering that shows what is new while
    it runs, and [ends] when it is final. *)
Lemma watch_events (render : jsval → jsval → JS jsval) (ends : jsval → JS (list jsval)) :
  (∀ task last, is_task task → (∀ t, last = Some t → final t = false) →
     render task (state_of last) =
     if final task then es ← ends task; Ok (rendered es task true)
     else Ok (rendered (if unchanged last task then [] else [progress_event task]) task false)) →
  ∀ polls last, Forall is_task polls → (∀ t, last = Some t → final t = false) →
  watch render (state_of last) polls =
  match closing polls with
  | Some t => es ← ends t; Ok (map progress_event (changes last (running polls)) ++ es, true)
  | None => Ok (map progress_event (changes last (running polls)), false)
  end.
Proof.
  intros R. induction polls as [|t polls IH]; intros last Hp Hl; [done|].
  apply Forall_cons in Hp as [Ht Hp]. cbn [watch running]. unfold closing. cbn [List.find].
  rewrite R by done. destruct (final t) eqn:Hf; [by destruct (ends t)|]. cbn [mbind result_bind].
  change ((rendered ?e t false)~>"state") with (state_of (Some t)).
  cbn [array_items get own]. cbn -[watch map app state_of].
  rewrite IH; [|done|intros t' [= <-]; done].
  unfold closing. destruct (List.find final polls) as [c|].
  - destruct (ends c); [|done]. cbn. by destruct (unchanged last t).
  - cbn. by destruct (unchanged last t).
Qed.

End events.

(** ** Images *)

Lemma str_in_elem s l : str_in s l = true ↔ s ∈ l.
Proof.
  unfold str_in. rewrite existsb_exists. split.
  - intros (x & Hx & E). apply jseq_eq in E as ->. by apply list_elem_of_In.
  - intros Hs. exists s. split; [by apply list_elem_of_In|apply jseq_refl].
Qed.

Lemma str_in_not s l : str_in s l = false ↔ s ∉ l.
Proof. rewrite <- str_in_elem. by destruct (str_in s l). Qed.

(** The sources of the images of a request. *)
Definition image_sources (req : jsval) (input_images : list jsstr) : list jsval :=
  [req~>"image"; req~>"input_reference"] ++
  match or_array req~>"images" with JArr items => items | v => [v] end ++ map JStr input_images.

Lemma add_images_spec l : ∀ images,
  NoDup images → Forall (λ t, nonempty_text t = true) images →
  let r := fold_left add_image l images in
  NoDup r ∧ Forall (λ t, nonempty_text t = true) r ∧ prefix images r ∧
  ∀ x, x ∈ r ↔ x ∈ images ∨ nonempty_text x = true ∧ ∃ v, v ∈ l ∧ trimmed_text v = x.
Proof.
  induction l as [|v l IH]; intros images Hn Hne; cbn.
  - conjs; [done..|]. intros x. set_solver.
  - assert (NoDup (add_image images v) ∧ Forall (λ t, nonempty_text t = true) (add_image images v) ∧
      prefix images (add_image images v) ∧
      ∀ x, x ∈ add_image images v ↔ x ∈ images ∨ nonempty_text x = true ∧ trimmed_text v = x) as (A & B & P & C).
    { unfold add_image. destruct (nonempty_text (trimmed_text v)) eqn:E; cbn [andb].
      - destruct (str_in (trimmed_text v) images) eqn:F; cbn [negb].
        + apply str_in_elem in F. conjs; [done..|]. naive_solver.
        + apply str_in_not in F. conjs.
          * apply NoDup_app. conjs; [done|set_solver|apply NoDup_singleton].
          * apply Forall_app. by split; [|constructor].
          * by apply prefix_app_r.
          * intros x. rewrite elem_of_app, list_elem_of_singleton. naive_solver.
      - conjs; [done..|]. intros x. split; [by left|]. intros [?|[? <-]]; [done|congruence]. }
    destruct (IH _ A B) as (D & E & P' & F). conjs; [done..|by etrans|].
    intros x. rewrite F, C. set_solver.
Qed.

Lemma request_images_spec req found :
  let images := request_images req found in
  NoDup images ∧
  ∀ x, x ∈ images ↔ nonempty_text x = true ∧ ∃ v, v ∈ image_sources req found ∧ trimmed_text v = x.
Proof.
  destruct (add_images_spec (image_sources req found) []) as (A & _ & _ & B); [constructor..|].
  split; [exact A|]. intros x. rewrite (B x). split; [|by right]. intros [[]%not_elem_of_nil|?]; done.
Qed.

(** ** Form fields *)

Lemma first_value_Ok fields name v :
  first_value fields name = Ok v → v = (or_array (get fields name))~>"0".
Proof. unfold first_value. intros Hv. apply bind_Ok in Hv as (? & _ & Hv). by injection Hv. Qed.

Lemma form_fields_rfold fields names : ∀ req0 req,
  rfold (λ name req, v ← first_value fields name; Ok (put req name v)) names req0 = Ok req →
  Forall (λ name, is_ok (first_value fields name) = true) names ∧
  ∀ name, own req name = if str_in name names then Some (or_array (get fields name))~>"0" else own req0 name.
Proof.
  induction names as [|n names IH]; intros req0 req Hr; [by injection Hr as <-|].
  cbn [rfold] in Hr. apply bind_Ok in Hr as (req1 & H1 & Hr). apply bind_Ok in H1 as (v & Hv & H1).
  injection H1 as <-. apply IH in Hr as [Hf Hg]. split; [constructor; [by rewrite Hv|done]|].
  intros name. rewrite Hg, own_put. unfold str_in. cbn [existsb]. rewrite (jseq_sym name n).
  destruct (existsb (jseq name) names) eqn:E; [by rewrite orb_true_r|]. rewrite orb_false_r.
  destruct (jseq n name) eqn:F; [|done]. apply jseq_eq in F as ->. f_equal. by apply first_value_Ok.
Qed.

(** Every field of a form is given once, and the request holds its value. *)
Lemma form_fields_spec body req :
  form_fields body = Ok req →
  let fields := or_object body~>"fields" in
  Forall (λ name, is_ok (first_value fields name) = true) (entries fields).*1 ∧
  ∀ name, own req name =
    if str_in name (entries fields).*1 then Some (or_array (get fields name))~>"0" else None.
Proof. intros Hr. by apply form_fields_rfold in Hr. Qed.

(** At most one file is accepted, under the one field name. *)
Lemma accept_files check files : ∀ has r,
  rfold (accept_file check) files has = Ok r →
  match files with
  | [] => r = has
  | [f] => has = false ∧ r = true ∧ equals f~>"field" "input_reference" = true ∧ check f = Ok tt
  | _ => False
  end.
Proof.
  assert (∀ f has r, accept_file check f has = Ok r →
    has = false ∧ r = true ∧ equals f~>"field" "input_reference" = true ∧ check f = Ok tt) as Hone.
  { intros f has r Hr. unfold accept_file in Hr. inv_ok.
    apply dot_Ok in Hv as [_ ->]. apply throw_if_Ok in Hv0, Hv1. destruct v2.
    unfold is_not in Hv0. by apply negb_false_iff in Hv0. }
  intros has r Hr. destruct files as [|f [|g files]]; cbn [rfold] in Hr.
  - by injection Hr.
  - apply bind_Ok in Hr as (r' & Hr' & Hr). injection Hr as <-. by apply Hone.
  - apply bind_Ok in Hr as (r1 & H1 & Hr). apply bind_Ok in Hr as (r2 & H2 & _).
    apply Hone in H1 as (_ & -> & _). by apply Hone in H2 as (? & _).
Qed.

(** ** Usage the gateway can bill

    What the gateway requires of the facts a plugin reports, and the lemmas
    that lead from an accepted request to such facts: order of the numbers,
    uniqueness of the keys of a decoded request, and the request as the
    submission sees it. *)

(** ** Order of numbers *)

(** Numbers that compare equal and are not zero are the same. *)
Lemma neqb_eq x s m e : neqb x (S754_finite s m e) = true → x = S754_finite s m e.
Proof.
  unfold neqb, SFeqb. destruct x as [sx|sx| |sx mx ex]; cbn [SFcompare];
    try (destruct sx; done); try (destruct s; done); try done.
  destruct sx, s; try done; destruct (Z.compare_spec ex e) as [->| |]; try done; cbn;
    change (PosDef.Pos.compare_cont Eq ?a ?b) with (Pos.compare a b);
    by destruct (Pos.compare_spec mx m) as [->| |].
Qed.

Lemma integer_finite x : is_integer x = true → is_finite x = true.
Proof. by destruct x. Qed.

Lemma nmin_bounds x y :
  is_finite x = true → is_finite y = true → nltb NZERO x = true → nltb NZERO y = true →
  is_finite (nmin x y) = true ∧ nltb NZERO (nmin x y) = true ∧ nleb (nmin x y) y = true ∧ nleb (nmin x y) x = true.
Proof.
  intros Hx Hy Hx0 Hy0. pose proof (finite_compare x y Hx Hy) as Hc.
  assert (∀ z, is_finite z = true → nleb z z = true) as R.
  { intros z Hz. pose proof (neqb_refl z) as E. unfold nleb, SFleb, neqb, SFeqb in *.
    destruct (SFcompare z z) as [[]|]; try done; apply E; by destruct z. }
  unfold nmin. destruct (SFcompare x y) as [[]|] eqn:E; [| | |done].
  - assert (nleb x y = true ∧ nleb y x = true) as [E1 E2].
    { unfold nleb, SFleb. rewrite (SFcompare_swap x y), E. done. }
    destruct (is_neg_zero x); conjs; auto.
  - conjs; auto. unfold nleb, SFleb. by rewrite E.
  - conjs; auto. unfold nleb, SFleb. by rewrite (SFcompare_swap x y), E.
Qed.

(** ** Facts the gateway accepts *)

(** Seconds the gateway bills: a finite positive number of at most an hour. *)
Definition billable (x : num) : bool := is_finite x && ngtb x NZERO && nleb x (nZ 3600).

(** A value of a field: one of an enumeration, a boolean, or a finite
    non-negative number, seconds at most 3600. *)
Definition valid_number (unit : option jsstr) (x : num) : bool :=
  is_finite x && ngeb x NZERO &&
  match unit with Some u => negb (jseq u (js "second")) || nleb x (nZ 3600) | None => true end.
Definition valid_fact (d : BillingUsageFieldSchema) (v : jsval) : bool :=
  match f_enum d with
  | Some values => one_of v values
  | None => match f_type d, v with
            | Some FBoolean, JBool _ => true
            | Some FBoolean, _ => false
            | _, JNum x => valid_number (f_unit d) x
            | _, _ => false
            end
  end.
Definition usage_valid (schema : BillingUsageSchema) (facts : obj) : bool :=
  forallb (λ kv, match assoc schema kv.1 with Some d => valid_fact d kv.2 | None => true end) facts.

(** Such facts conform to the schema the price editor works with. *)
Lemma usage_valid_conforms schema facts :
  Forall (λ e, f_enum e.2 = None ∨ f_type e.2 ≠ Some FBoolean) schema →
  usage_valid schema facts = true → usage_conforms schema facts.
Proof.
  intros Hs Hv field d v Hd Ho. unfold usage_valid in Hv. rewrite forallb_forall in Hv.
  specialize (Hv (field, v)). cbn [fst snd] in Hv. rewrite Hd in Hv.
  assert (valid_fact d v = true) as V.
  { apply Hv. apply list_elem_of_In. by apply own_Some_elem. }
  rewrite Forall_forall in Hs. specialize (Hs _ (assoc_elem _ _ _ Hd)). cbn in Hs. unfold valid_fact in V.
  destruct (f_enum d) as [values|].
  - destruct (f_type d) as [[]|]; try (destruct v; try done; by eexists). by destruct Hs.
  - destruct (f_type d) as [[]|]; [done| |done]. destruct v; try done. by eexists.
Qed.

Lemma billable_valid x : billable x = true → valid_number (Some (js "second")) x = true.
Proof.
  unfold billable, valid_number. intros E. bools. unfold ngeb, ngtb in *.
  repeat (apply andb_true_iff; split); [done|by apply nltb_nleb|]. by apply orb_true_iff; right.
Qed.

Lemma usage_valid_cons schema k v facts d :
  assoc schema k = Some d → valid_fact d v = true → usage_valid schema facts = true →
  usage_valid schema ((k, v) :: facts) = true.
Proof. intros Hd Hv Hf. cbn. by rewrite Hd, Hv. Qed.

Lemma seconds_valid x : billable x = true → valid_fact (number_field "second") (JNum x) = true.
Proof. apply billable_valid. Qed.

Lemma enum_valid s values : s ∈ values → valid_fact (enum_field values) (JStr s) = true.
Proof. apply str_in_elem. Qed.

Lemma billable_int z : (1 ≤ z ≤ 60)%Z → billable (nZ z) = true.
Proof.
  intros Hz. assert (∀ n : nat, (1 ≤ Z.of_nat n ≤ 60)%Z → billable (nZ (Z.of_nat n)) = true) as E.
  { intros n Hn. destruct n as [|n]; [lia|]. do 60 (destruct n as [|n]; [by vm_compute|]). lia. }
  replace z with (Z.of_nat (Z.to_nat z)) by lia. apply E. lia.
Qed.

(** A whole number between two bounds. *)
Definition whole_between (x : num) (low high : Z) : Prop :=
  is_integer x = true ∧ nleb (nZ low) x = true ∧ nleb x (nZ high) = true.

Lemma whole_count n low high :
  nleb NZERO (nZ low) = true → whole_between n low high → valid_fact (number_field "count") (JNum n) = true.
Proof.
  intros Hl (I & L & G). cbn. unfold valid_number. rewrite (integer_finite _ I). unfold ngeb.
  by rewrite (nleb_trans NZERO (nZ low) n).
Qed.

Lemma small_count_valid k : k ≤ 17 → valid_fact (number_field "count") (int (Z.of_nat k)) = true.
Proof. intros Hk. do 18 (destruct k as [|k]; [by vm_compute|]). lia. Qed.

Lemma truthy_billable x : billable x = true → truthy (JNum x) = true.
Proof. unfold billable. by destruct x. Qed.

(** ** Tables *)

Lemma entry_of_elem {A} (table : list (jsstr * A)) key a : entry_of table key = Some a → (key, a) ∈ table.
Proof.
  induction table as [|[k b] table IH]; cbn; [done|]. destruct (jseq k key) eqn:E.
  - apply jseq_eq in E as ->. intros [= ->]. left.
  - intros Ha. right. by apply IH.
Qed.

Lemma entry_forall {A} (p : A → bool) (table : list (jsstr * A)) key a :
  forallb (λ e, p e.2) table = true → entry_of table key = Some a → p a = true.
Proof.
  intros Hp Ha. rewrite forallb_forall in Hp.
  by specialize (Hp _ (proj1 (list_elem_of_In _ _) (entry_of_elem _ _ _ Ha))).
Qed.

(** ** From a decoded request to its submission *)

(** The context of a submission, as the gateway makes it from the context of
    the decoding and its result. *)
Record submission_of (ctx decoded sub : jsval) : Prop := {
  sub_object : is_nullish sub = false;
  sub_body : sub~>"requestBody" = decoded~>"requestBody";
  sub_model : sub~>"upstreamModel" = ctx~>"upstreamModel";
  sub_purpose : sub~>"usagePurpose" = str "facts"
}.

Lemma form_fields_keys fields names : ∀ req0 req,
  rfold (λ name req, v ← first_value fields name; Ok (put req name v)) names req0 = Ok req →
  keys_unique req0 → keys_unique req.
Proof.
  intros req0 req Hr Hu. apply (rfold_inv _ keys_unique) in Hr; [done| |done].
  intros name t t' _ Ht Hv. apply bind_Ok in Hv as (v & _ & [= <-]). by apply keys_put.
Qed.

Lemma put_if_keys b o k v : keys_unique o → keys_unique (put_if b o k v).
Proof. destruct b; [apply keys_put|done]. Qed.

Lemma nil_keys : keys_unique [].
Proof. apply NoDup_nil_2. Qed.

Lemma form_request_keys check body req has : form_request check body = Ok (req, has) → keys_unique req.
Proof.
  unfold form_request. intros Hr. inv_ok. unfold form_fields in Hv.
  apply form_fields_keys in Hv; [|apply nil_keys].
  assert (keys_unique v1) as K.
  { unfold form_metadata in Hv1. destruct (is_undefined _); [by injection Hv1 as <-|].
    destruct (json_parse _); [|done]. apply bind_Ok in Hv1 as (? & _ & [= <-]). by apply keys_put. }
  unfold form_seconds. destruct (is_defined _); [by apply keys_put|by apply put_if_keys].
Qed.

Lemma video_request_keys check ctx req has : video_request check ctx = Ok (req, has) → keys_unique req.
Proof.
  unfold video_request. intros Hr. apply bind_Ok in Hr as (body & _ & Hr). destruct (equals _ _).
  - apply bind_Ok in Hr as (value & _ & [= <- <-]). apply keys_assign, nil_keys.
  - by apply form_request_keys in Hr.
Qed.

(** The request passed on has the fields of the decoded one, and the model of
    the context. *)
Lemma own_with_model req ctx k :
  keys_unique req → k ≠ js "model" → own (with_model (JObj req) ctx) k = own req k.
Proof.
  intros Hu Hk. unfold with_model. rewrite own_put_other by done.
  rewrite own_assign. cbn [entries]. rewrite last_own_unique by done. by destruct (own req k).
Qed.

Lemma get_with_model req ctx k :
  keys_unique req → k ≠ js "model" → get (JObj (with_model (JObj req) ctx)) k = get (JObj req) k.
Proof. intros. cbn [get]. by rewrite own_with_model. Qed.

Lemma get_own o k v : own o k = Some v → get (JObj o) k = v.
Proof. intros E. cbn [get]. by rewrite E. Qed.
Lemma get_put_same o k v : get (JObj (put o k v)) k = v.
Proof. cbn [get]. by rewrite own_put_same. Qed.
Lemma get_put_other o k v k' : k ≠ k' → get (JObj (put o k v)) k' = get (JObj o) k'.
Proof. intros. cbn [get]. by rewrite own_put_other. Qed.
Lemma get_put_if_other b o k v k' : k ≠ k' → get (JObj (put_if b o k v)) k' = get (JObj o) k'.
Proof. destruct b; [apply get_put_other|done]. Qed.
