(* ===== verification/PluginBilling.v ===== *)
(** * What is billed is what is sent

    For the plugins whose requests the gateway decodes itself: an accepted
    request yields usage the gateway accepts, its submission does not fail,
    and the quantities that are billed are those of the request that goes to
    the provider. *)
From stdpp Require Import base list option numbers sets.
From Stdlib Require Import ZArith SpecFloat Lia.
From S2P Require Import Prelude.
From S2P Require Import JsString.
From S2P Require Import JsNumber.
From S2P Require Import Syntax.
From S2P Require Import Runtime.
From S2P Require Import Display.
From S2P Require Import Json.
From S2P Require Import JsText.
From S2P Require Import JsonPrint.
From S2P Require Import AdvancedCustom.
From S2P Require Import JsDynamic.
From S2P Require Import PluginCommon.

From S2P Require Import EditorFacts.
From S2P Require Import PriceTableFacts.
From S2P Require Import CatalogueTheorems.
From S2P Require Import PluginUsage.
From S2P Require PluginVidu.
From S2P Require PluginKling.
From S2P Require PluginJimeng.
From S2P Require PluginSora.

(** Keys of literals that differ. *)
Ltac keys := let E := fresh in intros E; vm_compute in E; discriminate E.

(** Decide the comparisons of literal keys in the goal. *)
Ltac decide_keys :=
  repeat match goal with
  | |- context [jseq (js ?a) (js ?b)] =>
      let v := eval vm_compute in (jseq (js a) (js b)) in change (jseq (js a) (js b)) with v
  end; rewrite ?andb_false_r, ?andb_true_r.

(** A property the metadata of a request lays over the request sent. *)
Definition overrides (metadata : jsval) (key : jsstr) : bool :=
  match last_own (entries metadata) key with Some _ => true | None => false end.

Lemma own_assign_kept o v k : overrides v k = false → own (assign o v) k = own o k.
Proof. unfold overrides. rewrite own_assign. by destruct (last_own _ k). Qed.

Lemma get_submit_body model action body : (submit_request model action body)~>"requestBody" = JObj body.
Proof. reflexivity. Qed.

Lemma or_object_obj o : or_object (JObj o) = JObj o.
Proof. reflexivity. Qed.

Lemma js_or_present s v : nonempty_text s = true → js_or (JStr s) v = JStr s.
Proof. by destruct s. Qed.

(** Positive numbers come from truthy values. *)
Lemma positive_truthy v : ngtb (to_number v) NZERO = true → truthy v = true.
Proof. destruct v as [| |[]|[]|[]| |]; try done; vm_compute; discriminate. Qed.

Lemma equals_str v s : equals v s = true → v = str s.
Proof. unfold equals, str. destruct v; cbn; try done. intros E. by apply jseq_eq in E as ->. Qed.

(** ** Vidu *)

Module Vidu.
Import PluginVidu.
Section vidu.
Context {H : Host} {U : TaskHost} {L : TaskHostLaws}.

Lemma resolution_cases res : res ∈ RESOLUTIONS →
  res = js "360p" ∨ res = js "540p" ∨ res = js "720p" ∨ res = js "1080p".
Proof. unfold RESOLUTIONS. rewrite !elem_of_cons, elem_of_nil. tauto. Qed.

Lemma resolution_fixed res : res ∈ RESOLUTIONS → to_lower_case (trimmed (JStr res)) = res.
Proof.
  intros Hr. assert (ascii_text (trimmed (JStr res)) ∧ map ascii_low (trimmed (JStr res)) = res) as [A E].
  { by destruct (resolution_cases res Hr) as [->|[->|[->| ->]]];
      split; [|reflexivity| |reflexivity| |reflexivity| |reflexivity]; apply (bool_decide_unpack _);
      vm_compute. }
  by rewrite lower_ascii.
Qed.

Lemma default_resolution model : defaultResolution model ∈ RESOLUTIONS.
Proof.
  apply str_in_elem. unfold defaultResolution. destruct (isQ2Model model); [reflexivity|].
  by destruct (equals model "vidu2.0").
Qed.

Lemma normalized_resolution value model : normalizeResolution value model ∈ RESOLUTIONS.
Proof.
  unfold normalizeResolution. destruct (equals model "viduq1"); [by apply str_in_elem|].
  destruct (str_in _ RESOLUTIONS) eqn:E; [by apply str_in_elem|].
  destruct (split_on _ _) as [|w [|h [|? ?]]]; try apply default_resolution.
  destruct (ngtb _ _ && ngtb _ _); [|apply default_resolution].
  unfold resolution_of_side. repeat case_match; by apply str_in_elem.
Qed.

Lemma normalize_keeps res model :
  res ∈ RESOLUTIONS → equals model "viduq1" = false → normalizeResolution (JStr res) model = res.
Proof.
  intros Hr Hm. unfold normalizeResolution. rewrite Hm, resolution_fixed by done.
  by rewrite (proj2 (str_in_elem res RESOLUTIONS) Hr).
Qed.

Lemma outbound_in req model : outboundResolution req model ∈ RESOLUTIONS.
Proof. unfold outboundResolution. repeat case_match; auto using normalized_resolution, default_resolution. Qed.

Lemma q1_resolution req : outboundResolution req (str "viduq1") = js "1080p".
Proof. unfold outboundResolution. by repeat case_match. Qed.

(** Writing the resolution into the request does not change it. *)
Lemma outbound_again req res model :
  req~>"resolution" = JStr res → truthy req = true →
  res ∈ RESOLUTIONS →
  (equals model "viduq1" = true → res = js "1080p") →
  outboundResolution req model = res.
Proof.
  intros Hg Ht Hr H1. unfold outboundResolution. rewrite Ht, Hg.
  assert (truthy (JStr res) = true) as ->.
  { by destruct (resolution_cases res Hr) as [->|[->|[->| ->]]]. }
  cbn [andb]. destruct (equals model "viduq1") eqn:E.
  - rewrite H1 by done. unfold normalizeResolution. by rewrite E.
  - by apply normalize_keeps.
Qed.

Lemma in_range_billable n low high :
  outside n low high = false → is_finite (nZ low) = true → is_finite (nZ high) = true →
  nltb NZERO (nZ low) = true → nleb (nZ high) (nZ 3600) = true → billable n = true.
Proof.
  unfold outside. intros E Fl Fh Hl Hh. apply orb_false_iff in E as [E1 E3]. apply orb_false_iff in E1 as [E1 E2].
  apply negb_false_iff, integer_finite in E1. unfold billable. rewrite E1. cbn [andb]. apply andb_true_iff. split.
  - unfold ngtb. eapply nltb_nleb_trans; [exact Hl|]. by apply nltb_false.
  - eapply nleb_trans; [|exact Hh]. by apply nltb_false.
Qed.

(** The combinations a model accepts have a billable duration. *)
Lemma validated_billable model n resolution images u :
  validateViduCombo model (JNum n) resolution images = Ok u → billable n = true.
Proof.
  unfold validateViduCombo. intros E. apply bind_Ok in E as (? & _ & E). cbn [is_defined is_undefined negb andb] in E.
  destruct (equals model "viduq1").
  { apply throw_if_Ok in E. apply negb_false_iff, neqb_eq in E. cbn [to_number] in E. rewrite E. reflexivity. }
  destruct (equals model "vidu2.0").
  { cbn [to_number] in E. destruct (neqb n (nZ 4)) eqn:E4; [apply neqb_eq in E4 as ->; reflexivity|].
    destruct (neqb n (nZ 8)) eqn:E8; [apply neqb_eq in E8 as ->; reflexivity|done]. }
  destruct (isQ2Model model); apply throw_if_Ok in E; cbn [to_number] in E.
  - by apply in_range_billable in E.
  - apply orb_false_iff in E as [E E3]. apply orb_false_iff in E as [E1 E2].
    apply negb_false_iff, integer_finite in E1. unfold billable, ngtb. rewrite E1. cbn [andb].
    apply andb_true_iff. split; [by apply nleb_false|by apply nltb_false].
Qed.

Lemma own_drop_falsy body k k' : k ≠ k' → own (drop_falsy body k) k' = own body k'.
Proof.
  intros Hk. unfold drop_falsy. destruct (truthy _); [done|]. rewrite own_remove. by rewrite (proj2 (jseq_neq k k') Hk).
Qed.

(** A key the metadata leaves alone is sent as the plugin sets it. *)
Lemma sent_default req metadata model k :
  overrides metadata k = false → js "action" ≠ k → js "prompt" ≠ k → js "bgm" ≠ k → js "images" ≠ k →
  own (submit_body req metadata model) k = own (default_body req model) k.
Proof.
  intros Ho H1 H2 H3 H4. unfold submit_body, place_files.
  assert (∀ b, own (match (JObj b)~>"images" with
    | JArr images => put b (js "images") (JArr (map filePlaceholder images)) | _ => b end) k = own b k) as ->.
  { intros b. destruct (JObj b)~>"images"; try done. by apply own_put_other. }
  rewrite !own_drop_falsy by done. rewrite own_remove, (proj2 (jseq_neq _ _) H1). by apply own_assign_kept.
Qed.

Lemma duration_of req model n :
  req~>"duration" = JNum n → truthy req = true → billable n = true → outboundDuration req model = n.
Proof.
  intros Hg Ht Hb. unfold outboundDuration, js_and. rewrite Ht, Hg. unfold billable in Hb.
  apply andb_true_iff in Hb as [Hb _]. cbn [to_number]. by rewrite Hb.
Qed.

Lemma submit_model_cases sub action up :
  sub~>"upstreamModel" = JStr up → nonempty_text up = true →
  ∃ model, submit_model sub action = Ok model ∧
    (equals model "viduq1" = true → equals (JStr up) "viduq1" = true).
Proof.
  intros Hu Hne. unfold submit_model. rewrite Hu, js_or_present by done.
  destruct (equals action _); [|by eexists]. cbn [text_of mbind result_bind].
  destruct (includes _ up) eqn:E; by eexists.
Qed.

(** Decoded fields of an accepted video request. *)
Lemma vidu_decoded ctx r up :
  video_decodeRequest ctx = Ok r → ctx~>"upstreamModel" = JStr up → nonempty_text up = true →
  ∃ body n res, r~>"requestBody" = JObj body ∧ (JObj body)~>"duration" = JNum n ∧ billable n = true ∧
    (JObj body)~>"resolution" = JStr res ∧ res ∈ RESOLUTIONS ∧
    (equals (JStr up) "viduq1" = true → res = js "1080p").
Proof.
  intros Hd Hu Hne. unfold video_decodeRequest in Hd. apply bind_Ok in Hd as ([req has] & Hr & Hd).
  apply video_request_keys in Hr. rewrite Hu in Hd. rewrite !js_or_present in Hd by done.
  apply bind_Ok in Hd as (u & Hval & Hd). apply bind_Ok in Hd as (action & _ & [= <-]).
  set (n := if is_defined _ then _ else _) in Hval.
  set (req1 := place_image _ _) in *. set (res := outboundResolution _ _) in *.
  assert (keys_unique req1) as K1.
  { unfold req1, place_image. case_match; [by apply keys_put, keys_put|by apply put_if_keys, keys_put]. }
  assert (get (JObj req1) (js "duration") = JNum n) as Hn.
  { unfold req1, place_image. destruct has; [rewrite get_put_other by keys; apply get_put_same|].
    rewrite get_put_if_other by keys. apply get_put_same. }
  eexists _, n, res. split; [reflexivity|].
  rewrite !get_with_model by (keys || by apply keys_put).
  rewrite get_put_other by keys. rewrite get_put_same.
  conjs; [done|by apply validated_billable in Hval|done|apply outbound_in|].
  intros E1. apply equals_str in E1. unfold res. rewrite E1. apply q1_resolution.
Qed.

(** An accepted video request is billed for the duration and the resolution
    that are sent, unless its metadata lays other values over them. *)
Lemma vidu_billed ctx r sub up :
  video_decodeRequest ctx = Ok r → submission_of ctx r sub →
  ctx~>"upstreamModel" = JStr up → nonempty_text up = true →
  let metadata := or_object (r~>"requestBody")~>"metadata" in
  ∃ facts request n res, extractUsage sub = Ok (Some facts) ∧ usage_valid usageSchema facts = true ∧
    facts = ["duration" ↦ JNum n; "resolution" ↦ JStr res] ∧
    buildSubmitRequest sub = Ok request ∧
    (overrides metadata (js "duration") = false → (request~>"body")~>"duration" = JNum n) ∧
    (overrides metadata (js "resolution") = false → (request~>"body")~>"resolution" = JStr res).
Proof.
  intros Hd [Hsub Hbody Hup Hpur] Hu Hne metadata.
  destruct (vidu_decoded _ _ _ Hd Hu Hne) as (body & n & res & Hb & Hn & Hbill & Hres & Hin & Hq1).
  rewrite Hb in Hbody. rewrite Hu in Hup. subst metadata. rewrite Hb.
  assert (∀ model, outboundDuration (JObj body) model = n) as Dur by (intros; by apply duration_of).
  assert (∀ model, (equals model "viduq1" = true → equals (JStr up) "viduq1" = true) →
    outboundResolution (JObj body) model = res) as Res.
  { intros model Hm. apply outbound_again; auto. }
  assert (∃ action, actionFor (JObj body) = Ok action) as [action Ha].
  { unfold actionFor, dot. cbn [is_nullish mbind result_bind]. case_match; by eexists. }
  destruct (submit_model_cases sub action up Hup Hne) as (model & Hm & Hm1).
  eexists _, _, n, res. conjs; [| |reflexivity| | |].
  - unfold extractUsage, dot. rewrite Hsub, Hpur, Hbody, Hup. cbn [mbind result_bind].
    rewrite or_object_obj, js_or_present by done.
    change (equals (str "facts") "billing_ratios") with false. cbn iota. by rewrite Dur, Res.
  - eapply usage_valid_cons; [reflexivity|by apply seconds_valid|].
    eapply usage_valid_cons; [reflexivity|by apply enum_valid|done].
  - unfold buildSubmitRequest, dot. rewrite Hsub, Hbody. cbn [mbind result_bind]. rewrite Ha. cbn [mbind result_bind].
    by rewrite Hm.
  - intros Ho. change (get (JObj (submit_body (JObj body) (or_object (JObj body)~>"metadata") model))
                         (js "duration") = JNum n).
    apply get_own. rewrite sent_default by (done || keys). cbn -[outboundDuration]. by rewrite Dur.
  - intros Ho. change (get (JObj (submit_body (JObj body) (or_object (JObj body)~>"metadata") model))
                         (js "resolution") = JStr res).
    apply get_own. rewrite sent_default by (done || keys). cbn -[outboundResolution]. by rewrite Res.
Qed.
End vidu.
End Vidu.

(** ** Kling *)

Module Kling.
Import PluginKling.
Section kling.
Context {H : Host} {U : TaskHost} {L : TaskHostLaws}.

(** A mode the model has. *)
Definition mode_of (model : jsval) (mode : jsstr) : Prop :=
  mode = js "pro" ∨ mode = js "std" ∧ equals model "kling-v2-master" = false.

Lemma resolved_mode model v mode : resolveKlingMode model v = Ok mode → mode_of model mode.
Proof.
  unfold resolveKlingMode, mode_of. destruct (equals model "kling-v2-master") eqn:E; intros Hr.
  - inv_ok. by left.
  - destruct (nonempty_text _); [|injection Hr as <-; by right]. cbn [negb] in Hr. inv_ok.
    apply throw_if_Ok in Hv. apply andb_false_iff in Hv as [Hv|Hv]; apply negb_false_iff, jseq_eq in Hv; auto.
Qed.

Lemma resolve_again model mode : mode_of model mode → resolveKlingMode model (JStr mode) = Ok mode.
Proof.
  intros Hm. assert (to_lower_case (trimmed (JStr mode)) = mode) as Hl.
  { assert (ascii_text (trimmed (JStr mode)) ∧ map ascii_low (trimmed (JStr mode)) = mode) as [A E].
    { destruct Hm as [->|[-> _]]; split; try reflexivity; by apply (bool_decide_unpack _); vm_compute. }
    by rewrite lower_ascii. }
  unfold resolveKlingMode. rewrite Hl. destruct Hm as [->|[-> ->]]; [|reflexivity].
  by destruct (equals model "kling-v2-master").
Qed.

Lemma valid_duration v n : validateKlingDuration v = Ok n → billable n = true.
Proof.
  unfold validateKlingDuration. intros E. inv_ok. apply throw_if_Ok in Hv.
  apply orb_false_iff in Hv as [Hv E3]. apply orb_false_iff in Hv as [E1 E2].
  apply negb_false_iff, integer_finite in E1. unfold billable, ngtb in *. rewrite E1. cbn [andb].
  apply andb_true_iff. split; [by apply nleb_false|by apply nltb_false].
Qed.

(** Decoded fields of an accepted video request. *)
Lemma kling_decoded ctx r up :
  video_decodeRequest ctx = Ok r → ctx~>"upstreamModel" = JStr up → nonempty_text up = true →
  ∃ body n mode, r~>"requestBody" = JObj body ∧ (JObj body)~>"duration" = JNum n ∧ billable n = true ∧
    (JObj body)~>"mode" = JStr mode ∧ mode_of (JStr up) mode.
Proof.
  intros Hd Hu Hne. unfold video_decodeRequest in Hd. apply bind_Ok in Hd as ([req has] & Hr & Hd).
  apply video_request_keys in Hr. rewrite Hu in Hd. rewrite !js_or_present in Hd by done.
  apply bind_Ok in Hd as (n & Hn & Hd). apply bind_Ok in Hd as (mode & Hm & [= <-]).
  assert (billable n = true) as Hb.
  { destruct (is_defined _) in Hn; [by apply valid_duration in Hn|by injection Hn as <-]. }
  set (req1 := place_image _ _) in *.
  assert (keys_unique req1) as K1.
  { unfold req1, place_image. destruct has; [by apply keys_put, keys_put|by apply put_if_keys, keys_put]. }
  assert (get (JObj req1) (js "duration") = JNum n) as Hn'.
  { unfold req1, place_image. destruct has; [rewrite get_put_other by keys; apply get_put_same|].
    rewrite get_put_if_other by keys. apply get_put_same. }
  eexists _, n, mode. split; [reflexivity|].
  rewrite !get_with_model by (keys || by apply keys_put).
  rewrite get_put_other by keys. rewrite get_put_same.
  conjs; [done..|]. rewrite !js_or_present in Hm by done. by apply resolved_mode in Hm.
Qed.

Lemma own_placed_kling body k k' : k ≠ k' → own (place_file body k) k' = own body k'.
Proof. intros Hk. unfold place_file. rewrite own_put_if. rewrite (proj2 (jseq_neq k k') Hk). by rewrite andb_false_r. Qed.
Lemma own_dropped body k k' : k ≠ k' → own (drop_falsy body k) k' = own body k'.
Proof.
  intros Hk. unfold drop_falsy. destruct (truthy _); [done|]. rewrite own_remove. by rewrite (proj2 (jseq_neq k k') Hk).
Qed.

(** The body that is sent when the metadata leaves the mode alone. *)
Lemma submitted_body req metadata model mode :
  outboundMode req model = Ok mode → mode_of model mode → overrides metadata (js "mode") = false →
  ∃ body, submit_body req metadata model = Ok body ∧ (JObj body)~>"mode" = JStr mode ∧
    ∀ k, overrides metadata k = false → k ∉ [js "mode"; js "image"; js "image_tail"; js "prompt"] →
      own body k = own (default_body req model mode) k.
Proof.
  intros Hm Hmode Ho. unfold submit_body. rewrite Hm. cbn [mbind result_bind].
  assert ((JObj (assign (default_body req model mode) metadata))~>"mode" = JStr mode) as E.
  { apply get_own. by rewrite own_assign_kept. }
  unfold outboundMode.
  assert (nonempty_text mode = true) as Hne by by destruct Hmode as [->|[-> _]].
  rewrite E. change (js_and (JObj ?o) ?v) with v.
  change ((JObj ["mode" ↦ ?v; "metadata" ↦ ?w])~>"mode") with v. rewrite js_or_present by done. rewrite resolve_again by done. cbn [mbind result_bind].
  eexists. split; [reflexivity|]. split.
  - apply get_own. rewrite !own_dropped, !own_placed_kling by keys. apply own_put_same.
  - intros k Hk Hn. rewrite !not_elem_of_cons in Hn. destruct Hn as (H1 & H2 & H3 & H4 & _).
    rewrite !own_dropped, !own_placed_kling by congruence. rewrite own_put_other by congruence.
    by apply own_assign_kept.
Qed.

Lemma submit_model_of ctx req up :
  ctx~>"upstreamModel" = JStr up → nonempty_text up = true → submitModel ctx req = JStr up.
Proof.
  intros Hu Hne. unfold submitModel, js_and at 1. destruct (truthy ctx) eqn:E.
  - rewrite Hu. by rewrite !js_or_present.
  - destruct ctx as [| |[]|[]|[]| |]; first [discriminate E | vm_compute in Hu; discriminate Hu].
Qed.

(** An accepted video request is billed for the units of the duration and the
    mode that are sent, unless its metadata lays another duration over it. *)
Lemma kling_billed ctx r sub up token :
  video_decodeRequest ctx = Ok r → submission_of ctx r sub →
  ctx~>"upstreamModel" = JStr up → nonempty_text up = true → tokenFor sub = Ok token →
  let metadata := or_object (r~>"requestBody")~>"metadata" in
  overrides metadata (js "mode") = false →
  ∃ request n mode, billable n = true ∧ mode_of (JStr up) mode ∧
    extractUsage sub = Ok (Some ["units" ↦ JNum (estimateUnits (JStr up) mode n)]) ∧
    buildSubmitRequest sub = Ok request ∧ (request~>"body")~>"mode" = JStr mode ∧
    (overrides metadata (js "duration") = false →
     (request~>"body")~>"duration" = JStr (number_to_string n)).
Proof.
  intros Hd [Hsub Hbody Hup Hpur] Hu Hne Htok metadata Ho.
  destruct (kling_decoded _ _ _ Hd Hu Hne) as (body & n & mode & Hb & Hn & Hbill & Hmode & Hof).
  rewrite Hb in Hbody. rewrite Hu in Hup. subst metadata. rewrite Hb in *.
  assert (nonempty_text mode = true) as Hnem by by destruct Hof as [->|[-> _]].
  assert (outboundMode (JObj body) (JStr up) = Ok mode) as Hom.
  { unfold outboundMode. change (js_and (JObj body) ?v) with v. rewrite Hmode, js_or_present by done.
    by apply resolve_again. }
  destruct (submitted_body (JObj body) _ (JStr up) mode Hom Hof Ho) as (sent & Hs & Hsm & Hsk).
  assert (∃ url, ∀ action, urlFor sub action = Ok (url action)) as [url Hurl].
  { unfold tokenFor in Htok. apply bind_Ok in Htok as (g & Hg & _). unfold urlFor. rewrite Hg. by eexists (λ _, _). }
  eexists _, n, mode. conjs; [done..| | | |].
  - unfold extractUsage, dot. rewrite Hsub, Hpur, Hbody. cbn [mbind result_bind].
    change (equals (str "facts") "billing_ratios") with false. cbn iota. rewrite or_object_obj.
    rewrite (submit_model_of sub _ up) by done. rewrite Hom. cbn [mbind result_bind].
    do 4 f_equal. unfold outboundDuration. change (js_and (JObj body) ?v) with v. rewrite Hn. cbn [to_number].
    unfold billable in Hbill. apply andb_true_iff in Hbill as [-> _]. done.
  - unfold buildSubmitRequest, dot. rewrite Hsub, Hbody. cbn [mbind result_bind is_nullish].
    rewrite Hup, js_or_present by done. rewrite Hs. cbn [mbind result_bind]. rewrite Hurl. cbn [mbind result_bind].
    by rewrite Htok.
  - exact Hsm.
  - intros Hk. change (get (JObj sent) (js "duration") = JStr (number_to_string n)).
    apply get_own. rewrite Hsk; [|done|].
    + cbn -[get js_text]. rewrite Hn. unfold js_or. by rewrite truthy_billable.
    + rewrite !not_elem_of_cons. conjs; try keys. apply not_elem_of_nil.
Qed.
End kling.
End Kling.

(** ** Jimeng *)

Module Jimeng.
Import PluginJimeng.
Section jimeng.
Context {H : Host} {U : TaskHost}.

Lemma product_listed key : productForReqKey key ∈ products.
Proof. apply str_in_elem. unfold productForReqKey. by repeat case_match. Qed.

Lemma seconds_cases req key : outboundSeconds req key = 5%Z ∨ outboundSeconds req key = 10%Z.
Proof. unfold outboundSeconds. repeat case_match; auto. Qed.

(** Whatever the request, the usage is one the gateway accepts. *)
Lemma usage_always_valid ctx facts :
  extractUsage ctx = Ok (Some facts) → usage_valid usageSchema facts = true.
Proof.
  unfold extractUsage. intros E. inv_ok. destruct (equals _ _); [done|]. injection E as <-.
  eapply usage_valid_cons; [reflexivity| |].
  - apply seconds_valid. by destruct (seconds_cases (or_object ctx~>"requestBody") (submitReqKey ctx)) as [->| ->].
  - eapply usage_valid_cons; [reflexivity|apply enum_valid, product_listed|done].
Qed.

(** The keys of the product tiers. *)
Definition tier_keys : list jsstr :=
  [js "jimeng_vgfm_t2v_l20"; js "jimeng_v30"; js "jimeng_v30_720p"; js "jimeng_v30_1080p"; js "jimeng_v30_pro"].

(** The number of images selects a variant, not the product. *)
Lemma product_of_variant key c c' : key ∈ tier_keys →
  productForReqKey (converted_key key c) = productForReqKey (converted_key key c') ∧
  isV3ReqKey (JStr (converted_key key c)) = isV3ReqKey (JStr (converted_key key c')) ∧
  converted_key key c ≠ [].
Proof.
  intros Hk. apply str_in_elem in Hk. unfold tier_keys, str_in in Hk. cbn [existsb] in Hk.
  repeat (apply orb_true_iff in Hk as [Hk|Hk]; [apply jseq_eq in Hk as ->|]); [..|done].
  all: unfold converted_key; generalize (ngtb c NZERO) (ngtb c (nZ 1)) (neqb c (nZ 1))
    (ngtb c' NZERO) (ngtb c' (nZ 1)) (neqb c' (nZ 1)).
  all: intros [] [] [] [] [] []; vm_compute; conjs; congruence.
Qed.

(** What the loop over the copied keys leaves under a key. *)
Definition copied (metadata : jsval) (k : jsstr) : bool :=
  negb (is_nullish (get metadata k)) &&
  negb (jseq k (js "aspect_ratio") && negb (nonempty_text (trim (js_text (get metadata k))))).

Lemma own_copy_key metadata body k k' :
  own (copy_key metadata body k) k' = if copied metadata k && jseq k k' then Some (get metadata k) else own body k'.
Proof.
  unfold copy_key, copied. destruct (is_nullish _); [done|]. cbn [negb andb].
  destruct (jseq k (js "aspect_ratio") && _); [done|]. apply own_put.
Qed.

Lemma own_copied metadata keys : ∀ body k,
  own (fold_left (copy_key metadata) keys body) k =
  if str_in k keys && copied metadata k then Some (get metadata k) else own body k.
Proof.
  induction keys as [|k0 keys IH]; intros body k; [done|]. cbn [fold_left]. rewrite IH, own_copy_key.
  unfold str_in. cbn [existsb]. rewrite (jseq_sym k k0).
  destruct (existsb (jseq k) keys) eqn:E; [rewrite orb_true_r|rewrite orb_false_r]; cbn [andb].
  - destruct (copied metadata k) eqn:C; [done|]. destruct (jseq k0 k) eqn:F; [|by rewrite andb_false_r].
    apply jseq_eq in F as ->. by rewrite C.
  - destruct (jseq k0 k) eqn:F; [|by rewrite andb_false_r]. apply jseq_eq in F as ->. by rewrite andb_true_r.
Qed.

Lemma own_placed_jimeng images body body' k :
  place_images images body = Ok body' → js "image_urls" ≠ k → js "binary_data_base64" ≠ k → own body' k = own body k.
Proof.
  unfold place_images. intros E H1 H2. destruct (truthy _); [|by injection E as <-].
  destruct (starts_with _ _); [injection E as <-; by apply own_put_other|].
  apply bind_Ok in E as (? & _ & [= <-]). by apply own_put_other.
Qed.

Lemma own_binary body k : js "binary_data_base64" ≠ k → own (place_binary body) k = own body k.
Proof. intros Hk. unfold place_binary. case_match; try done. by apply own_put_other. Qed.

Lemma ordered_key body : own (ordered body) (js "req_key") = Some (JObj body)~>"req_key".
Proof. unfold ordered. rewrite !own_put_if, own_put, !own_put_if. by decide_keys. Qed.

Lemma ordered_frames body :
  own (ordered body) (js "frames") =
  if truthy (JObj body)~>"frames" then Some (JObj body)~>"frames" else None.
Proof. unfold ordered. rewrite !own_put_if, own_put, !own_put_if. by decide_keys. Qed.

Lemma framed_key req key body : own (set_frames req key body) (js "req_key") = own body (js "req_key").
Proof.
  unfold set_frames. destruct (isV3ReqKey _); [rewrite own_put_if|rewrite own_remove]; by decide_keys.
Qed.

Lemma framed_frames req key body :
  (JObj (set_frames req key body))~>"frames" =
  if isV3ReqKey (JStr key) then
    if is_nullish (JObj body)~>"frames" then int (if (outboundSeconds req key =? 10)%Z then 241 else 121)
    else (JObj body)~>"frames"
  else JUndefined.
Proof.
  unfold set_frames. destruct (isV3ReqKey _).
  - unfold put_if. destruct (is_nullish _); [apply get_put_same|done].
  - cbn [get]. rewrite own_remove. by decide_keys.
Qed.

(** Key and frames of the body that is sent. *)
Lemma sent_key_and_frames ctx req body count up :
  submit_body ctx req = Ok (body, count) → ctx~>"upstreamModel" = JStr up →
  let metadata := or_object req~>"metadata" in
  let given := if is_nullish metadata~>"req_key" then JStr up else metadata~>"req_key" in
  ∃ base key, given = JStr base ∧ key = converted_key base count ∧
    own body (js "req_key") = Some (JStr key) ∧
    own body (js "frames") =
      if isV3ReqKey (JStr key) then
        let frames := if is_nullish metadata~>"frames"
                      then int (if (outboundSeconds req key =? 10)%Z then 241 else 121) else metadata~>"frames" in
        if truthy frames then Some frames else None
      else None.
Proof.
  intros Hs Hu metadata given. unfold submit_body in Hs. apply bind_Ok in Hs as (b0 & Hb0 & Hs).
  apply bind_Ok in Hs as (key & Hk & [= <- <-]). unfold convertedReqKey in Hk.
  apply bind_Ok in Hk as (base & Hbase & [= <-]). set (b1 := place_binary _) in *. set (count := image_count _ _) in *.
  assert (get (JObj b1) (js "req_key") = given) as Hg.
  { unfold b1. cbn [get]. rewrite own_binary by keys. rewrite own_copied, (own_placed_jimeng _ _ _ _ Hb0) by keys.
    unfold copied. change (str_in (js "req_key") copied_keys) with true.
    change (jseq (js "req_key") (js "aspect_ratio")) with false. cbn [andb negb]. rewrite andb_true_r.
    unfold given. fold metadata. destruct (is_nullish metadata~>"req_key"); [|done]. cbn [negb].
    unfold initial_body. rewrite own_put_if. change (jseq (js "aspect_ratio") (js "req_key")) with false.
    rewrite andb_false_r, Hu. reflexivity. }
  assert (get (JObj b1) (js "frames") = if is_nullish metadata~>"frames" then JUndefined else metadata~>"frames") as Hf.
  { unfold b1. cbn [get]. rewrite own_binary by keys. rewrite own_copied, (own_placed_jimeng _ _ _ _ Hb0) by keys.
    unfold copied. change (str_in (js "frames") copied_keys) with true.
    change (jseq (js "frames") (js "aspect_ratio")) with false. cbn [andb negb]. rewrite andb_true_r. fold metadata.
    destruct (is_nullish metadata~>"frames"); [|done]. cbn [negb].
    unfold initial_body. rewrite own_put_if. change (jseq (js "aspect_ratio") (js "frames")) with false.
    by rewrite andb_false_r. }
  exists base, (converted_key base count). rewrite Hg in Hbase. conjs.
  - unfold text_of in Hbase. destruct given; try done. by injection Hbase as ->.
  - done.
  - rewrite ordered_key. cbn [get]. by rewrite framed_key, own_put_same.
  - rewrite ordered_frames, framed_frames, get_put_other by keys. rewrite Hf.
    destruct (isV3ReqKey _); [|done]. by destruct (is_nullish metadata~>"frames") eqn:E; [|rewrite E].
Qed.

Lemma seconds_by_version req key key' :
  isV3ReqKey (JStr key) = isV3ReqKey (JStr key') → outboundSeconds req key = outboundSeconds req key'.
Proof. unfold outboundSeconds. by intros ->. Qed.

Lemma object_context ctx req : ctx~>"requestBody" = JObj req → is_nullish ctx = false.
Proof. by destruct ctx. Qed.

Lemma tier_key_text key : key ∈ tier_keys → nonempty_text key = true.
Proof.
  intros Hk. apply str_in_elem in Hk. unfold tier_keys, str_in in Hk. cbn [existsb] in Hk.
  by repeat (apply orb_true_iff in Hk as [Hk|Hk]; [apply jseq_eq in Hk as ->|]).
Qed.

Lemma billed_key ctx req up key :
  ctx~>"requestBody" = JObj req → ctx~>"upstreamModel" = JStr up →
  (if is_nullish (or_object (JObj req)~>"metadata")~>"req_key" then JStr up
   else (or_object (JObj req)~>"metadata")~>"req_key") = JStr key → key ∈ tier_keys →
  submitReqKey ctx = converted_key key (submitImageCount (JObj req)).
Proof.
  intros Hr Hu Hk Ht. pose proof (tier_key_text key Ht) as Hne.
  assert (∀ v, js_and ctx v = v) as Ha.
  { intros v. unfold js_and. destruct ctx as [| |[]|[]|[]| |];
      first [reflexivity | vm_compute in Hr; discriminate Hr]. }
  unfold submitReqKey. rewrite !Ha, Hr, or_object_obj, Hu.
  assert (∀ v, js_or (js_or (or_object (JObj req)~>"metadata")~>"req_key" (JStr up)) v = JStr key) as ->.
  { intros v. set (given := (or_object (JObj req)~>"metadata")~>"req_key") in *.
    destruct (is_nullish given) eqn:E; [|rewrite Hk; by rewrite !js_or_present]. injection Hk as ->.
    assert (js_or given (JStr key) = JStr key) as -> by (unfold js_or; by destruct given). by rewrite js_or_present. }
  rewrite js_or_present by done. cbn [js_text].
  destruct (product_of_variant key (submitImageCount (JObj req)) NZERO Ht) as (_ & _ & Hn).
  by destruct (converted_key _ _).
Qed.

(** On a request with the key of a product tier, the billed product is that of
    the key that is sent, and the billed seconds are those of the frames,
    unless the metadata ask for another number of frames. *)
Lemma jimeng_billed ctx req body count up :
  ctx~>"requestBody" = JObj req → submit_body ctx (JObj req) = Ok (body, count) →
  ctx~>"upstreamModel" = JStr up →
  let metadata := or_object (JObj req)~>"metadata" in
  let base := if is_nullish metadata~>"req_key" then JStr up else metadata~>"req_key" in
  (∃ key, base = JStr key ∧ key ∈ tier_keys) →
  ∃ seconds product key, ctx~>"usagePurpose" = str "facts" →
    extractUsage ctx = Ok (Some ["seconds" ↦ int seconds; "product" ↦ JStr product]) ∧
    own body (js "req_key") = Some (JStr key) ∧ product = productForReqKey key ∧
    (is_nullish metadata~>"frames" = true ∨ metadata~>"frames" = int 121 ∨ metadata~>"frames" = int 241 →
     own body (js "frames") = if isV3ReqKey (JStr key)
                              then Some (int (if (seconds =? 10)%Z then 241 else 121)) else None).
Proof.
  intros Hr Hs Hu metadata base (key & Hkey & Htier).
  destruct (sent_key_and_frames _ _ _ _ _ Hs Hu) as (b & sent & Hb & -> & Hk & Hf). fold metadata base in Hb.
  rewrite Hkey in Hb. injection Hb as <-.
  assert (submitReqKey ctx = converted_key key (submitImageCount (JObj req))) as Hbilled.
  { by apply (billed_key ctx req up). }
  destruct (product_of_variant key count (submitImageCount (JObj req)) Htier) as (Hp & Hv & _).
  exists (outboundSeconds (JObj req) (submitReqKey ctx)), (productForReqKey (submitReqKey ctx)), (converted_key key count).
  intros Hpur. conjs.
  - unfold extractUsage, dot. rewrite (object_context ctx req Hr), Hpur, Hr. reflexivity.
  - done.
  - by rewrite Hp, Hbilled.
  - intros Hfr. rewrite Hf. destruct (isV3ReqKey (JStr (converted_key key count))) eqn:V; [|done]. fold metadata.
    rewrite Hbilled. 
    rewrite <- (seconds_by_version (JObj req) (converted_key key count)
                  (converted_key key (submitImageCount (JObj req))) (eq_trans V Hv)).
    destruct Hfr as [->|[E|E]]; [by destruct (_ =? 10)%Z| |];
      unfold outboundSeconds, metadata_of; change (js_and (JObj req) ?v) with v; fold metadata; rewrite V, E; reflexivity.
Qed.
End jimeng.
End Jimeng.

(** ** Sora *)

Module Sora.
Import PluginSora.
Section sora.
Context {H : Host} {U : TaskHost}.

Lemma nmin_id x : is_finite x = true → nleb x (nZ 3600) = true → nmin x (nZ 3600) = x.
Proof.
  intros Hf Hl. unfold nmin, nleb, SFleb in *. destruct (SFcompare x (nZ 3600)) as [[]|] eqn:E; try done.
  assert (neqb x (nZ 3600) = true) as E' by (unfold neqb, SFeqb; by rewrite E).
  apply neqb_eq in E'. by rewrite E'.
Qed.

Lemma accepted_seconds v : check_seconds v = Ok tt → is_defined v = true → billable (to_number v) = true.
Proof.
  unfold check_seconds. intros E D. apply throw_if_Ok in E. rewrite D in E. cbn [andb] in E.
  apply orb_false_iff in E as [E E3]. apply orb_false_iff in E as [E1 E2]. apply negb_false_iff in E1.
  unfold billable, ngtb. rewrite E1. cbn [andb]. apply andb_true_iff.
  split; [by apply nleb_false|by apply nltb_false].
Qed.

(** The seconds billed are the seconds requested, 4 where there are none. *)
Lemma billed_requested req :
  check_seconds (requested_seconds req) = Ok tt →
  billed_seconds req = if is_undefined (requested_seconds req) then nZ 4 else to_number (requested_seconds req).
Proof.
  intros Hc. unfold billed_seconds. set (v := requested_seconds req) in *.
  destruct (is_undefined v) eqn:D.
  - assert (is_undefined req~>"seconds" = true ∧ is_undefined req~>"duration" = true) as [E1 E2].
    { unfold v, requested_seconds in D. destruct (is_undefined req~>"seconds") eqn:E; [done|congruence]. }
    destruct (req~>"seconds"), (req~>"duration"); try done.
  - assert (billable (to_number v) = true) as B.
    { apply accepted_seconds; [done|]. unfold is_defined. by rewrite D. }
    assert (truthy v = true) as T.
    { apply positive_truthy. unfold billable in B. by bools. }
    assert (js_or (js_or req~>"seconds" req~>"duration") (int 4) = v) as ->.
    { unfold v, requested_seconds in *. destruct (is_undefined req~>"seconds") eqn:E.
      - unfold js_or. destruct (req~>"seconds"); try done. cbn [truthy]. by rewrite T.
      - unfold js_or. by rewrite !T. }
    unfold billable in B. apply andb_true_iff in B as [B Hle]. apply andb_true_iff in B as [Hf Hgt].
    rewrite Hf. cbn [negb orb]. assert (nleb (to_number v) NZERO = false) as ->.
    { unfold ngtb, nltb, SFltb in Hgt. unfold nleb, SFleb. rewrite (SFcompare_swap NZERO).
      by destruct (SFcompare NZERO _) as [[]|]. }
    by apply nmin_id.
Qed.

Lemma get_values req model k :
  keys_unique req → k ≠ js "model" → get (JObj (requestValues (JObj req) model)) k = get (JObj req) k.
Proof.
  intros Hu Hk. unfold requestValues. rewrite get_put_other by done. cbn [get or_object js_or truthy].
  rewrite own_assign. cbn [entries]. rewrite last_own_unique by done. by destruct (own req k).
Qed.

(** The request an accepted video request passes on. *)
Lemma sora_decoded ctx r :
  (∀ v, (ctx~>"body")~>"value" = v → ∃ fields, v = JObj fields ∧ keys_unique fields) →
  video_decodeRequest ctx = Ok r →
  ∃ req, r~>"requestBody" = JObj (with_model (JObj req) ctx) ∧ keys_unique req ∧
    check_seconds (requested_seconds (JObj req)) = Ok tt.
Proof.
  intros Hj Hd. unfold video_decodeRequest, video_body in Hd. apply bind_Ok in Hd as (body & Hb & Hd).
  apply bind_Ok in Hb as (b & Hb' & Hb). apply dot_Ok in Hb' as [_ ->]. apply bind_Ok in Hb as (? & _ & [= <-]).
  destruct (equals _ _).
  - apply bind_Ok in Hd as (req & Hr & Hd). apply bind_Ok in Hd as (u & Hc & [= <-]). destruct u.
    unfold json_object_body in Hr. apply bind_Ok in Hr as (? & _ & [= <-]).
    destruct (Hj _ eq_refl) as (fields & E & K). rewrite E in *. by exists fields.
  - apply bind_Ok in Hd as ([fields has] & Hr & Hd). apply bind_Ok in Hd as (u & Hc & [= <-]). destruct u.
    apply form_request_keys in Hr. by exists fields.
Qed.

(** An accepted video request is billed for the seconds it sends, and its
    usage is accepted exactly when its size is one of the listed ones. *)
Lemma sora_billed ctx r sub :
  (∀ v, (ctx~>"body")~>"value" = v → ∃ fields, v = JObj fields ∧ keys_unique fields) →
  video_decodeRequest ctx = Ok r → submission_of ctx r sub → equals sub~>"action" "remix" = false →
  let req := r~>"requestBody" in
  ∃ n size, extractUsage sub = Ok ["seconds" ↦ JNum n; "size" ↦ size] ∧ billable n = true ∧
    usage_valid usageSchema ["seconds" ↦ JNum n; "size" ↦ size] = one_of size sizes ∧
    n = (if is_undefined (requested_seconds req) then nZ 4 else to_number (requested_seconds req)) ∧
    ∀ request, buildSubmitRequest sub = Ok request → truthy sub~>"files" = false →
      requested_seconds (request~>"body") = requested_seconds req ∧
      js_or (request~>"body")~>"size" (str "720x1280") = size.
Proof.
  intros Hj Hd [Hsub Hbody _ _] Hrem. destruct (sora_decoded _ _ Hj Hd) as (req & Hr & Hu & Hc). rewrite Hr in *.
  set (B := with_model (JObj req) ctx) in *. cbn zeta.
  assert (requested_seconds (JObj B) = requested_seconds (JObj req)) as Es.
  { unfold requested_seconds, B. by rewrite !get_with_model by (done || keys). }
  assert (keys_unique B) as KB by (apply keys_put, keys_assign, nil_keys).
  eexists _, _. conjs.
  - unfold extractUsage, dot. rewrite Hsub. cbn [mbind result_bind]. rewrite Hrem, Hbody, or_object_obj. reflexivity.
  - rewrite billed_requested by by rewrite Es. rewrite Es. destruct (is_undefined _) eqn:D; [reflexivity|].
    apply accepted_seconds; [done|]. unfold is_defined. by rewrite D.
  - unfold usage_valid. cbn [forallb fst snd]. change (assoc usageSchema (js "seconds")) with (Some (number_field "second")).
    change (assoc usageSchema (js "size")) with (Some (enum_field sizes)). cbv iota beta.
    rewrite seconds_valid; [by rewrite andb_true_r|].
    rewrite billed_requested by by rewrite Es. rewrite Es. destruct (is_undefined _) eqn:D; [reflexivity|].
    apply accepted_seconds; [done|]. unfold is_defined. by rewrite D.
  - by rewrite billed_requested by by rewrite Es.
  - intros request Hs Hf. unfold buildSubmitRequest, dot in Hs. rewrite Hsub, Hbody in Hs.
    cbn [mbind result_bind] in Hs. rewrite or_object_obj in Hs. apply bind_Ok in Hs as (? & _ & Hs). rewrite Hrem in Hs.
    assert (truthy (or_array sub~>"files")~>"length" = false) as E.
    { unfold or_array, js_or. by rewrite Hf. }
    rewrite E in Hs. injection Hs as <-.
    change ((JObj ["url" ↦ ?a; "method" ↦ ?b; "headers" ↦ ?c; "body" ↦ ?d])~>"body") with d.
    unfold requested_seconds. by rewrite !get_values by (done || keys).
Qed.
End sora.
End Sora.
