(* ===== verification/PluginVideoFacts.v ===== *)
(** * Usage of the Hailuo and Google Veo plugins

    What an accepted video request is billed for, and the operation that is
    polled for it. *)
From stdpp Require Import base list option numbers sets.
From Stdlib Require Import ZArith SpecFloat Lia.
From S2P Require Import Prelude.
From S2P Require Import JsString.
From S2P Require Import JsNumber.
From S2P Require Import Syntax.
From S2P Require Import Runtime.
From S2P Require Import Display.
From S2P Require Import PriceTableFacts.
From S2P Require Import Json.
From S2P Require Import EditorFacts.
From S2P Require Import JsText.
From S2P Require Import JsonPrint.
From S2P Require Import AdvancedCustom.
From S2P Require Import JsDynamic.
From S2P Require Import PluginCommon.
From S2P Require PluginGoogle.
From S2P Require PluginHailuo.
From S2P Require Import PluginUsage.
From S2P Require Import PluginBilling.

(** ** Usage of the Hailuo plugin

    For MiniMax-H3 every submission is billed for exactly the content,
    duration and resolution it sends, all within the documented limits, and
    the usage the provider reports at the end stays inside the same limits. *)

Section hailuo.
Import PluginHailuo.
Context {H : Host} {U : TaskHost}.

(** ** Content *)

(** A value with a [type] text is an object. *)
Lemma typed_object item s : equals item~>"type" s = true → plain_object item = true.
Proof.
  destruct item as [| | | | |items|]; try done; intros E; cbn [get] in E;
    change (jseq (js "type") (js "length")) with false in E; unfold element in E;
    assert (array_index (js "type") = None) as F by (vm_compute; reflexivity); rewrite F in E; done.
Qed.

Lemma item_object type item : is_item type item = plain_object item && equals item~>"type" type.
Proof.
  unfold is_item. destruct (equals item~>"type" type) eqn:E; [|by rewrite !andb_false_r].
  rewrite (typed_object item type E). by destruct item; apply typed_object in E.
Qed.

Lemma equals_other v a b : equals v a = true → jseq (js a) (js b) = false → equals v b = false.
Proof. unfold equals, str. destruct v; try done. cbn. intros E. apply jseq_eq in E as ->. done. Qed.

(** One step of the loop counts an image exactly for an image item. *)
Lemma count_item_images c item :
  inputImages (count_item c item) = inputImages c + (if is_item "image_url" item then 1 else 0).
Proof.
  unfold count_item. rewrite item_object. destruct (plain_object item); cbn [negb andb]; [|lia].
  unfold is_text_item. destruct (equals item~>"type" "text") eqn:T.
  - rewrite (equals_other _ _ "image_url" T) by reflexivity. destruct (nonempty_text _); cbn; lia.
  - cbn [andb]. by destruct (equals item~>"type" "image_url"); cbn; [|lia].
Qed.

Lemma counted_images items : ∀ c,
  inputImages (fold_left count_item items c) = inputImages c + count_items "image_url" items.
Proof.
  unfold count_items. induction items as [|item items IH]; intros c; cbn; [lia|].
  rewrite IH, count_item_images. destruct (is_item "image_url" item); cbn; lia.
Qed.

Lemma validated items content :
  validateH3Content items = Ok content →
  content = items ∧ hasText (content_of_items items) = true ∧
  count_items "image_url" items ≤ H3_MAX_REFERENCE_IMAGES ∧
  hasFrame (content_of_items items) && hasReference (content_of_items items) = false.
Proof.
  unfold validateH3Content. intros E.
  destruct (hasText _) eqn:T; [|done]. cbn [negb] in E.
  destruct (1 <? firstFrames _); [done|]. destruct (1 <? lastFrames _); [done|].
  destruct (_ <? referenceImages _); [done|]. destruct (_ <? inputImages _) eqn:I; [done|].
  destruct (_ <? referenceVideos _); [done|]. destruct (_ <? referenceAudios _); [done|].
  destruct (_ && _) eqn:M; [done|]. injection E as <-. conjs; try done.
  apply Nat.ltb_ge in I. unfold content_of_items in I. by rewrite counted_images in I.
Qed.

(** The content of a request has passed the validation. *)
Lemma content_validated req content : h3Content req = Ok content → validateH3Content content = Ok content.
Proof.
  assert (∀ items, validateH3Content items = Ok content → validateH3Content content = Ok content) as V.
  { intros items E. by destruct (validated _ _ E) as [-> _]. }
  unfold h3Content. destruct (negb _).
  - destruct (_~>"content") as [| | | | |items|]; try done.
    destruct (existsb _ items); [apply V|]. destruct (negb _); [done|]. apply V.
  - unfold assembled_content. intros E. apply bind_Ok in E as (frames & _ & E).
    destruct (_ <? _); [done|]. destruct (_ <? _); [done|].
    destruct (_ ++ _) as [|item items]; [done|]. by apply V in E.
Qed.

Lemma content_images req content :
  h3Content req = Ok content → count_items "image_url" content ≤ H3_MAX_REFERENCE_IMAGES.
Proof. intros E%content_validated%validated. naive_solver. Qed.

(** ** Submission *)

Lemma duration_bounds req n :
  h3Duration req = Ok n → is_finite n = true ∧ nleb (nZ 4) n = true ∧ nleb n (nZ 15) = true.
Proof.
  unfold h3Duration. destruct (_ || _); [by intros [= <-]|].
  destruct (_ || _) eqn:E; [done|]. intros [= <-]. apply orb_false_iff in E as [E E3].
  apply orb_false_iff in E as [E1 E2]. apply negb_false_iff, integer_finite in E1.
  conjs; [done|by apply nltb_false|by apply nltb_false].
Qed.

Lemma bounded_billable n :
  is_finite n = true → nleb (nZ 4) n = true → nleb n (nZ 15) = true → billable n = true.
Proof.
  intros Hf Hl Hu. unfold billable, ngtb. rewrite Hf. cbn [andb]. apply andb_true_iff. split.
  - by apply (nltb_nleb_trans _ (nZ 4)).
  - by apply (nleb_trans _ (nZ 15)).
Qed.

Lemma resolution_listed req res : h3Resolution req = Ok res → res ∈ [js "768P"; js "2K"].
Proof.
  unfold h3Resolution. intros E. apply str_in_elem.
  destruct (negb _); [by injection E as <-|]. destruct (includes _ _); [by injection E as <-|].
  by destruct (includes _ _); [injection E as <-|].
Qed.

Lemma count_valid n : n ≤ H3_MAX_REFERENCE_IMAGES → valid_fact (number_field "count") (int (Z.of_nat n)) = true.
Proof. unfold H3_MAX_REFERENCE_IMAGES. intros Hn. do 10 (destruct n as [|n]; [by vm_compute|]). lia. Qed.

(** The facts of a submission of MiniMax-H3. *)
Definition h3_usage (seconds : num) (resolution : jsstr) (content : list jsval) : obj :=
  ["seconds" ↦ JNum seconds; "resolution" ↦ JStr resolution;
   "input_images" ↦ int (Z.of_nat (count_items "image_url" content));
   "input_video_seconds" ↦
     int (if existsb (is_item "video_url") content then H3_MAX_INPUT_VIDEO_SECONDS else 0)].

Lemma h3_usage_valid req content n res :
  h3Content req = Ok content → h3Duration req = Ok n → h3Resolution req = Ok res →
  usage_valid H3_USAGE_SCHEMA (h3_usage n res content) = true.
Proof.
  intros Hc Hn Hr. unfold h3_usage.
  eapply usage_valid_cons; [reflexivity| |].
  { apply seconds_valid. destruct (duration_bounds _ _ Hn) as (? & ? & ?). by apply bounded_billable. }
  eapply usage_valid_cons; [reflexivity|by apply enum_valid, (resolution_listed req)|].
  eapply usage_valid_cons; [reflexivity|by apply count_valid, (content_images req)|].
  eapply usage_valid_cons; [reflexivity| |done]. by destruct (existsb _ content).
Qed.

Lemma is_h3 v : isH3 v = true → v = str "MiniMax-H3".
Proof. unfold isH3. destruct v; try done. cbn. intros E. by apply jseq_eq in E as ->. Qed.

(** Whatever a submission of MiniMax-H3 sends is what it is billed for. *)
Lemma h3_bills_what_it_sends ctx request :
  isH3 ctx~>"upstreamModel" = true → ctx~>"usagePurpose" = str "facts" →
  buildSubmitRequest ctx = Ok request →
  ∃ content n res, let body := request~>"body" in
    extractUsage ctx = Ok (Some (h3_usage n res content)) ∧
    usage_valid H3_USAGE_SCHEMA (h3_usage n res content) = true ∧
    body~>"content" = JArr content ∧ body~>"duration" = JNum n ∧ body~>"resolution" = JStr res ∧
    count_items "image_url" content ≤ H3_MAX_REFERENCE_IMAGES ∧ nleb n (nZ 15) = true.
Proof.
  intros Hm Hp Hs. unfold buildSubmitRequest in Hs. apply bind_Ok in Hs as (body & Hb & Hs).
  apply dot_Ok in Hb as [Hctx ->]. rewrite Hm in Hs. unfold h3_body in Hs.
  apply bind_Ok in Hs as ([sent content] & Hs & [= <-]).
  apply bind_Ok in Hs as (c & Hc & Hs). apply bind_Ok in Hs as (res & Hr & Hs).
  apply bind_Ok in Hs as (n & Hn & Hs). apply bind_Ok in Hs as (ratio & _ & [= <- ->]).
  exists content, n, res. cbn zeta. conjs.
  - unfold extractUsage, dot. rewrite Hctx, Hp. cbn [mbind result_bind].
    change (equals (str "facts") "billing_ratios") with false. cbn iota.
    rewrite (is_h3 _ Hm). change (js_or (str "MiniMax-H3") ?v) with (str "MiniMax-H3").
    change (isH3 (str "MiniMax-H3")) with true. cbn iota. rewrite Hc, Hn, Hr. reflexivity.
  - by apply (h3_usage_valid (or_object ctx~>"requestBody")).
  - refine (get_own (put_if _ _ _ _) _ _ _). rewrite !own_put_if. by decide_keys.
  - refine (get_own (put_if _ _ _ _) _ _ _). rewrite !own_put_if. by decide_keys.
  - refine (get_own (put_if _ _ _ _) _ _ _). rewrite !own_put_if. by decide_keys.
  - by apply (content_images _ _ Hc).
  - by apply (duration_bounds _ _ Hn).
Qed.

(** ** Completion *)

Definition in_bounds (v : jsval) (low high : Z) : Prop :=
  ∃ x, v = JNum x ∧ is_finite x = true ∧ nleb (nZ low) x = true ∧ nleb x (nZ high) = true.

Lemma own_bounded key v low high integer facts k :
  is_finite (nZ low) = true → is_finite (nZ high) = true →
  own (bounded_fact key v low high integer facts) k = own facts k ∨
  k = js key ∧ ∃ x, own (bounded_fact key v low high integer facts) k = Some x ∧ in_bounds x low high.
Proof.
  intros Fl Fh. unfold bounded_fact. destruct (_ || strict_eq _ _); [by left|].
  destruct (_ || _) eqn:E; [by left|]. rewrite own_put. destruct (jseq (js key) k) eqn:J; [|by left].
  right. apply jseq_eq in J. split; [done|]. eexists. split; [reflexivity|].
  apply orb_false_iff in E as [E _]. apply orb_false_iff in E as [E E3]. apply orb_false_iff in E as [E1 E2].
  apply negb_false_iff in E1. eexists. conjs; [reflexivity|done|by apply nltb_false|by apply nltb_false].
Qed.

Local Ltac apply_bounds :=
  match goal with
  | K : _ = js _, I : in_bounds ?x _ _, Hv : Some ?x = Some ?v |- _ =>
      first [injection Hv as <-; exact I | vm_compute in K; discriminate K]
  end.

(** What the provider reports is taken only inside the limits of a
    submission. *)
Lemma completion_bounded task taskResult body facts :
  truthy (h3QueryTask body) = true → extractUsageOnComplete task taskResult body = Some facts →
  (∀ v, own facts (js "seconds") = Some v → in_bounds v 4 15) ∧
  (∀ v, own facts (js "input_images") = Some v → in_bounds v 0 9) ∧
  (∀ v, own facts (js "input_video_seconds") = Some v → in_bounds v 0 15) ∧
  (∀ v, own facts (js "resolution") = Some v → v = str "2K" ∨ v = str "768P").
Proof.
  intros Ht E. unfold extractUsageOnComplete in E. rewrite Ht in E.
  assert (h3_facts (h3QueryTask body) = facts) as <-.
  { destruct (h3_facts _); [done|]. by injection E. }
  unfold h3_facts. set (f0 := put_if _ _ _ _).
  set (usage := if plain_object _ then _ else _).
  assert (∀ k v, own f0 k = Some v → k = js "resolution" ∧ (v = str "2K" ∨ v = str "768P")) as Hf0.
  { intros k v. unfold f0. rewrite own_put_if. destruct (_ && _) eqn:B; [|done].
    apply andb_true_iff in B as [B K]. apply jseq_eq in K as <-. intros [= <-]. split; [done|].
    apply orb_true_iff in B as [B|B]; apply jseq_eq in B as ->; auto. }
  set (f1 := bounded_fact "seconds" _ _ _ _ _). set (f2 := bounded_fact "input_images" _ _ _ _ _).
  pose proof (λ k, own_bounded "seconds" usage~>"output_seconds" H3_MIN_DURATION H3_MAX_DURATION false f0 k eq_refl eq_refl) as B1.
  pose proof (λ k, own_bounded "input_images" usage~>"input_image_count" 0 (Z.of_nat H3_MAX_REFERENCE_IMAGES) true
                    f1 k eq_refl eq_refl) as B2.
  pose proof (λ k, own_bounded "input_video_seconds" usage~>"input_seconds" 0 H3_MAX_INPUT_VIDEO_SECONDS false
                    f2 k eq_refl eq_refl) as B3.
  conjs; intros v Hv.
  all: match type of Hv with own _ ?k = _ =>
    destruct (B3 k) as [E3|[K (x & E3 & I)]]; rewrite E3 in Hv; [clear E3|apply_bounds];
    destruct (B2 k) as [E2|[K (x & E2 & I)]]; fold f2 in E2; rewrite E2 in Hv; [clear E2|apply_bounds];
    destruct (B1 k) as [E1|[K (x & E1 & I)]]; fold f1 in E1; rewrite E1 in Hv; [clear E1|apply_bounds];
    destruct (Hf0 _ _ Hv) as [K I]; first [exact I|vm_compute in K; discriminate K] end.
Qed.
End hailuo.

(** ** Usage and operations of the Google Veo plugin

    An accepted video request is billed for the seconds and the resolution
    that are sent; the operation a submission returns is the one that is
    polled; and an image in the JSON form of a video request does not reach
    the provider. *)

Section google.
Import PluginGoogle.
Context {H : Host} {U : TaskHost} {L : TaskHostLaws}.

Lemma size_resolution_listed size : resolutionForSize size ∈ resolutions.
Proof. apply str_in_elem. unfold resolutionForSize, resolution_for_size. by repeat case_match. Qed.

Lemma listed_cases res : res ∈ resolutions → res = js "720p" ∨ res = js "1080p" ∨ res = js "4k".
Proof. unfold resolutions. rewrite !elem_of_cons, elem_of_nil. tauto. Qed.

Lemma listed_lower res : res ∈ resolutions → to_lower_case res = res.
Proof.
  intros Hr. assert (ascii_text res ∧ map ascii_low res = res) as [A E].
  { destruct (listed_cases res Hr) as [->|[->| ->]]; split; try reflexivity;
      by apply (bool_decide_unpack _); vm_compute. }
  by rewrite lower_ascii.
Qed.

(** ** Decoding *)

Definition veo_seconds (n : num) : Prop := n = nZ 4 ∨ n = nZ 6 ∨ n = nZ 8.

Lemma checked_seconds req req' :
  check_seconds req = Ok req' →
  if is_undefined (requested_seconds (JObj req)) then req' = req
  else ∃ n, veo_seconds n ∧ req' = put req (js "duration") (JNum n).
Proof.
  unfold check_seconds. destruct (is_undefined _); [by intros [= <-]|]. intros E. inv_ok.
  apply throw_if_Ok in Hv. exists (to_number (requested_seconds (JObj req))). split; [|done].
  apply andb_false_iff in Hv as [Hv|Hv]; [apply andb_false_iff in Hv as [Hv|Hv]|];
    apply negb_false_iff, neqb_eq in Hv; rewrite Hv; [by left|by right; left|by right; right].
Qed.

(** What an accepted request says about its seconds and its resolution. *)
Lemma google_decoded ctx r :
  video_decodeRequest ctx = Ok r →
  ∃ body, r~>"requestBody" = JObj body ∧
    ((JObj body)~>"duration" = JUndefined ∨ ∃ n, veo_seconds n ∧ (JObj body)~>"duration" = JNum n) ∧
    (is_undefined (JObj body)~>"resolution" = true → truthy ((JObj body)~>"metadata")~>"resolution" = true →
     to_lower_case (js_text ((JObj body)~>"metadata")~>"resolution") ∈ resolutions).
Proof.
  intros Hd. unfold video_decodeRequest in Hd. apply bind_Ok in Hd as ([req has] & Hr & Hd).
  apply video_request_keys in Hr as K. unfold veo_submit in Hd. apply bind_Ok in Hd as (req1 & H1 & Hd).
  apply bind_Ok in Hd as (u & H2 & [= <-]). apply checked_seconds in H1.
  assert (keys_unique req1 ∧ ((JObj req1)~>"duration" = JUndefined ∨
    ∃ n, veo_seconds n ∧ (JObj req1)~>"duration" = JNum n)) as [K1 D1].
  { destruct (is_undefined (requested_seconds (JObj req))) eqn:E.
    - subst req1. split; [done|]. left. unfold requested_seconds in E.
      destruct (is_undefined (JObj req)~>"seconds") eqn:E'; [|congruence]. by destruct (JObj req)~>"duration".
    - destruct H1 as (n & Hn & ->). split; [by apply keys_put|]. right. exists n. by rewrite get_put_same. }
  eexists. split; [reflexivity|]. rewrite !get_with_model by (keys || by apply put_if_keys).
  rewrite !get_put_if_other by keys. split; [done|].
  intros Hu Ht. unfold check_resolution, provided_resolution in H2.
  assert (is_defined (JObj req1)~>"resolution" = false) as Hu' by (unfold is_defined; by rewrite Hu).
  rewrite !Hu' in H2. set (m := (JObj req1)~>"metadata") in *.
  assert (js_and m m~>"resolution" = m~>"resolution") as E.
  { unfold js_and. destruct (truthy m) eqn:T; [done|]. destruct m as [| |[]|[]|[]| |]; try discriminate T;
      vm_compute in Ht; discriminate Ht. }
  rewrite E in H2. apply throw_if_Ok in H2. apply str_in_elem.
  apply andb_false_iff in H2 as [H2|H2]; [|by apply negb_false_iff in H2].
  destruct (m~>"resolution") as [| |?|?|[|c s]| |]; cbn in Ht, H2; done.
Qed.

(** ** Billing *)

Lemma get_assign_own fields k : keys_unique fields → get (JObj (assign [] (JObj fields))) k = get (JObj fields) k.
Proof. intros Hk. cbn [get]. rewrite own_assign. cbn [entries]. rewrite last_own_unique by done. by destruct (own fields k). Qed.

Definition billed_resolution (req metadata : jsval) : jsstr :=
  to_lower_case (js_text (js_or (js_or metadata~>"resolution" (JStr (resolutionForSize req~>"size"))) (str "720p"))).

(** The resolution of the parameters is the billed one where they have one. *)
Lemma sent_resolution req fields :
  or_object req~>"metadata" = JObj fields → keys_unique fields →
  truthy (JObj fields)~>"resolution" || truthy req~>"size" = true →
  (JObj (parameters req))~>"resolution" = JStr (billed_resolution req (JObj fields)).
Proof.
  intros Hm Hk Hg. unfold parameters. rewrite Hm. rewrite get_put_other by keys.
  set (p1 := put_if _ (assign [] _) _ _).
  assert ((JObj p1)~>"resolution" = (JObj fields)~>"resolution") as E1.
  { unfold p1. rewrite get_put_if_other by keys. by apply get_assign_own. }
  set (p2 := put_if _ p1 _ _). set (p3 := put_if _ p2 _ _).
  assert ((JObj p3)~>"resolution" =
    if truthy (JObj fields)~>"resolution" then (JObj fields)~>"resolution"
    else JStr (resolutionForSize req~>"size")) as E3.
  { unfold p3. rewrite get_put_if_other by keys. unfold p2. rewrite E1.
    destruct (truthy (JObj fields)~>"resolution"); [exact E1|]. cbn [orb] in Hg. rewrite Hg. apply get_put_same. }
  assert (nonempty_text (resolutionForSize req~>"size") = true) as Hne.
  { destruct (listed_cases _ (size_resolution_listed req~>"size")) as [->|[->| ->]]; done. }
  assert (truthy (JObj p3)~>"resolution" = true) as T.
  { rewrite E3. destruct (truthy (JObj fields)~>"resolution") eqn:T; [done|]. by destruct (resolutionForSize _). }
  rewrite T. cbn [put_if]. rewrite get_put_same, E3. unfold billed_resolution, js_or at 2.
  destruct (truthy (JObj fields)~>"resolution") eqn:T'.
  - unfold js_or. by rewrite T'.
  - by rewrite js_or_present.
Qed.

Lemma billed_listed req metadata :
  (truthy metadata~>"resolution" = true → to_lower_case (js_text metadata~>"resolution") ∈ resolutions) →
  billed_resolution req metadata ∈ resolutions.
Proof.
  intros Hm. unfold billed_resolution, js_or at 2. destruct (truthy metadata~>"resolution") eqn:E.
  - unfold js_or. rewrite E. by apply Hm.
  - pose proof (size_resolution_listed req~>"size") as Hs.
    rewrite js_or_present by by destruct (listed_cases _ Hs) as [->|[->| ->]]. cbn [js_text]. by rewrite listed_lower.
Qed.

Lemma seconds_billable n : veo_seconds n → billable n = true.
Proof. by intros [->|[->| ->]]. Qed.

(** An accepted video request is billed for 4, 6 or 8 seconds of a listed
    resolution, the ones that are sent where the request gives them. *)
Lemma google_billed ctx r sub fields :
  video_decodeRequest ctx = Ok r → submission_of ctx r sub →
  let req := r~>"requestBody" in
  or_object req~>"metadata" = JObj fields → keys_unique fields →
  (truthy (JObj fields)~>"resolution" = true → is_undefined req~>"resolution" = true) →
  ∃ n res, veo_seconds n ∧
    extractUsage sub = Ok ["seconds" ↦ JNum n; "resolution" ↦ JStr res] ∧
    usage_valid usageSchema ["seconds" ↦ JNum n; "resolution" ↦ JStr res] = true ∧
    (is_defined req~>"duration" = true → (JObj (parameters req))~>"durationSeconds" = JNum n) ∧
    (truthy (JObj fields)~>"resolution" || truthy req~>"size" = true →
     (JObj (parameters req))~>"resolution" = JStr res).
Proof.
  intros Hd [Hsub Hbody _ _] req Hm Hk Hone. subst req.
  destruct (google_decoded _ _ Hd) as (body & Hb & Hdur & Hres). rewrite Hb in *.
  set (n := match (JObj body)~>"duration" with JNum n => n | _ => nZ 8 end).
  assert (veo_seconds n ∧ (if negb (is_finite (to_number (JObj body)~>"duration")) ||
    nleb (to_number (JObj body)~>"duration") NZERO then nZ 8 else to_number (JObj body)~>"duration") = n) as [Hn En].
  { unfold n. destruct Hdur as [->|(k & Hv & ->)]; [by split; [right; right|]|].
    split; [done|]. cbn [to_number]. by destruct Hv as [->|[->| ->]]. }
  exists n, (billed_resolution (JObj body) (JObj fields)). conjs.
  - done.
  - unfold extractUsage, dot. rewrite Hsub, Hbody. cbn [mbind result_bind]. rewrite or_object_obj, Hm, En. done.
  - eapply usage_valid_cons; [reflexivity|by apply seconds_valid, seconds_billable|].
    eapply usage_valid_cons; [reflexivity|apply enum_valid|done].
    apply billed_listed. intros T. specialize (Hone T). unfold or_object, js_or in Hm.
    destruct (truthy (JObj body)~>"metadata"); [|injection Hm as <-; discriminate T].
    rewrite <- Hm in *. by apply Hres.
  - intros Hdef. unfold n in *. destruct Hdur as [E|(k & Hv & E)]; rewrite E in Hdef |- *; [done|].
    unfold parameters. rewrite get_put_other by keys. rewrite !get_put_if_other by keys. rewrite E. cbn [to_number].
    assert (ngtb k NZERO = true) as -> by by destruct Hv as [->|[->| ->]]. apply get_put_same.
  - by apply sent_resolution.
Qed.

(** ** Images of JSON requests *)

(** A request without [images] is submitted without an image, whatever its
    [image] or [input_reference] holds. *)
Lemma image_not_sent ctx r sub request :
  video_decodeRequest ctx = Ok r → submission_of ctx r sub →
  truthy (r~>"requestBody")~>"images" = false → buildSubmitRequest sub = Ok request →
  request~>"action" = str "text_to_video" ∧
  (request~>"body")~>"instances" = JArr [JObj ["prompt" ↦ (r~>"requestBody")~>"prompt"]].
Proof.
  intros Hd [Hsub Hbody _ _] Hi Hs. destruct (google_decoded _ _ Hd) as (body & Hb & _). rewrite Hb in *.
  unfold buildSubmitRequest, converted, dot in Hs. rewrite Hsub, Hbody in Hs. cbn [mbind result_bind] in Hs.
  rewrite or_object_obj in Hs. unfold or_array, js_or in Hs. rewrite Hi in Hs.
  change ((JArr [])~>"0") with JUndefined in Hs. cbn in Hs. injection Hs as <-. by split.
Qed.

(** ** Operations *)

(** The operation whose name a submission returned is the one that is polled. *)
Lemma polls_the_operation ctx resp result name query :
  (resp~>"body")~>"name" = JStr name → ascii_text name → parseSubmitResponse ctx resp = Ok result →
  query~>"taskId" = result~>"taskId" → is_nullish query = false →
  ∃ request, buildQueryRequest query = Ok request ∧
    request~>"url" = JStr (js_text query~>"baseUrl" ++ js "/v1beta/" ++ name).
Proof.
  intros Hn Ha Hp Hq Hnull. unfold parseSubmitResponse in Hp. apply bind_Ok in Hp as (b & Hb & Hp).
  apply dot_Ok in Hb as [_ ->]. assert (or_object resp~>"body" = resp~>"body") as Eb.
  { unfold or_object, js_or. destruct (truthy resp~>"body") eqn:T; [reflexivity|].
    destruct (resp~>"body") as [| |[]|[]|[]| |]; try discriminate T; vm_compute in Hn; discriminate Hn. }
  rewrite Eb, Hn in Hp. apply bind_Ok in Hp as (? & _ & Hp). cbn [js_text] in Hp.
  assert (result~>"taskId" = JStr (base64URL name)) as Et.
  { destruct (_ && _); [apply bind_Ok in Hp as (uri & _ & Hp)|]; injection Hp as <-; reflexivity. }
  unfold buildQueryRequest, dot. rewrite Hnull, Hq, Et. cbn [mbind result_bind js_text].
  rewrite base64URL_decodes by done. cbn [mbind result_bind]. by eexists.
Qed.
End google.
