(* ===== verification/DoubaoFacts.v ===== *)
(** * Facts about the two Doubao plugins

    Numbers that are not NaN, what a video or an image is billed for, draft
    tasks; the pinned protocol of the local plugin, the duration that is sent
    and billed, addresses that can be delivered, and completion facts. *)
From stdpp Require Import base list option numbers sets.
From Stdlib Require Import ZArith SpecFloat Lia.
From S2P Require Import Prelude.
From S2P Require Import JsString.
From S2P Require Import JsNumber.
From S2P Require Import Syntax.
From S2P Require Import Runtime.
From S2P Require Structure.
From S2P Require Import Display.
From S2P Require Import PriceTableFacts.
From S2P Require Import Json.
From S2P Require Import EditorFacts.
From S2P Require Import JsText.
From S2P Require Import JsonPrint.
From S2P Require Import AdvancedCustom.
From S2P Require Import AdvancedCustomFacts.
From S2P Require Import JsDynamic.
From S2P Require Import PluginCommon.
From S2P Require Import Seedream.
From S2P Require PluginDoubao.
From S2P Require LocalDoubao.
From S2P Require Import PluginUsage.
From S2P Require Import PluginBilling.

(** ** Facts about the Doubao plugin

    Numbers that are not NaN, the seconds and the resolution a video is billed
    for, the estimate and the settlement of images, and draft tasks. *)

(** ** Numbers that are not NaN *)

Definition is_nan (x : num) : bool := match x with S754_nan => true | _ => false end.

Lemma shr_1_nonneg r : (0 ≤ shr_m r)%Z → (0 ≤ shr_m (shr_1 r))%Z.
Proof. destruct r as [[|[p|p|]|p] b c]; cbn; lia. Qed.

Lemma iter_shr_nonneg p : ∀ r, (0 ≤ shr_m r)%Z → (0 ≤ shr_m (SpecFloat.iter_pos shr_1 p r))%Z.
Proof. induction p as [p IH|p IH|]; intros r Hr; cbn; auto using shr_1_nonneg. Qed.

Lemma shr_fexp_nonneg m e l : (0 ≤ m)%Z → (0 ≤ shr_m (shr_fexp 53 1024 m e l).1)%Z.
Proof.
  intros Hm. unfold shr_fexp, shr.
  assert (0 ≤ shr_m (shr_record_of_loc m l))%Z by by destruct l as [|[]].
  destruct (_ - _)%Z; cbn; auto using iter_shr_nonneg.
Qed.

Lemma round_aux_not_nan s m e l : (0 ≤ m)%Z → is_nan (binary_round_aux 53 1024 s m e l) = false.
Proof.
  intros Hm. unfold binary_round_aux. pose proof (shr_fexp_nonneg m e l Hm) as H1.
  destruct (shr_fexp 53 1024 m e l) as [r e'] eqn:E1. cbn in H1.
  assert (0 ≤ round_nearest_even (shr_m r) (loc_of_shr_record r))%Z as H2.
  { unfold round_nearest_even. repeat case_match; lia. }
  pose proof (shr_fexp_nonneg _ e' loc_Exact H2) as H3. destruct (shr_fexp 53 1024 _ e' loc_Exact) as [r2 e2].
  cbn in H3. destruct (shr_m r2); [done|by destruct (e2 <=? _)%Z|lia].
Qed.

Lemma normalize_not_nan m e s : is_nan (binary_normalize 53 1024 m e s) = false.
Proof.
  unfold binary_normalize, binary_round. destruct m as [|p|p]; [done|..];
    destruct (shl_align _ _ _) as [mz ez]; by apply round_aux_not_nan.
Qed.

Lemma ndiv_not_nan x y : is_finite x = true → match y with S754_finite _ _ _ => True | _ => False end →
  is_nan (ndiv x y) = false.
Proof.
  destruct y as [| | |sy my ey]; try done. destruct x as [| | |sx mx ex]; try done. intros _ _.
  unfold ndiv, SFdiv, SFdiv_core_binary.
  set (m' := match _ with Zpos _ => _ | Z0 => _ | Zneg _ => _ end).
  assert (0 ≤ m')%Z by (unfold m'; case_match; [lia| |lia]; apply Z.shiftl_nonneg; lia).
  destruct (Z.div_eucl m' (Z.pos my)) as [q r] eqn:E. apply round_aux_not_nan.
  assert (m' / Z.pos my = q)%Z as <- by (unfold Z.div; by rewrite E). apply Z.div_pos; lia.
Qed.

Lemma nfloor_not_nan x : is_nan x = false → is_nan (nfloor x) = false.
Proof. destruct x; try done. cbn. intros _. case_match; [done|]. apply normalize_not_nan. Qed.

(** A number that is not NaN and not at most zero, cut off at an hour. *)
Lemma capped_billable x : is_nan x = false → nleb x NZERO = false → billable (nmin x (nZ 3600)) = true.
Proof.
  destruct x as [s|s| |s m e]; [done| |done|]; intros _ Hx.
  - destruct s; [done|]. by vm_compute.
  - destruct (nmin_bounds (S754_finite s m e) (nZ 3600)) as (A & B & C & _); [done..| |done|].
    { by apply nleb_false. }
    unfold billable, ngtb. by rewrite A, B, C.
Qed.

(** ** Tables *)

Lemma first_entry_elem {A} (table : list (jsstr * A)) names a :
  first_entry table names = Some a → ∃ name, name ∈ names ∧ (name, a) ∈ table.
Proof.
  induction names as [|name names IH]; cbn; [done|]. destruct (entry_of table name) as [b|] eqn:E.
  - intros [= ->]. exists name. split; [left|by apply entry_of_elem].
  - intros Ha. destruct (IH Ha) as (n & Hn & Ht). exists n. split; [by right|done].
Qed.

Lemma table_forall {A} (p : A → bool) (table : list (jsstr * A)) names a :
  forallb (λ e, p e.2) table = true → first_entry table names = Some a → p a = true.
Proof.
  intros Hp Ha. destruct (first_entry_elem _ _ _ Ha) as (n & _ & Ht). rewrite forallb_forall in Hp.
  by specialize (Hp _ (proj1 (list_elem_of_In _ _) Ht)).
Qed.

Section doubao.
Context {H : Host} {U : TaskHost}.

(** ** Videos *)

Lemma doubao_seconds_billable req metadata : billable (PluginDoubao.billed_seconds req metadata) = true.
Proof.
  unfold PluginDoubao.billed_seconds.
  set (s0 := to_number (js_or _ _)). set (f := to_number metadata~>"frames").
  set (s1 := if negb (is_finite s0) || nleb s0 NZERO then _ else s0).
  assert (is_nan s1 = false) as Hs1.
  { unfold s1. destruct (negb (is_finite s0) || nleb s0 NZERO) eqn:E.
    - destruct (is_finite f && ngtb f NZERO) eqn:F; [|reflexivity]. apply andb_true_iff in F as [F _].
      by apply nfloor_not_nan, ndiv_not_nan.
    - apply orb_false_iff in E as [E _]. apply negb_false_iff in E. by destruct s0. }
  destruct (nleb s1 NZERO) eqn:E; [by vm_compute|by apply capped_billable].
Qed.

(** Every profile offers the tier a request without a resolution reserves. *)
Definition offers_reserved (p : VideoProfile) : bool := str_in (PluginDoubao.reserved_resolution p) (resolutions p).

Lemma profile_offers ctx : offers_reserved (PluginDoubao.videoProfile ctx) = true.
Proof.
  unfold PluginDoubao.videoProfile. destruct (first_entry VIDEO_MODELS _) as [p|] eqn:E; [|by vm_compute].
  eapply (table_forall offers_reserved); [|exact E]. by vm_compute.
Qed.

Lemma resolution_offered ctx res :
  PluginDoubao.videoResolution ctx = Ok res → res ∈ resolutions (PluginDoubao.videoProfile ctx).
Proof.
  unfold PluginDoubao.videoResolution. intros Hr. apply bind_Ok in Hr as (req & _ & Hr).
  destruct (negb _); [injection Hr as <-; apply str_in_elem, profile_offers|].
  apply bind_Ok in Hr as (? & Hc%throw_if_Ok & [= <-]). apply negb_false_iff in Hc. by apply str_in_elem.
Qed.

(** The facts beside the tokens are those the schema of the model lists. *)
Lemma video_facts_valid profile seconds res metadata :
  res ∈ resolutions profile →
  let facts := PluginDoubao.video_facts profile seconds res metadata in
  facts.*1 = (seedanceUsageSchema profile).*1 ∧
  own facts (js "tokens") = Some (JNum (estimateTokens seconds res)) ∧
  own facts (js "resolution") = Some (JStr res) ∧
  usage_valid (seedanceUsageSchema profile) (remove facts (js "tokens")) = true.
Proof.
  intros Hres facts. subst facts. pose proof (enum_valid _ _ Hres) as V.
  assert (∀ b : bool, valid_fact (enum_field [js "none"; js "video"]) (if b then str "video" else str "none") = true) as W.
  { by intros []. }
  destruct profile as [rs [] []]; conjs; try reflexivity.
  all: repeat (eapply usage_valid_cons; [reflexivity| |]); try done; apply W.
Qed.

Lemma doubao_video_billed ctx request :
  imageTask ctx = false → ctx~>"usagePurpose" = str "facts" → PluginDoubao.buildSubmitRequest ctx = Ok request →
  ∃ facts n res, PluginDoubao.extractUsage ctx = Ok (Some facts) ∧ billable n = true ∧
    res ∈ resolutions (PluginDoubao.videoProfile ctx) ∧
    facts.*1 = (seedanceUsageSchema (PluginDoubao.videoProfile ctx)).*1 ∧
    own facts (js "tokens") = Some (JNum (estimateTokens n res)) ∧ own facts (js "resolution") = Some (JStr res) ∧
    usage_valid (seedanceUsageSchema (PluginDoubao.videoProfile ctx)) (remove facts (js "tokens")) = true.
Proof.
  intros Hi Hp Hb. unfold PluginDoubao.buildSubmitRequest in Hb. rewrite Hi in Hb.
  apply bind_Ok in Hb as (req & Hreq & Hb). apply bind_Ok in Hb as (? & _ & Hb).
  apply bind_Ok in Hb as (res & Hres & _). pose proof (resolution_offered _ _ Hres) as Hin.
  unfold PluginDoubao.extractUsage. rewrite Hi, Hreq, Hp. cbn [mbind result_bind].
  change (equals (str "facts") "billing_ratios") with false. cbn iota. rewrite Hres. cbn [mbind result_bind].
  destruct (video_facts_valid (PluginDoubao.videoProfile ctx)
    (PluginDoubao.billed_seconds (or_object req) (or_object (or_object req)~>"metadata")) res
    (or_object (or_object req)~>"metadata") Hin) as (A & B & C & D).
  eexists _, _, res. conjs; [reflexivity|apply doubao_seconds_billable|done|exact A|exact B|exact C|exact D].
Qed.

(** ** Draft tasks *)

(** A draft of the content refers to the upstream task of an origin task. *)
Definition origin_of (originTasks : jsval) (id : jsstr) : Prop :=
  ∃ tasks task, originTasks = JArr tasks ∧ task ∈ tasks ∧ trimmed task~>"upstreamTaskId" = id.

Lemma upstream_id_origin originTasks publicId :
  nonempty_text (upstream_id originTasks publicId) = true → origin_of originTasks (upstream_id originTasks publicId).
Proof.
  unfold upstream_id. destruct originTasks; try done. destruct (List.find _ items) as [task|] eqn:F; [|done].
  intros _. apply find_some in F as [Ht%list_elem_of_In _]. by exists items, task.
Qed.

Lemma rewritten_draft originTasks item item' :
  rewrite_draft originTasks item = Ok item' → nonempty_text (draft_id item') = true →
  origin_of originTasks (draft_id item').
Proof.
  unfold rewrite_draft. destruct (nonempty_text (draft_id item)) eqn:E; cbn [negb].
  - intros Hr Hne. apply bind_Ok in Hr as (? & Hu%throw_if_Ok & [= <-]). apply negb_false_iff in Hu.
    revert Hne. unfold draft_id at 1 3. destruct (_ && _ && _); [|done]. intros _.
    rewrite get_put_same, get_put_same. unfold trimmed at 1, trimmed_text. rewrite js_or_present by done.
    cbn [js_text]. assert (trim (upstream_id originTasks (draft_id item)) = upstream_id originTasks (draft_id item)) as ->.
    { unfold upstream_id. repeat case_match; try done. unfold trimmed, trimmed_text. apply Structure.trim_trim. }
    by apply upstream_id_origin.
  - intros [= <-]. congruence.
Qed.

Lemma drafts_are_origins ctx req b has :
  PluginDoubao.ark_body ctx req = Ok (b, has) →
  ∃ content, own b (js "content") = Some (JArr content) ∧
    Forall (λ item, nonempty_text (draft_id item) = true → origin_of ctx~>"originTasks" (draft_id item)) content.
Proof.
  unfold PluginDoubao.ark_body. intros Hb. apply bind_Ok in Hb as (content & Hc & [= <- _]). exists content. split.
  - rewrite own_put_other by keys. unfold put_if. destruct (ngtb _ _); rewrite ?own_put_other by keys; apply own_put_same.
  - apply rmap_Ok in Hc. apply Forall_forall. intros item' Hi.
    apply list_elem_of_lookup in Hi as (i & Hi). destruct (Forall2_lookup_r _ _ _ _ _ Hc Hi) as (item & _ & Hr).
    by apply (rewritten_draft _ item).
Qed.
(** ** Images *)

Lemma max_images_bounds b n : max_images b = Ok n → whole_between n 1 15.
Proof.
  unfold max_images. intros Hm. apply bind_Ok in Hm as (options & _ & Hm).
  destruct (is_undefined _); [injection Hm as <-; by vm_compute|].
  apply bind_Ok in Hm as (? & Hc%throw_if_Ok & [= <-]).
  apply orb_false_iff in Hc as [Hc H3]. apply orb_false_iff in Hc as [H1 H2]. apply negb_false_iff in H1.
  destruct (options~>"max_images") as [| | |y| | |] eqn:E; try done. cbn [to_number integer_value] in *.
  pose proof (integer_finite _ H1). unfold whole_between; conjs; [done| |]; by apply nltb_false.
Qed.

(** The images a request asks for: with the references at most fifteen, or
    the seventeen of a decomposition into layers. *)
Lemma image_count_bounds layered auto n images :
  whole_between n 1 15 → images ≤ 14 →
  whole_between (image_count layered auto n images) 1 17 ∧
  (layered = false → whole_between (image_count layered auto n images) 1 (15 - Z.of_nat images)).
Proof.
  intros (I & L & G) Hi. unfold image_count. destruct layered; [by split; [vm_compute|]|].
  assert (∀ k, k ≤ 14 → whole_between (nZ 1) 1 (15 - Z.of_nat k) ∧ whole_between (nZ (15 - Z.of_nat k)) 1 (15 - Z.of_nat k)
    ∧ nleb (nZ (15 - Z.of_nat k)) (nZ 17) = true) as C.
  { intros k Hk. do 15 (destruct k as [|k]; [by vm_compute|]). lia. }
  destruct (C images Hi) as (C1 & C2 & C3). destruct auto; [|by split; [vm_compute|]].
  set (m := nZ (15 - Z.of_nat images)) in *.
  assert (whole_between (nmin n m) 1 (15 - Z.of_nat images)) as (A1 & A2 & A3).
  { destruct C2 as (C21 & C22 & C23). unfold nmin.
    destruct (SFcompare n m) as [[]|] eqn:E.
    - destruct (is_neg_zero n) eqn:Z; [|done]. destruct n as [[]| | |]; try done.
    - unfold whole_between; conjs; [done..|]. unfold nleb, SFleb. fold m. by rewrite E.
    - done.
    - destruct (finite_compare n m); auto using integer_finite. }
  assert (whole_between (nmax (nZ 1) (nmin n m)) 1 (15 - Z.of_nat images)) as W.
  { unfold nmax. destruct (SFcompare (nZ 1) (nmin n m)) as [[]|] eqn:E; [done|done|done|].
    destruct (finite_compare (nZ 1) (nmin n m)); auto using integer_finite. }
  split; [|done]. destruct W as (W1 & W2 & W3). unfold whole_between; conjs; [done..|]. by apply (nleb_trans _ m).
Qed.

(** The largest number of images of a group: what the request asks for, or
    fifteen. *)
Definition group_limit (sent : jsval) (m : num) : Prop :=
  let asked := sent~>"sequential_image_generation_options"~>"max_images" in asked = JUndefined ∧ m = nZ 15 ∨ asked = JNum m.
(** The images that a request that is sent may result in. *)
Definition results_allowed (sent : jsval) (images : nat) (n : num) : Prop :=
  let room := nZ (15 - Z.of_nat images) in
  if strict_eq sent~>"layer_decomposition" (JBool true) then n = nZ 17
  else if equals sent~>"sequential_image_generation" "auto"
  then ∃ m, group_limit sent m ∧ (n = m ∨ n = room) ∧ nleb n m = true ∧ nleb n room = true
  else n = nZ 1.

Lemma max_images_limit b m : max_images b = Ok m → group_limit b m.
Proof.
  unfold max_images, group_limit. intros Hm. apply bind_Ok in Hm as (options & Ho & Hm).
  assert (options~>"max_images" = b~>"sequential_image_generation_options"~>"max_images") as <-.
  { unfold objectValue in Ho. destruct (b~>"sequential_image_generation_options") as [| | | | | |fields]; try done; by injection Ho as <-. }
  destruct (options~>"max_images") as [| | |y| | |]; cbn [is_undefined] in Hm; try (apply bind_Ok in Hm as (? & Hc%throw_if_Ok & Hm); done).
  - injection Hm as <-. by left.
  - apply bind_Ok in Hm as (? & _ & [= <-]). by right.
Qed.

Lemma nmax_one x : nleb (nZ 1) x = true → nmax (nZ 1) x = x.
Proof.
  intros L. unfold nmax, nleb, SFleb in *. destruct (SFcompare (nZ 1) x) as [[]|] eqn:E; try done.
  assert (neqb x (nZ 1) = true) as Q by (rewrite neqb_sym; unfold neqb, SFeqb; by rewrite E).
  by apply neqb_eq in Q as ->.
Qed.

Lemma group_results m images :
  whole_between m 1 15 → images ≤ 14 → let room := nZ (15 - Z.of_nat images) in let n := nmax (nZ 1) (nmin m room) in
  (n = m ∨ n = room) ∧ nleb n m = true ∧ nleb n room = true.
Proof.
  intros (I & L & _) Hi. cbn zeta.
  assert (∀ k, k ≤ 14 → is_finite (nZ (15 - Z.of_nat k)) = true ∧ nleb (nZ 1) (nZ (15 - Z.of_nat k)) = true) as C.
  { intros k Hk. do 15 (destruct k as [|k]; [by vm_compute|]). lia. }
  destruct (C images Hi) as [C1 C2]. set (room := nZ (15 - Z.of_nat images)) in *.
  assert (∀ x, nleb (nZ 1) x = true → nltb NZERO x = true) as P by (by intros [[]|[]| |[]]).
  destruct (nmin_bounds m room) as (_ & _ & B1 & B2); auto using integer_finite.
  assert (nmin m room = m ∨ nmin m room = room) as A.
  { unfold nmin in *. destruct (SFcompare m room) as [[]|]; auto; [destruct (is_neg_zero m); auto|done]. }
  rewrite nmax_one by (destruct A as [-> | ->]; done). done.
Qed.

Lemma image_facts_valid higher n images layered :
  whole_between n 1 17 → images ≤ 17 → usage_valid IMAGE_USAGE_SCHEMA (image_facts higher n images layered) = true.
Proof.
  intros Hn Hi. pose proof (whole_count _ 1 17 eq_refl Hn) as V. pose proof (small_count_valid _ Hi) as W.
  destruct higher; repeat (eapply usage_valid_cons; [reflexivity| |]); done.
Qed.

Lemma profile_references ctx : maxReferenceImages (imageProfile ctx) ≤ MAX_REFERENCE_IMAGES.
Proof.
  unfold imageProfile. destruct (first_entry IMAGE_MODELS _) as [p|] eqn:E; [|by apply Nat.leb_le; vm_compute].
  apply Nat.leb_le. eapply (table_forall (λ p, maxReferenceImages p <=? MAX_REFERENCE_IMAGES)); [|exact E]. by vm_compute.
Qed.

Lemma own_passed_on req k : str_in k [js "model"; js "stream"] = true → own (passed_on req) k = None.
Proof.
  intros Hk. unfold passed_on. generalize (entries req). intros l.
  assert (∀ l o, own o k = None → own (fold_left (λ body kv, if str_in kv.1 [js "model"; js "stream"] || is_undefined kv.2
    then body else put body kv.1 kv.2) l o) k = None) as F; [|by apply F].
  clear l. induction l as [|[k' v] l IH]; intros o Ho; [done|]. cbn [fold_left fst snd]. apply IH.
  destruct (_ || _) eqn:E; [done|]. apply orb_false_iff in E as [E _]. rewrite own_put_other; [done|]. congruence.
Qed.
(** The pixels a size that is sent stands for; none where the provider chooses. *)
Definition size_pixels (profile : ImageProfile) (layered : bool) (size : jsval) (area : option num) : Prop :=
  (size = JUndefined ∧ area = (if layered then None else preset_pixels (js "2K"))) ∨
  (size = str "auto" ∧ layered = true ∧ area = None) ∨
  (∃ preset, preset ∈ IMAGE_RESOLUTIONS ∧ size = JStr preset ∧ area = preset_pixels preset) ∨
  (∃ w h, size = JStr (number_to_string w ++ js "x" ++ number_to_string h) ∧ layered = false ∧
     area = Some (nmul w h) ∧ nleb (nZ (minPixels profile)) (nmul w h) = true ∧
     nleb (nmul w h) (nZ (maxPixels profile)) = true).

Lemma safe_finite x : is_safe_integer x = true → is_finite x = true.
Proof. by destruct x. Qed.

Lemma SFcompare_total x y : is_nan x = false → is_finite y = true → SFcompare x y ≠ None.
Proof. destruct x as [| | |[]], y as [| | |[]]; cbn; try done; intros _ _; repeat case_match; done. Qed.

Lemma nmul_not_nan x y : is_finite x = true → is_finite y = true → is_nan (nmul x y) = false.
Proof. destruct x as [| | |sx mx ex], y as [| | |sy my ey]; try done. intros _ _. by apply round_aux_not_nan. Qed.

Lemma nan_free_nltb x y : is_nan x = false → is_finite y = true → nltb x y = false → nleb y x = true.
Proof.
  intros Hx Hy. pose proof (SFcompare_total x y Hx Hy). unfold nltb, nleb, SFltb, SFleb.
  rewrite (SFcompare_swap x y). by destruct (SFcompare x y) as [[]|].
Qed.
Lemma nan_free_ngtb x y : is_nan x = false → is_finite y = true → ngtb x y = false → nleb x y = true.
Proof.
  intros Hx Hy. pose proof (SFcompare_total x y Hx Hy). unfold ngtb, nltb, nleb, SFltb, SFleb.
  rewrite (SFcompare_swap x y). by destruct (SFcompare x y) as [[]|].
Qed.

Lemma dims_product v dims : imageSizePixels v = Some dims →
  is_finite (width dims) = true ∧ is_finite (height dims) = true ∧ pixels dims = nmul (width dims) (height dims).
Proof.
  unfold imageSizePixels. destruct (match_dimensions _) as [[a b]|]; [|done]. cbn [mbind option_bind].
  destruct (_ || _ || _ || _) eqn:E; [done|]. intros [= <-]. cbn.
  apply orb_false_iff in E as [E _]. apply orb_false_iff in E as [E _]. apply orb_false_iff in E as [E1 E2].
  apply negb_false_iff in E1, E2. auto using safe_finite.
Qed.

(** The bounds of a profile are numbers. *)
Lemma bounds_finite ctx :
  is_finite (nZ (minPixels (imageProfile ctx))) = true ∧ is_finite (nZ (maxPixels (imageProfile ctx))) = true.
Proof.
  set (fin := λ p, is_finite (nZ (minPixels p)) && is_finite (nZ (maxPixels p))).
  enough (fin (imageProfile ctx) = true) as E by by apply andb_true_iff in E.
  unfold imageProfile. destruct (first_entry IMAGE_MODELS _) as [p|] eqn:E; [|by vm_compute].
  eapply (table_forall fin); [|exact E]. by vm_compute.
Qed.

Lemma image_size_sent ctx v layered size area fields :
  imageSize v (imageProfile ctx) layered = Ok (size, area) → v = (JObj fields)~>"size" →
  size_pixels (imageProfile ctx) layered
    (JObj (match size with Some t => put fields (js "size") (JStr t) | None => fields end))~>"size" area.
Proof.
  intros Hs ->. unfold imageSize in Hs.
  destruct ((JObj fields)~>"size") as [| | | |text| |] eqn:E; try discriminate Hs.
  { injection Hs as <- <-. left. done. }
  destruct (jseq _ (js "AUTO")).
  { apply bind_Ok in Hs as (? & Hl%throw_if_Ok & [= <- <-]). right; left. rewrite get_put_same.
    apply negb_false_iff in Hl. done. }
  destruct (str_in _ IMAGE_RESOLUTIONS) eqn:P.
  { apply bind_Ok in Hs as (? & _ & [= <- <-]). right; right; left. rewrite get_put_same.
    eexists. split; [by apply str_in_elem|]. done. }
  destruct layered; [done|]. destruct (imageSizePixels _) as [dims|] eqn:D; [|done].
  apply bind_Ok in Hs as (? & Hc%throw_if_Ok & [= <- <-]). right; right; right. rewrite get_put_same.
  apply dims_product in D as (Fw & Fh & Ep). exists (width dims), (height dims). rewrite Ep in *.
  apply orb_false_iff in Hc as [Hc _]. apply orb_false_iff in Hc as [Hc _]. apply orb_false_iff in Hc as [H1 H2].
  destruct (bounds_finite ctx). pose proof (nmul_not_nan _ _ Fw Fh).
  conjs; [done|done|done|by apply nan_free_nltb|by apply nan_free_ngtb].
Qed.

Lemma convert_image_spec ctx c :
  convertImage ctx = Ok c →
  let sent := JObj (body c) in let images := length (body_images sent) in
  let layered := strict_eq sent~>"layer_decomposition" (JBool true) in
  ∃ n area, facts c = image_facts (higher_tier area) n images layered ∧
    size_pixels (imageProfile ctx) layered sent~>"size" area ∧
    whole_between n 1 17 ∧ images ≤ MAX_REFERENCE_IMAGES ∧
    usage_valid IMAGE_USAGE_SCHEMA (facts c) = true ∧
    (layered = true → images = 1) ∧ results_allowed sent images n ∧
    own (body c) (js "stream") = None.
Proof.
  unfold convertImage. intros Hc. apply bind_Ok in Hc as (req & _ & Hc).
  apply bind_Ok in Hc as (? & _ & Hc).
  set (fields := put (passed_on _) (js "model") _) in Hc.
  apply bind_Ok in Hc as (? & _ & Hc). set (layered := strict_eq _ _) in Hc.
  do 3 apply bind_Ok in Hc as (? & _ & Hc). apply bind_Ok in Hc as (? & _ & Hc).
  apply bind_Ok in Hc as (? & Hone%throw_if_Ok & Hc). apply bind_Ok in Hc as (? & Hmax%throw_if_Ok & Hc).
  apply bind_Ok in Hc as (maxImages & Ho & Hc). apply bind_Ok in Hc as ([size area] & Hs & Hc). injection Hc as <-.
  cbn [body facts action].
  set (sent := match size with Some t => put fields (js "size") (JStr t) | None => fields end).
  assert (∀ k, k ≠ js "size" → get (JObj sent) k = get (JObj fields) k) as Keep.
  { intros k Hk. unfold sent. destruct size; [|done]. by rewrite get_put_other. }
  assert (body_images (JObj sent) = body_images (JObj fields)) as Ei by (unfold body_images; by rewrite Keep by keys).
  cbn zeta. rewrite Ei, !Keep by keys. fold layered.
  set (images := body_images (JObj fields)) in *. apply Nat.ltb_ge in Hmax.
  pose proof (profile_references ctx) as Hp. assert (length images ≤ MAX_REFERENCE_IMAGES) as Hi by lia.
  assert (whole_between maxImages 1 15 ∧ group_limit (JObj fields) maxImages) as [Hb Hg].
  { unfold check_options in Ho. do 9 apply bind_Ok in Ho as (? & _ & Ho). split; [by apply max_images_bounds in Ho|].
    by apply max_images_limit. }
  destruct (image_count_bounds layered (equals (JObj fields)~>"sequential_image_generation" "auto") maxImages
    (length images) Hb Hi) as [B1 _].
  eexists _, area. split; [reflexivity|]. split; [|split; [exact B1|]; split; [done|]; split;
    [apply image_facts_valid; [done|unfold MAX_REFERENCE_IMAGES in Hi; lia]|split; [|split]]].
  - apply (image_size_sent ctx (JObj fields)~>"size"); done.
  - intros E. rewrite E in Hone. apply negb_false_iff, Nat.eqb_eq in Hone. done.
  - unfold results_allowed, group_limit. rewrite !Keep by keys. fold layered. unfold image_count.
    destruct layered; [done|]. destruct (equals _ _); [|done]. exists maxImages.
    split; [exact Hg|by apply group_results].
  - assert (own fields (js "stream") = None) as Ef.
    { unfold fields. rewrite own_put_other by keys. by apply own_passed_on. }
    unfold sent. destruct size; [|done]. by rewrite own_put_other by keys.
Qed.

(** ** Settlement *)

Definition above_tier (item : jsval) : bool :=
  match imageSizePixels item~>"size" with Some d => ngtb (pixels d) (nZ IMAGE_TIER_MAX_PIXELS) | None => false end.

Lemma count_tiers_spec payloads : ∀ low high,
  match count_tiers payloads (low, high) with
  | Some (l, h) => h = high + length (List.filter above_tier payloads) ∧
                   l + h = low + high + length payloads ∧
                   Forall (λ item, imageSizePixels item~>"size" ≠ None) payloads
  | None => Exists (λ item, imageSizePixels item~>"size" = None) payloads
  end.
Proof.
  induction payloads as [|item payloads IH]; intros low high; cbn; [conjs; [lia..|constructor]|].
  unfold above_tier at 1. destruct (imageSizePixels item~>"size") as [d|] eqn:E; [|by left].
  unfold count_tier. cbn [fst snd]. destruct (ngtb (pixels d) _).
  - specialize (IH low (S high)). destruct (count_tiers _ _) as [[l h]|]; [|by right].
    cbn [length]. destruct IH as (A & B & C). conjs; [lia|lia|]. constructor; [congruence|done].
  - specialize (IH (S low) high). destruct (count_tiers _ _) as [[l h]|]; [|by right].
    destruct IH as (A & B & C). conjs; [lia|lia|]. constructor; [congruence|done].
Qed.

Lemma image_usage_spec b f :
  imageUsage b = Ok f →
  ∃ payloads, imagePayloads b = Ok payloads ∧ length payloads ≤ MAX_IMAGE_OUTPUTS ∧
    (is_defined (or_object b~>"usage")~>"generated_images" = true →
     strict_eq (or_object b~>"usage")~>"generated_images" (int (Z.of_nat (length payloads))) = true) ∧
    let above := length (List.filter above_tier payloads) in
    ((Forall (λ item, imageSizePixels item~>"size" ≠ None) payloads ∧
      own f (js "images_above_1_5k") = Some (int (Z.of_nat above)) ∧
      own f (js "images_up_to_1_5k") = Some (int (Z.of_nat (length payloads - above)))) ∨
     (Exists (λ item, imageSizePixels item~>"size" = None) payloads ∧
      own f (js "images_above_1_5k") = None ∧ own f (js "images_up_to_1_5k") = None)) ∧
    (∀ v, own f (js "input_images") = Some v → integer_value v = true ∧ ngeb (to_number v) NZERO = true ∧
       nleb (to_number v) (nZ (Z.of_nat MAX_REFERENCE_IMAGES)) = true).
Proof.
  unfold imageUsage. intros Hf. apply bind_Ok in Hf as (usage & Hu & Hf). apply dot_Ok in Hu as [_ ->].
  apply bind_Ok in Hf as (payloads & Hp & [= <-]). exists payloads. split; [done|].
  unfold imagePayloads in Hp. apply bind_Ok in Hp as (? & Hl%throw_if_Ok & Hp).
  apply bind_Ok in Hp as (? & Hc%throw_if_Ok & Hp). injection Hp as Hp. rewrite Hp in *.
  apply Nat.ltb_ge in Hl. split; [done|]. split.
  { intros Hd. unfold is_defined in Hd. rewrite Hd in Hc. cbn [andb] in Hc. apply orb_false_iff in Hc as [Hc E].
    by apply negb_false_iff in E. }
  split.
  - pose proof (count_tiers_spec payloads 0 0) as C. destruct (count_tiers payloads (0, 0)) as [[l h]|].
    + destruct C as (-> & E & F). left. split; [done|]. rewrite !own_put_if. decide_keys.
      split; [done|]. cbn. repeat f_equal. lia.
    + right. split; [done|]. rewrite !own_put_if. by decide_keys.
  - intros v. rewrite own_put_if. decide_keys. destruct (_ && _ && _) eqn:E; cbn [andb].
    + intros [= <-]. apply andb_true_iff in E as [E E3]. by apply andb_true_iff in E as [E1 E2].
    + by destruct (count_tiers _ _) as [[l h]|].
Qed.
End doubao.

(** ** Facts about the local Doubao plugin

    The pinned protocol, the duration that is sent and billed, addresses that
    can be delivered, and completion facts. *)

Section local.
Import PluginDoubao.
Import LocalDoubao.
Context {H : Host} {U : TaskHost} {L : TaskHostLaws}.

(** ** The pinned protocol *)

(** A state that pins a protocol, as a submission writes it and polls keep it. *)
Definition pins (state : jsval) (u : Upstream) : Prop :=
  plain_object state = true ∧ has_own state (js "video_upstream") = true ∧
  state~>"video_upstream" = upstream_value u.

Lemma lower_literal s : forallb (λ c, (c <? 128)%N) s = true → map ascii_low s = s → to_lower_case s = s.
Proof.
  intros Ha E. rewrite lower_ascii; [done|]. apply Forall_forall. intros c Hc.
  rewrite forallb_forall in Ha. specialize (Ha c (proj1 (list_elem_of_In _ _) Hc)). by apply N.ltb_lt.
Qed.

Lemma pinned_value u : pinned_upstream (upstream_value u) = Ok u.
Proof.
  unfold pinned_upstream. destruct u as [|[]]; cbn [upstream_value plain_object negb].
  all: rewrite !lower_literal by reflexivity; reflexivity.
Qed.

Lemma pin_resolves ctx u : pins ctx~>"state" u → truthy ctx = true → resolvedVideoUpstream ctx = Ok u.
Proof.
  intros (P & O & V) T. unfold resolvedVideoUpstream, js_and. rewrite T, P, O, V. apply pinned_value.
Qed.

(** The task view a presenter reads. *)
Lemma pin_of_task task u : pins task~>"state" u → truthy task = true → pinnedUpstreamOf task = Ok u.
Proof.
  intros P T. unfold pinnedUpstreamOf, js_and. rewrite T. by apply pin_resolves.
Qed.

Lemma submit_pins ctx resp r :
  imageTask ctx = false → LocalDoubao.parseSubmitResponse ctx resp = Ok r →
  ∃ u, videoUpstream ctx = Ok u ∧ pins r~>"state" u.
Proof.
  intros Hi Hr. unfold LocalDoubao.parseSubmitResponse in Hr. rewrite Hi in Hr.
  apply bind_Ok in Hr as (u & Hu & Hr). apply bind_Ok in Hr as (state & Hs & Hr). apply bind_Ok in Hr as (body & _ & Hr).
  unfold submit_state in Hs. apply bind_Ok in Hs as (req & _ & [= <-]). exists u. split; [done|].
  destruct u.
  - apply bind_Ok in Hr as (? & _ & [= <-]). by split.
  - unfold videos_submitted in Hr. do 3 apply bind_Ok in Hr as (? & _ & Hr). injection Hr as <-. by split.
Qed.

(** A poll that writes a state keeps the pin. *)
Lemma poll_pins ctx body r u :
  pins ctx~>"state" u → truthy ctx = true → LocalDoubao.parseTaskResult ctx body = Ok r →
  r~>"state" = JUndefined ∨ pins r~>"state" u.
Proof.
  intros P T Hr. unfold LocalDoubao.parseTaskResult in Hr. rewrite (pin_resolves _ _ P T) in Hr.
  cbn [mbind result_bind] in Hr. destruct u as [|contract].
  - left. unfold PluginDoubao.parseTaskResult in Hr. apply bind_Ok in Hr as (status & _ & [= <-]).
    repeat case_match; try reflexivity. unfold succeeded, put_count. by rewrite !get_put_if_other by keys.
  - injection Hr as <-. unfold parseVideosTaskResult. repeat case_match; try (left; reflexivity).
    right. unfold completed_result. rewrite !get_put_if_other by keys. rewrite get_put_same.
    split; [done|]. set (o := assign _ _).
    assert (own o (js "video_upstream") = Some (upstream_value (OpenAIVideo contract))) as E.
    { unfold o. rewrite own_assign. reflexivity. }
    split; [cbn [has_own]; by rewrite E|by apply get_own].
Qed.

(** ** Durations *)

Lemma duration_sent req metadata automatic d :
  videoDurationSeconds req metadata automatic = Ok (Some d) →
  d = to_number (raw_duration req metadata) ∧ is_nullish (raw_duration req metadata) = false ∧
  ((automatic = true ∧ neqb d (nZ (-1)) = true) ∨
   (is_integer d = true ∧ ngtb d NZERO = true ∧ nleb d (nZ 3600) = true)).
Proof.
  unfold videoDurationSeconds. intros Hd. destruct (_ || _) eqn:E; [done|]. apply orb_false_iff in E as [En _].
  destruct (automatic && _) eqn:A.
  - injection Hd as <-. apply andb_true_iff in A as [-> A]. auto.
  - apply bind_Ok in Hd as (? & H1%throw_if_Ok & Hd). apply bind_Ok in Hd as (? & H2%throw_if_Ok & [= <-]).
    apply orb_false_iff in H1 as [H1 H3]. apply orb_false_iff in H1 as [H1 H4]. apply negb_false_iff in H1, H4.
    conjs; [done|done|]. right. conjs; [done|by apply nleb_false|apply nan_free_ngtb; [by destruct (to_number (raw_duration req metadata))|done|done]].
Qed.

Lemma first_truthy req metadata :
  truthy (raw_duration req metadata) = true →
  js_or (js_or (js_or req~>"seconds" req~>"duration") metadata~>"duration") (int 0) = raw_duration req metadata.
Proof.
  unfold raw_duration, js_or, is_defined. intros T.
  destruct (is_undefined req~>"seconds") eqn:S; cbn [negb] in *.
  - destruct (req~>"seconds"); try done. cbn [truthy]. destruct (is_undefined req~>"duration") eqn:D; cbn [negb] in *.
    + destruct (req~>"duration"); try done. cbn [truthy]. by rewrite T.
    + by rewrite !T.
  - by rewrite !T.
Qed.

Lemma nmin_small x y : is_finite x = true → is_finite y = true → nleb x y = true → neqb (nmin x y) x = true.
Proof.
  intros Hx Hy Hl. pose proof (neqb_refl x). unfold nmin, nleb, SFleb in *.
  destruct (SFcompare x y) as [[]|] eqn:E; try done.
  - destruct (is_neg_zero x); [apply neqb_refl; by destruct x|]. unfold neqb, SFeqb. by rewrite (SFcompare_swap x y), E.
  - apply neqb_refl. by destruct x.
Qed.

(** The seconds reserved where no number of seconds is named: those of the
    frames, five for less than one, and otherwise the longest a model makes,
    each at most an hour. *)
Definition unnamed_seconds (ctx metadata : jsval) : num :=
  let frames := to_number metadata~>"frames" in
  let seconds := if is_finite frames && ngtb frames NZERO then nfloor (ndiv frames (nZ 24)) else default_seconds ctx in
  nmin (if nleb seconds NZERO then nZ 5 else seconds) (nZ 3600).

Lemma local_seconds_billable ctx req metadata : billable (local_seconds ctx req metadata) = true.
Proof.
  unfold local_seconds. set (s0 := to_number (js_or _ _)). set (f := to_number metadata~>"frames").
  set (s1 := if negb (is_finite s0) || nleb s0 NZERO then _ else s0).
  assert (is_nan s1 = false) as Hs1.
  { unfold s1. destruct (negb (is_finite s0) || nleb s0 NZERO) eqn:E.
    - destruct (is_finite f && ngtb f NZERO) eqn:F; [|unfold default_seconds; case_match; reflexivity].
      apply andb_true_iff in F as [F _]. by apply nfloor_not_nan, ndiv_not_nan.
    - apply orb_false_iff in E as [E _]. apply negb_false_iff in E. by destruct s0. }
  destruct (nleb s1 NZERO) eqn:E; [by vm_compute|by apply capped_billable].
Qed.

(** The seconds that are billed are those that are sent. *)
Lemma billed_duration ctx req metadata :
  let d := to_number (raw_duration req metadata) in
  is_integer d = true → ngtb d NZERO = true → nleb d (nZ 3600) = true → neqb (local_seconds ctx req metadata) d = true.
Proof.
  cbn zeta. intros I G S. pose proof (integer_finite _ I) as F. unfold local_seconds.
  rewrite (first_truthy req metadata) by by apply positive_truthy.
  set (x := to_number (raw_duration req metadata)) in *.
  assert (nleb x NZERO = false) as Z.
  { destruct (nleb x NZERO) eqn:E; [|done]. unfold ngtb, nltb, nleb, SFltb, SFleb in *.
    rewrite (SFcompare_swap x NZERO) in G. by destruct (SFcompare x NZERO) as [[]|]. }
  rewrite F, Z. cbn [negb orb]. rewrite Z. by apply nmin_small.
Qed.

(** A duration the model chooses is not a number of seconds. *)
Lemma automatic_duration ctx req metadata :
  neqb (to_number (raw_duration req metadata)) (nZ (-1)) = true → local_seconds ctx req metadata = unnamed_seconds ctx metadata.
Proof.
  intros Hd. unfold local_seconds. rewrite (first_truthy req metadata).
  2:{ destruct (raw_duration req metadata) as [| |[]|[]|[]| |]; try done; by vm_compute in Hd. }
  assert (nleb (to_number (raw_duration req metadata)) NZERO = true) as ->.
  { change (nZ (-1)) with (ltac:(let x := eval vm_compute in (nZ (-1)) in exact x)) in Hd.
    apply neqb_eq in Hd as ->. by vm_compute. }
  by rewrite orb_true_r.
Qed.

Lemma get_without metadata k :
  jseq k (js "length") = false → array_index k = None → overrides metadata k = false → get metadata k = JUndefined.
Proof.
  intros Hl Hi. unfold overrides. destruct (last_own _ k) as [v|] eqn:E; [done|]. intros _.
  destruct metadata as [| | | |text|items|fields]; try done; cbn [get]; rewrite ?Hl; unfold element; rewrite ?Hi; try done.
  unfold last_own in E. cbn [entries] in E. apply own_None in E. rewrite fmap_reverse, elem_of_reverse in E.
  by apply own_None in E as ->.
Qed.

Lemma no_duration ctx req metadata :
  req~>"seconds" = JUndefined → req~>"duration" = JUndefined → overrides metadata (js "duration") = false →
  raw_duration req metadata = JUndefined ∧ local_seconds ctx req metadata = unnamed_seconds ctx metadata.
Proof.
  intros Hs Hd Hm. apply get_without in Hm; [|reflexivity..]. unfold raw_duration, local_seconds.
  rewrite Hs, Hd, Hm. by split.
Qed.

(** ** Delivered addresses *)

(** [scheme://host] with one of the schemes of the web and a host without
    credentials before it, and a path, query or fragment or nothing behind
    it. *)
Definition web_address (url : jsstr) : Prop :=
  ∃ scheme host rest, url = scheme ++ js "://" ++ host ++ rest ∧
    map ascii_low scheme ∈ [js "http"; js "https"] ∧
    host ≠ [] ∧ Forall (λ c, is_space c = false ∧ c ∉ js "/@?#") host ∧
    (rest = [] ∨ ∃ c rest', rest = c :: rest' ∧ c ∈ js "/?#").

(** [/v1/videos/id/content], in capitals or not, at the end of the path. *)
Definition download_endpoint (url : jsstr) : Prop :=
  ∃ before id slash rest, map ascii_low url = before ++ js "/v1/videos/" ++ id ++ js "/content" ++ slash ++ rest ∧
    id ≠ [] ∧ Forall (λ c, c ∉ js "/?#") id ∧ (slash = [] ∨ slash = js "/") ∧
    (rest = [] ∨ ∃ c rest', rest = c :: rest' ∧ c ∈ js "?#").

Definition client_accessible (contract : VideosContract) (url : jsstr) : Prop :=
  web_address url ∧ Forall (λ c, is_space c = false ∧ c ≠ BACKSLASH) url ∧
  (contract = Codeyy → ¬ download_endpoint url).

Lemma existsb_code c l : existsb (N.eqb c) l = true ↔ c ∈ l.
Proof.
  rewrite existsb_exists. setoid_rewrite <- list_elem_of_In. split; [by intros (x & Hx & ->%N.eqb_eq)|].
  intros Hc. exists c. by rewrite N.eqb_refl.
Qed.

Lemma existsb_not_code c l : existsb (N.eqb c) l = false ↔ c ∉ l.
Proof. by rewrite <- existsb_code, not_true_iff_false. Qed.

Lemma prefix_stripped p t r : strip_prefix p t = Some r ↔ t = p ++ r.
Proof. split; [apply lit_Some|]. intros ->. apply lit_app. Qed.

Lemma ends_at_spec stops t : ends_at stops t = true ↔ t = [] ∨ ∃ c t', t = c :: t' ∧ c ∈ stops.
Proof. destruct t as [|c t]; cbn [ends_at]; [naive_solver|]. rewrite existsb_code. naive_solver. Qed.

Lemma skip_while_split p t : ∃ a, t = a ++ skip_while p t ∧ Forall (λ c, p c = true) a.
Proof.
  induction t as [|c t (a & IH & F)]; [by exists []|]. cbn [skip_while]. destruct (p c) eqn:E; [|by exists []].
  exists (c :: a). split; [cbn; congruence|by constructor].
Qed.

Lemma skip_while_app p a t :
  Forall (λ c, p c = true) a → (t = [] ∨ ∃ c t', t = c :: t' ∧ p c = false) → skip_while p (a ++ t) = t.
Proof.
  intros F Ht. induction F as [|c a Hc _ IH]; cbn [app skip_while]; [|by rewrite Hc].
  destruct Ht as [->|(c & t' & -> & Hc)]; [done|]. cbn [skip_while]. by rewrite Hc.
Qed.

Lemma host_char_spec c : host_char c = true ↔ is_space c = false ∧ c ∉ js "/@?#".
Proof. unfold host_char. rewrite andb_true_iff, !negb_true_iff, existsb_not_code. done. Qed.

Lemma segment_char_spec c : segment_char c = true ↔ c ∉ js "/?#".
Proof. unfold segment_char. rewrite negb_true_iff, existsb_not_code. done. Qed.

Lemma public_host_spec t :
  public_host t = true ↔
  ∃ host rest, t = host ++ rest ∧ host ≠ [] ∧ Forall (λ c, is_space c = false ∧ c ∉ js "/@?#") host ∧
    (rest = [] ∨ ∃ c rest', rest = c :: rest' ∧ c ∈ js "/?#").
Proof.
  setoid_rewrite <- host_char_spec. split.
  - destruct t as [|c t]; [done|]. cbn [public_host]. rewrite andb_true_iff, ends_at_spec. intros [Hc He].
    destruct (skip_while_split host_char (c :: t)) as (host & Ht & F). exists host, (skip_while host_char (c :: t)).
    conjs; [done| |done|done]. intros ->. cbn [skip_while app] in Ht. rewrite Hc in Ht.
    pose proof (f_equal length Ht) as Hl. destruct (skip_while_split host_char t) as (a & Ha & _).
    rewrite Ha in Hl at 1. cbn in Hl. rewrite length_app in Hl. lia.
  - intros (host & rest & -> & Hn & F & Hr). rewrite <- ends_at_spec in Hr.
    assert (skip_while host_char (host ++ rest) = rest) as Es.
    { apply skip_while_app; [done|]. apply ends_at_spec in Hr as [->|(c & r & -> & Hc)]; [by left|right]. exists c, r.
      split; [done|]. apply not_true_iff_false. rewrite host_char_spec. intros [_ N]. apply N. revert Hc. clear. vm_compute. set_solver. }
    destruct host as [|c host]; [done|]. apply Forall_cons in F as [Hc _]. cbn [app public_host].
    rewrite Hc. cbn [app] in Es. by rewrite Es, Hr.
Qed.

Lemma low_colon t : map ascii_low t = js "://" → t = js "://".
Proof.
  destruct t as [|a [|b [|c [|]]]]; try done. vm_compute js. cbn [map]. intros [= Ha Hb Hc].
  unfold ascii_low, is_upper in *. f_equal; [|f_equal; [|f_equal]]; revert Ha Hb Hc; repeat case_match; bools; lia.
Qed.

Lemma scheme_read scheme t url :
  map ascii_low url = scheme ++ js "://" ++ t →
  ∃ written, url = written ++ js "://" ++ drop (length scheme + 3) url ∧ map ascii_low written = scheme.
Proof.
  intros E. exists (take (length scheme) url).
  assert (map ascii_low (take (length scheme) url) = scheme) as Es.
  { rewrite <- (firstn_map), E. apply take_app_length. }
  split; [|done]. rewrite <- (take_drop (length scheme) url) at 1. f_equal.
  rewrite <- (take_drop 3 (drop (length scheme) url)) at 1. rewrite drop_drop. f_equal.
  apply low_colon. rewrite <- firstn_map, <- skipn_map, E, drop_app_length. done.
Qed.

Lemma public_url_spec url : public_url url = true ↔ web_address url.
Proof.
  unfold public_url, web_address. split.
  - destruct (strip_prefix (js "http://") _) as [r|] eqn:E1; [|destruct (strip_prefix (js "https://") _) as [r|] eqn:E2; [|done]].
    + apply prefix_stripped in E1. destruct (scheme_read (js "http") r url E1) as (w & Hw & Hl).
      intros (host & rest & Hd & Hz)%public_host_spec. exists w, host, rest. rewrite Hl. split; [by rewrite <- Hd|].
      split; [left|done].
    + apply prefix_stripped in E2. destruct (scheme_read (js "https") r url E2) as (w & Hw & Hl).
      intros (host & rest & Hd & Hz)%public_host_spec. exists w, host, rest. rewrite Hl. split; [by rewrite <- Hd|].
      split; [right; left|done].
  - intros (scheme & host & rest & -> & Hs & Hz). 
    assert (public_host (host ++ rest) = true) as P by (apply public_host_spec; by exists host, rest).
    rewrite !map_app. apply elem_of_cons in Hs as [Hs|Hs%list_elem_of_singleton]; rewrite Hs.
    + assert (length scheme = 4) as L4 by (by rewrite <- (length_map ascii_low), Hs).
      rewrite (proj2 (prefix_stripped (js "http://") _ (map ascii_low host ++ map ascii_low rest))) by done.
      do 5 (destruct scheme as [|? scheme]; try discriminate L4). exact P.
    + assert (length scheme = 5) as L5 by (by rewrite <- (length_map ascii_low), Hs).
      destruct (strip_prefix (js "http://") _) as [r|] eqn:E; [by apply prefix_stripped in E|].
      rewrite (proj2 (prefix_stripped (js "https://") _ (map ascii_low host ++ map ascii_low rest))) by done.
      do 6 (destruct scheme as [|? scheme]; try discriminate L5). exact P.
Qed.

Lemma some_suffix_spec p t : some_suffix p t = true ↔ ∃ a b, t = a ++ b ∧ p b = true.
Proof.
  induction t as [|c t IH]; cbn [some_suffix]; rewrite orb_true_iff.
  - split; [intros [Hz|Hz]; [by exists [], []|done]|]. intros (a & b & E & Hz). symmetry in E. apply app_nil in E as [-> ->]. auto.
  - rewrite IH. split.
    + intros [Hz|(a & b & -> & Hz)]; [by exists [], (c :: t)|by exists (c :: a), b].
    + intros ([|x a] & b & E & Hz); [cbn in E; subst; by left|]. injection E as <- ->. right. by exists a, b.
Qed.

Lemma content_end_spec t :
  content_end t = true ↔ ∃ slash rest, t = js "/content" ++ slash ++ rest ∧ (slash = [] ∨ slash = js "/") ∧
    (rest = [] ∨ ∃ c rest', rest = c :: rest' ∧ c ∈ js "?#").
Proof.
  unfold content_end. setoid_rewrite <- ends_at_spec. split.
  - destruct (strip_prefix _ t) as [r|] eqn:E; [|done]. apply prefix_stripped in E as ->.
    destruct r as [|c r]; [intros Hz; exists [], []; auto|]. destruct (decide (c = 47%N)) as [->|Hc].
    + intros Hz. exists (js "/"), r. auto.
    + intros Hz. exists [], (c :: r). conjs; [done|auto|]. revert Hz.
      destruct c as [|c]; [done|]. repeat (destruct c as [c|c|]; try done).
  - intros (slash & rest & -> & Hs & He).
    rewrite (proj2 (prefix_stripped (js "/content") _ (slash ++ rest))) by done.
    destruct Hs as [->| ->]; [|exact He]. cbn [app]. destruct rest as [|c rest]; [done|].
    cbn [ends_at] in He. pose proof He as He'. apply existsb_code in He'. vm_compute in He'.
    repeat (apply elem_of_cons in He' as [->|He']; [exact He|]). by apply not_elem_of_nil in He'.
Qed.

Lemma content_endpoint_spec url : content_endpoint url = true ↔ download_endpoint url.
Proof.
  unfold content_endpoint, download_endpoint. rewrite some_suffix_spec. split.
  - intros (a & b & -> & Hz). unfold content_here in Hz. destruct (strip_prefix _ b) as [[|c r]|] eqn:E; try done.
    apply prefix_stripped in E as ->. apply andb_true_iff in Hz as [Hc He].
    destruct (skip_while_split segment_char r) as (id & Hr & F). rewrite Hr.
    apply content_end_spec in He as (slash & rest & -> & Hs & Ht). exists a, (c :: id), slash, rest.
    conjs; [done|done| |done|done]. constructor; [by apply segment_char_spec|].
    eapply Forall_impl; [exact F|]. intros x. apply segment_char_spec.
  - intros (a & id & slash & rest & E & Hn & F & Hs & Ht). exists a, (js "/v1/videos/" ++ id ++ js "/content" ++ slash ++ rest).
    split; [done|]. unfold content_here. destruct id as [|c id]; [done|]. apply Forall_cons in F as [Hc F].
    rewrite (proj2 (prefix_stripped (js "/v1/videos/") _ ((c :: id) ++ js "/content" ++ slash ++ rest))) by done.
    cbn [app]. rewrite (proj2 (segment_char_spec c) Hc), skip_while_app.
    + apply content_end_spec. by exists slash, rest.
    + eapply Forall_impl; [exact F|]. intros x. apply segment_char_spec.
    + right. eexists _, _. split; [reflexivity|]. by vm_compute.
Qed.

Lemma without_blanks t : has_blank t = false ↔ Forall (λ c, is_space c = false ∧ c ≠ BACKSLASH) t.
Proof.
  unfold has_blank. induction t as [|c t IH]; cbn [existsb]; [by split|]. rewrite Forall_cons, <- IH, !orb_false_iff, N.eqb_neq. done.
Qed.

Lemma deliverable_spec contract url : deliverable (OpenAIVideo contract) url = true ↔ client_accessible contract url.
Proof.
  unfold deliverable, client_accessible. rewrite !andb_true_iff, !negb_true_iff, public_url_spec, without_blanks, <- content_endpoint_spec.
  rewrite not_true_iff_false. clear. destruct contract; cbn [is_codeyy andb]; naive_solver.
Qed.

(** The first of the addresses of a snapshot that clients can use. *)
Definition first_accessible (contract : VideosContract) (candidates : list jsstr) (url : jsstr) : Prop :=
  ∃ before after, candidates = before ++ url :: after ∧ client_accessible contract url ∧
    Forall (λ other, ¬ client_accessible contract other) before.

Lemma find_first contract l :
  match List.find (deliverable (OpenAIVideo contract)) l with
  | Some url => first_accessible contract l url
  | None => Forall (λ url, ¬ client_accessible contract url) l
  end.
Proof.
  induction l as [|x l IH]; cbn [List.find]; [done|]. destruct (deliverable _ x) eqn:E.
  - exists [], l. by rewrite <- deliverable_spec.
  - assert (¬ client_accessible contract x) as N by (rewrite <- deliverable_spec; congruence).
    destruct (List.find _ l) as [url|]; [|by constructor].
    destruct IH as (before & after & -> & Hz & F). exists (x :: before), after. conjs; [done|done|by constructor].
Qed.

Definition video_addresses (data : jsval) : list jsstr :=
  map trimmed [data~>"metadata"~>"url"; data~>"url"; data~>"video_url"].

Lemma delivered_first data contract :
  let url := videosDeliverableURL data (OpenAIVideo contract) in
  nonempty_text url = true ∧ first_accessible contract (video_addresses data) url ∨
  nonempty_text url = false ∧ Forall (λ url, ¬ client_accessible contract url) (video_addresses data).
Proof.
  cbn zeta. unfold videosDeliverableURL.
  assert ((if truthy data~>"metadata" && is_object data~>"metadata" then data~>"metadata" else JObj [])~>"url" =
          data~>"metadata"~>"url") as ->.
  { destruct (data~>"metadata") as [| |b|x|t|items|fields]; try done; cbn [is_object]; by rewrite ?andb_false_r. }
  fold (video_addresses data). pose proof (find_first contract (video_addresses data)) as F.
  destruct (List.find _ _) as [url|]; cbn [default]; [left|by right]. split; [|done].
  destruct F as (before & after & _ & ((scheme & host & rest & -> & _ & Hn & _) & _) & _).
  destruct scheme; [done|]. done.
Qed.

Lemma get_view_error task data status o k : js "error" ≠ k → get (JObj (view_error task data status o)) k = get (JObj o) k.
Proof.
  intros Hk. unfold view_error. destruct (_ && _); [by apply get_put_other|by apply get_put_if_other].
Qed.

Lemma shown_address task contract output :
  modelArkTaskFromVideos task = Ok output → pinnedUpstreamOf task = Ok (OpenAIVideo contract) →
  let addresses := video_addresses (plain_or_empty task~>"data") in
  (∃ url, output~>"status" = str "succeeded" ∧ output~>"content" = JObj ["video_url" ↦ JStr url] ∧
     first_accessible contract addresses url) ∨
  output~>"content" = JUndefined ∧
  (output~>"status" ≠ str "succeeded" ∨ Forall (λ url, ¬ client_accessible contract url) addresses).
Proof.
  unfold modelArkTaskFromVideos. intros Ho Hu. apply bind_Ok in Ho as (data & [_ ->]%dot_Ok & Ho).
  apply bind_Ok in Ho as (o & Hd & [= <-]). cbn zeta. unfold view_usage. rewrite !get_put_if_other, !get_view_error by keys.
  set (data := plain_or_empty task~>"data") in *. set (status := modelArkTaskStatus task data) in *.
  match type of Hd with (if ?b then _ ← _; Ok (put_text _ _ _ ?out) else _) = _ =>
    set (base := out) in Hd; assert ((JObj base)~>"content" = JUndefined ∧ (JObj base)~>"status" = JStr status) as [B1 B2] end.
  { unfold base, put_time, put_model, put_text. by rewrite !get_put_if_other by keys. }
  destruct (jseq status (js "succeeded")) eqn:S.
  - rewrite Hu in Hd. injection Hd as <-. apply jseq_eq in S.
    destruct (delivered_first data contract) as [[E F]|[E F]]; unfold put_text, put_if; rewrite E.
    + left. exists (videosDeliverableURL data (OpenAIVideo contract)). rewrite get_put_same, get_put_other, B2, S by keys. done.
    + right. split; [done|by right].
  - injection Hd as <-. right. split; [done|left]. rewrite B2. apply jseq_neq in S. unfold str. congruence.
Qed.

(** ** Completion *)

(** A value that counts [n] tokens: a positive safe integer, as a number or
    written in digits. *)
Definition counts (v : jsval) (n : num) : Prop :=
  is_safe_integer n = true ∧ ngtb n NZERO = true ∧
  (v = JNum n ∨ ∃ s, v = JStr s ∧ s ≠ [] ∧ forallb is_digit s = true ∧ to_number (JStr s) = n).

Lemma counts_unique v n m : counts v n → counts v m → n = m.
Proof. intros (_ & _ & [->|(s & -> & _ & _ & <-)]) (_ & _ & [[= ->]|(s' & [= <-] & _ & _ & <-)]); done. Qed.

Lemma measured_counts v : ngtb (measuredVideoTokens v) NZERO = true → counts v (measuredVideoTokens v).
Proof.
  assert (ngtb NZERO NZERO = true → False) as Z by (vm_compute; discriminate).
  unfold measuredVideoTokens, counts. destruct v as [| | |x|[|c s]| |]; cbn zeta; try (intros E; by apply Z in E).
  - destruct (_ && _) eqn:E; [|by intros ?%Z]. apply andb_true_iff in E as [E1 E2]. intros _. conjs; [done|done|by left].
  - destruct (_ && _ && _) eqn:E; [|by intros ?%Z]. apply andb_true_iff in E as [[E0 E1]%andb_true_iff E2]. intros _.
    conjs; [done|done|right]. by exists (c :: s).
Qed.

Lemma counts_measured v n : counts v n → measuredVideoTokens v = n ∧ ngtb n NZERO = true.
Proof.
  intros (H1 & H2 & [->|(s & -> & Hs & Hd & En)]); split; try done; unfold measuredVideoTokens.
  - cbn [to_number]. by rewrite H1, H2.
  - destruct s as [|c s]; [done|]. cbn zeta. by rewrite En, Hd, H1, H2.
Qed.

(** The body of a task that is finished, the count of tokens it reports and
    the resolution it names, under each protocol. *)
Definition finished_body (u : Upstream) (body : jsval) : Prop :=
  match u with
  | Ark => body~>"status" = str "succeeded"
  | OpenAIVideo _ =>
      plain_object body = true ∧
      to_lower_case (trimmed body~>"status") ∈ [js "completed"; js "succeeded"; js "success"]
  end.
Definition answered_tokens (u : Upstream) (body : jsval) : jsval :=
  let usage := body~>"usage" in
  match u with
  | Ark => if is_undefined usage~>"completion_tokens" then usage~>"total_tokens" else usage~>"completion_tokens"
  | OpenAIVideo _ => usage~>"completion_tokens"
  end.
Definition answered_resolution (u : Upstream) (body : jsval) : jsstr :=
  to_lower_case (trimmed
    match u with
    | Ark => js_or (or_object body~>"content")~>"resolution" body~>"resolution"
    | OpenAIVideo _ => js_or body~>"resolution" (or_object body~>"metadata")~>"resolution"
    end).

(** The tokens that are settled: those that are reported, or none, with the
    mark that they are still missing. *)
Definition settles_tokens (v : jsval) (f : obj) : Prop :=
  (∀ n, counts v n → own f (js "tokens") = Some (JNum n) ∧ own f (js "usage_pending") = Some (JBool false)) ∧
  ((∀ n, ¬ counts v n) → own f (js "tokens") = None ∧ own f (js "usage_pending") = Some (JBool true)).
Definition settles_resolution (task : jsval) (res : jsstr) (f : obj) : Prop :=
  ∃ profile, LocalDoubao.videoProfile task = Ok profile ∧
    own f (js "resolution") = if str_in res (resolutions profile) then Some (JStr res) else None.

Lemma put_resolution_spec task v f f' :
  put_resolution task v f = Ok f' → own f (js "resolution") = None →
  (∀ k, k ≠ js "resolution" → own f' k = own f k) ∧ settles_resolution task (to_lower_case (trimmed v)) f'.
Proof.
  unfold put_resolution. intros Hp Ho. apply bind_Ok in Hp as (profile & Hpr & [= <-]). split.
  - intros k Hk. rewrite own_put_if. rewrite (proj2 (jseq_neq _ _)); [by rewrite andb_false_r|congruence].
  - exists profile. split; [done|]. rewrite own_put_if, jseq_refl, andb_true_r. by destruct (str_in _ _).
Qed.

Lemma measured_settles v f :
  (∀ k, k ≠ js "resolution" → own f k =
     own (if ngtb (measuredVideoTokens v) NZERO
          then ["tokens" ↦ JNum (measuredVideoTokens v); "usage_pending" ↦ JBool false]
          else ["usage_pending" ↦ JBool true]) k) → settles_tokens v f.
Proof.
  intros K. unfold settles_tokens. rewrite !K by keys. destruct (ngtb (measuredVideoTokens v) NZERO) eqn:E.
  - pose proof (measured_counts v E) as C. split.
    + intros n Hn. by rewrite (counts_unique _ _ _ Hn C).
    + intros N. by destruct (N _ C).
  - split; [|by split]. intros n [<- Hn]%counts_measured. congruence.
Qed.

Lemma ark_usage body k :
  jseq k (js "length") = false → array_index k = None →
  get (if truthy body~>"usage" && is_object body~>"usage" then body~>"usage" else JObj []) k = get body~>"usage" k.
Proof.
  intros Hl Hi. destruct (body~>"usage") as [| |b|x|s|items|fields]; try done; cbn [is_object]; rewrite ?andb_false_r; try done.
  cbn [get]. rewrite Hl. unfold element. by rewrite Hi.
Qed.

Lemma videos_usage body k :
  jseq k (js "length") = false → array_index k = None → get (video_usage body) k = get body~>"usage" k.
Proof.
  intros Hl Hi. unfold video_usage, plain_or_empty. destruct (body~>"usage") as [| |b|x|s|items|fields]; try done.
  all: cbn [get]; rewrite Hl; unfold element; by rewrite Hi.
Qed.

Definition completion (task body : jsval) (u : Upstream) (f : obj) : Prop :=
  (¬ finished_body u body → f = []) ∧
  (finished_body u body →
   settles_tokens (answered_tokens u body) f ∧
   (u = Ark ∨ (∃ n, counts (answered_tokens u body) n) → settles_resolution task (answered_resolution u body) f)).

Lemma ark_completion task body f : arkCompletionFacts task body = Ok f → completion task body Ark f.
Proof.
  unfold arkCompletionFacts, completion, finished_body. intros Hf. destruct (_ || _) eqn:G.
  - injection Hf as <-. split; [done|]. intros Hs. exfalso. rewrite Hs in G. unfold is_not in G.
    apply orb_true_iff in G as [G|G]; [|by vm_compute in G].
    destruct body as [| |[]|[]|[]| |]; cbn in G; try discriminate G; try discriminate Hs; by vm_compute in Hs.
  - apply orb_false_iff in G as [_ G]. unfold is_not in G. apply negb_false_iff, equals_str in G.
    split; [done|]. intros _. rewrite !ark_usage in Hf by reflexivity. fold (answered_tokens Ark body) in Hf.
    destruct (put_resolution_spec _ _ _ _ Hf) as [K R]; [by destruct (ngtb _ _)|].
    split; [by apply measured_settles|by intros _].
Qed.

Lemma videos_completion task body v f :
  videosCompletionFacts task body = Ok f → completion task body (OpenAIVideo v) f.
Proof.
  unfold videosCompletionFacts, completion, finished_body. intros Hf. destruct (plain_object body); cbn [negb] in Hf.
  2:{ injection Hf as <-. split; [done|]. by intros []. }
  destruct (str_in _ _) eqn:G; cbn [negb] in Hf.
  2:{ injection Hf as <-. split; [done|]. intros [_ Hs%str_in_elem]. congruence. }
  apply str_in_elem in G. split; [intros N; by destruct N|]. intros _.
  rewrite !videos_usage in Hf by reflexivity. fold (answered_tokens (OpenAIVideo v) body) in Hf.
  destruct (ngtb _ NZERO) eqn:E.
  - destruct (put_resolution_spec _ _ _ _ Hf eq_refl) as [K R]. split; [|by intros _]. apply measured_settles.
    intros k Hk. rewrite E. by apply K.
  - injection Hf as <-. split; [apply measured_settles; by rewrite E|]. intros [[=]|[n [<- Hn]%counts_measured]]. congruence.
Qed.

Lemma local_completion task taskResult body f :
  imageTask task = false → LocalDoubao.extractUsageOnComplete task taskResult body = Ok f →
  ∃ u, resolvedVideoUpstream task = Ok u ∧ completion task body u f.
Proof.
  intros Hi Hf. unfold LocalDoubao.extractUsageOnComplete in Hf. rewrite Hi in Hf. apply bind_Ok in Hf as (u & Hu & Hf).
  exists u. split; [done|]. destruct u; [by apply ark_completion|by apply videos_completion].
Qed.

(** ** What is sent and what is billed *)

(** A submission is made under the protocol of the channel. *)
Lemma submission_upstream ctx u :
  ctx~>"state" = JUndefined → ctx~>"producerVersion" = JUndefined → videoUpstream ctx = Ok u →
  resolvedVideoUpstream ctx = Ok u.
Proof.
  intros Hs Hp Hu. unfold resolvedVideoUpstream.
  assert (plain_object (js_and ctx ctx~>"state") && has_own (js_and ctx ctx~>"state") (js "video_upstream") = false) as ->.
  { unfold js_and. destruct (truthy ctx) eqn:T; [by rewrite Hs|]. by destruct ctx. }
  assert (producerVersionAtLeast (js_and ctx ctx~>"producerVersion") 1 2 0 = false) as ->.
  { unfold js_and. destruct (truthy ctx) eqn:T; [rewrite Hp; reflexivity|].
    destruct ctx as [| |[]|[]|[]| |]; try discriminate T; reflexivity. }
  destruct (plain_object _ && nonempty_text _) eqn:E; [done|]. unfold videoUpstream in Hu.
  set (c := js_and ctx ctx~>"videoUpstream") in *. unfold js_or in Hu.
  destruct (truthy c) eqn:T; [|by injection Hu as <-]. rewrite T in Hu. cbn [negb] in Hu.
  assert (nonempty_text (trimmed c~>"protocol") = false) as Ep.
  { destruct (plain_object c) eqn:P; [done|]. by destruct c. }
  destruct (trimmed c~>"protocol"); [|done]. rewrite lower_literal in Hu by reflexivity. discriminate Hu.
Qed.

Lemma plain_or_empty_get v k :
  jseq k (js "length") = false → array_index k = None → get (plain_or_empty v) k = get (or_object v) k.
Proof.
  intros Hl Hi. unfold plain_or_empty, or_object, js_or.
  destruct v as [| |b|x|s|items|fields]; try done.
  - by destruct b.
  - by destruct (truthy (JNum x)).
  - destruct s; [done|]. cbn [plain_object truthy get]. rewrite Hl. unfold element. by rewrite Hi.
  - cbn [plain_object truthy get]. rewrite Hl. unfold element. by rewrite Hi.
Qed.

(** Where the request of each contract carries the duration. *)
Definition carries (u : Upstream) (body : jsval) (d : num) : Prop :=
  match u with
  | Ark => body~>"duration" = JNum d
  | OpenAIVideo Codeyy => (body~>"metadata")~>"duration" = JNum d
  | OpenAIVideo _ => body~>"seconds" = JStr (number_to_string d)
  end.

Lemma get_put_text_other t v k o k' : js k ≠ k' → get (JObj (put_text t v k o)) k' = get (JObj o) k'.
Proof. apply get_put_if_other. Qed.

(** It carries none. *)
Definition carries_none (u : Upstream) (body : jsval) : Prop :=
  match u with
  | Ark => body~>"duration" = JUndefined
  | OpenAIVideo Codeyy => (body~>"metadata")~>"duration" = JUndefined
  | OpenAIVideo _ => body~>"seconds" = JUndefined
  end.
Definition carries_duration (u : Upstream) (body : jsval) (duration : option num) : Prop :=
  match duration with Some d => carries u body d | None => carries_none u body end.

Lemma contract_carries contract r model prompt b :
  contract_body contract r ["model" ↦ model; "prompt" ↦ prompt] = Ok b →
  carries_duration (OpenAIVideo contract) (JObj b) (s_duration r).
Proof.
  intros Hb. destruct contract; cbn [contract_body] in Hb.
  - unfold standard_body in Hb. apply bind_Ok in Hb as (? & _ & Hb). apply bind_Ok in Hb as (? & _ & [= <-]).
    destruct (s_duration r) as [d|]; cbn [put_some carries_duration carries carries_none].
    + destruct (s_images r) as [|image [|]]; [apply get_put_same| |apply get_put_same].
      rewrite get_put_other by keys. apply get_put_same.
    + destruct (s_images r) as [|image [|]]; [|rewrite get_put_other by keys|]; by rewrite get_put_text_other by keys.
  - unfold codeyy_body in Hb. apply bind_Ok in Hb as (? & _ & [= <-]).
    destruct (s_duration r) as [d|]; cbn [carries_duration carries carries_none]; rewrite get_put_same; [apply get_put_same|].
    cbn [put_some]. unfold vendor_metadata. do 2 rewrite get_put_if_other by keys. by rewrite !get_put_text_other by keys.
  - injection Hb as <-. unfold zapgogo_body. destruct (s_duration r) as [d|]; cbn [carries_duration carries carries_none];
      rewrite get_put_other by keys; unfold put_images; rewrite get_put_if_other by keys; [apply get_put_same|done].
Qed.

Lemma videos_duration ctx contract request :
  buildVideosSubmitRequest ctx contract = Ok request →
  let req := or_object ctx~>"requestBody" in
  is_nullish ctx = false ∧
  (∃ res, LocalDoubao.videoResolution ctx = Ok res) ∧
  ∃ duration, videoDurationSeconds req (or_object req~>"metadata") false = Ok duration ∧
    carries_duration (OpenAIVideo contract) request~>"body" duration.
Proof.
  unfold buildVideosSubmitRequest. intros Hb. apply bind_Ok in Hb as (req & Hr & Hb). apply dot_Ok in Hr as [Hn ->].
  apply bind_Ok in Hb as (? & _ & Hb). apply bind_Ok in Hb as (r & Hs & Hb). apply bind_Ok in Hb as (? & _ & Hb).
  apply bind_Ok in Hb as (profile & _ & Hb). apply bind_Ok in Hb as (? & _ & Hb).
  apply bind_Ok in Hb as (res & Hres & Hb). do 2 apply bind_Ok in Hb as (? & _ & Hb).
  apply bind_Ok in Hb as (b & Hc & Hb). apply bind_Ok in Hb as (root & _ & [= <-]).
  cbn zeta. conjs; [done|by eexists|]. apply contract_carries in Hc. unfold semanticVideoRequest in Hs.
  apply bind_Ok in Hs as (parts & _ & Hs). apply bind_Ok in Hs as (cs & _ & Hs). apply bind_Ok in Hs as (duration & Hd & [= <-]).
  exists duration. split; [|exact Hc].
  rewrite <- Hd. unfold videoDurationSeconds, raw_duration. by rewrite plain_or_empty_get.
Qed.

Lemma ark_duration ctx req b has :
  local_ark_body ctx req = Ok (b, has) → let metadata := or_object req~>"metadata" in
  ∃ duration, videoDurationSeconds req metadata true = Ok duration ∧
    (duration = None → overrides metadata (js "duration") = false → carries_none Ark (JObj b)) ∧
    ∀ d, duration = Some d → carries Ark (JObj b) d.
Proof.
  unfold local_ark_body. intros Hb. apply bind_Ok in Hb as (rewritten & _ & Hb).
  apply bind_Ok in Hb as (duration & Hd & [= <- _]). cbn zeta. exists duration. conjs; [done|intros -> Hm|intros d ->].
  - cbn [carries_none put_some]. rewrite !get_put_other by keys. unfold get. by rewrite own_assign_kept.
  - cbn [carries put_some]. rewrite get_put_other by keys. apply get_put_same.
Qed.

Definition is_ark (u : Upstream) : bool := match u with Ark => true | _ => false end.

(** The requests of both protocols, with the protocol of the channel. *)
Lemma submitted ctx request :
  imageTask ctx = false → LocalDoubao.buildSubmitRequest ctx = Ok request →
  let req := or_object ctx~>"requestBody" in let metadata := or_object req~>"metadata" in
  ∃ u duration, videoUpstream ctx = Ok u ∧ is_nullish ctx = false ∧
    (∃ res, LocalDoubao.videoResolution ctx = Ok res) ∧
    videoDurationSeconds req metadata (is_ark u) = Ok duration ∧
    (duration = None → overrides metadata (js "duration") = false → carries_none u request~>"body") ∧
    ∀ d, duration = Some d → carries u request~>"body" d.
Proof.
  intros Hi Hb. unfold LocalDoubao.buildSubmitRequest in Hb. rewrite Hi in Hb. apply bind_Ok in Hb as (u & Hu & Hb).
  exists u. destruct u as [|contract].
  - apply bind_Ok in Hb as (req & Hr & Hb). apply dot_Ok in Hr as [Hn ->].
    apply bind_Ok in Hb as (? & Hm & Hb). apply dot_Ok in Hm as [Hm _].
    apply bind_Ok in Hb as (res & Hres & Hb). apply bind_Ok in Hb as ([b has] & Hbody & Hb).
    apply bind_Ok in Hb as (root & _ & [= <-]). destruct (ark_duration _ _ _ _ Hbody) as (duration & Hd & Hc).
    assert (or_object ctx~>"requestBody" = ctx~>"requestBody" ∨ ctx~>"requestBody" = JBool false ∨
            ∃ y, ctx~>"requestBody" = JNum y ∨ ctx~>"requestBody" = JStr []) as Hor.
    { set (v := ctx~>"requestBody") in *. unfold or_object, js_or. destruct (truthy v) eqn:T; [by left|right].
      destruct v as [| |[]|y|[]| |]; try discriminate T; try discriminate Hm; [by left|right; exists y; by left|].
      right. exists NZERO. by right. }
    assert ((or_object ctx~>"requestBody")~>"metadata" = (ctx~>"requestBody")~>"metadata" ∧
            raw_duration (or_object ctx~>"requestBody") = raw_duration ctx~>"requestBody") as [Em Er].
    { destruct Hor as [->|[->|(y & [->| ->])]]; try done. unfold or_object, js_or. by destruct (truthy (JNum y)). }
    cbn zeta. rewrite Em. exists duration. conjs; [done|done|by eexists| |apply Hc|apply Hc].
    rewrite <- Hd. unfold videoDurationSeconds. by rewrite Er.
  - destruct (videos_duration _ _ _ Hb) as (Hn & Hres & duration & Hd & Hc). exists duration.
    conjs; try done; [by intros ->|by intros d ->].
Qed.

Lemma profile_offers_local u models :
  offers_reserved (profile_under u models) = true.
Proof.
  assert (∀ table d, forallb (λ e, offers_reserved e.2) table = true → offers_reserved d = true →
    ∀ names, offers_reserved (default d (first_entry table names)) = true) as T.
  { intros table d Ht Hd names. destruct (first_entry table names) as [p|] eqn:E; [|done].
    by apply (table_forall offers_reserved _ _ _ Ht E). }
  destruct u as [|[]]; apply T; by vm_compute.
Qed.

Lemma local_resolution_offered ctx res :
  LocalDoubao.videoResolution ctx = Ok res →
  ∃ profile, LocalDoubao.videoProfile ctx = Ok profile ∧ res ∈ resolutions profile.
Proof.
  unfold LocalDoubao.videoResolution. intros Hr. apply bind_Ok in Hr as (req & _ & Hr).
  apply bind_Ok in Hr as (profile & Hp & Hr). exists profile. split; [done|].
  destruct (negb _).
  - injection Hr as <-. unfold LocalDoubao.videoProfile in Hp. apply bind_Ok in Hp as (u & _ & [= <-]).
    apply str_in_elem, profile_offers_local.
  - apply bind_Ok in Hr as (? & Hc%throw_if_Ok & [= <-]). apply negb_false_iff in Hc. by apply str_in_elem.
Qed.

(** What a video request names as its duration, sends and reserves. *)
Definition duration_billed (ctx body : jsval) (u : Upstream) (n : num) : Prop :=
  let req := or_object ctx~>"requestBody" in let metadata := or_object req~>"metadata" in
  let raw := raw_duration req metadata in let d := to_number raw in
  (is_nullish raw = false → raw ≠ JStr [] →
   carries u body d ∧
   (is_integer d = true ∧ ngtb d NZERO = true ∧ nleb d (nZ 3600) = true ∧ neqb n d = true ∨
    u = Ark ∧ neqb d (nZ (-1)) = true ∧ n = unnamed_seconds ctx metadata)) ∧
  (req~>"seconds" = JUndefined → req~>"duration" = JUndefined → overrides metadata (js "duration") = false →
   carries_none u body ∧ n = unnamed_seconds ctx metadata).

Lemma local_duration_billed ctx request u duration :
  let req := or_object ctx~>"requestBody" in let metadata := or_object req~>"metadata" in
  videoDurationSeconds req metadata (is_ark u) = Ok duration →
  (duration = None → overrides metadata (js "duration") = false → carries_none u request~>"body") →
  (∀ d, duration = Some d → carries u request~>"body" d) →
  duration_billed ctx request~>"body" u (local_seconds ctx req metadata).
Proof.
  cbn zeta. intros Hd Hn Hs. unfold duration_billed. cbn zeta.
  set (req := or_object ctx~>"requestBody") in *. set (metadata := or_object req~>"metadata") in *. split.
  - intros N E. destruct duration as [d|].
    + destruct (duration_sent _ _ _ _ Hd) as (Ed & _ & D). rewrite <- Ed. split; [by apply Hs|].
      destruct D as [[Ha Hm]|(I & G & Hl)]; [right|left].
      * conjs; [by destruct u|done|]. apply automatic_duration. by rewrite <- Ed.
      * conjs; [done..|]. rewrite Ed in I, G, Hl |- *. by apply billed_duration.
    + exfalso. unfold videoDurationSeconds in Hd. rewrite N in Hd. cbn [orb] in Hd.
      destruct (strict_eq _ (JStr [])) eqn:Q.
      * by destruct (raw_duration req metadata) as [| | | |[]| |].
      * destruct (is_ark u && _); [done|]. do 2 apply bind_Ok in Hd as (? & _ & Hd). done.
  - intros H1 H2 H3. destruct (no_duration ctx req metadata H1 H2 H3) as [Er El]. split; [|done].
    unfold videoDurationSeconds in Hd. rewrite Er in Hd. injection Hd as <-. by apply Hn.
Qed.

Lemma local_billed ctx request :
  imageTask ctx = false → ctx~>"usagePurpose" = str "facts" → LocalDoubao.buildSubmitRequest ctx = Ok request →
  ∃ u facts profile n res, videoUpstream ctx = Ok u ∧ LocalDoubao.videoProfile ctx = Ok profile ∧
    LocalDoubao.extractUsage ctx = Ok (Some facts) ∧ res ∈ resolutions profile ∧
    facts.*1 = (seedanceUsageSchema profile).*1 ∧
    own facts (js "tokens") = Some (JNum (estimateTokens n res)) ∧ own facts (js "resolution") = Some (JStr res) ∧
    usage_valid (seedanceUsageSchema profile) (remove facts (js "tokens")) = true ∧
    billable n = true ∧ duration_billed ctx request~>"body" u n.
Proof.
  intros Hi Hp Hb. destruct (submitted _ _ Hi Hb) as (u & duration & Hu & Hn & (res & Hres) & Hd & Hc0 & Hc).
  destruct (local_resolution_offered _ _ Hres) as (profile & Hpr & Hin).
  pose proof (local_duration_billed ctx request u duration Hd Hc0 Hc) as DB.
  set (req := or_object ctx~>"requestBody") in *. set (metadata := or_object req~>"metadata") in *.
  destruct (video_facts_valid profile (local_seconds ctx req metadata) res metadata Hin) as (A & B & C & D).
  exists u, (video_facts profile (local_seconds ctx req metadata) res metadata), profile, (local_seconds ctx req metadata), res.
  conjs; [done|done| |done|exact A|exact B|exact C|exact D|apply local_seconds_billable|exact DB].
  unfold LocalDoubao.extractUsage, dot. rewrite Hi, Hn, Hp. cbn [mbind result_bind].
  change (equals (str "facts") "billing_ratios") with false. cbn iota. rewrite Hpr. cbn [mbind result_bind].
  by rewrite Hres.
Qed.
End local.
