(* ===== verification/AlibabaStreamFacts.v ===== *)
(** * Lemmas on streamed answers

    The document the gateway builds from the changes of the plugin is the
    answer put together directly; the proof follows the loops of
    [parseSubmitEventDelta] with the relation [document] between an answer and
    the document, and [tracks] between an answer and the plugin's own state. *)
From stdpp Require Import base list option numbers sets.
From Stdlib Require Import ZArith SpecFloat Lia.
From S2P Require Import Prelude.
From S2P Require Import JsString.
From S2P Require Import JsNumber.
From S2P Require Import Syntax.
From S2P Require Import Runtime.
From S2P Require Import Display.
From S2P Require Import Json.
From S2P Require Import JsText.
From S2P Require Import JsonPrint.
From S2P Require Import AdvancedCustom.
From S2P Require Import JsDynamic.
From S2P Require Import PluginCommon.
From S2P Require Import PluginUsage.
From S2P Require Import AlibabaImages.
From S2P Require Import AlibabaStream.

Definition with_answers (a : assembly) (l : list answer) : assembly :=
  {| request := request a; usage := usage a; answers := l |}.

(** ** Documents *)

Definition document (a : assembly) (done : bool) (doc : jsval) : Prop :=
  ∃ fields out, doc = JObj fields ∧ own fields (js "output") = Some (JObj out) ∧
    own out (js "choices") = Some (JArr (map answer_value (answers a))) ∧
    own out (js "finished") = Some (JBool done) ∧ own out (js "results") = None ∧
    own fields (js "usage") = JObj <$> usage a ∧ own fields (js "request_id") = request a.

Lemma document_shown a done doc : document a done doc → shown a done doc.
Proof.
  intros (fields & out & -> & Ho & Hc & Hf & Hn & Hu & Hr).
  assert ((JObj fields)~>"output" = JObj out) as Eo by (unfold get; by rewrite Ho).
  split; rewrite ?Eo; unfold get.
  - by rewrite Hr.
  - by rewrite Hu.
  - by rewrite Hc.
  - by rewrite Hf.
  - by rewrite Hn.
Qed.

(** Changes below the list of choices. *)
Lemma change_choices a done doc f l rest :
  document a done doc →
  change_at rest f (JArr (map answer_value (answers a))) = Some (JArr (map answer_value l)) →
  ∃ doc', change_at (CHOICES ++ rest) f doc = Some doc' ∧ document (with_answers a l) done doc'.
Proof.
  intros (fields & out & -> & Ho & Hc & Hf & Hn & Hu & Hr) E. eexists. split.
  - unfold CHOICES, OUTPUT. cbn [change_at app]. rewrite Ho. cbn [change_at]. rewrite Hc, E. reflexivity.
  - eexists _, _. conjs; [reflexivity|apply own_put_same|apply own_put_same|..].
    all: by rewrite own_put_other.
Qed.

Lemma change_answer a done doc f i x y rest :
  document a done doc → answers a !! i = Some x → change_at rest f (answer_value x) = Some (answer_value y) →
  ∃ doc', change_at (CHOICES ++ At i :: rest) f doc = Some doc' ∧
    document (with_answers a (<[i := y]> (answers a))) done doc'.
Proof.
  intros D Hx E. eapply (change_choices _ _ _ _ _ _ D). cbn [change_at].
  rewrite list_lookup_fmap, Hx. cbn. rewrite E. cbn. by rewrite list_fmap_insert.
Qed.

Lemma open_answer a done doc :
  document a done doc →
  ∃ doc', apply_change (Append CHOICES new_choice) doc = Some doc' ∧
    document (with_answers a (answers a ++ [no_answer])) done doc'.
Proof.
  intros D. unfold apply_change. rewrite <- (app_nil_r CHOICES). apply (change_choices _ _ _ _ _ _ D).
  cbn. by rewrite map_app.
Qed.

Lemma with_answers_id a : with_answers a (answers a) = a.
Proof. by destruct a. Qed.

(** ** The state of the plugin *)

Definition texts (x : answer) : bool := match last_text (parts x) with Some _ => true | None => false end.
Record tracks (c : choice_state) (x : answer) : Prop := {
  tracks_count : count c = length (parts x);
  tracks_text : lastText c = texts x;
  tracks_reason : finishReason c = default (JStr []) (reason x)
}.

Lemma fresh_tracks : tracks fresh_choice no_answer.
Proof. by split. Qed.

Lemma part_text part text : is_object part = true → part~>"text" = JStr text →
  ∃ fields, part = JObj fields ∧ text_part part = Some (fields, text).
Proof.
  destruct part as [| | | | |items|fields]; try done. intros _.
  cbn [get text_part]. destruct (own fields (js "text")) as [[]|]; try done. intros [= ->]. by exists fields.
Qed.

Lemma text_part_get part fields text : text_part part = Some (fields, text) →
  part = JObj fields ∧ own fields (js "text") = Some (JStr text).
Proof. destruct part as [| | | | | |o]; try done. cbn. destruct (own o _) as [[]|] eqn:E; try done. intros [= -> ->]. done. Qed.

Lemma change_message x f rest l :
  change_at rest f (JArr (parts x)) = Some (JArr l) →
  change_at (Key (js "message") :: Key (js "content") :: rest) f (answer_value x) =
  Some (answer_value {| parts := l; reason := reason x |}).
Proof.
  intros E. destruct x as [ps r]. cbn [parts reason] in *. unfold answer_value. cbn [parts reason].
  set (o := JObj ["role" ↦ str "assistant"; "content" ↦ JArr ps]).
  assert (change_at (Key (js "content") :: rest) f o = Some (JObj ["role" ↦ str "assistant"; "content" ↦ JArr l])) as Eo.
  { cbn [change_at o]. change (own _ (js "content")) with (Some (JArr ps)). cbn. by rewrite E. }
  remember (Key (js "content") :: rest) as path. cbn [change_at app].
  destruct r; cbn [own]; rewrite jseq_refl; by rewrite Eo.
Qed.

(** ** One part *)

Definition with_part (x : answer) (part : jsval) : answer :=
  {| parts := merge_part (parts x) part; reason := reason x |}.

Lemma merge_text x part fields before text :
  last_text (parts x) = Some (fields, before) → part~>"text" = JStr text →
  merge_part (parts x) part = removelast (parts x) ++ [JObj (put fields (js "text") (JStr (before ++ text)))].
Proof. intros E T. unfold merge_part. by rewrite E, T. Qed.

Lemma merge_other x part : texts x = false ∨ is_text part~>"text" = false → merge_part (parts x) part = parts x ++ [part].
Proof.
  unfold texts, merge_part. destruct (last_text (parts x)) as [[fields before]|].
  - intros [?|E]; [done|]. by destruct (part~>"text").
  - intros _. by destruct (part~>"text").
Qed.

Lemma texts_snoc x part : is_object part = true →
  texts {| parts := parts x ++ [part]; reason := reason x |} = is_text part~>"text".
Proof.
  intros Ho. unfold texts, last_text. cbn [parts]. rewrite last_snoc. cbn [mbind option_bind].
  destruct (part~>"text") as [| | | |t| |] eqn:T.
  5: { destruct (part_text _ _ Ho T) as (fields & _ & ->). done. }
  all: destruct part as [| | | | | |o]; try done;
    cbn [get] in T; cbn [text_part]; destruct (own o (js "text")) as [[]|]; done.
Qed.

Lemma last_split {A} (l : list A) x : last l = Some x → l = removelast l ++ [x] ∧ length l = S (length (removelast l)).
Proof.
  intros E. apply last_Some in E as [l' ->]. rewrite removelast_last. split; [done|]. rewrite length_app. cbn. lia.
Qed.

(** The text of the last part is continued in place. *)
Lemma continue_text x fields before text :
  last_text (parts x) = Some (fields, before) →
  change_at [At (length (parts x) - 1); Key (js "text")] (append_text text) (JArr (parts x)) =
  Some (JArr (removelast (parts x) ++ [JObj (put fields (js "text") (JStr (before ++ text)))])).
Proof.
  intros E. apply bind_Some in E as (p & Hp & T). apply text_part_get in T as [-> T].
  apply last_Some in Hp as [l ->]. rewrite removelast_last, length_app. cbn [length change_at].
  replace (length l + 1 - 1) with (length l) by lia.
  rewrite list_lookup_middle by done. cbn [mbind option_bind change_at]. rewrite T. cbn [mbind option_bind append_text].
  rewrite insert_app_r_alt by lia. by rewrite Nat.sub_diag.
Qed.

Lemma part_shown i c c' ch x part a done doc :
  stream_part i c part = Ok (c', ch) → tracks c x → document a done doc → answers a !! i = Some x →
  tracks c' (with_part x part) ∧
  ∃ doc', apply_change ch doc = Some doc' ∧ document (with_answers a (<[i := with_part x part]> (answers a))) done doc'.
Proof.
  unfold stream_part. intros E [Tc Tt Tr] D Hx. apply bind_Ok in E as (? & Ho%throw_if_Ok & E).
  apply negb_false_iff in Ho. unfold with_part.
  assert (∀ text, (texts x = false ∨ is_text part~>"text" = false) → is_text part~>"text" = text →
    tracks {| count := S (count c); lastText := text; finishReason := finishReason c |} (with_part x part) ∧
    ∃ doc', apply_change (Append (content_path i) part) doc = Some doc' ∧
      document (with_answers a (<[i := with_part x part]> (answers a))) done doc') as Happ.
  { intros text Hm Ht. unfold with_part. rewrite (merge_other x part Hm). split.
    - split; cbn [count lastText finishReason parts reason]; [|rewrite <- Ht; symmetry; by apply texts_snoc|done].
      rewrite Tc, length_app. cbn. lia.
    - apply (change_answer _ _ _ _ _ _ _ _ D Hx). by apply (change_message x _ []). }
  destruct (part~>"text") as [| | | |t| |] eqn:T; try (injection E as <- <-; apply Happ; [by right|done]).
  rewrite Tt in E. destruct (texts x) eqn:X; [|injection E as <- <-; apply Happ; [by left|done]].
  injection E as <- <-. unfold texts in X. destruct (last_text (parts x)) as [[fields before]|] eqn:L; [|done].
  rewrite (merge_text _ _ _ _ _ L T).
  pose proof L as L'. apply bind_Some in L' as (p & Hp & _). destruct (last_split _ _ Hp) as [_ Len]. split.
  - split; cbn [parts reason]; [|rewrite Tt; unfold texts, last_text; cbn [parts]; rewrite last_snoc; cbn [mbind option_bind text_part]; by rewrite own_put_same|done].
    rewrite Tc, Len, length_app. cbn. lia.
  - apply (change_answer _ _ _ _ _ _ _ _ D Hx). apply (change_message x). rewrite Tc. by apply continue_text.
Qed.

(** ** Lists of changes *)

Definition apply_all (cs : list change) (doc : jsval) : option jsval :=
  fold_left (λ doc c, doc ≫= apply_change c) cs (Some doc).

Lemma apply_all_cons c cs doc : apply_all (c :: cs) doc = (doc' ← apply_change c doc; apply_all cs doc').
Proof.
  unfold apply_all. cbn. destruct (apply_change c doc); [done|]. cbn. induction cs; done.
Qed.

Lemma apply_all_app cs cs' doc : apply_all (cs ++ cs') doc = (doc' ← apply_all cs doc; apply_all cs' doc').
Proof.
  revert doc. induction cs as [|c cs IH]; intros doc; [done|]. cbn [app]. rewrite !apply_all_cons.
  destruct (apply_change c doc); [apply IH|done].
Qed.

Lemma insert_same (l : list answer) i x y : <[i := y]> (<[i := x]> l) = <[i := y]> l.
Proof. apply list_insert_insert_eq. Qed.

Lemma parts_shown i ps : ∀ c c' cs x a done doc,
  stream_parts i c ps = Ok (c', cs) → tracks c x → document a done doc → answers a !! i = Some x →
  let y := {| parts := fold_left merge_part ps (parts x); reason := reason x |} in
  tracks c' y ∧ ∃ doc', apply_all cs doc = Some doc' ∧ document (with_answers a (<[i := y]> (answers a))) done doc'.
Proof.
  induction ps as [|p ps IH]; intros c c' cs x a done doc E T D Hx; cbn [stream_parts fold_left] in *.
  - injection E as <- <-. destruct x as [ps r]. split; [done|]. exists doc. split; [done|].
    cbn [parts reason]. rewrite list_insert_id by done. by rewrite with_answers_id.
  - apply bind_Ok in E as ([c1 ch] & E1 & E). apply bind_Ok in E as ([c2 cs2] & E2 & [= <- <-]).
    destruct (part_shown _ _ _ _ _ _ _ _ _ E1 T D Hx) as (T1 & doc1 & A1 & D1).
    destruct (IH _ _ _ _ _ _ _ E2 T1 D1) as (T2 & doc2 & A2 & D2).
    { cbn. apply list_lookup_insert_eq. by eapply lookup_lt_Some. }
    split; [done|]. exists doc2. rewrite apply_all_cons, A1. split; [done|].
    cbn [answers with_answers] in D2. rewrite insert_same in D2. done.
Qed.

(** ** One choice *)

Definition finish (x : answer) (r : jsval) : answer := {| parts := parts x; reason := Some r |}.

Lemma finish_shown i r x a done doc :
  document a done doc → answers a !! i = Some x →
  ∃ doc', apply_change (Set_ (CHOICES ++ [At i; Key (js "finish_reason")]) r) doc = Some doc' ∧
    document (with_answers a (<[i := finish x r]> (answers a))) done doc'.
Proof.
  intros D Hx. apply (change_answer _ _ _ _ _ _ _ _ D Hx). by destruct x as [ps [r'|]].
Qed.

Lemma tracks_insert controls l i c x :
  Forall2 tracks controls l → tracks c x → Forall2 tracks (<[i := c]> controls) (<[i := x]> l).
Proof. intros F T. by apply Forall2_insert. Qed.

Lemma open_shown a done doc controls i :
  document a done doc → Forall2 tracks controls (answers a) → i ≤ length controls →
  let '(controls', opened) := match controls !! i with
                              | Some _ => (controls, [])
                              | None => (controls ++ [fresh_choice], [Append CHOICES new_choice])
                              end in
  let l := match answers a !! i with Some _ => answers a | None => answers a ++ [no_answer] end in
  Forall2 tracks controls' l ∧ i < length l ∧
  l !! i = Some (default no_answer (answers a !! i)) ∧
  ∃ doc', apply_all opened doc = Some doc' ∧ document (with_answers a l) done doc'.
Proof.
  intros D F Hi. pose proof (Forall2_length _ _ _ F) as L.
  destruct (controls !! i) as [c|] eqn:C; cbn zeta.
  - pose proof (lookup_lt_Some _ _ _ C) as Hlt. rewrite L in Hlt.
    destruct (lookup_lt_is_Some_2 _ _ Hlt) as [x Hx]. rewrite !Hx. conjs; [done..|].
    exists doc. by rewrite with_answers_id.
  - apply lookup_ge_None in C. assert (i = length (answers a)) as -> by lia.
    rewrite !lookup_ge_None_2 by lia. conjs.
    + apply Forall2_app; [done|]. constructor; [apply fresh_tracks|constructor].
    + rewrite length_app. cbn. lia.
    + by rewrite list_lookup_middle.
    + destruct (open_answer _ _ _ D) as (doc' & A & D'). exists doc'. rewrite apply_all_cons, A. done.
Qed.

(** The answers after a choice at a position. *)
Definition at_choice (i : nat) (choice : jsval) (l : list answer) : list answer :=
  let y := assemble_choice choice (default no_answer (l !! i)) in
  take i l ++ y :: drop (S i) l.

Lemma at_choice_insert i choice l : i ≤ length l →
  at_choice i choice l =
  <[i := assemble_choice choice (default no_answer (l !! i))]>
    (match l !! i with Some _ => l | None => l ++ [no_answer] end).
Proof.
  intros Hi. unfold at_choice. destruct (l !! i) as [x|] eqn:E.
  - by rewrite insert_take_drop by (by eapply lookup_lt_Some).
  - apply lookup_ge_None in E. assert (i = length l) as -> by lia. rewrite insert_app_r_alt by lia.
    rewrite Nat.sub_diag, firstn_all, drop_ge by lia. done.
Qed.

Lemma choice_shown i choice controls controls' cs a done doc :
  stream_choice i choice controls = Ok (controls', cs) → Forall2 tracks controls (answers a) → i ≤ length controls →
  document a done doc →
  let l := at_choice i choice (answers a) in
  Forall2 tracks controls' l ∧ ∃ doc', apply_all cs doc = Some doc' ∧ document (with_answers a l) done doc'.
Proof.
  intros E F Hi D. pose proof (Forall2_length _ _ _ F) as L. cbn zeta. rewrite at_choice_insert by lia.
  unfold stream_choice in E. destruct ((choice~>"message")~>"content") as [| | | | |ps|] eqn:M; try done.
  pose proof (open_shown a done doc controls i D F Hi) as O.
  destruct (match controls !! i with Some _ => _ | None => _ end) as [controls1 opened] eqn:Ec.
  destruct O as (F1 & Hl & Hx & doc1 & A1 & D1).
  set (l1 := match answers a !! i with Some _ => _ | None => _ end) in *.
  apply bind_Ok in E as ([c cs2] & E2 & E).
  destruct (Forall2_lookup_r _ _ _ _ _ F1 Hx) as (c1 & Hc1 & T1). rewrite Hc1 in E2.
  destruct (parts_shown _ _ _ _ _ _ _ _ _ E2 T1 D1 Hx) as (T2 & doc2 & A2 & D2).
  set (x := default no_answer (answers a !! i)) in *. cbn [answers with_answers] in D2.
  assert (choice_content choice = ps) as Hps by (unfold choice_content; by rewrite M).
  unfold assemble_choice. rewrite Hps. destruct (finishes choice); injection E as <- <-.
  - split; [apply tracks_insert; [done|]; by destruct T2|].
    destruct (finish_shown i choice~>"finish_reason" {| parts := fold_left merge_part ps (parts x); reason := reason x |} _ done doc2 D2) as (doc3 & A3 & D3).
    { cbn. apply list_lookup_insert_eq. done. }
    exists doc3. rewrite !apply_all_app, A1. cbn [mbind option_bind]. rewrite apply_all_app, A2. cbn [mbind option_bind]. rewrite apply_all_cons.
    match goal with |- context [apply_change ?c doc2] => replace (apply_change c doc2) with (Some doc3) by (symmetry; exact A3) end.
    split; [done|].
    cbn [answers with_answers] in D3. rewrite insert_same in D3. done.
  - split; [by apply tracks_insert|]. exists doc2. rewrite apply_all_app, A1. cbn [mbind option_bind]. by rewrite A2.
Qed.

Lemma choices_shown items : ∀ i controls controls' cs a done doc,
  stream_choices i items controls = Ok (controls', cs) → Forall2 tracks controls (answers a) → i ≤ length controls →
  document a done doc →
  let l := take i (answers a) ++ assemble_choices items (drop i (answers a)) in
  Forall2 tracks controls' l ∧ ∃ doc', apply_all cs doc = Some doc' ∧ document (with_answers a l) done doc'.
Proof.
  induction items as [|choice items IH]; intros i controls controls' cs a done doc E F Hi D; cbn [stream_choices assemble_choices] in *.
  - injection E as <- <-. rewrite take_drop, with_answers_id. split; [done|]. by exists doc.
  - apply bind_Ok in E as ([controls1 cs1] & E1 & E). apply bind_Ok in E as ([controls2 cs2] & E2 & [= <- <-]).
    destruct (choice_shown _ _ _ _ _ _ _ _ E1 F Hi D) as (F1 & doc1 & A1 & D1).
    pose proof (Forall2_length _ _ _ F) as L. pose proof (Forall2_length _ _ _ F1) as L1.
    assert (length (take i (answers a)) = i) as Ht by (rewrite length_take; lia).
    set (y := assemble_choice choice (default no_answer (answers a !! i))) in *.
    assert (at_choice i choice (answers a) = (take i (answers a) ++ [y]) ++ drop (S i) (answers a)) as Ea
      by (unfold at_choice; by rewrite <- app_assoc).
    assert (length (take i (answers a) ++ [y]) = S i) as Ht1 by (rewrite length_app; cbn; lia).
    destruct (IH (S i) _ _ _ (with_answers a (at_choice i choice (answers a))) done doc1 E2 F1) as (F2 & doc2 & A2 & D2); [rewrite L1, Ea, length_app; lia|done|].
    cbn [answers with_answers] in F2, D2. rewrite Ea, take_app_length', drop_app_length' in F2, D2 by done.
    rewrite head_lookup, lookup_drop, Nat.add_0_r. fold y.
    replace (tail (drop i (answers a))) with (drop (S i) (answers a)) by (by rewrite <- Nat.add_1_r, <- drop_drop; destruct (drop i (answers a))).
    rewrite (cons_middle y), (app_assoc _ [y]). split; [exact F2|]. exists doc2. rewrite apply_all_app, A1. split; [exact A2|exact D2].
Qed.

(** ** One event *)

Lemma change_field fields key v : change_at [Key key] (λ _, Some v) (JObj fields) = Some (JObj (put fields key v)).
Proof. cbn. by destruct (own fields key). Qed.

Lemma change_below fields key child child' rest f :
  own fields key = Some child → change_at rest f child = Some child' →
  change_at (Key key :: rest) f (JObj fields) = Some (JObj (put fields key child')).
Proof. intros E E'. cbn [change_at]. by rewrite E, E'. Qed.

Lemma request_shown a done doc v :
  document a done doc →
  ∃ doc', apply_change (Set_ [Key (js "request_id")] v) doc = Some doc' ∧
    document {| request := Some v; usage := usage a; answers := answers a |} done doc'.
Proof.
  intros (fields & out & -> & Ho & Hc & Hf & Hn & Hu & Hr). eexists. split; [apply change_field|].
  exists (put fields (js "request_id") v), out. conjs; [done|by rewrite own_put_other|done..|by rewrite own_put_other|apply own_put_same].
Qed.

Lemma usage_set a done doc o :
  document a done doc →
  ∃ doc', apply_change (Set_ [Key (js "usage")] (JObj o)) doc = Some doc' ∧
    document {| request := request a; usage := Some o; answers := answers a |} done doc'.
Proof.
  intros (fields & out & -> & Ho & Hc & Hf & Hn & Hu & Hr). eexists. split; [apply change_field|].
  exists (put fields (js "usage") (JObj o)), out. conjs; [done|by rewrite own_put_other|done..|apply own_put_same|by rewrite own_put_other].
Qed.

Lemma usage_field a done doc o k v :
  document a done doc → usage a = Some o →
  ∃ doc', apply_change (Set_ [Key (js "usage"); Key k] v) doc = Some doc' ∧
    document {| request := request a; usage := Some (put o k v); answers := answers a |} done doc'.
Proof.
  intros (fields & out & -> & Ho & Hc & Hf & Hn & Hu & Hr) E. rewrite E in Hu. eexists. split.
  - by eapply change_below; [exact Hu|apply change_field].
  - exists (put fields (js "usage") (JObj (put o k v))), out.
    conjs; [done|by rewrite own_put_other|done..|apply own_put_same|by rewrite own_put_other].
Qed.

Lemma usage_fields l : ∀ a done doc o,
  document a done doc → usage a = Some o →
  ∃ doc', apply_all (map (λ kv, Set_ [Key (js "usage"); Key kv.1] kv.2) l) doc = Some doc' ∧
    document {| request := request a; usage := Some (fold_left (λ o kv, put o kv.1 kv.2) l o); answers := answers a |} done doc'.
Proof.
  induction l as [|[k v] l IH]; intros a done doc o D E; cbn [map fold_left].
  - exists doc. destruct a; cbn in *. by rewrite E in D.
  - destruct (usage_field _ _ _ _ k v D E) as (doc1 & A1 & D1).
    destruct (IH _ _ _ _ D1 eq_refl) as (doc2 & A2 & D2). exists doc2. cbn [fst snd]. rewrite apply_all_cons, A1. done.
Qed.

Definition merge_usage (u : jsval) (o : option obj) : option obj :=
  if truthy u then Some (assign (default [] o) u) else o.

Lemma usage_shown a done doc u has :
  document a done doc → has = match usage a with Some _ => true | None => false end →
  ∃ doc', apply_all (if truthy u then (if has : bool then [] else [Set_ [Key (js "usage")] (JObj [])]) ++ usage_changes u else []) doc
            = Some doc' ∧
    document {| request := request a; usage := merge_usage u (usage a); answers := answers a |} done doc'.
Proof.
  intros D ->. unfold merge_usage. destruct (truthy u); [|exists doc; by destruct a].
  destruct (usage a) as [o|] eqn:E; cbn [app default].
  - apply (usage_fields _ _ _ _ _ D E).
  - destruct (usage_set _ _ _ [] D) as (doc1 & A1 & D1). destruct (usage_fields (entries u) _ _ _ _ D1 eq_refl) as (doc2 & A2 & D2).
    exists doc2. rewrite apply_all_cons, A1. done.
Qed.

Lemma finished_shown a done done' doc :
  document a done doc →
  ∃ doc', apply_change (Set_ [OUTPUT; Key (js "finished")] (JBool done')) doc = Some doc' ∧ document a done' doc'.
Proof.
  intros (fields & out & -> & Ho & Hc & Hf & Hn & Hu & Hr). eexists. split.
  - by eapply change_below; [exact Ho|apply change_field].
  - eexists _, _. conjs; [done|apply own_put_same|by rewrite own_put_other|apply own_put_same|by rewrite own_put_other..].
Qed.

(** ** Events *)

Definition event_body (event : jsval) : option jsval := json_parse (js_text event~>"data").

(** A choice whose content is a list of objects. *)
Definition choice_readable (choice : jsval) : Prop :=
  ∃ ps, (choice~>"message")~>"content" = JArr ps ∧ Forall (λ part, is_object part = true) ps.

(** An event that carries [body]: an object, which is not an error, and whose
    choices can be read. *)
Definition accepts (event body : jsval) : Prop :=
  is_nullish event = false ∧ event_body event = Some body ∧ plain_object body = true ∧
  truthy body~>"code" = false ∧ equals event~>"event" "error" = false ∧
  Forall choice_readable (event_choices body).

Lemma parts_read index l : ∀ control,
  Forall (λ part, is_object part = true) l → ∃ r, stream_parts index control l = Ok r.
Proof.
  induction l as [|p l IH]; intros control F; [by eexists|]. apply Forall_cons in F as [Hp F].
  cbn [stream_parts]. unfold stream_part. rewrite Hp. cbn [negb throw_if mbind result_bind].
  set (c := match p~>"text" with JStr _ => _ | _ => _ end). destruct c as [c1 c2].
  destruct (IH c1 F) as [[? ?] ->]. by eexists.
Qed.

Lemma read_parts index l : ∀ control r, stream_parts index control l = Ok r → Forall (λ part, is_object part = true) l.
Proof.
  induction l as [|p l IH]; intros control r E; [constructor|]. cbn [stream_parts] in E.
  apply bind_Ok in E as ([c1 c2] & E1 & E). apply bind_Ok in E as ([c3 c4] & E2 & _).
  apply bind_Ok in E1 as (? & Hp%throw_if_Ok%negb_false_iff & _). constructor; [done|by eapply IH].
Qed.

Lemma choice_read index choice controls : choice_readable choice → ∃ r, stream_choice index choice controls = Ok r.
Proof.
  intros (ps & Hp & F). unfold stream_choice. rewrite Hp.
  destruct (controls !! index) as [c|]; cbn zeta.
  - destruct (parts_read index ps (default fresh_choice (controls !! index)) F) as [[? ?] ->]. by eexists.
  - destruct (parts_read index ps (default fresh_choice ((controls ++ [fresh_choice]) !! index)) F) as [[? ?] ->]. by eexists.
Qed.

Lemma read_choice index choice controls r : stream_choice index choice controls = Ok r → choice_readable choice.
Proof.
  unfold stream_choice, choice_readable. destruct ((choice~>"message")~>"content") as [| | | | |ps|]; try done.
  case_match; intros E; apply bind_Ok in E as ([c1 c2] & E%read_parts & _); by exists ps.
Qed.

Lemma choices_read items : ∀ index controls,
  Forall choice_readable items → ∃ r, stream_choices index items controls = Ok r.
Proof.
  induction items as [|x items IH]; intros index controls F; [by eexists|]. apply Forall_cons in F as [Hx F].
  cbn [stream_choices]. destruct (choice_read index x controls Hx) as [[c1 c2] ->]. cbn [mbind result_bind].
  destruct (IH (S index) c1 F) as [[? ?] ->]. by eexists.
Qed.

Lemma read_choices items : ∀ index controls r, stream_choices index items controls = Ok r → Forall choice_readable items.
Proof.
  induction items as [|x items IH]; intros index controls r E; [constructor|]. cbn [stream_choices] in E.
  apply bind_Ok in E as ([c1 c2] & E1%read_choice & E). apply bind_Ok in E as ([c3 c4] & E2%IH & _). by constructor.
Qed.

(** The plugin reads exactly the events it accepts. *)
Lemma accepted_read ctx event prev body : accepts event body → ∃ r, parseSubmitEventDelta ctx event prev = Ok r.
Proof.
  intros (Hn & Hb & Hp & Hc & He & F). unfold parseSubmitEventDelta, dot. rewrite Hn. cbn [mbind result_bind].
  unfold event_body in Hb. rewrite Hb, Hp, Hc, He. cbn [negb orb throw_if mbind result_bind].
  destruct (choices_read _ 0 (choices (default fresh_stream prev)) F) as [[c1 c2] E]. unfold event_choices in E. rewrite E.
  by eexists.
Qed.

Lemma read_accepted ctx event prev r : parseSubmitEventDelta ctx event prev = Ok r → ∃ body, accepts event body.
Proof.
  unfold parseSubmitEventDelta. intros E. apply bind_Ok in E as (data & [Hn ->]%dot_Ok & E).
  fold (event_body event) in E. destruct (event_body event) as [body|] eqn:Eb; [|done].
  apply bind_Ok in E as (? & Hp%throw_if_Ok%negb_false_iff & E).
  apply bind_Ok in E as (? & [Hc He]%throw_if_Ok%orb_false_iff & E).
  apply bind_Ok in E as ([controls changes] & Ec%read_choices & _). exists body. by conjs.
Qed.

(** The answer is not finished after any of the events. *)
Definition running (a : assembly) (bodies : list jsval) : Prop :=
  ∀ k, k ≤ length bodies → finished (fold_left assemble (take k bodies) a) = false.

Lemma running_nil a : finished a = false → running a [].
Proof. intros H k _. by rewrite take_nil. Qed.

Lemma running_cons a b bodies : finished a = false → running (assemble a b) bodies → running a (b :: bodies).
Proof. intros H R [|k] Hk; [done|]. apply (R k). cbn [length] in Hk. lia. Qed.

Record stands_for (st : stream_state) (a : assembly) (done : bool) (doc : jsval) : Prop := {
  stands_choices : Forall2 tracks (choices st) (answers a);
  stands_usage : hasUsage st = match usage a with Some _ => true | None => false end;
  stands_document : document a done doc
}.

(** Before the first event the plugin has no state and the document is open. *)
Definition stands (prev : option stream_state) (a : assembly) (doc : jsval) : Prop :=
  match prev with None => a = nothing | Some st => ∃ done, stands_for st a done doc end.

Lemma opening_shown prev a doc :
  stands prev a doc →
  ∃ doc' done, apply_all (match prev with
                   | None => [Set_ [] (JObj ["output" ↦ JObj ["choices" ↦ JArr []; "finished" ↦ JBool false]])]
                   | Some _ => []
                   end) doc = Some doc' ∧ stands_for (default fresh_stream prev) a done doc'.
Proof.
  destruct prev as [st|]; cbn [stands].
  - intros (done & S). exists doc, done. done.
  - intros ->. eexists _, false. split; [reflexivity|]. split; [constructor|done|].
    eexists _, _. conjs; reflexivity.
Qed.

Lemma request_step a done doc v :
  document a done doc →
  ∃ doc', apply_all (if truthy v then [Set_ [Key (js "request_id")] v] else []) doc = Some doc' ∧
    document {| request := if truthy v then Some v else request a; usage := usage a; answers := answers a |} done doc'.
Proof.
  intros D. destruct (truthy v); [|exists doc; by destruct a].
  destruct (request_shown _ _ _ v D) as (doc' & A & D'). exists doc'. by rewrite apply_all_cons, A.
Qed.

Lemma all_stopped controls l :
  Forall2 tracks controls l →
  forallb (λ c, equals (finishReason c) "stop") controls =
  forallb (λ x, match reason x with Some r => equals r "stop" | None => false end) l.
Proof.
  induction 1 as [|c x controls l [_ _ R] _ IH]; [done|]. cbn [forallb]. rewrite IH, R. by destruct (reason x).
Qed.

Lemma event_shown ctx event prev cs st done a doc :
  parseSubmitEventDelta ctx event prev = Ok (cs, st, done) → stands prev a doc →
  ∃ body doc', accepts event body ∧ apply_all cs doc = Some doc' ∧
    stands_for st (assemble a body) done doc' ∧ done = finished (assemble a body).
Proof.
  intros E S. destruct (read_accepted _ _ _ _ E) as [b0 Hacc].
  unfold parseSubmitEventDelta in E. apply bind_Ok in E as (data & [_ ->]%dot_Ok & E).
  fold (event_body event) in E. destruct (event_body event) as [body|] eqn:Eb; [|done].
  assert (b0 = body) as -> by (destruct Hacc as (_ & Hb & _); congruence). apply bind_Ok in E as (? & _ & E).
  apply bind_Ok in E as (? & _ & E). apply bind_Ok in E as ([controls changes] & Ec & E).
  injection E as <- <- Hd. fold (event_choices body) in Ec.
  destruct (opening_shown _ _ _ S) as (doc1 & d & A1 & [F Hu D1]).
  destruct (request_step _ _ _ body~>"request_id" D1) as (doc2 & A2 & D2).
  destruct (usage_shown _ _ _ body~>"usage" _ D2 Hu) as (doc3 & A3 & D3).
  destruct ((λ F, choices_shown _ _ _ _ _ _ _ _ Ec F (le_0_n _) D3) F) as (F4 & doc4 & A4 & D4).
  cbn [take drop app answers with_answers] in F4, D4.
  destruct (finished_shown _ _ done _ D4) as (doc5 & A5 & D5).
  exists body, doc5. conjs; [done| | |].
  - rewrite Hd. rewrite apply_all_app, A1. cbn [mbind option_bind]. rewrite apply_all_app, A2. cbn [mbind option_bind].
    rewrite apply_all_app, A3. cbn [mbind option_bind]. rewrite apply_all_app, A4. cbn [mbind option_bind].
    rewrite apply_all_cons, A5. done.
  - split; [done| |exact D5]. cbn [hasUsage assemble usage]. rewrite Hu.
    destruct (truthy body~>"usage"); [by rewrite orb_true_r|by rewrite orb_false_r].
  - rewrite <- Hd. unfold finished. cbn [answers assemble]. rewrite (all_stopped _ _ F4).
    by rewrite (Forall2_length _ _ _ F4).
Qed.

(** ** The gateway *)

Section limits.
Context (fits : jsval → bool).

Lemma apply_none cs : fold_left (apply_one fits) cs None = None.
Proof. by induction cs. Qed.

Lemma fold_fits cs : ∀ doc,
  (∀ doc', fold_left (apply_one fits) cs (Some doc) = Some doc' → apply_all cs doc = Some doc') ∧
  (fold_left (apply_one fits) cs (Some doc) = None →
   apply_all cs doc = None ∨ ∃ k doc', apply_all (take k cs) doc = Some doc' ∧ fits doc' = false).
Proof.
  induction cs as [|c cs IH]; intros doc; [by split; [intros ? [= ->]|]|]. cbn [fold_left]. rewrite apply_all_cons.
  unfold apply_one at 2 4. cbn [mbind option_bind]. destruct (apply_change c doc) as [d|] eqn:Ec; cbn [mbind option_bind].
  - destruct (fits d) eqn:Fd.
    + split; [apply IH|]. intros E. apply IH in E as [E|(k & doc' & E & F)]; [by left|right].
      exists (S k), doc'. cbn [take]. by rewrite apply_all_cons, Ec.
    + rewrite apply_none. split; [done|]. intros _. right. exists 1, d. cbn [take]. by rewrite apply_all_cons, Ec.
  - rewrite apply_none. split; [done|auto].
Qed.

Lemma apply_changes_all cs doc doc' : apply_changes fits cs doc = Some doc' → apply_all cs doc = Some doc'.
Proof. unfold apply_changes. destruct (_ <? _); [done|]. apply fold_fits. Qed.

(** What the plugin keeps and the document after events that do not end the
    stream. *)
Fixpoint replay (ctx : jsval) (seen : list jsval) (prev : option stream_state) (doc : jsval)
  : option (option stream_state * jsval) :=
  match seen with
  | [] => Some (prev, doc)
  | event :: seen =>
      match parseSubmitEventDelta ctx event prev with
      | Ok (cs, st, false) => doc ← apply_all cs doc; replay ctx seen (Some st) doc
      | _ => None
      end
  end.

(** The changes of an event are too many, or one of them makes the document
    too large. *)
Definition over_limits (ctx : jsval) (seen : list jsval) (event : jsval) (prev : option stream_state) (doc : jsval) : Prop :=
  ∃ prev' before changes state last,
    replay ctx seen prev doc = Some (prev', before) ∧
    parseSubmitEventDelta ctx event prev' = Ok (changes, state, last) ∧
    (MAX_CHANGES < length changes ∨ ∃ k after, apply_all (take k changes) before = Some after ∧ fits after = false).

(** What the events of a stream lead to, for what was put together before. *)
Definition stream_outcome (ctx : jsval) (events : list jsval) (prev : option stream_state) (a : assembly) (doc : jsval)
  (r : result stream_error jsval) : Prop :=
  match r with
  | Err Unfinished => ∃ bodies, Forall2 accepts events bodies ∧ running a bodies
  | _ =>
      ∃ seen event rest bodies, events = seen ++ event :: rest ∧ Forall2 accepts seen bodies ∧ running a bodies ∧
        match r with
        | Ok doc' =>
            ∃ body, accepts event body ∧
              let whole := fold_left assemble (bodies ++ [body]) a in finished whole = true ∧ document whole true doc'
        | Err InvalidChanges => (∃ body, accepts event body) ∧ over_limits ctx seen event prev doc
        | Err _ => ∀ body, ¬ accepts event body
        end
  end.

Lemma outcome_cons ctx event body events prev a doc cs st doc' r :
  accepts event body → finished a = false → parseSubmitEventDelta ctx event prev = Ok (cs, st, false) →
  apply_all cs doc = Some doc' →
  stream_outcome ctx events (Some st) (assemble a body) doc' r → stream_outcome ctx (event :: events) prev a doc r.
Proof.
  intros Hb Ha Hp Hd. pose proof (running_cons a body) as R. unfold stream_outcome.
  assert (∀ seen e, over_limits ctx seen e (Some st) doc' → over_limits ctx (event :: seen) e prev doc) as O.
  { intros seen e (p & before & H). exists p, before. cbn [replay]. rewrite Hp, Hd. exact H. }
  destruct r as [d|[e| |]]; [| | |intros (bodies & F & Hr); exists (body :: bodies); split; [by constructor|by apply R]].
  all: intros (seen & e' & rest & bodies & -> & F & Hr & H); exists (event :: seen), e', rest, (body :: bodies).
  all: split; [done|]; split; [by constructor|]; split; [by apply R|]; try exact H.
  destruct H as [H1 H2]. split; [exact H1|by apply O].
Qed.

Lemma run_shown ctx events : ∀ prev a doc,
  stands prev a doc → finished a = false →
  stream_outcome ctx events prev a doc (readSubmitEvents fits ctx events prev doc).
Proof.
  induction events as [|event events IH]; intros prev a doc S Ha; [by exists []; split; [constructor|apply running_nil]|].
  cbn [readSubmitEvents]. destruct (parseSubmitEventDelta ctx event prev) as [[[cs st] fin]|e] eqn:E.
  2:{ exists [], event, events, []. conjs; [done|constructor|by apply running_nil|]. intros body Hb.
      destruct (accepted_read ctx event prev body Hb) as [x Ex]. congruence. }
  destruct (event_shown _ _ _ _ _ _ _ _ E S) as (body & doc1 & Hb & A & S1 & Hd).
  destruct (apply_changes fits cs doc) as [doc2|] eqn:Ea.
  - apply apply_changes_all in Ea. rewrite A in Ea. injection Ea as <-. destruct fin.
    + exists [], event, events, []. conjs; [done|constructor|by apply running_nil|]. exists body. destruct S1. by conjs.
    + apply (outcome_cons _ _ body _ _ _ _ cs st doc1); try done. apply IH; [by exists false|done].
  - exists [], event, events, []. split; [done|]. split; [constructor|]. split; [by apply running_nil|].
    split; [by exists body|]. exists prev, doc, cs, st, fin. conjs; [done|done|]. unfold apply_changes in Ea. destruct (MAX_CHANGES <? length cs) eqn:L.
    + left. by apply Nat.ltb_lt.
    + apply (proj2 (fold_fits cs doc)) in Ea as [?|?]; [congruence|by right].
Qed.
End limits.

(** ** The images of a stream *)

Definition answer_pictures (x : answer) : list jsstr := pictures (flat_map content_part (parts x)).
Definition event_pictures (body : jsval) : list jsstr := pictures (flat_map choice_parts (event_choices body)).

(** A part is a text or an image. *)
Definition plain_part (part : jsval) : Prop := is_text part~>"text" = true → pictures (content_part part) = [].
Definition plain_event (body : jsval) : Prop :=
  Forall (λ choice, Forall plain_part (choice_content choice)) (event_choices body).

Lemma pictures_app a b : pictures (a ++ b) = pictures a ++ pictures b.
Proof. apply flat_map_app. Qed.

Lemma same_pictures fields t t' : own fields (js "text") = Some (JStr t) →
  pictures (content_part (JObj (put fields (js "text") (JStr t')))) = pictures (content_part (JObj fields)).
Proof.
  intros E. unfold content_part, get. rewrite own_put_same, own_put_other, E by done.
  by destruct (own fields (js "image")) as [[| | | |[]| |]|].
Qed.

Lemma merge_pictures ps part : plain_part part →
  pictures (flat_map content_part (merge_part ps part)) =
  pictures (flat_map content_part ps) ++ pictures (content_part part).
Proof.
  intros Hp. unfold merge_part.
  assert (pictures (flat_map content_part (ps ++ [part])) =
          pictures (flat_map content_part ps) ++ pictures (content_part part)) as Happ
    by (rewrite flat_map_app, pictures_app; cbn; by rewrite app_nil_r).
  destruct (last_text ps) as [[fields before]|] eqn:L; [|by destruct (part~>"text")].
  destruct (part~>"text") as [| | | |t| |] eqn:T; try exact Happ.
  apply bind_Some in L as (p & Hl & Tp). apply text_part_get in Tp as [-> Tp]. apply last_Some in Hl as [l ->].
  rewrite removelast_last, !flat_map_app, !pictures_app. cbn [flat_map]. rewrite !app_nil_r, (same_pictures _ _ _ Tp).
  rewrite (Hp ltac:(by rewrite T)). by rewrite app_nil_r.
Qed.

Lemma parts_pictures l : ∀ ps, Forall plain_part l →
  pictures (flat_map content_part (fold_left merge_part l ps)) =
  pictures (flat_map content_part ps) ++ pictures (flat_map content_part l).
Proof.
  induction l as [|p l IH]; intros ps F; cbn [fold_left flat_map]; [by rewrite app_nil_r|].
  apply Forall_cons in F as [Hp F]. rewrite IH, merge_pictures by done. by rewrite pictures_app, app_assoc.
Qed.

Lemma choice_parts_content choice : choice_parts choice = flat_map content_part (choice_content choice).
Proof. done. Qed.

Lemma choices_pictures items : ∀ l, Forall (λ choice, Forall plain_part (choice_content choice)) items →
  flat_map answer_pictures (assemble_choices items l) ≡ₚ
  flat_map answer_pictures l ++ pictures (flat_map choice_parts items).
Proof.
  induction items as [|choice items IH]; intros l F; cbn [assemble_choices flat_map]; [by rewrite app_nil_r|].
  apply Forall_cons in F as [Hc F]. rewrite IH by done. rewrite pictures_app, choice_parts_content.
  unfold answer_pictures at 1, assemble_choice. cbn [parts]. rewrite parts_pictures by done.
  destruct l as [|x l]; cbn [head default tail flat_map parts no_answer]; [done|].
  change (pictures (flat_map content_part (parts x))) with (answer_pictures x). rewrite <- !app_assoc.
  apply Permutation_app_head. rewrite !app_assoc. apply Permutation_app_tail, Permutation_app_comm.
Qed.

Lemma run_pictures bodies : ∀ a, Forall plain_event bodies →
  flat_map answer_pictures (answers (fold_left assemble bodies a)) ≡ₚ
  flat_map answer_pictures (answers a) ++ flat_map event_pictures bodies.
Proof.
  induction bodies as [|b bodies IH]; intros a F; cbn [fold_left flat_map]; [by rewrite app_nil_r|].
  apply Forall_cons in F as [Hb F]. rewrite IH by done. cbn [answers assemble]. rewrite choices_pictures by done.
  by rewrite app_assoc.
Qed.

Lemma shown_pictures a done doc : shown a done doc → pictures (imageContent doc) = flat_map answer_pictures (answers a).
Proof.
  intros [_ _ Hc _ Hr]. unfold imageContent.
  assert (or_object (js_and doc doc~>"output") = doc~>"output") as ->.
  { destruct doc as [| |[]|[]|[]| |fields]; try (by vm_compute in Hc); try done.
    all: unfold js_and, or_object, js_or; cbn [truthy]; destruct (get _ (js "output")); done. }
  rewrite Hc, Hr. cbn [array_or_empty flat_map app]. clear Hc. unfold pictures. induction (answers a) as [|x l IH]; [done|].
  cbn [map flat_map]. by rewrite flat_map_app, IH.
Qed.
