(* ===== verification/AlibabaFacts.v ===== *)
(** * Lemmas on the Alibaba plugin

    What [convertImage] and [convert] send is what [extractUsage] bills, and
    [normalizeRequest] keeps the duration that was asked for. *)
From stdpp Require Import base list option numbers sets.
From Stdlib Require Import ZArith SpecFloat Lia.
From S2P Require Import Prelude.
From S2P Require Import JsString.
From S2P Require Import JsNumber.
From S2P Require Import Syntax.
From S2P Require Import Runtime.
From S2P Require Import Display.
From S2P Require Import Json.
From S2P Require Import JsText.
From S2P Require Import JsonPrint.
From S2P Require Import AdvancedCustom.
From S2P Require Import JsDynamic.
From S2P Require Import PluginCommon.
From S2P Require Import AdvancedCustomFacts.
From S2P Require Import PriceTableFacts.
From S2P Require Import PluginUsage.
From S2P Require Import PluginBilling.
From S2P Require Import AlibabaImages.
From S2P Require Import AlibabaVideos.
From S2P Require Import PluginAlibaba.

(** ** Objects and bounds *)

Lemma Ok_inj {E A} (a b : A) : @Ok E A a = Ok b → a = b.
Proof. by intros [=]. Qed.

Lemma get_remove_other o k k' : k ≠ k' → get (JObj (remove o k)) k' = get (JObj o) k'.
Proof. intros E. cbn [get]. by rewrite own_remove, (proj2 (jseq_neq k k') E). Qed.
Lemma get_remove_same o k : get (JObj (remove o k)) k = JUndefined.
Proof. cbn [get]. by rewrite own_remove, jseq_refl. Qed.
Lemma get_put_if_same b o k v : get (JObj (put_if b o k v)) k = if b then v else get (JObj o) k.
Proof. destruct b; [apply get_put_same|done]. Qed.

Lemma outside_false v low high :
  is_finite (nZ low) = true → is_finite (nZ high) = true → outside v low high = false →
  ∃ x, v = JNum x ∧ whole_between x low high.
Proof.
  unfold outside. intros Hl Hh Ho. apply orb_false_iff in Ho as [Ho H3]. apply orb_false_iff in Ho as [H1 H2].
  apply negb_false_iff in H1. destruct v as [| | |x| | |]; try done. exists x. split; [done|].
  cbn [to_number integer_value] in *. pose proof (integer_finite _ H1).
  unfold whole_between; conjs; [done|by apply nltb_false|by apply nltb_false].
Qed.

Lemma whole_weaken x low high high' : nleb (nZ high) (nZ high') = true → whole_between x low high → whole_between x low high'.
Proof. intros Hh (I & L & G). unfold whole_between; conjs; [done..|]. by apply (nleb_trans _ (nZ high)). Qed.

(** Two settings that agree on what decides the bill of the images. *)
Definition COUNT_KEYS : list jsstr :=
  [js "n"; js "max_images"; js "enable_interleave"; js "prompt_extend"].
Definition same_counts (p q : obj) : Prop := ∀ k, str_in k COUNT_KEYS = true → get (JObj p) k = get (JObj q) k.

Lemma same_counts_refl p : same_counts p p.
Proof. done. Qed.
Lemma same_counts_trans p q r : same_counts p q → same_counts q r → same_counts p r.
Proof. intros A B k Hk. by rewrite A, B. Qed.
Lemma same_counts_put p k v : str_in k COUNT_KEYS = false → same_counts (put p k v) p.
Proof. intros Hk k' Hk'. apply get_put_other. congruence. Qed.
Lemma same_counts_remove p k : str_in k COUNT_KEYS = false → same_counts (remove p k) p.
Proof. intros Hk k' Hk'. apply get_remove_other. congruence. Qed.

(** ** Image requests *)

Section images.

(** The count that is billed: whole, from one to a limit. *)
Definition billed_count (p : obj) : jsval := if flag p "enable_interleave" then (JObj p)~>"max_images" else (JObj p)~>"n".

Lemma billed_count_same p q : same_counts p q → billed_count p = billed_count q.
Proof. unfold billed_count, flag. intros S. by rewrite !S. Qed.

Lemma limits_small name limits : entry_of QWEN_IMAGE_LIMITS name = Some limits →
  (maxN limits <=? 6)%Z && (maxInput limits <=? 3) = true.
Proof. apply (entry_forall (λ l, (maxN l <=? 6)%Z && (maxInput l <=? 3))). by vm_compute. Qed.

Lemma max_n_small profile name p most :
  max_n profile (entry_of QWEN_IMAGE_LIMITS name) p = Ok most →
  is_finite (nZ most) = true ∧ nleb (nZ most) (nZ 12) = true.
Proof.
  unfold max_n. destruct (flag p "enable_interleave"); [intros [= <-]; by vm_compute|].
  destruct (flag p "enable_sequential"); [intros [= <-]; by vm_compute|].
  destruct (is_kind profile qwen); [|intros [= <-]; by vm_compute].
  destruct (entry_of QWEN_IMAGE_LIMITS name) as [l|] eqn:E; [|done]. intros [= <-].
  pose proof (entry_forall (λ l, is_finite (nZ (maxN l)) && nleb (nZ (maxN l)) (nZ 12)) QWEN_IMAGE_LIMITS _ _ eq_refl E) as B.
  by apply andb_true_iff in B.
Qed.

Lemma counts_bounded profile sync name p q :
  image_counts profile sync (entry_of QWEN_IMAGE_LIMITS name) p = Ok q →
  ∃ x, billed_count q = JNum x ∧ whole_between x 1 12.
Proof.
  unfold image_counts. intros E. apply bind_Ok in E as (most & Hm & E). destruct (max_n_small _ _ _ _ Hm) as [Hf Hs].
  apply bind_Ok in E as (? & Hn%throw_if_Ok & E). apply bind_Ok in E as (? & Hi%throw_if_Ok & E).
  apply bind_Ok in E as (? & _ & E). apply bind_Ok in E as (? & _ & [= <-]).
  apply outside_false in Hn as (n & En & Wn); [|done|done].
  set (p1 := put p (js "n") _) in *. unfold billed_count, flag. rewrite get_put_if_other by keys.
  rewrite get_put_if_same, get_put_if_other by keys. fold (flag p1 "enable_interleave").
  destruct (flag p1 "enable_interleave").
  - set (m := (JObj p1)~>"max_images") in *. unfold nullish.
    change (default JUndefined (own p1 (js "max_images"))) with m. destruct (is_nullish m) eqn:Nm; [exists (nZ 5); split; [done|by vm_compute]|].
    assert (is_defined m = true) as Dm by (by destruct m). rewrite Dm in Hi. cbn [andb] in Hi.
    apply outside_false in Hi as (y & -> & W); [|done|done]. exists y. split; [done|]. by apply (whole_weaken _ _ 5).
  - exists n. split; [unfold p1; by rewrite get_put_same|]. by apply (whole_weaken _ _ most).
Qed.

(** What follows the counts leaves them as they are. *)
Lemma input_keeps profile limits req listed input p input' p' images :
  image_input profile limits req listed input p = Ok (input', p', images) → same_counts p' p.
Proof.
  unfold image_input, legacy_input, move_negative. destruct (legacyProfile profile).
  - intros E. apply bind_Ok in E as (? & _ & E). apply bind_Ok in E as (? & _ & E).
    apply bind_Ok in E as ([input1 p1] & Em & E).
    assert (same_counts p1 p) as S.
    { destruct (is_undefined _); [by injection Em as <- <-|]. apply bind_Ok in Em as (? & _ & [= <- <-]).
      by apply same_counts_remove. }
    destruct (is_kind profile legacy); [apply bind_Ok in E as (? & _ & [= <- <- <-]); done|].
    destruct (is_kind profile legacy_edit); [apply bind_Ok in E as (? & _ & [= <- <- <-]); done|].
    apply bind_Ok in E as (? & _ & [= <- <- <-]). done.
  - intros E. apply bind_Ok in E as (? & _ & [= <- <- <-]). done.
Qed.

Lemma size_keeps profile model images p p' : image_size profile model images p = Ok p' → same_counts p' p.
Proof.
  unfold image_size. destruct ((JObj p)~>"size") as [| | | |s| |]; try done; [by intros [= <-]|].
  intros E. apply bind_Ok in E as (? & _ & [= <-]). by apply same_counts_put.
Qed.

(** Reference images are within the limits of the model. *)
Lemma max_input_small profile name interleave most :
  max_input profile (entry_of QWEN_IMAGE_LIMITS name) interleave = Ok most → most ≤ 9.
Proof.
  destruct profile, interleave; cbn [max_input]; try (intros [= <-]; lia).
  all: destruct (entry_of QWEN_IMAGE_LIMITS name) as [l|] eqn:E; [|done]; intros [= <-];
    apply limits_small in E; apply andb_true_iff in E as [_ E]; apply Nat.leb_le in E; lia.
Qed.

Lemma input_images_small profile name req listed input p input' p' images :
  image_input profile (entry_of QWEN_IMAGE_LIMITS name) req listed input p = Ok (input', p', images) → images ≤ 9.
Proof.
  unfold image_input, legacy_input, check_messages. destruct (legacyProfile profile).
  - intros E. apply bind_Ok in E as (? & _ & E). apply bind_Ok in E as (? & _ & E).
    apply bind_Ok in E as ([input1 p1] & _ & E).
    destruct (is_kind profile legacy); [apply bind_Ok in E as (? & _ & [= <- <- <-]); lia|].
    destruct (is_kind profile legacy_edit).
    + apply bind_Ok in E as (? & Hi%throw_if_Ok & [= <- <- <-]). apply negb_false_iff in Hi.
      destruct (nullish _ _); try done. apply andb_true_iff in Hi as [Hi _]. apply andb_true_iff in Hi as [_ Hi].
      apply Nat.leb_le in Hi. lia.
    + apply bind_Ok in E as (? & _ & [= <- <- <-]). lia.
  - intros E. apply bind_Ok in E as (k & E & [= <- <- <-]). apply bind_Ok in E as (? & _ & E).
    apply bind_Ok in E as ([texts found] & _ & E). apply bind_Ok in E as (? & _ & E).
    apply bind_Ok in E as (most & Hm & E). apply bind_Ok in E as (? & Hk%throw_if_Ok & E).
    apply bind_Ok in E as (? & _ & E). apply bind_Ok in E as (? & _ & E). apply bind_Ok in E as (? & _ & [= <-]).
    apply Nat.ltb_ge in Hk. apply max_input_small in Hm. lia.
Qed.

Lemma converted_image_spec ctx c :
  convertImage ctx = Ok c →
  (∃ x, billed_count (image_settings c) = JNum x ∧ whole_between x 1 12) ∧ inputImages c ≤ 9 ∧
  is_nullish ctx = false ∧ ∃ k, entry_of IMAGE_MODELS (image_name ctx) = Some k ∧
    service c = image_service k (synchronous c).
Proof.
  unfold convertImage. intros E. apply bind_Ok in E as (req & [Hc _]%dot_Ok & E).
  apply bind_Ok in E as (found & Hf & E). unfold imageModel, dot in Hf. rewrite Hc in Hf. injection Hf as Hf.
  destruct found as [k|]; [|done]. cbn zeta in E.
  apply bind_Ok in E as (metadata & _ & E). apply bind_Ok in E as (? & _ & E). apply bind_Ok in E as (sync & _ & E).
  apply bind_Ok in E as (p1 & _ & E). apply bind_Ok in E as (p2 & _ & E). apply bind_Ok in E as (p3 & E3 & E).
  apply bind_Ok in E as (given & _ & E). apply bind_Ok in E as (listed & _ & E).
  apply bind_Ok in E as ([[input p4] images] & E4 & E). apply bind_Ok in E as (p5 & E5 & [= <-]).
  cbn [image_settings inputImages service synchronous]. conjs.
  - destruct (counts_bounded _ _ _ _ _ E3) as (n & Hn & W). exists n. split; [|done]. rewrite <- Hn.
    apply billed_count_same. eapply same_counts_trans; [exact (size_keeps _ _ _ _ _ E5)|exact (input_keeps _ _ _ _ _ _ _ _ _ E4)].
  - by apply (input_images_small _ _ _ _ _ _ _ _ _ E4).
  - done.
  - by exists k.
Qed.

(** The schema of the profile an image model is priced by. *)
Definition image_schema (ctx : jsval) : BillingUsageSchema :=
  if zImage ctx then Z_IMAGE_USAGE_SCHEMA else if qwenImage3 ctx then QWEN_IMAGE3_USAGE_SCHEMA else WAN_IMAGE_USAGE_SCHEMA.

Lemma z_not_image3 ctx : zImage ctx = true → qwenImage3 ctx = false.
Proof.
  unfold zImage, qwenImage3. intros Hz. apply str_in_elem in Hz. apply list_elem_of_singleton in Hz as ->. by vm_compute.
Qed.

Lemma estimate_spec ctx c :
  convertImage ctx = Ok c →
  let facts := imageEstimate ctx c in
  facts.*1 = (image_schema ctx).*1 ∧ usage_valid (image_schema ctx) facts = true ∧
  ∃ x, own facts (js "image_count") = Some (JNum x) ∧ billed_count (image_settings c) = JNum x ∧ whole_between x 1 12.
Proof.
  intros E. destruct (converted_image_spec _ _ E) as ((x & Hx & W) & Hi & _ & _). cbn zeta.
  unfold imageEstimate, image_schema. fold (flag (image_settings c) "enable_interleave"). fold (billed_count (image_settings c)).
  rewrite Hx. pose proof (whole_count x 1 12 eq_refl W) as V.
  pose proof (small_count_valid (inputImages c) ltac:(lia)) as V2.
  destruct (zImage ctx) eqn:Z; [rewrite (z_not_image3 _ Z)|destruct (qwenImage3 ctx)]; (split; [reflexivity|]);
    (split; [|exists x; conjs; [reflexivity..|exact W]]).
  - repeat (eapply usage_valid_cons; [reflexivity| |]); done.
  - repeat (eapply usage_valid_cons; [reflexivity| |]); try done. by destruct (match _ with Some _ => _ | None => _ end).
  - repeat (eapply usage_valid_cons; [reflexivity| |]); done.
Qed.

(** ** Settled images *)

Lemma image_usage_count ctx b f :
  imageUsage ctx b = Ok f →
  let images := pictures (imageContent b) in
  length images ≤ MAX_IMAGE_OUTPUTS ∧
  (f = [] ∧ imageContent b = [] ∨
   ∃ x, own f (js "image_count") = Some (JNum x) ∧ whole_between x 0 12 ∧ (images ≠ [] → neqb x (nZ 0) = false)).
Proof.
  unfold imageUsage. intros E. apply bind_Ok in E as (? & Hm%throw_if_Ok & E). apply Nat.ltb_ge in Hm. cbn zeta.
  split; [done|]. set (images := pictures (imageContent b)) in *. set (usage := or_object _) in E.
  set (reported := if is_defined usage~>"image_count" then _ else _) in E.
  assert (∀ v, own (if qwenImage3 ctx then put_image3 usage ["image_count" ↦ v] else ["image_count" ↦ v])
    (js "image_count") = Some v) as Hown.
  { intros v. destruct (qwenImage3 ctx); [|reflexivity]. unfold put_image3, put_if.
    destruct (one_of _ _), (negb (outside _ _ _)); rewrite ?own_put_other by keys; reflexivity. }
  destruct (is_defined reported).
  - apply bind_Ok in E as (? & Hr%throw_if_Ok & [= <-]). apply orb_false_iff in Hr as [Hr Hz].
    apply outside_false in Hr as (n & Ex & W); [|done|done]. right. exists n. rewrite Hown, Ex. conjs; [done|done|].
    intros Hn. rewrite bool_decide_false in Hz by done. by rewrite Ex in Hz.
  - destruct (imageContent b) as [|p content] eqn:C; [left; by injection E as <-|right]. injection E as <-.
    exists (nZ (Z.of_nat (length images))). rewrite Hown. split; [done|]. destruct images as [|i images]; cbn [length] in *.
    + split; [by vm_compute|done].
    + do 12 (destruct images as [|? images]; [by split; [vm_compute|]|]). unfold MAX_IMAGE_OUTPUTS in Hm.
      cbn [length] in Hm. lia.
Qed.
End images.

(** ** Video requests *)

Section videos.
Context {U : TaskHost}.

Lemma legacy_size_reads r q s :
  entry_of (default [] (entry_of LEGACY_SIZES r)) q = Some s → videoSize (JStr s) = Ok (r, Some q) ∧ nonempty_text s = true.
Proof.
  destruct (entry_of LEGACY_SIZES r) as [sizes|] eqn:E; cbn [default]; [|done]. intros Es.
  apply entry_of_elem in E, Es.
  assert (forallb (λ e, forallb (λ p, nonempty_text p.2 && match videoSize (JStr p.2) with
    | Ok (r, Some q) => jseq r e.1 && jseq q p.1 | _ => false end) e.2) LEGACY_SIZES = true) as C by by vm_compute.
  rewrite forallb_forall in C. specialize (C _ (proj1 (list_elem_of_In _ _) E)). cbn [fst snd] in C.
  rewrite forallb_forall in C. specialize (C _ (proj1 (list_elem_of_In _ _) Es)). cbn [fst snd] in C.
  apply andb_true_iff in C as [C1 C]. split; [|done]. destruct (videoSize (JStr s)) as [[r' [q'|]]|]; try done.
  apply andb_true_iff in C as [Cr Cq]. apply jseq_eq in Cr as ->. by apply jseq_eq in Cq as ->.
Qed.

(** The settings show one resolution, one the model offers. *)
Definition shows_resolution (p : obj) (res : jsstr) : Prop :=
  (∃ s q, (JObj p)~>"size" = JStr s ∧ nonempty_text s = true ∧ videoSize (JStr s) = Ok (res, Some q)) ∨
  ((JObj p)~>"size" = JUndefined ∧ (JObj p)~>"resolution" = JStr res).

Lemma sized_shows profile model res ratio p q :
  sized_settings profile model res ratio p = Ok q → res ∈ resolutions profile ∧ shows_resolution q res.
Proof.
  unfold sized_settings. intros E. apply bind_Ok in E as (? & Hr%throw_if_Ok & E).
  apply bind_Ok in E as (? & _ & E). apply negb_false_iff, str_in_elem in Hr. split; [done|].
  destruct (is_wan profile Wan_size).
  - destruct (entry_of _ (js_text ratio)) as [s|] eqn:Es; [|done]. injection E as <-. left. exists s, (js_text ratio).
    apply legacy_size_reads in Es as [Es Hn]. rewrite !get_remove_other by keys. by rewrite get_put_same.
  - right. destruct (_ || _); injection E as <-.
    + rewrite !get_put_other by keys. by rewrite get_remove_same, get_remove_other, get_put_same by keys.
    + rewrite !(get_remove_other _ (js "ratio")) by keys. by rewrite get_remove_same, get_remove_other, get_put_same by keys.
Qed.

Lemma timed_spec profile model req native p q :
  timed_settings profile model req native p = Ok q →
  (∀ res, shows_resolution p res → shows_resolution q res) ∧ (∀ k, js "duration" ≠ k → get (JObj q) k = get (JObj p) k) ∧
  (kind profile = Wan_speech ∧ (JObj q)~>"duration" = JUndefined ∨
   kind profile ≠ Wan_speech ∧ ∃ d, (JObj q)~>"duration" = JNum d ∧ duration_in profile d = true).
Proof.
  unfold timed_settings. intros E. apply bind_Ok in E as (? & _ & E). apply bind_Ok in E as (? & _ & E).
  assert (∀ q, (∀ k, js "duration" ≠ k → get (JObj q) k = get (JObj p) k) →
    ∀ res, shows_resolution p res → shows_resolution q res) as Hk.
  { intros q' Hq res. unfold shows_resolution. by rewrite !Hq by keys. }
  unfold is_wan in E. destruct (bool_decide (kind profile = Wan_speech)) eqn:Hs.
  - apply bool_decide_eq_true in Hs. apply bind_Ok in E as (? & _ & [= <-]).
    assert (∀ k, js "duration" ≠ k → get (JObj (remove p (js "duration"))) k = get (JObj p) k) as G by (intros; by apply get_remove_other).
    conjs; [by apply Hk|done|]. left. by rewrite get_remove_same.
  - apply bool_decide_eq_false in Hs. apply bind_Ok in E as (? & Hd%throw_if_Ok & [= <-]). apply negb_false_iff in Hd.
    set (d := if is_nullish _ then _ else _) in *.
    assert (∀ k, js "duration" ≠ k → get (JObj (put p (js "duration") (JNum d))) k = get (JObj p) k) as G by (intros; by apply get_put_other).
    conjs; [by apply Hk|done|]. right. split; [done|]. exists d. by rewrite get_put_same.
Qed.

Lemma sent_resolution_shown c res : shows_resolution (video_settings c) res → sent_resolution c = Ok (JStr res).
Proof.
  unfold sent_resolution. intros [(s & q & Es & Hn & Ev)|[Es Er]]; rewrite Es.
  - replace (truthy (JStr s)) with true by (by destruct s). by rewrite Ev.
  - change (truthy JUndefined) with false. cbn iota. by rewrite Er.
Qed.

(** Durations that are listed or counted are billable, and short. *)
Definition short (d : num) : bool := billable d && nleb d (nZ 30).
Definition short_listed (profile : WanProfile) : bool :=
  match durations profile with
  | Listed ds => forallb (λ z, match nZ z with S754_finite _ _ _ => short (nZ z) | _ => false end) ds
  | Through most => is_finite (nZ most) && nleb (nZ most) (nZ 30) && negb (is_wan profile Wan_speech)
  | AudioDecides => is_wan profile Wan_speech
  end.
Lemma profiles_short model profile : modelProfile model = Ok profile → short_listed profile = true.
Proof.
  unfold modelProfile. destruct (entry_of WAN_MODELS (modelKey model)) as [p|] eqn:E; [|done]. intros [= <-].
  by apply (entry_forall short_listed WAN_MODELS (modelKey model) p eq_refl).
Qed.

Lemma duration_short profile d :
  short_listed profile = true → kind profile ≠ Wan_speech → duration_in profile d = true →
  short d = true ∨ (kind profile = Wan_all ∧ neqb d (nZ (-1)) = true).
Proof.
  unfold short_listed, duration_in. destruct (durations profile) as [ds|most|].
  - intros Hs _ Hd. left. apply existsb_exists in Hd as (z & Hz & E). rewrite forallb_forall in Hs. specialize (Hs z Hz).
    rewrite neqb_sym in E. destruct (nZ z) eqn:N; try done. apply neqb_eq in E as ->. done.
  - intros Hs _ Hd. apply andb_true_iff in Hs as [Hs _]. apply andb_true_iff in Hs as [Hf Hm].
    apply orb_true_iff in Hd as [Hd|Hd].
    + right. apply andb_true_iff in Hd as [Hk Hd]. split; [|done]. by apply bool_decide_eq_true in Hk.
    + left. apply andb_true_iff in Hd as [Hd H3]. apply andb_true_iff in Hd as [H1 H2]. apply negb_true_iff in H2, H3.
      pose proof (integer_finite _ H1) as Hfin. apply nltb_false in H2; [|done|done]. apply nltb_false in H3; [|done|done].
      assert (nleb d (nZ 30) = true) as L by (by apply (nleb_trans _ (nZ most))).
      unfold short, billable. rewrite Hfin, L. unfold ngtb. 
      assert (nltb NZERO d = true) as -> by (by apply (nltb_nleb_trans NZERO (nZ 2) d)).
      by rewrite (nleb_trans d (nZ 30) (nZ 3600)).
  - unfold is_wan. intros Hs Hn. by apply bool_decide_eq_true in Hs.
Qed.

(** ** Media *)

Lemma counted_truthy limits media : ∀ counts counts',
  rfold (count_media limits) media counts = Ok counts' → Forall (λ m, is_nullish m = false) media.
Proof.
  induction media as [|m media IH]; intros counts counts' E; [done|]. cbn [rfold] in E.
  apply bind_Ok in E as (c & Ec & E). apply Forall_cons. split; [|by apply (IH c counts')].
  unfold count_media in Ec. destruct (entry_of limits _); [|done]. apply bind_Ok in Ec as (? & Ht%throw_if_Ok & _).
  apply orb_false_iff in Ht as [Ht _]. apply negb_false_iff in Ht. by apply truthy_not_nullish.
Qed.

(** The media of an input can be read. *)
Definition media_readable (input : obj) : Prop :=
  match or_array (JObj input)~>"media" with JArr media => Forall (λ m, is_nullish m = false) media | _ => False end.

Lemma some_video_total media : Forall (λ m, is_nullish m = false) media → ∃ b, some_video media = Ok b.
Proof.
  induction 1 as [|m media Hm _ [b IH]]; [by exists false|]. cbn [some_video]. unfold dot. rewrite Hm. cbn [mbind result_bind].
  destruct (equals _ _); [by exists true|by exists b].
Qed.

Lemma reference_total input : media_readable input → ∃ b, has_reference_video input = Ok b.
Proof. unfold media_readable, has_reference_video. destruct (or_array _); try done. apply some_video_total. Qed.

Lemma media_input_readable profile req input input' : media_input profile req input = Ok input' → media_readable input'.
Proof.
  unfold media_input. intros E. apply bind_Ok in E as (media & _ & E). apply bind_Ok in E as ([] & Ec & [= <-]).
  unfold check_media in Ec. apply bind_Ok in Ec as (counts & Ec%counted_truthy & _).
  unfold media_readable. cbn [fold_left]. rewrite !get_remove_other by keys.
  destruct media as [|m media].
  - rewrite bool_decide_true by done. by rewrite get_remove_same.
  - rewrite bool_decide_false by done. by rewrite get_put_same.
Qed.

(** Only the models that take media look at them. *)
Definition takes_media (profile : WanProfile) : bool := is_wan profile Wan_media || is_wan profile Wan_all.

Lemma converted_video_spec ctx c :
  convert ctx = Ok c →
  ∃ profile res, modelProfile (video_model c) = Ok profile ∧ res ∈ resolutions profile ∧
    shows_resolution (video_settings c) res ∧ (takes_media profile = true → media_readable (video_input c)) ∧
    (kind profile = Wan_speech ∧ (JObj (video_settings c))~>"duration" = JUndefined ∨
     kind profile ≠ Wan_speech ∧ ∃ d, (JObj (video_settings c))~>"duration" = JNum d ∧
       (short d = true ∨ kind profile = Wan_all ∧ neqb d (nZ (-1)) = true)).
Proof.
  unfold convert. intros E. apply bind_Ok in E as (req & _ & E). apply bind_Ok in E as (model & _ & E).
  apply bind_Ok in E as (profile & Hp & E). apply bind_Ok in E as (given & _ & E). apply bind_Ok in E as (metadata & _ & E).
  apply bind_Ok in E as (? & _ & E). apply bind_Ok in E as (input & _ & E). apply bind_Ok in E as (native & _ & E).
  apply bind_Ok in E as (p1 & _ & E). apply bind_Ok in E as ([res ratio] & _ & E). apply bind_Ok in E as (p2 & E2 & E).
  apply bind_Ok in E as (p3 & E3 & E). apply bind_Ok in E as (input' & E4 & [= <-]).
  cbn [video_model video_input video_settings]. exists profile, res.
  destruct (sized_shows _ _ _ _ _ _ E2) as [Hr S2]. destruct (timed_spec _ _ _ _ _ _ E3) as (K & _ & T).
  conjs; [done|done|by apply K| |].
  - unfold takes_media, is_wan. intros Ht. unfold checked_input in E4. destruct (kind profile); try done;
      by apply media_input_readable in E4.
  - destruct T as [T|(Hk & d & Hd & Di)]; [by left|right]. split; [done|]. exists d. split; [done|].
    apply duration_short; [by apply (profiles_short model)|done|done].
Qed.

Definition audio_model (model : jsval) : bool := str_in (modelKey model) WAN_AUDIO_VIDEO_MODELS.

(** A medium of the input that is sent is a reference video. *)
Definition reference_video (input : obj) : Prop :=
  ∃ media m, (JObj input)~>"media" = JArr media ∧ m ∈ media ∧ m~>"type" = str "reference_video".

Lemma some_video_spec media b :
  some_video media = Ok b → b = true ↔ ∃ m, m ∈ media ∧ m~>"type" = str "reference_video".
Proof.
  revert b. induction media as [|m media IH]; intros b E.
  - injection E as <-. split; [done|]. intros (m & H%not_elem_of_nil & _). done.
  - cbn [some_video] in E. apply bind_Ok in E as (t & Et & E).
    assert (m~>"type" = t) as Ht by (unfold dot in Et; destruct (is_nullish m); [done|by injection Et]).
    destruct (equals t "reference_video") eqn:Q.
    + injection E as <-. apply equals_str in Q. split; [intros _|done]. exists m. split; [left|congruence].
    + rewrite (IH b E). split; intros (x & Hx & T); [by exists x; split; [right|]|].
      apply elem_of_cons in Hx as [->|Hx]; [|by exists x]. exfalso. rewrite Ht in T. rewrite T in Q. by vm_compute in Q.
Qed.

Lemma reference_spec input b : has_reference_video input = Ok b → b = true ↔ reference_video input.
Proof.
  unfold has_reference_video, reference_video, or_array, js_or. intros E. destruct (truthy _) eqn:T.
  - destruct ((JObj input)~>"media") as [| | | | |media|] eqn:M; try done. rewrite (some_video_spec media b E).
    split; [by intros (m & H); exists media, m|]. intros (media' & m & [= <-] & H). by exists m.
  - injection E as <-. split; [done|]. intros (media & m & M & _). by rewrite M in T.
Qed.

(** What is reserved for the input and the duration that are sent: the twenty
    seconds of a speech; for a model that takes all media thirty seconds
    where a reference video or the model decides the length, and what is sent
    otherwise; for the others what is sent. *)
Definition reserves (profile : WanProfile) (input : obj) (sent : jsval) (n : num) : Prop :=
  match kind profile with
  | Wan_speech => sent = JUndefined ∧ n = nZ 20
  | Wan_all =>
      ∃ d, sent = JNum d ∧ (neqb d (nZ (-1)) = true ∨ short d = true) ∧
        (reference_video input ∨ neqb d (nZ (-1)) = true → n = nZ 30) ∧
        (¬ reference_video input → neqb d (nZ (-1)) = false → n = d)
  | _ => sent = JNum n ∧ short n = true
  end.

Lemma reserved profile input sent hasVideo :
  has_reference_video input = Ok hasVideo →
  (kind profile = Wan_speech ∧ sent = JUndefined ∨
   kind profile ≠ Wan_speech ∧ ∃ d, sent = JNum d ∧ (short d = true ∨ kind profile = Wan_all ∧ neqb d (nZ (-1)) = true)) →
  ∃ n, billed_seconds profile hasVideo sent = JNum n ∧ billable n = true ∧ reserves profile input sent n.
Proof.
  intros Hv%reference_spec. unfold billed_seconds, reserves, is_wan. intros [[-> ->]|(Hs & d & -> & Hd)].
  - exists (nZ 20). by vm_compute.
  - rewrite bool_decide_false by done. destruct (decide (kind profile = Wan_all)) as [Ha|Ha].
    + rewrite Ha, bool_decide_true by done. cbn [andb]. change (strict_eq (JNum d) (int (-1))) with (neqb d (nZ (-1))).
      assert (neqb d (nZ (-1)) = true ∨ short d = true) as Hd' by (destruct Hd as [Hd|[_ Hd]]; auto).
      destruct (hasVideo || _) eqn:V.
      * exists (nZ 30). conjs; [done|by vm_compute|]. exists d. conjs; try done. intros Hr He.
        rewrite He, orb_false_r in V. by apply Hv in V.
      * apply orb_false_iff in V as [V1 V2]. destruct Hd' as [Hd'|Hd']; [congruence|].
        exists d. apply andb_true_iff in Hd' as Hb. conjs; [done|apply Hb|]. exists d. conjs; [done|auto| |done].
        intros [Hr%Hv|Hr]; congruence.
    + rewrite bool_decide_false by done. destruct Hd as [Hd|[? _]]; [|done]. exists d. cbn [andb].
      apply andb_true_iff in Hd as Hd'. conjs; [done|apply Hd'|]. by destruct (kind profile).
Qed.

Lemma video_billed ctx request :
  imageModel ctx = Ok None → ctx~>"usagePurpose" = str "facts" → buildSubmitRequest ctx = Ok request →
  ∃ c profile res, convert ctx = Ok c ∧ modelProfile (video_model c) = Ok profile ∧
    request~>"body" = AlibabaVideos.video_body c ∧ res ∈ resolutions profile ∧ shows_resolution (video_settings c) res ∧
    (takes_media profile = true → media_readable (video_input c)) ∧
    (media_readable (video_input c) →
     ∃ n, let schema := wanVideoUsageSchema (resolutions profile) (audio_model (video_model c)) in
       let audio := negb (strict_eq (JObj (video_settings c))~>"audio" (JBool false)) in
       let facts := ["seconds" ↦ JNum n; "resolution" ↦ JStr res]
                    ++ (if audio_model (video_model c) then ["audio" ↦ JBool audio] else []) in
       extractUsage ctx = Ok facts ∧ billable n = true ∧ usage_valid schema facts = true ∧
       reserves profile (video_input c) (JObj (video_settings c))~>"duration" n).
Proof.
  intros Hi Hp Hb. unfold buildSubmitRequest in Hb. rewrite Hi in Hb. cbn [mbind result_bind] in Hb.
  unfold PluginAlibaba.video_request in Hb. apply bind_Ok in Hb as (c & Hc & Hb). apply bind_Ok in Hb as (profile & Hm & Hb).
  apply bind_Ok in Hb as (root & _ & Hb). apply bind_Ok in Hb as (action & _ & [= <-]).
  destruct (converted_video_spec _ _ Hc) as (profile' & res & Hm' & Hr & Hs & Hmed & Hd).
  rewrite Hm in Hm'. injection Hm' as <-. exists c, profile, res. conjs; try done.
  intros Hread. destruct (reference_total _ Hread) as [hasVideo Hv].
  destruct (reserved profile _ (JObj (video_settings c))~>"duration" hasVideo Hv Hd) as (n & Hn & Bn & Rn).
  exists n. cbn zeta.
  conjs; [|done| |done].
  - unfold extractUsage. rewrite Hi. cbn [mbind result_bind]. unfold video_usage. rewrite Hc. cbn [mbind result_bind].
    rewrite Hm. cbn [mbind result_bind]. rewrite Hv. cbn [mbind result_bind]. rewrite Hn, Hp.
    change (equals (str "facts") "billing_ratios") with false. cbn iota.
    rewrite (sent_resolution_shown _ _ Hs). cbn [mbind result_bind]. unfold audio_model, put_if.
    by destruct (str_in _ _).
  - unfold wanVideoUsageSchema. destruct (audio_model _); cbn [app];
      repeat (eapply usage_valid_cons; [reflexivity| |]); try done; try (by apply seconds_valid); by apply enum_valid.
Qed.

(** ** The normal form of a request *)

Definition copy (v : jsval) : jsval := JObj (assign [] v).
(** [metadata.parameters] *)
Definition native_of (req : jsval) : jsval := or_object (or_object req~>"metadata")~>"parameters".

(** The duration a request asks for: -1 for one the model chooses. *)
Definition asked_duration (value : jsval) : jsval :=
  let req := copy value in
  nullish (nullish (nullish (copy (native_of req))~>"duration" req~>"duration") req~>"seconds")
    (if strict_eq req~>"auto_duration" (JBool true) then int (-1) else JUndefined).

Lemma objectValue_Ok v name o : objectValue v name = Ok o → o = or_object v ∧ plain_object o = true.
Proof.
  unfold objectValue. destruct (is_nullish v) eqn:N; [intros [= <-]; by destruct v|].
  destruct v; try done. by intros [= <-].
Qed.

Lemma get_drop o k : get (JObj (drop_minus_one k o)) (js k) =
  if minus_one (get (JObj o) (js k)) then JUndefined else get (JObj o) (js k).
Proof. unfold drop_minus_one. destruct (minus_one _); [by rewrite get_remove_same|done]. Qed.
Lemma get_drop_other o k k' : js k ≠ k' → get (JObj (drop_minus_one k o)) k' = get (JObj o) k'.
Proof. intros E. unfold drop_minus_one. destruct (minus_one _); [by apply get_remove_other|done]. Qed.
Lemma get_normal o k : js "resolution" ≠ k → get (JObj (normal_resolution o)) k = get (JObj o) k.
Proof. intros E. unfold normal_resolution. by apply get_put_if_other. Qed.

Lemma minus_one_nullish v : is_nullish v = true → minus_one v = false.
Proof. by destruct v. Qed.

(** The parameters after normalisation. *)
Lemma normal_native value req :
  normalizeRequest value = Ok req →
  (native_of (JObj req))~>"duration" =
  let v := (copy (native_of (copy value)))~>"duration" in if minus_one v then JUndefined else v.
Proof.
  unfold normalizeRequest. intros E. apply bind_Ok in E as (metadata & [-> Pm]%objectValue_Ok & E).
  apply bind_Ok in E as (given & [-> Pg]%objectValue_Ok & E). apply bind_Ok in E as (? & _ & <-%Ok_inj).
  set (req0 := assign [] value) in *. change (copy value) with (JObj req0). fold (native_of (JObj req0)) in *.
  set (p1 := normal_resolution (drop_minus_one "duration" (assign [] (native_of (JObj req0))))).
  set (d := nullish (nullish _ _) _).
  assert ((JObj p1)~>"duration" = let v := (copy (native_of (JObj req0)))~>"duration" in if minus_one v then JUndefined else v) as Hp
    by (unfold p1; rewrite get_normal by keys; apply get_drop).
  unfold native_of at 1. rewrite get_normal by keys.
  assert (∀ o, get (JObj (if minus_one d then remove (remove (put o (js "auto_duration") (JBool true)) (js "duration")) (js "seconds")
                         else remove o (js "auto_duration"))) (js "metadata") = (JObj o)~>"metadata") as Hd.
  { intros o. destruct (minus_one d); rewrite !get_remove_other by keys; [by rewrite get_put_other by keys|done]. }
  rewrite Hd, !get_drop_other by keys. rewrite get_put_if_same.
  destruct (is_defined (JObj req0)~>"metadata") eqn:M.
  - cbn [or_object js_or truthy]. rewrite get_put_same. exact Hp.
  - destruct ((JObj req0)~>"metadata") eqn:M'; try done. unfold native_of. by rewrite M'.
Qed.

Lemma normal_fields value req :
  normalizeRequest value = Ok req →
  let r := JObj req in let v := copy value in
  if minus_one (asked_duration value)
  then r~>"duration" = JUndefined ∧ r~>"seconds" = JUndefined ∧ r~>"auto_duration" = JBool true
  else r~>"duration" = (if minus_one v~>"duration" then JUndefined else v~>"duration") ∧
       r~>"seconds" = (if minus_one v~>"seconds" then JUndefined else v~>"seconds") ∧
       r~>"auto_duration" = JUndefined.
Proof.
  unfold normalizeRequest. intros E. apply bind_Ok in E as (metadata & [-> Pm]%objectValue_Ok & E).
  apply bind_Ok in E as (given & [-> Pg]%objectValue_Ok & E). apply bind_Ok in E as (? & _ & <-%Ok_inj).
  set (req0 := assign [] value) in *. change (copy value) with (JObj req0). fold (native_of (JObj req0)) in *.
  fold (copy (native_of (JObj req0))). unfold asked_duration. cbn zeta. fold req0. change (copy value) with (JObj req0) in *.
  set (d := nullish (nullish _ _) _). set (o := put_if _ _ _ _).
  assert (∀ k, js "metadata" ≠ k → get (JObj o) k = get (JObj req0) k) as Ho by (intros; by apply get_put_if_other).
  rewrite !get_normal by keys. destruct (minus_one d).
  - conjs.
    + by rewrite get_remove_other, get_remove_same by keys.
    + by rewrite get_remove_same.
    + by rewrite !get_remove_other, get_put_same by keys.
  - conjs.
    + rewrite get_remove_other, get_drop_other, get_drop by keys. by rewrite Ho by keys.
    + rewrite get_remove_other, get_drop, get_drop_other by keys. by rewrite Ho by keys.
    + by rewrite get_remove_same.
Qed.

Lemma nullish_l a b : is_nullish a = false → nullish a b = a.
Proof. unfold nullish. by intros ->. Qed.
Lemma nullish_r a b : is_nullish a = true → nullish a b = b.
Proof. unfold nullish. by intros ->. Qed.

(** No field holds -1, and the duration that is read is the one asked for. *)
Lemma normal_duration value req :
  normalizeRequest value = Ok req →
  let r := JObj req in
  minus_one r~>"duration" = false ∧ minus_one r~>"seconds" = false ∧ minus_one (native_of r)~>"duration" = false ∧
  (minus_one (asked_duration value) = true → raw_duration r (native_of r) = int (-1)) ∧
  (minus_one (asked_duration value) = false →
   raw_duration r (native_of r) = asked_duration value ∨
   is_nullish (raw_duration r (native_of r)) = true ∧ is_nullish (asked_duration value) = true).
Proof.
  intros E. pose proof (normal_native _ _ E) as N. pose proof (normal_fields _ _ E) as F. cbn zeta in *.
  assert (∀ v, minus_one (if minus_one v then JUndefined else v) = false) as M by (intros v; by destruct (minus_one v) eqn:X).
  unfold raw_duration. rewrite N, M. unfold asked_duration in *. set (v := copy value) in *.
  set (p := (copy (native_of v))~>"duration") in *.
  destruct (minus_one (nullish (nullish _ _) _)) eqn:A.
  - destruct F as (-> & -> & ->). conjs; [done..| |done]. intros _. destruct (is_nullish p) eqn:Np.
    + rewrite (minus_one_nullish _ Np). by rewrite (nullish_r p).
    + rewrite !(nullish_l p) in A by (by rewrite ?(nullish_l p)). by rewrite A.
  - destruct F as (-> & -> & ->). rewrite !M. conjs; [done..|]. intros _. cbn [strict_eq].
    destruct (is_nullish p) eqn:Np.
    + rewrite (minus_one_nullish _ Np), !(nullish_r p) in * by done. destruct (is_nullish v~>"duration") eqn:Nd.
      * rewrite (minus_one_nullish _ Nd), !(nullish_r v~>"duration") in * by done. destruct (is_nullish v~>"seconds") eqn:Ns.
        -- rewrite (minus_one_nullish _ Ns), (nullish_r v~>"seconds") in * by done. right. split; [done|].
           by destruct (strict_eq _ _).
        -- rewrite !(nullish_l v~>"seconds") in * by done. rewrite A. by left.
      * rewrite !(nullish_l v~>"duration") in * by (by rewrite ?(nullish_l v~>"duration")). rewrite A. left. by rewrite nullish_l.
    + rewrite !(nullish_l p) in * by (by rewrite ?(nullish_l p)). rewrite A. left. by rewrite nullish_l.
Qed.
End videos.
