(* ===== verification/PluginInterfaces.v ===== *)
(** * What the gateway relies on

    The hooks of a plugin as interfaces: rendering a task as events
    ([Rendering]), offering and serving the artifacts of a finished task
    ([Artifacts]) and reading a provider's answer to a poll ([Polling]), with
    the laws the gateway's side is proved against.  The plugins are the
    instances. *)
From stdpp Require Import base list option numbers sets.
From Stdlib Require Import ZArith SpecFloat Lia.
From S2P Require Import Prelude.
From S2P Require Import JsString.
From S2P Require Import JsNumber.
From S2P Require Import Syntax.
From S2P Require Import Runtime.
From S2P Require Import Display.
From S2P Require Import Json.
From S2P Require Import JsText.
From S2P Require Import JsonPrint.
From S2P Require Import AdvancedCustom.
From S2P Require Import JsDynamic.
From S2P Require Import PluginCommon.

From S2P Require Import PluginUsage.
From S2P Require Import PluginBilling.
From S2P Require PluginSora.
From S2P Require PluginKling.
From S2P Require PluginVidu.
From S2P Require PluginGoogle.
From S2P Require PluginVertex.
From S2P Require PluginJimeng.
From S2P Require PluginHailuo.
From S2P Require PluginSuno.
From S2P Require Seedream.
From S2P Require PluginDoubao.
From S2P Require LocalDoubao.
From S2P Require AlibabaImages.
From S2P Require AlibabaVideos.
From S2P Require PluginAlibaba.

Section interfaces.
Context {H : Host} {U : TaskHost}.

(** ** Rendering *)

Class Rendering : Type := {
  render : jsval → jsval → jsval → JS jsval;
  (** the events of a final task *)
  closing_events : jsval → jsval → JS (list jsval)
}.

Class RenderingLaws (R : Rendering) : Prop :=
  renders ctx task last : is_task task → (∀ t, last = Some t → final t = false) →
    render ctx task (state_of last) =
    if final task then es ← closing_events ctx task; Ok (rendered es task true)
    else Ok (rendered (if unchanged last task then [] else [progress_event task]) task false).

(** A plugin that closes with one event: the text of the result, or the
    error. *)
Definition standard_rendering (renderEvents : jsval → jsval → jsval → JS jsval) (text : jsval → jsval → JS jsstr) : Rendering :=
  {| render := renderEvents; closing_events := λ ctx task, e ← closing_event (text ctx) task; Ok [e] |}.

Lemma standard_laws renderEvents text :
  (∀ ctx task last, is_task task → (∀ t, last = Some t → final t = false) →
     renderEvents ctx task (state_of last) = render_events (text ctx task) task (state_of last)) →
  RenderingLaws (standard_rendering renderEvents text).
Proof.
  intros E ctx task last Ht Hl. cbn [render closing_events standard_rendering]. rewrite E by done.
  destruct (final task) eqn:F; [|by rewrite render_running]. rewrite render_final_task by done.
  by destruct (closing_event (text ctx) task).
Qed.

Definition sora_rendering : Rendering :=
  standard_rendering PluginSora.renderEvents (λ ctx _, PluginSora.responsesVideoText ctx).
Definition kling_rendering : Rendering :=
  standard_rendering PluginKling.renderEvents (λ ctx _, PluginKling.responsesVideoText ctx).
Definition vidu_rendering : Rendering :=
  standard_rendering PluginVidu.renderEvents (λ ctx _, PluginVidu.responsesVideoText ctx).
Definition google_rendering : Rendering :=
  standard_rendering PluginGoogle.renderEvents (λ ctx _, PluginGoogle.responsesVideoText ctx).
Definition vertex_rendering : Rendering :=
  standard_rendering PluginVertex.renderEvents PluginVertex.completionMessage.
Definition jimeng_rendering : Rendering :=
  standard_rendering PluginJimeng.renderEvents (λ ctx _, PluginJimeng.responsesVideoText ctx).
Definition hailuo_rendering : Rendering :=
  standard_rendering PluginHailuo.renderEvents (λ ctx _, PluginHailuo.responsesVideoText ctx).
Definition suno_rendering : Rendering :=
  standard_rendering PluginSuno.renderEvents PluginSuno.responseText.
Definition doubao_rendering : Rendering :=
  standard_rendering PluginDoubao.renderEvents Seedream.responsesOutputText.
Definition local_doubao_rendering : Rendering :=
  standard_rendering LocalDoubao.renderEvents Seedream.responsesOutputText.
(** The Alibaba plugin shows no result whose text is empty, and one message
    for every failure. *)
Definition alibaba_rendering : Rendering :=
  {| render := PluginAlibaba.renderEvents;
     closing_events := λ ctx task,
       if jseq (task_status task) (js "SUCCESS")
       then text ← PluginAlibaba.responsesOutputText ctx task; Ok (if nonempty_text text then [output_event text] else [])
       else Ok [PluginAlibaba.failed_event] |}.

#[export] Instance sora_renders : RenderingLaws sora_rendering. Proof. by apply standard_laws. Qed.
#[export] Instance kling_renders : RenderingLaws kling_rendering. Proof. by apply standard_laws. Qed.
#[export] Instance vidu_renders : RenderingLaws vidu_rendering. Proof. by apply standard_laws. Qed.
#[export] Instance google_renders : RenderingLaws google_rendering. Proof. by apply standard_laws. Qed.
#[export] Instance jimeng_renders : RenderingLaws jimeng_rendering. Proof. by apply standard_laws. Qed.
#[export] Instance hailuo_renders : RenderingLaws hailuo_rendering. Proof. by apply standard_laws. Qed.
#[export] Instance suno_renders : RenderingLaws suno_rendering. Proof. by apply standard_laws. Qed.
#[export] Instance doubao_renders : RenderingLaws doubao_rendering. Proof. by apply standard_laws. Qed.
#[export] Instance local_doubao_renders : RenderingLaws local_doubao_rendering. Proof. by apply standard_laws. Qed.

(** The Vertex plugin makes its text only when it shows it; a task that is
    still running shows none. *)
#[export] Instance vertex_renders : RenderingLaws vertex_rendering.
Proof.
  apply standard_laws. intros ctx task last Ht Hl. unfold PluginVertex.renderEvents, dot.
  rewrite Ht. cbn [mbind result_bind]. rewrite same_status. destruct last as [l|]; [|done].
  destruct (jseq (task_status l) (task_status task)) eqn:E; [|done].
  assert (final task = false) as F.
  { apply jseq_eq in E. unfold final. rewrite <- E. by apply (Hl l). }
  by rewrite !render_running.
Qed.

#[export] Instance alibaba_renders : RenderingLaws alibaba_rendering.
Proof.
  intros ctx task last Ht Hl. cbn [render closing_events alibaba_rendering]. unfold PluginAlibaba.renderEvents, dot, final.
  rewrite Ht. cbn [mbind result_bind]. destruct (jseq (task_status task) (js "SUCCESS")) eqn:E; cbn [orb].
  - destruct (PluginAlibaba.responsesOutputText ctx task) as [text|]; [|done]. cbn [mbind result_bind].
    rewrite same_status. destruct last as [l|]; [|done].
    destruct (jseq (task_status l) (task_status task)) eqn:Q; [|done].
    apply jseq_eq in Q. specialize (Hl _ eq_refl). unfold final in Hl. by rewrite Q, E in Hl.
  - destruct (jseq (task_status task) (js "FAILURE")); [done|]. rewrite same_progress. by destruct (unchanged last task).
Qed.

Definition renderings : list Rendering :=
  [sora_rendering; kling_rendering; vidu_rendering; google_rendering; vertex_rendering; jimeng_rendering;
   hailuo_rendering; suno_rendering; doubao_rendering; local_doubao_rendering; alibaba_rendering].

Lemma renderings_lawful : Forall RenderingLaws renderings.
Proof. repeat (apply Forall_cons; split; [apply _|]). by apply Forall_nil. Qed.

(** ** Artifacts *)

Class Artifacts : Type := {
  list_artifacts : jsval → JS jsval;
  content_request : jsval → JS jsval;
  (** the address of the content can be written down *)
  addressable : jsval → Prop
}.

(** A context in which the gateway asks for the artifact of a task. *)
Record asks_for (task artifact ctx : jsval) : Prop := {
  asks_object : is_nullish ctx = false;
  asks_data : ctx~>"data" = task~>"data";
  asks_key : ctx~>"artifactKey" = artifact~>"key";
  asks_client : is_nullish ctx~>"clientRequest" = false
}.

Class ArtifactsLaws (A : Artifacts) : Prop :=
  served task items artifact ctx :
    list_artifacts task = Ok (JArr items) → artifact ∈ items → asks_for task artifact ctx → addressable ctx →
    ∃ request, content_request ctx = Ok request ∧ truthy request~>"url" = true ∧
      request~>"method" = (ctx~>"clientRequest")~>"method".

Lemma artifact_data_of ctx task : ctx~>"data" = task~>"data" → artifact_data ctx = artifact_data task.
Proof.
  assert (∀ v, or_object (js_and v v~>"data") = or_object v~>"data") as E.
  { intros v. unfold js_and. destruct (truthy v) eqn:T; [done|].
    destruct v as [| |[]|[]|[]| |]; try discriminate T; reflexivity. }
  intros Hd. unfold artifact_data. by rewrite !E, Hd.
Qed.

Lemma download_Ok url ctx :
  is_nullish ctx~>"clientRequest" = false → nonempty_text url = true →
  ∃ request, public_download url ctx = Ok request ∧ truthy request~>"url" = true ∧
    request~>"method" = (ctx~>"clientRequest")~>"method".
Proof.
  intros Hc Hu. unfold public_download, dot. rewrite Hc. cbn [mbind result_bind]. eexists. split; [reflexivity|].
  split; [|done]. by destruct url.
Qed.

Lemma listed_once artifact present items a :
  @Ok thrown _ (artifact_list artifact present) = Ok (JArr items) → a ∈ items → present = true ∧ a = artifact.
Proof.
  unfold artifact_list. intros [= <-] Hin. destruct present; [by apply list_elem_of_singleton in Hin|].
  by apply not_elem_of_nil in Hin.
Qed.

(** Plugins that offer one video under a public address. *)
Lemma one_video_served (address : jsval → JS jsstr) (list : jsval → JS jsval) (content : jsval → JS jsval) :
  (∀ ctx task, ctx~>"data" = task~>"data" → address ctx = address task) →
  (∀ task, list task = (status ← task~>!"status";
     if equals status "SUCCESS" then url ← address task; Ok (artifact_list video_artifact (nonempty_text url))
     else Ok (artifact_list video_artifact false))) →
  (∀ ctx, content ctx = (key ← ctx~>!"artifactKey";
     if is_not key "video" then artifact_not_found
     else url ← address ctx; if nonempty_text url then public_download url ctx else artifact_not_found)) →
  ArtifactsLaws {| list_artifacts := list; content_request := content; addressable := λ _, True |}.
Proof.
  intros Haddr Hlist Hcont task items a ctx Hl Ha [Ho Hd Hk Hc] _. cbn [list_artifacts content_request] in *.
  rewrite Hlist in Hl. apply bind_Ok in Hl as (status & _ & Hl). destruct (equals status "SUCCESS").
  - apply bind_Ok in Hl as (url & Hu & Hl). destruct (listed_once _ _ _ _ Hl Ha) as [Hne ->]. rewrite Hcont. unfold dot. rewrite Ho, Hk.
    cbn [mbind result_bind]. change (is_not (video_artifact~>"key") "video") with false. cbn iota.
    rewrite (Haddr _ _ Hd), Hu. cbn [mbind result_bind]. rewrite Hne. by apply download_Ok.
  - by destruct (listed_once _ _ _ _ Hl Ha).
Qed.

Definition kling_artifacts : Artifacts :=
  {| list_artifacts := PluginKling.listArtifacts; content_request := PluginKling.buildContentRequest;
     addressable := λ _, True |}.
#[export] Instance kling_serves : ArtifactsLaws kling_artifacts.
Proof.
  apply (one_video_served PluginKling.artifactVideoURL); [|done..].
  intros ctx task Hd. unfold PluginKling.artifactVideoURL, PluginKling.artifactData. by rewrite (artifact_data_of _ _ Hd).
Qed.

Definition vidu_artifacts : Artifacts :=
  {| list_artifacts := PluginVidu.listArtifacts; content_request := PluginVidu.buildContentRequest;
     addressable := λ _, True |}.
#[export] Instance vidu_serves : ArtifactsLaws vidu_artifacts.
Proof.
  apply (one_video_served PluginVidu.artifactVideoURL); [|done..].
  intros ctx task Hd. unfold PluginVidu.artifactVideoURL, PluginVidu.artifactData. by rewrite (artifact_data_of _ _ Hd).
Qed.

Definition jimeng_artifacts : Artifacts :=
  {| list_artifacts := PluginJimeng.listArtifacts; content_request := PluginJimeng.buildContentRequest;
     addressable := λ _, True |}.
#[export] Instance jimeng_serves : ArtifactsLaws jimeng_artifacts.
Proof.
  apply (one_video_served (λ ctx, Ok (PluginJimeng.video_url ctx))).
  - intros ctx task Hd. unfold PluginJimeng.video_url, PluginJimeng.artifactData. by rewrite (artifact_data_of _ _ Hd).
  - intros task. unfold PluginJimeng.listArtifacts. destruct (dot _ _) as [status|]; [|done]. cbn [mbind result_bind].
    by destruct (equals status "SUCCESS").
  - done.
Qed.

Definition google_artifacts : Artifacts :=
  {| list_artifacts := PluginGoogle.listArtifacts; content_request := PluginGoogle.buildContentRequest;
     addressable := λ _, True |}.
#[export] Instance google_serves : ArtifactsLaws google_artifacts.
Proof.
  intros task items a ctx Hl Ha [Ho Hd Hk Hc] _. cbn [list_artifacts content_request google_artifacts] in *.
  unfold PluginGoogle.listArtifacts in Hl. apply bind_Ok in Hl as (status & _ & Hl).
  destruct (equals status "SUCCESS"); [apply bind_Ok in Hl as (url & Hu & Hl)|];
    destruct (listed_once _ _ _ _ Hl Ha) as [Hne ->]; [|done].
  unfold PluginGoogle.buildContentRequest, dot. rewrite Ho, Hk, Hc. cbn [mbind result_bind].
  change (is_not (video_artifact~>"key") "video") with false. cbn iota.
  assert (PluginGoogle.artifactVideoURL ctx = Ok url) as ->.
  { rewrite <- Hu. unfold PluginGoogle.artifactVideoURL, PluginGoogle.artifactData. by rewrite (artifact_data_of _ _ Hd). }
  cbn [mbind result_bind]. rewrite Hne. eexists. split; [reflexivity|]. split; [by destruct url|done].
Qed.

Definition hailuo_artifacts : Artifacts :=
  {| list_artifacts := PluginHailuo.listArtifacts; content_request := PluginHailuo.buildContentRequest;
     addressable := λ ctx, is_ok (encodeURIComponent (PluginHailuo.artifactFileID ctx)) = true |}.
#[export] Instance hailuo_serves : ArtifactsLaws hailuo_artifacts.
Proof.
  intros task items a ctx Hl Ha [Ho Hd Hk Hc] Haddr.
  cbn [list_artifacts content_request hailuo_artifacts addressable] in *.
  unfold PluginHailuo.listArtifacts in Hl. apply bind_Ok in Hl as (status & _ & Hl).
  destruct (listed_once _ _ _ _ Hl Ha) as [Hne ->]. apply andb_true_iff in Hne as [_ Hne].
  unfold PluginHailuo.buildContentRequest, dot. rewrite Ho, Hk, Hc. cbn [mbind result_bind].
  change (is_not (PluginHailuo.mp4_artifact~>"key") "video") with false. cbn iota.
  assert (PluginHailuo.artifactFileID ctx = PluginHailuo.artifactFileID task) as Ef.
  { unfold PluginHailuo.artifactFileID, PluginHailuo.artifactData. by rewrite (artifact_data_of _ _ Hd). }
  assert (PluginHailuo.h3ArtifactURL ctx = PluginHailuo.h3ArtifactURL task) as Eu.
  { unfold PluginHailuo.h3ArtifactURL, PluginHailuo.artifactData. by rewrite (artifact_data_of _ _ Hd). }
  rewrite Ef, Eu in *. destruct (nonempty_text (PluginHailuo.artifactFileID task)) eqn:F.
  - destruct (encodeURIComponent _) as [id|]; [|done]. cbn [mbind result_bind]. eexists. split; [reflexivity|].
    split; [|done]. change (truthy (JStr ?s)) with (nonempty_text s).
    by destruct (js_text ctx~>"baseUrl").
  - cbn [orb] in Hne. rewrite Hne. by apply download_Ok.
Qed.

Definition sora_artifacts : Artifacts :=
  {| list_artifacts := PluginSora.listArtifacts; content_request := PluginSora.buildContentRequest;
     addressable := λ ctx, is_ok (encodeURIComponent (js_text ctx~>"upstreamTaskId")) = true |}.
#[export] Instance sora_serves : ArtifactsLaws sora_artifacts.
Proof.
  intros task items a ctx Hl Ha [Ho Hd Hk Hc] Haddr. cbn [list_artifacts content_request sora_artifacts addressable] in *.
  unfold PluginSora.listArtifacts in Hl. apply bind_Ok in Hl as (status & _ & Hl).
  destruct (listed_once _ _ _ _ Hl Ha) as [_ ->].
  unfold PluginSora.buildContentRequest, dot. rewrite Ho, Hk, Hc. cbn [mbind result_bind].
  change (is_not (video_artifact~>"key") "video") with false. cbn iota.
  destruct (encodeURIComponent _) as [id|]; [|done]. cbn [mbind result_bind]. eexists. split; [reflexivity|].
  split; [|done]. change (truthy (JStr ?s)) with (nonempty_text s). by destruct (js_text ctx~>"baseUrl").
Qed.

(** Each song of a Suno task has its own key. *)
Definition song_keys (songs : list jsval) : list jsstr :=
  map (PluginSuno.artifactKey "audio") (List.filter PluginSuno.named songs).
Definition suno_artifacts : Artifacts :=
  {| list_artifacts := PluginSuno.listArtifacts; content_request := PluginSuno.buildContentRequest;
     addressable := λ ctx, NoDup (song_keys (PluginSuno.artifactData ctx)) |}.

Lemma suno_data_of ctx task : ctx~>"data" = task~>"data" → PluginSuno.artifactData ctx = PluginSuno.artifactData task.
Proof.
  assert (∀ v, or_array (js_and v v~>"data") = or_array v~>"data") as E.
  { intros v. unfold js_and. destruct (truthy v) eqn:T; [done|].
    destruct v as [| |[]|[]|[]| |]; try discriminate T; reflexivity. }
  intros Hd. unfold PluginSuno.artifactData. by rewrite !E, Hd.
Qed.

Lemma same_song songs song song' :
  NoDup (song_keys songs) → song ∈ songs → song' ∈ songs → PluginSuno.named song = true →
  PluginSuno.named song' = true → PluginSuno.artifactKey "audio" song = PluginSuno.artifactKey "audio" song' →
  song = song'.
Proof.
  unfold song_keys. intros Hn Hs Hs' Hk Hk' E.
  assert (song ∈ List.filter PluginSuno.named songs ∧ song' ∈ List.filter PluginSuno.named songs) as [A B].
  { rewrite !list_elem_of_In, !filter_In, <- !list_elem_of_In. done. }
  revert Hn A B. generalize (List.filter PluginSuno.named songs). intros l.
  induction l as [|x l IH]; intros Hn A B; [by apply not_elem_of_nil in A|].
  cbn in Hn. apply NoDup_cons in Hn as [Hx Hn]. apply elem_of_cons in A as [->|A], B as [->|B]; [done| | |by apply IH].
  - destruct Hx. rewrite E. apply list_elem_of_fmap. eauto.
  - destruct Hx. rewrite <- E. apply list_elem_of_fmap. eauto.
Qed.

(** The two kinds of keys differ, and within a kind the key is that of the id. *)
Lemma song_key_kinds song song' : PluginSuno.artifactKey "audio" song ≠ PluginSuno.artifactKey "cover" song'.
Proof.
  unfold PluginSuno.artifactKey. intros E. apply (f_equal (@head N)) in E.
  assert (Some (cu "a") = Some (cu "c")) as C by exact E. vm_compute in C. discriminate C.
Qed.
Lemma cover_key_audio song song' :
  PluginSuno.artifactKey "cover" song = PluginSuno.artifactKey "cover" song' →
  PluginSuno.artifactKey "audio" song = PluginSuno.artifactKey "audio" song'.
Proof. unfold PluginSuno.artifactKey. intros E. do 2 apply app_inv_head in E. by rewrite E. Qed.

Lemma owner_key key song :
  PluginSuno.owns_key (JStr key) song = true →
  PluginSuno.named song = true ∧
  (key = PluginSuno.artifactKey "audio" song ∨ key = PluginSuno.artifactKey "cover" song).
Proof.
  unfold PluginSuno.owns_key. cbn [strict_eq]. intros E. apply andb_true_iff in E as [E1 E2]. split; [done|].
  apply orb_true_iff in E2 as [E2|E2]; apply jseq_eq in E2; auto.
Qed.

Lemma find_owner songs key song :
  NoDup (song_keys songs) → song ∈ songs → PluginSuno.owns_key (JStr key) song = true →
  List.find (PluginSuno.owns_key (JStr key)) songs = Some song.
Proof.
  intros Hn Hs Ho. destruct (List.find _ songs) as [found|] eqn:F.
  - apply find_some in F as [Hf Hof]. apply list_elem_of_In in Hf. f_equal.
    destruct (owner_key _ _ Ho) as [N1 K1], (owner_key _ _ Hof) as [N2 K2].
    apply (same_song songs); [done..|].
    destruct K1 as [K1|K1], K2 as [K2|K2]; rewrite K1 in K2.
    + done.
    + by destruct (song_key_kinds _ _ K2).
    + symmetry in K2. by destruct (song_key_kinds _ _ K2).
    + by apply cover_key_audio.
  - apply list_elem_of_In in Hs. by rewrite (find_none _ _ F _ Hs) in Ho.
Qed.

#[export] Instance suno_serves : ArtifactsLaws suno_artifacts.
Proof.
  intros task items a ctx Hl Ha [Ho Hd Hk Hc] Haddr. cbn [list_artifacts content_request suno_artifacts addressable] in *.
  rewrite (suno_data_of _ _ Hd) in Haddr. unfold PluginSuno.listArtifacts in Hl. apply bind_Ok in Hl as (status & _ & Hl).
  injection Hl as <-. destruct (is_not status "SUCCESS"); [by apply not_elem_of_nil in Ha|].
  apply list_elem_of_In, in_flat_map in Ha as (song & Hs & Ha). apply list_elem_of_In in Hs.
  unfold PluginSuno.song_artifacts in Ha. destruct (PluginSuno.named song) eqn:N; [|done]. cbn [negb] in Ha.
  unfold PluginSuno.buildContentRequest, dot. rewrite Ho, Hk, (suno_data_of _ _ Hd). cbn [mbind result_bind].
  assert (∃ key, a~>"key" = JStr key ∧ PluginSuno.owns_key (JStr key) song = true ∧
    nonempty_text (PluginSuno.content_url (JStr key) song) = true) as (key & -> & Hown & Hurl).
  { apply in_app_or in Ha as [Ha|Ha].
    - destruct (nonempty_text (PluginSuno.audio_of song)) eqn:E; [|done]. destruct Ha as [<-|[]].
      eexists. split; [reflexivity|]. unfold PluginSuno.owns_key, PluginSuno.content_url. cbn [strict_eq].
      rewrite N, !jseq_refl. rewrite (proj2 (jseq_neq _ _)); [done|]. intros K. symmetry in K.
      by destruct (song_key_kinds _ _ K).
    - destruct (nonempty_text (PluginSuno.cover_of song)) eqn:E; [|done]. destruct Ha as [<-|[]].
      eexists. split; [reflexivity|]. unfold PluginSuno.owns_key, PluginSuno.content_url. cbn [strict_eq].
      by rewrite N, !jseq_refl, orb_true_r. }
  rewrite (find_owner _ _ song) by done. rewrite Hurl. by apply download_Ok.
Qed.

(** The images of a Doubao task are addressed by position. *)
Lemma nat_text_inj i j : nat_text i = nat_text j → i = j.
Proof. intros E. apply Nat2N.inj. rewrite <- (digits_value_N_text (N.of_nat i)), <- (digits_value_N_text (N.of_nat j)). by f_equal. Qed.

Lemma image_key_inj i j : Seedream.image_key i = Seedream.image_key j → i = j.
Proof. unfold Seedream.image_key. intros E%app_inv_head%nat_text_inj. lia. Qed.

Lemma keyed_entry_at items : ∀ index i item, items !! i = Some item →
  PluginDoubao.keyed_entry (JStr (Seedream.image_key (index + i))) index items = Some item.
Proof.
  induction items as [|x items IH]; intros index i item Hi; [done|]. cbn [PluginDoubao.keyed_entry strict_eq].
  destruct i as [|i].
  - injection Hi as ->. by rewrite Nat.add_0_r, jseq_refl.
  - rewrite (proj2 (jseq_neq _ _)); [|intros E%image_key_inj; lia].
    replace (index + S i) with (S index + i) by lia. by apply IH.
Qed.

Lemma image_address data i item :
  Seedream.imageURLEntries data !! i = Some item →
  PluginDoubao.artifact_address data (JStr (Seedream.image_key i)) = Seedream.trimmed item~>"url".
Proof.
  intros Hi. unfold PluginDoubao.artifact_address.
  change (starts_with (js "image-") (js_text (js_or (JStr (Seedream.image_key i)) (JStr [])))) with true. cbn iota.
  pose proof (keyed_entry_at _ 0 i item Hi) as E. cbn [Nat.add] in E. by rewrite E.
Qed.

Lemma image_artifact_address data a :
  a ∈ imap PluginDoubao.image_artifact (Seedream.imageURLEntries data) →
  nonempty_text (PluginDoubao.artifact_address data a~>"key") = true.
Proof.
  intros Ha. apply list_elem_of_lookup in Ha as (i & Hi). rewrite list_lookup_imap in Hi.
  destruct (Seedream.imageURLEntries data !! i) as [item|] eqn:E; [|done]. injection Hi as <-.
  change ((PluginDoubao.image_artifact i item)~>"key") with (JStr (Seedream.image_key i)).
  rewrite (image_address data i item E). apply list_elem_of_lookup_2, list_elem_of_In, filter_In in E. apply E.
Qed.

Lemma content_artifact_address data a :
  a ∈ PluginDoubao.content_artifacts (or_object data~>"content") →
  nonempty_text (PluginDoubao.artifact_address data a~>"key") = true.
Proof.
  unfold PluginDoubao.content_artifacts. intros Ha. apply elem_of_app in Ha as [Ha|Ha];
    destruct (nonempty_text _) eqn:E in Ha; try (by apply not_elem_of_nil in Ha);
    apply list_elem_of_singleton in Ha as ->; exact E.
Qed.

Definition doubao_artifacts : Artifacts :=
  {| list_artifacts := PluginDoubao.listArtifacts; content_request := PluginDoubao.buildContentRequest;
     addressable := λ _, True |}.
#[export] Instance doubao_serves : ArtifactsLaws doubao_artifacts.
Proof.
  intros task items a ctx Hl Ha [Ho Hd Hk Hc] _. cbn [list_artifacts content_request doubao_artifacts] in *.
  unfold PluginDoubao.listArtifacts in Hl. apply bind_Ok in Hl as (status & _ & [= <-]).
  unfold PluginDoubao.buildContentRequest, dot, Seedream.artifactData in *.
  rewrite Ho, Hk, (artifact_data_of _ _ Hd). cbn [mbind result_bind].
  set (data := artifact_data task) in *.
  assert (nonempty_text (PluginDoubao.artifact_address data a~>"key") = true) as E; [|rewrite E; by apply download_Ok].
  destruct (is_not status "SUCCESS"); [by apply not_elem_of_nil in Ha|].
  destruct (Seedream.imageTask task || is_array data~>"data").
  - by apply image_artifact_address.
  - by apply content_artifact_address.
Qed.

(** The local plugin serves a snapshot of a Videos task with the credentials
    of the channel, whatever key is asked for; such a snapshot holds no images. *)
Definition local_artifacts : Artifacts :=
  {| list_artifacts := LocalDoubao.listArtifacts; content_request := LocalDoubao.buildContentRequest;
     addressable := λ ctx, LocalDoubao.isOpenAIVideosSnapshot (artifact_data ctx) = true →
                           Seedream.imageURLEntries (artifact_data ctx) = [] |}.
#[export] Instance local_serves : ArtifactsLaws local_artifacts.
Proof.
  intros task items a ctx Hl Ha [Ho Hd Hk Hc] Haddr. cbn [list_artifacts content_request local_artifacts addressable] in *.
  unfold LocalDoubao.listArtifacts in Hl. apply bind_Ok in Hl as (status & _ & [= <-]).
  unfold LocalDoubao.buildContentRequest, PluginDoubao.buildContentRequest, dot, Seedream.artifactData in *.
  rewrite Ho, Hk, Hc, (artifact_data_of _ _ Hd) in *. cbn [mbind result_bind].
  set (data := artifact_data task) in *. destruct (is_not status "SUCCESS"); [by apply not_elem_of_nil in Ha|].
  destruct (LocalDoubao.isOpenAIVideosSnapshot data) eqn:S.
  - assert (nonempty_text (LocalDoubao.videosContentURL data) = true) as E.
    { destruct (Seedream.imageTask task || is_array data~>"data").
      - rewrite (Haddr eq_refl) in Ha. by apply not_elem_of_nil in Ha.
      - destruct (nonempty_text (LocalDoubao.videosContentURL data)); [done|by apply not_elem_of_nil in Ha]. }
    rewrite E. eexists. split; [reflexivity|]. split; [|done]. by destruct (LocalDoubao.videosContentURL data).
  - assert (nonempty_text (PluginDoubao.artifact_address data a~>"key") = true) as E; [|rewrite E; by apply download_Ok].
    destruct (Seedream.imageTask task || is_array data~>"data");
      [by apply image_artifact_address|by apply content_artifact_address].
Qed.

Lemma Ok_JArr a b : @Ok thrown jsval (JArr a) = Ok (JArr b) → a = b.
Proof. by intros [=]. Qed.

(** The images of an Alibaba task are addressed by position; none has an
    empty address. *)
Lemma pictures_present content : Forall (λ s, nonempty_text s = true) (AlibabaImages.pictures content) →
  ∀ part, Forall (λ s, nonempty_text s = true) (AlibabaImages.pictures (AlibabaImages.content_part part ++ content)).
Proof.
  intros F part. unfold AlibabaImages.content_part. destruct (part~>"image") as [| | | |[|c s]| |]; cbn;
    try (destruct (part~>"text"); done). by apply Forall_cons.
Qed.

Lemma result_pictures result : Forall (λ s, nonempty_text s = true) (AlibabaImages.pictures (AlibabaImages.result_part result)).
Proof. unfold AlibabaImages.result_part. destruct (result~>"url") as [| | | |[|c s]| |]; cbn; try done. by apply Forall_cons. Qed.

Lemma pictures_flat {A} (f : A → list AlibabaImages.image_part) l :
  AlibabaImages.pictures (flat_map f l) = flat_map (AlibabaImages.pictures ∘ f) l.
Proof.
  unfold AlibabaImages.pictures. induction l as [|x l IH]; [done|]. cbn [flat_map]. by rewrite flat_map_app, IH.
Qed.

Lemma delivered_present body : Forall (λ s, nonempty_text s = true) (AlibabaImages.pictures (AlibabaImages.imageContent body)).
Proof.
  unfold AlibabaImages.imageContent, AlibabaImages.pictures. rewrite flat_map_app.
  fold (AlibabaImages.pictures (flat_map AlibabaImages.result_part (AlibabaImages.array_or_empty (or_object (js_and body body~>"output"))~>"results"))).
  fold (AlibabaImages.pictures (flat_map AlibabaImages.choice_parts (AlibabaImages.array_or_empty (or_object (js_and body body~>"output"))~>"choices"))).
  rewrite !pictures_flat. apply Forall_app. split; apply Forall_flat_map, Forall_forall; intros x _; [apply result_pictures|].
  unfold compose, AlibabaImages.choice_parts. rewrite pictures_flat. apply Forall_flat_map, Forall_forall. intros part _.
  pose proof (pictures_present [] (Forall_nil_2 _) part) as F. by rewrite app_nil_r in F.
Qed.

Lemma keyed_image_at images : ∀ index i image, images !! i = Some image →
  PluginAlibaba.keyed_image (JStr (PluginAlibaba.image_key (index + i))) index images = image.
Proof.
  induction images as [|x images IH]; intros index i image Hi; [done|]. cbn [PluginAlibaba.keyed_image strict_eq].
  destruct i as [|i].
  - injection Hi as ->. by rewrite Nat.add_0_r, jseq_refl.
  - rewrite (proj2 (jseq_neq _ _)); [|intros E%app_inv_head%nat_text_inj; lia].
    replace (index + S i) with (S index + i) by lia. by apply IH.
Qed.

Definition alibaba_artifacts : Artifacts :=
  {| list_artifacts := PluginAlibaba.listArtifacts; content_request := PluginAlibaba.buildContentRequest;
     addressable := λ _, True |}.
#[export] Instance alibaba_serves : ArtifactsLaws alibaba_artifacts.
Proof.
  intros task items a ctx Hl Ha [Ho Hd Hk Hc] _. cbn [list_artifacts content_request alibaba_artifacts] in *.
  unfold PluginAlibaba.listArtifacts in Hl. apply bind_Ok in Hl as (status & _ & Hl).
  unfold PluginAlibaba.buildContentRequest, dot, PluginAlibaba.artifactData in *.
  rewrite Ho, Hk, (artifact_data_of _ _ Hd). cbn [mbind result_bind]. set (data := artifact_data task) in *.
  destruct (is_not status "SUCCESS"); [injection Hl as <-; by apply not_elem_of_nil in Ha|].
  pose proof (delivered_present data) as P. destruct (AlibabaImages.pictures _) as [|image images] eqn:I; apply Ok_JArr in Hl as <-.
  - destruct (nonempty_text (PluginAlibaba.videoURL data)) eqn:E; [|by apply not_elem_of_nil in Ha].
    apply list_elem_of_singleton in Ha as ->. change (equals video_artifact~>"key" "video") with true. cbn iota.
    rewrite E. by apply download_Ok.
  - apply list_elem_of_lookup in Ha as (i & Hi). rewrite list_lookup_imap in Hi.
    destruct ((image :: images) !! i) as [u|] eqn:E; [|done]. injection Hi as <-.
    change ((PluginAlibaba.image_artifact i u)~>"key") with (JStr (PluginAlibaba.image_key i)).
    change (equals (JStr (PluginAlibaba.image_key i)) "video") with false. cbn iota.
    pose proof (keyed_image_at _ 0 i u E) as K. cbn [Nat.add] in K. rewrite K.
    pose proof (proj1 (Forall_lookup _ _) P i u E) as N. cbn beta in N. rewrite N. by apply download_Ok.
Qed.

Definition artifact_plugins : list Artifacts :=
  [sora_artifacts; kling_artifacts; vidu_artifacts; google_artifacts; jimeng_artifacts; hailuo_artifacts;
   suno_artifacts; doubao_artifacts; local_artifacts; alibaba_artifacts].

Lemma artifact_plugins_lawful : Forall ArtifactsLaws artifact_plugins.
Proof. repeat (apply Forall_cons; split; [apply _|]). by apply Forall_nil. Qed.

(** ** Polling *)

(** The statuses a task of the gateway can have. *)
Definition known_statuses : list jsstr :=
  [js "SUBMITTED"; js "QUEUED"; js "IN_PROGRESS"; js "SUCCESS"; js "FAILURE"].
Definition host_statuses : list jsstr := js "UNKNOWN" :: known_statuses.

Lemma known_host s : s ∈ known_statuses → s ∈ host_statuses ∧ s ≠ js "UNKNOWN".
Proof.
  intros Hs. split; [by right|]. intros ->. apply str_in_elem in Hs. vm_compute in Hs. discriminate Hs.
Qed.

(** A result of a poll: a status, with a reason when the task failed or its
    status is not understood. *)
Definition poll_result (r : jsval) : Prop :=
  ∃ status, r~>"status" = JStr status ∧ status ∈ host_statuses ∧
    (status = js "FAILURE" ∨ status = js "UNKNOWN" → is_defined r~>"reason" = true).

Class Polling : Type := parse_result : jsval → jsval → JS jsval.
Class PollingLaws (P : Polling) : Prop := polls ctx body r : parse_result ctx body = Ok r → poll_result r.

(** A table from the provider's statuses to those of the gateway. *)
Definition status_table (t : obj) : bool :=
  forallb (λ kv, match kv.2 with JStr s => str_in s known_statuses | _ => false end) t.

Lemma table_status t v : status_table t = true → truthy (table_get t v) = true →
  ∃ s, table_get t v = JStr s ∧ s ∈ known_statuses.
Proof.
  unfold table_get, status_table. cbn [get]. intros Ht. destruct (own t (js_text v)) as [x|] eqn:E; [|done].
  intros _. apply own_Some_elem in E. rewrite forallb_forall in Ht.
  specialize (Ht _ (proj1 (list_elem_of_In _ _) E)). cbn in Ht |- *. destruct x; try done.
  eexists. split; [done|]. by apply str_in_elem.
Qed.

Lemma poll_result_intro r status :
  r~>"status" = JStr status → str_in status host_statuses = true →
  (status = js "FAILURE" ∨ status = js "UNKNOWN" → is_defined r~>"reason" = true) → poll_result r.
Proof. intros. exists status. conjs; [done| |done]. by apply str_in_elem. Qed.

(** A status that needs no reason. *)
Lemma plain_result s v :
  str_in (js s) known_statuses = true → v~>"status" = str s → str_in (js s) [js "FAILURE"] = false → poll_result v.
Proof.
  intros Hs Hv Hf. apply (poll_result_intro _ (js s)); [done|by apply str_in_elem, known_host, str_in_elem|].
  intros [E|E]; [by rewrite E in Hf|by rewrite E in Hs].
Qed.

Lemma js_or_defined v s : is_defined (js_or v (JStr s)) = true.
Proof. unfold js_or. destruct (truthy v) eqn:T; [|done]. by destruct v. Qed.

Lemma is_defined_truthy v : truthy v = true → is_defined v = true.
Proof. by destruct v. Qed.

#[export] Instance sora_polls : PollingLaws PluginSora.parseTaskResult.
Proof.
  intros ctx body r Hr. unfold parse_result, PluginSora.parseTaskResult in Hr. apply bind_Ok in Hr as (status & _ & [= <-]).
  set (mapped := table_get PluginSora.statuses status). set (s := js_or mapped (str "UNKNOWN")).
  assert (∃ t, s = JStr t ∧ t ∈ host_statuses ∧ (t = js "UNKNOWN" → truthy mapped = false)) as (t & Es & Ht & Hu).
  { unfold s, js_or. destruct (truthy mapped) eqn:T; [|by eexists; conjs; [|apply str_in_elem|]].
    destruct (table_status PluginSora.statuses status eq_refl T) as (t & E & [Ht Hn]%known_host).
    exists t. by rewrite <- E. }
  exists t. rewrite !get_put_if_other by keys. conjs; [by rewrite <- Es|done|]. intros Hf. unfold put_if at 1.
  destruct (equals s "FAILURE") eqn:F.
  - rewrite get_put_same. destruct (truthy body~>"error" && truthy (body~>"error")~>"message") eqn:B; [|done].
    apply andb_true_iff in B as [_ B]. by apply is_defined_truthy.
  - rewrite Es in F. destruct Hf as [->| ->]; [by vm_compute in F|].
    rewrite get_put_if_other by keys. by rewrite (Hu eq_refl).
Qed.

#[export] Instance kling_polls : PollingLaws PluginKling.parseTaskResult.
Proof.
  intros ctx body r Hr. unfold parse_result, PluginKling.parseTaskResult in Hr. apply bind_Ok in Hr as (data & _ & Hr).
  set (status := table_get PluginKling.statuses _) in Hr. destruct (truthy status) eqn:T; cbn [negb] in Hr.
  - destruct (table_status PluginKling.statuses _ eq_refl T) as (t & E & [Ht Hn]%known_host). apply bind_Ok in Hr as (url & _ & [= <-]).
    exists t. rewrite !get_put_if_other by keys. conjs; [exact E|done|]. intros _. apply js_or_defined.
  - injection Hr as <-. by apply (poll_result_intro _ (js "UNKNOWN")).
Qed.

#[export] Instance vidu_polls : PollingLaws PluginVidu.parseTaskResult.
Proof.
  intros ctx body r Hr. unfold parse_result, PluginVidu.parseTaskResult in Hr. apply bind_Ok in Hr as (state & _ & Hr).
  set (status := table_get PluginVidu.statuses _) in Hr. destruct (truthy status) eqn:T; cbn [negb] in Hr.
  - destruct (table_status PluginVidu.statuses _ eq_refl T) as (t & E & [Ht Hn]%known_host). apply bind_Ok in Hr as (url & _ & [= <-]).
    exists t. rewrite !get_put_if_other by keys. conjs; [exact E|done|]. intros _.
    change (is_defined (if equals state "failed" then js_or body~>"err_code" (JStr []) else JStr []) = true).
    destruct (equals state "failed"); [apply js_or_defined|done].
  - injection Hr as <-. by apply (poll_result_intro _ (js "UNKNOWN")).
Qed.

#[export] Instance google_polls : PollingLaws PluginGoogle.parseTaskResult.
Proof.
  intros ctx body r Hr. unfold parse_result, PluginGoogle.parseTaskResult in Hr. apply bind_Ok in Hr as (error & _ & Hr).
  destruct (truthy error && _) eqn:E.
  { injection Hr as <-. apply (poll_result_intro _ (js "FAILURE")); [done..|]. intros _.
    apply andb_true_iff in E as [_ E]. by apply is_defined_truthy. }
  destruct (_ || _); [injection Hr as <-; by apply (poll_result_intro _ (js "UNKNOWN"))|].
  destruct (negb _); [injection Hr as <-|apply bind_Ok in Hr as (uri & _ & [= <-])].
  - apply (poll_result_intro _ (js "IN_PROGRESS")); [done..|]. intros [E'|E']; vm_compute in E'; discriminate E'.
  - apply (poll_result_intro _ (js "SUCCESS")); [done..|]. intros [E'|E']; vm_compute in E'; discriminate E'.
Qed.

#[export] Instance vertex_polls : PollingLaws PluginVertex.parseTaskResult.
Proof.
  intros ctx body r Hr. unfold parse_result, PluginVertex.parseTaskResult in Hr. apply bind_Ok in Hr as (error & _ & Hr).
  destruct (truthy error && _) eqn:E.
  { injection Hr as <-. apply (poll_result_intro _ (js "FAILURE")); [done..|]. intros _.
    apply andb_true_iff in E as [_ E]. by apply is_defined_truthy. }
  destruct (_ || _); [injection Hr as <-; by apply (poll_result_intro _ (js "UNKNOWN"))|].
  destruct (negb _); injection Hr as <-.
  - apply (poll_result_intro _ (js "IN_PROGRESS")); [done..|]. intros [E'|E']; vm_compute in E'; discriminate E'.
  - apply (poll_result_intro _ (js "SUCCESS")); [done..|]. intros [E'|E']; vm_compute in E'; discriminate E'.
Qed.

#[export] Instance jimeng_polls : PollingLaws PluginJimeng.parseTaskResult.
Proof.
  intros ctx body r Hr. unfold parse_result, PluginJimeng.parseTaskResult in Hr. apply bind_Ok in Hr as (data & _ & Hr).
  destruct (negb _); [injection Hr as <-; apply (poll_result_intro _ (js "FAILURE")); [done..|]; intros _;
    apply js_or_defined|].
  assert (∀ s p d, str_in (js s) host_statuses = true → poll_result (PluginJimeng.polled s p d)) as P.
  { intros s p d Hs. apply (poll_result_intro _ (js s)); unfold PluginJimeng.polled; rewrite ?get_put_if_other by keys; done. }
  destruct (equals _ "in_queue"); [injection Hr as <-; by apply P|].
  destruct (equals _ "done"); injection Hr as <-; [by apply P|]. by apply (poll_result_intro _ (js "UNKNOWN")).
Qed.

#[export] Instance hailuo_polls : PollingLaws PluginHailuo.parseTaskResult.
Proof.
  intros ctx body r Hr. unfold parse_result, PluginHailuo.parseTaskResult in Hr.
  destruct (PluginHailuo.h3APIError body) as [[message code]|].
  { destruct (PluginHailuo.transient code); [done|]. injection Hr as <-. by apply (poll_result_intro _ (js "FAILURE")). }
  destruct (truthy _); [injection Hr as <-|apply bind_Ok in Hr as (? & _ & [= <-])].
  - unfold PluginHailuo.h3_result. set (task := PluginHailuo.h3QueryTask body).
    set (status := table_get PluginHailuo.h3Statuses _). destruct (truthy status) eqn:T; cbn [negb].
    + destruct (table_status PluginHailuo.h3Statuses _ eq_refl T) as (t & E & [Ht Hn]%known_host). exists t.
      rewrite !get_put_if_other by keys. conjs; [exact E|done|]. intros [->| ->].
      * unfold put_if at 1. unfold status. rewrite E. change (equals (JStr (js "FAILURE")) "FAILURE") with true.
        cbn iota. by rewrite get_put_same.
      * done.
    + by apply (poll_result_intro _ (js "UNKNOWN")).
  - unfold PluginHailuo.flat_result. destruct (_ && _).
    { apply (poll_result_intro _ (js "FAILURE")); [done..|]. intros _. apply js_or_defined. }
    set (status := table_get PluginHailuo.statuses _). destruct (truthy status) eqn:T; cbn [negb].
    + destruct (table_status PluginHailuo.statuses _ eq_refl T) as (t & E & [Ht Hn]%known_host). exists t.
      conjs; [exact E|done|]. intros _.
      change (is_defined (if equals status "FAILURE" then str "task failed" else JStr []) = true).
      by destruct (equals status "FAILURE").
    + by apply (poll_result_intro _ (js "UNKNOWN")).
Qed.

#[export] Instance doubao_polls : PollingLaws PluginDoubao.parseTaskResult.
Proof.
  intros ctx body r Hr. unfold parse_result, PluginDoubao.parseTaskResult in Hr. apply bind_Ok in Hr as (status & _ & [= <-]).
  destruct (one_of status _); [by apply (plain_result "QUEUED"%string)|].
  destruct (one_of status _); [by apply (plain_result "IN_PROGRESS"%string)|].
  destruct (equals status "succeeded").
  { apply (plain_result "SUCCESS"%string); [done| |done]. unfold PluginDoubao.succeeded, PluginDoubao.put_count.
    by rewrite !get_put_if_other by keys. }
  destruct (one_of status _) eqn:F.
  - apply (poll_result_intro _ (js "FAILURE")); [done..|]. intros _. cbn -[truthy get].
    change (is_defined (if truthy body~>"error" && truthy (body~>"error")~>"message"
                        then (body~>"error")~>"message" else status) = true).
    destruct (_ && _) eqn:E; [apply andb_true_iff in E as [_ E]; by apply is_defined_truthy|]. by destruct status.
  - by apply (poll_result_intro _ (js "UNKNOWN")).
Qed.

#[export] Instance local_polls : PollingLaws LocalDoubao.parseTaskResult.
Proof.
  intros ctx body r Hr. unfold parse_result, LocalDoubao.parseTaskResult in Hr. apply bind_Ok in Hr as (u & _ & Hr).
  destruct u; [by apply (doubao_polls ctx body)|]. injection Hr as <-. unfold LocalDoubao.parseVideosTaskResult.
  destruct (negb _); [by apply (poll_result_intro _ (js "UNKNOWN"))|].
  destruct (str_in _ _); [by apply (plain_result "QUEUED"%string)|]. destruct (str_in _ _); [by apply (plain_result "IN_PROGRESS"%string)|].
  destruct (str_in _ _).
  { apply (plain_result "SUCCESS"%string); [done| |done]. unfold LocalDoubao.completed_result, LocalDoubao.put_text.
    rewrite !get_put_if_other by keys. rewrite get_put_other by keys. by rewrite get_put_if_other by keys. }
  destruct (str_in _ _).
  { apply (poll_result_intro _ (js "FAILURE")); [done..|]. intros _. unfold LocalDoubao.failed_result.
    change ((JObj ["status" ↦ ?a; "progress" ↦ ?b; "reason" ↦ ?v])~>"reason") with v.
    destruct (_ && _) eqn:E; [|done]. apply andb_true_iff in E as [_ E]. by apply is_defined_truthy. }
  destruct (str_in _ _); [by apply (poll_result_intro _ (js "FAILURE"))|].
  destruct (jseq _ _); [by apply (poll_result_intro _ (js "FAILURE"))|by apply (poll_result_intro _ (js "UNKNOWN"))].
Qed.

#[export] Instance alibaba_polls : PollingLaws PluginAlibaba.parseTaskResult.
Proof.
  intros ctx body r Hr. unfold parse_result, PluginAlibaba.parseTaskResult in Hr. apply bind_Ok in Hr as (output & _ & Hr).
  destruct (equals _ _); [injection Hr as <-; by apply (plain_result "QUEUED"%string)|].
  destruct (equals _ _); [injection Hr as <-; by apply (plain_result "IN_PROGRESS"%string)|].
  destruct (equals _ _).
  { apply bind_Ok in Hr as (image & _ & [= <-]). destruct image as [k|]; [|by apply (plain_result "SUCCESS"%string)].
    unfold PluginAlibaba.images_done. destruct (AlibabaImages.pictures _); [|by apply (plain_result "SUCCESS"%string)].
    destruct (_ && _); [by apply (plain_result "SUCCESS"%string)|by apply (poll_result_intro _ (js "FAILURE"))]. }
  destruct (one_of _ _); injection Hr as <-; [|by apply (poll_result_intro _ (js "UNKNOWN"))].
  apply (poll_result_intro _ (js "FAILURE")); [done..|]. intros _.
  change (is_defined (PluginAlibaba.failure_reason body (or_object output)) = true). unfold PluginAlibaba.failure_reason.
  destruct (truthy body~>"message") eqn:T; [by apply is_defined_truthy|].
  by destruct (truthy (or_object output)~>"message").
Qed.

Definition polling_plugins : list Polling :=
  [PluginSora.parseTaskResult; PluginKling.parseTaskResult; PluginVidu.parseTaskResult; PluginGoogle.parseTaskResult;
   PluginVertex.parseTaskResult; PluginJimeng.parseTaskResult; PluginHailuo.parseTaskResult;
   PluginDoubao.parseTaskResult; LocalDoubao.parseTaskResult; PluginAlibaba.parseTaskResult].

Lemma polling_plugins_lawful : Forall PollingLaws polling_plugins.
Proof. repeat (apply Forall_cons; split; [apply _|]). by apply Forall_nil. Qed.
End interfaces.
