(* ===== verification/PluginTheorems.v ===== *)
(** * Properties of the task plugins

    The theorems about the plugins, each with an input it applies to, and the
    places where what is billed is not what is sent. *)
From stdpp Require Import base list option numbers sets.
From Stdlib Require Import ZArith SpecFloat Lia.
From S2P Require Import Prelude.
From S2P Require Import JsString.
From S2P Require Import JsNumber.
From S2P Require Import Syntax.
From S2P Require Import Runtime.
From S2P Require Import Display.
From S2P Require Import Json.
From S2P Require Import JsText.
From S2P Require Import JsonPrint.
From S2P Require Import AdvancedCustom.
From S2P Require Import JsDynamic.
From S2P Require Import PluginCommon.

From S2P Require Import PriceTableFacts.
From S2P Require Import PluginUsage.
From S2P Require Import PluginBilling.
From S2P Require Import PluginVideoFacts.
From S2P Require Import PluginInterfaces.
From S2P Require PluginSora.
From S2P Require PluginKling.
From S2P Require PluginVidu.
From S2P Require PluginGoogle.
From S2P Require PluginVertex.
From S2P Require PluginJimeng.
From S2P Require PluginHailuo.
From S2P Require PluginSuno.

(** ** A host *)

(** Case conversion of ASCII text, and utilities that show their arguments. *)
Definition plain_host : Host := {| to_lower_case := map ascii_low; date_time_format := λ _, None |}.
Definition plain_tasks : TaskHost :=
  {| to_upper_case := map ascii_up; unixNow := nZ 1700000000; jwtSignHS256 := λ _ secret, Ok secret;
     hmacSHA256 := λ message _, message; base64URL := id; base64URLDecode := λ s, Ok s;
     volcSignV4 := λ _, Ok (JObj []) |}.
Definition plain_laws : @TaskHostLaws plain_host plain_tasks.
Proof. by constructor. Defined.

(** The context of a decoding, and of the submission that follows. *)
Definition video_context (model : string) (request : obj) : jsval :=
  JObj ["model" ↦ str model; "upstreamModel" ↦ str model; "apiKey" ↦ str "sk-key"; "baseUrl" ↦ str "https://api.example";
        "body" ↦ JObj ["kind" ↦ str "json"; "value" ↦ JObj request]].
Arguments video_context model%_string request.
Definition submission_context (model : string) (decoded : jsval) : jsval :=
  JObj ["model" ↦ str model; "upstreamModel" ↦ str model; "apiKey" ↦ str "sk-key"; "baseUrl" ↦ str "https://api.example";
        "usagePurpose" ↦ str "facts"; "action" ↦ decoded~>"action"; "requestBody" ↦ decoded~>"requestBody"].
Arguments submission_context model%_string decoded.

Lemma plain_submission model request decoded :
  submission_of (video_context model request) decoded (submission_context model decoded).
Proof. by constructor. Qed.

Definition ok_or_null (r : JS jsval) : jsval := match r with Ok v => v | Err _ => JNull end.

(** ** Billing *)

(** For a video request the Vidu plugin accepts, the usage is one the
    gateway bills, the submission is built, and the duration and the
    resolution that are billed are those of the request sent, except for what
    the metadata of the request lay over it. *)
Theorem vidu_bills_what_it_sends {H : Host} {U : TaskHost} {L : TaskHostLaws} ctx r sub up :
  PluginVidu.video_decodeRequest ctx = Ok r → submission_of ctx r sub →
  ctx~>"upstreamModel" = JStr up → nonempty_text up = true →
  let metadata := or_object (r~>"requestBody")~>"metadata" in
  ∃ facts request n res, PluginVidu.extractUsage sub = Ok (Some facts) ∧
    usage_valid PluginVidu.usageSchema facts = true ∧
    facts = ["duration" ↦ JNum n; "resolution" ↦ JStr res] ∧
    PluginVidu.buildSubmitRequest sub = Ok request ∧
    (overrides metadata (js "duration") = false → (request~>"body")~>"duration" = JNum n) ∧
    (overrides metadata (js "resolution") = false → (request~>"body")~>"resolution" = JStr res).
Proof. apply Vidu.vidu_billed. Qed.

Definition vidu_request : jsval :=
  video_context "viduq2" ["prompt" ↦ str "a fox"; "seconds" ↦ int 8; "size" ↦ str "1920x1080"].
Definition vidu_decoded : jsval := ok_or_null (@PluginVidu.video_decodeRequest plain_host vidu_request).

Lemma vidu_bills_what_it_sends_witness :
  ∃ facts request n res,
    @PluginVidu.extractUsage plain_host (submission_context "viduq2" vidu_decoded) = Ok (Some facts) ∧
    facts = ["duration" ↦ JNum n; "resolution" ↦ JStr res] ∧
    @PluginVidu.buildSubmitRequest plain_host (submission_context "viduq2" vidu_decoded) = Ok request ∧
    (request~>"body")~>"duration" = JNum n ∧ (request~>"body")~>"resolution" = JStr res.
Proof.
  destruct (@vidu_bills_what_it_sends plain_host plain_tasks plain_laws vidu_request vidu_decoded
    (submission_context "viduq2" vidu_decoded) (js "viduq2")) as (f & q & n & res & H1 & _ & H2 & H3 & H4 & H5);
    [vm_compute; reflexivity|apply plain_submission|reflexivity|reflexivity|].
  exists f, q, n, res. conjs; [exact H1|exact H2|exact H3|apply H4; vm_compute; reflexivity|apply H5; vm_compute; reflexivity].
Defined.

(** For a video request the Kling plugin accepts, whose metadata name no
    mode, the submission is built and the units that are billed are those of
    the mode that is sent, for the duration that is sent unless the metadata
    lay another one over it. *)
Theorem kling_bills_what_it_sends {H : Host} {U : TaskHost} {L : TaskHostLaws} ctx r sub up token :
  PluginKling.video_decodeRequest ctx = Ok r → submission_of ctx r sub →
  ctx~>"upstreamModel" = JStr up → nonempty_text up = true → PluginKling.tokenFor sub = Ok token →
  let metadata := or_object (r~>"requestBody")~>"metadata" in
  overrides metadata (js "mode") = false →
  ∃ request n mode, billable n = true ∧ Kling.mode_of (JStr up) mode ∧
    PluginKling.extractUsage sub = Ok (Some ["units" ↦ JNum (PluginKling.estimateUnits (JStr up) mode n)]) ∧
    PluginKling.buildSubmitRequest sub = Ok request ∧ (request~>"body")~>"mode" = JStr mode ∧
    (overrides metadata (js "duration") = false →
     (request~>"body")~>"duration" = JStr (number_to_string n)).
Proof. apply Kling.kling_billed. Qed.

Definition kling_request : jsval :=
  video_context "kling-v1-6" ["prompt" ↦ str "a fox"; "seconds" ↦ int 10; "mode" ↦ str "Pro"].
Definition kling_decoded : jsval := ok_or_null (@PluginKling.video_decodeRequest plain_host kling_request).

Lemma kling_bills_what_it_sends_witness :
  ∃ request n mode,
    @PluginKling.extractUsage plain_host (submission_context "kling-v1-6" kling_decoded) =
      Ok (Some ["units" ↦ JNum (PluginKling.estimateUnits (str "kling-v1-6") mode n)]) ∧
    @PluginKling.buildSubmitRequest plain_host plain_tasks (submission_context "kling-v1-6" kling_decoded) = Ok request ∧
    (request~>"body")~>"mode" = JStr mode ∧ (request~>"body")~>"duration" = JStr (number_to_string n).
Proof.
  destruct (@kling_bills_what_it_sends plain_host plain_tasks plain_laws kling_request kling_decoded
    (submission_context "kling-v1-6" kling_decoded) (js "kling-v1-6") (js "sk-key"))
    as (q & n & mode & _ & _ & H1 & H2 & H3 & H4);
    [vm_compute; reflexivity|apply plain_submission|reflexivity|reflexivity|vm_compute; reflexivity
    |vm_compute; reflexivity|].
  exists q, n, mode. conjs; [exact H1|exact H2|exact H3|apply H4; vm_compute; reflexivity].
Defined.

(** For a video request the Google plugin accepts, 4, 6 or 8 seconds of a
    listed resolution are billed; they are the seconds and the resolution of
    the parameters that are sent, wherever the request gives any. *)
Theorem veo_bills_what_it_sends {H : Host} {U : TaskHost} {L : TaskHostLaws} ctx r sub fields :
  PluginGoogle.video_decodeRequest ctx = Ok r → submission_of ctx r sub →
  let req := r~>"requestBody" in
  or_object req~>"metadata" = JObj fields → keys_unique fields →
  (truthy (JObj fields)~>"resolution" = true → is_undefined req~>"resolution" = true) →
  ∃ n res, veo_seconds n ∧
    PluginGoogle.extractUsage sub = Ok ["seconds" ↦ JNum n; "resolution" ↦ JStr res] ∧
    usage_valid PluginGoogle.usageSchema ["seconds" ↦ JNum n; "resolution" ↦ JStr res] = true ∧
    (is_defined req~>"duration" = true → (JObj (PluginGoogle.parameters req))~>"durationSeconds" = JNum n) ∧
    (truthy (JObj fields)~>"resolution" || truthy req~>"size" = true →
     (JObj (PluginGoogle.parameters req))~>"resolution" = JStr res).
Proof. apply google_billed. Qed.

Definition veo_request : jsval :=
  video_context "veo-3.0-generate-001"
    ["prompt" ↦ str "a fox"; "seconds" ↦ str "6"; "metadata" ↦ JObj ["resolution" ↦ str "1080P"]].
Definition veo_decoded : jsval := ok_or_null (@PluginGoogle.video_decodeRequest plain_host veo_request).

Lemma veo_bills_what_it_sends_witness :
  ∃ n res,
    @PluginGoogle.extractUsage plain_host (submission_context "veo-3.0-generate-001" veo_decoded) =
      Ok ["seconds" ↦ JNum n; "resolution" ↦ JStr res] ∧
    (JObj (@PluginGoogle.parameters plain_host veo_decoded~>"requestBody"))~>"durationSeconds" = JNum n ∧
    (JObj (@PluginGoogle.parameters plain_host veo_decoded~>"requestBody"))~>"resolution" = JStr res.
Proof.
  destruct (@veo_bills_what_it_sends plain_host plain_tasks plain_laws veo_request veo_decoded
    (submission_context "veo-3.0-generate-001" veo_decoded) ["resolution" ↦ str "1080P"])
    as (n & res & _ & H1 & _ & H2 & H3);
    [vm_compute; reflexivity|apply plain_submission|vm_compute; reflexivity|apply NoDup_singleton
    |intros _; vm_compute; reflexivity|].
  exists n, res. conjs; [exact H1|apply H2; vm_compute; reflexivity|apply H3; vm_compute; reflexivity].
Defined.

(** C29: whatever the Hailuo plugin submits to MiniMax-H3 is what it bills: the
    same content, duration and resolution, within the limits of the schema, of
    nine images and of fifteen seconds. *)
Theorem h3_bills_what_is_sent {U : TaskHost} ctx request :
  PluginHailuo.isH3 ctx~>"upstreamModel" = true → ctx~>"usagePurpose" = str "facts" →
  PluginHailuo.buildSubmitRequest ctx = Ok request →
  ∃ content n res, let body := request~>"body" in
    PluginHailuo.extractUsage ctx = Ok (Some (h3_usage n res content)) ∧
    usage_valid PluginHailuo.H3_USAGE_SCHEMA (h3_usage n res content) = true ∧
    body~>"content" = JArr content ∧ body~>"duration" = JNum n ∧ body~>"resolution" = JStr res ∧
    PluginHailuo.count_items "image_url" content ≤ PluginHailuo.H3_MAX_REFERENCE_IMAGES ∧ nleb n (nZ 15) = true.
Proof. apply h3_bills_what_it_sends. Qed.

Definition h3_context : jsval :=
  JObj ["upstreamModel" ↦ str "MiniMax-H3"; "usagePurpose" ↦ str "facts"; "apiKey" ↦ str "key";
        "baseUrl" ↦ str "https://api.example";
        "requestBody" ↦ JObj ["prompt" ↦ str "a fox"; "duration" ↦ int 8; "size" ↦ str "2k";
                              "images" ↦ JArr [str "https://example/fox.png"]]].

Lemma h3_bills_what_is_sent_witness :
  ∃ request content n res,
    @PluginHailuo.buildSubmitRequest plain_tasks h3_context = Ok request ∧
    @PluginHailuo.extractUsage plain_tasks h3_context = Ok (Some (h3_usage n res content)) ∧
    (request~>"body")~>"content" = JArr content ∧ (request~>"body")~>"duration" = JNum n.
Proof.
  destruct (@PluginHailuo.buildSubmitRequest plain_tasks h3_context) as [q|e] eqn:E;
    [|vm_compute in E; discriminate].
  destruct (@h3_bills_what_is_sent plain_tasks h3_context q) as (c & n & res & H1 & _ & H2 & H3 & _);
    [reflexivity|reflexivity|exact E|].
  exists q, c, n, res. conjs; [reflexivity|exact H1|exact H2|exact H3].
Defined.

(** The usage a provider reports for a finished MiniMax-H3 task is only
    taken inside the limits a submission has. *)
Theorem h3_settlement_is_bounded {U : TaskHost} task taskResult body facts :
  truthy (PluginHailuo.h3QueryTask body) = true →
  PluginHailuo.extractUsageOnComplete task taskResult body = Some facts →
  (∀ v, own facts (js "seconds") = Some v → in_bounds v 4 15) ∧
  (∀ v, own facts (js "input_images") = Some v → in_bounds v 0 9) ∧
  (∀ v, own facts (js "input_video_seconds") = Some v → in_bounds v 0 15) ∧
  (∀ v, own facts (js "resolution") = Some v → v = str "2K" ∨ v = str "768P").
Proof. apply completion_bounded. Qed.

Definition h3_answer : jsval :=
  JObj ["task" ↦ JObj ["status" ↦ str "succeeded"; "resolution" ↦ str "2k";
                       "usage" ↦ JObj ["output_seconds" ↦ int 8; "input_image_count" ↦ int 400]]].
Lemma h3_settlement_is_bounded_witness :
  ∃ facts v, @PluginHailuo.extractUsageOnComplete plain_tasks JNull JNull h3_answer = Some facts ∧
    own facts (js "seconds") = Some v ∧ in_bounds v 4 15 ∧ own facts (js "input_images") = None.
Proof.
  destruct (@PluginHailuo.extractUsageOnComplete plain_tasks JNull JNull h3_answer) as [facts|] eqn:E;
    [|vm_compute in E; discriminate].
  destruct (@h3_settlement_is_bounded plain_tasks JNull JNull h3_answer facts) as (H1 & _); [reflexivity|exact E|].
  exists facts, (int 8). vm_compute in E. injection E as <-.
  conjs; [reflexivity|reflexivity|apply H1; reflexivity|reflexivity].
Defined.

(** ** Events, artifacts and polls, for every plugin *)

(** C30: a client that streams a task of any plugin sees one progress event for
    every poll whose status or progress is new, in order, and then the events
    of the first final status; nothing is shown after it.  These are one event
    with the text of the result, or one with the error; the Alibaba plugin
    alone shows none for a result whose text is empty. *)
Theorem task_events_are_the_changes {H : Host} {U : TaskHost} :
  Forall (λ R : Rendering, ∀ ctx polls, Forall is_task polls →
    watch (render ctx) JNull polls =
    match closing polls with
    | Some t => es ← closing_events ctx t;
                Ok (map progress_event (changes None (running polls)) ++ es, true)
    | None => Ok (map progress_event (changes None (running polls)), false)
    end) renderings.
Proof.
  eapply Forall_impl; [apply renderings_lawful|]. intros R RL ctx polls Hp.
  apply (watch_events _ _ (RL ctx) polls None); done.
Qed.

(** Every artifact a plugin lists for a task can be fetched: asked for it
    by its key, with the data of the task, the plugin builds a request to a
    non-empty address with the method of the client, wherever the identifier
    in that address can be encoded. *)
Theorem listed_artifacts_are_served {H : Host} {U : TaskHost} :
  Forall (λ A : Artifacts, ∀ task items artifact ctx,
    list_artifacts task = Ok (JArr items) → artifact ∈ items → asks_for task artifact ctx → addressable ctx →
    ∃ request, content_request ctx = Ok request ∧ truthy request~>"url" = true ∧
      request~>"method" = (ctx~>"clientRequest")~>"method") artifact_plugins.
Proof. eapply Forall_impl; [apply artifact_plugins_lawful|]. intros A AL. apply AL. Qed.

(** Whatever a provider answers to a poll, a plugin that accepts the answer
    reports a status the gateway knows; a result with the status of a failure
    or one that is not understood has a [reason], which may be empty. *)
Theorem polled_status_is_known {H : Host} {U : TaskHost} :
  Forall (λ P : Polling, ∀ ctx body r, parse_result ctx body = Ok r → poll_result r) polling_plugins.
Proof. eapply Forall_impl; [apply polling_plugins_lawful|]. intros P PL. apply PL. Qed.

(** C31: the text that shows a video is one element whose one quoted attribute
    a browser reads back as the trimmed address of the video: nothing in the
    address closes the attribute or opens another element. *)
Theorem video_text_is_one_element ctx text :
  responses_video_text ctx = Ok text →
  ∃ written, text = quoted "<video controls src='" ++ written ++ quoted "'></video>" ∧
    Forall (λ c, markup c = false) written ∧
    attribute_value written = artifact_url ctx (js "video") ∧ nonempty_text (artifact_url ctx (js "video")) = true.
Proof.
  unfold responses_video_text. intros E. apply bind_Ok in E as (? & Hu%throw_if_Ok & [= <-]).
  eexists. conjs; [reflexivity|apply escape_no_markup|apply escape_round_trip|by apply negb_false_iff].
Qed.

Definition hostile_context : jsval :=
  JObj ["artifacts" ↦ JObj ["video" ↦ JObj ["url" ↦ JStr (quoted " https://a/?x=1&y='><script> ")]]].

Lemma video_text_is_one_element_witness :
  ∃ written,
    responses_video_text hostile_context =
      Ok (quoted "<video controls src='" ++ written ++ quoted "'></video>") ∧
    attribute_value written = quoted "https://a/?x=1&y='><script>".
Proof.
  destruct (responses_video_text hostile_context) as [t|] eqn:E; [|vm_compute in E; discriminate E].
  destruct (video_text_is_one_element hostile_context t E) as (w & Ht & _ & Hw & _).
  exists w. split; [by rewrite Ht|]. rewrite Hw. reflexivity.
Defined.

(** A Jimeng submission that names one of the tiered models is billed for
    the product of the key that is sent, and for the seconds its frames stand
    for when the metadata give no other number of frames. *)
Theorem jimeng_bills_what_it_sends {H : Host} {U : TaskHost} ctx req body count up :
  ctx~>"requestBody" = JObj req → PluginJimeng.submit_body ctx (JObj req) = Ok (body, count) →
  ctx~>"upstreamModel" = JStr up → ctx~>"usagePurpose" = str "facts" →
  let metadata := or_object (JObj req)~>"metadata" in
  let base := if is_nullish metadata~>"req_key" then JStr up else metadata~>"req_key" in
  (∃ key, base = JStr key ∧ key ∈ Jimeng.tier_keys) →
  ∃ seconds product key,
    PluginJimeng.extractUsage ctx = Ok (Some ["seconds" ↦ int seconds; "product" ↦ JStr product]) ∧
    own body (js "req_key") = Some (JStr key) ∧ product = PluginJimeng.productForReqKey key ∧
    (is_nullish metadata~>"frames" = true ∨ metadata~>"frames" = int 121 ∨ metadata~>"frames" = int 241 →
     own body (js "frames") = if PluginJimeng.isV3ReqKey (JStr key)
                              then Some (int (if (seconds =? 10)%Z then 241 else 121)) else None).
Proof.
  intros Hr Hs Hu Hp metadata base Hb. destruct (Jimeng.jimeng_billed _ _ _ _ _ Hr Hs Hu Hb) as (n & p & key & F).
  exists n, p, key. by apply F.
Qed.

Definition jimeng_submission (metadata : obj) : jsval :=
  JObj ["upstreamModel" ↦ str "jimeng_v30"; "usagePurpose" ↦ str "facts";
        "requestBody" ↦ JObj ["prompt" ↦ str "a fox"; "duration" ↦ int 10; "images" ↦ JArr [str "https://a/b.png"];
                              "metadata" ↦ JObj metadata]].
Definition jimeng_body (metadata : obj) : JS (obj * num) :=
  @PluginJimeng.submit_body plain_host (jimeng_submission metadata) (jimeng_submission metadata)~>"requestBody".

Lemma jimeng_bills_what_it_sends_witness :
  ∃ body count seconds product key, jimeng_body [] = Ok (body, count) ∧
    PluginJimeng.extractUsage (jimeng_submission []) =
      Ok (Some ["seconds" ↦ int seconds; "product" ↦ JStr product]) ∧
    own body (js "req_key") = Some (JStr key) ∧
    own body (js "frames") = if PluginJimeng.isV3ReqKey (JStr key)
                             then Some (int (if (seconds =? 10)%Z then 241 else 121)) else None.
Proof.
  destruct (jimeng_body []) as [[body count]|] eqn:E; [|vm_compute in E; discriminate E].
  destruct (@jimeng_bills_what_it_sends plain_host plain_tasks (jimeng_submission [])
    (match (jimeng_submission [])~>"requestBody" with JObj o => o | _ => [] end) body count (js "jimeng_v30"))
    as (n & p & key & H1 & H2 & H3 & H4); [reflexivity|exact E|reflexivity|reflexivity| |].
  { exists (js "jimeng_v30"). split; [reflexivity|]. apply str_in_elem. vm_compute. reflexivity. }
  exists body, count, n, p, key. conjs; [reflexivity|exact H1|exact H2|]. apply H4. left. reflexivity.
Defined.

(** A Sora submission decoded from a JSON request bills the seconds of the
    request, four where it names none, and the size that is sent; the usage is
    accepted by the gateway exactly when that size is a listed one. *)
Theorem sora_bills_what_it_sends {H : Host} {U : TaskHost} {L : TaskHostLaws} ctx r sub :
  (∀ v, (ctx~>"body")~>"value" = v → ∃ fields, v = JObj fields ∧ keys_unique fields) →
  PluginSora.video_decodeRequest ctx = Ok r → submission_of ctx r sub → equals sub~>"action" "remix" = false →
  let req := r~>"requestBody" in
  ∃ n size, PluginSora.extractUsage sub = Ok ["seconds" ↦ JNum n; "size" ↦ size] ∧ billable n = true ∧
    usage_valid PluginSora.usageSchema ["seconds" ↦ JNum n; "size" ↦ size] = one_of size PluginSora.sizes ∧
    n = (if is_undefined (requested_seconds req) then nZ 4 else to_number (requested_seconds req)) ∧
    ∀ request, PluginSora.buildSubmitRequest sub = Ok request → truthy sub~>"files" = false →
      requested_seconds (request~>"body") = requested_seconds req ∧
      js_or (request~>"body")~>"size" (str "720x1280") = size.
Proof. apply Sora.sora_billed. Qed.

Definition sora_request : jsval :=
  video_context "sora-2" ["prompt" ↦ str "a fox"; "seconds" ↦ str "12"; "size" ↦ str "1280x720"].
Definition sora_decoded : jsval := ok_or_null (PluginSora.video_decodeRequest sora_request).

Lemma sora_bills_what_it_sends_witness :
  ∃ n size,
    PluginSora.extractUsage (submission_context "sora-2" sora_decoded) = Ok ["seconds" ↦ JNum n; "size" ↦ size] ∧
    billable n = true ∧ n = to_number (requested_seconds sora_decoded~>"requestBody").
Proof.
  destruct (@sora_bills_what_it_sends plain_host plain_tasks plain_laws sora_request sora_decoded
    (submission_context "sora-2" sora_decoded)) as (n & size & H1 & H2 & _ & H3 & _);
    [|vm_compute; reflexivity|apply plain_submission|vm_compute; reflexivity|].
  { intros v <-. eexists. split; [reflexivity|]. apply (bool_decide_unpack _). vm_compute. reflexivity. }
  exists n, size. conjs; [exact H1|exact H2|exact H3].
Defined.

(** ** What is sent and not billed *)

(** A video request, decoded and then submitted. *)
Definition sent {A} (decode : jsval → JS jsval) (hook : jsval → JS A) (model : string) (request : obj) : JS A :=
  r ← decode (video_context model request); hook (submission_context model r).
Arguments sent {A} decode hook model%_string request.

(** Kling: a duration in the metadata is sent and not billed. *)
Example kling_duration_of_metadata :
  let request := ["prompt" ↦ str "a fox"; "seconds" ↦ int 5; "metadata" ↦ JObj ["duration" ↦ str "10"]] in
  (q ← sent (@PluginKling.video_decodeRequest plain_host) (@PluginKling.buildSubmitRequest plain_host plain_tasks)
         "kling-v1-6" request; Ok (q~>"body")~>"duration") = Ok (str "10") ∧
  sent (@PluginKling.video_decodeRequest plain_host) (@PluginKling.extractUsage plain_host) "kling-v1-6" request =
  sent (@PluginKling.video_decodeRequest plain_host) (@PluginKling.extractUsage plain_host) "kling-v1-6"
    ["prompt" ↦ str "a fox"; "seconds" ↦ int 5].
Proof. vm_compute. split; reflexivity. Qed.

(** Vidu: so are a duration and a resolution. *)
Example vidu_metadata_over_the_body :
  let request := ["prompt" ↦ str "a fox"; "seconds" ↦ int 4; "resolution" ↦ str "540p";
                  "metadata" ↦ JObj ["duration" ↦ int 8; "resolution" ↦ str "1080p"]] in
  (q ← sent (@PluginVidu.video_decodeRequest plain_host) (@PluginVidu.buildSubmitRequest plain_host)
         "viduq2" request; Ok ((q~>"body")~>"duration", (q~>"body")~>"resolution")) = Ok (int 8, str "1080p") ∧
  sent (@PluginVidu.video_decodeRequest plain_host) (@PluginVidu.extractUsage plain_host) "viduq2" request =
  Ok (Some ["duration" ↦ int 4; "resolution" ↦ str "540p"]).
Proof. vm_compute. split; reflexivity. Qed.

(** Jimeng: any number of frames is sent, five seconds are billed. *)
Example jimeng_frames_of_metadata :
  let sub := JObj ["upstreamModel" ↦ str "jimeng_v30"; "usagePurpose" ↦ str "facts";
                   "requestBody" ↦ JObj ["metadata" ↦ JObj ["frames" ↦ int 1000]]] in
  (b ← @PluginJimeng.submit_body plain_host sub sub~>"requestBody"; Ok (own b.1 (js "frames"))) =
    Ok (Some (int 1000)) ∧
  PluginJimeng.extractUsage sub = Ok (Some ["seconds" ↦ int 5; "product" ↦ str "v30_720p"]).
Proof. vm_compute. split; reflexivity. Qed.

(** Google: the image of a JSON video request is accepted and not sent. *)
Example google_image_is_dropped :
  let request := ["prompt" ↦ str "a fox"; "image" ↦ str "https://a/b.png"] in
  (r ← @PluginGoogle.video_decodeRequest plain_host (video_context "veo-3.0-generate-001" request);
   Ok r~>"action") = Ok (str "image_to_video") ∧
  (q ← sent (@PluginGoogle.video_decodeRequest plain_host) (@PluginGoogle.buildSubmitRequest plain_host)
         "veo-3.0-generate-001" request; Ok (q~>"action", (q~>"body")~>"instances")) =
    Ok (str "text_to_video", JArr [JObj ["prompt" ↦ str "a fox"]]).
Proof. vm_compute. split; reflexivity. Qed.

(** Sora: a size outside the schema is billed as it is. *)
Example sora_size_is_not_checked :
  (u ← sent PluginSora.video_decodeRequest PluginSora.extractUsage "sora-2"
         ["prompt" ↦ str "a fox"; "size" ↦ str "640x480"];
   Ok (u, usage_valid PluginSora.usageSchema u)) =
  Ok (["seconds" ↦ int 4; "size" ↦ str "640x480"], false).
Proof. vm_compute. reflexivity. Qed.

(** Suno: the answer to a poll of one task is never read. *)
Lemma suno_poll_of_one_task_throws {H : Host} {U : TaskHost} ctx body :
  ∃ e, PluginSuno.parseTaskResult ctx body = Err e.
Proof. eexists. reflexivity. Qed.
