(* ===== verification/DoubaoTheorems.v ===== *)
(** * Properties of the Doubao plugins

    Images that are billed by tier, draft tasks, the protocol pinned on a
    task, and durations; each with an input it applies to. *)
From stdpp Require Import base list option numbers sets.
From Stdlib Require Import ZArith SpecFloat Lia.
From S2P Require Import Prelude.
From S2P Require Import JsString.
From S2P Require Import JsNumber.
From S2P Require Import Syntax.
From S2P Require Import Runtime.
From S2P Require Import Display.
From S2P Require Import Json.
From S2P Require Import JsText.
From S2P Require Import JsonPrint.
From S2P Require Import AdvancedCustom.
From S2P Require Import JsDynamic.
From S2P Require Import PluginCommon.

From S2P Require Import PluginUsage.
From S2P Require Import PluginBilling.
From S2P Require Import Seedream.
From S2P Require Import DoubaoFacts.
From S2P Require Import PluginDoubao.
From S2P Require Import LocalDoubao.
From S2P Require Import PluginTheorems.

(** ** Images *)


Definition image_context : jsval :=
  JObj ["model" ↦ str "doubao-seedream-4-0-250828"; "usagePurpose" ↦ str "facts";
        "requestBody" ↦ JObj ["model" ↦ str "doubao-seedream-4-0-250828"; "prompt" ↦ str "a fox";
          "image" ↦ JArr [str "https://a/1.png"; str "https://a/2.png"]; "size" ↦ str "1k"; "stream" ↦ JBool false;
          "sequential_image_generation" ↦ str "auto";
          "sequential_image_generation_options" ↦ JObj ["max_images" ↦ int 14]]].


(** C33: a finished image task is settled on the images that were delivered, at
    most seventeen: each is counted once, in the tier of its own size, and
    neither tier is settled when one of the sizes cannot be read; a count the
    provider reports must be the number of the images, and reference images
    are taken only up to fourteen. *)
Theorem settled_on_delivered_images {H : Host} {U : TaskHost} b f :
  imageUsage b = Ok f →
  ∃ payloads, imagePayloads b = Ok payloads ∧ length payloads ≤ MAX_IMAGE_OUTPUTS ∧
    (is_defined (or_object b~>"usage")~>"generated_images" = true →
     strict_eq (or_object b~>"usage")~>"generated_images" (int (Z.of_nat (length payloads))) = true) ∧
    let above := length (List.filter above_tier payloads) in
    ((Forall (λ item, imageSizePixels item~>"size" ≠ None) payloads ∧
      own f (js "images_above_1_5k") = Some (int (Z.of_nat above)) ∧
      own f (js "images_up_to_1_5k") = Some (int (Z.of_nat (length payloads - above)))) ∨
     (Exists (λ item, imageSizePixels item~>"size" = None) payloads ∧
      own f (js "images_above_1_5k") = None ∧ own f (js "images_up_to_1_5k") = None)) ∧
    (∀ v, own f (js "input_images") = Some v → integer_value v = true ∧ ngeb (to_number v) NZERO = true ∧
       nleb (to_number v) (nZ (Z.of_nat MAX_REFERENCE_IMAGES)) = true).
Proof. apply image_usage_spec. Qed.

Definition image_answer : jsval :=
  JObj ["data" ↦ JArr [JObj ["url" ↦ str "https://a/1.png"; "size" ↦ str "1024x1024"];
                       JObj ["url" ↦ str "https://a/2.png"; "size" ↦ str "2048x2048"];
                       JObj ["error" ↦ JObj ["code" ↦ str "failed"]]];
        "usage" ↦ JObj ["generated_images" ↦ int 2; "input_images" ↦ int 90]].

Lemma settled_on_delivered_images_witness :
  ∃ f payloads, imageUsage image_answer = Ok f ∧ imagePayloads image_answer = Ok payloads ∧
    length payloads ≤ MAX_IMAGE_OUTPUTS ∧ own f (js "images_above_1_5k") = Some (int 1) ∧
    own f (js "images_up_to_1_5k") = Some (int 1) ∧ own f (js "input_images") = None.
Proof.
  destruct (imageUsage image_answer) as [f|] eqn:E; [|vm_compute in E; discriminate E].
  destruct (@settled_on_delivered_images plain_host plain_tasks image_answer f E) as (payloads & H1 & H2 & _).
  exists f, payloads. vm_compute in E. injection E as <-. conjs; [reflexivity|exact H1|exact H2|reflexivity..].
Defined.

(** A task refers to drafts only by the upstream ids of the origin tasks
    the gateway resolved: no id of a client reaches the provider. *)
Theorem drafts_refer_to_origin_tasks {H : Host} {U : TaskHost} ctx req b has :
  ark_body ctx req = Ok (b, has) →
  ∃ content, own b (js "content") = Some (JArr content) ∧
    Forall (λ item, nonempty_text (draft_id item) = true → origin_of ctx~>"originTasks" (draft_id item)) content.
Proof. apply drafts_are_origins. Qed.

Definition draft_item (id : string) : jsval :=
  JObj ["type" ↦ str "draft_task"; "draft_task" ↦ JObj ["id" ↦ str id]].
Arguments draft_item id%_string.
Definition draft_context : jsval :=
  JObj ["upstreamModel" ↦ str "doubao-seedance-2-0-260128";
        "originTasks" ↦ JArr [JObj ["taskId" ↦ str "task_1"; "upstreamTaskId" ↦ str "cgt-9"]]].
Definition draft_request (id : string) : jsval :=
  JObj ["prompt" ↦ str "a fox"; "metadata" ↦ JObj ["content" ↦ JArr [draft_item id]]].
Arguments draft_request id%_string.

Lemma drafts_refer_to_origin_tasks_witness :
  ark_body draft_context (draft_request "task_2") = Err (Thrown (js "origin task is unavailable")) ∧
  ∃ b has content, ark_body draft_context (draft_request "task_1") = Ok (b, has) ∧
    own b (js "content") = Some (JArr content) ∧ draft_item "cgt-9" ∈ content ∧
    origin_of draft_context~>"originTasks" (js "cgt-9").
Proof.
  split; [vm_compute; reflexivity|].
  destruct (ark_body draft_context (draft_request "task_1")) as [[b has]|] eqn:E; [|vm_compute in E; discriminate E].
  destruct (@drafts_refer_to_origin_tasks plain_host plain_tasks draft_context (draft_request "task_1") b has E) as (content & H1 & H2).
  assert (draft_item "cgt-9" ∈ content) as Hin.
  { vm_compute in E. injection E as <- <-. vm_compute in H1. injection H1 as <-. left. }
  exists b, has, content. conjs; [reflexivity|exact H1|exact Hin|].
  rewrite Forall_forall in H2. apply (H2 _ Hin). reflexivity.
Defined.

(** ** The local plugin *)

(** C34: the protocol a task was submitted with is pinned on it: every later
    context that carries the state of the submission, or a state a poll wrote
    since, is interpreted under that protocol, whatever the settings of the
    channel have become. *)
Theorem protocol_is_pinned {H : Host} {U : TaskHost} {L : TaskHostLaws} ctx resp r :
  imageTask ctx = false → LocalDoubao.parseSubmitResponse ctx resp = Ok r →
  ∃ u, videoUpstream ctx = Ok u ∧
    (∀ later, truthy later = true → later~>"state" = r~>"state" → resolvedVideoUpstream later = Ok u) ∧
    (∀ task, truthy task = true → task~>"state" = r~>"state" → pinnedUpstreamOf task = Ok u) ∧
    ∀ polled body r' later, truthy polled = true → polled~>"state" = r~>"state" →
      LocalDoubao.parseTaskResult polled body = Ok r' → r'~>"state" ≠ JUndefined →
      truthy later = true → later~>"state" = r'~>"state" → resolvedVideoUpstream later = Ok u.
Proof.
  intros Hi Hr. destruct (submit_pins _ _ _ Hi Hr) as (u & Hu & P). exists u. conjs; [done|..].
  - intros later T E. apply pin_resolves; [by rewrite E|done].
  - intros task T E. apply pin_of_task; [by rewrite E|done].
  - intros polled b r' later T E Hp Hd Tl El. rewrite <- E in P.
    destruct (poll_pins _ _ _ _ P T Hp) as [?|P']; [done|]. apply pin_resolves; [by rewrite El|done].
Qed.

Definition channel_context (protocol profile : string) : jsval :=
  JObj ["model" ↦ str "doubao-seedance-2-0-260128"; "requestBody" ↦ JObj ["prompt" ↦ str "a fox"];
        "videoUpstream" ↦ JObj ["protocol" ↦ str protocol; "profile" ↦ str profile]].
Arguments channel_context protocol%_string profile%_string.

Lemma protocol_is_pinned_witness :
  ∃ r, @LocalDoubao.parseSubmitResponse plain_host (channel_context "openai_video" "seedance_codeyy")
         (JObj ["body" ↦ JObj ["id" ↦ str "video_1"]]) = Ok r ∧
    @resolvedVideoUpstream plain_host
      (JObj ["state" ↦ r~>"state"; "videoUpstream" ↦ JObj ["protocol" ↦ str "ark"]]) = Ok (OpenAIVideo Codeyy).
Proof.
  destruct (@LocalDoubao.parseSubmitResponse plain_host (channel_context "openai_video" "seedance_codeyy")
    (JObj ["body" ↦ JObj ["id" ↦ str "video_1"]])) as [r|] eqn:E; [|vm_compute in E; discriminate E].
  assert (imageTask (channel_context "openai_video" "seedance_codeyy") = false) as I by (vm_compute; reflexivity).
  destruct (@protocol_is_pinned plain_host plain_tasks plain_laws _ _ r I E) as (u & Hu & H1 & _). vm_compute in Hu. injection Hu as <-.
  exists r. split; [reflexivity|]. apply H1; reflexivity.
Defined.


Definition local_context : jsval :=
  JObj ["model" ↦ str "doubao-seedance-2-0-260128"; "upstreamModel" ↦ str "dreamina-seedance-2-0-260128";
        "apiKey" ↦ str "key"; "baseUrl" ↦ str "https://api.example/V1/"; "usagePurpose" ↦ str "facts";
        "requestBody" ↦ JObj ["prompt" ↦ str "a fox"; "seconds" ↦ str "7"; "size" ↦ str "3840x2160"];
        "videoUpstream" ↦ JObj ["protocol" ↦ str "openai_video"; "profile" ↦ str "seedance_zapgogo"]].


(** A null or empty [seconds] hides the duration of the metadata from the
    check, but not from the request: over the Ark protocol two hours are sent
    and the one hour of the limit is estimated. *)
Example empty_seconds_hide_the_duration :
  let ctx := JObj ["model" ↦ str "doubao-seedance-2-0-260128"; "apiKey" ↦ str "key"; "baseUrl" ↦ str "https://ark.example";
                   "usagePurpose" ↦ str "facts";
                   "requestBody" ↦ JObj ["prompt" ↦ str "a fox"; "seconds" ↦ JStr [];
                                         "metadata" ↦ JObj ["duration" ↦ int 7200; "resolution" ↦ str "720p"]]] in
  (q ← @LocalDoubao.buildSubmitRequest plain_host plain_tasks ctx; Ok (q~>"body")~>"duration") = Ok (int 7200) ∧
  (f ← @LocalDoubao.extractUsage plain_host plain_tasks ctx; Ok (own (default [] f) (js "tokens"))) =
    Ok (Some (JNum (estimateTokens (nZ 3600) (js "720p")))).
Proof. vm_compute. split; reflexivity. Qed.


Definition finished_task : jsval := JObj ["model" ↦ str "doubao-seedance-2-0-260128"].
Definition finished_answer : jsval :=
  JObj ["status" ↦ str "succeeded"; "resolution" ↦ str "4K";
        "usage" ↦ JObj ["completion_tokens" ↦ int 0; "total_tokens" ↦ int 500]].


Definition codeyy_task (url : string) : jsval :=
  JObj ["task_id" ↦ str "task_1"; "status" ↦ str "SUCCESS";
        "state" ↦ JObj ["video_upstream" ↦ upstream_value (OpenAIVideo Codeyy)];
        "data" ↦ JObj ["object" ↦ str "video"; "metadata" ↦ JObj ["url" ↦ str url]]].
Arguments codeyy_task url%_string.


(** A task that runs under the Ark protocol shows the snapshot of its provider
    as it is. *)
Example ark_address_is_passed_on :
  (output ← @modelArkTask plain_host plain_tasks
     (JObj ["task_id" ↦ str "task_1"; "status" ↦ str "SUCCESS";
            "data" ↦ JObj ["content" ↦ JObj ["video_url" ↦ str "not a url"]]]);
   Ok (output~>"content")~>"video_url") = Ok (str "not a url").
Proof. vm_compute. reflexivity. Qed.
