(* ===== verification/AlibabaTheorems.v ===== *)
(** * Properties of the Alibaba plugin

    The answer that comes as events, what is sent and billed, and durations
    the model chooses; each with an input it applies to where it has
    hypotheses. *)
From stdpp Require Import base list option numbers sets.
From Stdlib Require Import ZArith SpecFloat Lia.
From S2P Require Import Prelude.
From S2P Require Import JsString.
From S2P Require Import JsNumber.
From S2P Require Import Syntax.
From S2P Require Import Runtime.
From S2P Require Import Display.
From S2P Require Import Json.
From S2P Require Import JsText.
From S2P Require Import JsonPrint.
From S2P Require Import AdvancedCustom.
From S2P Require Import JsDynamic.
From S2P Require Import PluginCommon.
From S2P Require Import AlibabaImages.
From S2P Require Import AlibabaVideos.
From S2P Require Import PluginAlibaba.
From S2P Require Import AlibabaStream.
From S2P Require Import PluginUsage.
From S2P Require Import AlibabaStreamFacts.
From S2P Require Import AlibabaFacts.
From S2P Require Import PluginTheorems.

(** ** Properties of streamed answers

    The answer of an Alibaba model that comes as events, as the gateway keeps
    it. *)

(** C37: the stream is read event by event until the first event after which
    every choice has stopped.  If it comes to that, the document the gateway
    has built from the changes is the answer that the events carry: for every
    choice its parts in order, with texts that follow each other joined, the
    last usage of each kind, and, when no part is both text and image, the
    images of all events, each once.  Otherwise either the events end before
    that, or an event cannot be accepted (it is no object, reports an error or
    has a choice without a list of content), or the changes of an event are
    more than 256 or bring the document built so far beyond its limits,
    whatever they are. *)
Theorem streamed_answer_is_assembled fits ctx events :
  match readSubmitEvents fits ctx events None JNull with
  | Err Unfinished => ∃ bodies, Forall2 accepts events bodies ∧ running nothing bodies
  | r =>
      ∃ seen event rest bodies, events = seen ++ event :: rest ∧ Forall2 accepts seen bodies ∧ running nothing bodies ∧
        match r with
        | Ok doc =>
            ∃ body, accepts event body ∧
              let whole := fold_left assemble (bodies ++ [body]) nothing in
              finished whole = true ∧ shown whole true doc ∧
              (Forall plain_event (bodies ++ [body]) →
               pictures (imageContent doc) ≡ₚ flat_map event_pictures (bodies ++ [body]))
        | Err InvalidChanges => (∃ body, accepts event body) ∧ over_limits fits ctx seen event None JNull
        | Err _ => ∀ body, ¬ accepts event body
        end
  end.
Proof.
  pose proof (run_shown fits ctx events None nothing JNull eq_refl eq_refl) as R. unfold stream_outcome in R.
  destruct (readSubmitEvents fits ctx events None JNull) as [doc|[]]; [|done..].
  destruct R as (seen & event & rest & bodies & E & F & Hr & body & Hb & W & D). apply document_shown in D.
  exists seen, event, rest, bodies. conjs; [done..|]. exists body. cbn zeta. conjs; [done..|].
  intros P. rewrite (shown_pictures _ _ _ D). by apply (run_pictures _ nothing).
Qed.

(** Two events: a text in two pieces, then an image. *)
Definition stream_event (data : string) : jsval := JObj ["event" ↦ str "message"; "data" ↦ JStr (quoted data)].
Arguments stream_event data%_string.
Definition stream_example : list jsval :=
  [stream_event "{'output':{'choices':[{'message':{'content':[{'text':'a f'}]},'finish_reason':'null'}]},'usage':{'image_count':0}}";
   stream_event "{'output':{'choices':[{'message':{'content':[{'text':'ox'},{'image':'https://a/1.png'}]},'finish_reason':'stop'}]},'usage':{'image_count':1},'request_id':'r1'}"].

Example stream_example_runs :
  (doc ← readSubmitEvents (λ _, true) JNull stream_example None JNull;
   Ok (imageContent doc, doc~>"usage", doc~>"request_id")) =
  Ok ([Words (js "a fox"); Picture (js "https://a/1.png")], JObj ["image_count" ↦ int 1], str "r1").
Proof. vm_compute. reflexivity. Qed.

(** A text that continues another is joined to it, and an image in the same
    part is not passed on: the images of a stream are all delivered only when
    no part is both. *)
Example alibaba_image_of_a_text_is_lost :
  let part (s : string) : jsval :=
    stream_event ("{'output':{'choices':[{'message':{'content':[" ++ s ++ "]},'finish_reason':'stop'}]}}") in
  (doc ← readSubmitEvents (λ _, true) JNull
           [part "{'text':'a'},{'text':'b','image':'https://a/1.png'}"%string] None JNull;
   Ok (imageContent doc)) = Ok [Words (js "ab")].
Proof. vm_compute. reflexivity. Qed.

(** ** Properties of the Alibaba plugin

    What is sent and billed, and durations the model chooses; each with an
    input it applies to. *)

(** ** Billing *)

(** C38: whatever image request the plugin submits is billed for what it
    sends: the facts are exactly those of the schema of its model, and the
    count is the number of images of the body, a whole number from one to
    twelve. *)
Theorem alibaba_image_is_billed {U : TaskHost} ctx k request :
  imageModel ctx = Ok (Some k) → ctx~>"usagePurpose" = str "facts" → buildSubmitRequest ctx = Ok request →
  ∃ facts x, extractUsage ctx = Ok facts ∧ facts.*1 = (image_schema ctx).*1 ∧
    usage_valid (image_schema ctx) facts = true ∧
    own facts (js "image_count") = Some (JNum x) ∧ whole_between x 1 12 ∧
    let sent := (request~>"body")~>"parameters" in
    (if truthy sent~>"enable_interleave" then sent~>"max_images" else sent~>"n") = JNum x.
Proof.
  intros Hi Hp Hb. unfold buildSubmitRequest in Hb. rewrite Hi in Hb. cbn [mbind result_bind] in Hb.
  unfold image_request in Hb. apply bind_Ok in Hb as (c & Hc & Hb). apply bind_Ok in Hb as (root & _ & <-%Ok_inj).
  destruct (estimate_spec _ _ Hc) as (Hk & Hv & x & Hx & Hs & W). exists (imageEstimate ctx c), x.
  conjs; [|done|done|done|done|exact Hs].
  unfold extractUsage. rewrite Hi. cbn [mbind result_bind]. rewrite Hc. cbn [mbind result_bind]. by rewrite Hp.
Qed.

Definition ali_image_context : jsval :=
  JObj ["model" ↦ str "qwen-image-3.0-pro"; "apiKey" ↦ str "key"; "baseUrl" ↦ str "https://dashscope.example";
        "usagePurpose" ↦ str "facts";
        "requestBody" ↦ JObj ["model" ↦ str "qwen-image-3.0-pro"; "prompt" ↦ str "a fox"; "n" ↦ int 2;
          "size" ↦ str "1024x1024"; "images" ↦ JArr [str "https://a/1.png"]]].

Lemma alibaba_image_is_billed_witness :
  ∃ facts x, extractUsage (U := plain_tasks) ali_image_context = Ok facts ∧
    own facts (js "image_count") = Some (JNum x) ∧ whole_between x 1 12 ∧
    own facts (js "output_image_type") = Some (str "qima_output_1k").
Proof.
  destruct (@buildSubmitRequest plain_tasks ali_image_context) as [q|] eqn:E; [|vm_compute in E; discriminate E].
  assert (imageModel ali_image_context = Ok (Some qwen)) as I by (vm_compute; reflexivity).
  destruct (@alibaba_image_is_billed plain_tasks ali_image_context qwen q I eq_refl E)
    as (facts & x & H1 & _ & _ & H2 & H3 & _).
  exists facts, x. conjs; [exact H1|exact H2|exact H3|]. vm_compute in H1. injection H1 as <-. vm_compute. reflexivity.
Defined.

(** C39: a video request that the plugin submits is billed, as long as its
    media can be read, which the models that take media have checked: the
    resolution is the one the settings that are sent show, and one the model
    offers; a speech is billed twenty seconds; a model that takes all media is
    billed thirty seconds when a reference video is sent or the duration is
    -1, and otherwise the duration that is sent; any other model is billed
    the duration that is sent; sound is billed unless it was switched off, and
    the facts are valid for the schema of the model. *)
Theorem alibaba_video_is_billed {U : TaskHost} ctx request :
  imageModel ctx = Ok None → ctx~>"usagePurpose" = str "facts" → buildSubmitRequest ctx = Ok request →
  ∃ c profile res, convert ctx = Ok c ∧ modelProfile (video_model c) = Ok profile ∧
    request~>"body" = AlibabaVideos.video_body c ∧ res ∈ resolutions profile ∧ shows_resolution (video_settings c) res ∧
    (takes_media profile = true → media_readable (video_input c)) ∧
    (media_readable (video_input c) →
     ∃ n, let schema := wanVideoUsageSchema (resolutions profile) (audio_model (video_model c)) in
       let audio := negb (strict_eq (JObj (video_settings c))~>"audio" (JBool false)) in
       let facts := ["seconds" ↦ JNum n; "resolution" ↦ JStr res]
                    ++ (if audio_model (video_model c) then ["audio" ↦ JBool audio] else []) in
       extractUsage ctx = Ok facts ∧ billable n = true ∧ usage_valid schema facts = true ∧
       reserves profile (video_input c) (JObj (video_settings c))~>"duration" n).
Proof. apply video_billed. Qed.

Definition ali_video_context : jsval :=
  JObj ["model" ↦ str "wan2.6-t2v"; "apiKey" ↦ str "key"; "baseUrl" ↦ str "https://dashscope.example";
        "usagePurpose" ↦ str "facts";
        "requestBody" ↦ JObj ["model" ↦ str "wan2.6-t2v"; "prompt" ↦ str "a fox"; "size" ↦ str "832x1088";
          "seconds" ↦ str "7"]].

Lemma alibaba_video_is_billed_witness :
  ∃ request, @buildSubmitRequest plain_tasks ali_video_context = Ok request ∧
    ((request~>"body")~>"parameters")~>"size" = str "832*1088" ∧
    ∃ n, extractUsage (U := plain_tasks) ali_video_context =
           Ok ["seconds" ↦ JNum n; "resolution" ↦ str "720P"] ∧ billable n = true ∧ n = nZ 7.
Proof.
  destruct (@buildSubmitRequest plain_tasks ali_video_context) as [q|] eqn:E; [|vm_compute in E; discriminate E].
  assert (imageModel ali_video_context = Ok None) as I by (vm_compute; reflexivity).
  destruct (@alibaba_video_is_billed plain_tasks ali_video_context q I eq_refl E)
    as (c & profile & res & Hc & Hm & _ & _ & _ & _ & Hf).
  vm_compute in Hc. injection Hc as <-. vm_compute in Hm. injection Hm as <-.
  destruct Hf as (n & H1 & H2 & _ & H3 & H4); [constructor|].
  exists q. split; [reflexivity|]. split; [vm_compute in E; injection E as <-; vm_compute; reflexivity|].
  exists n. vm_compute in H1. vm_compute in H3. injection H3 as <-. conjs; [vm_compute; reflexivity|exact H2|reflexivity].
Defined.

(** The duration a client asks for survives the normal form of its
    request, in which no field holds the -1 that stands for a duration the
    model chooses: the marker [auto_duration] stands for it, and what the
    conversion reads is what was asked for. *)
Theorem asked_duration_is_read {U : TaskHost} value req :
  normalizeRequest value = Ok req →
  let r := JObj req in
  minus_one r~>"duration" = false ∧ minus_one r~>"seconds" = false ∧ minus_one (native_of r)~>"duration" = false ∧
  (minus_one (asked_duration value) = true → raw_duration r (native_of r) = int (-1)) ∧
  (minus_one (asked_duration value) = false →
   raw_duration r (native_of r) = asked_duration value ∨
   is_nullish (raw_duration r (native_of r)) = true ∧ is_nullish (asked_duration value) = true).
Proof. apply normal_duration. Qed.

Definition smart_request : jsval :=
  JObj ["model" ↦ str "wan3.0-video"; "seconds" ↦ int 8;
        "metadata" ↦ JObj ["parameters" ↦ JObj ["duration" ↦ str "-1"]]].

Lemma asked_duration_is_read_witness :
  ∃ req, @normalizeRequest plain_tasks smart_request = Ok req ∧ own req (js "seconds") = None ∧
    own req (js "auto_duration") = Some (JBool true) ∧
    raw_duration (JObj req) (native_of (JObj req)) = int (-1).
Proof.
  destruct (@normalizeRequest plain_tasks smart_request) as [req|] eqn:E; [|vm_compute in E; discriminate E].
  destruct (@asked_duration_is_read plain_tasks smart_request req E) as (_ & _ & _ & H1 & _).
  exists req. split; [reflexivity|]. assert (minus_one (asked_duration smart_request) = true) as A by (vm_compute; reflexivity).
  specialize (H1 A). vm_compute in E. injection E as <-. conjs; [reflexivity|reflexivity|exact H1].
Defined.

(** A finished image task is settled on a whole number of at most twelve
    images, and not on none when images were delivered. *)
Theorem alibaba_settles_delivered_images ctx b f :
  imageUsage ctx b = Ok f →
  let images := pictures (imageContent b) in
  length images ≤ MAX_IMAGE_OUTPUTS ∧
  (f = [] ∧ imageContent b = [] ∨
   ∃ x, own f (js "image_count") = Some (JNum x) ∧ whole_between x 0 12 ∧ (images ≠ [] → neqb x (nZ 0) = false)).
Proof. apply image_usage_count. Qed.

(** ** Metadata *)

Definition priced_by (model : jsstr) : list usage_profile :=
  List.filter (λ p, str_in model (models p)) usageProfiles.

(** Every model of the plugin is priced by exactly one usage profile, and is
    either an image model or a video model, whose profile lists the
    resolutions it offers. *)
Example alibaba_models_are_priced :
  forallb (λ model,
    match priced_by model with
    | [p] =>
        match entry_of IMAGE_MODELS (modelKey (JStr model)), entry_of WAN_MODELS (modelKey (JStr model)) with
        | Some _, None => bool_decide ((schema p).*1 = (image_schema (JObj ["model" ↦ JStr model])).*1)
        | None, Some profile =>
            bool_decide ((schema p).*1 = (wanVideoUsageSchema (resolutions profile) (audio_model (JStr model))).*1)
            && match assoc (schema p) (js "resolution") with
               | Some d => bool_decide (f_enum d = Some (resolutions profile))
               | None => false
               end
        | _, _ => false
        end
    | _ => false
    end) meta_models = true.
Proof. vm_compute. reflexivity. Qed.

(** ** Where the hooks disagree *)

(** Media that are not a list are sent with a model that does not take media,
    but stop the estimate with an error of the language. *)
Example alibaba_media_stop_the_estimate :
  let ctx := JObj ["model" ↦ str "wan2.6-t2v"; "apiKey" ↦ str "key"; "baseUrl" ↦ str "https://dashscope.example";
                   "usagePurpose" ↦ str "facts";
                   "requestBody" ↦ JObj ["model" ↦ str "wan2.6-t2v"; "prompt" ↦ str "a fox";
                                         "media" ↦ str "https://a/clip.mp4"]] in
  (q ← @buildSubmitRequest plain_tasks ctx; Ok ((q~>"body")~>"input")~>"media") = Ok (str "https://a/clip.mp4") ∧
  @extractUsage plain_tasks ctx = Err TypeError.
Proof. vm_compute. split; reflexivity. Qed.
